(* ===== verification/_CoqProject ===== *)
-Q . S2P
Prelude.v
Common.v
Ids.v
Text.v
PortRange.v
Endpoint.v
Utf8.v
Codec.v
Messages.v
MessageFormat.v
Stream.v
Frame.v
IpcFrame.v
RemoteSdk.v
StateMachine.v
Clock.v
Auth.v
Replay.v
RateLimit.v
KeyedMap.v
Quota.v
Session.v
TunnelRegistry.v
ServerWorkerPool.v
AcceptRetry.v
ClientPolicy.v
TlsAdmission.v
ControlStrand.v
Models.v
Rows.v
Database.v
Repository.v
StorageSpec.v
StorageRun.v
Storage.v
Reconciler.v
Io.v
Relay.v
Datagram.v
Socks5.v
Json.v
IpcProtocol.v
IpcServer.v
IpcPath.v
IpcClient.v
Credentials.v
Control.v
ControlRun.v
ControlHandlers.v
ControlServers.v
ControlSagas.v
ConfigFile.v
Config.v
ConfigRun.v
ConfigApply.v
ConfigService.v
ControlService.v
ServerManager.v
ManagerRun.v
ManagerPass.v
Daemon.v
PolicyFile.v
PolicyStore.v
PolicyManagement.v
PolicyEdit.v
PolicyRotation.v
