(* ===== verification/Prelude.v ===== *)
(** * MiniTUN: a verification of its protocols, server and daemon

    MiniTUN publishes services of a machine behind NAT through a public server.  A
    daemon (src/daemon) keeps an authenticated control connection to the server
    (src/server), registers tunnels on it, and parks worker connections; when a public
    client connects to a tunnel's port, the server hands the connection to one of the
    parked workers, and the two ends relay bytes.  The remote protocol (src/protocol)
    and the local IPC protocol (src/ipc) carry typed messages in length-prefixed frames.

    ** How the parts fit together

    Bytes from a TLS stream go through the frame decoder ([Frame]); the payload of a
    frame is decoded by the reader of its message type ([Codec], [Messages]), which the
    SDK wraps ([RemoteSdk]); the connection state machine ([StateMachine]) accepts or
    rejects the message type; the handshake checks clock skew ([Clock]), the keyed
    digest of the transcript ([Auth]), the nonce ([Replay]) and the failure rate
    ([RateLimit]).  On the server, accepted sockets pass the handshake admission
    ([TlsAdmission]); an authenticated client gets a session generation ([Session]),
    registers workers ([ServerWorkerPool]) and tunnels ([TunnelRegistry]) within the
    limits of its policy ([ClientPolicy]); public connections take a slot of the quota
    ([Quota]) and wait for a worker.  [ControlStrand] composes these components the way
    server.cpp does on its control strand.  The policies come from a file ([PolicyFile],
    [PolicyStore]) that an operator edits over the management interface
    ([PolicyManagement]).  Once a worker has a connection, bytes are relayed ([Relay],
    [Datagram], [Socks5]).

    The daemon keeps servers and tunnels in a database ([Models] to [Storage]) and secrets
    in a credential store ([Credentials]).  A command line program or the SDK sends it
    requests over a local socket ([IpcClient], [IpcServer], [IpcProtocol]), which the
    control service answers ([Control], [Config]); the server manager ([ServerManager])
    keeps one session for every enabled server, whose responses the tunnel reconciler
    ([Reconciler]) writes back.  [Daemon] puts the control service, the manager and the
    sessions together on the shared stores.

    ** Files

    - [Prelude]: bytes, big-endian numbers, integer widths, list lemmas, automation;
      [Common]: error codes and [Result] (common/error.cpp, result.hpp); [KeyedMap]:
      loops over [std::unordered_map]; [Text]: the standard library's text functions.
    - [Ids], [PortRange], [Endpoint], [Clock]: common/id.cpp, port_range.cpp,
      endpoint.cpp, time.cpp.
    - [Codec], [Utf8], [Messages]: protocol/codec.cpp, protocol/messages.cpp; one
      definition per writer, reader, validator, encoder and decoder.  [MessageFormat]
      states what a message promises to the layers above it (class [WireFormatLaws]: a
      well-formed value is encoded as its wire image, and the decoder accepts the images
      and nothing else) and has an instance for every message.
    - [Stream]: the interface of an incremental decoder (class [StreamDecoder]: a step
      function refined by a reference splitter) and the theorems that follow from it for
      every sequence of reads; [Frame] (protocol/frame.cpp) and [IpcFrame]
      (ipc/frame.cpp) are its two instances.
    - [RemoteSdk]: sdk/remote_protocol.cpp.  [StateMachine]: protocol/state_machine.cpp,
      every transition of both roles and both kinds of connection.
    - [Auth], [Replay], [RateLimit]: the transcripts and verification, the class
      NonceReplayCache and the class AuthRateLimiter of protocol/auth.cpp.
    - [Quota], [Session], [TunnelRegistry], [ServerWorkerPool], [AcceptRetry],
      [ClientPolicy], [TlsAdmission]: server/connection_quota.cpp, session_registry.cpp,
      tunnel_registry.cpp, worker_pool.cpp, accept_recovery.cpp, client_policy.cpp,
      tls_admission.cpp.  [ControlStrand]: the strand operations of server/server.cpp.
    - [PolicyFile], [PolicyStore]: the rest of client_policy.cpp, from the system calls to
      the store of snapshots.  [PolicyManagement]: policy_management.cpp and the update of
      policies in server.cpp.  [PolicyEdit]: what editing and printing a parsed document
      do to it.  [PolicyRotation]: the rotation of a secret through all of them.
    - [Io], [Relay], [Datagram], [Socks5]: protocol/relay.cpp, datagram.cpp, socks5.cpp.
    - [Json]: the values of nlohmann::json, the callback that bounds parsing, the library
      as a parameter with its laws.  [IpcProtocol], [IpcServer], [IpcPath], [IpcClient]:
      ipc/protocol.cpp, dispatcher.cpp, local_server.cpp, local_internal.hpp,
      local_client.cpp.
    - [Models], [Rows], [Database], [Repository]: storage/models.cpp, sqlite_internal.cpp,
      database.cpp and the three repositories.  [StorageSpec] is the abstract state, two
      maps of records with the effect of every operation; [StorageRun] and [Storage] prove
      that the repositories implement it under every failure of SQLite.
    - [Reconciler]: daemon/tunnel_reconciler.cpp.  [Credentials]: storage/
      credential_store.cpp and daemon/credential_keys.hpp, with the interface the daemon
      relies on (classes [CredentialStore], [CredentialStoreLaws]).
    - [Control]: daemon/control_service.cpp.  [ControlRun] has the rules by which code on
      the two stores is verified; [ControlHandlers], [ControlServers] and [ControlSagas]
      apply them to the handlers; [ControlService] has the dispatcher and the theorems.
    - [ConfigFile], [Config]: daemon/declarative_config.cpp; [ConfigRun], [ConfigApply],
      [ConfigService]: what a plan, an application and an export do to the stores.
    - [ServerManager]: daemon/server_manager.cpp; [ManagerRun], [ManagerPass]: the stores
      and the table of sessions under it; [Daemon]: the composition.

    A class is a [Record] of its members (with their names, a trailing underscore
    included), a method a function that takes and returns the record; a fallible
    function returns a [Result] with the code's error and message, one that also changes
    an object is an [Action] of the state and error monad below; machine integers are
    [Z] with the wrap-around written where it can happen; a [std::unordered_map] is a
    [gmap], and where the code walks over one the order is an argument of the
    operation.  Callbacks, listeners and sockets are effects listed in the result.
    Programs over a component are step relations ([strand_step], [pool_run],
    [registry_run], [session_run], [quota_step], the connection of two state machines),
    and the invariants are proved by induction over them.

    Coroutines that run on one strand are event machines: the state says at which
    [co_await] each is suspended, an event is the completion it waits for ([Relay],
    [Datagram], [IpcServer], [IpcClient]).  The [run] of a relay waits on a timer that is
    set to the end of time, and resumes only after that timer was cancelled
    ([CompletionWait]).  The IPC server dispatches requests on four threads, and a handler
    is an [Execution], a sequence of actions on the shared state, whose actions come in
    between those of the handlers on the other threads.  Failures of SQLite and of system
    calls are scripts or arguments, and the theorems hold for all of them.

    ** What the theorems show

    - Wire formats: every well-formed message is encoded, framed, sent in any chunks and
      received as itself ([sdk_end_to_end]); every accepted frame is the one canonical
      encoding of a valid message; the decoders are total, exact, insensitive to
      chunking, bounded in memory, and stay failed after an error.
    - Connections: the two state machines never reject each other's next message, a
      session starts only after the whole handshake, a relay only after the worker
      handshake; authentication data are bound to every field of the transcript up to
      HMAC collisions; a nonce is accepted once; a failing source is blocked.
    - Server: quota, worker pool, listener registry, sessions and admission keep exact
      accounts within their limits under any sequence of calls; the control strand hands
      workers only connections of their own current session while the server runs, keeps
      its queues consistent, also when the server is stopped, and cleans up a session
      completely without touching others.
    - Policies: a snapshot has exactly the well-formed policies of its file; a replacement
      is atomic on disk and in memory (a failed one may leave its temporary file, when that
      cannot be unlinked) and is read back by a reload; it reports the clients whose
      revision fingerprint changed.  A rotation keeps the outgoing secret for exactly the
      grace, unless the new secret went into its file, and disturbs no session; the source
      allowlist is exact.
    - Relays: bytes and datagrams arrive in order, once and unchanged, and every relay
      ends: its completion timer is cancelled and [run] returns; the SOCKS5 handshake
      accepts exactly the requests it supports.
    - IPC: a call is answered with what the handler of its request returned, and the
      actions of all handlers are one chain of states; sessions, tasks, threads and memory
      are bounded; a request is parsed back from its text; the parse limits are exact; the
      socket lies in directories nobody else can write.
    - Storage: the repositories refine maps of valid records; a failed operation leaves
      the committed state, recovery reaches the initial state of every record.  Operations
      are given valid text to store ([op_wf]).
    - Daemon: whatever requests, passes, reloads and session writes happen in whatever
      order, the state stays valid and every credential a server refers to is in the
      store; logins, removals and declarative configurations do exactly what they answer.
      A request that fails leaves the committed state and the contents of every credential
      a server refers to ([secrets_kept]), a failed removal every key of the store
      ([undisturbed]); an applied configuration leaves the contents of the files it names
      in the store ([secrets_configured]).  A pass gives every server the session its
      record asks for; stale generations write no tunnel and superseded sessions no server
      state.
    - Some theorems describe behaviour the code does not intend:
      [fingerprint_fields_run_together], [late_registration_displaces_current],
      [server_remove_refused_after_clock_step], [unchecked_message_blocks_recovery],
      [ended_generation_still_current], [exchanged_names_refused],
      [rotation_overwrites_outgoing_secret], [refused_upsert_changes_secret],
      [reload_keeps_unchecked_text].

    ** Fuel and bounds

    Every loop is structurally recursive or has fuel that is proved enough: the decoders'
    loop [feed_loop] runs on the length of the chunk, as each round consumes a byte (from
    the laws of [StreamDecoder]); [cancel_loop] and [notify_loop] on the length
    of the queue plus one, each round that continues taking one connection off it; the text
    loops of [Endpoint], [Text], [IpcPath] and [PolicyManagement] on the length of the text
    or the bits of the number; reads and writes of files on the list of what the calls do.

    ** Parameters and assumptions

    Code outside the repository is an argument or a class: Asio's address parsers
    ([AsioAddress], [AsioMakeAddress], [AsioBindAddress], [AddressParser]), HMAC-SHA256
    ([Hmac]), SHA-256 and address printing ([PolicyDigest]), the JSON library
    ([JsonLibrary], [IndentedDump], with their laws), SQLite's messages, the files
    ([FileSystem], [PolicySystem]), the draws of RAND_bytes, the answers of the operating
    system, the clock.  Mutexes make each call one step; in [Daemon] and [ControlService] a
    request, a pass or the write of a session is taken as a whole (a handler of one
    action), while the theorems on the IPC server hold for handlers of any actions;
    allocation does not fail, and erasing memory is not observable.  The theorems on the
    daemon assume that the server identifiers it draws are not those of configured servers
    ([unclashing], [never_clashing]).

    ** Not modelled

    TLS contexts and certificates, hole punching, HTTP framing, the daemon's worker
    connections and the UDP peer sessions of a tunnel are calls of OpenSSL and Asio around
    the modelled protocols; opening, migrating, backing up and checking database files are
    SQLite and system calls; the token buckets of TLS admission and of client policies
    compute with doubles; the SDK client builds parameters for modelled requests; logging,
    command lines, metrics texts and test hooks are input and output. *)
From Stdlib Require Export ZArith Lia Strings.Byte Strings.String.
From stdpp Require Export base list option gmap.

#[global] Open Scope Z_scope.
#[global] Open Scope list_scope.

(** ** Bytes

    A [std::uint8_t], a [char] and an [unsigned char] are one [byte]; a
    [std::vector<std::uint8_t>], a [std::span] of it, a [std::string] and a
    [std::string_view] are a [bytes]. *)

Abbreviation byte := Byte.byte.
Abbreviation bytes := (list Byte.byte).

(** The unsigned value of a byte, and [static_cast<std::uint8_t>] of an integer. *)
Definition Z_of_byte (b : byte) : Z := Z.of_N (Byte.to_N b).

Definition byte_of_Z (z : Z) : byte :=
  match Byte.of_N (Z.to_N (z mod 256)) with
  | Some b => b
  | None => Byte.x00
  end.

(** A string literal of the source as its bytes. *)
Definition bs (s : string) : bytes := list_byte_of_string s.

#[export] Instance byte_eq_decision : EqDecision byte := Byte.byte_eq_dec.
#[export] Instance byte_countable : Countable byte :=
  inj_countable Byte.to_N Byte.of_N Byte.of_to_N.

(** [size()] of a byte sequence or of any other container, a [std::size_t]. *)
Definition Zlen {A} (l : list A) : Z := Z.of_nat (length l).

(** Value ranges of the fixed-width integer types. *)
Definition is_uint (w z : Z) : Prop := 0 <= z < 2 ^ w.
Abbreviation is_u8 := (is_uint 8).
Abbreviation is_u16 := (is_uint 16).
Abbreviation is_u32 := (is_uint 32).
Abbreviation is_u64 := (is_uint 64).
Definition is_i64 (z : Z) : Prop := - 2 ^ 63 <= z < 2 ^ 63.

(** [std::bit_cast] between [std::int64_t] and [std::uint64_t]. *)
Definition u64_of_i64 (z : Z) : Z := z mod 2 ^ 64.
Definition i64_of_u64 (z : Z) : Z := if z <? 2 ^ 63 then z else z - 2 ^ 64.

Lemma Z_of_byte_range b : 0 <= Z_of_byte b < 256.
Proof.
  unfold Z_of_byte. pose proof (Byte.to_N_bounded b). lia.
Qed.

Lemma Z_of_byte_of_Z z : Z_of_byte (byte_of_Z z) = z mod 256.
Proof.
  unfold byte_of_Z, Z_of_byte.
  pose proof (Z.mod_pos_bound z 256 ltac:(lia)) as Hb.
  destruct (Byte.of_N (Z.to_N (z mod 256))) as [b|] eqn:E.
  - apply Byte.to_of_N in E. rewrite E. lia.
  - apply Byte.of_N_None_iff in E. lia.
Qed.

Lemma byte_of_Z_of_byte b : byte_of_Z (Z_of_byte b) = b.
Proof.
  unfold byte_of_Z, Z_of_byte.
  pose proof (Byte.to_N_bounded b).
  rewrite Z.mod_small by lia. rewrite N2Z.id. by rewrite Byte.of_to_N.
Qed.

Lemma Z_of_byte_inj b1 b2 : Z_of_byte b1 = Z_of_byte b2 -> b1 = b2.
Proof.
  intros H. rewrite <- (byte_of_Z_of_byte b1), <- (byte_of_Z_of_byte b2). by rewrite H.
Qed.

Lemma i64_of_u64_of_i64 z : is_i64 z -> i64_of_u64 (u64_of_i64 z) = z.
Proof.
  unfold is_i64, i64_of_u64, u64_of_i64. intros H.
  destruct (decide (0 <= z)).
  - rewrite Z.mod_small by lia. destruct (Z.ltb_spec z (2 ^ 63)); lia.
  - rewrite <- (Z.mod_add z 1 (2 ^ 64)) by lia. rewrite Z.mod_small by lia.
    destruct (Z.ltb_spec (z + 1 * 2 ^ 64) (2 ^ 63)); lia.
Qed.

Lemma u64_of_i64_of_u64 z : is_u64 z -> u64_of_i64 (i64_of_u64 z) = z.
Proof.
  unfold is_uint, i64_of_u64, u64_of_i64. intros H.
  destruct (Z.ltb_spec z (2 ^ 63)).
  - by rewrite Z.mod_small by lia.
  - rewrite <- (Z.mod_add (z - 2 ^ 64) 1 (2 ^ 64)) by lia. rewrite Z.mod_small; lia.
Qed.

Lemma u64_of_i64_range z : is_u64 (u64_of_i64 z).
Proof. apply Z.mod_pos_bound. lia. Qed.

Lemma i64_of_u64_range z : is_u64 z -> is_i64 (i64_of_u64 z).
Proof.
  unfold is_uint, is_i64, i64_of_u64. destruct (Z.ltb_spec z (2 ^ 63)); lia.
Qed.

(** ** Big-endian integers

    The source writes and reads every network-order integer byte by byte with
    shifts and masks.  [be_encode] and [be_decode] are the reference definitions
    those routines are compared with. *)

Fixpoint be_encode (n : nat) (z : Z) : bytes :=
  match n with
  | O => []
  | S n => be_encode n (z / 256) ++ [byte_of_Z z]
  end.

Definition be_decode (l : bytes) : Z :=
  fold_left (fun acc b => acc * 256 + Z_of_byte b) l 0.

Lemma length_be_encode n z : length (be_encode n z) = n.
Proof.
  revert z. induction n as [|n IH]; intros z; simpl; [done|].
  rewrite length_app, IH. simpl. lia.
Qed.

Lemma be_decode_snoc l b : be_decode (l ++ [b]) = be_decode l * 256 + Z_of_byte b.
Proof. unfold be_decode. by rewrite fold_left_app. Qed.

Lemma be_decode_encode n z :
  0 <= z < 256 ^ Z.of_nat n -> be_decode (be_encode n z) = z.
Proof.
  revert z. induction n as [|n IH]; intros z Hz; simpl.
  - change (256 ^ Z.of_nat 0) with 1 in Hz. unfold be_decode. simpl. lia.
  - rewrite be_decode_snoc, Z_of_byte_of_Z, IH.
    + pose proof (Z.div_mod z 256). lia.
    + rewrite Nat2Z.inj_succ, Z.pow_succ_r in Hz by lia.
      split; [apply Z.div_pos; lia | apply Z.div_lt_upper_bound; lia].
Qed.

Lemma be_decode_range l : 0 <= be_decode l < 256 ^ Zlen l.
Proof.
  unfold Zlen. induction l as [|b l IH] using rev_ind; [done|].
  rewrite be_decode_snoc, length_app, Nat2Z.inj_add, Z.pow_add_r by lia.
  pose proof (Z_of_byte_range b). simpl (256 ^ Z.of_nat (length [b])). lia.
Qed.

Lemma be_encode_decode l : be_encode (length l) (be_decode l) = l.
Proof.
  induction l as [|b l IH] using rev_ind; [done|].
  rewrite length_app, Nat.add_comm, be_decode_snoc. simpl.
  pose proof (Z_of_byte_range b).
  rewrite Z.div_add_l by lia. rewrite Z.div_small, Z.add_0_r, IH by lia.
  do 2 f_equal. apply Z_of_byte_inj. rewrite Z_of_byte_of_Z.
  rewrite Z.add_comm, Z.mod_add, Z.mod_small by lia. done.
Qed.

Lemma be_encode_inj n z1 z2 :
  0 <= z1 < 256 ^ Z.of_nat n -> 0 <= z2 < 256 ^ Z.of_nat n ->
  be_encode n z1 = be_encode n z2 -> z1 = z2.
Proof.
  intros H1 H2 E. rewrite <- (be_decode_encode n z1), <- (be_decode_encode n z2) by done.
  by rewrite E.
Qed.

(** [(z >> 8k) & 0xff] cast to a byte is the byte of [z / 256^k]. *)
Lemma byte_of_shiftr_land z k :
  0 <= k -> byte_of_Z (Z.land (Z.shiftr z k) 255) = byte_of_Z (z / 2 ^ k).
Proof.
  intros Hk. apply Z_of_byte_inj. rewrite !Z_of_byte_of_Z.
  change 255 with (Z.ones 8). rewrite Z.land_ones, Z.shiftr_div_pow2 by lia.
  change (2 ^ 8) with 256. by rewrite Z.mod_mod.
Qed.

Lemma byte_of_land z : byte_of_Z (Z.land z 255) = byte_of_Z z.
Proof.
  rewrite <- (Z.shiftr_0_r z) at 1. rewrite byte_of_shiftr_land by lia. by rewrite Z.div_1_r.
Qed.

(** A multiple of [2^k] and a value below [2^k] share no bit. *)
Lemma land_mul_pow2_small a b k :
  0 <= k -> 0 <= b < 2 ^ k -> Z.land (a * 2 ^ k) b = 0.
Proof.
  intros Hk Hb. apply Z.bits_inj'. intros n Hn. rewrite Z.land_spec, Z.bits_0.
  destruct (decide (n < k)); [by rewrite Z.mul_pow2_bits_low by lia|].
  apply andb_false_intro2. rewrite <- (Z.mod_small b (2 ^ k)) by done.
  apply Z.mod_pow2_bits_high. lia.
Qed.

(** [(a << k) | b] is [a * 2^k + b] when [b] fits in the low [k] bits. *)
Lemma lor_shiftl_small a b k :
  0 <= k -> 0 <= b < 2 ^ k -> Z.lor (Z.shiftl a k) b = a * 2 ^ k + b.
Proof.
  intros Hk Hb. rewrite Z.shiftl_mul_pow2 by lia.
  rewrite <- Z.lxor_lor, <- Z.add_nocarry_lxor; [done|..]; by apply land_mul_pow2_small.
Qed.

(** ** Lists *)

Lemma Zlen_nonneg {A} (l : list A) : 0 <= Zlen l.
Proof. unfold Zlen. lia. Qed.

Lemma Zlen_app {A} (l1 l2 : list A) : Zlen (l1 ++ l2) = Zlen l1 + Zlen l2.
Proof. unfold Zlen. rewrite length_app. lia. Qed.

Lemma Zlen_cons {A} (x : A) l : Zlen (x :: l) = 1 + Zlen l.
Proof. unfold Zlen. simpl length. lia. Qed.

Lemma Zlen_be_encode n z : Zlen (be_encode n z) = Z.of_nat n.
Proof. unfold Zlen. by rewrite length_be_encode. Qed.

(** ** Results of fallible, stateful operations

    The error half of a [common::Result] is a parameter here; [Common.v] fixes it. *)

Inductive outcome (E A : Type) : Type :=
| Ok (a : A)
| Err (e : E).
Arguments Ok {E A} a.
Arguments Err {E A} e.

#[export] Instance outcome_ret E : MRet (outcome E) := fun A a => Ok a.
#[export] Instance outcome_bind E : MBind (outcome E) := fun A B f m =>
  match m with Ok a => f a | Err e => Err e end.
#[export] Instance outcome_fmap E : FMap (outcome E) := fun A B f m =>
  match m with Ok a => Ok (f a) | Err e => Err e end.

Definition is_ok {E A} (r : outcome E A) : bool :=
  match r with Ok _ => true | Err _ => false end.

(** [ST E S A]: code that reads and updates an object of type [S] and returns a
    [Result].  The object keeps its state when the operation fails. *)
Definition ST (E S A : Type) : Type := S -> outcome E A * S.

#[export] Instance ST_ret E S : MRet (ST E S) := fun A a s => (Ok a, s).

(** [mbind] is the source's [if (!r) return failure(r.error())]. *)
#[export] Instance ST_bind E S : MBind (ST E S) := fun A B f m s =>
  match m s with
  | (Ok a, s') => f a s'
  | (Err e, s') => (Err e, s')
  end.

Definition ST_fail {E S A} (e : E) : ST E S A := fun s => (Err e, s).

(** Run an operation and keep its [Result] as a value: the source goes on after
    a failed call and looks at the [Result] later. *)
Definition attempt {E S A} (m : ST E S A) : ST E S (outcome E A) := fun s =>
  let (r, s') := m s in (Ok r, s').

(** A [Result] that does not touch the object. *)
Definition ST_lift {E S A} (r : outcome E A) : ST E S A := fun s => (r, s).

Definition ST_get {E S A} (f : S -> A) : ST E S A := fun s => (Ok (f s), s).

Lemma ST_bind_ok {E S A B} (m : ST E S A) (f : A -> ST E S B) s a s' :
  m s = (Ok a, s') -> (m ≫= f) s = f a s'.
Proof. intros H. unfold mbind, ST_bind. by rewrite H. Qed.

Lemma ST_bind_err {E S A B} (m : ST E S A) (f : A -> ST E S B) s e s' :
  m s = (Err e, s') -> (m ≫= f) s = (Err e, s').
Proof. intros H. unfold mbind, ST_bind. by rewrite H. Qed.

Lemma ST_bind_inv {E S A B} (m : ST E S A) (f : A -> ST E S B) s b s'' :
  (m ≫= f) s = (Ok b, s'') -> exists a s', m s = (Ok a, s') /\ f a s' = (Ok b, s'').
Proof.
  unfold mbind, ST_bind. destruct (m s) as [[a|e] s'] eqn:E1; [eauto|congruence].
Qed.

Lemma attempt_ok {E S A} (m : ST E S A) s r s' :
  m s = (r, s') -> attempt m s = (Ok r, s').
Proof. intros H. unfold attempt. by rewrite H. Qed.

(** A pair in terms of its projections, to feed the result of one concrete step
    into the next without evaluating it. *)
Lemma triple_eta {A B C} (p : A * B * C) : p = (p.1.1, p.1.2, p.2).
Proof. by destruct p as [[? ?] ?]. Qed.

Lemma pair_fst {A B} (p : A * B) (a : A) : p.1 = a -> p = (a, p.2).
Proof. intros <-. by destruct p. Qed.
