(* ===== verification/Common.v ===== *)
(** * Error codes and results (src/common/error.cpp, include/minitun/common/result.hpp)

    The stable error codes, their spelling on the wire and in logs, [Error]
    with its context prefix, and [Result]. *)
From S2P Require Import Prelude.

(** [common::ErrorCode]. *)
Inductive ErrorCode : Set :=
| ok
| invalid_argument
| not_found
| already_exists
| permission_denied
| not_authenticated
| authentication_failed
| connection_failed
| connection_timeout
| remote_port_in_use
| local_connect_failed
| protocol_error
| frame_too_large
| unsupported_version
| resource_exhausted
| database_error
| tls_error
| ipc_error
| internal_error.

#[export] Instance ErrorCode_eq_decision : EqDecision ErrorCode.
Proof. solve_decision. Defined.

(** [common::to_string(ErrorCode)]. *)
Definition error_code_to_string (code : ErrorCode) : bytes :=
  match code with
  | ok => bs "ok"
  | invalid_argument => bs "invalid_argument"
  | not_found => bs "not_found"
  | already_exists => bs "already_exists"
  | permission_denied => bs "permission_denied"
  | not_authenticated => bs "not_authenticated"
  | authentication_failed => bs "authentication_failed"
  | connection_failed => bs "connection_failed"
  | connection_timeout => bs "connection_timeout"
  | remote_port_in_use => bs "remote_port_in_use"
  | local_connect_failed => bs "local_connect_failed"
  | protocol_error => bs "protocol_error"
  | frame_too_large => bs "frame_too_large"
  | unsupported_version => bs "unsupported_version"
  | resource_exhausted => bs "resource_exhausted"
  | database_error => bs "database_error"
  | tls_error => bs "tls_error"
  | ipc_error => bs "ipc_error"
  | internal_error => bs "internal_error"
  end.

(** [common::error_code_from_string]: the chain of comparisons of the source. *)
Definition error_code_from_string (value : bytes) : option ErrorCode :=
  if decide (value = bs "ok") then Some ok else
  if decide (value = bs "invalid_argument") then Some invalid_argument else
  if decide (value = bs "not_found") then Some not_found else
  if decide (value = bs "already_exists") then Some already_exists else
  if decide (value = bs "permission_denied") then Some permission_denied else
  if decide (value = bs "not_authenticated") then Some not_authenticated else
  if decide (value = bs "authentication_failed") then Some authentication_failed else
  if decide (value = bs "connection_failed") then Some connection_failed else
  if decide (value = bs "connection_timeout") then Some connection_timeout else
  if decide (value = bs "remote_port_in_use") then Some remote_port_in_use else
  if decide (value = bs "local_connect_failed") then Some local_connect_failed else
  if decide (value = bs "protocol_error") then Some protocol_error else
  if decide (value = bs "frame_too_large") then Some frame_too_large else
  if decide (value = bs "unsupported_version") then Some unsupported_version else
  if decide (value = bs "resource_exhausted") then Some resource_exhausted else
  if decide (value = bs "database_error") then Some database_error else
  if decide (value = bs "tls_error") then Some tls_error else
  if decide (value = bs "ipc_error") then Some ipc_error else
  if decide (value = bs "internal_error") then Some internal_error else
  None.

(** [common::Error]. *)
Record Error : Set := mkError { code : ErrorCode; message : bytes }.

#[export] Instance Error_eq_decision : EqDecision Error.
Proof. solve_decision. Defined.

(** [Error::with_context]. *)
Definition with_context (e : Error) (context : bytes) : Error :=
  if decide (context = []) then e
  else mkError (code e)
         (context ++ (if decide (message e = []) then [] else bs ": " ++ message e)).

(** [operator<<(std::ostream&, const Error&)]. *)
Definition error_print (e : Error) : bytes :=
  error_code_to_string (code e)
  ++ (if decide (message e = []) then [] else bs ": " ++ message e).

(** [common::Result<T>]; [Result<void>] is [Result unit]. *)
Abbreviation Result := (outcome Error).

(** [Result<T>::failure(code, "message")]. *)
Definition failure {A} (c : ErrorCode) (m : string) : Result A := Err (mkError c (bs m)).

(** [Result<void>::success()]. *)
Definition success : Result unit := Ok tt.

(** Code that updates an object of type [S] and returns a [Result]. *)
Abbreviation Action := (ST Error).

Definition fail_with {S A} (c : ErrorCode) (m : string) : Action S A :=
  ST_fail (mkError c (bs m)).

(** ** Lemmas *)

Lemma error_code_from_to_string c : error_code_from_string (error_code_to_string c) = Some c.
Proof. destruct c; vm_compute; reflexivity. Qed.

Lemma error_code_to_from_string s c :
  error_code_from_string s = Some c -> error_code_to_string c = s.
Proof.
  unfold error_code_from_string. intros H.
  repeat case_decide; simplify_eq; reflexivity.
Qed.

Lemma error_code_to_string_inj c1 c2 :
  error_code_to_string c1 = error_code_to_string c2 -> c1 = c2.
Proof.
  intros H. apply (f_equal error_code_from_string) in H.
  rewrite !error_code_from_to_string in H. congruence.
Qed.

Lemma with_context_code e ctx : code (with_context e ctx) = code e.
Proof. unfold with_context. by case_decide. Qed.

Lemma with_context_with_context e c1 c2 :
  c1 <> [] -> c2 <> [] -> message e <> [] ->
  with_context (with_context e c1) c2 = with_context e (c2 ++ bs ": " ++ c1).
Proof.
  intros H1 H2 H3. unfold with_context.
  destruct e as [c m]. simpl in *. repeat case_decide; simpl in *; try done.
  all: try (f_equal; rewrite <- ?app_assoc; done).
  all: try (destruct c1; simpl in *; congruence).
  all: destruct c2; simpl in *; congruence.
Qed.
