(* ===== verification/Ids.v ===== *)
(** * Identifiers (src/common/id.cpp, include/minitun/common/id.hpp)

    The typed identifiers every component names its peers with:
    a prefix for the kind followed by 32 lowercase hexadecimal digits. *)
From S2P Require Import Prelude Common.

(** [common::IdKind]. *)
Inductive IdKind : Set := server | tunnel | request | client | connection.

#[export] Instance IdKind_eq_decision : EqDecision IdKind.
Proof. solve_decision. Defined.

Definition kIdRandomBytes : Z := 16.
Definition kIdHexCharacters : Z := kIdRandomBytes * 2.

(** [IdKindInfo] and the table [kIdKinds]. *)
Record IdKindInfo : Set := mkIdKindInfo {
  info_kind : IdKind;
  info_name : bytes;
  info_prefix : bytes
}.

Definition kIdKinds : list IdKindInfo :=
  [ mkIdKindInfo server (bs "server") (bs "srv_");
    mkIdKindInfo tunnel (bs "tunnel") (bs "tun_");
    mkIdKindInfo request (bs "request") (bs "req_");
    mkIdKindInfo client (bs "client") (bs "client_");
    mkIdKindInfo connection (bs "connection") (bs "conn_") ].

(** [std::string_view::starts_with]. *)
Definition starts_with (text prefix : bytes) : bool :=
  bool_decide (take (length prefix) text = prefix).

(** The two overloads of [find_kind]; [nullptr] is [None]. *)
Definition find_kind (kind : IdKind) : option IdKindInfo :=
  List.find (fun info => bool_decide (info_kind info = kind)) kIdKinds.

Definition find_kind_of_text (text : bytes) : option IdKindInfo :=
  List.find (fun info => starts_with text (info_prefix info)) kIdKinds.

Definition is_lowercase_hex (value : byte) : bool :=
  let v := Z_of_byte value in
  ((48 <=? v) && (v <=? 57)) || ((97 <=? v) && (v <=? 102)).

(** [to_string(IdKind)] and [id_prefix]. *)
Definition id_kind_to_string (kind : IdKind) : bytes :=
  match find_kind kind with None => bs "unknown" | Some info => info_name info end.

Definition id_prefix (kind : IdKind) : bytes :=
  match find_kind kind with None => [] | Some info => info_prefix info end.

(** [common::Id]. *)
Record Id : Set := mkId { kind : IdKind; str : bytes }.

#[export] Instance Id_eq_decision : EqDecision Id.
Proof. solve_decision. Defined.

Definition kHexDigits : bytes := bs "0123456789abcdef".

(** [kHexDigits[i]]; every index of the source is below 16. *)
Definition hex_digit (i : Z) : byte := nth (Z.to_nat i) kHexDigits Byte.x00.

(** The characters [Id::generate] appends for one random byte. *)
Definition hex_of_byte (b : byte) : bytes :=
  [hex_digit (Z.shiftr (Z_of_byte b) 4); hex_digit (Z.land (Z_of_byte b) 15)].

(** [Id::generate]; the argument is what [RAND_bytes] delivers, [None] when it
    does not return 1. *)
Definition Id_generate (random_bytes : option bytes) (k : IdKind) : Result Id :=
  let prefix := id_prefix k in
  if decide (prefix = []) then failure invalid_argument "unknown ID kind"
  else
    match random_bytes with
    | None => failure internal_error "cryptographically secure ID generation failed"
    | Some random => Ok (mkId k (prefix ++ concat (hex_of_byte <$> random)))
    end.

(** [Id::parse(text)]. *)
Definition Id_parse (text : bytes) : Result Id :=
  if decide (text = []) then failure invalid_argument "ID must not be empty"
  else
    match find_kind_of_text text with
    | None => failure invalid_argument "ID has an unknown prefix"
    | Some info =>
        let encoded_random := drop (length (info_prefix info)) text in
        if negb (Zlen encoded_random =? kIdHexCharacters) then
          failure invalid_argument
            "ID must have exactly 32 lowercase hexadecimal characters after its prefix"
        else if negb (forallb is_lowercase_hex encoded_random) then
          failure invalid_argument "ID contains a non-lowercase-hexadecimal character"
        else Ok (mkId (info_kind info) text)
    end.

(** [Id::parse(text, expected_kind)]. *)
Definition Id_parse_kind (text : bytes) (expected_kind : IdKind) : Result Id :=
  if decide (id_prefix expected_kind = []) then
    failure invalid_argument "unknown expected ID kind"
  else
    parsed ← Id_parse text;
    if negb (bool_decide (kind parsed = expected_kind)) then
      failure invalid_argument "ID kind does not match the expected kind"
    else Ok parsed.

(** [Id::suffix]. *)
Definition Id_suffix (i : Id) : bytes := drop (length (id_prefix (kind i))) (str i).

(** [bool(Id::parse(text, kind))], how the callers use it. *)
Definition valid_id (text : bytes) (k : IdKind) : bool := is_ok (Id_parse_kind text k).

(** ** The canonical form *)

(** The class invariant stated in id.hpp: the kind's prefix and 32 lowercase
    hexadecimal characters. *)
Definition canonical (k : IdKind) (text : bytes) : Prop :=
  exists digits, text = id_prefix k ++ digits /\ Zlen digits = 32 /\
                 forallb is_lowercase_hex digits = true.

(** ** Lemmas *)

Lemma starts_with_app p l : starts_with (p ++ l) p = true.
Proof. apply bool_decide_eq_true. by rewrite take_app_length. Qed.

Lemma starts_with_inv text p :
  starts_with text p = true -> text = p ++ drop (length p) text.
Proof.
  unfold starts_with. intros H%bool_decide_eq_true.
  rewrite <- H at 1. by rewrite take_drop.
Qed.

Lemma find_kind_of_prefix k l :
  exists info, find_kind_of_text (id_prefix k ++ l) = Some info /\
               info_kind info = k /\ info_prefix info = id_prefix k.
Proof. destruct k; (eexists; split; [lazy; reflexivity | split; reflexivity]). Qed.

Lemma find_kind_of_text_inv text info :
  find_kind_of_text text = Some info ->
  info_prefix info = id_prefix (info_kind info) /\
  starts_with text (info_prefix info) = true.
Proof.
  unfold find_kind_of_text. intros H. split; [|by apply find_some in H as [_ ?]].
  apply find_some in H as [H _]. simpl in H.
  destruct_or! H; by subst.
Qed.

Lemma id_prefix_nonempty k : id_prefix k <> [].
Proof. by destruct k. Qed.

(** [Id::parse] accepts exactly the canonical texts, and infers their kind. *)
Lemma Id_parse_ok text i :
  Id_parse text = Ok i <-> str i = text /\ canonical (kind i) text.
Proof.
  unfold Id_parse, canonical, kIdHexCharacters, kIdRandomBytes. split.
  - intros H. case_decide; [done|].
    destruct (find_kind_of_text text) as [info|] eqn:E; [|done].
    apply find_kind_of_text_inv in E as [Hp Hs].
    destruct (Z.eqb_spec (Zlen (drop (length (info_prefix info)) text)) (16 * 2)); [|done].
    destruct (forallb _ _) eqn:Hf; [|done]. simpl in H. simplify_eq. simpl. split; [done|].
    exists (drop (length (info_prefix info)) text). rewrite <- Hp.
    split_and!; [by apply starts_with_inv| lia | done].
  - intros [Hs (digits & -> & Hl & Hf)].
    case_decide as Hn. { by destruct (kind i). }
    destruct (find_kind_of_prefix (kind i) digits) as (info & -> & Hk & Hp).
    rewrite Hp, drop_app_length, Hl, Hf. simpl. rewrite Hk, <- Hs. by destruct i.
Qed.

Lemma Id_parse_kind_ok text k i :
  Id_parse_kind text k = Ok i <-> i = mkId k text /\ canonical k text.
Proof.
  unfold Id_parse_kind. rewrite decide_False by apply id_prefix_nonempty.
  destruct (Id_parse text) as [j|e] eqn:E; simpl.
  - apply Id_parse_ok in E as [Hs Hc]. case_bool_decide as Hk; simpl.
    + split; [intros; simplify_eq; by destruct i|]. intros [-> _].
      destruct j; simpl in *; congruence.
    + split; [done|]. intros [-> Hc']. exfalso. apply Hk.
      destruct Hc as (d & -> & _), Hc' as (d' & Hd & _).
      by destruct (kind j), k; simplify_eq.
  - split; [done|]. intros [-> Hc].
    assert (Id_parse text = Ok (mkId k text)) by (by apply Id_parse_ok). congruence.
Qed.

Lemma valid_id_canonical text k : valid_id text k = true <-> canonical k text.
Proof.
  unfold valid_id. destruct (Id_parse_kind text k) as [i|e] eqn:E; simpl.
  - apply Id_parse_kind_ok in E as [_ ?]. done.
  - split; [done|]. intros Hc.
    assert (Id_parse_kind text k = Ok (mkId k text)) by (by apply Id_parse_kind_ok).
    congruence.
Qed.

Lemma canonical_kind_inj k1 k2 text : canonical k1 text -> canonical k2 text -> k1 = k2.
Proof.
  intros (d1 & -> & _) (d2 & H & _). by destruct k1, k2; simplify_eq.
Qed.

Lemma canonical_length k text : canonical k text -> 36 <= Zlen text <= 39.
Proof.
  intros (d & -> & H & _). rewrite Zlen_app. by destruct k; unfold Zlen in *; simpl; lia.
Qed.

Lemma hex_of_byte_lowercase b : forallb is_lowercase_hex (hex_of_byte b) = true.
Proof. by destruct b. Qed.

Lemma hex_of_bytes_lowercase l : forallb is_lowercase_hex (concat (hex_of_byte <$> l)) = true.
Proof.
  induction l as [|b l IH]; [done|].
  rewrite fmap_cons. cbn [concat]. rewrite forallb_app, hex_of_byte_lowercase. done.
Qed.

Lemma Zlen_hex_of_bytes l : Zlen (concat (hex_of_byte <$> l)) = 2 * Zlen l.
Proof.
  induction l as [|b l IH]; [done|].
  rewrite fmap_cons. cbn [concat]. rewrite Zlen_app, IH, Zlen_cons. unfold Zlen. simpl. lia.
Qed.

Lemma hex_of_byte_inj b1 b2 : hex_of_byte b1 = hex_of_byte b2 -> b1 = b2.
Proof.
  intros H. apply (f_equal (fun l => List.find (fun b => bool_decide (hex_of_byte b = l))
    (byte_of_Z <$> seqZ 0 256))) in H.
  assert (Hall : forall b, List.find (fun c => bool_decide (hex_of_byte c = hex_of_byte b))
    (byte_of_Z <$> seqZ 0 256) = Some b) by (intros b; destruct b; vm_compute; reflexivity).
  rewrite !Hall in H. congruence.
Qed.

Lemma hex_of_bytes_inj l1 l2 :
  concat (hex_of_byte <$> l1) = concat (hex_of_byte <$> l2) -> l1 = l2.
Proof.
  revert l2. induction l1 as [|b1 l1 IH]; intros [|b2 l2] H; try done.
  rewrite !fmap_cons in H. cbn [concat] in H.
  apply app_inj_1 in H as [H1 H2]; [|done].
  f_equal; [by apply hex_of_byte_inj | by apply IH].
Qed.

(** ** Theorems *)

(** An id generated from the 16 bytes of the random source parses, as text of
    its own kind and of no other, and different random bytes or kinds give
    different texts. *)
Theorem Id_generate_parse k k' random random' :
  Zlen random = kIdRandomBytes ->
  exists i, Id_generate (Some random) k = Ok i /\ Id_parse (str i) = Ok i /\
    Id_parse_kind (str i) k = Ok i /\ (k' <> k -> valid_id (str i) k' = false) /\
    (forall i', Id_generate (Some random') k' = Ok i' -> str i' = str i ->
                k' = k /\ random' = random).
Proof.
  intros Hr. unfold Id_generate. rewrite decide_False by (by destruct k).
  set (t := id_prefix k ++ concat (hex_of_byte <$> random)).
  assert (Hc : canonical k t).
  { exists (concat (hex_of_byte <$> random)). split_and!; [done| |apply hex_of_bytes_lowercase].
    rewrite Zlen_hex_of_bytes, Hr. done. }
  exists (mkId k t). split; [done|]. split; [by apply Id_parse_ok|].
  split; [by apply Id_parse_kind_ok|]. split.
  - intros Hne. destruct (valid_id t k') eqn:E; [|done].
    apply valid_id_canonical in E. by destruct (Hne (canonical_kind_inj _ _ _ E Hc)).
  - intros i'. rewrite decide_False by (by destruct k'). intros [= <-]. cbn [str]. unfold t.
    intros E. assert (k' = k) as ->.
    { destruct k', k; try done; by apply (f_equal (take 4)) in E. }
    split; [done|]. by apply app_inv_head, hex_of_bytes_inj in E.
Qed.

Lemma Id_generate_parse_witness :
  let random := replicate 16 Byte.xab in
  exists i, Id_generate (Some random) tunnel = Ok i /\ Id_parse (str i) = Ok i /\
    Id_parse_kind (str i) tunnel = Ok i /\ (client <> tunnel -> valid_id (str i) client = false) /\
    (forall i', Id_generate (Some random) client = Ok i' -> str i' = str i ->
                client = tunnel /\ random = random).
Proof. intros random. apply (Id_generate_parse tunnel client random random). reflexivity. Defined.
