(* ===== verification/Text.v ===== *)
(** * Text primitives of the C++ standard library

    [std::string_view::find]/[rfind], [std::from_chars] and [std::to_string] for
    unsigned integers, and the ASCII classes the parsers of src/common use. *)
From S2P Require Import Prelude.

(** ASCII codes of the characters the parsers look for. *)
Definition ch_dot : byte := Byte.x2e.
Definition ch_colon : byte := Byte.x3a.
Definition ch_dash : byte := Byte.x2d.
Definition ch_lbracket : byte := Byte.x5b.
Definition ch_rbracket : byte := Byte.x5d.
Definition ch_percent : byte := Byte.x25.

(** [value.find(c)]: the index of the first [c], [npos] is [None]. *)
Fixpoint find_char (c : byte) (l : bytes) : option nat :=
  match l with
  | [] => None
  | b :: l' => if decide (b = c) then Some O else S <$> find_char c l'
  end.

(** [value.rfind(c)]: the index of the last [c]. *)
Fixpoint rfind_char (c : byte) (l : bytes) : option nat :=
  match l with
  | [] => None
  | b :: l' =>
      match rfind_char c l' with
      | Some i => Some (S i)
      | None => if decide (b = c) then Some O else None
      end
  end.

Definition is_ascii_digit (b : byte) : bool :=
  let v := Z_of_byte b in (48 <=? v) && (v <=? 57).

Definition digit_value (b : byte) : Z := Z_of_byte b - 48.
Definition digit_char (d : Z) : byte := byte_of_Z (48 + d).

(** The longest prefix of digits, its value with accumulator [acc], and the rest. *)
Fixpoint scan_digits (acc : Z) (l : bytes) : Z * bytes :=
  match l with
  | b :: l' => if is_ascii_digit b then scan_digits (acc * 10 + digit_value b) l' else (acc, l)
  | [] => (acc, [])
  end.

(** [std::from_chars(begin, end, value)] for an unsigned [width]-bit [value]:
    the value and the characters from [position] on; [None] is an error (no
    digit, or a value out of range). *)
Definition from_chars (width : Z) (l : bytes) : option (Z * bytes) :=
  match l with
  | b :: _ =>
      if is_ascii_digit b then
        let (v, rest) := scan_digits 0 l in
        if v <? 2 ^ width then Some (v, rest) else None
      else None
  | [] => None
  end.

(** [std::to_string] of a non-negative integer. *)
Fixpoint dec_digits (fuel : nat) (z : Z) (acc : bytes) : bytes :=
  match fuel with
  | O => acc
  | S fuel =>
      if z <? 10 then digit_char z :: acc
      else dec_digits fuel (z / 10) (digit_char (z mod 10) :: acc)
  end.

Definition to_string (z : Z) : bytes := dec_digits (S (Z.to_nat (Z.log2 z))) z [].

(** ** Lemmas *)

Lemma find_char_None c l : find_char c l = None <-> c ∉ l.
Proof.
  induction l as [|b l IH]; simpl; [set_solver|].
  case_decide; subst; [set_solver|].
  rewrite fmap_None, IH. set_solver.
Qed.

Lemma rfind_char_None c l : rfind_char c l = None <-> c ∉ l.
Proof.
  induction l as [|b l IH]; simpl; [set_solver|].
  destruct (rfind_char c l).
  - destruct IH as [_ IH]. split; [done|]. intros Hn. discriminate IH. set_solver.
  - case_decide; subst; [set_solver|]. destruct IH as [IH _].
    specialize (IH eq_refl). set_solver.
Qed.

Lemma find_char_app c l1 l2 : c ∉ l1 -> find_char c (l1 ++ c :: l2) = Some (length l1).
Proof.
  induction l1 as [|b l1 IH]; intros Hn; simpl; [by rewrite decide_True|].
  rewrite decide_False by set_solver. rewrite IH by set_solver. done.
Qed.

Lemma rfind_char_app c l1 l2 : c ∉ l2 -> rfind_char c (l1 ++ c :: l2) = Some (length l1).
Proof.
  intros Hn. induction l1 as [|b l1 IH]; simpl.
  - rewrite (proj2 (rfind_char_None c l2)) by done. by rewrite decide_True.
  - by rewrite IH.
Qed.

Lemma find_char_Some c l i :
  find_char c l = Some i ->
  exists l1 l2, l = (l1 ++ c :: l2) /\ (c ∉ l1) /\ i = length l1.
Proof.
  revert i. induction l as [|b l IH]; intros i; simpl; [done|].
  case_decide as Hb.
  - intros [= <-]. exists [], l. subst. set_solver.
  - intros (j & Hj & ->)%fmap_Some. apply IH in Hj as (l1 & l2 & -> & Hn & ->).
    exists (b :: l1), l2. split_and!; [done|set_solver|done].
Qed.

Lemma rfind_char_app_Some c l1 l2 j :
  rfind_char c l2 = Some j -> rfind_char c (l1 ++ l2) = Some (length l1 + j)%nat.
Proof. intros H. induction l1 as [|b l1 IH]; simpl; [done|]. by rewrite IH. Qed.

(** [separator == value.rfind(c)]: the separator is the only [c]. *)
Lemma find_rfind_char_unique c l i :
  find_char c l = Some i -> rfind_char c l = Some i ->
  exists l1 l2, l = (l1 ++ c :: l2) /\ (c ∉ l1) /\ (c ∉ l2) /\ i = length l1.
Proof.
  intros (l1 & l2 & -> & Hn & ->)%find_char_Some Hr. exists l1, l2.
  split_and!; try done. apply rfind_char_None.
  destruct (rfind_char c l2) as [j|] eqn:E; [|done]. exfalso.
  rewrite (rfind_char_app_Some _ _ _ (S j)) in Hr by (simpl; by rewrite E). simplify_eq. lia.
Qed.

Lemma digit_char_digit d : 0 <= d < 10 -> is_ascii_digit (digit_char d) = true /\
  digit_value (digit_char d) = d.
Proof.
  intros H. unfold is_ascii_digit, digit_value, digit_char.
  rewrite !Z_of_byte_of_Z, !Z.mod_small by lia. split; lia.
Qed.

Lemma scan_digits_app acc l rest :
  forallb is_ascii_digit l = true ->
  (forall b r, rest = b :: r -> is_ascii_digit b = false) ->
  scan_digits acc (l ++ rest) = (fst (scan_digits acc l), rest).
Proof.
  revert acc. induction l as [|b l IH]; intros acc; simpl.
  - intros _ H. destruct rest as [|b r]; simpl; [done|]. by rewrite (H b r).
  - intros [Hb Hl]%andb_prop H. rewrite Hb. by apply IH.
Qed.

Lemma scan_digits_all acc l :
  forallb is_ascii_digit l = true -> snd (scan_digits acc l) = [].
Proof.
  revert acc. induction l as [|b l IH]; intros acc; simpl; [done|].
  intros [Hb Hl]%andb_prop. rewrite Hb. by apply IH.
Qed.

Lemma scan_digits_nil_inv acc l v :
  scan_digits acc l = (v, []) -> forallb is_ascii_digit l = true.
Proof.
  revert acc. induction l as [|b l IH]; intros acc; simpl; [done|].
  destruct (is_ascii_digit b) eqn:Hb; [|done]. apply IH.
Qed.

Lemma scan_digits_bound acc l :
  0 <= acc -> acc * 10 ^ Zlen l <= fst (scan_digits acc l) < (acc + 1) * 10 ^ Zlen l \/
              snd (scan_digits acc l) <> [].
Proof.
  revert acc. induction l as [|b l IH]; intros acc Hacc; simpl.
  - left. unfold Zlen. simpl. lia.
  - destruct (is_ascii_digit b) eqn:Hb; [|by right].
    unfold is_ascii_digit in Hb. apply andb_prop in Hb as [H1 H2].
    assert (Hd : 0 <= digit_value b < 10) by (unfold digit_value; lia).
    destruct (IH (acc * 10 + digit_value b)) as [Hl|Hr]; [lia| |by right]. left.
    rewrite Zlen_cons, Z.pow_add_r by (pose proof (Zlen_nonneg l); lia).
    change (10 ^ 1) with 10. assert (0 < 10 ^ Zlen l) by (apply Z.pow_pos_nonneg; [lia|apply Zlen_nonneg]).
    nia.
Qed.

Lemma dec_digits_spec fuel z acc a :
  0 <= z < 10 ^ Z.of_nat fuel -> (0 < fuel)%nat ->
  exists ds, dec_digits fuel z acc = ds ++ acc /\ ds <> [] /\
             forallb is_ascii_digit ds = true /\
             (z = 0 -> length ds = 1%nat) /\
             (z <> 0 -> 10 ^ (Zlen ds - 1) <= z) /\
             fst (scan_digits a ds) = a * 10 ^ Zlen ds + z.
Proof.
  revert z acc a. induction fuel as [|fuel IH]; intros z acc a Hz Hf; [lia|]. cbn [dec_digits].
  destruct (Z.ltb_spec z 10) as [Hlt|Hge].
  - destruct (digit_char_digit z) as [Hd Hv]; [lia|].
    exists [digit_char z]. split_and!; try done; unfold Zlen; simpl; rewrite ?Hd; simpl; lia.
  - assert (Hz' : 0 <= z / 10 < 10 ^ Z.of_nat fuel).
    { rewrite Nat2Z.inj_succ, Z.pow_succ_r in Hz by lia.
      split; [apply Z.div_pos; lia|apply Z.div_lt_upper_bound; lia]. }
    assert (Hq : 1 <= z / 10) by (apply Z.div_le_lower_bound; lia).
    destruct (IH (z / 10) (digit_char (z mod 10) :: acc) a) as (ds & -> & Hn & Hd & _ & Hlo & Hv).
    { done. } { destruct fuel; [|lia]. simpl in Hz'. lia. }
    pose proof (Z.mod_pos_bound z 10 ltac:(lia)) as Hm.
    destruct (digit_char_digit (z mod 10)) as [Hd' Hv']; [done|].
    exists (ds ++ [digit_char (z mod 10)]). rewrite <- app_assoc. split_and!.
    + done.
    + by destruct ds.
    + rewrite forallb_app, Hd. simpl. by rewrite Hd'.
    + lia.
    + intros _. rewrite Zlen_app. change (Zlen [digit_char (z mod 10)]) with 1.
      specialize (Hlo ltac:(lia)).
      assert (1 <= Zlen ds) by (destruct ds; [done|rewrite Zlen_cons; pose proof (Zlen_nonneg ds); lia]).
      replace (Zlen ds + 1 - 1) with (Z.succ (Zlen ds - 1)) by lia.
      rewrite Z.pow_succ_r by lia. pose proof (Z.div_mod z 10). lia.
    + assert (Hsc : forall l x, forallb is_ascii_digit l = true ->
        fst (scan_digits x (l ++ [digit_char (z mod 10)])) =
        fst (scan_digits x l) * 10 + z mod 10).
      { intros l. induction l as [|b l IHl]; intros x; simpl.
        - rewrite Hd', Hv'. done.
        - intros [Hb Hl]%andb_prop. rewrite Hb. by apply IHl. }
      rewrite Hsc, Hv by done. rewrite Zlen_app, Z.pow_add_r by (try apply Zlen_nonneg; done).
      change (10 ^ Zlen [digit_char (z mod 10)]) with 10. pose proof (Z.div_mod z 10). nia.
Qed.

Lemma to_string_spec z :
  0 <= z ->
  to_string z <> [] /\ forallb is_ascii_digit (to_string z) = true /\
  (z = 0 -> length (to_string z) = 1%nat) /\
  (z <> 0 -> 10 ^ (Zlen (to_string z) - 1) <= z) /\
  scan_digits 0 (to_string z) = (z, []).
Proof.
  intros Hz. unfold to_string.
  destruct (dec_digits_spec (S (Z.to_nat (Z.log2 z))) z [] 0) as (ds & -> & Hn & Hd & H0 & H1 & Hv).
  { split; [done|]. rewrite Nat2Z.inj_succ, Z2Nat.id by apply Z.log2_nonneg.
    destruct (decide (z = 0)) as [->|]; [done|].
    pose proof (Z.log2_spec z ltac:(lia)) as [_ Hl].
    eapply Z.lt_le_trans; [exact Hl|]. apply Z.pow_le_mono_l. lia. }
  { lia. }
  rewrite app_nil_r. split_and!; try done.
  rewrite (surjective_pairing (scan_digits 0 ds)), scan_digits_all, Hv by done. f_equal; lia.
Qed.

(** [std::from_chars] reads back what [std::to_string] wrote. *)
Lemma from_chars_to_string w z :
  0 <= z < 2 ^ w -> from_chars w (to_string z) = Some (z, []).
Proof.
  intros Hz. destruct (to_string_spec z) as (Hn & Hd & _ & _ & Hs); [lia|].
  unfold from_chars. destruct (to_string z) as [|b l]; [done|].
  simpl in Hd. apply andb_prop in Hd as [Hb _]. rewrite Hb, Hs.
  destruct (Z.ltb_spec z (2 ^ w)); [done|lia].
Qed.

(** A number below [10^n] is written with at most [n] digits. *)
Lemma to_string_length z n : 0 <= z < 10 ^ n -> 1 <= n -> 1 <= Zlen (to_string z) <= n.
Proof.
  intros Hz Hn. destruct (to_string_spec z) as (Hne & _ & H0 & H1 & _); [lia|].
  split.
  - destruct (to_string z); [done|]. rewrite Zlen_cons. pose proof (Zlen_nonneg l). lia.
  - destruct (decide (z = 0)) as [->|Hz0].
    + unfold Zlen. rewrite H0 by done. lia.
    + specialize (H1 Hz0). destruct (Z.le_gt_cases (Zlen (to_string z)) n) as [|Hgt]; [done|].
      assert (10 ^ n <= 10 ^ (Zlen (to_string z) - 1)) by (apply Z.pow_le_mono_r; lia). lia.
Qed.

Lemma digits_not_elem c l :
  forallb is_ascii_digit l = true -> is_ascii_digit c = false -> c ∉ l.
Proof.
  intros Hl Hc Hin. rewrite forallb_forall in Hl. apply list_elem_of_In in Hin.
  specialize (Hl _ Hin). congruence.
Qed.

Lemma to_string_not_elem c z : 0 <= z -> is_ascii_digit c = false -> c ∉ to_string z.
Proof. intros Hz Hc. apply digits_not_elem; [|done]. by apply to_string_spec. Qed.

(** Reading a whole text as a number: it is digits only, and the canonical text
    of the number is not longer. *)
Lemma from_chars_all w l v :
  from_chars w l = Some (v, []) ->
  forallb is_ascii_digit l = true /\ 0 <= v /\ Zlen (to_string v) <= Zlen l.
Proof.
  unfold from_chars. destruct l as [|b l]; [done|]. intros H.
  destruct (is_ascii_digit b); [|done].
  destruct (scan_digits 0 (b :: l)) as [x r] eqn:E. destruct (x <? 2 ^ w); [|done].
  simplify_eq. pose proof (scan_digits_bound 0 (b :: l) ltac:(lia)) as Hb.
  rewrite E in Hb. simpl fst in Hb. simpl snd in Hb. destruct Hb as [Hb|]; [|done].
  split_and!; [by eapply scan_digits_nil_inv | lia |].
  apply to_string_length; [lia|]. rewrite Zlen_cons. pose proof (Zlen_nonneg l). lia.
Qed.
