(* ===== verification/PortRange.v ===== *)
(** * Port ranges (src/common/port_range.cpp, include/minitun/common/port_range.hpp)

    Parsing and printing of ["443"] and ["6000-6999"], membership and size. *)
From S2P Require Import Prelude Common Text.

Definition max_port_text_length : Z := 5.
Definition max_port_range_text_length : Z := 11.

(** [contains_whitespace] of port_range.cpp: the six listed characters. *)
Definition is_range_whitespace (c : byte) : bool :=
  bool_decide (c ∈ [Byte.x20; Byte.x09; Byte.x0a; Byte.x0d; Byte.x0c; Byte.x0b]).

Definition contains_whitespace (value : bytes) : bool := existsb is_range_whitespace value.

(** [parse_port] of port_range.cpp. *)
Definition parse_port (value : bytes) : Result Z :=
  if decide (value = []) then failure invalid_argument "port range contains an empty port"
  else if max_port_text_length <? Zlen value then
    failure invalid_argument "port contains too many digits"
  else
    match from_chars 32 value with
    | Some (port, []) =>
        if (port =? 0) || (65535 <? port) then
          failure invalid_argument "port must be a decimal number in 1..65535"
        else Ok port
    | _ => failure invalid_argument "port must be a decimal number in 1..65535"
    end.

(** [common::PortRange]. *)
Record PortRange : Set := mkPortRange { start : Z; end_ : Z }.

#[export] Instance PortRange_eq_decision : EqDecision PortRange.
Proof. solve_decision. Defined.

(** [PortRange::parse]. *)
Definition PortRange_parse (value : bytes) : Result PortRange :=
  if decide (value = []) then failure invalid_argument "port range is empty"
  else if max_port_range_text_length <? Zlen value then
    failure invalid_argument "port range exceeds the maximum length"
  else if contains_whitespace value then
    failure invalid_argument "port range must not contain whitespace"
  else
    match find_char ch_dash value with
    | None =>
        port ← parse_port value;
        Ok (mkPortRange port port)
    | Some separator =>
        if negb (bool_decide (rfind_char ch_dash value = Some separator)) then
          failure invalid_argument "port range must contain at most one '-' separator"
        else
          s ← parse_port (take separator value);
          e ← parse_port (drop (S separator) value);
          if e <? s then
            failure invalid_argument "port range start must not exceed its end"
          else Ok (mkPortRange s e)
    end.

(** [contains], [size] and [to_string]. *)
Definition PortRange_contains (r : PortRange) (port : Z) : bool :=
  (start r <=? port) && (port <=? end_ r).

(** [std::uint32_t] arithmetic. *)
Definition PortRange_size (r : PortRange) : Z := (end_ r - start r + 1) mod 2 ^ 32.

Definition PortRange_to_string (r : PortRange) : bytes :=
  if start r =? end_ r then to_string (start r)
  else to_string (start r) ++ [ch_dash] ++ to_string (end_ r).

(** The class invariant: an inclusive, non-empty range of ports 1..65535. *)
Definition PortRange_wf (r : PortRange) : Prop := 1 <= start r <= end_ r /\ end_ r <= 65535.

(** ** Lemmas *)

Lemma parse_port_to_string p : 1 <= p <= 65535 -> parse_port (to_string p) = Ok p.
Proof.
  intros Hp. unfold parse_port, max_port_text_length.
  destruct (to_string_spec p) as (Hn & _); [lia|].
  pose proof (to_string_length p 5 ltac:(lia) ltac:(lia)).
  rewrite decide_False by done.
  destruct (Z.ltb_spec 5 (Zlen (to_string p))); [lia|].
  rewrite from_chars_to_string by lia.
  destruct (Z.eqb_spec p 0), (Z.ltb_spec 65535 p); simpl; try lia. done.
Qed.

Lemma parse_port_ok v p : parse_port v = Ok p -> 1 <= p <= 65535.
Proof.
  unfold parse_port. intros H. case_decide; [done|].
  destruct (_ <? _); [done|].
  destruct (from_chars 32 v) as [[q [|??]]|] eqn:E; try done.
  assert (0 <= q).
  { unfold from_chars in E. destruct v as [|b v']; [done|].
    destruct (is_ascii_digit b); [|done].
    pose proof (scan_digits_bound 0 (b :: v') ltac:(lia)) as Hb.
    destruct (scan_digits 0 (b :: v')) as [x y]. simpl in Hb.
    destruct (_ <? _); simplify_eq. destruct Hb as [Hb|Hb]; [lia|done]. }
  destruct (Z.eqb_spec q 0), (Z.ltb_spec 65535 q); simpl in H; try done. simplify_eq. lia.
Qed.

Lemma digits_no_whitespace l : forallb is_ascii_digit l = true -> contains_whitespace l = false.
Proof.
  induction l as [|b l IH]; simpl; [done|]. intros [Hb Hl]%andb_prop.
  rewrite IH by done. apply orb_false_intro; [|done]. by destruct b.
Qed.

Lemma contains_whitespace_app l1 l2 :
  contains_whitespace (l1 ++ l2) = contains_whitespace l1 || contains_whitespace l2.
Proof. apply existsb_app. Qed.

Lemma to_string_no_whitespace z : 0 <= z -> contains_whitespace (to_string z) = false.
Proof. intros Hz. apply digits_no_whitespace. by apply to_string_spec. Qed.

Lemma PortRange_parse_single p :
  1 <= p <= 65535 -> PortRange_parse (to_string p) = Ok (mkPortRange p p).
Proof.
  intros Hp. unfold PortRange_parse, max_port_range_text_length.
  destruct (to_string_spec p) as (Hn & _); [lia|].
  pose proof (to_string_length p 5 ltac:(lia) ltac:(lia)).
  rewrite decide_False by done.
  destruct (Z.ltb_spec 11 (Zlen (to_string p))); [lia|].
  rewrite to_string_no_whitespace by lia.
  rewrite (proj2 (find_char_None _ _)) by (apply to_string_not_elem; [lia|done]).
  by rewrite parse_port_to_string.
Qed.

Lemma PortRange_parse_pair p q :
  1 <= p <= 65535 -> 1 <= q <= 65535 ->
  PortRange_parse (to_string p ++ [ch_dash] ++ to_string q) =
  if q <? p then failure invalid_argument "port range start must not exceed its end"
  else Ok (mkPortRange p q).
Proof.
  intros Hp Hq. unfold PortRange_parse, max_port_range_text_length.
  pose proof (to_string_length p 5 ltac:(lia) ltac:(lia)).
  pose proof (to_string_length q 5 ltac:(lia) ltac:(lia)).
  rewrite decide_False by (destruct (to_string p); done).
  rewrite !Zlen_app. change (Zlen [ch_dash]) with 1.
  destruct (Z.ltb_spec 11 (Zlen (to_string p) + (1 + Zlen (to_string q)))); [lia|].
  rewrite !contains_whitespace_app, !to_string_no_whitespace by lia. simpl.
  rewrite find_char_app by (apply to_string_not_elem; [lia|done]).
  rewrite rfind_char_app by (apply to_string_not_elem; [lia|done]).
  rewrite bool_decide_true by done. simpl negb. cbv match.
  rewrite take_app_length.
  replace (S (length (to_string p))) with (length (to_string p ++ [ch_dash]))
    by (rewrite length_app; simpl; lia).
  change (ch_dash :: to_string q) with ([ch_dash] ++ to_string q).
  rewrite app_assoc, drop_app_length, !parse_port_to_string by done. done.
Qed.

Lemma PortRange_parse_print r :
  PortRange_wf r -> PortRange_parse (PortRange_to_string r) = Ok r.
Proof.
  intros [Hr He]. unfold PortRange_to_string. destruct r as [s e]. cbn [start end_] in *.
  destruct (Z.eqb_spec s e) as [->|Hne].
  - apply PortRange_parse_single. lia.
  - rewrite PortRange_parse_pair by lia. destruct (Z.ltb_spec e s); [lia|done].
Qed.

Lemma PortRange_parse_wf v r : PortRange_parse v = Ok r -> PortRange_wf r.
Proof.
  unfold PortRange_parse, PortRange_wf. intros H.
  case_decide; [done|]. destruct (_ <? _); [done|]. destruct (contains_whitespace v); [done|].
  destruct (find_char ch_dash v) as [i|].
  - case_bool_decide; simpl in H; [|done].
    destruct (parse_port (take i v)) as [s|] eqn:Es; [|done]. simpl in H.
    destruct (parse_port (drop (S i) v)) as [e|] eqn:Ee; [|done]. simpl in H.
    apply parse_port_ok in Es, Ee. destruct (Z.ltb_spec e s); [done|]. simplify_eq. simpl. lia.
  - destruct (parse_port v) as [p|] eqn:Ep; [|done]. simpl in H.
    apply parse_port_ok in Ep. simplify_eq. simpl. lia.
Qed.

(** [size()] counts the ports the range contains; no wrap-around happens. *)
Lemma PortRange_size_count r :
  PortRange_wf r ->
  PortRange_size r =
  Zlen (List.filter (PortRange_contains r) (seqZ 0 65536)).
Proof.
  intros [Hr He]. unfold PortRange_size. rewrite Z.mod_small by lia.
  destruct r as [s e]. cbn [start end_] in *.
  assert (Hgen : forall (n : nat) lo, 0 <= lo ->
    Zlen (List.filter (PortRange_contains (mkPortRange s e)) (seqZ lo (Z.of_nat n))) =
    Z.max 0 (Z.min e (lo + Z.of_nat n - 1) - Z.max s lo + 1)).
  { induction n as [|n IH]; intros lo Hlo.
    - change (Z.of_nat 0) with 0. unfold Zlen. simpl. lia.
    - rewrite seqZ_cons by lia. replace (Z.pred (Z.of_nat (S n))) with (Z.of_nat n) by lia.
      simpl List.filter. unfold PortRange_contains at 1. simpl.
      destruct (Z.leb_spec s lo), (Z.leb_spec lo e); simpl; rewrite ?Zlen_cons, IH by lia; lia. }
  specialize (Hgen (Z.to_nat 65536) 0 ltac:(lia)). rewrite Z2Nat.id in Hgen by lia. lia.
Qed.

(** ** Theorems *)

(** The text [PortRange::parse] accepts denotes a non-empty range of ports 1 to
    65535; printing the range and parsing the result gives the range back, and
    [size()] is the number of ports it contains. *)
Theorem PortRange_parse_sound value r :
  PortRange_parse value = Ok r ->
  1 <= start r <= end_ r /\ end_ r <= 65535 /\
  PortRange_parse (PortRange_to_string r) = Ok r /\
  PortRange_size r = Zlen (List.filter (PortRange_contains r) (seqZ 0 65536)).
Proof.
  intros Hw%PortRange_parse_wf. destruct (Hw) as [? ?]. split_and!; try lia.
  - by apply PortRange_parse_print.
  - by apply PortRange_size_count.
Qed.

Lemma PortRange_parse_sound_witness :
  let r := mkPortRange 8000 8080 in
  1 <= start r <= end_ r /\ end_ r <= 65535 /\
  PortRange_parse (PortRange_to_string r) = Ok r /\
  PortRange_size r = Zlen (List.filter (PortRange_contains r) (seqZ 0 65536)).
Proof. intros r. apply (PortRange_parse_sound (bs "8000-8080")). vm_compute. reflexivity. Defined.
