(* ===== verification/Endpoint.v ===== *)
(** * Endpoints (src/common/endpoint.cpp, include/minitun/common/endpoint.hpp)

    Strict parsing of ["host:port"] and ["[v6]:port"] without DNS, and the
    canonical text.  Asio's address parsers are parameters of the model. *)
From S2P Require Import Prelude Common Text.

Definition max_domain_length : Z := 253.
Definition max_domain_label_length : Z := 63.
Definition max_endpoint_text_length : Z := 260.
Definition endpoint_max_port_text_length : Z := 5.

(** [std::isspace] in the C locale. *)
Definition isspace (c : byte) : bool :=
  let v := Z_of_byte c in (v =? 32) || ((9 <=? v) && (v <=? 13)).

Definition endpoint_contains_whitespace (value : bytes) : bool := existsb isspace value.

(** [parse_port] of endpoint.cpp. *)
Definition endpoint_parse_port (value : bytes) : Result Z :=
  if decide (value = []) then failure invalid_argument "endpoint port is empty"
  else if endpoint_max_port_text_length <? Zlen value then
    failure invalid_argument "endpoint port has too many digits"
  else
    match from_chars 32 value with
    | Some (port, []) =>
        if (port =? 0) || (65535 <? port) then
          failure invalid_argument "endpoint port must be a decimal number in 1..65535"
        else Ok port
    | _ => failure invalid_argument "endpoint port must be a decimal number in 1..65535"
    end.

Definition is_ascii_letter (c : byte) : bool :=
  let v := Z_of_byte c in ((97 <=? v) && (v <=? 122)) || ((65 <=? v) && (v <=? 90)).

Definition is_domain_character (c : byte) : bool :=
  is_ascii_letter c || is_ascii_digit c || bool_decide (c = ch_dash).

Definition is_ascii_hex_digit (c : byte) : bool :=
  let v := Z_of_byte c in
  is_ascii_digit c || ((97 <=? v) && (v <=? 102)) || ((65 <=? v) && (v <=? 70)).

(** The text before the first [c] of a suffix, and the text after it if there
    is one: [find(c, start)] with the [substr] calls around it. *)
Fixpoint split_at (c : byte) (l : bytes) : bytes * option bytes :=
  match l with
  | [] => ([], None)
  | b :: l' =>
      if decide (b = c) then ([], Some l')
      else let (p, r) := split_at c l' in (b :: p, r)
  end.

(** [is_legacy_numeric_component]. *)
Definition is_legacy_numeric_component (component : bytes) : bool :=
  if decide (component = []) then false
  else if forallb is_ascii_digit component then true
  else
    match component with
    | c0 :: c1 :: rest =>
        (2 <? Zlen component) && bool_decide (c0 = Byte.x30)
        && (bool_decide (c1 = Byte.x78) || bool_decide (c1 = Byte.x58))
        && forallb is_ascii_hex_digit rest
    | _ => false
    end.

(** The [while] loop of [is_legacy_numeric_ipv4_name] on [host.substr(component_start)]. *)
Fixpoint legacy_numeric_loop (fuel : nat) (s : bytes) : bool :=
  match fuel with
  | O => false
  | S fuel =>
      if decide (s = []) then false
      else
        let (component, rest) := split_at ch_dot s in
        if negb (is_legacy_numeric_component component) then false
        else
          match rest with
          | None => true
          | Some [] => true
          | Some s' => legacy_numeric_loop fuel s'
          end
  end.

Definition is_legacy_numeric_ipv4_name (host : bytes) : bool :=
  legacy_numeric_loop (S (length host)) host.

(** The [while] loop of [is_valid_ipv4_text], with [octet_count]. *)
Fixpoint ipv4_loop (fuel : nat) (octet_count : Z) (s : bytes) : bool :=
  match fuel with
  | O => false
  | S fuel =>
      if decide (s = []) then octet_count =? 4
      else
        let (octet_text, rest) := split_at ch_dot s in
        let octet_size := Zlen octet_text in
        if (octet_size =? 0) || (3 <? octet_size)
           || ((1 <? octet_size) && bool_decide (head octet_text = Some Byte.x30)) then false
        else
          match from_chars 16 octet_text with
          | Some (octet, []) =>
              if 255 <? octet then false
              else
                match rest with
                | None => octet_count + 1 =? 4
                | Some s' => ipv4_loop fuel (octet_count + 1) s'
                end
          | _ => false
          end
  end.

(** [is_valid_ipv4_text]. *)
Definition is_valid_ipv4_text (host : bytes) : bool :=
  if bool_decide (host = []) || bool_decide (head host = Some ch_dot)
     || bool_decide (last host = Some ch_dot) then false
  else ipv4_loop (S (length host)) 0 host.

(** The [while] loop of [is_valid_domain_name]. *)
Fixpoint domain_loop (fuel : nat) (s : bytes) : bool :=
  match fuel with
  | O => false
  | S fuel =>
      if decide (s = []) then true
      else
        let (label, rest) := split_at ch_dot s in
        if (Zlen label =? 0) || (max_domain_label_length <? Zlen label) then false
        else if bool_decide (head label = Some ch_dash) || bool_decide (last label = Some ch_dash)
                || negb (forallb is_domain_character label) then false
        else match rest with None => true | Some s' => domain_loop fuel s' end
  end.

(** [is_valid_domain_name]; [remove_suffix(1)] is [removelast]. *)
Definition is_valid_domain_name (host : bytes) : bool :=
  if decide (host = []) then false
  else
    let host := if decide (last host = Some ch_dot) then removelast host else host in
    if bool_decide (host = []) || bool_decide (last host = Some ch_dot)
       || (max_domain_length <? Zlen host) then false
    else domain_loop (S (length host)) host.

(** [lower_ascii]. *)
Definition lower_char (c : byte) : byte :=
  let v := Z_of_byte c in
  if (65 <=? v) && (v <=? 90) then byte_of_Z (v - 65 + 97) else c.

Definition lower_ascii (value : bytes) : bytes := lower_char <$> value.

(** [EndpointKind] and [Endpoint]. *)
Inductive EndpointKind : Set := domain_name | ipv4 | ipv6.

Record Endpoint : Set := mkEndpoint { host : bytes; port : Z; endpoint_kind : EndpointKind }.

#[export] Instance EndpointKind_eq_decision : EqDecision EndpointKind.
Proof. solve_decision. Defined.
#[export] Instance Endpoint_eq_decision : EqDecision Endpoint.
Proof. solve_decision. Defined.

(** Asio's [make_address_v4]/[make_address_v6] followed by [to_string()]: the
    canonical text of the address, [None] when an error code is set. *)
Class AsioAddress := {
  v4_text : bytes -> option bytes;
  v6_text : bytes -> option bytes
}.

(** [Endpoint::parse]. *)
Definition Endpoint_parse `{AsioAddress} (value : bytes) : Result Endpoint :=
  if decide (value = []) then failure invalid_argument "endpoint is empty"
  else if max_endpoint_text_length <? Zlen value then
    failure invalid_argument "endpoint exceeds the maximum length"
  else if endpoint_contains_whitespace value then
    failure invalid_argument "endpoint must not contain whitespace"
  else if decide (head value = Some ch_lbracket) then
    match find_char ch_rbracket value with
    | None => failure invalid_argument "IPv6 endpoints must use the form [address]:port"
    | Some closing_bracket =>
        if bool_decide (closing_bracket = 1%nat)
           || (Zlen value <=? Z.of_nat closing_bracket + 1)
           || negb (bool_decide (value !! S closing_bracket = Some ch_colon)) then
          failure invalid_argument "IPv6 endpoints must use the form [address]:port"
        else
          let host := take (closing_bracket - 1)%nat (drop 1 value) in
          let port_text := drop (closing_bracket + 2)%nat value in
          if bool_decide (find_char ch_percent host <> None) then
            failure invalid_argument "IPv6 scope identifiers are not supported"
          else
            match v6_text host with
            | None => failure invalid_argument "endpoint contains an invalid IPv6 address"
            | Some address =>
                port ← endpoint_parse_port port_text;
                Ok (mkEndpoint address port ipv6)
            end
    end
  else
    match find_char ch_colon value with
    | None =>
        failure invalid_argument "endpoint must use host:port, with brackets around IPv6 addresses"
    | Some separator =>
        if bool_decide (separator = 0%nat)
           || negb (bool_decide (rfind_char ch_colon value = Some separator)) then
          failure invalid_argument
            "endpoint must use host:port, with brackets around IPv6 addresses"
        else
          let host := take separator value in
          let port_text := drop (S separator) value in
          port ← endpoint_parse_port port_text;
          if is_valid_ipv4_text host then
            match v4_text host with
            | None => failure invalid_argument "endpoint contains an invalid IPv4 address"
            | Some address => Ok (mkEndpoint address port ipv4)
            end
          else if is_legacy_numeric_ipv4_name host then
            failure invalid_argument
              "endpoint contains an ambiguous legacy numeric IPv4 address"
          else if negb (is_valid_domain_name host) then
            failure invalid_argument "endpoint contains an invalid domain name"
          else Ok (mkEndpoint (lower_ascii host) port domain_name)
    end.

(** [Endpoint::to_string]. *)
Definition Endpoint_to_string (e : Endpoint) : bytes :=
  match endpoint_kind e with
  | ipv6 => [ch_lbracket] ++ host e ++ [ch_rbracket; ch_colon] ++ to_string (port e)
  | _ => host e ++ [ch_colon] ++ to_string (port e)
  end.

(** What the code relies on in Asio, as its documentation (inet_pton/inet_ntop)
    states it: a strict dotted-decimal text is an address whose text is itself;
    the text of an IPv6 address without a scope consists of hexadecimal digits,
    colons and dots, among them a colon, has at most 45 characters and reads back as
    itself. *)
Definition is_v6_character (c : byte) : bool :=
  is_ascii_hex_digit c || bool_decide (c = ch_colon) || bool_decide (c = ch_dot).

Class AsioAddressLaws `{AsioAddress} : Prop := {
  v4_text_valid h : is_valid_ipv4_text h = true -> v4_text h = Some h;
  v6_text_shape h t : (ch_percent ∉ h) -> v6_text h = Some t ->
    t <> [] /\ Zlen t <= 45 /\ forallb is_v6_character t = true;
  v6_text_idem h t : (ch_percent ∉ h) -> v6_text h = Some t -> v6_text t = Some t;
  v6_text_colon h t : v6_text h = Some t -> ch_colon ∈ t
}.

(** ** Lemmas *)

(** *** Lowercasing keeps every decision of the host parsers *)

Lemma lower_char_digit c : is_ascii_digit (lower_char c) = is_ascii_digit c.
Proof. by destruct c. Qed.
Lemma lower_char_hex c : is_ascii_hex_digit (lower_char c) = is_ascii_hex_digit c.
Proof. by destruct c. Qed.
Lemma lower_char_domain c : is_domain_character (lower_char c) = is_domain_character c.
Proof. by destruct c. Qed.
Lemma lower_char_digit_id c : is_ascii_digit c = true -> lower_char c = c.
Proof. by destruct c. Qed.
Lemma lower_char_idem c : lower_char (lower_char c) = lower_char c.
Proof. by destruct c. Qed.

(** Characters that are not letters have themselves as their only preimage. *)
Lemma lower_char_fixed c d : is_ascii_letter d = false -> lower_char c = d <-> c = d.
Proof.
  intros Hd. split; [|intros ->; by destruct d].
  intros <-. revert Hd. by destruct c.
Qed.

Lemma bool_decide_lower c d :
  is_ascii_letter d = false -> bool_decide (lower_char c = d) = bool_decide (c = d).
Proof. intros Hd. apply bool_decide_ext. by apply lower_char_fixed. Qed.

Lemma forallb_lower p l :
  (forall c, p (lower_char c) = p c) -> forallb p (lower_ascii l) = forallb p l.
Proof. intros Hp. induction l as [|c l IH]; simpl; [done|]. by rewrite Hp, IH. Qed.

Lemma Zlen_lower l : Zlen (lower_ascii l) = Zlen l.
Proof. unfold Zlen, lower_ascii. by rewrite length_fmap. Qed.

Lemma lower_ascii_nil l : lower_ascii l = [] <-> l = [].
Proof. by destruct l. Qed.

Lemma head_lower l d :
  is_ascii_letter d = false ->
  bool_decide (head (lower_ascii l) = Some d) = bool_decide (head l = Some d).
Proof.
  intros Hd. apply bool_decide_ext. destruct l as [|c l]; simpl; [done|].
  rewrite !(inj_iff Some). by apply lower_char_fixed.
Qed.

Lemma last_lower l d :
  is_ascii_letter d = false -> last (lower_ascii l) = Some d <-> last l = Some d.
Proof.
  intros Hd. unfold lower_ascii. rewrite fmap_last. destruct (last l) as [c|]; simpl; [|done].
  rewrite !(inj_iff Some). by apply lower_char_fixed.
Qed.

Lemma last_lower_b l d :
  is_ascii_letter d = false ->
  bool_decide (last (lower_ascii l) = Some d) = bool_decide (last l = Some d).
Proof. intros Hd. apply bool_decide_ext. by apply last_lower. Qed.

Lemma lower_ascii_nil_b l : bool_decide (lower_ascii l = []) = bool_decide (l = []).
Proof. apply bool_decide_ext, lower_ascii_nil. Qed.

Lemma split_at_lower d l :
  is_ascii_letter d = false ->
  split_at d (lower_ascii l) =
  (lower_ascii (fst (split_at d l)), lower_ascii <$> snd (split_at d l)).
Proof.
  intros Hd. induction l as [|c l IH]; simpl; [done|].
  destruct (decide (c = d)) as [->|Hc].
  - rewrite decide_True by (by apply lower_char_fixed). done.
  - rewrite decide_False by (by rewrite lower_char_fixed). rewrite IH.
    by destruct (split_at d l).
Qed.

Lemma lower_legacy_component l :
  is_legacy_numeric_component (lower_ascii l) = is_legacy_numeric_component l.
Proof.
  unfold is_legacy_numeric_component.
  rewrite (decide_ext _ (l = [])) by apply lower_ascii_nil. case_decide; [done|].
  rewrite (forallb_lower _ l) by apply lower_char_digit.
  destruct (forallb is_ascii_digit l); [done|].
  destruct l as [|c0 [|c1 l]]; try done.
  change (lower_ascii (c0 :: c1 :: l)) with (lower_char c0 :: lower_char c1 :: lower_ascii l).
  cbv match. rewrite (forallb_lower _ l) by apply lower_char_hex.
  rewrite !Zlen_cons, Zlen_lower. f_equal. f_equal; [f_equal; by rewrite bool_decide_lower|].
  by destruct c1.
Qed.

Lemma legacy_numeric_loop_lower n l :
  legacy_numeric_loop n (lower_ascii l) = legacy_numeric_loop n l.
Proof.
  revert l. induction n as [|n IH]; intros l; [done|]. cbn [legacy_numeric_loop].
  rewrite (decide_ext _ (l = [])) by apply lower_ascii_nil. case_decide; [done|].
  rewrite split_at_lower by done. destruct (split_at ch_dot l) as [c [r|]]; simpl;
    rewrite lower_legacy_component; destruct (negb _); try done.
  destruct r as [|b r]; [done|]. apply (IH (b :: r)).
Qed.

Lemma from_chars_lower w l :
  from_chars w (lower_ascii l) = (fun '(v, r) => (v, lower_ascii r)) <$> from_chars w l.
Proof.
  assert (Hscan : forall l a, scan_digits a (lower_ascii l) =
    (fst (scan_digits a l), lower_ascii (snd (scan_digits a l)))).
  { clear l. intros l. induction l as [|c l' IH]; intros a; simpl; [done|]. rewrite lower_char_digit.
    destruct (is_ascii_digit c) eqn:E; [|reflexivity].
    rewrite (lower_char_digit_id c) by done. apply IH. }
  unfold from_chars. destruct l as [|c l]; [done|].
  rewrite Hscan. cbn [lower_ascii fmap list_fmap]. rewrite lower_char_digit.
  destruct (is_ascii_digit c); [|done].
  destruct (scan_digits 0 (c :: l)) as [v r]. simpl. by destruct (_ <? _).
Qed.

Lemma ipv4_loop_lower n k l : ipv4_loop n k (lower_ascii l) = ipv4_loop n k l.
Proof.
  revert k l. induction n as [|n IH]; intros k l; [done|]. cbn [ipv4_loop].
  rewrite (decide_ext _ (l = [])) by apply lower_ascii_nil. case_decide; [done|].
  rewrite split_at_lower by done. destruct (split_at ch_dot l) as [o r]. simpl fst. simpl snd.
  cbv beta iota zeta. rewrite Zlen_lower, head_lower, from_chars_lower by done.
  destruct (_ || _); [done|]. destruct (from_chars 16 o) as [[v t]|]; simpl; [|done].
  destruct t as [|b t]; simpl; [|done]. destruct (_ <? _); [done|].
  destruct r as [s|]; simpl; [apply IH|done].
Qed.

Lemma is_valid_ipv4_text_lower l : is_valid_ipv4_text (lower_ascii l) = is_valid_ipv4_text l.
Proof.
  unfold is_valid_ipv4_text. rewrite head_lower by done.
  rewrite lower_ascii_nil_b.
  rewrite last_lower_b by done.
  destruct (_ || _); [done|]. unfold lower_ascii at 1. rewrite length_fmap. apply ipv4_loop_lower.
Qed.

Lemma is_legacy_lower l :
  is_legacy_numeric_ipv4_name (lower_ascii l) = is_legacy_numeric_ipv4_name l.
Proof.
  unfold is_legacy_numeric_ipv4_name. unfold lower_ascii at 1. rewrite length_fmap.
  apply legacy_numeric_loop_lower.
Qed.

Lemma domain_loop_lower n l : domain_loop n (lower_ascii l) = domain_loop n l.
Proof.
  revert l. induction n as [|n IH]; intros l; [done|]. cbn [domain_loop].
  rewrite (decide_ext _ (l = [])) by apply lower_ascii_nil. case_decide; [done|].
  rewrite split_at_lower by done. destruct (split_at ch_dot l) as [o r]. simpl fst. simpl snd.
  cbv beta iota zeta. rewrite Zlen_lower, head_lower by done.
  rewrite last_lower_b by done.
  rewrite (forallb_lower _ o) by apply lower_char_domain.
  destruct (_ || _); [done|]. destruct (_ || _); [done|].
  destruct r as [s|]; simpl; [apply IH|done].
Qed.

Lemma removelast_lower l : removelast (lower_ascii l) = lower_ascii (removelast l).
Proof.
  induction l as [|c l IH]; [done|]. destruct l as [|d l]; [done|].
  change (lower_ascii (c :: d :: l)) with (lower_char c :: lower_ascii (d :: l)).
  change (removelast (c :: d :: l)) with (c :: removelast (d :: l)).
  change (lower_ascii (c :: removelast (d :: l)))
    with (lower_char c :: lower_ascii (removelast (d :: l))).
  rewrite <- IH. done.
Qed.

Lemma is_valid_domain_name_lower l :
  is_valid_domain_name (lower_ascii l) = is_valid_domain_name l.
Proof.
  unfold is_valid_domain_name.
  rewrite (decide_ext _ (l = [])) by apply lower_ascii_nil. case_decide; [done|].
  rewrite (decide_ext _ (last l = Some ch_dot)) by (by apply last_lower).
  set (h := if decide (last l = Some ch_dot) then removelast l else l).
  replace (if decide (last l = Some ch_dot) then removelast (lower_ascii l) else lower_ascii l)
    with (lower_ascii h) by (unfold h; case_decide; [by rewrite removelast_lower|done]).
  rewrite lower_ascii_nil_b.
  rewrite last_lower_b by done.
  rewrite Zlen_lower. destruct (_ || _); [done|].
  unfold lower_ascii at 1. rewrite length_fmap. apply domain_loop_lower.
Qed.

(** *** The characters of an accepted host *)

Definition is_host_character (c : byte) : bool :=
  is_domain_character c || bool_decide (c = ch_dot).

Lemma split_at_app d l :
  l = fst (split_at d l) ++ match snd (split_at d l) with None => [] | Some r => d :: r end.
Proof.
  induction l as [|b l IH]; simpl; [done|]. case_decide; subst; [done|].
  destruct (split_at d l) as [p r]. simpl in *. by f_equal.
Qed.

Lemma forallb_host_split l :
  forallb is_host_character (fst (split_at ch_dot l)) = true ->
  (forall r, snd (split_at ch_dot l) = Some r -> forallb is_host_character r = true) ->
  forallb is_host_character l = true.
Proof.
  intros H1 H2. rewrite (split_at_app ch_dot l), forallb_app, H1. simpl.
  destruct (snd _) as [r|]; simpl; [|done]. by apply H2.
Qed.

Lemma forallb_impl {A} (p q : A -> bool) l :
  (forall x, p x = true -> q x = true) -> forallb p l = true -> forallb q l = true.
Proof. rewrite !forallb_forall. eauto. Qed.

Lemma ipv4_loop_host n k l : ipv4_loop n k l = true -> forallb is_host_character l = true.
Proof.
  revert k l. induction n as [|n IH]; intros k l; [done|]. cbn [ipv4_loop].
  case_decide; [by subst|]. intros Hl. apply forallb_host_split.
  - destruct (split_at ch_dot l) as [o r]. simpl in *. destruct (_ || _); [done|].
    destruct (from_chars 16 o) as [[v [|??]]|] eqn:E; try done.
    apply from_chars_all in E as [Hd _]. revert Hd. apply forallb_impl. by intros [].
  - intros r' Hr. destruct (split_at ch_dot l) as [o r]. simpl in *. subst r.
    destruct (_ || _); [done|]. destruct (from_chars 16 o) as [[v [|??]]|]; try done.
    destruct (_ <? _); [done|]. eauto.
Qed.

Lemma domain_loop_host n l : domain_loop n l = true -> forallb is_host_character l = true.
Proof.
  revert l. induction n as [|n IH]; intros l; [done|]. cbn [domain_loop].
  case_decide; [by subst|]. intros Hl.
  apply forallb_host_split; [|intros r' Hr]; destruct (split_at ch_dot l) as [o r]; simpl in *;
    destruct (_ || _); try done; destruct (forallb is_domain_character o) eqn:E;
    rewrite ?orb_true_r in Hl; try done.
  - revert E. apply forallb_impl. intros c Hc. unfold is_host_character. by rewrite Hc.
  - subst r. destruct (_ || _); [done|]. eauto.
Qed.

Lemma removelast_last_app (l : bytes) d : last l = Some d -> l = removelast l ++ [d].
Proof.
  intros (l' & ->)%last_Some. by rewrite removelast_last.
Qed.

Lemma valid_host_characters h :
  is_valid_ipv4_text h = true \/ is_valid_domain_name h = true ->
  h <> [] /\ forallb is_host_character h = true.
Proof.
  intros [H|H].
  - unfold is_valid_ipv4_text in H. case_bool_decide; [done|]. cbn [orb] in H.
    split; [done|]. destruct (_ || _); [done|]. by eapply ipv4_loop_host.
  - unfold is_valid_domain_name in H. case_decide; [done|]. split; [done|].
    case_decide as Hl.
    + rewrite (removelast_last_app _ _ Hl), forallb_app. destruct (_ || _); [done|].
      apply domain_loop_host in H. by rewrite H.
    + destruct (_ || _); [done|]. by eapply domain_loop_host.
Qed.

Lemma ipv4_loop_length n k l : ipv4_loop n k l = true -> Zlen l <= 4 * (4 - k).
Proof.
  revert k l. induction n as [|n IH]; intros k l; [done|]. cbn [ipv4_loop].
  case_decide as Hl; [subst; change (Zlen []) with 0; lia|].
  pose proof (split_at_app ch_dot l) as Hs.
  destruct (split_at ch_dot l) as [octet rest]. cbn [fst snd] in Hs.
  destruct (_ || _) eqn:Hz; [done|].
  destruct (from_chars 16 octet) as [[v [|??]]|]; try done. destruct (255 <? v); [done|].
  rewrite Hs. destruct rest as [s'|]; rewrite Zlen_app.
  - intros Hr%IH. rewrite Zlen_cons. lia.
  - intros Hk. change (Zlen []) with 0. lia.
Qed.

Lemma valid_host_length h :
  is_valid_ipv4_text h = true \/ is_valid_domain_name h = true -> 1 <= Zlen h <= 254.
Proof.
  intros Hv. pose proof (valid_host_characters h Hv) as [Hn _]. split.
  { destruct h; [done|]. rewrite Zlen_cons. pose proof (Zlen_nonneg h). lia. }
  destruct Hv as [H|H].
  - unfold is_valid_ipv4_text in H. destruct (_ || _); [done|].
    apply ipv4_loop_length in H. lia.
  - unfold is_valid_domain_name, max_domain_length in H. case_decide; [done|].
    case_decide as Hl.
    + rewrite (removelast_last_app _ _ Hl), Zlen_app. change (Zlen [ch_dot]) with 1.
      destruct (bool_decide _); [done|]. destruct (bool_decide _); [done|]. cbn [orb] in H.
      destruct (Z.ltb_spec 253 (Zlen (removelast h))); [done|lia].
    + destruct (bool_decide _); [done|]. destruct (bool_decide _); [done|]. cbn [orb] in H.
      destruct (Z.ltb_spec 253 (Zlen h)); [done|lia].
Qed.

Lemma host_not_elem c h :
  forallb is_host_character h = true -> is_host_character c = false -> c ∉ h.
Proof.
  intros Hl Hc Hin. rewrite forallb_forall in Hl. apply list_elem_of_In in Hin.
  specialize (Hl _ Hin). congruence.
Qed.

Lemma no_isspace p h :
  (forall c, p c = true -> isspace c = false) ->
  forallb p h = true -> endpoint_contains_whitespace h = false.
Proof.
  intros Hp. induction h as [|c h IH]; simpl; [done|]. intros [Hc Hh]%andb_prop.
  unfold endpoint_contains_whitespace in *. simpl. by rewrite (Hp c), IH.
Qed.

Lemma whitespace_app l1 l2 :
  endpoint_contains_whitespace (l1 ++ l2) =
  endpoint_contains_whitespace l1 || endpoint_contains_whitespace l2.
Proof. apply existsb_app. Qed.

Lemma to_string_no_isspace z : 0 <= z -> endpoint_contains_whitespace (to_string z) = false.
Proof.
  intros Hz. apply (no_isspace is_ascii_digit); [by intros []|]. by apply to_string_spec.
Qed.

(** *** Ports *)

Lemma endpoint_parse_port_to_string p :
  1 <= p <= 65535 -> endpoint_parse_port (to_string p) = Ok p.
Proof.
  intros Hp. unfold endpoint_parse_port, endpoint_max_port_text_length.
  destruct (to_string_spec p) as (Hn & _); [lia|].
  pose proof (to_string_length p 5 ltac:(lia) ltac:(lia)).
  rewrite decide_False by done.
  destruct (Z.ltb_spec 5 (Zlen (to_string p))); [lia|].
  rewrite from_chars_to_string by lia.
  destruct (Z.eqb_spec p 0), (Z.ltb_spec 65535 p); simpl; try lia. done.
Qed.

Lemma endpoint_parse_port_ok v p :
  endpoint_parse_port v = Ok p -> 1 <= p <= 65535 /\ Zlen (to_string p) <= Zlen v.
Proof.
  unfold endpoint_parse_port. intros H. case_decide; [done|]. destruct (_ <? _); [done|].
  destruct (from_chars 32 v) as [[q [|??]]|] eqn:E; try done.
  apply from_chars_all in E as (_ & Hq & Hl).
  destruct (Z.eqb_spec q 0), (Z.ltb_spec 65535 q); simpl in H; try done. simplify_eq. lia.
Qed.

(** *** Canonical texts read back *)

Section Canonical.
Context `{AsioAddressLaws}.

(** What the unbracketed branch of [Endpoint::parse] does with a host whose
    characters are those of names and IPv4 addresses. *)
Lemma Endpoint_parse_plain h p :
  h <> [] -> forallb is_host_character h = true -> 1 <= p <= 65535 ->
  Zlen h + 1 + Zlen (to_string p) <= 260 ->
  Endpoint_parse (h ++ [ch_colon] ++ to_string p) =
  if is_valid_ipv4_text h then
    match v4_text h with
    | None => failure invalid_argument "endpoint contains an invalid IPv4 address"
    | Some address => Ok (mkEndpoint address p ipv4)
    end
  else if is_legacy_numeric_ipv4_name h then
    failure invalid_argument "endpoint contains an ambiguous legacy numeric IPv4 address"
  else if negb (is_valid_domain_name h) then
    failure invalid_argument "endpoint contains an invalid domain name"
  else Ok (mkEndpoint (lower_ascii h) p domain_name).
Proof.
  intros Hn Hh Hp Hlen. unfold Endpoint_parse, max_endpoint_text_length.
  rewrite decide_False by (by destruct h).
  rewrite !Zlen_app. change (Zlen [ch_colon]) with 1.
  destruct (Z.ltb_spec 260 (Zlen h + (1 + Zlen (to_string p)))); [lia|].
  rewrite !whitespace_app, to_string_no_isspace by lia.
  rewrite (no_isspace is_host_character h) by (try done; by intros []). simpl orb. cbv match.
  rewrite decide_False.
  2: { destruct h as [|c h']; [done|]. simpl. intros [= ->]. simpl in Hh. done. }
  change ([ch_colon] ++ to_string p) with (ch_colon :: to_string p).
  rewrite find_char_app by (by apply host_not_elem).
  rewrite rfind_char_app by (apply to_string_not_elem; [lia|done]).
  rewrite (bool_decide_false (length h = 0%nat)) by (by destruct h).
  rewrite bool_decide_true by done. simpl orb. simpl negb. cbv match zeta.
  rewrite take_app_length.
  replace (S (length h)) with (length (h ++ [ch_colon])) by (rewrite length_app; simpl; lia).
  change (ch_colon :: to_string p) with ([ch_colon] ++ to_string p).
  rewrite app_assoc, drop_app_length, endpoint_parse_port_to_string by done. done.
Qed.

Lemma Endpoint_parse_bracketed t p :
  t <> [] -> Zlen t <= 45 -> forallb is_v6_character t = true -> 1 <= p <= 65535 ->
  v6_text t = Some t ->
  Endpoint_parse ([ch_lbracket] ++ t ++ [ch_rbracket; ch_colon] ++ to_string p) =
  Ok (mkEndpoint t p ipv6).
Proof.
  intros Hn Ht Hc Hp Hv. unfold Endpoint_parse, max_endpoint_text_length.
  pose proof (to_string_length p 5 ltac:(lia) ltac:(lia)).
  rewrite decide_False by done. rewrite !Zlen_app.
  change (Zlen [ch_lbracket]) with 1. change (Zlen [ch_rbracket; ch_colon]) with 2.
  destruct (Z.ltb_spec 260 (1 + (Zlen t + (2 + Zlen (to_string p))))); [lia|].
  rewrite !whitespace_app, to_string_no_isspace by lia.
  rewrite (no_isspace is_v6_character t) by (try done; by intros []). simpl orb. cbv match.
  assert (Hnot : forall c, is_v6_character c = false -> c ∉ t).
  { intros c Hc' Hin. rewrite forallb_forall in Hc. apply list_elem_of_In in Hin.
    specialize (Hc _ Hin). congruence. }
  rewrite decide_True by done.
  rewrite app_assoc.
  change ([ch_rbracket; ch_colon] ++ to_string p) with (ch_rbracket :: ch_colon :: to_string p).
  rewrite (find_char_app ch_rbracket ([ch_lbracket] ++ t) _).
  2: { apply not_elem_of_app. split; [|by apply Hnot]. intros ?%list_elem_of_singleton; done. }
  simpl length. rewrite (bool_decide_false (S (length t) = 1%nat)) by (by destruct t).
  destruct (Z.leb_spec (1 + (Zlen t + (2 + Zlen (to_string p)))) (Z.of_nat (S (length t)) + 1));
    [unfold Zlen in *; lia|].
  rewrite lookup_app_r by (simpl; lia). cbn [app length].
  replace (S (length t) - length t)%nat with 1%nat by lia.
  rewrite bool_decide_true by done. simpl orb. simpl negb. cbv match zeta.
  replace (S (length t) - 1)%nat with (length t) by lia.
  cbn [drop]. rewrite drop_0, take_app_length.
  rewrite (proj2 (find_char_None ch_percent t)) by (by apply Hnot).
  rewrite bool_decide_false by (intros Hx; by apply Hx). cbv match. rewrite Hv.
  replace (S (length t) + 2)%nat with (S (length (t ++ [ch_rbracket; ch_colon])))
    by (rewrite length_app; simpl; lia). cbn [drop].
  change (ch_rbracket :: ch_colon :: to_string p)
    with ([ch_rbracket; ch_colon] ++ to_string p).
  rewrite app_assoc, drop_app_length, endpoint_parse_port_to_string by done. done.
Qed.

Lemma Endpoint_parse_print value e :
  Endpoint_parse value = Ok e -> Endpoint_parse (Endpoint_to_string e) = Ok e.
Proof.
  unfold Endpoint_parse at 1. intros Hv.
  case_decide; [done|]. destruct (Z.ltb_spec max_endpoint_text_length (Zlen value)) as [|Hlen];
    [done|]. destruct (endpoint_contains_whitespace value); [done|].
  unfold max_endpoint_text_length in Hlen. case_decide.
  - destruct (find_char ch_rbracket value) as [c|]; [|done].
    destruct (_ || _); [done|]. case_bool_decide as Hpc; [done|].
    destruct (v6_text _) as [t|] eqn:Ht; [|done].
    destruct (endpoint_parse_port _) as [p|] eqn:Hp; [|done]. simpl in Hv. simplify_eq.
    apply find_char_None in Hpc. apply endpoint_parse_port_ok in Hp as [Hp _].
    destruct (v6_text_shape _ _ Hpc Ht) as (Hn & Hl & Hc).
    apply Endpoint_parse_bracketed; try done. by eapply v6_text_idem.
  - destruct (find_char ch_colon value) as [i|] eqn:Hf; [|done].
    destruct (bool_decide (i = 0%nat)); [done|]. case_bool_decide as Hr; [|done].
    simpl in Hv. destruct (endpoint_parse_port _) as [p|] eqn:Hp; [|done]. simpl in Hv.
    apply endpoint_parse_port_ok in Hp as [Hp Hpl].
    destruct (find_rfind_char_unique _ _ _ Hf Hr) as (h & r & -> & _ & _ & ->).
    rewrite take_app_length in Hv.
    change (h ++ ch_colon :: r) with (h ++ [ch_colon] ++ r) in *.
    rewrite app_assoc, drop_app_length' in Hpl by (rewrite length_app; simpl; lia).
    rewrite !Zlen_app in Hlen. change (Zlen [ch_colon]) with 1 in Hlen.
    unfold Endpoint_to_string. destruct (is_valid_ipv4_text h) eqn:H4.
    + rewrite v4_text_valid in Hv by done. simplify_eq. cbn [endpoint_kind host port].
      destruct (valid_host_characters h) as [Hn Hh]; [by left|].
      rewrite Endpoint_parse_plain by (try done; lia). by rewrite H4, v4_text_valid.
    + destruct (is_legacy_numeric_ipv4_name h) eqn:Hleg; [done|].
      destruct (is_valid_domain_name h) eqn:Hd; [|done]. simpl in Hv. simplify_eq.
      cbn [endpoint_kind host port].
      destruct (valid_host_characters (lower_ascii h)) as [Hn Hh];
        [right; by rewrite is_valid_domain_name_lower|].
      rewrite Endpoint_parse_plain by (try done; rewrite ?Zlen_lower; lia).
      rewrite is_valid_ipv4_text_lower, is_legacy_lower, is_valid_domain_name_lower, H4, Hleg, Hd.
      simpl. do 2 f_equal. unfold lower_ascii. rewrite <- list_fmap_compose.
      apply list_fmap_ext. intros ? ? _. apply lower_char_idem.
Qed.

(** The hosts and ports of endpoints, and that a colon in the host tells the IPv6
    addresses apart. *)
Lemma Endpoint_parse_shape value e :
  Endpoint_parse value = Ok e ->
  1 <= port e <= 65535 /\ 1 <= Zlen (host e) <= 254 /\
  (endpoint_kind e = ipv6 <-> ch_colon ∈ host e).
Proof.
  unfold Endpoint_parse. intros Hv.
  case_decide; [done|]. destruct (_ <? _); [done|].
  destruct (endpoint_contains_whitespace value); [done|]. case_decide.
  - destruct (find_char ch_rbracket value) as [c|]; [|done].
    destruct (_ || _); [done|]. case_bool_decide as Hpc; [done|].
    destruct (v6_text _) as [t|] eqn:Ht; [|done].
    destruct (endpoint_parse_port _) as [p|] eqn:Hp; [|done]. simpl in Hv. simplify_eq.
    apply find_char_None in Hpc. apply endpoint_parse_port_ok in Hp as [Hp _].
    destruct (v6_text_shape _ _ Hpc Ht) as (Hn & Hl & _). apply v6_text_colon in Ht.
    simpl. split_and!; try done; try lia.
    destruct t; [done|]. rewrite Zlen_cons. pose proof (Zlen_nonneg t). lia.
  - destruct (find_char ch_colon value) as [i|]; [|done]. destruct (_ || _); [done|].
    destruct (endpoint_parse_port _) as [p|] eqn:Hp; [|done]. simpl in Hv.
    apply endpoint_parse_port_ok in Hp as [Hp _]. revert Hv. generalize (take i value). intros h Hv.
    assert (Hcase : endpoint_kind e <> ipv6 /\ port e = p /\
              (is_valid_ipv4_text (host e) = true \/ is_valid_domain_name (host e) = true)).
    { destruct (is_valid_ipv4_text h) eqn:H4.
      - rewrite v4_text_valid in Hv by done. simplify_eq. simpl. auto.
      - destruct (is_legacy_numeric_ipv4_name h); [done|].
        destruct (is_valid_domain_name h) eqn:Hd; [|done]. simpl in Hv. simplify_eq. simpl.
        rewrite is_valid_domain_name_lower. auto. }
    destruct Hcase as (Hk & -> & Hh). pose proof (valid_host_length _ Hh). split_and!; try lia.
    split; [done|]. intros Hin. exfalso. revert Hin.
    apply valid_host_characters in Hh as [_ Hh]. by eapply host_not_elem.
Qed.
End Canonical.

(** ** Theorems *)

(** the canonical text of a parsed endpoint, whatever its kind, parses to the same
    endpoint, so that [to_string] may be stored and compared. *)
Theorem Endpoint_canonical_text `{AsioAddressLaws} value e :
  Endpoint_parse value = Ok e -> Endpoint_parse (Endpoint_to_string e) = Ok e.
Proof. apply Endpoint_parse_print. Qed.

(** An address library that knows the dotted-decimal addresses and one IPv6 address. *)
Definition sample_asio : AsioAddress := {|
  v4_text h := if is_valid_ipv4_text h then Some h else None;
  v6_text h := if decide (h = bs "::1") then Some (bs "::1")
               else if decide (h = bs "0:0::1") then Some (bs "::1") else None
|}.

Lemma sample_asio_laws : @AsioAddressLaws sample_asio.
Proof.
  split; simpl.
  - by intros h ->.
  - intros h t _. repeat case_decide; by intros; simplify_eq.
  - intros h t _. repeat case_decide; by intros; simplify_eq.
  - intros h t. repeat case_decide; intros; simplify_eq; apply (bool_decide_unpack _);
      vm_compute; exact I.
Qed.

Lemma Endpoint_canonical_text_witness :
  let e := mkEndpoint (bs "::1") 443 ipv6 in
  @Endpoint_parse sample_asio (Endpoint_to_string e) = Ok e.
Proof.
  intros e. apply (@Endpoint_canonical_text sample_asio sample_asio_laws (bs "[0:0::1]:443")).
  vm_compute. reflexivity.
Defined.
