(* ===== verification/Utf8.v ===== *)
(** * UTF-8 validation (src/protocol/codec.cpp, src/ipc/protocol.cpp, src/storage)

    The program has three validators: those of the remote protocol and of the storage
    layer decode each code point and check its range, the IPC parser's checks byte ranges
    only.  All three are modelled, and each accepts exactly the encodings of sequences of
    Unicode scalar values. *)
From S2P Require Import Prelude.

(** ** The remote protocol's validator *)

(** The [for] loop over the continuation bytes; [None] is [return false]. *)
Fixpoint continuation_loop (count : nat) (l : bytes) (code_point : Z) : option (Z * bytes) :=
  match count with
  | O => Some (code_point, l)
  | S count =>
      match l with
      | [] => None
      | continuation :: l' =>
          if negb (Z.land (Z_of_byte continuation) 0xc0 =? 0x80) then None
          else continuation_loop count l'
                 (Z.lor (Z.shiftl code_point 6) (Z.land (Z_of_byte continuation) 0x3f))
      end
  end.

(** [continuation_count], [code_point] and [minimum] of a first byte above 0x7f. *)
Definition lead_byte (first : Z) : option (nat * Z * Z) :=
  if Z.land first 0xe0 =? 0xc0 then Some (1%nat, Z.land first 0x1f, 0x80)
  else if Z.land first 0xf0 =? 0xe0 then Some (2%nat, Z.land first 0x0f, 0x800)
  else if Z.land first 0xf8 =? 0xf0 then Some (3%nat, Z.land first 0x07, 0x10000)
  else None.

(** The [while] loop of [protocol::is_valid_utf8] on the suffix from [index]. *)
Fixpoint utf8_loop (fuel : nat) (l : bytes) : bool :=
  match fuel with
  | O => match l with [] => true | _ => false end
  | S fuel =>
      match l with
      | [] => true
      | first :: rest =>
          if Z_of_byte first <=? 0x7f then utf8_loop fuel rest
          else
            match lead_byte (Z_of_byte first) with
            | None => false
            | Some (continuation_count, code_point, minimum) =>
                if Zlen l <=? Z.of_nat continuation_count then false
                else
                  match continuation_loop continuation_count rest code_point with
                  | None => false
                  | Some (code_point, rest) =>
                      if (code_point <? minimum) || (0x10ffff <? code_point)
                         || ((0xd800 <=? code_point) && (code_point <=? 0xdfff)) then false
                      else utf8_loop fuel rest
                  end
            end
      end
  end.

(** [protocol::is_valid_utf8]. *)
Definition is_valid_utf8 (value : bytes) : bool := utf8_loop (length value) value.

(** ** The IPC parser's validator *)

Definition is_continuation (b : byte) : bool :=
  (0x80 <=? Z_of_byte b) && (Z_of_byte b <=? 0xbf).

Definition in_range (lo hi : Z) (b : byte) : bool := (lo <=? Z_of_byte b) && (Z_of_byte b <=? hi).

(** The [while] loop of the [is_valid_utf8] of src/ipc/protocol.cpp. *)
Fixpoint ipc_utf8_loop (fuel : nat) (l : bytes) : bool :=
  match fuel with
  | O => match l with [] => true | _ => false end
  | S fuel =>
      match l with
      | [] => true
      | first :: rest =>
          let f := Z_of_byte first in
          if f <=? 0x7f then ipc_utf8_loop fuel rest
          else if (0xc2 <=? f) && (f <=? 0xdf) then
            match rest with
            | second :: rest' =>
                if negb (is_continuation second) then false else ipc_utf8_loop fuel rest'
            | _ => false
            end
          else if (0xe0 <=? f) && (f <=? 0xef) then
            match rest with
            | second :: third :: rest' =>
                let second_valid :=
                  if f =? 0xe0 then in_range 0xa0 0xbf second
                  else if f =? 0xed then in_range 0x80 0x9f second
                  else is_continuation second in
                if negb second_valid || negb (is_continuation third) then false
                else ipc_utf8_loop fuel rest'
            | _ => false
            end
          else if (0xf0 <=? f) && (f <=? 0xf4) then
            match rest with
            | second :: third :: fourth :: rest' =>
                let second_valid :=
                  if f =? 0xf0 then in_range 0x90 0xbf second
                  else if f =? 0xf4 then in_range 0x80 0x8f second
                  else is_continuation second in
                if negb second_valid || negb (is_continuation third)
                   || negb (is_continuation fourth) then false
                else ipc_utf8_loop fuel rest'
            | _ => false
            end
          else false
      end
  end.

(** [is_valid_utf8] of src/ipc/protocol.cpp. *)
Definition ipc_is_valid_utf8 (input : bytes) : bool := ipc_utf8_loop (length input) input.

(** ** The storage layer's validator *)

(** [is_utf8_continuation] of src/storage/sqlite_internal.cpp. *)
Definition is_utf8_continuation (value : Z) : bool := Z.land value 0xc0 =? 0x80.

(** The [while] loop of the [is_valid_utf8] of src/storage/sqlite_internal.cpp. *)
Fixpoint storage_utf8_loop (fuel : nat) (l : bytes) : bool :=
  match fuel with
  | O => match l with [] => true | _ => false end
  | S fuel =>
      match l with
      | [] => true
      | byte0 :: rest =>
          let first := Z_of_byte byte0 in
          if first <=? 0x7f then storage_utf8_loop fuel rest
          else if (0xc2 <=? first) && (first <=? 0xdf) then
            match rest with
            | byte1 :: rest' =>
                if negb (is_utf8_continuation (Z_of_byte byte1)) then false
                else storage_utf8_loop fuel rest'
            | _ => false
            end
          else if (0xe0 <=? first) && (first <=? 0xef) then
            match rest with
            | byte1 :: byte2 :: rest' =>
                if negb (is_utf8_continuation (Z_of_byte byte2)) then false
                else
                  let second := Z_of_byte byte1 in
                  let valid_second :=
                    ((first =? 0xe0) && (0xa0 <=? second) && (second <=? 0xbf))
                    || ((first =? 0xed) && (0x80 <=? second) && (second <=? 0x9f))
                    || ((((0xe1 <=? first) && (first <=? 0xec))
                         || ((0xee <=? first) && (first <=? 0xef)))
                        && is_utf8_continuation second) in
                  if negb valid_second then false else storage_utf8_loop fuel rest'
            | _ => false
            end
          else if (0xf0 <=? first) && (first <=? 0xf4) then
            match rest with
            | byte1 :: byte2 :: byte3 :: rest' =>
                if negb (is_utf8_continuation (Z_of_byte byte2))
                   || negb (is_utf8_continuation (Z_of_byte byte3)) then false
                else
                  let second := Z_of_byte byte1 in
                  let valid_second :=
                    ((first =? 0xf0) && (0x90 <=? second) && (second <=? 0xbf))
                    || ((first =? 0xf4) && (0x80 <=? second) && (second <=? 0x8f))
                    || ((0xf1 <=? first) && (first <=? 0xf3) && is_utf8_continuation second) in
                  if negb valid_second then false else storage_utf8_loop fuel rest'
            | _ => false
            end
          else false
      end
  end.

(** [is_valid_utf8] of src/storage/sqlite_internal.cpp. *)
Definition storage_is_valid_utf8 (value : bytes) : bool := storage_utf8_loop (length value) value.

(** ** The reference encoding *)

(** A Unicode scalar value, and its UTF-8 encoding (RFC 3629). *)
Definition is_scalar (c : Z) : Prop := 0 <= c <= 0x10ffff /\ ~ (0xd800 <= c <= 0xdfff).

Definition utf8_encode (c : Z) : bytes :=
  if c <? 0x80 then [byte_of_Z c]
  else if c <? 0x800 then [byte_of_Z (0xc0 + c / 64); byte_of_Z (0x80 + c mod 64)]
  else if c <? 0x10000 then
    [byte_of_Z (0xe0 + c / 4096); byte_of_Z (0x80 + c / 64 mod 64); byte_of_Z (0x80 + c mod 64)]
  else
    [byte_of_Z (0xf0 + c / 262144); byte_of_Z (0x80 + c / 4096 mod 64);
     byte_of_Z (0x80 + c / 64 mod 64); byte_of_Z (0x80 + c mod 64)].

(** [l] starts with the encoding of a scalar value and goes on with [r]. *)
Definition utf8_step (l r : bytes) : Prop := exists c, is_scalar c /\ l = utf8_encode c ++ r.

(** ** Lemmas *)

(** The masks of the remote validator are byte ranges. *)
Lemma lead_byte_spec b :
  0x7f < Z_of_byte b ->
  lead_byte (Z_of_byte b) =
  if in_range 0xc0 0xdf b then Some (1%nat, Z_of_byte b - 0xc0, 0x80)
  else if in_range 0xe0 0xef b then Some (2%nat, Z_of_byte b - 0xe0, 0x800)
  else if in_range 0xf0 0xf7 b then Some (3%nat, Z_of_byte b - 0xf0, 0x10000)
  else None.
Proof. destruct b; intros H; try reflexivity; exfalso; revert H; vm_compute; congruence. Qed.

Lemma continuation_mask b : (Z.land (Z_of_byte b) 0xc0 =? 0x80) = is_continuation b.
Proof. by destruct b. Qed.

Lemma continuation_value b :
  is_continuation b = true -> Z.land (Z_of_byte b) 0x3f = Z_of_byte b - 0x80.
Proof. by destruct b. Qed.

Lemma continuation_loop_S n b l c :
  continuation_loop (S n) (b :: l) c =
  if is_continuation b then continuation_loop n l (c * 64 + (Z_of_byte b - 0x80)) else None.
Proof.
  cbn [continuation_loop]. rewrite continuation_mask.
  destruct (is_continuation b) eqn:E; [|done]. simpl negb. cbv match.
  rewrite continuation_value by done. unfold is_continuation in E.
  rewrite lor_shiftl_small by (change (2 ^ 6) with 64; lia). done.
Qed.

Lemma byte_eq_of_Z b z : Z_of_byte b = z -> byte_of_Z z = b.
Proof. intros <-. apply byte_of_Z_of_byte. Qed.

Lemma Z_of_byte_small z : 0 <= z < 256 -> Z_of_byte (byte_of_Z z) = z.
Proof. intros H. rewrite Z_of_byte_of_Z. by apply Z.mod_small. Qed.

(** The byte ranges of the encodings (the table of RFC 3629). *)
Inductive utf8_shape : bytes -> bytes -> Prop :=
| shape1 b0 r : Z_of_byte b0 <= 0x7f -> utf8_shape (b0 :: r) r
| shape2 b0 b1 r :
    0xc2 <= Z_of_byte b0 <= 0xdf -> 0x80 <= Z_of_byte b1 <= 0xbf ->
    utf8_shape (b0 :: b1 :: r) r
| shape3 b0 b1 b2 r :
    0xe0 <= Z_of_byte b0 <= 0xef -> 0x80 <= Z_of_byte b1 <= 0xbf ->
    0x80 <= Z_of_byte b2 <= 0xbf ->
    (Z_of_byte b0 = 0xe0 -> 0xa0 <= Z_of_byte b1) ->
    (Z_of_byte b0 = 0xed -> Z_of_byte b1 <= 0x9f) ->
    utf8_shape (b0 :: b1 :: b2 :: r) r
| shape4 b0 b1 b2 b3 r :
    0xf0 <= Z_of_byte b0 <= 0xf4 -> 0x80 <= Z_of_byte b1 <= 0xbf ->
    0x80 <= Z_of_byte b2 <= 0xbf -> 0x80 <= Z_of_byte b3 <= 0xbf ->
    (Z_of_byte b0 = 0xf0 -> 0x90 <= Z_of_byte b1) ->
    (Z_of_byte b0 = 0xf4 -> Z_of_byte b1 <= 0x8f) ->
    utf8_shape (b0 :: b1 :: b2 :: b3 :: r) r.

Lemma utf8_encode_app c r :
  utf8_encode c ++ r =
  if c <? 0x80 then byte_of_Z c :: r
  else if c <? 0x800 then byte_of_Z (0xc0 + c / 64) :: byte_of_Z (0x80 + c mod 64) :: r
  else if c <? 0x10000 then
    byte_of_Z (0xe0 + c / 4096) :: byte_of_Z (0x80 + c / 64 mod 64)
    :: byte_of_Z (0x80 + c mod 64) :: r
  else
    byte_of_Z (0xf0 + c / 262144) :: byte_of_Z (0x80 + c / 4096 mod 64)
    :: byte_of_Z (0x80 + c / 64 mod 64) :: byte_of_Z (0x80 + c mod 64) :: r.
Proof. unfold utf8_encode. by repeat case_match. Qed.

(** [cbytes]: name the value of each byte and hand its range to [lia]. *)
Ltac cbytes :=
  repeat match goal with
  | b : byte |- _ =>
      lazymatch goal with
      | _ : 0 <= Z_of_byte b < 256 |- _ => fail
      | _ => pose proof (Z_of_byte_range b)
      end
  end.

Ltac div_mod_lia := Z.div_mod_to_equations; lia.

Lemma utf8_step_shape l r : utf8_step l r <-> utf8_shape l r.
Proof.
  split.
  - intros (c & [Hc Hs] & ->). rewrite utf8_encode_app.
    destruct (Z.ltb_spec c 0x80); [|destruct (Z.ltb_spec c 0x800);
      [|destruct (Z.ltb_spec c 0x10000)]]; constructor;
      repeat (rewrite Z_of_byte_small by div_mod_lia); div_mod_lia.
  - intros H. destruct H as [b0 r|b0 b1 r|b0 b1 b2 r|b0 b1 b2 b3 r]; cbytes.
    + exists (Z_of_byte b0). unfold is_scalar. split; [lia|].
      rewrite utf8_encode_app. destruct (Z.ltb_spec (Z_of_byte b0) 0x80); [|lia].
      by rewrite byte_of_Z_of_byte.
    + exists ((Z_of_byte b0 - 0xc0) * 64 + (Z_of_byte b1 - 0x80)). unfold is_scalar.
      split; [lia|]. rewrite utf8_encode_app.
      destruct (Z.ltb_spec ((Z_of_byte b0 - 0xc0) * 64 + (Z_of_byte b1 - 0x80)) 0x80); [lia|].
      destruct (Z.ltb_spec ((Z_of_byte b0 - 0xc0) * 64 + (Z_of_byte b1 - 0x80)) 0x800); [|lia].
      rewrite (byte_eq_of_Z b0), (byte_eq_of_Z b1) by div_mod_lia. done.
    + set (c := (Z_of_byte b0 - 0xe0) * 4096 + (Z_of_byte b1 - 0x80) * 64 + (Z_of_byte b2 - 0x80)).
      exists c. unfold is_scalar. split; [lia|]. rewrite utf8_encode_app.
      destruct (Z.ltb_spec c 0x80); [lia|]. destruct (Z.ltb_spec c 0x800); [lia|].
      destruct (Z.ltb_spec c 0x10000); [|lia].
      rewrite (byte_eq_of_Z b0), (byte_eq_of_Z b1), (byte_eq_of_Z b2) by div_mod_lia. done.
    + set (c := (Z_of_byte b0 - 0xf0) * 262144 + (Z_of_byte b1 - 0x80) * 4096
                + (Z_of_byte b2 - 0x80) * 64 + (Z_of_byte b3 - 0x80)).
      exists c. unfold is_scalar. split; [lia|]. rewrite utf8_encode_app.
      destruct (Z.ltb_spec c 0x80); [lia|]. destruct (Z.ltb_spec c 0x800); [lia|].
      destruct (Z.ltb_spec c 0x10000); [lia|].
      rewrite (byte_eq_of_Z b0), (byte_eq_of_Z b1), (byte_eq_of_Z b2), (byte_eq_of_Z b3)
        by div_mod_lia. done.
Qed.

Lemma continuation_range b : is_continuation b = true <-> 0x80 <= Z_of_byte b <= 0xbf.
Proof. unfold is_continuation. lia. Qed.

Lemma in_range_iff lo hi b : in_range lo hi b = true <-> lo <= Z_of_byte b <= hi.
Proof. unfold in_range. lia. Qed.

(** A step equation whose loop body returns [false]: no shape fits either. *)
Ltac shape_no :=
  split; [done | intros (r & Hr & Hl); inversion Hr; subst; try lia; done].

(** A step equation whose loop body goes on with [l]: exactly shape [c] fits. *)
Ltac shape_yes l c :=
  split; [ intros Hl; exists l; split; [apply c; lia | done]
         | intros (r & Hr & Hl); inversion Hr; subst; try lia; done ].

(** One iteration of the remote validator consumes one encoded scalar value. *)
Lemma utf8_loop_step n b l :
  utf8_loop (S n) (b :: l) = true <->
  exists r, utf8_shape (b :: l) r /\ utf8_loop n r = true.
Proof.
  cbn [utf8_loop]. destruct (Z.leb_spec (Z_of_byte b) 0x7f) as [Hb|Hb].
  { split; [exists l; split; [by constructor|done]|].
    intros (r & Hr & Hl). inversion Hr; subst; try lia. done. }
  rewrite lead_byte_spec by done.
  destruct (in_range 0xc0 0xdf b) eqn:H1; [|destruct (in_range 0xe0 0xef b) eqn:H2;
    [|destruct (in_range 0xf0 0xf7 b) eqn:H3]]; unfold in_range in *; cbv match.
  - destruct l as [|b1 l]; [shape_no|].
    rewrite !Zlen_cons, continuation_loop_S. pose proof (Zlen_nonneg l).
    destruct (Z.leb_spec (1 + (1 + Zlen l)) (Z.of_nat 1)); [lia|].
    destruct (is_continuation b1) eqn:C1; unfold is_continuation in C1; [|shape_no].
    cbn [continuation_loop]. destruct (_ || _) eqn:E; [shape_no|shape_yes l shape2].
  - destruct l as [|b1 [|b2 l]]; [shape_no..|].
    rewrite !Zlen_cons, !continuation_loop_S. pose proof (Zlen_nonneg l).
    destruct (Z.leb_spec (1 + (1 + (1 + Zlen l))) (Z.of_nat 2)); [lia|].
    destruct (is_continuation b1) eqn:C1; unfold is_continuation in C1; [|shape_no].
    destruct (is_continuation b2) eqn:C2; unfold is_continuation in C2; [|shape_no].
    cbn [continuation_loop]. destruct (_ || _) eqn:E; [shape_no|shape_yes l shape3].
  - destruct l as [|b1 [|b2 [|b3 l]]]; [shape_no..|].
    rewrite !Zlen_cons, !continuation_loop_S. pose proof (Zlen_nonneg l).
    destruct (Z.leb_spec (1 + (1 + (1 + (1 + Zlen l)))) (Z.of_nat 3)); [lia|].
    destruct (is_continuation b1) eqn:C1; unfold is_continuation in C1; [|shape_no].
    destruct (is_continuation b2) eqn:C2; unfold is_continuation in C2; [|shape_no].
    destruct (is_continuation b3) eqn:C3; unfold is_continuation in C3; [|shape_no].
    cbn [continuation_loop]. destruct (_ || _) eqn:E; [shape_no|shape_yes l shape4].
  - split; [done|]. intros (r & Hr & Hl). inversion Hr; subst; lia.
Qed.

(** One iteration of the IPC validator does the same. *)
Lemma ipc_utf8_loop_step n b l :
  ipc_utf8_loop (S n) (b :: l) = true <->
  exists r, utf8_shape (b :: l) r /\ ipc_utf8_loop n r = true.
Proof.
  cbn [ipc_utf8_loop]. cbv zeta. destruct (Z.leb_spec (Z_of_byte b) 0x7f) as [Hb|Hb].
  { shape_yes l shape1. }
  destruct (_ && _) eqn:H1; [|destruct ((0xe0 <=? _) && _) eqn:H2;
    [|destruct ((0xf0 <=? _) && _) eqn:H3]].
  - destruct l as [|b1 l]; [shape_no|].
    destruct (is_continuation b1) eqn:C1; unfold is_continuation in C1;
      [shape_yes l shape2|shape_no].
  - destruct l as [|b1 [|b2 l]]; [shape_no..|]. unfold in_range, is_continuation.
    destruct (Z.eqb_spec (Z_of_byte b) 0xe0); [|destruct (Z.eqb_spec (Z_of_byte b) 0xed)];
      (destruct (negb _ || _) eqn:E; [shape_no|shape_yes l shape3]).
  - destruct l as [|b1 [|b2 [|b3 l]]]; [shape_no..|]. unfold in_range, is_continuation.
    destruct (Z.eqb_spec (Z_of_byte b) 0xf0); [|destruct (Z.eqb_spec (Z_of_byte b) 0xf4)];
      (destruct (negb _ || _ || _) eqn:E; [shape_no|shape_yes l shape4]).
  - shape_no.
Qed.

(** So does one iteration of the storage validator. *)
Lemma storage_utf8_loop_step n b l :
  storage_utf8_loop (S n) (b :: l) = true <->
  exists r, utf8_shape (b :: l) r /\ storage_utf8_loop n r = true.
Proof.
  cbn [storage_utf8_loop]. cbv zeta. unfold is_utf8_continuation.
  destruct (Z.leb_spec (Z_of_byte b) 0x7f) as [Hb|Hb]. { shape_yes l shape1. }
  destruct (_ && _) eqn:H1; [|destruct ((0xe0 <=? _) && _) eqn:H2;
    [|destruct ((0xf0 <=? _) && _) eqn:H3]].
  - destruct l as [|b1 l]; [shape_no|]. rewrite continuation_mask.
    destruct (is_continuation b1) eqn:C1; unfold is_continuation in C1;
      [shape_yes l shape2|shape_no].
  - destruct l as [|b1 [|b2 l]]; [shape_no..|]. rewrite !continuation_mask.
    unfold is_continuation. destruct (negb _) eqn:C2; [shape_no|].
    destruct (negb (_ || _)) eqn:E; [shape_no|shape_yes l shape3].
  - destruct l as [|b1 [|b2 [|b3 l]]]; [shape_no..|]. rewrite !continuation_mask.
    unfold is_continuation. destruct (negb _ || negb _) eqn:C2; [shape_no|].
    destruct (negb (_ || _)) eqn:E; [shape_no|shape_yes l shape4].
  - shape_no.
Qed.

Lemma utf8_encode_nonempty c : exists b l, utf8_encode c = b :: l.
Proof. unfold utf8_encode. repeat case_match; eauto. Qed.

(** A loop that consumes one encoded scalar value per iteration, with at least
    as much fuel as there are bytes, accepts exactly the UTF-8 texts. *)
Section Loop.
Context (loop : nat -> bytes -> bool).
Hypothesis loop_nil : forall n, loop n [] = true.
Hypothesis loop_step : forall n b l,
  loop (S n) (b :: l) = true <-> exists r, utf8_shape (b :: l) r /\ loop n r = true.

Lemma loop_encodings n l :
  (length l <= n)%nat ->
  loop n l = true <-> exists cs, Forall is_scalar cs /\ l = concat (utf8_encode <$> cs).
Proof.
  revert l. induction n as [|n IH]; intros l Hn.
  - destruct l; [|simpl in Hn; lia]. rewrite loop_nil. split; [|done].
    intros _. by exists [].
  - destruct l as [|b l].
    { rewrite loop_nil. split; [|done]. intros _. by exists []. }
    rewrite loop_step. split.
    + intros (r & Hr & Hl). assert (Hlen : (length r <= n)%nat).
      { inversion Hr; subst; simpl in *; lia. }
      apply (IH r Hlen) in Hl as (cs & Hcs & ->). apply utf8_step_shape in Hr as (c & Hc & ->).
      exists (c :: cs). split; [by constructor|done].
    + intros ([|c cs] & Hcs & Hl); [done|]. inversion Hcs; subst.
      exists (concat (utf8_encode <$> cs)). split.
      * apply utf8_step_shape. exists c. by rewrite Hl.
      * apply IH; [|eauto]. destruct (utf8_encode_nonempty c) as (b' & l' & E).
        rewrite fmap_cons in Hl. cbn [concat] in Hl. rewrite E in Hl. simpl in Hl.
        injection Hl as -> ->. simpl in Hn. rewrite length_app in Hn. lia.
Qed.
End Loop.

Lemma is_valid_utf8_encodings l :
  is_valid_utf8 l = true <-> exists cs, Forall is_scalar cs /\ l = concat (utf8_encode <$> cs).
Proof.
  apply (loop_encodings utf8_loop); [by intros []|apply utf8_loop_step|done].
Qed.

Lemma ipc_is_valid_utf8_encodings l :
  ipc_is_valid_utf8 l = true <-> exists cs, Forall is_scalar cs /\ l = concat (utf8_encode <$> cs).
Proof.
  apply (loop_encodings ipc_utf8_loop); [by intros []|apply ipc_utf8_loop_step|done].
Qed.

Lemma storage_is_valid_utf8_encodings l :
  storage_is_valid_utf8 l = true <->
  exists cs, Forall is_scalar cs /\ l = concat (utf8_encode <$> cs).
Proof.
  apply (loop_encodings storage_utf8_loop); [by intros []|apply storage_utf8_loop_step|done].
Qed.

Lemma is_valid_utf8_ascii l :
  forallb (fun b => Z_of_byte b <=? 0x7f) l = true -> is_valid_utf8 l = true.
Proof.
  unfold is_valid_utf8. induction l as [|b l IH]; [done|]. simpl.
  intros [Hb Hl]%andb_prop. rewrite Hb. by apply IH.
Qed.

(** ** Theorems *)

(** the UTF-8 validators of the remote protocol, of the IPC protocol and of the
    storage layer accept the same byte strings: exactly the concatenations of UTF-8
    encodings of Unicode scalar values (no overlong forms, no surrogates, nothing above
    U+10FFFF). *)
Theorem utf8_validators_exact l :
  is_valid_utf8 l = ipc_is_valid_utf8 l /\
  is_valid_utf8 l = storage_is_valid_utf8 l /\
  (is_valid_utf8 l = true <-> exists cs, Forall is_scalar cs /\ l = concat (utf8_encode <$> cs)).
Proof.
  split_and!; [..|apply is_valid_utf8_encodings]; apply eq_bool_prop_intro;
    rewrite !Is_true_true, is_valid_utf8_encodings.
  - by rewrite ipc_is_valid_utf8_encodings.
  - by rewrite storage_is_valid_utf8_encodings.
Qed.
