(* ===== verification/Codec.v ===== *)
(** * Message payload writer and reader (src/protocol/codec.cpp, include/minitun/protocol/codec.hpp)

    [PayloadWriter] appends length-limited fields and remembers its first
    failure; [PayloadReader] consumes them with bounds checks. *)
From S2P Require Import Prelude Common Utf8.

Definition kMaxFrameSize : Z := 64 * 1024.
Definition kFrameHeaderSize : Z := 24.
Definition kMaxPayloadSize : Z := kMaxFrameSize - kFrameHeaderSize.

(** ** PayloadWriter *)

Record PayloadWriter : Set := mkPayloadWriter {
  max_payload_size_ : Z;
  bytes_ : bytes;
  failure_ : option Error
}.

(** The constructor. *)
Definition PayloadWriter_new (max_payload_size : Z) : PayloadWriter :=
  mkPayloadWriter (Z.min max_payload_size kMaxPayloadSize) [] None.

Abbreviation Writer := (Action PayloadWriter).

(** [PayloadWriter::fail]: the first failure wins. *)
Definition writer_fail (c : ErrorCode) (m : string) : Writer unit := fun w =>
  match failure_ w with
  | None =>
      let e := mkError c (bs m) in
      (Err e, mkPayloadWriter (max_payload_size_ w) (bytes_ w) (Some e))
  | Some e => (Err e, w)
  end.

(** [PayloadWriter::append]. *)
Definition append (value : bytes) : Writer unit := fun w =>
  match failure_ w with
  | Some e => (Err e, w)
  | None =>
      if max_payload_size_ w - Z.min (Zlen (bytes_ w)) (max_payload_size_ w) <? Zlen value then
        writer_fail frame_too_large "remote message payload exceeds the configured size limit" w
      else (Ok tt, mkPayloadWriter (max_payload_size_ w) (bytes_ w ++ value) None)
  end.

(** The byte arrays [write_u8] .. [write_u64] hand to [append]. *)
Definition u8_bytes (value : Z) : bytes := [byte_of_Z value].

Definition u16_bytes (value : Z) : bytes :=
  [byte_of_Z (Z.land (Z.shiftr value 8) 0xff); byte_of_Z (Z.land value 0xff)].

Definition u32_bytes (value : Z) : bytes :=
  [byte_of_Z (Z.land (Z.shiftr value 24) 0xff); byte_of_Z (Z.land (Z.shiftr value 16) 0xff);
   byte_of_Z (Z.land (Z.shiftr value 8) 0xff); byte_of_Z (Z.land value 0xff)].

Definition u64_bytes (value : Z) : bytes :=
  [byte_of_Z (Z.land (Z.shiftr value 56) 0xff); byte_of_Z (Z.land (Z.shiftr value 48) 0xff);
   byte_of_Z (Z.land (Z.shiftr value 40) 0xff); byte_of_Z (Z.land (Z.shiftr value 32) 0xff);
   byte_of_Z (Z.land (Z.shiftr value 24) 0xff); byte_of_Z (Z.land (Z.shiftr value 16) 0xff);
   byte_of_Z (Z.land (Z.shiftr value 8) 0xff); byte_of_Z (Z.land value 0xff)].

Definition write_u8 (value : Z) : Writer unit := append (u8_bytes value).
Definition write_u16 (value : Z) : Writer unit := append (u16_bytes value).
Definition write_u32 (value : Z) : Writer unit := append (u32_bytes value).
Definition write_u64 (value : Z) : Writer unit := append (u64_bytes value).

(** [PayloadWriter::write_bytes]. *)
Definition write_bytes (value : bytes) : Writer unit :=
  if 65535 <? Zlen value then
    writer_fail invalid_argument "remote message byte field exceeds the protocol limit"
  else
    write_u16 (Zlen value);;
    append value.

(** [value.find('\0') != npos]. *)
Definition contains_nul (value : bytes) : bool := bool_decide (Byte.x00 ∈ value).

(** [PayloadWriter::write_string]. *)
Definition write_string (value : bytes) : Writer unit :=
  if negb (is_valid_utf8 value) || contains_nul value then
    writer_fail invalid_argument "remote message string field is not valid UTF-8 text"
  else write_bytes value.

(** [PayloadWriter::finish]. *)
Definition finish (w : PayloadWriter) : Result bytes :=
  match failure_ w with
  | Some e => Err e
  | None => Ok (bytes_ w)
  end.

(** An encoder: writes to a fresh [PayloadWriter writer;] that return early on
    failure, then [std::move(writer).finish()]. *)
Definition encode_with (m : Writer unit) : Result bytes :=
  let (r, w) := m (PayloadWriter_new kMaxPayloadSize) in
  match r with
  | Err e => Err e
  | Ok _ => finish w
  end.

(** ** PayloadReader *)

Record PayloadReader : Set := mkPayloadReader { rbytes_ : bytes; offset_ : nat }.

Definition PayloadReader_new (payload : bytes) : PayloadReader := mkPayloadReader payload 0.

Abbreviation Reader := (Action PayloadReader).

(** [remaining()]; the offset never passes the end. *)
Definition remaining (r : PayloadReader) : Z := Z.of_nat (length (rbytes_ r) - offset_ r).

(** [bytes_[offset_ + i]] and [offset_ += n]. *)
Definition byte_at (r : PayloadReader) (i : nat) : Z :=
  Z_of_byte (nth (offset_ r + i) (rbytes_ r) Byte.x00).
Definition advance (n : nat) (r : PayloadReader) : PayloadReader :=
  mkPayloadReader (rbytes_ r) (offset_ r + n).

Definition truncated_payload_error : Error :=
  mkError protocol_error (bs "remote message payload ended before a field was complete").

Definition read_u8 : Reader Z := fun r =>
  if remaining r <? 1 then (Err truncated_payload_error, r)
  else (Ok (byte_at r 0), advance 1 r).

Definition read_u16 : Reader Z := fun r =>
  if remaining r <? 2 then (Err truncated_payload_error, r)
  else (Ok (Z.lor (Z.shiftl (byte_at r 0) 8) (byte_at r 1)), advance 2 r).

Definition read_u32 : Reader Z := fun r =>
  if remaining r <? 4 then (Err truncated_payload_error, r)
  else (Ok (Z.lor (Z.lor (Z.lor (Z.shiftl (byte_at r 0) 24) (Z.shiftl (byte_at r 1) 16))
                         (Z.shiftl (byte_at r 2) 8)) (byte_at r 3)), advance 4 r).

Definition read_u64 : Reader Z := fun r =>
  if remaining r <? 8 then (Err truncated_payload_error, r)
  else (Ok (Z.lor (Z.lor (Z.lor (Z.lor (Z.lor (Z.lor (Z.lor
              (Z.shiftl (byte_at r 0) 56) (Z.shiftl (byte_at r 1) 48))
              (Z.shiftl (byte_at r 2) 40)) (Z.shiftl (byte_at r 3) 32))
              (Z.shiftl (byte_at r 4) 24)) (Z.shiftl (byte_at r 5) 16))
              (Z.shiftl (byte_at r 6) 8)) (byte_at r 7)), advance 8 r).

(** [PayloadReader::read_bytes]. *)
Definition read_bytes (max_length : Z) : Reader bytes := fun r =>
  if remaining r <? 2 then (Err truncated_payload_error, r)
  else
    let length := Z.lor (Z.shiftl (byte_at r 0) 8) (byte_at r 1) in
    if max_length <? length then
      (failure protocol_error "remote message byte field exceeds the permitted length", r)
    else if remaining r - 2 <? length then (Err truncated_payload_error, r)
    else
      let begin := (offset_ r + 2)%nat in
      (Ok (take (Z.to_nat length) (drop begin (rbytes_ r))),
       advance (2 + Z.to_nat length) r).

(** [PayloadReader::read_string]. *)
Definition read_string (max_length : Z) : Reader bytes :=
  text ← read_bytes max_length;
  if negb (is_valid_utf8 text) || contains_nul text then
    fail_with protocol_error "remote message string field is not valid UTF-8 text"
  else mret text.

(** [PayloadReader::require_end]. *)
Definition require_end : Reader unit := fun r =>
  if negb (remaining r =? 0) then
    (failure protocol_error "remote message payload contains trailing bytes", r)
  else (Ok tt, r).

(** A decoder: a fresh [PayloadReader reader{payload};], whose state is dropped. *)
Definition decode_with {A} (m : Reader A) (payload : bytes) : Result A :=
  fst (m (PayloadReader_new payload)).

(** ** Lemmas *)

(** *** Integers on the wire *)

Lemma u8_bytes_be v : u8_bytes v = be_encode 1 v.
Proof. done. Qed.

Lemma u16_bytes_be v : u16_bytes v = be_encode 2 v.
Proof. unfold u16_bytes. by rewrite byte_of_shiftr_land, byte_of_land by lia. Qed.

(** The two bytes of a 16-bit field combined with [(b0 << 8) | b1]. *)
Lemma u16_bytes_decode b0 b1 :
  let v := Z.lor (Z.shiftl (Z_of_byte b0) 8) (Z_of_byte b1) in
  u16_bytes v = [b0; b1] /\ 0 <= v < 2 ^ 16.
Proof.
  simpl. pose proof (Z_of_byte_range b0). pose proof (Z_of_byte_range b1).
  assert (Hn : Z.lor (Z.shiftl (Z_of_byte b0) 8) (Z_of_byte b1) = be_decode [b0; b1]).
  { rewrite lor_shiftl_small by lia. cbn. lia. }
  rewrite Hn, u16_bytes_be. split; [apply (be_encode_decode [b0; b1])|].
  pose proof (be_decode_range [b0; b1]) as Hr. by change (256 ^ Zlen [b0; b1]) with (2 ^ 16) in Hr.
Qed.

Lemma div_256_pow z k : 0 <= k -> z / 2 ^ (8 * k) / 256 = z / 2 ^ (8 * (k + 1)).
Proof.
  intros Hk. change 256 with (2 ^ 8). rewrite Z.div_div, <- Z.pow_add_r by lia. do 2 f_equal. lia.
Qed.

(** The shift amounts of the source are the iterated divisions of [be_encode]. *)
Lemma div_256_iter z :
  (z / 256 / 256 = z / 2 ^ 16) /\ (z / 256 / 256 / 256 = z / 2 ^ 24) /\
  (z / 256 / 256 / 256 / 256 = z / 2 ^ 32) /\
  (z / 256 / 256 / 256 / 256 / 256 = z / 2 ^ 40) /\
  (z / 256 / 256 / 256 / 256 / 256 / 256 = z / 2 ^ 48) /\
  (z / 256 / 256 / 256 / 256 / 256 / 256 / 256 = z / 2 ^ 56).
Proof. split_and!; by rewrite !Z.div_div by lia. Qed.

Lemma u32_bytes_be v : u32_bytes v = be_encode 4 v.
Proof.
  unfold u32_bytes. rewrite !byte_of_shiftr_land, byte_of_land by lia.
  destruct (div_256_iter v) as (E2 & E3 & _). cbn [be_encode app]. by rewrite E3, E2.
Qed.

Lemma u64_bytes_be v : u64_bytes v = be_encode 8 v.
Proof.
  unfold u64_bytes. rewrite !byte_of_shiftr_land, byte_of_land by lia.
  destruct (div_256_iter v) as (E2 & E3 & E4 & E5 & E6 & E7).
  cbn [be_encode app]. by rewrite E7, E6, E5, E4, E3, E2.
Qed.

(** Merging two neighbouring bytes of an [|] chain. *)
Lemma lor_merge a b j k :
  0 <= k -> j = k + 8 -> 0 <= b < 256 ->
  Z.lor (Z.shiftl a j) (Z.shiftl b k) = Z.shiftl (a * 256 + b) k.
Proof.
  intros Hk -> Hb.
  replace (Z.shiftl a (k + 8)) with (Z.shiftl (Z.shiftl a 8) k)
    by (rewrite Z.shiftl_shiftl by lia; f_equal; lia).
  rewrite <- Z.shiftl_lor. f_equal. by rewrite lor_shiftl_small by lia.
Qed.

(** *** Reading from a suffix of the payload *)

(** The unread bytes. *)
Definition rest (r : PayloadReader) : bytes := drop (offset_ r) (rbytes_ r).

Lemma rest_new payload : rest (PayloadReader_new payload) = payload.
Proof. done. Qed.

Lemma remaining_rest r : remaining r = Zlen (rest r).
Proof. unfold remaining, Zlen, rest. by rewrite length_drop. Qed.

Lemma rest_advance n r : rest (advance n r) = drop n (rest r).
Proof. unfold rest, advance. simpl. by rewrite drop_drop. Qed.

Lemma byte_at_rest r i : byte_at r i = Z_of_byte (nth i (rest r) Byte.x00).
Proof.
  unfold byte_at, rest. f_equal. revert i. generalize (rbytes_ r) as l, (offset_ r) as k.
  induction l as [|b l IH]; intros k i; simpl.
  - rewrite drop_nil. by destruct (k + i)%nat, i.
  - destruct k; [done|]. simpl. apply IH.
Qed.

(** [parses m s a s']: whenever [s] is unread, [m] succeeds with [a] and leaves [s']. *)
Definition parses {A} (m : Reader A) (s : bytes) (a : A) (s' : bytes) : Prop :=
  forall r, rest r = s -> exists r', m r = (Ok a, r') /\ rest r' = s'.

Lemma parses_bind {A B} (m : Reader A) (f : A -> Reader B) s a s' b s'' :
  parses m s a s' -> parses (f a) s' b s'' -> parses (m ≫= f) s b s''.
Proof.
  intros Hm Hf r Hr. destruct (Hm r Hr) as (r' & E & Hr').
  rewrite (ST_bind_ok _ _ _ _ _ E). by apply Hf.
Qed.

Lemma parses_ret {A} (a : A) s : parses (mret a) s a s.
Proof. intros r Hr. by exists r. Qed.

Lemma parses_attempt {A} (m : Reader A) s a s' :
  parses m s a s' -> parses (attempt m) s (Ok a) s'.
Proof.
  intros Hm r Hr. destruct (Hm r Hr) as (r' & E & Hr'). exists r'.
  by rewrite (attempt_ok _ _ _ _ E).
Qed.

Lemma parses_get {A} (f : PayloadReader -> A) s a :
  (forall r, rest r = s -> f r = a) -> parses (ST_get f) s a s.
Proof. intros Hf r Hr. exists r. unfold ST_get. by rewrite Hf. Qed.

Lemma parses_lift {A} (a : A) s : parses (ST_lift (Ok a)) s a s.
Proof. intros r Hr. by exists r. Qed.

Lemma parses_decode {A} (m : Reader A) payload a s' :
  parses m payload a s' -> decode_with m payload = Ok a.
Proof.
  intros Hm. destruct (Hm _ (rest_new payload)) as (r' & E & _).
  unfold decode_with. by rewrite E.
Qed.

Lemma parses_require_end : parses require_end [] tt [].
Proof. intros r Hr. exists r. unfold require_end. by rewrite remaining_rest, Hr. Qed.

Lemma rest_advance_app n l s r :
  rest r = l ++ s -> length l = n -> rest (advance n r) = s.
Proof. intros Hr <-. rewrite rest_advance, Hr. by rewrite drop_app_length. Qed.

(** The [|] chains of the readers compute [be_decode] of the bytes they read. *)
Lemma lor_chain_2 l :
  length l = 2%nat ->
  Z.lor (Z.shiftl (Z_of_byte (nth 0 l Byte.x00)) 8) (Z_of_byte (nth 1 l Byte.x00)) = be_decode l.
Proof.
  destruct l as [|b0 [|b1 [|??]]]; try done. intros _. cbn [nth].
  rewrite lor_shiftl_small by (try lia; apply Z_of_byte_range). done.
Qed.

Lemma lor_chain_4 l :
  length l = 4%nat ->
  Z.lor (Z.lor (Z.lor (Z.shiftl (Z_of_byte (nth 0 l Byte.x00)) 24)
                      (Z.shiftl (Z_of_byte (nth 1 l Byte.x00)) 16))
               (Z.shiftl (Z_of_byte (nth 2 l Byte.x00)) 8))
        (Z_of_byte (nth 3 l Byte.x00)) = be_decode l.
Proof.
  destruct l as [|b0 [|b1 [|b2 [|b3 [|??]]]]]; try done. intros _. cbn [nth].
  rewrite (lor_merge _ _ 24 16), (lor_merge _ _ 16 8) by (try lia; apply Z_of_byte_range).
  rewrite lor_shiftl_small by (try lia; apply Z_of_byte_range). done.
Qed.

Lemma lor_chain_8 l :
  length l = 8%nat ->
  Z.lor (Z.lor (Z.lor (Z.lor (Z.lor (Z.lor (Z.lor
    (Z.shiftl (Z_of_byte (nth 0 l Byte.x00)) 56) (Z.shiftl (Z_of_byte (nth 1 l Byte.x00)) 48))
    (Z.shiftl (Z_of_byte (nth 2 l Byte.x00)) 40)) (Z.shiftl (Z_of_byte (nth 3 l Byte.x00)) 32))
    (Z.shiftl (Z_of_byte (nth 4 l Byte.x00)) 24)) (Z.shiftl (Z_of_byte (nth 5 l Byte.x00)) 16))
    (Z.shiftl (Z_of_byte (nth 6 l Byte.x00)) 8)) (Z_of_byte (nth 7 l Byte.x00)) = be_decode l.
Proof.
  destruct l as [|b0 [|b1 [|b2 [|b3 [|b4 [|b5 [|b6 [|b7 [|??]]]]]]]]]; try done.
  intros _. cbn [nth].
  rewrite (lor_merge _ _ 56 48), (lor_merge _ _ 48 40), (lor_merge _ _ 40 32),
    (lor_merge _ _ 32 24), (lor_merge _ _ 24 16), (lor_merge _ _ 16 8)
    by (try lia; apply Z_of_byte_range).
  rewrite lor_shiftl_small by (try lia; apply Z_of_byte_range). done.
Qed.

(** A fixed-width read consumes [n] bytes and returns their big-endian number. *)
Lemma parses_read_u8 b s : parses read_u8 (b :: s) (Z_of_byte b) s.
Proof.
  intros r Hr. exists (advance 1 r). split; [|by apply (rest_advance_app 1 [b])].
  unfold read_u8. rewrite remaining_rest, byte_at_rest, Hr, Zlen_cons.
  pose proof (Zlen_nonneg s). destruct (Z.ltb_spec (1 + Zlen s) 1); [lia|done].
Qed.

Lemma parses_read_u16 l s : length l = 2%nat -> parses read_u16 (l ++ s) (be_decode l) s.
Proof.
  intros Hl r Hr. exists (advance 2 r). split; [|by apply (rest_advance_app 2 l)].
  unfold read_u16. rewrite remaining_rest, !byte_at_rest, Hr, Zlen_app, !app_nth1 by lia.
  rewrite lor_chain_2 by done. unfold Zlen. rewrite Hl.
  destruct (Z.ltb_spec (Z.of_nat 2 + Z.of_nat (length s)) 2); [lia|done].
Qed.

Lemma parses_read_u32 l s : length l = 4%nat -> parses read_u32 (l ++ s) (be_decode l) s.
Proof.
  intros Hl r Hr. exists (advance 4 r). split; [|by apply (rest_advance_app 4 l)].
  unfold read_u32. rewrite remaining_rest, !byte_at_rest, Hr, Zlen_app, !app_nth1 by lia.
  rewrite lor_chain_4 by done. unfold Zlen. rewrite Hl.
  destruct (Z.ltb_spec (Z.of_nat 4 + Z.of_nat (length s)) 4); [lia|done].
Qed.

Lemma parses_read_u64 l s : length l = 8%nat -> parses read_u64 (l ++ s) (be_decode l) s.
Proof.
  intros Hl r Hr. exists (advance 8 r). split; [|by apply (rest_advance_app 8 l)].
  unfold read_u64. rewrite remaining_rest, !byte_at_rest, Hr, Zlen_app, !app_nth1 by lia.
  rewrite lor_chain_8 by done. unfold Zlen. rewrite Hl.
  destruct (Z.ltb_spec (Z.of_nat 8 + Z.of_nat (length s)) 8); [lia|done].
Qed.

Lemma parses_u8 v s : is_u8 v -> parses read_u8 (u8_bytes v ++ s) v s.
Proof.
  intros Hv. rewrite <- (Z.mod_small v 256) at 2 by (unfold is_uint in Hv; lia).
  rewrite <- Z_of_byte_of_Z. apply parses_read_u8.
Qed.

Lemma parses_u16 v s : is_u16 v -> parses read_u16 (u16_bytes v ++ s) v s.
Proof.
  intros Hv. rewrite u16_bytes_be. rewrite <- (be_decode_encode 2 v) at 2 by exact Hv.
  apply parses_read_u16, length_be_encode.
Qed.

Lemma parses_u32 v s : is_u32 v -> parses read_u32 (u32_bytes v ++ s) v s.
Proof.
  intros Hv. rewrite u32_bytes_be. rewrite <- (be_decode_encode 4 v) at 2 by exact Hv.
  apply parses_read_u32, length_be_encode.
Qed.

Lemma parses_u64 v s : is_u64 v -> parses read_u64 (u64_bytes v ++ s) v s.
Proof.
  intros Hv. rewrite u64_bytes_be. rewrite <- (be_decode_encode 8 v) at 2 by exact Hv.
  apply parses_read_u64, length_be_encode.
Qed.

(** A length-prefixed field as it stands on the wire. *)
Definition field (v : bytes) : bytes := u16_bytes (Zlen v) ++ v.

Lemma parses_bytes mx v s :
  Zlen v <= mx -> Zlen v <= 65535 -> parses (read_bytes mx) (field v ++ s) v s.
Proof.
  intros Hmx Hv r Hr. unfold field in Hr.
  exists (advance (2 + length v) r). split.
  2: { rewrite rest_advance, Hr, <- app_assoc. cbn [u16_bytes app drop Nat.add].
       by rewrite drop_app_length. }
  assert (Hlen : Z.lor (Z.shiftl (byte_at r 0) 8) (byte_at r 1) = Zlen v).
  { rewrite !byte_at_rest, Hr, <- app_assoc, !app_nth1 by (simpl; lia).
    rewrite lor_chain_2, u16_bytes_be by done. apply be_decode_encode.
    change (256 ^ Z.of_nat 2) with 65536. pose proof (Zlen_nonneg v). lia. }
  unfold read_bytes. rewrite Hlen, remaining_rest, Hr, !Zlen_app.
  change (Zlen (u16_bytes (Zlen v))) with 2. pose proof (Zlen_nonneg s).
  destruct (Z.ltb_spec (2 + Zlen v + Zlen s) 2); [pose proof (Zlen_nonneg v); lia|].
  destruct (Z.ltb_spec mx (Zlen v)); [lia|].
  destruct (Z.ltb_spec (2 + Zlen v + Zlen s - 2) (Zlen v)); [lia|].
  unfold Zlen at 1 2. rewrite !Nat2Z.id. do 2 f_equal.
  rewrite <- drop_drop. change (drop (offset_ r) (rbytes_ r)) with (rest r).
  rewrite Hr, <- app_assoc. simpl. by rewrite drop_0, take_app_length.
Qed.

(** Texts the string fields carry: UTF-8 without NUL. *)
Definition is_text (v : bytes) : bool := is_valid_utf8 v && negb (contains_nul v).

Lemma is_text_iff v : negb (is_valid_utf8 v) || contains_nul v = negb (is_text v).
Proof. unfold is_text. by destruct (is_valid_utf8 v), (contains_nul v). Qed.

Lemma parses_string mx v s :
  Zlen v <= mx -> Zlen v <= 65535 -> is_text v = true ->
  parses (read_string mx) (field v ++ s) v s.
Proof.
  intros Hmx Hv Ht. unfold read_string.
  eapply parses_bind; [by apply parses_bytes|]. rewrite is_text_iff, Ht. apply parses_ret.
Qed.

(** *** Writing *)

(** [emits m s]: on a writer without failure and with room for [s], [m] appends [s]. *)
Definition emits (m : Writer unit) (s : bytes) : Prop :=
  forall w, failure_ w = None -> Zlen (bytes_ w) + Zlen s <= max_payload_size_ w ->
    m w = (Ok tt, mkPayloadWriter (max_payload_size_ w) (bytes_ w ++ s) None).

Lemma emits_append v : emits (append v) v.
Proof.
  intros w Hf Hlen. unfold append. rewrite Hf.
  pose proof (Zlen_nonneg v).
  destruct (Z.ltb_spec (max_payload_size_ w - Z.min (Zlen (bytes_ w)) (max_payload_size_ w))
              (Zlen v)); [lia|done].
Qed.

Lemma emits_bind m1 m2 s1 s2 : emits m1 s1 -> emits m2 s2 -> emits (m1;; m2) (s1 ++ s2).
Proof.
  intros H1 H2 w Hf Hlen. rewrite Zlen_app in Hlen. pose proof (Zlen_nonneg s2).
  rewrite (ST_bind_ok _ _ _ tt _ (H1 w Hf ltac:(lia))).
  rewrite H2; cbn [failure_ bytes_ max_payload_size_]; rewrite ?Zlen_app; try done; [|lia].
  by rewrite app_assoc.
Qed.

Lemma emits_nil m : (forall w, m w = (Ok tt, w)) -> emits m [].
Proof. intros Hm w Hf _. rewrite Hm, app_nil_r. destruct w. simpl in *. by subst. Qed.

Lemma emits_u8 v : emits (write_u8 v) (u8_bytes v).
Proof. apply emits_append. Qed.
Lemma emits_u16 v : emits (write_u16 v) (u16_bytes v).
Proof. apply emits_append. Qed.
Lemma emits_u32 v : emits (write_u32 v) (u32_bytes v).
Proof. apply emits_append. Qed.
Lemma emits_u64 v : emits (write_u64 v) (u64_bytes v).
Proof. apply emits_append. Qed.

Lemma emits_bytes v : Zlen v <= 65535 -> emits (write_bytes v) (field v).
Proof.
  intros Hv. unfold write_bytes. destruct (Z.ltb_spec 65535 (Zlen v)); [lia|].
  apply emits_bind; [apply emits_u16 | apply emits_append].
Qed.

Lemma emits_string v : Zlen v <= 65535 -> is_text v = true -> emits (write_string v) (field v).
Proof.
  intros Hv Ht. unfold write_string. rewrite is_text_iff, Ht. by apply emits_bytes.
Qed.

Lemma emits_encode m s : emits m s -> Zlen s <= kMaxPayloadSize -> encode_with m = Ok s.
Proof.
  intros Hm Hs. unfold encode_with. rewrite Hm; [done..|].
  cbn [bytes_ max_payload_size_ PayloadWriter_new]. unfold PayloadWriter_new. simpl.
  change (Zlen []) with 0. lia.
Qed.

#[global] Arguments field : simpl never.
#[global] Arguments u8_bytes : simpl never.
#[global] Arguments u16_bytes : simpl never.
#[global] Arguments u32_bytes : simpl never.
#[global] Arguments u64_bytes : simpl never.
#[global] Arguments Zlen : simpl never.

(** The lemmas an encoder's or a decoder's proof is assembled from. *)
Create HintDb codec.
#[export] Hint Resolve emits_bind emits_u8 emits_u16 emits_u32 emits_u64 emits_bytes
  emits_string emits_nil : codec.
#[export] Hint Resolve parses_u8 parses_u16 parses_u32 parses_u64 parses_bytes parses_string
  parses_require_end parses_ret parses_attempt parses_lift : codec.
