(* ===== verification/Messages.v ===== *)
(** * Remote Protocol v2 messages (src/protocol/messages.cpp, include/minitun/protocol/messages.hpp)

    The message structures, their validation, and one encoder and one decoder per
    message.  A decoder reads its fields in the source's order and fails where the
    source fails; reads whose result the source inspects later are [attempt]s. *)
From S2P Require Import Prelude Common Ids Codec.

Definition kAuthenticationNonceSize : Z := 32.
Definition kAuthenticationDataSize : Z := 32.
Definition kMaxProtocolIdentifierBytes : Z := 64.
Definition kMaxTunnelBindHostBytes : Z := 253.
Definition kMinimumWorkerIdleTimeoutSeconds : Z := 1.
Definition kMaximumWorkerIdleTimeoutSeconds : Z := 300.
Definition kMaximumNegotiatedHeartbeatSequence : Z := Z.shiftl 1 39 - 1.

(** ** Capabilities and tunnel modes *)

(** [enum class Capability]. *)
Inductive Capability : Set :=
| pipelined_control
| per_client_policy
| tunnel_revisions
| client_certificate_binding
| multiplexed_streams
| udp_datagrams
| socks5_proxy
| p2p_rendezvous
| tcp_simultaneous_open
| proxy_protocol
| worker_observed_endpoint.

(** [capability_bit]. *)
Definition capability_bit (c : Capability) : Z :=
  match c with
  | pipelined_control => Z.shiftl 1 0
  | per_client_policy => Z.shiftl 1 1
  | tunnel_revisions => Z.shiftl 1 2
  | client_certificate_binding => Z.shiftl 1 3
  | multiplexed_streams => Z.shiftl 1 4
  | udp_datagrams => Z.shiftl 1 5
  | socks5_proxy => Z.shiftl 1 6
  | p2p_rendezvous => Z.shiftl 1 7
  | tcp_simultaneous_open => Z.shiftl 1 8
  | proxy_protocol => Z.shiftl 1 9
  | worker_observed_endpoint => Z.shiftl 1 10
  end.

Definition kRequiredCapabilities : Z :=
  Z.lor (Z.lor (capability_bit pipelined_control) (capability_bit per_client_policy))
        (capability_bit tunnel_revisions).

Definition kSupportedCapabilities : Z :=
  Z.lor (Z.lor (Z.lor (Z.lor (Z.lor (Z.lor (Z.lor kRequiredCapabilities
    (capability_bit client_certificate_binding)) (capability_bit udp_datagrams))
    (capability_bit socks5_proxy)) (capability_bit p2p_rendezvous))
    (capability_bit tcp_simultaneous_open)) (capability_bit proxy_protocol))
    (capability_bit worker_observed_endpoint).

(** [enum class TunnelMode : std::uint8_t]; a cast can produce values outside the
    enumerators, which are [other_mode]. *)
Inductive TunnelMode : Set := tcp | udp | socks5 | p2p | other_mode (value : Z).

#[export] Instance TunnelMode_eq_decision : EqDecision TunnelMode.
Proof. solve_decision. Defined.

(** [static_cast] to and from [std::uint8_t]. *)
Definition tunnel_mode_to_u8 (mode : TunnelMode) : Z :=
  match mode with tcp => 0 | udp => 1 | socks5 => 2 | p2p => 3 | other_mode v => v end.

Definition tunnel_mode_of_u8 (value : Z) : TunnelMode :=
  if value =? 0 then tcp else if value =? 1 then udp else if value =? 2 then socks5
  else if value =? 3 then p2p else other_mode value.

(** [required_capability] and [supports_tunnel_mode]. *)
Definition required_capability (mode : TunnelMode) : Capability :=
  match mode with
  | udp => udp_datagrams
  | socks5 => socks5_proxy
  | p2p => p2p_rendezvous
  | tcp => pipelined_control
  | other_mode _ => pipelined_control
  end.

Definition supports_tunnel_mode (capabilities : Z) (mode : TunnelMode) : bool :=
  let required := capability_bit (required_capability mode) in
  Z.land capabilities required =? required.

(** [valid_tunnel_mode]. *)
Definition valid_tunnel_mode (mode : TunnelMode) : bool :=
  match mode with tcp | udp | socks5 | p2p => true | other_mode _ => false end.

(** ** Message structures *)

Record HelloMessage : Set := mkHello { hello_client_id : bytes; hello_capabilities : Z }.

Record HelloAckMessage : Set := mkHelloAck {
  hello_ack_server_id : bytes;
  hello_ack_server_time_seconds : Z;
  hello_ack_nonce : bytes;
  hello_ack_selected_capabilities : Z
}.

Record AuthMessage : Set := mkAuth {
  auth_client_id : bytes;
  auth_timestamp_seconds : Z;
  auth_nonce : bytes;
  auth_authentication_data : bytes;
  auth_selected_capabilities : Z
}.

Record AuthOkMessage : Set := mkAuthOk {
  session_generation : Z;
  heartbeat_interval_milliseconds : Z;
  min_idle_workers : Z;
  max_idle_workers : Z
}.

Record AuthErrorMessage : Set := mkAuthError { auth_error_code : ErrorCode }.

Record HeartbeatMessage : Set := mkHeartbeat { sequence : Z }.

Record RegisterTunnelMessage : Set := mkRegisterTunnel {
  rt_tunnel_id : bytes;
  rt_bind_host : bytes;
  rt_bind_port : Z;
  rt_desired_revision : Z;
  rt_mode : TunnelMode
}.

Record RegisterTunnelOkMessage : Set := mkRegisterTunnelOk {
  rto_tunnel_id : bytes;
  rto_desired_revision : Z
}.

Record RegisterTunnelErrorMessage : Set := mkRegisterTunnelError {
  rte_tunnel_id : bytes;
  rte_code : ErrorCode;
  rte_desired_revision : Z
}.

Record UnregisterTunnelMessage : Set := mkUnregisterTunnel {
  ut_tunnel_id : bytes;
  ut_desired_revision : Z
}.

Record RequestWorkersMessage : Set := mkRequestWorkers { count : Z }.

Record WorkerHelloMessage : Set := mkWorkerHello {
  wh_client_id : bytes;
  wh_session_generation : Z;
  wh_worker_id : bytes;
  wh_timestamp_seconds : Z;
  wh_nonce : bytes;
  wh_authentication_data : bytes
}.

Record WorkerAcceptedMessage : Set := mkWorkerAccepted { wa_worker_id : bytes }.

Record StartRelayMessage : Set := mkStartRelay {
  sr_tunnel_id : bytes;
  sr_connection_id : bytes;
  sr_mode : TunnelMode;
  sr_source_host : option bytes;
  sr_source_port : option Z;
  sr_worker_observed_host : option bytes
}.

Record LocalConnectOkMessage : Set := mkLocalConnectOk { lco_connection_id : bytes }.

Record LocalConnectErrorMessage : Set := mkLocalConnectError {
  lce_connection_id : bytes;
  lce_code : ErrorCode
}.

(** ** Validation *)

(** [validate_client_id], [validate_server_id], [validate_tunnel_id] and
    [validate_connection_id]. *)
Definition validate_client_id (value : bytes) : Result unit :=
  match Id_parse_kind value client with
  | Err _ => failure protocol_error "remote message contains an invalid client ID"
  | Ok _ => success
  end.

Definition validate_server_id (value : bytes) : Result unit :=
  match Id_parse_kind value server with
  | Err _ => failure protocol_error "remote message contains an invalid server ID"
  | Ok _ => success
  end.

Definition validate_tunnel_id (value : bytes) : Result unit :=
  match Id_parse_kind value tunnel with
  | Err _ => failure protocol_error "remote message contains an invalid tunnel ID"
  | Ok _ => success
  end.

Definition validate_connection_id (value : bytes) : Result unit :=
  match Id_parse_kind value connection with
  | Err _ => failure protocol_error "remote message contains an invalid connection ID"
  | Ok _ => success
  end.

(** [validate_offered_capabilities] and [validate_selected_capabilities]; the
    complement is taken at 64 bits. *)
Definition validate_offered_capabilities (value : Z) : Result unit :=
  if negb (Z.land value kRequiredCapabilities =? kRequiredCapabilities) then
    failure protocol_error "remote peer does not offer required protocol capabilities"
  else success.

Definition validate_selected_capabilities (value : Z) : Result unit :=
  if negb (Z.land value kRequiredCapabilities =? kRequiredCapabilities)
     || negb (Z.land value (Z.lxor (Z.ones 64) kSupportedCapabilities) =? 0) then
    failure protocol_error "remote peer selected invalid protocol capabilities"
  else success.

(** [validate_auth_ok]. *)
Definition validate_auth_ok (m : AuthOkMessage) : Result unit :=
  if session_generation m =? 0 then
    failure protocol_error "session generation must not be zero"
  else if (heartbeat_interval_milliseconds m <? 1000)
          || (60000 <? heartbeat_interval_milliseconds m) then
    failure protocol_error "heartbeat interval is outside the protocol limits"
  else if (max_idle_workers m <? min_idle_workers m) || (128 <? max_idle_workers m) then
    failure protocol_error "worker limits are inconsistent"
  else success.

(** ** Heartbeat metadata *)

Definition kHeartbeatMetadataTag : Z := Z.shiftl 0x4d54 48.
Definition kHeartbeatMetadataTagMask : Z := Z.shiftl 0xffff 48.
Definition kHeartbeatTimeoutMask : Z := 0x1ff.
Definition kHeartbeatTimeoutShift : Z := 39.

(** [encode_worker_timeout_heartbeat_sequence]. *)
Definition encode_worker_timeout_heartbeat_sequence
    (sequence worker_idle_timeout_seconds : Z) : Result Z :=
  if (sequence =? 0) || (kMaximumNegotiatedHeartbeatSequence <? sequence)
     || (worker_idle_timeout_seconds <? kMinimumWorkerIdleTimeoutSeconds)
     || (kMaximumWorkerIdleTimeoutSeconds <? worker_idle_timeout_seconds) then
    failure invalid_argument "heartbeat sequence or Worker idle timeout is outside its limit"
  else
    Ok (Z.lor (Z.lor kHeartbeatMetadataTag
                 (Z.shiftl worker_idle_timeout_seconds kHeartbeatTimeoutShift)) sequence).

(** [decode_worker_idle_timeout_seconds]; the value fits its [std::uint16_t] cast. *)
Definition decode_worker_idle_timeout_seconds (sequence : Z) : option Z :=
  if negb (Z.land sequence kHeartbeatMetadataTagMask =? kHeartbeatMetadataTag)
     || (Z.land sequence kMaximumNegotiatedHeartbeatSequence =? 0) then None
  else
    let timeout := Z.land (Z.shiftr sequence kHeartbeatTimeoutShift) kHeartbeatTimeoutMask in
    if (timeout <? kMinimumWorkerIdleTimeoutSeconds)
       || (kMaximumWorkerIdleTimeoutSeconds <? timeout) then None
    else Some timeout.

(** ** Shared field codecs *)

(** [decode_tunnel_mode]: TCP is the absence of the extension byte. *)
Definition decode_tunnel_mode : Reader TunnelMode :=
  left ← ST_get remaining;
  if left =? 0 then mret tcp
  else if negb (left =? 1) then
    fail_with protocol_error "remote tunnel mode extension is invalid"
  else
    value ← read_u8;
    let mode := tunnel_mode_of_u8 value in
    if negb (valid_tunnel_mode mode) || bool_decide (mode = tcp) then
      fail_with protocol_error "remote tunnel mode is unknown"
    else mret mode.

(** [encode_tunnel_mode]. *)
Definition encode_tunnel_mode (mode : TunnelMode) : Writer unit :=
  if negb (valid_tunnel_mode mode) then
    fail_with invalid_argument "remote tunnel mode is unknown"
  else if decide (mode = tcp) then mret tt
  else write_u8 (tunnel_mode_to_u8 mode).

(** [read_fixed_bytes<Size>]. *)
Definition read_fixed_bytes (size : Z) : Reader bytes :=
  value ← read_bytes size;
  if negb (Zlen value =? size) then
    fail_with protocol_error "remote message contains a fixed-size field with the wrong length"
  else mret value.

(** [encode_tunnel_revision] and [decode_tunnel_revision]. *)
Definition encode_tunnel_revision (tunnel_id : bytes) (revision : Z) : Result bytes :=
  _ ← validate_tunnel_id tunnel_id;
  if revision =? 0 then failure invalid_argument "tunnel desired revision must not be zero"
  else encode_with (write_string tunnel_id;; write_u64 revision).

Definition decode_tunnel_revision (payload : bytes) : Result (bytes * Z) :=
  decode_with
    (tunnel_id ← read_string kMaxProtocolIdentifierBytes;
     ST_lift (validate_tunnel_id tunnel_id);;
     revision ← attempt read_u64;
     match revision with
     | Ok revision =>
         if revision =? 0 then
           fail_with protocol_error "remote message contains an invalid tunnel revision"
         else
           require_end;;
           mret (tunnel_id, revision)
     | Err _ => fail_with protocol_error "remote message contains an invalid tunnel revision"
     end) payload.

(** ** Control connection messages *)

Definition encode_hello (m : HelloMessage) : Result bytes :=
  _ ← validate_client_id (hello_client_id m);
  encode_with
    (write_string (hello_client_id m);;
     ST_lift (validate_offered_capabilities (hello_capabilities m));;
     write_u64 (hello_capabilities m)).

Definition decode_hello : bytes -> Result HelloMessage :=
  decode_with
    (client_id ← read_string kMaxProtocolIdentifierBytes;
     ST_lift (validate_client_id client_id);;
     capabilities ← read_u64;
     ST_lift (validate_offered_capabilities capabilities);;
     require_end;;
     mret (mkHello client_id capabilities)).

Definition encode_hello_ack (m : HelloAckMessage) : Result bytes :=
  _ ← validate_server_id (hello_ack_server_id m);
  encode_with
    (write_string (hello_ack_server_id m);;
     write_u64 (u64_of_i64 (hello_ack_server_time_seconds m));;
     write_bytes (hello_ack_nonce m);;
     ST_lift (validate_selected_capabilities (hello_ack_selected_capabilities m));;
     write_u64 (hello_ack_selected_capabilities m)).

Definition decode_hello_ack : bytes -> Result HelloAckMessage :=
  decode_with
    (server_id ← read_string kMaxProtocolIdentifierBytes;
     ST_lift (validate_server_id server_id);;
     timestamp ← read_u64;
     nonce ← read_fixed_bytes kAuthenticationNonceSize;
     capabilities ← read_u64;
     ST_lift (validate_selected_capabilities capabilities);;
     require_end;;
     mret (mkHelloAck server_id (i64_of_u64 timestamp) nonce capabilities)).

Definition encode_auth (m : AuthMessage) : Result bytes :=
  _ ← validate_client_id (auth_client_id m);
  encode_with
    (write_string (auth_client_id m);;
     write_u64 (u64_of_i64 (auth_timestamp_seconds m));;
     write_bytes (auth_nonce m);;
     write_bytes (auth_authentication_data m);;
     ST_lift (validate_selected_capabilities (auth_selected_capabilities m));;
     write_u64 (auth_selected_capabilities m)).

Definition decode_auth : bytes -> Result AuthMessage :=
  decode_with
    (client_id ← read_string kMaxProtocolIdentifierBytes;
     ST_lift (validate_client_id client_id);;
     timestamp ← read_u64;
     nonce ← read_fixed_bytes kAuthenticationNonceSize;
     authentication_data ← read_fixed_bytes kAuthenticationDataSize;
     capabilities ← read_u64;
     ST_lift (validate_selected_capabilities capabilities);;
     require_end;;
     mret (mkAuth client_id (i64_of_u64 timestamp) nonce authentication_data capabilities)).

Definition encode_auth_ok (m : AuthOkMessage) : Result bytes :=
  _ ← validate_auth_ok m;
  encode_with
    (write_u64 (session_generation m);;
     write_u32 (heartbeat_interval_milliseconds m);;
     write_u16 (min_idle_workers m);;
     write_u16 (max_idle_workers m)).

Definition decode_auth_ok : bytes -> Result AuthOkMessage :=
  decode_with
    (generation ← attempt read_u64;
     heartbeat ← attempt read_u32;
     minimum_workers ← attempt read_u16;
     maximum_workers ← attempt read_u16;
     match generation, heartbeat, minimum_workers, maximum_workers with
     | Ok generation, Ok heartbeat, Ok minimum_workers, Ok maximum_workers =>
         require_end;;
         let m := mkAuthOk generation heartbeat minimum_workers maximum_workers in
         ST_lift (validate_auth_ok m);;
         mret m
     | _, _, _, _ => fail_with protocol_error "AUTH_OK payload is truncated"
     end).

Definition encode_auth_error (m : AuthErrorMessage) : Result bytes :=
  if decide (auth_error_code m = ok) then
    failure invalid_argument "AUTH_ERROR must contain a failure code"
  else encode_with (write_string (error_code_to_string (auth_error_code m))).

Definition decode_auth_error : bytes -> Result AuthErrorMessage :=
  decode_with
    (code_text ← read_string 64;
     match error_code_from_string code_text with
     | Some code =>
         if decide (code = ok) then
           fail_with protocol_error "AUTH_ERROR contains an invalid error code"
         else
           require_end;;
           mret (mkAuthError code)
     | None => fail_with protocol_error "AUTH_ERROR contains an invalid error code"
     end).

Definition encode_heartbeat (m : HeartbeatMessage) : Result bytes :=
  encode_with (write_u64 (sequence m)).

Definition decode_heartbeat : bytes -> Result HeartbeatMessage :=
  decode_with
    (sequence ← read_u64;
     require_end;;
     mret (mkHeartbeat sequence)).

Definition encode_register_tunnel (m : RegisterTunnelMessage) : Result bytes :=
  _ ← validate_tunnel_id (rt_tunnel_id m);
  if bool_decide (rt_bind_host m = []) || (kMaxTunnelBindHostBytes <? Zlen (rt_bind_host m))
     || (rt_bind_port m =? 0) || (rt_desired_revision m =? 0)
     || negb (valid_tunnel_mode (rt_mode m)) then
    failure invalid_argument "remote tunnel binding is invalid"
  else
    encode_with
      (write_string (rt_tunnel_id m);;
       write_string (rt_bind_host m);;
       write_u16 (rt_bind_port m);;
       write_u64 (rt_desired_revision m);;
       encode_tunnel_mode (rt_mode m)).

Definition decode_register_tunnel : bytes -> Result RegisterTunnelMessage :=
  decode_with
    (tunnel_id ← attempt (read_string kMaxProtocolIdentifierBytes);
     bind_host ← attempt (read_string kMaxTunnelBindHostBytes);
     bind_port ← attempt read_u16;
     revision ← attempt read_u64;
     match tunnel_id, bind_host, bind_port, revision with
     | Ok tunnel_id, Ok bind_host, Ok bind_port, Ok revision =>
         ST_lift (validate_tunnel_id tunnel_id);;
         if bool_decide (bind_host = []) || (bind_port =? 0) || (revision =? 0) then
           fail_with protocol_error "REGISTER_TUNNEL binding is invalid"
         else
           mode ← decode_tunnel_mode;
           require_end;;
           mret (mkRegisterTunnel tunnel_id bind_host bind_port revision mode)
     | _, _, _, _ => fail_with protocol_error "REGISTER_TUNNEL payload is truncated"
     end).

Definition encode_register_tunnel_ok (m : RegisterTunnelOkMessage) : Result bytes :=
  encode_tunnel_revision (rto_tunnel_id m) (rto_desired_revision m).

Definition decode_register_tunnel_ok (payload : bytes) : Result RegisterTunnelOkMessage :=
  '(tunnel_id, revision) ← decode_tunnel_revision payload;
  Ok (mkRegisterTunnelOk tunnel_id revision).

Definition encode_register_tunnel_error (m : RegisterTunnelErrorMessage) : Result bytes :=
  _ ← validate_tunnel_id (rte_tunnel_id m);
  if bool_decide (rte_code m = ok) || (rte_desired_revision m =? 0) then
    failure invalid_argument "REGISTER_TUNNEL_ERROR requires a failure code"
  else
    encode_with
      (write_string (rte_tunnel_id m);;
       write_string (error_code_to_string (rte_code m));;
       write_u64 (rte_desired_revision m)).

Definition decode_register_tunnel_error : bytes -> Result RegisterTunnelErrorMessage :=
  decode_with
    (tunnel_id ← attempt (read_string kMaxProtocolIdentifierBytes);
     code_text ← attempt (read_string 64);
     revision ← attempt read_u64;
     match tunnel_id, code_text, revision with
     | Ok tunnel_id, Ok code_text, Ok revision =>
         match validate_tunnel_id tunnel_id, error_code_from_string code_text with
         | Ok _, Some code =>
             if bool_decide (code = ok) || (revision =? 0) then
               fail_with protocol_error "REGISTER_TUNNEL_ERROR payload is invalid"
             else
               require_end;;
               mret (mkRegisterTunnelError tunnel_id code revision)
         | _, _ => fail_with protocol_error "REGISTER_TUNNEL_ERROR payload is invalid"
         end
     | _, _, _ => fail_with protocol_error "REGISTER_TUNNEL_ERROR payload is truncated"
     end).

Definition encode_unregister_tunnel (m : UnregisterTunnelMessage) : Result bytes :=
  encode_tunnel_revision (ut_tunnel_id m) (ut_desired_revision m).

Definition decode_unregister_tunnel (payload : bytes) : Result UnregisterTunnelMessage :=
  '(tunnel_id, revision) ← decode_tunnel_revision payload;
  Ok (mkUnregisterTunnel tunnel_id revision).

(** [UnregisterTunnelOkMessage] is the same structure. *)
Definition encode_unregister_tunnel_ok (m : UnregisterTunnelMessage) : Result bytes :=
  encode_tunnel_revision (ut_tunnel_id m) (ut_desired_revision m).

Definition decode_unregister_tunnel_ok (payload : bytes) : Result UnregisterTunnelMessage :=
  decode_unregister_tunnel payload.

Definition encode_request_workers (m : RequestWorkersMessage) : Result bytes :=
  if (count m =? 0) || (128 <? count m) then
    failure invalid_argument "requested worker count is outside 1..128"
  else encode_with (write_u16 (count m)).

Definition decode_request_workers : bytes -> Result RequestWorkersMessage :=
  decode_with
    (count ← attempt read_u16;
     match count with
     | Ok count =>
         if (count =? 0) || (128 <? count) then
           fail_with protocol_error "REQUEST_WORKERS payload is invalid"
         else
           ended ← attempt require_end;
           if negb (is_ok ended) then
             fail_with protocol_error "REQUEST_WORKERS payload is invalid"
           else mret (mkRequestWorkers count)
     | Err _ => fail_with protocol_error "REQUEST_WORKERS payload is invalid"
     end).

(** ** Worker connection messages *)

Definition encode_worker_hello (m : WorkerHelloMessage) : Result bytes :=
  if negb (is_ok (validate_client_id (wh_client_id m)))
     || negb (is_ok (validate_connection_id (wh_worker_id m)))
     || (wh_session_generation m =? 0) then
    failure protocol_error "WORKER_HELLO identity is invalid"
  else
    encode_with
      (write_string (wh_client_id m);;
       write_u64 (wh_session_generation m);;
       write_string (wh_worker_id m);;
       write_u64 (u64_of_i64 (wh_timestamp_seconds m));;
       write_bytes (wh_nonce m);;
       write_bytes (wh_authentication_data m)).

Definition decode_worker_hello : bytes -> Result WorkerHelloMessage :=
  decode_with
    (client_id ← attempt (read_string kMaxProtocolIdentifierBytes);
     generation ← attempt read_u64;
     worker_id ← attempt (read_string kMaxProtocolIdentifierBytes);
     timestamp ← attempt read_u64;
     nonce ← attempt (read_fixed_bytes kAuthenticationNonceSize);
     authentication_data ← attempt (read_fixed_bytes kAuthenticationDataSize);
     match client_id, generation, worker_id, timestamp, nonce, authentication_data with
     | Ok client_id, Ok generation, Ok worker_id, Ok timestamp, Ok nonce,
       Ok authentication_data =>
         if (generation =? 0) || negb (is_ok (validate_client_id client_id))
            || negb (is_ok (validate_connection_id worker_id)) then
           fail_with protocol_error "WORKER_HELLO payload is invalid"
         else
           ended ← attempt require_end;
           if negb (is_ok ended) then
             fail_with protocol_error "WORKER_HELLO payload is invalid"
           else
             mret (mkWorkerHello client_id generation worker_id (i64_of_u64 timestamp) nonce
                     authentication_data)
     | _, _, _, _, _, _ => fail_with protocol_error "WORKER_HELLO payload is invalid"
     end).

Definition encode_worker_accepted (m : WorkerAcceptedMessage) : Result bytes :=
  _ ← validate_connection_id (wa_worker_id m);
  encode_with (write_string (wa_worker_id m)).

(** [read_string], [validate_connection_id] and [require_end] behind one check,
    as in [decode_worker_accepted] and [decode_local_connect_ok]. *)
Definition read_connection_id_only (message : string) : Reader bytes :=
  id ← attempt (read_string kMaxProtocolIdentifierBytes);
  match id with
  | Ok id =>
      if negb (is_ok (validate_connection_id id)) then fail_with protocol_error message
      else
        ended ← attempt require_end;
        if negb (is_ok ended) then fail_with protocol_error message else mret id
  | Err _ => fail_with protocol_error message
  end.

Definition decode_worker_accepted : bytes -> Result WorkerAcceptedMessage :=
  decode_with
    (worker_id ← read_connection_id_only "WORKER_ACCEPTED payload is invalid";
     mret (mkWorkerAccepted worker_id)).

(** Whether [asio::ip::make_address(host, error)] leaves [error] clear. *)
Class AsioMakeAddress := make_address_ok : bytes -> bool.

Definition encode_start_relay (m : StartRelayMessage) : Result bytes :=
  if negb (is_ok (validate_tunnel_id (sr_tunnel_id m)))
     || negb (is_ok (validate_connection_id (sr_connection_id m)))
     || negb (valid_tunnel_mode (sr_mode m)) then
    failure protocol_error "START_RELAY identity is invalid"
  else
    encode_with
      (write_string (sr_tunnel_id m);;
       write_string (sr_connection_id m);;
       let has_source :=
         bool_decide (is_Some (sr_source_host m)) || bool_decide (is_Some (sr_source_port m)) in
       let has_worker_observed := bool_decide (is_Some (sr_worker_observed_host m)) in
       if has_worker_observed && negb has_source then
         fail_with invalid_argument
           "START_RELAY worker observed host requires the source endpoint extension"
       else if has_source then
         match sr_source_host m, sr_source_port m with
         | Some source_host, Some source_port =>
             write_u8 (tunnel_mode_to_u8 (sr_mode m));;
             write_string source_host;;
             write_u16 source_port;;
             match sr_worker_observed_host m with
             | Some worker_observed_host => write_string worker_observed_host
             | None => mret tt
             end
         | _, _ =>
             fail_with invalid_argument "START_RELAY source endpoint requires both host and port"
         end
       else encode_tunnel_mode (sr_mode m)).

(** The mode byte, the source endpoint and the observed host of [decode_start_relay]. *)
Definition read_start_relay_mode : Reader TunnelMode :=
  left ← ST_get remaining;
  if left =? 0 then mret tcp
  else
    value ← attempt read_u8;
    match value with
    | Err _ => fail_with protocol_error "START_RELAY mode is invalid"
    | Ok value =>
        let mode := tunnel_mode_of_u8 value in
        if negb (valid_tunnel_mode mode) then
          fail_with protocol_error "START_RELAY mode is invalid"
        else
          left ← ST_get remaining;
          if bool_decide (mode = tcp) && (left =? 0) then
            fail_with protocol_error
              "START_RELAY explicit TCP mode requires the source endpoint extension"
          else mret mode
    end.

Definition read_start_relay_source `{AsioMakeAddress} : Reader (option (bytes * Z)) :=
  left ← ST_get remaining;
  if left =? 0 then mret None
  else
    host ← attempt (read_string kMaxTunnelBindHostBytes);
    port ← attempt read_u16;
    match host, port with
    | Ok host, Ok port =>
        if port =? 0 then fail_with protocol_error "START_RELAY source endpoint is invalid"
        else if negb (make_address_ok host) then
          fail_with protocol_error "START_RELAY source host is invalid"
        else mret (Some (host, port))
    | _, _ => fail_with protocol_error "START_RELAY source endpoint is invalid"
    end.

Definition read_start_relay_observed `{AsioMakeAddress} : Reader (option bytes) :=
  left ← ST_get remaining;
  if left =? 0 then mret None
  else
    observed ← attempt (read_string kMaxTunnelBindHostBytes);
    match observed with
    | Ok observed =>
        if negb (make_address_ok observed) then
          fail_with protocol_error "START_RELAY worker observed host is invalid"
        else mret (Some observed)
    | Err _ => fail_with protocol_error "START_RELAY worker observed host is invalid"
    end.

Definition decode_start_relay `{AsioMakeAddress} : bytes -> Result StartRelayMessage :=
  decode_with
    (tunnel_id ← attempt (read_string kMaxProtocolIdentifierBytes);
     connection_id ← attempt (read_string kMaxProtocolIdentifierBytes);
     match tunnel_id, connection_id with
     | Ok tunnel_id, Ok connection_id =>
         if negb (is_ok (validate_tunnel_id tunnel_id))
            || negb (is_ok (validate_connection_id connection_id)) then
           fail_with protocol_error "START_RELAY payload is invalid"
         else
           mode ← read_start_relay_mode;
           source ← read_start_relay_source;
           observed ← read_start_relay_observed;
           ended ← attempt require_end;
           if negb (is_ok ended) then fail_with protocol_error "START_RELAY payload is invalid"
           else
             mret (mkStartRelay tunnel_id connection_id mode (fst <$> source) (snd <$> source)
                     observed)
     | _, _ => fail_with protocol_error "START_RELAY payload is invalid"
     end).

Definition encode_local_connect_ok (m : LocalConnectOkMessage) : Result bytes :=
  _ ← validate_connection_id (lco_connection_id m);
  encode_with (write_string (lco_connection_id m)).

Definition decode_local_connect_ok : bytes -> Result LocalConnectOkMessage :=
  decode_with
    (connection_id ← read_connection_id_only "LOCAL_CONNECT_OK payload is invalid";
     mret (mkLocalConnectOk connection_id)).

Definition encode_local_connect_error (m : LocalConnectErrorMessage) : Result bytes :=
  if negb (is_ok (validate_connection_id (lce_connection_id m)))
     || bool_decide (lce_code m = ok) then
    failure protocol_error "LOCAL_CONNECT_ERROR payload is invalid"
  else
    encode_with
      (write_string (lce_connection_id m);;
       write_string (error_code_to_string (lce_code m))).

Definition decode_local_connect_error : bytes -> Result LocalConnectErrorMessage :=
  decode_with
    (connection_id ← attempt (read_string kMaxProtocolIdentifierBytes);
     code_text ← attempt (read_string 64);
     let code := match code_text with Ok text => error_code_from_string text | Err _ => None end in
     match connection_id, code with
     | Ok connection_id, Some code =>
         if negb (is_ok (validate_connection_id connection_id)) || bool_decide (code = ok) then
           fail_with protocol_error "LOCAL_CONNECT_ERROR payload is invalid"
         else
           ended ← attempt require_end;
           if negb (is_ok ended) then
             fail_with protocol_error "LOCAL_CONNECT_ERROR payload is invalid"
           else mret (mkLocalConnectError connection_id code)
     | _, _ => fail_with protocol_error "LOCAL_CONNECT_ERROR payload is invalid"
     end).
