(* ===== verification/MessageFormat.v ===== *)
(** * The wire format of the messages

    Each message of [Messages.v] has one wire image.  [WireFormat] states what a
    message type promises to the frame layer and the SDK: a well-formed message
    is encoded as its image, the image is decoded as the message, and nothing
    else is decoded as it. *)
From S2P Require Import Prelude Common Ids Utf8 Codec Messages.

(** ** The interface *)

Class WireFormat (M : Type) := {
  encode : M -> Result bytes;
  decode : bytes -> Result M;
  wf : M -> Prop;          (** the values the peer accepts *)
  image : M -> bytes       (** the bytes on the wire *)
}.

Class WireFormatLaws (M : Type) `{WireFormat M} : Prop := {
  encode_image m : wf m -> encode m = Ok (image m);
  decode_image m : wf m -> decode (image m) = Ok m;
  decode_inv p m : decode p = Ok m -> wf m /\ p = image m;
  image_bound m : wf m -> Zlen (image m) <= kMaxPayloadSize
}.

(** ** Inverting reads *)

Lemma take_two (l : bytes) n :
  (Zlen l <? Z.of_nat n) = false -> exists l1 l2, l = l1 ++ l2 /\ length l1 = n.
Proof.
  intros Hl. exists (take n l), (drop n l). rewrite take_drop. split; [done|].
  rewrite length_take. unfold Zlen in Hl. lia.
Qed.

Lemma be_decode_uint l n : length l = n -> is_uint (8 * Z.of_nat n) (be_decode l).
Proof.
  intros <-. pose proof (be_decode_range l) as Hb. unfold is_uint. unfold Zlen in Hb.
  rewrite Z.pow_mul_r by lia. exact Hb.
Qed.

Lemma read_u8_inv r v r' :
  read_u8 r = (Ok v, r') -> is_u8 v /\ rest r = u8_bytes v ++ rest r'.
Proof.
  intros H. destruct (rest r) as [|b s] eqn:Hr.
  - exfalso. revert H. unfold read_u8. by rewrite remaining_rest, Hr.
  - destruct (parses_read_u8 b s r Hr) as (r'' & E & Hr''). rewrite E in H. simplify_eq.
    unfold u8_bytes, is_uint. rewrite byte_of_Z_of_byte.
    pose proof (Z_of_byte_range b). split; [lia|done].
Qed.

(** The generic inversion of a read of [n] bytes. *)
Lemma read_fixed_inv (m : Reader Z) (to_bytes : Z -> bytes) n r v r' :
  (forall r, (remaining r <? Z.of_nat n) = true -> m r = (Err truncated_payload_error, r)) ->
  (forall l s, length l = n -> parses m (l ++ s) (be_decode l) s) ->
  (forall v, to_bytes v = be_encode n v) ->
  m r = (Ok v, r') -> is_uint (8 * Z.of_nat n) v /\ rest r = to_bytes v ++ rest r'.
Proof.
  intros Hshort Hm Hb H. destruct (remaining r <? Z.of_nat n) eqn:E.
  { rewrite Hshort in H by done. congruence. }
  rewrite remaining_rest in E. destruct (take_two _ _ E) as (l & s & Hr & Hl).
  destruct (Hm l s Hl r Hr) as (r'' & E' & Hr''). rewrite E' in H. simplify_eq.
  split; [by apply be_decode_uint|]. rewrite Hb, be_encode_decode. congruence.
Qed.

Lemma read_u16_inv r v r' :
  read_u16 r = (Ok v, r') -> is_u16 v /\ rest r = u16_bytes v ++ rest r'.
Proof.
  apply (read_fixed_inv read_u16 u16_bytes 2); [|apply parses_read_u16|apply u16_bytes_be].
  intros r0 Hr. unfold read_u16. change (Z.of_nat 2) with 2 in Hr. by rewrite Hr.
Qed.

Lemma read_u32_inv r v r' :
  read_u32 r = (Ok v, r') -> is_u32 v /\ rest r = u32_bytes v ++ rest r'.
Proof.
  apply (read_fixed_inv read_u32 u32_bytes 4); [|apply parses_read_u32|apply u32_bytes_be].
  intros r0 Hr. unfold read_u32. change (Z.of_nat 4) with 4 in Hr. by rewrite Hr.
Qed.

Lemma read_u64_inv r v r' :
  read_u64 r = (Ok v, r') -> is_u64 v /\ rest r = u64_bytes v ++ rest r'.
Proof.
  apply (read_fixed_inv read_u64 u64_bytes 8); [|apply parses_read_u64|apply u64_bytes_be].
  intros r0 Hr. unfold read_u64. change (Z.of_nat 8) with 8 in Hr. by rewrite Hr.
Qed.

Lemma read_bytes_inv mx r v r' :
  read_bytes mx r = (Ok v, r') ->
  rest r = field v ++ rest r' /\ Zlen v <= mx /\ Zlen v <= 65535.
Proof.
  unfold read_bytes. intros H. destruct (remaining r <? 2) eqn:E; [congruence|].
  rewrite remaining_rest in E. destruct (take_two (rest r) 2 E) as (l & s & Hr & Hl).
  rewrite !byte_at_rest, Hr, !app_nth1, lor_chain_2 in H by lia.
  rewrite remaining_rest, Hr, Zlen_app in H.
  replace (Zlen l) with 2 in H by (unfold Zlen; rewrite Hl; done).
  pose proof (be_decode_uint l 2 Hl) as Hu. unfold is_uint in Hu.
  set (n := be_decode l) in *.
  destruct (Z.ltb_spec mx n); [done|].
  destruct (Z.ltb_spec (2 + Zlen s - 2) n) as [|Hs]; [done|]. simplify_eq.
  rewrite rest_advance.
  rewrite <- drop_drop. change (drop (offset_ r) (rbytes_ r)) with (rest r).
  rewrite Hr, <- drop_drop, <- Hl, drop_app_length.
  assert (Hlen : Zlen (take (Z.to_nat n) s) = n).
  { unfold Zlen. rewrite length_take. unfold Zlen in Hs. lia. }
  unfold field. rewrite Hlen, u16_bytes_be. unfold n at 1. rewrite <- Hl at 1.
  rewrite be_encode_decode, <- app_assoc, take_drop. split_and!; [done|lia|lia].
Qed.

Lemma read_string_inv mx r v r' :
  read_string mx r = (Ok v, r') ->
  rest r = field v ++ rest r' /\ Zlen v <= mx /\ Zlen v <= 65535 /\ is_text v = true.
Proof.
  unfold read_string. intros (t & r1 & H1 & H2)%ST_bind_inv.
  apply read_bytes_inv in H1 as (Hr & Hm & Hl). rewrite is_text_iff in H2.
  destruct (is_text t) eqn:E; [|done]. simpl in H2. unfold mret, ST_ret in H2. by simplify_eq.
Qed.

Lemma read_fixed_bytes_inv n r v r' :
  n <= 65535 -> read_fixed_bytes n r = (Ok v, r') -> rest r = field v ++ rest r' /\ Zlen v = n.
Proof.
  unfold read_fixed_bytes. intros Hn (t & r1 & H1 & H2)%ST_bind_inv.
  apply read_bytes_inv in H1 as (Hr & Hm & Hl).
  destruct (Z.eqb_spec (Zlen t) n); [|done]. simpl in H2. unfold mret, ST_ret in H2. by simplify_eq.
Qed.

Lemma require_end_inv r a r' : require_end r = (Ok a, r') -> rest r = [] /\ r' = r.
Proof.
  unfold require_end. rewrite remaining_rest. intros H.
  destruct (Z.eqb_spec (Zlen (rest r)) 0) as [E|]; [|done]. simpl in H. simplify_eq.
  split; [|done]. destruct (rest r'); [done|]. rewrite Zlen_cons in E.
  pose proof (Zlen_nonneg l). lia.
Qed.

Lemma attempt_inv {E S A} (m : ST E S A) s r s' : attempt m s = (Ok r, s') -> m s = (r, s').
Proof. unfold attempt. destruct (m s). congruence. Qed.

Lemma ST_lift_inv {E S A} (r : outcome E A) (s s' : S) a :
  ST_lift r s = (Ok a, s') -> r = Ok a /\ s' = s.
Proof. unfold ST_lift. by intros [= -> ->]. Qed.

Lemma ST_get_inv {E S A} (f : S -> A) (s s' : S) a :
  @ST_get E S A f s = (Ok a, s') -> a = f s /\ s' = s.
Proof. unfold ST_get. by intros [= -> ->]. Qed.

Lemma ST_ret_inv {E S A} (a b : A) (s s' : S) :
  (mret a : ST E S A) s = (Ok b, s') -> b = a /\ s' = s.
Proof. unfold mret, ST_ret. by intros [= -> ->]. Qed.

(** ** Identifiers and capabilities on the wire *)

Lemma validate_id_ok k (v : bytes) m :
  (match Id_parse_kind v k with Err _ => failure protocol_error m | Ok _ => success end : Result unit)
  = Ok tt <-> canonical k v.
Proof.
  rewrite <- valid_id_canonical. unfold valid_id. by destruct (Id_parse_kind v k).
Qed.

Lemma validate_client_id_ok v : validate_client_id v = Ok tt <-> canonical client v.
Proof. apply validate_id_ok. Qed.
Lemma validate_server_id_ok v : validate_server_id v = Ok tt <-> canonical server v.
Proof. apply validate_id_ok. Qed.
Lemma validate_tunnel_id_ok v : validate_tunnel_id v = Ok tt <-> canonical tunnel v.
Proof. apply validate_id_ok. Qed.
Lemma validate_connection_id_ok v : validate_connection_id v = Ok tt <-> canonical connection v.
Proof. apply validate_id_ok. Qed.

Lemma is_ok_unit (r : Result unit) : is_ok r = true <-> r = Ok tt.
Proof. destruct r as [[]|]; done. Qed.

(** A text of ASCII characters without NUL. *)
Lemma is_text_ascii l :
  forallb (fun b => (1 <=? Z_of_byte b) && (Z_of_byte b <=? 0x7f)) l = true -> is_text l = true.
Proof.
  intros Hl. unfold is_text. rewrite is_valid_utf8_ascii.
  - unfold contains_nul. rewrite bool_decide_false; [done|]. intros Hin.
    rewrite forallb_forall in Hl. apply list_elem_of_In, Hl in Hin. done.
  - rewrite forallb_forall in *. intros b Hb. specialize (Hl b Hb). lia.
Qed.

Lemma canonical_text k v : canonical k v -> is_text v = true.
Proof.
  intros (d & -> & _ & Hd). apply is_text_ascii. rewrite forallb_app. apply andb_true_intro.
  split; [by destruct k|]. rewrite forallb_forall in *. intros b Hb. specialize (Hd b Hb).
  unfold is_lowercase_hex in Hd. lia.
Qed.

Lemma error_code_text c : is_text (error_code_to_string c) = true.
Proof. by destruct c. Qed.

Lemma error_code_length c : Zlen (error_code_to_string c) <= 21.
Proof. destruct c; vm_compute; congruence. Qed.

Lemma tunnel_mode_of_to_u8 m :
  valid_tunnel_mode m = true -> tunnel_mode_of_u8 (tunnel_mode_to_u8 m) = m.
Proof. by destruct m. Qed.

Lemma tunnel_mode_to_of_u8 v : tunnel_mode_to_u8 (tunnel_mode_of_u8 v) = v.
Proof.
  unfold tunnel_mode_of_u8.
  destruct (Z.eqb_spec v 0), (Z.eqb_spec v 1), (Z.eqb_spec v 2), (Z.eqb_spec v 3); simpl; lia.
Qed.

Lemma Zlen_field v : Zlen (field v) = 2 + Zlen v.
Proof. unfold field. rewrite Zlen_app. done. Qed.

(** ** Automation

    [inv_reads] inverts a successful decoder run read by read; [chain_rest] puts
    the consumed bytes together; [emit] and [parse] run an encoder and a decoder
    forwards. *)
Ltac inv_reads :=
  repeat match goal with
  | H : (_ ≫= _) _ = (Ok _, _) |- _ =>
      let a := fresh "a" in let r := fresh "r" in let Hm := fresh "Hm" in
      apply ST_bind_inv in H as (a & r & Hm & H); cbv beta zeta in H
  | H : attempt _ _ = (Ok _, _) |- _ => apply attempt_inv in H
  | H : ST_lift _ _ = (Ok _, _) |- _ =>
      let Hv := fresh "Hv" in apply ST_lift_inv in H as [Hv ->]
  | H : ST_get _ _ = (Ok _, _) |- _ => apply ST_get_inv in H as [-> ->]
  | H : mret _ _ = (Ok _, _) |- _ => apply ST_ret_inv in H as [? ->]; simplify_eq
  | H : fail_with _ _ _ = (Ok _, _) |- _ => discriminate H
  | H : context [match ?x with Ok _ => _ | Err _ => _ end] |- _ =>
      is_var x; destruct x; cbv beta iota in H
  | H : match ?x with Ok _ => _ | Err _ => _ end _ = (Ok _, _) |- _ => destruct x eqn:?
  | H : match ?x with Some _ => _ | None => _ end _ = (Ok _, _) |- _ => destruct x eqn:?
  | H : (if ?b then _ else _) _ = (Ok _, _) |- _ => destruct b eqn:?
  | H : read_u8 _ = (Ok _, _) |- _ => apply read_u8_inv in H as [? ?]
  | H : read_u16 _ = (Ok _, _) |- _ => apply read_u16_inv in H as [? ?]
  | H : read_u32 _ = (Ok _, _) |- _ => apply read_u32_inv in H as [? ?]
  | H : read_u64 _ = (Ok _, _) |- _ => apply read_u64_inv in H as [? ?]
  | H : read_string _ _ = (Ok _, _) |- _ => apply read_string_inv in H as (? & ? & ? & ?)
  | H : read_fixed_bytes _ _ = (Ok _, _) |- _ =>
      apply read_fixed_bytes_inv in H as [? ?]; [|done]
  | H : require_end _ = (Ok _, _) |- _ => apply require_end_inv in H as [? ->]
  | H : negb (is_ok ?x) = false |- _ => is_var x; destruct x; [clear H|discriminate H]
  | H : unit |- _ => destruct H
  end.

(** [p = image m] from the chain of [rest] equations. *)
Ltac chain_rest p :=
  change p with (rest (PayloadReader_new p));
  repeat match goal with
  | H : rest ?r = _ |- context [rest ?r] => rewrite H
  end; rewrite ?app_nil_r; try reflexivity.

Lemma decode_with_inv {A} (m : Reader A) p a :
  decode_with m p = Ok a -> exists r', m (PayloadReader_new p) = (Ok a, r').
Proof. unfold decode_with. destruct (m _) as [x r]. simpl. intros ->. eauto. Qed.

Lemma encode_intro m s p :
  emits m s -> s = p -> Zlen p <= kMaxPayloadSize -> encode_with m = Ok p.
Proof. intros Hm -> Hp. by apply emits_encode. Qed.

Lemma emits_lift_ok : emits (ST_lift (Ok tt)) [].
Proof. by apply emits_nil. Qed.

Lemma emits_ret : emits (mret tt) [].
Proof. by apply emits_nil. Qed.

(** Closes the side conditions of the field lemmas. *)
Ltac field_side :=
  unfold kMaxProtocolIdentifierBytes, kMaxTunnelBindHostBytes in *;
  first [ assumption | lia
        | by eapply canonical_text | apply error_code_text
        | match goal with H : canonical _ ?v |- Zlen ?v <= _ =>
            pose proof (canonical_length _ _ H); lia end
        | match goal with |- Zlen (error_code_to_string ?c) <= _ =>
            pose proof (error_code_length c); lia end
        | apply u64_of_i64_range ].

Ltac emit :=
  lazymatch goal with
  | |- emits (_ ≫= _) _ => eapply emits_bind; [emit|emit]
  | |- emits (write_u8 _) _ => apply emits_u8
  | |- emits (write_u16 _) _ => apply emits_u16
  | |- emits (write_u32 _) _ => apply emits_u32
  | |- emits (write_u64 _) _ => apply emits_u64
  | |- emits (write_bytes _) _ => apply emits_bytes; field_side
  | |- emits (write_string _) _ => apply emits_string; field_side
  | |- emits (ST_lift (Ok tt)) _ => apply emits_lift_ok
  | |- emits (mret tt) _ => apply emits_ret
  | |- _ => idtac
  end.

Lemma parses_fixed_bytes n v s :
  Zlen v = n -> n <= 65535 -> parses (read_fixed_bytes n) (field v ++ s) v s.
Proof.
  intros Hv Hn. eapply parses_bind; [apply parses_bytes; lia|].
  rewrite (proj2 (Z.eqb_eq _ _) Hv). apply parses_ret.
Qed.

(** One forward step of a decoder; stops at a test the hypotheses must decide. *)
Ltac parse1 :=
  lazymatch goal with
  | |- parses (attempt _ ≫= _) _ _ _ =>
      eapply parses_bind; [apply parses_attempt; parse1|cbv beta iota]
  | |- parses (_ ≫= _) _ _ _ => eapply parses_bind; [parse1|cbv beta iota zeta]
  | |- parses read_u8 _ _ _ => apply parses_u8; field_side
  | |- parses read_u16 _ _ _ => apply parses_u16; field_side
  | |- parses read_u32 _ _ _ => apply parses_u32; field_side
  | |- parses read_u64 _ _ _ => apply parses_u64; field_side
  | |- parses (read_bytes _) _ _ _ => apply parses_bytes; field_side
  | |- parses (read_string _) _ _ _ => apply parses_string; field_side
  | |- parses (read_fixed_bytes _) _ _ _ => apply parses_fixed_bytes; [field_side|done]
  | |- parses (ST_lift (Ok _)) _ _ _ => apply parses_lift
  | |- parses require_end _ _ _ => apply parses_require_end
  | |- parses (mret _) _ _ _ => apply parses_ret
  | |- parses (if false || false then _ else _) _ _ _ => cbv beta iota delta [orb]
  | |- parses (if negb (is_ok (Ok _)) then _ else _) _ _ _ => cbv beta iota delta [negb is_ok]
  end.
Ltac parse := repeat parse1.

Lemma laws_intro (M : Type) `{WireFormat M} :
  (forall m, wf m -> Zlen (image m) <= kMaxPayloadSize) ->
  (forall m, wf m -> Zlen (image m) <= kMaxPayloadSize -> encode m = Ok (image m)) ->
  (forall m, wf m -> decode (image m) = Ok m) ->
  (forall p m, decode p = Ok m -> wf m /\ p = image m) ->
  WireFormatLaws M.
Proof. intros Hb He Hd Hi. split; auto. Qed.

Lemma Zlen_u8_bytes v : Zlen (u8_bytes v) = 1. Proof. done. Qed.
Lemma Zlen_u16_bytes v : Zlen (u16_bytes v) = 2. Proof. done. Qed.
Lemma Zlen_u32_bytes v : Zlen (u32_bytes v) = 4. Proof. done. Qed.
Lemma Zlen_u64_bytes v : Zlen (u64_bytes v) = 8. Proof. done. Qed.

(** Bounds the size of an image by the sizes of its fields. *)
Ltac image_size :=
  rewrite ?Zlen_app, ?Zlen_field, ?Zlen_u8_bytes, ?Zlen_u16_bytes, ?Zlen_u32_bytes,
    ?Zlen_u64_bytes;
  repeat match goal with
  | H : canonical _ ?v |- context [Zlen ?v] => apply canonical_length in H
  | |- context [Zlen (error_code_to_string ?c)] =>
      lazymatch goal with
      | _ : Zlen (error_code_to_string c) <= _ |- _ => fail
      | _ => pose proof (error_code_length c)
      end
  end;
  unfold kMaxPayloadSize, kMaxFrameSize, kFrameHeaderSize, kMaxTunnelBindHostBytes,
    kAuthenticationNonceSize, kAuthenticationDataSize in *; try lia.

#[local] Opaque field u8_bytes u16_bytes u32_bytes u64_bytes.

(** Turns the validations a decoder has passed into facts about its fields. *)
Ltac validated :=
  rewrite ?negb_false_iff, ?orb_false_iff, ?negb_false_iff, ?bool_decide_eq_false,
    ?is_ok_unit, ?Z.eqb_neq in *; destruct_and?;
  repeat match goal with
  | H : is_ok _ = true |- _ => apply is_ok_unit in H
  | H : validate_client_id _ = Ok tt |- _ => apply validate_client_id_ok in H
  | H : validate_server_id _ = Ok tt |- _ => apply validate_server_id_ok in H
  | H : validate_tunnel_id _ = Ok tt |- _ => apply validate_tunnel_id_ok in H
  | H : validate_connection_id _ = Ok tt |- _ => apply validate_connection_id_ok in H
  | H : error_code_from_string _ = Some _ |- _ => apply error_code_to_from_string in H
  end.

(** ** HELLO *)

#[export] Instance hello_format : WireFormat HelloMessage := {
  encode := encode_hello;
  decode := decode_hello;
  wf m := canonical client (hello_client_id m) /\ is_u64 (hello_capabilities m) /\
          validate_offered_capabilities (hello_capabilities m) = Ok tt;
  image m := field (hello_client_id m) ++ u64_bytes (hello_capabilities m)
}.

#[export] Instance hello_laws : WireFormatLaws HelloMessage.
Proof.
  apply laws_intro; cbv [encode decode wf image hello_format].
  - intros [c k] (Hc & _). simpl in *. image_size.
  - intros m (Hc & Hu & Hv) Hb. unfold encode_hello.
    rewrite (proj2 (validate_client_id_ok _) Hc), Hv. eapply encode_intro; [emit|done|done].
  - intros [c k] (Hc & Hu & Hv). simpl in *.
    apply validate_client_id_ok in Hc as Hc'.
    rewrite <- (app_nil_r (u64_bytes k)). unfold decode_hello. eapply parses_decode.
    parse1. rewrite Hc'. parse. rewrite Hv. parse.
  - intros p m H. apply decode_with_inv in H as (r' & H). inv_reads.
    simpl.
    apply validate_client_id_ok in Hv0. split; [done|]. chain_rest p.
Qed.

(** ** HELLO_ACK *)

#[export] Instance hello_ack_format : WireFormat HelloAckMessage := {
  encode := encode_hello_ack;
  decode := decode_hello_ack;
  wf m := canonical server (hello_ack_server_id m) /\ is_i64 (hello_ack_server_time_seconds m) /\
          Zlen (hello_ack_nonce m) = kAuthenticationNonceSize /\
          is_u64 (hello_ack_selected_capabilities m) /\
          validate_selected_capabilities (hello_ack_selected_capabilities m) = Ok tt;
  image m := field (hello_ack_server_id m) ++
             u64_bytes (u64_of_i64 (hello_ack_server_time_seconds m)) ++
             field (hello_ack_nonce m) ++ u64_bytes (hello_ack_selected_capabilities m)
}.

#[export] Instance hello_ack_laws : WireFormatLaws HelloAckMessage.
Proof.
  apply laws_intro; cbv [encode decode wf image hello_ack_format].
  - intros [c t n k] (Hc & _ & Hn & _). simpl in *. image_size.
  - intros m (Hc & Ht & Hn & Hu & Hv) Hb. unfold encode_hello_ack.
    unfold kAuthenticationNonceSize in Hn.
    rewrite (proj2 (validate_server_id_ok _) Hc), Hv. eapply encode_intro; [emit|done|done].
  - intros [c t n k] (Hc & Ht & Hn & Hu & Hv). simpl in *.
    apply validate_server_id_ok in Hc as Hc'. rewrite <- (app_nil_r (u64_bytes k)).
    unfold decode_hello_ack. eapply parses_decode.
    parse1. rewrite Hc'. parse. rewrite Hv. parse. rewrite i64_of_u64_of_i64 by done. parse.
  - intros p m H. apply decode_with_inv in H as (r' & H). inv_reads. simpl.
    apply validate_server_id_ok in Hv0. split; [by auto using i64_of_u64_range|].
    rewrite u64_of_i64_of_u64 by done. chain_rest p.
Qed.

(** ** AUTH *)

#[export] Instance auth_format : WireFormat AuthMessage := {
  encode := encode_auth;
  decode := decode_auth;
  wf m := canonical client (auth_client_id m) /\ is_i64 (auth_timestamp_seconds m) /\
          Zlen (auth_nonce m) = kAuthenticationNonceSize /\
          Zlen (auth_authentication_data m) = kAuthenticationDataSize /\
          is_u64 (auth_selected_capabilities m) /\
          validate_selected_capabilities (auth_selected_capabilities m) = Ok tt;
  image m := field (auth_client_id m) ++ u64_bytes (u64_of_i64 (auth_timestamp_seconds m)) ++
             field (auth_nonce m) ++ field (auth_authentication_data m) ++
             u64_bytes (auth_selected_capabilities m)
}.

#[export] Instance auth_laws : WireFormatLaws AuthMessage.
Proof.
  apply laws_intro; cbv [encode decode wf image auth_format].
  - intros [c t n d k] (Hc & _ & Hn & Hd & _). simpl in *. image_size.
  - intros m (Hc & Ht & Hn & Hd & Hu & Hv) Hb. unfold encode_auth.
    unfold kAuthenticationNonceSize, kAuthenticationDataSize in *.
    rewrite (proj2 (validate_client_id_ok _) Hc), Hv. eapply encode_intro; [emit|done|done].
  - intros [c t n d k] (Hc & Ht & Hn & Hd & Hu & Hv). simpl in *.
    apply validate_client_id_ok in Hc as Hc'. rewrite <- (app_nil_r (u64_bytes k)).
    unfold decode_auth. eapply parses_decode.
    parse1. rewrite Hc'. parse. rewrite Hv. parse. rewrite i64_of_u64_of_i64 by done. parse.
  - intros p m H. apply decode_with_inv in H as (r' & H). inv_reads. simpl.
    apply validate_client_id_ok in Hv0. split; [by auto 7 using i64_of_u64_range|].
    rewrite u64_of_i64_of_u64 by done. chain_rest p.
Qed.

(** ** AUTH_OK *)

#[export] Instance auth_ok_format : WireFormat AuthOkMessage := {
  encode := encode_auth_ok;
  decode := decode_auth_ok;
  wf m := is_u64 (session_generation m) /\ is_u32 (heartbeat_interval_milliseconds m) /\
          is_u16 (min_idle_workers m) /\ is_u16 (max_idle_workers m) /\
          validate_auth_ok m = Ok tt;
  image m := u64_bytes (session_generation m) ++ u32_bytes (heartbeat_interval_milliseconds m) ++
             u16_bytes (min_idle_workers m) ++ u16_bytes (max_idle_workers m)
}.

#[export] Instance auth_ok_laws : WireFormatLaws AuthOkMessage.
Proof.
  apply laws_intro; cbv [encode decode wf image auth_ok_format].
  - intros m _. image_size.
  - intros m (_ & _ & _ & _ & Hv) Hb. unfold encode_auth_ok. rewrite Hv.
    eapply encode_intro; [emit|done|done].
  - intros [g h a b] (Hg & Hh & Ha & Hb & Hv). simpl in *.
    rewrite <- (app_nil_r (u16_bytes b)). unfold decode_auth_ok. eapply parses_decode.
    parse. rewrite Hv. parse.
  - intros p m H. apply decode_with_inv in H as (r' & H). inv_reads. simpl.
    split; [done|]. chain_rest p.
Qed.

(** ** AUTH_ERROR *)

#[export] Instance auth_error_format : WireFormat AuthErrorMessage := {
  encode := encode_auth_error;
  decode := decode_auth_error;
  wf m := auth_error_code m <> ok;
  image m := field (error_code_to_string (auth_error_code m))
}.

#[export] Instance auth_error_laws : WireFormatLaws AuthErrorMessage.
Proof.
  apply laws_intro; cbv [encode decode wf image auth_error_format].
  - intros m _. image_size.
  - intros m Hm Hb. unfold encode_auth_error. rewrite decide_False by done.
    eapply encode_intro; [emit|done|done].
  - intros [c] Hc. simpl in *. rewrite <- (app_nil_r (field _)). unfold decode_auth_error.
    eapply parses_decode. parse. rewrite error_code_from_to_string, decide_False by done. parse.
  - intros p m H. apply decode_with_inv in H as (r' & H). inv_reads. simpl. split; [done|].
    match goal with E : error_code_from_string _ = _ |- _ =>
      apply error_code_to_from_string in E as -> end. chain_rest p.
Qed.

(** ** PING and PONG *)

#[export] Instance heartbeat_format : WireFormat HeartbeatMessage := {
  encode := encode_heartbeat;
  decode := decode_heartbeat;
  wf m := is_u64 (sequence m);
  image m := u64_bytes (sequence m)
}.

#[export] Instance heartbeat_laws : WireFormatLaws HeartbeatMessage.
Proof.
  apply laws_intro; cbv [encode decode wf image heartbeat_format].
  - intros m _. image_size.
  - intros m _ Hb. eapply encode_intro; [emit|done|done].
  - intros [v] Hv. simpl in *. rewrite <- (app_nil_r (u64_bytes v)).
    eapply parses_decode. unfold decode_heartbeat. parse.
  - intros p m H. apply decode_with_inv in H as (r' & H). inv_reads. simpl.
    split; [done|]. chain_rest p.
Qed.

(** ** The tunnel mode extension *)

Definition mode_suffix (m : TunnelMode) : bytes :=
  if decide (m = tcp) then [] else u8_bytes (tunnel_mode_to_u8 m).

Lemma tunnel_mode_u8 m : valid_tunnel_mode m = true -> is_u8 (tunnel_mode_to_u8 m).
Proof. unfold is_uint. destruct m; simpl; intros; try done; lia. Qed.

Lemma Zlen_rest_0 (l : bytes) : (Zlen l =? 0) = true -> l = [].
Proof.
  intros H%Z.eqb_eq. destruct l; [done|]. rewrite Zlen_cons in H.
  pose proof (Zlen_nonneg l). lia.
Qed.

Lemma parses_remaining s : parses (ST_get remaining) s (Zlen s) s.
Proof. apply parses_get. intros r Hr. by rewrite remaining_rest, Hr. Qed.

Lemma parses_tunnel_mode m :
  valid_tunnel_mode m = true -> parses decode_tunnel_mode (mode_suffix m) m [].
Proof.
  intros Hm. unfold decode_tunnel_mode. eapply parses_bind; [apply parses_remaining|].
  unfold mode_suffix. case_decide as Ht; [subst; apply parses_ret|].
  rewrite Zlen_u8_bytes. cbv match beta. rewrite <- (app_nil_r (u8_bytes _)).
  eapply parses_bind; [by apply parses_u8, tunnel_mode_u8|].
  rewrite tunnel_mode_of_to_u8, Hm by done. rewrite bool_decide_false by done. apply parses_ret.
Qed.

Lemma emits_tunnel_mode m :
  valid_tunnel_mode m = true -> emits (encode_tunnel_mode m) (mode_suffix m).
Proof.
  intros Hm. unfold encode_tunnel_mode, mode_suffix. rewrite Hm. simpl.
  case_decide; [apply emits_ret|apply emits_u8].
Qed.

Lemma decode_tunnel_mode_inv r m r' :
  decode_tunnel_mode r = (Ok m, r') ->
  valid_tunnel_mode m = true /\ rest r = mode_suffix m ++ rest r'.
Proof.
  unfold decode_tunnel_mode. intros H. inv_reads; rewrite remaining_rest in *.
  - split; [done|]. unfold mode_suffix. rewrite decide_True by done. done.
  - rewrite orb_false_iff, negb_false_iff in *. destruct_and?. split; [done|].
    unfold mode_suffix. rewrite tunnel_mode_to_of_u8. case_bool_decide; [done|].
    by rewrite decide_False.
Qed.

(** ** REGISTER_TUNNEL *)

#[export] Instance register_tunnel_format : WireFormat RegisterTunnelMessage := {
  encode := encode_register_tunnel;
  decode := decode_register_tunnel;
  wf m := canonical tunnel (rt_tunnel_id m) /\
          rt_bind_host m <> [] /\ Zlen (rt_bind_host m) <= kMaxTunnelBindHostBytes /\
          is_text (rt_bind_host m) = true /\
          is_u16 (rt_bind_port m) /\ rt_bind_port m <> 0 /\
          is_u64 (rt_desired_revision m) /\ rt_desired_revision m <> 0 /\
          valid_tunnel_mode (rt_mode m) = true;
  image m := field (rt_tunnel_id m) ++ field (rt_bind_host m) ++ u16_bytes (rt_bind_port m) ++
             u64_bytes (rt_desired_revision m) ++ mode_suffix (rt_mode m)
}.

Lemma Zlen_mode_suffix m : Zlen (mode_suffix m) <= 1.
Proof. unfold mode_suffix. case_decide; [done|]. by rewrite Zlen_u8_bytes. Qed.

Lemma neq_eqb a b : a <> b -> (a =? b) = false.
Proof. apply Z.eqb_neq. Qed.

#[export] Instance register_tunnel_laws : WireFormatLaws RegisterTunnelMessage.
Proof.
  apply laws_intro; cbv [encode decode wf image register_tunnel_format].
  - intros [i h q v d] (Hi & _ & Hh & _). simpl in *. pose proof (Zlen_mode_suffix d). image_size.
  - intros m (Hi & Hn & Hl & Ht & Hp & Hp0 & Hr & Hr0 & Hm) Hb. unfold encode_register_tunnel.
    rewrite (proj2 (validate_tunnel_id_ok _) Hi), !neq_eqb, Hm by done.
    rewrite bool_decide_false by done.
    rewrite (proj2 (Z.ltb_ge _ _) Hl). simpl.
    eapply encode_intro; [emit; by apply emits_tunnel_mode|done|done].
  - intros [i h q v d] (Hi & Hn & Hl & Ht & Hp & Hp0 & Hr & Hr0 & Hm). simpl in *.
    unfold decode_register_tunnel. eapply parses_decode. parse.
    apply validate_tunnel_id_ok in Hi. rewrite Hi, !neq_eqb, bool_decide_false by done. parse1.
    simpl. eapply parses_bind; [by apply parses_tunnel_mode|]. parse.
  - intros p m H. apply decode_with_inv in H as (r' & H). inv_reads.
    apply decode_tunnel_mode_inv in Hm3 as [Hm Hrest]. apply validate_tunnel_id_ok in Hv. simpl.
    rewrite !orb_false_iff, bool_decide_eq_false, !Z.eqb_neq in *. destruct_and!.
    split; [done|]. chain_rest p.
Qed.

(** ** REGISTER_TUNNEL_OK, UNREGISTER_TUNNEL and UNREGISTER_TUNNEL_OK *)

Definition revision_image (tunnel_id : bytes) (revision : Z) : bytes :=
  field tunnel_id ++ u64_bytes revision.

Definition revision_wf (tunnel_id : bytes) (revision : Z) : Prop :=
  canonical tunnel tunnel_id /\ is_u64 revision /\ revision <> 0.

Lemma encode_tunnel_revision_image i v :
  revision_wf i v -> encode_tunnel_revision i v = Ok (revision_image i v).
Proof.
  intros (Hi & Hv & H0). unfold encode_tunnel_revision, revision_image.
  rewrite (proj2 (validate_tunnel_id_ok _) Hi). simpl. rewrite neq_eqb by done.
  eapply encode_intro; [emit|done|]. image_size.
Qed.

Lemma decode_tunnel_revision_image i v :
  revision_wf i v -> decode_tunnel_revision (revision_image i v) = Ok (i, v).
Proof.
  intros (Hi & Hv & H0). unfold decode_tunnel_revision, revision_image.
  rewrite <- (app_nil_r (u64_bytes v)). eapply parses_decode.
  parse1. apply validate_tunnel_id_ok in Hi as ->. parse. rewrite neq_eqb by done. parse.
Qed.

Lemma decode_tunnel_revision_inv p i v :
  decode_tunnel_revision p = Ok (i, v) -> revision_wf i v /\ p = revision_image i v.
Proof.
  intros H. apply decode_with_inv in H as (r' & H). inv_reads. simplify_eq.
  validated. unfold revision_wf, revision_image. split; [done|]. chain_rest p.
Qed.

Lemma revision_bound i v : revision_wf i v -> Zlen (revision_image i v) <= kMaxPayloadSize.
Proof. intros (Hi & _). unfold revision_image. image_size. Qed.

#[export] Instance register_tunnel_ok_format : WireFormat RegisterTunnelOkMessage := {
  encode := encode_register_tunnel_ok;
  decode := decode_register_tunnel_ok;
  wf m := revision_wf (rto_tunnel_id m) (rto_desired_revision m);
  image m := revision_image (rto_tunnel_id m) (rto_desired_revision m)
}.

#[export] Instance register_tunnel_ok_laws : WireFormatLaws RegisterTunnelOkMessage.
Proof.
  apply laws_intro; cbv [encode decode wf image register_tunnel_ok_format].
  - intros m. apply revision_bound.
  - intros m Hm _. by apply encode_tunnel_revision_image.
  - intros [i v] Hm. unfold decode_register_tunnel_ok.
    by rewrite decode_tunnel_revision_image.
  - intros p m H. unfold decode_register_tunnel_ok in H.
    destruct (decode_tunnel_revision p) as [[i v]|] eqn:E; [|done]. simpl in H. simplify_eq.
    by apply decode_tunnel_revision_inv.
Qed.

#[export] Instance unregister_tunnel_format : WireFormat UnregisterTunnelMessage := {
  encode := encode_unregister_tunnel;
  decode := decode_unregister_tunnel;
  wf m := revision_wf (ut_tunnel_id m) (ut_desired_revision m);
  image m := revision_image (ut_tunnel_id m) (ut_desired_revision m)
}.

#[export] Instance unregister_tunnel_laws : WireFormatLaws UnregisterTunnelMessage.
Proof.
  apply laws_intro; cbv [encode decode wf image unregister_tunnel_format].
  - intros m. apply revision_bound.
  - intros m Hm _. by apply encode_tunnel_revision_image.
  - intros [i v] Hm. unfold decode_unregister_tunnel.
    by rewrite decode_tunnel_revision_image.
  - intros p m H. unfold decode_unregister_tunnel in H.
    destruct (decode_tunnel_revision p) as [[i v]|] eqn:E; [|done]. simpl in H. simplify_eq.
    by apply decode_tunnel_revision_inv.
Qed.

(** ** REGISTER_TUNNEL_ERROR *)

#[export] Instance register_tunnel_error_format : WireFormat RegisterTunnelErrorMessage := {
  encode := encode_register_tunnel_error;
  decode := decode_register_tunnel_error;
  wf m := canonical tunnel (rte_tunnel_id m) /\ rte_code m <> ok /\
          is_u64 (rte_desired_revision m) /\ rte_desired_revision m <> 0;
  image m := field (rte_tunnel_id m) ++ field (error_code_to_string (rte_code m)) ++
             u64_bytes (rte_desired_revision m)
}.

#[export] Instance register_tunnel_error_laws : WireFormatLaws RegisterTunnelErrorMessage.
Proof.
  apply laws_intro; cbv [encode decode wf image register_tunnel_error_format].
  - intros [i c v] (Hi & _). simpl in *. image_size.
  - intros m (Hi & Hc & Hv & H0) Hb. unfold encode_register_tunnel_error.
    rewrite (proj2 (validate_tunnel_id_ok _) Hi), neq_eqb, bool_decide_false by done. simpl.
    eapply encode_intro; [emit|done|done].
  - intros [i c v] (Hi & Hc & Hv & H0). simpl in *. rewrite <- (app_nil_r (u64_bytes v)).
    unfold decode_register_tunnel_error. eapply parses_decode. parse.
    rewrite (proj2 (validate_tunnel_id_ok _) Hi), error_code_from_to_string, neq_eqb,
      bool_decide_false by done. simpl. parse.
  - intros p m H. apply decode_with_inv in H as (r' & H). inv_reads. validated. subst. simpl.
    split; [done|]. chain_rest p.
Qed.

(** ** REQUEST_WORKERS *)

#[export] Instance request_workers_format : WireFormat RequestWorkersMessage := {
  encode := encode_request_workers;
  decode := decode_request_workers;
  wf m := 1 <= count m <= 128;
  image m := u16_bytes (count m)
}.

#[export] Instance request_workers_laws : WireFormatLaws RequestWorkersMessage.
Proof.
  apply laws_intro; cbv [encode decode wf image request_workers_format].
  - intros m _. image_size.
  - intros m Hm Hb. unfold encode_request_workers.
    destruct (Z.eqb_spec (count m) 0), (Z.ltb_spec 128 (count m)); try lia.
    eapply encode_intro; [emit|done|done].
  - intros [v] Hm. simpl in *. rewrite <- (app_nil_r (u16_bytes v)).
    assert (is_u16 v) by (unfold is_uint; lia).
    unfold decode_request_workers. eapply parses_decode. parse1.
    destruct (Z.eqb_spec v 0), (Z.ltb_spec 128 v); try lia. parse.
  - intros p m H. apply decode_with_inv in H as (r' & H). inv_reads. simpl in *.
    unfold is_uint in *. split; [lia|]. chain_rest p.
Qed.

(** ** WORKER_HELLO *)

#[export] Instance worker_hello_format : WireFormat WorkerHelloMessage := {
  encode := encode_worker_hello;
  decode := decode_worker_hello;
  wf m := canonical client (wh_client_id m) /\ is_u64 (wh_session_generation m) /\
          wh_session_generation m <> 0 /\ canonical connection (wh_worker_id m) /\
          is_i64 (wh_timestamp_seconds m) /\ Zlen (wh_nonce m) = kAuthenticationNonceSize /\
          Zlen (wh_authentication_data m) = kAuthenticationDataSize;
  image m := field (wh_client_id m) ++ u64_bytes (wh_session_generation m) ++
             field (wh_worker_id m) ++ u64_bytes (u64_of_i64 (wh_timestamp_seconds m)) ++
             field (wh_nonce m) ++ field (wh_authentication_data m)
}.

#[export] Instance worker_hello_laws : WireFormatLaws WorkerHelloMessage.
Proof.
  apply laws_intro; cbv [encode decode wf image worker_hello_format].
  - intros [c g w t n d] (Hc & _ & _ & Hw & _ & Hn & Hd). simpl in *. image_size.
  - intros m (Hc & Hg & Hg0 & Hw & Ht & Hn & Hd) Hb. unfold encode_worker_hello.
    unfold kAuthenticationNonceSize, kAuthenticationDataSize in *.
    rewrite (proj2 (validate_client_id_ok _) Hc), (proj2 (validate_connection_id_ok _) Hw),
      neq_eqb by done.
    eapply encode_intro; [emit|done|done].
  - intros [c g w t n d] (Hc & Hg & Hg0 & Hw & Ht & Hn & Hd). simpl in *.
    rewrite <- (app_nil_r (field d)). unfold decode_worker_hello. eapply parses_decode. parse.
    rewrite (proj2 (validate_client_id_ok _) Hc), (proj2 (validate_connection_id_ok _) Hw),
      neq_eqb by done. simpl. parse. simpl. rewrite i64_of_u64_of_i64 by done. parse.
  - intros p m H. apply decode_with_inv in H as (r' & H). inv_reads. validated. simpl.
    split; [by auto 9 using i64_of_u64_range|]. rewrite u64_of_i64_of_u64 by done. chain_rest p.
Qed.

(** ** WORKER_ACCEPTED and LOCAL_CONNECT_OK *)

Lemma parses_connection_id_only msg i :
  canonical connection i -> parses (read_connection_id_only msg) (field i) i [].
Proof.
  intros Hi. rewrite <- (app_nil_r (field i)). unfold read_connection_id_only. parse1.
  rewrite (proj2 (validate_connection_id_ok _) Hi). simpl. parse.
Qed.

Lemma read_connection_id_only_inv msg r i r' :
  read_connection_id_only msg r = (Ok i, r') -> canonical connection i /\ rest r = field i.
Proof.
  unfold read_connection_id_only. intros H. inv_reads. validated. split; [done|].
  match goal with H : rest r = _ |- _ => rewrite H end.
  match goal with H : rest _ = [] |- _ => rewrite H end. apply app_nil_r.
Qed.

#[export] Instance worker_accepted_format : WireFormat WorkerAcceptedMessage := {
  encode := encode_worker_accepted;
  decode := decode_worker_accepted;
  wf m := canonical connection (wa_worker_id m);
  image m := field (wa_worker_id m)
}.

#[export] Instance worker_accepted_laws : WireFormatLaws WorkerAcceptedMessage.
Proof.
  apply laws_intro; cbv [encode decode wf image worker_accepted_format].
  - intros [i] Hi. simpl in *. image_size.
  - intros m Hi Hb. unfold encode_worker_accepted.
    rewrite (proj2 (validate_connection_id_ok _) Hi). eapply encode_intro; [emit|done|done].
  - intros [i] Hi. eapply parses_decode, parses_bind; [by apply parses_connection_id_only|].
    apply parses_ret.
  - intros p m H. apply decode_with_inv in H as (r' & H). inv_reads.
    by apply read_connection_id_only_inv in Hm as [Hc Hr].
Qed.

#[export] Instance local_connect_ok_format : WireFormat LocalConnectOkMessage := {
  encode := encode_local_connect_ok;
  decode := decode_local_connect_ok;
  wf m := canonical connection (lco_connection_id m);
  image m := field (lco_connection_id m)
}.

#[export] Instance local_connect_ok_laws : WireFormatLaws LocalConnectOkMessage.
Proof.
  apply laws_intro; cbv [encode decode wf image local_connect_ok_format].
  - intros [i] Hi. simpl in *. image_size.
  - intros m Hi Hb. unfold encode_local_connect_ok.
    rewrite (proj2 (validate_connection_id_ok _) Hi). eapply encode_intro; [emit|done|done].
  - intros [i] Hi. eapply parses_decode, parses_bind; [by apply parses_connection_id_only|].
    apply parses_ret.
  - intros p m H. apply decode_with_inv in H as (r' & H). inv_reads.
    by apply read_connection_id_only_inv in Hm as [Hc Hr].
Qed.

(** ** LOCAL_CONNECT_ERROR *)

#[export] Instance local_connect_error_format : WireFormat LocalConnectErrorMessage := {
  encode := encode_local_connect_error;
  decode := decode_local_connect_error;
  wf m := canonical connection (lce_connection_id m) /\ lce_code m <> ok;
  image m := field (lce_connection_id m) ++ field (error_code_to_string (lce_code m))
}.

#[export] Instance local_connect_error_laws : WireFormatLaws LocalConnectErrorMessage.
Proof.
  apply laws_intro; cbv [encode decode wf image local_connect_error_format].
  - intros [i c] (Hi & _). simpl in *. image_size.
  - intros m (Hi & Hc) Hb. unfold encode_local_connect_error.
    rewrite (proj2 (validate_connection_id_ok _) Hi), bool_decide_false by done. simpl.
    eapply encode_intro; [emit|done|done].
  - intros [i c] (Hi & Hc). simpl in *. rewrite <- (app_nil_r (field (error_code_to_string c))).
    unfold decode_local_connect_error. eapply parses_decode. parse1. parse1.
    rewrite error_code_from_to_string.
    rewrite (proj2 (validate_connection_id_ok _) Hi), bool_decide_false by done. simpl.
    parse.
  - intros p m H. apply decode_with_inv in H as (r' & H). inv_reads. validated. subst. simpl.
    split; [done|]. chain_rest p.
Qed.

(** ** START_RELAY

    The mode byte, the source endpoint and the observed worker host are optional
    trailing fields: TCP without a source is the empty suffix, and an observed
    host needs a source. *)
Section StartRelay.
Context `{AsioMakeAddress}.

Definition relay_host_wf (host : bytes) : Prop :=
  Zlen host <= kMaxTunnelBindHostBytes /\ is_text host = true /\ make_address_ok host = true.

Definition relay_source_wf (m : StartRelayMessage) : Prop :=
  match sr_source_host m, sr_source_port m with
  | Some host, Some port =>
      relay_host_wf host /\ is_u16 port /\ port <> 0 /\
      match sr_worker_observed_host m with Some o => relay_host_wf o | None => True end
  | None, None => sr_worker_observed_host m = None
  | _, _ => False
  end.

Definition relay_suffix (m : StartRelayMessage) : bytes :=
  match sr_source_host m, sr_source_port m with
  | Some host, Some port =>
      u8_bytes (tunnel_mode_to_u8 (sr_mode m)) ++ field host ++ u16_bytes port ++
      match sr_worker_observed_host m with Some o => field o | None => [] end
  | _, _ => mode_suffix (sr_mode m)
  end.

#[export] Instance start_relay_format : WireFormat StartRelayMessage := {
  encode := encode_start_relay;
  decode := decode_start_relay;
  wf m := canonical tunnel (sr_tunnel_id m) /\ canonical connection (sr_connection_id m) /\
          valid_tunnel_mode (sr_mode m) = true /\ relay_source_wf m;
  image m := field (sr_tunnel_id m) ++ field (sr_connection_id m) ++ relay_suffix m
}.

Lemma relay_suffix_bound m : relay_source_wf m -> Zlen (relay_suffix m) <= 515.
Proof.
  unfold relay_source_wf, relay_suffix, relay_host_wf.
  destruct m as [i c d [h|] [q|] o]; simpl; try done; pose proof (Zlen_mode_suffix d);
    [|lia]. intros ((Hh & _) & _ & _ & Ho).
  destruct o; destruct_and?; image_size. change (Zlen []) with 0. lia.
Qed.

(** *** The decoder's optional suffix *)

Lemma Zlen_field_app_pos v s : (Zlen (field v ++ s) =? 0) = false.
Proof.
  rewrite Zlen_app, Zlen_field. pose proof (Zlen_nonneg v). pose proof (Zlen_nonneg s). lia.
Qed.

Lemma parses_relay_observed o :
  match o with Some o => relay_host_wf o | None => True end ->
  parses read_start_relay_observed (match o with Some o => field o | None => [] end) o [].
Proof.
  intros Ho. unfold read_start_relay_observed. eapply parses_bind; [apply parses_remaining|].
  destruct o as [o|]; [|apply parses_ret]. destruct Ho as (Hl & Ht & Ha).
  rewrite <- (app_nil_r (field o)), Zlen_field_app_pos. parse1. rewrite Ha. apply parses_ret.
Qed.

Lemma parses_relay_source h q s :
  relay_host_wf h -> is_u16 q -> q <> 0 ->
  parses read_start_relay_source (field h ++ u16_bytes q ++ s) (Some (h, q)) s.
Proof.
  intros (Hl & Ht & Ha) Hq H0. unfold read_start_relay_source.
  eapply parses_bind; [apply parses_remaining|]. rewrite Zlen_field_app_pos. parse1. parse1.
  rewrite neq_eqb, Ha by done. apply parses_ret.
Qed.

Lemma parses_relay_source_none : parses read_start_relay_source [] None [].
Proof. eapply parses_bind; [apply parses_remaining|apply parses_ret]. Qed.

Lemma parses_relay_mode_explicit d s :
  valid_tunnel_mode d = true -> (d = tcp -> s <> []) ->
  parses read_start_relay_mode (u8_bytes (tunnel_mode_to_u8 d) ++ s) d s.
Proof.
  intros Hd Hs. unfold read_start_relay_mode.
  eapply parses_bind; [apply parses_remaining|].
  rewrite Zlen_app, Zlen_u8_bytes. pose proof (Zlen_nonneg s).
  destruct (Z.eqb_spec (1 + Zlen s) 0); [lia|].
  pose proof (tunnel_mode_u8 d Hd). parse1. rewrite tunnel_mode_of_to_u8, Hd by done.
  eapply parses_bind; [apply parses_remaining|].
  case_bool_decide as Ht; [|apply parses_ret].
  destruct (Zlen s =? 0) eqn:E; [|apply parses_ret]. by apply Zlen_rest_0, Hs in E.
Qed.

Lemma parses_relay_mode_suffix d :
  valid_tunnel_mode d = true -> parses read_start_relay_mode (mode_suffix d) d [].
Proof.
  intros Hd. unfold mode_suffix. case_decide as Ht.
  - subst. eapply parses_bind; [apply parses_remaining|apply parses_ret].
  - rewrite <- (app_nil_r (u8_bytes _)). by apply parses_relay_mode_explicit.
Qed.

Lemma read_relay_mode_inv r d r' :
  read_start_relay_mode r = (Ok d, r') ->
  valid_tunnel_mode d = true /\
  (d = tcp /\ rest r = [] /\ r' = r \/
   rest r = u8_bytes (tunnel_mode_to_u8 d) ++ rest r' /\ (d = tcp -> rest r' <> [])).
Proof.
  unfold read_start_relay_mode. intros H1. inv_reads; rewrite remaining_rest in *.
  - split; [done|]. left. eauto using Zlen_rest_0.
  - rewrite negb_false_iff in *. split; [done|]. right. rewrite tunnel_mode_to_of_u8.
    split; [done|]. intros Ht Hr. rewrite Hr, bool_decide_true in * by done. done.
Qed.

Lemma read_relay_source_inv r o r' :
  read_start_relay_source r = (Ok o, r') ->
  match o with
  | None => rest r = [] /\ r' = r
  | Some (h, q) => relay_host_wf h /\ is_u16 q /\ q <> 0 /\
      rest r = field h ++ u16_bytes q ++ rest r'
  end.
Proof.
  unfold read_start_relay_source. intros H1. inv_reads; rewrite ?remaining_rest in *.
  - eauto using Zlen_rest_0.
  - validated. unfold relay_host_wf. split_and!; try done.
    repeat match goal with E : rest _ = _ |- _ => rewrite E; clear E end. done.
Qed.

Lemma read_relay_observed_inv r o r' :
  read_start_relay_observed r = (Ok o, r') ->
  match o with
  | None => rest r = [] /\ r' = r
  | Some h => relay_host_wf h /\ rest r = field h ++ rest r'
  end.
Proof.
  unfold read_start_relay_observed. intros H1. inv_reads; rewrite ?remaining_rest in *.
  - eauto using Zlen_rest_0.
  - validated. unfold relay_host_wf. by split_and!.
Qed.

Lemma parses_relay_suffix {A} (k : TunnelMode -> option (bytes * Z) -> option bytes -> Reader A)
    m a :
  valid_tunnel_mode (sr_mode m) = true -> relay_source_wf m ->
  parses (k (sr_mode m) (h ← sr_source_host m; q ← sr_source_port m; Some (h, q))
            (sr_worker_observed_host m)) [] a [] ->
  parses (mode ← read_start_relay_mode;
          source ← read_start_relay_source;
          observed ← read_start_relay_observed;
          k mode source observed) (relay_suffix m) a [].
Proof.
  unfold relay_source_wf, relay_suffix.
  destruct m as [i c d [h|] [q|] o]; simpl; intros Hd Hs Hk; try done.
  - destruct Hs as (Hh & Hq & H0 & Ho).
    eapply parses_bind; [apply parses_relay_mode_explicit; [done|]|].
    { intros _ E. pose proof (Zlen_field_app_pos h (u16_bytes q ++
        match o with Some o0 => field o0 | None => [] end)) as Hp. by rewrite E in Hp. }
    eapply parses_bind; [by apply parses_relay_source|].
    eapply parses_bind; [by apply parses_relay_observed|done].
  - subst. eapply parses_bind; [by apply parses_relay_mode_suffix|].
    eapply parses_bind; [apply parses_relay_source_none|].
    eapply parses_bind; [by apply (parses_relay_observed None)|done].
Qed.

Lemma emits_relay_suffix m :
  valid_tunnel_mode (sr_mode m) = true -> relay_source_wf m -> exists w,
  emits w (relay_suffix m) /\
  encode_start_relay m =
    if negb (is_ok (validate_tunnel_id (sr_tunnel_id m)))
       || negb (is_ok (validate_connection_id (sr_connection_id m))) then
      failure protocol_error "START_RELAY identity is invalid"
    else encode_with (write_string (sr_tunnel_id m);; write_string (sr_connection_id m);; w).
Proof.
  unfold relay_source_wf, relay_suffix, encode_start_relay.
  destruct m as [i c d [h|] [q|] o]; simpl; intros Hd Hs; try done; rewrite Hd;
    rewrite orb_false_r; eexists; (split; [|reflexivity]); simpl.
  - destruct Hs as ((Hl & Ht & _) & Hq & H0 & Ho). unfold kMaxTunnelBindHostBytes in *.
    rewrite andb_false_r.
    emit. destruct o as [o|]; [|apply emits_ret]. destruct Ho as (? & ? & _).
    unfold kMaxTunnelBindHostBytes in *. emit.
  - subst. simpl. by apply emits_tunnel_mode.
Qed.

Lemma relay_suffix_inv i c r0 r1 r2 r3 d src o :
  read_start_relay_mode r0 = (Ok d, r1) ->
  read_start_relay_source r1 = (Ok src, r2) ->
  read_start_relay_observed r2 = (Ok o, r3) -> rest r3 = [] ->
  let m := mkStartRelay i c d (fst <$> src) (snd <$> src) o in
  valid_tunnel_mode d = true /\ relay_source_wf m /\ rest r0 = relay_suffix m.
Proof.
  intros (Hd & Hmode)%read_relay_mode_inv Hs%read_relay_source_inv Ho%read_relay_observed_inv He.
  unfold relay_source_wf, relay_suffix. simpl. split; [done|].
  destruct src as [[h q]|]; simpl.
  - destruct Hs as (Hh & Hq & H0 & Hr1). destruct Hmode as [(_ & E & ->)|[Hr0 _]].
    { exfalso. pose proof (Zlen_field_app_pos h (u16_bytes q ++ rest r2)) as Hp.
      by rewrite <- Hr1, E in Hp. }
    destruct o as [o|].
    + destruct Ho as (Ho & Hr2). rewrite Hr0, Hr1, Hr2, He, app_nil_r. by split_and!.
    + destruct Ho as (Hr2 & ->). rewrite Hr0, Hr1, Hr2. by split_and!.
  - destruct Hs as (Hr1 & ->). destruct o as [o|].
    { exfalso. destruct Ho as (_ & Hr2). rewrite Hr1 in Hr2.
      pose proof (Zlen_field_app_pos o (rest r3)) as Hp. by rewrite <- Hr2 in Hp. }
    split; [done|]. unfold mode_suffix.
    destruct Hmode as [(-> & Hr0 & _)|[Hr0 Hne]]; [by rewrite Hr0|].
    rewrite Hr0, Hr1, app_nil_r. case_decide; [|done]. exfalso. by apply Hne.
Qed.

#[export] Instance start_relay_laws : WireFormatLaws StartRelayMessage.
Proof.
  apply laws_intro; cbv [encode decode wf image start_relay_format].
  - intros m (Hi & Hc & _ & Hs). pose proof (relay_suffix_bound m Hs). image_size.
  - intros m (Hi & Hc & Hd & Hs) Hb. destruct (emits_relay_suffix m Hd Hs) as (w & Hw & ->).
    rewrite (proj2 (validate_tunnel_id_ok _) Hi), (proj2 (validate_connection_id_ok _) Hc).
    eapply encode_intro; [emit; exact Hw|done|done].
  - intros m (Hi & Hc & Hd & Hs). unfold decode_start_relay. eapply parses_decode.
    parse1. parse1.
    rewrite (proj2 (validate_tunnel_id_ok _) Hi), (proj2 (validate_connection_id_ok _) Hc).
    simpl. apply parses_relay_suffix; [done..|]. parse1.
    replace (mkStartRelay _ _ _ _ _ _) with m; [by parse|].
    revert Hs. unfold relay_source_wf.
    by destruct m as [i c d [h|] [q|] o]; simpl; intros.
  - intros p m H1. apply decode_with_inv in H1 as (r' & H1). inv_reads. validated.
    destruct (relay_suffix_inv a a0 _ _ _ _ _ _ _ Hm1 Hm2 Hm3) as (Hd & Hs & Hr); [done|].
    split; [done|]. cbn [sr_tunnel_id sr_connection_id]. chain_rest p.
Qed.
End StartRelay.
