(* ===== verification/Stream.v ===== *)
(** * Incremental stream decoders

    The remote and the IPC frame decoders (src/protocol/frame.cpp,
    src/ipc/frame.cpp) consume a byte stream in arbitrary pieces with the same
    loop.  This file holds the loop, the interface [StreamDecoder] a decoder
    offers, and what follows from its laws: the loop ends, and the frames a stream
    yields are those a reference splitter finds in the concatenated bytes. *)
From S2P Require Import Prelude Common.

(** The first frame of a complete byte string. *)
Inductive parse_step (F : Type) : Type :=
| need_more
| bad (e : Error)
| got (frame : F) (remainder : bytes).
Arguments need_more {F}.
Arguments bad {F} e.
Arguments got {F} frame remainder.

(** [while (offset < bytes.size())] on the unread bytes [input]; [iteration] is the
    loop body, and [None] is fuel running out. *)
Fixpoint feed_loop {D F} (iteration : D -> bytes -> Result (option F * bytes) * D)
    (fuel : nat) (d : D) (input : bytes) (frames : list F) : option (Result (list F) * D) :=
  match input with
  | [] => Some (Ok frames, d)
  | _ :: _ =>
      match fuel with
      | O => None
      | S fuel =>
          match iteration d input with
          | (Err e, d) => Some (Err e, d)
          | (Ok (pushed, input), d) =>
              feed_loop iteration fuel d input
                (frames ++ match pushed with Some f => [f] | None => [] end)
          end
      end
  end.

(** A connection that feeds what it receives until the decoder fails. *)
Fixpoint feed_all {D F} (feed : D -> bytes -> option (Result (list F) * D)) (d : D)
    (chunks : list bytes) : option (Result (list F) * D) :=
  match chunks with
  | [] => Some (Ok [], d)
  | c :: chunks =>
      match feed d c with
      | Some (Ok frames, d) =>
          match feed_all feed d chunks with
          | Some (Ok more, d) => Some (Ok (frames ++ more), d)
          | other => other
          end
      | other => other
      end
  end.

(** ** The reference splitter *)

Section Splits.
Context {F : Type} (next : bytes -> parse_step F).

(** All frames of a string and its unfinished rest. *)
Inductive splits : bytes -> list F -> bytes -> Prop :=
| splits_done s : next s = need_more -> splits s [] s
| splits_frame s f s' fs r : next s = got f s' -> splits s' fs r -> splits s (f :: fs) r.

(** The frames before the first error, and the error. *)
Inductive splits_bad : bytes -> list F -> Error -> Prop :=
| splits_bad_now s e : next s = bad e -> splits_bad s [] e
| splits_bad_later s f s' fs e :
    next s = got f s' -> splits_bad s' fs e -> splits_bad s (f :: fs) e.

(** A step looks only at the bytes it needs. *)
Definition extensible : Prop := forall s t,
  next (s ++ t) =
    match next s with
    | need_more => next (s ++ t)
    | bad e => bad e
    | got f s' => got f (s' ++ t)
    end.

Lemma splits_app s fs r t fs' r' :
  extensible -> splits s fs r -> splits (r ++ t) fs' r' -> splits (s ++ t) (fs ++ fs') r'.
Proof.
  intros He. induction 1 as [s Hs|s f s' fs r Hs _ IH]; intros Ht; [done|]. simpl.
  apply (splits_frame _ _ (s' ++ t)); [|by apply IH]. by rewrite He, Hs.
Qed.

Lemma splits_bad_app s fs r t fs' e :
  extensible -> splits s fs r -> splits_bad (r ++ t) fs' e ->
  splits_bad (s ++ t) (fs ++ fs') e.
Proof.
  intros He. induction 1 as [s Hs|s f s' fs r Hs _ IH]; intros Ht; [done|]. simpl.
  apply (splits_bad_later _ _ (s' ++ t)); [|by apply IH]. by rewrite He, Hs.
Qed.

Lemma splits_bad_more s fs e t :
  extensible -> splits_bad s fs e -> splits_bad (s ++ t) fs e.
Proof.
  intros He. induction 1 as [s e Hs|s f s' fs e Hs _ IH].
  - apply splits_bad_now. by rewrite He, Hs.
  - apply (splits_bad_later _ _ (s' ++ t)); [|done]. by rewrite He, Hs.
Qed.

Lemma splits_det s fs r fs' r' : splits s fs r -> splits s fs' r' -> fs = fs' /\ r = r'.
Proof.
  intros H. revert fs' r'. induction H as [s Hs|s f s' fs r Hs _ IH]; intros fs' r' H'.
  - inversion H'; [done|congruence].
  - inversion H' as [|? f2 s2 fs2 r2 E2 H2]; [congruence|]. simplify_eq.
    rewrite Hs in E2. simplify_eq. apply IH in H2 as [-> ->]. done.
Qed.

Lemma splits_not_bad s fs r fs' e : splits s fs r -> splits_bad s fs' e -> False.
Proof.
  intros H. revert fs'. induction H as [s Hs|s f s' fs r Hs _ IH]; intros fs' H'.
  - inversion H'; congruence.
  - inversion H' as [|? f2 s2 fs2 r2 E2 H2]; [congruence|]. simplify_eq.
    rewrite Hs in E2. simplify_eq. by apply IH in H2.
Qed.

Lemma splits_bad_det s fs e fs' e' : splits_bad s fs e -> splits_bad s fs' e' -> e = e'.
Proof.
  intros H. revert fs'. induction H as [s e Hs|s f s' fs e Hs _ IH]; intros fs' H'.
  - inversion H'; congruence.
  - inversion H' as [|? f2 s2 fs2 ? E2 H2]; [congruence|]. simplify_eq.
    rewrite Hs in E2. simplify_eq. by apply IH in H2.
Qed.
End Splits.

(** ** The interface of a decoder *)

Class StreamDecoder (D F : Type) := {
  sd_iteration : D -> bytes -> Result (option F * bytes) * D;  (** the body of the loop *)
  sd_failed : D -> bool;
  sd_failure : D -> Error;                (** what a failed decoder reports *)
  sd_limit : D -> Z;
  sd_next : Z -> bytes -> parse_step F;   (** the reference, for a size limit *)
  sd_wf : D -> Prop;                      (** the invariant *)
  sd_pending : D -> bytes                 (** the bytes of the unfinished frame *)
}.

(** [iteration] takes one step of the reference on the bytes held back and the
    unread ones. *)
Definition simulates {D F} `{StreamDecoder D F} (d : D) (input : bytes)
    (r : Result (option F * bytes) * D) : Prop :=
  match sd_next (sd_limit d) (sd_pending d ++ input) with
  | need_more => exists d', r = (Ok (None, []), d') /\ sd_wf d' /\ sd_failed d' = false /\
      sd_limit d' = sd_limit d /\ sd_pending d' = sd_pending d ++ input
  | bad e => exists d', r = (Err e, d') /\ sd_wf d' /\ sd_failed d' = true /\
      sd_limit d' = sd_limit d /\ code (sd_failure d') = code e
  | got f rest => exists d', r = (Ok (Some f, rest), d') /\ sd_wf d' /\ sd_failed d' = false /\
      sd_limit d' = sd_limit d /\ sd_pending d' = []
  end.

Class StreamDecoderLaws (D F : Type) `{StreamDecoder D F} : Prop := {
  sd_extensible limit : extensible (sd_next limit);
  sd_got limit s f s' : sd_next limit s = got f s' ->
    exists hd, s = hd ++ s' /\ sd_next limit hd = got f [];
  sd_incomplete d : sd_wf d -> sd_next (sd_limit d) (sd_pending d) = need_more;
  sd_simulates d input :
    sd_wf d -> sd_failed d = false -> simulates d input (sd_iteration d input)
}.

Section Decoder.
Context {D F : Type} `{StreamDecoderLaws D F}.

(** [feed]: a failed decoder reports its failure, any other runs the loop. *)
Definition sd_feed (d : D) (input : bytes) : option (Result (list F) * D) :=
  if sd_failed d then Some (Err (sd_failure d), d)
  else feed_loop sd_iteration (length input) d input [].

(** What a run of the decoder on [s] (bytes held back and new bytes) produces. *)
Definition run_spec (limit : Z) (s : bytes) (r : Result (list F)) (d' : D) : Prop :=
  sd_wf d' /\ sd_limit d' = limit /\
  match r with
  | Ok fs => sd_failed d' = false /\ splits (sd_next limit) s fs (sd_pending d')
  | Err e => sd_failed d' = true /\ code (sd_failure d') = code e /\
             exists fs, splits_bad (sd_next limit) s fs e
  end.

Lemma run_spec_idle d :
  sd_wf d -> sd_failed d = false -> run_spec (sd_limit d) (sd_pending d) (Ok []) d.
Proof. intros Hd Hf. split_and!; try done. by apply splits_done, sd_incomplete. Qed.

(** Each step of the reference consumes new bytes. *)
Lemma got_consumes limit s t f s' :
  sd_next limit s = need_more -> sd_next limit (s ++ t) = got f s' ->
  (length s' < length t)%nat.
Proof.
  intros Hs Hg. destruct (sd_got _ _ _ _ Hg) as (hd & E & Hhd).
  assert (length s < length hd)%nat.
  { destruct (decide (length s < length hd)%nat) as [|Hn]; [done|exfalso].
    assert (s = hd ++ drop (length hd) s) as Es.
    { rewrite <- (take_drop (length hd) s) at 1. f_equal.
      rewrite <- (take_app_le s t) by lia. rewrite E. by rewrite take_app_length. }
    by rewrite Es, sd_extensible, Hhd in Hs. }
  apply (f_equal length) in E. rewrite !length_app in E. lia.
Qed.

Lemma feed_loop_spec fuel d input frames :
  sd_wf d -> sd_failed d = false -> (length input <= fuel)%nat ->
  exists r d', feed_loop sd_iteration fuel d input frames =
      Some ((fun fs => frames ++ fs) <$> r, d') /\
    run_spec (sd_limit d) (sd_pending d ++ input) r d'.
Proof.
  revert d input frames. induction fuel as [|fuel IH]; intros d input frames Hd Hf Hlen;
    (destruct input as [|b input']; [exists (Ok []), d; rewrite app_nil_r; simpl;
       rewrite app_nil_r; split; [done|by apply run_spec_idle]|]); [simpl in Hlen; lia|].
  set (input := b :: input') in *. pose proof (sd_simulates d input Hd Hf) as Hs.
  pose proof (sd_incomplete d Hd) as Hp.
  unfold simulates in Hs. cbn [feed_loop]. unfold input at 1. cbv iota beta.
  destruct (sd_next (sd_limit d) (sd_pending d ++ input)) as [|e|f rest] eqn:E.
  - destruct Hs as (d' & -> & Hw & Hf' & Hm & Hp'). exists (Ok []), d'. simpl.
    split; [by destruct fuel; rewrite app_nil_r|]. unfold run_spec. split_and!; try done.
    rewrite Hp'. by apply splits_done.
  - destruct Hs as (d' & -> & Hw & Hf' & Hm & Hc). exists (Err e), d'. split; [done|].
    unfold run_spec. split_and!; try done. exists []. by apply splits_bad_now.
  - destruct Hs as (d' & -> & Hw & Hf' & Hm & Hp').
    pose proof (got_consumes _ _ _ _ _ Hp E).
    destruct (IH d' rest (frames ++ [f]) Hw Hf' ltac:(lia)) as (r & d2 & -> & Hw2 & Hm2 & Hr).
    rewrite Hp', Hm in *. simpl in Hr.
    exists ((fun fs => f :: fs) <$> r), d2. split.
    { do 2 f_equal. destruct r; simpl; [|done]. by rewrite <- app_assoc. }
    unfold run_spec. split_and!; try done. destruct r as [fs|e]; simpl.
    + destruct Hr. split; [done|]. by eapply splits_frame.
    + destruct Hr as (? & ? & fs & ?). split_and!; try done. exists (f :: fs).
      by eapply splits_bad_later.
Qed.

Lemma sd_feed_spec d input :
  sd_wf d -> sd_failed d = false -> exists r d', sd_feed d input = Some (r, d') /\
    run_spec (sd_limit d) (sd_pending d ++ input) r d'.
Proof.
  intros Hd Hf. unfold sd_feed. rewrite Hf.
  destruct (feed_loop_spec (length input) d input [] Hd Hf ltac:(lia)) as (r & d' & -> & Hr).
  exists r, d'. split; [|done]. by destruct r.
Qed.

Lemma feed_all_spec d chunks :
  sd_wf d -> sd_failed d = false -> exists r d', feed_all sd_feed d chunks = Some (r, d') /\
    run_spec (sd_limit d) (sd_pending d ++ concat chunks) r d'.
Proof.
  revert d. induction chunks as [|c chunks IH]; intros d Hd Hf; simpl.
  { exists (Ok []), d. rewrite app_nil_r. split; [done|]. by apply run_spec_idle. }
  destruct (sd_feed_spec d c Hd Hf) as (r & d1 & -> & Hw1 & Hm1 & Hr).
  destruct r as [fs|e]; rewrite app_assoc.
  - destruct Hr as [Hf1 Hs]. destruct (IH d1 Hw1 Hf1) as (r2 & d2 & -> & Hw2 & Hm2 & Hr2).
    rewrite Hm1 in *. destruct r2 as [fs2|e].
    + exists (Ok (fs ++ fs2)), d2. destruct Hr2. unfold run_spec. split_and!; try done.
      eapply splits_app; [apply sd_extensible|done..].
    + exists (Err e), d2. destruct Hr2 as (? & ? & fs2 & ?).
      unfold run_spec. split_and!; try done.
      exists (fs ++ fs2). eapply splits_bad_app; [apply sd_extensible|done..].
  - exists (Err e), d1. destruct Hr as (? & ? & fs & ?). unfold run_spec. split_and!; try done.
    exists fs. apply splits_bad_more; [apply sd_extensible|done].
Qed.

(** The outcome of a run is a function of the bytes. *)
Lemma run_spec_det limit s r1 d1 r2 d2 :
  run_spec limit s r1 d1 -> run_spec limit s r2 d2 -> r1 = r2.
Proof.
  intros (_ & _ & H1) (_ & _ & H2). destruct r1 as [fs1|e1], r2 as [fs2|e2].
  - destruct H1 as [_ H1], H2 as [_ H2]. by destruct (splits_det _ _ _ _ _ _ H1 H2) as [-> _].
  - exfalso. destruct H1 as [_ H1], H2 as (_ & _ & fs & H2). by eapply splits_not_bad.
  - exfalso. destruct H2 as [_ H2], H1 as (_ & _ & fs & H1). by eapply splits_not_bad.
  - destruct H1 as (_ & _ & f1 & H1), H2 as (_ & _ & f2 & H2).
    by rewrite (splits_bad_det _ _ _ _ _ _ H1 H2).
Qed.

Lemma feed_all_bytes d1 d2 chunks1 chunks2 :
  sd_wf d1 -> sd_wf d2 -> sd_failed d1 = false -> sd_failed d2 = false ->
  sd_limit d1 = sd_limit d2 ->
  sd_pending d1 ++ concat chunks1 = sd_pending d2 ++ concat chunks2 ->
  fst <$> feed_all sd_feed d1 chunks1 = fst <$> feed_all sd_feed d2 chunks2.
Proof.
  intros Hw1 Hw2 Hf1 Hf2 Hm Hc.
  destruct (feed_all_spec d1 chunks1 Hw1 Hf1) as (r1 & d1' & -> & H1).
  destruct (feed_all_spec d2 chunks2 Hw2 Hf2) as (r2 & d2' & -> & H2).
  rewrite Hm, Hc in H1. by rewrite (run_spec_det _ _ _ _ _ _ H1 H2).
Qed.

Lemma sd_feed_failed d input e d' :
  sd_wf d -> sd_feed d input = Some (Err e, d') ->
  sd_wf d' /\ sd_limit d' = sd_limit d /\ sd_failed d' = true /\
  code (sd_failure d') = code e.
Proof.
  intros Hw E. destruct (sd_failed d) eqn:Hf.
  - unfold sd_feed in E. rewrite Hf in E. by simplify_eq.
  - destruct (sd_feed_spec d input Hw Hf) as (r2 & d2 & E2 & Hw2 & Hm2 & Hr).
    rewrite E in E2. simplify_eq. destruct Hr as (? & ? & _). done.
Qed.

Lemma sd_feed_wf d input r d' :
  sd_wf d -> sd_feed d input = Some (r, d') -> sd_wf d' /\ sd_limit d' = sd_limit d.
Proof.
  intros Hw E. destruct (sd_failed d) eqn:Hf.
  - unfold sd_feed in E. rewrite Hf in E. by simplify_eq.
  - destruct (sd_feed_spec d input Hw Hf) as (r2 & d2 & E2 & Hw2 & Hm2 & _).
    rewrite E in E2. by simplify_eq.
Qed.
End Decoder.
