(* ===== verification/Frame.v ===== *)
(** * Remote frames (src/protocol/frame.cpp, include/minitun/protocol/frame.hpp)

    The 24-byte frame header, the frame encoder and the incremental
    [FrameDecoder].  The decoder is compared with [next_frame], which reads one
    frame from a complete byte string. *)
From S2P Require Import Prelude Common Codec Stream.

Definition kFrameMagic : Z := 0x4D54554E.
Definition kProtocolVersion : Z := 2.

(** ** Message types *)

(** [enum class MessageType : std::uint16_t]; [unlisted_type] is a cast of a value
    that no enumerator has. *)
Inductive MessageType : Set :=
| hello | hello_ack | auth | auth_ok | auth_error
| register_tunnel | register_tunnel_ok | register_tunnel_error
| unregister_tunnel | unregister_tunnel_ok
| request_workers | ping | pong | goaway | error
| worker_hello | worker_accepted | start_relay | local_connect_ok | local_connect_error
| unlisted_type (value : Z).

#[export] Instance MessageType_eq_decision : EqDecision MessageType.
Proof. solve_decision. Defined.

(** [static_cast<std::uint16_t>]. *)
Definition message_type_to_wire (t : MessageType) : Z :=
  match t with
  | hello => 1 | hello_ack => 2 | auth => 3 | auth_ok => 4 | auth_error => 5
  | register_tunnel => 6 | register_tunnel_ok => 7 | register_tunnel_error => 8
  | unregister_tunnel => 9 | unregister_tunnel_ok => 10
  | request_workers => 11 | ping => 12 | pong => 13 | goaway => 14 | error => 15
  | worker_hello => 0x0100 | worker_accepted => 0x0101 | start_relay => 0x0102
  | local_connect_ok => 0x0103 | local_connect_error => 0x0104
  | unlisted_type value => value
  end.

(** [to_string(MessageType)]. *)
Definition message_type_to_string (t : MessageType) : string :=
  match t with
  | hello => "HELLO" | hello_ack => "HELLO_ACK" | auth => "AUTH" | auth_ok => "AUTH_OK"
  | auth_error => "AUTH_ERROR" | register_tunnel => "REGISTER_TUNNEL"
  | register_tunnel_ok => "REGISTER_TUNNEL_OK"
  | register_tunnel_error => "REGISTER_TUNNEL_ERROR"
  | unregister_tunnel => "UNREGISTER_TUNNEL" | unregister_tunnel_ok => "UNREGISTER_TUNNEL_OK"
  | request_workers => "REQUEST_WORKERS" | ping => "PING" | pong => "PONG"
  | goaway => "GOAWAY" | error => "ERROR" | worker_hello => "WORKER_HELLO"
  | worker_accepted => "WORKER_ACCEPTED" | start_relay => "START_RELAY"
  | local_connect_ok => "LOCAL_CONNECT_OK" | local_connect_error => "LOCAL_CONNECT_ERROR"
  | unlisted_type _ => "UNKNOWN"
  end.

(** [message_type_from_wire]: the cases of its switch, in order. *)
Definition kMessageTypes : list MessageType :=
  [hello; hello_ack; auth; auth_ok; auth_error; register_tunnel; register_tunnel_ok;
   register_tunnel_error; unregister_tunnel; unregister_tunnel_ok; request_workers; ping; pong;
   goaway; error; worker_hello; worker_accepted; start_relay; local_connect_ok;
   local_connect_error].

Definition message_type_from_wire (value : Z) : option MessageType :=
  find (fun t => message_type_to_wire t =? value) kMessageTypes.

Definition is_control_message (t : MessageType) : bool :=
  let value := message_type_to_wire t in
  (message_type_to_wire hello <=? value) && (value <=? message_type_to_wire error).

Definition is_worker_message (t : MessageType) : bool :=
  let value := message_type_to_wire t in
  (message_type_to_wire worker_hello <=? value)
  && (value <=? message_type_to_wire local_connect_error).

(** ** Frames *)

Record Frame : Set := mkFrame {
  type : MessageType;
  flags : Z;
  request_id : Z;
  payload : bytes
}.

(** [effective_frame_limit]: [std::clamp(requested, kFrameHeaderSize, kMaxFrameSize)]. *)
Definition effective_frame_limit (requested : Z) : Z :=
  if requested <? kFrameHeaderSize then kFrameHeaderSize
  else if kMaxFrameSize <? requested then kMaxFrameSize else requested.

(** [read_u16], [read_u32] and [read_u64] at [input + k]. *)
Definition byte_in (input : bytes) (k : nat) : Z := Z_of_byte (nth k input Byte.x00).

Definition read_u16_at (input : bytes) (k : nat) : Z :=
  Z.lor (Z.shiftl (byte_in input k) 8) (byte_in input (k + 1)).

Definition read_u32_at (input : bytes) (k : nat) : Z :=
  Z.lor (Z.lor (Z.lor (Z.shiftl (byte_in input k) 24) (Z.shiftl (byte_in input (k + 1)) 16))
               (Z.shiftl (byte_in input (k + 2)) 8)) (byte_in input (k + 3)).

Definition read_u64_at (input : bytes) (k : nat) : Z :=
  Z.lor (Z.lor (Z.lor (Z.lor (Z.lor (Z.lor (Z.lor
    (Z.shiftl (byte_in input k) 56) (Z.shiftl (byte_in input (k + 1)) 48))
    (Z.shiftl (byte_in input (k + 2)) 40)) (Z.shiftl (byte_in input (k + 3)) 32))
    (Z.shiftl (byte_in input (k + 4)) 24)) (Z.shiftl (byte_in input (k + 5)) 16))
    (Z.shiftl (byte_in input (k + 6)) 8)) (byte_in input (k + 7)).

(** [encode_frame]; allocation does not fail. *)
Definition encode_frame (frame : Frame) (max_frame_size : Z) : Result bytes :=
  let wire_type := message_type_to_wire (type frame) in
  if bool_decide (message_type_from_wire wire_type = None) then
    failure protocol_error "remote frame message type is invalid"
  else if negb (flags frame =? 0) then
    failure protocol_error "remote frame contains unsupported flags"
  else
    let limit := effective_frame_limit max_frame_size in
    if (limit - kFrameHeaderSize <? Zlen (payload frame))
       || (4294967295 <? Zlen (payload frame)) then
      failure frame_too_large "remote frame exceeds the configured size limit"
    else
      Ok (u32_bytes kFrameMagic ++ u16_bytes kProtocolVersion ++ u16_bytes wire_type ++
          u32_bytes (flags frame) ++ u32_bytes (Zlen (payload frame)) ++
          u64_bytes (request_id frame) ++ payload frame).

(** [decoder_error]. *)
Definition decoder_error (code : ErrorCode) : Error :=
  match code with
  | frame_too_large => mkError code (bs "remote frame exceeds the configured size limit")
  | unsupported_version => mkError code (bs "remote protocol version is unsupported")
  | resource_exhausted => mkError code (bs "insufficient memory while decoding a remote frame")
  | _ => mkError protocol_error (bs "remote frame decoder is in a failed state")
  end.

(** ** FrameDecoder *)

Record FrameDecoder : Set := mkFrameDecoder {
  max_frame_size_ : Z;
  header_ : bytes;                 (** [std::array<std::uint8_t, kFrameHeaderSize>] *)
  header_size_ : nat;
  expected_payload_size_ : Z;
  current_type_ : MessageType;
  current_flags_ : Z;
  current_request_id_ : Z;
  payload_ : bytes;
  reading_payload_ : bool;
  failed_ : bool;
  failure_code_ : ErrorCode
}.

Definition header_bytes : nat := Z.to_nat kFrameHeaderSize.

Definition FrameDecoder_new (max_frame_size : Z) : FrameDecoder :=
  mkFrameDecoder (effective_frame_limit max_frame_size) (replicate header_bytes Byte.x00) 0 0
    hello 0 0 [] false false protocol_error.

(** [reset_current_frame]. *)
Definition reset_current_frame (d : FrameDecoder) : FrameDecoder :=
  mkFrameDecoder (max_frame_size_ d) (header_ d) (header_size_ d) 0 hello 0 0 [] false
    (failed_ d) (failure_code_ d).

(** [fail]. *)
Definition fail (code : ErrorCode) (d : FrameDecoder) : FrameDecoder :=
  let d := mkFrameDecoder (max_frame_size_ d) (replicate header_bytes Byte.x00) 0
             (expected_payload_size_ d) (current_type_ d) (current_flags_ d)
             (current_request_id_ d) (payload_ d) (reading_payload_ d) (failed_ d)
             (failure_code_ d) in
  let d := reset_current_frame d in
  mkFrameDecoder (max_frame_size_ d) (header_ d) (header_size_ d) (expected_payload_size_ d)
    (current_type_ d) (current_flags_ d) (current_request_id_ d) (payload_ d)
    (reading_payload_ d) true code.

(** [reset]. *)
Definition reset (d : FrameDecoder) : FrameDecoder :=
  reset_current_frame
    (mkFrameDecoder (max_frame_size_ d) (replicate header_bytes Byte.x00) 0
       (expected_payload_size_ d) (current_type_ d) (current_flags_ d) (current_request_id_ d)
       (payload_ d) (reading_payload_ d) false protocol_error).

Definition buffered_size (d : FrameDecoder) : Z := Z.of_nat (header_size_ d) + Zlen (payload_ d).

(** [finish]. *)
Definition finish (d : FrameDecoder) : Result unit :=
  if failed_ d then Err (decoder_error (failure_code_ d))
  else if negb (header_size_ d =? 0)%nat || reading_payload_ d then
    failure protocol_error "remote stream ended in the middle of a frame"
  else success.

(** [fail(code); return failure(code, message)]. *)
Definition fail_decoding (code : ErrorCode) (message : string) : Action FrameDecoder unit :=
  fun d => (failure code message, fail code d).

(** [parse_header]. *)
Definition parse_header : Action FrameDecoder unit := fun d =>
  let header := header_ d in
  if negb (read_u32_at header 0 =? kFrameMagic) then
    fail_decoding protocol_error "remote frame magic is invalid" d
  else if negb (read_u16_at header 4 =? kProtocolVersion) then
    fail_decoding unsupported_version "remote protocol version is unsupported" d
  else
    match message_type_from_wire (read_u16_at header 6) with
    | None => fail_decoding protocol_error "remote frame message type is invalid" d
    | Some type =>
        let flags := read_u32_at header 8 in
        if negb (flags =? 0) then
          fail_decoding protocol_error "remote frame contains unsupported flags" d
        else
          let payload_size := read_u32_at header 12 in
          if max_frame_size_ d - kFrameHeaderSize <? payload_size then
            fail_decoding frame_too_large "remote frame exceeds the configured size limit" d
          else
            (Ok tt, mkFrameDecoder (max_frame_size_ d) (header_ d) (header_size_ d)
                      payload_size type flags (read_u64_at header 16) (payload_ d)
                      (reading_payload_ d) (failed_ d) (failure_code_ d))
    end.

(** One iteration of the loop of [feed] on the unread bytes [input] (from [offset]
    on): the frame it pushes, if any, and the bytes still unread. *)
Definition feed_payload (d : FrameDecoder) (input : bytes) :
    Result (option Frame * bytes) * FrameDecoder :=
  let needed := (Z.to_nat (expected_payload_size_ d) - length (payload_ d))%nat in
  let count := Nat.min (length input) needed in
  let new_payload := payload_ d ++ take count input in
  let input := drop count input in
  if Zlen new_payload =? expected_payload_size_ d then
    (Ok (Some (mkFrame (current_type_ d) (current_flags_ d) (current_request_id_ d) new_payload),
         input), reset_current_frame d)
  else
    (Ok (None, input),
     mkFrameDecoder (max_frame_size_ d) (header_ d) (header_size_ d) (expected_payload_size_ d)
       (current_type_ d) (current_flags_ d) (current_request_id_ d) new_payload
       (reading_payload_ d) (failed_ d) (failure_code_ d)).

Definition with_header (d : FrameDecoder) (header : bytes) (size : nat) : FrameDecoder :=
  mkFrameDecoder (max_frame_size_ d) header size (expected_payload_size_ d) (current_type_ d)
    (current_flags_ d) (current_request_id_ d) (payload_ d) (reading_payload_ d) (failed_ d)
    (failure_code_ d).

Definition start_payload (d : FrameDecoder) : FrameDecoder :=
  mkFrameDecoder (max_frame_size_ d) (header_ d) (header_size_ d) (expected_payload_size_ d)
    (current_type_ d) (current_flags_ d) (current_request_id_ d) [] true (failed_ d)
    (failure_code_ d).

Definition feed_iteration (d : FrameDecoder) (input : bytes) :
    Result (option Frame * bytes) * FrameDecoder :=
  if negb (reading_payload_ d) then
    let available := length input in
    let needed := (header_bytes - header_size_ d)%nat in
    let count := Nat.min available needed in
    let header := take (header_size_ d) (header_ d) ++ take count input ++
                  drop (header_size_ d + count) (header_ d) in
    let d := with_header d header (header_size_ d + count) in
    let input := drop count input in
    if negb (header_size_ d =? header_bytes)%nat then (Ok (None, input), d)
    else
      let (parsed, d) := parse_header d in
      let d := with_header d (header_ d) 0 in
      match parsed with
      | Err e => (Err e, d)
      | Ok _ =>
          if expected_payload_size_ d =? 0 then
            (Ok (Some (mkFrame (current_type_ d) (current_flags_ d) (current_request_id_ d) []),
                 input), reset_current_frame d)
          else feed_payload (start_payload d) input
      end
  else feed_payload d input.

(** [feed].  Every iteration consumes a byte, so [length input] iterations are
    enough ([frame_stream_refinement]). *)
Definition feed (d : FrameDecoder) (input : bytes) :
    option (Result (list Frame) * FrameDecoder) :=
  if failed_ d then Some (Err (decoder_error (failure_code_ d)), d)
  else feed_loop feed_iteration (length input) d input [].

(** ** Reference definition

    [next_frame limit s] reads the first frame of [s]. *)
Definition header_of (limit : Z) (h : bytes) : Result (MessageType * Z * Z) :=
  if negb (be_decode (take 4 h) =? kFrameMagic) then
    failure protocol_error "remote frame magic is invalid"
  else if negb (be_decode (take 2 (drop 4 h)) =? kProtocolVersion) then
    failure unsupported_version "remote protocol version is unsupported"
  else
    match message_type_from_wire (be_decode (take 2 (drop 6 h))) with
    | None => failure protocol_error "remote frame message type is invalid"
    | Some type =>
        if negb (be_decode (take 4 (drop 8 h)) =? 0) then
          failure protocol_error "remote frame contains unsupported flags"
        else if limit <? kFrameHeaderSize + be_decode (take 4 (drop 12 h)) then
          failure frame_too_large "remote frame exceeds the configured size limit"
        else Ok (type, be_decode (take 4 (drop 12 h)), be_decode (take 8 (drop 16 h)))
    end.

Definition next_frame (limit : Z) (s : bytes) : parse_step Frame :=
  if (length s <? header_bytes)%nat then need_more
  else
    match header_of limit (take header_bytes s) with
    | Err e => bad e
    | Ok (type, size, request_id) =>
        let body := drop header_bytes s in
        if Zlen body <? size then need_more
        else got (mkFrame type 0 request_id (take (Z.to_nat size) body)) (drop (Z.to_nat size) body)
    end.

(** ** Lemmas *)

(** *** The header on the wire *)

Lemma byte_in_window l k n i :
  (i < n)%nat -> byte_in l (k + i) = Z_of_byte (nth i (take n (drop k l)) Byte.x00).
Proof.
  intros Hi. unfold byte_in. f_equal.
  rewrite !nth_lookup, lookup_take_lt, lookup_drop by done. done.
Qed.

Lemma length_window {A} (l : list A) k n : (k + n <= length l)%nat -> length (take n (drop k l)) = n.
Proof. rewrite length_take, length_drop. lia. Qed.

Lemma header_bytes_24 : header_bytes = 24%nat.
Proof. done. Qed.

Lemma header_bytes_pos : (0 < header_bytes)%nat.
Proof. rewrite header_bytes_24. lia. Qed.

Lemma be_encode_window l k n :
  (k + n <= length l)%nat -> be_encode n (be_decode (take n (drop k l))) = take n (drop k l).
Proof. intros Hk. rewrite <- (length_window l k n Hk) at 1. apply be_encode_decode. Qed.

Lemma read_u16_at_be l k :
  (k + 2 <= length l)%nat -> read_u16_at l k = be_decode (take 2 (drop k l)).
Proof.
  intros Hk. rewrite <- lor_chain_2 by (by apply length_window). unfold read_u16_at.
  rewrite <- (Nat.add_0_r k) at 1. by rewrite !(byte_in_window l k 2) by lia.
Qed.

Lemma read_u32_at_be l k :
  (k + 4 <= length l)%nat -> read_u32_at l k = be_decode (take 4 (drop k l)).
Proof.
  intros Hk. rewrite <- lor_chain_4 by (by apply length_window). unfold read_u32_at.
  rewrite <- (Nat.add_0_r k) at 1. by rewrite !(byte_in_window l k 4) by lia.
Qed.

Lemma read_u64_at_be l k :
  (k + 8 <= length l)%nat -> read_u64_at l k = be_decode (take 8 (drop k l)).
Proof.
  intros Hk. rewrite <- lor_chain_8 by (by apply length_window). unfold read_u64_at.
  rewrite <- (Nat.add_0_r k) at 1. by rewrite !(byte_in_window l k 8) by lia.
Qed.

Lemma message_type_from_to_wire t :
  t ∈ kMessageTypes -> message_type_from_wire (message_type_to_wire t) = Some t.
Proof. unfold kMessageTypes. rewrite !elem_of_cons, elem_of_nil. naive_solver. Qed.

Lemma message_type_from_wire_inv v t :
  message_type_from_wire v = Some t -> t ∈ kMessageTypes /\ message_type_to_wire t = v.
Proof.
  intros [Hin Hv]%find_some. split; [by apply list_elem_of_In|]. lia.
Qed.

Lemma listed_type_u16 t : t ∈ kMessageTypes -> is_u16 (message_type_to_wire t).
Proof.
  unfold kMessageTypes, is_uint. rewrite !elem_of_cons, elem_of_nil.
  intros H. repeat destruct H as [->|H]; simpl; lia || done.
Qed.

Definition frame_header (t : MessageType) (size request_id : Z) : bytes :=
  u32_bytes kFrameMagic ++ u16_bytes kProtocolVersion ++ u16_bytes (message_type_to_wire t) ++
  u32_bytes 0 ++ u32_bytes size ++ u64_bytes request_id.

#[global] Arguments frame_header : simpl never.

Lemma length_frame_header t n r : length (frame_header t n r) = header_bytes.
Proof. done. Qed.

(** What the header fields are when the header is [frame_header]. *)
Lemma header_of_frame_header limit t n r :
  t ∈ kMessageTypes -> is_u32 n -> is_u64 r -> kFrameHeaderSize + n <= limit ->
  header_of limit (frame_header t n r) = Ok (t, n, r).
Proof.
  intros Ht Hn Hr Hl. unfold header_of, frame_header. rewrite !u32_bytes_be, !u16_bytes_be, u64_bytes_be.
  set (a := be_encode 4 kFrameMagic). set (b := be_encode 2 kProtocolVersion).
  set (c := be_encode 2 (message_type_to_wire t)). set (d := be_encode 4 0).
  set (e := be_encode 4 n). set (f := be_encode 8 r).
  assert (E4 : take 4 (drop 12 (a ++ b ++ c ++ d ++ e ++ f)) = e) by done.
  assert (E5 : take 8 (drop 16 (a ++ b ++ c ++ d ++ e ++ f)) = f) by done.
  assert (E2 : take 2 (drop 6 (a ++ b ++ c ++ d ++ e ++ f)) = c) by done.
  rewrite E4, E5, E2. unfold c, e, f. rewrite !be_decode_encode by
    first [exact Hn | exact Hr | exact (listed_type_u16 t Ht)].
  rewrite message_type_from_to_wire by done.
  destruct (Z.ltb_spec limit (kFrameHeaderSize + n)); [lia|done].
Qed.

Lemma header_of_inv limit h t n r :
  length h = header_bytes -> header_of limit h = Ok (t, n, r) ->
  h = frame_header t n r /\ t ∈ kMessageTypes /\ is_u32 n /\ is_u64 r /\
  kFrameHeaderSize + n <= limit.
Proof.
  intros Hh H. unfold header_of in H.
  destruct (Z.eqb_spec (be_decode (take 4 h)) kFrameMagic) as [E0|]; [|done].
  destruct (Z.eqb_spec (be_decode (take 2 (drop 4 h))) kProtocolVersion) as [E1|]; [|done].
  destruct (message_type_from_wire _) as [t'|] eqn:E2; [|done].
  apply message_type_from_wire_inv in E2 as [Ht E2].
  destruct (Z.eqb_spec (be_decode (take 4 (drop 8 h))) 0) as [E3|]; [|done].
  destruct (Z.ltb_spec limit (kFrameHeaderSize + be_decode (take 4 (drop 12 h)))); [done|].
  simpl in H. simplify_eq. split; [|split_and!; try done].
  - unfold frame_header. rewrite !u32_bytes_be, !u16_bytes_be, u64_bytes_be, E2, <- E0, <- E1, <- E3.
    rewrite <- (drop_0 h) at 2. rewrite !be_encode_window by (rewrite Hh, header_bytes_24; lia).
    do 24 (destruct h as [|? h]; [done|]). by destruct h.
  - pose proof (be_decode_range (take 4 (drop 12 h))) as Hr. unfold Zlen in Hr.
    rewrite length_window in Hr by (rewrite Hh, header_bytes_24; lia). exact Hr.
  - pose proof (be_decode_range (take 8 (drop 16 h))) as Hr. unfold Zlen in Hr.
    rewrite length_window in Hr by (rewrite Hh, header_bytes_24; lia). exact Hr.
Qed.

Lemma header_of_code limit h e :
  header_of limit h = Err e -> code (decoder_error (code e)) = code e.
Proof. unfold header_of, failure. intros H. by repeat (case_match; simplify_eq). Qed.

Lemma parse_header_spec d :
  length (header_ d) = header_bytes ->
  parse_header d =
    match header_of (max_frame_size_ d) (header_ d) with
    | Err e => (Err e, fail (code e) d)
    | Ok (t, n, r) =>
        (Ok tt, mkFrameDecoder (max_frame_size_ d) (header_ d) (header_size_ d) n t 0 r
                  (payload_ d) (reading_payload_ d) (failed_ d) (failure_code_ d))
    end.
Proof.
  intros Hh. rewrite header_bytes_24 in Hh. unfold parse_header, header_of.
  rewrite !read_u32_at_be, !read_u16_at_be, read_u64_at_be by lia. rewrite drop_0.
  destruct (_ =? kFrameMagic); [|done]. destruct (_ =? kProtocolVersion); [|done]. simpl.
  destruct (message_type_from_wire _); [|done].
  destruct (Z.eqb_spec (be_decode (take 4 (drop 8 (header_ d)))) 0) as [E|]; [|done].
  set (n := be_decode (take 4 (drop 12 (header_ d)))). simpl.
  destruct (Z.ltb_spec (max_frame_size_ d - kFrameHeaderSize) n),
    (Z.ltb_spec (max_frame_size_ d) (kFrameHeaderSize + n)); try lia; [done|]. by rewrite E.
Qed.

(** *** The decoder's invariant and the bytes it holds *)

Record decoder_wf (d : FrameDecoder) : Prop := {
  wf_limit : kFrameHeaderSize <= max_frame_size_ d <= kMaxFrameSize;
  wf_header : length (header_ d) = header_bytes;
  wf_header_size : (header_size_ d < header_bytes)%nat;
  wf_idle : reading_payload_ d = false -> payload_ d = [];
  wf_reading : reading_payload_ d = true ->
    header_size_ d = 0%nat /\ failed_ d = false /\ current_type_ d ∈ kMessageTypes /\
    current_flags_ d = 0 /\ is_u64 (current_request_id_ d) /\
    Zlen (payload_ d) < expected_payload_size_ d /\
    kFrameHeaderSize + expected_payload_size_ d <= max_frame_size_ d;
  wf_failed : failed_ d = true -> header_size_ d = 0%nat
}.

(** The bytes received since the last complete frame. *)
Definition pending (d : FrameDecoder) : bytes :=
  if reading_payload_ d then
    frame_header (current_type_ d) (expected_payload_size_ d) (current_request_id_ d) ++ payload_ d
  else take (header_size_ d) (header_ d).

Lemma effective_frame_limit_range n : kFrameHeaderSize <= effective_frame_limit n <= kMaxFrameSize.
Proof.
  unfold effective_frame_limit. change kFrameHeaderSize with 24. change kMaxFrameSize with 65536.
  destruct (Z.ltb_spec n 24), (Z.ltb_spec 65536 n); lia.
Qed.

Lemma FrameDecoder_new_wf n : decoder_wf (FrameDecoder_new n).
Proof. split; try done; [apply effective_frame_limit_range|apply header_bytes_pos]. Qed.

Lemma pending_new n : pending (FrameDecoder_new n) = [].
Proof. done. Qed.

Lemma reset_current_frame_wf d :
  decoder_wf d -> decoder_wf (reset_current_frame d).
Proof. intros []. by split. Qed.

Lemma fail_wf c d : decoder_wf d -> decoder_wf (fail c d) /\ failed_ (fail c d) = true.
Proof. intros []. split; [|done]. split; try done. apply header_bytes_pos. Qed.

Lemma reset_wf d : decoder_wf d -> decoder_wf (reset d).
Proof. intros []. split; try done. apply header_bytes_pos. Qed.

(** *** The reference splitter *)

Lemma next_frame_header limit t n r body :
  t ∈ kMessageTypes -> is_u32 n -> is_u64 r -> kFrameHeaderSize + n <= limit ->
  next_frame limit (frame_header t n r ++ body) =
    if Zlen body <? n then need_more
    else got (mkFrame t 0 r (take (Z.to_nat n) body)) (drop (Z.to_nat n) body).
Proof.
  intros Ht Hn Hr Hl. unfold next_frame. rewrite length_app, length_frame_header.
  destruct (Nat.ltb_spec (header_bytes + length body) header_bytes); [lia|].
  rewrite take_app_le, take_ge by (by rewrite length_frame_header).
  rewrite header_of_frame_header by done.
  by rewrite drop_app_ge, length_frame_header, Nat.sub_diag, drop_0
    by (by rewrite length_frame_header).
Qed.

Lemma next_frame_short limit s : (length s < header_bytes)%nat -> next_frame limit s = need_more.
Proof. intros Hs. unfold next_frame. by rewrite (proj2 (Nat.ltb_lt _ _) Hs). Qed.

#[local] Opaque frame_header.

#[export] Instance remote_decoder : StreamDecoder FrameDecoder Frame := {
  sd_iteration := feed_iteration;
  sd_failed := failed_;
  sd_failure d := decoder_error (failure_code_ d);
  sd_limit := max_frame_size_;
  sd_next := next_frame;
  sd_wf := decoder_wf;
  sd_pending := pending
}.

Ltac unfold_decoder :=
  cbv [simulates sd_iteration sd_failed sd_failure sd_limit sd_next sd_wf sd_pending
       remote_decoder] in *.

(** *** The loop body simulates the reference *)

Lemma feed_payload_spec d input :
  decoder_wf d -> reading_payload_ d = true -> simulates d input (feed_payload d input).
Proof.
  intros Hd Hr. destruct (wf_reading _ Hd Hr) as (Hh0 & Hf & Ht & Hfl & Hrid & Hlen & Hmax).
  unfold_decoder. unfold feed_payload. unfold pending at 1. rewrite Hr, <- app_assoc.
  pose proof (Zlen_nonneg (payload_ d)) as Hp.
  pose proof (wf_limit _ Hd) as Hlim. change kMaxFrameSize with 65536 in Hlim.
  change kFrameHeaderSize with 24 in *.
  rewrite next_frame_header; [|done|unfold is_uint; lia|done|done].
  unfold Zlen in Hlen, Hp.
  set (needed := (Z.to_nat (expected_payload_size_ d) - length (payload_ d))%nat).
  rewrite Zlen_app. destruct (Z.ltb_spec (Zlen (payload_ d) + Zlen input) (expected_payload_size_ d)) as [Hs|Hs];
    unfold Zlen in Hs.
  - rewrite Nat.min_l, firstn_all, drop_all by lia. rewrite Zlen_app.
    unfold Zlen at 1 2. destruct (Z.eqb_spec (Z.of_nat (length (payload_ d)) + Z.of_nat (length input)) (expected_payload_size_ d)); [lia|].
    eexists. split; [reflexivity|]. split_and!; try done.
    + destruct Hd. split; simpl; try done; try congruence.
      intros _. split_and!; try done. rewrite Zlen_app. unfold Zlen. lia.
    + unfold pending. simpl. by rewrite Hr, <- app_assoc.
  - rewrite Nat.min_r by lia.
    assert (Hn : (needed <= length input)%nat) by lia.
    rewrite Zlen_app. unfold Zlen at 1 2. rewrite length_take, Nat.min_l by done.
    destruct (Z.eqb_spec (Z.of_nat (length (payload_ d)) + Z.of_nat needed) (expected_payload_size_ d)); [|lia].
    rewrite Hfl. rewrite take_app_ge, drop_app_ge by lia. eexists. split; [reflexivity|].
    split_and!; try done; [by apply reset_current_frame_wf|].
    unfold pending. simpl. by rewrite Hh0.
Qed.

Lemma with_header_wf d h n :
  decoder_wf d -> length h = header_bytes -> (n < header_bytes)%nat ->
  reading_payload_ d = false -> (failed_ d = true -> n = 0%nat) ->
  decoder_wf (with_header d h n).
Proof. intros [] Hh Hn Hr Hf. split; simpl; try done; congruence. Qed.

(** A header that is still incomplete after [input]. *)
Lemma header_incomplete d input :
  decoder_wf d -> failed_ d = false -> reading_payload_ d = false ->
  (header_size_ d + length input < header_bytes)%nat ->
  simulates d input (feed_iteration d input).
Proof.
  intros Hd Hf Hr Hlen. pose proof (wf_header _ Hd) as Hh.
  unfold_decoder. unfold feed_iteration. unfold pending at 1. rewrite Hr. cbv beta iota delta [negb].
  rewrite next_frame_short by (rewrite length_app, length_take; lia).
  rewrite Nat.min_l, firstn_all, drop_all by lia. cbn [header_size_ with_header].
  destruct (Nat.eqb_spec (header_size_ d + length input) header_bytes); [lia|].
  eexists. split; [reflexivity|].
  assert (Hl : length (take (header_size_ d) (header_ d)) = header_size_ d)
    by (rewrite length_take; lia).
  split_and!; try done.
  - apply with_header_wf; try done; [|congruence].
    rewrite !length_app, Hl, length_drop. lia.
  - unfold pending. cbn [with_header reading_payload_ header_size_ header_]. rewrite Hr.
    rewrite app_assoc, take_app_le, take_ge by (rewrite length_app, Hl; lia). done.
Qed.

(** A header that [input] completes, followed by [body]. *)
Lemma header_complete d hdr body :
  decoder_wf d -> failed_ d = false -> reading_payload_ d = false ->
  length hdr = (header_bytes - header_size_ d)%nat ->
  simulates d (hdr ++ body) (feed_iteration d (hdr ++ body)).
Proof.
  intros Hd Hf Hr Hlen. pose proof (wf_header _ Hd) as Hh. pose proof (wf_header_size _ Hd) as Hs.
  unfold feed_iteration. rewrite Hr. cbv beta iota delta [negb].
  rewrite length_app, Nat.min_r, <- Hlen, take_app_length, drop_app_length by lia.
  rewrite (drop_ge (header_ d)), app_nil_r by lia.
  set (h := take (header_size_ d) (header_ d) ++ hdr).
  assert (Hlh : length h = header_bytes) by (unfold h; rewrite length_app, length_take; lia).
  cbn [header_size_ with_header].
  replace (header_size_ d + length hdr)%nat with header_bytes by lia. rewrite Nat.eqb_refl.
  rewrite parse_header_spec by done. cbn [header_ max_frame_size_ with_header].
  assert (Hp : pending d ++ hdr ++ body = h ++ body).
  { unfold pending. rewrite Hr. by rewrite app_assoc. }
  unfold_decoder. rewrite Hp.
  destruct (header_of (max_frame_size_ d) h) as [[[t n] r]|e] eqn:E.
  - apply header_of_inv in E as (Eh & Ht & Hn & Hrid & Hlim); [|done].
    rewrite Eh, next_frame_header by done.
    cbn [with_header expected_payload_size_]. destruct (Z.eqb_spec n 0) as [->|Hn0].
    + destruct (Z.ltb_spec (Zlen body) 0); [pose proof (Zlen_nonneg body); lia|].
      eexists. split; [reflexivity|]. destruct Hd. split_and!; try done.
      split; try done; simpl; apply header_bytes_pos.
    + set (d' := start_payload _).
      assert (Hd' : decoder_wf d').
      { destruct Hd. split; simpl; try done; [apply header_bytes_pos|].
        intros _. split_and!; try done. unfold is_uint in Hn. change (Zlen []) with 0. lia. }
      pose proof (feed_payload_spec d' body Hd' eq_refl) as Hsp. unfold_decoder.
      unfold pending in Hsp at 1. simpl in Hsp. rewrite app_nil_r, next_frame_header in Hsp by done.
      destruct (Zlen body <? n); [|exact Hsp].
      destruct Hsp as (d'' & E1 & Hw & Hf'' & Hm & Hp''). exists d''. split_and!; try done.
  - unfold next_frame. rewrite length_app, Hlh, take_app_le, take_ge by lia.
    destruct (Nat.ltb_spec (header_bytes + length body) header_bytes); [lia|]. rewrite E.
    eexists. split; [reflexivity|].
    destruct Hd. split_and!; try done; [|by eapply header_of_code].
    split; simpl; try done. apply header_bytes_pos.
Qed.

Lemma feed_iteration_simulates d input :
  decoder_wf d -> failed_ d = false -> simulates d input (feed_iteration d input).
Proof.
  intros Hd Hf. destruct (reading_payload_ d) eqn:Hr.
  { unfold feed_iteration. rewrite Hr. by apply feed_payload_spec. }
  pose proof (wf_header_size _ Hd).
  destruct (decide (header_size_ d + length input < header_bytes)%nat).
  - by apply header_incomplete.
  - rewrite <- (take_drop (header_bytes - header_size_ d) input).
    apply header_complete; try done. rewrite length_take. lia.
Qed.

(** *** The splitter on longer strings *)

Lemma next_frame_app limit s t :
  next_frame limit (s ++ t) =
    match next_frame limit s with
    | need_more => next_frame limit (s ++ t)
    | bad e => bad e
    | got f s' => got f (s' ++ t)
    end.
Proof.
  destruct (decide (length s < header_bytes)%nat) as [Hs|Hs].
  { by rewrite (next_frame_short limit s). }
  unfold next_frame. rewrite length_app.
  destruct (Nat.ltb_spec (length s + length t) header_bytes); [lia|].
  destruct (Nat.ltb_spec (length s) header_bytes); [lia|].
  rewrite take_app_le, drop_app_le by lia.
  destruct (header_of limit (take header_bytes s)) as [[[ty n] r]|e]; [|done].
  set (b := drop header_bytes s). rewrite Zlen_app. pose proof (Zlen_nonneg t).
  destruct (Z.ltb_spec (Zlen b) n) as [|Hb]; [done|].
  destruct (Z.ltb_spec (Zlen b + Zlen t) n); [lia|].
  unfold Zlen in Hb. by rewrite take_app_le, drop_app_le by lia.
Qed.

Lemma next_frame_got limit s f s' :
  next_frame limit s = got f s' -> exists hd, s = hd ++ s' /\
    (header_bytes <= length hd)%nat /\ next_frame limit hd = got f [].
Proof.
  unfold next_frame at 1. destruct (Nat.ltb_spec (length s) header_bytes); [done|].
  destruct (header_of limit (take header_bytes s)) as [[[ty n] r]|e] eqn:E; [|done].
  destruct (Z.ltb_spec (Zlen (drop header_bytes s)) n) as [|Hn]; [done|]. intros [= <- <-].
  rewrite drop_drop. unfold Zlen in Hn. rewrite length_drop in Hn.
  exists (take (header_bytes + Z.to_nat n) s). rewrite take_drop, length_take.
  split_and!; [done|lia|]. unfold next_frame. rewrite length_take.
  destruct (Nat.ltb_spec (Nat.min (header_bytes + Z.to_nat n) (length s)) header_bytes); [lia|].
  rewrite take_take, Nat.min_l, E by lia. rewrite skipn_firstn_comm.
  replace (header_bytes + Z.to_nat n - header_bytes)%nat with (Z.to_nat n) by lia.
  unfold Zlen. rewrite length_take, length_drop.
  destruct (Z.ltb_spec (Z.of_nat (Nat.min (Z.to_nat n) (length s - header_bytes))) n); [lia|].
  rewrite take_take, Nat.min_id, (drop_ge (take _ _)); [done|].
  rewrite length_take, length_drop. lia.
Qed.

(** Nothing the decoder holds back is a complete frame. *)
Lemma pending_incomplete d :
  decoder_wf d -> next_frame (max_frame_size_ d) (pending d) = need_more.
Proof.
  intros Hd. unfold pending. destruct (reading_payload_ d) eqn:Hr.
  - destruct (wf_reading _ Hd Hr) as (_ & _ & Ht & _ & Hrid & Hlen & Hmax).
    pose proof (wf_limit _ Hd) as Hlim. pose proof (Zlen_nonneg (payload_ d)).
    change kMaxFrameSize with 65536 in Hlim. change kFrameHeaderSize with 24 in *.
    rewrite next_frame_header; [|done|unfold is_uint; lia|done|done].
    by rewrite (proj2 (Z.ltb_lt _ _) Hlen).
  - apply next_frame_short. rewrite length_take. pose proof (wf_header_size _ Hd). lia.
Qed.

#[export] Instance remote_decoder_laws : StreamDecoderLaws FrameDecoder Frame.
Proof.
  split.
  - exact next_frame_app.
  - intros limit s f s' (hd & E & _ & Hg)%next_frame_got. by exists hd.
  - exact pending_incomplete.
  - exact feed_iteration_simulates.
Qed.

(** *** Encoded frames *)

Definition frame_image (f : Frame) : bytes :=
  frame_header (type f) (Zlen (payload f)) (request_id f) ++ payload f.

Lemma encode_frame_ok f max s :
  encode_frame f max = Ok s ->
  flags f = 0 /\ kFrameHeaderSize + Zlen (payload f) <= effective_frame_limit max /\
  is_Some (message_type_from_wire (message_type_to_wire (type f))) /\ s = frame_image f.
Proof.
  unfold encode_frame. case_bool_decide as Ht; [done|].
  destruct (Z.eqb_spec (flags f) 0) as [Hf|]; [|done]. simpl.
  destruct (Z.ltb_spec (effective_frame_limit max - kFrameHeaderSize) (Zlen (payload f))); [done|].
  destruct (Z.ltb_spec 4294967295 (Zlen (payload f))); [done|]. cbn [orb]. intros [= <-].
  split_and!; [done|lia|by apply not_eq_None_Some|]. by rewrite Hf.
Qed.

Lemma next_frame_image limit f s :
  type f ∈ kMessageTypes -> flags f = 0 -> is_u64 (request_id f) ->
  kFrameHeaderSize + Zlen (payload f) <= limit -> limit <= kMaxFrameSize ->
  next_frame limit (frame_image f ++ s) = got f s.
Proof.
  intros Ht Hf Hr Hl Hm. unfold frame_image. rewrite <- app_assoc.
  change kMaxFrameSize with 65536 in Hm. change kFrameHeaderSize with 24 in *.
  pose proof (Zlen_nonneg (payload f)). pose proof (Zlen_nonneg s).
  rewrite next_frame_header; [|done|unfold is_uint; lia|done|done]. rewrite Zlen_app.
  destruct (Z.ltb_spec (Zlen (payload f) + Zlen s) (Zlen (payload f))); [lia|].
  unfold Zlen. rewrite Nat2Z.id, take_app_length, drop_app_length.
  destruct f. simpl in *. by subst.
Qed.

(** The frames [frames] of a stream, with enumerators as their types and 64-bit
    request ids, and their encodings [images]. *)
Definition encoded_as (max_frame_size : Z) (f : Frame) (image : bytes) : Prop :=
  (type f ∈ kMessageTypes) /\ is_u64 (request_id f) /\ encode_frame f max_frame_size = Ok image.

Lemma splits_images max frames images :
  Forall2 (encoded_as max) frames images ->
  splits (next_frame (effective_frame_limit max)) (concat images) frames [].
Proof.
  induction 1 as [|f i fs ims (Ht & Hr & (Hf & Hl & _ & ->)%encode_frame_ok) _ IH].
  - by apply splits_done, next_frame_short, header_bytes_pos.
  - simpl. eapply splits_frame; [|exact IH]. apply next_frame_image; try done.
    apply effective_frame_limit_range.
Qed.

Lemma next_frame_got_image limit s f s' :
  kFrameHeaderSize <= limit <= kMaxFrameSize -> next_frame limit s = got f s' ->
  s = frame_image f ++ s' /\ (type f ∈ kMessageTypes) /\ is_u64 (request_id f) /\ flags f = 0 /\
  kFrameHeaderSize + Zlen (payload f) <= limit.
Proof.
  intros Hlim. unfold next_frame. destruct (Nat.ltb_spec (length s) header_bytes); [done|].
  destruct (header_of limit (take header_bytes s)) as [[[t n] r]|e] eqn:E; [|done].
  apply header_of_inv in E as (E & Ht & Hn & Hr & Hl); [|rewrite length_take; lia].
  set (b := drop header_bytes s). unfold is_uint in Hn.
  destruct (Z.ltb_spec (Zlen b) n) as [|Hb]; [done|]. unfold Zlen in Hb. intros [= <- <-].
  unfold frame_image. cbn [type payload request_id flags].
  assert (Zlen (take (Z.to_nat n) b) = n) as -> by (unfold Zlen; rewrite length_take; lia).
  split_and!; try done. rewrite <- app_assoc, take_drop, <- E. unfold b. by rewrite take_drop.
Qed.

Lemma encode_frame_image max f :
  type f ∈ kMessageTypes -> flags f = 0 ->
  kFrameHeaderSize + Zlen (payload f) <= effective_frame_limit max ->
  encode_frame f max = Ok (frame_image f).
Proof.
  intros Ht Hf Hl. unfold encode_frame. rewrite message_type_from_to_wire by done.
  pose proof (effective_frame_limit_range max) as Hr. change kMaxFrameSize with 65536 in Hr.
  rewrite bool_decide_false by done. rewrite Hf. cbv beta iota delta [negb Z.eqb].
  change kFrameHeaderSize with 24 in *.
  destruct (Z.ltb_spec (effective_frame_limit max - 24) (Zlen (payload f))); [lia|].
  destruct (Z.ltb_spec 4294967295 (Zlen (payload f))); [lia|]. by cbn [orb].
Qed.

Lemma splits_inv max s frames r :
  splits (next_frame (effective_frame_limit max)) s frames r -> exists images,
    Forall2 (encoded_as max) frames images /\ s = concat images ++ r.
Proof.
  pose proof (effective_frame_limit_range max) as Hr.
  induction 1 as [s Hs|s f s' fs r Hg _ (ims & His & E)]; [by exists []|].
  apply next_frame_got_image in Hg as (Es & Ht & Hu & Hf & Hl); [|done].
  exists (frame_image f :: ims). split.
  - constructor; [|done]. split_and!; try done. by apply encode_frame_image.
  - simpl. by rewrite Es, E, app_assoc.
Qed.

Lemma finish_pending d :
  decoder_wf d -> failed_ d = false -> finish d = Ok tt <-> pending d = [].
Proof.
  intros Hd Hf. unfold finish, pending. rewrite Hf. destruct (reading_payload_ d) eqn:Hr.
  - rewrite orb_true_r. split; [done|]. intros E. apply (f_equal length) in E.
    rewrite length_app, length_frame_header in E. pose proof header_bytes_pos. simpl in E. lia.
  - rewrite orb_false_r. pose proof (wf_header_size _ Hd). pose proof (wf_header _ Hd) as Hh.
    destruct (Nat.eqb_spec (header_size_ d) 0) as [E|E]; simpl; [by rewrite E|].
    split; [done|]. intros E'. apply (f_equal length) in E'. rewrite length_take in E'.
    simpl in E'. lia.
Qed.

Lemma pending_nil_buffered d : decoder_wf d -> pending d = [] -> buffered_size d = 0.
Proof.
  intros Hd Hp. unfold pending in Hp. destruct (reading_payload_ d) eqn:Hr.
  - apply (f_equal length) in Hp. rewrite length_app, length_frame_header in Hp.
    pose proof header_bytes_pos. simpl in Hp. lia.
  - unfold buffered_size. rewrite (wf_idle _ Hd Hr). apply (f_equal length) in Hp.
    rewrite length_take, (wf_header _ Hd) in Hp. pose proof (wf_header_size _ Hd).
    simpl in Hp. change (Zlen []) with 0. lia.
Qed.

(** States of a decoder under any sequence of calls. *)
Inductive reachable (max_frame_size : Z) : FrameDecoder -> Prop :=
| reachable_new : reachable max_frame_size (FrameDecoder_new max_frame_size)
| reachable_feed d input r d' :
    reachable max_frame_size d -> feed d input = Some (r, d') -> reachable max_frame_size d'
| reachable_reset d : reachable max_frame_size d -> reachable max_frame_size (reset d).

Lemma reachable_wf max d :
  reachable max d -> decoder_wf d /\ max_frame_size_ d = effective_frame_limit max.
Proof.
  induction 1 as [|d input r d' _ [Hw Hm] Hfeed|d _ [Hw Hm]].
  - split; [apply FrameDecoder_new_wf|done].
  - destruct (@sd_feed_wf _ _ remote_decoder _ d input r d' Hw Hfeed) as [Hw' Hm'].
    split; [done|]. by transitivity (max_frame_size_ d).
  - split; [by apply reset_wf|done].
Qed.

Lemma feed_images max frames images chunks :
  Forall2 (encoded_as max) frames images -> concat chunks = concat images ->
  exists d', feed_all feed (FrameDecoder_new max) chunks = Some (Ok frames, d') /\
    finish d' = Ok tt /\ buffered_size d' = 0.
Proof.
  intros Hf Hc. apply splits_images in Hf.
  destruct (@feed_all_spec _ _ remote_decoder _ (FrameDecoder_new max) chunks (FrameDecoder_new_wf max) eq_refl)
    as (r & d' & E & Hw & _ & Hr). cbn in Hr. rewrite Hc in Hr. destruct r as [fs|e].
  - destruct Hr as [Hf' Hs]. destruct (splits_det _ _ _ _ _ _ Hf Hs) as [-> Hp].
    exists d'. split; [done|]. split; [by apply finish_pending|by apply pending_nil_buffered].
  - exfalso. destruct Hr as (_ & _ & fs & Hs). by eapply splits_not_bad.
Qed.

(** ** Theorems *)

(** C39: the incremental decoder implements the reference splitter: whatever chunks
    a stream arrives in, [feed] terminates on each of them, the frames returned
    are those of the concatenated bytes and the bytes held back are the
    unfinished rest, or the first bad header is reported. *)
Theorem frame_stream_refinement max chunks :
  exists r d', feed_all feed (FrameDecoder_new max) chunks = Some (r, d') /\
    run_spec (effective_frame_limit max) (concat chunks) r d'.
Proof. exact (@feed_all_spec _ _ remote_decoder _ (FrameDecoder_new max) chunks (FrameDecoder_new_wf max) eq_refl). Qed.

(** a sequence of encoded frames, cut into chunks anywhere, is decoded into
    exactly those frames, in order, and leaves nothing buffered. *)
Theorem frame_stream_roundtrip max frames images chunks :
  Forall2 (encoded_as max) frames images -> concat chunks = concat images ->
  exists d', feed_all feed (FrameDecoder_new max) chunks = Some (Ok frames, d') /\
    finish d' = Ok tt /\ buffered_size d' = 0.
Proof. apply feed_images. Qed.

Lemma frame_stream_roundtrip_witness :
  let f1 := mkFrame ping 0 7 (u64_bytes 42) in
  let f2 := mkFrame goaway 0 8 [] in
  let s := frame_image f1 ++ frame_image f2 in
  exists d', feed_all feed (FrameDecoder_new 100) [take 5 s; take 30 (drop 5 s); drop 35 s]
    = Some (Ok [f1; f2], d') /\ finish d' = Ok tt /\ buffered_size d' = 0.
Proof.
  intros f1 f2 s. apply (frame_stream_roundtrip 100 [f1; f2] [frame_image f1; frame_image f2]);
    [|by vm_compute].
  repeat constructor; try (vm_compute; congruence).
Defined.

(** the decoder accepts nothing but encoded frames: the bytes of a stream it
    accepts are the encodings of the frames it returned followed by an unfinished
    rest, and [finish] succeeds exactly when that rest is empty. *)
Theorem frame_stream_sound max chunks frames d' :
  feed_all feed (FrameDecoder_new max) chunks = Some (Ok frames, d') ->
  exists images tail, Forall2 (encoded_as max) frames images /\
    concat chunks = concat images ++ tail /\ (finish d' = Ok tt <-> tail = []).
Proof.
  intros E. destruct (@feed_all_spec _ _ remote_decoder _ (FrameDecoder_new max) chunks (FrameDecoder_new_wf max) eq_refl)
    as (r & d2 & E2 & Hw & _ & Hr). change (feed_all sd_feed) with (feed_all feed) in E2.
  rewrite E in E2. injection E2 as <- <-. destruct Hr as [Hf Hs].
  apply splits_inv in Hs as (images & Hi & Hs). exists images, (pending d').
  split_and!; try done; by apply finish_pending.
Qed.

Lemma frame_stream_sound_witness :
  exists images tail, Forall2 (encoded_as 100) [mkFrame goaway 0 8 []] images /\
    concat [frame_image (mkFrame goaway 0 8 []); [Byte.x4d]] = concat images ++ tail /\
    (finish (with_header (FrameDecoder_new 100)
       (Byte.x4d :: drop 1 (frame_image (mkFrame goaway 0 8 []))) 1) = Ok tt <-> tail = []).
Proof. apply frame_stream_sound. vm_compute. reflexivity. Defined.

(** How a stream is cut into chunks changes neither the frames nor the error
    the decoder reports. *)
Theorem frame_chunking_irrelevant max chunks1 chunks2 :
  concat chunks1 = concat chunks2 ->
  fst <$> feed_all feed (FrameDecoder_new max) chunks1 =
  fst <$> feed_all feed (FrameDecoder_new max) chunks2.
Proof. intros Hc. apply (@feed_all_bytes _ _ remote_decoder _); try done; apply FrameDecoder_new_wf. Qed.

Lemma frame_chunking_irrelevant_witness :
  fst <$> feed_all feed (FrameDecoder_new 64) [[Byte.x4d; Byte.x54]; replicate 30 Byte.x00] =
  fst <$> feed_all feed (FrameDecoder_new 64) [[Byte.x4d]; Byte.x54 :: replicate 30 Byte.x00].
Proof. apply frame_chunking_irrelevant. reflexivity. Defined.

(** in every state the decoder can reach its invariant holds and it buffers
    less than one maximum frame, which is at most 64 KiB. *)
Theorem decoder_memory_bounded max d :
  reachable max d ->
  decoder_wf d /\ buffered_size d < max_frame_size_ d /\ max_frame_size_ d <= kMaxFrameSize.
Proof.
  intros [Hw Hm]%reachable_wf. split; [done|]. pose proof (wf_limit _ Hw) as Hl.
  split; [|lia]. unfold buffered_size. destruct (reading_payload_ d) eqn:Hr.
  - destruct (wf_reading _ Hw Hr) as (-> & _ & _ & _ & _ & Hlen & Hmax).
    change kFrameHeaderSize with 24 in *. lia.
  - rewrite (wf_idle _ Hw Hr). pose proof (wf_header_size _ Hw) as Hs.
    rewrite header_bytes_24 in Hs. change kFrameHeaderSize with 24 in *.
    change (Zlen []) with 0. lia.
Qed.

Lemma decoder_memory_bounded_witness :
  let d := reset (FrameDecoder_new 4096) in
  decoder_wf d /\ buffered_size d < max_frame_size_ d /\ max_frame_size_ d <= kMaxFrameSize.
Proof. apply (decoder_memory_bounded 4096). apply reachable_reset, reachable_new. Defined.

(** once a call of [feed] has failed, every later call fails with the same
    code, [finish] fails too, and after [reset] the decoder reports what a new
    one does. *)
Theorem decoder_failure_sticky max d input e d' :
  reachable max d -> feed d input = Some (Err e, d') ->
  (forall more, exists e', feed d' more = Some (Err e', d') /\ code e' = code e) /\
  is_ok (finish d') = false /\
  (forall chunks, fst <$> feed_all feed (reset d') chunks =
                  fst <$> feed_all feed (FrameDecoder_new max) chunks).
Proof.
  intros [Hw Hm]%reachable_wf Hfeed.
  destruct (@sd_feed_failed _ _ remote_decoder _ d input e d' Hw Hfeed) as (Hw' & Hm' & Hf' & Hc).
  unfold_decoder. split_and!.
  - intros more. exists (decoder_error (failure_code_ d')). unfold feed. by rewrite Hf'.
  - unfold finish. by rewrite Hf'.
  - intros chunks. apply (@feed_all_bytes _ _ remote_decoder _);
      try done; [by apply reset_wf|by apply FrameDecoder_new_wf|].
    by transitivity (max_frame_size_ d).
Qed.

Lemma decoder_failure_sticky_witness :
  let d' := fail protocol_error (FrameDecoder_new 64) in
  let e := mkError protocol_error (bs "remote frame magic is invalid") in
  (forall more, exists e', feed d' more = Some (Err e', d') /\ code e' = code e) /\
  is_ok (finish d') = false /\
  (forall chunks, fst <$> feed_all feed (reset d') chunks =
                  fst <$> feed_all feed (FrameDecoder_new 64) chunks).
Proof.
  apply (decoder_failure_sticky 64 (FrameDecoder_new 64) (replicate 24 Byte.x00));
    [apply reachable_new|vm_compute; reflexivity].
Defined.
