(* ===== verification/IpcFrame.v ===== *)
(** * IPC frames (src/ipc/frame.cpp, include/minitun/ipc/frame.hpp)

    Four-byte length-prefixed frames of the local IPC channel and their
    incremental decoder, an instance of [StreamDecoder]. *)
From S2P Require Import Prelude Common Codec Stream Frame.

Module Ipc.

Definition kFrameHeaderSize : nat := 4.
Definition kDefaultMaxFrameSize : Z := 1024 * 1024.

(** [effective_limit]. *)
Definition effective_limit (requested_limit : Z) : Z := Z.min requested_limit kDefaultMaxFrameSize.

Definition decoder_error (code : ErrorCode) : Error :=
  match code with
  | frame_too_large => mkError code (bs "IPC frame exceeds the configured size limit")
  | resource_exhausted => mkError code (bs "insufficient memory while decoding an IPC frame")
  | _ => mkError protocol_error (bs "IPC frame decoder is in a failed state")
  end.

(** [decode_length]. *)
Definition decode_length (header : bytes) : Z := read_u32_at header 0.

(** [encode_frame]; allocation does not fail. *)
Definition encode_frame (payload : bytes) (max_frame_size : Z) : Result bytes :=
  if bool_decide (payload = []) then failure protocol_error "IPC frame payload must not be empty"
  else
    let limit := effective_limit max_frame_size in
    if (limit <? Zlen payload) || (4294967295 <? Zlen payload) then
      failure frame_too_large "IPC frame exceeds the configured size limit"
    else Ok (u32_bytes (Zlen payload) ++ payload).

Record FrameDecoder : Set := mkFrameDecoder {
  max_frame_size_ : Z;
  expected_payload_size_ : Z;
  header_size_ : nat;
  header_ : bytes;
  payload_ : bytes;
  reading_payload_ : bool;
  failed_ : bool;
  failure_code_ : ErrorCode
}.

Definition FrameDecoder_new (max_frame_size : Z) : FrameDecoder :=
  mkFrameDecoder (effective_limit max_frame_size) 0 0 (replicate kFrameHeaderSize Byte.x00) []
    false false protocol_error.

Definition fail (code : ErrorCode) (d : FrameDecoder) : FrameDecoder :=
  mkFrameDecoder (max_frame_size_ d) 0 0 (header_ d) [] false true code.

Definition reset (d : FrameDecoder) : FrameDecoder :=
  mkFrameDecoder (max_frame_size_ d) 0 0 (header_ d) [] false false protocol_error.

Definition buffered_size (d : FrameDecoder) : Z := Z.of_nat (header_size_ d) + Zlen (payload_ d).

Definition finish (d : FrameDecoder) : Result unit :=
  if failed_ d then Err (decoder_error (failure_code_ d))
  else if negb (header_size_ d =? 0)%nat || reading_payload_ d then
    failure protocol_error "IPC stream ended in the middle of a frame"
  else success.

(** The payload half of an iteration of the loop of [feed], on the unread bytes. *)
Definition feed_payload (d : FrameDecoder) (input : bytes) :
    Result (option bytes * bytes) * FrameDecoder :=
  let expected := expected_payload_size_ d in
  let needed := (Z.to_nat expected - length (payload_ d))%nat in
  let count := Nat.min (length input) needed in
  let new_payload := payload_ d ++ take count input in
  let input := drop count input in
  if Zlen new_payload =? expected then
    (Ok (Some new_payload, input),
     mkFrameDecoder (max_frame_size_ d) 0 (header_size_ d) (header_ d) [] false (failed_ d)
       (failure_code_ d))
  else
    (Ok (None, input),
     mkFrameDecoder (max_frame_size_ d) expected (header_size_ d) (header_ d) new_payload
       (reading_payload_ d) (failed_ d) (failure_code_ d)).

(** One iteration of the loop of [feed]. *)
Definition feed_iteration (d : FrameDecoder) (input : bytes) :
    Result (option bytes * bytes) * FrameDecoder :=
  if negb (reading_payload_ d) then
    let available := length input in
    let needed := (kFrameHeaderSize - header_size_ d)%nat in
    let count := Nat.min available needed in
    let header := take (header_size_ d) (header_ d) ++ take count input ++
                  drop (header_size_ d + count) (header_ d) in
    let header_size := (header_size_ d + count)%nat in
    let input := drop count input in
    if negb (header_size =? kFrameHeaderSize)%nat then
      (Ok (None, input),
       mkFrameDecoder (max_frame_size_ d) (expected_payload_size_ d) header_size header
         (payload_ d) (reading_payload_ d) (failed_ d) (failure_code_ d))
    else
      let d := mkFrameDecoder (max_frame_size_ d) (decode_length header) 0 header (payload_ d)
                 (reading_payload_ d) (failed_ d) (failure_code_ d) in
      if max_frame_size_ d <? expected_payload_size_ d then
        let d := fail frame_too_large d in (Err (decoder_error (failure_code_ d)), d)
      else if expected_payload_size_ d =? 0 then
        (failure protocol_error "IPC frame payload must not be empty", fail protocol_error d)
      else
        feed_payload
          (mkFrameDecoder (max_frame_size_ d) (expected_payload_size_ d) (header_size_ d)
             (header_ d) [] true (failed_ d) (failure_code_ d)) input
  else feed_payload d input.

(** [feed]. *)
Definition feed (d : FrameDecoder) (input : bytes) :
    option (Result (list bytes) * FrameDecoder) :=
  if failed_ d then Some (Err (decoder_error (failure_code_ d)), d)
  else feed_loop feed_iteration (length input) d input [].

(** ** Reference definition *)

Definition next_frame (limit : Z) (s : bytes) : parse_step bytes :=
  if (length s <? kFrameHeaderSize)%nat then need_more
  else
    let size := be_decode (take kFrameHeaderSize s) in
    let body := drop kFrameHeaderSize s in
    if limit <? size then bad (decoder_error frame_too_large)
    else if size =? 0 then
      bad (mkError protocol_error (bs "IPC frame payload must not be empty"))
    else if Zlen body <? size then need_more
    else got (take (Z.to_nat size) body) (drop (Z.to_nat size) body).

(** ** Lemmas *)

Record decoder_wf (d : FrameDecoder) : Prop := {
  wf_limit : max_frame_size_ d <= kDefaultMaxFrameSize;
  wf_header : length (header_ d) = kFrameHeaderSize;
  wf_header_size : (header_size_ d < kFrameHeaderSize)%nat;
  wf_idle : reading_payload_ d = false -> payload_ d = [];
  wf_reading : reading_payload_ d = true ->
    header_size_ d = 0%nat /\ failed_ d = false /\
    Zlen (payload_ d) < expected_payload_size_ d <= max_frame_size_ d
}.

Definition pending (d : FrameDecoder) : bytes :=
  if reading_payload_ d then u32_bytes (expected_payload_size_ d) ++ payload_ d
  else take (header_size_ d) (header_ d).

#[export] Instance ipc_decoder : StreamDecoder FrameDecoder bytes := {
  sd_iteration := feed_iteration;
  sd_failed := failed_;
  sd_failure d := decoder_error (failure_code_ d);
  sd_limit := max_frame_size_;
  sd_next := next_frame;
  sd_wf := decoder_wf;
  sd_pending := pending
}.

Ltac unfold_decoder :=
  cbv [simulates sd_iteration sd_failed sd_failure sd_limit sd_next sd_wf sd_pending
       ipc_decoder] in *.

Lemma ipc_FrameDecoder_new_wf n : decoder_wf (FrameDecoder_new n).
Proof. split; try done; simpl; unfold effective_limit, kFrameHeaderSize; lia. Qed.

Lemma ipc_reset_wf d : decoder_wf d -> decoder_wf (reset d).
Proof. intros []. split; try done. unfold kFrameHeaderSize. simpl. lia. Qed.

Lemma ipc_next_frame_header limit n body :
  is_u32 n -> n <> 0 -> n <= limit ->
  next_frame limit (u32_bytes n ++ body) =
    if Zlen body <? n then need_more
    else got (take (Z.to_nat n) body) (drop (Z.to_nat n) body).
Proof.
  intros Hn H0 Hl. unfold next_frame. rewrite u32_bytes_be, length_app, length_be_encode.
  destruct (Nat.ltb_spec (4 + length body) kFrameHeaderSize); [unfold kFrameHeaderSize in *; lia|].
  unfold kFrameHeaderSize.
  assert (E1 : take 4 (be_encode 4 n ++ body) = be_encode 4 n) by done.
  assert (E2 : drop 4 (be_encode 4 n ++ body) = body) by done.
  rewrite E1, E2, be_decode_encode by exact Hn.
  destruct (Z.ltb_spec limit n), (Z.eqb_spec n 0); done || lia.
Qed.

(** The sizes [feed] rejects. *)
Definition limit_or_empty (n limit : Z) : bool := (limit <? n) || (n =? 0).

Lemma next_frame_bad limit n body :
  is_u32 n -> limit_or_empty n limit = true ->
  next_frame limit (u32_bytes n ++ body) =
    bad (if limit <? n then decoder_error frame_too_large
         else mkError protocol_error (bs "IPC frame payload must not be empty")).
Proof.
  intros Hn H0. unfold next_frame. rewrite u32_bytes_be, length_app, length_be_encode.
  destruct (Nat.ltb_spec (4 + length body) kFrameHeaderSize); [unfold kFrameHeaderSize in *; lia|].
  assert (E1 : take kFrameHeaderSize (be_encode 4 n ++ body) = be_encode 4 n) by done.
  rewrite E1, be_decode_encode by exact Hn. unfold limit_or_empty in H0.
  by destruct (limit <? n), (n =? 0).
Qed.

Lemma ipc_next_frame_short limit s :
  (length s < kFrameHeaderSize)%nat -> next_frame limit s = need_more.
Proof. intros Hs. unfold next_frame. by rewrite (proj2 (Nat.ltb_lt _ _) Hs). Qed.

Lemma feed_payload_simulates d input :
  decoder_wf d -> reading_payload_ d = true -> simulates d input (feed_payload d input).
Proof.
  intros Hd Hr. destruct (wf_reading _ Hd Hr) as (Hh0 & Hf & Hlen).
  unfold_decoder. unfold feed_payload. unfold pending at 1. rewrite Hr, <- app_assoc.
  pose proof (Zlen_nonneg (payload_ d)) as Hp.
  pose proof (wf_limit _ Hd) as Hlim. change kDefaultMaxFrameSize with 1048576 in Hlim.
  rewrite ipc_next_frame_header; [|unfold is_uint; lia|lia|lia].
  unfold Zlen in Hlen, Hp. rewrite Zlen_app.
  set (needed := (Z.to_nat (expected_payload_size_ d) - length (payload_ d))%nat).
  destruct (Z.ltb_spec (Zlen (payload_ d) + Zlen input) (expected_payload_size_ d)) as [Hs|Hs];
    unfold Zlen in Hs; rewrite Zlen_app; unfold Zlen at 1 2.
  - rewrite Nat.min_l, firstn_all, drop_all by lia.
    destruct (Z.eqb_spec (Z.of_nat (length (payload_ d)) + Z.of_nat (length input))
      (expected_payload_size_ d)); [lia|].
    eexists. split; [reflexivity|]. split_and!; try done.
    + destruct Hd. split; simpl; try done; try congruence.
      intros _. split_and!; try done; try lia. rewrite Zlen_app. unfold Zlen. lia.
    + unfold pending. cbn [reading_payload_ expected_payload_size_ payload_].
      by rewrite Hr, <- app_assoc.
  - rewrite Nat.min_r by lia. rewrite length_take, Nat.min_l by lia.
    destruct (Z.eqb_spec (Z.of_nat (length (payload_ d)) + Z.of_nat needed)
      (expected_payload_size_ d)); [|lia].
    rewrite take_app_ge, drop_app_ge by lia. eexists. split; [reflexivity|].
    split_and!; try done; [by destruct Hd|]. unfold pending. simpl. by rewrite Hh0.
Qed.

Lemma ipc_header_incomplete d input :
  decoder_wf d -> failed_ d = false -> reading_payload_ d = false ->
  (header_size_ d + length input < kFrameHeaderSize)%nat ->
  simulates d input (feed_iteration d input).
Proof.
  intros Hd Hf Hr Hlen. pose proof (wf_header _ Hd) as Hh.
  unfold_decoder. unfold feed_iteration. unfold pending at 1. rewrite Hr.
  cbv beta iota delta [negb].
  rewrite ipc_next_frame_short by (rewrite length_app, length_take; lia).
  rewrite Nat.min_l, firstn_all, drop_all by lia.
  destruct (Nat.eqb_spec (header_size_ d + length input) kFrameHeaderSize); [lia|].
  eexists. split; [reflexivity|].
  assert (Hl : length (take (header_size_ d) (header_ d)) = header_size_ d)
    by (rewrite length_take; lia).
  split_and!; try done.
  - destruct Hd. split; simpl; rewrite ?Hr; try done; auto.
    rewrite !length_app, Hl, length_drop. lia.
  - unfold pending. cbn [reading_payload_ header_size_ header_]. rewrite Hr.
    by rewrite app_assoc, take_app_le, take_ge by (rewrite length_app, Hl; lia).
Qed.

Lemma ipc_header_complete d hdr body :
  decoder_wf d -> failed_ d = false -> reading_payload_ d = false ->
  length hdr = (kFrameHeaderSize - header_size_ d)%nat ->
  simulates d (hdr ++ body) (feed_iteration d (hdr ++ body)).
Proof.
  intros Hd Hf Hr Hlen. pose proof (wf_header _ Hd) as Hh. pose proof (wf_header_size _ Hd) as Hs.
  unfold feed_iteration. rewrite Hr. cbv beta iota delta [negb].
  rewrite length_app, Nat.min_r, <- Hlen, take_app_length, drop_app_length by lia.
  rewrite (drop_ge (header_ d)), app_nil_r by lia.
  set (h := take (header_size_ d) (header_ d) ++ hdr).
  assert (Hlh : length h = kFrameHeaderSize) by (unfold h; rewrite length_app, length_take; lia).
  replace (header_size_ d + length hdr)%nat with kFrameHeaderSize by lia. rewrite Nat.eqb_refl.
  cbn [max_frame_size_ expected_payload_size_ header_size_ header_ failed_ failure_code_].
  assert (Hp : pending d ++ hdr ++ body = h ++ body).
  { unfold pending. rewrite Hr. by rewrite app_assoc. }
  assert (Hn : decode_length h = be_decode h).
  { unfold decode_length. rewrite read_u32_at_be by (rewrite Hlh; done).
    by rewrite drop_0, take_ge by (rewrite Hlh; done). }
  pose proof (be_decode_range h) as Hu. unfold Zlen in Hu. rewrite Hlh in Hu.
  assert (Hh4 : h = u32_bytes (be_decode h)).
  { by rewrite u32_bytes_be, <- (be_encode_decode h), Hlh, be_decode_encode. }
  set (n := be_decode h) in *. unfold_decoder. rewrite Hp, Hn.
  assert (Hbad : limit_or_empty n (max_frame_size_ d) = false -> n <> 0 /\ n <= max_frame_size_ d)
    by (unfold limit_or_empty; lia).
  destruct (limit_or_empty n (max_frame_size_ d)) eqn:E.
  - rewrite Hh4. rewrite next_frame_bad by done. unfold limit_or_empty in E.
    destruct (Z.ltb_spec (max_frame_size_ d) n).
    + eexists. split; [reflexivity|]. destruct Hd. split_and!; try done. split; try done.
      unfold kFrameHeaderSize. simpl. lia.
    + destruct (Z.eqb_spec n 0); [|done].
      eexists. split; [reflexivity|]. destruct Hd. split_and!; try done. split; try done.
      unfold kFrameHeaderSize. simpl. lia.
  - destruct (Hbad eq_refl) as [Hn0 Hle].
    destruct (Z.ltb_spec (max_frame_size_ d) n); [lia|].
    destruct (Z.eqb_spec n 0); [lia|].
    set (d' := mkFrameDecoder _ _ _ _ _ _ _ _).
    assert (Hd' : decoder_wf d').
    { destruct Hd. split; simpl; try done; [unfold kFrameHeaderSize; lia|].
      intros _. change (Zlen []) with 0. split_and!; try done. lia. }
    pose proof (feed_payload_simulates d' body Hd' eq_refl) as Hsp. unfold_decoder.
    assert (Hpd : pending d' = h).
    { unfold pending, d'. cbn [reading_payload_ expected_payload_size_ payload_].
      by rewrite app_nil_r. }
    rewrite Hpd in Hsp. exact Hsp.
Qed.

Lemma ipc_feed_iteration_simulates d input :
  decoder_wf d -> failed_ d = false -> simulates d input (feed_iteration d input).
Proof.
  intros Hd Hf. destruct (reading_payload_ d) eqn:Hr.
  { unfold feed_iteration. rewrite Hr. by apply feed_payload_simulates. }
  pose proof (wf_header_size _ Hd).
  destruct (decide (header_size_ d + length input < kFrameHeaderSize)%nat).
  - by apply ipc_header_incomplete.
  - rewrite <- (take_drop (kFrameHeaderSize - header_size_ d) input).
    apply ipc_header_complete; try done. rewrite length_take. lia.
Qed.

Lemma ipc_next_frame_app limit : extensible (next_frame limit).
Proof.
  intros s t. destruct (decide (length s < kFrameHeaderSize)%nat) as [Hs|Hs].
  { by rewrite (ipc_next_frame_short limit s). }
  unfold next_frame. rewrite length_app.
  destruct (Nat.ltb_spec (length s + length t) kFrameHeaderSize); [lia|].
  destruct (Nat.ltb_spec (length s) kFrameHeaderSize); [lia|].
  rewrite take_app_le, drop_app_le by lia. set (n := be_decode (take kFrameHeaderSize s)).
  destruct (limit <? n); [done|]. destruct (n =? 0); [done|].
  set (b := drop kFrameHeaderSize s). rewrite Zlen_app. pose proof (Zlen_nonneg t).
  destruct (Z.ltb_spec (Zlen b) n) as [|Hb]; [done|].
  destruct (Z.ltb_spec (Zlen b + Zlen t) n); [lia|].
  unfold Zlen in Hb. by rewrite take_app_le, drop_app_le by lia.
Qed.

(** The payload [p] as it stands on the wire. *)
Definition frame_image (p : bytes) : bytes := u32_bytes (Zlen p) ++ p.

Lemma ipc_next_frame_got_image limit s f s' :
  next_frame limit s = got f s' -> s = frame_image f ++ s' /\ f <> [] /\ Zlen f <= limit /\ is_u32 (Zlen f).
Proof.
  unfold next_frame. destruct (Nat.ltb_spec (length s) kFrameHeaderSize) as [|Hs]; [done|].
  set (h := take kFrameHeaderSize s). set (b := drop kFrameHeaderSize s).
  destruct (Z.ltb_spec limit (be_decode h)); [done|].
  destruct (Z.eqb_spec (be_decode h) 0); [done|].
  destruct (Z.ltb_spec (Zlen b) (be_decode h)) as [|Hb]; [done|]. intros [= <- <-].
  pose proof (be_decode_range h) as Hr. unfold Zlen in Hb.
  assert (Hl : Zlen (take (Z.to_nat (be_decode h)) b) = be_decode h)
    by (unfold Zlen; rewrite length_take; lia).
  assert (Hh : length h = 4%nat) by (unfold h, kFrameHeaderSize in *; rewrite length_take; lia).
  unfold frame_image. rewrite Hl. split_and!; [|intros E; by rewrite E in Hl|lia|].
  2: { unfold Zlen in Hr. by rewrite Hh in Hr. }
  rewrite u32_bytes_be, <- Hh, be_encode_decode, <- app_assoc, take_drop. unfold h, b.
  by rewrite take_drop.
Qed.

Lemma ipc_next_frame_image limit f s :
  f <> [] -> Zlen f <= limit -> is_u32 (Zlen f) ->
  next_frame limit (frame_image f ++ s) = got f s.
Proof.
  intros Hf Hl Hm.
  pose proof (Zlen_nonneg f). pose proof (Zlen_nonneg s). unfold frame_image.
  assert (Zlen f <> 0) by (intros E; apply Hf; destruct f; [done|]; rewrite Zlen_cons in E;
    pose proof (Zlen_nonneg f); lia).
  rewrite <- app_assoc, ipc_next_frame_header, Zlen_app by done.
  destruct (Z.ltb_spec (Zlen f + Zlen s) (Zlen f)); [lia|].
  unfold Zlen. by rewrite Nat2Z.id, take_app_length, drop_app_length.
Qed.

Lemma ipc_pending_incomplete d :
  decoder_wf d -> next_frame (max_frame_size_ d) (pending d) = need_more.
Proof.
  intros Hd. unfold pending. destruct (reading_payload_ d) eqn:Hr.
  - destruct (wf_reading _ Hd Hr) as (_ & _ & Hlen).
    pose proof (wf_limit _ Hd) as Hlim. pose proof (Zlen_nonneg (payload_ d)).
    change kDefaultMaxFrameSize with 1048576 in Hlim.
    rewrite ipc_next_frame_header; [|unfold is_uint; lia|lia|lia].
    destruct (Z.ltb_spec (Zlen (payload_ d)) (expected_payload_size_ d)); [done|lia].
  - apply ipc_next_frame_short. rewrite length_take. pose proof (wf_header_size _ Hd). lia.
Qed.

#[export] Instance ipc_decoder_laws : StreamDecoderLaws FrameDecoder bytes.
Proof.
  split.
  - exact ipc_next_frame_app.
  - intros limit s f s' (-> & Hf & Hl & Hu)%ipc_next_frame_got_image. exists (frame_image f).
    split; [done|]. rewrite <- (app_nil_r (frame_image f)). by apply ipc_next_frame_image.
  - exact ipc_pending_incomplete.
  - exact ipc_feed_iteration_simulates.
Qed.

Lemma ipc_encode_frame_ok f max s :
  encode_frame f max = Ok s <-> f <> [] /\ Zlen f <= effective_limit max /\ s = frame_image f.
Proof.
  unfold encode_frame, effective_limit. change kDefaultMaxFrameSize with 1048576.
  case_bool_decide as Hf; [naive_solver|].
  destruct (Z.ltb_spec (Z.min max 1048576) (Zlen f)); [simpl; naive_solver lia|].
  destruct (Z.ltb_spec 4294967295 (Zlen f)); [lia|]. simpl. unfold frame_image.
  split; [intros [= <-]|intros (_ & _ & ->)]; done.
Qed.

Lemma encoded_u32 (f : bytes) max : Zlen f <= effective_limit max -> is_u32 (Zlen f).
Proof.
  unfold effective_limit, is_uint. change kDefaultMaxFrameSize with 1048576.
  pose proof (Zlen_nonneg f). lia.
Qed.

Lemma ipc_splits_images max payloads images :
  Forall2 (fun p i => encode_frame p max = Ok i) payloads images <->
  Forall (fun p : bytes => p <> [] /\ Zlen p <= effective_limit max) payloads /\
  images = frame_image <$> payloads.
Proof.
  split.
  - induction 1 as [|p i ps ims (Hp & Hl & ->)%ipc_encode_frame_ok _ [IH ->]]; [done|].
    by split; [constructor|].
  - intros [Hp ->]. induction Hp as [|p ps [Hp Hl] _ IH]; constructor; [|done].
    by apply ipc_encode_frame_ok.
Qed.

Lemma splits_concat max payloads :
  Forall (fun p : bytes => p <> [] /\ Zlen p <= effective_limit max) payloads ->
  splits (next_frame (effective_limit max)) (concat (frame_image <$> payloads)) payloads [].
Proof.
  induction 1 as [|p ps [Hp Hl] _ IH]; simpl.
  - apply splits_done, ipc_next_frame_short. unfold kFrameHeaderSize. simpl. lia.
  - eapply splits_frame; [|exact IH]. apply ipc_next_frame_image; try done. by eapply encoded_u32.
Qed.

Lemma ipc_splits_inv max s payloads r :
  splits (next_frame (effective_limit max)) s payloads r ->
  Forall (fun p : bytes => p <> [] /\ Zlen p <= effective_limit max) payloads /\
  s = concat (frame_image <$> payloads) ++ r.
Proof.
  induction 1 as [s Hs|s f s' fs r (-> & Hf & Hl & _)%ipc_next_frame_got_image _ [IH ->]]; [done|].
  split; [by constructor|]. simpl. by rewrite app_assoc.
Qed.

Lemma ipc_finish_pending d :
  decoder_wf d -> failed_ d = false -> finish d = Ok tt <-> pending d = [].
Proof.
  intros Hd Hf. unfold finish, pending. rewrite Hf. destruct (reading_payload_ d) eqn:Hr.
  - by rewrite orb_true_r.
  - rewrite orb_false_r. pose proof (wf_header_size _ Hd). pose proof (wf_header _ Hd) as Hh.
    destruct (Nat.eqb_spec (header_size_ d) 0) as [E|E]; simpl; [by rewrite E|].
    split; [done|]. intros E'. apply (f_equal length) in E'. rewrite length_take in E'.
    simpl in E'. lia.
Qed.

(** States of a decoder under any sequence of calls. *)
Inductive reachable (max_frame_size : Z) : FrameDecoder -> Prop :=
| reachable_new : reachable max_frame_size (FrameDecoder_new max_frame_size)
| reachable_feed d input r d' :
    reachable max_frame_size d -> feed d input = Some (r, d') -> reachable max_frame_size d'
| reachable_reset d : reachable max_frame_size d -> reachable max_frame_size (reset d).

Lemma ipc_reachable_wf max d :
  reachable max d -> decoder_wf d /\ max_frame_size_ d = effective_limit max.
Proof.
  induction 1 as [|d input r d' _ [Hw Hm] Hfeed|d _ [Hw Hm]].
  - split; [apply ipc_FrameDecoder_new_wf|done].
  - destruct (@sd_feed_wf _ _ ipc_decoder _ d input r d' Hw Hfeed) as [Hw' Hm'].
    split; [done|]. by transitivity (max_frame_size_ d).
  - split; [by apply ipc_reset_wf|done].
Qed.

(** *** A receiver that expects one frame *)

(** The bytes a decoder holds back are all it has been given. *)
Definition awaiting (limit : Z) (d : FrameDecoder) (received : bytes) : Prop :=
  decoder_wf d /\ failed_ d = false /\ pending d = received /\
  max_frame_size_ d = effective_limit limit.

Lemma awaiting_new limit : awaiting limit (FrameDecoder_new limit) [].
Proof. split_and!; try done. apply ipc_FrameDecoder_new_wf. Qed.

(** What one [feed] leaves: payloads and an unfinished rest. *)
Lemma awaiting_feed limit d received data :
  awaiting limit d received -> exists r d', feed d data = Some (r, d') /\
    match r with
    | Ok payloads =>
        received ++ data = concat (frame_image <$> payloads) ++ pending d' /\
        awaiting limit d' (pending d')
    | Err _ => True
    end.
Proof.
  intros (Hw & Hf & Hp & Hm).
  destruct (@sd_feed_spec _ _ ipc_decoder ipc_decoder_laws d data Hw Hf) as (r & d' & E & Hw' & Hm' & Hr).
  exists r, d'. split; [exact E|]. destruct r as [ps|e]; [|done]. destruct Hr as [Hf' Hs].
  change (splits (next_frame (max_frame_size_ d)) (pending d ++ data) ps (pending d')) in Hs.
  change (max_frame_size_ d' = max_frame_size_ d) in Hm'.
  rewrite Hm, Hp in Hs. apply ipc_splits_inv in Hs as [_ Hs].
  split; [exact Hs|]. split_and!; [exact Hw'|exact Hf'|done|by rewrite Hm'].
Qed.

(** What [buffered_size] does not see: the header of a frame whose payload is missing. *)
Definition spare (limit : Z) (tail : bytes) : Prop :=
  tail = [] \/ exists n, tail = u32_bytes n /\ 0 < n <= effective_limit limit.

Lemma pending_spare limit d :
  awaiting limit d (pending d) -> buffered_size d = 0 -> spare limit (pending d).
Proof.
  intros (Hw & _ & _ & Hm) Hb. unfold buffered_size, spare, pending in *.
  pose proof (Zlen_nonneg (payload_ d)).
  destruct (reading_payload_ d) eqn:Hr.
  - destruct (wf_reading _ Hw Hr) as (_ & _ & Hl). right. exists (expected_payload_size_ d).
    assert (Hz : Zlen (payload_ d) = 0) by lia. rewrite <- Hm. split; [|lia].
    unfold Zlen in Hz. destruct (payload_ d); [by rewrite app_nil_r|by simpl in Hz].
  - left. assert (header_size_ d = 0%nat) as -> by lia. done.
Qed.

(** A frame followed by anything cannot be the beginning of another frame. *)
Lemma frame_image_prefix limit p q tail :
  p <> [] -> q <> [] -> Zlen p <= effective_limit limit -> Zlen q <= effective_limit limit ->
  (frame_image p ++ tail) `prefix_of` frame_image q -> p = q /\ tail = [].
Proof.
  intros Hp Hq Hlp Hlq [rest E].
  pose proof (ipc_next_frame_image (effective_limit limit) q [] Hq Hlq (encoded_u32 _ _ Hlq)) as Nq.
  pose proof (ipc_next_frame_image (effective_limit limit) p (tail ++ rest) Hp Hlp (encoded_u32 _ _ Hlp)) as Np.
  rewrite app_nil_r, E, <- app_assoc, Np in Nq. injection Nq as -> Ht. by apply app_eq_nil in Ht as [-> _].
Qed.

(** ** Theorems *)

(** the IPC decoder is total and exact on every stream and every way of cutting
    it into chunks: either all calls of [feed] succeed, the payloads returned are
    the ones whose encodings make up the stream, up to an unfinished rest that
    [finish] reports, or some call fails and leaves the decoder failed. *)
Theorem ipc_stream_exact max chunks :
  exists r d', feed_all feed (FrameDecoder_new max) chunks = Some (r, d') /\
    match r with
    | Ok payloads => exists images tail,
        Forall2 (fun p i => encode_frame p max = Ok i) payloads images /\
        concat chunks = concat images ++ tail /\ (finish d' = Ok tt <-> tail = [])
    | Err e => failed_ d' = true /\
        exists payloads, splits_bad (next_frame (effective_limit max)) (concat chunks) payloads e
    end.
Proof.
  destruct (@feed_all_spec _ _ ipc_decoder _ (FrameDecoder_new max) chunks
    (ipc_FrameDecoder_new_wf max) eq_refl) as (r & d' & E & Hw & _ & Hr).
  exists r, d'. split; [exact E|]. destruct r as [ps|e].
  - destruct Hr as [Hf Hs]. apply ipc_splits_inv in Hs as [Hp Hs].
    exists (frame_image <$> ps), (pending d'). split_and!; [by apply ipc_splits_images|exact Hs|..];
      by apply ipc_finish_pending.
  - destruct Hr as (Hf & _ & Hs). done.
Qed.

(** encoded IPC payloads, cut into chunks anywhere, are decoded into exactly
    those payloads, in order. *)
Theorem ipc_stream_roundtrip max payloads images chunks :
  Forall2 (fun p i => encode_frame p max = Ok i) payloads images ->
  concat chunks = concat images ->
  exists d', feed_all feed (FrameDecoder_new max) chunks = Some (Ok payloads, d') /\
    finish d' = Ok tt.
Proof.
  intros [Hp ->]%ipc_splits_images Hc. apply splits_concat in Hp.
  destruct (@feed_all_spec _ _ ipc_decoder _ (FrameDecoder_new max) chunks
    (ipc_FrameDecoder_new_wf max) eq_refl) as (r & d' & E & Hw & _ & Hr).
  cbn in Hr. rewrite Hc in Hr. destruct r as [fs|e].
  - destruct Hr as [Hf' Hs]. destruct (splits_det _ _ _ _ _ _ Hp Hs) as [-> Hpd].
    exists d'. split; [done|]. by apply ipc_finish_pending.
  - exfalso. destruct Hr as (_ & _ & fs & Hs). by eapply splits_not_bad.
Qed.

Lemma ipc_stream_roundtrip_witness :
  let ps := [bs "{}"; bs "[1]"] in
  exists d', feed_all feed (FrameDecoder_new 16)
      [[Byte.x00; Byte.x00]; [Byte.x00; Byte.x02; Byte.x7b]; Byte.x7d :: frame_image (bs "[1]")] =
    Some (Ok ps, d') /\ finish d' = Ok tt.
Proof.
  intros ps. apply (ipc_stream_roundtrip 16 ps (frame_image <$> ps)); [|by vm_compute].
  repeat constructor; by vm_compute.
Defined.

(** in every reachable state the IPC decoder buffers at most one payload plus
    its header, and less than 4 bytes plus the 1 MiB limit. *)
Theorem ipc_decoder_bounded max d :
  0 <= max -> reachable max d ->
  buffered_size d < Z.of_nat kFrameHeaderSize + max_frame_size_ d /\
  max_frame_size_ d <= Z.min max kDefaultMaxFrameSize.
Proof.
  intros H0 [Hw Hm]%ipc_reachable_wf. rewrite Hm. unfold effective_limit. split; [|lia].
  unfold buffered_size. pose proof (wf_header_size _ Hw) as Hs. unfold kFrameHeaderSize in *.
  change kDefaultMaxFrameSize with 1048576 in *.
  destruct (reading_payload_ d) eqn:Hr.
  - destruct (wf_reading _ Hw Hr) as (-> & _ & Hlen & Hmax). rewrite Hm in Hmax.
    unfold effective_limit in Hmax. change kDefaultMaxFrameSize with 1048576 in *. lia.
  - rewrite (wf_idle _ Hw Hr). change (Zlen []) with 0. lia.
Qed.

Lemma ipc_decoder_bounded_witness :
  let d := reset (FrameDecoder_new 512) in
  buffered_size d < Z.of_nat kFrameHeaderSize + max_frame_size_ d /\
  max_frame_size_ d <= Z.min 512 kDefaultMaxFrameSize.
Proof. apply (ipc_decoder_bounded 512); [lia|]. apply reachable_reset, reachable_new. Defined.
End Ipc.
