(* ===== verification/RemoteSdk.v ===== *)
(** * The remote protocol SDK (src/sdk/remote_protocol.cpp, include/minitun/remote_protocol.hpp)

    [Codec] pairs the typed messages with their message types and frames; its
    theorems rest on the [WireFormat] interface of the messages and on the
    [StreamDecoder] interface of the frame decoder. *)
From S2P Require Import Prelude Common Ids Codec Messages MessageFormat Stream Frame.

(** [EmptyMessage] and the [std::variant] [Message]. *)
Record EmptyMessage : Set := mkEmpty { empty_type : MessageType }.

Inductive Message : Set :=
| M_empty (m : EmptyMessage)
| M_hello (m : HelloMessage)
| M_hello_ack (m : HelloAckMessage)
| M_auth (m : AuthMessage)
| M_auth_ok (m : AuthOkMessage)
| M_auth_error (m : AuthErrorMessage)
| M_heartbeat (m : HeartbeatMessage)
| M_register_tunnel (m : RegisterTunnelMessage)
| M_register_tunnel_ok (m : RegisterTunnelOkMessage)
| M_register_tunnel_error (m : RegisterTunnelErrorMessage)
| M_unregister_tunnel (m : UnregisterTunnelMessage)
| M_request_workers (m : RequestWorkersMessage)
| M_worker_hello (m : WorkerHelloMessage)
| M_worker_accepted (m : WorkerAcceptedMessage)
| M_start_relay (m : StartRelayMessage)
| M_local_connect_ok (m : LocalConnectOkMessage)
| M_local_connect_error (m : LocalConnectErrorMessage).

(** [std::in_place_type<T>] and [std::get_if<T>]. *)
Class Alternative (T : Set) := {
  inject : T -> Message;
  get_if : Message -> option T;
  get_if_inject m : get_if (inject m) = Some m;
  get_if_Some x m : get_if x = Some m -> x = inject m
}.

Ltac alternative := try done; intros [] ?; simpl; intros; by simplify_eq.

#[export] Program Instance alt_empty : Alternative EmptyMessage :=
  {| inject := M_empty; get_if x := match x with M_empty m => Some m | _ => None end |}.
Solve Obligations with alternative.
#[export] Program Instance alt_hello : Alternative HelloMessage :=
  {| inject := M_hello; get_if x := match x with M_hello m => Some m | _ => None end |}.
Solve Obligations with alternative.
#[export] Program Instance alt_hello_ack : Alternative HelloAckMessage :=
  {| inject := M_hello_ack;
     get_if x := match x with M_hello_ack m => Some m | _ => None end |}.
Solve Obligations with alternative.
#[export] Program Instance alt_auth : Alternative AuthMessage :=
  {| inject := M_auth;
     get_if x := match x with M_auth m => Some m | _ => None end |}.
Solve Obligations with alternative.
#[export] Program Instance alt_auth_ok : Alternative AuthOkMessage :=
  {| inject := M_auth_ok;
     get_if x := match x with M_auth_ok m => Some m | _ => None end |}.
Solve Obligations with alternative.
#[export] Program Instance alt_auth_error : Alternative AuthErrorMessage :=
  {| inject := M_auth_error;
     get_if x := match x with M_auth_error m => Some m | _ => None end |}.
Solve Obligations with alternative.
#[export] Program Instance alt_heartbeat : Alternative HeartbeatMessage :=
  {| inject := M_heartbeat;
     get_if x := match x with M_heartbeat m => Some m | _ => None end |}.
Solve Obligations with alternative.
#[export] Program Instance alt_register_tunnel : Alternative RegisterTunnelMessage :=
  {| inject := M_register_tunnel;
     get_if x := match x with M_register_tunnel m => Some m | _ => None end |}.
Solve Obligations with alternative.
#[export] Program Instance alt_register_tunnel_ok : Alternative RegisterTunnelOkMessage :=
  {| inject := M_register_tunnel_ok;
     get_if x := match x with M_register_tunnel_ok m => Some m | _ => None end |}.
Solve Obligations with alternative.
#[export] Program Instance alt_register_tunnel_error : Alternative RegisterTunnelErrorMessage :=
  {| inject := M_register_tunnel_error;
     get_if x := match x with M_register_tunnel_error m => Some m | _ => None end |}.
Solve Obligations with alternative.
#[export] Program Instance alt_unregister_tunnel : Alternative UnregisterTunnelMessage :=
  {| inject := M_unregister_tunnel;
     get_if x := match x with M_unregister_tunnel m => Some m | _ => None end |}.
Solve Obligations with alternative.
#[export] Program Instance alt_request_workers : Alternative RequestWorkersMessage :=
  {| inject := M_request_workers;
     get_if x := match x with M_request_workers m => Some m | _ => None end |}.
Solve Obligations with alternative.
#[export] Program Instance alt_worker_hello : Alternative WorkerHelloMessage :=
  {| inject := M_worker_hello;
     get_if x := match x with M_worker_hello m => Some m | _ => None end |}.
Solve Obligations with alternative.
#[export] Program Instance alt_worker_accepted : Alternative WorkerAcceptedMessage :=
  {| inject := M_worker_accepted;
     get_if x := match x with M_worker_accepted m => Some m | _ => None end |}.
Solve Obligations with alternative.
#[export] Program Instance alt_start_relay : Alternative StartRelayMessage :=
  {| inject := M_start_relay;
     get_if x := match x with M_start_relay m => Some m | _ => None end |}.
Solve Obligations with alternative.
#[export] Program Instance alt_local_connect_ok : Alternative LocalConnectOkMessage :=
  {| inject := M_local_connect_ok;
     get_if x := match x with M_local_connect_ok m => Some m | _ => None end |}.
Solve Obligations with alternative.
#[export] Program Instance alt_local_connect_error : Alternative LocalConnectErrorMessage :=
  {| inject := M_local_connect_error;
     get_if x := match x with M_local_connect_error m => Some m | _ => None end |}.
Solve Obligations with alternative.

(** [encode_as<T>]. *)
Definition encode_as {T : Set} `{Alternative T} (encoder : T -> Result bytes) (message : Message) :
    Result bytes :=
  match get_if message with
  | None => failure invalid_argument "remote SDK message value does not match its message type"
  | Some value => encoder value
  end.

(** [message_result<T>]. *)
Definition message_result {T : Set} `{Alternative T} (decoded : Result T) : Result Message :=
  match decoded with Err e => Err e | Ok value => Ok (inject value) end.

(** [encode_payload]. *)
Definition encode_payload (type : MessageType) (message : Message) : Result bytes :=
  match type with
  | hello => encode_as encode_hello message
  | hello_ack => encode_as encode_hello_ack message
  | auth => encode_as encode_auth message
  | auth_ok => encode_as encode_auth_ok message
  | auth_error => encode_as encode_auth_error message
  | ping | pong => encode_as encode_heartbeat message
  | register_tunnel => encode_as encode_register_tunnel message
  | register_tunnel_ok => encode_as encode_register_tunnel_ok message
  | register_tunnel_error => encode_as encode_register_tunnel_error message
  | unregister_tunnel => encode_as encode_unregister_tunnel message
  | unregister_tunnel_ok => encode_as encode_unregister_tunnel_ok message
  | request_workers => encode_as encode_request_workers message
  | worker_hello => encode_as encode_worker_hello message
  | worker_accepted => encode_as encode_worker_accepted message
  | start_relay => encode_as encode_start_relay message
  | local_connect_ok => encode_as encode_local_connect_ok message
  | local_connect_error => encode_as encode_local_connect_error message
  | goaway | error =>
      match get_if message : option EmptyMessage with
      | Some empty =>
          if decide (empty_type empty = type) then Ok []
          else failure invalid_argument "remote SDK empty message does not match its message type"
      | None => failure invalid_argument "remote SDK empty message does not match its message type"
      end
  | unlisted_type _ => failure invalid_argument "remote SDK message type is unsupported"
  end.

(** [Codec::make_frame]. *)
Definition make_frame (type : MessageType) (request_id : Z) (message : Message) : Result Frame :=
  payload ← encode_payload type message;
  Ok (mkFrame type 0 request_id payload).

(** [Codec::decode_message]. *)
Definition decode_message `{AsioMakeAddress} (frame : Frame) : Result Message :=
  match type frame with
  | hello => message_result (decode_hello (payload frame))
  | hello_ack => message_result (decode_hello_ack (payload frame))
  | auth => message_result (decode_auth (payload frame))
  | auth_ok => message_result (decode_auth_ok (payload frame))
  | auth_error => message_result (decode_auth_error (payload frame))
  | ping | pong => message_result (decode_heartbeat (payload frame))
  | register_tunnel => message_result (decode_register_tunnel (payload frame))
  | register_tunnel_ok => message_result (decode_register_tunnel_ok (payload frame))
  | register_tunnel_error => message_result (decode_register_tunnel_error (payload frame))
  | unregister_tunnel | unregister_tunnel_ok =>
      message_result (decode_unregister_tunnel (payload frame))
  | request_workers => message_result (decode_request_workers (payload frame))
  | worker_hello => message_result (decode_worker_hello (payload frame))
  | worker_accepted => message_result (decode_worker_accepted (payload frame))
  | start_relay => message_result (decode_start_relay (payload frame))
  | local_connect_ok => message_result (decode_local_connect_ok (payload frame))
  | local_connect_error => message_result (decode_local_connect_error (payload frame))
  | goaway | error =>
      if negb (bool_decide (payload frame = [])) then
        failure protocol_error "remote SDK empty control message contains a payload"
      else Ok (inject (mkEmpty (type frame)))
  | unlisted_type _ => failure protocol_error "remote SDK message type is unsupported"
  end.

(** ** Decoder

    [implementation_] is [None] after a move. *)
Record Decoder : Set := mkDecoder { implementation_ : option FrameDecoder }.

Definition Decoder_new (max_frame_size : Z) : Decoder :=
  mkDecoder (Some (FrameDecoder_new max_frame_size)).

Definition Decoder_feed (d : Decoder) (input : bytes) :
    option (Result (list Frame) * Decoder) :=
  match implementation_ d with
  | None => Some (failure invalid_argument "remote SDK decoder was moved from", d)
  | Some decoder =>
      match feed decoder input with
      | Some (r, decoder) => Some (r, mkDecoder (Some decoder))
      | None => None
      end
  end.

Definition Decoder_finish (d : Decoder) : Result unit :=
  match implementation_ d with
  | None => failure invalid_argument "remote SDK decoder was moved from"
  | Some decoder => finish decoder
  end.

Definition Decoder_reset (d : Decoder) : Decoder :=
  match implementation_ d with
  | None => d
  | Some decoder => mkDecoder (Some (reset decoder))
  end.

(** The move constructor: the new object and the moved-from one. *)
Definition Decoder_move (d : Decoder) : Decoder * Decoder := (d, mkDecoder None).

(** ** Lemmas *)

Section Laws.
Context `{AsioMakeAddress}.

(** [x] is the alternative [T] with a value that can be sent. *)
Definition carries (T : Set) `{Alternative T} `{WireFormat T} (x : Message) : Prop :=
  exists m : T, x = inject m /\ wf m.

(** The messages of each type. *)
Definition message_wf (t : MessageType) (x : Message) : Prop :=
  match t with
  | hello => carries HelloMessage x
  | hello_ack => carries HelloAckMessage x
  | auth => carries AuthMessage x
  | auth_ok => carries AuthOkMessage x
  | auth_error => carries AuthErrorMessage x
  | ping | pong => carries HeartbeatMessage x
  | register_tunnel => carries RegisterTunnelMessage x
  | register_tunnel_ok => carries RegisterTunnelOkMessage x
  | register_tunnel_error => carries RegisterTunnelErrorMessage x
  | unregister_tunnel | unregister_tunnel_ok => carries UnregisterTunnelMessage x
  | request_workers => carries RequestWorkersMessage x
  | worker_hello => carries WorkerHelloMessage x
  | worker_accepted => carries WorkerAcceptedMessage x
  | start_relay => carries StartRelayMessage x
  | local_connect_ok => carries LocalConnectOkMessage x
  | local_connect_error => carries LocalConnectErrorMessage x
  | goaway | error => x = inject (mkEmpty t)
  | unlisted_type _ => False
  end.

Lemma carries_roundtrip (T : Set) `{Alternative T} `{WireFormatLaws T} x :
  carries T x -> exists p, encode_as encode x = Ok p /\
    message_result (decode p) = Ok x /\ Zlen p <= kMaxPayloadSize.
Proof.
  intros (m & -> & Hm). exists (image m). unfold encode_as, message_result.
  rewrite get_if_inject, encode_image, decode_image by done. auto using image_bound.
Qed.

Lemma carries_canonical (T : Set) `{Alternative T} `{WireFormatLaws T} p x :
  message_result (decode p) = Ok x -> carries T x /\ encode_as encode x = Ok p.
Proof.
  unfold message_result. destruct (decode p) as [m|e] eqn:E; [|done]. intros [= <-].
  apply decode_inv in E as [Hm ->]. split; [by exists m|].
  unfold encode_as. by rewrite get_if_inject, encode_image.
Qed.

Lemma payload_roundtrip t rid x :
  message_wf t x -> exists p, encode_payload t x = Ok p /\
    decode_message (mkFrame t 0 rid p) = Ok x /\ Zlen p <= kMaxPayloadSize /\
    (t ∈ kMessageTypes).
Proof.
  intros Hx. assert (Ht : t ∈ kMessageTypes) by (destruct t; [unfold kMessageTypes; set_solver..|done]).
  destruct t; cbn [message_wf] in Hx; try done;
    try (destruct (carries_roundtrip _ _ Hx) as (p & He & Hd & Hb); exists p;
         split_and!; [exact He|exact Hd|exact Hb|exact Ht]).
  all: exists []; subst; split_and!; done.
Qed.

Lemma payload_canonical f x :
  decode_message f = Ok x -> message_wf (type f) x /\ encode_payload (type f) x = Ok (payload f).
Proof.
  destruct f as [t fl rid p]. intros Hx.
  destruct t; try done; cbn [message_wf type];
    try match goal with |- carries ?T _ /\ _ => exact (carries_canonical T p x Hx) end.
  all: unfold decode_message in Hx; cbn [type payload] in *; case_bool_decide; [|done];
    simpl in Hx; simplify_eq; done.
Qed.
End Laws.

(** The wrapper feeds the decoder it owns. *)
Lemma feed_all_Decoder d chunks :
  feed_all Decoder_feed (mkDecoder (Some d)) chunks =
  (fun '(r, d) => (r, mkDecoder (Some d))) <$> feed_all feed d chunks.
Proof.
  revert d. induction chunks as [|c chunks IH]; intros d; [done|]. cbn [feed_all].
  unfold Decoder_feed at 1. cbn [implementation_].
  destruct (feed d c) as [[[fs|e] d1]|]; [|done..]. rewrite IH.
  by destruct (feed_all feed d1 chunks) as [[[]]|].
Qed.

Definition typed_message : Set := MessageType * Z * Message.

(** [f] is the frame [make_frame] makes of a message. *)
Definition framed (m : typed_message) (f : Frame) : Prop :=
  let '(t, rid, x) := m in make_frame t rid x = Ok f.

Section Framing.
Context `{AsioMakeAddress}.

Definition sendable (m : typed_message) : Prop :=
  let '(t, rid, x) := m in message_wf t x /\ is_u64 rid.

(** [f] is read as the message [m]. *)
Definition received (f : Frame) (m : typed_message) : Prop :=
  let '(t, rid, x) := m in type f = t /\ request_id f = rid /\ decode_message f = Ok x.

Lemma make_frame_ok t rid x :
  message_wf t x -> is_u64 rid -> exists f i, make_frame t rid x = Ok f /\
    encoded_as kMaxFrameSize f i /\ received f (t, rid, x).
Proof.
  intros Hx Hr. destruct (payload_roundtrip t rid x Hx) as (p & He & Hd & Hb & Ht).
  exists (mkFrame t 0 rid p), (frame_image (mkFrame t 0 rid p)).
  unfold make_frame, encoded_as. rewrite He. split_and!; try done.
  apply encode_frame_image; [done..|]. cbn [payload]. unfold kMaxPayloadSize in Hb.
  change (effective_frame_limit kMaxFrameSize) with kMaxFrameSize. lia.
Qed.

Lemma make_frames_ok ms :
  Forall sendable ms -> exists frames images, Forall2 framed ms frames /\
    Forall2 (encoded_as kMaxFrameSize) frames images /\ Forall2 received frames ms.
Proof.
  induction 1 as [|[[t rid] x] ms [Hx Hr] _ (fs & ims & Hm & He & Hd)].
  { exists [], []. by split_and!. }
  destruct (make_frame_ok t rid x Hx Hr) as (f & i & Hf & Hi & Hrec).
  exists (f :: fs), (i :: ims). split_and!; by constructor.
Qed.

(** ** Theorems *)

(** a typed message whose fields are valid is framed, fits the frame limit, and
    is read back from its frame as the same message. *)
Theorem sdk_message_roundtrip t rid x :
  message_wf t x -> exists f, make_frame t rid x = Ok f /\ type f = t /\ flags f = 0 /\
    request_id f = rid /\ is_ok (encode_frame f kMaxFrameSize) = true /\
    decode_message f = Ok x.
Proof.
  intros Hx. destruct (payload_roundtrip t rid x Hx) as (p & He & Hd & Hb & Ht).
  exists (mkFrame t 0 rid p). unfold make_frame. rewrite He. split_and!; try done.
  rewrite encode_frame_image; [done..|]. cbn [payload]. unfold kMaxPayloadSize in Hb.
  change (effective_frame_limit kMaxFrameSize) with kMaxFrameSize. lia.
Qed.

(** every message has one representation: a frame without flags that is decoded
    as a message is the frame [make_frame] makes of that message, and the message
    satisfies all field constraints of its type. *)
Theorem sdk_message_canonical f x :
  flags f = 0 -> decode_message f = Ok x ->
  message_wf (type f) x /\ make_frame (type f) (request_id f) x = Ok f.
Proof.
  intros Hf [Hx He]%payload_canonical. split; [done|]. unfold make_frame. rewrite He.
  destruct f. simpl in *. by subst.
Qed.

(** C1: end to end: typed messages that are framed, encoded and written to a stream
    are, however the stream is cut into reads, received as the same messages with
    their types and request ids, in order. *)
Theorem sdk_end_to_end ms :
  Forall sendable ms -> exists frames images, Forall2 framed ms frames /\
    Forall2 (fun f i => encode_frame f kMaxFrameSize = Ok i) frames images /\
    forall chunks, concat chunks = concat images ->
      exists d', feed_all Decoder_feed (Decoder_new kMaxFrameSize) chunks = Some (Ok frames, d') /\
        Decoder_finish d' = Ok tt /\ Forall2 received frames ms.
Proof.
  intros Hms. destruct (make_frames_ok ms Hms) as (fs & ims & Hm & He & Hd).
  exists fs, ims. split_and!; [done| |].
  { eapply Forall2_impl; [exact He|]. by intros f i (_ & _ & Hfi). }
  intros chunks Hc. destruct (feed_images _ _ _ _ He Hc) as (d' & E & Hfin & _).
  exists (mkDecoder (Some d')). unfold Decoder_new. rewrite feed_all_Decoder, E. done.
Qed.
End Framing.

(** ** Witnesses *)

(** Addresses that [asio::ip::make_address] accepts, among the ones used here. *)
Definition sample_make_address : AsioMakeAddress := fun host => bool_decide (host = bs "127.0.0.1").

Definition sample_tunnel_id : bytes := bs "tun_0123456789abcdef0123456789abcdef".
Definition sample_connection_id : bytes := bs "conn_0123456789abcdef0123456789abcdef".
Definition sample_relay : Message :=
  M_start_relay (mkStartRelay sample_tunnel_id sample_connection_id udp
    (Some (bs "127.0.0.1")) (Some 443) None).

Lemma sample_relay_wf : @message_wf sample_make_address start_relay sample_relay.
Proof.
  eexists. split; [reflexivity|]. cbv [wf start_relay_format].
  split_and!; try (apply valid_id_canonical; vm_compute; reflexivity); [done|].
  unfold relay_source_wf, relay_host_wf, is_uint. simpl.
  split_and!; vm_compute; first [done|congruence].
Qed.

Lemma sdk_message_roundtrip_witness :
  exists f, make_frame start_relay 9 sample_relay = Ok f /\ type f = start_relay /\
    flags f = 0 /\ request_id f = 9 /\ is_ok (encode_frame f kMaxFrameSize) = true /\
    @decode_message sample_make_address f = Ok sample_relay.
Proof. apply (@sdk_message_roundtrip sample_make_address). apply sample_relay_wf. Defined.

Lemma sdk_message_canonical_witness :
  let f := mkFrame ping 0 5 (u64_bytes 77) in
  @message_wf sample_make_address (type f) (M_heartbeat (mkHeartbeat 77)) /\
  make_frame (type f) (request_id f) (M_heartbeat (mkHeartbeat 77)) = Ok f.
Proof. intros f. apply sdk_message_canonical; vm_compute; reflexivity. Defined.

Lemma sdk_end_to_end_witness :
  let ms := [(start_relay, 1, sample_relay); (goaway, 2, M_empty (mkEmpty goaway))] in
  exists frames images, Forall2 framed ms frames /\
    Forall2 (fun f i => encode_frame f kMaxFrameSize = Ok i) frames images /\
    forall chunks, concat chunks = concat images ->
      exists d', feed_all Decoder_feed (Decoder_new kMaxFrameSize) chunks = Some (Ok frames, d') /\
        Decoder_finish d' = Ok tt /\ Forall2 (@received sample_make_address) frames ms.
Proof.
  intros ms. apply (@sdk_end_to_end sample_make_address).
  repeat constructor; try apply sample_relay_wf; vm_compute; congruence.
Defined.
