(* ===== verification/StateMachine.v ===== *)
(** * Connection state machine (src/protocol/state_machine.cpp, include/minitun/protocol/state_machine.hpp)

    Each end of a control or worker connection runs a [StateMachine] that accepts
    or rejects every message it sends or receives.  The theorems are about the two
    ends together, linked by the two directions of a reliable connection, and about
    the order of messages one end insists on. *)
From S2P Require Import Prelude Common Frame.

Inductive PeerRole : Set := client | server.
Inductive ConnectionKind : Set := control | worker.

Inductive ConnectionState : Set :=
| client_send_hello
| client_wait_hello_ack
| client_send_auth
| client_wait_auth_result
| server_wait_hello
| server_send_hello_ack
| server_wait_auth
| server_send_auth_result
| authenticated
| client_send_worker_hello
| client_wait_worker_accepted
| server_wait_worker_hello
| server_send_worker_accepted
| worker_idle
| client_connecting_local
| server_wait_local_result
| relay
| closing.

Inductive Direction : Set := send | receive.

#[export] Instance PeerRole_eq_decision : EqDecision PeerRole.
Proof. solve_decision. Defined.
#[export] Instance ConnectionKind_eq_decision : EqDecision ConnectionKind.
Proof. solve_decision. Defined.
#[export] Instance ConnectionState_eq_decision : EqDecision ConnectionState.
Proof. solve_decision. Defined.
#[export] Instance Direction_eq_decision : EqDecision Direction.
Proof. solve_decision. Defined.

(** [to_string(ConnectionState)]. *)
Definition connection_state_to_string (s : ConnectionState) : string :=
  match s with
  | client_send_hello => "client_send_hello"
  | client_wait_hello_ack => "client_wait_hello_ack"
  | client_send_auth => "client_send_auth"
  | client_wait_auth_result => "client_wait_auth_result"
  | server_wait_hello => "server_wait_hello"
  | server_send_hello_ack => "server_send_hello_ack"
  | server_wait_auth => "server_wait_auth"
  | server_send_auth_result => "server_send_auth_result"
  | authenticated => "authenticated"
  | client_send_worker_hello => "client_send_worker_hello"
  | client_wait_worker_accepted => "client_wait_worker_accepted"
  | server_wait_worker_hello => "server_wait_worker_hello"
  | server_send_worker_accepted => "server_send_worker_accepted"
  | worker_idle => "worker_idle"
  | client_connecting_local => "client_connecting_local"
  | server_wait_local_result => "server_wait_local_result"
  | relay => "relay"
  | closing => "closing"
  end.

(** [type == a || type == b || ...]. *)
Definition one_of (type : MessageType) (types : list MessageType) : bool :=
  existsb (fun t => bool_decide (type = t)) types.

Definition client_authenticated_message (sending : bool) (type : MessageType) : bool :=
  if sending then one_of type [register_tunnel; unregister_tunnel; ping; pong]
  else one_of type [register_tunnel_ok; register_tunnel_error; unregister_tunnel_ok;
                    request_workers; ping; pong].

Definition server_authenticated_message (sending : bool) (type : MessageType) : bool :=
  if sending then one_of type [register_tunnel_ok; register_tunnel_error; unregister_tunnel_ok;
                               request_workers; ping; pong]
  else one_of type [register_tunnel; unregister_tunnel; ping; pong].

Record StateMachine : Set := mkStateMachine {
  role_ : PeerRole;
  kind_ : ConnectionKind;
  state_ : ConnectionState
}.

Definition StateMachine_new (role : PeerRole) (kind : ConnectionKind) : StateMachine :=
  mkStateMachine role kind
    (if decide (kind = control) then
       (if decide (role = client) then client_send_hello else server_wait_hello)
     else (if decide (role = client) then client_send_worker_hello
           else server_wait_worker_hello)).

Definition framed_mode (m : StateMachine) : bool :=
  negb (bool_decide (state_ m = relay)) && negb (bool_decide (state_ m = closing)).

Definition invalid_transition : Result unit :=
  failure protocol_error "remote protocol message is invalid for the current connection state".

(** [state_ = state; return success();] *)
Definition enter (state : ConnectionState) : Action StateMachine unit :=
  fun m => (success, mkStateMachine (role_ m) (kind_ m) state).

(** [return invalid_transition(type);] *)
Definition reject : Action StateMachine unit := fun m => (invalid_transition, m).

(** [transition]. *)
Definition transition (direction : Direction) (type : MessageType) : Action StateMachine unit :=
  fun m =>
  let on d t := bool_decide (direction = d) && bool_decide (type = t) in
  if bool_decide (state_ m = relay) || bool_decide (state_ m = closing) then reject m
  else if bool_decide (type = goaway) || bool_decide (type = error) then enter closing m
  else if bool_decide (kind_ m = control) && negb (is_control_message type) then reject m
  else if bool_decide (kind_ m = worker) && negb (is_worker_message type) then reject m
  else
    match state_ m with
    | client_send_hello =>
        if on send hello then enter client_wait_hello_ack m else reject m
    | client_wait_hello_ack =>
        if on receive hello_ack then enter client_send_auth m else reject m
    | client_send_auth =>
        if on send auth then enter client_wait_auth_result m else reject m
    | client_wait_auth_result =>
        if on receive auth_ok then enter authenticated m
        else if on receive auth_error then enter closing m else reject m
    | server_wait_hello =>
        if on receive hello then enter server_send_hello_ack m else reject m
    | server_send_hello_ack =>
        if on send hello_ack then enter server_wait_auth m else reject m
    | server_wait_auth =>
        if on receive auth then enter server_send_auth_result m else reject m
    | server_send_auth_result =>
        if on send auth_ok then enter authenticated m
        else if on send auth_error then enter closing m else reject m
    | authenticated =>
        if (bool_decide (role_ m = client)
            && client_authenticated_message (bool_decide (direction = send)) type)
           || (bool_decide (role_ m = server)
               && server_authenticated_message (bool_decide (direction = send)) type)
        then (success, m) else reject m
    | client_send_worker_hello =>
        if on send worker_hello then enter client_wait_worker_accepted m else reject m
    | client_wait_worker_accepted =>
        if on receive worker_accepted then enter worker_idle m else reject m
    | server_wait_worker_hello =>
        if on receive worker_hello then enter server_send_worker_accepted m else reject m
    | server_send_worker_accepted =>
        if on send worker_accepted then enter worker_idle m else reject m
    | worker_idle =>
        if bool_decide (role_ m = client) && on receive start_relay then
          enter client_connecting_local m
        else if bool_decide (role_ m = server) && on send start_relay then
          enter server_wait_local_result m
        else reject m
    | client_connecting_local =>
        if on send local_connect_ok then enter relay m
        else if on send local_connect_error then enter closing m else reject m
    | server_wait_local_result =>
        if on receive local_connect_ok then enter relay m
        else if on receive local_connect_error then enter closing m else reject m
    | relay | closing => reject m
    end.

Definition on_send (type : MessageType) : Action StateMachine unit := transition send type.
Definition on_receive (type : MessageType) : Action StateMachine unit := transition receive type.

(** ** The two ends of a connection

    A [System] is a client, a server and the messages under way in each direction.
    An end puts on the wire what its state machine lets it send and takes the next
    message off the wire when its state machine accepts it. *)
Record System : Set := mkSystem {
  sys_client : StateMachine;
  sys_server : StateMachine;
  to_server : list MessageType;
  to_client : list MessageType
}.

Definition System_new (kind : ConnectionKind) : System :=
  mkSystem (StateMachine_new client kind) (StateMachine_new server kind) [] [].

Inductive system_step : System -> System -> Prop :=
| client_sends c s u d t c' :
    on_send t c = (Ok tt, c') -> system_step (mkSystem c s u d) (mkSystem c' s (u ++ [t]) d)
| server_sends c s u d t s' :
    on_send t s = (Ok tt, s') -> system_step (mkSystem c s u d) (mkSystem c s' u (d ++ [t]))
| server_receives c s u d t s' :
    on_receive t s = (Ok tt, s') -> system_step (mkSystem c s (t :: u) d) (mkSystem c s' u d)
| client_receives c s u d t c' :
    on_receive t c = (Ok tt, c') -> system_step (mkSystem c s u (t :: d)) (mkSystem c' s u d).

Inductive system_reachable (kind : ConnectionKind) : System -> Prop :=
| system_start : system_reachable kind (System_new kind)
| system_next x y : system_reachable kind x -> system_step x y -> system_reachable kind y.

(** ** Lemmas *)

(** The states of the two ends and the messages under way that can occur together
    while neither end has closed the connection early. *)
Inductive linked : ConnectionKind -> ConnectionState -> ConnectionState ->
    list MessageType -> list MessageType -> Prop :=
| link_start : linked control client_send_hello server_wait_hello [] []
| link_hello : linked control client_wait_hello_ack server_wait_hello [hello] []
| link_hello_in : linked control client_wait_hello_ack server_send_hello_ack [] []
| link_ack : linked control client_wait_hello_ack server_wait_auth [] [hello_ack]
| link_ack_in : linked control client_send_auth server_wait_auth [] []
| link_auth : linked control client_wait_auth_result server_wait_auth [auth] []
| link_auth_in : linked control client_wait_auth_result server_send_auth_result [] []
| link_ok d : forallb (server_authenticated_message true) d = true ->
    linked control client_wait_auth_result authenticated [] (auth_ok :: d)
| link_refused : linked control client_wait_auth_result closing [] [auth_error]
| link_session u d : forallb (client_authenticated_message true) u = true ->
    forallb (server_authenticated_message true) d = true ->
    linked control authenticated authenticated u d
| link_worker_start : linked worker client_send_worker_hello server_wait_worker_hello [] []
| link_worker_hello :
    linked worker client_wait_worker_accepted server_wait_worker_hello [worker_hello] []
| link_worker_hello_in :
    linked worker client_wait_worker_accepted server_send_worker_accepted [] []
| link_accepted : linked worker client_wait_worker_accepted worker_idle [] [worker_accepted]
| link_accepted_relay : linked worker client_wait_worker_accepted server_wait_local_result []
    [worker_accepted; start_relay]
| link_idle : linked worker worker_idle worker_idle [] []
| link_start_relay : linked worker worker_idle server_wait_local_result [] [start_relay]
| link_connecting : linked worker client_connecting_local server_wait_local_result [] []
| link_connected : linked worker relay server_wait_local_result [local_connect_ok] []
| link_refused_local : linked worker closing server_wait_local_result [local_connect_error] []
| link_relay : linked worker relay relay [] []
| link_ended k : linked k closing closing [] [].

(** GOAWAY and ERROR close a connection from any framed state. *)
Definition terminal (t : MessageType) : bool := bool_decide (t = goaway) || bool_decide (t = error).

(** No transition accepts a value outside the enumerators. *)
Lemma transition_unlisted dir v m : is_ok (fst (transition dir (unlisted_type v) m)) = false.
Proof.
  unfold transition. rewrite !(bool_decide_false (unlisted_type v = _)) by done.
  rewrite !andb_false_r. cbn [orb].
  destruct (_ || _); [done|]. destruct (_ && _); [done|]. destruct (_ && _); [done|].
  destruct (state_ m); try done. unfold client_authenticated_message, server_authenticated_message.
  destruct (bool_decide (dir = send)); cbn [one_of existsb];
    rewrite !(bool_decide_false (unlisted_type v = _)), !andb_false_r by done; done.
Qed.

Lemma transition_unlisted_ok dir v m m' : transition dir (unlisted_type v) m = (Ok tt, m') -> False.
Proof. intros H. pose proof (transition_unlisted dir v m) as E. by rewrite H in E. Qed.

Lemma transition_terminal dir t m m' :
  transition dir t m = (Ok tt, m') -> terminal t = true ->
  m' = mkStateMachine (role_ m) (kind_ m) closing.
Proof.
  unfold transition, terminal. intros H Ht.
  destruct (_ || _); [done|]. rewrite Ht in H. by injection H as <-.
Qed.

Lemma on_receive_terminal t m :
  terminal t = true -> framed_mode m = true ->
  on_receive t m = (Ok tt, mkStateMachine (role_ m) (kind_ m) closing).
Proof.
  unfold on_receive, transition, terminal, framed_mode. intros -> Hf.
  by destruct (bool_decide (state_ m = relay)), (bool_decide (state_ m = closing)).
Qed.

(** Runs a transition of a concrete state on a concrete message. *)
Ltac run_transition H :=
  first [ by apply transition_unlisted_ok in H
        | vm_compute in H; first [discriminate H | injection H as <-] ].

Ltac relink :=
  constructor; rewrite ?forallb_app; cbn [forallb] in *; rewrite ?andb_true_r;
  first [done | apply andb_true_intro; done].

(** What one end sends keeps the ends linked. *)
Lemma linked_client_send k cs ss u d t m' :
  linked k cs ss u d -> terminal t = false -> on_send t (mkStateMachine client k cs) = (Ok tt, m') ->
  m' = mkStateMachine client k (state_ m') /\ linked k (state_ m') ss (u ++ [t]) d.
Proof.
  intros Hl Ht Hs. destruct Hl; destruct t; try discriminate Ht; run_transition Hs;
    (split; [reflexivity|]); relink.
Qed.

Lemma linked_server_send k cs ss u d t m' :
  linked k cs ss u d -> terminal t = false -> on_send t (mkStateMachine server k ss) = (Ok tt, m') ->
  m' = mkStateMachine server k (state_ m') /\ linked k cs (state_ m') u (d ++ [t]).
Proof.
  intros Hl Ht Hs. destruct Hl; destruct t; try discriminate Ht; run_transition Hs;
    (split; [reflexivity|]); relink.
Qed.

(** What is under way is accepted by an end that still reads frames. *)
Lemma linked_server_receive k cs ss t u d :
  linked k cs ss (t :: u) d ->
  exists s', on_receive t (mkStateMachine server k ss) = (Ok tt, mkStateMachine server k s') /\
    linked k cs s' u d.
Proof.
  intros Hl. inversion Hl; subst; try (eexists; split; [vm_compute; reflexivity|constructor]).
  exists authenticated. cbn [forallb] in *. apply andb_prop in H as [Ht Hu].
  split; [|by constructor]. by destruct t.
Qed.

Lemma linked_client_receive k cs ss t u d :
  linked k cs ss u (t :: d) ->
  exists c', on_receive t (mkStateMachine client k cs) = (Ok tt, mkStateMachine client k c') /\
    linked k c' ss u d.
Proof.
  intros Hl. inversion Hl; subst; try (eexists; split; [vm_compute; reflexivity|by constructor]).
  exists authenticated. cbn [forallb] in *. apply andb_prop in H0 as [Ht Hu].
  split; [|by constructor]. by destruct t.
Qed.

(** Reachable systems: both ends live and linked, or one end has closed with a final
    message behind what it sent before, or neither end reads frames any more. *)
Inductive system_inv (kind : ConnectionKind) : System -> Prop :=
| inv_live cs ss u d : linked kind cs ss u d ->
    system_inv kind (mkSystem (mkStateMachine client kind cs) (mkStateMachine server kind ss) u d)
| inv_client_closed cs ss u d t d' : linked kind cs ss u d -> terminal t = true ->
    system_inv kind (mkSystem (mkStateMachine client kind closing) (mkStateMachine server kind ss)
      (u ++ [t]) d')
| inv_server_closed cs ss u d t u' : linked kind cs ss u d -> terminal t = true ->
    system_inv kind (mkSystem (mkStateMachine client kind cs) (mkStateMachine server kind closing)
      u' (d ++ [t]))
| inv_both_closed c s u d : framed_mode c = false -> framed_mode s = false ->
    system_inv kind (mkSystem c s u d).

Lemma transition_closed dir t m m' : framed_mode m = false -> transition dir t m = (Ok tt, m') -> False.
Proof.
  unfold framed_mode, transition. intros Hf H.
  by destruct (bool_decide (state_ m = relay)), (bool_decide (state_ m = closing)).
Qed.

Lemma system_inv_step kind x y : system_inv kind x -> system_step x y -> system_inv kind y.
Proof.
  intros Hx Hs. destruct Hx as [cs ss u d Hl|cs ss u d t0 d' Hl H0|cs ss u d t0 u' Hl H0|c s u d Hc Hd];
    inversion Hs as [c1 s1 u1 d1 t m' E|c1 s1 u1 d1 t m' E|c1 s1 u1 d1 t m' E|c1 s1 u1 d1 t m' E];
    subst; try (by apply transition_closed in E).
  - destruct (terminal t) eqn:Ht.
    + apply transition_terminal in E; [|done]. subst. by eapply inv_client_closed.
    + destruct (linked_client_send _ _ _ _ _ _ _ Hl Ht E) as [-> Hl']. by constructor.
  - destruct (terminal t) eqn:Ht.
    + apply transition_terminal in E; [|done]. subst. by eapply inv_server_closed.
    + destruct (linked_server_send _ _ _ _ _ _ _ Hl Ht E) as [-> Hl']. by constructor.
  - destruct (linked_server_receive _ _ _ _ _ _ Hl) as (s' & E' & Hl').
    rewrite E in E'. simplify_eq. by constructor.
  - destruct (linked_client_receive _ _ _ _ _ _ Hl) as (s' & E' & Hl').
    rewrite E in E'. simplify_eq. by constructor.
  - destruct (terminal t) eqn:Ht.
    + apply transition_terminal in E; [|done]. subst. by constructor.
    + destruct (linked_server_send _ _ _ _ _ _ _ Hl Ht E) as [-> Hl']. by eapply inv_client_closed.
  - destruct u as [|t' u]; simplify_list_eq.
    + destruct (framed_mode (mkStateMachine server kind ss)) eqn:Hf; [|by apply transition_closed in E].
      rewrite on_receive_terminal in E by done. simplify_eq. by constructor.
    + destruct (linked_server_receive _ _ _ _ _ _ Hl) as (s' & E' & Hl').
      rewrite E in E'. simplify_eq. by eapply inv_client_closed.
  - destruct (terminal t) eqn:Ht.
    + apply transition_terminal in E; [|done]. subst. by constructor.
    + destruct (linked_client_send _ _ _ _ _ _ _ Hl Ht E) as [-> Hl']. by eapply inv_server_closed.
  - destruct d as [|t' d]; simplify_list_eq.
    + destruct (framed_mode (mkStateMachine client kind cs)) eqn:Hf; [|by apply transition_closed in E].
      rewrite on_receive_terminal in E by done. simplify_eq. by constructor.
    + destruct (linked_client_receive _ _ _ _ _ _ Hl) as (s' & E' & Hl').
      rewrite E in E'. simplify_eq. by eapply inv_server_closed.
Qed.

Lemma system_reachable_inv kind x : system_reachable kind x -> system_inv kind x.
Proof.
  induction 1; [|by eapply system_inv_step]. by destruct kind; repeat constructor.
Qed.

Lemma system_inv_accepts kind c s u d :
  system_inv kind (mkSystem c s u d) ->
  (forall t u', u = t :: u' -> framed_mode s = true -> is_ok (fst (on_receive t s)) = true) /\
  (forall t d', d = t :: d' -> framed_mode c = true -> is_ok (fst (on_receive t c)) = true).
Proof.
  intros Hi. inversion Hi as [cs ss ? ? Hl|cs ss u0 d0 t0 d1 Hl H0|cs ss u0 d0 t0 u1 Hl H0|]; subst;
    split; intros t q E Hf; try congruence; try done; subst.
  - by destruct (linked_server_receive _ _ _ _ _ _ Hl) as (s' & -> & _).
  - by destruct (linked_client_receive _ _ _ _ _ _ Hl) as (s' & -> & _).
  - destruct u0 as [|t' u0]; simplify_list_eq; [by rewrite on_receive_terminal|].
    by destruct (linked_server_receive _ _ _ _ _ _ Hl) as (s' & -> & _).
  - destruct d0 as [|t' d0]; simplify_list_eq; [by rewrite on_receive_terminal|].
    by destruct (linked_client_receive _ _ _ _ _ _ Hl) as (s' & -> & _).
Qed.

(** ** The order of messages at one end *)

(** A sequence of accepted sends and receives. *)
Fixpoint run (events : list (Direction * MessageType)) (m : StateMachine) : option StateMachine :=
  match events with
  | [] => Some m
  | (dir, t) :: events =>
      match transition dir t m with
      | (Ok _, m) => run events m
      | (Err _, _) => None
      end
  end.


(** What an end of a worker connection does before it relays bytes. *)
Definition worker_handshake (role : PeerRole) : list (Direction * MessageType) :=
  match role with
  | client => [(send, worker_hello); (receive, worker_accepted); (receive, start_relay);
               (send, local_connect_ok)]
  | server => [(receive, worker_hello); (send, worker_accepted); (send, start_relay);
               (receive, local_connect_ok)]
  end.


Lemma transition_stays dir t m m' :
  transition dir t m = (Ok tt, m') -> role_ m' = role_ m /\ kind_ m' = kind_ m.
Proof.
  unfold transition, enter, reject. intros H.
  repeat case_match; simplify_eq; done.
Qed.

Lemma run_closed events m m' : framed_mode m = false -> run events m = Some m' -> events = [] /\ m' = m.
Proof.
  intros Hf. destruct events as [|[dir t] events]; simpl; [by intros [= <-]|].
  destruct (transition dir t m) as [[[]|] m2] eqn:E; [|done]. by apply transition_closed in E.
Qed.


(** One event of a run that goes on to a state other than [closing]. *)
Lemma run_cons dir t events m m' :
  run ((dir, t) :: events) m = Some m' -> state_ m' <> closing ->
  exists m2, transition dir t m = (Ok tt, m2) /\ terminal t = false /\ run events m2 = Some m'.
Proof.
  cbn [run]. destruct (transition dir t m) as [[[]|] m2] eqn:E; [|done]. intros Hr Hm.
  exists m2. split_and!; try done. destruct (terminal t) eqn:Ht; [|done].
  apply transition_terminal in E; [|done]. subst. by apply run_closed in Hr as [-> ->].
Qed.

(** Takes the next event of the run [Hr]: the state machine accepts only one. *)
Ltac next_event Hr Hm :=
  match type of Hr with
  | run ?es _ = Some ?m' =>
      destruct es as [|[? ?t] ?];
      [ injection Hr as <-; discriminate Hm
      | let E := fresh "E" in let Ht := fresh "Ht" in
        apply run_cons in Hr as (? & E & Ht & Hr); [|rewrite Hm; discriminate];
        match type of E with transition ?dir ?t _ = _ => destruct dir, t end;
        try discriminate Ht;
        first [by apply transition_unlisted_ok in E
              |vm_compute in E; first [discriminate E|injection E as <-; clear Ht]];
        try (apply run_closed in Hr as [-> ->]; [discriminate Hm|done]) ]
  end.


Lemma run_worker_handshake role events m' :
  run events (StateMachine_new role worker) = Some m' -> state_ m' = relay ->
  events = worker_handshake role.
Proof.
  intros Hr Hm. destruct role; do 4 next_event Hr Hm;
    by apply run_closed in Hr as [-> _].
Qed.

(** ** Theorems *)

(** C2: two ends that follow their state machines never break the protocol for each
    other: in every state two ends of a connection can reach, with any interleaving
    of sends and receives and any delay of messages, the next message under way is
    accepted by the end it goes to, unless that end has left framed mode. *)
Theorem connection_no_protocol_error kind c s u d :
  system_reachable kind (mkSystem c s u d) ->
  (forall t u', u = t :: u' -> framed_mode s = true -> is_ok (fst (on_receive t s)) = true) /\
  (forall t d', d = t :: d' -> framed_mode c = true -> is_ok (fst (on_receive t c)) = true).
Proof. intros Hr. by eapply system_inv_accepts, system_reachable_inv. Qed.

Lemma connection_no_protocol_error_witness :
  let c := mkStateMachine client control client_wait_hello_ack in
  let s := mkStateMachine server control server_wait_hello in
  (forall t u', [hello] = t :: u' -> framed_mode s = true -> is_ok (fst (on_receive t s)) = true) /\
  (forall t d', [] = t :: d' -> framed_mode c = true -> is_ok (fst (on_receive t c)) = true).
Proof.
  apply (connection_no_protocol_error control).
  eapply system_next; [apply system_start|]. apply (client_sends _ _ [] [] hello). reflexivity.
Defined.



(** an end of a worker connection relays raw bytes only after WORKER_HELLO,
    WORKER_ACCEPTED, START_RELAY and LOCAL_CONNECT_OK, each once and in this order,
    and accepts no further message. *)
Theorem relay_follows_worker_handshake role events m' :
  run events (StateMachine_new role worker) = Some m' -> state_ m' = relay ->
  events = worker_handshake role /\ forall dir t, is_ok (fst (transition dir t m')) = false.
Proof.
  intros Hr Hm. split; [by eapply run_worker_handshake|]. intros dir t.
  unfold transition. by rewrite Hm.
Qed.

Lemma relay_follows_worker_handshake_witness :
  let m' := mkStateMachine client worker relay in
  worker_handshake client = worker_handshake client /\
  forall dir t, is_ok (fst (transition dir t m')) = false.
Proof. apply (relay_follows_worker_handshake client); vm_compute; reflexivity. Defined.
