(* ===== verification/Clock.v ===== *)
(** * Clocks (src/common/time.cpp)

    [std::int64_t] Unix times, the 64-bit difference of two of them, and the clock
    skew test of the authentication handshake.  A [time_point] is its count of
    nanoseconds since the clock's epoch. *)
From S2P Require Import Prelude Common.

(** A [std::chrono] time point or duration, in nanoseconds. *)
Abbreviation instant := Z.
Definition seconds (n : Z) : Z := n * 1000000000.
Definition milliseconds (n : Z) : Z := n * 1000000.

(** [to_unix_seconds] and [to_unix_milliseconds]: [std::chrono::floor]. *)
Definition to_unix_seconds (t : instant) : Z := t / 1000000000.
Definition to_unix_milliseconds (t : instant) : Z := t / 1000000.

(** [absolute_clock_skew_seconds]: the operands are cast to [std::uint64_t] and
    subtracted modulo 2^64. *)
Definition absolute_clock_skew_seconds (first second : Z) : Z :=
  if second <=? first then (u64_of_i64 first - u64_of_i64 second) mod 2 ^ 64
  else (u64_of_i64 second - u64_of_i64 first) mod 2 ^ 64.

(** [is_clock_skew_within]. *)
Definition is_clock_skew_within (timestamp reference allowed_skew : Z) : Result bool :=
  if allowed_skew <? 0 then
    failure invalid_argument "allowed clock skew must not be negative"
  else Ok (absolute_clock_skew_seconds timestamp reference <=? u64_of_i64 allowed_skew).

Lemma u64_sub a b :
  is_i64 a -> is_i64 b -> b <= a -> (u64_of_i64 a - u64_of_i64 b) mod 2 ^ 64 = a - b.
Proof.
  unfold is_i64, u64_of_i64. intros Ha Hb Hab. rewrite <- Zminus_mod, Z.mod_small; lia.
Qed.

(** ** Theorems *)

(** the clock skew computed with wrapping 64-bit subtraction is the absolute
    difference of the two times, for all 64-bit times, and the skew test decides
    exactly whether it is within the allowance. *)
Theorem clock_skew_exact timestamp reference allowed :
  is_i64 timestamp -> is_i64 reference -> is_i64 allowed ->
  absolute_clock_skew_seconds timestamp reference = Z.abs (timestamp - reference) /\
  (0 <= allowed ->
   is_clock_skew_within timestamp reference allowed =
     Ok (bool_decide (Z.abs (timestamp - reference) <= allowed))).
Proof.
  intros Ht Hr Ha.
  assert (E : absolute_clock_skew_seconds timestamp reference = Z.abs (timestamp - reference)).
  { unfold absolute_clock_skew_seconds. destruct (Z.leb_spec reference timestamp);
      rewrite u64_sub by (done || lia); lia. }
  split; [done|]. intros H0. unfold is_clock_skew_within.
  destruct (Z.ltb_spec allowed 0); [lia|]. rewrite E. unfold u64_of_i64, is_i64 in *.
  rewrite Z.mod_small by lia. f_equal. case_bool_decide; lia.
Qed.

Lemma clock_skew_exact_witness :
  absolute_clock_skew_seconds (- 2 ^ 63) (2 ^ 63 - 1) = Z.abs (- 2 ^ 63 - (2 ^ 63 - 1)) /\
  (0 <= 300 ->
   is_clock_skew_within (- 2 ^ 63) (2 ^ 63 - 1) 300 =
     Ok (bool_decide (Z.abs (- 2 ^ 63 - (2 ^ 63 - 1)) <= 300))).
Proof. apply clock_skew_exact; split; vm_compute; congruence. Defined.
