(* ===== verification/Auth.v ===== *)
(** * Authentication transcripts (src/protocol/auth.cpp)

    A control connection and every worker connection prove knowledge of the shared
    token with an HMAC over a transcript.  HMAC-SHA256 and the random source are
    OpenSSL's and are parameters. *)
From S2P Require Import Prelude Common Ids Codec Messages MessageFormat Frame.

(** [EVP_Q_mac("HMAC", "SHA256", key, data)]: [None] when it fails or does not
    deliver [kAuthenticationDataSize] bytes. *)
Class Hmac := hmac_sha256 : bytes -> bytes -> option bytes.

(** [generate_authentication_nonce]; the argument is what [RAND_bytes] delivers. *)
Definition generate_authentication_nonce (random : option bytes) : Result bytes :=
  match random with
  | None => failure internal_error "cryptographic nonce generation failed"
  | Some nonce => Ok nonce
  end.

(** The inner loop of [generate_session_generation]: [value = (value << 8) | byte] on
    a [std::uint64_t]. *)
Definition generation_of_bytes (l : bytes) : Z :=
  fold_left (fun value b => Z.lor (Z.shiftl value 8 mod 2 ^ 64) (Z_of_byte b)) l 0.

(** [generate_session_generation]; [draws] are the results of the successive calls of
    [RAND_bytes], and the loop makes at most [attempts] of them. *)
Fixpoint generate_session_generation (attempts : nat) (draws : list (option bytes)) : Result Z :=
  match attempts, draws with
  | O, _ => failure internal_error "session generation randomness produced an invalid value"
  | S _, [] | S _, None :: _ => failure internal_error "session generation randomness failed"
  | S attempts, Some l :: draws =>
      let value := generation_of_bytes l in
      if negb (value =? 0) then Ok value else generate_session_generation attempts draws
  end.

(** The transcript of [compute_authentication_data]. *)
Definition authentication_input (client_id server_id : bytes) (timestamp_seconds : Z)
    (nonce : bytes) (selected_capabilities : Z) : Result bytes :=
  encode_with
    (write_u16 kProtocolVersion;;
     write_string client_id;;
     write_string server_id;;
     write_u64 (u64_of_i64 timestamp_seconds);;
     write_bytes nonce;;
     write_u64 selected_capabilities).

(** The transcript of [compute_worker_authentication_data]. *)
Definition worker_authentication_input (client_id server_id : bytes) (session_generation : Z)
    (worker_id : bytes) (timestamp_seconds : Z) (nonce : bytes) : Result bytes :=
  encode_with
    (write_string (bs "minitun-worker-auth");;
     write_u16 kProtocolVersion;;
     write_string client_id;;
     write_string server_id;;
     write_u64 session_generation;;
     write_string worker_id;;
     write_u64 (u64_of_i64 timestamp_seconds);;
     write_bytes nonce).

Section Mac.
Context `{Hmac}.

(** [compute_authentication_data]. *)
Definition compute_authentication_data (token client_id server_id : bytes)
    (timestamp_seconds : Z) (nonce : bytes) (selected_capabilities : Z) : Result bytes :=
  if bool_decide (token = []) || (64 * 1024 <? Zlen token) then
    failure invalid_argument "authentication token length is invalid"
  else if negb (valid_id client_id client) then
    failure invalid_argument "client ID is invalid for authentication"
  else if negb (valid_id server_id server) then
    failure invalid_argument "server ID is invalid for authentication"
  else if negb (Z.land selected_capabilities kRequiredCapabilities =? kRequiredCapabilities)
       || negb (Z.ldiff selected_capabilities kSupportedCapabilities =? 0) then
    failure invalid_argument "authentication capability selection is invalid"
  else
    input ← authentication_input client_id server_id timestamp_seconds nonce
              selected_capabilities;
    match hmac_sha256 token input with
    | None => failure internal_error "authentication digest generation failed"
    | Some output => Ok output
    end.

(** [verify_authentication_data]: [CRYPTO_memcmp] compares all bytes. *)
Definition verify_authentication_data (token client_id server_id : bytes)
    (timestamp_seconds : Z) (nonce : bytes) (selected_capabilities : Z) (candidate : bytes) :
    Result bool :=
  expected ← compute_authentication_data token client_id server_id timestamp_seconds nonce
               selected_capabilities;
  Ok (bool_decide (expected = candidate)).

(** [compute_worker_authentication_data]. *)
Definition compute_worker_authentication_data (token client_id server_id : bytes)
    (session_generation : Z) (worker_id : bytes) (timestamp_seconds : Z) (nonce : bytes) :
    Result bytes :=
  if bool_decide (token = []) || (64 * 1024 <? Zlen token) then
    failure invalid_argument "worker authentication token length is invalid"
  else if negb (valid_id client_id client) || negb (valid_id server_id server)
       || negb (valid_id worker_id connection) || (session_generation =? 0) then
    failure invalid_argument "worker authentication identity is invalid"
  else
    input ← worker_authentication_input client_id server_id session_generation worker_id
              timestamp_seconds nonce;
    match hmac_sha256 token input with
    | None => failure internal_error "worker authentication digest generation failed"
    | Some output => Ok output
    end.

(** [verify_worker_authentication_data]. *)
Definition verify_worker_authentication_data (token client_id server_id : bytes)
    (session_generation : Z) (worker_id : bytes) (timestamp_seconds : Z) (nonce : bytes)
    (candidate : bytes) : Result bool :=
  expected ← compute_worker_authentication_data token client_id server_id session_generation
               worker_id timestamp_seconds nonce;
  Ok (bool_decide (expected = candidate)).
End Mac.

(** ** What an authentication proof binds *)

(** The facts one proof of knowledge of the token is about. *)
Inductive AuthProof : Set :=
| control_proof (client_id server_id : bytes) (timestamp : Z) (nonce : bytes) (capabilities : Z)
| worker_proof (client_id server_id : bytes) (generation : Z) (worker_id : bytes) (timestamp : Z)
    (nonce : bytes).

Definition transcript (p : AuthProof) : Result bytes :=
  match p with
  | control_proof c s t n k => authentication_input c s t n k
  | worker_proof c s g w t n => worker_authentication_input c s g w t n
  end.

(** Values of the types the source uses. *)
Definition proof_typed (p : AuthProof) : Prop :=
  match p with
  | control_proof c s t n k => is_i64 t /\ Zlen n = kAuthenticationNonceSize /\ is_u64 k
  | worker_proof c s g w t n => is_u64 g /\ is_i64 t /\ Zlen n = kAuthenticationNonceSize
  end.

Definition proof_ids (p : AuthProof) : Prop :=
  match p with
  | control_proof c s _ _ _ => canonical client c /\ canonical server s
  | worker_proof c s _ w _ _ => canonical client c /\ canonical server s /\ canonical connection w
  end.

Definition transcript_image (p : AuthProof) : bytes :=
  match p with
  | control_proof c s t n k =>
      u16_bytes kProtocolVersion ++ field c ++ field s ++ u64_bytes (u64_of_i64 t) ++ field n ++
      u64_bytes k
  | worker_proof c s g w t n =>
      field (bs "minitun-worker-auth") ++ u16_bytes kProtocolVersion ++ field c ++ field s ++
      u64_bytes g ++ field w ++ u64_bytes (u64_of_i64 t) ++ field n
  end.

Section Verify.
Context `{Hmac}.

Definition compute (token : bytes) (p : AuthProof) : Result bytes :=
  match p with
  | control_proof c s t n k => compute_authentication_data token c s t n k
  | worker_proof c s g w t n => compute_worker_authentication_data token c s g w t n
  end.

Definition verify (token : bytes) (p : AuthProof) (candidate : bytes) : Result bool :=
  match p with
  | control_proof c s t n k => verify_authentication_data token c s t n k candidate
  | worker_proof c s g w t n => verify_worker_authentication_data token c s g w t n candidate
  end.

Lemma verify_compute token p candidate :
  verify token p candidate =
  match compute token p with
  | Ok d => Ok (bool_decide (d = candidate))
  | Err e => Err e
  end.
Proof. by destruct p. Qed.

(** A computed proof is the HMAC of its transcript, with valid identities. *)
Lemma compute_inv token p d :
  compute token p = Ok d ->
  proof_ids p /\ exists t, transcript p = Ok t /\ hmac_sha256 token t = Some d.
Proof.
  destruct p as [c s t n k|c s g w t n]; simpl.
  - unfold compute_authentication_data. destruct (_ || _); [done|].
    destruct (valid_id c client) eqn:Hc; [|done].
    destruct (valid_id s server) eqn:Hs; [|done]. cbn [negb].
    destruct (_ || _); [done|]. apply valid_id_canonical in Hc, Hs.
    destruct (authentication_input c s t n k) as [i|] eqn:Hi; [|done]. simpl.
    destruct (hmac_sha256 token i) eqn:Hh; [|done]. intros [= <-]. eauto 6.
  - unfold compute_worker_authentication_data. destruct (_ || _); [done|].
    destruct (valid_id c client) eqn:Hc; [|done].
    destruct (valid_id s server) eqn:Hs; [|done].
    destruct (valid_id w connection) eqn:Hw; [|done]. cbn [negb orb].
    destruct (g =? 0); [done|]. apply valid_id_canonical in Hc, Hs, Hw.
    destruct (worker_authentication_input c s g w t n) as [i|] eqn:Hi; [|done]. simpl.
    destruct (hmac_sha256 token i) eqn:Hh; [|done]. intros [= <-]. eauto 7.
Qed.
End Verify.

#[local] Opaque field u8_bytes u16_bytes u32_bytes u64_bytes.

Lemma transcript_spec p :
  proof_ids p -> proof_typed p -> transcript p = Ok (transcript_image p).
Proof.
  destruct p as [c s t n k|c s g w t n]; simpl.
  - intros (Hc & Hs) (Ht & Hn & Hk). unfold kAuthenticationNonceSize in Hn.
    eapply encode_intro; [emit|reflexivity|]. image_size.
  - intros (Hc & Hs & Hw) (Hg & Ht & Hn). unfold kAuthenticationNonceSize in Hn.
    unfold worker_authentication_input. set (label := bs "minitun-worker-auth").
    assert (Hl : Zlen label = 19) by done. assert (Htext : is_text label = true) by done.
    eapply encode_intro; [emit|reflexivity|]. image_size.
Qed.

(** Fields and integers can be read off the front of a byte string. *)
Lemma fixed_app_inj n v w (x y : bytes) :
  0 <= v < 256 ^ Z.of_nat n -> 0 <= w < 256 ^ Z.of_nat n ->
  be_encode n v ++ x = be_encode n w ++ y -> v = w /\ x = y.
Proof.
  intros Hv Hw E. apply app_inj_1 in E as [E ->]; [|by rewrite !length_be_encode].
  split; [|done]. by eapply be_encode_inj.
Qed.

Lemma u64_app_inj v w x y :
  is_u64 v -> is_u64 w -> u64_bytes v ++ x = u64_bytes w ++ y -> v = w /\ x = y.
Proof. rewrite !u64_bytes_be. by apply (fixed_app_inj 8). Qed.

Lemma field_app_inj a b x y :
  Zlen a <= 65535 -> Zlen b <= 65535 -> field a ++ x = field b ++ y -> a = b /\ x = y.
Proof.
  intros Ha Hb. Transparent field. unfold field. Opaque field.
  rewrite !u16_bytes_be, <- !app_assoc. intros E.
  pose proof (Zlen_nonneg a). pose proof (Zlen_nonneg b).
  apply (fixed_app_inj 2) in E as [El E]; [|change (256 ^ Z.of_nat 2) with 65536; lia..].
  apply app_inj_1 in E as [-> ->]; [done|]. unfold Zlen in El. lia.
Qed.

Lemma u64_of_i64_inj a b : is_i64 a -> is_i64 b -> u64_of_i64 a = u64_of_i64 b -> a = b.
Proof. intros Ha Hb E. rewrite <- (i64_of_u64_of_i64 a), <- (i64_of_u64_of_i64 b) by done. by rewrite E. Qed.

Lemma canonical_short k v : canonical k v -> Zlen v <= 65535.
Proof. intros H%canonical_length. lia. Qed.

(** Reads the equation [E] of two transcripts field by field. *)
Ltac split_fields E :=
  repeat match type of E with
  | field ?a ++ _ = field ?b ++ _ =>
      apply field_app_inj in E as [? E];
      [|first [by eapply canonical_short|lia]|first [by eapply canonical_short|lia]]
  | u64_bytes _ ++ _ = u64_bytes _ ++ _ =>
      apply u64_app_inj in E as [? E];
      [|first [done|apply u64_of_i64_range]|first [done|apply u64_of_i64_range]]
  end.

Lemma transcript_image_inj p q :
  proof_ids p -> proof_ids q -> proof_typed p -> proof_typed q ->
  transcript_image p = transcript_image q -> p = q.
Proof.
  destruct p as [c s t n k|c s g w t n], q as [c' s' t' n' k'|c' s' g' w' t' n']; simpl;
    unfold kAuthenticationNonceSize.
  - intros (Hc & Hs) (Hc' & Hs') (Ht & Hn & Hk) (Ht' & Hn' & Hk') E.
    apply app_inv_head in E. rewrite <- (app_nil_r (u64_bytes k)), <- (app_nil_r (u64_bytes k')) in E.
    split_fields E. subst. f_equal. by apply u64_of_i64_inj.
  - intros _ _ _ _ E. apply (f_equal (take 2)) in E. exfalso. revert E.
    Transparent field u16_bytes. vm_compute. Opaque field u16_bytes. discriminate.
  - intros _ _ _ _ E. apply (f_equal (take 2)) in E. exfalso. revert E.
    Transparent field u16_bytes. vm_compute. Opaque field u16_bytes. discriminate.
  - intros (Hc & Hs & Hw) (Hc' & Hs' & Hw') (Hg & Ht & Hn) (Hg' & Ht' & Hn') E.
    apply app_inv_head, app_inv_head in E.
    rewrite <- (app_nil_r (field n)), <- (app_nil_r (field n')) in E.
    split_fields E. subst. f_equal. by apply u64_of_i64_inj.
Qed.

(** ** Theorems *)

Section Theorems.
Context `{Hmac}.

(** C4: authentication data bind everything they authenticate: if the data computed
    for one control or worker proof also verify for a different one (another client,
    server, session, worker, time, nonce, capability set, or the other kind of
    connection), two different transcripts with the same HMAC have been found. *)
Theorem authentication_binds token p q d :
  proof_typed p -> proof_typed q -> p <> q ->
  compute token p = Ok d -> verify token q d = Ok true ->
  exists t u, transcript p = Ok t /\ transcript q = Ok u /\ t <> u /\
    hmac_sha256 token t = Some d /\ hmac_sha256 token u = Some d.
Proof.
  intros Hp Hq Hne Hc Hv. rewrite verify_compute in Hv.
  destruct (compute token q) as [d'|] eqn:Hc'; [|done]. injection Hv as Hd.
  apply bool_decide_eq_true in Hd as ->.
  apply compute_inv in Hc as (Hip & t & Ht & Hht), Hc' as (Hiq & u & Hu & Hhu).
  exists t, u. split_and!; try done. intros ->. apply Hne. apply transcript_image_inj; try done.
  rewrite transcript_spec in Ht, Hu by done. congruence.
Qed.

(** a peer with the same token accepts what [compute_*] produced for its own view
    of the connection, and nothing else for that view. *)
Theorem authentication_verifies token p d candidate :
  compute token p = Ok d ->
  verify token p d = Ok true /\ (candidate <> d -> verify token p candidate = Ok false).
Proof.
  intros Hc. rewrite !verify_compute, Hc. split.
  - by rewrite bool_decide_true.
  - intros Hne. by rewrite bool_decide_false.
Qed.
End Theorems.

(** ** Witnesses *)

(** A stand-in for HMAC: every digest is 32 zero bytes. *)
Definition sample_hmac : Hmac := fun _ _ => Some (replicate 32 Byte.x00).

Definition sample_client_id : bytes := bs "client_0123456789abcdef0123456789abcdef".
Definition sample_server_id : bytes := bs "srv_0123456789abcdef0123456789abcdef".
Definition sample_worker_id : bytes := bs "conn_0123456789abcdef0123456789abcdef".
Definition sample_nonce : bytes := replicate 32 Byte.x5a.

Lemma authentication_binds_witness :
  let p := control_proof sample_client_id sample_server_id 1700000000 sample_nonce 7 in
  let q := worker_proof sample_client_id sample_server_id 3 sample_worker_id 1700000000
             sample_nonce in
  exists t u, transcript p = Ok t /\ transcript q = Ok u /\ t <> u /\
    @hmac_sha256 sample_hmac (bs "secret") t = Some (replicate 32 Byte.x00) /\
    @hmac_sha256 sample_hmac (bs "secret") u = Some (replicate 32 Byte.x00).
Proof.
  intros p q. apply (@authentication_binds sample_hmac (bs "secret") p q);
    [unfold p, q, proof_typed, is_i64, is_uint; split_and!; vm_compute; congruence..|
     discriminate|vm_compute; reflexivity|
     vm_compute; reflexivity].
Defined.

Lemma authentication_verifies_witness :
  let p := control_proof sample_client_id sample_server_id 1700000000 sample_nonce 7 in
  @verify sample_hmac (bs "secret") p (replicate 32 Byte.x00) = Ok true /\
  ([] <> replicate 32 Byte.x00 -> @verify sample_hmac (bs "secret") p [] = Ok false).
Proof.
  intros p. apply (@authentication_verifies sample_hmac). vm_compute. reflexivity.
Defined.
