(* ===== verification/Replay.v ===== *)
(** * Nonce replay cache (src/protocol/auth.cpp, class NonceReplayCache)

    The server accepts each (client, nonce) pair once within the retention window.
    The cache pops expired entries from the front of an insertion-ordered list; the
    reference keeps the whole history of accepted pairs.  The mutex makes every call
    one step. *)
From Stdlib Require Import Sorting.Sorted.
From S2P Require Import Prelude Common Ids Codec Messages MessageFormat Clock Auth.

Record NonceReplayCacheOptions : Set := mkReplayOptions { max_entries : Z; retention : Z }.

(** [order_] and the keys of [entries_]; the list iterators that [entries_] holds are
    never used. *)
Record NonceReplayCache : Set := mkReplayCache {
  options_ : NonceReplayCacheOptions;
  order_ : list (bytes * instant);
  entries_ : gset bytes
}.

(** The constructor; [retention] is in seconds. *)
Definition NonceReplayCache_new (options : NonceReplayCacheOptions) : NonceReplayCache :=
  mkReplayCache
    (mkReplayOptions (Z.max (max_entries options) 1)
       (if retention options <=? 0 then 1 else retention options)) [] ∅.

(** [replay_key]. *)
Definition replay_key (client_id nonce : bytes) : bytes := client_id ++ bs ":" ++ nonce.

(** [while (!order_.empty() && order_.front().expires_at <= now)]. *)
Fixpoint drop_expired (now : instant) (order : list (bytes * instant)) (entries : gset bytes) :
    list (bytes * instant) * gset bytes :=
  match order with
  | [] => ([], entries)
  | (key, expires_at) :: rest =>
      if expires_at <=? now then drop_expired now rest (entries ∖ {[key]})
      else (order, entries)
  end.

(** [consume]. *)
Definition consume (client_id nonce : bytes) (now : instant) : Action NonceReplayCache bool :=
  fun c =>
  if negb (valid_id client_id client) then
    (failure invalid_argument "authentication replay client ID is invalid", c)
  else
    let (order, entries) := drop_expired now (order_ c) (entries_ c) in
    let c := mkReplayCache (options_ c) order entries in
    let key := replay_key client_id nonce in
    if decide (key ∈ entries) then (Ok false, c)
    else if max_entries (options_ c) <=? Z.of_nat (size entries) then
      (failure resource_exhausted "authentication replay cache reached its configured limit", c)
    else
      (Ok true,
       mkReplayCache (options_ c) (order ++ [(key, now + seconds (retention (options_ c)))])
         (entries ∪ {[key]})).

(** [verify_and_consume_authentication_data] and
    [verify_and_consume_worker_authentication_data]. *)
Definition verify_and_consume `{Hmac} (token : bytes) (p : AuthProof) (candidate : bytes)
    (now : instant) : Action NonceReplayCache bool :=
  verified ← ST_lift (verify token p candidate);
  if negb verified then mret false
  else
    match p with
    | control_proof client_id _ _ nonce _ => consume client_id nonce now
    | worker_proof client_id _ _ _ _ nonce => consume client_id nonce now
    end.

(** ** Reference definition

    The history of accepted calls, newest first; a pair is live while its acceptance
    is less than the retention ago. *)
Definition history : Set := list (bytes * bytes * instant).

Definition live (window : Z) (now : instant) (h : history) : history :=
  List.filter (fun '(_, t) => now <? t + window) h.

Definition reference_consume (limit window : Z) (client_id nonce : bytes) (now : instant)
    (h : history) : Result bool * history :=
  if negb (valid_id client_id client) then
    (failure invalid_argument "authentication replay client ID is invalid", h)
  else if existsb (fun '(seen, _) => bool_decide (seen = (client_id, nonce))) (live window now h)
  then (Ok false, h)
  else if limit <=? Zlen (live window now h) then
    (failure resource_exhausted "authentication replay cache reached its configured limit", h)
  else (Ok true, (client_id, nonce, now) :: h).

(** A sequence of calls. *)
Definition call : Set := bytes * bytes * instant.

Fixpoint run_cache (c : NonceReplayCache) (calls : list call) : list (Result bool) :=
  match calls with
  | [] => []
  | (client_id, nonce, now) :: calls =>
      let (r, c) := consume client_id nonce now c in r :: run_cache c calls
  end.

Fixpoint run_reference (limit window : Z) (h : history) (calls : list call) :
    list (Result bool) :=
  match calls with
  | [] => []
  | (client_id, nonce, now) :: calls =>
      let (r, h) := reference_consume limit window client_id nonce now h in
      r :: run_reference limit window h calls
  end.

(** The clock does not run backwards, and nonces have the protocol's size. *)
Fixpoint ordered_calls (last : instant) (calls : list call) : Prop :=
  match calls with
  | [] => True
  | (_, nonce, now) :: calls =>
      last <= now /\ Zlen nonce = kAuthenticationNonceSize /\ ordered_calls now calls
  end.

(** ** Lemmas *)

Lemma replay_key_inj c n c' n' :
  canonical client c -> canonical client c' -> replay_key c n = replay_key c' n' ->
  c = c' /\ n = n'.
Proof.
  intros Hc Hc' E. unfold replay_key in E.
  assert (length c = length c') as Hl.
  { destruct Hc as (d & -> & Hd & _), Hc' as (d' & -> & Hd' & _).
    rewrite !length_app. unfold Zlen in *. lia. }
  apply app_inj_1 in E as [-> E]; [|done]. by apply app_inv_head in E.
Qed.

(** The key a history entry is stored under, with its expiry. *)
Definition stored (window : Z) (e : bytes * bytes * instant) : bytes * instant :=
  let '(c, n, t) := e in (replay_key c n, t + window).

(** The cache holds the part of the history that was live at time [cut], oldest
    first, without duplicates. *)
Record represents (c : NonceReplayCache) (cut : instant) (h : history) : Prop := {
  rep_order : order_ c =
    stored (seconds (retention (options_ c))) <$>
      reverse (live (seconds (retention (options_ c))) cut h);
  rep_entries : entries_ c = list_to_set (order_ c).*1;
  rep_nodup : NoDup (order_ c).*1;
  rep_history : Forall (fun '(c, _, t) => canonical client c /\ t <= cut) h;
  rep_sorted : StronglySorted (fun x y => x.2 <= y.2) (order_ c);
  rep_window : 0 < retention (options_ c)
}.

(** Expired entries are a prefix of a list sorted by expiry. *)
Lemma drop_expired_spec now l :
  NoDup l.*1 -> StronglySorted (fun x y => x.2 <= y.2) l ->
  let live := List.filter (fun x => now <? x.2) l in
  drop_expired now l (list_to_set l.*1) = (live, list_to_set live.*1).
Proof.
  induction l as [|[k e] l IH]; intros Hnd Hs; [done|]. simpl in *.
  inversion Hnd as [|? ? Hk Hnd']. inversion Hs as [|? ? Hs' Hall]. subst.
  destruct (Z.leb_spec e now), (Z.ltb_spec now e); try lia.
  - rewrite <- IH by done. f_equal. set_solver.
  - assert (List.filter (fun x : bytes * Z => now <? x.2) l = l) as ->; [|done].
    apply forallb_filter_id. rewrite forallb_forall. intros x Hx.
    rewrite Forall_forall in Hall. apply list_elem_of_In, Hall in Hx. simpl in *. lia.
Qed.

Lemma filter_stored w now h :
  List.filter (fun x : bytes * Z => now <? x.2) (stored w <$> h) = stored w <$> live w now h.
Proof.
  unfold live. induction h as [|[[c n] t] h IH]; [done|]. csimpl.
  destruct (now <? t + w); csimpl; by rewrite IH.
Qed.

Lemma live_reverse w now h : live w now (reverse h) = reverse (live w now h).
Proof. unfold live, reverse. by rewrite <- !rev_alt, filter_rev. Qed.

Lemma live_live w cut now h : cut <= now -> live w now (live w cut h) = live w now h.
Proof.
  intros Hc. unfold live. induction h as [|[[c n] t] h IH]; [done|]. simpl.
  destruct (Z.ltb_spec cut (t + w)); simpl; destruct (Z.ltb_spec now (t + w)); rewrite ?IH; done || lia.
Qed.

(** A call drops what has expired; what is left is the live part of the history. *)
Lemma represents_expire c cut now h :
  represents c cut h -> cut <= now ->
  let c' := mkReplayCache (options_ c) (drop_expired now (order_ c) (entries_ c)).1
              (drop_expired now (order_ c) (entries_ c)).2 in
  represents c' now h.
Proof.
  intros Hr Hc. destruct Hr as [Ho He Hnd Hh Hs Hw]. rewrite He.
  rewrite drop_expired_spec by done. set (w := seconds (retention (options_ c))) in *.
  assert (E : List.filter (fun x : bytes * Z => now <? x.2) (order_ c) =
              stored w <$> reverse (live w now h)).
  { rewrite Ho, filter_stored, live_reverse, live_live by done. done. }
  split; cbn [order_ entries_ options_ fst snd]; try done.
  - eapply sublist_NoDup; [exact Hnd|]. apply fmap_sublist. clear. induction (order_ c) as [|x l IH]; simpl; [constructor|].
    destruct (now <? x.2); by constructor.
  - eapply Forall_impl; [exact Hh|]. intros [[? ?] ?] [? ?]. split; [done|lia].
  - clear -Hs. induction Hs as [|x l Hs IH Hall]; simpl; [constructor|].
    destruct (now <? x.2); [|done]. constructor; [done|].
    rewrite Forall_forall in *. intros y Hy. apply Hall.
    apply list_elem_of_In, filter_In in Hy as [Hy _]. by apply list_elem_of_In.
Qed.

Lemma represents_member c now h client_id nonce :
  represents c now h -> canonical client client_id ->
  replay_key client_id nonce ∈ entries_ c <->
  existsb (fun '(seen, _) => bool_decide (seen = (client_id, nonce)))
    (live (seconds (retention (options_ c))) now h) = true.
Proof.
  intros Hr Hc. rewrite (rep_entries _ _ _ Hr), elem_of_list_to_set, (rep_order _ _ _ Hr).
  rewrite <- list_fmap_compose, list_elem_of_fmap, existsb_exists.
  pose proof (rep_history _ _ _ Hr) as Hh. rewrite Forall_forall in Hh.
  split.
  - intros ([[c' n'] t] & E & Hin). rewrite elem_of_reverse in Hin.
    assert (Hin' : (c', n', t) ∈ h).
    { apply list_elem_of_In in Hin. apply filter_In in Hin as [Hin _]. by apply list_elem_of_In. }
    specialize (Hh _ Hin'). destruct Hh as [Hc' _]. simpl in E.
    apply replay_key_inj in E as [-> ->]; [|done..].
    exists (c', n', t). split; [by apply list_elem_of_In|]. by apply bool_decide_eq_true.
  - intros ([[c' n'] t] & Hin & E). apply bool_decide_eq_true in E. simplify_eq.
    exists (client_id, nonce, t). split; [done|]. rewrite elem_of_reverse.
    by apply list_elem_of_In.
Qed.

Lemma represents_size c now h :
  represents c now h ->
  Z.of_nat (size (entries_ c)) = Zlen (live (seconds (retention (options_ c))) now h).
Proof.
  intros Hr. rewrite (rep_entries _ _ _ Hr), size_list_to_set by apply (rep_nodup _ _ _ Hr).
  rewrite (rep_order _ _ _ Hr), !length_fmap, length_reverse. done.
Qed.

Lemma represents_accept c now h client_id nonce :
  represents c now h -> canonical client client_id ->
  (replay_key client_id nonce ∉ entries_ c) ->
  let w := seconds (retention (options_ c)) in
  represents (mkReplayCache (options_ c) (order_ c ++ [(replay_key client_id nonce, now + w)])
                (entries_ c ∪ {[replay_key client_id nonce]})) now ((client_id, nonce, now) :: h).
Proof.
  intros Hr Hc Hk w. pose proof (rep_entries _ _ _ Hr) as He. destruct Hr as [Ho _ Hnd Hh Hs Hw].
  assert (0 < w) by (unfold w, seconds; lia).
  rewrite He, elem_of_list_to_set in Hk.
  split; cbn [order_ entries_ options_].
  - fold w. unfold live. cbn [List.filter]. destruct (Z.ltb_spec now (now + w)); [|lia].
    rewrite reverse_cons, fmap_app. cbn. by rewrite Ho.
  - rewrite He, fmap_app, list_to_set_app_L. simpl. set_solver.
  - rewrite fmap_app, NoDup_app. split_and!; [done| |by apply NoDup_singleton].
    intros x Hx Hx'. apply list_elem_of_singleton in Hx'. simpl in Hx'. by subst.
  - constructor; [split; [done|lia]|]. eapply Forall_impl; [exact Hh|].
    intros [[? ?] ?] [? ?]. split; [done|lia].
  - assert (Hle : Forall (fun x : bytes * Z => x.2 <= now + w) (order_ c)).
    { rewrite Ho, Forall_fmap. apply Forall_reverse, Forall_forall. intros [[c' n'] t] Hin.
      apply list_elem_of_In, filter_In in Hin as [Hin _]. rewrite Forall_forall in Hh.
      apply list_elem_of_In, Hh in Hin as [_ Ht]. simpl. fold w. lia. }
    clear -Hs Hle. induction Hs as [|x l Hs IH Hall]; simpl; [by repeat constructor|].
    inversion Hle. subst. constructor; [by apply IH|]. apply Forall_app. split; [done|].
    by constructor.
  - done.
Qed.

(** Each call of the cache answers as the reference does. *)
Lemma consume_simulates c cut now h client_id nonce :
  represents c cut h -> cut <= now ->
  let limit := max_entries (options_ c) in
  let window := seconds (retention (options_ c)) in
  exists cut' c', consume client_id nonce now c =
      ((reference_consume limit window client_id nonce now h).1, c') /\
    cut <= cut' <= now /\ options_ c' = options_ c /\
    represents c' cut' (reference_consume limit window client_id nonce now h).2.
Proof.
  intros Hr Hcut limit window. unfold consume, reference_consume.
  destruct (valid_id client_id client) eqn:Hid; [|exists cut, c; by split_and!]. cbn [negb].
  apply valid_id_canonical in Hid. pose proof (represents_expire c cut now h Hr Hcut) as Hr'.
  destruct (drop_expired now (order_ c) (entries_ c)) as [order entries]. cbn [fst snd] in Hr'.
  set (c1 := mkReplayCache (options_ c) order entries) in *.
  pose proof (represents_member c1 now h client_id nonce Hr' Hid) as Hmem.
  pose proof (represents_size c1 now h Hr') as Hsize. cbn [options_ entries_] in Hmem, Hsize.
  change (entries_ c1) with entries in *. change (options_ c1) with (options_ c) in *.
  fold window in Hmem, Hsize. exists now. case_decide as Hk.
  - apply Hmem in Hk as ->. exists c1. by split_and!.
  - destruct (existsb _ (live window now h)) eqn:E; [by destruct Hk; apply Hmem|].
    rewrite Hsize. fold limit.
    destruct (limit <=? Zlen (live window now h)); [exists c1; by split_and!|].
    eexists. split; [reflexivity|]. split_and!; try done.
    by apply (represents_accept c1).
Qed.

Lemma run_cache_reference c cut h last calls :
  represents c cut h -> cut <= last -> ordered_calls last calls ->
  run_cache c calls =
  run_reference (max_entries (options_ c)) (seconds (retention (options_ c))) h calls.
Proof.
  revert c cut h last. induction calls as [|[[client_id nonce] now] calls IH];
    intros c cut h last Hr Hc Ho; [done|]. cbn [run_cache run_reference].
  destruct Ho as (Hn & _ & Ho).
  destruct (consume_simulates c cut now h client_id nonce Hr ltac:(lia))
    as (cut' & c' & -> & Hcut & Hopt & Hr').
  destruct (reference_consume _ _ client_id nonce now h) as [r h'] eqn:E.
  cbn [fst snd] in *. f_equal. rewrite <- Hopt. apply (IH c' cut' h' now); [done|lia|done].
Qed.

Lemma NonceReplayCache_new_represents options cut : represents (NonceReplayCache_new options) cut [].
Proof.
  split; try done; try constructor. simpl. destruct (Z.leb_spec (retention options) 0); lia.
Qed.

(** *** At most one acceptance per window *)

Lemma reference_monotone limit window client_id nonce now h e :
  e ∈ h -> e ∈ (reference_consume limit window client_id nonce now h).2.
Proof.
  intros He. unfold reference_consume. repeat case_match; try done. simpl. by right.
Qed.

Lemma reference_accepts limit window client_id nonce now h :
  (reference_consume limit window client_id nonce now h).1 = Ok true ->
  (client_id, nonce, now) ∈ (reference_consume limit window client_id nonce now h).2 /\
  forall t, (client_id, nonce, t) ∈ h -> t + window <= now.
Proof.
  unfold reference_consume. destruct (negb _); [done|].
  destruct (existsb _ _) eqn:E; [done|]. destruct (_ <=? _); [done|]. intros _.
  split; [by left|]. intros t Ht.
  destruct (decide (t + window <= now)) as [|Hn]; [done|]. exfalso.
  apply not_true_iff_false in E. apply E, existsb_exists.
  exists (client_id, nonce, t). split; [|by apply bool_decide_eq_true].
  apply filter_In. split; [by apply list_elem_of_In|]. lia.
Qed.

Lemma reference_once limit window h calls j c n t1 t2 :
  (c, n, t1) ∈ h -> calls !! j = Some (c, n, t2) -> t2 < t1 + window ->
  run_reference limit window h calls !! j <> Some (Ok true).
Proof.
  revert h j. induction calls as [|[[c' n'] now] calls IH]; intros h j Hin Hj Ht; [done|].
  cbn [run_reference].
  destruct (reference_consume limit window c' n' now h) as [r h'] eqn:E.
  destruct j as [|j]; simpl in *.
  - injection Hj as -> -> ->. intros [= ->].
    pose proof (reference_accepts limit window c n t2 h) as Ha. rewrite E in Ha.
    destruct (Ha eq_refl) as [_ Hlive]. specialize (Hlive _ Hin). lia.
  - apply IH; try done.
    pose proof (reference_monotone limit window c' n' now h _ Hin) as Hm. by rewrite E in Hm.
Qed.

Lemma reference_accepted_once limit window h calls i j c n t1 t2 :
  (i < j)%nat -> calls !! i = Some (c, n, t1) -> calls !! j = Some (c, n, t2) ->
  t2 < t1 + window -> run_reference limit window h calls !! i = Some (Ok true) ->
  run_reference limit window h calls !! j <> Some (Ok true).
Proof.
  revert h i j. induction calls as [|[[c' n'] now] calls IH]; intros h i j Hij Hi Hj Ht; [done|].
  cbn [run_reference].
  destruct (reference_consume limit window c' n' now h) as [r h'] eqn:E.
  destruct j as [|j]; [lia|]. destruct i as [|i]; simpl in *.
  - injection Hi as -> -> ->. intros [= ->].
    pose proof (reference_accepts limit window c n t1 h) as Ha. rewrite E in Ha.
    destruct (Ha eq_refl) as [Hin _]. by eapply reference_once.
  - apply IH; try done. lia.
Qed.

(** *** The size of the cache *)

Lemma drop_expired_subset now order entries : (drop_expired now order entries).2 ⊆ entries.
Proof.
  revert entries. induction order as [|[k e] order IH]; intros entries; simpl; [done|].
  destruct (e <=? now); [|done]. rewrite IH. set_solver.
Qed.

Lemma consume_bounded c client_id nonce now :
  Z.of_nat (size (entries_ c)) <= max_entries (options_ c) ->
  let c' := (consume client_id nonce now c).2 in
  Z.of_nat (size (entries_ c')) <= max_entries (options_ c') /\ options_ c' = options_ c.
Proof.
  intros Hs. unfold consume. destruct (negb _); [done|].
  pose proof (drop_expired_subset now (order_ c) (entries_ c)) as Hsub.
  destruct (drop_expired now (order_ c) (entries_ c)) as [order entries]. simpl in *.
  pose proof (subseteq_size _ _ Hsub).
  case_decide; [simpl; split; [lia|done]|].
  destruct (Z.leb_spec (max_entries (options_ c)) (Z.of_nat (size entries))); simpl;
    [split; [lia|done]|].
  rewrite size_union, size_singleton by set_solver. split; [lia|done].
Qed.

Definition cache_after (c : NonceReplayCache) (calls : list call) : NonceReplayCache :=
  fold_left (fun c '(client_id, nonce, now) => (consume client_id nonce now c).2) calls c.

(** ** Theorems *)

(** on a clock that does not run backwards the replay cache answers every call as
    the reference that remembers all accepted pairs: [true] for a pair not accepted
    within the retention, [false] for one that was, an error for an invalid client or
    when as many live pairs as the limit are remembered. *)
Theorem replay_cache_refines options last calls :
  ordered_calls last calls ->
  run_cache (NonceReplayCache_new options) calls =
  run_reference (Z.max (max_entries options) 1)
    (seconds (if retention options <=? 0 then 1 else retention options)) [] calls.
Proof.
  intros Ho. apply (run_cache_reference (NonceReplayCache_new options) last [] last); [|lia|done].
  apply NonceReplayCache_new_represents.
Qed.

Definition sample_calls : list call :=
  [(sample_client_id, sample_nonce, seconds 10); (sample_client_id, sample_nonce, seconds 300);
   (sample_client_id, sample_nonce, seconds 400)].

Lemma replay_cache_refines_witness :
  run_cache (NonceReplayCache_new (mkReplayOptions 2 300)) sample_calls =
  run_reference (Z.max 2 1) (seconds (if 300 <=? 0 then 1 else 300)) [] sample_calls.
Proof.
  apply (replay_cache_refines (mkReplayOptions 2 300) 0). repeat split; vm_compute; congruence.
Defined.

(** C5: a nonce is never accepted twice within the retention window: in any sequence of
    calls on a clock that does not run backwards, at most one of the calls with the
    same client and nonce in a window is answered [true]. *)
Theorem nonce_accepted_once options last calls i j client_id nonce t1 t2 :
  ordered_calls last calls -> (i < j)%nat ->
  calls !! i = Some (client_id, nonce, t1) -> calls !! j = Some (client_id, nonce, t2) ->
  t2 < t1 + seconds (if retention options <=? 0 then 1 else retention options) ->
  run_cache (NonceReplayCache_new options) calls !! i = Some (Ok true) ->
  run_cache (NonceReplayCache_new options) calls !! j <> Some (Ok true).
Proof.
  intros Ho Hij Hi Hj Ht.
  rewrite (run_cache_reference (NonceReplayCache_new options) last [] last) by (done || apply NonceReplayCache_new_represents).
  by eapply reference_accepted_once.
Qed.

Lemma nonce_accepted_once_witness :
  run_cache (NonceReplayCache_new (mkReplayOptions 2 300)) sample_calls !! 1%nat <> Some (Ok true).
Proof.
  eapply (nonce_accepted_once (mkReplayOptions 2 300) 0 sample_calls 0 1 sample_client_id
    sample_nonce (seconds 10) (seconds 300));
    [repeat split; vm_compute; congruence|lia|reflexivity|reflexivity|vm_compute; congruence|].
  vm_compute. reflexivity.
Defined.

(** whatever the calls and the clock, the replay cache holds at most its configured
    number of entries. *)
Theorem replay_cache_bounded options calls :
  Z.of_nat (size (entries_ (cache_after (NonceReplayCache_new options) calls))) <=
  Z.max (max_entries options) 1.
Proof.
  assert (Hgen : forall c, Z.of_nat (size (entries_ c)) <= max_entries (options_ c) ->
    let c' := cache_after c calls in
    Z.of_nat (size (entries_ c')) <= max_entries (options_ c') /\ options_ c' = options_ c).
  { induction calls as [|[[client_id nonce] now] calls IH]; intros c Hc; [done|].
    unfold cache_after. cbn [fold_left]. destruct (consume_bounded c client_id nonce now Hc) as [Hc' <-].
    by apply IH. }
  destruct (Hgen (NonceReplayCache_new options)) as [Hc Ho]; [|by rewrite Ho in Hc].
  cbn [NonceReplayCache_new entries_ options_ max_entries]. rewrite size_empty. lia.
Qed.
