(* ===== verification/RateLimit.v ===== *)
(** * Authentication rate limiter (src/protocol/auth.cpp, class AuthRateLimiter)

    Failed authentications are counted per key; a key with too many failures within
    the window is blocked for a while.  The mutex makes every call one step. *)
From S2P Require Import Prelude Common Clock.

Record AuthRateLimiterOptions : Set := mkLimiterOptions {
  max_entries : Z;
  max_failures : Z;
  failure_window : Z;   (** seconds *)
  block_duration : Z    (** seconds *)
}.

Record Entry : Set := mkEntry {
  failures : list instant;
  blocked_until : instant;
  last_seen : instant
}.

(** [Entry{}]: time points default to the epoch of the clock. *)
Definition Entry_default : Entry := mkEntry [] 0 0.

Record AuthRateLimiter : Set := mkLimiter {
  options_ : AuthRateLimiterOptions;
  entries_ : gmap bytes Entry
}.

(** The constructor. *)
Definition AuthRateLimiter_new (o : AuthRateLimiterOptions) : AuthRateLimiter :=
  mkLimiter
    (mkLimiterOptions (Z.max (max_entries o) 1) (Z.max (max_failures o) 1)
       (if failure_window o <=? 0 then 1 else failure_window o)
       (if block_duration o <=? 0 then 1 else block_duration o)) ∅.

(** [prune_failures]. *)
Fixpoint drop_until (cutoff : instant) (l : list instant) : list instant :=
  match l with
  | [] => []
  | t :: rest => if t <=? cutoff then drop_until cutoff rest else l
  end.

Definition prune_failures (o : AuthRateLimiterOptions) (e : Entry) (now : instant) : Entry :=
  let cutoff := now - seconds (failure_window o) in
  mkEntry (drop_until cutoff (failures e)) (blocked_until e) (last_seen e).

(** [allowed]. *)
Definition allowed (key : bytes) (now : instant) (l : AuthRateLimiter) : bool * AuthRateLimiter :=
  match entries_ l !! key with
  | None => (true, l)
  | Some e =>
      let e := prune_failures (options_ l) e now in
      let e := mkEntry (failures e) (blocked_until e) now in
      (blocked_until e <=? now, mkLimiter (options_ l) (<[key := e]> (entries_ l)))
  end.

(** [evict_one]; [iteration] is the order in which [entries_] is iterated. *)
Definition oldest_key (iteration : list (bytes * Entry)) : option bytes :=
  match iteration with
  | [] => None
  | first :: rest =>
      Some (fst (fold_left (fun oldest x =>
        if last_seen (snd x) <? last_seen (snd oldest) then x else oldest) rest first))
  end.

Definition evict_one (iteration : list (bytes * Entry)) (entries : gmap bytes Entry) :
    gmap bytes Entry :=
  match oldest_key iteration with
  | None => entries
  | Some key => delete key entries
  end.

(** [record_failure]. *)
Definition record_failure (iteration : list (bytes * Entry)) (key : bytes) (now : instant)
    (l : AuthRateLimiter) : AuthRateLimiter :=
  let o := options_ l in
  let entries :=
    if bool_decide (entries_ l !! key = None) && (max_entries o <=? Z.of_nat (size (entries_ l)))
    then evict_one iteration (entries_ l) else entries_ l in
  let e := match entries !! key with Some e => e | None => Entry_default end in
  let e := prune_failures o e now in
  let e := mkEntry (failures e ++ [now]) (blocked_until e) now in
  let e := if max_failures o <=? Zlen (failures e) then
             mkEntry [] (now + seconds (block_duration o)) (last_seen e) else e in
  mkLimiter o (<[key := e]> entries).

(** [record_success]. *)
Definition record_success (key : bytes) (l : AuthRateLimiter) : AuthRateLimiter :=
  mkLimiter (options_ l) (delete key (entries_ l)).

(** ** Sequences of calls *)

Inductive operation : Set :=
| op_allowed (key : bytes) (now : instant)
| op_failure (iteration : list (bytes * Entry)) (key : bytes) (now : instant)
| op_success (key : bytes).

Definition operation_key (op : operation) : bytes :=
  match op with op_allowed k _ | op_failure _ k _ | op_success k => k end.

Definition step (op : operation) (l : AuthRateLimiter) : AuthRateLimiter :=
  match op with
  | op_allowed key now => snd (allowed key now l)
  | op_failure iteration key now => record_failure iteration key now l
  | op_success key => record_success key l
  end.

(** States reached by any calls, the map being iterated in any order. *)
Inductive limiter_reachable (o : AuthRateLimiterOptions) : AuthRateLimiter -> Prop :=
| limiter_new : limiter_reachable o (AuthRateLimiter_new o)
| limiter_step l op :
    limiter_reachable o l ->
    match op with op_failure it _ _ => it ≡ₚ map_to_list (entries_ l) | _ => True end ->
    limiter_reachable o (step op l).

(** The calls [ops], none of which finds the table full. *)
Fixpoint run_roomy (ops : list operation) (l : AuthRateLimiter) : option AuthRateLimiter :=
  match ops with
  | [] => Some l
  | op :: ops =>
      if Z.of_nat (size (entries_ l)) <? max_entries (options_ l)
      then run_roomy ops (step op l) else None
  end.

(** The failures recorded for [key] in [ops], if nothing else is recorded for it. *)
Fixpoint failures_of (key : bytes) (ops : list operation) : option (list instant) :=
  match ops with
  | [] => Some []
  | op :: ops =>
      if decide (operation_key op = key) then
        match op with
        | op_failure _ _ now => (fun l => now :: l) <$> failures_of key ops
        | op_allowed _ _ | op_success _ => None
        end
      else failures_of key ops
  end.

(** ** Lemmas *)

Lemma oldest_key_in iteration entries :
  iteration ≡ₚ map_to_list entries ->
  match oldest_key iteration with
  | None => entries = ∅
  | Some k => is_Some (entries !! k)
  end.
Proof.
  intros Hp. destruct iteration as [|x rest]; cbn [oldest_key].
  - apply map_to_list_empty_iff. by apply Permutation_nil.
  - set (f := fun _ _ => _).
    assert (Hin : forall first, first ∈ x :: rest -> fold_left f rest first ∈ x :: rest).
    { assert (Hgen : forall l first, first ∈ x :: rest -> l ⊆ x :: rest ->
        fold_left f l first ∈ x :: rest).
      { induction l as [|y l IH]; intros first Hf Hl; [done|]. cbn [fold_left].
        apply IH; [|set_solver]. unfold f. destruct (_ <? _); [set_solver|done]. }
      intros first Hf. apply Hgen; set_solver. }
    specialize (Hin x ltac:(left)). rewrite Hp in Hin.
    destruct (fold_left f rest x) as [k e]. apply elem_of_map_to_list in Hin. by exists e.
Qed.

Lemma limiter_bounded o l :
  limiter_reachable o l ->
  Z.of_nat (size (entries_ l)) <= max_entries (options_ l) /\
  options_ l = options_ (AuthRateLimiter_new o).
Proof.
  induction 1 as [|l op _ [Hs Ho] Hit]; [split; [|done]; simpl; rewrite map_size_empty; lia|].
  assert (Hmax : 1 <= max_entries (options_ l)) by (rewrite Ho; simpl; lia).
  destruct op as [key now|it key now|key]; cbn [step].
  - unfold allowed. destruct (entries_ l !! key) as [e|] eqn:E; [|done]. simpl.
    rewrite map_size_insert_Some by eauto. done.
  - unfold record_failure. cbn [entries_ options_]. split; [|done].
    rewrite map_size_insert. case_bool_decide as Hk; cbn [andb].
    + destruct (Z.leb_spec (max_entries (options_ l)) (Z.of_nat (size (entries_ l)))) as [Hfull|].
      * unfold evict_one. pose proof (oldest_key_in it _ Hit) as Hin.
        destruct (oldest_key it) as [k|].
        -- assert (delete k (entries_ l) !! key = None) as -> by (apply lookup_delete_None; by right).
           rewrite map_size_delete. destruct Hin as [e ->]. lia.
        -- rewrite Hin, map_size_empty in Hfull. lia.
      * rewrite Hk. lia.
    + destruct (entries_ l !! key) eqn:E; [simpl; lia|done].
  - unfold record_success. cbn [entries_ options_]. split; [|done].
    rewrite map_size_delete. destruct (entries_ l !! key); simpl; lia.
Qed.

(** Calls for other keys leave a key alone while there is room. *)
Lemma step_other op key l :
  operation_key op <> key -> Z.of_nat (size (entries_ l)) < max_entries (options_ l) ->
  entries_ (step op l) !! key = entries_ l !! key.
Proof.
  intros Hk Hroom. destruct op as [k now|it k now|k]; cbn [step operation_key] in *.
  - unfold allowed. destruct (entries_ l !! k); [|done]. simpl. by rewrite lookup_insert_ne.
  - unfold record_failure. cbn [entries_]. rewrite lookup_insert_ne by done.
    destruct (Z.leb_spec (max_entries (options_ l)) (Z.of_nat (size (entries_ l)))); [lia|].
    by rewrite andb_false_r.
  - simpl. by rewrite lookup_delete_ne.
Qed.

Lemma step_options op l : options_ (step op l) = options_ l.
Proof.
  destruct op as [k now|it k now|k]; [|done..]. simpl. unfold allowed.
  by destruct (entries_ l !! k).
Qed.

Lemma drop_until_keeps cutoff l : Forall (fun t => cutoff < t) l -> drop_until cutoff l = l.
Proof.
  destruct 1 as [|t l Ht _]; [done|]. cbn [drop_until]. destruct (Z.leb_spec t cutoff); [lia|done].
Qed.

(** The entry of a key with [done] failures, all within the window. *)
Definition counted (l : AuthRateLimiter) (key : bytes) (done : list instant) : Prop :=
  match entries_ l !! key with
  | None => done = []
  | Some e => failures e = done
  end.

Lemma record_failure_counts it key now l done :
  counted l key done -> Z.of_nat (size (entries_ l)) < max_entries (options_ l) ->
  Forall (fun t => now - seconds (failure_window (options_ l)) < t) done ->
  exists e, entries_ (record_failure it key now l) !! key = Some e /\
    if max_failures (options_ l) <=? Zlen (done ++ [now])
    then blocked_until e = now + seconds (block_duration (options_ l))
    else failures e = done ++ [now].
Proof.
  intros Hc Hroom Hw. unfold record_failure. cbn [entries_]. rewrite lookup_insert_eq.
  eexists. split; [reflexivity|].
  destruct (Z.leb_spec (max_entries (options_ l)) (Z.of_nat (size (entries_ l)))); [lia|].
  rewrite andb_false_r. unfold counted in Hc.
  set (e := match entries_ l !! key with Some e => e | None => Entry_default end).
  assert (He : failures (prune_failures (options_ l) e now) = done).
  { unfold e, prune_failures. cbn [failures]. destruct (entries_ l !! key); simpl; subst; [|done].
    by apply drop_until_keeps. }
  cbn [failures]. rewrite He.
  by destruct (max_failures (options_ l) <=? Zlen (done ++ [now])).
Qed.

Lemma run_roomy_blocked key ops l l' until :
  run_roomy ops l = Some l' -> failures_of key ops = Some [] ->
  (exists e, entries_ l !! key = Some e /\ blocked_until e = until) ->
  exists e, entries_ l' !! key = Some e /\ blocked_until e = until.
Proof.
  revert l. induction ops as [|op ops IH]; intros l Hr Hf He; simpl in *; [by simplify_eq|].
  destruct (Z.ltb_spec (Z.of_nat (size (entries_ l))) (max_entries (options_ l))); [|done].
  case_decide as Hk; [by destruct op, (failures_of key ops)|].
  eapply IH; [done..|]. by rewrite step_other.
Qed.

(** Failures recorded one after the other until the key is blocked. *)
Lemma run_roomy_counts key ops l l' done ts final :
  run_roomy ops l = Some l' -> failures_of key ops = Some ts -> counted l key done ->
  last ts = Some final -> Zlen (done ++ ts) = max_failures (options_ l) ->
  Forall (fun t => final - seconds (failure_window (options_ l)) < t <= final) (done ++ ts) ->
  exists e, entries_ l' !! key = Some e /\
    blocked_until e = final + seconds (block_duration (options_ l)).
Proof.
  revert l done ts. induction ops as [|op ops IH]; intros l done ts Hr Hf Hc Hlast Hlen Hw;
    simpl in *; [by simplify_eq|].
  destruct (Z.ltb_spec (Z.of_nat (size (entries_ l))) (max_entries (options_ l))) as [Hroom|]; [|done].
  case_decide as Hk.
  - destruct op as [|it k now|]; try done. cbn [operation_key] in Hk. subst k.
    destruct (failures_of key ops) as [ts'|] eqn:Hts; [|done]. simpl in Hf. simplify_eq.
    cbn [step] in *. rewrite Forall_app, Forall_cons in Hw. destruct Hw as (Hd & Hn & Ht).
    destruct (record_failure_counts it key now l done Hc Hroom) as (e & He & Hcase).
    { eapply Forall_impl; [exact Hd|]. simpl. intros. lia. }
    rewrite Zlen_app in Hcase, Hlen. change (Zlen [now]) with 1 in Hcase. rewrite Zlen_cons in Hlen.
    destruct ts' as [|t ts'].
    + injection Hlast as <-. change (Zlen []) with 0 in Hlen.
      destruct (Z.leb_spec (max_failures (options_ l)) (Zlen done + 1)); [|lia].
      eapply run_roomy_blocked; [exact Hr|done|]. by exists e.
    + rewrite Zlen_cons in Hlen. pose proof (Zlen_nonneg ts').
      destruct (Z.leb_spec (max_failures (options_ l)) (Zlen done + 1)); [lia|].
      destruct (IH (record_failure it key now l) (done ++ [now]) (t :: ts')) as (e' & He' & Hb);
        [done|done| |done| | |].
      * unfold counted. by rewrite He.
      * rewrite <- app_assoc. simpl. rewrite Zlen_app, !Zlen_cons. lia.
      * rewrite <- app_assoc. rewrite Forall_app, Forall_app, Forall_singleton. done.
      * by exists e'.
  - destruct (IH (step op l) done ts) as (e & He & Hb); try done.
    + unfold counted. by rewrite step_other.
    + by rewrite step_options.
    + by rewrite step_options.
    + exists e. by rewrite step_options in Hb.
Qed.

(** ** Theorems *)

(** in every reachable state, in whatever order the table is iterated when an entry
    is evicted, the rate limiter holds at most its configured number of entries. *)
Theorem rate_limiter_bounded o l :
  limiter_reachable o l -> Z.of_nat (size (entries_ l)) <= Z.max (max_entries o) 1.
Proof. intros [Hs Ho]%limiter_bounded. by rewrite Ho in Hs. Qed.

Lemma rate_limiter_bounded_witness :
  let l := record_failure [] [Byte.x41] 5 (AuthRateLimiter_new (mkLimiterOptions 1 2 60 60)) in
  Z.of_nat (size (entries_ l)) <= Z.max 1 1.
Proof.
  apply (rate_limiter_bounded (mkLimiterOptions 1 2 60 60)).
  apply (limiter_step _ _ (op_failure [] [Byte.x41] 5)); [apply limiter_new|]. reflexivity.
Defined.

(** a key with no record that fails [max_failures] times within the window is refused
    from the last failure on for the whole block duration and no longer, whatever calls
    are made for other keys in between, as long as the table is not full. *)
Theorem rate_limiter_blocks key ops l l' ts final now :
  entries_ l !! key = None -> run_roomy ops l = Some l' ->
  failures_of key ops = Some ts -> last ts = Some final ->
  Zlen ts = max_failures (options_ l) ->
  Forall (fun t => final - seconds (failure_window (options_ l)) < t <= final) ts ->
  fst (allowed key now l') = (final + seconds (block_duration (options_ l)) <=? now).
Proof.
  intros Hk Hr Hf Hlast Hlen Hw.
  destruct (run_roomy_counts key ops l l' [] ts final) as (e & He & Hb); try done.
  - unfold counted. by rewrite Hk.
  - unfold allowed. rewrite He. cbn [fst blocked_until prune_failures]. by rewrite Hb.
Qed.

Lemma rate_limiter_blocks_witness :
  let l := AuthRateLimiter_new (mkLimiterOptions 8 2 60 60) in
  let ops := [op_failure [] [Byte.x41] (seconds 10); op_failure [] [Byte.x42] (seconds 11);
              op_failure [] [Byte.x41] (seconds 12)] in
  fst (allowed [Byte.x41] (seconds 71) (fold_left (fun l op => step op l) ops l)) =
    (seconds 12 + seconds 60 <=? seconds 71).
Proof.
  intros l ops.
  apply (rate_limiter_blocks [Byte.x41] ops l (fold_left (fun l op => step op l) ops l)
    [seconds 10; seconds 12] (seconds 12) (seconds 71)); try reflexivity.
  repeat constructor; vm_compute; congruence.
Defined.
