(* ===== verification/KeyedMap.v ===== *)
(** * Loops over [std::unordered_map]

    The pools and registries of the server keep their entries in an
    [std::unordered_map] and walk over it to count or to erase the matching ones.
    The order of such a walk is unspecified: it is an argument of the operations,
    any permutation of the entries. *)
From S2P Require Import Prelude.

(** [order] is a walk over all the entries of [m]. *)
Definition iterates {V} (order : list (bytes * V)) (m : gmap bytes V) : Prop :=
  order ≡ₚ map_to_list m.

Section loops.
Context {V : Type}.
Implicit Types (p : V -> bool) (m : gmap bytes V) (order : list (bytes * V)).

(** [for (it = begin; it != end;) if (p) { visit; it = erase(it); } else ++it;]: the
    erased entries in the order they were visited, and the map that is left. *)
Fixpoint erase_loop (p : V -> bool) (order : list (bytes * V)) (m : gmap bytes V) :
    list V * gmap bytes V :=
  match order with
  | [] => ([], m)
  | (k, v) :: order =>
      if p v then let (l, m) := erase_loop p order (delete k m) in (v :: l, m)
      else erase_loop p order m
  end.

(** [for (const auto& [key, entry] : map) if (p) ++count;]. *)
Definition count_loop (p : V -> bool) (m : gmap bytes V) : Z :=
  Z.of_nat (length (List.filter p (map_to_list m).*2)).

(** ** Lemmas *)

Lemma filter_perm p (l l' : list V) : l ≡ₚ l' -> List.filter p l ≡ₚ List.filter p l'.
Proof.
  induction 1; simpl; try done.
  - destruct (p x); [by f_equiv|done].
  - destruct (p x), (p y); try done. apply perm_swap.
  - by etransitivity.
Qed.

Lemma count_loop_nonneg p m : 0 <= count_loop p m.
Proof. unfold count_loop. lia. Qed.

Lemma count_loop_empty p : count_loop p ∅ = 0.
Proof. unfold count_loop. by rewrite map_to_list_empty. Qed.

Lemma count_loop_insert p m k v :
  m !! k = None -> count_loop p (<[k := v]> m) = count_loop p m + if p v then 1 else 0.
Proof.
  intros Hk. unfold count_loop.
  rewrite (Permutation_length (filter_perm p _ _ (fmap_Permutation snd _ _ (map_to_list_insert m k v Hk)))).
  csimpl. destruct (p v); simpl; lia.
Qed.

Lemma count_loop_delete p m k v :
  m !! k = Some v -> count_loop p (delete k m) = count_loop p m - if p v then 1 else 0.
Proof.
  intros Hk. rewrite <- (insert_delete_id m k v Hk) at 2.
  rewrite count_loop_insert by apply lookup_delete_eq. lia.
Qed.

Lemma count_loop_zero p m : count_loop p m = 0 <-> forall k v, m !! k = Some v -> p v = false.
Proof.
  unfold count_loop. split.
  - intros H k v Hk. apply elem_of_map_to_list in Hk.
    destruct (p v) eqn:E; [|done].
    assert (In v (List.filter p (map_to_list m).*2)) as Hin.
    { apply filter_In. split; [|done]. apply list_elem_of_In, list_elem_of_fmap. by exists (k, v). }
    destruct (List.filter p (map_to_list m).*2); [done|simpl in H; lia].
  - intros H. destruct (List.filter p (map_to_list m).*2) as [|v l] eqn:E; [done|].
    assert (In v (List.filter p (map_to_list m).*2)) as Hin by (rewrite E; by left).
    apply filter_In in Hin. destruct Hin as [Hin Hp]. apply list_elem_of_In, list_elem_of_fmap in Hin.
    destruct Hin as ([k v'] & Hv & Hin%elem_of_map_to_list). simpl in Hv. subst v'.
    by rewrite (H _ _ Hin) in Hp.
Qed.

Lemma iterates_cons order m k v :
  iterates ((k, v) :: order) m -> m !! k = Some v /\ iterates order (delete k m).
Proof.
  unfold iterates. intros H.
  assert (Hk : m !! k = Some v) by (apply elem_of_map_to_list; rewrite <- H; by left).
  split; [done|]. rewrite <- (map_to_list_delete m k v Hk) in H. by apply Permutation_cons_inv in H.
Qed.

(** The loop erases exactly the matching entries and visits each of them once. *)
Lemma erase_loop_spec p order m :
  NoDup order.*1 -> (forall k v, (k, v) ∈ order -> m !! k = Some v) ->
  let '(l, m') := erase_loop p order m in
  l = List.filter p order.*2 /\
  (map_to_list m).*2 ≡ₚ l ++ (map_to_list m').*2 /\
  (forall k, m' !! k = match m !! k with
     | Some v => if p v && bool_decide (k ∈ order.*1) then None else Some v
     | None => None end).
Proof.
  revert m. induction order as [|[k v] order IH]; intros m; csimpl; intros Hnd Hm.
  - split_and!; [done|done|]. intros k. destruct (m !! k); [|done]. by rewrite andb_false_r.
  - apply NoDup_cons in Hnd. destruct Hnd as [Hk Hnd].
    assert (Hkv : m !! k = Some v) by (apply Hm; left).
    destruct (p v) eqn:Ep.
    + assert (Hne : forall k' v', (k', v') ∈ order -> k' <> k).
      { intros k' v' Hin ->. apply Hk, list_elem_of_fmap. by exists (k, v'). }
      specialize (IH (delete k m)). destruct (erase_loop p order (delete k m)) as [l m'].
      destruct IH as (Hl & Hperm & Hlook); [done| |].
      { intros k' v' Hin. rewrite lookup_delete_ne by (intros ->; by eapply Hne).
        apply Hm. by right. }
      split_and!.
      * by rewrite Hl.
      * rewrite <- (map_to_list_delete m k v Hkv). csimpl. by rewrite Hperm.
      * intros k'. rewrite Hlook. destruct (decide (k = k')) as [<-|Hd].
        -- rewrite lookup_delete_eq, Hkv, Ep. rewrite bool_decide_true by (left; done). done.
        -- rewrite lookup_delete_ne by done. destruct (m !! k'); [|done].
           rewrite (bool_decide_ext (k' ∈ order.*1) (k' ∈ k :: order.*1)); [done|].
           rewrite elem_of_cons. intuition congruence.
    + specialize (IH m). destruct (erase_loop p order m) as [l m'].
      destruct IH as (Hl & Hperm & Hlook); [done| |].
      { intros k' v' Hin. apply Hm. by right. }
      split_and!; [done|done|]. intros k'. rewrite Hlook.
      destruct (decide (k = k')) as [<-|Hd]; [by rewrite Hkv, Ep|].
      destruct (m !! k'); [|done].
      rewrite (bool_decide_ext (k' ∈ order.*1) (k' ∈ k :: order.*1)); [done|].
      rewrite elem_of_cons. intuition congruence.
Qed.

Lemma iterates_keys order m : iterates order m -> NoDup order.*1 /\
  (forall k v, (k, v) ∈ order <-> m !! k = Some v).
Proof.
  unfold iterates. intros H. split.
  - rewrite H. apply NoDup_fst_map_to_list.
  - intros k v. by rewrite H, elem_of_map_to_list.
Qed.

Lemma erase_loop_iterates p order m :
  iterates order m ->
  let '(l, m') := erase_loop p order m in
  l = List.filter p order.*2 /\
  (map_to_list m).*2 ≡ₚ l ++ (map_to_list m').*2 /\
  (forall k, m' !! k = match m !! k with Some v => if p v then None else Some v | None => None end).
Proof.
  intros Hi. destruct (iterates_keys _ _ Hi) as [Hnd Hm].
  pose proof (erase_loop_spec p order m Hnd (fun k v => proj1 (Hm k v))) as H.
  destruct (erase_loop p order m) as [l m']. destruct H as (Hl & Hp & Hk). split_and!; [done|done|].
  intros k. rewrite Hk. destruct (m !! k) as [v|] eqn:E; [|done].
  rewrite bool_decide_true; [by rewrite andb_true_r|].
  apply list_elem_of_fmap. exists (k, v). split; [done|]. by apply Hm.
Qed.

Lemma count_loop_perm p (m m' : gmap bytes V) l :
  (map_to_list m).*2 ≡ₚ l ++ (map_to_list m').*2 ->
  count_loop p m' = count_loop p m - Z.of_nat (length (List.filter p l)).
Proof.
  intros H. unfold count_loop. rewrite (Permutation_length (filter_perm p _ _ H)), List.filter_app, length_app. lia.
Qed.

Lemma size_perm (m m' : gmap bytes V) l :
  (map_to_list m).*2 ≡ₚ l ++ (map_to_list m').*2 -> size m = (length l + size m')%nat.
Proof.
  intros H%Permutation_length. rewrite length_app, !length_fmap, !length_map_to_list in H. done.
Qed.
End loops.
