(* ===== verification/Quota.v ===== *)
(** * Connection quota (src/server/connection_quota.cpp)

    Public connections are counted per client and in total; a [Lease] object returns
    its slot when it is destroyed.  The theorems are about programs that acquire,
    move, assign and destroy leases in any order. *)
From S2P Require Import Prelude Common Ids.

(** ** ConnectionQuota::Impl *)

Record Impl : Set := mkImpl {
  max_per_client_ : Z;
  max_total_ : Z;
  clients_ : gmap bytes Z;
  total_ : Z
}.

Definition Impl_new (max_per_client max_total : Z) : Impl :=
  mkImpl max_per_client max_total ∅ 0.

(** [acquire]. *)
Definition acquire (client_id : bytes) (max_for_client : Z) : Action Impl unit := fun q =>
  if negb (valid_id client_id client) then
    (failure invalid_argument "connection quota client ID is invalid", q)
  else if (max_for_client =? 0) || (max_per_client_ q <? max_for_client) then
    (failure invalid_argument "connection quota override is invalid", q)
  else
    let client_count := match clients_ q !! client_id with None => 0 | Some n => n end in
    if (max_total_ q <=? total_ q) || (max_for_client <=? client_count) then
      (failure resource_exhausted "connection quota has been reached", q)
    else
      (success,
       mkImpl (max_per_client_ q) (max_total_ q)
         (match clients_ q !! client_id with
          | None => <[client_id := 1]> (clients_ q)
          | Some n => <[client_id := n + 1]> (clients_ q)
          end) (total_ q + 1)).

(** [release]. *)
Definition release (client_id : bytes) (q : Impl) : Impl :=
  match clients_ q !! client_id with
  | None => q
  | Some n =>
      if (n =? 0) || (total_ q =? 0) then q
      else
        mkImpl (max_per_client_ q) (max_total_ q)
          (if n - 1 =? 0 then delete client_id (clients_ q)
           else <[client_id := n - 1]> (clients_ q)) (total_ q - 1)
  end.

Definition total_in_use (q : Impl) : Z := total_ q.

Definition client_in_use (client_id : bytes) (q : Impl) : Z :=
  match clients_ q !! client_id with None => 0 | Some n => n end.

(** ** Lease objects

    A lease either owns a slot of a client ([Some]) or is empty ([None]: default
    constructed, moved from or released).  [leases] are all lease objects of a
    program; a destroyed object stays empty. *)
Record World : Set := mkWorld { impl : Impl; leases : list (option bytes) }.

Definition World_new (max_per_client max_total : Z) : World :=
  mkWorld (Impl_new max_per_client max_total) [].

(** [Lease::release]: also what the destructor does. *)
Definition Lease_release (i : nat) (w : World) : World :=
  match leases w !! i with
  | Some (Some client_id) => mkWorld (release client_id (impl w)) (<[i := None]> (leases w))
  | _ => w
  end.

(** [try_acquire(client_id, max_for_client)]: the new lease is the last object. *)
Definition try_acquire (client_id : bytes) (max_for_client : Z) : Action World nat := fun w =>
  let (acquired, q) := acquire client_id max_for_client (impl w) in
  match acquired with
  | Err e => (Err e, mkWorld q (leases w))
  | Ok _ => (Ok (length (leases w)), mkWorld q (leases w ++ [Some client_id]))
  end.

(** [try_acquire(client_id)]. *)
Definition try_acquire_default (client_id : bytes) : Action World nat := fun w =>
  try_acquire client_id (max_per_client_ (impl w)) w.

(** The move constructor: a new object takes over, the other one is empty. *)
Definition Lease_move (i : nat) (w : World) : World :=
  match leases w !! i with
  | Some l => mkWorld (impl w) (<[i := None]> (leases w) ++ [l])
  | None => w
  end.

(** Move assignment of object [j] to object [i]. *)
Definition Lease_assign (i j : nat) (w : World) : World :=
  if decide (i = j) then w
  else
    let w := Lease_release i w in
    match leases w !! i, leases w !! j with
    | Some _, Some l => mkWorld (impl w) (<[j := None]> (<[i := l]> (leases w)))
    | _, _ => w
    end.

(** Programs over one quota. *)
Inductive quota_step : World -> World -> Prop :=
| step_acquire client_id max_for_client w :
    quota_step w (snd (try_acquire client_id max_for_client w))
| step_acquire_default client_id w : quota_step w (snd (try_acquire_default client_id w))
| step_move i w : quota_step w (Lease_move i w)
| step_assign i j w : quota_step w (Lease_assign i j w)
| step_destroy i w : quota_step w (Lease_release i w).

Inductive quota_reachable (max_per_client max_total : Z) : World -> Prop :=
| quota_start : quota_reachable max_per_client max_total (World_new max_per_client max_total)
| quota_next w w' : quota_reachable max_per_client max_total w -> quota_step w w' ->
    quota_reachable max_per_client max_total w'.

(** ** Lemmas *)

(** The number of leases that own a slot, and of those of one client. *)
Fixpoint owned (p : bytes -> bool) (l : list (option bytes)) : Z :=
  match l with
  | [] => 0
  | Some c :: l => (if p c then 1 else 0) + owned p l
  | None :: l => owned p l
  end.

Definition any (_ : bytes) : bool := true.
Definition of_client (client_id c : bytes) : bool := bool_decide (c = client_id).

Definition weight (p : bytes -> bool) (x : option bytes) : Z :=
  match x with Some c => if p c then 1 else 0 | None => 0 end.

Lemma owned_cons p x l : owned p (x :: l) = weight p x + owned p l.
Proof. by destruct x. Qed.

Lemma owned_app p l1 l2 : owned p (l1 ++ l2) = owned p l1 + owned p l2.
Proof. induction l1 as [|[c|] l1 IH]; simpl; lia. Qed.

Lemma owned_nonneg p l : 0 <= owned p l.
Proof. induction l as [|[c|] l IH]; simpl; [lia|destruct (p c); lia|lia]. Qed.

Lemma owned_insert p i x y l :
  l !! i = Some x -> owned p (<[i := y]> l) = owned p l - weight p x + weight p y.
Proof.
  revert i. induction l as [|z l IH]; intros i Hi; [done|].
  destruct i as [|i]; simpl in Hi.
  - simplify_eq. simpl insert. rewrite !owned_cons. lia.
  - change (<[S i := y]> (z :: l)) with (z :: <[i := y]> l). rewrite !owned_cons, IH by done. lia.
Qed.

Lemma owned_none p l : Forall (fun x => x = None) l -> owned p l = 0.
Proof. by induction 1 as [|x l -> _ IH]. Qed.

Lemma owned_le p l : owned p l <= owned any l.
Proof. induction l as [|[c|] l IH]; simpl; [lia|destruct (p c); lia|lia]. Qed.

(** The counters are exact and within the limits. *)
Record world_inv (max_per_client max_total : Z) (w : World) : Prop := {
  inv_limits : max_per_client_ (impl w) = max_per_client /\ max_total_ (impl w) = max_total;
  inv_total : total_ (impl w) = owned any (leases w);
  inv_client c : client_in_use c (impl w) = owned (of_client c) (leases w);
  inv_positive c n : clients_ (impl w) !! c = Some n -> 1 <= n;
  inv_total_bound : owned any (leases w) <= Z.max max_total 0;
  inv_client_bound c : owned (of_client c) (leases w) <= Z.max max_per_client 0
}.

Lemma of_self c : weight (of_client c) (Some c) = 1.
Proof. simpl. unfold of_client. by rewrite bool_decide_true. Qed.

Lemma of_other c c' : c' <> c -> weight (of_client c) (Some c') = 0.
Proof. intros. simpl. unfold of_client. by rewrite bool_decide_false. Qed.

Lemma release_exact mp mt w i c :
  world_inv mp mt w -> leases w !! i = Some (Some c) ->
  world_inv mp mt (mkWorld (release c (impl w)) (<[i := None]> (leases w))).
Proof.
  intros Hw Hi. destruct Hw as [[Hmp Hmt] Ht Hc Hp Htb Hcb].
  assert (Hn : 1 <= owned (of_client c) (leases w)).
  { rewrite <- (take_drop_middle _ _ _ Hi), owned_app, owned_cons, of_self.
    pose proof (owned_nonneg (of_client c) (take i (leases w))).
    pose proof (owned_nonneg (of_client c) (drop (S i) (leases w))). lia. }
  pose proof (owned_le (of_client c) (leases w)) as Hle. pose proof (Hc c) as Hcc.
  unfold client_in_use in Hcc. unfold release.
  destruct (clients_ (impl w) !! c) as [n|] eqn:E; [|lia].
  destruct (Z.eqb_spec n 0), (Z.eqb_spec (total_ (impl w)) 0); try lia. cbn [orb].
  assert (Hany : owned any (<[i := None]> (leases w)) = owned any (leases w) - 1)
    by (rewrite (owned_insert any i _ _ _ Hi); simpl; lia).
  assert (Hof : forall c', owned (of_client c') (<[i := None]> (leases w)) =
    owned (of_client c') (leases w) - if decide (c = c') then 1 else 0).
  { intros c'. rewrite (owned_insert _ i _ _ _ Hi). case_decide as Hd.
    - subst. rewrite of_self. simpl. lia.
    - rewrite of_other by done. simpl. lia. }
  split; cbn [impl leases max_per_client_ max_total_ total_ clients_].
  - done.
  - rewrite Hany. lia.
  - intros c'. rewrite Hof. unfold client_in_use. cbn [clients_]. specialize (Hc c').
    unfold client_in_use in Hc. case_decide as Hd.
    + subst c'. rewrite E in Hc. destruct (Z.eqb_spec (n - 1) 0).
      * rewrite lookup_delete_eq. lia.
      * rewrite lookup_insert_eq. lia.
    + rewrite <- Hc. destruct (n - 1 =? 0); rewrite ?lookup_delete_ne, ?lookup_insert_ne by done; lia.
  - intros c' m. destruct (Z.eqb_spec (n - 1) 0).
    + rewrite lookup_delete_Some. intros [_ Hm]. by eapply Hp.
    + rewrite lookup_insert_Some. intros [[_ <-]|[_ Hm]]; [lia|by eapply Hp].
  - rewrite Hany. lia.
  - intros c'. rewrite Hof. specialize (Hcb c'). destruct (decide (c = c')); lia.
Qed.

Lemma acquire_exact mp mt w c n :
  world_inv mp mt w -> acquire c n (impl w) = (success, snd (acquire c n (impl w))) ->
  world_inv mp mt (mkWorld (snd (acquire c n (impl w))) (leases w ++ [Some c])).
Proof.
  intros Hw. destruct Hw as [[Hmp Hmt] Ht Hc Hp Htb Hcb]. unfold acquire.
  destruct (valid_id c client); cbn [negb]; [|done].
  destruct (Z.eqb_spec n 0), (Z.ltb_spec (max_per_client_ (impl w)) n); try done. cbn [orb].
  fold (client_in_use c (impl w)).
  destruct (Z.leb_spec (max_total_ (impl w)) (total_ (impl w))); [done|].
  destruct (Z.leb_spec n (client_in_use c (impl w))); [done|]. intros _. cbn [orb snd].
  assert (Hof : forall c', owned (of_client c') (leases w ++ [Some c]) =
    owned (of_client c') (leases w) + if decide (c = c') then 1 else 0).
  { intros c'. rewrite owned_app, owned_cons. case_decide as Hd.
    - subst. rewrite of_self. simpl. lia.
    - rewrite of_other by done. simpl. lia. }
  assert (Hany : owned any (leases w ++ [Some c]) = owned any (leases w) + 1)
    by (rewrite owned_app; simpl; lia).
  split; cbn [impl leases max_per_client_ max_total_ total_ clients_].
  - done.
  - lia.
  - intros c'. rewrite Hof, <- Hc. unfold client_in_use. cbn [clients_]. case_decide as Hd.
    + subst c'. destruct (clients_ (impl w) !! c); rewrite lookup_insert_eq; lia.
    + destruct (clients_ (impl w) !! c); rewrite lookup_insert_ne by done; lia.
  - intros c' m. destruct (clients_ (impl w) !! c) as [k|] eqn:E;
      rewrite lookup_insert_Some; intros [[_ <-]|[_ Hm]]; try (by eapply Hp); [|lia].
    specialize (Hp _ _ E). lia.
  - lia.
  - intros c'. rewrite Hof. specialize (Hcb c'). case_decide as Hd; [|lia]. subst c'.
    rewrite Hc in *. lia.
Qed.

(** A failed [acquire] leaves the quota as it was. *)
Lemma acquire_cases c n q : acquire c n q = (success, snd (acquire c n q)) \/
  exists e, acquire c n q = (Err e, q).
Proof. unfold acquire. repeat case_match; eauto. Qed.

Lemma try_acquire_inv mp mt w c n : world_inv mp mt w -> world_inv mp mt (snd (try_acquire c n w)).
Proof.
  intros Hw. unfold try_acquire. destruct (acquire_cases c n (impl w)) as [H|[e H]].
  - pose proof (acquire_exact _ _ _ _ _ Hw H) as Hi. by rewrite H.
  - rewrite H. by destruct w.
Qed.

Lemma Lease_release_inv mp mt w i : world_inv mp mt w -> world_inv mp mt (Lease_release i w).
Proof.
  intros Hw. unfold Lease_release. destruct (leases w !! i) as [[c|]|] eqn:E; try done.
  by apply release_exact.
Qed.

(** The invariant only looks at how many leases each client owns. *)
Lemma world_inv_ext mp mt q l l' :
  (forall p, owned p l' = owned p l) -> world_inv mp mt (mkWorld q l) -> world_inv mp mt (mkWorld q l').
Proof.
  intros E Hw. destruct Hw as [Hl Ht Hc Hp Htb Hcb]. cbn [impl leases] in *.
  split; cbn [impl leases]; intros; rewrite ?E; eauto.
Qed.

Lemma Lease_move_inv mp mt w i : world_inv mp mt w -> world_inv mp mt (Lease_move i w).
Proof.
  intros Hw. unfold Lease_move. destruct (leases w !! i) as [l|] eqn:E; [|done].
  destruct w as [q ls]. revert Hw. apply world_inv_ext. intros p. simpl in *.
  rewrite owned_app, (owned_insert _ _ _ _ _ E), owned_cons. simpl. lia.
Qed.

Lemma Lease_release_empty i w : match leases (Lease_release i w) !! i with Some (Some _) => False | _ => True end.
Proof.
  unfold Lease_release. destruct (leases w !! i) as [[c|]|] eqn:E; simpl; rewrite ?E; try done.
  rewrite list_lookup_insert_eq; [done|]. by eapply lookup_lt_Some.
Qed.

Lemma Lease_assign_inv mp mt w i j : world_inv mp mt w -> world_inv mp mt (Lease_assign i j w).
Proof.
  intros Hw. unfold Lease_assign. case_decide as Hij; [done|].
  pose proof (Lease_release_inv _ _ _ i Hw) as Hr. pose proof (Lease_release_empty i w) as He.
  destruct (Lease_release i w) as [q ls]. cbn [leases impl] in *.
  destruct (ls !! i) as [[c|]|] eqn:Ei, (ls !! j) as [l|] eqn:Ej; try done.
  revert Hr. apply world_inv_ext. intros p.
  rewrite (owned_insert p j l) by (by rewrite list_lookup_insert_ne).
  rewrite (owned_insert p i None) by done. simpl. lia.
Qed.

Create HintDb quota.
#[export] Hint Resolve try_acquire_inv Lease_release_inv Lease_move_inv Lease_assign_inv : quota.

Lemma quota_inv mp mt w : quota_reachable mp mt w -> world_inv mp mt w.
Proof.
  induction 1 as [|w w' _ IH Hs].
  - split; simpl; try done; try lia.
  - destruct Hs; eauto with quota.
Qed.

(** ** The claim *)

(** C8: However a program acquires, moves, assigns and destroys leases, the quota's
    counters are exactly the numbers of leases that own a slot (in total and of each
    client), they stay within the configured limits, and when no lease owns a slot
    the counters are back at zero: no slot is leaked and none is returned twice. *)
Theorem quota_counts_leases (max_per_client max_total : Z) (w : World) :
  0 <= max_per_client -> 0 <= max_total -> quota_reachable max_per_client max_total w ->
  total_in_use (impl w) = owned any (leases w) /\ total_in_use (impl w) <= max_total /\
  (forall c, client_in_use c (impl w) = owned (of_client c) (leases w) /\
     client_in_use c (impl w) <= max_per_client) /\
  (Forall (fun l => l = None) (leases w) ->
     total_in_use (impl w) = 0 /\ clients_ (impl w) = ∅).
Proof.
  intros Hp Ht Hw. destruct (quota_inv _ _ _ Hw) as [_ It Ic Ip Itb Icb]. unfold total_in_use.
  split_and!; [done|lia| |].
  - intros c. rewrite Ic. specialize (Icb c). lia.
  - intros Hf. split; [rewrite It; by apply owned_none|]. apply map_eq. intros c. rewrite lookup_empty.
    destruct (clients_ (impl w) !! c) as [n|] eqn:E; [|done]. specialize (Ip _ _ E).
    specialize (Ic c). unfold client_in_use in Ic. rewrite E, owned_none in Ic by done. lia.
Qed.

Lemma quota_counts_leases_witness :
  let c := bs "client_" ++ repeat "a"%byte 32 in
  let w := Lease_assign 0 1 (snd (try_acquire c 2 (snd (try_acquire_default c (World_new 2 5))))) in
  leases w = [Some c; None] /\
  total_in_use (impl w) = owned any (leases w) /\ total_in_use (impl w) <= 5.
Proof.
  intros c w.
  destruct (quota_counts_leases 2 5 w) as (H1 & H2 & _); [lia|lia| |split; [by vm_compute|split; [exact H1|exact H2]]].
  eapply quota_next; [|apply step_assign]. eapply quota_next; [|apply step_acquire].
  eapply quota_next; [apply quota_start|apply step_acquire_default].
Defined.
