(* ===== verification/Session.v ===== *)
(** * Client sessions (src/server/session_registry.cpp)

    Each client has at most one current session, named by a random generation; opening
    a session supersedes the client's earlier one, and only the current session can
    close itself. *)
From S2P Require Import Prelude Common Ids Auth.

Record SessionRegistry : Set := mkSessionRegistry {
  max_clients_ : Z;
  generations_ : gmap bytes Z
}.

Definition SessionRegistry_new (max_clients : Z) : SessionRegistry :=
  mkSessionRegistry (Z.max max_clients 1) ∅.

Definition session_count (s : SessionRegistry) : Z := Z.of_nat (size (generations_ s)).

(** [open]; [draws] are the results of [RAND_bytes]. *)
Definition session_open (draws : list (option bytes)) (client_id : bytes) :
    Action SessionRegistry Z := fun s =>
  if negb (valid_id client_id client) then (failure invalid_argument "client ID is invalid", s)
  else
    match generate_session_generation 4 draws with
    | Err e => (Err e, s)
    | Ok generation =>
        if bool_decide (generations_ s !! client_id = None) && (max_clients_ s <=? session_count s)
        then (failure resource_exhausted "server client limit has been reached", s)
        else
          (Ok generation,
           mkSessionRegistry (max_clients_ s) (<[client_id := generation]> (generations_ s)))
    end.

Definition is_current (client_id : bytes) (generation : Z) (s : SessionRegistry) : bool :=
  match generations_ s !! client_id with Some g => g =? generation | None => false end.

Definition session_close (client_id : bytes) (generation : Z) (s : SessionRegistry) :
    SessionRegistry :=
  match generations_ s !! client_id with
  | Some g =>
      if g =? generation then
        mkSessionRegistry (max_clients_ s) (delete client_id (generations_ s))
      else s
  | None => s
  end.

(** ** Runs with their history, the newest event first *)
Inductive SessionEvent : Set :=
| Opened (client_id : bytes) (generation : Z)
| CloseCalled (client_id : bytes) (generation : Z).

Inductive session_run (max_clients : Z) : list SessionEvent -> SessionRegistry -> Prop :=
| session_run_new : session_run max_clients [] (SessionRegistry_new max_clients)
| session_run_open h s draws c g s' :
    session_run max_clients h s -> session_open draws c s = (Ok g, s') ->
    session_run max_clients (Opened c g :: h) s'
| session_run_open_failed h s draws c e s' :
    session_run max_clients h s -> session_open draws c s = (Err e, s') ->
    session_run max_clients h s'
| session_run_close h s c g :
    session_run max_clients h s -> session_run max_clients (CloseCalled c g :: h) (session_close c g s).

(** What the history says: the newest event about the client decides, except that a
    close of another generation is ignored. *)
Fixpoint current_session (h : list SessionEvent) (client_id : bytes) : option Z :=
  match h with
  | [] => None
  | Opened c g :: h => if decide (c = client_id) then Some g else current_session h client_id
  | CloseCalled c g :: h =>
      if decide (c = client_id /\ current_session h client_id = Some g) then None
      else current_session h client_id
  end.

(** ** Lemmas *)

Lemma session_open_spec draws c s :
  (exists e, session_open draws c s = (Err e, s)) \/
  (exists g, session_open draws c s =
     (Ok g, mkSessionRegistry (max_clients_ s) (<[c := g]> (generations_ s))) /\
   generate_session_generation 4 draws = Ok g /\ valid_id c client = true /\
   (generations_ s !! c = None -> session_count s < max_clients_ s)).
Proof.
  unfold session_open. destruct (valid_id c client); cbn [negb]; [|left; by eexists].
  destruct (generate_session_generation 4 draws) as [g|e]; [|left; by eexists].
  case_match eqn:E; [left; by eexists|right]. exists g. split_and!; try done.
  intros Hn. rewrite bool_decide_true in E by done. simpl in E. by apply Z.leb_gt in E.
Qed.

Lemma generation_nonzero n draws g : generate_session_generation n draws = Ok g -> g <> 0.
Proof.
  revert draws. induction n as [|n IH]; intros [|[l|] draws]; simpl; try done.
  destruct (Z.eqb_spec (generation_of_bytes l) 0); simpl; [apply IH|]. by intros [= <-].
Qed.

Lemma session_open_failed draws c s e s' : session_open draws c s = (Err e, s') -> s' = s.
Proof. destruct (session_open_spec draws c s) as [[e' ->]|(g & -> & _)]; by intros [=]. Qed.

Lemma session_run_spec n h s :
  session_run n h s ->
  max_clients_ s = Z.max n 1 /\ session_count s <= Z.max n 1 /\
  (forall c, generations_ s !! c = current_session h c) /\
  (forall c g, generations_ s !! c = Some g -> g <> 0).
Proof.
  induction 1 as [|h s draws c g s' _ (Hm & Hn & Hc & Hz) E|h s draws c e s' _ IH E|h s c g _ (Hm & Hn & Hc & Hz)].
  - split_and!; try done. change (session_count (SessionRegistry_new n)) with 0. lia.
  - destruct (session_open_spec draws c s) as [[e E']|(g' & E' & Hg & Hv & Hs)]; rewrite E in E';
      simplify_eq. split_and!; [done| | |]; unfold session_count in *;
      cbn [generations_ max_clients_ current_session] in *.
    + rewrite map_size_insert. destruct (generations_ s !! c) eqn:El; simpl; [lia|].
      specialize (Hs eq_refl). lia.
    + intros c'. case_decide as Hd; [subst; by rewrite lookup_insert_eq|].
      by rewrite lookup_insert_ne.
    + intros c' g1. rewrite lookup_insert_Some. intros [[_ <-]|[_ Hl]]; [|by eapply Hz].
      by eapply generation_nonzero.
  - apply session_open_failed in E. by subst.
  - unfold session_close. destruct (generations_ s !! c) as [g'|] eqn:El.
    + destruct (Z.eqb_spec g' g) as [->|Hne].
      * split_and!; unfold session_count in *; simpl in *; [done| | |].
        -- rewrite map_size_delete, El. lia.
        -- intros c'. case_decide as Hd.
           ++ destruct Hd as [<- _]. by rewrite lookup_delete_eq.
           ++ rewrite lookup_delete_ne; [apply Hc|]. intros <-. apply Hd. split; [done|]. by rewrite <- Hc.
        -- intros c' g1 [_ Hl]%lookup_delete_Some. by eapply Hz.
      * split_and!; try done. intros c'. simpl. case_decide as Hd; [|apply Hc].
        destruct Hd as [<- Hd]. rewrite <- Hc in Hd. congruence.
    + split_and!; try done. intros c'. simpl. case_decide as Hd; [|apply Hc].
      destruct Hd as [<- Hd]. rewrite <- Hc in Hd. congruence.
Qed.

Lemma is_current_iff c g s : is_current c g s = true <-> generations_ s !! c = Some g.
Proof.
  unfold is_current. destruct (generations_ s !! c) as [g'|]; [|done].
  rewrite Z.eqb_eq. split; [by intros ->|by intros [= ->]].
Qed.

(** A generation that is current was the last one opened for the client and was not
    closed since. *)
Lemma current_session_iff h c g :
  current_session h c = Some g <->
  exists h1 h2, h = h1 ++ Opened c g :: h2 /\
    (forall g', (Opened c g' ∉ h1)) /\ (CloseCalled c g ∉ h1).
Proof.
  induction h as [|e h IH].
  { split; [done|]. intros (h1 & h2 & E & _). by destruct h1. }
  split.
  - destruct e as [c' g'|c' g']; simpl; case_decide as Hd.
    + intros [= <-]. subst. exists [], h. split_and!; [done| |]; set_solver.
    + intros (h1 & h2 & -> & H1 & H2)%IH. exists (Opened c' g' :: h1), h2. split_and!; [done| |set_solver].
      intros g1 [[= -> ->]|Hin]%elem_of_cons; [done|by eapply H1].
    + done.
    + intros Hc. pose proof Hc as (h1 & h2 & -> & H1 & H2)%IH.
      exists (CloseCalled c' g' :: h1), h2. split_and!; [done|set_solver|].
      intros [[= -> ->]|Hin]%elem_of_cons; [|done]. by apply Hd.
  - intros (h1 & h2 & E & H1 & H2). destruct h1 as [|e' h1]; simplify_list_eq.
    + simpl. by rewrite decide_True.
    + assert (Hc : current_session (h1 ++ Opened c g :: h2) c = Some g).
      { apply IH. exists h1, h2. split_and!; [done| |]; set_solver. }
      destruct e' as [c' g'|c' g']; simpl; case_decide as Hd; try done.
      * subst. exfalso. apply (H1 g'). left.
      * destruct Hd as [-> Hd]. rewrite Hc in Hd. simplify_eq. exfalso. apply H2. left.
Qed.

(** ** The claim *)

(** C9: A session generation is current exactly when it was the last one opened for
    its client and no close of that generation was called since; generations are never
    0, closing a superseded generation has no effect, and the number of clients with a
    session stays within the limit. *)
Theorem session_current_exact max_clients h s :
  session_run max_clients h s ->
  session_count s <= Z.max max_clients 1 /\
  (forall c g, is_current c g s = true <->
     exists h1 h2, h = h1 ++ Opened c g :: h2 /\
       (forall g', (Opened c g' ∉ h1)) /\ (CloseCalled c g ∉ h1)) /\
  (forall c g, is_current c g s = true -> g <> 0) /\
  (forall c g, is_current c g s = false -> session_close c g s = s).
Proof.
  intros (_ & Hn & Hc & Hz)%session_run_spec. split_and!; [done| | |].
  - intros c g. by rewrite is_current_iff, Hc, current_session_iff.
  - intros c g. rewrite is_current_iff. apply Hz.
  - intros c g. unfold is_current, session_close. destruct (generations_ s !! c) as [g'|]; [|done].
    by intros ->.
Qed.

Lemma session_current_exact_witness :
  let c := bs "client_" ++ repeat "a"%byte 32 in
  let d b := [Some (repeat b 8)] in
  let s1 := snd (session_open (d "a"%byte) c (SessionRegistry_new 3)) in
  let s2 := snd (session_open (d "b"%byte) c s1) in
  is_current c (generation_of_bytes (repeat "b"%byte 8)) s2 = true /\
  session_close c (generation_of_bytes (repeat "a"%byte 8)) s2 = s2.
Proof.
  intros c d s1 s2. split; [by vm_compute|].
  apply (session_current_exact 3 [Opened c (generation_of_bytes (repeat "b"%byte 8));
    Opened c (generation_of_bytes (repeat "a"%byte 8))] s2); [|by vm_compute].
  refine (session_run_open 3 _ s1 (d "b"%byte) c _ s2 _ _); [|by apply pair_fst; vm_compute].
  refine (session_run_open 3 [] (SessionRegistry_new 3) (d "a"%byte) c _ s1 _ _);
    [apply session_run_new|by apply pair_fst; vm_compute].
Defined.
