(* ===== verification/TunnelRegistry.v ===== *)
(** * The server's public listeners (src/server/tunnel_registry.cpp)

    One listening socket per registered tunnel, replaced when the tunnel's binding
    changes and closed with its session.  What the operating system answers to
    open/bind/listen is an argument of [register_tunnel]; starting and stopping a
    listener is an entry of the event log. *)
From S2P Require Import Prelude Common Ids PortRange Messages KeyedMap.

(** [TunnelBinding] (tunnel_registry.hpp). *)
Record TunnelBinding : Set := mkTunnelBinding {
  bind_client_id : bytes;
  bind_session_generation : Z;
  bind_tunnel_id : bytes;
  bind_host : bytes;
  bind_port : Z;
  bind_config_revision : Z;
  bind_mode : TunnelMode
}.

#[export] Instance TunnelBinding_eq_decision : EqDecision TunnelBinding.
Proof. solve_decision. Defined.

Definition kMaximumTotalTunnels : Z := 100000.

(** [asio::ip::make_address] and [address::is_loopback]. *)
Class AsioBindAddress := {
  ip_address : Type;
  make_address : bytes -> option ip_address;
  is_loopback : ip_address -> bool
}.

(** The outcomes of open/set_option/bind/listen that the code tells apart. *)
Inductive AsioError : Set := address_in_use | access_denied | no_permission | other_error.

Inductive ListenerEvent : Set :=
| Started (binding : TunnelBinding)
| Stopped (binding : TunnelBinding).

Definition ch_slash : byte := "/"%byte.

Definition binding_key (client_id tunnel_id : bytes) : bytes := client_id ++ ch_slash :: tunnel_id.

(** [TunnelRegistry::Impl]; a listener is the binding it was created with. *)
Record TunnelRegistry : Set := mkTunnelRegistry {
  allowed_ports_ : PortRange;
  max_tunnels_per_client_ : Z;
  max_total_tunnels_ : Z;
  listeners_ : gmap bytes TunnelBinding
}.

Definition TunnelRegistry_new (allowed_ports : PortRange) (max_per_client max_total : Z) :
    TunnelRegistry := mkTunnelRegistry allowed_ports max_per_client max_total ∅.

Definition with_listeners (listeners : gmap bytes TunnelBinding) (r : TunnelRegistry) :
    TunnelRegistry :=
  mkTunnelRegistry (allowed_ports_ r) (max_tunnels_per_client_ r) (max_total_tunnels_ r) listeners.

(** The bindings of the listeners. *)
Abbreviation open_listeners r := ((map_to_list (listeners_ r)).*2).

Section registry.
Context `{AsioBindAddress}.

Definition validate_binding (b : TunnelBinding) (allowed_ports : PortRange) : Result unit :=
  if negb (valid_id (bind_client_id b) client) || negb (valid_id (bind_tunnel_id b) tunnel) ||
     (bind_session_generation b =? 0) || (bind_config_revision b =? 0) ||
     bool_decide (bind_host b = []) || (bind_port b =? 0)
  then failure invalid_argument "tunnel binding is invalid"
  else if negb (PortRange_contains allowed_ports (bind_port b)) then
    failure permission_denied "remote tunnel port is outside the allowlist"
  else
    match make_address (bind_host b) with
    | None => failure invalid_argument "remote tunnel bind host must be numeric"
    | Some address =>
        if bool_decide (bind_mode b = socks5) && negb (is_loopback address) then
          failure permission_denied "SOCKS5 tunnels must bind a numeric loopback address"
        else success
    end.

(** The error code [start] reports for a failed system call. *)
Definition listener_error (e : AsioError) : ErrorCode :=
  match e with
  | address_in_use => remote_port_in_use
  | access_denied | no_permission => permission_denied
  | other_error => connection_failed
  end.

(** [TcpListener::start] and [UdpListener::start]. *)
Definition TcpListener_start (os : option AsioError) (b : TunnelBinding) : Result unit :=
  match make_address (bind_host b) with
  | None => failure invalid_argument "remote tunnel bind host is invalid"
  | Some _ =>
      match os with
      | Some e => failure (listener_error e) "remote tunnel listener could not be created"
      | None => success
      end
  end.

Definition UdpListener_start (os : option AsioError) (b : TunnelBinding) : Result unit :=
  match make_address (bind_host b) with
  | None => failure invalid_argument "remote UDP bind host is invalid"
  | Some _ =>
      match os with
      | Some e => failure (listener_error e) "remote UDP listener could not be created"
      | None => success
      end
  end.

Definition registry_size (r : TunnelRegistry) : Z := Z.of_nat (size (listeners_ r)).

Definition client_size (client_id : bytes) (r : TunnelRegistry) : Z :=
  count_loop (fun b => bool_decide (bind_client_id b = client_id)) (listeners_ r).

(** [register_tunnel] after the lookup of an existing listener. *)
Definition register_new (os : option AsioError) (b : TunnelBinding) (max_for_client : Z)
    (events : list ListenerEvent) (r : TunnelRegistry) :
    Result unit * list ListenerEvent * TunnelRegistry :=
  let effective_client_limit :=
    if max_for_client =? 0 then max_tunnels_per_client_ r
    else Z.min max_for_client (max_tunnels_per_client_ r) in
  if (effective_client_limit =? 0) || (effective_client_limit <=? client_size (bind_client_id b) r)
  then (failure resource_exhausted "client tunnel limit has been reached", events, r)
  else if max_total_tunnels_ r <=? registry_size r then
    (failure resource_exhausted "global tunnel limit has been reached", events, r)
  else
    let started :=
      if bool_decide (bind_mode b = udp) then UdpListener_start os b else TcpListener_start os b in
    match started with
    | Err e => (Err e, events, r)
    | Ok _ =>
        (success, events ++ [Started b],
         with_listeners (<[binding_key (bind_client_id b) (bind_tunnel_id b) := b]> (listeners_ r)) r)
    end.

Definition register_tunnel (os : option AsioError) (b : TunnelBinding) (max_for_client : Z)
    (r : TunnelRegistry) : Result unit * list ListenerEvent * TunnelRegistry :=
  match validate_binding b (allowed_ports_ r) with
  | Err e => (Err e, [], r)
  | Ok _ =>
      if (max_tunnels_per_client_ r =? 0) || (kMaximumTotalTunnels <? max_tunnels_per_client_ r) ||
         (max_total_tunnels_ r =? 0) || (kMaximumTotalTunnels <? max_total_tunnels_ r)
      then (failure invalid_argument "tunnel limits are invalid", [], r)
      else
        let key := binding_key (bind_client_id b) (bind_tunnel_id b) in
        match listeners_ r !! key with
        | Some existing =>
            if decide (existing = b) then (success, [], r)
            else register_new os b max_for_client [Stopped existing]
                   (with_listeners (delete key (listeners_ r)) r)
        | None => register_new os b max_for_client [] r
        end
  end.

Definition unregister_tunnel (client_id : bytes) (session_generation : Z) (tunnel_id : bytes)
    (config_revision : Z) (r : TunnelRegistry) : list ListenerEvent * TunnelRegistry :=
  let key := binding_key client_id tunnel_id in
  match listeners_ r !! key with
  | None => ([], r)
  | Some b =>
      if negb (bind_session_generation b =? session_generation) ||
         (negb (config_revision =? 0) && negb (bind_config_revision b =? config_revision))
      then ([], r)
      else ([Stopped b], with_listeners (delete key (listeners_ r)) r)
  end.

Definition listener_matching (client_id : bytes) (session_generation : Z) (match_generation : bool)
    (b : TunnelBinding) : bool :=
  bool_decide (bind_client_id b = client_id) &&
  (negb match_generation || (bind_session_generation b =? session_generation)).

Definition erase_matching (order : list (bytes * TunnelBinding)) (client_id : bytes)
    (session_generation : Z) (match_generation : bool) (r : TunnelRegistry) :
    list ListenerEvent * TunnelRegistry :=
  let (erased, listeners) :=
    erase_loop (listener_matching client_id session_generation match_generation) order
      (listeners_ r) in
  (Stopped <$> erased, with_listeners listeners r).

Definition remove_session (order : list (bytes * TunnelBinding)) (client_id : bytes)
    (session_generation : Z) (r : TunnelRegistry) : list ListenerEvent * TunnelRegistry :=
  erase_matching order client_id session_generation true r.

Definition remove_client (order : list (bytes * TunnelBinding)) (client_id : bytes)
    (r : TunnelRegistry) : list ListenerEvent * TunnelRegistry :=
  erase_matching order client_id 0 false r.

Definition clear (order : list (bytes * TunnelBinding)) (r : TunnelRegistry) :
    list ListenerEvent * TunnelRegistry :=
  (Stopped <$> order.*2, with_listeners ∅ r).

(** ** Runs of a registry *)
Inductive registry_run (ports : PortRange) (per_client total : Z) :
    list ListenerEvent -> TunnelRegistry -> Prop :=
| registry_run_new : registry_run ports per_client total [] (TunnelRegistry_new ports per_client total)
| registry_run_register events r os b max_for_client result more r' :
    registry_run ports per_client total events r ->
    register_tunnel os b max_for_client r = (result, more, r') ->
    registry_run ports per_client total (events ++ more) r'
| registry_run_unregister events r c g t v more r' :
    registry_run ports per_client total events r ->
    unregister_tunnel c g t v r = (more, r') ->
    registry_run ports per_client total (events ++ more) r'
| registry_run_remove_session events r order c g more r' :
    registry_run ports per_client total events r -> iterates order (listeners_ r) ->
    remove_session order c g r = (more, r') ->
    registry_run ports per_client total (events ++ more) r'
| registry_run_remove_client events r order c more r' :
    registry_run ports per_client total events r -> iterates order (listeners_ r) ->
    remove_client order c r = (more, r') ->
    registry_run ports per_client total (events ++ more) r'
| registry_run_clear events r order more r' :
    registry_run ports per_client total events r -> iterates order (listeners_ r) ->
    clear order r = (more, r') ->
    registry_run ports per_client total (events ++ more) r'.

Definition started_of (e : ListenerEvent) : option TunnelBinding :=
  match e with Started b => Some b | Stopped _ => None end.
Definition stopped_of (e : ListenerEvent) : option TunnelBinding :=
  match e with Stopped b => Some b | Started _ => None end.

(** ** Lemmas *)

Lemma started_stopped (l : list TunnelBinding) : omap started_of (Stopped <$> l) = [].
Proof. by induction l. Qed.
Lemma stopped_stopped (l : list TunnelBinding) : omap stopped_of (Stopped <$> l) = l.
Proof. induction l as [|b l IH]; [done|]. csimpl. by rewrite IH. Qed.

(** [out] leaves the registry and nothing else changes. *)
Record closes (out : list TunnelBinding) (r r' : TunnelRegistry) : Prop := {
  closes_params : allowed_ports_ r' = allowed_ports_ r /\
    max_tunnels_per_client_ r' = max_tunnels_per_client_ r /\
    max_total_tunnels_ r' = max_total_tunnels_ r;
  closes_perm : open_listeners r ≡ₚ out ++ open_listeners r';
  closes_subset : listeners_ r' ⊆ listeners_ r
}.

Lemma closes_nil r : closes [] r r.
Proof. by split. Qed.

Lemma closes_delete r k b : listeners_ r !! k = Some b ->
  closes [b] r (with_listeners (delete k (listeners_ r)) r).
Proof.
  intros Hk. split; [done| |apply delete_subseteq]. simpl. by rewrite <- (map_to_list_delete _ _ _ Hk).
Qed.

Lemma closes_erase order c g mg r more r' :
  iterates order (listeners_ r) -> erase_matching order c g mg r = (more, r') ->
  exists out, closes out r r' /\ more = Stopped <$> out.
Proof.
  intros Hi. unfold erase_matching. pose proof (erase_loop_iterates (listener_matching c g mg) _ _ Hi) as E.
  destruct (erase_loop _ order (listeners_ r)) as [out m']. destruct E as (_ & Hp & Hl).
  intros [= <- <-]. exists out. split; [|done]. split; [done|done|].
  apply map_subseteq_spec. intros k b Hk. rewrite Hl in Hk. destruct (listeners_ r !! k); [|done].
  by destruct (listener_matching c g mg t).
Qed.

Lemma closes_clear order r more r' :
  iterates order (listeners_ r) -> clear order r = (more, r') ->
  exists out, closes out r r' /\ more = Stopped <$> out.
Proof.
  intros Hi [= <- <-]. exists (order.*2). split; [|done]. split; [done| |apply map_empty_subseteq].
  simpl. rewrite map_to_list_empty, app_nil_r. by apply fmap_Permutation.
Qed.

Lemma closes_unregister c g t v r more r' :
  unregister_tunnel c g t v r = (more, r') -> exists out, closes out r r' /\ more = Stopped <$> out.
Proof.
  unfold unregister_tunnel. destruct (listeners_ r !! binding_key c t) as [b|] eqn:E;
    [|intros [= <- <-]; exists []; split; [apply closes_nil|done]].
  case_match; intros [= <- <-]; [exists []; split; [apply closes_nil|done]|].
  exists [b]. split; [by apply closes_delete|done].
Qed.

(** The invariant of a registry with its log. *)
Record registry_inv (ports : PortRange) (per_client total : Z) (events : list ListenerEvent)
    (r : TunnelRegistry) : Prop := {
  rinv_params : allowed_ports_ r = ports /\ max_tunnels_per_client_ r = per_client /\
    max_total_tunnels_ r = total;
  rinv_balance : omap started_of events ≡ₚ omap stopped_of events ++ open_listeners r;
  rinv_keys k b : listeners_ r !! k = Some b ->
    k = binding_key (bind_client_id b) (bind_tunnel_id b) /\ validate_binding b ports = success;
  rinv_total : registry_size r <= Z.max total 0;
  rinv_client c : client_size c r <= Z.max per_client 0
}.

Lemma inv_closes ports pc t events r out r' :
  registry_inv ports pc t events r -> closes out r r' ->
  registry_inv ports pc t (events ++ (Stopped <$> out)) r'.
Proof.
  intros [(<- & <- & <-) Hb Hk Ht Hc] [Hp Hperm Hsub]. split.
  - done.
  - rewrite !omap_app, started_stopped, stopped_stopped, app_nil_r, Hb, Hperm. by rewrite app_assoc.
  - intros k b Hb'. apply Hk. by eapply lookup_weaken.
  - unfold registry_size in *. rewrite (size_perm _ _ _ Hperm) in Ht. lia.
  - intros c. specialize (Hc c). unfold client_size in *. rewrite (count_loop_perm _ _ _ _ Hperm). lia.
Qed.

Lemma register_new_cases os b n events r :
  (exists e, register_new os b n events r = (Err e, events, r)) \/
  (register_new os b n events r =
     (success, events ++ [Started b],
      with_listeners (<[binding_key (bind_client_id b) (bind_tunnel_id b) := b]> (listeners_ r)) r) /\
   client_size (bind_client_id b) r < max_tunnels_per_client_ r /\
   registry_size r < max_total_tunnels_ r /\ os = None).
Proof.
  unfold register_new. destruct (n =? 0); cbn zeta;
    (case_match eqn:E1; [left; by eexists|]); (case_match eqn:E2; [left; by eexists|]);
    apply orb_false_iff in E1; destruct E1 as [_ E1%Z.leb_gt]; apply Z.leb_gt in E2;
    (case_match eqn:E3; [right|left; by eexists]); (split_and!; [done|lia|done|]);
    case_bool_decide; unfold UdpListener_start, TcpListener_start in *; by repeat case_match.
Qed.

Lemma inv_insert ports pc t events r b :
  registry_inv ports pc t events r -> validate_binding b ports = success ->
  let key := binding_key (bind_client_id b) (bind_tunnel_id b) in
  listeners_ r !! key = None -> client_size (bind_client_id b) r < max_tunnels_per_client_ r ->
  registry_size r < max_total_tunnels_ r ->
  registry_inv ports pc t (events ++ [Started b]) (with_listeners (<[key := b]> (listeners_ r)) r).
Proof.
  intros [(<- & <- & <-) Hb Hk Ht Hc] Hv key Hn Hlc Hlt. split.
  - done.
  - rewrite !omap_app. simpl. rewrite app_nil_r, (map_to_list_insert _ _ _ Hn). csimpl.
    rewrite Hb. rewrite (Permutation_app_comm _ [_]). simpl. by rewrite Permutation_middle.
  - intros k b'. simpl. rewrite lookup_insert_Some. intros [[<- <-]|[_ Hl]]; [done|by apply Hk].
  - unfold registry_size in *. simpl. rewrite map_size_insert, Hn. simpl. lia.
  - intros c. specialize (Hc c). unfold client_size in *. simpl. rewrite count_loop_insert by done.
    case_bool_decide; [subst|]; lia.
Qed.

(** The three ways [register_tunnel] ends: nothing changes, the old listener of the
    tunnel is gone and no new one could be created, or the new one is in place. *)
Lemma register_tunnel_cases os b n r :
  let key := binding_key (bind_client_id b) (bind_tunnel_id b) in
  let out := match listeners_ r !! key with Some b' => [b'] | None => [] end in
  let r0 := with_listeners (delete key (listeners_ r)) r in
  (exists e, register_tunnel os b n r = (Err e, [], r)) \/
  (register_tunnel os b n r = (success, [], r) /\ listeners_ r !! key = Some b) \/
  (exists e b', register_tunnel os b n r = (Err e, [Stopped b'], r0) /\ listeners_ r !! key = Some b') \/
  (register_tunnel os b n r =
     (success, (Stopped <$> out) ++ [Started b], with_listeners (<[key := b]> (delete key (listeners_ r))) r) /\
   validate_binding b (allowed_ports_ r) = success /\
   client_size (bind_client_id b) r0 < max_tunnels_per_client_ r /\
   registry_size r0 < max_total_tunnels_ r /\ os = None).
Proof.
  intros key out r0. unfold register_tunnel. fold key.
  destruct (validate_binding b (allowed_ports_ r)) as [[]|e] eqn:Ev; [|left; by eexists].
  case_match; [left; by eexists|].
  destruct (listeners_ r !! key) as [b'|] eqn:Ek.
  - case_decide as Hd; [right; left; by subst|]. fold r0.
    destruct (register_new_cases os b n [Stopped b'] r0) as [[e He]|(He & Hc & Ht & Ho)].
    + right; right; left. by exists e, b'.
    + right; right; right. by rewrite He.
  - assert (Er : r0 = r) by (unfold r0; rewrite delete_id by done; by destruct r).
    destruct (register_new_cases os b n [] r) as [[e He]|(He & Hc & Ht & Ho)].
    + left. by exists e.
    + right; right; right. rewrite He, Er. rewrite delete_id by done. done.
Qed.

Lemma inv_register ports pc t events r os b n result more r' :
  registry_inv ports pc t events r -> register_tunnel os b n r = (result, more, r') ->
  registry_inv ports pc t (events ++ more) r'.
Proof.
  intros Hi E. destruct (register_tunnel_cases os b n r) as
    [[e He]|[[He Hl]|[(e & b' & He & Hl)|(He & Hv & Hc & Ht & _)]]]; rewrite E in He; simplify_eq;
    rewrite ?app_nil_r; try done.
  - apply (inv_closes _ _ _ _ _ [b'] _ Hi). by apply closes_delete.
  - rewrite app_assoc.
    set (key := binding_key (bind_client_id b) (bind_tunnel_id b)) in *.
    set (r0 := with_listeners (delete key (listeners_ r)) r) in *.
    assert (H0 : registry_inv ports pc t
      (events ++ (Stopped <$> match listeners_ r !! key with Some b' => [b'] | None => [] end)) r0).
    { apply (inv_closes _ _ _ _ _ _ _ Hi). destruct (listeners_ r !! key) eqn:Ek.
      - by apply closes_delete.
      - unfold r0. rewrite delete_id by done. destruct r. apply closes_nil. }
    destruct (rinv_params _ _ _ _ _ Hi) as (<- & _).
    apply (inv_insert _ _ _ _ _ _ H0); [done|apply lookup_delete_eq|done|done].
Qed.

Lemma registry_run_inv ports pc t events r :
  registry_run ports pc t events r -> registry_inv ports pc t events r.
Proof.
  induction 1 as [|???????? _ IH E|???????? _ IH E|??????? _ IH Hi E|?????? _ IH Hi E|????? _ IH Hi E].
  - split; simpl; try done.
    + change (registry_size (TunnelRegistry_new ports pc t)) with 0. lia.
    + intros c. unfold client_size. simpl. rewrite count_loop_empty. lia.
  - eauto using inv_register.
  - destruct (closes_unregister _ _ _ _ _ _ _ E) as (out & Ho & ->). eauto using inv_closes.
  - destruct (closes_erase _ _ _ _ _ _ _ Hi E) as (out & Ho & ->). eauto using inv_closes.
  - destruct (closes_erase _ _ _ _ _ _ _ Hi E) as (out & Ho & ->). eauto using inv_closes.
  - destruct (closes_clear _ _ _ _ Hi E) as (out & Ho & ->). eauto using inv_closes.
Qed.

Lemma validate_binding_success b ports :
  validate_binding b ports = success ->
  valid_id (bind_client_id b) client = true /\ valid_id (bind_tunnel_id b) tunnel = true /\
  bind_session_generation b <> 0 /\ PortRange_contains ports (bind_port b) = true /\
  exists a, make_address (bind_host b) = Some a /\ (bind_mode b = socks5 -> is_loopback a = true).
Proof.
  unfold validate_binding. case_match eqn:E; [done|].
  rewrite !orb_false_iff, !negb_false_iff, !Z.eqb_neq in E. destruct E as (((((Hc & Ht) & Hg) & _) & _) & _).
  case_match eqn:Ep; [done|]. apply negb_false_iff in Ep.
  destruct (make_address (bind_host b)) as [a|]; [|done]. case_match eqn:El; [done|]. intros _.
  split_and!; try done. exists a. split; [done|]. intros Hm. rewrite bool_decide_true in El by done.
  by apply negb_false_iff in El.
Qed.

Lemma open_keys_NoDup (r : TunnelRegistry) :
  (forall k b, listeners_ r !! k = Some b -> k = binding_key (bind_client_id b) (bind_tunnel_id b)) ->
  NoDup ((fun b => (bind_client_id b, bind_tunnel_id b)) <$> open_listeners r).
Proof.
  intros Hk. apply (NoDup_fmap_1 (fun ct => binding_key ct.1 ct.2)).
  rewrite <- !list_fmap_compose.
  replace (_ <$> map_to_list (listeners_ r)) with ((map_to_list (listeners_ r)).*1).
  { apply NoDup_fst_map_to_list. }
  apply list_fmap_ext. intros i [k b] Hi. simpl. apply Hk, elem_of_map_to_list.
  by eapply list_elem_of_lookup_2.
Qed.

Lemma listener_matching_iff c g b :
  listener_matching c g true b = true <-> bind_client_id b = c /\ bind_session_generation b = g.
Proof. unfold listener_matching. rewrite andb_true_iff, bool_decide_eq_true. simpl. by rewrite Z.eqb_eq. Qed.

(** [remove_session] keeps the listeners of all other sessions. *)
Lemma remove_session_lookup order c g r events r' :
  iterates order (listeners_ r) -> remove_session order c g r = (events, r') ->
  events = Stopped <$> List.filter (listener_matching c g true) order.*2 /\
  (forall k b, listeners_ r' !! k = Some b <->
     listeners_ r !! k = Some b /\ ~ (bind_client_id b = c /\ bind_session_generation b = g)).
Proof.
  intros Hi. unfold remove_session, erase_matching.
  pose proof (erase_loop_iterates (listener_matching c g true) _ _ Hi) as E.
  destruct (erase_loop _ order (listeners_ r)) as [out m']. destruct E as (-> & Hp & Hl).
  intros [= <- <-]. split; [done|]. intros k b. simpl. rewrite Hl, <- listener_matching_iff.
  destruct (listeners_ r !! k) as [b'|]; [|naive_solver].
  destruct (listener_matching c g true b') eqn:Eb; naive_solver congruence.
Qed.

(** ** The claims *)

(** C6: At every point of a server's life the open listeners are exactly the ones
    started and not yet stopped (none is leaked and none is stopped twice); no tunnel
    of a client has two of them; their number is within the limits, in total and per
    client; every one has a port of the allowlist, and a SOCKS5 one a loopback address. *)
Theorem registry_listeners_exact ports per_client total events r :
  0 <= per_client -> 0 <= total -> registry_run ports per_client total events r ->
  omap started_of events ≡ₚ omap stopped_of events ++ open_listeners r /\
  NoDup ((fun b => (bind_client_id b, bind_tunnel_id b)) <$> open_listeners r) /\
  registry_size r <= total /\ (forall c, client_size c r <= per_client) /\
  (forall b, b ∈ open_listeners r -> PortRange_contains ports (bind_port b) = true /\
     exists a, make_address (bind_host b) = Some a /\ (bind_mode b = socks5 -> is_loopback a = true)).
Proof.
  intros H1 H2 [_ Hb Hk Ht Hc]%registry_run_inv. split_and!.
  - done.
  - apply open_keys_NoDup. intros k b Hl. by apply Hk.
  - lia.
  - intros c. specialize (Hc c). lia.
  - intros b Hb'. apply list_elem_of_fmap in Hb'. destruct Hb' as ([k b'] & -> & Hl%elem_of_map_to_list).
    simpl. destruct (Hk _ _ Hl) as [_ Hv]. destruct (validate_binding_success _ _ Hv) as (_ & _ & _ & Hp & Ha). done.
Qed.

(** [register_tunnel] either succeeds with the binding in place, or fails; when it
    fails the other tunnels are untouched, and the tunnel's own earlier listener is
    either still there unchanged or was stopped because it had to make way. *)
Theorem register_tunnel_exact os b max_for_client r result events r' :
  register_tunnel os b max_for_client r = (result, events, r') ->
  let key := binding_key (bind_client_id b) (bind_tunnel_id b) in
  (forall k, k <> key -> listeners_ r' !! k = listeners_ r !! k) /\
  (is_ok result = true -> listeners_ r' !! key = Some b /\
     (listeners_ r !! key <> Some b -> os = None)) /\
  (is_ok result = false ->
     listeners_ r' !! key = listeners_ r !! key /\ events = [] \/
     listeners_ r' !! key = None /\
       exists old, listeners_ r !! key = Some old /\ old <> b /\ events = [Stopped old]).
Proof.
  intros E key. subst key. destruct (register_tunnel_cases os b max_for_client r) as
    [[e He]|[[He Hl]|[(e & b' & He & Hl)|(He & Hv & Hc & Ht & Ho)]]];
    pose proof E as E'; rewrite E in He; simplify_eq; simpl.
  - split_and!; try done. by left.
  - split_and!; try done.
  - split_and!; [intros; by rewrite lookup_delete_ne|done|]. intros _. right.
    split; [apply lookup_delete_eq|]. exists b'. split_and!; try done. intros ->.
    unfold register_tunnel in E'. rewrite Hl, decide_True in E' by done.
    by repeat case_match.
  - split_and!; [|by rewrite lookup_insert_eq|done].
    intros k Hk. rewrite lookup_insert_ne, lookup_delete_ne by done. done.
Qed.

(** Sessions are isolated: ending a session stops exactly its own listeners, and a
    late request of another session generation to unregister a tunnel changes
    nothing. *)
Theorem registry_session_isolation order client_id generation r events r' :
  iterates order (listeners_ r) -> remove_session order client_id generation r = (events, r') ->
  (forall k b, listeners_ r' !! k = Some b <->
     listeners_ r !! k = Some b /\
     ~ (bind_client_id b = client_id /\ bind_session_generation b = generation)) /\
  (forall b, b ∈ omap stopped_of events <->
     b ∈ open_listeners r /\ bind_client_id b = client_id /\ bind_session_generation b = generation) /\
  (forall c g t v b, listeners_ r !! binding_key c t = Some b -> bind_session_generation b <> g ->
     unregister_tunnel c g t v r = ([], r)).
Proof.
  intros Hi E. destruct (remove_session_lookup _ _ _ _ _ _ Hi E) as [-> Hl]. split_and!; [done| |].
  - intros b. rewrite stopped_stopped, list_elem_of_In, filter_In, listener_matching_iff, <- list_elem_of_In.
    by rewrite (fmap_Permutation snd _ _ Hi).
  - intros c g t v b Hb Hg. unfold unregister_tunnel. rewrite Hb.
    destruct (Z.eqb_spec (bind_session_generation b) g); [done|]. done.
Qed.
End registry.

(** ** Witnesses *)

Definition sample_address : AsioBindAddress := {|
  ip_address := bytes;
  make_address h := if bool_decide (h = bs "127.0.0.1") || bool_decide (h = bs "0.0.0.0") then Some h else None;
  is_loopback h := bool_decide (h = bs "127.0.0.1")
|}.
Definition sample_client : bytes := bs "client_" ++ repeat "a"%byte 32.
Definition sample_binding (generation : Z) (port : Z) : TunnelBinding :=
  mkTunnelBinding sample_client generation (bs "tun_" ++ repeat "a"%byte 32) (bs "0.0.0.0") port 1 tcp.
Definition sample_registry : TunnelRegistry :=
  TunnelRegistry_new (mkPortRange 6000 6999) 2 5.
Definition sample_first : Result unit * list ListenerEvent * TunnelRegistry :=
  @register_tunnel sample_address None (sample_binding 7 6001) 0 sample_registry.

(** The tunnel moves to another port. *)
Definition sample_second : Result unit * list ListenerEvent * TunnelRegistry :=
  @register_tunnel sample_address None (sample_binding 7 6002) 0 sample_first.2.

Lemma registry_listeners_exact_witness :
  let events := sample_first.1.2 ++ sample_second.1.2 in
  events = [Started (sample_binding 7 6001); Stopped (sample_binding 7 6001); Started (sample_binding 7 6002)] /\
  omap started_of events ≡ₚ omap stopped_of events ++ open_listeners sample_second.2.
Proof.
  split; [by vm_compute|].
  apply (@registry_listeners_exact sample_address (mkPortRange 6000 6999) 2 5
    (sample_first.1.2 ++ sample_second.1.2) sample_second.2); [lia|lia|].
  refine (registry_run_register (mkPortRange 6000 6999) 2 5 sample_first.1.2 sample_first.2 None
    (sample_binding 7 6002) 0 sample_second.1.1 sample_second.1.2 sample_second.2 _ _);
    [|apply triple_eta].
  refine (registry_run_register (mkPortRange 6000 6999) 2 5 [] sample_registry None
    (sample_binding 7 6001) 0 sample_first.1.1 sample_first.1.2 sample_first.2 _ _);
    [apply registry_run_new|apply triple_eta].
Defined.

(** The port of the second binding is taken: the tunnel is left without a listener. *)
Lemma register_tunnel_exact_witness :
  let '(result, events, r') :=
    @register_tunnel sample_address (Some address_in_use) (sample_binding 7 6002) 0 sample_first.2 in
  is_ok result = false /\ events = [Stopped (sample_binding 7 6001)] /\
  (forall k, k <> binding_key sample_client (bs "tun_" ++ repeat "a"%byte 32) ->
     listeners_ r' !! k = listeners_ sample_first.2 !! k).
Proof.
  destruct (@register_tunnel sample_address (Some address_in_use) (sample_binding 7 6002) 0 sample_first.2)
    as [[result events] r'] eqn:E.
  pose proof (@register_tunnel_exact sample_address (Some address_in_use) (sample_binding 7 6002) 0
    sample_first.2 result events r' E) as [H _].
  vm_compute in E. injection E as <- <- <-. split; [done|]. split; [by vm_compute|exact H].
Defined.

Lemma registry_session_isolation_witness :
  let '(events, r') := remove_session (map_to_list (listeners_ sample_first.2)) sample_client 7 sample_first.2 in
  events = [Stopped (sample_binding 7 6001)] /\
  (forall k b, listeners_ r' !! k = Some b <->
     listeners_ sample_first.2 !! k = Some b /\
     ~ (bind_client_id b = sample_client /\ bind_session_generation b = 7)).
Proof.
  destruct (remove_session (map_to_list (listeners_ sample_first.2)) sample_client 7 sample_first.2)
    as [events r'] eqn:E.
  split; [vm_compute in E; injection E as <- _; by vm_compute|].
  apply (registry_session_isolation (map_to_list (listeners_ sample_first.2)) sample_client 7
    sample_first.2 events r'); [by unfold iterates|exact E].
Defined.
