(* ===== verification/ServerWorkerPool.v ===== *)
(** * The server's pool of idle workers (src/server/worker_pool.cpp)

    A client keeps authenticated worker connections parked at the server; a public
    connection takes one of its client's current session.  Handlers are tokens, and
    running one is an entry of the call log; [entries_] is walked in an order that is
    an argument of the operations. *)
From S2P Require Import Prelude Common Ids Messages KeyedMap TunnelRegistry.

Record WorkerRegistration : Set := mkWorkerRegistration {
  reg_client_id : bytes;
  reg_session_generation : Z;
  reg_worker_id : bytes;
  reg_max_idle_workers : Z
}.

(** An empty [std::function] is [None]. *)
Record WorkerEntry : Set := mkWorkerEntry {
  registration : WorkerRegistration;
  assignment_handler : option Z;
  removal_handler : option Z
}.

(** Calls the pool makes: an assignment handler with a binding, a removal handler, the
    closing of the public socket when the assignment handler threw. *)
Inductive PoolCall : Set :=
| Assigned (handler : Z) (binding : TunnelBinding)
| Removed (handler : Z)
| ClosedPublicSocket.

Record WorkerPool : Set := mkWorkerPool {
  max_idle_workers_per_session_ : Z;
  max_total_idle_workers_ : Z;
  entries_ : gmap bytes WorkerEntry
}.

Definition WorkerPool_new (max_idle_workers_per_session max_total_idle_workers : Z) : WorkerPool :=
  mkWorkerPool max_idle_workers_per_session max_total_idle_workers ∅.

Definition with_entries (entries : gmap bytes WorkerEntry) (pool : WorkerPool) : WorkerPool :=
  mkWorkerPool (max_idle_workers_per_session_ pool) (max_total_idle_workers_ pool) entries.

Definition validate_registration (r : WorkerRegistration) : Result unit :=
  if negb (valid_id (reg_client_id r) client) || negb (valid_id (reg_worker_id r) connection) ||
     (reg_session_generation r =? 0)
  then failure invalid_argument "worker registration identity is invalid"
  else success.

(** The test of [assign], [idle_count] and [erase_matching] on one entry. *)
Definition of_session (client_id : bytes) (session_generation : Z) (e : WorkerEntry) : bool :=
  bool_decide (reg_client_id (registration e) = client_id) &&
  (reg_session_generation (registration e) =? session_generation).

Definition matching (client_id : bytes) (session_generation : Z) (match_generation : bool)
    (e : WorkerEntry) : bool :=
  bool_decide (reg_client_id (registration e) = client_id) &&
  (negb match_generation || (reg_session_generation (registration e) =? session_generation)).

Definition idle_count (client_id : bytes) (session_generation : Z) (pool : WorkerPool) : Z :=
  count_loop (of_session client_id session_generation) (entries_ pool).

Definition pool_size (pool : WorkerPool) : Z := Z.of_nat (size (entries_ pool)).

Definition add (r : WorkerRegistration) (assignment removal : option Z) : Action WorkerPool unit :=
  fun pool =>
  match validate_registration r with
  | Err e => (Err e, pool)
  | Ok _ =>
      if bool_decide (assignment = None) then
        (failure invalid_argument "worker assignment handler is empty", pool)
      else if bool_decide (is_Some (entries_ pool !! reg_worker_id r)) then
        (failure already_exists "worker ID is already registered", pool)
      else
        let effective_session_limit :=
          if reg_max_idle_workers r =? 0 then max_idle_workers_per_session_ pool
          else Z.min (reg_max_idle_workers r) (max_idle_workers_per_session_ pool) in
        if (effective_session_limit =? 0) || (max_total_idle_workers_ pool <=? pool_size pool) ||
           (effective_session_limit <=?
              idle_count (reg_client_id r) (reg_session_generation r) pool)
        then (failure resource_exhausted "idle worker limit has been reached", pool)
        else
          (success,
           with_entries (<[reg_worker_id r := mkWorkerEntry r assignment removal]> (entries_ pool))
             pool)
  end.

(** [assign]; [throws] says which assignment handlers end with an exception. *)
Fixpoint assign_loop (throws : Z -> bool) (binding : TunnelBinding)
    (order : list (bytes * WorkerEntry)) (pool : WorkerPool) :
    bool * list PoolCall * WorkerPool :=
  match order with
  | [] => (false, [], pool)
  | (k, e) :: order =>
      if negb (bool_decide (reg_client_id (registration e) = bind_client_id binding)) ||
         negb (reg_session_generation (registration e) =? bind_session_generation binding)
      then assign_loop throws binding order pool
      else
        (true,
         match assignment_handler e with
         | Some h => Assigned h binding :: (if throws h then [ClosedPublicSocket] else [])
         | None => [ClosedPublicSocket]
         end,
         with_entries (delete k (entries_ pool)) pool)
  end.

Definition assign (throws : Z -> bool) (order : list (bytes * WorkerEntry))
    (binding : TunnelBinding) (pool : WorkerPool) : bool * list PoolCall * WorkerPool :=
  assign_loop throws binding order pool.

(** [invoke_removal]: an exception of the handler is swallowed. *)
Definition invoke_removal (e : WorkerEntry) : list PoolCall :=
  match removal_handler e with None => [] | Some h => [Removed h] end.

Definition remove (worker_id : bytes) (pool : WorkerPool) : list PoolCall * WorkerPool :=
  match entries_ pool !! worker_id with
  | None => ([], pool)
  | Some e => (invoke_removal e, with_entries (delete worker_id (entries_ pool)) pool)
  end.

Definition erase_matching (order : list (bytes * WorkerEntry)) (client_id : bytes)
    (session_generation : Z) (match_generation : bool) (pool : WorkerPool) :
    list PoolCall * WorkerPool :=
  let (erased, entries) :=
    erase_loop (matching client_id session_generation match_generation) order (entries_ pool) in
  (mjoin (invoke_removal <$> erased), with_entries entries pool).

Definition remove_session (order : list (bytes * WorkerEntry)) (client_id : bytes)
    (session_generation : Z) (pool : WorkerPool) : list PoolCall * WorkerPool :=
  erase_matching order client_id session_generation true pool.

Definition remove_client (order : list (bytes * WorkerEntry)) (client_id : bytes)
    (pool : WorkerPool) : list PoolCall * WorkerPool :=
  erase_matching order client_id 0 false pool.

Definition clear (order : list (bytes * WorkerEntry)) (pool : WorkerPool) :
    list PoolCall * WorkerPool :=
  (mjoin (invoke_removal <$> order.*2), with_entries ∅ pool).

(** ** Runs of a pool

    [pool_run n t added calls pool]: some sequence of operations on a new pool has
    successfully added the entries [added] and made the [calls]. *)
Inductive pool_run (per_session total : Z) :
    list WorkerEntry -> list PoolCall -> WorkerPool -> Prop :=
| run_new : pool_run per_session total [] [] (WorkerPool_new per_session total)
| run_add added calls pool r a d pool' :
    pool_run per_session total added calls pool -> add r a d pool = (success, pool') ->
    pool_run per_session total (added ++ [mkWorkerEntry r a d]) calls pool'
| run_assign added calls pool throws order binding result more pool' :
    pool_run per_session total added calls pool -> iterates order (entries_ pool) ->
    assign throws order binding pool = (result, more, pool') ->
    pool_run per_session total added (calls ++ more) pool'
| run_remove added calls pool worker_id more pool' :
    pool_run per_session total added calls pool -> remove worker_id pool = (more, pool') ->
    pool_run per_session total added (calls ++ more) pool'
| run_remove_session added calls pool order client_id generation more pool' :
    pool_run per_session total added calls pool -> iterates order (entries_ pool) ->
    remove_session order client_id generation pool = (more, pool') ->
    pool_run per_session total added (calls ++ more) pool'
| run_remove_client added calls pool order client_id more pool' :
    pool_run per_session total added calls pool -> iterates order (entries_ pool) ->
    remove_client order client_id pool = (more, pool') ->
    pool_run per_session total added (calls ++ more) pool'
| run_clear added calls pool order more pool' :
    pool_run per_session total added calls pool -> iterates order (entries_ pool) ->
    clear order pool = (more, pool') ->
    pool_run per_session total added (calls ++ more) pool'.

Definition assignment_of (call : PoolCall) : option (Z * TunnelBinding) :=
  match call with Assigned h b => Some (h, b) | _ => None end.
Definition removal_of (call : PoolCall) : option Z :=
  match call with Removed h => Some h | _ => None end.

(** ** Lemmas *)

Abbreviation idle pool := ((map_to_list (entries_ pool)).*2).

Lemma removals_of_removal l : omap removal_of (mjoin (invoke_removal <$> l)) = omap removal_handler l.
Proof.
  induction l as [|e l IH]; [done|]. csimpl. rewrite omap_app, IH. unfold invoke_removal.
  by destruct (removal_handler e).
Qed.

Lemma assignments_of_removal l : omap assignment_of (mjoin (invoke_removal <$> l)) = [].
Proof.
  induction l as [|e l IH]; [done|]. csimpl. rewrite omap_app, IH. unfold invoke_removal.
  by destruct (removal_handler e).
Qed.

Lemma of_session_matching c g e : of_session c g e = matching c g true e.
Proof. done. Qed.

Lemma assign_loop_spec throws binding order pool :
  (forall k e, (k, e) ∈ order -> entries_ pool !! k = Some e) ->
  let p := of_session (bind_client_id binding) (bind_session_generation binding) in
  let '(result, calls, pool') := assign_loop throws binding order pool in
  (result = false /\ calls = [] /\ pool' = pool /\ (forall k e, (k, e) ∈ order -> p e = false)) \/
  (exists k e, result = true /\ entries_ pool !! k = Some e /\ p e = true /\
     pool' = with_entries (delete k (entries_ pool)) pool /\
     omap removal_of calls = [] /\
     omap assignment_of calls = match assignment_handler e with Some h => [(h, binding)] | None => [] end).
Proof.
  intros Hin p. induction order as [|[k e] order IH]; simpl.
  - left. split_and!; try done. by intros ?? ?%elem_of_nil.
  - rewrite <- negb_andb.
    destruct (bool_decide (reg_client_id (registration e) = bind_client_id binding) &&
      (reg_session_generation (registration e) =? bind_session_generation binding)) eqn:E; simpl.
    + right. exists k, e. split_and!; try done.
      * apply Hin. by left.
      * destruct (assignment_handler e); [|done]. by destruct (throws z).
      * destruct (assignment_handler e); [|done]. by destruct (throws z).
    + specialize (IH (fun k e H => Hin k e (list_elem_of_further _ _ _ H))).
      destruct (assign_loop throws binding order pool) as [[r calls] pool'].
      destruct IH as [(-> & -> & -> & Hno)|H]; [left|by right].
      split_and!; try done. intros k' e' [[= -> ->]|Hk]%elem_of_cons; [done|by eapply Hno].
Qed.

Lemma assign_spec throws order binding pool :
  iterates order (entries_ pool) ->
  let p := of_session (bind_client_id binding) (bind_session_generation binding) in
  let '(result, calls, pool') := assign throws order binding pool in
  (result = false /\ calls = [] /\ pool' = pool /\
     idle_count (bind_client_id binding) (bind_session_generation binding) pool = 0) \/
  (exists k e, result = true /\ entries_ pool !! k = Some e /\ p e = true /\
     pool' = with_entries (delete k (entries_ pool)) pool /\
     omap removal_of calls = [] /\
     omap assignment_of calls = match assignment_handler e with Some h => [(h, binding)] | None => [] end).
Proof.
  intros Hi p. destruct (iterates_keys _ _ Hi) as [_ Hm].
  pose proof (assign_loop_spec throws binding order pool (fun k e => proj1 (Hm k e))) as H.
  unfold assign. destruct (assign_loop throws binding order pool) as [[r calls] pool'].
  destruct H as [(-> & -> & -> & Hno)|H]; [left|by right]. split_and!; try done.
  apply count_loop_zero. intros k e Hk. apply (Hno k). by apply Hm.
Qed.

(** Every operation that is not [add] moves entries out of the pool. *)
Definition takes_out (out : list WorkerEntry) (pool pool' : WorkerPool) : Prop :=
  idle pool ≡ₚ out ++ idle pool' /\
  max_idle_workers_per_session_ pool' = max_idle_workers_per_session_ pool /\
  max_total_idle_workers_ pool' = max_total_idle_workers_ pool.

Lemma takes_out_delete pool k e : entries_ pool !! k = Some e ->
  takes_out [e] pool (with_entries (delete k (entries_ pool)) pool).
Proof.
  intros Hk. split_and!; try done. simpl. by rewrite <- (map_to_list_delete _ _ _ Hk).
Qed.

Lemma erase_matching_out order c g mg pool calls pool' :
  iterates order (entries_ pool) -> erase_matching order c g mg pool = (calls, pool') ->
  exists out, takes_out out pool pool' /\
    omap removal_of calls = omap removal_handler out /\ omap assignment_of calls = [].
Proof.
  intros Hi. unfold erase_matching. pose proof (erase_loop_iterates (matching c g mg) _ _ Hi) as H.
  destruct (erase_loop _ order (entries_ pool)) as [out m']. destruct H as (_ & Hp & _).
  intros [= <- <-]. exists out. split_and!; [|apply removals_of_removal|apply assignments_of_removal].
  done.
Qed.

Lemma remove_session_idle order c g pool calls pool' :
  iterates order (entries_ pool) -> remove_session order c g pool = (calls, pool') ->
  idle_count c g pool' = 0.
Proof.
  intros Hi. unfold remove_session, erase_matching.
  pose proof (erase_loop_iterates (matching c g true) _ _ Hi) as E.
  destruct (erase_loop _ order (entries_ pool)) as [out m']. destruct E as (_ & _ & Hl).
  intros [= _ <-]. unfold idle_count. cbn [with_entries entries_]. apply count_loop_zero. intros k e Hk.
  rewrite Hl in Hk. destruct (entries_ pool !! k) as [e'|]; [|done].
  rewrite of_session_matching. destruct (matching c g true e') eqn:Em; [done|]. by simplify_eq.
Qed.

Lemma clear_out order pool calls pool' :
  iterates order (entries_ pool) -> clear order pool = (calls, pool') ->
  exists out, takes_out out pool pool' /\
    omap removal_of calls = omap removal_handler out /\ omap assignment_of calls = [].
Proof.
  intros Hi [= <- <-]. exists (order.*2).
  split_and!; [|apply removals_of_removal|apply assignments_of_removal].
  split_and!; try done. simpl. rewrite map_to_list_empty, app_nil_r.
  by apply fmap_Permutation.
Qed.

Lemma remove_out k pool calls pool' :
  remove k pool = (calls, pool') ->
  exists out, takes_out out pool pool' /\
    omap removal_of calls = omap removal_handler out /\ omap assignment_of calls = [].
Proof.
  unfold remove. destruct (entries_ pool !! k) as [e|] eqn:E; intros [= <- <-].
  - exists [e]. split; [by apply takes_out_delete|]. simpl. unfold invoke_removal.
    by destruct (removal_handler e).
  - by exists [].
Qed.

Lemma add_success r a d pool pool' :
  add r a d pool = (success, pool') ->
  is_Some a /\ entries_ pool !! reg_worker_id r = None /\
  pool' = with_entries (<[reg_worker_id r := mkWorkerEntry r a d]> (entries_ pool)) pool /\
  pool_size pool < max_total_idle_workers_ pool /\
  idle_count (reg_client_id r) (reg_session_generation r) pool < max_idle_workers_per_session_ pool.
Proof.
  unfold add. destruct (validate_registration r); [|done].
  case_bool_decide as Ha; [done|]. case_bool_decide as Hk; [done|].
  destruct (reg_max_idle_workers r =? 0) eqn:Em; cbn zeta; case_match eqn:Eg; [done| |done|];
    intros [= <-]; rewrite !orb_false_iff, !Z.leb_gt in Eg; destruct Eg as [[_ Ht] Hs];
    (split_and!; [by destruct a; eauto|by apply eq_None_not_Some|done|done|lia]).
Qed.

(** The ledger of a run: assigned, removed and idle entries are what was added. *)
Record ledger (per_session total : Z) (added : list WorkerEntry) (calls : list PoolCall)
    (pool : WorkerPool) (assigned removed : list WorkerEntry) : Prop := {
  ledger_limits : max_idle_workers_per_session_ pool = per_session /\
    max_total_idle_workers_ pool = total;
  ledger_perm : added ≡ₚ assigned ++ removed ++ idle pool;
  ledger_handlers : Forall (fun e => is_Some (assignment_handler e)) added;
  ledger_assigned : Forall2 (fun e hb => assignment_handler e = Some hb.1 /\
    of_session (bind_client_id hb.2) (bind_session_generation hb.2) e = true)
    assigned (omap assignment_of calls);
  ledger_removed : omap removal_of calls = omap removal_handler removed;
  ledger_total : pool_size pool <= Z.max total 0;
  ledger_session c g : idle_count c g pool <= Z.max per_session 0
}.

Lemma takes_out_bounds out pool pool' c g :
  takes_out out pool pool' ->
  pool_size pool' <= pool_size pool /\ idle_count c g pool' <= idle_count c g pool.
Proof.
  intros (Hp & _). unfold pool_size, idle_count.
  rewrite (size_perm _ _ _ Hp), (count_loop_perm _ _ _ _ Hp). lia.
Qed.

Lemma ledger_out ps t added calls pool assigned removed more pool' out :
  ledger ps t added calls pool assigned removed -> takes_out out pool pool' ->
  omap removal_of more = omap removal_handler out -> omap assignment_of more = [] ->
  ledger ps t added (calls ++ more) pool' assigned (removed ++ out).
Proof.
  intros [[<- <-] Hp Hh Ha Hr Ht Hs] Hout Hmr Hma. pose proof Hout as (Hidle & E1 & E2). split.
  - done.
  - rewrite Hp, Hidle. by rewrite <- !app_assoc.
  - done.
  - by rewrite omap_app, Hma, app_nil_r.
  - by rewrite !omap_app, Hr, Hmr.
  - destruct (takes_out_bounds _ _ _ [] 0 Hout). lia.
  - intros c g. destruct (takes_out_bounds _ _ _ c g Hout). specialize (Hs c g). lia.
Qed.

Lemma ledger_assign ps t added calls pool assigned removed throws order binding result more pool' :
  ledger ps t added calls pool assigned removed -> iterates order (entries_ pool) ->
  assign throws order binding pool = (result, more, pool') ->
  exists assigned', ledger ps t added (calls ++ more) pool' assigned' removed.
Proof.
  intros Hl Hi E. pose proof (assign_spec throws order binding pool Hi) as H. rewrite E in H.
  destruct H as [(-> & -> & -> & _)|(k & e & -> & Hk & Hp & -> & Hmr & Hma)].
  { exists assigned. by rewrite app_nil_r. }
  exists (assigned ++ [e]). destruct Hl as [[<- <-] Hperm Hh Ha Hr Ht Hs].
  pose proof (takes_out_delete _ _ _ Hk) as Hout. pose proof Hout as (Hidle & _).
  assert (He : is_Some (assignment_handler e)).
  { rewrite Forall_forall in Hh. apply Hh. rewrite Hperm, Hidle. set_solver. }
  destruct He as [h He]. rewrite He in Hma. split.
  - done.
  - rewrite Hperm, Hidle. rewrite <- app_assoc. f_equiv. by rewrite !app_assoc, (Permutation_app_comm removed).
  - done.
  - rewrite omap_app, Hma. apply Forall2_app; [done|]. constructor; [|constructor]. done.
  - by rewrite omap_app, Hmr, app_nil_r.
  - destruct (takes_out_bounds _ _ _ [] 0 Hout). lia.
  - intros c g. destruct (takes_out_bounds _ _ _ c g Hout). specialize (Hs c g). lia.
Qed.

Lemma ledger_add ps t added calls pool assigned removed r a d pool' :
  ledger ps t added calls pool assigned removed -> add r a d pool = (success, pool') ->
  ledger ps t (added ++ [mkWorkerEntry r a d]) calls pool' assigned removed.
Proof.
  intros [[<- <-] Hp Hh Ha Hr Ht Hs] (Hsome & Hk & -> & Htot & Hses)%add_success. split.
  - done.
  - simpl. rewrite (map_to_list_insert _ _ _ Hk). csimpl. rewrite Hp.
    rewrite (Permutation_app_comm _ [_]). simpl. by rewrite !app_assoc, Permutation_middle.
  - apply Forall_app. split; [done|]. by repeat constructor.
  - done.
  - done.
  - unfold pool_size in *. simpl. rewrite map_size_insert, Hk. simpl. lia.
  - intros c g. specialize (Hs c g). unfold idle_count in *. simpl.
    rewrite count_loop_insert by done. unfold of_session at 2. simpl.
    case_bool_decide; simpl; [subst|lia]. destruct (Z.eqb_spec (reg_session_generation r) g); [subst|]; lia.
Qed.

Lemma pool_run_ledger ps t added calls pool :
  pool_run ps t added calls pool -> exists assigned removed, ledger ps t added calls pool assigned removed.
Proof.
  induction 1 as [|????????(?&?&IH)|??????????(?&?&IH)|???????(?&?&IH)|?????????(?&?&IH)
    |????????(?&?&IH)|???????(?&?&IH)].
  - exists [], []. split; simpl; try done; try (by constructor).
    + change (pool_size (WorkerPool_new ps t)) with 0. lia.
    + intros. unfold idle_count. simpl. rewrite count_loop_empty. lia.
  - eauto using ledger_add.
  - edestruct ledger_assign; eauto.
  - edestruct remove_out as (? & ? & ? & ?); eauto using ledger_out.
  - edestruct erase_matching_out as (? & ? & ? & ?); eauto using ledger_out.
  - edestruct erase_matching_out as (? & ? & ? & ?); eauto using ledger_out.
  - edestruct clear_out as (? & ? & ? & ?); eauto using ledger_out.
Qed.

(** ** The claims *)

(** C7: Every worker that was ever added is in exactly one place: assigned, removed, or
    still idle.  Each assigned worker's handler was called once, with a binding of the
    worker's own client and session generation, and the removal handlers called are
    those of the removed workers, once each and in that order: no worker is given to
    two public connections, and none is both assigned and removed. *)
Theorem pool_conserves_workers per_session total added calls pool :
  pool_run per_session total added calls pool ->
  exists assigned removed,
    added ≡ₚ assigned ++ removed ++ idle pool /\
    Forall2 (fun e hb => assignment_handler e = Some hb.1 /\
      reg_client_id (registration e) = bind_client_id hb.2 /\
      reg_session_generation (registration e) = bind_session_generation hb.2)
      assigned (omap assignment_of calls) /\
    omap removal_of calls = omap removal_handler removed.
Proof.
  intros (assigned & removed & Hl)%pool_run_ledger. exists assigned, removed.
  split_and!; [apply Hl| |apply Hl]. eapply Forall2_impl; [apply Hl|].
  intros e hb [He Hs]. split; [done|]. unfold of_session in Hs.
  apply andb_true_iff in Hs. destruct Hs as [H1%bool_decide_eq_true H2%Z.eqb_eq]. done.
Qed.

(** The pool never holds more idle workers than its limits allow, in total and for
    each client session, and [assign] finds a worker exactly when one of the binding's
    session is idle; then exactly one worker leaves the pool. *)
Theorem pool_limits_and_dispatch per_session total added calls pool :
  0 <= per_session -> 0 <= total -> pool_run per_session total added calls pool ->
  pool_size pool <= total /\ (forall c g, idle_count c g pool <= per_session) /\
  (forall throws order binding result more pool', iterates order (entries_ pool) ->
     assign throws order binding pool = (result, more, pool') ->
     let n := idle_count (bind_client_id binding) (bind_session_generation binding) in
     result = (0 <? n pool) /\
     n pool' = n pool - (if result then 1 else 0) /\
     length (omap assignment_of more) = if result then 1%nat else 0%nat).
Proof.
  intros H1 H2 (assigned & removed & Hl)%pool_run_ledger.
  pose proof (ledger_total _ _ _ _ _ _ _ Hl). split_and!; [lia| |].
  { intros c g. pose proof (ledger_session _ _ _ _ _ _ _ Hl c g). lia. }
  intros throws order binding result more pool' Hi E n.
  pose proof (assign_spec throws order binding pool Hi) as H0. rewrite E in H0.
  destruct H0 as [(-> & -> & -> & Hz)|(k & e & -> & Hk & Hp & -> & _ & Hma)].
  - subst n. cbn beta. rewrite Hz. done.
  - pose proof (count_loop_delete (of_session (bind_client_id binding) (bind_session_generation binding)) _ _ _ Hk) as Hd.
    rewrite Hp in Hd. subst n. unfold idle_count. cbn beta. cbn [with_entries entries_].
    pose proof (count_loop_nonneg (of_session (bind_client_id binding) (bind_session_generation binding)) (delete k (entries_ pool))).
    split_and!; [symmetry; apply Z.ltb_lt; lia|lia|].
    assert (is_Some (assignment_handler e)) as [h Hh].
    { pose proof (ledger_handlers _ _ _ _ _ _ _ Hl) as Hf. rewrite Forall_forall in Hf. apply Hf.
      rewrite (ledger_perm _ _ _ _ _ _ _ Hl), !elem_of_app. right. right.
      apply list_elem_of_fmap. exists (k, e). split; [done|]. by apply elem_of_map_to_list. }
    by rewrite Hma, Hh.
Qed.

(** A pool with two workers of one session, one of which is assigned. *)
Definition pool_sample_client : bytes := bs "client_" ++ repeat "a"%byte 32.
Definition sample_entry (digit : Byte.byte) (h : Z) : WorkerEntry :=
  mkWorkerEntry (mkWorkerRegistration pool_sample_client 7 (bs "conn_" ++ repeat digit 32) 0)
    (Some h) (Some (h + 1)).
Definition pool_sample_binding : TunnelBinding :=
  mkTunnelBinding pool_sample_client 7 (bs "tun_" ++ repeat "a"%byte 32) (bs "0.0.0.0") 8080 1 tcp.
Definition sample_add (e : WorkerEntry) (pool : WorkerPool) : WorkerPool :=
  snd (add (registration e) (assignment_handler e) (removal_handler e) pool).
Definition sample_pool : WorkerPool :=
  sample_add (sample_entry "c" 20) (sample_add (sample_entry "b" 10) (WorkerPool_new 2 5)).
Definition sample_assign : bool * list PoolCall * WorkerPool :=
  assign (fun _ => false) (map_to_list (entries_ sample_pool)) pool_sample_binding sample_pool.

Lemma sample_run : pool_run 2 5 [sample_entry "b" 10; sample_entry "c" 20] sample_assign.1.2 sample_assign.2.
Proof.
  refine (run_assign 2 5 _ [] sample_pool (fun _ => false) (map_to_list (entries_ sample_pool))
    pool_sample_binding sample_assign.1.1 sample_assign.1.2 sample_assign.2 _ _ _);
    [|by unfold iterates|apply triple_eta].
  refine (run_add 2 5 [sample_entry "b" 10] [] (sample_add (sample_entry "b" 10) (WorkerPool_new 2 5))
    (registration (sample_entry "c" 20)) (assignment_handler (sample_entry "c" 20))
    (removal_handler (sample_entry "c" 20)) sample_pool _ _); [|by apply pair_fst; vm_compute].
  refine (run_add 2 5 [] [] (WorkerPool_new 2 5)
    (registration (sample_entry "b" 10)) (assignment_handler (sample_entry "b" 10))
    (removal_handler (sample_entry "b" 10)) _ _ _); [apply run_new|by apply pair_fst; vm_compute].
Qed.

Lemma pool_conserves_workers_witness : sample_assign.1.1 = true /\
  exists assigned removed,
    [sample_entry "b" 10; sample_entry "c" 20] ≡ₚ assigned ++ removed ++ idle sample_assign.2.
Proof.
  split; [by vm_compute|].
  destruct (pool_conserves_workers 2 5 [sample_entry "b" 10; sample_entry "c" 20] sample_assign.1.2
    sample_assign.2 sample_run) as (assigned & removed & H & _). by exists assigned, removed.
Defined.

Lemma pool_limits_and_dispatch_witness :
  pool_size sample_assign.2 <= 5 /\ idle_count pool_sample_client 7 sample_assign.2 <= 2.
Proof.
  destruct (pool_limits_and_dispatch 2 5 [sample_entry "b" 10; sample_entry "c" 20] sample_assign.1.2
    sample_assign.2) as (H1 & H2 & _); [lia|lia|apply sample_run|]. split; [exact H1|apply H2].
Defined.
