(* ===== verification/AcceptRetry.v ===== *)
(** * Accept retries (src/server/accept_recovery.cpp, class AcceptRetryPolicy)

    The back-off of a listener whose [accept] fails, the throttling of its log lines,
    and the classification of errors. *)
From S2P Require Import Prelude Common Clock.

(** Milliseconds, milliseconds and nanoseconds. *)
Definition kInitialRetryDelay : Z := 10.
Definition kMaximumRetryDelay : Z := 1000.
Definition kLogInterval : Z := seconds 5.
Definition kMaximumShift : Z := 7.

Record AcceptRetryPolicy : Set := mkAcceptRetryPolicy {
  failure_count_ : Z;
  last_log_ : instant;
  logged_ : bool
}.

Definition AcceptRetryPolicy_new : AcceptRetryPolicy := mkAcceptRetryPolicy 0 0 false.

(** [next_delay], in milliseconds. *)
Definition next_delay (p : AcceptRetryPolicy) : Z * AcceptRetryPolicy :=
  let shift := Z.min (failure_count_ p) kMaximumShift in
  let count :=
    if failure_count_ p <? kMaximumShift then failure_count_ p + 1 else failure_count_ p in
  (Z.min (kInitialRetryDelay * Z.shiftl 1 shift) kMaximumRetryDelay,
   mkAcceptRetryPolicy count (last_log_ p) (logged_ p)).

Definition retry_reset (p : AcceptRetryPolicy) : AcceptRetryPolicy := mkAcceptRetryPolicy 0 0 false.

Definition should_log (now : instant) (p : AcceptRetryPolicy) : bool * AcceptRetryPolicy :=
  if negb (logged_ p) || (kLogInterval <=? now - last_log_ p) then
    (true, mkAcceptRetryPolicy (failure_count_ p) now true)
  else (false, p).

(** The [asio] errors the policy tells apart. *)
Inductive AcceptError : Set :=
| accept_ok | no_descriptors | enfile | no_buffer_space | no_memory
| operation_aborted | bad_descriptor | accept_other.

#[export] Instance AcceptError_eq_decision : EqDecision AcceptError.
Proof. solve_decision. Defined.

Definition descriptor_exhausted (e : AcceptError) : bool :=
  bool_decide (e = no_descriptors) || bool_decide (e = enfile).

Definition accept_resource_exhausted (e : AcceptError) : bool :=
  descriptor_exhausted e || bool_decide (e = no_buffer_space) || bool_decide (e = no_memory).

Definition retryable (e : AcceptError) : bool :=
  negb (bool_decide (e = accept_ok)) && negb (bool_decide (e = operation_aborted)) &&
  negb (bool_decide (e = bad_descriptor)).

(** [handle_accept_failure] (tunnel_registry.cpp; server.cpp has the same steps): whether
    the reserved descriptor is spent to drop one queued connection, the error code of
    the log line if one is written, and the delay before the next [accept]. *)
Record AcceptOutcome : Set := mkAcceptOutcome {
  recovered : bool;
  log_line : option ErrorCode;
  retry_delay : Z
}.

Definition handle_accept_failure (has_reserve : bool) (error : AcceptError) (now : instant)
    (p : AcceptRetryPolicy) : AcceptOutcome * AcceptRetryPolicy :=
  let recover := descriptor_exhausted error && has_reserve in
  let (logged, p) := should_log now p in
  let line :=
    if logged then
      Some (if accept_resource_exhausted error then resource_exhausted else connection_failed)
    else None in
  let (delay, p) := next_delay p in
  (mkAcceptOutcome recover line delay, p).

(** A run of consecutive failures with their times. *)
Fixpoint accept_failures (has_reserve : bool) (failures : list (AcceptError * instant))
    (p : AcceptRetryPolicy) : list AcceptOutcome * AcceptRetryPolicy :=
  match failures with
  | [] => ([], p)
  | (error, now) :: failures =>
      let (x, p) := handle_accept_failure has_reserve error now p in
      let (l, p) := accept_failures has_reserve failures p in (x :: l, p)
  end.

(** The times of the failures that were logged. *)
Definition logged_times (failures : list (AcceptError * instant)) (outcomes : list AcceptOutcome) :
    list instant :=
  omap (fun '((_, t), x) => match log_line x with Some _ => Some t | None => None end)
    (zip failures outcomes).

(** Times at least [d] apart. *)
Fixpoint spaced (d : Z) (l : list instant) : bool :=
  match l with
  | t1 :: (t2 :: _) as rest => (d <=? t2 - t1) && spaced d rest
  | _ => true
  end.

(** ** Lemmas *)

Definition delay_of (failures : Z) : Z := Z.min (kInitialRetryDelay * 2 ^ Z.min failures kMaximumShift) kMaximumRetryDelay.

Lemma accept_failures_delays reserve times p n :
  0 <= n -> failure_count_ p = Z.min n kMaximumShift ->
  retry_delay <$> (accept_failures reserve times p).1 = (fun i => delay_of (n + Z.of_nat i)) <$> seq 0 (length times).
Proof.
  revert p n. induction times as [|[err t] times IH]; intros p n Hn Hp; [done|].
  cbn [accept_failures length seq]. unfold handle_accept_failure.
  destruct (should_log t p) as [b p1] eqn:E1.
  assert (Hc : failure_count_ p1 = failure_count_ p).
  { unfold should_log in E1. case_match; by simplify_eq. }
  destruct (next_delay p1) as [d p2] eqn:E2. unfold next_delay in E2. simplify_eq.
  specialize (IH (mkAcceptRetryPolicy
    (if failure_count_ p1 <? kMaximumShift then failure_count_ p1 + 1 else failure_count_ p1)
    (last_log_ p1) (logged_ p1)) (n + 1)).
  destruct (accept_failures reserve times _) as [l p3]. cbn [fst] in IH |- *. csimpl. rewrite IH.
  - f_equal.
    + unfold delay_of. rewrite Hc, Hp, Z.shiftl_mul_pow2, Z.mul_1_l by (unfold kMaximumShift; lia).
      by rewrite Z.add_0_r, <- Z.min_assoc, Z.min_id.
    + rewrite <- fmap_S_seq, <- list_fmap_compose. apply list_fmap_ext. intros i k _. simpl. f_equal. lia.
  - lia.
  - cbn [failure_count_]. rewrite Hc, Hp. unfold kMaximumShift.
    destruct (Z.ltb_spec (Z.min n 7) 7); lia.
Qed.

Lemma accept_failures_spaced reserve times p :
  spaced kLogInterval ((if logged_ p then [last_log_ p] else []) ++
    logged_times times (accept_failures reserve times p).1) = true.
Proof.
  revert p. induction times as [|[err t] times IH]; intros p.
  { simpl. by destruct (logged_ p). }
  cbn [accept_failures]. unfold handle_accept_failure. destruct (should_log t p) as [b p1] eqn:E1.
  destruct (next_delay p1) as [d p2] eqn:E2.
  assert (H2 : logged_ p2 = logged_ p1 /\ last_log_ p2 = last_log_ p1)
    by (unfold next_delay in E2; by simplify_eq). destruct H2 as [H2 H3].
  specialize (IH p2). destruct (accept_failures reserve times p2) as [l p3]. rewrite H2, H3 in IH.
  cbn [fst] in *. unfold logged_times. csimpl. fold (logged_times times l).
  unfold should_log in E1. case_match eqn:E; simplify_eq; [|done].
  cbn [logged_ last_log_] in IH. simpl in IH. destruct (logged_ p); simpl in *; [|done].
  rewrite IH. by rewrite E.
Qed.

(** ** The claim *)

(** A listener that keeps failing retries after 10 ms, 20 ms, 40 ms and so on up to
    one second, every later delay being one second; its log lines are at least five
    seconds apart, and after a success the delays start over. *)
Theorem accept_retry_paced reserve times p :
  let outcomes := (accept_failures reserve times (retry_reset p)).1 in
  retry_delay <$> outcomes = (fun i => Z.min (10 * 2 ^ Z.of_nat i) 1000) <$> seq 0 (length times) /\
  spaced (seconds 5) (logged_times times outcomes) = true.
Proof.
  cbn zeta. split; [|apply (accept_failures_spaced reserve times (retry_reset p))].
  rewrite (accept_failures_delays _ _ _ 0) by done. apply list_fmap_ext. intros k i _.
  rewrite Z.add_0_l. unfold delay_of, kInitialRetryDelay, kMaximumRetryDelay, kMaximumShift.
  destruct (Z.le_gt_cases (Z.of_nat i) 7); [by rewrite (Z.min_l (Z.of_nat i))|].
  assert (2 ^ 7 <= 2 ^ Z.of_nat i) by (apply Z.pow_le_mono_r; lia).
  rewrite (Z.min_r (Z.of_nat i)) by lia. lia.
Qed.
