(* ===== verification/ClientPolicy.v ===== *)
(** * Client policies (src/server/client_policy.cpp, include/minitun/server/client_policy.hpp)

    What the server knows about a client: secrets, limits, allowed ports and sources,
    and the fingerprints by which a reload finds out which clients changed.  The SHA-256
    of OpenSSL and Asio's printing of addresses are parameters. *)
From Stdlib Require Import Sorting.Sorted.
From S2P Require Import Prelude Common Ids Text PortRange KeyedMap.

Inductive ClientCertificateBindingKind : Set := none | sha256 | san.

Record ClientCertificateBinding : Set := mkCertificateBinding {
  cert_kind : ClientCertificateBindingKind;
  cert_value : bytes
}.

(** [asio::ip::address]: a 32-bit number or 16 bytes. *)
Inductive ip_address : Set := V4 (value : Z) | V6 (value : bytes).

Record SourceCidr : Set := mkSourceCidr { network : ip_address; prefix : Z }.

Record ClientPolicy : Set := mkClientPolicy {
  pol_client_id : bytes;
  pol_enabled : bool;
  psk : option bytes;
  previous_psk : option bytes;
  previous_psk_valid_until : option Z;
  allowed_ports : list PortRange;
  max_tunnels : Z;
  max_connections : Z;
  max_idle_workers : Z;
  certificate : ClientCertificateBinding;
  allowed_source_cidrs : list SourceCidr;
  connections_per_minute : Z;
  revision_fingerprint : bytes;
  session_fingerprint : bytes
}.

(** ** Ports, rotation, sources *)

Definition allows_port (p : ClientPolicy) (port : Z) : bool :=
  existsb (fun range => PortRange_contains range port) (allowed_ports p).

Definition rotation_psk (p : ClientPolicy) (unix_seconds_now : Z) : option bytes :=
  match previous_psk p, previous_psk_valid_until p with
  | Some k, Some t => if t <=? unix_seconds_now then None else Some k
  | _, _ => None
  end.

Definition is_v4 (a : ip_address) : bool := match a with V4 _ => true | V6 _ => false end.

(** One round of the loop of [allows_source]. *)
Definition cidr_matches (cidr : SourceCidr) (source : ip_address) : bool :=
  match network cidr, source with
  | V4 n, V4 candidate =>
      let mask :=
        if prefix cidr =? 0 then 0 else Z.shiftl (2 ^ 32 - 1) (32 - prefix cidr) mod 2 ^ 32 in
      Z.land n mask =? Z.land candidate mask
  | V6 n, V6 candidate =>
      let full_bytes := Z.to_nat (prefix cidr / 8) in
      let remaining_bits := prefix cidr mod 8 in
      if negb (bool_decide (take full_bytes n = take full_bytes candidate)) then false
      else if negb (remaining_bits =? 0) then
        let mask := Z.shiftl 0xff (8 - remaining_bits) mod 2 ^ 8 in
        Z.land (Z_of_byte (nth full_bytes n Byte.x00)) mask =?
        Z.land (Z_of_byte (nth full_bytes candidate Byte.x00)) mask
      else true
  | _, _ => false
  end.

Definition allows_source (p : ClientPolicy) (source : ip_address) : bool :=
  if decide (allowed_source_cidrs p = []) then true
  else existsb (fun cidr => cidr_matches cidr source) (allowed_source_cidrs p).

(** ** Fingerprints *)

Class PolicyDigest := {
  address_to_string : ip_address -> bytes;
  (** [EVP_Digest...] with SHA-256; [None] when OpenSSL fails. *)
  sha256_digest : bytes -> option bytes
}.

(** [update(zero)] with the literal [zero] = backslash-0 between quotes: the conversion
    of a [const char*] to [std::string_view] stops at the first NUL, so no byte is
    hashed. *)
Definition nul_literal : bytes := [].

Definition update_number (value : Z) : bytes := to_string value ++ nul_literal.

Definition certificate_kind_number (k : ClientCertificateBindingKind) : Z :=
  match k with none => 0 | sha256 => 1 | san => 2 end.

(** The bytes [policy_fingerprint] feeds to the digest; [None] when a secret is missing. *)
Definition fingerprint_input `{PolicyDigest} (p : ClientPolicy) (include_secrets : bool) :
    option bytes :=
  let head :=
    pol_client_id p ++ nul_literal ++
    (if pol_enabled p then bs "1" else bs "0") ++ nul_literal ++
    update_number (max_tunnels p) ++ update_number (max_connections p) ++
    update_number (max_idle_workers p) ++
    to_string (certificate_kind_number (cert_kind (certificate p))) ++ nul_literal ++
    cert_value (certificate p) ++ nul_literal ++
    to_string (connections_per_minute p) ++ nul_literal in
  let ports := mjoin ((fun r => PortRange_to_string r ++ nul_literal) <$> allowed_ports p) in
  let cidrs :=
    mjoin ((fun c => address_to_string (network c) ++ bs "/" ++ to_string (prefix c) ++ nul_literal)
             <$> allowed_source_cidrs p) in
  if include_secrets then
    match psk p with
    | None => None
    | Some k =>
        Some (head ++ ports ++ cidrs ++ k ++
              (match previous_psk p with Some k => k | None => bs "-" end) ++ nul_literal ++
              (match previous_psk_valid_until p with Some t => to_string t | None => bs "-" end) ++
              nul_literal)
    end
  else Some (head ++ ports ++ cidrs).

Definition policy_fingerprint `{PolicyDigest} (p : ClientPolicy) (include_secrets : bool) :
    Result bytes :=
  match fingerprint_input p include_secrets ≫= sha256_digest with
  | Some digest =>
      if Zlen digest =? 32 then Ok (mjoin (hex_of_byte <$> digest))
      else failure internal_error "failed to compute policy digest"
  | None => failure internal_error "failed to compute policy digest"
  end.

(** ** Snapshots and what a reload changed *)

Definition ClientPolicySnapshot : Set := gmap bytes ClientPolicy.

Definition snapshot_find (client_id : bytes) (s : ClientPolicySnapshot) : option ClientPolicy :=
  s !! client_id.

(** [std::string]'s order, and insertion into a [std::set]. *)
Fixpoint bytes_compare (a b : bytes) : comparison :=
  match a, b with
  | [], [] => Eq
  | [], _ => Lt
  | _, [] => Gt
  | x :: a, y :: b =>
      match Z_of_byte x ?= Z_of_byte y with Eq => bytes_compare a b | c => c end
  end.

Fixpoint set_emplace (x : bytes) (l : list bytes) : list bytes :=
  match l with
  | [] => [x]
  | y :: rest =>
      match bytes_compare x y with
      | Lt => x :: l
      | Eq => l
      | Gt => y :: set_emplace x rest
      end
  end.

(** [compute_changed]; the two maps are walked in the orders given. *)
Definition compute_changed (previous_order replacement_order : list (bytes * ClientPolicy))
    (previous : option ClientPolicySnapshot) (replacement : ClientPolicySnapshot) : list bytes :=
  let changed :=
    fold_left (fun changed '(client_id, policy) =>
      match snapshot_find client_id replacement with
      | None => set_emplace client_id changed
      | Some current =>
          if bool_decide (revision_fingerprint current = revision_fingerprint policy) then changed
          else set_emplace client_id changed
      end) (match previous with Some _ => previous_order | None => [] end) [] in
  fold_left (fun changed '(client_id, policy) =>
    match previous ≫= snapshot_find client_id with
    | None => set_emplace client_id changed
    | Some _ => changed
    end) replacement_order changed.

(** ** Lemmas: masks and leading bits *)

(** The [w] bits of a number, the most significant first. *)
Definition bits (w : nat) (n : Z) : list bool :=
  (fun i => Z.testbit n (Z.of_nat (w - 1 - i))) <$> seq 0 w.

(** The bits of an address, in network order. *)
Definition address_bits (a : ip_address) : list bool :=
  match a with V4 n => bits 32 n | V6 l => mjoin ((fun b => bits 8 (Z_of_byte b)) <$> l) end.

Definition address_wf (a : ip_address) : Prop :=
  match a with V4 n => 0 <= n < 2 ^ 32 | V6 l => length l = 16%nat end.

Definition cidr_wf (c : SourceCidr) : Prop :=
  address_wf (network c) /\
  0 <= prefix c <= match network c with V4 _ => 32 | V6 _ => 128 end.

Lemma bits_length w n : length (bits w n) = w.
Proof. unfold bits. by rewrite length_fmap, length_seq. Qed.

Lemma take_bits_eq p w n m :
  (p <= w)%nat ->
  take p (bits w n) = take p (bits w m) <->
  forall j, Z.of_nat (w - p) <= j < Z.of_nat w -> Z.testbit n j = Z.testbit m j.
Proof.
  intros Hp. unfold bits. rewrite <- !fmap_take, !take_seq, Nat.min_l by done. split.
  - intros E j Hj. apply (f_equal (fun l => l !! (w - 1 - Z.to_nat j)%nat)) in E.
    rewrite !list_lookup_fmap, !lookup_seq_lt in E by lia. simpl in E. injection E as E.
    replace (Z.of_nat (w - 1 - (w - 1 - Z.to_nat j))) with j in E by lia. done.
  - intros E. apply list_fmap_ext. intros i k Hk. apply lookup_seq in Hk. simpl. apply E. lia.
Qed.

Lemma testbit_mask w p j :
  (p <= w)%nat -> 0 <= j ->
  Z.testbit (Z.shiftl (2 ^ Z.of_nat w - 1) (Z.of_nat (w - p)) mod 2 ^ Z.of_nat w) j =
  (Z.of_nat (w - p) <=? j) && (j <? Z.of_nat w).
Proof.
  intros Hp Hj. destruct (Z.ltb_spec j (Z.of_nat w)).
  - rewrite Z.mod_pow2_bits_low, Z.shiftl_spec by lia. rewrite andb_true_r.
    destruct (Z.leb_spec (Z.of_nat (w - p)) j).
    + replace (2 ^ Z.of_nat w - 1) with (Z.ones (Z.of_nat w)) by (rewrite Z.ones_equiv; lia).
      apply Z.ones_spec_low. lia.
    + apply Z.testbit_neg_r. lia.
  - rewrite Z.mod_pow2_bits_high by lia. by rewrite andb_false_r.
Qed.

Lemma land_mask_eq w p n m :
  (p <= w)%nat ->
  let mask := Z.shiftl (2 ^ Z.of_nat w - 1) (Z.of_nat (w - p)) mod 2 ^ Z.of_nat w in
  Z.land n mask = Z.land m mask <-> take p (bits w n) = take p (bits w m).
Proof.
  intros Hp mask. rewrite take_bits_eq by done. split.
  - intros E j Hj. apply (f_equal (fun z => Z.testbit z j)) in E. subst mask.
    rewrite !Z.land_spec, !testbit_mask in E by (done || lia).
    destruct (Z.leb_spec (Z.of_nat (w - p)) j); [|lia].
    destruct (Z.ltb_spec j (Z.of_nat w)); [|lia]. by rewrite !andb_true_r in E.
  - intros E. apply Z.bits_inj'. intros j Hj. subst mask. rewrite !Z.land_spec, !testbit_mask by done.
    destruct (Z.leb_spec (Z.of_nat (w - p)) j), (Z.ltb_spec j (Z.of_nat w)); simpl;
      rewrite ?andb_false_r, ?andb_true_r; try done. apply E. lia.
Qed.

Lemma byte_bits_inj b c : bits 8 (Z_of_byte b) = bits 8 (Z_of_byte c) -> b = c.
Proof.
  intros E. apply Z_of_byte_inj. apply Z.bits_inj'. intros j Hj.
  pose proof (Z_of_byte_range b). pose proof (Z_of_byte_range c).
  destruct (Z.lt_ge_cases j 8).
  - apply (take_bits_eq 8 8); [done| |lia]. by rewrite E.
  - rewrite <- (Z.mod_small (Z_of_byte b) (2 ^ 8)), <- (Z.mod_small (Z_of_byte c) (2 ^ 8)) by lia.
    by rewrite !Z.mod_pow2_bits_high by lia.
Qed.

Abbreviation byte_bits := (fun b => bits 8 (Z_of_byte b)).

Lemma join_bits_cons b (l : bytes) :
  mjoin (byte_bits <$> (b :: l)) = bits 8 (Z_of_byte b) ++ mjoin (byte_bits <$> l).
Proof. done. Qed.

Lemma take_join_bits q r (l m : bytes) :
  (r < 8)%nat -> (q < length l)%nat \/ (q = length l /\ r = 0%nat) -> length l = length m ->
  take (8 * q + r) (mjoin (byte_bits <$> l)) = take (8 * q + r) (mjoin (byte_bits <$> m)) <->
  take q l = take q m /\
  (r <> 0%nat -> take r (bits 8 (Z_of_byte (nth q l Byte.x00))) =
    take r (bits 8 (Z_of_byte (nth q m Byte.x00)))).
Proof.
  revert l m. induction q as [|q IH]; intros l m Hr Hq Hl.
  - simpl. destruct l as [|b l], m as [|c m]; try done.
    rewrite !join_bits_cons, !take_app_le by (rewrite bits_length; lia). cbn [nth take].
    destruct r as [|r]; [by split|].
    split; [intros E; split; [done|]; intros _; exact E|intros [_ E]; by apply E].
  - destruct l as [|b l], m as [|c m]; try done; try (simpl in Hq; lia).
    rewrite !join_bits_cons. cbn [nth take]. simpl in Hq, Hl.
    replace (8 * S q + r)%nat with (length (bits 8 (Z_of_byte b)) + (8 * q + r))%nat at 1
      by (rewrite bits_length; lia).
    replace (8 * S q + r)%nat with (length (bits 8 (Z_of_byte c)) + (8 * q + r))%nat
      by (rewrite bits_length; lia).
    rewrite !take_app_add. specialize (IH l m Hr ltac:(lia) ltac:(lia)). split.
    + intros E. apply app_inj_1 in E; [|by rewrite !bits_length].
      destruct E as [Eb [E1 E2]%IH]. apply byte_bits_inj in Eb. subst. by rewrite E1.
    + intros [E1 E2]. simplify_eq. f_equal. by apply IH.
Qed.

(** One network of the allowlist admits exactly the sources of its family whose first
    [prefix] bits are the network's. *)
Lemma cidr_matches_iff c source :
  cidr_wf c -> address_wf source ->
  cidr_matches c source = true <->
  is_v4 (network c) = is_v4 source /\
  take (Z.to_nat (prefix c)) (address_bits source) = take (Z.to_nat (prefix c)) (address_bits (network c)).
Proof.
  intros [Hn Hp] Hs. unfold cidr_matches. destruct (network c) as [n|n], source as [s|s]; simpl in *;
    try naive_solver.
  - assert (Hm : (if prefix c =? 0 then 0 else Z.shiftl (2 ^ 32 - 1) (32 - prefix c) mod 2 ^ 32) =
      Z.shiftl (2 ^ Z.of_nat 32 - 1) (Z.of_nat (32 - Z.to_nat (prefix c))) mod 2 ^ Z.of_nat 32).
    { replace (Z.of_nat (32 - Z.to_nat (prefix c))) with (32 - prefix c) by lia.
      destruct (Z.eqb_spec (prefix c) 0) as [->|]; reflexivity. }
    rewrite Hm, Z.eqb_eq, land_mask_eq by lia. naive_solver.
  - set (q := Z.to_nat (prefix c / 8)). set (r := Z.to_nat (prefix c mod 8)).
    pose proof (Z.div_mod (prefix c) 8 ltac:(lia)) as Hdm.
    pose proof (Z.mod_pos_bound (prefix c) 8 ltac:(lia)) as Hmb.
    assert (0 <= prefix c / 8 <= 16) by (split; [apply Z.div_pos|]; lia).
    replace (Z.to_nat (prefix c)) with (8 * q + r)%nat by lia.
    pose proof (take_join_bits q r s n ltac:(lia) ltac:(lia) ltac:(lia)) as Hj. rewrite Hj.
    assert (Hmask : Z.shiftl 255 (8 - prefix c mod 8) mod 2 ^ 8 =
      Z.shiftl (2 ^ Z.of_nat 8 - 1) (Z.of_nat (8 - r)) mod 2 ^ Z.of_nat 8).
    { by replace (Z.of_nat (8 - r)) with (8 - prefix c mod 8) by lia. }
    case_bool_decide as Ht; simpl; [|naive_solver].
    destruct (Z.eqb_spec (prefix c mod 8) 0); simpl.
    + split; [|done]. intros _. split_and!; [done|done|]. lia.
    + change (Z.pow_pos 2 8) with (2 ^ 8). rewrite Z.eqb_eq, Hmask, land_mask_eq by lia.
      split; [intros E; split_and!; [done|done|]; by intros _|]. intros (_ & _ & E). by rewrite E by lia.
Qed.

(** ** Lemmas: [compute_changed] *)

Lemma bytes_compare_eq a b : bytes_compare a b = Eq <-> a = b.
Proof.
  revert b. induction a as [|x a IH]; intros [|y b]; simpl; try done.
  destruct (Z.compare_spec (Z_of_byte x) (Z_of_byte y)) as [E|E|E].
  - rewrite IH. apply Z_of_byte_inj in E. subst. split; [by intros ->|by intros [= ->]].
  - split; [done|]. intros [= -> ->]. lia.
  - split; [done|]. intros [= -> ->]. lia.
Qed.

Lemma bytes_compare_lt_trans a b c :
  bytes_compare a b = Lt -> bytes_compare b c = Lt -> bytes_compare a c = Lt.
Proof.
  revert b c. induction a as [|x a IH]; intros [|y b] [|z c]; simpl; try done.
  destruct (Z.compare_spec (Z_of_byte x) (Z_of_byte y)), (Z.compare_spec (Z_of_byte y) (Z_of_byte z)),
    (Z.compare_spec (Z_of_byte x) (Z_of_byte z)); try done; try lia. apply IH.
Qed.

Lemma bytes_compare_gt a b : bytes_compare a b = Gt -> bytes_compare b a = Lt.
Proof.
  revert b. induction a as [|x a IH]; intros [|y b]; simpl; try done.
  rewrite (Z.compare_antisym (Z_of_byte x)).
  destruct (Z_of_byte x ?= Z_of_byte y); simpl; try done. apply IH.
Qed.

Abbreviation bytes_lt := (fun a b => bytes_compare a b = Lt).

Lemma set_emplace_elem x y l : y ∈ set_emplace x l <-> y = x \/ y ∈ l.
Proof.
  induction l as [|z l IH]; simpl; [by rewrite list_elem_of_singleton, elem_of_nil; naive_solver|].
  destruct (bytes_compare x z) eqn:E.
  - apply bytes_compare_eq in E. subst. rewrite elem_of_cons. naive_solver.
  - by rewrite elem_of_cons.
  - rewrite !elem_of_cons, IH. naive_solver.
Qed.

Lemma set_emplace_sorted x l : StronglySorted bytes_lt l -> StronglySorted bytes_lt (set_emplace x l).
Proof.
  induction 1 as [|z l Hs IH Hf]; simpl; [by repeat constructor|].
  destruct (bytes_compare x z) eqn:E; [by constructor| |].
  - constructor; [by constructor|]. constructor; [done|]. eapply Forall_impl; [done|].
    intros y. by apply bytes_compare_lt_trans.
  - constructor; [done|]. apply Forall_forall. intros y [->|Hy]%set_emplace_elem.
    + by apply bytes_compare_gt.
    + by eapply Forall_forall in Hf.
Qed.

(** A loop that emplaces the keys of the entries that satisfy [p]. *)
Lemma emplace_loop (f : list bytes -> bytes * ClientPolicy -> list bytes)
    (p : bytes -> ClientPolicy -> bool) order acc :
  (forall l k v, f l (k, v) = if p k v then set_emplace k l else l) ->
  StronglySorted bytes_lt acc ->
  StronglySorted bytes_lt (fold_left f order acc) /\
  (forall k, k ∈ fold_left f order acc <-> k ∈ acc \/ exists v, (k, v) ∈ order /\ p k v = true).
Proof.
  intros Hf. revert acc. induction order as [|[k v] order IH]; intros acc Hs; simpl.
  - split; [done|]. intros k. setoid_rewrite elem_of_nil. naive_solver.
  - rewrite Hf. destruct (p k v) eqn:E.
    + destruct (IH (set_emplace k acc)) as [H1 H2]; [by apply set_emplace_sorted|].
      split; [done|]. intros k'. rewrite H2, set_emplace_elem. setoid_rewrite elem_of_cons. naive_solver.
    + destruct (IH acc Hs) as [H1 H2]. split; [done|]. intros k'. rewrite H2.
      setoid_rewrite elem_of_cons. naive_solver congruence.
Qed.

(** ** The claims *)

(** The source allowlist is exact: a source is admitted if and only if the list is
    empty or it contains a network of the source's family whose first [prefix] bits are
    the source's, for every prefix length of IPv4 and IPv6. *)
Theorem allows_source_exact p source :
  Forall cidr_wf (allowed_source_cidrs p) -> address_wf source ->
  allows_source p source = true <->
  allowed_source_cidrs p = [] \/
  exists c, c ∈ allowed_source_cidrs p /\ is_v4 (network c) = is_v4 source /\
    take (Z.to_nat (prefix c)) (address_bits source) = take (Z.to_nat (prefix c)) (address_bits (network c)).
Proof.
  intros Hwf Hs. unfold allows_source. case_decide as Hd; [naive_solver|].
  rewrite existsb_exists. rewrite Forall_forall in Hwf. split.
  - intros (c & Hc%list_elem_of_In & Hm). right. exists c. split; [done|].
    apply cidr_matches_iff in Hm; [done|by apply Hwf|done].
  - intros [?|(c & Hc & Hm)]; [done|]. exists c. split; [by apply list_elem_of_In|].
    apply cidr_matches_iff; [by apply Hwf|done|done].
Qed.

Definition sample_policy (tunnels connections : Z) (cidrs : list SourceCidr) : ClientPolicy :=
  mkClientPolicy (bs "client_" ++ repeat "a"%byte 32) true (Some (bs "secret")) None None
    [mkPortRange 6000 6999] tunnels connections 4 (mkCertificateBinding none []) cidrs 0 [] [].

Lemma allows_source_exact_witness :
  let p := sample_policy 1 1 [mkSourceCidr (V4 0x0a000000) 8; mkSourceCidr (V6 (repeat Byte.xfe 16)) 13] in
  allows_source p (V4 0x0a010203) = true <->
  allowed_source_cidrs p = [] \/
  exists c, c ∈ allowed_source_cidrs p /\ is_v4 (network c) = is_v4 (V4 0x0a010203) /\
    take (Z.to_nat (prefix c)) (address_bits (V4 0x0a010203)) =
    take (Z.to_nat (prefix c)) (address_bits (network c)).
Proof.
  intros p. apply (allows_source_exact p (V4 0x0a010203)); [|simpl; lia].
  repeat constructor; simpl; lia.
Defined.

(** A reload reports exactly the clients that were removed, added, or have another
    revision fingerprint, each once and in order, however the two maps are walked. *)
Theorem compute_changed_exact previous_order replacement_order previous replacement :
  iterates previous_order (default ∅ previous) -> iterates replacement_order replacement ->
  let changed := compute_changed previous_order replacement_order previous replacement in
  StronglySorted (fun a b => bytes_compare a b = Lt) changed /\
  (forall c, c ∈ changed <->
     revision_fingerprint <$> (previous ≫= snapshot_find c) <>
     revision_fingerprint <$> snapshot_find c replacement).
Proof.
  intros H1 H2. destruct (iterates_keys _ _ H1) as [_ K1]. destruct (iterates_keys _ _ H2) as [_ K2].
  unfold compute_changed. cbn zeta.
  set (p1 := fun c pol => match snapshot_find c replacement with None => true
    | Some cur => negb (bool_decide (revision_fingerprint cur = revision_fingerprint pol)) end).
  set (p2 := fun c (pol : ClientPolicy) => bool_decide (previous ≫= snapshot_find c = None)).
  match goal with |- context [fold_left ?g replacement_order (fold_left ?f ?l [])] =>
    destruct (emplace_loop f p1 l []) as [S1 E1]; [|constructor|
      destruct (emplace_loop g p2 replacement_order (fold_left f l [])) as [S2 E2]; [|exact S1|]]
  end.
  { intros l k v. unfold p1. destruct (snapshot_find k replacement); [|done]. by case_bool_decide. }
  { intros l k v. unfold p2. by destruct (previous ≫= snapshot_find k). }
  split; [exact S2|].
  intros c. rewrite E2, E1, elem_of_nil. clear E1 E2 S1 S2. unfold p1, p2, snapshot_find, ClientPolicySnapshot in *.
  setoid_rewrite K2.
  destruct previous as [prev|]; simpl in *.
  - setoid_rewrite K1. destruct (prev !! c) as [a|], (replacement !! c) as [b|]; simpl.
    + split.
      * intros [[[]|(v & [= <-] & Hv)]|(v & _ & Hv)]; [|done].
        apply negb_true_iff, bool_decide_eq_false in Hv. congruence.
      * intros Hne. left. right. exists a. split; [done|].
        apply negb_true_iff, bool_decide_eq_false. congruence.
    + split; [done|]. intros _. left. right. by exists a.
    + split; [done|]. intros _. right. by exists b.
    + split; [|done]. by intros [[[]|(v & ? & _)]|(v & ? & _)].
  - setoid_rewrite elem_of_nil. destruct (replacement !! c) as [b|]; simpl.
    + split; [done|]. intros _. right. by exists b.
    + split; [|done]. by intros [[[]|(v & ? & _)]|(v & ? & _)].
Qed.

Definition sample_digest : PolicyDigest := {|
  address_to_string _ := bs "addr";
  sha256_digest l := Some (take 32 (l ++ repeat Byte.x00 32))
|}.

Lemma compute_changed_exact_witness :
  let p r := mkClientPolicy (bs "a") true None None None [] 1 1 1 (mkCertificateBinding none []) [] 0 r [] in
  let old : ClientPolicySnapshot := <[bs "a" := p (bs "1")]> ∅ in
  let new : ClientPolicySnapshot := <[bs "b" := p (bs "1")]> (<[bs "a" := p (bs "2")]> ∅) in
  let changed := compute_changed (map_to_list old) (map_to_list new) (Some old) new in
  changed = [bs "a"; bs "b"] /\ StronglySorted (fun a b => bytes_compare a b = Lt) changed.
Proof.
  intros p old new changed. split; [by vm_compute|].
  apply (compute_changed_exact (map_to_list old) (map_to_list new) (Some old) new); by unfold iterates.
Defined.

(** The policy fingerprint does not separate its fields: the separator written between
    them is empty, so two policies of one client that differ in their limits (1 tunnel
    and 12 connections, 11 tunnels and 2 connections) have the same fingerprint under
    every digest function, and a reload from one to the other reports no change. *)
Theorem fingerprint_fields_run_together `{PolicyDigest} include_secrets :
  let p := sample_policy 1 12 [] in
  let q := sample_policy 11 2 [] in
  max_tunnels p <> max_tunnels q /\ max_connections p <> max_connections q /\
  policy_fingerprint p include_secrets = policy_fingerprint q include_secrets.
Proof.
  intros p q. split_and!; [done|done|]. unfold policy_fingerprint.
  assert (E : fingerprint_input p include_secrets = fingerprint_input q include_secrets)
    by (destruct include_secrets; by vm_compute).
  by rewrite E.
Qed.

Lemma fingerprint_fields_run_together_witness :
  @policy_fingerprint sample_digest (sample_policy 1 12 []) true =
  @policy_fingerprint sample_digest (sample_policy 11 2 []) true.
Proof. apply (@fingerprint_fields_run_together sample_digest true). Defined.
