(* ===== verification/TlsAdmission.v ===== *)
(** * Admission of TLS handshakes (src/server/tls_admission.cpp)

    A handshake holds a reservation, counted in total and per source address, from
    [accept] until authentication succeeds or the connection ends; sources that keep
    failing are refused by the rate limiter of the authentication code.  The pacing of
    [accept] itself (a token bucket over [double]) is not modelled. *)
From S2P Require Import Prelude Common Clock RateLimit.

Record TlsAdmission : Set := mkTlsAdmission {
  max_pending_ : Z;
  max_pending_per_ip_ : Z;
  sources_ : gmap bytes Z;
  pending_ : Z;
  failures_ : AuthRateLimiter;
  last_log_ : option instant;
  suppressed_ : Z
}.

(** The constructor; the limiter has its default options. *)
Definition default_limiter_options : AuthRateLimiterOptions := mkLimiterOptions 4096 5 60 60.

Definition TlsAdmission_new (max_pending max_pending_per_ip : Z) : TlsAdmission :=
  mkTlsAdmission (Z.max 1 max_pending) (Z.max 1 max_pending_per_ip) ∅ 0
    (AuthRateLimiter_new default_limiter_options) None 0.

Definition with_failures (l : AuthRateLimiter) (t : TlsAdmission) : TlsAdmission :=
  mkTlsAdmission (max_pending_ t) (max_pending_per_ip_ t) (sources_ t) (pending_ t) l
    (last_log_ t) (suppressed_ t).

Definition with_reservations (sources : gmap bytes Z) (pending : Z) (t : TlsAdmission) :
    TlsAdmission :=
  mkTlsAdmission (max_pending_ t) (max_pending_per_ip_ t) sources pending (failures_ t)
    (last_log_ t) (suppressed_ t).

Definition admission_try_acquire (address : bytes) (now : instant) (t : TlsAdmission) :
    bool * TlsAdmission :=
  if bool_decide (address = []) || (max_pending_ t <=? pending_ t) then (false, t)
  else
    let (ok, l) := allowed address now (failures_ t) in
    let t := with_failures l t in
    if negb ok then (false, t)
    else
      match sources_ t !! address with
      | Some n =>
          if max_pending_per_ip_ t <=? n then (false, t)
          else (true, with_reservations (<[address := n + 1]> (sources_ t)) (pending_ t + 1) t)
      | None => (true, with_reservations (<[address := 1]> (sources_ t)) (pending_ t + 1) t)
      end.

(** [release]; [--pending_] wraps around at 0. *)
Definition admission_release (address : bytes) (t : TlsAdmission) : TlsAdmission :=
  match sources_ t !! address with
  | None => t
  | Some n =>
      let n := (n - 1) mod 2 ^ 64 in
      with_reservations
        (if n =? 0 then delete address (sources_ t) else <[address := n]> (sources_ t))
        ((pending_ t - 1) mod 2 ^ 64) t
  end.

Definition admission_record_failure (iteration : list (bytes * Entry)) (address : bytes)
    (now : instant) (t : TlsAdmission) : option Z * TlsAdmission :=
  let t := with_failures (record_failure iteration address now (failures_ t)) t in
  match last_log_ t with
  | Some at_ =>
      if seconds 5 <=? now - at_ then
        (Some (suppressed_ t),
         mkTlsAdmission (max_pending_ t) (max_pending_per_ip_ t) (sources_ t) (pending_ t)
           (failures_ t) (Some now) 0)
      else
        (None,
         mkTlsAdmission (max_pending_ t) (max_pending_per_ip_ t) (sources_ t) (pending_ t)
           (failures_ t) (last_log_ t) (suppressed_ t + 1))
  | None =>
      (Some (suppressed_ t),
       mkTlsAdmission (max_pending_ t) (max_pending_per_ip_ t) (sources_ t) (pending_ t)
         (failures_ t) (Some now) 0)
  end.

(** ** Runs with the reservations that are held

    A session releases its reservation once (its flag [admission_pending_]). *)
Inductive admission_run (max_pending per_ip : Z) : list bytes -> TlsAdmission -> Prop :=
| admission_run_new : admission_run max_pending per_ip [] (TlsAdmission_new max_pending per_ip)
| admission_run_acquire held t address now t' :
    admission_run max_pending per_ip held t -> admission_try_acquire address now t = (true, t') ->
    admission_run max_pending per_ip (address :: held) t'
| admission_run_refused held t address now t' :
    admission_run max_pending per_ip held t -> admission_try_acquire address now t = (false, t') ->
    admission_run max_pending per_ip held t'
| admission_run_release held1 held2 t address :
    admission_run max_pending per_ip (held1 ++ address :: held2) t ->
    admission_run max_pending per_ip (held1 ++ held2) (admission_release address t)
| admission_run_failure held t iteration address now :
    admission_run max_pending per_ip held t ->
    admission_run max_pending per_ip held (snd (admission_record_failure iteration address now t)).

(** How often an address occurs among the reservations. *)
Fixpoint held_by (address : bytes) (held : list bytes) : Z :=
  match held with
  | [] => 0
  | a :: held => (if decide (a = address) then 1 else 0) + held_by address held
  end.

Lemma held_by_app a l1 l2 : held_by a (l1 ++ l2) = held_by a l1 + held_by a l2.
Proof. induction l1 as [|b l1 IH]; simpl; lia. Qed.

Lemma held_by_bound a l : 0 <= held_by a l <= Zlen l.
Proof. induction l as [|b l IH]; [done|]. rewrite Zlen_cons. simpl. case_decide; lia. Qed.

(** The counters are those of the reservations held. *)
Record admission_inv (max_pending per_ip : Z) (held : list bytes) (t : TlsAdmission) : Prop := {
  ainv_params : max_pending_ t = Z.max 1 max_pending /\ max_pending_per_ip_ t = Z.max 1 per_ip;
  ainv_pending : pending_ t = Zlen held;
  ainv_sources a : sources_ t !! a = if decide (held_by a held = 0) then None else Some (held_by a held);
  ainv_bound : Zlen held <= Z.max 1 max_pending;
  ainv_ip_bound a : held_by a held <= Z.max 1 per_ip
}.

Lemma admission_inv_new mp ip : admission_inv mp ip [] (TlsAdmission_new mp ip).
Proof. split; simpl; try done; unfold Zlen; simpl; try lia. Qed.

Lemma admission_inv_failures mp ip held t l :
  admission_inv mp ip held t -> admission_inv mp ip held (with_failures l t).
Proof. by intros []. Qed.

Lemma admission_inv_acquire mp ip held t address now :
  admission_inv mp ip held t ->
  admission_inv mp ip
    (if (admission_try_acquire address now t).1 then address :: held else held)
    (admission_try_acquire address now t).2.
Proof.
  intros Hi. unfold admission_try_acquire. 
  destruct (bool_decide (address = []) || (max_pending_ t <=? pending_ t)) eqn:E; [exact Hi|].
  apply orb_false_iff in E. destruct E as [_ E%Z.leb_gt].
  destruct (allowed address now (failures_ t)) as [ok l]. destruct ok; simpl; [|by apply admission_inv_failures].
  pose proof (held_by_bound address held) as Hb.
  destruct Hi as [[Hp Hip] Hn Hs Hbd Hib]. pose proof (Hs address) as Ha.
  assert (Hins : held_by address held < max_pending_per_ip_ t ->
    admission_inv mp ip (address :: held)
      (with_reservations (<[address := held_by address held + 1]> (sources_ t)) (pending_ t + 1)
         (with_failures l t))).
  { intros Hlt. split; cbn [with_reservations with_failures max_pending_ max_pending_per_ip_ sources_ pending_ held_by]; rewrite ?Zlen_cons; [done|lia| |lia|].
    - intros a. destruct (decide (address = a)) as [->|Hd].
      + rewrite lookup_insert_eq, decide_False by lia. f_equal. lia.
      + rewrite lookup_insert_ne, Hs by done. by rewrite Z.add_0_l.
    - intros a. specialize (Hib a). destruct (decide (address = a)); [subst a|]; lia. }
  simpl. rewrite Ha. destruct (decide (held_by address held = 0)) as [Hz|Hz].
  - rewrite Hz in Hins. apply Hins. lia.
  - destruct (Z.leb_spec (max_pending_per_ip_ t) (held_by address held)); cbn [fst snd]; [by split|].
    by apply Hins.
Qed.

Lemma admission_inv_release mp ip held1 held2 t address :
  mp < 2 ^ 64 -> admission_inv mp ip (held1 ++ address :: held2) t ->
  admission_inv mp ip (held1 ++ held2) (admission_release address t).
Proof.
  intros Hmp [[Hp Hip] Hn Hs Hbd Hib].
  assert (Hh : forall a, held_by a (held1 ++ address :: held2) =
    held_by a (held1 ++ held2) + if decide (address = a) then 1 else 0).
  { intros a. rewrite !held_by_app. simpl. lia. }
  assert (Hl : Zlen (held1 ++ address :: held2) = Zlen (held1 ++ held2) + 1).
  { unfold Zlen. rewrite !length_app. simpl. lia. }
  pose proof (held_by_bound address (held1 ++ held2)) as Hb.
  pose proof (Hh address) as Ha. rewrite decide_True in Ha by done.
  unfold admission_release. rewrite Hs, Ha, decide_False by lia.
  replace (held_by address (held1 ++ held2) + 1 - 1) with (held_by address (held1 ++ held2)) by lia.
  rewrite (Z.mod_small (held_by _ _)) by lia. rewrite Hn, Hl.
  replace (Zlen (held1 ++ held2) + 1 - 1) with (Zlen (held1 ++ held2)) by lia.
  rewrite (Z.mod_small (Zlen _)) by lia. split; cbn [with_reservations with_failures max_pending_ max_pending_per_ip_ sources_ pending_ held_by]; [done|done| |lia|].
  - intros a. specialize (Hs a). rewrite Hh in Hs. destruct (decide (address = a)) as [<-|Hd].
    + destruct (Z.eqb_spec (held_by address (held1 ++ held2)) 0).
      * by rewrite lookup_delete_eq, decide_True.
      * by rewrite lookup_insert_eq, decide_False.
    + rewrite Z.add_0_r in Hs.
      destruct (held_by address (held1 ++ held2) =? 0);
        rewrite ?lookup_delete_ne, ?lookup_insert_ne by done; exact Hs.
  - intros a. specialize (Hib a). rewrite Hh in Hib. destruct (decide (address = a)); lia.
Qed.

Lemma admission_run_inv mp ip held t :
  mp < 2 ^ 64 -> admission_run mp ip held t -> admission_inv mp ip held t.
Proof.
  intros Hmp. induction 1 as [|held t address now t' _ IH E|held t address now t' _ IH E|
    held1 held2 t address _ IH|held t iteration address now _ IH].
  - apply admission_inv_new.
  - apply (admission_inv_acquire _ _ _ _ address now) in IH. by rewrite E in IH.
  - apply (admission_inv_acquire _ _ _ _ address now) in IH. by rewrite E in IH.
  - by apply admission_inv_release.
  - unfold admission_record_failure.
    pose proof (admission_inv_failures _ _ _ _ (record_failure iteration address now (failures_ t)) IH) as [].
    repeat case_match; by split.
Qed.

(** ** The claim *)

(** Handshake reservations are counted exactly: the pending count is the number of
    reservations held and each source's count the number it holds, both within their
    limits, however often sources are refused or fail; the counters never wrap, and
    when every reservation has been released the table of sources is empty. *)
Theorem admission_counts_reservations max_pending per_ip held t :
  max_pending < 2 ^ 64 -> admission_run max_pending per_ip held t ->
  pending_ t = Zlen held /\ 0 <= pending_ t <= Z.max 1 max_pending /\
  (forall a, default 0 (sources_ t !! a) = held_by a held /\ held_by a held <= Z.max 1 per_ip) /\
  (held = [] -> sources_ t = ∅).
Proof.
  intros Hmp [_ Hn Hs Hb Hib]%admission_run_inv; [|done]. rewrite Hn. split_and!; try done.
  - unfold Zlen. lia.
  - intros a. split; [|done]. rewrite Hs. case_decide; [by simpl|done].
  - intros ->. apply map_eq. intros a. by rewrite Hs, lookup_empty.
Qed.

Lemma admission_counts_reservations_witness :
  let t := (admission_try_acquire (bs "a") 5 (TlsAdmission_new 2 1)).2 in
  pending_ (admission_release (bs "a") t) = 0 /\ pending_ t = 1.
Proof.
  intros t. split; [|by vm_compute].
  apply (admission_counts_reservations 2 1 []); [lia|].
  apply (admission_run_release 2 1 [] [] t (bs "a")).
  apply (admission_run_acquire 2 1 [] (TlsAdmission_new 2 1) (bs "a") 5); [apply admission_run_new|by vm_compute].
Defined.
