(* ===== verification/ControlStrand.v ===== *)
(** * The server's control strand (src/server/server.cpp, class Server::Impl)

    The operations server.cpp runs one after another on the control strand: sessions
    are opened and cleaned up, workers and tunnels registered, and public connections
    admitted, queued per session and given to workers.  Sessions and pending
    connections are objects with an identity (a number for their address); what the
    strand makes others do is a list of effects. *)
From S2P Require Import Prelude Common Text Clock Messages KeyedMap RateLimit Quota Session.
From S2P Require Import ClientPolicy TlsAdmission TunnelRegistry ServerWorkerPool.

Definition kMaxWorkerRequestCount : Z := 128.
Definition kWorkerRequestCooldown : Z := milliseconds 100.
Definition kWorkerRequestRetryAfter : Z := seconds 1.

(** The members of [ControlSession] that belong to the control strand. *)
Record ControlSession : Set := mkControlSession {
  remote_endpoint_ : bytes;
  cs_client_id : bytes;
  cs_worker_id : bytes;
  cs_generation : Z;
  control_connection_ : bool;
  worker_registered_ : bool;
  cleanup_complete_ : bool;
  admission_pending_ : bool
}.

(** [PendingPublicConnection]; the lease is an object of the quota's world. *)
Record PendingPublicConnection : Set := mkPending {
  binding_ : TunnelBinding;
  connection_lease_ : nat
}.

Record WorkerRequestState : Set := mkRequestState {
  outstanding : Z;
  last_request : instant
}.

(** The counters and gauges the modelled operations touch. *)
Record Metrics : Set := mkMetrics {
  active_connections_ : Z;
  active_tunnels_ : Z;
  idle_workers_ : Z;
  pending_connection_count_ : Z;
  pending_handshakes_ : Z;
  registration_success_total_ : Z;
  registration_failure_total_ : Z;
  unregistration_total_ : Z;
  acl_rejections_total_ : Z;
  quota_rejections_total_ : Z;
  source_rejections_total_ : Z
}.

Record Server : Set := mkServer {
  running_ : bool;
  shutting_down_ : bool;
  max_idle_workers_option : Z;
  max_total_idle_workers_option : Z;
  client_policies_ : ClientPolicy.ClientPolicySnapshot;
  tls_admission_ : TlsAdmission.TlsAdmission;
  session_registry_ : Session.SessionRegistry;
  worker_pool_ : WorkerPool;
  connection_quota_ : Quota.World;
  tunnel_registry_ : TunnelRegistry;
  sessions_ : gmap nat ControlSession;
  pending_connections_ : gmap nat PendingPublicConnection;
  pending_connections_by_session_ : gmap bytes (list nat);
  pending_connection_positions_ : gset nat;
  worker_request_states_ : gmap bytes WorkerRequestState;
  metrics_ : Metrics
}.

(** What the strand asks of handlers, listeners, sockets and sessions. *)
Inductive Effect : Set :=
| PoolEffect (call : PoolCall)
| ListenerEffect (event : ListenerEvent)
| ClosePublicSocket (connection : nat)
| EnqueueWorkerRequest (session : nat) (count : Z).

(** The order in which the maps are walked in one operation. *)
Record Walk : Set := mkWalk {
  worker_order : gmap bytes WorkerEntry -> list (bytes * WorkerEntry);
  listener_order : gmap bytes TunnelBinding -> list (bytes * TunnelBinding);
  session_order : gmap nat ControlSession -> list (nat * ControlSession);
  pending_order : gmap nat PendingPublicConnection -> list (nat * PendingPublicConnection);
  worker_order_ok m : iterates (worker_order m) m;
  listener_order_ok m : iterates (listener_order m) m;
  session_order_ok m : session_order m ≡ₚ map_to_list m;
  pending_order_ok m : pending_order m ≡ₚ map_to_list m
}.

(** ** Updates of one member *)

Definition upd_metrics (f : Metrics -> Metrics) (s : Server) : Server :=
  mkServer (running_ s) (shutting_down_ s) (max_idle_workers_option s) (max_total_idle_workers_option s)
    (client_policies_ s) (tls_admission_ s) (session_registry_ s) (worker_pool_ s)
    (connection_quota_ s) (tunnel_registry_ s) (sessions_ s) (pending_connections_ s)
    (pending_connections_by_session_ s) (pending_connection_positions_ s)
    (worker_request_states_ s) (f (metrics_ s)).

Definition upd_components (sr : Session.SessionRegistry) (wp : WorkerPool) (tr : TunnelRegistry)
    (s : Server) : Server :=
  mkServer (running_ s) (shutting_down_ s) (max_idle_workers_option s) (max_total_idle_workers_option s)
    (client_policies_ s) (tls_admission_ s) sr wp (connection_quota_ s) tr (sessions_ s)
    (pending_connections_ s) (pending_connections_by_session_ s)
    (pending_connection_positions_ s) (worker_request_states_ s) (metrics_ s).

Definition with_sessions (sr : Session.SessionRegistry) (s : Server) : Server :=
  upd_components sr (worker_pool_ s) (tunnel_registry_ s) s.
Definition with_workers (wp : WorkerPool) (s : Server) : Server :=
  upd_components (session_registry_ s) wp (tunnel_registry_ s) s.
Definition with_tunnels (tr : TunnelRegistry) (s : Server) : Server :=
  upd_components (session_registry_ s) (worker_pool_ s) tr s.

Definition upd_pending (pending : gmap nat PendingPublicConnection) (queues : gmap bytes (list nat))
    (positions : gset nat) (s : Server) : Server :=
  mkServer (running_ s) (shutting_down_ s) (max_idle_workers_option s) (max_total_idle_workers_option s)
    (client_policies_ s) (tls_admission_ s) (session_registry_ s) (worker_pool_ s)
    (connection_quota_ s) (tunnel_registry_ s) (sessions_ s) pending queues positions
    (worker_request_states_ s) (metrics_ s).

Definition with_requests (requests : gmap bytes WorkerRequestState) (s : Server) : Server :=
  mkServer (running_ s) (shutting_down_ s) (max_idle_workers_option s) (max_total_idle_workers_option s)
    (client_policies_ s) (tls_admission_ s) (session_registry_ s) (worker_pool_ s)
    (connection_quota_ s) (tunnel_registry_ s) (sessions_ s) (pending_connections_ s)
    (pending_connections_by_session_ s) (pending_connection_positions_ s) requests (metrics_ s).

Definition with_quota (quota : Quota.World) (s : Server) : Server :=
  mkServer (running_ s) (shutting_down_ s) (max_idle_workers_option s) (max_total_idle_workers_option s)
    (client_policies_ s) (tls_admission_ s) (session_registry_ s) (worker_pool_ s)
    quota (tunnel_registry_ s) (sessions_ s) (pending_connections_ s)
    (pending_connections_by_session_ s) (pending_connection_positions_ s)
    (worker_request_states_ s) (metrics_ s).

Definition with_control (admission : TlsAdmission.TlsAdmission) (sessions : gmap nat ControlSession)
    (s : Server) : Server :=
  mkServer (running_ s) (shutting_down_ s) (max_idle_workers_option s) (max_total_idle_workers_option s)
    (client_policies_ s) admission (session_registry_ s) (worker_pool_ s)
    (connection_quota_ s) (tunnel_registry_ s) sessions (pending_connections_ s)
    (pending_connections_by_session_ s) (pending_connection_positions_ s)
    (worker_request_states_ s) (metrics_ s).

(** [fetch_add(1U)] and [fetch_sub(1U)] on a 64-bit counter. *)
Definition bump (n : Z) : Z := (n + 1) mod 2 ^ 64.
Definition drop_one (n : Z) : Z := (n - 1) mod 2 ^ 64.

Definition count_quota_rejection (s : Server) : Server :=
  upd_metrics (fun m => mkMetrics (active_connections_ m) (active_tunnels_ m) (idle_workers_ m)
    (pending_connection_count_ m) (pending_handshakes_ m) (registration_success_total_ m)
    (registration_failure_total_ m) (unregistration_total_ m) (acl_rejections_total_ m)
    (bump (quota_rejections_total_ m)) (source_rejections_total_ m)) s.

Definition count_source_rejection (s : Server) : Server :=
  upd_metrics (fun m => mkMetrics (active_connections_ m) (active_tunnels_ m) (idle_workers_ m)
    (pending_connection_count_ m) (pending_handshakes_ m) (registration_success_total_ m)
    (registration_failure_total_ m) (unregistration_total_ m) (acl_rejections_total_ m)
    (quota_rejections_total_ m) (bump (source_rejections_total_ m))) s.

Definition count_registration (success acl : bool) (s : Server) : Server :=
  upd_metrics (fun m => mkMetrics (active_connections_ m) (active_tunnels_ m) (idle_workers_ m)
    (pending_connection_count_ m) (pending_handshakes_ m)
    (if success then bump (registration_success_total_ m) else registration_success_total_ m)
    (if success then registration_failure_total_ m else bump (registration_failure_total_ m))
    (unregistration_total_ m)
    (if acl then bump (acl_rejections_total_ m) else acl_rejections_total_ m)
    (quota_rejections_total_ m) (source_rejections_total_ m)) s.

Definition count_unregistration (s : Server) : Server :=
  upd_metrics (fun m => mkMetrics (active_connections_ m) (active_tunnels_ m) (idle_workers_ m)
    (pending_connection_count_ m) (pending_handshakes_ m) (registration_success_total_ m)
    (registration_failure_total_ m) (bump (unregistration_total_ m)) (acl_rejections_total_ m)
    (quota_rejections_total_ m) (source_rejections_total_ m)) s.

Definition store_pending_handshakes (n : Z) (s : Server) : Server :=
  upd_metrics (fun m => mkMetrics (active_connections_ m) (active_tunnels_ m) (idle_workers_ m)
    (pending_connection_count_ m) n (registration_success_total_ m)
    (registration_failure_total_ m) (unregistration_total_ m) (acl_rejections_total_ m)
    (quota_rejections_total_ m) (source_rejections_total_ m)) s.

Definition drop_active_connection (s : Server) : Server :=
  upd_metrics (fun m => mkMetrics (drop_one (active_connections_ m)) (active_tunnels_ m)
    (idle_workers_ m) (pending_connection_count_ m) (pending_handshakes_ m)
    (registration_success_total_ m) (registration_failure_total_ m) (unregistration_total_ m)
    (acl_rejections_total_ m) (quota_rejections_total_ m) (source_rejections_total_ m)) s.

Definition refresh_resource_gauges (s : Server) : Server :=
  upd_metrics (fun m => mkMetrics (active_connections_ m) (registry_size (tunnel_registry_ s))
    (pool_size (worker_pool_ s)) (Z.of_nat (size (pending_connections_ s))) (pending_handshakes_ m)
    (registration_success_total_ m) (registration_failure_total_ m) (unregistration_total_ m)
    (acl_rejections_total_ m) (quota_rejections_total_ m) (source_rejections_total_ m)) s.

(** ** Sessions, workers and tunnels *)

Definition listener_effects (l : list ListenerEvent) : list Effect := ListenerEffect <$> l.
Definition pool_effects (l : list PoolCall) : list Effect := PoolEffect <$> l.

(** The policy check at the start of the registrations: the client's policy now, if it
    is enabled and still the revision the session authenticated with. *)
Definition current_policy (policy : ClientPolicy) (s : Server) : option ClientPolicy :=
  match snapshot_find (pol_client_id policy) (client_policies_ s) with
  | Some current =>
      if negb (pol_enabled current) ||
         negb (bool_decide (revision_fingerprint current = revision_fingerprint policy))
      then None else Some current
  | None => None
  end.

Definition open_client_session (walk : Walk) (draws : list (option bytes)) (policy : ClientPolicy)
    (s : Server) : Result Z * list Effect * Server :=
  match current_policy policy s with
  | None => (failure authentication_failed "client policy changed during authentication", [], s)
  | Some _ =>
      let (generation, sr) := session_open draws (pol_client_id policy) (session_registry_ s) in
      let s := with_sessions sr s in
      match generation with
      | Ok g =>
          let (calls, wp) :=
            ServerWorkerPool.remove_client (worker_order walk (entries_ (worker_pool_ s)))
              (pol_client_id policy) (worker_pool_ s) in
          let s := with_workers wp s in
          let (events, tr) :=
            TunnelRegistry.remove_client (listener_order walk (listeners_ (tunnel_registry_ s)))
              (pol_client_id policy) (tunnel_registry_ s) in
          let s := with_tunnels tr s in
          (Ok g, pool_effects calls ++ listener_effects events, refresh_resource_gauges s)
      | Err e =>
          (Err e, [],
           if bool_decide (code e = resource_exhausted) then count_quota_rejection s else s)
      end
  end.

Definition register_worker (policy : ClientPolicy) (r : WorkerRegistration)
    (assignment removal : option Z) (s : Server) : Result unit * list Effect * Server :=
  match current_policy policy s with
  | None => (failure authentication_failed "client policy changed before worker registration", [], s)
  | Some current =>
      let r := mkWorkerRegistration (reg_client_id r) (reg_session_generation r) (reg_worker_id r)
                 (max_idle_workers current) in
      let (result, wp) := add r assignment removal (worker_pool_ s) in
      let s := with_workers wp s in
      let s :=
        match result with
        | Err e => if bool_decide (code e = resource_exhausted) then count_quota_rejection s else s
        | Ok _ => s
        end in
      (result, [], refresh_resource_gauges s)
  end.

Definition remove_worker (worker_id : bytes) (s : Server) : list Effect * Server :=
  let (calls, wp) := remove worker_id (worker_pool_ s) in
  (pool_effects calls, refresh_resource_gauges (with_workers wp s)).

Section strand.
Context `{AsioBindAddress}.

(** [register_tunnel]; the clock readings only feed a latency metric. *)
Definition register_tunnel (os : option AsioError) (policy : ClientPolicy) (b : TunnelBinding)
    (s : Server) : Result unit * list Effect * Server :=
  match current_policy policy s with
  | None =>
      (failure authentication_failed "client policy changed before tunnel registration", [],
       count_registration false false s)
  | Some current =>
      if negb (allows_port current (bind_port b)) then
        (failure permission_denied "remote tunnel port is outside the client allowlist", [],
         count_registration false true s)
      else
        let '(result, events, tr) :=
          TunnelRegistry.register_tunnel os b (max_tunnels current) (tunnel_registry_ s) in
        let s := with_tunnels tr s in
        let s :=
          match result with
          | Ok _ => count_registration true false s
          | Err e =>
              let s := count_registration false false s in
              if bool_decide (code e = resource_exhausted) then count_quota_rejection s else s
          end in
        (result, listener_effects events, refresh_resource_gauges s)
  end.

Definition unregister_tunnel (client_id : bytes) (generation : Z) (tunnel_id : bytes)
    (config_revision : Z) (s : Server) : list Effect * Server :=
  let (events, tr) :=
    TunnelRegistry.unregister_tunnel client_id generation tunnel_id config_revision
      (tunnel_registry_ s) in
  (listener_effects events, refresh_resource_gauges (count_unregistration (with_tunnels tr s))).

(** ** Pending public connections *)

Definition pending_session_key (client_id : bytes) (generation : Z) : bytes :=
  client_id ++ ch_slash :: to_string generation.

Definition session_key (p : PendingPublicConnection) : bytes :=
  pending_session_key (bind_client_id (binding_ p)) (bind_session_generation (binding_ p)).

(** [pending_connection_finished]. *)
Definition pending_connection_finished (id : nat) (p : PendingPublicConnection) (s : Server) :
    Server :=
  let queues := pending_connections_by_session_ s in
  let positions := pending_connection_positions_ s in
  let s :=
    match queues !! session_key p with
    | Some group =>
        if bool_decide (id ∈ positions) then
          let group := List.filter (fun i => negb (bool_decide (i = id))) group in
          upd_pending (pending_connections_ s)
            (if bool_decide (group = []) then delete (session_key p) queues
             else <[session_key p := group]> queues) (positions ∖ {[id]}) s
        else s
    | None => s
    end in
  refresh_resource_gauges
    (upd_pending (delete id (pending_connections_ s)) (pending_connections_by_session_ s)
       (pending_connection_positions_ s) s).

(** [PendingPublicConnection::stop] of a connection that has not finished, and the
    destruction of the object: its lease returns the slot. *)
Definition pending_stop (id : nat) (p : PendingPublicConnection) (s : Server) :
    list Effect * Server :=
  let s := pending_connection_finished id p s in
  ([ClosePublicSocket id],
   with_quota (Lease_release (connection_lease_ p) (connection_quota_ s)) s).

(** [try_assign]; an object that finished is no longer in [pending_connections_]. *)
Definition try_assign (walk : Walk) (throws : Z -> bool) (id : nat) (s : Server) :
    bool * list Effect * Server :=
  match pending_connections_ s !! id with
  | None => (false, [], s)
  | Some p =>
      let b := binding_ p in
      if negb (running_ s) ||
         negb (is_current (bind_client_id b) (bind_session_generation b) (session_registry_ s))
      then let (effects, s) := pending_stop id p s in (false, effects, s)
      else
        let '(assigned, calls, wp) :=
          assign throws (worker_order walk (entries_ (worker_pool_ s))) b (worker_pool_ s) in
        let s := with_workers wp s in
        if negb assigned then (false, pool_effects calls, s)
        else
          (** the lease moves into the handler's argument *)
          let s := with_quota (Lease_move (connection_lease_ p) (connection_quota_ s)) s in
          (true, pool_effects calls, pending_connection_finished id p s)
  end.

(** [cancel_pending_for_session]; each round takes one connection off the queue, so the
    length of the queue and one more is enough fuel. *)
Fixpoint cancel_loop (fuel : nat) (key : bytes) (s : Server) : list Effect * Server :=
  match fuel with
  | O => ([], s)
  | S fuel =>
      match pending_connections_by_session_ s !! key with
      | Some (candidate :: rest) =>
          match pending_connections_ s !! candidate with
          | None =>
              cancel_loop fuel key
                (upd_pending (pending_connections_ s)
                   (if bool_decide (rest = []) then delete key (pending_connections_by_session_ s)
                    else <[key := rest]> (pending_connections_by_session_ s))
                   (pending_connection_positions_ s ∖ {[candidate]}) s)
          | Some p =>
              let (effects, s) := pending_stop candidate p s in
              let (more, s) := cancel_loop fuel key s in (effects ++ more, s)
          end
      | _ => ([], s)
      end
  end.

Definition queue_length (key : bytes) (s : Server) : nat :=
  match pending_connections_by_session_ s !! key with Some q => length q | None => 0%nat end.

Definition cancel_pending_for_session (client_id : bytes) (generation : Z) (s : Server) :
    list Effect * Server :=
  let key := pending_session_key client_id generation in
  cancel_loop (S (queue_length key s)) key s.

(** ** Asking a client for more workers *)

Definition is_control_session (client_id : bytes) (generation : Z) (c : ControlSession) : bool :=
  control_connection_ c && bool_decide (cs_client_id c = client_id) &&
  (cs_generation c =? generation).

Definition find_control_session (walk : Walk) (client_id : bytes) (generation : Z) (s : Server) :
    option nat :=
  fst <$> List.find (fun '(_, c) => is_control_session client_id generation c)
            (session_order walk (sessions_ s)).

Definition reserve_worker_request_on_control_strand (walk : Walk) (now : instant)
    (client_id : bytes) (generation : Z) (desired : Z) (s : Server) : option Z * Server :=
  if desired =? 0 then (None, s)
  else
    match snapshot_find client_id (client_policies_ s) with
    | None => (None, s)
    | Some policy =>
        if negb (pol_enabled policy) then (None, s)
        else
          let max_idle := Z.min (max_idle_workers policy) (max_idle_workers_option s) in
          let key := pending_session_key client_id generation in
          match find_control_session walk client_id generation s with
          | None => (None, with_requests (delete key (worker_request_states_ s)) s)
          | Some _ =>
              let state :=
                match worker_request_states_ s !! key with
                | Some state => state
                | None => mkRequestState 0 0
                end in
              let state :=
                if negb (outstanding state =? 0) &&
                   (kWorkerRequestRetryAfter <=? now - last_request state)
                then mkRequestState 0 (last_request state) else state in
              let s := with_requests (<[key := state]> (worker_request_states_ s)) s in
              if negb (last_request state =? 0) && (now - last_request state <? kWorkerRequestCooldown)
              then (None, s)
              else
                let idle := idle_count client_id generation (worker_pool_ s) in
                let accounted := idle + outstanding state in
                if (desired <=? accounted) || (max_idle <=? outstanding state) then (None, s)
                else
                  let global_capacity :=
                    if pool_size (worker_pool_ s) <? max_total_idle_workers_option s
                    then max_total_idle_workers_option s - pool_size (worker_pool_ s) else 0 in
                  let per_session_capacity :=
                    if idle + outstanding state <? max_idle
                    then max_idle - idle - outstanding state else 0 in
                  let requested :=
                    Z.min (Z.min (Z.min (desired - accounted) global_capacity) per_session_capacity)
                      kMaxWorkerRequestCount in
                  if requested =? 0 then (None, s)
                  else
                    (Some requested,
                     with_requests
                       (<[key := mkRequestState (outstanding state + requested) now]>
                          (worker_request_states_ s)) s)
          end
    end.

Definition maybe_request_workers_for_pending (walk : Walk) (now : instant) (client_id : bytes)
    (generation : Z) (s : Server) : list Effect * Server :=
  let key := pending_session_key client_id generation in
  match pending_connections_by_session_ s !! key with
  | None | Some [] => ([], s)
  | Some queue =>
      let (requested, s) :=
        reserve_worker_request_on_control_strand walk now client_id generation
          (Z.of_nat (length queue)) s in
      match requested with
      | None => ([], s)
      | Some count =>
          match find_control_session walk client_id generation s with
          | Some session => ([EnqueueWorkerRequest session count], s)
          | None => ([], s)
          end
      end
  end.

(** [handle_public_connection]; [id] is the address of the new object and
    [source_admitted] the answer of [admits_source].  The retry timer is left out. *)
Definition handle_public_connection (walk : Walk) (throws : Z -> bool) (now : instant)
    (id : nat) (source_admitted : bool) (b : TunnelBinding) (s : Server) : list Effect * Server :=
  if negb (running_ s) then ([ClosePublicSocket id], s)
  else
    match snapshot_find (bind_client_id b) (client_policies_ s) with
    | None => ([ClosePublicSocket id], s)
    | Some policy =>
        if negb (pol_enabled policy) then ([ClosePublicSocket id], s)
        else if negb source_admitted then ([ClosePublicSocket id], count_source_rejection s)
        else
          let (lease, quota) :=
            try_acquire (bind_client_id b) (max_connections policy) (connection_quota_ s) in
          let s := with_quota quota s in
          match lease with
          | Err _ => ([ClosePublicSocket id], count_quota_rejection s)
          | Ok lease =>
              let p := mkPending b lease in
              let queue :=
                match pending_connections_by_session_ s !! session_key p with
                | Some q => q
                | None => []
                end in
              let s :=
                upd_pending (<[id := p]> (pending_connections_ s))
                  (<[session_key p := queue ++ [id]]> (pending_connections_by_session_ s))
                  (pending_connection_positions_ s ∪ {[id]}) s in
              let s := refresh_resource_gauges s in
              let '(_, effects, s) :=
                if bool_decide (queue = []) then try_assign walk throws id s else (false, [], s) in
              let (more, s) :=
                maybe_request_workers_for_pending walk now (bind_client_id b)
                  (bind_session_generation b) s in
              (effects ++ more, s)
          end
    end.

(** The loop of [notify_worker_available]. *)
Fixpoint notify_loop (fuel : nat) (walk : Walk) (throws : Z -> bool) (key : bytes) (s : Server) :
    list Effect * Server :=
  match fuel with
  | O => ([], s)
  | S fuel =>
      match pending_connections_by_session_ s !! key with
      | Some (candidate :: rest) =>
          match pending_connections_ s !! candidate with
          | None =>
              notify_loop fuel walk throws key
                (upd_pending (pending_connections_ s)
                   (if bool_decide (rest = []) then delete key (pending_connections_by_session_ s)
                    else <[key := rest]> (pending_connections_by_session_ s))
                   (pending_connection_positions_ s ∖ {[candidate]}) s)
          | Some _ =>
              let '(assigned, effects, s) := try_assign walk throws candidate s in
              if assigned : bool then (effects, s)
              else if bool_decide (is_Some (pending_connections_ s !! candidate)) then (effects, s)
              else let (more, s) := notify_loop fuel walk throws key s in (effects ++ more, s)
          end
      | _ => ([], s)
      end
  end.

Definition notify_worker_available (walk : Walk) (throws : Z -> bool) (now : instant)
    (client_id : bytes) (generation : Z) (s : Server) : list Effect * Server :=
  let key := pending_session_key client_id generation in
  let (effects, s) := notify_loop (S (queue_length key s)) walk throws key s in
  let (more, s) := maybe_request_workers_for_pending walk now client_id generation s in
  (effects ++ more, s).

(** The strand part of [worker_request_registered]. *)
Definition worker_request_registered (walk : Walk) (now : instant) (client_id : bytes)
    (generation : Z) (s : Server) : list Effect * Server :=
  let key := pending_session_key client_id generation in
  let s :=
    match worker_request_states_ s !! key with
    | Some state =>
        if negb (outstanding state =? 0) then
          with_requests
            (<[key := mkRequestState (outstanding state - 1) (last_request state)]>
               (worker_request_states_ s)) s
        else s
    | None => s
    end in
  maybe_request_workers_for_pending walk now client_id generation s.

(** ** The end of a session *)

Definition release_admission_on_control_strand (id : nat) (c : ControlSession) (s : Server) : Server :=
  if admission_pending_ c then
    let t := admission_release (remote_endpoint_ c) (tls_admission_ s) in
    let c := mkControlSession (remote_endpoint_ c) (cs_client_id c) (cs_worker_id c)
               (cs_generation c) (control_connection_ c) (worker_registered_ c)
               (cleanup_complete_ c) false in
    store_pending_handshakes (pending_ t) (with_control t (<[id := c]> (sessions_ s)) s)
  else s.

(** [worker_registered_ = false]. *)
Definition clear_worker_registered (id : nat) (s : Server) : Server :=
  match sessions_ s !! id with
  | Some c =>
      with_control (tls_admission_ s)
        (<[id := mkControlSession (remote_endpoint_ c) (cs_client_id c) (cs_worker_id c)
                   (cs_generation c) (control_connection_ c) false (cleanup_complete_ c)
                   (admission_pending_ c)]> (sessions_ s)) s
  | None => s
  end.

Definition end_control_session (walk : Walk) (c : ControlSession) (s : Server) :
    list Effect * Server :=
  let (calls, wp) :=
    ServerWorkerPool.remove_session (worker_order walk (entries_ (worker_pool_ s)))
      (cs_client_id c) (cs_generation c) (worker_pool_ s) in
  let s := with_workers wp s in
  let (events, tr) :=
    TunnelRegistry.remove_session (listener_order walk (listeners_ (tunnel_registry_ s)))
      (cs_client_id c) (cs_generation c) (tunnel_registry_ s) in
  let s := with_tunnels tr s in
  let (cancelled, s) := cancel_pending_for_session (cs_client_id c) (cs_generation c) s in
  let s := with_sessions (session_close (cs_client_id c) (cs_generation c) (session_registry_ s)) s in
  let s :=
    with_requests
      (delete (pending_session_key (cs_client_id c) (cs_generation c)) (worker_request_states_ s)) s in
  (pool_effects calls ++ listener_effects events ++ cancelled, s).

Definition cleanup_on_control_strand (walk : Walk) (id : nat) (s : Server) : list Effect * Server :=
  match sessions_ s !! id with
  | None => ([], s)
  | Some c =>
      if cleanup_complete_ c then ([], s)
      else
        let c := mkControlSession (remote_endpoint_ c) (cs_client_id c) (cs_worker_id c)
                   (cs_generation c) (control_connection_ c) (worker_registered_ c) true
                   (admission_pending_ c) in
        let s := with_control (tls_admission_ s) (<[id := c]> (sessions_ s)) s in
        let s := release_admission_on_control_strand id c s in
        let (calls, s) :=
          if worker_registered_ c then
            let (calls, wp) := remove (cs_worker_id c) (worker_pool_ s) in
            (pool_effects calls, clear_worker_registered id (with_workers wp s))
          else ([], s) in
        let (effects, s) :=
          if control_connection_ c && negb (cs_generation c =? 0) &&
             negb (bool_decide (cs_client_id c = []))
          then end_control_session walk c s else ([], s) in
        (calls ++ effects, drop_active_connection (refresh_resource_gauges s))
  end.

(** [session_finished]: the clean-up and the end of the object. *)
Definition session_finished (walk : Walk) (id : nat) (s : Server) : list Effect * Server :=
  match sessions_ s !! id with
  | None => ([], s)
  | Some _ =>
      let (effects, s) := cleanup_on_control_strand walk id s in
      (effects, with_control (tls_admission_ s) (delete id (sessions_ s)) s)
  end.

(** ** Start and stop *)

Definition with_running (running shutting_down : bool) (s : Server) : Server :=
  mkServer running shutting_down (max_idle_workers_option s) (max_total_idle_workers_option s)
    (client_policies_ s) (tls_admission_ s) (session_registry_ s) (worker_pool_ s)
    (connection_quota_ s) (tunnel_registry_ s) (sessions_ s) (pending_connections_ s)
    (pending_connections_by_session_ s) (pending_connection_positions_ s)
    (worker_request_states_ s) (metrics_ s).

(** [start]; [listening] is the result of opening, binding and inspecting the acceptor. *)
Definition server_start (listening : Result unit) (s : Server) : Result unit * Server :=
  if running_ s then (failure already_exists "TLS server is already running", s)
  else
    match listening with
    | Err e => (Err e, with_running false false s)
    | Ok _ => (success, with_running true false s)
    end.

(** [stop]: [running_.exchange(false)]; the result tells whether [begin_shutdown] is
    dispatched to the strand. *)
Definition server_stop (s : Server) : bool * Server :=
  (running_ s, with_running false (shutting_down_ s) s).

(** The loop of [begin_shutdown] over the connections it has moved out of the table. *)
Fixpoint stop_pending (l : list (nat * PendingPublicConnection)) (s : Server) :
    list Effect * Server :=
  match l with
  | [] => ([], s)
  | (id, p) :: l =>
      let (effects, s) := pending_stop id p s in
      let (more, s) := stop_pending l s in
      (effects ++ more, s)
  end.

(** [begin_shutdown] up to the loop over the sessions, which are asked to stop on strands of
    their own. *)
Definition begin_shutdown (walk : Walk) (s : Server) : list Effect * Server :=
  if shutting_down_ s then ([], s)
  else
    let s := with_running (running_ s) true s in
    let (events, tr) :=
      TunnelRegistry.clear (listener_order walk (listeners_ (tunnel_registry_ s)))
        (tunnel_registry_ s) in
    let s := with_tunnels tr s in
    let pending := pending_order walk (pending_connections_ s) in
    let s := upd_pending ∅ (pending_connections_by_session_ s) (pending_connection_positions_ s) s in
    let (stopped, s) := stop_pending pending s in
    let (calls, wp) :=
      ServerWorkerPool.clear (worker_order walk (entries_ (worker_pool_ s))) (worker_pool_ s) in
    (listener_effects events ++ stopped ++ pool_effects calls,
     refresh_resource_gauges (with_workers wp s)).

(** ** Steps of the strand

    The sessions' own strands change the session objects, timers stop connections that
    waited too long, and a reload replaces the policies.  The flag of the server, which is
    set by [start] and [stop] from any thread, changes between two operations. *)
Definition with_policies (policies : ClientPolicySnapshot) (s : Server) : Server :=
  mkServer (running_ s) (shutting_down_ s) (max_idle_workers_option s) (max_total_idle_workers_option s)
    policies (tls_admission_ s) (session_registry_ s) (worker_pool_ s)
    (connection_quota_ s) (tunnel_registry_ s) (sessions_ s) (pending_connections_ s)
    (pending_connections_by_session_ s) (pending_connection_positions_ s)
    (worker_request_states_ s) (metrics_ s).

Inductive strand_step : Server -> list Effect -> Server -> Prop :=
| step_open walk draws policy s r effects s' :
    open_client_session walk draws policy s = (r, effects, s') -> strand_step s effects s'
| step_register_worker policy reg a d s r effects s' :
    register_worker policy reg a d s = (r, effects, s') -> strand_step s effects s'
| step_remove_worker id s effects s' :
    remove_worker id s = (effects, s') -> strand_step s effects s'
| step_register_tunnel os policy b s r effects s' :
    register_tunnel os policy b s = (r, effects, s') -> strand_step s effects s'
| step_unregister_tunnel c g t v s effects s' :
    unregister_tunnel c g t v s = (effects, s') -> strand_step s effects s'
| step_public_connection walk throws now id admitted b s effects s' :
    pending_connections_ s !! id = None ->
    handle_public_connection walk throws now id admitted b s = (effects, s') ->
    strand_step s effects s'
| step_notify walk throws now c g s effects s' :
    notify_worker_available walk throws now c g s = (effects, s') -> strand_step s effects s'
| step_request_registered walk now c g s effects s' :
    worker_request_registered walk now c g s = (effects, s') -> strand_step s effects s'
| step_timeout id p s effects s' :
    pending_connections_ s !! id = Some p -> pending_stop id p s = (effects, s') ->
    strand_step s effects s'
| step_cleanup walk id s effects s' :
    session_finished walk id s = (effects, s') -> strand_step s effects s'
| step_sessions admission sessions s : strand_step s [] (with_control admission sessions s)
| step_policies policies s : strand_step s [] (with_policies policies s)
| step_start listening s : strand_step s [] (server_start listening s).2
| step_stop s : strand_step s [] (server_stop s).2
| step_shutdown walk s effects s' :
    begin_shutdown walk s = (effects, s') -> strand_step s effects s'.

Inductive strand_reachable (start : Server) : Server -> Prop :=
| strand_start : strand_reachable start start
| strand_next s effects s' :
    strand_reachable start s -> strand_step s effects s' -> strand_reachable start s'.

(** ** Lemmas: the pending connections *)

(** Every pending connection waits in the queue of its session, once, and the queues
    hold nothing else. *)
Record pending_inv (s : Server) : Prop := {
  pinv_queue key q : pending_connections_by_session_ s !! key = Some q ->
    q <> [] /\ NoDup q /\
    forall id, id ∈ q -> exists p, pending_connections_ s !! id = Some p /\ session_key p = key;
  pinv_pending id p : pending_connections_ s !! id = Some p ->
    exists q, pending_connections_by_session_ s !! session_key p = Some q /\ id ∈ q;
  pinv_positions : pending_connection_positions_ s = dom (pending_connections_ s)
}.

Definition no_pending (s : Server) : Prop :=
  pending_connections_ s = ∅ /\ pending_connections_by_session_ s = ∅ /\
  pending_connection_positions_ s = ∅.

(** Everything about pending connections is unchanged. *)
Definition same_pending (s s' : Server) : Prop :=
  pending_connections_ s' = pending_connections_ s /\
  pending_connections_by_session_ s' = pending_connections_by_session_ s /\
  pending_connection_positions_ s' = pending_connection_positions_ s.

Lemma same_pending_inv s s' : same_pending s s' -> pending_inv s -> pending_inv s'.
Proof. intros (E1 & E2 & E3) []. split; rewrite ?E1, ?E2, ?E3; eauto. Qed.

Lemma same_pending_trans s1 s2 s3 : same_pending s1 s2 -> same_pending s2 s3 -> same_pending s1 s3.
Proof. unfold same_pending. intros (-> & -> & ->) (-> & -> & ->). done. Qed.

Abbreviation without id q := (List.filter (fun i : nat => negb (bool_decide (i = id))) q).

Lemma NoDup_filter_negb (f : nat -> bool) (q : list nat) : NoDup q -> NoDup (List.filter f q).
Proof.
  induction 1 as [|x q Hx Hq IH]; simpl; [constructor|]. destruct (f x); [|done].
  constructor; [|done]. rewrite list_elem_of_In, filter_In, <- list_elem_of_In. naive_solver.
Qed.

Lemma elem_of_without i id (q : list nat) : i ∈ without id q <-> i ∈ q /\ i <> id.
Proof.
  rewrite list_elem_of_In, filter_In, negb_true_iff, bool_decide_eq_false, <- list_elem_of_In. done.
Qed.

Lemma without_fresh i (q : list nat) : (i ∉ q) -> without i q = q.
Proof.
  induction q as [|x q IH]; simpl; [done|]. rewrite not_elem_of_cons. intros [Hne Hq].
  rewrite bool_decide_false by done. simpl. by rewrite IH.
Qed.

Lemma finished_exact id p s :
  pending_inv s -> pending_connections_ s !! id = Some p ->
  let s' := pending_connection_finished id p s in
  pending_inv s' /\ pending_connections_ s' = delete id (pending_connections_ s) /\
  (exists q, pending_connections_by_session_ s !! session_key p = Some q /\ id ∈ q /\
     pending_connections_by_session_ s' =
       if bool_decide (without id q = []) then delete (session_key p) (pending_connections_by_session_ s)
       else <[session_key p := without id q]> (pending_connections_by_session_ s)) /\
  session_registry_ s' = session_registry_ s /\ worker_pool_ s' = worker_pool_ s /\
  tunnel_registry_ s' = tunnel_registry_ s /\ running_ s' = running_ s.
Proof.
  intros [Hq Hp Hd] Hid s'. destruct (Hp _ _ Hid) as (q & Eq & Hin).
  assert (Hpos : id ∈ pending_connection_positions_ s) by (rewrite Hd; by eapply elem_of_dom_2).
  assert (Es : s' = refresh_resource_gauges (upd_pending (delete id (pending_connections_ s))
    (if bool_decide (without id q = []) then delete (session_key p) (pending_connections_by_session_ s)
     else <[session_key p := without id q]> (pending_connections_by_session_ s))
    (pending_connection_positions_ s ∖ {[id]}) s)).
  { subst s'. unfold pending_connection_finished. rewrite Eq, bool_decide_true by done. done. }
  clearbody s'. subst s'. split_and!; try done; [|by exists q].
  destruct (Hq _ _ Eq) as (_ & Hnd & Hel). split; cbn.
  - intros key q' Ek. assert (Hcase : key = session_key p /\ q' = without id q /\ without id q <> [] \/
      key <> session_key p /\ pending_connections_by_session_ s !! key = Some q').
    { destruct (decide (key = session_key p)) as [->|Hne].
      - left. case_bool_decide as Hn; [by rewrite lookup_delete_eq in Ek|].
        rewrite lookup_insert_eq in Ek. by simplify_eq.
      - right. case_bool_decide; rewrite ?lookup_delete_ne, ?lookup_insert_ne in Ek by done; done. }
    destruct Hcase as [(-> & -> & Hne)|[Hne El]].
    + split_and!; [done|by apply NoDup_filter_negb|]. intros i [Hi Hne']%elem_of_without.
      destruct (Hel _ Hi) as (p' & Ep' & Ek'). exists p'. by rewrite lookup_delete_ne.
    + destruct (Hq _ _ El) as (Hn1 & Hn2 & Hel'). split_and!; [done|done|]. intros i Hi.
      destruct (Hel' _ Hi) as (p' & Ep' & Ek'). exists p'. split; [|done].
      rewrite lookup_delete_ne; [done|]. intros ->. simplify_eq.
  - intros i p' [Hne Ei]%lookup_delete_Some. destruct (Hp _ _ Ei) as (q' & Eq' & Hi).
    destruct (decide (session_key p' = session_key p)) as [E|E].
    + rewrite E in *. assert (q' = q) as -> by congruence.
      assert (Hw : i ∈ without id q) by (by apply elem_of_without). exists (without id q). split; [|done]. rewrite bool_decide_false; [by rewrite lookup_insert_eq|].
      intros E'. rewrite E' in Hw. by apply elem_of_nil in Hw.
    + exists q'. split; [|done]. case_bool_decide; by rewrite ?lookup_delete_ne, ?lookup_insert_ne by done.
  - rewrite Hd, dom_delete_L. done.
Qed.

(** The components a step may leave alone. *)
Definition same_core (s s' : Server) : Prop :=
  session_registry_ s' = session_registry_ s /\ worker_pool_ s' = worker_pool_ s /\
  tunnel_registry_ s' = tunnel_registry_ s /\ running_ s' = running_ s.

Lemma same_core_refl s : same_core s s.
Proof. done. Qed.
Lemma same_core_trans s1 s2 s3 : same_core s1 s2 -> same_core s2 s3 -> same_core s1 s3.
Proof. unfold same_core. intros (-> & -> & -> & ->) (-> & -> & -> & ->). done. Qed.
Lemma same_pending_refl s : same_pending s s.
Proof. done. Qed.

(** A worker of the pool is handed to a connection of its own, current session. *)
Definition good_assignment (s : Server) (h : Z) (b : TunnelBinding) : Prop :=
  running_ s = true /\
  is_current (bind_client_id b) (bind_session_generation b) (session_registry_ s) = true /\
  exists k e, entries_ (worker_pool_ s) !! k = Some e /\ assignment_handler e = Some h /\
    reg_client_id (registration e) = bind_client_id b /\
    reg_session_generation (registration e) = bind_session_generation b.

Definition assigns_well (s : Server) (effects : list Effect) : Prop :=
  forall h b, PoolEffect (Assigned h b) ∈ effects -> good_assignment s h b.

Lemma assigns_well_app s l1 l2 : assigns_well s l1 -> assigns_well s l2 -> assigns_well s (l1 ++ l2).
Proof. intros H1 H2 h b [Hi|Hi]%elem_of_app; [by apply H1|by apply H2]. Qed.

Lemma assigns_well_core s s' l : same_core s s' -> assigns_well s' l -> assigns_well s l.
Proof.
  intros (E1 & E2 & E3 & E4) Hl h b Hi. destruct (Hl h b Hi) as (Hr & Hc & Hw).
  unfold good_assignment. rewrite <- E1, <- E2, <- E4. done.
Qed.

Lemma assigns_well_none s l :
  Forall (fun e => match e with PoolEffect (Assigned _ _) => False | _ => True end) l -> assigns_well s l.
Proof. intros Hl h b Hi. rewrite Forall_forall in Hl. by apply Hl in Hi. Qed.

Lemma no_assignment_pool calls :
  omap assignment_of calls = [] ->
  Forall (fun e => match e with PoolEffect (Assigned _ _) => False | _ => True end) (pool_effects calls).
Proof.
  induction calls as [|c calls IH]; [constructor|]. csimpl. intros Hc.
  destruct c; simpl in Hc; try done; constructor; try done; by apply IH.
Qed.

Lemma no_assignment_listener events :
  Forall (fun e => match e with PoolEffect (Assigned _ _) => False | _ => True end) (listener_effects events).
Proof. induction events; by constructor. Qed.

Lemma pending_stop_exact id p s effects s' :
  pending_inv s -> pending_connections_ s !! id = Some p -> pending_stop id p s = (effects, s') ->
  pending_inv s' /\ same_core s s' /\ effects = [ClosePublicSocket id] /\
  pending_connections_ s' = delete id (pending_connections_ s) /\
  (exists q, pending_connections_by_session_ s !! session_key p = Some q /\ id ∈ q /\
     pending_connections_by_session_ s' =
       if bool_decide (without id q = []) then delete (session_key p) (pending_connections_by_session_ s)
       else <[session_key p := without id q]> (pending_connections_by_session_ s)).
Proof.
  intros Hinv Hid [= <- <-]. destruct (finished_exact id p s Hinv Hid) as (Hi & Hp & Hq & Hc).
  split_and!; try done. revert Hi. by apply same_pending_inv.
Qed.

Lemma try_assign_exact walk throws id s r effects s' :
  pending_inv s -> try_assign walk throws id s = (r, effects, s') ->
  pending_inv s' /\ assigns_well s effects /\
  session_registry_ s' = session_registry_ s /\ tunnel_registry_ s' = tunnel_registry_ s /\
  (r = false -> same_core s s').
Proof.
  intros Hinv. unfold try_assign.
  destruct (pending_connections_ s !! id) as [p|] eqn:Eid; [|intros [= <- <- <-]; split_and!; try done; by intros ?? ?%elem_of_nil].
  case_match eqn:Eg.
  - destruct (pending_stop id p s) as [eff s1] eqn:Es. intros [= <- <- <-].
    destruct (pending_stop_exact _ _ _ _ _ Hinv Eid Es) as (Hi & Hc & -> & _).
    split_and!; try done; try apply Hc. apply assigns_well_none. by repeat constructor.
  - apply orb_false_iff in Eg. rewrite !negb_false_iff in Eg. destruct Eg as [Hrun Hcur].
    pose proof (assign_spec throws _ (binding_ p) (worker_pool_ s)
      (worker_order_ok walk (entries_ (worker_pool_ s)))) as Ha.
    destruct (assign throws _ (binding_ p) (worker_pool_ s)) as [[r' calls] wp] eqn:Ea.
    destruct Ha as [(-> & -> & -> & _)|(k & e & -> & Hk & Hp & -> & _ & Hma)]; cbn [negb].
    + intros [= <- <- <-]. split_and!; try done; [by revert Hinv; apply same_pending_inv|].
      by intros ?? ?%elem_of_nil.
    + intros [= <- <- <-].
      match goal with |- pending_inv (pending_connection_finished id p ?s1) /\ _ =>
        destruct (finished_exact id p s1) as (Hi & _ & _ & E1 & _ & E3 & _);
          [by revert Hinv; apply same_pending_inv|done|] end.
      split_and!; try done. intros h b Hin. apply list_elem_of_fmap in Hin.
      destruct Hin as (c & Ec & Hin). injection Ec as <-.
      assert (Hh : (h, b) ∈ omap assignment_of calls) by (apply list_elem_of_omap; by eexists).
      rewrite Hma in Hh. destruct (assignment_handler e) as [h'|] eqn:Eh; [|by apply elem_of_nil in Hh].
      apply list_elem_of_singleton in Hh. simplify_eq. unfold of_session in Hp.
      apply andb_true_iff in Hp. destruct Hp as [H1%bool_decide_eq_true H2%Z.eqb_eq].
      split_and!; try done. by exists k, e.
Qed.

(** Asking for workers touches neither the queues nor the pools. *)
Lemma reserve_frame walk now c g n s r s' :
  reserve_worker_request_on_control_strand walk now c g n s = (r, s') ->
  same_pending s s' /\ same_core s s'.
Proof.
  unfold reserve_worker_request_on_control_strand.
  repeat (case_match; try (intros [= <- <-]; done)).
Qed.

Lemma maybe_request_frame walk now c g s effects s' :
  maybe_request_workers_for_pending walk now c g s = (effects, s') ->
  same_pending s s' /\ same_core s s' /\ assigns_well s effects.
Proof.
  unfold maybe_request_workers_for_pending.
  destruct (pending_connections_by_session_ s !! pending_session_key c g) as [[|i q]|].
  1, 3: intros [= <- <-]; split_and!; try done; by intros ?? ?%elem_of_nil.
  destruct (reserve_worker_request_on_control_strand walk now c g _ s) as [r s1] eqn:Er.
  destruct (reserve_frame _ _ _ _ _ _ _ _ Er) as [H1 H2].
  repeat case_match; intros [= <- <-]; (split; [exact H1|split; [exact H2|]]);
    apply assigns_well_none; by repeat constructor.
Qed.

Lemma maybe_request_quiet walk now c g s effects s' h b :
  maybe_request_workers_for_pending walk now c g s = (effects, s') -> (PoolEffect (Assigned h b) ∉ effects).
Proof.
  unfold maybe_request_workers_for_pending.
  repeat case_match; intros [= <- <-]; rewrite ?not_elem_of_cons; try (split; [done|]); apply not_elem_of_nil.
Qed.

Lemma notify_loop_exact fuel walk throws key s effects s' :
  pending_inv s -> notify_loop fuel walk throws key s = (effects, s') ->
  pending_inv s' /\ assigns_well s effects /\
  session_registry_ s' = session_registry_ s /\ tunnel_registry_ s' = tunnel_registry_ s.
Proof.
  revert s effects s'. induction fuel as [|fuel IH]; intros s effects s' Hinv; cbn [notify_loop].
  { intros [= <- <-]. split_and!; try done. by intros ?? ?%elem_of_nil. }
  destruct (pending_connections_by_session_ s !! key) as [[|i rest]|] eqn:Ek.
  1, 3: intros [= <- <-]; split_and!; try done; by intros ?? ?%elem_of_nil.
  destruct (pinv_queue _ Hinv _ _ Ek) as (_ & _ & Hel).
  destruct (Hel i) as (p & Ep & _); [by left|]. rewrite Ep.
  destruct (try_assign walk throws i s) as [[r eff] s1] eqn:Et.
  destruct (try_assign_exact _ _ _ _ _ _ _ Hinv Et) as (Hi & Ha & E1 & E2 & Hc).
  destruct r; [by intros [= <- <-]|]. specialize (Hc eq_refl).
  case_bool_decide; [by intros [= <- <-]|].
  destruct (notify_loop fuel walk throws key s1) as [more s2] eqn:En. intros [= <- <-].
  destruct (IH _ _ _ Hi En) as (Hi2 & Ha2 & E3 & E4). split_and!; [done| |congruence|congruence].
  apply assigns_well_app; [done|by eapply assigns_well_core].
Qed.

(** Stopping the first connection of a queue leaves the others in it. *)
Lemma stop_front_queue key i rest p s effects s' :
  pending_inv s -> pending_connections_by_session_ s !! key = Some (i :: rest) ->
  pending_connections_ s !! i = Some p -> pending_stop i p s = (effects, s') ->
  queue_length key s' = length rest.
Proof.
  intros Hinv Ek Ep Es. destruct (pinv_queue _ Hinv _ _ Ek) as (_ & Hnd & Hel).
  destruct (Hel i) as (p' & Ep' & Ekey); [by left|]. assert (p' = p) as -> by congruence.
  destruct (pending_stop_exact _ _ _ _ _ Hinv Ep Es) as (_ & _ & _ & _ & q & Eq & _ & Hqs).
  rewrite Ekey in *. assert (q = i :: rest) as -> by congruence. apply NoDup_cons in Hnd.
  assert (Hw : without i (i :: rest) = rest).
  { simpl. rewrite bool_decide_true by done. simpl. apply without_fresh, Hnd. }
  unfold queue_length. rewrite Hqs, Hw. destruct rest as [|j rest].
  - by rewrite bool_decide_true, lookup_delete_eq.
  - by rewrite bool_decide_false, lookup_insert_eq.
Qed.

(** One round of the loop, with the rest of the loop as an argument. *)
Definition notify_round (loop : Server -> list Effect * Server) (walk : Walk) (throws : Z -> bool)
    (key : bytes) (s : Server) : list Effect * Server :=
  match pending_connections_by_session_ s !! key with
  | Some (candidate :: rest) =>
      match pending_connections_ s !! candidate with
      | None =>
          loop (upd_pending (pending_connections_ s)
                  (if bool_decide (rest = []) then delete key (pending_connections_by_session_ s)
                   else <[key := rest]> (pending_connections_by_session_ s))
                  (pending_connection_positions_ s ∖ {[candidate]}) s)
      | Some _ =>
          let '(assigned, effects, s) := try_assign walk throws candidate s in
          if assigned : bool then (effects, s)
          else if bool_decide (is_Some (pending_connections_ s !! candidate)) then (effects, s)
          else let (more, s) := loop s in (effects ++ more, s)
      end
  | _ => ([], s)
  end.

(** The loop of [notify_worker_available] has enough fuel. *)
Lemma notify_loop_fuel fuel walk throws key s :
  pending_inv s -> (queue_length key s < fuel)%nat ->
  notify_loop (S fuel) walk throws key s = notify_loop fuel walk throws key s.
Proof.
  revert s. induction fuel as [|fuel IH]; intros s Hinv Hf; [lia|].
  change (notify_round (notify_loop (S fuel) walk throws key) walk throws key s =
    notify_round (notify_loop fuel walk throws key) walk throws key s).
  unfold notify_round. destruct (pending_connections_by_session_ s !! key) as [[|i rest]|] eqn:Ek; try done.
  destruct (pinv_queue _ Hinv _ _ Ek) as (_ & _ & Hel).
  destruct (Hel i) as (p & Ep & _); [by left|]. rewrite Ep.
  destruct (try_assign walk throws i s) as [[r eff] s1] eqn:Et.
  destruct (try_assign_exact _ _ _ _ _ _ _ Hinv Et) as (Hi & _). destruct r; [done|].
  case_bool_decide as Hs; [done|].
  enough (El : (queue_length key s1 < fuel)%nat) by (by rewrite (IH s1 Hi El)).
  unfold try_assign in Et. rewrite Ep in Et. case_match.
  - destruct (pending_stop i p s) as [eff' s1'] eqn:Es. simplify_eq.
    rewrite (stop_front_queue _ _ _ _ _ _ _ Hinv Ek Ep Es). unfold queue_length in Hf. rewrite Ek in Hf.
    simpl in Hf. lia.
  - destruct (assign throws _ (binding_ p) (worker_pool_ s)) as [[[] calls] wp]; cbn [negb] in Et; simplify_eq.
    exfalso. apply Hs. by exists p.
Qed.

(** Cancelling a session's connections closes all of them and no others. *)
Lemma cancel_loop_exact fuel key s effects s' :
  pending_inv s -> (queue_length key s < fuel)%nat -> cancel_loop fuel key s = (effects, s') ->
  pending_inv s' /\ same_core s s' /\ assigns_well s effects /\
  pending_connections_by_session_ s' !! key = None /\
  (forall id p, pending_connections_ s' !! id = Some p <->
     pending_connections_ s !! id = Some p /\ session_key p <> key).
Proof.
  revert s effects s'. induction fuel as [|fuel IH]; intros s effects s' Hinv Hf; cbn [cancel_loop]; [lia|].
  destruct (pending_connections_by_session_ s !! key) as [[|i rest]|] eqn:Ek.
  - by destruct (pinv_queue _ Hinv _ _ Ek).
  - destruct (pinv_queue _ Hinv _ _ Ek) as (_ & Hnd & Hel).
    destruct (Hel i) as (p & Ep & Ekey); [by left|]. rewrite Ep.
    destruct (pending_stop i p s) as [eff s1] eqn:Es.
    destruct (pending_stop_exact _ _ _ _ _ Hinv Ep Es) as (Hi & Hc & -> & Hpend & q & Eq & Hin & Hqs).
    rewrite Ekey in *. assert (q = i :: rest) as -> by congruence.
    destruct (cancel_loop fuel key s1) as [more s2] eqn:Ec. intros [= <- <-].
    destruct (IH s1 more s2 Hi) as (Hi2 & Hc2 & Ha2 & Hk2 & Hp2); [|done|].
    { rewrite (stop_front_queue _ _ _ _ _ _ _ Hinv Ek Ep Es). unfold queue_length in Hf. rewrite Ek in Hf.
      simpl in Hf. lia. }
    split_and!; [done|by eapply same_core_trans| |done|].
    + apply (assigns_well_app s [_]); [|by eapply assigns_well_core].
      apply assigns_well_none. by repeat constructor.
    + intros id p'. rewrite Hp2, Hpend, lookup_delete_Some. split; [naive_solver|].
      intros [H1 H2]. split_and!; [|done|done]. intros ->. congruence.
  - intros [= <- <-]. split_and!; try done; [by intros ?? ?%elem_of_nil|].
    intros id p. split; [|naive_solver]. intros Hid. split; [done|]. intros E.
    destruct (pinv_pending _ Hinv _ _ Hid) as (q & Eq & _). congruence.
Qed.

Lemma add_pending_inv s id p :
  pending_inv s -> pending_connections_ s !! id = None ->
  let queue := match pending_connections_by_session_ s !! session_key p with Some q => q | None => [] end in
  pending_inv (upd_pending (<[id := p]> (pending_connections_ s))
    (<[session_key p := queue ++ [id]]> (pending_connections_by_session_ s))
    (pending_connection_positions_ s ∪ {[id]}) s).
Proof.
  intros [Hq Hp Hd] Hid queue.
  assert (Hqueue : NoDup queue /\ (forall i, i ∈ queue -> exists p', pending_connections_ s !! i = Some p' /\
    session_key p' = session_key p)).
  { subst queue. destruct (pending_connections_by_session_ s !! session_key p) as [q|] eqn:Eq.
    - by destruct (Hq _ _ Eq) as (_ & ? & ?).
    - split; [constructor|]. by intros ? ?%elem_of_nil. }
  destruct Hqueue as [Hnd Hel]. split; cbn.
  - intros key q. rewrite lookup_insert_Some. intros [[<- <-]|[Hne Ek]].
    + split_and!; [by destruct queue| |].
      * apply NoDup_app. split_and!; [done| |by apply NoDup_singleton].
        intros i Hi ->%list_elem_of_singleton. destruct (Hel _ Hi) as (? & ? & _). congruence.
      * intros i [Hi| ->%list_elem_of_singleton]%elem_of_app; [|exists p; by rewrite lookup_insert_eq].
        destruct (Hel _ Hi) as (p' & Ep' & Ek'). exists p'. split; [|done].
        rewrite lookup_insert_ne; [done|]. intros ->. congruence.
    + destruct (Hq _ _ Ek) as (H1 & H2 & H3). split_and!; [done|done|]. intros i Hi.
      destruct (H3 _ Hi) as (p' & Ep' & Ek'). exists p'. split; [|done].
      rewrite lookup_insert_ne; [done|]. intros ->. congruence.
  - intros i p'. rewrite lookup_insert_Some. intros [[<- <-]|[Hne Ei]].
    + exists (queue ++ [id]). rewrite lookup_insert_eq. split; [done|]. set_solver.
    + destruct (Hp _ _ Ei) as (q & Eq & Hi). destruct (decide (session_key p = session_key p')) as [E|E].
      * exists (queue ++ [id]). rewrite E, lookup_insert_eq. split; [done|]. subst queue.
        rewrite E, Eq. set_solver.
      * exists q. by rewrite lookup_insert_ne.
  - rewrite dom_insert_L, Hd. set_solver.
Qed.

(** ** Lemmas: every step keeps the queues in order and assigns well *)

Lemma no_calls_removal calls out :
  omap removal_of calls = omap removal_handler out /\ omap assignment_of calls = [] ->
  Forall (fun e => match e with PoolEffect (Assigned _ _) => False | _ => True end) (pool_effects calls).
Proof. intros [_ Hc]. by apply no_assignment_pool. Qed.

Lemma pool_remove_client_quiet walk c wp calls wp' :
  ServerWorkerPool.remove_client (worker_order walk (entries_ wp)) c wp = (calls, wp') ->
  Forall (fun e => match e with PoolEffect (Assigned _ _) => False | _ => True end) (pool_effects calls).
Proof.
  intros E. destruct (erase_matching_out _ _ _ _ _ _ _ (worker_order_ok walk _) E) as (out & _ & Hc).
  by eapply no_calls_removal.
Qed.

Lemma pool_remove_session_quiet walk c g wp calls wp' :
  ServerWorkerPool.remove_session (worker_order walk (entries_ wp)) c g wp = (calls, wp') ->
  Forall (fun e => match e with PoolEffect (Assigned _ _) => False | _ => True end) (pool_effects calls).
Proof.
  intros E. destruct (erase_matching_out _ _ _ _ _ _ _ (worker_order_ok walk _) E) as (out & _ & Hc).
  by eapply no_calls_removal.
Qed.

Lemma pool_remove_quiet k wp calls wp' :
  remove k wp = (calls, wp') ->
  Forall (fun e => match e with PoolEffect (Assigned _ _) => False | _ => True end) (pool_effects calls).
Proof. intros E. destruct (remove_out _ _ _ _ E) as (out & _ & Hc). by eapply no_calls_removal. Qed.

Lemma open_quiet walk draws policy s r effects s' :
  open_client_session walk draws policy s = (r, effects, s') ->
  same_pending s s' /\ assigns_well s effects.
Proof.
  unfold open_client_session. destruct (current_policy policy s);
    [|intros [= <- <- <-]; split; [done|]; by intros ?? ?%elem_of_nil].
  destruct (session_open draws (pol_client_id policy) (session_registry_ s)) as [[g|e] sr].
  - destruct (ServerWorkerPool.remove_client _ _ _) as [calls wp] eqn:E1.
    destruct (TunnelRegistry.remove_client _ _ _) as [events tr] eqn:E2. intros [= <- <- <-].
    split; [done|]. apply assigns_well_app; apply assigns_well_none.
    + by eapply pool_remove_client_quiet.
    + apply no_assignment_listener.
  - intros [= <- <- <-]. split; [by case_bool_decide|]. by intros ?? ?%elem_of_nil.
Qed.

Lemma register_worker_quiet policy reg a d s r effects s' :
  register_worker policy reg a d s = (r, effects, s') -> same_pending s s' /\ effects = [].
Proof.
  unfold register_worker. destruct (current_policy policy s); [|by intros [= <- <- <-]].
  destruct (add _ a d (worker_pool_ s)) as [[u|e] wp]; intros [= <- <- <-]; [done|].
  by case_bool_decide.
Qed.

Lemma register_tunnel_quiet os policy b s r effects s' :
  register_tunnel os policy b s = (r, effects, s') -> same_pending s s' /\ assigns_well s effects.
Proof.
  unfold register_tunnel. destruct (current_policy policy s) as [cur|];
    [|intros [= <- <- <-]; split; [done|]; by intros ?? ?%elem_of_nil].
  case_match; [intros [= <- <- <-]; split; [done|]; by intros ?? ?%elem_of_nil|].
  destruct (TunnelRegistry.register_tunnel os b (max_tunnels cur) (tunnel_registry_ s)) as [[res events] tr].
  intros [= <- <- <-]. split; [|apply assigns_well_none, no_assignment_listener].
  destruct res; [done|]. by case_bool_decide.
Qed.

Lemma cancel_loop_quiet fuel key s effects s' h b :
  cancel_loop fuel key s = (effects, s') -> (PoolEffect (Assigned h b) ∉ effects).
Proof.
  revert s effects s'. induction fuel as [|fuel IH]; intros s effects s'; cbn [cancel_loop].
  { intros [= <- <-]. apply not_elem_of_nil. }
  destruct (pending_connections_by_session_ s !! key) as [[|i rest]|];
    [intros [= <- <-]; apply not_elem_of_nil| |intros [= <- <-]; apply not_elem_of_nil].
  destruct (pending_connections_ s !! i) as [p|]; [|apply IH].
  destruct (pending_stop i p s) as [eff s1] eqn:Es. unfold pending_stop in Es. injection Es as <- _.
  destruct (cancel_loop fuel key s1) as [more s2] eqn:Ec. intros [= <- <-].
  apply not_elem_of_cons. split; [done|]. by eapply IH.
Qed.

Lemma end_control_session_exact walk c s effects s' :
  pending_inv s -> end_control_session walk c s = (effects, s') ->
  pending_inv s' /\ assigns_well s effects /\
  is_current (cs_client_id c) (cs_generation c) (session_registry_ s') = false /\
  idle_count (cs_client_id c) (cs_generation c) (worker_pool_ s') = 0 /\
  (forall k b, listeners_ (tunnel_registry_ s') !! k = Some b <->
     listeners_ (tunnel_registry_ s) !! k = Some b /\
     ~ (bind_client_id b = cs_client_id c /\ bind_session_generation b = cs_generation c)) /\
  (forall id p, pending_connections_ s' !! id = Some p <->
     pending_connections_ s !! id = Some p /\
     session_key p <> pending_session_key (cs_client_id c) (cs_generation c)).
Proof.
  intros Hinv. unfold end_control_session.
  destruct (ServerWorkerPool.remove_session _ _ _ _) as [calls wp] eqn:E1.
  destruct (TunnelRegistry.remove_session _ _ _ _) as [events tr] eqn:E2.
  destruct (cancel_pending_for_session _ _ _) as [cancelled s1] eqn:E3. intros [= <- <-].
  unfold cancel_pending_for_session in E3.
  destruct (cancel_loop_exact _ _ _ _ _ (same_pending_inv s (with_tunnels tr (with_workers wp s)) ltac:(done) Hinv)
    (Nat.lt_succ_diag_r _) E3) as (Hi & (C1 & C2 & C3 & C4) & Ha & _ & Hp).
  split_and!.
  - revert Hi. by apply same_pending_inv.
  - apply assigns_well_app; [by apply assigns_well_none; eapply pool_remove_session_quiet|].
    apply assigns_well_app; [apply assigns_well_none, no_assignment_listener|].
    intros h b Hin. exfalso. revert Hin. by apply cancel_loop_quiet with (1 := E3).
  - cbn. unfold is_current, session_close.
    destruct (generations_ (session_registry_ s1) !! cs_client_id c) as [g|] eqn:Eg; [|by rewrite Eg].
    destruct (Z.eqb_spec g (cs_generation c)); cbn; [by rewrite lookup_delete_eq|].
    rewrite Eg. by apply Z.eqb_neq.
  - cbn. rewrite C2. cbn. eapply remove_session_idle; [|exact E1]. apply worker_order_ok.
  - cbn. rewrite C3. cbn. cbn in E2. eapply remove_session_lookup; [|exact E2]. apply listener_order_ok.
  - intros id p. apply Hp.
Qed.

Lemma end_control_session_quiet walk c s effects s' h b :
  end_control_session walk c s = (effects, s') -> PoolEffect (Assigned h b) ∈ effects -> False.
Proof.
  unfold end_control_session.
  destruct (ServerWorkerPool.remove_session _ _ _ _) as [calls wp] eqn:E1.
  destruct (TunnelRegistry.remove_session _ _ _ _) as [events tr] eqn:E2.
  destruct (cancel_pending_for_session _ _ _) as [cancelled s1] eqn:E3. intros [= <- <-].
  rewrite !elem_of_app. intros [Hi|[Hi|Hi]].
  - apply pool_remove_session_quiet in E1. rewrite Forall_forall in E1. by apply E1 in Hi.
  - pose proof (no_assignment_listener events) as Hl. rewrite Forall_forall in Hl. by apply Hl in Hi.
  - revert Hi. by eapply cancel_loop_quiet.
Qed.

Lemma clear_worker_registered_frame id s :
  same_pending s (clear_worker_registered id s) /\ same_core s (clear_worker_registered id s).
Proof. unfold clear_worker_registered. by case_match. Qed.

Lemma release_admission_frame id c s :
  same_pending s (release_admission_on_control_strand id c s) /\
  same_core s (release_admission_on_control_strand id c s).
Proof. unfold release_admission_on_control_strand. by case_match. Qed.

(** The part of the clean-up before the session's own resources. *)
Definition cleanup_worker (id : nat) (c : ControlSession) (s : Server) : list Effect * Server :=
  if worker_registered_ c then
    let (calls, wp) := remove (cs_worker_id c) (worker_pool_ s) in
    (pool_effects calls, clear_worker_registered id (with_workers wp s))
  else ([], s).

Lemma cleanup_worker_frame id c s effects s' :
  cleanup_worker id c s = (effects, s') ->
  same_pending s s' /\ assigns_well s effects /\ tunnel_registry_ s' = tunnel_registry_ s.
Proof.
  unfold cleanup_worker. destruct (worker_registered_ c).
  - destruct (remove (cs_worker_id c) (worker_pool_ s)) as [calls wp] eqn:E. intros [= <- <-].
    destruct (clear_worker_registered_frame id (with_workers wp s)) as [H1 (_ & _ & H2 & _)].
    split_and!; [by eapply same_pending_trans|apply assigns_well_none; by eapply pool_remove_quiet|done].
  - intros [= <- <-]. split_and!; try done. by intros ?? ?%elem_of_nil.
Qed.

Definition marked (c : ControlSession) : ControlSession :=
  mkControlSession (remote_endpoint_ c) (cs_client_id c) (cs_worker_id c) (cs_generation c)
    (control_connection_ c) (worker_registered_ c) true (admission_pending_ c).

Lemma cleanup_unfold walk id c s :
  sessions_ s !! id = Some c -> cleanup_complete_ c = false ->
  exists s0, same_pending s s0 /\ same_core s s0 /\
  cleanup_on_control_strand walk id s =
    let (calls, s1) := cleanup_worker id (marked c) s0 in
    let (effects, s2) :=
      if control_connection_ c && negb (cs_generation c =? 0) && negb (bool_decide (cs_client_id c = []))
      then end_control_session walk (marked c) s1 else ([], s1) in
    (calls ++ effects, drop_active_connection (refresh_resource_gauges s2)).
Proof.
  intros Hc Hd. unfold cleanup_on_control_strand. rewrite Hc, Hd. fold (marked c).
  set (sa := with_control (tls_admission_ s) (<[id := marked c]> (sessions_ s)) s).
  exists (release_admission_on_control_strand id (marked c) sa).
  destruct (release_admission_frame id (marked c) sa) as [H1 H2]. split_and!; [done|done|]. done.
Qed.

Lemma cleanup_exact walk id s effects s' :
  pending_inv s -> cleanup_on_control_strand walk id s = (effects, s') ->
  pending_inv s' /\ assigns_well s effects.
Proof.
  intros Hinv. destruct (sessions_ s !! id) as [c|] eqn:Ec.
  2: { unfold cleanup_on_control_strand. rewrite Ec. intros [= <- <-]. split; [done|]. by intros ?? ?%elem_of_nil. }
  destruct (cleanup_complete_ c) eqn:Ed.
  { unfold cleanup_on_control_strand. rewrite Ec, Ed. intros [= <- <-]. split; [done|]. by intros ?? ?%elem_of_nil. }
  destruct (cleanup_unfold walk id c s Ec Ed) as (s0 & Hp & Hc & ->).
  destruct (cleanup_worker id (marked c) s0) as [calls s1] eqn:E1.
  destruct (cleanup_worker_frame _ _ _ _ _ E1) as (Hp1 & Ha1 & _).
  assert (Hi1 : pending_inv s1) by (eapply same_pending_inv; [|exact Hinv]; by eapply same_pending_trans).
  destruct (control_connection_ c && negb (cs_generation c =? 0) && negb (bool_decide (cs_client_id c = []))).
  - destruct (end_control_session walk (marked c) s1) as [eff s2] eqn:E2. intros [= <- <-].
    destruct (end_control_session_exact _ _ _ _ _ Hi1 E2) as (Hi2 & _). split.
    + revert Hi2. by apply same_pending_inv.
    + apply assigns_well_app; [by eapply assigns_well_core|]. intros h b Hin. exfalso.
      by eapply end_control_session_quiet.
  - intros [= <- <-]. split; [revert Hi1; by apply same_pending_inv|].
    rewrite app_nil_r. by eapply assigns_well_core.
Qed.

Lemma public_connection_exact walk throws now id admitted b s effects s' :
  pending_inv s -> pending_connections_ s !! id = None ->
  handle_public_connection walk throws now id admitted b s = (effects, s') ->
  pending_inv s' /\ assigns_well s effects.
Proof.
  intros Hinv Hid. unfold handle_public_connection.
  assert (Hclose : assigns_well s [ClosePublicSocket id]) by (apply assigns_well_none; by repeat constructor).
  case_match; [by intros [= <- <-]|]. destruct (snapshot_find _ _) as [policy|]; [|by intros [= <- <-]].
  case_match; [by intros [= <- <-]|].
  case_match; [intros [= <- <-]; split; [revert Hinv; by apply same_pending_inv|done]|].
  destruct (try_acquire _ _ _) as [[lease|e] quota];
    [|intros [= <- <-]; split; [revert Hinv; by apply same_pending_inv|done]].
  set (p := mkPending b lease).
  set (queue := match pending_connections_by_session_ (with_quota quota s) !! session_key p with
    | Some q => q | None => [] end).
  match goal with |- context [try_assign walk throws id ?x] => set (s1 := x) end.
  assert (Hi1 : pending_inv s1).
  { eapply same_pending_inv; [|apply (add_pending_inv (with_quota quota s) id p); [|done]]; [done|].
    revert Hinv. by apply same_pending_inv. }
  assert (Hstart : forall r eff s2,
    (if bool_decide (queue = []) then try_assign walk throws id s1 else (false, [], s1)) = (r, eff, s2) ->
    pending_inv s2 /\ assigns_well s eff).
  { intros r eff s2. case_bool_decide.
    - intros E. destruct (try_assign_exact _ _ _ _ _ _ _ Hi1 E) as (Hi2 & Ha & _). split; [done|].
      revert Ha. by apply assigns_well_core.
    - intros [= <- <- <-]. split; [done|]. by intros ?? ?%elem_of_nil. }
  destruct (if bool_decide (queue = []) then _ else _) as [[r eff] s2] eqn:E2.
  destruct (Hstart _ _ _ eq_refl) as [Hi2 Ha2].
  destruct (maybe_request_workers_for_pending _ _ _ _ s2) as [more s3] eqn:E3. intros [= <- <-].
  destruct (maybe_request_frame _ _ _ _ _ _ _ E3) as (Hp3 & _ & _).
  split; [by eapply same_pending_inv|]. apply assigns_well_app; [done|].
  intros h b' Hin. exfalso. by eapply maybe_request_quiet.
Qed.

(** The connections [m] are still to be stopped, and are not in the table any more. *)
Definition moved_out (m : gmap nat PendingPublicConnection) (s : Server) : Prop :=
  pending_connections_ s = ∅ /\
  pending_inv (upd_pending m (pending_connections_by_session_ s) (pending_connection_positions_ s) s).

Lemma pending_stop_moved id p m s effects s' :
  moved_out m s -> m !! id = Some p -> pending_stop id p s = (effects, s') ->
  moved_out (delete id m) s' /\ same_core s s' /\ shutting_down_ s' = shutting_down_ s /\
  effects = [ClosePublicSocket id].
Proof.
  intros [He Hinv] Hid [= <- <-].
  destruct (finished_exact id p _ Hinv Hid) as (Hi & Hp & _). unfold pending_connection_finished in *.
  cbn in Hi, Hp |- *. destruct (pending_connections_by_session_ s !! session_key p) as [group|];
    [destruct (bool_decide (id ∈ pending_connection_positions_ s))|];
    (split; [split; [cbn; by rewrite He, delete_empty|revert Hi; by apply same_pending_inv]|done]).
Qed.

Lemma stop_pending_moved (l : list (nat * PendingPublicConnection)) s effects s' :
  NoDup l.*1 -> moved_out (list_to_map l) s -> stop_pending l s = (effects, s') ->
  moved_out ∅ s' /\ same_core s s' /\ shutting_down_ s' = shutting_down_ s /\
  Forall (fun e => match e with PoolEffect (Assigned _ _) => False | _ => True end) effects.
Proof.
  revert s effects. induction l as [|[id p] l IH]; intros s effects Hnd Hm; cbn [stop_pending];
    [by intros [= <- <-]|].
  destruct (pending_stop id p s) as [eff s1] eqn:E1. destruct (stop_pending l s1) as [more s2] eqn:E2.
  intros [= <- <-]. apply NoDup_cons in Hnd as [Hid Hnd].
  destruct (pending_stop_moved id p _ s eff s1 Hm) as (Hm1 & Hc1 & Hs1 & ->); [apply lookup_insert_eq|done|].
  simpl in Hm1. rewrite delete_insert_id in Hm1 by (by apply not_elem_of_list_to_map_1).
  destruct (IH s1 more Hnd Hm1 E2) as (Hm2 & Hc2 & Hs2 & Ha).
  split_and!; [done|by eapply same_core_trans|congruence|by constructor].
Qed.

(** A shutdown leaves no listener open, no worker idle and no connection waiting. *)
Lemma begin_shutdown_exact walk s effects s' :
  pending_inv s -> begin_shutdown walk s = (effects, s') ->
  pending_inv s' /\
  Forall (fun e => match e with PoolEffect (Assigned _ _) => False | _ => True end) effects /\
  shutting_down_ s' = true /\ running_ s' = running_ s /\
  (shutting_down_ s = false ->
     no_pending s' /\ listeners_ (tunnel_registry_ s') = ∅ /\ entries_ (worker_pool_ s') = ∅).
Proof.
  intros Hinv. unfold begin_shutdown. destruct (shutting_down_ s) eqn:Hsd.
  { intros [= <- <-]. by split_and!. }
  destruct (TunnelRegistry.clear _ _) as [events tr] eqn:Et.
  set (s1 := upd_pending _ _ _ _). destruct (stop_pending _ s1) as [stopped s2] eqn:Es.
  assert (pending_order walk (pending_connections_ s) ≡ₚ map_to_list (pending_connections_ s)) as Hperm
    by apply pending_order_ok.
  destruct (stop_pending_moved (pending_order walk (pending_connections_ s)) s1 stopped s2)
    as ([He2 Hi2] & (_ & _ & Ht2 & Hr2) & Hs2 & Ha2).
  { rewrite Hperm. apply NoDup_fst_map_to_list. }
  { split; [done|]. assert (list_to_map (pending_order walk (pending_connections_ s)) = pending_connections_ s) as ->.
    { rewrite <- (list_to_map_to_list (pending_connections_ s)) at 2. apply list_to_map_proper; [|done].
      rewrite Hperm. apply NoDup_fst_map_to_list. }
    revert Hinv. by apply same_pending_inv. }
  { exact Es. }
  assert (pending_inv s2) as Hi2'.
  { revert Hi2. apply same_pending_inv. by rewrite <- He2. }
  destruct (ServerWorkerPool.clear _ _) as [calls wp] eqn:Ep. intros [= <- <-].
  assert (no_pending s2) as Hn2.
  { split; [done|]. destruct Hi2' as [Hq _ Hd]. rewrite He2 in Hq, Hd. split; [|by rewrite Hd, dom_empty_L].
    apply map_empty. intros key. apply eq_None_not_Some. intros [q Eq]. destruct (Hq _ _ Eq) as (Hne & _ & Hel).
    destruct q as [|i q]; [done|]. destruct (Hel i) as (p & Ep' & _); [by left|]. by rewrite lookup_empty in Ep'. }
  assert (entries_ wp = ∅) as Ew by (unfold ServerWorkerPool.clear in Ep; by injection Ep as _ <-).
  split_and!.
  - revert Hi2'. by apply same_pending_inv.
  - rewrite !Forall_app. split; [apply no_assignment_listener|]. split; [done|].
    destruct (clear_out _ _ _ _ (worker_order_ok walk _) Ep) as (out & _ & Hc). by eapply no_calls_removal.
  - simpl. by rewrite Hs2.
  - simpl. by rewrite Hr2.
  - intros _. split_and!; try done; [apply Hn2..|]. simpl. rewrite Ht2. simpl.
    unfold TunnelRegistry.clear in Et. by injection Et as _ <-.
Qed.

Lemma strand_step_exact s effects s' :
  pending_inv s -> strand_step s effects s' -> pending_inv s' /\ assigns_well s effects.
Proof.
  intros Hinv Hs. destruct Hs as [walk draws policy s r effects s' E|policy reg a d s r effects s' E
    |id s effects s' E|os policy b s r effects s' E|c g t v s effects s' E
    |walk throws now id admitted b s effects s' Hid E|walk throws now c g s effects s' E
    |walk now c g s effects s' E|id p s effects s' Hid E|walk id s effects s' E|admission sessions s|policies s
    |listening s|s|walk s effects s' E].
  - destruct (open_quiet _ _ _ _ _ _ _ E). split; [by eapply same_pending_inv|done].
  - destruct (register_worker_quiet _ _ _ _ _ _ _ _ E) as [Hp ->].
    split; [by eapply same_pending_inv|]. by intros ?? ?%elem_of_nil.
  - unfold remove_worker in E. destruct (remove id (worker_pool_ s)) as [calls wp] eqn:E1. simplify_eq.
    split; [revert Hinv; by apply same_pending_inv|]. apply assigns_well_none. by eapply pool_remove_quiet.
  - destruct (register_tunnel_quiet _ _ _ _ _ _ _ E). split; [by eapply same_pending_inv|done].
  - unfold unregister_tunnel in E.
    destruct (TunnelRegistry.unregister_tunnel c g t v (tunnel_registry_ s)) as [events tr]. simplify_eq.
    split; [revert Hinv; by apply same_pending_inv|]. apply assigns_well_none, no_assignment_listener.
  - by eapply public_connection_exact.
  - unfold notify_worker_available in E.
    destruct (notify_loop _ walk throws _ s) as [eff s1] eqn:E1.
    destruct (maybe_request_workers_for_pending walk now c g s1) as [more s2] eqn:E2. simplify_eq.
    destruct (notify_loop_exact _ _ _ _ _ _ _ Hinv E1) as (Hi & Ha & _).
    destruct (maybe_request_frame _ _ _ _ _ _ _ E2) as (Hp & _ & _).
    split; [by eapply same_pending_inv|]. apply assigns_well_app; [done|].
    intros h b Hin. exfalso. by eapply maybe_request_quiet.
  - unfold worker_request_registered in E. destruct (maybe_request_frame _ _ _ _ _ _ _ E) as (Hp & _ & _).
    split; [|intros h b Hin; exfalso; by eapply maybe_request_quiet].
    eapply same_pending_inv; [|exact Hinv]. eapply same_pending_trans; [|exact Hp].
    repeat case_match; done.
  - destruct (pending_stop_exact _ _ _ _ _ Hinv Hid E) as (Hi & _ & -> & _). split; [done|].
    apply assigns_well_none. by repeat constructor.
  - unfold session_finished in E. destruct (sessions_ s !! id); [|simplify_eq; split; [done|by intros ?? ?%elem_of_nil]].
    destruct (cleanup_on_control_strand walk id s) as [eff s1] eqn:E1. simplify_eq.
    destruct (cleanup_exact _ _ _ _ _ Hinv E1) as [Hi Ha]. split; [|done]. revert Hi. by apply same_pending_inv.
  - split; [revert Hinv; by apply same_pending_inv|by intros ?? ?%elem_of_nil].
  - split; [revert Hinv; by apply same_pending_inv|by intros ?? ?%elem_of_nil].
  - split; [|by intros ?? ?%elem_of_nil]. unfold server_start. destruct (running_ s); [done|].
    destruct listening; revert Hinv; by apply same_pending_inv.
  - split; [revert Hinv; by apply same_pending_inv|by intros ?? ?%elem_of_nil].
  - destruct (begin_shutdown_exact walk s effects s' Hinv E) as (Hi & Ha & _).
    split; [done|by apply assigns_well_none].
Qed.

Lemma strand_reachable_inv start s : pending_inv start -> strand_reachable start s -> pending_inv s.
Proof. intros Hs. induction 1 as [|s effects s' _ IH Hstep]; [done|]. by eapply strand_step_exact. Qed.

(** A server as [Server::Impl] is constructed. *)
Definition Server_new (max_idle max_total_idle : Z) (policies : ClientPolicySnapshot)
    (admission : TlsAdmission) (max_clients max_per_client max_total_connections : Z)
    (ports : PortRange.PortRange) (max_tunnels max_total_tunnels : Z) : Server :=
  mkServer true false max_idle max_total_idle policies admission (SessionRegistry_new max_clients)
    (WorkerPool_new max_idle max_total_idle) (World_new max_per_client max_total_connections)
    (TunnelRegistry_new ports max_tunnels max_total_tunnels) ∅ ∅ ∅ ∅ ∅
    (mkMetrics 0 0 0 0 0 0 0 0 0 0 0).

Lemma no_pending_inv s : no_pending s -> pending_inv s.
Proof.
  intros (E1 & E2 & E3). split; rewrite ?E1, ?E2, ?E3.
  - intros key q. by rewrite lookup_empty.
  - intros id p. by rewrite lookup_empty.
  - by rewrite dom_empty_L.
Qed.

(** ** The claims *)

(** C3: Whatever sequence of operations the control strand runs, with starts, stops and
    shutdowns of the server in between, a worker is handed a
    public connection only while the server runs, only if it was idle in the pool, and
    only if worker and connection belong to the same client session and that session
    is the client's current one: a superseded or closed session gets no traffic. *)
Theorem strand_assigns_current_session start s effects s' h b :
  no_pending start -> strand_reachable start s -> strand_step s effects s' ->
  PoolEffect (Assigned h b) ∈ effects ->
  running_ s = true /\
  is_current (bind_client_id b) (bind_session_generation b) (session_registry_ s) = true /\
  exists k e, entries_ (worker_pool_ s) !! k = Some e /\ assignment_handler e = Some h /\
    reg_client_id (registration e) = bind_client_id b /\
    reg_session_generation (registration e) = bind_session_generation b.
Proof.
  intros Hn Hr Hs Hin. apply no_pending_inv in Hn. pose proof (strand_reachable_inv _ _ Hn Hr) as Hi.
  destruct (strand_step_exact _ _ _ Hi Hs) as [_ Ha]. by apply Ha.
Qed.

(** C10: The three tables of waiting public connections stay consistent: at every point
    each waiting connection is in the queue of its own session, exactly once, every
    queue is non-empty and holds only waiting connections, and every one of them has a
    position recorded, so none is lost and none is served twice. *)
Theorem strand_queues_consistent start s :
  no_pending start -> strand_reachable start s ->
  (forall id p, pending_connections_ s !! id = Some p ->
     exists q, pending_connections_by_session_ s !! session_key p = Some q /\ id ∈ q) /\
  (forall key q, pending_connections_by_session_ s !! key = Some q ->
     q <> [] /\ NoDup q /\
     forall id, id ∈ q -> exists p, pending_connections_ s !! id = Some p /\ session_key p = key) /\
  pending_connection_positions_ s = dom (pending_connections_ s).
Proof.
  intros Hn Hr. apply no_pending_inv in Hn. destruct (strand_reachable_inv _ _ Hn Hr). done.
Qed.

(** When a control session ends its clean-up is complete: the session is not current
    any more, none of its workers is idle in the pool, none of its listeners is open,
    none of its connections waits, and listeners and waiting connections of all other
    sessions are exactly as before. *)
Theorem session_cleanup_complete start s walk id c effects s' :
  no_pending start -> strand_reachable start s ->
  sessions_ s !! id = Some c -> cleanup_complete_ c = false -> control_connection_ c = true ->
  cs_generation c <> 0 -> cs_client_id c <> [] ->
  session_finished walk id s = (effects, s') ->
  is_current (cs_client_id c) (cs_generation c) (session_registry_ s') = false /\
  idle_count (cs_client_id c) (cs_generation c) (worker_pool_ s') = 0 /\
  (forall k b, listeners_ (tunnel_registry_ s') !! k = Some b <->
     listeners_ (tunnel_registry_ s) !! k = Some b /\
     ~ (bind_client_id b = cs_client_id c /\ bind_session_generation b = cs_generation c)) /\
  (forall i p, pending_connections_ s' !! i = Some p <->
     pending_connections_ s !! i = Some p /\
     session_key p <> pending_session_key (cs_client_id c) (cs_generation c)) /\
  sessions_ s' !! id = None.
Proof.
  intros Hn Hr Hc Hd Hcc Hg Hcl. apply no_pending_inv in Hn. pose proof (strand_reachable_inv _ _ Hn Hr) as Hi.
  unfold session_finished. rewrite Hc. destruct (cleanup_unfold walk id c s Hc Hd) as (s0 & Hp0 & Hc0 & ->).
  destruct (cleanup_worker id (marked c) s0) as [calls s1] eqn:E1.
  destruct (cleanup_worker_frame _ _ _ _ _ E1) as (Hp1 & _ & Ht1).
  rewrite Hcc. destruct (Z.eqb_spec (cs_generation c) 0); [done|]. rewrite bool_decide_false by done. cbn [andb negb].
  destruct (end_control_session walk (marked c) s1) as [eff s2] eqn:E2. intros [= <- <-].
  pose proof (same_pending_trans _ _ _ Hp0 Hp1) as Hp.
  destruct (end_control_session_exact _ _ _ _ _ (same_pending_inv _ _ Hp Hi) E2) as (_ & _ & H1 & H2 & H3 & H4).
  destruct Hc0 as (_ & _ & Ht0 & _). destruct Hp as (Hpp & _).
  split_and!; [exact H1|exact H2| | |apply lookup_delete_eq].
  - intros k b. rewrite <- Ht0, <- Ht1. apply H3.
  - intros i p. rewrite <- Hpp. apply H4.
Qed.
End strand.

(** ** A concrete server *)

Lemma surjective_pairing_3 {A B C} (x : A * B * C) : x = (x.1.1, x.1.2, x.2).
Proof. by destruct x as [[a b] c]. Qed.

Lemma map_to_list_iterates {V} (m : gmap bytes V) : iterates (map_to_list m) m.
Proof. by unfold iterates. Qed.

Definition plain_walk : Walk :=
  mkWalk map_to_list map_to_list map_to_list map_to_list map_to_list_iterates map_to_list_iterates
    (fun m => Permutation_refl (map_to_list m)) (fun m => Permutation_refl (map_to_list m)).

Definition demo_client : bytes := bs "client_" ++ repeat "a"%byte 32.
Definition demo_policy : ClientPolicy :=
  mkClientPolicy demo_client true (Some (bs "secret")) None None
    [PortRange.mkPortRange 6000 6999] 4 4 4 (mkCertificateBinding none []) [] 0 (bs "r1") (bs "s1").
Definition demo_server : Server :=
  Server_new 4 8 (<[demo_client := demo_policy]> ∅) (TlsAdmission_new 4 4) 3 4 8
    (PortRange.mkPortRange 6000 6999) 4 8.
Definition demo_draws (b : Byte.byte) : list (option bytes) := [Some (repeat b 8)].
Definition demo_generation (b : Byte.byte) : Z := Auth.generation_of_bytes (repeat b 8).
Definition demo_binding (g : Z) : TunnelBinding :=
  mkTunnelBinding demo_client g (bs "tun_" ++ repeat "a"%byte 32) (bs "0.0.0.0") 6001 1 tcp.

(** The client opens a session; a control session object exists for it. *)
Definition demo_open : Server :=
  let s := snd (open_client_session plain_walk (demo_draws "a") demo_policy demo_server) in
  with_control (tls_admission_ s)
    (<[0%nat := mkControlSession (bs "peer") demo_client [] (demo_generation "a") true false false false]> ∅) s.

(** A worker of the session waits in the pool. *)
Definition demo_worker : Server :=
  snd (register_worker demo_policy
    (mkWorkerRegistration demo_client (demo_generation "a") (bs "conn_" ++ repeat "b"%byte 32) 0)
    (Some 7) None demo_open).

Lemma demo_worker_reachable `{AsioBindAddress} : strand_reachable demo_server demo_worker.
Proof.
  eapply strand_next; [|eapply step_register_worker; apply surjective_pairing_3].
  eapply strand_next; [|apply step_sessions].
  eapply strand_next; [apply strand_start|eapply step_open; apply surjective_pairing_3].
Qed.

Lemma demo_no_pending : no_pending demo_server.
Proof. done. Qed.

Lemma strand_assigns_current_session_witness :
  let b := demo_binding (demo_generation "a") in
  let step := handle_public_connection plain_walk (fun _ => false) 5 1 true b demo_worker in
  PoolEffect (Assigned 7 b) ∈ step.1 /\
  is_current (bind_client_id b) (bind_session_generation b) (session_registry_ demo_worker) = true.
Proof.
  intros b step.
  assert (Hin : PoolEffect (Assigned 7 b) ∈ step.1) by (apply list_elem_of_In; vm_compute; by left).
  split; [exact Hin|].
  apply (@strand_assigns_current_session sample_address demo_server demo_worker step.1 step.2 7 b
    demo_no_pending (@demo_worker_reachable sample_address)); [|exact Hin].
  eapply (step_public_connection plain_walk (fun _ => false) 5 1 true b); [by vm_compute|apply surjective_pairing].
Defined.

(** Two connections wait: the pool is empty. *)
Definition demo_first : Server :=
  snd (handle_public_connection plain_walk (fun _ => false) 5 1 true
    (demo_binding (demo_generation "a")) demo_open).
Definition demo_waiting : Server :=
  snd (handle_public_connection plain_walk (fun _ => false) 9 2 true
    (demo_binding (demo_generation "a")) demo_first).

Lemma demo_waiting_reachable `{AsioBindAddress} : strand_reachable demo_server demo_waiting.
Proof.
  eapply (strand_next _ demo_first); [|eapply (step_public_connection plain_walk (fun _ => false) 9 2 true);
    [by vm_compute|apply surjective_pairing]].
  eapply (strand_next _ demo_open); [|eapply (step_public_connection plain_walk (fun _ => false) 5 1 true);
    [by vm_compute|apply surjective_pairing]].
  eapply strand_next; [|apply step_sessions].
  eapply strand_next; [apply strand_start|eapply step_open; apply surjective_pairing_3].
Qed.

Lemma strand_queues_consistent_witness :
  let key := pending_session_key demo_client (demo_generation "a") in
  pending_connections_by_session_ demo_waiting !! key = Some [1%nat; 2%nat] /\
  pending_connection_positions_ demo_waiting = dom (pending_connections_ demo_waiting).
Proof.
  split; [by vm_compute|].
  apply (@strand_queues_consistent sample_address demo_server demo_waiting demo_no_pending
    (@demo_waiting_reachable sample_address)).
Defined.

Lemma session_cleanup_complete_witness :
  let s' := (session_finished plain_walk 0 demo_waiting).2 in
  (session_finished plain_walk 0 demo_waiting).1 = [ClosePublicSocket 1; ClosePublicSocket 2] /\
  is_current demo_client (demo_generation "a") (session_registry_ s') = false.
Proof.
  intros s'. split; [by vm_compute|].
  apply (@session_cleanup_complete sample_address demo_server demo_waiting plain_walk 0
    (mkControlSession (bs "peer") demo_client [] (demo_generation "a") true false false false)
    (session_finished plain_walk 0 demo_waiting).1 s' demo_no_pending
    (@demo_waiting_reachable sample_address)); first [apply surjective_pairing|by vm_compute].
Defined.

(** ** Late registrations of a superseded session *)

(** The control strand does not ask whether the session that registers a tunnel is
    still the current one.  When a client reconnects (session b replaces session a) and
    registers its tunnel, a registration of session a that was still on its way then
    replaces the new listener, and the end of session a closes it: session b stays
    current, its registration was reported as successful, and its tunnel has no
    listener. *)
Theorem late_registration_displaces_current :
  let reg g s := @register_tunnel sample_address None demo_policy (demo_binding g) s in
  let s1 := demo_open in
  let s2 := snd (open_client_session plain_walk (demo_draws "b") demo_policy s1) in
  let s3 := snd (reg (demo_generation "b") s2) in
  let s4 := snd (reg (demo_generation "a") s3) in
  let s5 := snd (session_finished plain_walk 0 s4) in
  is_ok (fst (fst (reg (demo_generation "b") s2))) = true /\
  map_to_list (listeners_ (tunnel_registry_ s3)) =
    [(binding_key demo_client (bs "tun_" ++ repeat "a"%byte 32), demo_binding (demo_generation "b"))] /\
  is_current demo_client (demo_generation "a") (session_registry_ s3) = false /\
  is_ok (fst (fst (reg (demo_generation "a") s3))) = true /\
  is_current demo_client (demo_generation "b") (session_registry_ s5) = true /\
  map_to_list (listeners_ (tunnel_registry_ s5)) = [].
Proof. split_and!; by vm_compute. Qed.
