(* ===== verification/Models.v ===== *)
(** * Persisted records (include/minitun/storage/models.hpp, src/storage/models.cpp)

    The states and protocols the database stores as text, the two record types,
    and the recovery snapshot.  The states live in a module per enumeration,
    whose type is [t]. *)
From S2P Require Import Prelude Common Ids Endpoint.

(** ** Limits of models.hpp *)

Definition kMaxNameBytes : Z := 64.
Definition kMaxCredentialReferenceBytes : Z := 256.
Definition kMaxRemoteServerIdBytes : Z := 256.
Definition kMaxTlsServerNameBytes : Z := 253.
Definition kMaxErrorMessageBytes : Z := 4096.
Definition kDefaultMaxServers : Z := 128.
Definition kDefaultMaxTunnels : Z := 4096.

Record StorageLimits : Set := mkStorageLimits { max_servers : Z; max_tunnels : Z }.

Definition default_storage_limits : StorageLimits :=
  mkStorageLimits kDefaultMaxServers kDefaultMaxTunnels.

(** ** The enumerations *)

Module TunnelProtocol.
Inductive t : Set := tcp | udp | socks5 | p2p.
#[export] Instance eq_decision : EqDecision t.
Proof. solve_decision. Defined.
End TunnelProtocol.
Export (hints) TunnelProtocol.

Module ServerDesiredState.
Inductive t : Set := enabled | disabled | removed.
#[export] Instance eq_decision : EqDecision t.
Proof. solve_decision. Defined.
End ServerDesiredState.
Export (hints) ServerDesiredState.

Module ServerActualState.
Inductive t : Set :=
| not_authenticated | disconnected | connecting | tls_handshake | authenticating
| online | backoff | disabled | error.
#[export] Instance eq_decision : EqDecision t.
Proof. solve_decision. Defined.
End ServerActualState.
Export (hints) ServerActualState.

Module TunnelDesiredState.
Inductive t : Set := active | disabled | removed.
#[export] Instance eq_decision : EqDecision t.
Proof. solve_decision. Defined.
End TunnelDesiredState.
Export (hints) TunnelDesiredState.

Module TunnelActualState.
Inductive t : Set := pending | registering | active | failed | removing | disabled.
#[export] Instance eq_decision : EqDecision t.
Proof. solve_decision. Defined.
End TunnelActualState.
Export (hints) TunnelActualState.

(** An enumeration with its table of [EnumEntry] and the name its parser puts
    into the message of a failure. *)
Class EnumTable (E : Set) `{EqDecision E} := {
  entries : list (E * bytes);
  type_name : bytes
}.

#[export] Instance kTunnelProtocols : EnumTable TunnelProtocol.t := {|
  entries := [(TunnelProtocol.tcp, bs "tcp"); (TunnelProtocol.udp, bs "udp");
              (TunnelProtocol.socks5, bs "socks5"); (TunnelProtocol.p2p, bs "p2p")];
  type_name := bs "tunnel protocol" |}.

#[export] Instance kServerDesiredStates : EnumTable ServerDesiredState.t := {|
  entries := [(ServerDesiredState.enabled, bs "enabled");
              (ServerDesiredState.disabled, bs "disabled");
              (ServerDesiredState.removed, bs "removed")];
  type_name := bs "server desired state" |}.

#[export] Instance kServerActualStates : EnumTable ServerActualState.t := {|
  entries := [(ServerActualState.not_authenticated, bs "not_authenticated");
              (ServerActualState.disconnected, bs "disconnected");
              (ServerActualState.connecting, bs "connecting");
              (ServerActualState.tls_handshake, bs "tls_handshake");
              (ServerActualState.authenticating, bs "authenticating");
              (ServerActualState.online, bs "online");
              (ServerActualState.backoff, bs "backoff");
              (ServerActualState.disabled, bs "disabled");
              (ServerActualState.error, bs "error")];
  type_name := bs "server actual state" |}.

#[export] Instance kTunnelDesiredStates : EnumTable TunnelDesiredState.t := {|
  entries := [(TunnelDesiredState.active, bs "active");
              (TunnelDesiredState.disabled, bs "disabled");
              (TunnelDesiredState.removed, bs "removed")];
  type_name := bs "tunnel desired state" |}.

#[export] Instance kTunnelActualStates : EnumTable TunnelActualState.t := {|
  entries := [(TunnelActualState.pending, bs "pending");
              (TunnelActualState.registering, bs "registering");
              (TunnelActualState.active, bs "active");
              (TunnelActualState.failed, bs "failed");
              (TunnelActualState.removing, bs "removing");
              (TunnelActualState.disabled, bs "disabled")];
  type_name := bs "tunnel actual state" |}.

(** [enum_to_string] and [enum_from_string], with their loops over the table. *)
Section Enum.
Context {E : Set} `{EnumTable E}.

Definition enum_to_string (value : E) : bytes :=
  match find (fun entry => bool_decide (entry.1 = value)) entries with
  | Some entry => entry.2
  | None => bs "unknown"
  end.

Definition enum_from_string (value : bytes) : Result E :=
  match find (fun entry => bool_decide (entry.2 = value)) entries with
  | Some entry => Ok entry.1
  | None => Err (mkError invalid_argument (bs "unknown " ++ type_name))
  end.
End Enum.

(** A table lists every value once, under distinct texts. *)
Class EnumTableLaws (E : Set) `{EnumTable E} : Prop := {
  entries_complete (e : E) : e ∈ entries.*1;
  entries_values_distinct : NoDup (entries.*1);
  entries_texts_distinct : NoDup (entries.*2)
}.

Section EnumLaws.
Context {E : Set} `{EnumTableLaws E}.

Lemma find_distinct {A B} `{EqDecision B} (f : A -> B) (l : list A) x :
  NoDup (f <$> l) -> x ∈ l -> find (fun y => bool_decide (f y = f x)) l = Some x.
Proof.
  induction l as [|y l IH]; intros Hn Hx; [by apply not_elem_of_nil in Hx|].
  rewrite fmap_cons in Hn. apply NoDup_cons in Hn as [Hy Hn]. simpl.
  apply elem_of_cons in Hx as [->|Hx]; [by rewrite bool_decide_true|].
  rewrite bool_decide_false; [by apply IH|].
  intros E'. apply Hy. rewrite E'. by apply list_elem_of_fmap_2.
Qed.

Lemma enum_entry (e : E) : (e, enum_to_string e) ∈ entries.
Proof.
  pose proof (entries_complete e) as ((e' & s) & He & Hin)%list_elem_of_fmap. simpl in He.
  subst e'. unfold enum_to_string.
  by rewrite (find_distinct fst entries (e, s) entries_values_distinct Hin).
Qed.

Lemma enum_from_to_string (e : E) : enum_from_string (enum_to_string e) = Ok e.
Proof.
  unfold enum_from_string.
  by rewrite (find_distinct snd entries _ entries_texts_distinct (enum_entry e)).
Qed.

Lemma enum_to_from_string s (e : E) : enum_from_string s = Ok e -> enum_to_string e = s.
Proof.
  unfold enum_from_string. destruct (find _ _) as [[e' s']|] eqn:Hf; [|done].
  intros [= <-]. apply find_some in Hf as [Hin Hs%bool_decide_eq_true]. simpl in Hs. subst s'.
  unfold enum_to_string. simpl.
  by rewrite (find_distinct fst entries (e', s) entries_values_distinct) by
    (by apply list_elem_of_In).
Qed.

Lemma enum_to_string_inj (e1 e2 : E) : enum_to_string e1 = enum_to_string e2 -> e1 = e2.
Proof.
  intros Hs. pose proof (enum_from_to_string e1) as H1. rewrite Hs, enum_from_to_string in H1.
  congruence.
Qed.
End EnumLaws.

#[export] Instance kTunnelProtocols_laws : EnumTableLaws TunnelProtocol.t.
Proof. split; [intros []|..]; apply (bool_decide_unpack _); vm_compute; exact I. Qed.
#[export] Instance kServerDesiredStates_laws : EnumTableLaws ServerDesiredState.t.
Proof. split; [intros []|..]; apply (bool_decide_unpack _); vm_compute; exact I. Qed.
#[export] Instance kServerActualStates_laws : EnumTableLaws ServerActualState.t.
Proof. split; [intros []|..]; apply (bool_decide_unpack _); vm_compute; exact I. Qed.
#[export] Instance kTunnelDesiredStates_laws : EnumTableLaws TunnelDesiredState.t.
Proof. split; [intros []|..]; apply (bool_decide_unpack _); vm_compute; exact I. Qed.
#[export] Instance kTunnelActualStates_laws : EnumTableLaws TunnelActualState.t.
Proof. split; [intros []|..]; apply (bool_decide_unpack _); vm_compute; exact I. Qed.

(** ** The records *)

(** [ServerRecord]. *)
Record ServerRecord : Set := mkServerRecord {
  sr_id : Id;
  sr_name : option bytes;
  sr_endpoint : Endpoint;
  sr_credential_ref : option bytes;
  sr_remote_server_id : option bytes;
  sr_desired_state : ServerDesiredState.t;
  sr_actual_state : ServerActualState.t;
  sr_last_error_code : option ErrorCode;
  sr_last_error_message : option bytes;
  sr_reconnect_attempt : Z;
  sr_latency_ms : option Z;
  sr_created_at : Z;
  sr_updated_at : Z;
  sr_tls_server_name : option bytes;
  sr_ca_credential_ref : option bytes;
  sr_client_certificate_ref : option bytes;
  sr_client_private_key_ref : option bytes;
  sr_config_revision : Z;
  sr_managed_by_config : bool
}.

(** [TunnelRecord]. *)
Record TunnelRecord : Set := mkTunnelRecord {
  tr_id : Id;
  tr_name : option bytes;
  tr_server_id : Id;
  tr_protocol : TunnelProtocol.t;
  tr_local_endpoint : Endpoint;
  tr_remote_endpoint : Endpoint;
  tr_desired_state : TunnelDesiredState.t;
  tr_actual_state : TunnelActualState.t;
  tr_last_error_code : option ErrorCode;
  tr_last_error_message : option bytes;
  tr_created_at : Z;
  tr_updated_at : Z;
  tr_last_synced_at : option Z;
  tr_config_revision : Z;
  tr_managed_by_config : bool;
  tr_proxy_protocol : bool
}.

#[export] Instance ServerRecord_eq_decision : EqDecision ServerRecord.
Proof. solve_decision. Defined.
#[export] Instance TunnelRecord_eq_decision : EqDecision TunnelRecord.
Proof. solve_decision. Defined.

(** [RecoverySnapshot]. *)
Record RecoverySnapshot : Set := mkRecoverySnapshot {
  snapshot_servers : list ServerRecord;
  snapshot_tunnels : list TunnelRecord
}.
