(* ===== verification/Rows.v ===== *)
(** * Rows and their records (src/storage/sqlite_internal.cpp)

    The columns of the tables [servers] and [tunnels], how a record is bound to
    them, how a row is read back and validated.  A column has the type the
    schema of src/storage/database.cpp gives it ([NOT NULL] and [typeof] checks,
    compared with the expected schema whenever a database is opened), so that
    [required_text], [required_int64] and their optional variants always return
    the column's value.  The [id] column is the key of the table. *)
From S2P Require Import Prelude Common Ids Text Endpoint Utf8 Models.

(** ** The columns *)

Record ServerRow : Set := mkServerRow {
  sc_name : option bytes;
  sc_endpoint : bytes;
  sc_credential_ref : option bytes;
  sc_remote_server_id : option bytes;
  sc_desired_state : bytes;
  sc_actual_state : bytes;
  sc_last_error_code : option bytes;
  sc_last_error_message : option bytes;
  sc_reconnect_attempt : Z;
  sc_latency_ms : option Z;
  sc_created_at : Z;
  sc_updated_at : Z;
  sc_tls_server_name : option bytes;
  sc_ca_credential_ref : option bytes;
  sc_client_certificate_ref : option bytes;
  sc_client_private_key_ref : option bytes;
  sc_config_revision : Z;
  sc_managed_by_config : Z
}.

Record TunnelRow : Set := mkTunnelRow {
  tc_name : option bytes;
  tc_server_id : bytes;
  tc_protocol : bytes;
  tc_local_host : bytes;
  tc_local_port : Z;
  tc_remote_host : bytes;
  tc_remote_port : Z;
  tc_desired_state : bytes;
  tc_actual_state : bytes;
  tc_last_error_code : option bytes;
  tc_last_error_message : option bytes;
  tc_created_at : Z;
  tc_updated_at : Z;
  tc_last_synced_at : option Z;
  tc_config_revision : Z;
  tc_managed_by_config : Z;
  tc_proxy_protocol : Z
}.

(** The values the insert and update statements of the repositories bind. *)
Definition bind_bool (b : bool) : Z := if b then 1 else 0.

Definition bind_server (record : ServerRecord) : ServerRow := {|
  sc_name := sr_name record;
  sc_endpoint := Endpoint_to_string (sr_endpoint record);
  sc_credential_ref := sr_credential_ref record;
  sc_remote_server_id := sr_remote_server_id record;
  sc_desired_state := enum_to_string (sr_desired_state record);
  sc_actual_state := enum_to_string (sr_actual_state record);
  sc_last_error_code := error_code_to_string <$> sr_last_error_code record;
  sc_last_error_message := sr_last_error_message record;
  sc_reconnect_attempt := sr_reconnect_attempt record;
  sc_latency_ms := sr_latency_ms record;
  sc_created_at := sr_created_at record;
  sc_updated_at := sr_updated_at record;
  sc_tls_server_name := sr_tls_server_name record;
  sc_ca_credential_ref := sr_ca_credential_ref record;
  sc_client_certificate_ref := sr_client_certificate_ref record;
  sc_client_private_key_ref := sr_client_private_key_ref record;
  sc_config_revision := i64_of_u64 (sr_config_revision record);
  sc_managed_by_config := bind_bool (sr_managed_by_config record)
|}.

Definition bind_tunnel (record : TunnelRecord) : TunnelRow := {|
  tc_name := tr_name record;
  tc_server_id := str (tr_server_id record);
  tc_protocol := enum_to_string (tr_protocol record);
  tc_local_host := host (tr_local_endpoint record);
  tc_local_port := port (tr_local_endpoint record);
  tc_remote_host := host (tr_remote_endpoint record);
  tc_remote_port := port (tr_remote_endpoint record);
  tc_desired_state := enum_to_string (tr_desired_state record);
  tc_actual_state := enum_to_string (tr_actual_state record);
  tc_last_error_code := error_code_to_string <$> tr_last_error_code record;
  tc_last_error_message := tr_last_error_message record;
  tc_created_at := tr_created_at record;
  tc_updated_at := tr_updated_at record;
  tc_last_synced_at := tr_last_synced_at record;
  tc_config_revision := i64_of_u64 (tr_config_revision record);
  tc_managed_by_config := bind_bool (tr_managed_by_config record);
  tc_proxy_protocol := bind_bool (tr_proxy_protocol record)
|}.

(** ** Validation of records *)

Definition kInt32Max : Z := 2 ^ 31 - 1.
Definition kInt64Max : Z := 2 ^ 63 - 1.

(** [is_known_error_code]. *)
Definition is_known_error_code (code : ErrorCode) : bool :=
  if decide (code = ok) then false
  else match error_code_from_string (error_code_to_string code) with
       | Some parsed => bool_decide (parsed = code)
       | None => false
       end.

(** [is_known_enum]. *)
Definition is_known_enum {E : Set} `{EnumTable E} (value : E) : bool :=
  match enum_from_string (enum_to_string value) with
  | Ok parsed => bool_decide (parsed = value)
  | Err _ => false
  end.

Definition kNul : byte := Byte.x00.

(** An error whose message starts with the name of the field. *)
Definition field_error {A} (field message : string) : Result A :=
  Err (mkError invalid_argument (bs field ++ bs message)).

(** [validate_text]. *)
Definition validate_text (value : bytes) (minimum_bytes maximum_bytes : Z) (field : string) :
  Result unit :=
  if (Zlen value <? minimum_bytes) || (maximum_bytes <? Zlen value) then
    field_error field " is outside its byte-length limit"
  else if bool_decide (kNul ∈ value) then field_error field " must not contain NUL bytes"
  else if negb (storage_is_valid_utf8 value) then
    field_error field " must contain valid UTF-8"
  else success.

(** [validate_optional_text]. *)
Definition validate_optional_text (value : option bytes) (minimum_bytes maximum_bytes : Z)
    (field : string) : Result unit :=
  match value with
  | None => success
  | Some text => validate_text text minimum_bytes maximum_bytes field
  end.

(** [validate_error_fields]. *)
Definition validate_error_fields (error_code : option ErrorCode) (error_message : option bytes) :
  Result unit :=
  if match error_code with Some c => negb (is_known_error_code c) | None => false end then
    failure invalid_argument "last_error_code must be a known non-ok error code"
  else validate_optional_text error_message 0 kMaxErrorMessageBytes "last_error_message".

(** The body of the loop of [validate_server_record] over its references. *)
Definition validate_reference (reference : option bytes) (field : string) : Result unit :=
  validate_optional_text reference 1 kMaxCredentialReferenceBytes field.

(** [validate_server_record]. *)
Definition validate_server_record (record : ServerRecord) : Result unit :=
  if negb (bool_decide (kind (sr_id record) = server)) then
    failure invalid_argument "server record ID must use the server ID namespace"
  else
    _ ← validate_optional_text (sr_name record) 1 kMaxNameBytes "server name";
    _ ← validate_optional_text (sr_credential_ref record) 1 kMaxCredentialReferenceBytes
          "credential reference";
    _ ← validate_optional_text (sr_remote_server_id record) 1 kMaxRemoteServerIdBytes
          "remote server ID";
    _ ← validate_optional_text (sr_tls_server_name record) 1 kMaxTlsServerNameBytes
          "TLS server name";
    _ ← validate_reference (sr_ca_credential_ref record) "CA credential reference";
    _ ← validate_reference (sr_client_certificate_ref record) "client certificate reference";
    _ ← validate_reference (sr_client_private_key_ref record) "client private-key reference";
    if negb (bool_decide (is_Some (sr_client_certificate_ref record) <->
                          is_Some (sr_client_private_key_ref record))) then
      failure invalid_argument "client certificate and private-key references must be paired"
    else if (sr_config_revision record =? 0) || (kInt64Max <? sr_config_revision record) then
      failure invalid_argument "server configuration revision is outside the storage limit"
    else if negb (is_known_enum (sr_desired_state record))
            || negb (is_known_enum (sr_actual_state record)) then
      failure invalid_argument "server record contains an unknown state"
    else
      _ ← validate_error_fields (sr_last_error_code record) (sr_last_error_message record);
      if kInt32Max <? sr_reconnect_attempt record then
        failure invalid_argument "reconnect_attempt exceeds the storage limit"
      else if match sr_latency_ms record with
              | Some latency => (latency <? 0) || (kInt32Max <? latency)
              | None => false
              end then
        failure invalid_argument "latency_ms exceeds the storage limit"
      else if (sr_created_at record <? 0) || (sr_updated_at record <? sr_created_at record) then
        failure invalid_argument "server timestamps must be non-negative and monotonic"
      else success.

(** [validate_tunnel_record]. *)
Definition validate_tunnel_record (record : TunnelRecord) : Result unit :=
  if negb (bool_decide (kind (tr_id record) = tunnel))
     || negb (bool_decide (kind (tr_server_id record) = server)) then
    failure invalid_argument "tunnel record contains an ID from the wrong namespace"
  else
    _ ← validate_optional_text (tr_name record) 1 kMaxNameBytes "tunnel name";
    if negb (is_known_enum (tr_protocol record)) || negb (is_known_enum (tr_desired_state record))
       || negb (is_known_enum (tr_actual_state record)) then
      failure invalid_argument "tunnel record contains an unknown protocol or state"
    else
      _ ← validate_error_fields (tr_last_error_code record) (tr_last_error_message record);
      if (tr_config_revision record =? 0) || (kInt64Max <? tr_config_revision record) then
        failure invalid_argument "tunnel configuration revision is outside the storage limit"
      else if (tr_created_at record <? 0) || (tr_updated_at record <? tr_created_at record)
              || match tr_last_synced_at record with
                 | Some synced => (synced <? tr_created_at record)
                                  || (tr_updated_at record <? synced)
                 | None => false
                 end then
        failure invalid_argument "tunnel timestamps must be non-negative and monotonic"
      else success.

(** ** Reading rows *)

Definition corrupt_field {A} (field : string) : Result A :=
  Err (mkError database_error (bs "database contains an invalid " ++ bs field)).

(** [endpoint_text]. *)
Definition endpoint_text (host : bytes) (port : Z) : bytes :=
  if bool_decide (find_char ch_colon host <> None) then
    [ch_lbracket] ++ host ++ [ch_rbracket; ch_colon] ++ to_string port
  else host ++ [ch_colon] ++ to_string port.

Section Read.
Context `{AsioAddress}.

(** [read_endpoint] and [read_split_endpoint]. *)
Definition read_endpoint (text : bytes) (field : string) : Result Endpoint :=
  match Endpoint_parse text with
  | Ok parsed =>
      if bool_decide (Endpoint_to_string parsed <> text) then corrupt_field field else Ok parsed
  | Err _ => corrupt_field field
  end.

Definition read_split_endpoint (host' : bytes) (port' : Z) (field : string) : Result Endpoint :=
  if (port' <? 1) || (65535 <? port') then corrupt_field field
  else
    match Endpoint_parse (endpoint_text host' port') with
    | Ok parsed =>
        if bool_decide (host parsed <> host') || negb (port parsed =? port') then
          corrupt_field field
        else Ok parsed
    | Err _ => corrupt_field field
    end.

(** The optional error column of both readers: [Some code] when it holds no error or
    a known one, [None] when it is corrupt. *)
Definition read_error_code (error_text : option bytes) : option (option ErrorCode) :=
  match error_text with
  | None => Some None
  | Some text =>
      match error_code_from_string text with
      | Some code => if is_known_error_code code then Some (Some code) else None
      | None => None
      end
  end.

Definition invalid_flag (value : Z) : bool := negb (value =? 0) && negb (value =? 1).

(** [read_server]. *)
Definition read_server (id_text : bytes) (row : ServerRow) : Result ServerRecord :=
  match Id_parse_kind id_text server, read_endpoint (sc_endpoint row) "servers.endpoint",
        enum_from_string (sc_desired_state row), enum_from_string (sc_actual_state row) with
  | Ok id, Ok endpoint, Ok desired, Ok actual =>
      if (sc_reconnect_attempt row <? 0) || (kInt32Max <? sc_reconnect_attempt row)
         || match sc_latency_ms row with
            | Some latency => (latency <? 0) || (kInt32Max <? latency)
            | None => false
            end
         || (sc_config_revision row <=? 0) || invalid_flag (sc_managed_by_config row) then
        failure database_error "database contains an invalid server row"
      else
        match read_error_code (sc_last_error_code row) with
        | None => corrupt_field "servers.last_error_code"
        | Some error_code =>
            let record := {|
              sr_id := id; sr_name := sc_name row; sr_endpoint := endpoint;
              sr_credential_ref := sc_credential_ref row;
              sr_remote_server_id := sc_remote_server_id row;
              sr_desired_state := desired; sr_actual_state := actual;
              sr_last_error_code := error_code;
              sr_last_error_message := sc_last_error_message row;
              sr_reconnect_attempt := sc_reconnect_attempt row;
              sr_latency_ms := sc_latency_ms row;
              sr_created_at := sc_created_at row; sr_updated_at := sc_updated_at row;
              sr_tls_server_name := sc_tls_server_name row;
              sr_ca_credential_ref := sc_ca_credential_ref row;
              sr_client_certificate_ref := sc_client_certificate_ref row;
              sr_client_private_key_ref := sc_client_private_key_ref row;
              sr_config_revision := u64_of_i64 (sc_config_revision row);
              sr_managed_by_config := negb (sc_managed_by_config row =? 0)
            |} in
            match validate_server_record record with
            | Ok _ => Ok record
            | Err _ =>
                failure database_error "database contains a server row outside storage limits"
            end
        end
  | _, _, _, _ => failure database_error "database contains an invalid server row"
  end.

(** [read_tunnel]. *)
Definition read_tunnel (id_text : bytes) (row : TunnelRow) : Result TunnelRecord :=
  match Id_parse_kind id_text tunnel, Id_parse_kind (tc_server_id row) server,
        read_split_endpoint (tc_local_host row) (tc_local_port row) "tunnels.local_endpoint",
        read_split_endpoint (tc_remote_host row) (tc_remote_port row) "tunnels.remote_endpoint",
        enum_from_string (tc_protocol row), enum_from_string (tc_desired_state row),
        enum_from_string (tc_actual_state row) with
  | Ok id, Ok server_id, Ok local_endpoint, Ok remote_endpoint, Ok protocol, Ok desired,
    Ok actual =>
      if (tc_config_revision row <=? 0) || invalid_flag (tc_managed_by_config row)
         || invalid_flag (tc_proxy_protocol row) then
        failure database_error "database contains an invalid tunnel row"
      else
        match read_error_code (tc_last_error_code row) with
        | None => corrupt_field "tunnels.last_error_code"
        | Some error_code =>
            let record := {|
              tr_id := id; tr_name := tc_name row; tr_server_id := server_id;
              tr_protocol := protocol; tr_local_endpoint := local_endpoint;
              tr_remote_endpoint := remote_endpoint; tr_desired_state := desired;
              tr_actual_state := actual; tr_last_error_code := error_code;
              tr_last_error_message := tc_last_error_message row;
              tr_created_at := tc_created_at row; tr_updated_at := tc_updated_at row;
              tr_last_synced_at := tc_last_synced_at row;
              tr_config_revision := u64_of_i64 (tc_config_revision row);
              tr_managed_by_config := negb (tc_managed_by_config row =? 0);
              tr_proxy_protocol := negb (tc_proxy_protocol row =? 0)
            |} in
            match validate_tunnel_record record with
            | Ok _ => Ok record
            | Err _ =>
                failure database_error "database contains a tunnel row outside storage limits"
            end
        end
  | _, _, _, _, _, _, _ => failure database_error "database contains an invalid tunnel row"
  end.
End Read.

(** ** What the classes of the records guarantee

    An [Id] and an [Endpoint] are made by their parsers only; an unsigned field
    holds a value of its width. *)

Definition Id_wf (i : Id) : Prop := canonical (kind i) (str i).

Section Wf.
Context `{AsioAddress}.

Definition Endpoint_wf (e : Endpoint) : Prop := Endpoint_parse (Endpoint_to_string e) = Ok e.

Definition server_record_wf (r : ServerRecord) : Prop :=
  Id_wf (sr_id r) /\ Endpoint_wf (sr_endpoint r) /\ is_u32 (sr_reconnect_attempt r) /\
  is_u64 (sr_config_revision r).

Definition tunnel_record_wf (r : TunnelRecord) : Prop :=
  Id_wf (tr_id r) /\ Id_wf (tr_server_id r) /\ Endpoint_wf (tr_local_endpoint r) /\
  Endpoint_wf (tr_remote_endpoint r) /\ is_u64 (tr_config_revision r).

(** A record the repositories can hold: well formed and within the limits. *)
Definition server_valid (r : ServerRecord) : Prop :=
  server_record_wf r /\ validate_server_record r = success.

Definition tunnel_valid (r : TunnelRecord) : Prop :=
  tunnel_record_wf r /\ validate_tunnel_record r = success.
End Wf.

(** ** Lemmas *)

Lemma is_known_error_code_iff c : is_known_error_code c = true <-> c <> ok.
Proof.
  unfold is_known_error_code. case_decide; [done|].
  by rewrite error_code_from_to_string, bool_decide_true.
Qed.

Lemma is_known_enum_true {E : Set} `{EnumTableLaws E} (e : E) : is_known_enum e = true.
Proof. unfold is_known_enum. by rewrite enum_from_to_string, bool_decide_true. Qed.

Lemma bind_bool_flag b : invalid_flag (bind_bool b) = false /\ negb (bind_bool b =? 0) = b.
Proof. by destruct b. Qed.

Lemma invalid_flag_bind z : invalid_flag z = false -> bind_bool (negb (z =? 0)) = z.
Proof.
  unfold invalid_flag. destruct (Z.eqb_spec z 0); [by subst|].
  destruct (Z.eqb_spec z 1); [by subst|done].
Qed.

Lemma read_error_code_bind c m :
  validate_error_fields c m = success ->
  read_error_code (error_code_to_string <$> c) = Some c.
Proof.
  destruct c as [c|]; [|done]. unfold validate_error_fields, read_error_code. simpl.
  rewrite error_code_from_to_string. by destruct (is_known_error_code c).
Qed.

Lemma read_error_code_inv text c :
  read_error_code text = Some c -> error_code_to_string <$> c = text.
Proof.
  destruct text as [text|]; simpl; [|by intros [= <-]].
  destruct (error_code_from_string text) as [c'|] eqn:E; [|done].
  destruct (is_known_error_code c'); [|done]. intros [= <-]. simpl. f_equal.
  by apply error_code_to_from_string.
Qed.

(** A monadic guard of the validators. *)
Lemma result_bind_success {A} (m : Result unit) (k : unit -> Result A) a :
  (m ≫= k) = Ok a -> m = success /\ k tt = Ok a.
Proof. destruct m as [[]|]; [done|discriminate]. Qed.

(** Splits the hypothesis that a validator succeeds into its clauses. *)
Ltac validate_inv H :=
  repeat (cbv beta in H; first
    [ match type of H with
      | mbind _ _ = _ =>
          let H1 := fresh "Hv" in apply result_bind_success in H as [H1 H]
      | (if ?b then failure _ _ else _) = _ =>
          let H1 := fresh "Hc" in destruct b eqn:H1; [discriminate H|]
      end ]).

(** The clauses of the validators. *)
Lemma validate_tunnel_iff r :
  validate_tunnel_record r = success <->
  kind (tr_id r) = tunnel /\ kind (tr_server_id r) = server /\
  validate_optional_text (tr_name r) 1 kMaxNameBytes "tunnel name" = success /\
  validate_error_fields (tr_last_error_code r) (tr_last_error_message r) = success /\
  tr_config_revision r <> 0 /\ tr_config_revision r <= kInt64Max /\
  0 <= tr_created_at r <= tr_updated_at r /\
  (forall s, tr_last_synced_at r = Some s -> tr_created_at r <= s <= tr_updated_at r).
Proof.
  unfold validate_tunnel_record. split.
  - intros Hv. validate_inv Hv. apply orb_false_iff in Hc as [Hk Hk'].
    apply negb_false_iff, bool_decide_eq_true in Hk, Hk'.
    split_and!; try done; try lia; intros s Hs; rewrite Hs in Hc2; lia.
  - intros (Hk & Hk' & -> & -> & Hr & Hr' & Ht & Hs). rewrite !bool_decide_true by done.
    rewrite !is_known_enum_true. cbn.
    destruct (Z.eqb_spec (tr_config_revision r) 0); [lia|].
    destruct (Z.ltb_spec kInt64Max (tr_config_revision r)); [lia|].
    destruct (Z.ltb_spec (tr_created_at r) 0); [lia|].
    destruct (Z.ltb_spec (tr_updated_at r) (tr_created_at r)); [lia|]. cbn.
    destruct (tr_last_synced_at r) as [s|]; [|done]. specialize (Hs s eq_refl).
    destruct (Z.ltb_spec s (tr_created_at r)); [lia|].
    destruct (Z.ltb_spec (tr_updated_at r) s); [lia|]. done.
Qed.

Lemma validate_server_iff r :
  validate_server_record r = success <->
  kind (sr_id r) = server /\
  validate_optional_text (sr_name r) 1 kMaxNameBytes "server name" = success /\
  validate_optional_text (sr_credential_ref r) 1 kMaxCredentialReferenceBytes
    "credential reference" = success /\
  validate_optional_text (sr_remote_server_id r) 1 kMaxRemoteServerIdBytes
    "remote server ID" = success /\
  validate_optional_text (sr_tls_server_name r) 1 kMaxTlsServerNameBytes
    "TLS server name" = success /\
  validate_reference (sr_ca_credential_ref r) "CA credential reference" = success /\
  validate_reference (sr_client_certificate_ref r) "client certificate reference" = success /\
  validate_reference (sr_client_private_key_ref r) "client private-key reference" = success /\
  (is_Some (sr_client_certificate_ref r) <-> is_Some (sr_client_private_key_ref r)) /\
  sr_config_revision r <> 0 /\ sr_config_revision r <= kInt64Max /\
  validate_error_fields (sr_last_error_code r) (sr_last_error_message r) = success /\
  sr_reconnect_attempt r <= kInt32Max /\
  (forall l, sr_latency_ms r = Some l -> 0 <= l <= kInt32Max) /\
  0 <= sr_created_at r <= sr_updated_at r.
Proof.
  unfold validate_server_record. split.
  - intros Hv. validate_inv Hv. apply negb_false_iff, bool_decide_eq_true in Hc, Hc0.
    split_and!; try done; try lia; intros l Hl; rewrite Hl in Hc4; lia.
  - intros (Hk & -> & -> & -> & -> & -> & -> & -> & Hp & Hr & Hr' & -> & Hra & Hl & Ht).
    rewrite !bool_decide_true by done. rewrite !is_known_enum_true. cbn [negb orb mbind outcome_bind].
    destruct (Z.eqb_spec (sr_config_revision r) 0); [lia|].
    destruct (Z.ltb_spec kInt64Max (sr_config_revision r)); [lia|].
    destruct (Z.ltb_spec kInt32Max (sr_reconnect_attempt r)); [lia|].
    destruct (Z.ltb_spec (sr_created_at r) 0); [lia|].
    destruct (Z.ltb_spec (sr_updated_at r) (sr_created_at r)); [lia|]. cbn.
    destruct (sr_latency_ms r) as [l|]; [|done]. specialize (Hl l eq_refl).
    destruct (Z.ltb_spec l 0); [lia|]. destruct (Z.ltb_spec kInt32Max l); [lia|]. done.
Qed.

Section Roundtrip.
Context `{AsioAddressLaws}.

Lemma endpoint_text_to_string e :
  Endpoint_wf e -> endpoint_text (host e) (port e) = Endpoint_to_string e.
Proof.
  intros (_ & _ & Hk)%Endpoint_parse_shape. unfold endpoint_text, Endpoint_to_string.
  case_bool_decide as Hc.
  - rewrite (proj2 Hk); [done|]. destruct (decide (ch_colon ∈ host e)); [done|].
    exfalso. apply Hc. by apply find_char_None.
  - destruct (endpoint_kind e); try done. exfalso. apply find_char_None in Hc.
    apply Hc. by apply Hk.
Qed.

Lemma read_endpoint_bind e field :
  Endpoint_wf e -> read_endpoint (Endpoint_to_string e) field = Ok e.
Proof. intros He. unfold read_endpoint. by rewrite He, bool_decide_false by auto. Qed.

Lemma read_split_endpoint_bind e field :
  Endpoint_wf e -> read_split_endpoint (host e) (port e) field = Ok e.
Proof.
  intros He. unfold read_split_endpoint.
  destruct (Endpoint_parse_shape _ _ He) as (Hp & _ & _).
  destruct (Z.ltb_spec (port e) 1); [lia|]. destruct (Z.ltb_spec 65535 (port e)); [lia|].
  cbn [orb]. rewrite endpoint_text_to_string, He by done.
  by rewrite bool_decide_false, Z.eqb_refl by auto.
Qed.

Lemma read_endpoint_inv text field e :
  read_endpoint text field = Ok e -> Endpoint_wf e /\ Endpoint_to_string e = text.
Proof.
  unfold read_endpoint. destruct (Endpoint_parse text) as [e'|] eqn:E; [|done].
  case_bool_decide as Ht; [done|]. intros [= <-]. split; [by eapply Endpoint_parse_print|done].
Qed.

Lemma read_split_endpoint_inv h p field e :
  read_split_endpoint h p field = Ok e -> Endpoint_wf e /\ host e = h /\ port e = p.
Proof.
  unfold read_split_endpoint. destruct (_ || _); [done|].
  destruct (Endpoint_parse _) as [e'|] eqn:E; [|done]. case_bool_decide as Hh; [done|].
  destruct (Z.eqb_spec (port e') p); [|done]. intros [= <-].
  split_and!; [by eapply Endpoint_parse_print|done..].
Qed.

Lemma Id_parse_kind_str i k : Id_wf i -> kind i = k -> Id_parse_kind (str i) k = Ok i.
Proof. intros Hi <-. apply Id_parse_kind_ok. split; [by destruct i|done]. Qed.

(** A stored record is read back as it was. *)
Lemma read_server_bind r :
  server_valid r -> read_server (str (sr_id r)) (bind_server r) = Ok r.
Proof.
  intros [(Hid & Hep & Hra & Hrev) Hval]. pose proof Hval as Hval'.
  apply validate_server_iff in Hval'
    as (Hk & _ & _ & _ & _ & _ & _ & _ & _ & Hr & Hr' & He & Hra' & Hl & _).
  unfold read_server, bind_server.
  cbn [sc_name sc_endpoint sc_credential_ref sc_remote_server_id sc_desired_state sc_actual_state
       sc_last_error_code sc_last_error_message sc_reconnect_attempt sc_latency_ms sc_created_at
       sc_updated_at sc_tls_server_name sc_ca_credential_ref sc_client_certificate_ref
       sc_client_private_key_ref sc_config_revision sc_managed_by_config].
  rewrite Id_parse_kind_str, read_endpoint_bind, !enum_from_to_string by done.
  rewrite (read_error_code_bind _ _ He).
  destruct (bind_bool_flag (sr_managed_by_config r)) as [-> ->].
  unfold is_uint in *. unfold kInt64Max in *.
  assert (Hi : i64_of_u64 (sr_config_revision r) = sr_config_revision r).
  { unfold i64_of_u64. destruct (Z.ltb_spec (sr_config_revision r) (2 ^ 63)); lia. }
  rewrite u64_of_i64_of_u64 by done. rewrite Hi.
  destruct (Z.ltb_spec (sr_reconnect_attempt r) 0); [lia|].
  destruct (Z.ltb_spec kInt32Max (sr_reconnect_attempt r)); [lia|].
  replace (match sr_latency_ms r with Some _ => _ | None => false end) with false
    by (destruct (sr_latency_ms r) as [l|]; [specialize (Hl l eq_refl)|]; lia).
  destruct (Z.leb_spec (sr_config_revision r) 0); [lia|]. cbn [orb].
  replace (mkServerRecord _ _ _ _ _ _ _ _ _ _ _ _ _ _ _ _ _ _ _) with r by (by destruct r).
  by rewrite Hval.
Qed.

Lemma read_tunnel_bind r :
  tunnel_valid r -> read_tunnel (str (tr_id r)) (bind_tunnel r) = Ok r.
Proof.
  intros [(Hid & Hsid & Hlo & Hre & Hrev) Hval]. pose proof Hval as Hval'.
  apply validate_tunnel_iff in Hval' as (Hk & Hk' & _ & He & Hr & Hr' & _ & _).
  unfold read_tunnel, bind_tunnel.
  cbn [tc_name tc_server_id tc_protocol tc_local_host tc_local_port tc_remote_host tc_remote_port
       tc_desired_state tc_actual_state tc_last_error_code tc_last_error_message tc_created_at
       tc_updated_at tc_last_synced_at tc_config_revision tc_managed_by_config tc_proxy_protocol].
  rewrite !Id_parse_kind_str, !read_split_endpoint_bind, !enum_from_to_string by done.
  rewrite (read_error_code_bind _ _ He).
  destruct (bind_bool_flag (tr_managed_by_config r)) as [-> ->].
  destruct (bind_bool_flag (tr_proxy_protocol r)) as [-> ->].
  unfold is_uint, kInt64Max in *.
  assert (Hi : i64_of_u64 (tr_config_revision r) = tr_config_revision r).
  { unfold i64_of_u64. destruct (Z.ltb_spec (tr_config_revision r) (2 ^ 63)); lia. }
  rewrite u64_of_i64_of_u64 by done. rewrite Hi.
  destruct (Z.leb_spec (tr_config_revision r) 0); [lia|]. cbn [orb].
  replace (mkTunnelRecord _ _ _ _ _ _ _ _ _ _ _ _ _ _ _ _) with r by (by destruct r).
  by rewrite Hval.
Qed.

(** A row that can be read is the row of the record it is read as. *)
Lemma read_server_inv id row r :
  is_i64 (sc_config_revision row) ->
  read_server id row = Ok r -> server_valid r /\ str (sr_id r) = id /\ bind_server r = row.
Proof.
  intros Hi. unfold read_server.
  destruct (Id_parse_kind id server) as [i|] eqn:Ei; [|done].
  destruct (read_endpoint _ _) as [e|] eqn:Ee; [|done].
  destruct (enum_from_string (sc_desired_state row)) as [d|] eqn:Ed; [|done].
  destruct (enum_from_string (sc_actual_state row)) as [a|] eqn:Ea; [|done].
  destruct (_ || _) eqn:Hc; [done|]. destruct (read_error_code _) as [c|] eqn:Ec; [|done].
  cbv zeta. destruct (validate_server_record _) as [[]|] eqn:Hv; [|done]. intros [= <-].
  apply Id_parse_kind_ok in Ei as [-> Hid]. apply read_endpoint_inv in Ee as [He Het].
  apply enum_to_from_string in Ed, Ea. apply read_error_code_inv in Ec.
  apply orb_false_iff in Hc as [Hc Hf]. apply invalid_flag_bind in Hf.
  unfold is_i64 in Hi. split_and!; [split; [|done]|done|].
  - unfold kInt32Max in Hc. split_and!; unfold is_uint; simpl; try done; try lia.
    unfold u64_of_i64. apply Z.mod_pos_bound. lia.
  - unfold bind_server. cbn. rewrite Het, Ed, Ea, Ec, Hf, i64_of_u64_of_i64 by done.
    by destruct row.
Qed.

Lemma read_tunnel_inv id row r :
  is_i64 (tc_config_revision row) ->
  read_tunnel id row = Ok r -> tunnel_valid r /\ str (tr_id r) = id /\ bind_tunnel r = row.
Proof.
  intros Hi. unfold read_tunnel.
  destruct (Id_parse_kind id tunnel) as [i|] eqn:Ei; [|done].
  destruct (Id_parse_kind _ server) as [si|] eqn:Esi; [|done].
  destruct (read_split_endpoint (tc_local_host row) _ _) as [lo|] eqn:El; [|done].
  destruct (read_split_endpoint (tc_remote_host row) _ _) as [re|] eqn:Er; [|done].
  destruct (enum_from_string (tc_protocol row)) as [p|] eqn:Ep; [|done].
  destruct (enum_from_string (tc_desired_state row)) as [d|] eqn:Ed; [|done].
  destruct (enum_from_string (tc_actual_state row)) as [a|] eqn:Ea; [|done].
  destruct (_ || _) eqn:Hc; [done|]. destruct (read_error_code _) as [c|] eqn:Ec; [|done].
  cbv zeta. destruct (validate_tunnel_record _) as [[]|] eqn:Hv; [|done]. intros [= <-].
  apply Id_parse_kind_ok in Ei as [-> Hid]. apply Id_parse_kind_ok in Esi as [-> Hsid].
  apply read_split_endpoint_inv in El as (Hlo & Hlh & Hlp).
  apply read_split_endpoint_inv in Er as (Hre & Hrh & Hrp).
  apply enum_to_from_string in Ep, Ed, Ea. apply read_error_code_inv in Ec.
  apply orb_false_iff in Hc as [Hc Hf2]. apply orb_false_iff in Hc as [Hc Hf].
  apply invalid_flag_bind in Hf, Hf2.
  split_and!; [split; [|done]|done|].
  - split_and!; simpl; try done. unfold u64_of_i64, is_uint. apply Z.mod_pos_bound. lia.
  - unfold bind_tunnel. cbn. rewrite Hlh, Hlp, Hrh, Hrp, Ep, Ed, Ea, Ec, Hf, Hf2,
      i64_of_u64_of_i64 by done. by destruct row.
Qed.
End Roundtrip.
