(* ===== verification/Database.v ===== *)
(** * The state database (src/storage/database.cpp, src/storage/sqlite_internal.cpp)

    One SQLite connection: the tables of the schema with the constraints SQLite
    enforces on them, statements that may fail, and [Transaction].

    SQLite itself is not part of the repository.  What is assumed of it is its
    documented behaviour: a statement that fails changes nothing (the default
    conflict resolution); [BEGIN IMMEDIATE], [COMMIT] and [ROLLBACK] delimit a
    transaction; some failures roll the whole transaction back.  Every statement
    consumes one entry of [faults], which says whether preparing, binding or
    stepping it fails for a reason outside the tables (disk full, I/O error, busy,
    out of memory); theorems hold for every list of faults.  Texts of messages that
    SQLite supplies are parameters. *)
From S2P Require Import Prelude Common Ids Text Endpoint Utf8 Models Rows.

(** ** Failures *)

(** A constraint of the schema, with its extended result code. *)
Inductive Constraint : Set := constraint_primary_key | constraint_unique
                            | constraint_foreign_key | constraint_check.

Definition SQLITE_ERROR : Z := 1.
Definition SQLITE_PERM : Z := 3.
Definition SQLITE_NOMEM : Z := 7.
Definition SQLITE_READONLY : Z := 8.
Definition SQLITE_FULL : Z := 13.
Definition SQLITE_TOOBIG : Z := 18.
Definition SQLITE_CONSTRAINT : Z := 19.
Definition SQLITE_AUTH : Z := 23.
Definition SQLITE_CONSTRAINT_CHECK : Z := 275.
Definition SQLITE_CONSTRAINT_FOREIGNKEY : Z := 787.
Definition SQLITE_CONSTRAINT_PRIMARYKEY : Z := 1555.
Definition SQLITE_CONSTRAINT_UNIQUE : Z := 2067.

Definition constraint_result (c : Constraint) : Z :=
  match c with
  | constraint_primary_key => SQLITE_CONSTRAINT_PRIMARYKEY
  | constraint_unique => SQLITE_CONSTRAINT_UNIQUE
  | constraint_foreign_key => SQLITE_CONSTRAINT_FOREIGNKEY
  | constraint_check => SQLITE_CONSTRAINT_CHECK
  end.

(** [sqlite3_errmsg] after a constraint failure, after a [COMMIT] or a [ROLLBACK] outside a
    transaction, and after a [BEGIN] inside one. *)
Class SqliteMessages := {
  constraint_message : Constraint -> bytes;
  no_transaction_message : bytes;
  nested_transaction_message : bytes
}.

(** A failure that does not come from the tables: its extended result code, the text of
    [sqlite3_errmsg], and whether SQLite rolled the open transaction back. *)
Record Fault : Set := mkFault { fault_result : Z; fault_message : bytes; fault_rolls_back : bool }.

(** [sqlite_error]. *)
Definition sqlite_error (extended_result : Z) (detail operation : bytes) : Error :=
  let primary_result := Z.land extended_result 0xff in
  let code :=
    if (extended_result =? SQLITE_CONSTRAINT_PRIMARYKEY)
       || (extended_result =? SQLITE_CONSTRAINT_UNIQUE) then already_exists
    else if extended_result =? SQLITE_CONSTRAINT_FOREIGNKEY then not_found
    else if primary_result =? SQLITE_CONSTRAINT then invalid_argument
    else if (primary_result =? SQLITE_NOMEM) || (primary_result =? SQLITE_FULL)
            || (primary_result =? SQLITE_TOOBIG) then resource_exhausted
    else if (primary_result =? SQLITE_PERM) || (primary_result =? SQLITE_AUTH)
            || (primary_result =? SQLITE_READONLY) then permission_denied
    else database_error in
  mkError code (operation ++ (if decide (detail = []) then [] else bs ": " ++ detail)).

(** ** The tables *)

Record Tables : Set := mkTables {
  servers : gmap bytes ServerRow;
  tunnels : gmap bytes TunnelRow;
  daemon_identity : option bytes
}.

Definition empty_tables : Tables := mkTables ∅ ∅ None.

(** The [CHECK] constraints of [kCreateServers], [kCreateTunnels] and
    [kCreateDaemonIdentity]; [length(CAST(x AS BLOB))] is the size in bytes. *)
Definition check_id (prefix : string) (id : bytes) : bool :=
  (Zlen id =? 36) && starts_with id (bs prefix) && forallb is_lowercase_hex (drop 4 id).

Definition check_length (lo hi : Z) (value : bytes) : bool :=
  (lo <=? Zlen value) && (Zlen value <=? hi).

Definition check_optional {A} (p : A -> bool) (value : option A) : bool :=
  match value with None => true | Some x => p x end.

Definition check_in (value : bytes) (texts : list string) : bool :=
  bool_decide (value ∈ bs <$> texts).

Definition check_between (lo hi value : Z) : bool := (lo <=? value) && (value <=? hi).

Definition error_code_texts : list string :=
  ["invalid_argument"; "not_found"; "already_exists"; "permission_denied"; "not_authenticated";
   "authentication_failed"; "connection_failed"; "connection_timeout"; "remote_port_in_use";
   "local_connect_failed"; "protocol_error"; "frame_too_large"; "unsupported_version";
   "resource_exhausted"; "database_error"; "tls_error"; "ipc_error"; "internal_error"]%string.

Definition check_server (id : bytes) (row : ServerRow) : bool :=
  check_id "srv_" id
  && check_optional (check_length 1 64) (sc_name row)
  && check_length 1 260 (sc_endpoint row)
  && check_optional (check_length 1 256) (sc_credential_ref row)
  && check_optional (check_length 1 256) (sc_remote_server_id row)
  && check_in (sc_desired_state row) ["enabled"; "disabled"; "removed"]%string
  && check_in (sc_actual_state row)
       ["not_authenticated"; "disconnected"; "connecting"; "tls_handshake"; "authenticating";
        "online"; "backoff"; "disabled"; "error"]%string
  && check_optional (fun code => check_in code error_code_texts) (sc_last_error_code row)
  && check_optional (check_length 0 4096) (sc_last_error_message row)
  && check_between 0 2147483647 (sc_reconnect_attempt row)
  && check_optional (check_between 0 2147483647) (sc_latency_ms row)
  && (0 <=? sc_created_at row)
  && (sc_created_at row <=? sc_updated_at row)
  && check_optional (check_length 1 253) (sc_tls_server_name row)
  && check_optional (check_length 1 256) (sc_ca_credential_ref row)
  && check_optional (check_length 1 256) (sc_client_certificate_ref row)
  && check_optional (check_length 1 256) (sc_client_private_key_ref row)
  && check_between 1 9223372036854775807 (sc_config_revision row)
  && check_between 0 1 (sc_managed_by_config row).

Definition check_tunnel (id : bytes) (row : TunnelRow) : bool :=
  check_id "tun_" id
  && check_optional (check_length 1 64) (tc_name row)
  && check_id "srv_" (tc_server_id row)
  && check_in (tc_protocol row) ["tcp"; "udp"; "socks5"; "p2p"]%string
  && check_length 1 254 (tc_local_host row)
  && check_between 1 65535 (tc_local_port row)
  && check_length 1 254 (tc_remote_host row)
  && check_between 1 65535 (tc_remote_port row)
  && check_in (tc_desired_state row) ["active"; "disabled"; "removed"]%string
  && check_in (tc_actual_state row)
       ["pending"; "registering"; "active"; "failed"; "removing"; "disabled"]%string
  && check_optional (fun code => check_in code error_code_texts) (tc_last_error_code row)
  && check_optional (check_length 0 4096) (tc_last_error_message row)
  && (0 <=? tc_created_at row)
  && (tc_created_at row <=? tc_updated_at row)
  && check_optional (check_between (tc_created_at row) (tc_updated_at row)) (tc_last_synced_at row)
  && check_between 1 9223372036854775807 (tc_config_revision row)
  && check_between 0 1 (tc_managed_by_config row)
  && check_between 0 1 (tc_proxy_protocol row).

Definition check_identity (client_id : bytes) : bool :=
  (Zlen client_id =? 39) && starts_with client_id (bs "client_")
  && forallb is_lowercase_hex (drop 7 client_id).

(** Another row of the table satisfies [p]. *)
Definition exists_other {Row} (p : Row -> bool) (id : bytes) (table : gmap bytes Row) : bool :=
  existsb (fun '(id', row) => negb (bool_decide (id' = id)) && p row) (map_to_list table).

(** [name TEXT UNIQUE]: null names are distinct. *)
Definition same_name (row1 row2 : ServerRow) : bool :=
  bool_decide (sc_name row1 <> None /\ sc_name row1 = sc_name row2).

(** [UNIQUE(server_id, protocol, remote_host, remote_port)]. *)
Definition remote_key (row : TunnelRow) : bytes * bytes * bytes * Z :=
  (tc_server_id row, tc_protocol row, tc_remote_host row, tc_remote_port row).

Definition same_remote (row1 row2 : TunnelRow) : bool :=
  bool_decide (remote_key row1 = remote_key row2).

(** ** Statements that change the tables

    A statement yields the constraint it violates, or its result and the tables. *)

Definition Effect (A : Type) : Type := Tables -> outcome Constraint (A * Tables).

Definition with_servers (t : Tables) (s : gmap bytes ServerRow) : Tables :=
  mkTables s (tunnels t) (daemon_identity t).
Definition with_tunnels (t : Tables) (s : gmap bytes TunnelRow) : Tables :=
  mkTables (servers t) s (daemon_identity t).

(** [INSERT INTO servers(...) VALUES(...)]. *)
Definition insert_server (id : bytes) (row : ServerRow) : Effect unit := fun t =>
  if negb (check_server id row) then Err constraint_check
  else if bool_decide (is_Some (servers t !! id)) then Err constraint_primary_key
  else if exists_other (same_name row) id (servers t) then Err constraint_unique
  else Ok (tt, with_servers t (<[id := row]> (servers t))).

(** [UPDATE servers SET ... WHERE id = ?], with the number of rows changed. *)
Definition update_server_row (id : bytes) (set : ServerRow -> ServerRow) : Effect Z := fun t =>
  match servers t !! id with
  | None => Ok (0, t)
  | Some old =>
      if negb (check_server id (set old)) then Err constraint_check
      else if exists_other (same_name (set old)) id (servers t) then Err constraint_unique
      else Ok (1, with_servers t (<[id := set old]> (servers t)))
  end.

(** [INSERT INTO tunnels(...) VALUES(...)]. *)
Definition insert_tunnel (id : bytes) (row : TunnelRow) : Effect unit := fun t =>
  if negb (check_tunnel id row) then Err constraint_check
  else if bool_decide (is_Some (tunnels t !! id)) then Err constraint_primary_key
  else if exists_other (same_remote row) id (tunnels t) then Err constraint_unique
  else if bool_decide (servers t !! tc_server_id row = None) then Err constraint_foreign_key
  else Ok (tt, with_tunnels t (<[id := row]> (tunnels t))).

(** [UPDATE tunnels SET ... WHERE id = ?]. *)
Definition update_tunnel_row (id : bytes) (set : TunnelRow -> TunnelRow) : Effect Z := fun t =>
  match tunnels t !! id with
  | None => Ok (0, t)
  | Some old =>
      if negb (check_tunnel id (set old)) then Err constraint_check
      else if exists_other (same_remote (set old)) id (tunnels t) then Err constraint_unique
      else if bool_decide (servers t !! tc_server_id (set old) = None) then
        Err constraint_foreign_key
      else Ok (1, with_tunnels t (<[id := set old]> (tunnels t)))
  end.

(** [UPDATE servers SET ... WHERE condition] and [UPDATE tunnels SET ... WHERE
    condition]: the statements that use them assign no column of a uniqueness or
    foreign-key constraint. *)
Definition update_matching {Row} (check : bytes -> Row -> bool) (condition : bytes -> Row -> bool)
    (set : Row -> Row) (table : gmap bytes Row) : outcome Constraint (Z * gmap bytes Row) :=
  let updated := filter (fun '(id, row) => condition id row = true) table in
  if existsb (fun '(id, row) => negb (check id (set row))) (map_to_list updated) then
    Err constraint_check
  else Ok (Z.of_nat (size updated),
           map_imap (fun id row => Some (if condition id row then set row else row)) table).

Definition update_servers (condition : bytes -> ServerRow -> bool) (set : ServerRow -> ServerRow) :
  Effect Z := fun t =>
  '(changed, table) ← update_matching check_server condition set (servers t);
  Ok (changed, with_servers t table).

Definition update_tunnels (condition : bytes -> TunnelRow -> bool) (set : TunnelRow -> TunnelRow) :
  Effect Z := fun t =>
  '(changed, table) ← update_matching check_tunnel condition set (tunnels t);
  Ok (changed, with_tunnels t table).

(** [DELETE FROM tunnels WHERE id = ?]. *)
Definition delete_tunnel (id : bytes) : Effect Z := fun t =>
  match tunnels t !! id with
  | None => Ok (0, t)
  | Some _ => Ok (1, with_tunnels t (delete id (tunnels t)))
  end.

(** [DELETE FROM servers WHERE id = ?], with [ON DELETE CASCADE]. *)
Definition delete_server (id : bytes) : Effect Z := fun t =>
  match servers t !! id with
  | None => Ok (0, t)
  | Some _ =>
      Ok (1, mkTables (delete id (servers t))
               (filter (fun '(_, row) => tc_server_id row <> id) (tunnels t)) (daemon_identity t))
  end.

(** [INSERT INTO daemon_identity(singleton, client_id) VALUES(1, ?1)]. *)
Definition insert_identity (client_id : bytes) : Effect unit := fun t =>
  if negb (check_identity client_id) then Err constraint_check
  else if bool_decide (is_Some (daemon_identity t)) then Err constraint_primary_key
  else Ok (tt, mkTables (servers t) (tunnels t) (Some client_id)).

(** A query. *)
Definition select {A} (query : Tables -> A) : Effect A := fun t => Ok (query t, t).

(** ** The connection *)

(** [Database] with its SQLite connection and the [Transaction] it may have open:
    [tables] is what a statement sees, [saved] the tables [ROLLBACK] returns to, absent
    in autocommit mode; [transaction_] is the active transaction's [failure_], absent
    when [transaction_active_] is false. *)
Record Database : Set := mkDatabase {
  tables : Tables;
  saved : option Tables;
  transaction_ : option (option Error);
  poisoned_ : bool;
  faults : list (option Fault)
}.

(** What a reopened database contains. *)
Definition committed (db : Database) : Tables := default (tables db) (saved db).

Definition idle (db : Database) : Prop := saved db = None /\ transaction_ db = None.

Definition pop_fault (db : Database) : option Fault * Database :=
  (default None (head (faults db)),
   mkDatabase (tables db) (saved db) (transaction_ db) (poisoned_ db) (tail (faults db))).

(** The connection after a failed statement. *)
Definition after_fault (f : Fault) (db : Database) : Database :=
  if fault_rolls_back f then
    mkDatabase (committed db) None (transaction_ db) (poisoned_ db) (faults db)
  else db.

Definition end_transaction (db : Database) : Database :=
  mkDatabase (tables db) (saved db) None (poisoned_ db) (faults db).

Section Connection.
Context `{SqliteMessages}.

(** [Statement::prepare], the bindings and [Statement::step] of one statement. *)
Definition run {A} (operation : string) (effect : Effect A) : Action Database A := fun db =>
  let (fault, db) := pop_fault db in
  match fault with
  | Some f => (Err (sqlite_error (fault_result f) (fault_message f) (bs operation)),
               after_fault f db)
  | None =>
      match effect (tables db) with
      | Ok (a, t) => (Ok a, mkDatabase t (saved db) (transaction_ db) (poisoned_ db) (faults db))
      | Err c => (Err (sqlite_error (constraint_result c) (constraint_message c) (bs operation)),
                  db)
      end
  end.

(** [execute(handle_, "BEGIN IMMEDIATE", ...)]; a transaction is never open here. *)
Definition execute_begin (db : Database) : Result unit * Database :=
  let (fault, db) := pop_fault db in
  match fault with
  | Some f => (Err (sqlite_error (fault_result f) (fault_message f)
                      (bs "begin SQLite transaction")), after_fault f db)
  | None => (success, mkDatabase (tables db) (Some (committed db)) (transaction_ db)
                        (poisoned_ db) (faults db))
  end.

(** [execute(handle_, "COMMIT", ...)] and [execute(handle_, "ROLLBACK", ...)]. *)
Definition execute_end (operation : string) (final : Database -> Tables) (db : Database) :
  Result unit * Database :=
  let (fault, db) := pop_fault db in
  match fault with
  | Some f => (Err (sqlite_error (fault_result f) (fault_message f) (bs operation)),
               after_fault f db)
  | None =>
      match saved db with
      | None => (Err (sqlite_error SQLITE_ERROR no_transaction_message (bs operation)), db)
      | Some _ => (success, mkDatabase (final db) None (transaction_ db) (poisoned_ db) (faults db))
      end
  end.

Definition execute_commit : Database -> Result unit * Database :=
  execute_end "commit SQLite transaction" tables.
Definition execute_rollback : Database -> Result unit * Database :=
  execute_end "roll back SQLite transaction" committed.

(** [Database::begin_transaction]. *)
Definition begin_transaction : Action Database unit := fun db =>
  if poisoned_ db then
    (failure database_error "SQLite connection is unusable after a rollback failure", db)
  else if bool_decide (is_Some (transaction_ db)) then
    (failure invalid_argument "nested SQLite transactions are not supported", db)
  else
    match execute_begin db with
    | (Err e, db) => (Err e, db)
    | (Ok _, db) => (success, mkDatabase (tables db) (saved db) (Some None) (poisoned_ db)
                                (faults db))
    end.

Definition inactive_error : Error :=
  mkError invalid_argument (bs "transaction is no longer active").

(** [Transaction::rollback]. *)
Definition rollback : Action Database unit := fun db =>
  match transaction_ db with
  | None => (Err inactive_error, db)
  | Some _ =>
      let (rolled_back, db) := execute_rollback db in
      (rolled_back,
       if is_ok rolled_back || bool_decide (saved db = None) then end_transaction db else db)
  end.

(** [Transaction::mark_failed]. *)
Definition mark_failed (error : Error) (db : Database) : Database :=
  match transaction_ db with
  | Some None => mkDatabase (tables db) (saved db) (Some (Some error)) (poisoned_ db) (faults db)
  | _ => db
  end.

(** The two failure branches of [Transaction::commit]: roll back and return the original
    error, with a note when that fails as well. *)
Definition rollback_after (original : Error) (note : string) : Action Database unit := fun db =>
  let (rolled_back, db) := rollback db in
  (Err (if is_ok rolled_back then original
        else mkError (code original) (message original ++ bs note)), db).

(** [Transaction::commit]. *)
Definition commit : Action Database unit := fun db =>
  match transaction_ db with
  | None => (Err inactive_error, db)
  | Some (Some original) =>
      rollback_after original "; the transaction rollback also failed" db
  | Some None =>
      match execute_commit db with
      | (Err original, db) =>
          rollback_after original "; the failed commit could not be rolled back"
            (mark_failed original db)
      | (Ok _, db) => (success, end_transaction db)
      end
  end.

(** [Transaction::rollback_noexcept], run by the destructor. *)
Definition rollback_noexcept (db : Database) : Database :=
  match transaction_ db with
  | None => db
  | Some _ =>
      let (result, db) := execute_rollback db in
      mkDatabase (tables db) (saved db) None
        (if negb (is_ok result) && bool_decide (saved db <> None) then true else poisoned_ db)
        (faults db)
  end.

(** The scope of a [Transaction]: [begin_transaction], the code that holds it, and the
    destructor at the end of the scope. *)
Definition with_transaction {A} (body : Action Database A) : Action Database A := fun db =>
  match begin_transaction db with
  | (Err e, db) => (Err e, db)
  | (Ok _, db) => let (r, db) := body db in (r, rollback_noexcept db)
  end.

(** [auto x = m; if (!x) return x; return transaction->commit();] *)
Definition and_commit {A} (m : Action Database A) : Action Database A :=
  a ← m; _ ← commit; mret a.

(** The [fail] closure of the repositories: an error of [m] marks the transaction failed. *)
Definition marking {A} (m : Action Database A) : Action Database A := fun db =>
  match m db with
  | (Err e, db) => (Err e, mark_failed e db)
  | r => r
  end.

Definition transaction_error : Error :=
  mkError invalid_argument (bs "transaction is inactive, failed, or belongs to another database").

(** [if (!transaction.belongs_to(database_) || transaction.failed()) return
    transaction_error();] *)
Definition in_transaction {A} (m : Action Database A) : Action Database A := fun db =>
  match transaction_ db with
  | Some None => m db
  | _ => (Err transaction_error, db)
  end.

(** [fail] of [StateRepository]: mark the transaction failed, end it with [commit],
    and return the error [commit] returns. *)
Definition failing {A} (m : Action Database A) : Action Database A := fun db =>
  match m db with
  | (Err e, db) =>
      match commit (mark_failed e db) with
      | (Err e', db) => (Err e', db)
      | (Ok _, db) => (Err e, db)
      end
  | r => r
  end.

(** [if (database_.poisoned_) return ...;] of the queries. *)
Definition usable {A} (m : Action Database A) : Action Database A := fun db =>
  if poisoned_ db then (failure database_error "SQLite connection is unusable", db) else m db.
End Connection.

(** ** Transactions are atomic

    [sim db c]: the connection [c] is in the same state as [db] and no statement of
    [c] will fail for an outside reason.  An action [m] is [steady] when its run on [db]
    is its run on [c], up to a failure of a statement. *)

Definition sim (db c : Database) : Prop :=
  tables db = tables c /\ transaction_ db = transaction_ c /\ poisoned_ db = poisoned_ c /\
  (saved db = None <-> saved c = None) /\ faults c = [].

Definition fault_free (db : Database) : Prop := Forall (eq None) (faults db).

(** After an error [e]: [db'] is [db], or [db] rolled back; the transaction, if any, is
    still active and has possibly been marked with [e]. *)
Definition undone (e : Error) (db db' : Database) : Prop :=
  (saved db' = saved db \/ (saved db' = None /\ saved db = Some (tables db'))) /\
  poisoned_ db' = poisoned_ db /\
  (transaction_ db' = transaction_ db \/
   transaction_ db = Some None /\ transaction_ db' = Some (Some e)).

Definition kept (db db' : Database) : Prop :=
  saved db' = saved db /\ transaction_ db' = transaction_ db /\ poisoned_ db' = poisoned_ db.

Definition steady {A} (m : Action Database A) : Prop := forall db c, sim db c ->
  match m db with
  | (Ok a, db') => kept db db' /\ exists c', m c = (Ok a, c') /\ sim db' c'
  | (Err e, db') =>
      undone e db db' /\ (fault_free db -> (m c).1 = Err e /\ saved db' = saved db)
  end /\ (fault_free db -> fault_free (m db).2).

Lemma pop_fault_spec db :
  exists f db', pop_fault db = (f, db') /\ tables db' = tables db /\ kept db db' /\
    (fault_free db -> f = None /\ fault_free db') /\ (faults db = [] -> f = None /\ faults db' = []).
Proof.
  eexists _, _. split; [reflexivity|]. unfold kept, fault_free. simpl. split_and!; try done.
  - intros Hf. destruct (faults db) as [|f fs]; [done|]. simpl.
    inversion Hf as [|?? E Hf']; subst. done.
  - by intros ->.
Qed.

Lemma after_fault_undone e f db : undone e db (after_fault f db).
Proof.
  unfold undone, after_fault, committed. destruct (fault_rolls_back f); simpl; [|by auto].
  split_and!; auto. destruct (saved db); auto.
Qed.

Lemma kept_undone e db db' : kept db db' -> undone e db db'.
Proof. unfold kept, undone. intros (-> & -> & ->). split_and!; auto. Qed.

Lemma kept_trans db1 db2 db3 : kept db1 db2 -> kept db2 db3 -> kept db1 db3.
Proof. unfold kept. intros (?&?&?) (?&?&?). split_and!; congruence. Qed.

Lemma kept_undone_trans e db1 db2 db3 :
  kept db1 db2 -> undone e db2 db3 -> undone e db1 db3.
Proof. unfold kept, undone. intros (-> & -> & ->) ?. done. Qed.

Lemma sim_pop db c f db1 :
  sim db c -> pop_fault db = (f, db1) -> exists c1, pop_fault c = (None, c1) /\ sim db1 c1.
Proof.
  intros (Ht & Hx & Hp & Hs & Hf) Hpop. unfold pop_fault in *. rewrite Hf. simplify_eq. simpl.
  eexists. split; [reflexivity|]. unfold sim. simpl. done.
Qed.

Lemma fault_free_after f db : fault_free db -> fault_free (after_fault f db).
Proof. unfold after_fault, fault_free. by destruct (fault_rolls_back f). Qed.

Section Steady.
Context `{SqliteMessages}.

Lemma steady_run {A} operation (effect : Effect A) : steady (run operation effect).
Proof.
  intros db c Hsim. unfold run.
  destruct (pop_fault_spec db) as (f & db1 & Hpop & Ht & Hk & Hff & _).
  destruct (sim_pop _ _ _ _ Hsim Hpop) as (c1 & Hc & Hsim1). rewrite Hpop, Hc.
  destruct f as [f|].
  - split.
    + split; [by eapply kept_undone_trans, after_fault_undone|]. intros [? _]%Hff. done.
    + intros [? _]%Hff. done.
  - destruct Hsim1 as (Et & Ex & Ep & Es & Ef). rewrite Et.
    destruct (effect (tables c1)) as [[a t]|v]; simpl.
    + split; [|intros [_ ?]%Hff; done]. split; [by destruct Hk as (?&?&?)|].
      eexists. split; [reflexivity|]. done.
    + split; [|intros [_ ?]%Hff; done]. split; [by apply kept_undone|].
      by destruct Hk as (-> & _).
Qed.

Lemma steady_ret {A} (a : A) : steady (mret a).
Proof.
  intros db c Hsim. split; [|done]. split; [done|]. by exists c.
Qed.

Lemma steady_lift {A} (r : Result A) : steady (ST_lift r).
Proof.
  intros db c Hsim. unfold ST_lift. destruct r as [a|e]; (split; [|done]).
  - split; [done|]. by exists c.
  - split; [by apply kept_undone|done].
Qed.

Lemma steady_fail {A} code m : steady (fail_with (A := A) code m).
Proof. apply (steady_lift (Err _)). Qed.

Lemma steady_bind {A B} (m : Action Database A) (k : A -> Action Database B) :
  steady m -> (forall a, steady (k a)) -> steady (m ≫= k).
Proof.
  intros Hm Hk db c Hsim. unfold mbind, ST_bind. specialize (Hm db c Hsim).
  destruct (m db) as [[a|e] db1].
  - destruct Hm as [(Hkept & c1 & -> & Hsim1) Hff]. specialize (Hk a db1 c1 Hsim1).
    destruct (k a db1) as [[b|e] db2]; destruct Hk as [[H1 H2] Hff2].
    + split; [|auto]. split; [by eapply kept_trans|done].
    + split; [|auto]. split; [by eapply kept_undone_trans|]. intros Hf.
      destruct H2 as [H2 Hs2]; [auto|]. split; [done|]. destruct Hkept as (<- & _). done.
  - destruct Hm as [[Hu Hc] Hff]. split; [|done]. split; [done|]. intros Hf.
    destruct (Hc Hf) as [Hc' Hs']. split; [|done].
    destruct (m c) as [[?|?] ?]; simpl in *; congruence.
Qed.

Lemma steady_usable {A} (m : Action Database A) : steady m -> steady (usable m).
Proof.
  intros Hm db c Hsim. pose proof Hsim as (_ & _ & Hp & _). unfold usable. rewrite Hp.
  destruct (poisoned_ c); [by apply (steady_fail _ _ db c)|by apply Hm].
Qed.

Lemma mark_failed_undone e db db' : undone e db db' -> undone e db (mark_failed e db').
Proof.
  unfold undone, mark_failed. intros (Hs & Hp & Hx).
  destruct (transaction_ db') as [[?|]|] eqn:E; simpl; rewrite ?E; split_and!; try done.
  destruct Hx as [<-|[? [= ]]]. by right.
Qed.

Lemma steady_marking {A} (m : Action Database A) : steady m -> steady (marking m).
Proof.
  intros Hm db c Hsim. unfold marking. specialize (Hm db c Hsim).
  destruct (m db) as [[a|e] db1].
  - destruct Hm as [(Hkept & c1 & -> & Hsim1) Hff]. split; [|done]. split; [done|by exists c1].
  - destruct Hm as [[Hu Hc] Hff]. split.
    + split; [by apply mark_failed_undone|]. intros Hf. destruct (Hc Hf) as [Hc' Hs'].
      split; [destruct (m c) as [[?|?] ?]; simpl in *; congruence|].
      unfold mark_failed. by destruct (transaction_ db1) as [[?|]|].
    + intros Hf. specialize (Hff Hf). unfold fault_free, mark_failed in *. simpl in *.
      by destruct (transaction_ db1) as [[?|]|].
Qed.

Lemma steady_in_transaction {A} (m : Action Database A) : steady m -> steady (in_transaction m).
Proof.
  intros Hm db c Hsim. pose proof Hsim as (_ & Hx & _). unfold in_transaction. rewrite Hx.
  destruct (transaction_ c) as [[?|]|]; [by apply (steady_lift (Err _) db c)|by apply Hm|
    by apply (steady_lift (Err _) db c)].
Qed.

Lemma steady_if {A} (b : bool) (m1 m2 : Action Database A) :
  steady m1 -> steady m2 -> steady (if b then m1 else m2).
Proof. by destruct b. Qed.

(** The outcome of an action in a transaction none of whose statements fails for an
    outside reason: its result and the tables it leaves. *)
Definition calm (t : Tables) : Database := mkDatabase t (Some t) (Some None) false [].

Definition outcome_of {A} (m : Action Database A) (t : Tables) : Result (A * Tables) :=
  match m (calm t) with
  | (Ok a, c) => Ok (a, tables c)
  | (Err e, _) => Err e
  end.

Lemma rollback_noexcept_spec db t :
  saved db = Some t \/ saved db = None /\ tables db = t ->
  let db' := rollback_noexcept db in
  transaction_ db <> None -> poisoned_ db = false ->
  committed db' = t /\ transaction_ db' = None /\ (poisoned_ db' = true \/ saved db' = None) /\
  (fault_free db -> fault_free db' /\ poisoned_ db' = false /\ saved db' = None).
Proof.
  intros Hsave db' Hx Hp. subst db'. unfold rollback_noexcept, execute_rollback, execute_end.
  destruct (transaction_ db) as [x|]; [|done].
  destruct (pop_fault_spec db) as (f & db1 & Hpop & Ht & (Hs & _ & Hp1) & Hff & _). rewrite Hpop.
  destruct f as [f|]; simpl.
  - assert (committed (after_fault f db1) = t).
    { unfold after_fault, committed. destruct (fault_rolls_back f); simpl; rewrite Hs, ?Ht;
        by destruct Hsave as [->|[-> ?]]. }
    unfold committed in *. simpl. split_and!; try done; [|by intros [? _]%Hff].
    case_bool_decide as Hn; [by left|by right].
  - destruct (saved db1) as [t1|] eqn:E; simpl; unfold committed; simpl; rewrite ?E; simpl.
    + split_and!; try done; [by destruct Hsave as [|[? _]]; congruence|by right|].
      intros [_ ?]%Hff. rewrite Hp1. done.
    + split_and!; try done.
      * destruct Hsave as [|[_ ?]]; congruence.
      * by right.
      * intros [_ ?]%Hff. rewrite Hp1. done.
Qed.

Lemma rollback_spec db t :
  saved db = Some t \/ saved db = None /\ tables db = t ->
  transaction_ db <> None -> poisoned_ db = false ->
  match rollback db with
  | (r, db') =>
      committed db' = t /\ poisoned_ db' = false /\
      (transaction_ db' = None /\ saved db' = None \/ transaction_ db' <> None /\
        (saved db' = Some t \/ saved db' = None /\ tables db' = t)) /\
      (fault_free db -> fault_free db' /\ (saved db = Some t -> r = success /\ transaction_ db' = None))
  end.
Proof.
  intros Hsave Hx Hp. unfold rollback, execute_rollback, execute_end.
  destruct (transaction_ db) as [x|] eqn:Ex; [|done].
  destruct (pop_fault_spec db) as (f & db1 & Hpop & Ht & (Hs & Hx1 & Hp1) & Hff & _).
  rewrite Hpop. destruct f as [f|].
  - cbn [is_ok orb]. unfold after_fault, committed. destruct (fault_rolls_back f).
    + simpl. split_and!; try congruence; [|by auto|by intros [? _]%Hff].
      rewrite Hs, Ht. by destruct Hsave as [->|[-> ?]].
    + case_bool_decide as Hn; simpl; rewrite ?Hs, ?Ht in *;
        (split_and!; [|congruence| |by intros [? _]%Hff]).
      * by destruct Hsave as [->|[-> ?]].
      * by left.
      * by destruct Hsave as [->|[-> ?]].
      * right. rewrite Hx1, Ex. split; [done|]. tauto.
  - destruct (saved db1) as [t1|] eqn:E; simpl; unfold committed; simpl; rewrite ?E; simpl.
    + split_and!; try congruence; [by destruct Hsave as [|[? _]]; congruence|by left|].
      intros [_ ?]%Hff. done.
    + split_and!; try congruence.
      * rewrite E. simpl. destruct Hsave as [|[_ ?]]; congruence.
      * by left.
      * intros [_ ?]%Hff. split; [done|]. congruence.
Qed.

(** [Transaction::commit] on a transaction without a failure makes its tables the
    contents of the database, or fails and leaves the database as it was. *)
Lemma commit_spec db t :
  saved db = Some t -> transaction_ db = Some None -> poisoned_ db = false ->
  match commit db with
  | (Ok _, db') => committed db' = tables db /\ idle db' /\ poisoned_ db' = false
  | (Err _, db') =>
      committed db' = t /\ poisoned_ db' = false /\
      (transaction_ db' = None /\ saved db' = None \/ transaction_ db' <> None /\
        (saved db' = Some t \/ saved db' = None /\ tables db' = t)) /\ ~ fault_free db
  end /\ (fault_free db -> fault_free (commit db).2).
Proof.
  intros Hs Hx Hp. unfold commit, execute_commit, execute_end. rewrite Hx.
  destruct (pop_fault_spec db) as (f & db1 & Hpop & Ht & (Hs1 & Hx1 & Hp1) & Hff & _).
  rewrite Hpop. destruct f as [f|].
  - set (err := sqlite_error _ _ _). set (db2 := mark_failed err (after_fault f db1)).
    assert (undone err db1 db2) as (Hu2 & Hp2 & Hx2)
      by (by apply mark_failed_undone, after_fault_undone).
    pose proof (rollback_spec db2 t) as Hr. unfold rollback_after.
    destruct (rollback db2) as [r db3] eqn:Er.
    destruct Hr as (H1 & H2 & H3 & _).
    + rewrite Hs1, Hs in Hu2. destruct Hu2 as [|[? [= ]]]; auto.
    + destruct Hx2 as [->|[_ ->]]; [congruence|done].
    + congruence.
    + split; [|intros [? _]%Hff; done]. split_and!; try done. by intros [? _]%Hff.
  - rewrite Hs1, Hs. unfold end_transaction, idle, committed. simpl. split_and!; try congruence.
    intros [_ ?]%Hff. done.
Qed.

(** What a transaction scope leaves behind: its result [r] and the database [db'], when
    it ran on an idle database [db] and the code in it computes [spec]. *)
Definition settled {A} (spec : Result (A * Tables)) (db : Database) (r : Result A)
    (db' : Database) : Prop :=
  match r with
  | Ok a => spec = Ok (a, tables db') /\ idle db' /\ poisoned_ db' = false
  | Err e =>
      committed db' = tables db /\ transaction_ db' = None /\
      (poisoned_ db' = true \/ saved db' = None) /\
      (fault_free db -> spec = Err e /\ poisoned_ db' = false /\ saved db' = None)
  end /\ (fault_free db -> fault_free db').

Lemma transaction_entry {A} (body : Action Database A) db :
  idle db -> poisoned_ db = false ->
  (exists e db', with_transaction body db = (Err e, db') /\ committed db' = tables db /\
     transaction_ db' = None /\ saved db' = None /\ ~ fault_free db) \/
  (exists db2, with_transaction body db = ((body db2).1, rollback_noexcept (body db2).2) /\
     sim db2 (calm (tables db)) /\ saved db2 = Some (tables db) /\
     (fault_free db -> fault_free db2)).
Proof.
  intros [Hsv Htx] Hp. unfold with_transaction, begin_transaction. rewrite Hp, Htx.
  rewrite bool_decide_false by (by intros [? [=]]). unfold execute_begin.
  destruct (pop_fault_spec db) as (f & db1 & Hpop & Ht & (Hs1 & Hx1 & Hp1) & Hff & _).
  rewrite Hpop. destruct f as [f|]; [left|right].
  - pose proof (after_fault_undone inactive_error f db1) as (Hu & Hup & Hux).
    assert (saved (after_fault f db1) = None) as Hn by (destruct Hu as [->|[-> _]]; congruence).
    assert (tables (after_fault f db1) = tables db) as Htt.
    { unfold after_fault, committed. destruct (fault_rolls_back f); simpl; [|done].
      rewrite Hs1, Hsv. done. }
    do 2 eexists. split; [reflexivity|]. unfold committed. rewrite Hn. simpl.
    split_and!; try done; [|by intros [? _]%Hff]. destruct Hux as [->|[? _]]; congruence.
  - simpl. eexists. split; [by rewrite (surjective_pairing (body _)) at 1|].
    unfold sim, calm, committed. simpl. rewrite Hs1, Hsv, Ht.
    split_and!; try done; try congruence. intros [_ ?]%Hff. done.
Qed.

(** [mark_failed] followed by [commit]: the transaction ends with a rollback. *)
Lemma failed_commit e db2 db3 t :
  undone e db2 db3 -> saved db2 = Some t -> transaction_ db2 = Some None -> poisoned_ db2 = false ->
  exists e' db4, commit (mark_failed e db3) = (Err e', db4) /\
    committed db4 = t /\ poisoned_ db4 = false /\
    (transaction_ db4 = None /\ saved db4 = None \/ transaction_ db4 <> None /\
       (saved db4 = Some t \/ saved db4 = None /\ tables db4 = t)) /\
    (fault_free db3 -> fault_free db4 /\ (saved db3 = Some t -> e' = e /\ transaction_ db4 = None)).
Proof.
  intros Hu Hs Hx Hp. apply mark_failed_undone in Hu as (Hu1 & Hu2 & Hu3).
  assert (Hmark : transaction_ (mark_failed e db3) = Some (Some e)).
  { unfold mark_failed in *. rewrite Hx in Hu3. destruct (transaction_ db3) as [[?|]|] eqn:E3;
      simpl in *; rewrite ?E3 in *; try done; destruct Hu3 as [[= ]|[_ [= ]]]; by subst. }
  assert (Hsm : saved (mark_failed e db3) = saved db3)
    by (unfold mark_failed; by destruct (transaction_ db3) as [[?|]|]).
  assert (Hfm : fault_free db3 -> fault_free (mark_failed e db3))
    by (unfold fault_free, mark_failed; by destruct (transaction_ db3) as [[?|]|]).
  pose proof (rollback_spec (mark_failed e db3) t) as Hr.
  unfold commit. rewrite Hmark. unfold rollback_after.
  destruct (rollback (mark_failed e db3)) as [r db4]. destruct Hr as (H1 & H2 & H3 & H4).
  - rewrite Hs in Hu1. destruct Hu1 as [|[? [= ]]]; auto.
  - by rewrite Hmark.
  - congruence.
  - do 2 eexists. split; [reflexivity|]. split_and!; try done. intros Hf.
    destruct (H4 (Hfm Hf)) as [H5 H6]. split; [done|]. intros Hs3. rewrite Hsm in H6.
    by destruct (H6 Hs3) as [-> ->].
Qed.

(** The end of a scope whose action succeeded. *)
Lemma settle_commit {A} (a : A) spec db db2 db3 :
  kept db2 db3 -> sim db2 (calm (tables db)) -> saved db2 = Some (tables db) ->
  (fault_free db -> fault_free db3) -> spec = Ok (a, tables db3) ->
  let x := (_ ← commit; mret a) db3 in settled spec db x.1 (rollback_noexcept x.2).
Proof.
  intros (Hk1 & Hk2 & Hk3) (_ & Hx2 & Hp2 & _) Hs2 Hff3 Hspec x. subst x. unfold mbind, ST_bind.
  simpl in Hx2, Hp2. pose proof (commit_spec db3 (tables db)) as Hc.
  destruct (commit db3) as [[[]|e] db4]; (destruct Hc as [Hc Hff4]; [congruence..|]).
  - destruct Hc as (Hc & [Hi1 Hi2] & Hp4). unfold rollback_noexcept. simpl. rewrite Hi2.
    split; [|simpl in *; auto]. unfold committed in Hc. rewrite Hi1 in Hc. simpl in Hc.
    by rewrite Hc.
  - destruct Hc as (Hc & Hp4 & Hd & Hnf). assert (Hnf' : ~ fault_free db) by auto.
    split; [|done]. cbn [fst snd]. destruct Hd as [[Hx4 Hs4]|[Hx4 Hs4]].
    + unfold rollback_noexcept. rewrite Hx4. split_and!; auto; done.
    + destruct (rollback_noexcept_spec db4 (tables db) Hs4 Hx4 Hp4) as (?&?&?&_).
      split_and!; done.
Qed.

(** A transaction scope around a steady action that commits at its end: either the
    database holds what the action computes from its contents, or nothing has changed;
    when no statement fails for an outside reason the result is the action's. *)
Lemma with_transaction_atomic {A} (m : Action Database A) db :
  steady m -> idle db -> poisoned_ db = false ->
  let x := with_transaction (and_commit m) db in
  settled (outcome_of m (tables db)) db x.1 x.2.
Proof.
  intros Hm Hi Hp x. subst x.
  destruct (transaction_entry (and_commit m) db Hi Hp)
    as [(e & db' & -> & Hc & Hx & Hs & Hf)|(db2 & -> & Hsim & Hs2 & Hff2)].
  { split; [|done]. split_and!; auto; done. }
  pose proof Hsim as (_ & Hx2 & Hp2 & _). specialize (Hm _ _ Hsim).
  unfold and_commit, outcome_of. cbn [fst snd].
  unfold mbind at 1 3, ST_bind at 1 3. destruct (m db2) as [[a|e] db3].
  - destruct Hm as [(Hk & c' & -> & Hsim3) Hff3].
    apply (settle_commit a _ db db2 db3 Hk Hsim Hs2); [auto|].
    by destruct Hsim3 as (-> & _).
  - destruct Hm as [[(Hu1 & Hu2 & Hu3) Hc] Hff3].
    destruct (rollback_noexcept_spec db3 (tables db)) as (H1 & H2 & H3 & H4).
    { rewrite Hs2 in Hu1. destruct Hu1 as [|[? [= ]]]; auto. }
    { destruct Hu3 as [->|[_ ->]]; simpl in *; congruence. }
    { simpl in *. congruence. }
    split; [|simpl in *; intros Hf; by apply H4; auto].
    split_and!; try done. intros Hf. destruct (Hc (Hff2 Hf)) as [Hc' _].
    destruct (m (calm (tables db))) as [[?|?] ?]; simpl in Hc'; simplify_eq.
    destruct H4 as (? & ? & ?); auto.
Qed.

(** The same for the scopes of [StateRepository], whose [fail] ends the transaction. *)
Lemma with_transaction_failing {A} (m : Action Database A) db :
  steady m -> idle db -> poisoned_ db = false ->
  let x := with_transaction (a ← failing m; _ ← commit; mret a) db in
  settled (outcome_of m (tables db)) db x.1 x.2.
Proof.
  intros Hm Hi Hp x. subst x.
  destruct (transaction_entry (a ← failing m; _ ← commit; mret a) db Hi Hp)
    as [(e & db' & -> & Hc & Hx & Hs & Hf)|(db2 & -> & Hsim & Hs2 & Hff2)].
  { split; [|done]. split_and!; auto; done. }
  pose proof Hsim as (_ & Hx2 & Hp2 & _). specialize (Hm _ _ Hsim).
  unfold outcome_of. cbn [fst snd].
  unfold mbind at 1 3, ST_bind at 1 3, failing. destruct (m db2) as [[a|e] db3].
  - destruct Hm as [(Hk & c' & -> & Hsim3) Hff3].
    apply (settle_commit a _ db db2 db3 Hk Hsim Hs2); [auto|].
    by destruct Hsim3 as (-> & _).
  - destruct Hm as [[Hu Hc] Hff3].
    assert (Hms : fault_free db -> m (calm (tables db)) = (Err e, (m (calm (tables db))).2)).
    { intros Hf. rewrite (surjective_pairing (m _)) at 1. by rewrite (proj1 (Hc (Hff2 Hf))). }
    destruct (failed_commit e db2 db3 (tables db)) as (e' & db4 & E & H1 & H2 & H3 & H4);
      [done..|]. rewrite E. simpl.
    assert (H4' : fault_free db -> fault_free db4 /\ e' = e /\ transaction_ db4 = None).
    { intros Hf. destruct H4 as [? H5]; [simpl in *; auto|]. split; [done|]. apply H5.
      rewrite (proj2 (Hc (Hff2 Hf))). done. }
    destruct H3 as [[Hx4 Hs4]|[Hx4 Hs4]].
    + unfold rollback_noexcept. rewrite Hx4. split; [|intros Hf; by apply H4'].
      split_and!; auto. intros Hf. destruct (H4' Hf) as (_ & -> & _). by rewrite Hms.
    + destruct (rollback_noexcept_spec db4 (tables db) Hs4 Hx4 H2) as (?&?&?&Hff4).
      split; [|intros Hf; by apply Hff4, H4']. split_and!; try done. intros Hf.
      destruct (H4' Hf) as (_ & _ & Hn). done.
Qed.
End Steady.

Create HintDb steady.
#[export] Hint Resolve steady_run steady_ret steady_lift steady_fail steady_bind steady_usable
  steady_marking steady_in_transaction steady_if : steady.
