(* ===== verification/Repository.v ===== *)
(** * The repositories (src/storage/server_repository.cpp,
    src/storage/tunnel_repository.cpp, src/storage/state_repository.cpp)

    The operations of [ServerRepository], [TunnelRepository] and [StateRepository]
    on the database of Database.v.  An operation with a [Transaction&] parameter has
    the suffix [_in]; the overload without it opens a transaction of its own. *)
From stdpp Require Import sorting.
From S2P Require Import Prelude Common Ids Text Endpoint Utf8 Models Rows Database.

(** ** Ordering *)

(** SQLite's binary collation. *)
Fixpoint bytes_leb (l1 l2 : bytes) : bool :=
  match l1, l2 with
  | [], _ => true
  | _ :: _, [] => false
  | b1 :: l1, b2 :: l2 =>
      (Z_of_byte b1 <? Z_of_byte b2) || ((Z_of_byte b1 =? Z_of_byte b2) && bytes_leb l1 l2)
  end.

(** [ORDER BY created_at, id] on rows of the form [(id, row)]. *)
Definition created_before {Row} (created : Row -> Z) (x y : bytes * Row) : Prop :=
  created x.2 < created y.2 \/ (created x.2 = created y.2 /\ bytes_leb x.1 y.1 = true).

#[export] Instance created_before_dec {Row} (created : Row -> Z) :
  RelDecision (created_before created).
Proof. intros x y. unfold created_before. apply _. Defined.

Definition order_by_created {Row} (created : Row -> Z) (rows : list (bytes * Row)) :
  list (bytes * Row) := merge_sort (created_before created) rows.

(** [ORDER BY id]. *)
Definition id_before {Row} (x y : bytes * Row) : Prop := bytes_leb x.1 y.1 = true.
#[export] Instance id_before_dec {Row} : RelDecision (@id_before Row).
Proof. intros x y. unfold id_before. apply _. Defined.

(** The [while (true)] loop of the [list] operations over the rows of the statement. *)
Fixpoint read_rows {Row Rec} (read : bytes -> Row -> Result Rec) (too_many : Error)
    (max_records : Z) (records : list Rec) (rows : list (bytes * Row)) : Result (list Rec) :=
  match rows with
  | [] => Ok records
  | (id, row) :: rows =>
      if max_records <=? Zlen records then Err too_many
      else record ← read id row; read_rows read too_many max_records (records ++ [record]) rows
  end.

(** [updated_at = MAX(updated_at, ?)] *)
Abbreviation sql_max := Z.max.

(** ** ServerRepository *)

Module ServerRepository.
Section Operations.
Context `{AsioAddress} `{SqliteMessages}.

(** [has_non_tombstone_children]. *)
Definition is_tombstone (row : TunnelRow) : bool :=
  bool_decide (tc_desired_state row = bs "removed")
  && bool_decide (tc_actual_state row = bs "removing").

Definition has_non_tombstone_children (server_id : bytes) (newer_than : option Z) :
  Action Database bool :=
  run "inspect child tunnel tombstones" (select (fun t =>
    existsb (fun '(_, row) =>
               bool_decide (tc_server_id row = server_id) && negb (is_tombstone row)
               && match newer_than with Some time => time <? tc_updated_at row | None => true end)
      (map_to_list (tunnels t)))).

(** [create]. *)
Definition create_in (max_records : Z) (record : ServerRecord) : Action Database unit :=
  in_transaction (marking (
    _ ← ST_lift (validate_server_record record);
    count ← run "count persisted servers" (select (fun t => Z.of_nat (size (servers t))));
    if (count <? 0) || (max_records <=? count) then
      fail_with resource_exhausted "configured server storage limit reached"
    else run "insert server record" (insert_server (str (sr_id record)) (bind_server record)))).

Definition create (max_records : Z) (record : ServerRecord) : Action Database unit :=
  with_transaction (and_commit (create_in max_records record)).

(** [get_by_id]. *)
Definition get_by_id (id : Id) : Action Database ServerRecord :=
  if negb (bool_decide (kind id = server)) then
    fail_with invalid_argument "server lookup requires a server ID"
  else usable (
    row ← run "select server by ID" (select (fun t => servers t !! str id));
    match row with
    | None => fail_with not_found "server record was not found"
    | Some row => ST_lift (read_server (str id) row)
    end).

(** [get_by_name]. *)
Definition get_by_name (name : bytes) : Action Database ServerRecord :=
  _ ← ST_lift (validate_text name 1 kMaxNameBytes "server name");
  usable (
    rows ← run "select server by name" (select (fun t =>
      filter (fun '(_, row) => sc_name row = Some name) (map_to_list (servers t))));
    match rows with
    | [] => fail_with not_found "server record was not found"
    | (id, row) :: rest =>
        record ← ST_lift (read_server id row);
        match rest with
        | [] => mret record
        | _ :: _ => fail_with database_error "server name uniqueness is corrupted"
        end
    end).

(** [list]. *)
Definition list_ (max_records : Z) : Action Database (list ServerRecord) :=
  usable (
    rows ← run "list servers" (select (fun t =>
      order_by_created sc_created_at (map_to_list (servers t))));
    ST_lift (read_rows read_server
      (mkError resource_exhausted (bs "persisted server count exceeds the configured limit"))
      max_records [] rows)).

(** [update]; the [SET] clause assigns every column but [id] and [created_at]. *)
Definition set_server (record : ServerRecord) (old : ServerRow) : ServerRow :=
  let row := bind_server record in
  mkServerRow (sc_name row) (sc_endpoint row) (sc_credential_ref row) (sc_remote_server_id row)
    (sc_desired_state row) (sc_actual_state row) (sc_last_error_code row)
    (sc_last_error_message row) (sc_reconnect_attempt row) (sc_latency_ms row)
    (sc_created_at old) (sc_updated_at row) (sc_tls_server_name row) (sc_ca_credential_ref row)
    (sc_client_certificate_ref row) (sc_client_private_key_ref row) (sc_config_revision row)
    (sc_managed_by_config row).

Definition update_in (record : ServerRecord) : Action Database unit :=
  in_transaction (marking (
    _ ← ST_lift (validate_server_record record);
    existing ← get_by_id (sr_id record);
    if negb (sr_created_at record =? sr_created_at existing)
       || (sr_updated_at record <? sr_updated_at existing)
       || (sr_config_revision record <? sr_config_revision existing) then
      fail_with invalid_argument
        "server creation time is immutable and update time/revision must not move backward"
    else
      changes ← run "update server record"
        (update_server_row (str (sr_id record)) (set_server record));
      if negb (changes =? 1) then fail_with not_found "server record was not found"
      else mret tt)).

Definition update (record : ServerRecord) : Action Database unit :=
  with_transaction (and_commit (update_in record)).

(** [mark_removed]. *)
Definition set_tunnel_removed (updated_at : Z -> Z) (row : TunnelRow) : TunnelRow :=
  mkTunnelRow (tc_name row) (tc_server_id row) (tc_protocol row) (tc_local_host row)
    (tc_local_port row) (tc_remote_host row) (tc_remote_port row) (bs "removed") (bs "removing")
    (tc_last_error_code row) (tc_last_error_message row) (tc_created_at row)
    (updated_at (tc_updated_at row)) (tc_last_synced_at row) (tc_config_revision row)
    (tc_managed_by_config row) (tc_proxy_protocol row).

Definition set_server_removed (updated_at : Z) (row : ServerRow) : ServerRow :=
  mkServerRow (sc_name row) (sc_endpoint row) (sc_credential_ref row) (sc_remote_server_id row)
    (bs "removed") (bs "disabled") (sc_last_error_code row) (sc_last_error_message row) 0 None
    (sc_created_at row) updated_at (sc_tls_server_name row) (sc_ca_credential_ref row)
    (sc_client_certificate_ref row) (sc_client_private_key_ref row) (sc_config_revision row)
    (sc_managed_by_config row).

Definition mark_removed_in (id : Id) (updated_at : Z) : Action Database unit :=
  in_transaction (marking (
    if negb (bool_decide (kind id = server)) || (updated_at <? 0) then
      fail_with invalid_argument "server removal requires a server ID and non-negative time"
    else
      existing ← get_by_id id;
      if updated_at <? sr_updated_at existing then
        fail_with invalid_argument "server update time must not move backward"
      else
        newer_children ← has_non_tombstone_children (str id) (Some updated_at);
        if (newer_children : bool) then
          fail_with invalid_argument "server removal time precedes a child tunnel update"
        else
          _ ← run "mark child tunnels removed"
                (update_tunnels
                   (fun _ row => bool_decide (tc_server_id row = str id) && negb (is_tombstone row))
                   (set_tunnel_removed (fun _ => updated_at)));
          changes ← run "mark server removed"
                      (update_server_row (str id) (set_server_removed updated_at));
          if negb (changes =? 1) then fail_with not_found "server record was not found"
          else mret tt)).

Definition mark_removed (id : Id) (updated_at : Z) : Action Database unit :=
  with_transaction (and_commit (mark_removed_in id updated_at)).

(** [erase]. *)
Definition erase_in (id : Id) : Action Database unit :=
  in_transaction (marking (
    if negb (bool_decide (kind id = server)) then
      fail_with invalid_argument "server erase requires a server ID"
    else
      existing ← get_by_id id;
      if negb (bool_decide (sr_desired_state existing = ServerDesiredState.removed))
         || negb (bool_decide (sr_actual_state existing = ServerActualState.disabled)) then
        fail_with invalid_argument
          "server must be a reconciled removal tombstone before physical erase"
      else
        live_children ← has_non_tombstone_children (str id) None;
        if (live_children : bool) then
          fail_with invalid_argument
            "server still has child tunnels that are not removal tombstones"
        else
          changes ← run "erase server record" (delete_server (str id));
          if negb (changes =? 1) then fail_with not_found "server record was not found"
          else mret tt)).

Definition erase (id : Id) : Action Database unit := with_transaction (and_commit (erase_in id)).

End Operations.
End ServerRepository.

(** ** TunnelRepository *)

Module TunnelRepository.
Section Operations.
Context `{AsioAddress} `{SqliteMessages}.

Definition create_in (max_records : Z) (record : TunnelRecord) : Action Database unit :=
  in_transaction (marking (
    _ ← ST_lift (validate_tunnel_record record);
    count ← run "count persisted tunnels" (select (fun t => Z.of_nat (size (tunnels t))));
    if (count <? 0) || (max_records <=? count) then
      fail_with resource_exhausted "configured tunnel storage limit reached"
    else run "insert tunnel record" (insert_tunnel (str (tr_id record)) (bind_tunnel record)))).

Definition create (max_records : Z) (record : TunnelRecord) : Action Database unit :=
  with_transaction (and_commit (create_in max_records record)).

Definition get_by_id (id : Id) : Action Database TunnelRecord :=
  if negb (bool_decide (kind id = tunnel)) then
    fail_with invalid_argument "tunnel lookup requires a tunnel ID"
  else usable (
    row ← run "select tunnel by ID" (select (fun t => tunnels t !! str id));
    match row with
    | None => fail_with not_found "tunnel record was not found"
    | Some row => ST_lift (read_tunnel (str id) row)
    end).

(** [ORDER BY id LIMIT 2]. *)
Definition get_by_name (name : bytes) : Action Database TunnelRecord :=
  _ ← ST_lift (validate_text name 1 kMaxNameBytes "tunnel name");
  usable (
    rows ← run "select tunnel by name" (select (fun t =>
      take 2 (merge_sort id_before
        (filter (fun '(_, row) => tc_name row = Some name) (map_to_list (tunnels t))))));
    match rows with
    | [] => fail_with not_found "tunnel record was not found"
    | (id, row) :: rest =>
        record ← ST_lift (read_tunnel id row);
        match rest with
        | [] => mret record
        | (id', row') :: _ =>
            _ ← ST_lift (read_tunnel id' row');
            fail_with invalid_argument
              "tunnel name is ambiguous; use the tunnel ID or a server-qualified list"
        end
    end).

Definition tunnel_limit_error : Error :=
  mkError resource_exhausted (bs "persisted tunnel count exceeds the configured limit").

Definition list_ (max_records : Z) : Action Database (list TunnelRecord) :=
  usable (
    rows ← run "list tunnels" (select (fun t =>
      order_by_created tc_created_at (map_to_list (tunnels t))));
    ST_lift (read_rows read_tunnel tunnel_limit_error max_records [] rows)).

Definition list_by_server (max_records : Z) (server_id : Id) :
  Action Database (list TunnelRecord) :=
  if negb (bool_decide (kind server_id = server)) then
    fail_with invalid_argument "tunnel list requires a server ID"
  else usable (
    rows ← run "list tunnels by server" (select (fun t =>
      order_by_created tc_created_at
        (filter (fun '(_, row) => tc_server_id row = str server_id) (map_to_list (tunnels t)))));
    ST_lift (read_rows read_tunnel tunnel_limit_error max_records [] rows)).

(** [update]; the [SET] clause assigns every column but [id] and [created_at]. *)
Definition set_tunnel (record : TunnelRecord) (old : TunnelRow) : TunnelRow :=
  let row := bind_tunnel record in
  mkTunnelRow (tc_name row) (tc_server_id row) (tc_protocol row) (tc_local_host row)
    (tc_local_port row) (tc_remote_host row) (tc_remote_port row) (tc_desired_state row)
    (tc_actual_state row) (tc_last_error_code row) (tc_last_error_message row)
    (tc_created_at old) (tc_updated_at row) (tc_last_synced_at row) (tc_config_revision row)
    (tc_managed_by_config row) (tc_proxy_protocol row).

Definition update_in (record : TunnelRecord) : Action Database unit :=
  in_transaction (marking (
    _ ← ST_lift (validate_tunnel_record record);
    existing ← get_by_id (tr_id record);
    if negb (tr_created_at record =? tr_created_at existing)
       || (tr_updated_at record <? tr_updated_at existing)
       || (tr_config_revision record <? tr_config_revision existing) then
      fail_with invalid_argument
        "tunnel creation time is immutable and update time/revision must not move backward"
    else
      changes ← run "update tunnel record"
        (update_tunnel_row (str (tr_id record)) (set_tunnel record));
      if negb (changes =? 1) then fail_with not_found "tunnel record was not found"
      else mret tt)).

Definition update (record : TunnelRecord) : Action Database unit :=
  with_transaction (and_commit (update_in record)).

(** The columns the runtime updates assign. *)
Definition set_runtime (actual_state : bytes) (error : option Error) (updated_at : Z)
    (last_synced_at : option Z) (row : TunnelRow) : TunnelRow :=
  mkTunnelRow (tc_name row) (tc_server_id row) (tc_protocol row) (tc_local_host row)
    (tc_local_port row) (tc_remote_host row) (tc_remote_port row) (tc_desired_state row)
    actual_state (error_code_to_string ∘ code <$> error) (message <$> error) (tc_created_at row)
    updated_at last_synced_at (tc_config_revision row) (tc_managed_by_config row)
    (tc_proxy_protocol row).

(** [mark_active_pending_by_server]. *)
Definition mark_active_pending_by_server (server_id : Id) (error : option Error)
    (updated_at : Z) : Action Database Z :=
  if negb (bool_decide (kind server_id = server)) || (updated_at <? 0) then
    fail_with invalid_argument "batch tunnel update requires a server ID and non-negative time"
  else
    _ ← match error with
        | None => mret tt
        | Some e =>
            if negb (is_known_error_code (code e)) then
              fail_with invalid_argument "batch tunnel update requires a known non-ok error code"
            else ST_lift (validate_text (message e) 0 kMaxErrorMessageBytes "last_error_message")
        end;
    with_transaction (and_commit (
      run "mark active server tunnels pending"
        (update_tunnels
           (fun _ row => bool_decide (tc_server_id row = str server_id)
                         && bool_decide (tc_desired_state row = bs "active"))
           (fun row => set_runtime (bs "pending") error (sql_max (tc_updated_at row) updated_at)
                         (tc_last_synced_at row) row)))).

(** The [WHERE] clause of [update_runtime_state_if_revision]. *)
Definition runtime_state_matches (id server_id : bytes) (expected_revision : Z) (state : bytes)
    (row_id : bytes) (row : TunnelRow) : bool :=
  bool_decide (row_id = id) && bool_decide (tc_server_id row = server_id)
  && ((bool_decide (state = bs "disabled") && bool_decide (tc_desired_state row = bs "disabled"))
      || (bool_decide (state <> bs "disabled") && bool_decide (tc_desired_state row = bs "active")))
  && (tc_config_revision row =? expected_revision).

(** [update_runtime_state_if_revision]. *)
Definition update_runtime_state_if_revision (id server_id : Id) (expected_revision : Z)
    (actual_state : TunnelActualState.t) (error : option Error) (updated_at : Z)
    (synchronized : bool) : Action Database bool :=
  if negb (bool_decide (kind id = tunnel)) || negb (bool_decide (kind server_id = server))
     || (expected_revision =? 0) || (kInt64Max <? expected_revision) || (updated_at <? 0)
     || (negb (bool_decide (actual_state = TunnelActualState.pending))
         && negb (bool_decide (actual_state = TunnelActualState.registering))
         && negb (bool_decide (actual_state = TunnelActualState.active))
         && negb (bool_decide (actual_state = TunnelActualState.failed))
         && negb (bool_decide (actual_state = TunnelActualState.disabled))) then
    fail_with invalid_argument "conditional tunnel transition arguments are invalid"
  else if match error with
          | Some e => bool_decide (code e = ok) || (kMaxErrorMessageBytes <? Zlen (message e))
          | None => false
          end then
    fail_with invalid_argument "conditional tunnel transition error is invalid"
  else
    with_transaction (and_commit (
      changes ← run "conditionally update tunnel runtime state"
        (update_tunnels
           (runtime_state_matches (str id) (str server_id) (i64_of_u64 expected_revision)
              (enum_to_string actual_state))
           (fun row => set_runtime (enum_to_string actual_state) error
                         (sql_max (tc_updated_at row) updated_at)
                         (if synchronized then Some (sql_max (tc_updated_at row) updated_at)
                          else tc_last_synced_at row) row));
      mret (changes =? 1))).

(** [mark_removed]. *)
Definition mark_removed_in (id : Id) (updated_at : Z) : Action Database unit :=
  in_transaction (marking (
    if negb (bool_decide (kind id = tunnel)) || (updated_at <? 0) then
      fail_with invalid_argument "tunnel removal requires a tunnel ID and non-negative time"
    else
      existing ← get_by_id id;
      if updated_at <? tr_updated_at existing then
        fail_with invalid_argument "tunnel update time must not move backward"
      else
        changes ← run "mark tunnel removed"
          (update_tunnel_row (str id) (ServerRepository.set_tunnel_removed (fun _ => updated_at)));
        if negb (changes =? 1) then fail_with not_found "tunnel record was not found"
        else mret tt)).

Definition mark_removed (id : Id) (updated_at : Z) : Action Database unit :=
  with_transaction (and_commit (mark_removed_in id updated_at)).

(** [erase]. *)
Definition erase_in (id : Id) : Action Database unit :=
  in_transaction (marking (
    if negb (bool_decide (kind id = tunnel)) then
      fail_with invalid_argument "tunnel erase requires a tunnel ID"
    else
      existing ← get_by_id id;
      if negb (bool_decide (tr_desired_state existing = TunnelDesiredState.removed))
         || negb (bool_decide (tr_actual_state existing = TunnelActualState.removing)) then
        fail_with invalid_argument
          "tunnel must be a reconciled removal tombstone before physical erase"
      else
        changes ← run "erase tunnel record" (delete_tunnel (str id));
        if negb (changes =? 1) then fail_with not_found "tunnel record was not found"
        else mret tt)).

Definition erase (id : Id) : Action Database unit := with_transaction (and_commit (erase_in id)).

End Operations.
End TunnelRepository.

(** ** StateRepository *)

Module StateRepository.
Section Operations.
Context `{AsioAddress} `{SqliteMessages}.

(** [client_id]; [random_bytes] is what the generator of [Id::generate] delivers. *)
Definition client_id (random_bytes : option bytes) : Action Database Id :=
  with_transaction (
    identity ← failing (
      stored ← run "read daemon identity" (select daemon_identity);
      match stored with
      | Some value =>
          match Id_parse_kind value client with
          | Ok parsed => mret parsed
          | Err _ => fail_with database_error "persisted daemon client ID is invalid"
          end
      | None =>
          generated ← ST_lift (Id_generate random_bytes client);
          _ ← run "persist daemon identity" (insert_identity (str generated));
          mret generated
      end);
    _ ← commit;
    mret identity).

(** The [CASE] expressions of [recover]. *)
Definition recovered_server_state (row : ServerRow) : bytes :=
  if decide (sc_desired_state row = bs "enabled") then
    match sc_credential_ref row with
    | None => bs "not_authenticated"
    | Some _ => bs "disconnected"
    end
  else bs "disabled".

Definition recovered_tunnel_state (row : TunnelRow) : bytes :=
  if decide (tc_desired_state row = bs "active") then bs "pending"
  else if decide (tc_desired_state row = bs "disabled") then bs "disabled"
  else bs "removing".

Definition normalize_server (recovered_at : Z) (row : ServerRow) : ServerRow :=
  mkServerRow (sc_name row) (sc_endpoint row) (sc_credential_ref row) (sc_remote_server_id row)
    (sc_desired_state row) (recovered_server_state row) (sc_last_error_code row)
    (sc_last_error_message row) 0 None (sc_created_at row)
    (sql_max (sc_updated_at row) recovered_at) (sc_tls_server_name row)
    (sc_ca_credential_ref row) (sc_client_certificate_ref row) (sc_client_private_key_ref row)
    (sc_config_revision row) (sc_managed_by_config row).

Definition server_needs_recovery (row : ServerRow) : bool :=
  bool_decide (sc_actual_state row <> recovered_server_state row)
  || negb (sc_reconnect_attempt row =? 0) || bool_decide (sc_latency_ms row <> None).

Definition normalize_tunnel (recovered_at : Z) (row : TunnelRow) : TunnelRow :=
  mkTunnelRow (tc_name row) (tc_server_id row) (tc_protocol row) (tc_local_host row)
    (tc_local_port row) (tc_remote_host row) (tc_remote_port row) (tc_desired_state row)
    (recovered_tunnel_state row) (tc_last_error_code row) (tc_last_error_message row)
    (tc_created_at row) (sql_max (tc_updated_at row) recovered_at) (tc_last_synced_at row)
    (tc_config_revision row) (tc_managed_by_config row) (tc_proxy_protocol row).

(** The statement that propagates removed servers to their tunnels; its condition reads
    the table [servers]. *)
Definition propagate_removed (recovered_at : Z) : Effect Z := fun t =>
  update_tunnels
    (fun _ row => match servers t !! tc_server_id row with
                  | Some server_row => bool_decide (sc_desired_state server_row = bs "removed")
                  | None => false
                  end && negb (ServerRepository.is_tombstone row))
    (ServerRepository.set_tunnel_removed (fun old => sql_max old recovered_at)) t.

(** [recover]; [recovered_at] is the reading of the clock. *)
Definition recover (limits : StorageLimits) (recovered_at : Z) :
  Action Database RecoverySnapshot :=
  with_transaction (
    snapshot ← failing (
      _ ← ServerRepository.list_ (max_servers limits);
      _ ← TunnelRepository.list_ (max_tunnels limits);
      _ ← run "normalize recovered server state"
            (update_servers (fun _ row => server_needs_recovery row)
               (normalize_server recovered_at));
      _ ← run "propagate removed server tombstones" (propagate_removed recovered_at);
      _ ← run "normalize recovered tunnel state"
            (update_tunnels
               (fun _ row => bool_decide (tc_actual_state row <> recovered_tunnel_state row))
               (normalize_tunnel recovered_at));
      recovered_servers ← ServerRepository.list_ (max_servers limits);
      recovered_tunnels ← TunnelRepository.list_ (max_tunnels limits);
      mret (mkRecoverySnapshot recovered_servers recovered_tunnels));
    _ ← commit;
    mret snapshot).

End Operations.
End StateRepository.

(** ** Every operation is steady *)

Ltac steady :=
  repeat first
    [ progress intros
    | apply steady_in_transaction | apply steady_marking | apply steady_usable
    | apply steady_bind | apply steady_run | apply steady_lift | apply steady_fail
    | apply steady_ret
    | match goal with |- steady (match ?x with _ => _ end) => destruct x end ].

Section SteadyOperations.
Context `{AsioAddress} `{SqliteMessages}.

Lemma steady_server_get id : steady (ServerRepository.get_by_id id).
Proof. unfold ServerRepository.get_by_id. steady. Qed.
Lemma steady_server_list max : steady (ServerRepository.list_ max).
Proof. unfold ServerRepository.list_. steady. Qed.
Lemma steady_server_children id newer :
  steady (ServerRepository.has_non_tombstone_children id newer).
Proof. unfold ServerRepository.has_non_tombstone_children. steady. Qed.
Lemma steady_server_create max r : steady (ServerRepository.create_in max r).
Proof. unfold ServerRepository.create_in. steady. Qed.
Lemma steady_server_update r : steady (ServerRepository.update_in r).
Proof. unfold ServerRepository.update_in. steady; apply steady_server_get || steady. Qed.
Lemma steady_server_mark_removed id t : steady (ServerRepository.mark_removed_in id t).
Proof.
  unfold ServerRepository.mark_removed_in.
  steady; first [apply steady_server_get | apply steady_server_children].
Qed.
Lemma steady_server_erase id : steady (ServerRepository.erase_in id).
Proof.
  unfold ServerRepository.erase_in.
  steady; first [apply steady_server_get | apply steady_server_children].
Qed.
Lemma steady_tunnel_get id : steady (TunnelRepository.get_by_id id).
Proof. unfold TunnelRepository.get_by_id. steady. Qed.
Lemma steady_tunnel_list max : steady (TunnelRepository.list_ max).
Proof. unfold TunnelRepository.list_. steady. Qed.
Lemma steady_tunnel_create max r : steady (TunnelRepository.create_in max r).
Proof. unfold TunnelRepository.create_in. steady. Qed.
Lemma steady_tunnel_update r : steady (TunnelRepository.update_in r).
Proof. unfold TunnelRepository.update_in. steady; apply steady_tunnel_get. Qed.
Lemma steady_tunnel_mark_removed id t : steady (TunnelRepository.mark_removed_in id t).
Proof. unfold TunnelRepository.mark_removed_in. steady; apply steady_tunnel_get. Qed.
Lemma steady_tunnel_erase id : steady (TunnelRepository.erase_in id).
Proof. unfold TunnelRepository.erase_in. steady; apply steady_tunnel_get. Qed.
End SteadyOperations.
