(* ===== verification/StorageSpec.v ===== *)
(** * What the storage layer promises

    The state database as two maps of records, the effect of every repository
    operation on them, and the proof that the operations of Repository.v, run on the
    tables and transactions of Database.v, have exactly that effect or none. *)
From stdpp Require Import sorting.
From S2P Require Import Prelude Common Ids Text Endpoint Utf8 Models Rows Database Repository.

(** ** The abstract state *)

Record State : Set := mkState {
  st_servers : gmap bytes ServerRecord;
  st_tunnels : gmap bytes TunnelRecord;
  st_identity : option bytes
}.

(** The tables that hold a state. *)
Definition encode (st : State) : Tables :=
  mkTables (bind_server <$> st_servers st) (bind_tunnel <$> st_tunnels st) (st_identity st).

(** The configured remote address of a tunnel; no two tunnels share it. *)
Definition remote_address (r : TunnelRecord) : bytes * TunnelProtocol.t * bytes * Z :=
  (str (tr_server_id r), tr_protocol r, host (tr_remote_endpoint r), port (tr_remote_endpoint r)).

Definition names_distinct (m : gmap bytes ServerRecord) : Prop :=
  forall id1 id2 r1 r2, m !! id1 = Some r1 -> m !! id2 = Some r2 ->
    sr_name r1 <> None -> sr_name r1 = sr_name r2 -> id1 = id2.

Definition remotes_distinct (m : gmap bytes TunnelRecord) : Prop :=
  forall id1 id2 r1 r2, m !! id1 = Some r1 -> m !! id2 = Some r2 ->
    remote_address r1 = remote_address r2 -> id1 = id2.

(** The invariant of the database: records are valid and stored under their ids, every
    tunnel belongs to a stored server, names of servers and remote addresses of tunnels
    are distinct, the identity of the daemon is a client id. *)
Record valid_state `{AsioAddress} (st : State) : Prop := {
  valid_servers id r : st_servers st !! id = Some r -> server_valid r /\ str (sr_id r) = id;
  valid_tunnels id r : st_tunnels st !! id = Some r -> tunnel_valid r /\ str (tr_id r) = id;
  valid_parents id r : st_tunnels st !! id = Some r ->
                       is_Some (st_servers st !! str (tr_server_id r));
  valid_names : names_distinct (st_servers st);
  valid_remotes : remotes_distinct (st_tunnels st);
  valid_identity id : st_identity st = Some id -> canonical client id
}.

(** ** The operations *)

Inductive StorageOp : Set :=
| CreateServer (record : ServerRecord)
| UpdateServer (record : ServerRecord)
| RemoveServer (id : Id) (updated_at : Z)
| EraseServer (id : Id)
| CreateTunnel (record : TunnelRecord)
| UpdateTunnel (record : TunnelRecord)
| MarkActivePending (server_id : Id) (error : option Error) (updated_at : Z)
| UpdateRuntimeState (id server_id : Id) (expected_revision : Z) (state : TunnelActualState.t)
    (error : option Error) (updated_at : Z) (synchronized : bool)
| RemoveTunnel (id : Id) (updated_at : Z)
| EraseTunnel (id : Id)
| ClientId (random_bytes : option bytes)
| Recover (recovered_at : Z).

Inductive Answer : Set :=
| Done
| Changed (count : Z)
| Transitioned (changed : bool)
| Identity (id : Id)
| Recovered (snapshot : RecoverySnapshot).

Definition answer {A} (f : A -> Answer) (m : Action Database A) : Action Database Answer :=
  a ← m; mret (f a).

Section Perform.
Context `{AsioAddress} `{SqliteMessages}.

Definition perform (limits : StorageLimits) (op : StorageOp) : Action Database Answer :=
  match op with
  | CreateServer r => answer (fun _ => Done) (ServerRepository.create (max_servers limits) r)
  | UpdateServer r => answer (fun _ => Done) (ServerRepository.update r)
  | RemoveServer id t => answer (fun _ => Done) (ServerRepository.mark_removed id t)
  | EraseServer id => answer (fun _ => Done) (ServerRepository.erase id)
  | CreateTunnel r => answer (fun _ => Done) (TunnelRepository.create (max_tunnels limits) r)
  | UpdateTunnel r => answer (fun _ => Done) (TunnelRepository.update r)
  | MarkActivePending id e t =>
      answer Changed (TunnelRepository.mark_active_pending_by_server id e t)
  | UpdateRuntimeState id sid rev state e t sync =>
      answer Transitioned
        (TunnelRepository.update_runtime_state_if_revision id sid rev state e t sync)
  | RemoveTunnel id t => answer (fun _ => Done) (TunnelRepository.mark_removed id t)
  | EraseTunnel id => answer (fun _ => Done) (TunnelRepository.erase id)
  | ClientId random => answer Identity (StateRepository.client_id random)
  | Recover t => answer Recovered (StateRepository.recover limits t)
  end.
End Perform.

(** ** The specification *)

Definition put_server (r : ServerRecord) (st : State) : State :=
  mkState (<[str (sr_id r) := r]> (st_servers st)) (st_tunnels st) (st_identity st).
Definition put_tunnel (r : TunnelRecord) (st : State) : State :=
  mkState (st_servers st) (<[str (tr_id r) := r]> (st_tunnels st)) (st_identity st).
Definition map_tunnels (f : TunnelRecord -> TunnelRecord) (st : State) : State :=
  mkState (st_servers st) (f <$> st_tunnels st) (st_identity st).

(** The fields of a record that only reflect what the daemon does. *)
Definition with_tunnel_runtime (desired : TunnelDesiredState.t) (actual : TunnelActualState.t)
    (error_code : option ErrorCode) (error_message : option bytes) (updated_at : Z)
    (last_synced_at : option Z) (r : TunnelRecord) : TunnelRecord :=
  mkTunnelRecord (tr_id r) (tr_name r) (tr_server_id r) (tr_protocol r) (tr_local_endpoint r)
    (tr_remote_endpoint r) desired actual error_code error_message (tr_created_at r) updated_at
    last_synced_at (tr_config_revision r) (tr_managed_by_config r) (tr_proxy_protocol r).

Definition with_server_runtime (desired : ServerDesiredState.t) (actual : ServerActualState.t)
    (updated_at : Z) (r : ServerRecord) : ServerRecord :=
  mkServerRecord (sr_id r) (sr_name r) (sr_endpoint r) (sr_credential_ref r)
    (sr_remote_server_id r) desired actual (sr_last_error_code r) (sr_last_error_message r) 0 None
    (sr_created_at r) updated_at (sr_tls_server_name r) (sr_ca_credential_ref r)
    (sr_client_certificate_ref r) (sr_client_private_key_ref r) (sr_config_revision r)
    (sr_managed_by_config r).

Definition tombstone (r : TunnelRecord) : bool :=
  bool_decide (tr_desired_state r = TunnelDesiredState.removed)
  && bool_decide (tr_actual_state r = TunnelActualState.removing).

(** The tunnel [r] as a tombstone. *)
Definition bury (updated_at : Z) (r : TunnelRecord) : TunnelRecord :=
  with_tunnel_runtime TunnelDesiredState.removed TunnelActualState.removing
    (tr_last_error_code r) (tr_last_error_message r) updated_at (tr_last_synced_at r) r.

Definition live_child (server_id : bytes) (r : TunnelRecord) : bool :=
  bool_decide (str (tr_server_id r) = server_id) && negb (tombstone r).

(** The tunnel [r] in the runtime state [actual]. *)
Definition in_state (actual : TunnelActualState.t) (error : option Error) (updated_at : Z)
    (synchronized : bool) (r : TunnelRecord) : TunnelRecord :=
  let now := Z.max (tr_updated_at r) updated_at in
  with_tunnel_runtime (tr_desired_state r) actual (code <$> error) (message <$> error) now
    (if synchronized then Some now else tr_last_synced_at r) r.

(** The actual states a daemon starts with. *)
Definition initial_server_state (r : ServerRecord) : ServerActualState.t :=
  match sr_desired_state r, sr_credential_ref r with
  | ServerDesiredState.enabled, None => ServerActualState.not_authenticated
  | ServerDesiredState.enabled, Some _ => ServerActualState.disconnected
  | _, _ => ServerActualState.disabled
  end.

Definition initial_tunnel_state (r : TunnelRecord) : TunnelActualState.t :=
  match tr_desired_state r with
  | TunnelDesiredState.active => TunnelActualState.pending
  | TunnelDesiredState.disabled => TunnelActualState.disabled
  | TunnelDesiredState.removed => TunnelActualState.removing
  end.

Definition recover_server (now : Z) (r : ServerRecord) : ServerRecord :=
  if bool_decide (sr_actual_state r = initial_server_state r)
     && (sr_reconnect_attempt r =? 0) && bool_decide (sr_latency_ms r = None) then r
  else with_server_runtime (sr_desired_state r) (initial_server_state r)
         (Z.max (sr_updated_at r) now) r.

Definition recover_tunnel (now : Z) (servers : gmap bytes ServerRecord) (r : TunnelRecord) :
  TunnelRecord :=
  let r :=
    match servers !! str (tr_server_id r) with
    | Some s =>
        if bool_decide (sr_desired_state s = ServerDesiredState.removed) && negb (tombstone r)
        then bury (Z.max (tr_updated_at r) now) r else r
    | None => r
    end in
  if bool_decide (tr_actual_state r = initial_tunnel_state r) then r
  else with_tunnel_runtime (tr_desired_state r) (initial_tunnel_state r) (tr_last_error_code r)
         (tr_last_error_message r) (Z.max (tr_updated_at r) now) (tr_last_synced_at r) r.

(** All records in the order in which the repositories list them. *)
Definition listed {Rec} (created : Rec -> Z) (m : gmap bytes Rec) : list Rec :=
  (order_by_created created (map_to_list m)).*2.

Definition recover_spec (now : Z) (st : State) : State :=
  mkState (recover_server now <$> st_servers st)
    (recover_tunnel now (st_servers st) <$> st_tunnels st) (st_identity st).

Section Spec.
Context `{AsioAddress} `{SqliteMessages}.

Definition violation (c : Constraint) (operation : string) {A} : Result A :=
  Err (sqlite_error (constraint_result c) (constraint_message c) (bs operation)).

Definition server_not_found {A} : Result A := failure not_found "server record was not found".
Definition tunnel_not_found {A} : Result A := failure not_found "tunnel record was not found".

(** [get_by_id] of both repositories. *)
Definition find_server (id : Id) (st : State) : Result ServerRecord :=
  if negb (bool_decide (kind id = server)) then
    failure invalid_argument "server lookup requires a server ID"
  else match st_servers st !! str id with None => server_not_found | Some r => Ok r end.

Definition find_tunnel (id : Id) (st : State) : Result TunnelRecord :=
  if negb (bool_decide (kind id = tunnel)) then
    failure invalid_argument "tunnel lookup requires a tunnel ID"
  else match st_tunnels st !! str id with None => tunnel_not_found | Some r => Ok r end.

Definition name_taken (r : ServerRecord) (st : State) : bool :=
  exists_other (fun r' => bool_decide (sr_name r <> None /\ sr_name r = sr_name r'))
    (str (sr_id r)) (st_servers st).

Definition remote_taken (r : TunnelRecord) (st : State) : bool :=
  exists_other (fun r' => bool_decide (remote_address r = remote_address r'))
    (str (tr_id r)) (st_tunnels st).

Definition parent_missing (r : TunnelRecord) (st : State) : bool :=
  bool_decide (st_servers st !! str (tr_server_id r) = None).

Definition has_child (p : TunnelRecord -> bool) (st : State) : bool :=
  existsb (fun '(_, r) => p r) (map_to_list (st_tunnels st)).

Definition create_server_spec (limit : Z) (r : ServerRecord) (st : State) : Result (unit * State) :=
  _ ← validate_server_record r;
  if limit <=? Z.of_nat (size (st_servers st)) then
    failure resource_exhausted "configured server storage limit reached"
  else if bool_decide (is_Some (st_servers st !! str (sr_id r))) then
    violation constraint_primary_key "insert server record"
  else if name_taken r st then violation constraint_unique "insert server record"
  else Ok (tt, put_server r st).

Definition update_server_spec (r : ServerRecord) (st : State) : Result (unit * State) :=
  _ ← validate_server_record r;
  old ← find_server (sr_id r) st;
  if negb (sr_created_at r =? sr_created_at old) || (sr_updated_at r <? sr_updated_at old)
     || (sr_config_revision r <? sr_config_revision old) then
    failure invalid_argument
      "server creation time is immutable and update time/revision must not move backward"
  else if name_taken r st then violation constraint_unique "update server record"
  else Ok (tt, put_server r st).

(** Removing a server buries its tunnels as well. *)
Definition remove_server_spec (id : Id) (now : Z) (st : State) : Result (unit * State) :=
  if negb (bool_decide (kind id = server)) || (now <? 0) then
    failure invalid_argument "server removal requires a server ID and non-negative time"
  else
    old ← find_server id st;
    if now <? sr_updated_at old then
      failure invalid_argument "server update time must not move backward"
    else if has_child (fun r => live_child (str id) r && (now <? tr_updated_at r)) st then
      failure invalid_argument "server removal time precedes a child tunnel update"
    else
      Ok (tt, put_server
                (with_server_runtime ServerDesiredState.removed ServerActualState.disabled now old)
                (map_tunnels (fun r => if live_child (str id) r then bury now r else r) st)).

(** Only a buried server without living tunnels is erased, with its tombstones. *)
Definition erase_server_spec (id : Id) (st : State) : Result (unit * State) :=
  if negb (bool_decide (kind id = server)) then
    failure invalid_argument "server erase requires a server ID"
  else
    old ← find_server id st;
    if negb (bool_decide (sr_desired_state old = ServerDesiredState.removed))
       || negb (bool_decide (sr_actual_state old = ServerActualState.disabled)) then
      failure invalid_argument
        "server must be a reconciled removal tombstone before physical erase"
    else if has_child (live_child (str id)) st then
      failure invalid_argument "server still has child tunnels that are not removal tombstones"
    else
      Ok (tt, mkState (delete (str id) (st_servers st))
                (filter (fun '(_, r) => str (tr_server_id r) <> str id) (st_tunnels st))
                (st_identity st)).

Definition create_tunnel_spec (limit : Z) (r : TunnelRecord) (st : State) : Result (unit * State) :=
  _ ← validate_tunnel_record r;
  if limit <=? Z.of_nat (size (st_tunnels st)) then
    failure resource_exhausted "configured tunnel storage limit reached"
  else if bool_decide (is_Some (st_tunnels st !! str (tr_id r))) then
    violation constraint_primary_key "insert tunnel record"
  else if remote_taken r st then violation constraint_unique "insert tunnel record"
  else if parent_missing r st then violation constraint_foreign_key "insert tunnel record"
  else Ok (tt, put_tunnel r st).

Definition update_tunnel_spec (r : TunnelRecord) (st : State) : Result (unit * State) :=
  _ ← validate_tunnel_record r;
  old ← find_tunnel (tr_id r) st;
  if negb (tr_created_at r =? tr_created_at old) || (tr_updated_at r <? tr_updated_at old)
     || (tr_config_revision r <? tr_config_revision old) then
    failure invalid_argument
      "tunnel creation time is immutable and update time/revision must not move backward"
  else if remote_taken r st then violation constraint_unique "update tunnel record"
  else if parent_missing r st then violation constraint_foreign_key "update tunnel record"
  else Ok (tt, put_tunnel r st).

(** A lost connection sends the active tunnels of a server back to [pending]. *)
Definition active_of (server_id : bytes) (r : TunnelRecord) : bool :=
  bool_decide (str (tr_server_id r) = server_id)
  && bool_decide (tr_desired_state r = TunnelDesiredState.active).

Definition mark_active_pending_spec (server_id : Id) (error : option Error) (now : Z) (st : State) :
  Result (Z * State) :=
  Ok (Z.of_nat (size (filter (fun '(_, r) => active_of (str server_id) r = true) (st_tunnels st))),
      map_tunnels (fun r => if active_of (str server_id) r
                            then in_state TunnelActualState.pending error now false r else r) st).

(** A runtime transition applies to the tunnel it names when the tunnel still has the
    server, the revision and the desired state the transition was computed for. *)
Definition transition_applies (server_id : bytes) (revision : Z) (state : TunnelActualState.t)
    (r : TunnelRecord) : bool :=
  bool_decide (str (tr_server_id r) = server_id)
  && bool_decide (tr_desired_state r =
       if decide (state = TunnelActualState.disabled) then TunnelDesiredState.disabled
       else TunnelDesiredState.active)
  && (tr_config_revision r =? revision).

Definition update_runtime_spec (id server_id : Id) (revision : Z) (state : TunnelActualState.t)
    (error : option Error) (now : Z) (synchronized : bool) (st : State) : Result (bool * State) :=
  match st_tunnels st !! str id with
  | Some r =>
      if transition_applies (str server_id) revision state r
      then Ok (true, put_tunnel (in_state state error now synchronized r) st)
      else Ok (false, st)
  | None => Ok (false, st)
  end.

Definition remove_tunnel_spec (id : Id) (now : Z) (st : State) : Result (unit * State) :=
  if negb (bool_decide (kind id = tunnel)) || (now <? 0) then
    failure invalid_argument "tunnel removal requires a tunnel ID and non-negative time"
  else
    old ← find_tunnel id st;
    if now <? tr_updated_at old then
      failure invalid_argument "tunnel update time must not move backward"
    else Ok (tt, put_tunnel (bury now old) st).

Definition erase_tunnel_spec (id : Id) (st : State) : Result (unit * State) :=
  if negb (bool_decide (kind id = tunnel)) then
    failure invalid_argument "tunnel erase requires a tunnel ID"
  else
    old ← find_tunnel id st;
    if negb (tombstone old) then
      failure invalid_argument
        "tunnel must be a reconciled removal tombstone before physical erase"
    else Ok (tt, mkState (st_servers st) (delete (str id) (st_tunnels st)) (st_identity st)).

(** The identity is generated once. *)
Definition client_id_spec (random : option bytes) (st : State) : Result (Id * State) :=
  match st_identity st with
  | Some text => Ok (mkId client text, st)
  | None =>
      generated ← Id_generate random client;
      Ok (generated, mkState (st_servers st) (st_tunnels st) (Some (str generated)))
  end.

Definition recover_result (limits : StorageLimits) (now : Z) (st : State) :
  Result (RecoverySnapshot * State) :=
  if max_servers limits <? Z.of_nat (size (st_servers st)) then
    failure resource_exhausted "persisted server count exceeds the configured limit"
  else if max_tunnels limits <? Z.of_nat (size (st_tunnels st)) then
    failure resource_exhausted "persisted tunnel count exceeds the configured limit"
  else
    let st' := recover_spec now st in
    Ok (mkRecoverySnapshot (listed sr_created_at (st_servers st'))
          (listed tr_created_at (st_tunnels st')), st').
End Spec.
