(* ===== verification/StorageRun.v ===== *)
(** * The repositories compute the specified effects

    Each operation of Repository.v, run on the tables of a valid state in a transaction
    whose statements do not fail for an outside reason, computes what StorageSpec.v
    specifies; in particular no statement violates a check of the schema. *)
From stdpp Require Import sorting.
From S2P Require Import Prelude Common Ids Text Endpoint Utf8 Models Rows Database Repository.
From S2P Require Import StorageSpec.

(** ** Validated records pass the checks of the schema *)

Lemma validate_text_length v lo hi field :
  validate_text v lo hi field = success -> check_length lo hi v = true.
Proof.
  unfold validate_text, check_length. intros Hv.
  destruct (_ || _) eqn:E; [discriminate Hv|]. lia.
Qed.

Lemma validate_optional_text_length v lo hi field :
  validate_optional_text v lo hi field = success ->
  check_optional (check_length lo hi) v = true.
Proof. destruct v; [apply validate_text_length|done]. Qed.

Lemma check_id_canonical k prefix id :
  id_prefix k = bs prefix -> length (bs prefix) = 4%nat -> canonical k id ->
  check_id prefix id = true.
Proof.
  intros Hk Hl (digits & -> & Hd & Hh). rewrite Hk. unfold check_id.
  rewrite Zlen_app, starts_with_app, <- Hl, drop_app_length, Hd, Hh.
  unfold Zlen. by rewrite Hl.
Qed.

Lemma check_error_code c m :
  validate_error_fields c m = success ->
  check_optional (fun code => check_in code error_code_texts) (error_code_to_string <$> c) = true.
Proof.
  destruct c as [c|]; [|done]. unfold validate_error_fields. simpl.
  destruct (is_known_error_code c) eqn:E; [|discriminate]. intros _.
  apply is_known_error_code_iff in E. by destruct c.
Qed.

Lemma check_error_message c m :
  validate_error_fields c m = success -> check_optional (check_length 0 4096) m = true.
Proof.
  unfold validate_error_fields. intros Hm.
  destruct (match c with Some c => negb (is_known_error_code c) | None => false end);
    [discriminate Hm|]. by apply validate_optional_text_length in Hm.
Qed.

Section Checks.
Context `{AsioAddressLaws}.

(** The longest canonical text of an endpoint. *)
Lemma Endpoint_to_string_length e : Endpoint_wf e -> 1 <= Zlen (Endpoint_to_string e) <= 260.
Proof.
  unfold Endpoint_wf, Endpoint_parse, max_endpoint_text_length. case_decide as Hn; [done|].
  destruct (Z.ltb_spec 260 (Zlen (Endpoint_to_string e))); [done|]. intros _.
  destruct (Endpoint_to_string e); [done|]. rewrite Zlen_cons in *.
  pose proof (Zlen_nonneg l). lia.
Qed.

Lemma check_server_bind r :
  server_valid r -> check_server (str (sr_id r)) (bind_server r) = true.
Proof.
  intros [(Hid & Hep & Hra & Hrev) Hval].
  apply validate_server_iff in Hval
    as (Hk & ? & ? & ? & ? & ? & ? & ? & _ & Hr & Hr' & He & Hra' & Hl & Ht).
  unfold validate_reference in *. unfold Id_wf in Hid. rewrite Hk in Hid. apply Endpoint_to_string_length in Hep.
  pose proof (check_error_message _ _ He) as Hm.
  unfold check_server, bind_server.
  cbn [sc_name sc_endpoint sc_credential_ref sc_remote_server_id sc_desired_state sc_actual_state
       sc_last_error_code sc_last_error_message sc_reconnect_attempt sc_latency_ms sc_created_at
       sc_updated_at sc_tls_server_name sc_ca_credential_ref sc_client_certificate_ref
       sc_client_private_key_ref sc_config_revision sc_managed_by_config].
  rewrite !andb_true_iff. split_and!; try done;
    try (by apply (check_id_canonical server)); try (by eapply validate_optional_text_length);
    try (by eapply check_error_code).
  all: unfold check_between, check_length in |- *; unfold kInt32Max, kInt64Max, is_uint in *; try lia.
  - by destruct (sr_desired_state r).
  - by destruct (sr_actual_state r).
  - destruct (sr_latency_ms r) as [l|]; [|done]. specialize (Hl l eq_refl).
    cbn [check_optional]. unfold check_between. lia.
  - unfold i64_of_u64. destruct (Z.ltb_spec (sr_config_revision r) (2 ^ 63)); lia.
  - by destruct (sr_managed_by_config r).
Qed.

Lemma check_tunnel_bind r :
  tunnel_valid r -> check_tunnel (str (tr_id r)) (bind_tunnel r) = true.
Proof.
  intros [(Hid & Hsid & Hlo & Hre & Hrev) Hval]. apply validate_tunnel_iff in Hval as (Hk & Hk' & ? & He & Hr & Hr' & Ht & Hs).
  unfold Id_wf in Hid, Hsid. rewrite Hk in Hid. rewrite Hk' in Hsid.
  apply Endpoint_parse_shape in Hlo as (Hlp & Hlh & _), Hre as (Hrp & Hrh & _).
  pose proof (check_error_message _ _ He) as Hm.
  unfold check_tunnel, bind_tunnel.
  cbn [tc_name tc_server_id tc_protocol tc_local_host tc_local_port tc_remote_host tc_remote_port
       tc_desired_state tc_actual_state tc_last_error_code tc_last_error_message tc_created_at
       tc_updated_at tc_last_synced_at tc_config_revision tc_managed_by_config tc_proxy_protocol].
  rewrite !andb_true_iff. split_and!; try done;
    try (by apply (check_id_canonical tunnel)); try (by apply (check_id_canonical server));
    try (by eapply validate_optional_text_length); try (by eapply check_error_code).
  all: unfold check_between, check_length in |- *; unfold kInt64Max, is_uint in *; try lia.
  - by destruct (tr_protocol r).
  - by destruct (tr_desired_state r).
  - by destruct (tr_actual_state r).
  - destruct (tr_last_synced_at r) as [x|]; [|done]. specialize (Hs x eq_refl).
    cbn [check_optional]. unfold check_between. lia.
  - unfold i64_of_u64. destruct (Z.ltb_spec (tr_config_revision r) (2 ^ 63)); lia.
  - by destruct (tr_managed_by_config r).
  - by destruct (tr_proxy_protocol r).
Qed.
End Checks.

(** ** The tables of a state *)

Lemma existsb_map_to_list_fmap {A B} (f : A -> B) (p : bytes -> B -> bool) (m : gmap bytes A) :
  existsb (fun '(id, x) => p id x) (map_to_list (f <$> m)) =
  existsb (fun '(id, x) => p id (f x)) (map_to_list m).
Proof.
  rewrite map_to_list_fmap. induction (map_to_list m) as [|[id x] l IH]; [done|]. csimpl.
  by rewrite IH.
Qed.

Lemma existsb_map_to_list {A} (p : bytes -> A -> bool) (m : gmap bytes A) :
  existsb (fun '(id, x) => p id x) (map_to_list m) = true <->
  exists id x, m !! id = Some x /\ p id x = true.
Proof.
  rewrite existsb_exists. split.
  - intros ([id x] & Hin & Hp). exists id, x. split; [|done].
    by apply elem_of_map_to_list, list_elem_of_In.
  - intros (id & x & Hm & Hp). exists (id, x). split; [|done].
    by apply list_elem_of_In, elem_of_map_to_list.
Qed.

Lemma existsb_map_to_list_false {A} (p : bytes -> A -> bool) (m : gmap bytes A) (id : bytes) x :
  existsb (fun '(id, x) => p id x) (map_to_list m) = false -> m !! id = Some x -> p id x = false.
Proof.
  intros Hf Hm. destruct (p id x) eqn:E; [|done]. rewrite <- Hf. symmetry.
  apply existsb_map_to_list. eauto.
Qed.

Lemma existsb_map_to_list_ext {A} (p q : bytes -> A -> bool) (m : gmap bytes A) :
  (forall id x, m !! id = Some x -> p id x = q id x) ->
  existsb (fun '(id, x) => p id x) (map_to_list m) =
  existsb (fun '(id, x) => q id x) (map_to_list m).
Proof.
  intros Hpq. apply eq_bool_prop_intro. rewrite !Is_true_true, !existsb_map_to_list.
  split; intros (id & x & Hm & Hp); exists id, x; (split; [done|]);
    [rewrite <- Hpq by done|rewrite Hpq by done]; done.
Qed.

Lemma exists_other_fmap {A B} (f : A -> B) (p : B -> bool) (id : bytes) (m : gmap bytes A) :
  exists_other p id (f <$> m) = exists_other (fun x => p (f x)) id m.
Proof.
  unfold exists_other.
  apply (existsb_map_to_list_fmap f (fun id' row => negb (bool_decide (id' = id)) && p row)).
Qed.

Lemma exists_other_true {A} (p : A -> bool) (id : bytes) (m : gmap bytes A) :
  exists_other p id m = true <-> exists id' x, m !! id' = Some x /\ id' <> id /\ p x = true.
Proof.
  unfold exists_other.
  rewrite (existsb_map_to_list (fun id' x => negb (bool_decide (id' = id)) && p x)).
  split; intros (id' & x & Hm & Hx); exists id', x; (split; [done|]).
  - apply andb_prop in Hx as [Hn Hx]. by apply negb_true_iff, bool_decide_eq_false in Hn.
  - destruct Hx as [Hn ->]. by rewrite bool_decide_false.
Qed.

Lemma exists_other_ext {A} (p q : A -> bool) (id : bytes) (m : gmap bytes A) :
  (forall x, p x = q x) -> exists_other p id m = exists_other q id m.
Proof.
  intros Hpq. apply eq_bool_prop_intro. rewrite !Is_true_true, !exists_other_true.
  by setoid_rewrite Hpq.
Qed.

Lemma map_imap_fmap {A B} (f : A -> B) (m : gmap bytes A) :
  map_imap (fun _ x => Some (f x)) m = f <$> m.
Proof. apply map_eq. intros i. rewrite map_lookup_imap, lookup_fmap. by destruct (m !! i). Qed.

(** An update of the rows of records is an update of the records. *)
Lemma update_matching_fmap {Row Rec} (bind : Rec -> Row) (check condition : bytes -> Row -> bool)
    (set : Row -> Row)
    (condition' : bytes -> Rec -> bool) (set' : Rec -> Rec) (m : gmap bytes Rec) :
  (forall id r, m !! id = Some r -> condition id (bind r) = condition' id r) ->
  (forall id r, m !! id = Some r -> condition' id r = true ->
     set (bind r) = bind (set' r) /\ check id (bind (set' r)) = true) ->
  update_matching check condition set (bind <$> m) =
  Ok (Z.of_nat (size (filter (fun '(id, r) => condition' id r = true) m)),
      bind <$> map_imap (fun id r => Some (if condition' id r then set' r else r)) m).
Proof.
  intros Hcond Hset. unfold update_matching. cbv zeta.
  assert (Hfilter : filter (fun '(id, row) => condition id row = true) (bind <$> m) =
                    bind <$> filter (fun '(id, r) => condition' id r = true) m).
  { rewrite map_filter_fmap. f_equal. apply map_filter_ext. intros id r Hm. simpl.
    by rewrite Hcond. }
  rewrite Hfilter, map_size_fmap.
  destruct (existsb _ _) eqn:E.
  - exfalso. rewrite (existsb_map_to_list_fmap bind (fun id row => negb (check id (set row)))) in E.
    apply existsb_map_to_list in E as (id & r & Hm & Hc).
    apply map_lookup_filter_Some in Hm as [Hm Hc'].
    destruct (Hset _ _ Hm Hc') as [Hs Hok]. by rewrite Hs, Hok in Hc.
  - do 2 f_equal. apply map_eq. intros id.
    rewrite map_lookup_imap, !lookup_fmap, map_lookup_imap.
    destruct (m !! id) as [r|] eqn:Hm; [|done]. simpl. rewrite (Hcond _ _ Hm).
    destruct (condition' id r) eqn:Hc; [|done]. by destruct (Hset _ _ Hm Hc) as [-> _].
Qed.

(** ** Running the operations on the tables of a state *)

Definition encode_result {A} (x : Result (A * State)) : Result (A * Tables) :=
  match x with
  | Ok (a, st) => Ok (a, encode st)
  | Err e => Err e
  end.

(** A connection in a transaction, none of whose statements fails for an outside reason. *)
Abbreviation quiet t s := (mkDatabase t s (Some None) false []).

Section Run.
Context `{AsioAddressLaws} `{SqliteMessages}.

Lemma run_quiet {A} operation (effect : Effect A) t s x :
  run operation effect (mkDatabase t s x false []) =
  match effect t with
  | Ok (a, t') => (Ok a, mkDatabase t' s x false [])
  | Err c => (violation c operation, mkDatabase t s x false [])
  end.
Proof. unfold run. simpl. by destruct (effect t) as [[??]|]. Qed.

Lemma get_server_quiet st id s :
  valid_state st ->
  ServerRepository.get_by_id id (quiet (encode st) s) = (find_server id st, quiet (encode st) s).
Proof.
  intros Hst. unfold ServerRepository.get_by_id, find_server. destruct (negb _) eqn:Hk; [done|].
  unfold usable, mbind, ST_bind. cbn [poisoned_]. rewrite run_quiet. cbn.
  rewrite lookup_fmap. destruct (st_servers st !! str id) as [r|] eqn:E; [|done]. simpl.
  destruct (valid_servers st Hst _ _ E) as [Hr <-]. unfold ST_lift. by rewrite read_server_bind.
Qed.

Lemma get_tunnel_quiet st id s :
  valid_state st ->
  TunnelRepository.get_by_id id (quiet (encode st) s) = (find_tunnel id st, quiet (encode st) s).
Proof.
  intros Hst. unfold TunnelRepository.get_by_id, find_tunnel. destruct (negb _) eqn:Hk; [done|].
  unfold usable, mbind, ST_bind. cbn [poisoned_]. rewrite run_quiet. cbn.
  rewrite lookup_fmap. destruct (st_tunnels st !! str id) as [r|] eqn:E; [|done]. simpl.
  destruct (valid_tunnels st Hst _ _ E) as [Hr <-]. unfold ST_lift. by rewrite read_tunnel_bind.
Qed.

Lemma name_taken_encode r st :
  exists_other (same_name (bind_server r)) (str (sr_id r)) (servers (encode st)) = name_taken r st.
Proof. simpl. by rewrite exists_other_fmap. Qed.

Lemma remote_key_address r1 r2 :
  remote_key (bind_tunnel r1) = remote_key (bind_tunnel r2) <->
  remote_address r1 = remote_address r2.
Proof.
  unfold remote_key, remote_address. simpl. split; intros E; simplify_eq; try congruence.
  match goal with Hp : enum_to_string _ = _ |- _ => apply enum_to_string_inj in Hp end.
  congruence.
Qed.

Lemma remote_taken_encode r st :
  exists_other (same_remote (bind_tunnel r)) (str (tr_id r)) (tunnels (encode st)) =
  remote_taken r st.
Proof.
  simpl. rewrite exists_other_fmap. apply exists_other_ext. intros x.
  unfold same_remote. apply bool_decide_ext, remote_key_address.
Qed.

Lemma parent_missing_encode r st :
  bool_decide (servers (encode st) !! tc_server_id (bind_tunnel r) = None) = parent_missing r st.
Proof.
  simpl. rewrite lookup_fmap. unfold parent_missing. apply bool_decide_ext.
  by rewrite fmap_None.
Qed.

Lemma encode_put_server r st :
  with_servers (encode st) (<[str (sr_id r) := bind_server r]> (servers (encode st))) =
  encode (put_server r st).
Proof. unfold encode, put_server, with_servers. simpl. by rewrite fmap_insert. Qed.

Lemma encode_put_tunnel r st :
  with_tunnels (encode st) (<[str (tr_id r) := bind_tunnel r]> (tunnels (encode st))) =
  encode (put_tunnel r st).
Proof. unfold encode, put_tunnel, with_tunnels. simpl. by rewrite fmap_insert. Qed.

Lemma update_server_quiet (set : ServerRow -> ServerRow) r st old :
  server_valid r -> st_servers st !! str (sr_id r) = Some old -> set (bind_server old) = bind_server r ->
  update_server_row (str (sr_id r)) set (encode st) =
  if name_taken r st then Err constraint_unique else Ok (1, encode (put_server r st)).
Proof.
  intros Hr Hold Hs. unfold update_server_row. cbn [servers encode]. rewrite lookup_fmap, Hold.
  cbn [fmap option_fmap option_map]. rewrite Hs, check_server_bind by done. cbn [negb].
  rewrite <- name_taken_encode, <- encode_put_server. cbn [servers encode].
  by destruct (exists_other _ _ _).
Qed.

Lemma update_tunnel_quiet (set : TunnelRow -> TunnelRow) r st old :
  tunnel_valid r -> st_tunnels st !! str (tr_id r) = Some old -> set (bind_tunnel old) = bind_tunnel r ->
  update_tunnel_row (str (tr_id r)) set (encode st) =
  if remote_taken r st then Err constraint_unique
  else if parent_missing r st then Err constraint_foreign_key
  else Ok (1, encode (put_tunnel r st)).
Proof.
  intros Hr Hold Hs. unfold update_tunnel_row. cbn [tunnels encode]. rewrite lookup_fmap, Hold.
  cbn [fmap option_fmap option_map]. rewrite Hs, check_tunnel_bind by done. cbn [negb].
  rewrite <- remote_taken_encode, <- parent_missing_encode, <- encode_put_tunnel.
  cbn [tunnels servers encode]. by destruct (exists_other _ _ _).
Qed.
End Run.

(** Unfolds a repository operation on a quiet connection up to its first statement. *)
Ltac enter :=
  unfold outcome_of, calm, in_transaction, marking, mbind, ST_bind; cbn [transaction_];
  unfold ST_lift, fail_with, ST_fail, mret, ST_ret.

Section Outcomes.
Context `{AsioAddressLaws} `{SqliteMessages}.

Lemma create_server_outcome limit r st :
  server_record_wf r ->
  outcome_of (ServerRepository.create_in limit r) (encode st) =
  encode_result (create_server_spec limit r st).
Proof.
  intros Hwf. unfold ServerRepository.create_in, create_server_spec. enter.
  destruct (validate_server_record r) as [[]|e] eqn:Hv; [|done].
  rewrite run_quiet. cbn [select servers encode]. rewrite map_size_fmap.
  destruct (Z.ltb_spec (Z.of_nat (size (st_servers st))) 0); [lia|]. cbn [orb].
  unfold outcome_bind. destruct (limit <=? _); [done|]. rewrite run_quiet. unfold insert_server.
  rewrite check_server_bind by done. cbn [negb servers encode].
  rewrite (bool_decide_ext (is_Some _) (is_Some (st_servers st !! str (sr_id r))))
    by (by rewrite lookup_fmap, fmap_is_Some).
  destruct (bool_decide _); [done|].
  change (bind_server <$> st_servers st) with (servers (encode st)).
  rewrite name_taken_encode. destruct (name_taken r st); [done|]. by rewrite encode_put_server.
Qed.

Lemma update_server_outcome r st :
  valid_state st -> server_record_wf r ->
  outcome_of (ServerRepository.update_in r) (encode st) = encode_result (update_server_spec r st).
Proof.
  intros Hst Hwf. unfold ServerRepository.update_in, update_server_spec. enter.
  destruct (validate_server_record r) as [[]|e] eqn:Hv; [|done].
  rewrite get_server_quiet by done. unfold outcome_bind.
  destruct (find_server (sr_id r) st) as [old|] eqn:Hf; [|done].
  destruct (_ || _) eqn:Hm; [done|]. rewrite run_quiet.
  unfold find_server in Hf. destruct (negb _); [done|].
  destruct (st_servers st !! str (sr_id r)) as [old'|] eqn:E; [|done]. simplify_eq.
  rewrite (update_server_quiet _ r st old); [|done..|].
  - by destruct (name_taken r st).
  - unfold ServerRepository.set_server, bind_server. cbn.
    replace (sr_created_at old) with (sr_created_at r) by lia. done.
Qed.

Lemma create_tunnel_outcome limit r st :
  tunnel_record_wf r ->
  outcome_of (TunnelRepository.create_in limit r) (encode st) =
  encode_result (create_tunnel_spec limit r st).
Proof.
  intros Hwf. unfold TunnelRepository.create_in, create_tunnel_spec. enter.
  destruct (validate_tunnel_record r) as [[]|e] eqn:Hv; [|done].
  rewrite run_quiet. cbn [select tunnels encode]. rewrite map_size_fmap.
  destruct (Z.ltb_spec (Z.of_nat (size (st_tunnels st))) 0); [lia|]. cbn [orb].
  unfold outcome_bind. destruct (limit <=? _); [done|]. rewrite run_quiet. unfold insert_tunnel.
  rewrite check_tunnel_bind by done. cbn [negb].
  rewrite (bool_decide_ext (is_Some _) (is_Some (st_tunnels st !! str (tr_id r))))
    by (cbn [tunnels encode]; by rewrite lookup_fmap, fmap_is_Some).
  destruct (bool_decide _); [done|].
  rewrite remote_taken_encode, parent_missing_encode, encode_put_tunnel.
  destruct (remote_taken r st); [done|]. by destruct (parent_missing r st).
Qed.

Lemma update_tunnel_outcome r st :
  valid_state st -> tunnel_record_wf r ->
  outcome_of (TunnelRepository.update_in r) (encode st) = encode_result (update_tunnel_spec r st).
Proof.
  intros Hst Hwf. unfold TunnelRepository.update_in, update_tunnel_spec. enter.
  destruct (validate_tunnel_record r) as [[]|e] eqn:Hv; [|done].
  rewrite get_tunnel_quiet by done. unfold outcome_bind.
  destruct (find_tunnel (tr_id r) st) as [old|] eqn:Hf; [|done].
  destruct (_ || _) eqn:Hm; [done|]. rewrite run_quiet.
  unfold find_tunnel in Hf. destruct (negb _); [done|].
  destruct (st_tunnels st !! str (tr_id r)) as [old'|] eqn:E; [|done]. simplify_eq.
  rewrite (update_tunnel_quiet _ r st old); [|done..|].
  - destruct (remote_taken r st); [done|]. by destruct (parent_missing r st).
  - unfold TunnelRepository.set_tunnel, bind_tunnel. cbn.
    replace (tr_created_at old) with (tr_created_at r) by lia. done.
Qed.
End Outcomes.

(** ** Records keep their validity *)

Section Validity.
Context `{AsioAddress}.

Lemma tunnel_valid_runtime d a ec em updated synced r :
  tunnel_valid r -> validate_error_fields ec em = success -> tr_created_at r <= updated ->
  (forall s, synced = Some s -> tr_created_at r <= s <= updated) ->
  tunnel_valid (with_tunnel_runtime d a ec em updated synced r).
Proof.
  intros [Hwf Hval] He Hu Hs. split; [done|].
  apply validate_tunnel_iff in Hval as (? & ? & ? & _ & ? & ? & ? & _).
  apply validate_tunnel_iff. cbn. split_and!; try done; try lia; intros s ?%Hs; lia.
Qed.

(** What validity says about times and errors. *)
Lemma tunnel_valid_inv r :
  tunnel_valid r ->
  validate_error_fields (tr_last_error_code r) (tr_last_error_message r) = success /\
  0 <= tr_created_at r <= tr_updated_at r /\
  (forall s, tr_last_synced_at r = Some s -> tr_created_at r <= s <= tr_updated_at r).
Proof.
  by intros [_ (_ & _ & _ & ? & _ & _ & ? & ?)%validate_tunnel_iff].
Qed.

Lemma bury_valid now r : tunnel_valid r -> tr_updated_at r <= now -> tunnel_valid (bury now r).
Proof.
  intros Hr Hn. pose proof (tunnel_valid_inv r Hr) as (He & Ht & Hs).
  apply tunnel_valid_runtime; try done; [lia|]. intros s ?%Hs. lia.
Qed.

Lemma in_state_valid a e now sync r :
  tunnel_valid r -> validate_error_fields (code <$> e) (message <$> e) = success ->
  tunnel_valid (in_state a e now sync r).
Proof.
  intros Hr He. pose proof (tunnel_valid_inv r Hr) as (_ & Ht & Hs).
  apply tunnel_valid_runtime; try done; [lia|]. destruct sync; [intros s [= <-]; lia|].
  intros s ?%Hs. lia.
Qed.

Lemma server_valid_runtime d a now r :
  server_valid r -> sr_updated_at r <= now -> server_valid (with_server_runtime d a now r).
Proof.
  intros [Hwf Hval] Hn. split.
  { destruct Hwf as (? & ? & _ & ?). by split_and!. }
  apply validate_server_iff in Hval
    as (? & ? & ? & ? & ? & ? & ? & ? & ? & ? & ? & ? & ? & ? & ?).
  apply validate_server_iff. cbn. split_and!; try done; unfold kInt32Max; lia.
Qed.

Lemma name_taken_false r old st :
  valid_state st -> st_servers st !! str (sr_id r) = Some old -> sr_name r = sr_name old ->
  name_taken r st = false.
Proof.
  intros Hst Hold Hn. apply not_true_is_false. unfold name_taken. rewrite exists_other_true.
  intros (id' & x & Hx & Hne & Hb%bool_decide_eq_true). apply Hne. symmetry.
  eapply (valid_names st Hst); [exact Hold|exact Hx|..]; rewrite <- Hn; apply Hb.
Qed.

Lemma remote_taken_false r old st :
  valid_state st -> st_tunnels st !! str (tr_id r) = Some old ->
  remote_address r = remote_address old -> remote_taken r st = false.
Proof.
  intros Hst Hold Hn. apply not_true_is_false. unfold remote_taken. rewrite exists_other_true.
  intros (id' & x & Hx & Hne & Hb%bool_decide_eq_true). apply Hne. symmetry.
  eapply (valid_remotes st Hst); [exact Hold|exact Hx|congruence].
Qed.

Lemma parent_missing_false r id old st :
  valid_state st -> st_tunnels st !! id = Some old -> tr_server_id r = tr_server_id old ->
  parent_missing r st = false.
Proof.
  intros Hst Hold Hn. apply bool_decide_eq_false. rewrite Hn.
  destruct (valid_parents st Hst _ _ Hold) as [s ->]. done.
Qed.
End Validity.

Section Outcomes2.
Context `{AsioAddressLaws} `{SqliteMessages}.

(** The states of a bound row compare as the states of the record do. *)
Lemma bound_state {E : Set} `{EnumTableLaws E} (e e' : E) text :
  enum_to_string e' = bs text -> bool_decide (enum_to_string e = bs text) = bool_decide (e = e').
Proof.
  intros <-. apply bool_decide_ext. split; [apply enum_to_string_inj|congruence].
Qed.

Lemma is_tombstone_bind r : ServerRepository.is_tombstone (bind_tunnel r) = tombstone r.
Proof.
  unfold ServerRepository.is_tombstone, tombstone. cbn [tc_desired_state tc_actual_state bind_tunnel].
  by rewrite (bound_state _ TunnelDesiredState.removed),
    (bound_state _ TunnelActualState.removing) by done.
Qed.

Lemma update_tunnels_encode condition set (condition' : TunnelRecord -> bool) set' st :
  (forall id r, st_tunnels st !! id = Some r -> condition id (bind_tunnel r) = condition' r) ->
  (forall id r, st_tunnels st !! id = Some r -> condition' r = true ->
     set (bind_tunnel r) = bind_tunnel (set' r) /\ tunnel_valid (set' r) /\ str (tr_id (set' r)) = id) ->
  update_tunnels condition set (encode st) =
  Ok (Z.of_nat (size (filter (fun '(_, r) => condition' r = true) (st_tunnels st))),
      encode (map_tunnels (fun r => if condition' r then set' r else r) st)).
Proof.
  intros Hcond Hset. unfold update_tunnels. cbn [tunnels encode].
  rewrite (update_matching_fmap bind_tunnel _ _ _ (fun _ r => condition' r) set').
  - cbn. unfold with_tunnels, encode, map_tunnels. cbn. by rewrite map_imap_fmap.
  - done.
  - intros id r Hm Hc. destruct (Hset _ _ Hm Hc) as (-> & Hv & <-). split; [done|].
    by apply check_tunnel_bind.
Qed.

Lemma children_quiet st id newer s :
  ServerRepository.has_non_tombstone_children id newer (quiet (encode st) s) =
  (Ok (has_child (fun r => live_child id r && match newer with
                                              | Some time => time <? tr_updated_at r
                                              | None => true end) st), quiet (encode st) s).
Proof.
  unfold ServerRepository.has_non_tombstone_children. rewrite run_quiet.
  unfold select, has_child. cbn [tunnels encode]. do 2 f_equal.
  rewrite (existsb_map_to_list_fmap bind_tunnel (fun _ row =>
    bool_decide (tc_server_id row = id) && negb (ServerRepository.is_tombstone row)
    && match newer with Some time => time <? tc_updated_at row | None => true end)).
  apply (existsb_map_to_list_ext (fun _ r => bool_decide (tc_server_id (bind_tunnel r) = id)
    && negb (ServerRepository.is_tombstone (bind_tunnel r)) && _) (fun _ r => live_child id r && _)).
  intros id' r _. by rewrite is_tombstone_bind.
Qed.

Lemma remove_tunnel_outcome id now st :
  valid_state st ->
  outcome_of (TunnelRepository.mark_removed_in id now) (encode st) =
  encode_result (remove_tunnel_spec id now st).
Proof.
  intros Hst. unfold TunnelRepository.mark_removed_in, remove_tunnel_spec. enter.
  destruct (_ || _) eqn:Hk; [done|]. rewrite get_tunnel_quiet by done. unfold outcome_bind.
  destruct (find_tunnel id st) as [old|] eqn:Hf; [|done].
  destruct (Z.ltb_spec now (tr_updated_at old)); [done|]. rewrite run_quiet.
  unfold find_tunnel in Hf. destruct (negb _); [done|].
  destruct (st_tunnels st !! str id) as [old'|] eqn:E; [|done]. simplify_eq.
  destruct (valid_tunnels st Hst _ _ E) as [Hv Hid]. rewrite <- Hid in *.
  change (str (tr_id old)) with (str (tr_id (bury now old))) in *.
  rewrite (update_tunnel_quiet _ (bury now old) st old); [|by apply bury_valid|done..].
  rewrite (remote_taken_false _ old), (parent_missing_false _ _ old) by done. done.
Qed.

Lemma erase_tunnel_outcome id st :
  valid_state st ->
  outcome_of (TunnelRepository.erase_in id) (encode st) = encode_result (erase_tunnel_spec id st).
Proof.
  intros Hst. unfold TunnelRepository.erase_in, erase_tunnel_spec. enter.
  destruct (negb _) eqn:Hk; [done|]. rewrite get_tunnel_quiet by done. unfold outcome_bind.
  destruct (find_tunnel id st) as [old|] eqn:Hf; [|done]. unfold tombstone. rewrite negb_andb.
  destruct (_ || _); [done|]. rewrite run_quiet. unfold find_tunnel in Hf. rewrite Hk in Hf.
  destruct (st_tunnels st !! str id) as [old'|] eqn:E; [|done].
  unfold delete_tunnel. cbn [tunnels encode]. rewrite lookup_fmap, E. cbn.
  unfold with_tunnels, encode. cbn. by rewrite fmap_delete.
Qed.

Lemma erase_server_outcome id st :
  valid_state st ->
  outcome_of (ServerRepository.erase_in id) (encode st) = encode_result (erase_server_spec id st).
Proof.
  intros Hst. unfold ServerRepository.erase_in, erase_server_spec. enter.
  destruct (negb _) eqn:Hk; [done|]. rewrite get_server_quiet by done. unfold outcome_bind.
  destruct (find_server id st) as [old|] eqn:Hf; [|done].
  destruct (_ || _); [done|]. rewrite children_quiet.
  replace (has_child (fun r => live_child (str id) r && true) st)
    with (has_child (live_child (str id)) st)
    by (apply (existsb_map_to_list_ext (fun _ r => live_child (str id) r)
          (fun _ r => live_child (str id) r && true)); intros; by rewrite andb_true_r).
  destruct (has_child _ _); [done|]. rewrite run_quiet. unfold find_server in Hf. rewrite Hk in Hf.
  destruct (st_servers st !! str id) as [old'|] eqn:E; [|done].
  unfold delete_server. cbn [servers encode]. rewrite lookup_fmap, E. cbn.
  unfold encode. cbn. by rewrite fmap_delete, map_filter_fmap.
Qed.

Lemma remove_server_outcome id now st :
  valid_state st ->
  outcome_of (ServerRepository.mark_removed_in id now) (encode st) =
  encode_result (remove_server_spec id now st).
Proof.
  intros Hst. unfold ServerRepository.mark_removed_in, remove_server_spec. enter.
  destruct (_ || _) eqn:Hk; [done|]. rewrite get_server_quiet by done. unfold outcome_bind.
  destruct (find_server id st) as [old|] eqn:Hf; [|done].
  destruct (Z.ltb_spec now (sr_updated_at old)); [done|]. rewrite children_quiet.
  destruct (has_child _ st) eqn:Hc; [done|]. rewrite run_quiet.
  rewrite (update_tunnels_encode _ _ (live_child (str id)) (bury now)).
  2: { intros ? r _. unfold live_child. by rewrite <- is_tombstone_bind. }
  2: { intros i r Hm Hl. destruct (valid_tunnels st Hst _ _ Hm) as [Hv Hi].
       split_and!; [done| |done]. apply bury_valid; [done|]. unfold has_child in Hc.
       apply (existsb_map_to_list_false
         (fun _ r => live_child (str id) r && (now <? tr_updated_at r)) _ _ _ Hc) in Hm.
       rewrite Hl in Hm. cbn in Hm. lia. }
  rewrite run_quiet. unfold find_server in Hf. destruct (negb _); [done|].
  destruct (st_servers st !! str id) as [old'|] eqn:E; [|done]. simplify_eq.
  destruct (valid_servers st Hst _ _ E) as [Hv Hid].
  set (r := with_server_runtime _ _ _ _). set (st1 := map_tunnels _ _).
  assert (Hid' : str (sr_id r) = str id) by done. rewrite <- Hid'.
  rewrite (update_server_quiet _ r st1 old); [|by apply server_valid_runtime|by rewrite Hid'|done].
  replace (name_taken r st1) with (name_taken r st) by done.
  by rewrite (name_taken_false r old) by (by rewrite ?Hid').
Qed.
End Outcomes2.

(** ** Listing *)

Section MergeSort.
Context {A B : Type} (f : A -> B) (RA : relation A) (RB : relation B)
  `{!RelDecision RA} `{!RelDecision RB}.
Hypothesis Hf : forall x y, RB (f x) (f y) <-> RA x y.

Lemma list_merge_fmap l1 l2 :
  list_merge RB (f <$> l1) (f <$> l2) = f <$> list_merge RA l1 l2.
Proof.
  revert l2. induction l1 as [|x l1 IH1]; intros l2; [by destruct l2|].
  induction l2 as [|y l2 IH2]; [done|]. rewrite !fmap_cons, !list_merge_cons.
  destruct (decide (RA x y)) as [Hr|Hr].
  - rewrite decide_True by (by apply Hf). by rewrite fmap_cons, <- IH1.
  - rewrite decide_False by (by rewrite Hf). rewrite fmap_cons, <- IH2. done.
Qed.

Local Definition stack_fmap : list (option (list A)) -> list (option (list B)) :=
  map (option_map (fmap f)).

Lemma merge_list_to_stack_fmap st l :
  merge_list_to_stack RB (stack_fmap st) (f <$> l) = stack_fmap (merge_list_to_stack RA st l).
Proof.
  revert l. induction st as [|[l'|] st IH]; intros l; [done| |done].
  cbn [stack_fmap map option_map merge_list_to_stack]. rewrite list_merge_fmap. f_equal. apply IH.
Qed.

Lemma merge_stack_fmap st : merge_stack RB (stack_fmap st) = f <$> merge_stack RA st.
Proof.
  induction st as [|[l|] st IH]; [done| |done].
  cbn [stack_fmap map option_map merge_stack]. rewrite <- list_merge_fmap. f_equal. apply IH.
Qed.

Lemma merge_sort_fmap l : merge_sort RB (f <$> l) = f <$> merge_sort RA l.
Proof.
  unfold merge_sort. change (@nil (option (list B))) with (stack_fmap []).
  generalize (@nil (option (list A))). induction l as [|x l IH]; intros st; csimpl.
  - apply merge_stack_fmap.
  - rewrite <- IH. f_equal. apply (merge_list_to_stack_fmap st [x]).
Qed.
End MergeSort.

Lemma order_by_created_fmap {Row Rec} (bind : Rec -> Row) (created : Row -> Z)
    (created' : Rec -> Z) (m : gmap bytes Rec) :
  (forall r, created (bind r) = created' r) ->
  order_by_created created (map_to_list (bind <$> m)) =
  prod_map id bind <$> order_by_created created' (map_to_list m).
Proof.
  intros Hc. rewrite map_to_list_fmap. apply merge_sort_fmap.
  intros [i r] [j r']. unfold created_before. simpl. by rewrite !Hc.
Qed.

Lemma read_rows_bind {Row Rec} (bind : Rec -> Row) read too_many max
    (rows : list (bytes * Rec)) acc :
  (forall i r, (i, r) ∈ rows -> read i (bind r) = Ok r) -> Zlen acc <= max ->
  read_rows read too_many max acc (prod_map id bind <$> rows) =
  if max <? Zlen acc + Zlen rows then Err too_many else Ok (acc ++ rows.*2).
Proof.
  revert acc. induction rows as [|[i r] rows IH]; intros acc Hread Hacc; csimpl.
  - change (Zlen []) with 0. destruct (Z.ltb_spec max (Zlen acc + 0)); [lia|].
    by rewrite app_nil_r.
  - rewrite Zlen_cons. pose proof (Zlen_nonneg rows).
    destruct (Z.leb_spec max (Zlen acc)).
    { destruct (Z.ltb_spec max (Zlen acc + (1 + Zlen rows))); [done|lia]. }
    unfold id at 1. rewrite Hread by (by left). cbn [mbind outcome_bind].
    rewrite IH; [|by intros; apply Hread; right|rewrite Zlen_app; change (Zlen [r]) with 1; lia].
    rewrite Zlen_app. change (Zlen [r]) with 1. rewrite <- app_assoc, Z.add_assoc. done.
Qed.

Section Lists.
Context `{AsioAddressLaws} `{SqliteMessages}.

Lemma Zlen_order_by_created {Rec} (created : Rec -> Z) (m : gmap bytes Rec) :
  Zlen (order_by_created created (map_to_list m)) = Z.of_nat (size m).
Proof.
  unfold Zlen, order_by_created. by rewrite merge_sort_Permutation, length_map_to_list.
Qed.

Lemma elem_of_order_by_created {Rec} (created : Rec -> Z) (m : gmap bytes Rec) i r :
  (i, r) ∈ order_by_created created (map_to_list m) <-> m !! i = Some r.
Proof. unfold order_by_created. by rewrite merge_sort_Permutation, elem_of_map_to_list. Qed.

Lemma list_servers_quiet st max s x :
  valid_state st -> 0 <= max ->
  ServerRepository.list_ max (mkDatabase (encode st) s x false []) =
  (if max <? Z.of_nat (size (st_servers st)) then
     failure resource_exhausted "persisted server count exceeds the configured limit"
   else Ok (listed sr_created_at (st_servers st)), mkDatabase (encode st) s x false []).
Proof.
  intros Hst Hmax. unfold ServerRepository.list_, usable, mbind, ST_bind. cbn [poisoned_].
  rewrite run_quiet. unfold select, ST_lift. cbn [servers encode].
  rewrite (order_by_created_fmap bind_server _ sr_created_at) by done.
  rewrite (read_rows_bind bind_server); [|intros i r Hi|done].
  - change (Zlen []) with 0. rewrite Z.add_0_l, Zlen_order_by_created. by destruct (max <? _).
  - apply elem_of_order_by_created in Hi. destruct (valid_servers st Hst _ _ Hi) as [Hr <-].
    by apply read_server_bind.
Qed.

Lemma list_tunnels_quiet st max s x :
  valid_state st -> 0 <= max ->
  TunnelRepository.list_ max (mkDatabase (encode st) s x false []) =
  (if max <? Z.of_nat (size (st_tunnels st)) then Err TunnelRepository.tunnel_limit_error
   else Ok (listed tr_created_at (st_tunnels st)), mkDatabase (encode st) s x false []).
Proof.
  intros Hst Hmax. unfold TunnelRepository.list_, usable, mbind, ST_bind. cbn [poisoned_].
  rewrite run_quiet. unfold select, ST_lift. cbn [tunnels encode].
  rewrite (order_by_created_fmap bind_tunnel _ tr_created_at) by done.
  rewrite (read_rows_bind bind_tunnel); [|intros i r Hi|done].
  - change (Zlen []) with 0. rewrite Z.add_0_l, Zlen_order_by_created. by destruct (max <? _).
  - apply elem_of_order_by_created in Hi. destruct (valid_tunnels st Hst _ _ Hi) as [Hr <-].
    by apply read_tunnel_bind.
Qed.
End Lists.

Section Outcomes3.
Context `{AsioAddressLaws} `{SqliteMessages}.

(** The bodies of the transactions of the two runtime updates. *)
Definition pending_body (server_id : Id) (error : option Error) (now : Z) : Action Database Z :=
  run "mark active server tunnels pending"
    (update_tunnels
       (fun _ row => bool_decide (tc_server_id row = str server_id)
                     && bool_decide (tc_desired_state row = bs "active"))
       (fun row => TunnelRepository.set_runtime (bs "pending") error
                     (sql_max (tc_updated_at row) now) (tc_last_synced_at row) row)).

Definition transition_body (id server_id : Id) (revision : Z) (state : TunnelActualState.t)
    (error : option Error) (now : Z) (synchronized : bool) : Action Database bool :=
  changes ← run "conditionally update tunnel runtime state"
    (update_tunnels
       (TunnelRepository.runtime_state_matches (str id) (str server_id) (i64_of_u64 revision)
          (enum_to_string state))
       (fun row => TunnelRepository.set_runtime (enum_to_string state) error
                     (sql_max (tc_updated_at row) now)
                     (if synchronized then Some (sql_max (tc_updated_at row) now)
                      else tc_last_synced_at row) row));
  mret (changes =? 1).

Lemma set_runtime_bind (state : TunnelActualState.t) error now (synchronized : bool) r :
  TunnelRepository.set_runtime (enum_to_string state) error (sql_max (tr_updated_at r) now)
    (if synchronized then Some (sql_max (tr_updated_at r) now) else tr_last_synced_at r)
    (bind_tunnel r) = bind_tunnel (in_state state error now synchronized r).
Proof. by destruct error. Qed.

Lemma pending_outcome server_id error now st :
  valid_state st -> validate_error_fields (code <$> error) (message <$> error) = success ->
  outcome_of (pending_body server_id error now) (encode st) =
  encode_result (mark_active_pending_spec server_id error now st).
Proof.
  intros Hst He. unfold outcome_of, calm, pending_body. rewrite run_quiet.
  rewrite (update_tunnels_encode _ _ (active_of (str server_id))
             (in_state TunnelActualState.pending error now false)); [done|..].
  - intros id r _. unfold active_of. cbn [tc_server_id tc_desired_state bind_tunnel].
    by rewrite (bound_state _ TunnelDesiredState.active).
  - intros id r Hm _. destruct (valid_tunnels st Hst _ _ Hm) as [Hv <-].
    split_and!; [apply (set_runtime_bind TunnelActualState.pending _ _ false)| |done].
    by apply in_state_valid.
Qed.

(** An update that leaves all but one tunnel alone. *)
Definition at_tunnel (id : bytes) (p : TunnelRecord -> bool) (r : TunnelRecord) : bool :=
  bool_decide (str (tr_id r) = id) && p r.

Lemma map_at_tunnel (id : bytes) (p : TunnelRecord -> bool) (f : TunnelRecord -> TunnelRecord) st :
  valid_state st -> (forall r, tr_id (f r) = tr_id r) ->
  map_tunnels (fun r => if at_tunnel id p r then f r else r) st =
  match st_tunnels st !! id with
  | Some r => if p r then put_tunnel (f r) st else st
  | None => st
  end.
Proof.
  intros Hst Hf.
  assert (Hsame : (forall r, st_tunnels st !! id = Some r -> p r = false) ->
            map_tunnels (fun r => if at_tunnel id p r then f r else r) st = st).
  { intros Hp. destruct st as [ss ts i]. unfold map_tunnels. simpl in *. f_equal.
    apply map_eq. intros j. rewrite lookup_fmap. destruct (ts !! j) as [r|] eqn:E; [|done]. simpl.
    f_equal. unfold at_tunnel. case_bool_decide as Hj; [|done]. simpl.
    destruct (valid_tunnels _ Hst j r E) as [_ Hid]. simpl in *. rewrite Hp; [done|]. congruence. }
  destruct (st_tunnels st !! id) as [r|] eqn:E; [|by apply Hsame].
  destruct (p r) eqn:Hp; [|apply Hsame; congruence].
  destruct (valid_tunnels st Hst id r E) as [_ Hid].
  unfold map_tunnels, put_tunnel. f_equal. rewrite Hf, Hid. apply map_eq. intros j.
  rewrite lookup_fmap. destruct (decide (j = id)) as [->|Hj].
  - rewrite E, lookup_insert_eq. simpl. unfold at_tunnel. by rewrite bool_decide_true, Hp.
  - rewrite lookup_insert_ne by done. destruct (st_tunnels st !! j) as [r'|] eqn:E'; [|done].
    destruct (valid_tunnels st Hst j r' E') as [_ Hid']. simpl. unfold at_tunnel.
    by rewrite bool_decide_false by congruence.
Qed.

Lemma count_at_tunnel (id : bytes) (p : TunnelRecord -> bool) st :
  valid_state st ->
  size (filter (fun '(_, r) => at_tunnel id p r = true) (st_tunnels st)) =
  match st_tunnels st !! id with Some r => if p r then 1%nat else 0%nat | None => 0%nat end.
Proof.
  intros Hst.
  assert (Hnone : (forall r, st_tunnels st !! id = Some r -> p r = false) ->
            size (filter (fun '(_, r) => at_tunnel id p r = true) (st_tunnels st)) = 0%nat).
  { intros Hp. apply map_size_empty_iff, map_empty_filter. intros j r E Hr.
    unfold at_tunnel in Hr. apply andb_prop in Hr as [Hj%bool_decide_eq_true Hr].
    destruct (valid_tunnels st Hst j r E) as [_ Hid]. rewrite Hp in Hr; [done|congruence]. }
  destruct (st_tunnels st !! id) as [r|] eqn:E; [|by apply Hnone].
  destruct (p r) eqn:Hp; [|apply Hnone; congruence].
  destruct (valid_tunnels st Hst id r E) as [_ Hid].
  replace (filter _ _) with ({[ id := r ]} : gmap bytes TunnelRecord); [by rewrite map_size_singleton|].
  apply map_eq. intros j. destruct (decide (j = id)) as [->|Hj].
  - rewrite lookup_singleton_eq. symmetry. apply map_lookup_filter_Some. split; [done|].
    unfold at_tunnel. by rewrite bool_decide_true, Hp.
  - rewrite lookup_singleton_ne by done. symmetry. apply map_lookup_filter_None. right.
    intros r' E' Hr. unfold at_tunnel in Hr. apply andb_prop in Hr as [Hj'%bool_decide_eq_true _].
    destruct (valid_tunnels st Hst j r' E') as [_ Hid']. congruence.
Qed.

Lemma revision_bind r revision :
  tunnel_valid r -> is_u64 revision ->
  (tc_config_revision (bind_tunnel r) =? i64_of_u64 revision) = (tr_config_revision r =? revision).
Proof.
  intros [(_ & _ & _ & _ & Hr) _] Hv. cbn [tc_config_revision bind_tunnel].
  destruct (Z.eqb_spec (tr_config_revision r) revision) as [->|Hne]; [apply Z.eqb_refl|].
  apply Z.eqb_neq. intros Hi. apply Hne.
  rewrite <- (u64_of_i64_of_u64 (tr_config_revision r)), <- (u64_of_i64_of_u64 revision) by done.
  by rewrite Hi.
Qed.

Lemma transition_outcome id server_id revision state error now (synchronized : bool) st :
  valid_state st -> is_u64 revision ->
  validate_error_fields (code <$> error) (message <$> error) = success ->
  outcome_of (transition_body id server_id revision state error now synchronized) (encode st) =
  encode_result (update_runtime_spec id server_id revision state error now synchronized st).
Proof.
  intros Hst Hrev He. unfold transition_body. enter. rewrite run_quiet.
  rewrite (update_tunnels_encode _ _
             (at_tunnel (str id) (transition_applies (str server_id) revision state))
             (in_state state error now synchronized)).
  - rewrite map_at_tunnel, count_at_tunnel by done. unfold update_runtime_spec.
    destruct (st_tunnels st !! str id) as [r|]; [|done]. by destruct (transition_applies _ _ _ r).
  - intros j r Hm. destruct (valid_tunnels st Hst _ _ Hm) as [Hv <-].
    unfold TunnelRepository.runtime_state_matches, at_tunnel, transition_applies.
    rewrite revision_bind by done. rewrite !andb_assoc. f_equal. f_equal.
    cbn [tc_server_id tc_desired_state bind_tunnel].
    rewrite (bound_state _ TunnelDesiredState.active "active"),
      (bound_state _ TunnelDesiredState.disabled "disabled"),
      bool_decide_not, (bound_state _ TunnelActualState.disabled "disabled") by done.
    destruct (decide (state = TunnelActualState.disabled));
      [rewrite (bool_decide_true (state = _)) by done|rewrite (bool_decide_false (state = _)) by done];
      cbn; by rewrite ?orb_false_r.
  - intros j r Hm _. destruct (valid_tunnels st Hst _ _ Hm) as [Hv <-].
    split_and!; [apply set_runtime_bind| |done]. by apply in_state_valid.
Qed.
End Outcomes3.

(** ** Recovery *)

Section Outcomes4.
Context `{AsioAddressLaws} `{SqliteMessages}.

(** The bodies of the transactions of [StateRepository]. *)
Definition client_id_body (random_bytes : option bytes) : Action Database Id :=
  stored ← run "read daemon identity" (select daemon_identity);
  match stored with
  | Some value =>
      match Id_parse_kind value client with
      | Ok parsed => mret parsed
      | Err _ => fail_with database_error "persisted daemon client ID is invalid"
      end
  | None =>
      generated ← ST_lift (Id_generate random_bytes client);
      _ ← run "persist daemon identity" (insert_identity (str generated));
      mret generated
  end.

Definition recover_body (limits : StorageLimits) (recovered_at : Z) :
  Action Database RecoverySnapshot :=
  _ ← ServerRepository.list_ (max_servers limits);
  _ ← TunnelRepository.list_ (max_tunnels limits);
  _ ← run "normalize recovered server state"
        (update_servers (fun _ row => StateRepository.server_needs_recovery row)
           (StateRepository.normalize_server recovered_at));
  _ ← run "propagate removed server tombstones" (StateRepository.propagate_removed recovered_at);
  _ ← run "normalize recovered tunnel state"
        (update_tunnels
           (fun _ row => bool_decide (tc_actual_state row
                                      <> StateRepository.recovered_tunnel_state row))
           (StateRepository.normalize_tunnel recovered_at));
  recovered_servers ← ServerRepository.list_ (max_servers limits);
  recovered_tunnels ← TunnelRepository.list_ (max_tunnels limits);
  mret (mkRecoverySnapshot recovered_servers recovered_tunnels).

Lemma steady_client_id random : steady (client_id_body random).
Proof. unfold client_id_body. steady. Qed.

Lemma steady_recover limits now : steady (recover_body limits now).
Proof.
  unfold recover_body. steady; first [apply steady_server_list | apply steady_tunnel_list].
Qed.

(** [RAND_bytes] delivers 16 bytes when it succeeds. *)
Lemma client_id_outcome random st :
  valid_state st -> (forall l, random = Some l -> length l = 16%nat) ->
  outcome_of (client_id_body random) (encode st) = encode_result (client_id_spec random st).
Proof.
  intros Hst Hl. unfold client_id_body, client_id_spec. enter. rewrite run_quiet.
  cbn [select daemon_identity encode]. destruct (st_identity st) as [text|] eqn:Hid.
  - pose proof (valid_identity st Hst _ Hid) as Hc.
    rewrite (proj2 (Id_parse_kind_ok text client (mkId client text))) by done. done.
  - destruct random as [l|]; [|done]. specialize (Hl l eq_refl). cbn [Id_generate].
    change (Id_generate (Some l) client)
      with (Ok (E := Error) (mkId client (bs "client_" ++ concat (hex_of_byte <$> l)))).
    cbn [mbind outcome_bind str]. rewrite run_quiet. unfold insert_identity.
    assert (Hcheck : check_identity (bs "client_" ++ concat (hex_of_byte <$> l)) = true).
    { unfold check_identity. rewrite Zlen_app, starts_with_app, Zlen_hex_of_bytes.
      change 7%nat with (length (bs "client_")). rewrite drop_app_length, hex_of_bytes_lowercase.
      unfold Zlen at 2. rewrite Hl. done. }
    rewrite Hcheck. cbn [negb daemon_identity encode]. rewrite Hid.
    by rewrite bool_decide_false by (by intros [? [=]]).
Qed.

Lemma update_servers_encode condition set (condition' : ServerRecord -> bool) set' st :
  (forall id r, st_servers st !! id = Some r -> condition id (bind_server r) = condition' r) ->
  (forall id r, st_servers st !! id = Some r -> condition' r = true ->
     set (bind_server r) = bind_server (set' r) /\ server_valid (set' r) /\ str (sr_id (set' r)) = id) ->
  update_servers condition set (encode st) =
  Ok (Z.of_nat (size (filter (fun '(_, r) => condition' r = true) (st_servers st))),
      encode (mkState ((fun r => if condition' r then set' r else r) <$> st_servers st)
                (st_tunnels st) (st_identity st))).
Proof.
  intros Hcond Hset. unfold update_servers. cbn [servers encode].
  rewrite (update_matching_fmap bind_server _ _ _ (fun _ r => condition' r) set').
  - cbn. unfold with_servers, encode. cbn. by rewrite map_imap_fmap.
  - done.
  - intros id r Hm Hc. destruct (Hset _ _ Hm Hc) as (-> & Hv & <-). split; [done|].
    by apply check_server_bind.
Qed.

Lemma recovered_server_state_bind r :
  StateRepository.recovered_server_state (bind_server r) = enum_to_string (initial_server_state r).
Proof.
  unfold StateRepository.recovered_server_state, initial_server_state.
  cbn [sc_desired_state sc_credential_ref bind_server].
  by destruct (sr_desired_state r), (sr_credential_ref r).
Qed.

Lemma recovered_tunnel_state_bind r :
  StateRepository.recovered_tunnel_state (bind_tunnel r) = enum_to_string (initial_tunnel_state r).
Proof.
  unfold StateRepository.recovered_tunnel_state, initial_tunnel_state.
  cbn [tc_desired_state bind_tunnel]. by destruct (tr_desired_state r).
Qed.

Definition needs_recovery (r : ServerRecord) : bool :=
  negb (bool_decide (sr_actual_state r = initial_server_state r) && (sr_reconnect_attempt r =? 0)
        && bool_decide (sr_latency_ms r = None)).

Lemma server_needs_recovery_bind r :
  StateRepository.server_needs_recovery (bind_server r) = needs_recovery r.
Proof.
  unfold StateRepository.server_needs_recovery, needs_recovery. rewrite recovered_server_state_bind.
  cbn [sc_actual_state sc_reconnect_attempt sc_latency_ms bind_server].
  rewrite !bool_decide_not, !negb_andb. do 3 f_equal. apply bool_decide_ext.
  split; [apply enum_to_string_inj|congruence].
Qed.

(** The state between the first and the second update of [recover]. *)
Definition recover_servers (now : Z) (st : State) : State :=
  mkState (recover_server now <$> st_servers st) (st_tunnels st) (st_identity st).

Definition orphaned (servers : gmap bytes ServerRecord) (r : TunnelRecord) : bool :=
  match servers !! str (tr_server_id r) with
  | Some s => bool_decide (sr_desired_state s = ServerDesiredState.removed)
  | None => false
  end && negb (tombstone r).

Lemma recover_servers_step now st :
  valid_state st ->
  exists n, update_servers (fun _ row => StateRepository.server_needs_recovery row)
              (StateRepository.normalize_server now) (encode st)
            = Ok (n, encode (recover_servers now st)).
Proof.
  intros Hst. eexists.
  rewrite (update_servers_encode _ _ needs_recovery (fun r =>
    with_server_runtime (sr_desired_state r) (initial_server_state r)
      (Z.max (sr_updated_at r) now) r)).
  - do 2 f_equal. unfold recover_servers. do 2 f_equal. apply map_fmap_ext. intros id r _.
    unfold needs_recovery, recover_server. by destruct (_ && _).
  - intros id r _. apply server_needs_recovery_bind.
  - intros id r Hm _. destruct (valid_servers st Hst _ _ Hm) as [Hv <-]. split_and!; [|split|].
    + unfold StateRepository.normalize_server. by rewrite recovered_server_state_bind.
    + apply (server_valid_runtime _ _ (Z.max (sr_updated_at r) now) r Hv). lia.
    + apply (server_valid_runtime _ _ (Z.max (sr_updated_at r) now) r Hv). lia.
    + done.
Qed.

Lemma recover_server_id now r : sr_id (recover_server now r) = sr_id r.
Proof. unfold recover_server. by destruct (_ && _). Qed.

Lemma recover_server_desired now r : sr_desired_state (recover_server now r) = sr_desired_state r.
Proof. unfold recover_server. by destruct (_ && _). Qed.

Lemma recover_server_name now r : sr_name (recover_server now r) = sr_name r.
Proof. unfold recover_server. by destruct (_ && _). Qed.

Lemma orphaned_recovered now servers r :
  orphaned (recover_server now <$> servers) r = orphaned servers r.
Proof.
  unfold orphaned. rewrite lookup_fmap. destruct (servers !! _); [|done]. simpl.
  by rewrite recover_server_desired.
Qed.

(** The two updates of the tunnels. *)
Definition adopt (now : Z) (servers : gmap bytes ServerRecord) (r : TunnelRecord) : TunnelRecord :=
  if orphaned servers r then bury (Z.max (tr_updated_at r) now) r else r.

Definition normalize (now : Z) (r : TunnelRecord) : TunnelRecord :=
  with_tunnel_runtime (tr_desired_state r) (initial_tunnel_state r) (tr_last_error_code r)
    (tr_last_error_message r) (Z.max (tr_updated_at r) now) (tr_last_synced_at r) r.

Lemma adopt_valid now servers r :
  tunnel_valid r -> tunnel_valid (adopt now servers r) /\ tr_id (adopt now servers r) = tr_id r.
Proof.
  intros Hr. unfold adopt. destruct (orphaned _ _); [|done]. split; [|done].
  apply bury_valid; [done|lia].
Qed.

Lemma propagate_step now st :
  valid_state st ->
  exists n, StateRepository.propagate_removed now (encode st)
            = Ok (n, encode (map_tunnels (adopt now (st_servers st)) st)).
Proof.
  intros Hst. eexists. unfold StateRepository.propagate_removed.
  rewrite (update_tunnels_encode _ _ (orphaned (st_servers st))
             (fun r => bury (Z.max (tr_updated_at r) now) r)); [reflexivity|..].
  - intros id r _. unfold orphaned. rewrite is_tombstone_bind. f_equal.
    cbn [tc_server_id bind_tunnel servers encode]. rewrite lookup_fmap.
    destruct (st_servers st !! _) as [s|]; [|done].
    cbn [fmap option_fmap option_map sc_desired_state bind_server].
    by rewrite (bound_state _ ServerDesiredState.removed).
  - intros id r Hm _. destruct (valid_tunnels st Hst _ _ Hm) as [Hv <-]. split_and!; [done| |done].
    apply bury_valid; [done|lia].
Qed.

Lemma normalize_step now st :
  (forall id r, st_tunnels st !! id = Some r -> tunnel_valid r /\ str (tr_id r) = id) ->
  exists n, update_tunnels (fun _ row => bool_decide (tc_actual_state row
                              <> StateRepository.recovered_tunnel_state row))
              (StateRepository.normalize_tunnel now) (encode st)
            = Ok (n, encode (map_tunnels (fun r =>
                if bool_decide (tr_actual_state r = initial_tunnel_state r) then r
                else normalize now r) st)).
Proof.
  intros Hst. eexists.
  rewrite (update_tunnels_encode _ _
             (fun r => negb (bool_decide (tr_actual_state r = initial_tunnel_state r)))
             (normalize now)).
  - do 2 f_equal. unfold map_tunnels. do 2 f_equal. apply map_fmap_ext. intros id r _.
    by destruct (bool_decide _).
  - intros id r _. rewrite recovered_tunnel_state_bind, bool_decide_not. f_equal.
    apply bool_decide_ext. split; [apply enum_to_string_inj|]. cbn. congruence.
  - intros id r Hm _. destruct (Hst _ _ Hm) as [Hv <-]. split_and!; [|split|done].
    + unfold StateRepository.normalize_tunnel. by rewrite recovered_tunnel_state_bind.
    + apply Hv.
    + pose proof (tunnel_valid_inv r Hv) as (He & Ht & Hs).
      apply (tunnel_valid_runtime _ _ _ _ (Z.max (tr_updated_at r) now) _ r Hv He); [lia|].
      intros s ?%Hs. lia.
Qed.

Lemma map_tunnels_compose f g st :
  map_tunnels f (map_tunnels g st) = map_tunnels (fun r => f (g r)) st.
Proof. unfold map_tunnels. simpl. by rewrite <- map_fmap_compose. Qed.

Lemma recover_spec_steps now st :
  map_tunnels (fun r => if bool_decide (tr_actual_state r = initial_tunnel_state r) then r
                        else normalize now r)
    (map_tunnels (adopt now (st_servers (recover_servers now st))) (recover_servers now st))
  = recover_spec now st.
Proof.
  rewrite map_tunnels_compose. unfold map_tunnels, recover_spec. simpl. f_equal.
  apply map_fmap_ext. intros id r _. unfold adopt, recover_tunnel, normalize.
  rewrite orphaned_recovered. unfold orphaned.
  destruct (st_servers st !! str (tr_server_id r)) as [s|]; [|done]. cbv zeta.
  by destruct (_ && negb _).
Qed.
End Outcomes4.
