(* ===== verification/Storage.v ===== *)
(** * The storage layer keeps its promises

    The invariant of the state database, the refinement theorem that relates the
    repositories to the maps of StorageSpec.v under arbitrary failures of SQLite, and the
    properties of the operations that the daemon relies on. *)
From stdpp Require Import sorting.
From S2P Require Import Prelude Common Ids Text Endpoint Utf8 Models Rows Database Repository.
From S2P Require Import StorageSpec StorageRun.

(** ** The invariant *)

Section Invariant.
Context `{AsioAddress}.

Lemma put_server_valid r st :
  valid_state st -> server_valid r -> name_taken r st = false -> valid_state (put_server r st).
Proof.
  intros Hst Hr Hn. split; simpl.
  - intros id r' [[<- <-]|[_ Hm]]%lookup_insert_Some; [done|by apply (valid_servers st Hst)].
  - apply (valid_tunnels st Hst).
  - intros id r' Hm. apply lookup_insert_is_Some'. right. by apply (valid_parents st Hst id).
  - intros i1 i2 r1 r2 H1 H2 Hs E. apply lookup_insert_Some in H1 as [[<- <-]|[N1 H1]],
      H2 as [[<- <-]|[N2 H2]]; [done|..|by eapply (valid_names st Hst)].
    + exfalso. apply not_true_iff_false in Hn. apply Hn. apply exists_other_true.
      exists i2, r2. split_and!; try done. by apply bool_decide_eq_true.
    + exfalso. apply not_true_iff_false in Hn. apply Hn. apply exists_other_true.
      exists i1, r1. split_and!; try done. apply bool_decide_eq_true. split; congruence.
  - apply (valid_remotes st Hst).
  - apply (valid_identity st Hst).
Qed.

Lemma put_tunnel_valid r st :
  valid_state st -> tunnel_valid r -> remote_taken r st = false -> parent_missing r st = false ->
  valid_state (put_tunnel r st).
Proof.
  intros Hst Hr Hn Hp. split; simpl.
  - apply (valid_servers st Hst).
  - intros id r' [[<- <-]|[_ Hm]]%lookup_insert_Some; [done|by apply (valid_tunnels st Hst)].
  - intros id r' [[<- <-]|[_ Hm]]%lookup_insert_Some; [|by apply (valid_parents st Hst id)].
    apply bool_decide_eq_false in Hp. by apply not_eq_None_Some.
  - apply (valid_names st Hst).
  - intros i1 i2 r1 r2 H1 H2 E. apply lookup_insert_Some in H1 as [[<- <-]|[N1 H1]],
      H2 as [[<- <-]|[N2 H2]]; [done|..|by eapply (valid_remotes st Hst)].
    + exfalso. apply not_true_iff_false in Hn. apply Hn. apply exists_other_true.
      exists i2, r2. split_and!; try done. by apply bool_decide_eq_true.
    + exfalso. apply not_true_iff_false in Hn. apply Hn. apply exists_other_true.
      exists i1, r1. split_and!; try done. by apply bool_decide_eq_true.
  - apply (valid_identity st Hst).
Qed.

(** An update of the tunnels that keeps what identifies them. *)
Lemma map_tunnels_valid f st :
  valid_state st ->
  (forall r, tr_id (f r) = tr_id r /\ tr_server_id (f r) = tr_server_id r /\
             remote_address (f r) = remote_address r) ->
  (forall id r, st_tunnels st !! id = Some r -> tunnel_valid (f r)) ->
  valid_state (map_tunnels f st).
Proof.
  intros Hst Hf Hv. split; simpl.
  - apply (valid_servers st Hst).
  - intros id r. rewrite lookup_fmap. intros (r' & E & ->)%fmap_Some.
    destruct (Hf r') as (-> & _). split; [by eapply Hv|]. by apply (valid_tunnels st Hst).
  - intros id r. rewrite lookup_fmap. intros (r' & E & ->)%fmap_Some.
    destruct (Hf r') as (_ & -> & _). by apply (valid_parents st Hst id).
  - apply (valid_names st Hst).
  - intros i1 i2 r1 r2. rewrite !lookup_fmap.
    intros (r1' & E1 & ->)%fmap_Some (r2' & E2 & ->)%fmap_Some.
    destruct (Hf r1') as (_ & _ & ->), (Hf r2') as (_ & _ & ->).
    by apply (valid_remotes st Hst).
  - apply (valid_identity st Hst).
Qed.

Lemma map_servers_valid f st :
  valid_state st ->
  (forall r, sr_id (f r) = sr_id r /\ sr_name (f r) = sr_name r) ->
  (forall id r, st_servers st !! id = Some r -> server_valid (f r)) ->
  valid_state (mkState (f <$> st_servers st) (st_tunnels st) (st_identity st)).
Proof.
  intros Hst Hf Hv. split; simpl.
  - intros id r. rewrite lookup_fmap. intros (r' & E & ->)%fmap_Some.
    destruct (Hf r') as (-> & _). split; [by eapply Hv|]. by apply (valid_servers st Hst).
  - apply (valid_tunnels st Hst).
  - intros id r Hm. rewrite lookup_fmap. apply fmap_is_Some. by apply (valid_parents st Hst id).
  - intros i1 i2 r1 r2. rewrite !lookup_fmap.
    intros (r1' & E1 & ->)%fmap_Some (r2' & E2 & ->)%fmap_Some.
    destruct (Hf r1') as (_ & ->), (Hf r2') as (_ & ->). by apply (valid_names st Hst).
  - apply (valid_remotes st Hst).
  - apply (valid_identity st Hst).
Qed.

Lemma recover_server_valid now r : server_valid r -> server_valid (recover_server now r).
Proof.
  intros Hr. unfold recover_server. destruct (_ && _); [done|].
  apply server_valid_runtime; [done|lia].
Qed.

Lemma recover_servers_valid now st : valid_state st -> valid_state (recover_servers now st).
Proof.
  intros Hst. apply map_servers_valid; [done|..].
  - intros r. by rewrite recover_server_id, recover_server_name.
  - intros id r Hm. apply recover_server_valid. by apply (valid_servers st Hst id).
Qed.

Lemma adopted_valid now servers st :
  valid_state st -> valid_state (map_tunnels (adopt now servers) st).
Proof.
  intros Hst. apply map_tunnels_valid; [done|..].
  - intros r. unfold adopt. by destruct (orphaned _ _).
  - intros id r Hm. apply adopt_valid. by apply (valid_tunnels st Hst id).
Qed.

Lemma normalize_valid now r : tunnel_valid r -> tunnel_valid (normalize now r).
Proof.
  intros Hv. pose proof (tunnel_valid_inv r Hv) as (He & Ht & Hs).
  apply tunnel_valid_runtime; [done..|lia|]. intros s ?%Hs. lia.
Qed.

Lemma recover_spec_valid now st : valid_state st -> valid_state (recover_spec now st).
Proof.
  intros Hst. rewrite <- recover_spec_steps. set (st1 := map_tunnels _ (recover_servers now st)).
  assert (Hst1 : valid_state st1) by (by apply adopted_valid, recover_servers_valid).
  apply map_tunnels_valid; [done|..].
  - intros r. by destruct (bool_decide _).
  - intros id r Hm. destruct (valid_tunnels st1 Hst1 _ _ Hm) as [Hv _].
    destruct (bool_decide _); [done|by apply normalize_valid].
Qed.
End Invariant.

(** ** Recovery computes its specification *)

Section Recover.
Context `{AsioAddressLaws} `{SqliteMessages}.

Definition limits_wf (limits : StorageLimits) : Prop :=
  0 < max_servers limits <= kInt64Max /\ 0 < max_tunnels limits <= kInt64Max.

Lemma recover_outcome limits now st :
  valid_state st -> limits_wf limits ->
  outcome_of (recover_body limits now) (encode st) =
  encode_result (recover_result limits now st).
Proof.
  intros Hst [Hs Ht]. unfold recover_body, recover_result. enter.
  rewrite list_servers_quiet by (try done; lia).
  destruct (_ <? _) eqn:Hcs; [done|]. rewrite list_tunnels_quiet by (try done; lia).
  destruct (max_tunnels limits <? _) eqn:Hct; [done|].
  rewrite run_quiet. destruct (recover_servers_step now st Hst) as [n ->].
  rewrite run_quiet. pose proof (recover_servers_valid now st Hst) as Hst1.
  destruct (propagate_step now _ Hst1) as [n1 ->].
  pose proof (adopted_valid now (st_servers (recover_servers now st)) _ Hst1) as Hst2.
  rewrite run_quiet.
  destruct (normalize_step now _ (valid_tunnels _ Hst2)) as [n2 ->]. rewrite recover_spec_steps.
  pose proof (recover_spec_valid now st Hst) as Hst3.
  rewrite list_servers_quiet by (try done; lia). simpl st_servers. rewrite map_size_fmap, Hcs.
  rewrite list_tunnels_quiet by (try done; lia). simpl st_tunnels. rewrite map_size_fmap, Hct.
  done.
Qed.
End Recover.

(** ** The specification of an operation *)

Section Refinement.
Context `{AsioAddressLaws} `{SqliteMessages}.

Definition tag {A} (f : A -> Answer) (x : Result (A * State)) : Result (Answer * State) :=
  match x with
  | Ok (a, st) => Ok (f a, st)
  | Err e => Err e
  end.

(** The argument checks of the two runtime updates. *)
Definition pending_arguments (server_id : Id) (error : option Error) (now : Z) : Result unit :=
  if negb (bool_decide (kind server_id = server)) || (now <? 0) then
    failure invalid_argument "batch tunnel update requires a server ID and non-negative time"
  else
    match error with
    | None => success
    | Some e =>
        if negb (is_known_error_code (code e)) then
          failure invalid_argument "batch tunnel update requires a known non-ok error code"
        else validate_text (message e) 0 kMaxErrorMessageBytes "last_error_message"
    end.

Definition transition_arguments (id server_id : Id) (revision : Z) (state : TunnelActualState.t)
    (error : option Error) (now : Z) : Result unit :=
  if negb (bool_decide (kind id = tunnel)) || negb (bool_decide (kind server_id = server))
     || (revision =? 0) || (kInt64Max <? revision) || (now <? 0)
     || bool_decide (state = TunnelActualState.removing) then
    failure invalid_argument "conditional tunnel transition arguments are invalid"
  else if match error with
          | Some e => bool_decide (code e = ok) || (kMaxErrorMessageBytes <? Zlen (message e))
          | None => false
          end then
    failure invalid_argument "conditional tunnel transition error is invalid"
  else success.

Definition spec (limits : StorageLimits) (op : StorageOp) (st : State) : Result (Answer * State) :=
  match op with
  | CreateServer r => tag (fun _ => Done) (create_server_spec (max_servers limits) r st)
  | UpdateServer r => tag (fun _ => Done) (update_server_spec r st)
  | RemoveServer id now => tag (fun _ => Done) (remove_server_spec id now st)
  | EraseServer id => tag (fun _ => Done) (erase_server_spec id st)
  | CreateTunnel r => tag (fun _ => Done) (create_tunnel_spec (max_tunnels limits) r st)
  | UpdateTunnel r => tag (fun _ => Done) (update_tunnel_spec r st)
  | MarkActivePending id e now =>
      _ ← pending_arguments id e now; tag Changed (mark_active_pending_spec id e now st)
  | UpdateRuntimeState id sid rev state e now sync =>
      _ ← transition_arguments id sid rev state e now;
      tag Transitioned (update_runtime_spec id sid rev state e now sync st)
  | RemoveTunnel id now => tag (fun _ => Done) (remove_tunnel_spec id now st)
  | EraseTunnel id => tag (fun _ => Done) (erase_tunnel_spec id st)
  | ClientId random => tag Identity (client_id_spec random st)
  | Recover now => tag Recovered (recover_result limits now st)
  end.

(** What the callers guarantee of the arguments: records hold parsed ids and endpoints
    and values of their types; [RAND_bytes] fills its buffer; the message of a runtime
    transition is a text the reader accepts (the code does not check this). *)
Definition op_wf (op : StorageOp) : Prop :=
  match op with
  | CreateServer r | UpdateServer r => server_record_wf r
  | CreateTunnel r | UpdateTunnel r => tunnel_record_wf r
  | UpdateRuntimeState _ _ rev _ error _ _ =>
      is_u64 rev /\
      forall e, error = Some e ->
        validate_text (message e) 0 kMaxErrorMessageBytes "last_error_message" = success
  | ClientId random => forall l, random = Some l -> length l = 16%nat
  | _ => True
  end.

Lemma error_fields_valid (error : option Error) :
  (forall e, error = Some e -> code e <> ok /\
     validate_text (message e) 0 kMaxErrorMessageBytes "last_error_message" = success) ->
  validate_error_fields (code <$> error) (message <$> error) = success.
Proof.
  destruct error as [e|]; [|done]. intros He. destruct (He e eq_refl) as [Hc Hm].
  unfold validate_error_fields. simpl.
  by rewrite (proj2 (is_known_error_code_iff _) Hc).
Qed.

Lemma pending_arguments_error id error now :
  pending_arguments id error now = success ->
  validate_error_fields (code <$> error) (message <$> error) = success.
Proof.
  unfold pending_arguments. destruct (_ || _); [discriminate|]. intros Hp.
  apply error_fields_valid. intros e ->. destruct (is_known_error_code (code e)) eqn:E;
    [|discriminate Hp]. by apply is_known_error_code_iff in E.
Qed.

Lemma transition_arguments_error id sid rev state error now :
  (forall e, error = Some e ->
     validate_text (message e) 0 kMaxErrorMessageBytes "last_error_message" = success) ->
  transition_arguments id sid rev state error now = success ->
  validate_error_fields (code <$> error) (message <$> error) = success.
Proof.
  intros Hm. unfold transition_arguments. destruct (_ || _); [discriminate|]. intros Hp.
  apply error_fields_valid. intros e ->. split; [|by apply Hm].
  intros Hok. rewrite bool_decide_true in Hp by done. discriminate Hp.
Qed.

(** *** The invariant is preserved *)

Lemma find_server_lookup id st r : find_server id st = Ok r -> st_servers st !! str id = Some r.
Proof.
  unfold find_server. destruct (negb _); [done|].
  destruct (st_servers st !! str id); [congruence|done].
Qed.

Lemma find_tunnel_lookup id st r : find_tunnel id st = Ok r -> st_tunnels st !! str id = Some r.
Proof.
  unfold find_tunnel. destruct (negb _); [done|].
  destruct (st_tunnels st !! str id); [congruence|done].
Qed.

Lemma create_server_valid limit r st a st' :
  valid_state st -> server_record_wf r -> create_server_spec limit r st = Ok (a, st') ->
  valid_state st'.
Proof.
  intros Hst Hwf Hs. unfold create_server_spec in Hs.
  destruct (validate_server_record r) as [[]|] eqn:Hv; [|done]. simpl in Hs.
  destruct (_ <=? _); [done|]. destruct (bool_decide _); [done|].
  destruct (name_taken r st) eqn:Hn; [done|]. simplify_eq/=. by apply put_server_valid.
Qed.

Lemma update_server_valid r st a st' :
  valid_state st -> server_record_wf r -> update_server_spec r st = Ok (a, st') -> valid_state st'.
Proof.
  intros Hst Hwf Hs. unfold update_server_spec in Hs.
  destruct (validate_server_record r) as [[]|] eqn:Hv; [|done]. simpl in Hs.
  destruct (find_server _ _); [|done]. simpl in Hs. destruct (_ || _); [done|].
  destruct (name_taken r st) eqn:Hn; [done|]. simplify_eq/=. by apply put_server_valid.
Qed.

Lemma remove_server_valid id now st a st' :
  valid_state st -> remove_server_spec id now st = Ok (a, st') -> valid_state st'.
Proof.
  intros Hst Hs. unfold remove_server_spec in Hs. destruct (_ || _); [done|].
  destruct (find_server id st) as [old|] eqn:Hf; [|done]. simpl in Hs.
  destruct (Z.ltb_spec now (sr_updated_at old)); [done|].
  destruct (has_child _ st) eqn:Hc; [done|]. simplify_eq/=. apply find_server_lookup in Hf.
  destruct (valid_servers st Hst _ _ Hf) as [Hv Hid]. apply put_server_valid.
  - apply map_tunnels_valid; [done|intros r; by destruct (live_child _ r)|].
    intros i r Hm. destruct (valid_tunnels st Hst _ _ Hm) as [Hr _].
    destruct (live_child (str id) r) eqn:Hl; [|done]. apply bury_valid; [done|].
    apply (existsb_map_to_list_false
      (fun _ r => live_child (str id) r && (now <? tr_updated_at r)) _ _ _ Hc) in Hm.
    rewrite Hl in Hm. simpl in Hm. lia.
  - by apply server_valid_runtime.
  - apply (name_taken_false _ old st); [done| |done]. simpl. by rewrite Hid.
Qed.

Lemma erase_server_valid id st a st' :
  valid_state st -> erase_server_spec id st = Ok (a, st') -> valid_state st'.
Proof.
  intros Hst Hs. unfold erase_server_spec in Hs. destruct (negb _); [done|].
  destruct (find_server id st) as [old|]; [|done]. simpl in Hs. destruct (_ || _); [done|].
  destruct (has_child _ _); [done|]. simplify_eq/=. split; simpl.
  - intros i r [_ Hm]%lookup_delete_Some. by apply (valid_servers st Hst).
  - intros i r [Hm _]%map_lookup_filter_Some. by apply (valid_tunnels st Hst).
  - intros i r [Hm Hne]%map_lookup_filter_Some. rewrite lookup_delete_ne by done.
    by apply (valid_parents st Hst i).
  - intros i1 i2 r1 r2 [_ H1']%lookup_delete_Some [_ H2']%lookup_delete_Some.
    by eapply (valid_names st Hst).
  - intros i1 i2 r1 r2 [H1' _]%map_lookup_filter_Some [H2' _]%map_lookup_filter_Some.
    by eapply (valid_remotes st Hst).
  - apply (valid_identity st Hst).
Qed.

Lemma create_tunnel_valid limit r st a st' :
  valid_state st -> tunnel_record_wf r -> create_tunnel_spec limit r st = Ok (a, st') ->
  valid_state st'.
Proof.
  intros Hst Hwf Hs. unfold create_tunnel_spec in Hs.
  destruct (validate_tunnel_record r) as [[]|] eqn:Hv; [|done]. simpl in Hs.
  destruct (_ <=? _); [done|]. destruct (bool_decide _); [done|].
  destruct (remote_taken r st) eqn:Hn; [done|]. destruct (parent_missing r st) eqn:Hp; [done|].
  simplify_eq/=. by apply put_tunnel_valid.
Qed.

Lemma update_tunnel_valid r st a st' :
  valid_state st -> tunnel_record_wf r -> update_tunnel_spec r st = Ok (a, st') -> valid_state st'.
Proof.
  intros Hst Hwf Hs. unfold update_tunnel_spec in Hs.
  destruct (validate_tunnel_record r) as [[]|] eqn:Hv; [|done]. simpl in Hs.
  destruct (find_tunnel _ _); [|done]. simpl in Hs. destruct (_ || _); [done|].
  destruct (remote_taken r st) eqn:Hn; [done|]. destruct (parent_missing r st) eqn:Hp; [done|].
  simplify_eq/=. by apply put_tunnel_valid.
Qed.

(** Replacing the runtime fields of a stored tunnel. *)
Lemma put_runtime_valid id r r' st :
  valid_state st -> st_tunnels st !! id = Some r -> tunnel_valid r' -> tr_id r' = tr_id r ->
  tr_server_id r' = tr_server_id r -> remote_address r' = remote_address r ->
  valid_state (put_tunnel r' st).
Proof.
  intros Hst E Hv Hi Hs Hr. destruct (valid_tunnels st Hst _ _ E) as [_ Hid].
  apply put_tunnel_valid; [done..| |].
  - apply (remote_taken_false _ r); [done| |done]. by rewrite Hi, Hid.
  - by apply (parent_missing_false _ id r).
Qed.

Lemma pending_valid id e now st a st' :
  valid_state st -> pending_arguments id e now = success ->
  mark_active_pending_spec id e now st = Ok (a, st') -> valid_state st'.
Proof.
  intros Hst Hp Hs. apply pending_arguments_error in Hp. unfold mark_active_pending_spec in Hs.
  simplify_eq. apply map_tunnels_valid; [done|intros r; by destruct (active_of _ r)|].
  intros i r Hm. destruct (valid_tunnels st Hst _ _ Hm) as [Hr _].
  destruct (active_of _ r); [by apply in_state_valid|done].
Qed.

Lemma transition_valid id sid rev state e now sync st a st' :
  valid_state st -> validate_error_fields (code <$> e) (message <$> e) = success ->
  update_runtime_spec id sid rev state e now sync st = Ok (a, st') -> valid_state st'.
Proof.
  intros Hst He Hs. unfold update_runtime_spec in Hs.
  destruct (st_tunnels st !! str id) as [r|] eqn:E; [|by simplify_eq/=].
  destruct (transition_applies _ _ _ r); simplify_eq/=; [|done].
  destruct (valid_tunnels st Hst _ _ E) as [Hv _].
  by apply (put_runtime_valid (str id) r); [..|apply in_state_valid| | |].
Qed.

Lemma remove_tunnel_valid id now st a st' :
  valid_state st -> remove_tunnel_spec id now st = Ok (a, st') -> valid_state st'.
Proof.
  intros Hst Hs. unfold remove_tunnel_spec in Hs. destruct (_ || _); [done|].
  destruct (find_tunnel id st) as [old|] eqn:Hf; [|done]. simpl in Hs.
  destruct (Z.ltb_spec now (tr_updated_at old)); [done|]. simplify_eq/=.
  apply find_tunnel_lookup in Hf. destruct (valid_tunnels st Hst _ _ Hf) as [Hv _].
  by apply (put_runtime_valid (str id) old); [..|apply bury_valid| | |].
Qed.

Lemma erase_tunnel_valid id st a st' :
  valid_state st -> erase_tunnel_spec id st = Ok (a, st') -> valid_state st'.
Proof.
  intros Hst Hs. unfold erase_tunnel_spec in Hs. destruct (negb _); [done|].
  destruct (find_tunnel id st) as [old|]; [|done]. simpl in Hs. destruct (negb _); [done|].
  simplify_eq/=. split; simpl; try apply Hst.
  - intros i r [_ Hm]%lookup_delete_Some. by apply (valid_tunnels st Hst).
  - intros i r [_ Hm]%lookup_delete_Some. by apply (valid_parents st Hst i).
  - intros i1 i2 r1 r2 [_ H1']%lookup_delete_Some [_ H2']%lookup_delete_Some.
    by eapply (valid_remotes st Hst).
Qed.

Lemma client_id_valid random st a st' :
  valid_state st -> (forall l, random = Some l -> length l = 16%nat) ->
  client_id_spec random st = Ok (a, st') -> valid_state st'.
Proof.
  intros Hst Hwf Hs. unfold client_id_spec in Hs. destruct (st_identity st) as [text|] eqn:Hid.
  { by simplify_eq/=. }
  destruct random as [l|]; [|done]. simpl in Hs. simplify_eq/=. specialize (Hwf l eq_refl).
  split; simpl; try apply Hst. intros i [= <-]. exists (concat (hex_of_byte <$> l)).
  split_and!; [done| |apply hex_of_bytes_lowercase]. rewrite Zlen_hex_of_bytes. unfold Zlen. lia.
Qed.

Lemma recover_valid limits now st a st' :
  valid_state st -> recover_result limits now st = Ok (a, st') -> valid_state st'.
Proof.
  intros Hst Hs. unfold recover_result in Hs. destruct (_ <? _); [done|].
  destruct (_ <? _); [done|]. simplify_eq/=. by apply recover_spec_valid.
Qed.

Lemma tag_inv {A} (f : A -> Answer) x a st : tag f x = Ok (a, st) -> exists b, x = Ok (b, st).
Proof. destruct x as [[b s]|]; [|done]. simpl. intros. simplify_eq. eauto. Qed.

Lemma spec_valid limits op st a st' :
  valid_state st -> op_wf op -> spec limits op st = Ok (a, st') -> valid_state st'.
Proof.
  intros Hst Hwf Hs. destruct op as [r|r|id now|id|r|r|id e now|id sid rev state e now sync|
    id now|id|random|now]; cbn [spec op_wf] in Hs, Hwf.
  7: destruct (pending_arguments id e now) as [[]|] eqn:Hp; [|done]; cbn [mbind outcome_bind] in Hs.
  8: destruct Hwf as [_ Hm];
     destruct (transition_arguments id sid rev state e now) as [[]|] eqn:Hp; [|done];
     apply transition_arguments_error in Hp; [|done]; cbn [mbind outcome_bind] in Hs.
  all: apply tag_inv in Hs as [b Hs].
  - by eapply create_server_valid.
  - by eapply update_server_valid.
  - by eapply remove_server_valid.
  - by eapply erase_server_valid.
  - by eapply create_tunnel_valid.
  - by eapply update_tunnel_valid.
  - by eapply pending_valid.
  - by eapply transition_valid.
  - by eapply remove_tunnel_valid.
  - by eapply erase_tunnel_valid.
  - by eapply client_id_valid.
  - by eapply recover_valid.
Qed.

(** *** Refinement *)

Lemma settled_answer {A} (f : A -> Answer) (m : Action Database A) x db :
  settled (encode_result x) db (m db).1 (m db).2 ->
  settled (encode_result (tag f x)) db (answer f m db).1 (answer f m db).2.
Proof.
  unfold answer, mbind, ST_bind. destruct (m db) as [[a|e] db']; simpl; intros [Hs Hf]; split; auto.
  - destruct Hs as (Hs & ? & ?). destruct x as [[b s]|]; simpl in *; [|done].
    injection Hs as -> Hs. by rewrite Hs.
  - destruct Hs as (? & ? & ? & Hs). split_and!; try done. intros Hff. destruct (Hs Hff) as (E & ? & ?).
    split_and!; [|done..]. destruct x as [[b s]|]; simpl in *; congruence.
Qed.

(** Arguments that are refused before a transaction begins. *)
Lemma settled_refused {A} e db : idle db -> poisoned_ db = false ->
  settled (A := A) (Err e) db (Err e) db.
Proof.
  intros [Hs Ht] Hp. split; [|done]. unfold committed. rewrite Hs. simpl. split_and!; auto.
Qed.

(** An operation whose body computes its specification. *)
Lemma settled_perform {A} (f : A -> Answer) (m : Action Database A) x st db :
  steady m -> outcome_of m (encode st) = encode_result x ->
  tables db = encode st -> idle db -> poisoned_ db = false ->
  settled (encode_result (tag f x)) db (answer f (with_transaction (and_commit m)) db).1
    (answer f (with_transaction (and_commit m)) db).2.
Proof.
  intros Hm Ho Ht Hi Hp. apply settled_answer. rewrite <- Ho, <- Ht.
  by apply with_transaction_atomic.
Qed.

Lemma settled_state_perform {A} (f : A -> Answer) (m : Action Database A) x st db :
  steady m -> outcome_of m (encode st) = encode_result x ->
  tables db = encode st -> idle db -> poisoned_ db = false ->
  let action := with_transaction (a ← failing m; _ ← commit; mret a) in
  settled (encode_result (tag f x)) db (answer f action db).1 (answer f action db).2.
Proof.
  intros Hm Ho Ht Hi Hp action. apply settled_answer. rewrite <- Ho, <- Ht.
  by apply with_transaction_failing.
Qed.

Lemma pending_perform id e now st db :
  valid_state st -> tables db = encode st -> idle db -> poisoned_ db = false ->
  let action := answer Changed (TunnelRepository.mark_active_pending_by_server id e now) in
  settled (encode_result (_ ← pending_arguments id e now;
                          tag Changed (mark_active_pending_spec id e now st)))
    db (action db).1 (action db).2.
Proof.
  intros Hst Ht Hi Hp action.
  destruct (pending_arguments id e now) as [[]|e'] eqn:Ha; cbn [mbind outcome_bind].
  - replace (action db) with (answer Changed (with_transaction (and_commit (pending_body id e now))) db).
    + apply (settled_perform _ _ _ st); try done; [unfold pending_body; steady|].
      apply pending_outcome; [done|]. by eapply pending_arguments_error.
    + unfold action, TunnelRepository.mark_active_pending_by_server, answer, mbind, ST_bind.
      unfold pending_arguments in Ha. destruct (_ || _); [discriminate Ha|].
      destruct e as [e|]; [|done]. destruct (negb _); [discriminate Ha|].
      unfold ST_lift. by rewrite Ha.
  - replace (action db) with (Err (A := Answer) e', db); [by apply settled_refused|].
    unfold action, TunnelRepository.mark_active_pending_by_server, answer, mbind, ST_bind.
    unfold pending_arguments in Ha. destruct (_ || _); [by injection Ha as <-|].
    destruct e as [e|]; [|discriminate Ha]. destruct (negb _); [by injection Ha as <-|].
    unfold ST_lift. by rewrite Ha.
Qed.

Lemma state_not_removing (state : TunnelActualState.t) :
  negb (bool_decide (state = TunnelActualState.pending))
  && negb (bool_decide (state = TunnelActualState.registering))
  && negb (bool_decide (state = TunnelActualState.active))
  && negb (bool_decide (state = TunnelActualState.failed))
  && negb (bool_decide (state = TunnelActualState.disabled))
  = bool_decide (state = TunnelActualState.removing).
Proof. by destruct state. Qed.

Lemma transition_perform id sid rev state e now sync st db :
  valid_state st -> is_u64 rev ->
  (forall e', e = Some e' ->
     validate_text (message e') 0 kMaxErrorMessageBytes "last_error_message" = success) ->
  tables db = encode st -> idle db -> poisoned_ db = false ->
  let action := answer Transitioned
    (TunnelRepository.update_runtime_state_if_revision id sid rev state e now sync) in
  settled (encode_result (_ ← transition_arguments id sid rev state e now;
                          tag Transitioned (update_runtime_spec id sid rev state e now sync st)))
    db (action db).1 (action db).2.
Proof.
  intros Hst Hrev Hm Ht Hi Hp action.
  destruct (transition_arguments id sid rev state e now) as [[]|e'] eqn:Ha; cbn [mbind outcome_bind].
  - replace (action db) with
      (answer Transitioned (with_transaction (and_commit
         (transition_body id sid rev state e now sync))) db).
    + apply (settled_perform _ _ _ st); try done; [unfold transition_body; steady|].
      apply transition_outcome; [done..|]. by eapply transition_arguments_error.
    + unfold action, TunnelRepository.update_runtime_state_if_revision.
      rewrite state_not_removing. unfold transition_arguments in Ha.
      destruct (_ || _); [discriminate Ha|].
      destruct e as [e1|]; [|done]. destruct (_ || _); [discriminate Ha|done].
  - replace (action db) with (Err (A := Answer) e', db); [by apply settled_refused|].
    unfold action, TunnelRepository.update_runtime_state_if_revision.
    rewrite state_not_removing. unfold transition_arguments in Ha.
    destruct (_ || _); [by injection Ha as <-|].
    destruct e as [e1|]; [|discriminate Ha]. destruct (_ || _); [by injection Ha as <-|discriminate Ha].
Qed.

Lemma perform_settled limits op st db :
  valid_state st -> limits_wf limits -> op_wf op ->
  tables db = encode st -> idle db -> poisoned_ db = false ->
  settled (encode_result (spec limits op st)) db (perform limits op db).1 (perform limits op db).2.
Proof.
  intros Hst Hl Hwf Ht Hi Hp. destruct op as [r|r|id now|id|r|r|id e now|
    id sid rev state e now sync|id now|id|random|now]; cbn [spec perform op_wf] in *.
  - by apply (settled_perform _ _ _ st);
      [apply steady_server_create|apply create_server_outcome|..].
  - by apply (settled_perform _ _ _ st);
      [apply steady_server_update|apply update_server_outcome|..].
  - by apply (settled_perform _ _ _ st);
      [apply steady_server_mark_removed|apply remove_server_outcome|..].
  - by apply (settled_perform _ _ _ st);
      [apply steady_server_erase|apply erase_server_outcome|..].
  - by apply (settled_perform _ _ _ st);
      [apply steady_tunnel_create|apply create_tunnel_outcome|..].
  - by apply (settled_perform _ _ _ st);
      [apply steady_tunnel_update|apply update_tunnel_outcome|..].
  - by apply pending_perform.
  - destruct Hwf. by apply transition_perform.
  - by apply (settled_perform _ _ _ st);
      [apply steady_tunnel_mark_removed|apply remove_tunnel_outcome|..].
  - by apply (settled_perform _ _ _ st);
      [apply steady_tunnel_erase|apply erase_tunnel_outcome|..].
  - by apply (settled_state_perform _ _ _ st);
      [apply steady_client_id|apply client_id_outcome|..].
  - by apply (settled_state_perform _ _ _ st);
      [apply steady_recover|apply recover_outcome|..].
Qed.

(** *** Histories *)

(** The database after a sequence of operations, whatever their results. *)
Definition perform_all (limits : StorageLimits) (ops : list StorageOp) (db : Database) : Database :=
  fold_left (fun db op => (perform limits op db).2) ops db.

(** A database that holds a valid state and is idle, or whose connection is unusable. *)
Definition sound (db : Database) : Prop :=
  (exists st, committed db = encode st /\ valid_state st) /\ transaction_ db = None /\
  (poisoned_ db = true \/ saved db = None).

Lemma with_transaction_poisoned {A} (m : Action Database A) db :
  poisoned_ db = true -> (with_transaction m db).2 = db.
Proof. intros Hp. unfold with_transaction, begin_transaction. by rewrite Hp. Qed.

Lemma answer_state {A} (f : A -> Answer) (m : Action Database A) db :
  (answer f m db).2 = (m db).2.
Proof. unfold answer, mbind, ST_bind. by destruct (m db) as [[?|?] ?]. Qed.

Lemma perform_poisoned limits op db : poisoned_ db = true -> (perform limits op db).2 = db.
Proof.
  intros Hp. destruct op as [r|r|id now|id|r|r|id e now|id sid rev state e now sync|
    id now|id|random|now]; cbn [perform]; rewrite answer_state;
    try (by apply with_transaction_poisoned).
  - unfold TunnelRepository.mark_active_pending_by_server, mbind, ST_bind.
    destruct (_ || _); [done|]. destruct e as [e|]; [|by apply with_transaction_poisoned].
    destruct (negb _); [done|]. unfold ST_lift. destruct (validate_text _ _ _ _); [|done].
    by apply with_transaction_poisoned.
  - unfold TunnelRepository.update_runtime_state_if_revision. destruct (_ || _); [done|].
    destruct (match e with Some e => _ | None => false end); [done|].
    by apply with_transaction_poisoned.
Qed.

Lemma perform_sound limits op db :
  limits_wf limits -> op_wf op -> sound db -> sound (perform limits op db).2.
Proof.
  intros Hl Hwf [(st & Hc & Hst) [Hx Hd]]. destruct (poisoned_ db) eqn:Hp.
  { rewrite perform_poisoned by done. split; [by exists st|]. rewrite Hp. auto. }
  destruct Hd as [?|Hs]; [done|]. assert (Ht : tables db = encode st).
  { unfold committed in Hc. by rewrite Hs in Hc. }
  pose proof (perform_settled limits op st db Hst Hl Hwf Ht (conj Hs Hx) Hp) as Hset.
  destruct (perform limits op db) as [[a|e] db'] eqn:E; simpl in *.
  - destruct Hset as [(Hspec & [Hs' Hx'] & Hp') _].
    destruct (spec limits op st) as [[b st']|] eqn:Es; simpl in Hspec; [|done].
    injection Hspec as -> Ht'. split; [|auto]. exists st'. split; [|by eapply spec_valid].
    unfold committed. by rewrite Hs'.
  - destruct Hset as [(Hc' & Hx' & Hd' & _) _]. split; [|auto]. exists st. by rewrite Hc', Ht.
Qed.

(** A runtime transition that returns does what [update_runtime_spec] says. *)
Lemma perform_transition limits id sid rev state e now sync st db :
  valid_state st -> limits_wf limits -> op_wf (UpdateRuntimeState id sid rev state e now sync) ->
  tables db = encode st -> idle db -> poisoned_ db = false ->
  match TunnelRepository.update_runtime_state_if_revision id sid rev state e now sync db with
  | (Ok changed, db') =>
      exists st', update_runtime_spec id sid rev state e now sync st = Ok (changed, st') /\
                  tables db' = encode st' /\ valid_state st' /\ idle db' /\ poisoned_ db' = false
  | (Err _, db') => committed db' = encode st
  end.
Proof.
  intros Hst Hl Hwf Ht Hi Hp.
  pose proof (perform_settled limits _ st db Hst Hl Hwf Ht Hi Hp) as Hs.
  cbn [perform spec] in Hs. unfold answer, mbind, ST_bind in Hs.
  destruct (TunnelRepository.update_runtime_state_if_revision id sid rev state e now sync db)
    as [[changed|e'] db']; cbn [fst snd] in Hs; [|destruct Hs as [(Hc & _) _]; by rewrite Hc].
  destruct Hs as [(Hs & Hi' & Hp') _].
  destruct (transition_arguments _ _ _ _ _ _) as [[]|] eqn:Ha; [|done]. cbn [outcome_bind] in Hs.
  destruct (update_runtime_spec id sid rev state e now sync st) as [[b st']|] eqn:E; [|done].
  cbn [tag encode_result] in Hs. injection Hs as -> Hs. exists st'. split_and!; try done.
  apply transition_arguments_error in Ha; [|apply Hwf]. by eapply transition_valid.
Qed.

(** A batch update that returns does what [mark_active_pending_spec] says. *)
Lemma perform_pending limits id e now st db :
  valid_state st -> limits_wf limits -> tables db = encode st -> idle db -> poisoned_ db = false ->
  match TunnelRepository.mark_active_pending_by_server id e now db with
  | (Ok count, db') =>
      exists st', mark_active_pending_spec id e now st = Ok (count, st') /\
                  tables db' = encode st' /\ valid_state st' /\ idle db' /\ poisoned_ db' = false
  | (Err _, db') => committed db' = encode st
  end.
Proof.
  intros Hst Hl Ht Hi Hp.
  pose proof (perform_settled limits (MarkActivePending id e now) st db Hst Hl I Ht Hi Hp) as Hs.
  cbn [perform spec] in Hs. unfold answer, mbind, ST_bind in Hs.
  destruct (TunnelRepository.mark_active_pending_by_server id e now db)
    as [[count|e'] db']; cbn [fst snd] in Hs; [|destruct Hs as [(Hc & _) _]; by rewrite Hc].
  destruct Hs as [(Hs & Hi' & Hp') _].
  destruct (pending_arguments _ _ _) as [[]|] eqn:Ha; [|done]. cbn [outcome_bind] in Hs.
  destruct (mark_active_pending_spec id e now st) as [[b st']|] eqn:E; [|done].
  cbn [tag encode_result] in Hs. injection Hs as -> Hs. exists st'. split_and!; try done.
  by eapply pending_valid.
Qed.

(** *** Recovery *)

Lemma recover_server_normal now r :
  let r' := recover_server now r in
  sr_actual_state r' = initial_server_state r' /\ sr_reconnect_attempt r' = 0 /\
  sr_latency_ms r' = None.
Proof.
  unfold recover_server.
  destruct (bool_decide _) eqn:E1; [destruct (Z.eqb_spec (sr_reconnect_attempt r) 0);
    [destruct (bool_decide (sr_latency_ms r = None)) eqn:E2|]|]; simpl; try done.
  apply bool_decide_eq_true in E1, E2. done.
Qed.

Lemma recover_server_fixed now r :
  sr_actual_state r = initial_server_state r -> sr_reconnect_attempt r = 0 ->
  sr_latency_ms r = None -> recover_server now r = r.
Proof.
  intros H1' H2' H3'. unfold recover_server. rewrite H2', !bool_decide_true by done. done.
Qed.

Lemma recover_tunnel_normal now servers r :
  let r' := recover_tunnel now servers r in
  tr_actual_state r' = initial_tunnel_state r' /\ orphaned servers r' = false.
Proof.
  unfold recover_tunnel. set (r0 := match servers !! _ with Some _ => _ | None => _ end). cbv zeta.
  assert (H0' : r0 = adopt now servers r).
  { unfold r0, adopt, orphaned. destruct (servers !! str (tr_server_id r)); [|done].
    by destruct (_ && _). }
  assert (Ho : orphaned servers r0 = false).
  { rewrite H0'. unfold adopt. destruct (orphaned servers r) eqn:E; [|done].
    unfold orphaned. simpl. by rewrite andb_false_r. }
  clear H0'. clearbody r0.
  case_bool_decide as Ha; [done|]. split; [done|]. revert Ho Ha.
  unfold orphaned, tombstone, initial_tunnel_state. simpl.
  destruct (servers !! str (tr_server_id r0)) as [s|]; [|done].
  destruct (bool_decide (sr_desired_state s = _)); [|done]. by destruct (tr_desired_state r0).
Qed.

Lemma recover_tunnel_fixed now servers r :
  tr_actual_state r = initial_tunnel_state r -> orphaned servers r = false ->
  recover_tunnel now servers r = r.
Proof.
  intros Ha Ho. unfold recover_tunnel, orphaned in *.
  destruct (servers !! _) as [s|]; [rewrite Ho|]; by rewrite bool_decide_true.
Qed.

Lemma recover_tunnel_server now servers r :
  tr_server_id (recover_tunnel now servers r) = tr_server_id r.
Proof.
  unfold recover_tunnel. destruct (servers !! _) as [s|]; [destruct (_ && _)|];
    by destruct (bool_decide _).
Qed.

Lemma recover_spec_idempotent now now' st :
  recover_spec now' (recover_spec now st) = recover_spec now st.
Proof.
  unfold recover_spec. simpl. f_equal.
  - rewrite <- map_fmap_compose. apply map_fmap_ext. intros i r _. simpl.
    by destruct (recover_server_normal now r) as (?&?&?); apply recover_server_fixed.
  - rewrite <- map_fmap_compose. apply map_fmap_ext. intros i r _. simpl.
    destruct (recover_tunnel_normal now (st_servers st) r) as [? Ho].
    apply recover_tunnel_fixed; [done|]. by rewrite orphaned_recovered.
Qed.
End Refinement.

(** ** Order *)

Lemma bytes_leb_total l1 l2 : bytes_leb l1 l2 = true \/ bytes_leb l2 l1 = true.
Proof.
  revert l2. induction l1 as [|b1 l1 IH]; intros [|b2 l2]; simpl; auto.
  rewrite (Z.eqb_sym (Z_of_byte b2)).
  destruct (Z.ltb_spec (Z_of_byte b1) (Z_of_byte b2)); [by left|].
  destruct (Z.ltb_spec (Z_of_byte b2) (Z_of_byte b1)); [by right|].
  destruct (Z.eqb_spec (Z_of_byte b1) (Z_of_byte b2)); [|lia]. simpl. apply IH.
Qed.

Lemma bytes_leb_trans l1 l2 l3 :
  bytes_leb l1 l2 = true -> bytes_leb l2 l3 = true -> bytes_leb l1 l3 = true.
Proof.
  revert l2 l3. induction l1 as [|b1 l1 IH]; intros [|b2 l2] [|b3 l3]; simpl; try done.
  intros H1 H2. apply orb_true_iff in H1, H2.
  destruct H1 as [?|[? H1]%andb_prop], H2 as [?|[? H2]%andb_prop]; try (apply orb_true_iff; left; lia).
  apply orb_true_iff. right. apply andb_true_intro. split; [lia|]. by apply (IH l2).
Qed.

#[export] Instance created_before_total {Row} (created : Row -> Z) :
  Total (created_before created).
Proof.
  intros [i x] [j y]. unfold created_before. simpl.
  destruct (Z.lt_trichotomy (created x) (created y)) as [?|[E|?]]; [by auto..| |by auto].
  rewrite E. destruct (bytes_leb_total i j); auto.
Qed.

#[export] Instance created_before_trans {Row} (created : Row -> Z) :
  Transitive (created_before created).
Proof.
  intros [i x] [j y] [k z]. unfold created_before. simpl.
  pose proof (bytes_leb_trans i j k). intros [?|[? ?]] [?|[? ?]]; try lia. right. split; [lia|auto].
Qed.

(** Records in the order of [ORDER BY created_at, id]. *)
Definition older_tunnel (r1 r2 : TunnelRecord) : Prop :=
  tr_created_at r1 < tr_created_at r2 \/
  (tr_created_at r1 = tr_created_at r2 /\ bytes_leb (str (tr_id r1)) (str (tr_id r2)) = true).

Lemma listed_sorted `{AsioAddress} st :
  valid_state st -> StronglySorted older_tunnel (listed tr_created_at (st_tunnels st)).
Proof.
  intros Hst. unfold listed.
  assert (Hs : StronglySorted (created_before tr_created_at)
                 (order_by_created tr_created_at (map_to_list (st_tunnels st))))
    by (apply (StronglySorted_merge_sort _)).
  assert (Hid : Forall (fun p => p.1 = str (tr_id p.2))
                  (order_by_created tr_created_at (map_to_list (st_tunnels st)))).
  { apply Forall_forall. intros [i r] Hin. apply elem_of_order_by_created in Hin.
    by destruct (valid_tunnels st Hst _ _ Hin). }
  induction Hs as [|p l Hl IH Hp]; csimpl; [constructor|].
  inversion Hid as [|?? E Hid']; subst. constructor; [by apply IH|].
  apply Forall_fmap. rewrite Forall_forall in Hp, Hid' |- *. intros q Hq.
  specialize (Hp q Hq). specialize (Hid' q Hq). unfold created_before in Hp.
  unfold older_tunnel. simpl. rewrite <- E, <- Hid'. done.
Qed.

(** ** A concrete database *)

#[local] Existing Instance sample_asio.
#[local] Existing Instance sample_asio_laws.

Definition sample_messages : SqliteMessages :=
  {| constraint_message _ := bs "constraint failed";
     no_transaction_message := bs "no transaction is active";
     nested_transaction_message := bs "cannot start a transaction within a transaction" |}.
#[local] Existing Instance sample_messages.

Definition sample_server : ServerRecord := {|
  sr_id := mkId server (bs "srv_00000000000000000000000000000001");
  sr_name := Some (bs "edge"); sr_endpoint := mkEndpoint (bs "edge.example") 443 domain_name;
  sr_credential_ref := Some (bs "credential"); sr_remote_server_id := None;
  sr_desired_state := ServerDesiredState.enabled; sr_actual_state := ServerActualState.online;
  sr_last_error_code := None; sr_last_error_message := None; sr_reconnect_attempt := 3;
  sr_latency_ms := Some 12; sr_created_at := 1000; sr_updated_at := 2000;
  sr_tls_server_name := None; sr_ca_credential_ref := None; sr_client_certificate_ref := None;
  sr_client_private_key_ref := None; sr_config_revision := 1; sr_managed_by_config := false |}.

Definition sample_tunnel : TunnelRecord := {|
  tr_id := mkId tunnel (bs "tun_00000000000000000000000000000002"); tr_name := Some (bs "web");
  tr_server_id := sr_id sample_server; tr_protocol := TunnelProtocol.tcp;
  tr_local_endpoint := mkEndpoint (bs "127.0.0.1") 8080 ipv4;
  tr_remote_endpoint := mkEndpoint (bs "::1") 9000 ipv6;
  tr_desired_state := TunnelDesiredState.active; tr_actual_state := TunnelActualState.registering;
  tr_last_error_code := None; tr_last_error_message := None; tr_created_at := 1500;
  tr_updated_at := 2500; tr_last_synced_at := None; tr_config_revision := 4;
  tr_managed_by_config := false; tr_proxy_protocol := false |}.

Definition sample_state : State :=
  put_tunnel sample_tunnel (put_server sample_server (mkState ∅ ∅ None)).

Definition sample_db (faults : list (option Fault)) : Database :=
  mkDatabase (encode sample_state) None None false faults.

Lemma sample_id_wf k digits :
  forallb is_lowercase_hex (bs digits) = true -> Zlen (bs digits) = 32 ->
  Id_wf (mkId k (id_prefix k ++ bs digits)).
Proof. intros. by exists (bs digits). Qed.

Lemma sample_server_valid : server_valid sample_server.
Proof.
  split; [split_and!; try done|vm_compute; reflexivity].
  by apply (sample_id_wf server "00000000000000000000000000000001").
Qed.

Lemma sample_tunnel_valid : tunnel_valid sample_tunnel.
Proof.
  split; [split_and!; try done|vm_compute; reflexivity].
  - by apply (sample_id_wf tunnel "00000000000000000000000000000002").
  - by apply (sample_id_wf server "00000000000000000000000000000001").
Qed.

Lemma sample_state_valid : valid_state sample_state.
Proof.
  apply put_tunnel_valid; [apply put_server_valid|..]; try (vm_compute; reflexivity).
  - split; try done; by intros ?.
  - apply sample_server_valid.
  - apply sample_tunnel_valid.
Qed.

Lemma default_limits_wf : limits_wf default_storage_limits.
Proof. split; vm_compute; done. Qed.

(** ** Theorems *)

(** C11: the repositories implement the maps of records.  Whatever statements fail, an
    operation on a database that holds a valid state either returns the specified answer
    and the database holds the specified state, or it returns an error, nothing it did is
    visible after its transaction, and the connection is idle or unusable; and when no
    statement fails for an outside reason the error is the specified one. *)
Theorem storage_refines `{AsioAddressLaws} `{SqliteMessages} limits op st db :
  valid_state st -> limits_wf limits -> op_wf op ->
  tables db = encode st -> idle db -> poisoned_ db = false ->
  match perform limits op db with
  | (Ok a, db') =>
      exists st', spec limits op st = Ok (a, st') /\ tables db' = encode st' /\
                  valid_state st' /\ idle db' /\ poisoned_ db' = false
  | (Err e, db') =>
      committed db' = encode st /\ transaction_ db' = None /\
      (poisoned_ db' = true \/ saved db' = None) /\
      (fault_free db -> spec limits op st = Err e /\ poisoned_ db' = false /\ saved db' = None)
  end.
Proof.
  intros Hst Hl Hwf Ht Hi Hp. pose proof (perform_settled limits op st db Hst Hl Hwf Ht Hi Hp) as Hs.
  destruct (perform limits op db) as [[a|e] db']; cbn [fst snd] in Hs; destruct Hs as [Hs _].
  - destruct Hs as (Hs & Hi' & Hp').
    destruct (spec limits op st) as [[b st']|] eqn:E; cbn [encode_result] in Hs; [|done].
    injection Hs as -> Hs. exists st'. split_and!; try done. by eapply spec_valid.
  - destruct Hs as (Hc & Hx & Hd & Hf). rewrite Ht in Hc. split_and!; try done. intros Hff.
    destruct (Hf Hff) as (Hs & ? & ?). split_and!; try done.
    destruct (spec limits op st) as [[b st']|]; cbn [encode_result] in Hs; congruence.
Qed.

Lemma storage_refines_witness :
  let op := RemoveServer (sr_id sample_server) 3000 in
  let db := sample_db [] in
  match perform default_storage_limits op db with
  | (Ok a, db') =>
      exists st', spec default_storage_limits op sample_state = Ok (a, st') /\
        tables db' = encode st' /\ valid_state st' /\ idle db' /\ poisoned_ db' = false
  | (Err e, db') =>
      committed db' = encode sample_state /\ transaction_ db' = None /\
      (poisoned_ db' = true \/ saved db' = None) /\
      (fault_free db -> spec default_storage_limits op sample_state = Err e /\
                        poisoned_ db' = false /\ saved db' = None)
  end.
Proof.
  apply (storage_refines default_storage_limits (RemoveServer (sr_id sample_server) 3000)
           sample_state (sample_db []));
    [apply sample_state_valid|apply default_limits_wf|done|reflexivity|done|reflexivity].
Defined.

(** C12: whatever sequence of operations runs on a fresh database and whatever statements
    fail, provided that the operations are given well-formed arguments ([op_wf]): the
    contents of the database are the rows of valid records under their own ids, every tunnel
    belongs to a stored server, and names and remote addresses are distinct.  Well-formed
    arguments hold parsed identifiers and endpoints and values of their types, and the error
    message of a tunnel's runtime transition is a text within the limit.  The last is not
    checked by [update_runtime_state_if_revision]; [unchecked_message_blocks_recovery] shows
    what happens without it. *)
Theorem storage_history_valid `{AsioAddressLaws} `{SqliteMessages} limits ops faults :
  limits_wf limits -> Forall op_wf ops ->
  let db := perform_all limits ops (mkDatabase empty_tables None None false faults) in
  exists st, committed db = encode st /\ valid_state st.
Proof.
  intros Hl Hops db.
  cut (sound db); [by intros [? _]|]. unfold db, perform_all.
  assert (Hfresh : sound (mkDatabase empty_tables None None false faults)).
  { split; [|auto]. exists (mkState ∅ ∅ None). split; [done|]. split; try done; by intros ?. }
  revert Hfresh. generalize (mkDatabase empty_tables None None false faults).
  induction Hops as [|op ops Hop Hops IH]; intros d Hd; simpl; [done|].
  apply IH. by apply perform_sound.
Qed.

Lemma storage_history_valid_witness :
  let ops := [CreateServer sample_server; CreateTunnel sample_tunnel; Recover 5000] in
  let faults := [None; None; None; Some (mkFault SQLITE_FULL [] true)] in
  let db := perform_all default_storage_limits ops (mkDatabase empty_tables None None false faults) in
  exists st, committed db = encode st /\ valid_state st.
Proof.
  apply (storage_history_valid default_storage_limits
           [CreateServer sample_server; CreateTunnel sample_tunnel; Recover 5000]
           [None; None; None; Some (mkFault SQLITE_FULL [] true)]);
    [apply default_limits_wf|].
  repeat constructor; apply sample_server_valid || apply sample_tunnel_valid.
Defined.

(** C15: recovery normalises.  When [recover] succeeds, every server and every tunnel of the
    database is in the state its desired state prescribes at start-up, the tunnels of
    removed servers are tombstones, and another recovery, at any time, returns the same
    snapshot and changes nothing, not even a time of update. *)
Theorem recovery_normalises `{AsioAddressLaws} `{SqliteMessages} limits now st db snapshot db' :
  valid_state st -> limits_wf limits -> tables db = encode st -> idle db ->
  poisoned_ db = false -> perform limits (Recover now) db = (Ok (Recovered snapshot), db') ->
  exists st', tables db' = encode st' /\
    (forall id s, st_servers st' !! id = Some s ->
       sr_actual_state s = initial_server_state s /\ sr_reconnect_attempt s = 0 /\
       sr_latency_ms s = None) /\
    (forall id t, st_tunnels st' !! id = Some t ->
       tr_actual_state t = initial_tunnel_state t /\ orphaned (st_servers st') t = false) /\
    (forall now', fault_free db' ->
       exists db'', perform limits (Recover now') db' = (Ok (Recovered snapshot), db'') /\
                    tables db'' = tables db').
Proof.
  intros Hst Hl Ht Hi Hp Hperf.
  pose proof (perform_settled limits (Recover now) st db Hst Hl I Ht Hi Hp) as Hs.
  rewrite Hperf in Hs. destruct Hs as [(Hs & Hi' & Hp') _]. cbn [fst snd] in *.
  cbn [spec] in Hs. unfold recover_result in Hs.
  destruct (_ <? _) eqn:Hcs; [done|]. destruct (max_tunnels limits <? _) eqn:Hct; [done|].
  cbn [tag encode_result] in Hs. injection Hs as <- Hs. exists (recover_spec now st).
  pose proof (recover_spec_valid now st Hst) as Hst'. split_and!; [done|..].
  - intros id s. simpl. rewrite lookup_fmap. intros (s0 & _ & ->)%fmap_Some.
    apply recover_server_normal.
  - intros id t. simpl. rewrite lookup_fmap. intros (t0 & _ & ->)%fmap_Some.
    rewrite orphaned_recovered. apply recover_tunnel_normal.
  - intros now' Hff.
    pose proof (perform_settled limits (Recover now') (recover_spec now st) db' Hst' Hl I
                  (eq_sym Hs) Hi' Hp') as Hs2.
    assert (Hspec : spec limits (Recover now') (recover_spec now st) =
      Ok (Recovered (mkRecoverySnapshot
            (listed sr_created_at (st_servers (recover_spec now st)))
            (listed tr_created_at (st_tunnels (recover_spec now st)))), recover_spec now st)).
    { cbn [spec]. unfold recover_result. rewrite recover_spec_idempotent. cbn [st_servers st_tunnels
        recover_spec]. rewrite !map_size_fmap, Hcs, Hct. done. }
    rewrite Hspec in Hs2. destruct (perform limits (Recover now') db') as [[a|e] db''];
      cbn [fst snd encode_result] in Hs2; destruct Hs2 as [Hs2 _].
    + destruct Hs2 as (Hs2 & _). injection Hs2 as <- Hs2. exists db''. by rewrite <- Hs2.
    + destruct Hs2 as (_ & _ & _ & Hf). destruct (Hf Hff) as [? _]. done.
Qed.

Lemma recovery_normalises_witness :
  exists snapshot db',
    perform default_storage_limits (Recover 9000) (sample_db []) = (Ok (Recovered snapshot), db') /\
    exists st', tables db' = encode st' /\
      (forall id s, st_servers st' !! id = Some s ->
         sr_actual_state s = initial_server_state s /\ sr_reconnect_attempt s = 0 /\
         sr_latency_ms s = None) /\
      (forall id t, st_tunnels st' !! id = Some t ->
         tr_actual_state t = initial_tunnel_state t /\ orphaned (st_servers st') t = false) /\
      (forall now', fault_free db' ->
         exists db'', perform default_storage_limits (Recover now') db'
                      = (Ok (Recovered snapshot), db'') /\ tables db'' = tables db').
Proof.
  eexists _, _. split; [vm_compute; reflexivity|].
  eapply (recovery_normalises default_storage_limits 9000 sample_state (sample_db []));
    [apply sample_state_valid|apply default_limits_wf|reflexivity|done|reflexivity|].
  vm_compute. reflexivity.
Defined.

(** a runtime transition touches at most the tunnel it names, and there only the
    fields that describe the runtime: it changes the tunnel exactly when the tunnel still
    belongs to the given server, has the expected revision and the desired state the
    transition is for; a removed tunnel is never revived, and an outdated transition
    leaves the database as it was. *)
Theorem runtime_transition_guarded `{AsioAddressLaws} `{SqliteMessages} limits id sid revision
    state error now synchronized st db changed db' :
  valid_state st -> limits_wf limits ->
  op_wf (UpdateRuntimeState id sid revision state error now synchronized) ->
  tables db = encode st -> idle db -> poisoned_ db = false ->
  perform limits (UpdateRuntimeState id sid revision state error now synchronized) db
    = (Ok (Transitioned changed), db') ->
  exists st', tables db' = encode st' /\ st_servers st' = st_servers st /\
    (forall i, i <> str id -> st_tunnels st' !! i = st_tunnels st !! i) /\
    match st_tunnels st !! str id with
    | None => changed = false /\ st' = st
    | Some t =>
        (changed = true <-> str (tr_server_id t) = str sid /\ tr_config_revision t = revision /\
           tr_desired_state t = (if decide (state = TunnelActualState.disabled)
                                 then TunnelDesiredState.disabled else TunnelDesiredState.active)) /\
        st_tunnels st' !! str id =
          Some (if changed then in_state state error now synchronized t else t)
    end.
Proof.
  intros Hst Hl Hwf Ht Hi Hp Hperf.
  pose proof (perform_transition limits _ _ _ _ _ _ _ st db Hst Hl Hwf Ht Hi Hp) as Hs.
  cbn [perform] in Hperf. unfold answer, mbind, ST_bind in Hperf.
  destruct (TunnelRepository.update_runtime_state_if_revision _ _ _ _ _ _ _ _)
    as [[b|e] db1]; [|done]. unfold mret, ST_ret in Hperf. simplify_eq.
  destruct Hs as (st' & Hs & Ht' & _). unfold update_runtime_spec in Hs.
  destruct (st_tunnels st !! str id) as [t|] eqn:E.
  2: { simplify_eq. by exists st'. }
  assert (Happ : transition_applies (str sid) revision state t = true <->
    str (tr_server_id t) = str sid /\ tr_config_revision t = revision /\
    tr_desired_state t = (if decide (state = TunnelActualState.disabled)
                          then TunnelDesiredState.disabled else TunnelDesiredState.active)).
  { unfold transition_applies. rewrite !andb_true_iff, !bool_decide_eq_true, Z.eqb_eq. tauto. }
  destruct (valid_tunnels st Hst _ _ E) as [_ Hid].
  destruct (transition_applies (str sid) revision state t); simplify_eq.
  - eexists. split; [exact Ht'|]. cbn [put_tunnel st_servers st_tunnels in_state
      with_tunnel_runtime tr_id]. rewrite Hid, lookup_insert_eq. split_and!; try done; try tauto.
    intros i Hne. by rewrite lookup_insert_ne.
  - exists st'. rewrite E. split_and!; try done; tauto.
Qed.

Lemma runtime_transition_guarded_witness :
  exists changed db',
    perform default_storage_limits
      (UpdateRuntimeState (tr_id sample_tunnel) (tr_server_id sample_tunnel) 4
         TunnelActualState.active None 9000 true) (sample_db []) = (Ok (Transitioned changed), db') /\
    exists st', tables db' = encode st' /\ st_servers st' = st_servers sample_state /\
      (forall i, i <> str (tr_id sample_tunnel) ->
         st_tunnels st' !! i = st_tunnels sample_state !! i) /\
      match st_tunnels sample_state !! str (tr_id sample_tunnel) with
      | None => changed = false /\ st' = sample_state
      | Some t =>
          (changed = true <-> str (tr_server_id t) = str (tr_server_id sample_tunnel) /\
             tr_config_revision t = 4 /\ tr_desired_state t = TunnelDesiredState.active) /\
          st_tunnels st' !! str (tr_id sample_tunnel) =
            Some (if changed then in_state TunnelActualState.active None 9000 true t else t)
      end.
Proof.
  eexists _, _. split; [vm_compute; reflexivity|].
  eapply (runtime_transition_guarded default_storage_limits (tr_id sample_tunnel)
           (tr_server_id sample_tunnel) 4 TunnelActualState.active None 9000 true sample_state
           (sample_db []));
    [apply sample_state_valid|apply default_limits_wf| |reflexivity|done|reflexivity|].
  - split; [vm_compute; done|done].
  - vm_compute. reflexivity.
Defined.

(** listing is complete and ordered.  [TunnelRepository::list] returns every stored
    tunnel exactly once, by creation time and then by id, and leaves the tables alone; it
    fails only when a statement fails or when there are more tunnels than the limit. *)
Theorem tunnel_listing_ordered `{AsioAddressLaws} `{SqliteMessages} max st db :
  valid_state st -> 0 <= max -> tables db = encode st -> poisoned_ db = false ->
  match TunnelRepository.list_ max db with
  | (Ok l, db') =>
      tables db' = tables db /\ l ≡ₚ (map_to_list (st_tunnels st)).*2 /\
      StronglySorted older_tunnel l /\ Zlen l <= max
  | (Err _, _) => fault_free db -> max < Z.of_nat (size (st_tunnels st))
  end.
Proof.
  intros Hst Hmax Ht Hp.
  pose proof (steady_tunnel_list max db (mkDatabase (encode st) (saved db) (transaction_ db) false []))
    as Hs.
  assert (Hsim : sim db (mkDatabase (encode st) (saved db) (transaction_ db) false [])) by done.
  specialize (Hs Hsim). rewrite list_tunnels_quiet in Hs by done.
  destruct (TunnelRepository.list_ max db) as [[l|e] db'].
  - destruct Hs as [(_ & c' & Hc & Hsim') _].
    destruct (Z.ltb_spec max (Z.of_nat (size (st_tunnels st)))); [done|]. simplify_eq.
    destruct Hsim' as (E & _). split_and!; [by rewrite E| |by apply listed_sorted|].
    + unfold listed, order_by_created. by rewrite merge_sort_Permutation.
    + unfold listed, Zlen. rewrite length_fmap. unfold order_by_created.
      by rewrite merge_sort_Permutation, length_map_to_list.
  - destruct Hs as [[_ Hf] _]. intros [Hl _]%Hf. simpl in Hl.
    destruct (Z.ltb_spec max (Z.of_nat (size (st_tunnels st)))); [done|]. done.
Qed.

Lemma tunnel_listing_ordered_witness :
  match TunnelRepository.list_ 4096 (sample_db []) with
  | (Ok l, db') =>
      tables db' = tables (sample_db []) /\ l ≡ₚ (map_to_list (st_tunnels sample_state)).*2 /\
      StronglySorted older_tunnel l /\ Zlen l <= 4096
  | (Err _, _) => fault_free (sample_db []) -> 4096 < Z.of_nat (size (st_tunnels sample_state))
  end.
Proof.
  apply (tunnel_listing_ordered 4096 sample_state (sample_db []));
    [apply sample_state_valid|lia|reflexivity|reflexivity].
Defined.

(** records survive storage, exactly.  A valid record is read back from the row it is
    bound to as it was, and a row that can be read at all is the row of the record it is
    read as: nothing is lost, defaulted or normalised on the way. *)
Theorem stored_records_exact `{AsioAddressLaws} :
  (forall r, server_valid r -> read_server (str (sr_id r)) (bind_server r) = Ok r) /\
  (forall r, tunnel_valid r -> read_tunnel (str (tr_id r)) (bind_tunnel r) = Ok r) /\
  (forall id row r, is_i64 (sc_config_revision row) -> read_server id row = Ok r ->
     server_valid r /\ str (sr_id r) = id /\ bind_server r = row) /\
  (forall id row r, is_i64 (tc_config_revision row) -> read_tunnel id row = Ok r ->
     tunnel_valid r /\ str (tr_id r) = id /\ bind_tunnel r = row).
Proof.
  split_and!; [apply read_server_bind|apply read_tunnel_bind|apply read_server_inv|
    apply read_tunnel_inv].
Qed.

Lemma stored_records_exact_witness :
  read_tunnel (str (tr_id sample_tunnel)) (bind_tunnel sample_tunnel) = Ok sample_tunnel /\
  read_server (str (sr_id sample_server)) (bind_server sample_server) = Ok sample_server.
Proof.
  split.
  - apply (@stored_records_exact sample_asio sample_asio_laws). apply sample_tunnel_valid.
  - apply (@stored_records_exact sample_asio sample_asio_laws). apply sample_server_valid.
Defined.

(** A message with a NUL byte, short enough for [update_runtime_state_if_revision]. *)
Definition nul_error : Error := mkError local_connect_failed [Byte.x00].

(** [update_runtime_state_if_revision] checks the length of an error message but not its
    text: it stores a message with a NUL byte, after which the row is unreadable and
    [recover], which starts the daemon, fails. *)
Theorem unchecked_message_blocks_recovery :
  let transition := UpdateRuntimeState (tr_id sample_tunnel) (tr_server_id sample_tunnel) 4
    TunnelActualState.failed (Some nul_error) 9000 false in
  let (stored, db) := perform default_storage_limits transition (sample_db []) in
  let (recovered, _) := perform default_storage_limits (Recover 10000) db in
  stored = Ok (Transitioned true) /\
  recovered = failure database_error "database contains a tunnel row outside storage limits".
Proof. vm_compute. split; reflexivity. Qed.
