(* ===== verification/Reconciler.v ===== *)
(** * The tunnel reconciler (src/daemon/tunnel_reconciler.cpp)

    [TunnelReconciler] pairs a process-local generation per server with the persisted
    tunnel states: a network response may change a tunnel only when the session that
    produced it is current and the tunnel still has the revision the session registered.
    Its mutex serialises the operations, so that concurrent use is a sequence of them.
    The reading of the clock is an argument. *)
From S2P Require Import Prelude Common Ids Text Endpoint Utf8 Models Rows Database Repository.
From S2P Require Import StorageSpec StorageRun Storage.

Definition kMaxGeneration : Z := 2 ^ 64 - 1.

(** [TunnelReconciler], with the database of its repository. *)
Record Reconciler : Set := mkReconciler {
  generations_ : gmap bytes Z;
  repository_ : Database
}.

(** [next_generation_locked]; [operator[]] of the map default-initialises to 0. *)
Definition next_generation_locked (server_id : bytes) (generations : gmap bytes Z) :
  Z * gmap bytes Z :=
  let old := default 0 (generations !! server_id) in
  let generation := if old =? kMaxGeneration then 1 else old + 1 in
  let generation := if generation =? 0 then 1 else generation in
  (generation, <[server_id := generation]> generations).

(** [current != generations_.end() && current->second == generation] *)
Definition holds_generation (server_id : bytes) (generation : Z) (r : Reconciler) : bool :=
  bool_decide (generations_ r !! server_id = Some generation).

Section Operations.
Context `{AsioAddress} `{SqliteMessages}.

(** A call into the repository. *)
Definition on_repository {A} (m : Action Database A) : Action Reconciler A := fun r =>
  let (result, db) := m (repository_ r) in (result, mkReconciler (generations_ r) db).

Definition next_generation (server_id : Id) : Action Reconciler Z := fun r =>
  let (generation, generations) := next_generation_locked (str server_id) (generations_ r) in
  (Ok generation, mkReconciler generations (repository_ r)).

(** [begin_generation]. *)
Definition begin_generation (server_id : Id) (now : Z) : Action Reconciler Z :=
  if negb (bool_decide (kind server_id = server)) then
    fail_with invalid_argument "tunnel generation requires a server ID"
  else
    generation ← next_generation server_id;
    _ ← on_repository (TunnelRepository.mark_active_pending_by_server server_id None now);
    mret generation.

(** [end_generation]. *)
Definition end_generation (server_id : Id) (generation : Z) (error : option Error) (now : Z) :
  Action Reconciler unit :=
  if negb (bool_decide (kind server_id = server)) || (generation =? 0) then
    fail_with invalid_argument "ending a tunnel generation requires valid identifiers"
  else
    current ← ST_get (holds_generation (str server_id) generation);
    if negb current then mret tt
    else
      _ ← on_repository (TunnelRepository.mark_active_pending_by_server server_id error now);
      mret tt.

(** [invalidate]. *)
Definition invalidate (server_id : Id) (error : option Error) (now : Z) : Action Reconciler unit :=
  if negb (bool_decide (kind server_id = server)) then
    fail_with invalid_argument "invalidating tunnel state requires a server ID"
  else
    _ ← next_generation server_id;
    _ ← on_repository (TunnelRepository.mark_active_pending_by_server server_id error now);
    mret tt.

(** [transition]. *)
Definition transition (server_id tunnel_id : Id) (generation expected_revision : Z)
    (state : TunnelActualState.t) (error : option Error) (synchronized : bool) (now : Z) :
  Action Reconciler bool :=
  if negb (bool_decide (kind server_id = server)) || negb (bool_decide (kind tunnel_id = tunnel))
     || (generation =? 0) || (expected_revision =? 0) then
    fail_with invalid_argument "tunnel transition requires valid generation identifiers"
  else
    current ← ST_get (holds_generation (str server_id) generation);
    if negb current then mret false
    else on_repository (TunnelRepository.update_runtime_state_if_revision tunnel_id server_id
                          expected_revision state error now synchronized).

(** [is_current]. *)
Definition is_current (server_id : Id) (generation : Z) (r : Reconciler) : bool :=
  if negb (bool_decide (kind server_id = server)) || (generation =? 0) then false
  else holds_generation (str server_id) generation r.
End Operations.

(** ** Sequences of operations *)

Inductive Call : Set :=
| Begin (server_id : Id) (now : Z)
| End_ (server_id : Id) (generation : Z) (error : option Error) (now : Z)
| Invalidate (server_id : Id) (error : option Error) (now : Z)
| Transition (server_id tunnel_id : Id) (generation expected_revision : Z)
    (state : TunnelActualState.t) (error : option Error) (synchronized : bool) (now : Z).

Section Calls.
Context `{AsioAddress} `{SqliteMessages}.

(** The reconciler after a call, whatever it returns. *)
Definition call (c : Call) (r : Reconciler) : Reconciler :=
  match c with
  | Begin sid now => (begin_generation sid now r).2
  | End_ sid g e now => (end_generation sid g e now r).2
  | Invalidate sid e now => (invalidate sid e now r).2
  | Transition sid tid g rev state e sync now => (transition sid tid g rev state e sync now r).2
  end.

Definition calls (cs : list Call) (r : Reconciler) : Reconciler := fold_left (fun r c => call c r) cs r.
End Calls.

(** A call that starts a new generation of the server. *)
Definition starts_generation (server_id : bytes) (c : Call) : bool :=
  match c with
  | Begin sid _ | Invalidate sid _ _ =>
      bool_decide (kind sid = server) && bool_decide (str sid = server_id)
  | _ => false
  end.

Definition generations_started (server_id : bytes) (cs : list Call) : Z :=
  Zlen (filter (fun c => starts_generation server_id c = true) cs).

(** ** Lemmas *)

(** The generation that follows [g], and the [n]-th after it. *)
Definition successor (g : Z) : Z := if g =? kMaxGeneration then 1 else g + 1.

Lemma next_generation_successor sid gens :
  (forall g, gens !! sid = Some g -> 1 <= g <= kMaxGeneration) ->
  next_generation_locked sid gens =
  (successor (default 0 (gens !! sid)), <[sid := successor (default 0 (gens !! sid))]> gens).
Proof.
  intros Hg. unfold next_generation_locked, successor, kMaxGeneration in *.
  assert (0 <= default 0 (gens !! sid)) by
    (destruct (gens !! sid) as [g|]; simpl; [specialize (Hg g eq_refl)|]; lia).
  destruct (Z.eqb_spec (default 0 (gens !! sid)) (2 ^ 64 - 1)); [done|].
  by destruct (Z.eqb_spec (default 0 (gens !! sid) + 1) 0); [lia|].
Qed.

(** Generations of [server_id] run through 1, ..., 2^64 - 1 in a cycle. *)
Definition nth_generation (g n : Z) : Z := (g - 1 + n) mod kMaxGeneration + 1.

Lemma successor_nth g n :
  1 <= g <= kMaxGeneration -> 0 <= n -> successor (nth_generation g n) = nth_generation g (n + 1).
Proof.
  unfold successor, nth_generation. intros Hg Hn.
  replace (g - 1 + (n + 1)) with ((g - 1 + n) + 1) by lia.
  set (m := kMaxGeneration) in *. assert (Hm : 1 < m) by done. clearbody m.
  pose proof (Z.mod_pos_bound (g - 1 + n) m ltac:(lia)) as Hb.
  rewrite <- (Zplus_mod_idemp_l (g - 1 + n) 1 m).
  destruct (Z.eqb_spec ((g - 1 + n) mod m + 1) m) as [E|E].
  - rewrite E, Z.mod_same; lia.
  - rewrite (Z.mod_small ((g - 1 + n) mod m + 1)); lia.
Qed.

Section Lemmas.
Context `{AsioAddress} `{SqliteMessages}.

Lemma on_repository_generations {A} (m : Action Database A) r :
  generations_ (on_repository m r).2 = generations_ r.
Proof. unfold on_repository. by destruct (m (repository_ r)). Qed.

Lemma on_repository_database {A} (m : Action Database A) r :
  repository_ (on_repository m r).2 = (m (repository_ r)).2.
Proof. unfold on_repository. by destruct (m (repository_ r)). Qed.

(** What a call does to the generations and to the repository. *)
Definition bumped (c : Call) (r : Reconciler) : gmap bytes Z :=
  match c with
  | Begin sid _ | Invalidate sid _ _ =>
      if bool_decide (kind sid = server)
      then (next_generation_locked (str sid) (generations_ r)).2 else generations_ r
  | _ => generations_ r
  end.

Lemma call_generations c r : generations_ (call c r) = bumped c r.
Proof.
  destruct c as [sid now|sid g e now|sid e now|sid tid g rev state e sync now]; cbn [call bumped].
  - unfold begin_generation. case_bool_decide; [|done]. cbn [negb].
    unfold mbind, ST_bind, next_generation.
    destruct (next_generation_locked _ _) as [g gens]. cbn [generations_ repository_].
    unfold on_repository. cbn [repository_ generations_].
    by destruct (TunnelRepository.mark_active_pending_by_server _ _ _ _) as [[?|?] ?].
  - unfold end_generation. destruct (_ || _); [done|]. unfold mbind, ST_bind, ST_get.
    destruct (negb _); [done|]. unfold on_repository.
    by destruct (TunnelRepository.mark_active_pending_by_server _ _ _ _) as [[?|?] ?].
  - unfold invalidate. case_bool_decide; [|done]. cbn [negb].
    unfold mbind, ST_bind, next_generation.
    destruct (next_generation_locked _ _) as [g gens]. cbn [generations_ repository_].
    unfold on_repository. cbn [repository_ generations_].
    by destruct (TunnelRepository.mark_active_pending_by_server _ _ _ _) as [[?|?] ?].
  - unfold transition. destruct (_ || _); [done|]. unfold mbind, ST_bind, ST_get.
    destruct (negb _); [done|]. apply on_repository_generations.
Qed.

(** Every generation of the map is one of 1, ..., 2^64 - 1. *)
Definition generations_wf (r : Reconciler) : Prop :=
  forall sid g, generations_ r !! sid = Some g -> 1 <= g <= kMaxGeneration.

Lemma successor_range g : 0 <= g <= kMaxGeneration -> 1 <= successor g <= kMaxGeneration.
Proof. unfold successor. destruct (Z.eqb_spec g kMaxGeneration); unfold kMaxGeneration in *; lia. Qed.

Lemma call_starts sid c r :
  generations_wf r ->
  generations_ (call c r) !! sid =
  if starts_generation sid c then Some (successor (default 0 (generations_ r !! sid)))
  else generations_ r !! sid.
Proof.
  intros Hwf. rewrite call_generations.
  assert (Hcase : forall sid', (if bool_decide (kind sid' = server)
      then (next_generation_locked (str sid') (generations_ r)).2 else generations_ r) !! sid =
    if bool_decide (kind sid' = server) && bool_decide (str sid' = sid)
    then Some (successor (default 0 (generations_ r !! sid))) else generations_ r !! sid).
  { intros sid'. case_bool_decide; [|done]. rewrite next_generation_successor by apply Hwf.
    cbn [snd andb]. case_bool_decide as E; [by rewrite E, lookup_insert_eq|].
    by rewrite lookup_insert_ne. }
  destruct c; cbn [bumped starts_generation]; auto.
Qed.

Lemma call_generations_wf c r : generations_wf r -> generations_wf (call c r).
Proof.
  intros Hwf sid g. rewrite call_starts by done. destruct (starts_generation _ _); [|apply Hwf].
  intros [= <-]. apply successor_range.
  destruct (generations_ r !! sid) as [g|] eqn:E; simpl; [|unfold kMaxGeneration; lia].
  specialize (Hwf _ _ E). lia.
Qed.

Lemma calls_nth sid cs r g :
  generations_wf r -> generations_ r !! sid = Some g ->
  generations_ (calls cs r) !! sid = Some (nth_generation g (generations_started sid cs)).
Proof.
  intros Hwf Hg. pose proof (Hwf _ _ Hg) as Hgr.
  cut (forall n, 0 <= n -> generations_ r !! sid = Some (nth_generation g n) ->
    generations_ (calls cs r) !! sid
      = Some (nth_generation g (n + generations_started sid cs))).
  { intros Hc. apply (Hc 0); [done|]. rewrite Hg. f_equal. unfold nth_generation.
    rewrite Z.add_0_r, Z.mod_small; lia. }
  clear Hg. revert r Hwf. induction cs as [|c cs IH]; intros r Hwf n Hn Hg.
  { change (generations_started sid []) with 0. by rewrite Z.add_0_r. }
  unfold generations_started. rewrite filter_cons. cbn [calls fold_left].
  pose proof (call_starts sid c r Hwf) as Hc. rewrite Hg in Hc. cbn [from_option id] in Hc.
  destruct (decide (starts_generation sid c = true)) as [E|E].
  - rewrite E, successor_nth in Hc by done. rewrite Zlen_cons, Z.add_assoc.
    apply (IH (call c r)); [by apply call_generations_wf|lia|done].
  - apply not_true_is_false in E. rewrite E in Hc.
    apply (IH (call c r)); [by apply call_generations_wf|lia|done].
Qed.
End Lemmas.

Lemma nth_generation_differs g n :
  1 <= g <= kMaxGeneration -> 0 < n < kMaxGeneration -> nth_generation g n <> g.
Proof.
  unfold nth_generation. intros Hg Hn.
  set (m := kMaxGeneration) in *. assert (Hm : 1 < m) by done. clearbody m.
  destruct (Z.lt_ge_cases (g - 1 + n) m).
  - rewrite Z.mod_small; lia.
  - replace (g - 1 + n) with ((g - 1 + n - m) + 1 * m) by lia.
    rewrite Z.mod_add, Z.mod_small; lia.
Qed.

(** ** Theorems *)

Section Theorems.
Context `{AsioAddressLaws} `{SqliteMessages}.

(** C13: a superseded session cannot change a tunnel.  Once another session of the server
    has begun, or the server has been invalidated, by any sequence of fewer than 2^64 - 1
    such calls and any other calls in between, a transition under the old generation
    changes neither the database nor the reconciler and never reports a change, whatever
    its other arguments. *)
Theorem stale_generation_rejected r sid g cs :
  generations_wf r -> is_current sid g r = true ->
  0 < generations_started (str sid) cs < kMaxGeneration ->
  is_current sid g (calls cs r) = false /\
  forall tid rev state e sync now,
    (transition sid tid g rev state e sync now (calls cs r)).2 = calls cs r /\
    (transition sid tid g rev state e sync now (calls cs r)).1 <> Ok true.
Proof.
  intros Hwf Hcur Hn. unfold is_current in *.
  destruct (_ || _) eqn:Hk; [done|].
  assert (Hold : holds_generation (str sid) g (calls cs r) = false).
  { unfold holds_generation in *. apply bool_decide_eq_true in Hcur.
    apply bool_decide_eq_false. rewrite (calls_nth _ _ _ g) by done.
    intros [= E]. by apply (nth_generation_differs g (generations_started (str sid) cs));
      [apply (Hwf (str sid))|..]. }
  split; [done|]. intros. unfold transition.
  destruct (negb _ || negb _ || (g =? 0) || (rev =? 0)); [done|].
  unfold mbind, ST_bind, ST_get. by rewrite Hold.
Qed.

(** C14: a transition through the reconciler changes the named tunnel exactly when the
    session's generation is current and the tunnel still has the server, the revision and
    the desired state the transition is for; otherwise, and on every failure of a
    statement, the stored records are unchanged. *)
Theorem reconciler_transition_exact limits st r sid tid g rev state e sync now :
  valid_state st -> limits_wf limits -> op_wf (UpdateRuntimeState tid sid rev state e now sync) ->
  tables (repository_ r) = encode st -> idle (repository_ r) -> poisoned_ (repository_ r) = false ->
  match transition sid tid g rev state e sync now r with
  | (Ok changed, r') =>
      (changed = true <-> is_current sid g r = true /\
         exists t, st_tunnels st !! str tid = Some t /\
                   transition_applies (str sid) rev state t = true) /\
      exists st', tables (repository_ r') = encode st' /\ valid_state st' /\
        st_servers st' = st_servers st /\
        (forall i, i <> str tid \/ changed = false -> st_tunnels st' !! i = st_tunnels st !! i) /\
        (changed = true -> st_tunnels st' !! str tid =
           in_state state e now sync <$> st_tunnels st !! str tid)
  | (Err _, r') => committed (repository_ r') = encode st
  end.
Proof.
  intros Hst Hl Hwf Ht Hi Hp. unfold transition.
  destruct (_ || _) eqn:Hargs.
  { unfold fail_with, ST_fail, committed. destruct Hi as [-> _]. done. }
  assert (Hcur : is_current sid g r = holds_generation (str sid) g r).
  { unfold is_current. apply orb_false_iff in Hargs as [Hargs _].
    apply orb_false_iff in Hargs as [Hargs Hg]. apply orb_false_iff in Hargs as [Hk _].
    by rewrite Hk, Hg. }
  rewrite Hcur. unfold mbind, ST_bind, ST_get.
  destruct (holds_generation (str sid) g r); cbn [negb].
  2: { unfold mret, ST_ret. split; [naive_solver|]. exists st. naive_solver. }
  pose proof (perform_transition limits tid sid rev state e now sync st (repository_ r)
                Hst Hl Hwf Ht Hi Hp) as Hs. unfold on_repository.
  destruct (TunnelRepository.update_runtime_state_if_revision _ _ _ _ _ _ _ _)
    as [[changed|e'] db']; [|done].
  destruct Hs as (st' & Hs & Ht' & Hst' & _). unfold update_runtime_spec in Hs.
  cbn [repository_]. destruct (st_tunnels st !! str tid) as [t|] eqn:E.
  - destruct (valid_tunnels st Hst _ _ E) as [_ Hid].
    destruct (transition_applies (str sid) rev state t) eqn:Ha; simplify_eq.
    + split; [split; eauto|]. eexists. split_and!; [exact Ht'|done|done|..]; cbn.
      * intros i [Hne|?]; [|done]. by rewrite Hid, lookup_insert_ne.
      * intros _. by rewrite Hid, lookup_insert_eq.
    + split; [split; [done|]|by exists st'; naive_solver].
      intros [_ (t' & Hs & Ha')]. congruence.
  - simplify_eq. split; [split; [done|naive_solver]|]. exists st'. naive_solver.
Qed.

(** a session that begins owns a fresh generation and finds every tunnel of its server
    that should be active in the state [pending] without an error; no other record
    changes. *)
Theorem begun_generation_current limits st r sid now g r' :
  valid_state st -> limits_wf limits -> generations_wf r ->
  tables (repository_ r) = encode st -> idle (repository_ r) -> poisoned_ (repository_ r) = false ->
  begin_generation sid now r = (Ok g, r') ->
  is_current sid g r' = true /\ is_current sid g r = false /\ 1 <= g <= kMaxGeneration /\
  exists st', tables (repository_ r') = encode st' /\ valid_state st' /\
    st_servers st' = st_servers st /\
    forall i, st_tunnels st' !! i =
      (fun t => if active_of (str sid) t then in_state TunnelActualState.pending None now false t
                else t) <$> st_tunnels st !! i.
Proof.
  intros Hst Hl Hwf Ht Hi Hp. unfold begin_generation. case_bool_decide as Hk; [|done]. cbn [negb].
  unfold mbind, ST_bind, next_generation. rewrite next_generation_successor by apply Hwf.
  unfold on_repository. cbn [repository_ generations_].
  pose proof (perform_pending limits sid None now st (repository_ r) Hst Hl Ht Hi Hp) as Hs.
  destruct (TunnelRepository.mark_active_pending_by_server _ _ _ _) as [[n|e] db']; [|done].
  destruct Hs as (st' & Hs & Ht' & Hst' & _). unfold mret, ST_ret. intros Hr. simplify_eq.
  set (old := default 0 (generations_ r !! str sid)).
  assert (Hold : 0 <= old <= kMaxGeneration).
  { unfold old. destruct (generations_ r !! str sid) as [g|] eqn:E;
      [specialize (Hwf _ _ E)|]; simpl; unfold kMaxGeneration in *; lia. }
  pose proof (successor_range old Hold) as Hsr. unfold is_current, holds_generation.
  cbn [generations_ repository_]. rewrite lookup_insert_eq.
  destruct (Z.eqb_spec (successor old) 0); [lia|]. rewrite (bool_decide_true (kind sid = server)) by done.
  cbn [negb orb]. split_and!; try lia.
  - by apply bool_decide_eq_true.
  - apply bool_decide_eq_false. intros E.
    assert (Hfix : old = successor old) by (unfold old at 1; by rewrite E).
    clearbody old. unfold successor in Hfix.
    destruct (Z.eqb_spec old kMaxGeneration); unfold kMaxGeneration in *; lia.
  - unfold mark_active_pending_spec in Hs. simplify_eq. eexists. split_and!; [exact Ht'|done|done|].
    intros i. cbn. by rewrite lookup_fmap.
Qed.
End Theorems.

(** ** A concrete reconciler *)

#[local] Existing Instance sample_asio.
#[local] Existing Instance sample_asio_laws.
#[local] Existing Instance sample_messages.

Definition sample_sid : Id := sr_id sample_server.
Definition sample_tid : Id := tr_id sample_tunnel.

Definition sample_reconciler : Reconciler :=
  mkReconciler {[ str sample_sid := 7 ]} (sample_db []).

Lemma sample_generations_wf : generations_wf sample_reconciler.
Proof.
  intros sid g. simpl. intros [_ <-]%lookup_singleton_Some. unfold kMaxGeneration. lia.
Qed.

Lemma stale_generation_rejected_witness :
  let cs := [Transition sample_sid sample_tid 7 4 TunnelActualState.active None true 8000;
             Begin sample_sid 9000] in
  is_current sample_sid 7 (calls cs sample_reconciler) = false /\
  forall tid rev state e sync now,
    (transition sample_sid tid 7 rev state e sync now (calls cs sample_reconciler)).2
      = calls cs sample_reconciler /\
    (transition sample_sid tid 7 rev state e sync now (calls cs sample_reconciler)).1 <> Ok true.
Proof.
  apply (stale_generation_rejected sample_reconciler sample_sid 7
    [Transition sample_sid sample_tid 7 4 TunnelActualState.active None true 8000;
     Begin sample_sid 9000]);
    [apply sample_generations_wf|vm_compute; reflexivity|split; vm_compute; reflexivity].
Defined.

Lemma reconciler_transition_exact_witness :
  match transition sample_sid sample_tid 7 4 TunnelActualState.active None true 8000
          sample_reconciler with
  | (Ok changed, r') =>
      (changed = true <-> is_current sample_sid 7 sample_reconciler = true /\
         exists t, st_tunnels sample_state !! str sample_tid = Some t /\
                   transition_applies (str sample_sid) 4 TunnelActualState.active t = true) /\
      exists st', tables (repository_ r') = encode st' /\ valid_state st' /\
        st_servers st' = st_servers sample_state /\
        (forall i, i <> str sample_tid \/ changed = false ->
           st_tunnels st' !! i = st_tunnels sample_state !! i) /\
        (changed = true -> st_tunnels st' !! str sample_tid =
           in_state TunnelActualState.active None 8000 true <$>
             st_tunnels sample_state !! str sample_tid)
  | (Err _, r') => committed (repository_ r') = encode sample_state
  end.
Proof.
  apply (reconciler_transition_exact default_storage_limits sample_state sample_reconciler
    sample_sid sample_tid 7 4 TunnelActualState.active None true 8000);
    [apply sample_state_valid|apply default_limits_wf| |reflexivity|done|reflexivity].
  split; [vm_compute; done|done].
Defined.

Lemma begun_generation_current_witness :
  exists g r', begin_generation sample_sid 9000 sample_reconciler = (Ok g, r') /\
  is_current sample_sid g r' = true /\ is_current sample_sid g sample_reconciler = false /\
  1 <= g <= kMaxGeneration /\
  exists st', tables (repository_ r') = encode st' /\ valid_state st' /\
    st_servers st' = st_servers sample_state /\
    forall i, st_tunnels st' !! i =
      (fun t => if active_of (str sample_sid) t
                then in_state TunnelActualState.pending None 9000 false t else t)
      <$> st_tunnels sample_state !! i.
Proof.
  eexists _, _. split; [vm_compute; reflexivity|].
  eapply (begun_generation_current default_storage_limits sample_state sample_reconciler sample_sid
    9000); [apply sample_state_valid|apply default_limits_wf|apply sample_generations_wf|
    reflexivity|done|reflexivity|vm_compute; reflexivity].
Defined.

(** [end_generation] does not retire the generation it ends.  A delayed response of the
    ended session still passes for current and moves the tunnel from [pending], where
    [end_generation] has put it, to [active]. *)
Theorem ended_generation_still_current :
  let ended := call (End_ sample_sid 7 None 8000) sample_reconciler in
  is_current sample_sid 7 ended = true /\
  TunnelRepository.get_by_id sample_tid (repository_ ended)
    = (Ok (in_state TunnelActualState.pending None 8000 false sample_tunnel), repository_ ended) /\
  (transition sample_sid sample_tid 7 4 TunnelActualState.active None true 9000 ended).1 = Ok true.
Proof. vm_compute. split_and!; reflexivity. Qed.
