(* ===== verification/Io.v ===== *)
(** * Completions of asynchronous socket operations

    The coroutines of src/protocol/relay.cpp, datagram.cpp and socks5.cpp suspend at
    asio operations and go on with their error code and byte count.  This file has the
    error codes these coroutines tell apart and the classification each file makes of
    them. *)
From S2P Require Import Prelude Common.

(** [asio::error_code]; [other_error] stands for every value the code never compares
    with.  The absence of an error is [None] of [option IoError]. *)
Inductive IoError : Set :=
| eof
| stream_truncated
| connection_reset
| broken_pipe
| operation_aborted
| connection_refused
| invalid_argument_error
| other_error (value : Z).

#[export] Instance IoError_eq_dec : EqDecision IoError.
Proof. solve_decision. Defined.

(** [is_end_of_stream] of relay.cpp. *)
Definition is_end_of_stream (error : option IoError) : bool :=
  bool_decide (error = Some eof) || bool_decide (error = Some stream_truncated).

(** [is_normal_disconnect] of relay.cpp. *)
Definition is_normal_disconnect (error : option IoError) : bool :=
  is_end_of_stream error || bool_decide (error = Some connection_reset)
  || bool_decide (error = Some broken_pipe) || bool_decide (error = Some operation_aborted).

(** [is_graceful_eof] of datagram.cpp. *)
Definition is_graceful_eof (error : option IoError) : bool :=
  bool_decide (error = Some eof) || bool_decide (error = Some stream_truncated)
  || bool_decide (error = Some connection_reset) || bool_decide (error = Some broken_pipe)
  || bool_decide (error = Some operation_aborted).

(** [if (error)] on an error code. *)
Definition failed {E} (error : option E) : bool := bool_decide (is_Some error).

(** [counter += n] on a [std::uint64_t]. *)
Definition add_u64 (counter n : Z) : Z := (counter + n) mod 2 ^ 64.

(** The wait of [run] on its completion timer.  The timer is set to the end of time, so the
    wait ends only when the timer is cancelled. *)
Inductive CompletionWait : Set := WaitPending | WaitCancelled | WaitOver.
#[export] Instance CompletionWait_eq_dec : EqDecision CompletionWait.
Proof. solve_decision. Defined.

(** [timer.cancel()] on the completion timer: a pending wait completes. *)
Definition cancel_wait (w : CompletionWait) : CompletionWait :=
  match w with WaitPending => WaitCancelled | _ => w end.

Lemma failed_false {E} (error : option E) : failed error = false <-> error = None.
Proof. unfold failed. destruct error; rewrite bool_decide_eq_false; naive_solver. Qed.

Lemma add_u64_mod a n : add_u64 (a mod 2 ^ 64) n = (a + n) mod 2 ^ 64.
Proof. unfold add_u64. by rewrite Zplus_mod_idemp_l. Qed.
