(* ===== verification/Relay.v ===== *)
(** * The TCP relay

    [RelayOperation] of src/protocol/relay.cpp: two coroutines that copy bytes between
    a worker's TLS stream and a local TCP socket, a third that watches for inactivity,
    and [run], which waits for the end.  All three run on the executor of the TLS
    stream, so the operation is a state machine: a state says at which [co_await] each
    coroutine is suspended, an event is the completion of the operation it waits for,
    and a step runs the coroutine to its next [co_await].  The calls it makes on the
    way are the step's effects. *)
From S2P Require Import Prelude Common Io.

Definition kRelayBufferSize : Z := 16 * 1024.

(** [kMaximumRelayTimeout], in seconds. *)
Definition kMaximumRelayTimeout : Z := 24 * 3600.

(** The two pumps. *)
Inductive Direction : Set := tls_to_tcp | tcp_to_tls.
#[export] Instance Direction_eq_dec : EqDecision Direction.
Proof. solve_decision. Defined.

(** Where a pump is suspended: at [async_read_some], at [async_write] of the bytes read
    (the error of that read is looked at after the write), or it has returned. *)
Inductive Phase : Set :=
| Reading
| Writing (data : bytes) (read_error : option IoError)
| Stopped.

(** The byte counts of [RelayStats]; its duration is the time [run] took. *)
Record RelayStats : Set := mkRelayStats { tls_to_tcp_bytes : Z; tcp_to_tls_bytes : Z }.

Record RelayOperation : Set := mkRelayOperation {
  tls_pump : Phase;
  tcp_pump : Phase;
  watching : bool;            (** [watch_inactivity] is suspended at its timer *)
  stats_ : RelayStats;
  failure_ : option Error;
  finished_directions_ : Z;
  done_ : bool;
  waiting : CompletionWait    (** the wait of [run] on [completion_timer_] *)
}.

Definition RelayOperation_new : RelayOperation :=
  mkRelayOperation Reading Reading true (mkRelayStats 0 0) None 0 false WaitPending.

Definition phase (d : Direction) (op : RelayOperation) : Phase :=
  match d with tls_to_tcp => tls_pump op | tcp_to_tls => tcp_pump op end.
Definition counter (d : Direction) (op : RelayOperation) : Z :=
  match d with
  | tls_to_tcp => tls_to_tcp_bytes (stats_ op)
  | tcp_to_tls => tcp_to_tls_bytes (stats_ op)
  end.

Inductive Effect : Set :=
| StartRead (d : Direction)
| StartWrite (d : Direction) (data : bytes)
| ShutdownSend (d : Direction)   (** of the socket the direction writes to *)
| CloseBoth
| ArmActivity
| CancelActivity
| CancelCompletion
| Return (result : Result RelayStats).

Inductive Event : Set :=
| ReadSome (d : Direction) (data : bytes) (error : option IoError)
| Wrote (d : Direction) (written : Z) (error : option IoError)
| Threw (d : Direction)          (** an exception ends the coroutine *)
| TimerWait (error : option IoError)
| WatcherThrew
| Completed.                     (** [run] resumes *)

(** A call changes the operation and makes calls on its sockets and timers. *)
Abbreviation Call := (RelayOperation -> list Effect * RelayOperation).

Definition then_ (m k : Call) : Call := fun op =>
  let (e1, op) := m op in let (e2, op) := k op in (e1 ++ e2, op).

(** ** The member functions *)

Definition set_phase (d : Direction) (p : Phase) (op : RelayOperation) : RelayOperation :=
  match d with
  | tls_to_tcp => mkRelayOperation p (tcp_pump op) (watching op) (stats_ op) (failure_ op)
                    (finished_directions_ op) (done_ op) (waiting op)
  | tcp_to_tls => mkRelayOperation (tls_pump op) p (watching op) (stats_ op) (failure_ op)
                    (finished_directions_ op) (done_ op) (waiting op)
  end.

Definition count_bytes (d : Direction) (n : Z) (op : RelayOperation) : RelayOperation :=
  let s := stats_ op in
  let s := match d with
           | tls_to_tcp => mkRelayStats (add_u64 (tls_to_tcp_bytes s) n) (tcp_to_tls_bytes s)
           | tcp_to_tls => mkRelayStats (tls_to_tcp_bytes s) (add_u64 (tcp_to_tls_bytes s) n)
           end in
  mkRelayOperation (tls_pump op) (tcp_pump op) (watching op) s (failure_ op)
    (finished_directions_ op) (done_ op) (waiting op).

(** [set_failure]: the first failure is kept. *)
Definition set_failure (e : Error) (op : RelayOperation) : RelayOperation :=
  mkRelayOperation (tls_pump op) (tcp_pump op) (watching op) (stats_ op)
    (match failure_ op with Some f => Some f | None => Some e end)
    (finished_directions_ op) (done_ op) (waiting op).

Definition set_done (op : RelayOperation) : RelayOperation :=
  mkRelayOperation (tls_pump op) (tcp_pump op) (watching op) (stats_ op) (failure_ op)
    (finished_directions_ op) true (waiting op).

Definition stop_watching (op : RelayOperation) : RelayOperation :=
  mkRelayOperation (tls_pump op) (tcp_pump op) false (stats_ op) (failure_ op)
    (finished_directions_ op) (done_ op) (waiting op).

Definition set_waiting (w : CompletionWait) (op : RelayOperation) : RelayOperation :=
  mkRelayOperation (tls_pump op) (tcp_pump op) (watching op) (stats_ op) (failure_ op)
    (finished_directions_ op) (done_ op) w.

(** [cancel_timer(activity_timer_)] and [cancel_timer(completion_timer_)]. *)
Definition cancel_activity : Call := fun op => ([CancelActivity], op).
Definition cancel_completion : Call := fun op =>
  ([CancelCompletion], set_waiting (cancel_wait (waiting op)) op).

(** [close_both]. *)
Definition close_both : Call := fun op => ([CloseBoth], op).

(** [finish_direction]. *)
Definition finish_direction (failure : option Error) : Call := fun op =>
  if done_ op then ([], op)
  else
    let (closed, op) := match failure with
                        | Some e => close_both (set_failure e op)
                        | None => ([], op)
                        end in
    let finished := finished_directions_ op + 1 in
    let op := mkRelayOperation (tls_pump op) (tcp_pump op) (watching op) (stats_ op)
                (failure_ op) finished (done_ op) (waiting op) in
    if 2 <=? finished then
      let (cancelled, op) := then_ cancel_activity cancel_completion (set_done op) in
      (closed ++ cancelled, op)
    else (closed, op).

(** [finish_direction_and_close]. *)
Definition finish_direction_and_close : Call := then_ close_both (finish_direction None).

(** [finish_write_error]. *)
Definition finish_write_error (error : option IoError) (message : string) : Call :=
  if is_normal_disconnect error then finish_direction_and_close
  else finish_direction (Some (mkError connection_failed (bs message))).

(** [note_activity]. *)
Definition note_activity : Call := fun op => (if done_ op then [] else [ArmActivity], op).

(** ** The coroutines *)

(** The messages of the two pumps. *)
Definition write_failed (d : Direction) : string :=
  match d with
  | tls_to_tcp => "local TCP relay write failed"
  | tcp_to_tls => "TLS relay write failed"
  end.
Definition read_failed (d : Direction) : string :=
  match d with
  | tls_to_tcp => "TLS relay read failed"
  | tcp_to_tls => "local TCP relay read failed"
  end.
Definition pump_threw (d : Direction) : string :=
  match d with
  | tls_to_tcp => "TLS-to-TCP relay direction failed unexpectedly"
  | tcp_to_tls => "TCP-to-TLS relay direction failed unexpectedly"
  end.

(** The end of the loop body, [if (read_error) ...]; without an error the pump reads
    again. *)
Definition after_read (d : Direction) (read_error : option IoError) : Call := fun op =>
  if negb (failed read_error) then ([StartRead d], set_phase d Reading op)
  else
    let op := set_phase d Stopped op in
    if is_end_of_stream read_error then
      then_ (fun op => ([ShutdownSend d], op)) (finish_direction None) op
    else if is_normal_disconnect read_error then finish_direction_and_close op
    else finish_direction (Some (mkError connection_failed (bs (read_failed d)))) op.

(** [pump_tls_to_tcp] and [pump_tcp_to_tls] from [async_read_some] on. *)
Definition pump_read (d : Direction) (data : bytes) (read_error : option IoError) : Call :=
  fun op =>
  if 0 <? Zlen data then ([StartWrite d data], set_phase d (Writing data read_error) op)
  else after_read d read_error op.

(** The pumps from [async_write] on. *)
Definition pump_wrote (d : Direction) (data : bytes) (read_error : option IoError)
    (written : Z) (write_error : option IoError) : Call := fun op =>
  if failed write_error || negb (written =? Zlen data) then
    finish_write_error write_error (write_failed d) (set_phase d Stopped op)
  else then_ note_activity (after_read d read_error) (count_bytes d written op).

(** [watch_inactivity] from its timer on; [operation_aborted] goes round the loop. *)
Definition watch_inactivity (error : option IoError) : Call := fun op =>
  if done_ op then ([], stop_watching op)
  else if bool_decide (error = Some operation_aborted) then ([], op)
  else
    let e := if failed error
             then mkError internal_error (bs "TCP relay inactivity timer failed")
             else mkError connection_timeout (bs "TCP relay inactivity timeout expired") in
    close_both (set_failure e (stop_watching op)).

(** [run] after the completion timer. *)
Definition finish_run : Call := fun op =>
  let op := mkRelayOperation (tls_pump op) (tcp_pump op) (watching op) (stats_ op) (failure_ op)
              (finished_directions_ op) true WaitOver in
  ([CancelActivity;
    Return (match failure_ op with Some e => Err e | None => Ok (stats_ op) end)], op).

(** One completion.  [None]: nothing waits for it. *)
Definition step (event : Event) (op : RelayOperation) : option (list Effect * RelayOperation) :=
  match event with
  | ReadSome d data error =>
      match phase d op with Reading => Some (pump_read d data error op) | _ => None end
  | Wrote d written error =>
      match phase d op with
      | Writing data read_error => Some (pump_wrote d data read_error written error op)
      | _ => None
      end
  | Threw d =>
      match phase d op with
      | Stopped => None
      | _ => Some (finish_direction (Some (mkError internal_error (bs (pump_threw d))))
                     (set_phase d Stopped op))
      end
  | TimerWait error => if watching op then Some (watch_inactivity error op) else None
  | WatcherThrew =>
      if watching op then
        Some (close_both (set_failure
          (mkError internal_error (bs "relay inactivity monitor failed unexpectedly"))
          (stop_watching op)))
      else None
  | Completed =>
      match waiting op with WaitCancelled => Some (finish_run op) | _ => None end
  end.

(** [relay_tls_and_tcp]: the check of the options before the operation starts. *)
Definition check_relay_options (inactivity_timeout : Z) : Result RelayOperation :=
  if (inactivity_timeout <=? 0) || (kMaximumRelayTimeout <? inactivity_timeout) then
    failure invalid_argument "TCP relay timeout is invalid"
  else Ok RelayOperation_new.

(** ** Runs *)

(** A history of an operation: the completions in order, each with the state it found. *)
Abbreviation History := (list (RelayOperation * Event)).

Inductive relay_run : History -> list Effect -> RelayOperation -> Prop :=
| relay_run_start :
    relay_run [] [ArmActivity; StartRead tls_to_tcp; StartRead tcp_to_tls] RelayOperation_new
| relay_run_step h effects op event more op' :
    relay_run h effects op -> step event op = Some (more, op') ->
    relay_run (h ++ [(op, event)]) (effects ++ more) op'.

(** The bytes a direction read, and those the socket it writes to took. *)
Definition taken_by (d : Direction) (x : RelayOperation * Event) : bytes :=
  match x.2 with
  | ReadSome d' data _ => if decide (d' = d) then data else []
  | _ => []
  end.
Definition given_by (d : Direction) (x : RelayOperation * Event) : bytes :=
  match x.2, phase d x.1 with
  | Wrote d' written _, Writing data _ =>
      if decide (d' = d) then take (Z.to_nat written) data else []
  | _, _ => []
  end.
(** The bytes of the writes that completed without an error and in full. *)
Definition acknowledged_by (d : Direction) (x : RelayOperation * Event) : bytes :=
  match x.2, phase d x.1 with
  | Wrote d' written None, Writing data _ =>
      if decide (d' = d /\ written = Zlen data) then data else []
  | _, _ => []
  end.
Definition taken (d : Direction) (h : History) : bytes := concat (map (taken_by d) h).
Definition given (d : Direction) (h : History) : bytes := concat (map (given_by d) h).
Definition acknowledged (d : Direction) (h : History) : bytes :=
  concat (map (acknowledged_by d) h).

Definition is_stopped (p : Phase) : bool := match p with Stopped => true | _ => false end.
Definition stopped_pumps (op : RelayOperation) : Z :=
  Z.b2z (is_stopped (tls_pump op)) + Z.b2z (is_stopped (tcp_pump op)).

(** ** Lemmas *)

Lemma taken_snoc d h x : taken d (h ++ [x]) = taken d h ++ taken_by d x.
Proof. unfold taken. by rewrite map_app, concat_app; simpl; rewrite app_nil_r. Qed.
Lemma given_snoc d h x : given d (h ++ [x]) = given d h ++ given_by d x.
Proof. unfold given. by rewrite map_app, concat_app; simpl; rewrite app_nil_r. Qed.

Lemma acknowledged_snoc d h x : acknowledged d (h ++ [x]) = acknowledged d h ++ acknowledged_by d x.
Proof. unfold acknowledged. by rewrite map_app, concat_app; simpl; rewrite app_nil_r. Qed.

Lemma phase_set_phase d d' p op :
  phase d' (set_phase d p op) = if decide (d = d') then p else phase d' op.
Proof. by destruct d, d'. Qed.
Lemma counter_set_phase d d' p op : counter d' (set_phase d p op) = counter d' op.
Proof. by destruct d, d'. Qed.
Lemma phase_count_bytes d d' n op : phase d' (count_bytes d n op) = phase d' op.
Proof. by destruct d, d'. Qed.
Lemma counter_count_bytes d d' n op :
  counter d' (count_bytes d n op) =
  if decide (d = d') then add_u64 (counter d' op) n else counter d' op.
Proof. by destruct d, d'. Qed.

(** Calls that only end things: pumps and counters stay, nothing is half-closed. *)
Definition ending (op : RelayOperation) (r : list Effect * RelayOperation) : Prop :=
  forall d, phase d r.2 = phase d op /\ counter d r.2 = counter d op /\ ShutdownSend d ∉ r.1.

Lemma ending_finish failure op : ending op (finish_direction failure op).
Proof.
  unfold ending, finish_direction, close_both. intros d.
  destruct (done_ op), failure; simpl; try case_match; simpl; (destruct d; split_and!; set_solver).
Qed.

Lemma ending_then effects op r :
  ending op r -> (forall d, ShutdownSend d ∉ effects) -> ending op (effects ++ r.1, r.2).
Proof. intros Hr He d. destruct (Hr d) as (?&?&?). simpl. split_and!; set_solver. Qed.

Lemma ending_close op : ending op (finish_direction_and_close op).
Proof.
  unfold finish_direction_and_close, then_, close_both.
  pose proof (ending_then [CloseBoth] op _ (ending_finish None op) ltac:(set_solver)) as H.
  by destruct (finish_direction None op).
Qed.

Lemma ending_write_error error message op : ending op (finish_write_error error message op).
Proof. unfold finish_write_error. case_match; [apply ending_close|apply ending_finish]. Qed.

Lemma ending_watch error op : ending op (watch_inactivity error op).
Proof.
  unfold watch_inactivity, close_both. intros d.
  repeat case_match; simpl; destruct d; split_and!; set_solver.
Qed.

#[local] Hint Resolve ending_finish ending_close ending_write_error ending_watch : core.

(** Only [after_read] half-closes, when the end of the stream was read. *)
Definition passes (d : Direction) (p : Phase) (shut : bool) (op : RelayOperation)
    (r : list Effect * RelayOperation) : Prop :=
  (forall d', phase d' r.2 = if decide (d = d') then p else phase d' op) /\
  (forall d', counter d' r.2 = counter d' op) /\
  (forall d', ShutdownSend d' ∈ r.1 -> d' = d /\ shut = true).

Lemma passes_ending d p shut op r :
  ending (set_phase d p op) r -> passes d p shut op r.
Proof.
  intros H. split_and!; intros d'; destruct (H d') as (Hp&Hc&Hs).
  - by rewrite Hp, phase_set_phase.
  - by rewrite Hc, counter_set_phase.
  - done.
Qed.

Lemma after_read_passes d error op :
  passes d (if failed error then Stopped else Reading) (failed error) op (after_read d error op).
Proof.
  unfold after_read. destruct (failed error); simpl.
  - destruct (is_end_of_stream error) eqn:?; [|case_match; apply passes_ending; auto].
    unfold then_. pose proof (passes_ending d Stopped true op _ (ending_finish None _)) as (H1&H2&H3).
    destruct (finish_direction None (set_phase d Stopped op)); simpl in *.
    split_and!; simpl; [done|done|]. intros d'. rewrite elem_of_cons. naive_solver.
  - split_and!; simpl; intros d'; [apply phase_set_phase|apply counter_set_phase|set_solver].
Qed.

(** What is known of one direction. *)
Definition direction_inv (h : History) (effects : list Effect) (op : RelayOperation)
    (d : Direction) : Prop :=
  counter d op = Zlen (acknowledged d h) mod 2 ^ 64 /\
  match phase d op with
  | Reading => taken d h = given d h /\ acknowledged d h = given d h /\ ShutdownSend d ∉ effects
  | Writing data _ =>
      taken d h = given d h ++ data /\ acknowledged d h = given d h /\ ShutdownSend d ∉ effects
  | Stopped =>
      given d h `prefix_of` taken d h /\ acknowledged d h `prefix_of` given d h /\
      (ShutdownSend d ∈ effects -> taken d h = given d h /\ acknowledged d h = given d h)
  end.

Definition event_direction (event : Event) : option Direction :=
  match event with
  | ReadSome d _ _ | Wrote d _ _ | Threw d => Some d
  | _ => None
  end.

(** Every step is of one of three shapes: it ends things, it starts a write, or it runs
    the pump of the event's direction to its next read or its end. *)
Definition started_write (d : Direction) (data : bytes) (e : option IoError)
    (op : RelayOperation) (r : list Effect * RelayOperation) : Prop :=
  r = ([StartWrite d data], set_phase d (Writing data e) op).

Lemma step_cases event op r :
  step event op = Some r ->
  match event with
  | ReadSome d data e =>
      phase d op = Reading /\
      (data <> [] /\ started_write d data e op r \/
       data = [] /\ passes d (if failed e then Stopped else Reading) (failed e) op r)
  | Wrote d n e =>
      exists data re, phase d op = Writing data re /\
      ((~ (n = Zlen data /\ e = None)) /\ passes d Stopped false op r \/
       n = Zlen data /\ e = None /\
       passes d (if failed re then Stopped else Reading) (failed re) (count_bytes d n op) r)
  | Threw d => phase d op <> Stopped /\ passes d Stopped false op r
  | _ => ending op r
  end.
Proof.
  destruct event as [d data e|d n e|d|e| |]; simpl.
  - destruct (phase d op) eqn:Hp; intros [= <-]. split; [done|]. unfold pump_read.
    destruct data as [|b data]; [right; split; [done|apply after_read_passes]|].
    left. split; [done|]. destruct (Z.ltb_spec 0 (Zlen (b :: data))); [done|].
    rewrite Zlen_cons in *. pose proof (Zlen_nonneg data). lia.
  - destruct (phase d op) as [|data re|] eqn:Hp; intros [= <-]. exists data, re. split; [done|].
    unfold pump_wrote. destruct (failed e) eqn:Ef; simpl.
    { left. split; [by intros [_ ->]|apply passes_ending; auto]. }
    destruct (Z.eqb_spec n (Zlen data)) as [->|]; simpl;
      [|left; split; [naive_solver|apply passes_ending; auto]].
    right. split; [done|]. apply failed_false in Ef. split; [done|].
    unfold then_, note_activity.
    pose proof (after_read_passes d re (count_bytes d (Zlen data) op)) as (H1&H2&H3).
    destruct (after_read d re (count_bytes d (Zlen data) op)) as [e2 op2] eqn:E2. simpl in *.
    split_and!; simpl; [done|done|]. intros d'. rewrite elem_of_app. intros [Hin|?]; [|auto].
    destruct (done_ _); set_solver.
  - destruct (phase d op) eqn:Hp; intros [= <-];
      (split; [done|]; apply passes_ending, ending_finish).
  - destruct (watching op); intros [= <-]. auto.
  - destruct (watching op); intros [= <-]. intros d. destruct d; simpl; split_and!; set_solver.
  - destruct (waiting op); intros [= <-]. intros d.
    destruct d; simpl; split_and!; set_solver.
Qed.

Lemma direction_inv_quiet h effects op x more op' d :
  direction_inv h effects op d -> taken_by d x = [] -> given_by d x = [] ->
  acknowledged_by d x = [] -> phase d op' = phase d op -> counter d op' = counter d op -> ShutdownSend d ∉ more ->
  direction_inv (h ++ [x]) (effects ++ more) op' d.
Proof.
  unfold direction_inv. intros [Hc Hi] Ht Hg Ha -> -> Hs.
  rewrite taken_snoc, given_snoc, acknowledged_snoc, Ht, Hg, Ha, !app_nil_r. split; [done|].
  destruct (phase d op); rewrite elem_of_app; naive_solver.
Qed.

Lemma other_direction event op d :
  event_direction event <> Some d ->
  taken_by d (op, event) = [] /\ given_by d (op, event) = [] /\ acknowledged_by d (op, event) = [].
Proof.
  unfold taken_by, given_by, acknowledged_by.
  destruct event; simpl; intros Hd; split_and!; try done; repeat case_match; simpl; try done; naive_solver.
Qed.

Lemma passes_quiet d' d p shut op r :
  d' <> d -> passes d' p shut op r ->
  phase d r.2 = phase d op /\ counter d r.2 = counter d op /\ ShutdownSend d ∉ r.1.
Proof. intros Hne (H1&H2&H3). rewrite H1, H2, decide_False by done. naive_solver. Qed.

Lemma relay_step_other event op r d :
  step event op = Some r -> event_direction event <> Some d ->
  phase d r.2 = phase d op /\ counter d r.2 = counter d op /\ ShutdownSend d ∉ r.1.
Proof.
  intros Hstep Hd. apply step_cases in Hstep.
  destruct event as [d' data e|d' n e|d'|e| |]; simpl in Hd; try (apply Hstep);
    assert (Hne : d' <> d) by congruence.
  - destruct Hstep as (_ & [(_ & ->)|(_ & Hp)]); [|by eapply passes_quiet].
    simpl. rewrite phase_set_phase, counter_set_phase, decide_False by done. set_solver.
  - destruct Hstep as (data & re & _ & [[_ Hp]|(_ & _ & Hp)]); [by eapply passes_quiet|].
    destruct (passes_quiet _ _ _ _ _ _ Hne Hp) as (-> & -> & ?).
    rewrite phase_count_bytes, counter_count_bytes, decide_False by done. done.
  - destruct Hstep as [_ Hp]. by eapply passes_quiet.
Qed.

(** A pump that reaches its end or its next read with everything passed on. *)
Lemma direction_inv_passes h effects op x r d (error : option IoError) :
  passes d (if failed error then Stopped else Reading) (failed error) op r ->
  ShutdownSend d ∉ effects ->
  taken d (h ++ [x]) = given d (h ++ [x]) -> acknowledged d (h ++ [x]) = given d (h ++ [x]) ->
  counter d op = Zlen (acknowledged d (h ++ [x])) mod 2 ^ 64 ->
  direction_inv (h ++ [x]) (effects ++ r.1) r.2 d.
Proof.
  intros (H1&H2&H3) Hs Ht Ha Hc. unfold direction_inv.
  rewrite H1, H2, decide_True by done. split; [done|]. rewrite Ht, Ha. destruct (failed error).
  - by split_and!.
  - split_and!; [done|done|]. rewrite elem_of_app. naive_solver.
Qed.

(** A pump that ends in the middle. *)
Lemma direction_inv_broken h effects op x r d :
  passes d Stopped false op r -> ShutdownSend d ∉ effects ->
  given d (h ++ [x]) `prefix_of` taken d (h ++ [x]) ->
  acknowledged d h = given d h -> acknowledged_by d x = [] ->
  counter d op = Zlen (acknowledged d h) mod 2 ^ 64 ->
  direction_inv (h ++ [x]) (effects ++ r.1) r.2 d.
Proof.
  intros (H1&H2&H3) Hs Hp Ha Hx Hc. unfold direction_inv. rewrite H1, H2, decide_True by done.
  rewrite acknowledged_snoc, Hx, app_nil_r. split_and!; [done|done| |].
  - rewrite Ha, given_snoc. by apply prefix_app_r.
  - rewrite elem_of_app. intros [?|Hin]; [done|]. by destruct (H3 _ Hin).
Qed.

Lemma direction_step h effects op event r d :
  direction_inv h effects op d -> step event op = Some r ->
  direction_inv (h ++ [(op, event)]) (effects ++ r.1) r.2 d.
Proof.
  intros Hi Hstep. destruct (decide (event_direction event = Some d)) as [Hd|Hd].
  2:{ destruct (other_direction event op d Hd) as (Ht & Hg & Ha).
      destruct (relay_step_other _ _ _ _ Hstep Hd) as (?&?&?). by eapply direction_inv_quiet. }
  apply step_cases in Hstep. destruct Hi as [Hc Hi].
  assert (Ht := taken_snoc d h (op, event)). assert (Hg := given_snoc d h (op, event)).
  assert (Ha := acknowledged_snoc d h (op, event)).
  unfold taken_by, given_by, acknowledged_by in Ht, Hg, Ha.
  destruct event as [d' data e|d' n e|d'|e| |]; simplify_eq/=; rewrite ?decide_True in * by done.
  - destruct Hstep as (Hp & Hcase). rewrite Hp, app_nil_r in *. destruct Hi as (Hi1&Hi2&Hi3).
    destruct Hcase as [(_ & ->)|(-> & Hpass)].
    + unfold direction_inv. simpl. rewrite phase_set_phase, counter_set_phase, decide_True by done.
      rewrite Ht, Hg, Ha, Hi1. split_and!; [done|done|done|set_solver].
    + rewrite app_nil_r in *. eapply direction_inv_passes; [done|done|congruence..].
  - destruct Hstep as (data & re & Hp & Hcase). rewrite Hp, app_nil_r in *.
    rewrite (decide_True (P := d = d)) in Hg by done.
    destruct Hi as (Hi1&Hi2&Hi3). destruct Hcase as [[Hno Hpass]|(-> & -> & Hpass)].
    + eapply direction_inv_broken; [done|done| |done| |done].
      * rewrite Ht, Hg, Hi1. apply prefix_app. exists (drop (Z.to_nat n) data). symmetry. apply take_drop.
      * unfold acknowledged_by. simpl. rewrite Hp. destruct e; [done|]. rewrite decide_False; naive_solver.
    + rewrite (firstn_all2 (n := Z.to_nat (Zlen data))) in Hg by (unfold Zlen; lia).
      rewrite decide_True in Ha by done.
      eapply direction_inv_passes; [done|done|congruence..|].
      by rewrite counter_count_bytes, decide_True, Hc, add_u64_mod, Ha, Zlen_app by done.
  - destruct Hstep as (Hp & Hpass). rewrite app_nil_r in *.
    destruct (phase d op) as [|data re|]; [| |done]; destruct Hi as (Hi1&Hi2&Hi3);
      (eapply direction_inv_broken; [done|done| |done|done|done]); rewrite Ht, Hg, Hi1;
      [done|by apply prefix_app_r].
Qed.

(** The bookkeeping of the end: [run] waits until both pumps have stopped, and then its wait
    has been cancelled. *)
Definition ends_inv (effects : list Effect) (op : RelayOperation) : Prop :=
  finished_directions_ op = stopped_pumps op /\
  (done_ op = true <-> stopped_pumps op = 2) /\
  (done_ op = false <-> waiting op = WaitPending) /\
  (waiting op = WaitOver <-> exists result, Return result ∈ effects) /\
  (watching op = false -> done_ op = false -> is_Some (failure_ op) /\ CloseBoth ∈ effects).

(** [finish_direction], when a pump has just stopped. *)
Lemma finish_direction_ends failure op effects :
  finished_directions_ op + 1 = stopped_pumps op -> done_ op = false ->
  (forall r, Return r ∉ effects) -> waiting op = WaitPending ->
  (watching op = false -> is_Some (failure_ op) /\ CloseBoth ∈ effects) ->
  ends_inv (effects ++ (finish_direction failure op).1) (finish_direction failure op).2.
Proof.
  intros Hf Hd Hr Hw Hwatch.
  assert (Hle : stopped_pumps op <= 2)
    by (unfold stopped_pumps; destruct (is_stopped _), (is_stopped _); simpl; lia).
  unfold finish_direction, close_both. rewrite Hd.
  destruct failure as [e|]; cbn -[stopped_pumps Z.leb Z.add]; rewrite Hf;
    destruct (Z.leb_spec 2 (stopped_pumps op)); cbn -[stopped_pumps Z.leb Z.add]; unfold ends_inv;
    cbn -[stopped_pumps Z.leb Z.add]; rewrite ?Hd, ?Hw.
  all: repeat match goal with
       | |- context [stopped_pumps ?o] => progress change (stopped_pumps o) with (stopped_pumps op)
       end.
  all: split_and!; [done|split; (lia || done)|done| |intros Hn; intros;
    try done; specialize (Hwatch Hn)].
  all: try (split; [done|]; intros [r Hin]; revert Hin; set_solver).
  all: destruct Hwatch as [Hsome ?]; split; [|set_solver].
  all: by destruct (failure_ op); eauto.
Qed.

(** A step that stops a pump runs [finish_direction] once, on the stopped state. *)
Definition stops (op : RelayOperation) (r : list Effect * RelayOperation) : Prop :=
  exists failure closed,
    r = (closed ++ (finish_direction failure op).1, (finish_direction failure op).2) /\
    forall result, Return result ∉ closed.

Lemma stops_finish failure op : stops op (finish_direction failure op).
Proof.
  exists failure, []. simpl. split; [by destruct (finish_direction failure op)|set_solver].
Qed.

Lemma stops_then effects op r :
  stops op r -> (forall result, Return result ∉ effects) -> stops op (effects ++ r.1, r.2).
Proof.
  intros (f & closed & -> & Hr) ?. exists f, (effects ++ closed). simpl.
  rewrite app_assoc. split; set_solver.
Qed.

Lemma stops_close op : stops op (finish_direction_and_close op).
Proof.
  unfold finish_direction_and_close, then_, close_both.
  pose proof (stops_then [CloseBoth] op _ (stops_finish None op) ltac:(set_solver)).
  by destruct (finish_direction None op).
Qed.

Lemma stops_after_read d error op :
  failed error = true -> stops (set_phase d Stopped op) (after_read d error op).
Proof.
  unfold after_read. intros ->. simpl.
  destruct (is_end_of_stream error); [|case_match; [apply stops_close|apply stops_finish]].
  unfold then_.
  pose proof (stops_then [ShutdownSend d] _ _ (stops_finish None (set_phase d Stopped op))
    ltac:(set_solver)) as H.
  by destruct (finish_direction None (set_phase d Stopped op)).
Qed.

Lemma stopped_pumps_stop d op :
  phase d op <> Stopped ->
  stopped_pumps (set_phase d Stopped op) = stopped_pumps op + 1 /\ stopped_pumps op < 2.
Proof.
  unfold stopped_pumps. intros Hp.
  destruct d; simpl in *; destruct (tls_pump op), (tcp_pump op); simpl; (done || split; lia).
Qed.

Lemma stops_ends d effects op r :
  ends_inv effects op -> phase d op <> Stopped -> stops (set_phase d Stopped op) r ->
  ends_inv (effects ++ r.1) r.2.
Proof.
  intros (H1&H2&H3&H4&H6) Hp (f & closed & -> & Hr). simpl.
  destruct (stopped_pumps_stop d op Hp) as [Hs Hlt].
  assert (Hd : done_ op = false) by (destruct (done_ op); [lia|done]).
  assert (Hw : waiting op = WaitPending) by (by apply H3).
  rewrite app_assoc. apply finish_direction_ends.
  - rewrite Hs, <- H1. by destruct d.
  - by destruct d.
  - intros result [Hin|Hin]%elem_of_app; [|naive_solver].
    assert (waiting op = WaitOver) by (apply H4; eauto). congruence.
  - by destruct d.
  - intros Hn. destruct H6 as [??]; [by destruct d|done|]. destruct d; set_solver.
Qed.

(** Steps that leave the count of the finished pumps alone. *)
Lemma relay_ends_watch effects op more op' :
  ends_inv effects op -> stopped_pumps op' = stopped_pumps op ->
  (finished_directions_ op', done_ op', waiting op') = (finished_directions_ op, done_ op, waiting op) ->
  (forall result, Return result ∉ more) ->
  (watching op' = false -> done_ op = false ->
   is_Some (failure_ op') /\ CloseBoth ∈ effects ++ more) ->
  ends_inv (effects ++ more) op'.
Proof.
  unfold ends_inv. intros (H1&H2&H3&H4&_) -> [= -> -> ->] Hr Hw.
  split_and!; [done|done|done| |done]. setoid_rewrite elem_of_app. naive_solver.
Qed.

Lemma relay_ends_frame effects op more op' :
  ends_inv effects op -> stopped_pumps op' = stopped_pumps op ->
  (finished_directions_ op', done_ op', waiting op', watching op', failure_ op') =
  (finished_directions_ op, done_ op, waiting op, watching op, failure_ op) ->
  (forall result, Return result ∉ more) ->
  ends_inv (effects ++ more) op'.
Proof.
  intros Hi Hs [= ?? ? Hw Hf] Hr. eapply relay_ends_watch; [done|done|congruence|done|].
  rewrite Hw, Hf, elem_of_app. destruct Hi as (_&_&_&_&Hi). naive_solver.
Qed.

Lemma after_read_ends d error effects op :
  ends_inv effects op -> phase d op <> Stopped ->
  ends_inv (effects ++ (after_read d error op).1) (after_read d error op).2.
Proof.
  intros Hi Hp. destruct (failed error) eqn:Hf.
  - eapply stops_ends; eauto using stops_after_read.
  - unfold after_read. rewrite Hf. simpl. eapply relay_ends_frame; [done| | |set_solver..];
      destruct d; simpl in *; try done; unfold stopped_pumps; simpl; by destruct (tls_pump op), (tcp_pump op).
Qed.

Lemma relay_ends_step effects op event r :
  ends_inv effects op -> step event op = Some r -> ends_inv (effects ++ r.1) r.2.
Proof.
  intros Hi. destruct event as [d data e|d n e|d|e| |]; simpl.
  - destruct (phase d op) eqn:Hp; intros [= <-]. unfold pump_read.
    case_match; [|apply after_read_ends; [done|congruence]]. simpl.
    eapply relay_ends_frame; [done| | |set_solver..]; destruct d; simpl in *; try done;
      unfold stopped_pumps; simpl; by rewrite Hp.
  - destruct (phase d op) as [|data re|] eqn:Hp; intros [= <-]. unfold pump_wrote.
    case_match.
    + eapply stops_ends; [done|by rewrite Hp|]. unfold finish_write_error.
      case_match; [apply stops_close|apply stops_finish].
    + unfold then_, note_activity.
      assert (Hq : ends_inv (effects ++ if done_ (count_bytes d n op) then [] else [ArmActivity])
                     (count_bytes d n op)).
      { eapply relay_ends_frame; [done|by destruct d|by destruct d|]; case_match; set_solver. }
      apply (after_read_ends d re) in Hq; [|by rewrite phase_count_bytes, Hp].
      rewrite <- app_assoc in Hq. by destruct (after_read d re (count_bytes d n op)).
  - destruct (phase d op) eqn:Hp; intros [= <-];
      (eapply stops_ends; [done|by rewrite Hp|apply stops_finish]).
  - destruct (watching op) eqn:Hw; intros [= <-]. unfold watch_inactivity, close_both.
    destruct (done_ op) eqn:Hd.
    { eapply relay_ends_watch; [done|done|done|set_solver..|]. rewrite Hd. done. }
    case_match; (eapply relay_ends_watch; [done|done|done|set_solver..|]); simpl; [congruence|].
    intros _ _. split; [destruct (failure_ op); eauto|set_solver].
  - destruct (watching op) eqn:Hw; intros [= <-]. unfold close_both.
    eapply relay_ends_watch; [done|done|done|set_solver..|]. simpl.
    intros _ _. split; [destruct (failure_ op); eauto|set_solver].
  - destruct (waiting op) eqn:Hw; intros [= <-].
    destruct Hi as (H1&H2&H3&H4&H6). unfold finish_run, ends_inv. simpl.
    assert (Hd : done_ op = true) by (apply not_false_iff_true; intros ?%H3; congruence).
    split_and!; [done|by rewrite <- H2, Hd|done| |done].
    split; [|done]. intros _. eexists. apply elem_of_app. right. right. left.
Qed.

Lemma relay_run_inv h effects op :
  relay_run h effects op -> ends_inv effects op /\ forall d, direction_inv h effects op d.
Proof.
  induction 1 as [|h effects op event more op' _ [IH1 IH2] Hstep].
  - split; [|intros []; split_and!; try done; set_solver].
    unfold ends_inv. simpl. split_and!; try done; set_solver.
  - split; [by apply (relay_ends_step _ _ _ _ IH1 Hstep)|]. intros d.
    by apply (direction_step _ _ _ _ _ d (IH2 d) Hstep).
Qed.

(** ** The end of a relay *)

Fixpoint steps (events : list Event) (op : RelayOperation) :
    option (list Effect * RelayOperation) :=
  match events with
  | [] => Some ([], op)
  | event :: events =>
      match step event op with
      | None => None
      | Some (e1, op) =>
          match steps events op with
          | None => None
          | Some (e2, op) => Some (e1 ++ e2, op)
          end
      end
  end.

(** The sockets are closed: asio completes what is outstanding with
    [operation_aborted]. *)
Definition abort (d : Direction) (op : RelayOperation) : list Event :=
  match phase d op with
  | Reading => [ReadSome d [] (Some operation_aborted)]
  | Writing _ _ => [Wrote d 0 (Some operation_aborted)]
  | Stopped => []
  end.
Definition aborts (op : RelayOperation) : list Event := abort tls_to_tcp op ++ abort tcp_to_tls op.

Lemma relay_run_steps events : forall h effects op more op',
  relay_run h effects op -> steps events op = Some (more, op') ->
  exists h', relay_run h' (effects ++ more) op'.
Proof.
  induction events as [|event events IH]; intros h effects op more op' Hr; simpl.
  - intros [= <- <-]. rewrite app_nil_r. eauto.
  - destruct (step event op) as [[e1 op1]|] eqn:E1; [|done].
    destruct (steps events op1) as [[e2 op2]|] eqn:E2; [|done]. intros [= <- <-].
    rewrite app_assoc. eapply IH; [|done]. by eapply relay_run_step.
Qed.

Lemma steps_app l1 l2 op e1 op1 e2 op2 :
  steps l1 op = Some (e1, op1) -> steps l2 op1 = Some (e2, op2) ->
  steps (l1 ++ l2) op = Some (e1 ++ e2, op2).
Proof.
  revert op e1. induction l1 as [|event l1 IH]; intros op e1; simpl; [by intros [= <- <-]|].
  destruct (step event op) as [[e0 op0]|]; [|done].
  destruct (steps l1 op0) as [[e3 op3]|] eqn:E; [|done]. intros [= <- <-] H2.
  rewrite (IH _ _ E H2). by rewrite app_assoc.
Qed.

Lemma abort_steps d op :
  exists more op', steps (abort d op) op = Some (more, op') /\
    phase d op' = Stopped /\ failure_ op' = failure_ op /\ (waiting op' = WaitOver -> waiting op = WaitOver) /\
    forall d', d' <> d -> phase d' op' = phase d' op.
Proof.
  unfold abort. destruct (phase d op) as [|data re|] eqn:Hp; simpl; rewrite ?Hp.
  3: { exists [], op. naive_solver. }
  all: unfold pump_read, pump_wrote, after_read; simpl;
    unfold finish_write_error; simpl; unfold finish_direction_and_close, then_, close_both;
    destruct (finish_direction None (set_phase d Stopped op)) as [e op1] eqn:Ef;
    eexists _, op1; split; [done|];
    unfold finish_direction in Ef; destruct (done_ _); [|destruct (2 <=? _)]; simplify_eq/=;
    destruct d; (split_and!; [done|done|by simpl; destruct (waiting op)|intros [] ?; done]).
Qed.

Lemma aborts_steps op :
  exists more op', steps (aborts op) op = Some (more, op') /\
    stopped_pumps op' = 2 /\ failure_ op' = failure_ op /\ (waiting op' = WaitOver -> waiting op = WaitOver).
Proof.
  destruct (abort_steps tls_to_tcp op) as (e1 & op1 & H1 & Hp1 & Hf1 & Hw1 & Ho1).
  destruct (abort_steps tcp_to_tls op1) as (e2 & op2 & H2 & Hp2 & Hf2 & Hw2 & Ho2).
  exists (e1 ++ e2), op2. assert (Hq : phase tcp_to_tls op1 = phase tcp_to_tls op) by auto.
  assert (Hb : abort tcp_to_tls op = abort tcp_to_tls op1) by (unfold abort; by rewrite Hq).
  split_and!; [| |congruence|auto].
  - unfold aborts. rewrite Hb. by eapply steps_app.
  - unfold stopped_pumps. simpl in *. rewrite Hp2.
    by rewrite (Ho2 tls_to_tcp ltac:(done) : tls_pump op2 = tls_pump op1), Hp1.
Qed.

(** ** Properties *)

(** C29: the relay passes on what it reads.  At every point and for both directions, the
    bytes the destination took are a prefix of the bytes read from the source, all of
    them while the pump waits for its next read; the statistics count, modulo 2^64, the
    bytes of the writes that completed in full, which are all the bytes the destination took
    except, in a pump that has stopped, a part of the write it failed in; and the
    destination is told that the stream ended only when everything that was read has been
    written and counted. *)
Theorem relay_faithful h effects op d :
  relay_run h effects op ->
  given d h `prefix_of` taken d h /\
  (phase d op = Reading -> given d h = taken d h) /\
  counter d op = Zlen (acknowledged d h) mod 2 ^ 64 /\
  acknowledged d h `prefix_of` given d h /\
  (phase d op <> Stopped -> acknowledged d h = given d h) /\
  (ShutdownSend d ∈ effects ->
     phase d op = Stopped /\ given d h = taken d h /\ acknowledged d h = taken d h).
Proof.
  intros Hr. destruct (relay_run_inv _ _ _ Hr) as [_ Hi]. destruct (Hi d) as [Hc Hd].
  destruct (phase d op) as [|data re|]; destruct Hd as (H1 & H2 & H3).
  - rewrite Hc, H2, H1. by split_and!.
  - rewrite Hc, H2, H1. split_and!; try done. by apply prefix_app_r.
  - split_and!; [done|done|done|done|done|]. intros Hs. destruct (H3 Hs) as [-> ->]. done.
Qed.

(** C30: every relay ends.  While an operation is not done, either its inactivity timer is
    armed, and its expiry closes both sockets with a timeout error, or a failure closed
    them already; and until [run] has returned, the abortion of what is outstanding on the
    closed sockets makes the pumps cancel the completion timer, on which [run] returns: the
    recorded failure, if there is one, or else the statistics. *)
Theorem relay_ends h effects op :
  relay_run h effects op ->
  (done_ op = false ->
     (watching op = true /\
      exists op1, step (TimerWait None) op = Some ([CloseBoth], op1) /\
        failure_ op1 = Some (default (mkError connection_timeout
          (bs "TCP relay inactivity timeout expired")) (failure_ op))) \/
     (is_Some (failure_ op) /\ CloseBoth ∈ effects)) /\
  ((forall result, Return result ∉ effects) ->
     exists more op', steps (aborts op ++ [Completed]) op = Some (more, op') /\
       Return (match failure_ op with Some e => Err e | None => Ok (stats_ op') end) ∈ more).
Proof.
  intros Hr. destruct (relay_run_inv _ _ _ Hr) as [(_&_&_&Hret&Hi) _]. split.
  - intros Hd. destruct (watching op) eqn:Hw; [left|right; auto]. split; [done|].
    simpl. rewrite Hw. unfold watch_inactivity. rewrite Hd. simpl.
    eexists. split; [done|]. simpl. by destruct (failure_ op).
  - intros Hno. destruct (aborts_steps op) as (more & op' & Hs & H2 & Hf & Hw').
    destruct (relay_run_steps _ _ _ _ _ _ Hr Hs) as [h' Hr'].
    destruct (relay_run_inv _ _ _ Hr') as [(_&Hdone&Hpend&_) _]. apply Hdone in H2.
    assert (Hw : waiting op' = WaitCancelled).
    { destruct (waiting op') eqn:E; [|done|].
      - destruct Hpend as [_ Hpend]. by rewrite Hpend in H2.
      - destruct (proj1 Hret (Hw' eq_refl)) as [r Hin]. by destruct (Hno r). }
    exists (more ++ ((finish_run op').1 ++ [])), (finish_run op').2.
    split; [eapply steps_app; [done|]; simpl; by rewrite Hw|]. simpl. rewrite Hf. set_solver.
Qed.

(** Three bytes from the TLS stream, its end, then silence from the other side. *)
Definition sample_events : list Event :=
  [ReadSome tls_to_tcp (bs "abc") (Some eof); Wrote tls_to_tcp 3 None].
Definition sample_relayed : list Effect * RelayOperation :=
  default ([], RelayOperation_new) (steps sample_events RelayOperation_new).

Lemma sample_relay_run :
  relay_run [(RelayOperation_new, ReadSome tls_to_tcp (bs "abc") (Some eof));
             (set_phase tls_to_tcp (Writing (bs "abc") (Some eof)) RelayOperation_new,
              Wrote tls_to_tcp 3 None)]
    ([ArmActivity; StartRead tls_to_tcp; StartRead tcp_to_tls] ++ [StartWrite tls_to_tcp (bs "abc")]
       ++ [ArmActivity; ShutdownSend tls_to_tcp])
    sample_relayed.2.
Proof.
  rewrite app_assoc. apply (relay_run_step [_]); [|by vm_compute].
  apply (relay_run_step []); [apply relay_run_start|by vm_compute].
Qed.

Lemma relay_faithful_witness :
  let op := sample_relayed.2 in
  phase tls_to_tcp op = Stopped /\ counter tls_to_tcp op = Zlen (bs "abc") mod 2 ^ 64.
Proof.
  simpl. destruct (relay_faithful _ _ _ tls_to_tcp sample_relay_run) as (_ & _ & Hc & _ & _ & H).
  destruct H as (? & _ & Ha); [set_solver|]. split; [done|].
  rewrite Ha in Hc. exact Hc.
Defined.

Lemma relay_ends_witness :
  (done_ sample_relayed.2 = false /\ aborts sample_relayed.2 <> []) /\
  exists more op', steps (aborts sample_relayed.2 ++ [Completed]) sample_relayed.2 = Some (more, op') /\
    Return (Ok (stats_ op')) ∈ more.
Proof.
  split; [split; [by vm_compute|done]|].
  apply (proj2 (relay_ends _ _ _ sample_relay_run)). intros result. simpl. set_solver.
Defined.
