(* ===== verification/Datagram.v ===== *)
(** * Datagram records and the UDP relay

    src/protocol/datagram.cpp: [encode_datagram_record], and [DatagramRelayOperation],
    which carries UDP datagrams over a stream as records of a 16-bit length and the
    payload.  As in [Relay], the operation is a state machine driven by the completions
    its coroutines wait for; the operation is the same for the TLS stream of a worker
    ([relay_tls_and_udp]) and a plain TCP socket ([relay_tcp_and_udp]). *)
From S2P Require Import Prelude Common Codec Io.

Definition kMaximumUdpPayloadSize : Z := 65507.
Definition kMaximumDatagramRecordPayload : Z := 0xFFFF.
Definition kDatagramRecordHeaderSize : Z := 2.

(** [kMaximumRelayTimeout], in seconds. *)
Definition kMaximumDatagramRelayTimeout : Z := 24 * 3600.

(** The two bytes [(size >> 8) & 0xff] and [size & 0xff]. *)
Definition record_header (size : Z) : bytes :=
  [byte_of_Z (Z.land (Z.shiftr size 8) 0xff); byte_of_Z (Z.land size 0xff)].

(** [encode_datagram_record]. *)
Definition encode_datagram_record (payload : bytes) : Result bytes :=
  if kMaximumUdpPayloadSize <? Zlen payload then
    failure invalid_argument "UDP payload exceeds the protocol limit"
  else Ok (record_header (Zlen payload) ++ payload).

(** ** [DatagramRelayOperation] *)

(** Where [pump_stream_to_udp] is suspended. *)
Inductive StreamPump : Set :=
| ReadingHeader
| ReadingPayload (length : Z)
| SendingUdp (payload : bytes)
| StreamStopped.

(** Where [pump_udp_to_stream] is suspended. *)
Inductive UdpPump : Set :=
| ReceivingUdp
| WritingRecord (payload : bytes)
| UdpStopped.

(** [DatagramRelayStats] without the duration. *)
Record DatagramRelayStats : Set := mkDatagramRelayStats {
  tls_to_udp_bytes : Z;
  udp_to_tls_bytes : Z;
  tls_to_udp_datagrams : Z;
  udp_to_tls_datagrams : Z
}.

Record DatagramRelayOperation : Set := mkDatagramRelayOperation {
  stream_pump : StreamPump;
  udp_pump : UdpPump;
  watching : bool;
  stats_ : DatagramRelayStats;
  failure_ : option Error;
  done_ : bool;
  waiting : CompletionWait    (** the wait of [run] on [completion_timer_] *)
}.

Definition DatagramRelayOperation_new : DatagramRelayOperation :=
  mkDatagramRelayOperation ReadingHeader ReceivingUdp true (mkDatagramRelayStats 0 0 0 0) None
    false WaitPending.

Inductive DatagramEffect : Set :=
| ReadStream (size : Z)
| SendUdp (payload : bytes)
| ReceiveUdp (size : Z)
| WriteStream (record : bytes)
| CloseStream
| CloseUdp
| ArmActivity
| CancelActivity
| CancelCompletion
| Return (result : Result DatagramRelayStats).

Inductive DatagramEvent : Set :=
| StreamRead (data : bytes) (error : option IoError)
| UdpSent (sent : Z) (error : option IoError)
| UdpReceived (data : bytes) (error : option IoError)
| RecordWritten (written : Z) (error : option IoError)
| StreamPumpThrew
| UdpPumpThrew
| TimerWait (error : option IoError)
| WatcherThrew
| Completed.

Abbreviation DatagramCall := (DatagramRelayOperation -> list DatagramEffect * DatagramRelayOperation).

Definition set_stream_pump (p : StreamPump) (op : DatagramRelayOperation) : DatagramRelayOperation :=
  mkDatagramRelayOperation p (udp_pump op) (watching op) (stats_ op) (failure_ op) (done_ op)
    (waiting op).
Definition set_udp_pump (p : UdpPump) (op : DatagramRelayOperation) : DatagramRelayOperation :=
  mkDatagramRelayOperation (stream_pump op) p (watching op) (stats_ op) (failure_ op) (done_ op)
    (waiting op).
Definition set_stats (s : DatagramRelayStats) (op : DatagramRelayOperation) : DatagramRelayOperation :=
  mkDatagramRelayOperation (stream_pump op) (udp_pump op) (watching op) s (failure_ op) (done_ op)
    (waiting op).
Definition set_failure (e : Error) (op : DatagramRelayOperation) : DatagramRelayOperation :=
  mkDatagramRelayOperation (stream_pump op) (udp_pump op) (watching op) (stats_ op)
    (match failure_ op with Some f => Some f | None => Some e end) (done_ op) (waiting op).
Definition stop_watching (op : DatagramRelayOperation) : DatagramRelayOperation :=
  mkDatagramRelayOperation (stream_pump op) (udp_pump op) false (stats_ op) (failure_ op)
    (done_ op) (waiting op).
Definition set_done (op : DatagramRelayOperation) : DatagramRelayOperation :=
  mkDatagramRelayOperation (stream_pump op) (udp_pump op) (watching op) (stats_ op) (failure_ op)
    true (waiting op).

(** [cancel(completion_timer_)]. *)
Definition cancel_completion : DatagramCall := fun op =>
  ([CancelCompletion],
   mkDatagramRelayOperation (stream_pump op) (udp_pump op) (watching op) (stats_ op) (failure_ op)
     (done_ op) (cancel_wait (waiting op))).

(** [finish]. *)
Definition finish : DatagramCall := fun op =>
  if done_ op then ([], op)
  else
    let (cancelled, op) := cancel_completion (set_done op) in
    ([CloseStream; CloseUdp; CancelActivity] ++ cancelled, op).

(** [fail]. *)
Definition fail (code : ErrorCode) (message : string) : DatagramCall := fun op =>
  finish (set_failure (mkError code (bs message)) op).

(** [finish_transport]. *)
Definition finish_transport (error : option IoError) (message : string) : DatagramCall :=
  if negb (failed error) || is_graceful_eof error then finish
  else fail connection_failed message.

(** [note_activity]. *)
Definition note_activity (op : DatagramRelayOperation) : list DatagramEffect :=
  if done_ op then [] else [ArmActivity].

(** [udp_socket_.async_send] of [pump_stream_to_udp]. *)
Definition send_udp (payload : bytes) : DatagramCall := fun op =>
  ([SendUdp payload], set_stream_pump (SendingUdp payload) op).

(** [pump_stream_to_udp] from the header on. *)
Definition pump_header (header : bytes) (error : option IoError) : DatagramCall := fun op =>
  let stopped := set_stream_pump StreamStopped op in
  if failed error || negb (Zlen header =? kDatagramRecordHeaderSize) then
    finish_transport error "UDP relay record header read failed" stopped
  else
    let byte i := Z_of_byte (nth i header Byte.x00) in
    let length := Z.lor (Z.shiftl (byte 0%nat) 8) (byte 1%nat) in
    if kMaximumUdpPayloadSize <? length then
      finish_transport (Some invalid_argument_error)
        "UDP relay record length exceeds the protocol limit" stopped
    else if negb (length =? 0) then ([ReadStream length], set_stream_pump (ReadingPayload length) op)
    else send_udp [] op.

(** ... from the payload on ... *)
Definition pump_payload (length : Z) (payload : bytes) (error : option IoError) : DatagramCall :=
  fun op =>
  if failed error || negb (Zlen payload =? length) then
    finish_transport error "UDP relay record payload read failed" (set_stream_pump StreamStopped op)
  else send_udp payload op.

(** ... and from the send on. *)
Definition pump_sent (payload : bytes) (sent : Z) (error : option IoError) : DatagramCall :=
  fun op =>
  if failed error || negb (sent =? Zlen payload) then
    finish_transport error "local UDP send failed" (set_stream_pump StreamStopped op)
  else
    let s := stats_ op in
    let op := set_stats (mkDatagramRelayStats (add_u64 (tls_to_udp_bytes s) sent)
                (udp_to_tls_bytes s) (add_u64 (tls_to_udp_datagrams s) 1)
                (udp_to_tls_datagrams s)) op in
    (note_activity op ++ [ReadStream kDatagramRecordHeaderSize], set_stream_pump ReadingHeader op).

(** [pump_udp_to_stream] from the received datagram on ... *)
Definition pump_received (data : bytes) (error : option IoError) : DatagramCall := fun op =>
  if failed error then
    finish_transport error "local UDP receive failed" (set_udp_pump UdpStopped op)
  else ([WriteStream (record_header (Zlen data) ++ data)], set_udp_pump (WritingRecord data) op).

(** ... and from the write on. *)
Definition pump_written (data : bytes) (written : Z) (error : option IoError) : DatagramCall :=
  fun op =>
  if failed error || negb (written =? Zlen data + kDatagramRecordHeaderSize) then
    finish_transport error "UDP relay record write failed" (set_udp_pump UdpStopped op)
  else
    let s := stats_ op in
    let op := set_stats (mkDatagramRelayStats (tls_to_udp_bytes s)
                (add_u64 (udp_to_tls_bytes s) (Zlen data)) (tls_to_udp_datagrams s)
                (add_u64 (udp_to_tls_datagrams s) 1)) op in
    (note_activity op ++ [ReceiveUdp kMaximumUdpPayloadSize], set_udp_pump ReceivingUdp op).

(** [watch_inactivity] from its timer on. *)
Definition watch_inactivity (error : option IoError) : DatagramCall := fun op =>
  if done_ op then ([], stop_watching op)
  else if bool_decide (error = Some operation_aborted) then ([], op)
  else if failed error then
    fail internal_error "UDP relay inactivity timer failed" (stop_watching op)
  else fail connection_timeout "UDP relay inactivity timeout expired" (stop_watching op).

(** [run] after the completion timer. *)
Definition finish_run : DatagramCall := fun op =>
  let op := mkDatagramRelayOperation (stream_pump op) (udp_pump op) (watching op) (stats_ op)
              (failure_ op) true WaitOver in
  ([CancelActivity;
    Return (match failure_ op with Some e => Err e | None => Ok (stats_ op) end)], op).

(** One completion.  [None]: nothing waits for it, or it carries more bytes than the
    buffer it was given holds, which asio never does. *)
Definition step (event : DatagramEvent) (op : DatagramRelayOperation) :
    option (list DatagramEffect * DatagramRelayOperation) :=
  match event with
  | StreamRead data error =>
      match stream_pump op with
      | ReadingHeader =>
          if Zlen data <=? kDatagramRecordHeaderSize then Some (pump_header data error op) else None
      | ReadingPayload length =>
          if Zlen data <=? length then Some (pump_payload length data error op) else None
      | _ => None
      end
  | UdpSent sent error =>
      match stream_pump op with
      | SendingUdp payload => Some (pump_sent payload sent error op)
      | _ => None
      end
  | UdpReceived data error =>
      match udp_pump op with
      | ReceivingUdp =>
          if Zlen data <=? kMaximumUdpPayloadSize then Some (pump_received data error op) else None
      | _ => None
      end
  | RecordWritten written error =>
      match udp_pump op with
      | WritingRecord data => Some (pump_written data written error op)
      | _ => None
      end
  | StreamPumpThrew =>
      match stream_pump op with
      | StreamStopped => None
      | _ => Some (fail internal_error "stream-to-UDP relay failed unexpectedly"
                     (set_stream_pump StreamStopped op))
      end
  | UdpPumpThrew =>
      match udp_pump op with
      | UdpStopped => None
      | _ => Some (fail internal_error "UDP-to-stream relay failed unexpectedly"
                     (set_udp_pump UdpStopped op))
      end
  | TimerWait error => if watching op then Some (watch_inactivity error op) else None
  | WatcherThrew =>
      if watching op then
        Some (fail internal_error "UDP relay inactivity monitor failed unexpectedly"
                (stop_watching op))
      else None
  | Completed =>
      match waiting op with WaitCancelled => Some (finish_run op) | _ => None end
  end.

(** [relay_tls_and_udp] and [relay_tcp_and_udp]: the checks before the operation
    starts; the TLS variant does not look at its stream. *)
Definition check_datagram_options (inactivity_timeout : Z) (udp_open : bool)
    (tcp_open : option bool) : Result DatagramRelayOperation :=
  if (inactivity_timeout <=? 0) || (kMaximumDatagramRelayTimeout <? inactivity_timeout)
     || negb udp_open || negb (default true tcp_open) then
    failure invalid_argument "UDP relay options or socket are invalid"
  else Ok DatagramRelayOperation_new.

(** ** Runs *)

Abbreviation DatagramHistory := (list (DatagramRelayOperation * DatagramEvent)).

Inductive datagram_run : DatagramHistory -> list DatagramEffect -> DatagramRelayOperation -> Prop :=
| datagram_run_start :
    datagram_run [] [ArmActivity; ReadStream kDatagramRecordHeaderSize;
      ReceiveUdp kMaximumUdpPayloadSize] DatagramRelayOperation_new
| datagram_run_step h effects op event more op' :
    datagram_run h effects op -> step event op = Some (more, op') ->
    datagram_run (h ++ [(op, event)]) (effects ++ more) op'.

(** A payload as a record on the stream. *)
Definition record (payload : bytes) : bytes := record_header (Zlen payload) ++ payload.
Definition records (payloads : list bytes) : bytes := concat (map record payloads).

(** The bytes read from the stream and those it took; the datagrams received from the
    UDP socket and those sent to it. *)
Definition read_by (x : DatagramRelayOperation * DatagramEvent) : bytes :=
  match x.2 with StreamRead data _ => data | _ => [] end.
Definition written_by (x : DatagramRelayOperation * DatagramEvent) : bytes :=
  match x.2, udp_pump x.1 with
  | RecordWritten written _, WritingRecord data => take (Z.to_nat written) (record data)
  | _, _ => []
  end.
Definition received_by (x : DatagramRelayOperation * DatagramEvent) : list bytes :=
  match x.2 with UdpReceived data None => [data] | _ => [] end.
Definition sent_by (e : DatagramEffect) : option bytes :=
  match e with SendUdp payload => Some payload | _ => None end.

Definition read_bytes (h : DatagramHistory) : bytes := concat (map read_by h).
Definition written_bytes (h : DatagramHistory) : bytes := concat (map written_by h).
Definition received (h : DatagramHistory) : list bytes := concat (map received_by h).
Definition sent (effects : list DatagramEffect) : list bytes := omap sent_by effects.

(** The failure a completion reports: an error that is not the end of the stream, a record
    length over the limit, an exception of a coroutine, or the end of the inactivity timer's
    wait while the relay goes on. *)
Definition is_fatal (error : option IoError) : bool := failed error && negb (is_graceful_eof error).
Definition record_length (header : bytes) : Z :=
  Z.lor (Z.shiftl (Z_of_byte (nth 0 header Byte.x00)) 8) (Z_of_byte (nth 1 header Byte.x00)).
Definition transport_failure (error : option IoError) (message : string) : option Error :=
  if is_fatal error then Some (mkError connection_failed (bs message)) else None.

Definition reported (x : DatagramRelayOperation * DatagramEvent) : option Error :=
  match x.2 with
  | StreamRead data error =>
      match stream_pump x.1 with
      | ReadingHeader =>
          if negb (failed error) && (Zlen data =? kDatagramRecordHeaderSize)
             && (kMaximumUdpPayloadSize <? record_length data)
          then Some (mkError connection_failed (bs "UDP relay record length exceeds the protocol limit"))
          else transport_failure error "UDP relay record header read failed"
      | _ => transport_failure error "UDP relay record payload read failed"
      end
  | UdpSent _ error => transport_failure error "local UDP send failed"
  | UdpReceived _ error => transport_failure error "local UDP receive failed"
  | RecordWritten _ error => transport_failure error "UDP relay record write failed"
  | StreamPumpThrew => Some (mkError internal_error (bs "stream-to-UDP relay failed unexpectedly"))
  | UdpPumpThrew => Some (mkError internal_error (bs "UDP-to-stream relay failed unexpectedly"))
  | TimerWait error =>
      if done_ x.1 || bool_decide (error = Some operation_aborted) then None
      else if failed error then Some (mkError internal_error (bs "UDP relay inactivity timer failed"))
      else Some (mkError connection_timeout (bs "UDP relay inactivity timeout expired"))
  | WatcherThrew =>
      Some (mkError internal_error (bs "UDP relay inactivity monitor failed unexpectedly"))
  | Completed => None
  end.
Definition first_failure (h : DatagramHistory) : option Error := head (omap reported h).

(** ** Lemmas *)

Lemma first_failure_snoc h x :
  first_failure (h ++ [x]) = match first_failure h with Some e => Some e | None => reported x end.
Proof.
  unfold first_failure. rewrite omap_app. destruct (omap reported h); [|done]. simpl.
  by destruct (reported x).
Qed.

Lemma snoc_concat_map {A B} (f : A -> list B) h x :
  concat (map f (h ++ [x])) = concat (map f h) ++ f x.
Proof. rewrite map_app, concat_app. simpl. by rewrite app_nil_r. Qed.

Lemma records_snoc l p : records (l ++ [p]) = records l ++ record p.
Proof. apply snoc_concat_map. Qed.

Lemma record_header_be n : record_header n = be_encode 2 n.
Proof. exact (u16_bytes_be n). Qed.

(** Records are a prefix code. *)
Lemma record_app_inj p q s t :
  Zlen p <= kMaximumUdpPayloadSize -> Zlen q <= kMaximumUdpPayloadSize ->
  record p ++ s = record q ++ t -> p = q /\ s = t.
Proof.
  unfold record, kMaximumUdpPayloadSize. rewrite !record_header_be. intros Hp Hq.
  rewrite <- !app_assoc. intros [Hh H]%app_inj_1; [|by rewrite !length_be_encode].
  apply be_encode_inj in Hh;
    [|pose proof (Zlen_nonneg p); pose proof (Zlen_nonneg q); simpl; lia..].
  apply app_inj_1 in H; [done|]. unfold Zlen in Hh. lia.
Qed.

Abbreviation fits := (Forall (fun p => Zlen p <= kMaximumUdpPayloadSize)).

Lemma records_prefix xs ys :
  fits xs -> fits ys -> records xs `prefix_of` records ys -> xs `prefix_of` ys.
Proof.
  intros Hx. revert ys. induction Hx as [|p xs Hp _ IH]; intros ys Hy [t Ht]; [apply prefix_nil|].
  destruct Hy as [|q ys Hq Hy]; [done|]. unfold records in Ht. simpl in Ht.
  rewrite <- app_assoc in Ht. apply record_app_inj in Ht as [-> Ht]; [|done..].
  apply prefix_cons, IH; [done|]. by exists t.
Qed.

Lemma records_inj xs ys : fits xs -> fits ys -> records xs = records ys -> xs = ys.
Proof.
  intros Hx Hy He. assert (H1 : xs `prefix_of` ys) by (apply records_prefix; rewrite ?He; done).
  assert (H2 : ys `prefix_of` xs) by (apply records_prefix; rewrite ?He; done).
  by apply (anti_symm prefix).
Qed.

(** A counter pair of the statistics counts these datagrams. *)
Definition counts (l : list bytes) (n_bytes n_datagrams : Z) : Prop :=
  n_bytes = Zlen (concat l) mod 2 ^ 64 /\ n_datagrams = Zlen l mod 2 ^ 64.

Lemma counts_snoc l p b d :
  counts l b d -> counts (l ++ [p]) (add_u64 b (Zlen p)) (add_u64 d 1).
Proof.
  intros [-> ->]. unfold counts. rewrite !add_u64_mod, concat_app, !Zlen_app. simpl.
  rewrite app_nil_r. done.
Qed.

(** What is known of the direction from the stream to the UDP socket ... *)
Definition stream_inv (consumed : bytes) (out : list bytes) (op : DatagramRelayOperation) : Prop :=
  let counted l := counts l (tls_to_udp_bytes (stats_ op)) (tls_to_udp_datagrams (stats_ op)) in
  fits out /\
  match stream_pump op with
  | ReadingHeader => consumed = records out /\ counted out
  | ReadingPayload length =>
      consumed = records out ++ record_header length /\
      0 < length <= kMaximumUdpPayloadSize /\ counted out
  | SendingUdp p => consumed = records out /\ exists l, out = l ++ [p] /\ counted l
  | StreamStopped => records out `prefix_of` consumed /\ exists l, l `prefix_of` out /\ counted l
  end.

(** ... and of the other one. *)
Definition udp_inv (wire : bytes) (inputs : list bytes) (op : DatagramRelayOperation) : Prop :=
  let counted l := counts l (udp_to_tls_bytes (stats_ op)) (udp_to_tls_datagrams (stats_ op)) in
  fits inputs /\
  match udp_pump op with
  | ReceivingUdp => wire = records inputs /\ counted inputs
  | WritingRecord p => exists l, inputs = l ++ [p] /\ wire = records l /\ counted l
  | UdpStopped => wire `prefix_of` records inputs /\ exists l, l `prefix_of` inputs /\ counted l
  end.

(** Nothing is outstanding that a stopped coroutine should have ended. *)
Definition ends_inv (effects : list DatagramEffect) (op : DatagramRelayOperation) : Prop :=
  (done_ op = false <-> waiting op = WaitPending) /\
  (stream_pump op = StreamStopped \/ udp_pump op = UdpStopped \/ watching op = false ->
   done_ op = true) /\
  (done_ op = true -> CloseStream ∈ effects /\ CloseUdp ∈ effects) /\
  (failure_ op <> None -> done_ op = true) /\
  (waiting op = WaitOver <-> exists result, Return result ∈ effects).

(** The calls that end the operation. *)
Definition ends (op : DatagramRelayOperation) (r : list DatagramEffect * DatagramRelayOperation) :
    Prop :=
  stream_pump r.2 = stream_pump op /\ udp_pump r.2 = udp_pump op /\ stats_ r.2 = stats_ op /\
  watching r.2 = watching op /\ done_ r.2 = true /\
  (r.1 = [] /\ done_ op = true /\ waiting r.2 = waiting op \/
   r.1 = [CloseStream; CloseUdp; CancelActivity; CancelCompletion] /\ done_ op = false /\
   waiting r.2 = cancel_wait (waiting op)).

Lemma ends_finish op : ends op (finish op).
Proof. unfold ends, finish. destruct (done_ op) eqn:?; simpl; naive_solver. Qed.
Lemma ends_fail c m op : ends op (fail c m op).
Proof. exact (ends_finish (set_failure _ op)). Qed.
Lemma ends_transport e m op : ends op (finish_transport e m op).
Proof. unfold finish_transport. case_match; [apply ends_finish|apply ends_fail]. Qed.

Lemma ends_sent op r : ends op r -> sent r.1 = [].
Proof. intros (_&_&_&_&_&[[-> _]|[-> _]]); done. Qed.

Lemma sent_app e1 e2 : sent (e1 ++ e2) = sent e1 ++ sent e2.
Proof. apply omap_app. Qed.

Lemma datagram_ends_finish op r effects :
  ends op r ->
  (done_ op = false <-> waiting op = WaitPending) ->
  (done_ op = true -> CloseStream ∈ effects /\ CloseUdp ∈ effects) ->
  (waiting op = WaitOver <-> exists result, Return result ∈ effects) ->
  ends_inv (effects ++ r.1) r.2.
Proof.
  intros (_&_&_&_&Hd&Hr) H1 H2 H3. unfold ends_inv. rewrite Hd, !elem_of_app.
  setoid_rewrite elem_of_app. destruct Hr as [(-> & He & Hw)|(-> & He & Hw)]; rewrite Hw.
  - split_and!; [by rewrite <- H1, He|done|set_solver|done|set_solver].
  - rewrite (proj1 H1 He) in *. simpl. split_and!; [done|done|set_solver|done|]. set_solver.
Qed.

Lemma stream_inv_weak c out op :
  stream_inv c out op ->
  fits out /\ records out `prefix_of` c /\
  exists l, l `prefix_of` out /\
    counts l (tls_to_udp_bytes (stats_ op)) (tls_to_udp_datagrams (stats_ op)).
Proof.
  unfold stream_inv. intros [Hf Hi]. split; [done|].
  destruct (stream_pump op); [| | |done].
  - destruct Hi as [-> ?]. eauto.
  - destruct Hi as (-> & _ & ?). split; [by apply prefix_app_r|]. eauto.
  - destruct Hi as (-> & l & -> & ?). split; [done|]. exists l. split; [by apply prefix_app_r|done].
Qed.

Lemma stream_inv_stop c out op r data :
  stream_inv c out op -> ends (set_stream_pump StreamStopped op) r ->
  stream_inv (c ++ data) (out ++ sent r.1) r.2.
Proof.
  intros (Hf & Hp & Hl)%stream_inv_weak He. rewrite (ends_sent _ _ He), app_nil_r.
  destruct He as (H1&_&H3&_). unfold stream_inv. rewrite H1, H3. simpl.
  split_and!; [done|by apply prefix_app_r|done].
Qed.

Lemma stream_inv_frame c out op r :
  stream_inv c out op -> sent r.1 = [] -> stream_pump r.2 = stream_pump op ->
  tls_to_udp_bytes (stats_ r.2) = tls_to_udp_bytes (stats_ op) ->
  tls_to_udp_datagrams (stats_ r.2) = tls_to_udp_datagrams (stats_ op) ->
  stream_inv (c ++ []) (out ++ sent r.1) r.2.
Proof. unfold stream_inv. intros Hi -> -> -> ->. by rewrite !app_nil_r. Qed.

Lemma stream_inv_ends c out op r :
  stream_inv c out op -> ends op r -> stream_inv (c ++ []) (out ++ sent r.1) r.2.
Proof.
  intros Hi He. pose proof (ends_sent _ _ He). destruct He as (?&?&Hs&_).
  apply (stream_inv_frame _ _ op); rewrite ?Hs; done.
Qed.

Lemma pump_header_stream c out op header error :
  stream_inv c out op -> stream_pump op = ReadingHeader ->
  let r := pump_header header error op in stream_inv (c ++ header) (out ++ sent r.1) r.2.
Proof.
  intros Hi Hp. simpl. unfold pump_header.
  destruct (failed error || _) eqn:He; [by apply (stream_inv_stop _ _ op), ends_transport|].
  apply orb_false_iff in He as [_ He].
  destruct header as [|a [|b [|? header]]]; try discriminate He;
    [|rewrite !Zlen_cons in He; pose proof (Zlen_nonneg header); unfold kDatagramRecordHeaderSize in He; lia].
  cbn [nth]. pose proof (u16_bytes_decode a b) as [Hh Hn].
  change (u16_bytes ?v) with (record_header v) in Hh.
  set (n := Z.lor _ _) in *. clearbody n.
  destruct (Z.ltb_spec kMaximumUdpPayloadSize n);
    [by apply (stream_inv_stop _ _ op), ends_transport|].
  unfold stream_inv in Hi. rewrite Hp in Hi. destruct Hi as (Hf & -> & Hc).
  destruct (Z.eqb_spec n 0) as [->|Hn0]; simpl; unfold stream_inv; simpl.
  - split_and!; [by apply Forall_app_2; [|constructor]| |eauto].
    rewrite records_snoc, <- Hh. done.
  - rewrite app_nil_r, Hh. split_and!; [done|done|lia|lia|done].
Qed.

Lemma pump_payload_stream c out op n payload error :
  stream_inv c out op -> stream_pump op = ReadingPayload n ->
  let r := pump_payload n payload error op in stream_inv (c ++ payload) (out ++ sent r.1) r.2.
Proof.
  intros Hi Hp. simpl. unfold pump_payload.
  destruct (failed error || _) eqn:He; [by apply (stream_inv_stop _ _ op), ends_transport|].
  apply orb_false_iff in He as [_ He]. apply negb_false_iff, Z.eqb_eq in He as <-.
  unfold stream_inv in Hi. rewrite Hp in Hi. destruct Hi as (Hf & -> & Hn & Hc).
  unfold stream_inv. simpl. split_and!; [|by rewrite records_snoc, <- app_assoc|eauto].
  apply Forall_app_2; [done|]. constructor; [lia|constructor].
Qed.

Lemma pump_sent_stream c out op payload n error :
  stream_inv c out op -> stream_pump op = SendingUdp payload ->
  let r := pump_sent payload n error op in stream_inv (c ++ []) (out ++ sent r.1) r.2.
Proof.
  intros Hi Hp. simpl. unfold pump_sent.
  destruct (failed error || _) eqn:He; [by apply (stream_inv_stop _ _ op), ends_transport|].
  apply orb_false_iff in He as [_ He]. apply negb_false_iff, Z.eqb_eq in He as ->.
  unfold stream_inv in Hi. rewrite Hp in Hi. destruct Hi as (Hf & -> & l & -> & Hc).
  cbn [fst snd]. rewrite sent_app. unfold note_activity.
  assert (sent (if done_ (set_stats (mkDatagramRelayStats 0 0 0 0) op) then [] else [ArmActivity]) = [])
    as Hs by (by destruct (done_ _)).
  simpl in *. rewrite Hs, !app_nil_r. unfold stream_inv. simpl.
  split_and!; [done|done|by apply counts_snoc].
Qed.

Lemma ends_watch e op r :
  watch_inactivity e op = r ->
  ends (stop_watching op) r \/ r = ([], op) /\ done_ op = false.
Proof.
  unfold watch_inactivity. intros <-. destruct (done_ op) eqn:Hd; [left; unfold ends; simpl; naive_solver|].
  case_match; [by right|]. left. case_match; apply ends_fail.
Qed.

(** A step, seen from the side of the stream. *)
Lemma stream_step h effects event op r :
  stream_inv (read_bytes h) (sent effects) op -> step event op = Some r ->
  stream_inv (read_bytes (h ++ [(op, event)])) (sent (effects ++ r.1)) r.2.
Proof.
  intros Hi. unfold read_bytes. rewrite snoc_concat_map, sent_app. fold (read_bytes h).
  destruct event as [data e|n e|data e|n e| | |e| |]; unfold read_by; cbn [snd]; unfold step.
  - destruct (stream_pump op) eqn:Hp; try done; case_match; intros [= <-];
      [by apply pump_header_stream|by apply pump_payload_stream].
  - destruct (stream_pump op) eqn:Hp; try done. intros [= <-]. by apply pump_sent_stream.
  - destruct (udp_pump op); try done. case_match; intros [= <-]. unfold pump_received.
    case_match; [apply (stream_inv_ends _ _ (set_udp_pump UdpStopped op)); [done|apply ends_transport]|].
    by apply (stream_inv_frame _ _ op).
  - destruct (udp_pump op); try done. intros [= <-]. unfold pump_written.
    case_match; [apply (stream_inv_ends _ _ (set_udp_pump UdpStopped op)); [done|apply ends_transport]|].
    apply (stream_inv_frame _ _ op); [done| |done..]. simpl. rewrite sent_app.
    unfold note_activity. by destruct (done_ _).
  - destruct (stream_pump op) eqn:Hp; try done; intros [= <-];
      apply (stream_inv_stop _ _ op); try done; apply ends_fail.
  - destruct (udp_pump op); try done; intros [= <-];
      (apply (stream_inv_ends _ _ (set_udp_pump UdpStopped op)); [done|apply ends_fail]).
  - destruct (watching op); try done; intros [= Hr]. destruct (ends_watch _ _ _ Hr) as [He|[-> _]].
    + by apply (stream_inv_ends _ _ (stop_watching op)).
    + by apply (stream_inv_frame _ _ op).
  - destruct (watching op); try done; intros [= <-].
    apply (stream_inv_ends _ _ (stop_watching op)); [done|apply ends_fail].
  - case_match; intros [= <-]. by apply (stream_inv_frame _ _ op).
Qed.

(** *** The other direction *)

Lemma udp_inv_weak w inputs op :
  udp_inv w inputs op ->
  fits inputs /\ w `prefix_of` records inputs /\
  exists l, l `prefix_of` inputs /\
    counts l (udp_to_tls_bytes (stats_ op)) (udp_to_tls_datagrams (stats_ op)).
Proof.
  unfold udp_inv. intros [Hf Hi]. split; [done|]. destruct (udp_pump op); [| |done].
  - destruct Hi as [-> ?]. eauto.
  - destruct Hi as (l & -> & -> & ?). rewrite records_snoc.
    split; [by apply prefix_app_r|]. exists l. split; [by apply prefix_app_r|done].
Qed.

Lemma udp_inv_frame w inputs op op' :
  udp_inv w inputs op -> udp_pump op' = udp_pump op ->
  udp_to_tls_bytes (stats_ op') = udp_to_tls_bytes (stats_ op) ->
  udp_to_tls_datagrams (stats_ op') = udp_to_tls_datagrams (stats_ op) ->
  udp_inv (w ++ []) (inputs ++ []) op'.
Proof. unfold udp_inv. intros Hi -> -> ->. by rewrite !app_nil_r. Qed.

Lemma udp_inv_ends w inputs op r :
  udp_inv w inputs op -> ends op r -> udp_inv (w ++ []) (inputs ++ []) r.2.
Proof. intros Hi (?&?&Hs&_). apply (udp_inv_frame _ _ op); rewrite ?Hs; done. Qed.

Lemma udp_inv_stop w data inputs op r :
  udp_inv w inputs op -> ends (set_udp_pump UdpStopped op) r ->
  (w ++ data) `prefix_of` records inputs -> udp_inv (w ++ data) (inputs ++ []) r.2.
Proof.
  intros (Hf & _ & Hl)%udp_inv_weak (_&H2&H3&_) Hp. rewrite app_nil_r.
  unfold udp_inv. rewrite H2, H3. done.
Qed.

Lemma udp_inv_stopped w inputs op r :
  udp_inv w inputs op -> ends (set_udp_pump UdpStopped op) r -> udp_inv (w ++ []) (inputs ++ []) r.2.
Proof.
  intros Hi He. eapply udp_inv_stop; [done|done|]. rewrite app_nil_r. by apply udp_inv_weak in Hi as (_&?&_).
Qed.

Lemma pump_written_udp w inputs op data n error :
  udp_inv w inputs op -> udp_pump op = WritingRecord data ->
  udp_inv (w ++ take (Z.to_nat n) (record data)) (inputs ++ []) (pump_written data n error op).2.
Proof.
  intros Hi Hp. pose proof Hi as Hi'. unfold udp_inv in Hi'. rewrite Hp in Hi'.
  destruct Hi' as (Hf & l & -> & -> & Hc). unfold pump_written.
  destruct (failed error || _) eqn:He.
  - eapply udp_inv_stop; [done|apply ends_transport|]. rewrite records_snoc. apply prefix_app.
    exists (drop (Z.to_nat n) (record data)). symmetry. apply take_drop.
  - apply orb_false_iff in He as [_ He]. apply negb_false_iff, Z.eqb_eq in He as ->.
    rewrite (firstn_all2 (n := Z.to_nat _)), <- records_snoc.
    2: { unfold record. rewrite length_app. unfold Zlen, kDatagramRecordHeaderSize. simpl. lia. }
    rewrite app_nil_r. unfold udp_inv. simpl. split_and!; [done|done|by apply counts_snoc].
Qed.

Lemma pump_received_udp w inputs op data error :
  udp_inv w inputs op -> udp_pump op = ReceivingUdp -> Zlen data <= kMaximumUdpPayloadSize ->
  udp_inv (w ++ []) (inputs ++ match error with None => [data] | _ => [] end)
    (pump_received data error op).2.
Proof.
  intros Hi Hp Hd. unfold pump_received. destruct error as [e|]; simpl.
  - by eapply udp_inv_stopped; [|apply ends_transport].
  - unfold udp_inv in *. rewrite Hp in Hi. destruct Hi as (Hf & -> & Hc). simpl.
    rewrite app_nil_r. split; [by apply Forall_app_2; [|constructor]|eauto].
Qed.

(** A step, seen from the side of the UDP socket. *)
Lemma udp_step h event op r :
  udp_inv (written_bytes h) (received h) op -> step event op = Some r ->
  udp_inv (written_bytes (h ++ [(op, event)])) (received (h ++ [(op, event)])) r.2.
Proof.
  intros Hi. unfold written_bytes, received. rewrite !snoc_concat_map.
  fold (written_bytes h) (received h).
  destruct event as [data e|n e|data e|n e| | |e| |]; unfold written_by, received_by;
    cbn [fst snd]; unfold step.
  - destruct (stream_pump op) eqn:Hp; try done; case_match; intros [= <-];
      unfold pump_header, pump_payload, send_udp; repeat case_match;
      first [apply (udp_inv_ends _ _ (set_stream_pump StreamStopped op)); [done|apply ends_transport]
            |by apply (udp_inv_frame _ _ op)].
  - destruct (stream_pump op) eqn:Hp; try done. intros [= <-]. unfold pump_sent. case_match.
    + apply (udp_inv_ends _ _ (set_stream_pump StreamStopped op)); [done|apply ends_transport].
    + by apply (udp_inv_frame _ _ op).
  - destruct (udp_pump op) eqn:Hp; try done. case_match; intros [= <-].
    apply pump_received_udp; [done|done|lia].
  - destruct (udp_pump op) eqn:Hp; try done. intros [= <-]. by apply pump_written_udp.
  - destruct (stream_pump op) eqn:Hp; try done; intros [= <-];
      (apply (udp_inv_ends _ _ (set_stream_pump StreamStopped op)); [done|apply ends_fail]).
  - destruct (udp_pump op) eqn:Hp; try done; intros [= <-];
      (eapply udp_inv_stopped; [done|apply ends_fail]).
  - destruct (watching op); try done; intros [= Hr]. destruct (ends_watch _ _ _ Hr) as [He|[-> _]].
    + by apply (udp_inv_ends _ _ (stop_watching op)).
    + by apply (udp_inv_frame _ _ op).
  - destruct (watching op); try done; intros [= <-].
    apply (udp_inv_ends _ _ (stop_watching op)); [done|apply ends_fail].
  - case_match; intros [= <-]. by apply (udp_inv_frame _ _ op).
Qed.

Lemma datagram_ends_frame effects op more op' :
  ends_inv effects op -> (forall result, Return result ∉ more) ->
  (done_ op', failure_ op', waiting op', watching op') =
  (done_ op, failure_ op, waiting op, watching op) ->
  (stream_pump op' = stream_pump op \/ stream_pump op' <> StreamStopped) ->
  (udp_pump op' = udp_pump op \/ udp_pump op' <> UdpStopped) ->
  ends_inv (effects ++ more) op'.
Proof.
  unfold ends_inv. intros (H1&H2&H3&H4&H5) Hc [= -> -> -> ->] Hs Hu. rewrite !elem_of_app.
  setoid_rewrite elem_of_app. split_and!; [done| |naive_solver|done|naive_solver].
  intros [Hp|[Hp|Hp]]; apply H2; [destruct Hs; [left; congruence|done]|
    destruct Hu; [right; left; congruence|done]|by right; right].
Qed.

Lemma datagram_ends_step effects event op r :
  ends_inv effects op -> step event op = Some r -> ends_inv (effects ++ r.1) r.2.
Proof.
  intros Hi. pose proof Hi as (H1&_&H3&_&H5).
  assert (Hend : forall o, (done_ o, waiting o) = (done_ op, waiting op) -> ends o r ->
    ends_inv (effects ++ r.1) r.2).
  { intros o [= Ho Hw] He. eapply datagram_ends_finish; [done|rewrite ?Ho, ?Hw; done..]. }
  assert (Hact : forall o result, Return result ∉ note_activity o)
    by (intros o result; unfold note_activity; destruct (done_ o); set_solver).
  destruct event as [data e|n e|data e|n e| | |e| |]; unfold step.
  - destruct (stream_pump op) eqn:Hp; try done; case_match; intros [= <-];
      unfold pump_header, pump_payload, send_udp in *; repeat case_match;
      first [by eapply Hend; [|apply ends_transport]; destruct op
            |by eapply datagram_ends_frame; [done|set_solver|done|right|left]].
  - destruct (stream_pump op) eqn:Hp; try done. intros [= <-]. unfold pump_sent in *. case_match.
    + by eapply Hend; [|apply ends_transport].
    + by eapply datagram_ends_frame; [done|set_solver|done|right|left].
  - destruct (udp_pump op) eqn:Hp; try done. case_match; intros [= <-]. unfold pump_received in *.
    case_match; [by eapply Hend; [|apply ends_transport]|].
    by eapply datagram_ends_frame; [done|set_solver|done|left|right].
  - destruct (udp_pump op) eqn:Hp; try done. intros [= <-]. unfold pump_written in *.
    case_match; [by eapply Hend; [|apply ends_transport]|].
    by eapply datagram_ends_frame; [done|set_solver|done|left|right].
  - destruct (stream_pump op) eqn:Hp; try done; intros [= <-]; by eapply Hend; [|apply ends_fail].
  - destruct (udp_pump op) eqn:Hp; try done; intros [= <-]; by eapply Hend; [|apply ends_fail].
  - destruct (watching op); try done; intros [= Hr]. destruct (ends_watch _ _ _ Hr) as [He|[-> _]].
    + by eapply Hend; [|done].
    + by eapply datagram_ends_frame; [done|set_solver|done|left|left].
  - destruct (watching op); try done; intros [= <-]. by eapply Hend; [|apply ends_fail].
  - destruct (waiting op) eqn:Hw; intros [= <-]. simpl.
    assert (Hd : done_ op = true) by (apply not_false_iff_true; intros ?%H1; congruence).
    unfold ends_inv. simpl. rewrite !elem_of_app. destruct H3 as [??]; [done|].
    split_and!; try done; [auto|]. split; [|done]. intros _. eexists. apply elem_of_app. right. right. left.
Qed.

Lemma datagram_run_inv h effects op :
  datagram_run h effects op ->
  stream_inv (read_bytes h) (sent effects) op /\ udp_inv (written_bytes h) (received h) op /\
  ends_inv effects op.
Proof.
  induction 1 as [|h effects op event more op' _ (IH1 & IH2 & IH3) Hstep].
  - split_and!; [by split|by split|]. unfold ends_inv. simpl. split_and!; try done; set_solver.
  - split_and!; [by apply (stream_step _ _ _ _ _ IH1 Hstep)|by apply (udp_step _ _ _ _ IH2 Hstep)|].
    by apply (datagram_ends_step _ _ _ _ IH3 Hstep).
Qed.

(** *** Failures *)

(** [set_failure] keeps the first. *)
Definition or_failure (f g : option Error) : option Error :=
  match f with Some e => Some e | None => g end.

Lemma failure_finish op : failure_ (finish op).2 = failure_ op.
Proof. unfold finish. by destruct (done_ op). Qed.
Lemma failure_fail c m op : failure_ (fail c m op).2 = or_failure (failure_ op) (Some (mkError c (bs m))).
Proof. unfold fail. by rewrite failure_finish. Qed.
Lemma failure_transport e m op :
  failure_ (finish_transport e m op).2 = or_failure (failure_ op) (transport_failure e m).
Proof.
  unfold finish_transport, transport_failure, is_fatal.
  destruct (failed e), (is_graceful_eof e); simpl; rewrite ?failure_fail, ?failure_finish; try done;
    by destruct (failure_ op).
Qed.

Lemma transport_failure_none m : transport_failure None m = None.
Proof. done. Qed.

Lemma or_failure_none f : or_failure f None = f.
Proof. by destruct f. Qed.

Lemma failed_Some (e : IoError) : failed (Some e) = true.
Proof. done. Qed.
Lemma failed_None : failed (@None IoError) = false.
Proof. done. Qed.

Lemma pump_header_failure header error op :
  stream_pump op = ReadingHeader ->
  failure_ (pump_header header error op).2 = or_failure (failure_ op) (reported (op, StreamRead header error)).
Proof.
  intros Hp. unfold pump_header, reported. cbn [fst snd]. rewrite Hp.
  change (Z.lor _ _) with (record_length header).
  destruct error as [e|]; rewrite ?failed_Some, ?failed_None; cbn [orb andb negb].
  - by rewrite failure_transport.
  - destruct (Zlen header =? kDatagramRecordHeaderSize); cbn [orb andb negb]; [|by rewrite failure_transport].
    destruct (kMaximumUdpPayloadSize <? record_length header); [by rewrite failure_transport|].
    rewrite transport_failure_none, or_failure_none. by case_match.
Qed.

(** A step records the failure its completion reports, unless one is recorded. *)
Lemma failure_step event op r :
  step event op = Some r -> failure_ r.2 = or_failure (failure_ op) (reported (op, event)).
Proof.
  destruct event as [data e|n e|data e|n e| | |e| |]; unfold step, reported; cbn [fst snd].
  - destruct (stream_pump op) eqn:Hp; try done; case_match; intros [= <-].
    + rewrite pump_header_failure by done. unfold reported. cbn [fst snd]. by rewrite Hp.
    + unfold pump_payload. destruct e; rewrite ?failed_Some, ?failed_None; cbn [orb]; [by rewrite failure_transport|].
      case_match; [by rewrite failure_transport|]. by rewrite or_failure_none.
  - destruct (stream_pump op); try done. intros [= <-]. unfold pump_sent.
    destruct e; rewrite ?failed_Some, ?failed_None; cbn [orb]; [by rewrite failure_transport|].
    case_match; [by rewrite failure_transport|]. by rewrite or_failure_none.
  - destruct (udp_pump op); try done. case_match; intros [= <-]. unfold pump_received.
    destruct e; rewrite ?failed_Some, ?failed_None; [by rewrite failure_transport|by rewrite or_failure_none].
  - destruct (udp_pump op); try done. intros [= <-]. unfold pump_written.
    destruct e; rewrite ?failed_Some, ?failed_None; cbn [orb]; [by rewrite failure_transport|].
    case_match; [by rewrite failure_transport|]. by rewrite or_failure_none.
  - destruct (stream_pump op); try done; intros [= <-]; by rewrite failure_fail.
  - destruct (udp_pump op); try done; intros [= <-]; by rewrite failure_fail.
  - destruct (watching op); try done; intros [= <-]. unfold watch_inactivity.
    destruct (done_ op); [by rewrite or_failure_none|]. cbn [orb].
    case_match; [by rewrite or_failure_none|]. by case_match; rewrite failure_fail.
  - destruct (watching op); try done; intros [= <-]. by rewrite failure_fail.
  - destruct (waiting op); intros [= <-]. by rewrite or_failure_none.
Qed.

Lemma datagram_first_failure h effects op : datagram_run h effects op -> failure_ op = first_failure h.
Proof.
  induction 1 as [|h effects op event more op' _ IH Hstep]; [done|].
  apply failure_step in Hstep. simpl in Hstep. by rewrite first_failure_snoc, <- IH.
Qed.

(** ** Properties *)

(** C31: datagrams keep their boundaries, order and contents.  Take a relay at each end of
    a stream, whatever their interleavings, delays and failures.  As long as the bytes
    one reads are a prefix of the bytes the other's stream took, the datagrams it sends
    are a prefix of the datagrams the other received; and when all of these bytes are
    read and both pumps are between datagrams, they are the same datagrams. *)
Theorem datagrams_preserved ha ea a hb eb b :
  datagram_run ha ea a -> datagram_run hb eb b ->
  read_bytes hb `prefix_of` written_bytes ha ->
  sent eb `prefix_of` received ha /\
  (read_bytes hb = written_bytes ha -> udp_pump a = ReceivingUdp ->
   stream_pump b = ReadingHeader -> sent eb = received ha).
Proof.
  intros Ha Hb Hp. destruct (datagram_run_inv _ _ _ Ha) as (_ & Hu & _).
  destruct (datagram_run_inv _ _ _ Hb) as (Hs & _ & _).
  pose proof (udp_inv_weak _ _ _ Hu) as (Hf1 & Hw & _).
  pose proof (stream_inv_weak _ _ _ Hs) as (Hf2 & Hr & _). split.
  - apply records_prefix; [done|done|]. by etrans; [|etrans].
  - intros He Hpa Hpb. unfold udp_inv in Hu. rewrite Hpa in Hu. unfold stream_inv in Hs.
    rewrite Hpb in Hs. apply records_inj; [done|done|]. naive_solver congruence.
Qed.

(** a record whose length field is over the UDP limit never reaches the payload
    buffer: in every reachable state a payload read asks for at most 65507 bytes, every
    datagram sent is that short, and a header with a larger length ends the relay with
    an error. *)
Theorem datagram_buffer_bounded h effects op :
  datagram_run h effects op ->
  (forall n, stream_pump op = ReadingPayload n -> 0 < n <= kMaximumUdpPayloadSize) /\
  Forall (fun p => Zlen p <= kMaximumUdpPayloadSize) (sent effects) /\
  (forall n r, stream_pump op = ReadingHeader -> kMaximumUdpPayloadSize < n < 2 ^ 16 ->
     step (StreamRead (record_header n) None) op = Some r ->
     failure_ r.2 <> None /\ done_ r.2 = true /\ sent r.1 = []).
Proof.
  intros Hr. destruct (datagram_run_inv _ _ _ Hr) as ((Hf & Hs) & _ & _). split_and!; [|done|].
  - intros n Hp. rewrite Hp in Hs. naive_solver.
  - intros n r Hp Hn. unfold step. rewrite Hp. cbn -[byte_of_Z Z.shiftr Z.shiftl Z.lor Z.land].
    intros [= <-]. unfold pump_header. cbn -[byte_of_Z Z.shiftr Z.shiftl Z.lor Z.land].
    pose proof (u16_bytes_decode (byte_of_Z (Z.land (Z.shiftr n 8) 0xff))
      (byte_of_Z (Z.land n 0xff))) as [Hh Hb].
    change (u16_bytes ?v) with (record_header v) in Hh.
    set (m := Z.lor _ _) in *. clearbody m. assert (m = n) as ->.
    { unfold kMaximumUdpPayloadSize in Hn.
      apply (be_encode_inj 2); [simpl; lia|simpl; lia|]. by rewrite <- !record_header_be, Hh. }
    destruct (Z.ltb_spec kMaximumUdpPayloadSize n); [|lia]. unfold finish_transport, fail, finish. simpl.
    destruct (done_ op) eqn:Hd; simpl; rewrite ?Hd; split_and!; try done; by destruct (failure_ op).
Qed.

(** C32: every datagram relay ends.  As long as it is not done both pumps run and its
    inactivity timer is armed, and its expiry ends the relay with a timeout error; whenever
    one coroutine has ended the relay is done; and a relay that is done has closed both
    sockets and cancelled the completion timer, so that [run] returns if it has not yet: the
    first failure any completion reported, or else the statistics. *)
Theorem datagram_relay_ends h effects op :
  datagram_run h effects op ->
  (done_ op = false ->
     stream_pump op <> StreamStopped /\ udp_pump op <> UdpStopped /\
     exists more op', step (TimerWait None) op = Some (more, op') /\ done_ op' = true /\
       failure_ op' = Some (mkError connection_timeout (bs "UDP relay inactivity timeout expired"))) /\
  (done_ op = true -> CloseStream ∈ effects /\ CloseUdp ∈ effects /\
     ((forall result, Return result ∉ effects) -> exists op', step Completed op =
        Some ([CancelActivity;
               Return (match first_failure h with Some e => Err e | None => Ok (stats_ op) end)], op'))).
Proof.
  intros Hr. destruct (datagram_run_inv _ _ _ Hr) as (_ & _ & H1 & H2 & H3 & H4 & H5). split.
  - intros Hd. rewrite Hd in *.
    assert (Hf : failure_ op = None) by (destruct (failure_ op); [by exfalso; discriminate H4|done]).
    assert (Hw : watching op = true) by (destruct (watching op); [done|]; discriminate H2; auto).
    split_and!; [intros Hp; discriminate H2; auto..|]. unfold step. rewrite Hw.
    unfold watch_inactivity, fail, finish. rewrite Hd. cbn [set_failure stop_watching done_]. rewrite Hd.
    eexists _, _. split; [done|]. cbn [set_done set_failure stop_watching failure_ done_]. by rewrite Hf.
  - intros Hd. destruct (H3 Hd). split_and!; [done|done|]. intros Hno.
    rewrite <- (datagram_first_failure _ _ _ Hr). unfold step, finish_run.
    destruct (waiting op); [|simpl; eauto|].
    + by rewrite (proj2 H1) in Hd.
    + destruct (proj1 H5 eq_refl) as [r Hin]. by destruct (Hno r).
Qed.

(** Two datagrams, one of them empty, from one relay to another; the second read of the
    stream is cut short by an error. *)
Fixpoint play (events : list DatagramEvent) (h : DatagramHistory) (effects : list DatagramEffect)
    (op : DatagramRelayOperation) :
    option (DatagramHistory * list DatagramEffect * DatagramRelayOperation) :=
  match events with
  | [] => Some (h, effects, op)
  | event :: events =>
      match step event op with
      | Some (more, op') => play events (h ++ [(op, event)]) (effects ++ more) op'
      | None => None
      end
  end.

Lemma play_run events : forall h effects op h' effects' op',
  datagram_run h effects op -> play events h effects op = Some (h', effects', op') ->
  datagram_run h' effects' op'.
Proof.
  induction events as [|event events IH]; intros h effects op h' effects' op' Hr; simpl.
  - by intros [= <- <- <-].
  - destruct (step event op) as [[more op1]|] eqn:E; [|done]. intros Hp. eapply IH; [|done].
    by eapply datagram_run_step.
Qed.

Definition played (events : list DatagramEvent) :
    DatagramHistory * list DatagramEffect * DatagramRelayOperation :=
  default ([], [], DatagramRelayOperation_new)
    (play events [] [ArmActivity; ReadStream kDatagramRecordHeaderSize;
      ReceiveUdp kMaximumUdpPayloadSize] DatagramRelayOperation_new).

Lemma played_run events :
  is_Some (play events [] [ArmActivity; ReadStream kDatagramRecordHeaderSize;
      ReceiveUdp kMaximumUdpPayloadSize] DatagramRelayOperation_new) ->
  datagram_run (played events).1.1 (played events).1.2 (played events).2.
Proof.
  unfold played. intros [[[h e] op] Hp]. rewrite Hp. simpl.
  eapply play_run; [apply datagram_run_start|done].
Qed.

Definition sample_sender : list DatagramEvent :=
  [UdpReceived (bs "hi") None; RecordWritten 4 None; UdpReceived [] None; RecordWritten 2 None].
Definition sample_receiver : list DatagramEvent :=
  [StreamRead (record_header 2) None; StreamRead (bs "hi") None; UdpSent 2 None;
   StreamRead (record_header 0) None; UdpSent 0 None].

Lemma datagrams_preserved_witness :
  received (played sample_sender).1.1 = [bs "hi"; []] /\
  sent (played sample_receiver).1.2 = received (played sample_sender).1.1.
Proof.
  split; [by vm_compute|].
  apply (datagrams_preserved (played sample_sender).1.1 (played sample_sender).1.2
    (played sample_sender).2 (played sample_receiver).1.1 (played sample_receiver).1.2
    (played sample_receiver).2); [by apply played_run|by apply played_run| | | |]; try by vm_compute.
  by exists [].
Defined.

Lemma datagram_buffer_bounded_witness :
  let op := (played (take 1 sample_receiver)).2 in
  stream_pump op = ReadingPayload 2 /\ 0 < 2 <= kMaximumUdpPayloadSize.
Proof.
  split; [by vm_compute|].
  destruct (datagram_buffer_bounded (played (take 1 sample_receiver)).1.1
    (played (take 1 sample_receiver)).1.2 (played (take 1 sample_receiver)).2) as [H _];
    [by apply played_run|]. apply H. by vm_compute.
Defined.

Lemma datagram_relay_ends_witness :
  let p := played (sample_sender ++ [StreamRead [] (Some eof)]) in
  done_ p.2 = true /\ CloseStream ∈ p.1.2 /\
  exists op', step Completed p.2 =
    Some ([CancelActivity; Return (Ok (mkDatagramRelayStats 0 2 0 2))], op').
Proof.
  split; [by vm_compute|].
  destruct (datagram_relay_ends (played (sample_sender ++ [StreamRead [] (Some eof)])).1.1
    (played (sample_sender ++ [StreamRead [] (Some eof)])).1.2
    (played (sample_sender ++ [StreamRead [] (Some eof)])).2) as [_ H]; [by apply played_run|].
  destruct H as (H1 & _ & H2); [by vm_compute|]. split; [done|]. apply H2.
  intros result. vm_compute. set_solver.
Defined.
