(* ===== verification/Socks5.v ===== *)
(** * The SOCKS5 handshake

    [accept_socks5_connect] of src/protocol/socks5.cpp: the no-authentication CONNECT
    handshake a worker's TLS stream carries.  The coroutine is sequential, so it is an
    action on the bytes still to be read from the client, the replies written, the fates
    of its writes and the resolutions it asked for.  The resolver, [async_connect] and
    the texts of addresses are parameters. *)
From S2P Require Import Prelude Common Text Codec Io.

Definition kVersion : Z := 0x05.
Definition kNoAuthentication : Z := 0x00.
Definition kNoAcceptableMethod : Z := 0xff.
Definition kConnect : Z := 0x01.
Definition kIpv4 : Z := 0x01.
Definition kDomain : Z := 0x03.
Definition kIpv6 : Z := 0x04.

(** The address and port of [local_endpoint]. *)
Inductive LocalEndpoint : Set :=
| local_v4 (address : bytes) (port : Z)
| local_v6 (address : bytes) (port : Z).

Class SocksNetwork := {
  (** What a resolution yields. *)
  endpoints : Set;
  async_resolve : bytes -> bytes -> outcome IoError endpoints;
  (** [None]: the socket is connected but [local_endpoint] fails. *)
  async_connect : endpoints -> outcome IoError (option LocalEndpoint);
  v4_to_string : bytes -> bytes;
  v6_to_string : bytes -> bytes
}.

Record SocksIo : Set := mkSocksIo {
  unread : bytes;                    (** what the client sends from here on *)
  replies : list bytes;              (** what was written to it *)
  write_results : list bool;         (** whether the next writes succeed; then all do *)
  resolutions : list (bytes * bytes) (** the resolver's calls *)
}.

(** [read_exact]: the bytes, or [None] when the stream ends before them. *)
Definition read_exact (size : nat) : Action SocksIo (option bytes) := fun io =>
  if (size <=? length (unread io))%nat then
    (Ok (Some (take size (unread io))),
     mkSocksIo (drop size (unread io)) (replies io) (write_results io) (resolutions io))
  else (Ok None, mkSocksIo [] (replies io) (write_results io) (resolutions io)).

(** [write_exact]. *)
Definition write_exact (data : bytes) : Action SocksIo bool := fun io =>
  match write_results io with
  | false :: later => (Ok false, mkSocksIo (unread io) (replies io) later (resolutions io))
  | _ => (Ok true, mkSocksIo (unread io) (replies io ++ [data]) (tail (write_results io))
                     (resolutions io))
  end.

(** [send_failure]; whether the write succeeds is ignored. *)
Definition failure_response (reply : Z) : bytes :=
  map byte_of_Z [kVersion; reply; 0; kIpv4; 0; 0; 0; 0; 0; 0].
Definition send_failure (reply : Z) : Action SocksIo unit :=
  _ ← write_exact (failure_response reply); mret tt.

(** The two bytes of a port. *)
Definition port_bytes (port : Z) : bytes :=
  [byte_of_Z (Z.land (Z.shiftr port 8) 0xff); byte_of_Z (Z.land port 0xff)].

Arguments port_bytes : simpl never.

(** [success_response]. *)
Definition success_response (endpoint : option LocalEndpoint) : bytes :=
  match endpoint with
  | None => map byte_of_Z [kVersion; 0; 0; kIpv4; 0; 0; 0; 0] ++ port_bytes 0
  | Some (local_v4 address port) =>
      map byte_of_Z [kVersion; 0; 0; kIpv4] ++ address ++ port_bytes port
  | Some (local_v6 address port) =>
      map byte_of_Z [kVersion; 0; 0; kIpv6] ++ address ++ port_bytes port
  end.

(** [data[i]] as a number. *)
Definition at_ (i : nat) (data : bytes) : Z := Z_of_byte (nth i data Byte.x00).
Arguments at_ : simpl never.

Section Handshake.
Context `{SocksNetwork}.

Definition resolve (host service : bytes) : Action SocksIo (outcome IoError endpoints) := fun io =>
  (Ok (async_resolve host service),
   mkSocksIo (unread io) (replies io) (write_results io) (resolutions io ++ [(host, service)])).

(** The destination host of a request with this address type. *)
Definition read_host (address_type : Z) : Action SocksIo bytes :=
  if address_type =? kIpv4 then
    data ← read_exact 4;
    match (data : option bytes) with
    | None => fail_with protocol_error "SOCKS5 IPv4 target is truncated"
    | Some data => mret (v4_to_string data)
    end
  else if address_type =? kIpv6 then
    data ← read_exact 16;
    match (data : option bytes) with
    | None => fail_with protocol_error "SOCKS5 IPv6 target is truncated"
    | Some data => mret (v6_to_string data)
    end
  else if address_type =? kDomain then
    length_byte ← read_exact 1;
    match (length_byte : option bytes) with
    | None => fail_with protocol_error "SOCKS5 domain target is invalid"
    | Some length_byte =>
        if at_ 0 length_byte =? 0 then fail_with protocol_error "SOCKS5 domain target is invalid"
        else
          data ← read_exact (Z.to_nat (at_ 0 length_byte));
          match (data : option bytes) with
          | None => fail_with protocol_error "SOCKS5 domain target is invalid"
          | Some data =>
              if bool_decide (Byte.x00 ∈ data) then
                fail_with protocol_error "SOCKS5 domain target is invalid"
              else mret data
          end
    end
  else
    _ ← send_failure 0x08;
    fail_with invalid_argument "SOCKS5 address type is not supported".

(** The connection of the destination socket and the reply to it. *)
Definition connect_destination (host : bytes) (port : Z) : Action SocksIo unit :=
  found ← resolve host (to_string port);
  match (match (found : outcome IoError endpoints) with
         | Ok found => async_connect found
         | Err error => Err error
         end) with
  | Err error =>
      let reply := if decide (error = connection_refused) then 0x05 else 0x04 in
      _ ← send_failure reply;
      fail_with connection_failed "SOCKS5 destination connection failed"
  | Ok local =>
      written ← write_exact (success_response local);
      if negb written then fail_with connection_failed "SOCKS5 success reply could not be sent"
      else mret tt
  end.

(** The request, after the method was selected. *)
Definition accept_request : Action SocksIo unit :=
  request ← read_exact 4;
  match (request : option bytes) with
  | None => fail_with protocol_error "SOCKS5 request is invalid"
  | Some request =>
      if negb (at_ 0 request =? kVersion) || negb (at_ 2 request =? 0) then
        fail_with protocol_error "SOCKS5 request is invalid"
      else if negb (at_ 1 request =? kConnect) then
        _ ← send_failure 0x07;
        fail_with invalid_argument "SOCKS5 command is not supported"
      else
        host ← read_host (at_ 3 request);
        port_data ← read_exact 2;
        match (port_data : option bytes) with
        | None => fail_with protocol_error "SOCKS5 target port is truncated"
        | Some port_data =>
            let port := Z.lor (Z.shiftl (at_ 0 port_data) 8) (at_ 1 port_data) in
            if port =? 0 then
              _ ← send_failure 0x01;
              fail_with invalid_argument "SOCKS5 target port is zero"
            else connect_destination host port
        end
  end.

(** [accept_socks5_connect]. *)
Definition accept_socks5_connect : Action SocksIo unit :=
  greeting ← read_exact 2;
  match (greeting : option bytes) with
  | None => fail_with protocol_error "SOCKS5 greeting is invalid"
  | Some greeting =>
      if negb (at_ 0 greeting =? kVersion) || (at_ 1 greeting =? 0) then
        fail_with protocol_error "SOCKS5 greeting is invalid"
      else
        methods ← read_exact (Z.to_nat (at_ 1 greeting));
        match (methods : option bytes) with
        | None => fail_with protocol_error "SOCKS5 methods are truncated"
        | Some methods =>
            let no_auth := bool_decide (byte_of_Z kNoAuthentication ∈ methods) in
            written ← write_exact (map byte_of_Z
              [kVersion; if no_auth then kNoAuthentication else kNoAcceptableMethod]);
            if negb written || negb no_auth then
              fail_with permission_denied "SOCKS5 client offered no supported method"
            else accept_request
        end
  end.

End Handshake.

(** ** The requests a client can make *)

Inductive Target : Set :=
| target_v4 (address : bytes)
| target_v6 (address : bytes)
| target_domain (name : bytes).

Definition target_wf (t : Target) : Prop :=
  match t with
  | target_v4 a => length a = 4%nat
  | target_v6 a => length a = 16%nat
  | target_domain name => 0 < Zlen name < 256 /\ Byte.x00 ∉ name
  end.

(** Address type and address on the wire. *)
Definition target_bytes (t : Target) : bytes :=
  match t with
  | target_v4 a => byte_of_Z kIpv4 :: a
  | target_v6 a => byte_of_Z kIpv6 :: a
  | target_domain name => byte_of_Z kDomain :: byte_of_Z (Zlen name) :: name
  end.

Definition target_host `{SocksNetwork} (t : Target) : bytes :=
  match t with
  | target_v4 a => v4_to_string a
  | target_v6 a => v6_to_string a
  | target_domain name => name
  end.

Definition connect_request (methods : bytes) (t : Target) (port : Z) : bytes :=
  (map byte_of_Z [kVersion; Zlen methods] ++ methods) ++
  (map byte_of_Z [kVersion; kConnect; 0] ++ target_bytes t) ++ port_bytes port.

(** ** Lemmas *)

Lemma read_exact_app x u r w s :
  read_exact (length x) (mkSocksIo (x ++ u) r w s) = (Ok (Some x), mkSocksIo u r w s).
Proof.
  unfold read_exact. simpl. rewrite length_app. destruct (Nat.leb_spec (length x) (length x + length u)); [|lia].
  by rewrite take_app_length, drop_app_length.
Qed.

Lemma read_exact_inv n io x io' :
  read_exact n io = (Ok (Some x), io') ->
  length x = n /\
  io = mkSocksIo (x ++ unread io') (replies io') (write_results io') (resolutions io').
Proof.
  unfold read_exact. destruct (Nat.leb_spec n (length (unread io))); [|done].
  intros [= <- <-]. simpl. split; [rewrite length_take; lia|].
  rewrite take_drop. by destruct io.
Qed.

Lemma write_exact_inv data io io' :
  write_exact data io = (Ok true, io') ->
  io' = mkSocksIo (unread io) (replies io ++ [data]) (tail (write_results io)) (resolutions io).
Proof. unfold write_exact. repeat case_match; by intros [= <-]. Qed.

Lemma at_byte i data v : at_ i data = v -> 0 <= v < 256 -> nth i data Byte.x00 = byte_of_Z v.
Proof. intros <- _. unfold at_. by rewrite byte_of_Z_of_byte. Qed.

Lemma at_of_Z i data v :
  0 <= v < 256 -> nth i data Byte.x00 = byte_of_Z v -> at_ i data = v.
Proof. intros Hv Hn. unfold at_. rewrite Hn, Z_of_byte_of_Z. by apply Z.mod_small. Qed.

Lemma bytes_of_length_2 (l : bytes) : length l = 2%nat -> exists a b, l = [a; b].
Proof. destruct l as [|a [|b [|]]]; try done. eauto. Qed.
Lemma bytes_of_length_4 (l : bytes) : length l = 4%nat -> exists a b c d, l = [a; b; c; d].
Proof. destruct l as [|a [|b [|c [|d [|]]]]]; try done. eauto 6. Qed.

Section Handshake_lemmas.
Context `{SocksNetwork}.

(** *** Reading a host *)

Lemma read_host_target t u r w s :
  target_wf t ->
  exists kind_byte rest, target_bytes t = kind_byte :: rest /\
    read_host (Z_of_byte kind_byte) (mkSocksIo (rest ++ u) r w s)
      = (Ok (target_host t), mkSocksIo u r w s).
Proof.
  destruct t as [a|a|name]; simpl; intros Hwf.
  - eexists _, _. split; [done|]. rewrite Z_of_byte_of_Z. unfold read_host. simpl.
    rewrite <- Hwf. by erewrite ST_bind_ok by apply read_exact_app.
  - eexists _, _. split; [done|]. rewrite Z_of_byte_of_Z. unfold read_host. simpl.
    rewrite <- Hwf. by erewrite ST_bind_ok by apply read_exact_app.
  - destruct Hwf as [Hl Hz]. eexists _, _. split; [done|]. rewrite Z_of_byte_of_Z. unfold read_host.
    simpl. erewrite ST_bind_ok by apply (read_exact_app [_]). cbn iota.
    rewrite (at_of_Z 0 _ (Zlen name)) by (done || lia).
    destruct (Z.eqb_spec (Zlen name) 0); [lia|]. unfold Zlen. rewrite Nat2Z.id.
    erewrite ST_bind_ok by apply read_exact_app. cbn iota. by rewrite bool_decide_false.
Qed.

Lemma read_host_inv k io host io' :
  read_host (Z_of_byte k) io = (Ok host, io') ->
  exists t rest, target_wf t /\ target_bytes t = k :: rest /\ host = target_host t /\
    io = mkSocksIo (rest ++ unread io') (replies io') (write_results io') (resolutions io').
Proof.
  unfold read_host.
  assert (Hk : forall v, Z_of_byte k = v -> k = byte_of_Z v)
    by (intros v <-; by rewrite byte_of_Z_of_byte).
  destruct (Z.eqb_spec (Z_of_byte k) kIpv4) as [->%Hk|_].
  { intros (x & io1 & Hr & Hn)%ST_bind_inv. destruct x as [x|]; [|done].
    injection Hn as <- ->. apply read_exact_inv in Hr as [Hl ->]. by exists (target_v4 x), x. }
  destruct (Z.eqb_spec (Z_of_byte k) kIpv6) as [->%Hk|_].
  { intros (x & io1 & Hr & Hn)%ST_bind_inv. destruct x as [x|]; [|done].
    injection Hn as <- ->. apply read_exact_inv in Hr as [Hl ->]. by exists (target_v6 x), x. }
  destruct (Z.eqb_spec (Z_of_byte k) kDomain) as [->%Hk|_].
  2: { intros (x & io1 & _ & Hn)%ST_bind_inv. done. }
  intros (x & io1 & Hr & Hn)%ST_bind_inv. destruct x as [x|]; [|done].
  apply read_exact_inv in Hr as [Hl ->]. destruct x as [|n [|]]; try done.
  destruct (Z.eqb_spec (at_ 0 [n]) 0) as [|Hne]; [done|].
  apply ST_bind_inv in Hn as (name & io2 & Hr & Hn). destruct name as [name|]; [|done].
  apply read_exact_inv in Hr as [Hl2 ->]. destruct (bool_decide _) eqn:Hz; [done|].
  injection Hn as <- ->. apply bool_decide_eq_false in Hz. simpl in *.
  unfold at_ in *. simpl in *. pose proof (Z_of_byte_range n).
  assert (Hlen : Zlen name = Z_of_byte n) by (unfold Zlen; lia).
  exists (target_domain name), (byte_of_Z (Zlen name) :: name). simpl.
  rewrite Hlen, byte_of_Z_of_byte. split_and!; [lia|lia|done|done|done|done].
Qed.

(** *** The stages of the handshake *)

Lemma connect_destination_inv host port io io' :
  connect_destination host port io = (Ok tt, io') ->
  exists found local, async_resolve host (to_string port) = Ok found /\
    async_connect found = Ok local /\
    io' = mkSocksIo (unread io) (replies io ++ [success_response local]) (tail (write_results io))
            (resolutions io ++ [(host, to_string port)]).
Proof.
  unfold connect_destination. intros (x & io1 & [= <- <-] & Hk)%ST_bind_inv.
  destruct (async_resolve host (to_string port)) as [found|]; [|by apply ST_bind_inv in Hk as (?&?&_&?)].
  destruct (async_connect found) as [local|] eqn:Hc; [|by apply ST_bind_inv in Hk as (?&?&_&?)].
  apply ST_bind_inv in Hk as (written & io2 & Hw & Hk).
  destruct written; [|done]. injection Hk as ->. apply write_exact_inv in Hw as ->. eauto.
Qed.

Lemma accept_request_inv io io' :
  accept_request io = (Ok tt, io') ->
  exists t port found local, target_wf t /\ 0 < port < 2 ^ 16 /\
    async_resolve (target_host t) (to_string port) = Ok found /\ async_connect found = Ok local /\
    unread io = (map byte_of_Z [kVersion; kConnect; 0] ++ target_bytes t) ++ port_bytes port
                ++ unread io' /\
    replies io' = replies io ++ [success_response local] /\
    write_results io' = tail (write_results io) /\
    resolutions io' = resolutions io ++ [(target_host t, to_string port)].
Proof.
  unfold accept_request. intros (x & io1 & Hr & Hk)%ST_bind_inv. destruct x as [x|]; [|done].
  apply read_exact_inv in Hr as [Hl ->]. apply bytes_of_length_4 in Hl as (a & b & c & d & ->).
  destruct (negb (at_ 0 [a; b; c; d] =? kVersion) || negb (at_ 2 [a; b; c; d] =? 0)) eqn:Hv; [done|].
  apply orb_false_iff in Hv as [Ha Hc]. apply negb_false_iff, Z.eqb_eq in Ha, Hc.
  destruct (Z.eqb_spec (at_ 1 [a; b; c; d]) kConnect) as [Hb|]; simpl in Hk;
    [|by apply ST_bind_inv in Hk as (?&?&_&?)].
  apply at_byte in Ha, Hb, Hc; try done. simpl in Ha, Hb, Hc. subst.
  apply ST_bind_inv in Hk as (host & io2 & Hr & Hk).
  change (at_ 3 [_; _; _; d]) with (Z_of_byte d) in Hr.
  apply read_host_inv in Hr as (t & rest & Hwf & Ht & -> & ->).
  apply ST_bind_inv in Hk as (x & io3 & Hr & Hk). destruct x as [x|]; [|done].
  apply read_exact_inv in Hr as [Hl ->]. apply bytes_of_length_2 in Hl as (p & q & ->).
  pose proof (u16_bytes_decode p q) as [Hp Hrange].
  change (at_ 0 [p; q]) with (Z_of_byte p) in Hk. change (at_ 1 [p; q]) with (Z_of_byte q) in Hk.
  set (port := Z.lor _ _) in *. clearbody port.
  destruct (Z.eqb_spec port 0); [by apply ST_bind_inv in Hk as (?&?&_&?)|].
  apply connect_destination_inv in Hk as (found & local & Hres & Hcon & ->).
  exists t, port, found, local. cbn [unread replies write_results resolutions]. rewrite Ht.
  change (port_bytes port) with (u16_bytes port). rewrite Hp.
  split_and!; (done || lia).
Qed.

Lemma accept_request_runs t port found local u r s :
  target_wf t -> 0 < port < 2 ^ 16 ->
  async_resolve (target_host t) (to_string port) = Ok found -> async_connect found = Ok local ->
  accept_request (mkSocksIo ((map byte_of_Z [kVersion; kConnect; 0] ++ target_bytes t)
                    ++ port_bytes port ++ u) r [] s)
  = (Ok tt, mkSocksIo u (r ++ [success_response local]) []
              (s ++ [(target_host t, to_string port)])).
Proof.
  intros Hwf Hport Hres Hcon.
  destruct (read_host_target t (port_bytes port ++ u) r [] s Hwf) as (k & rest & -> & Hh).
  unfold accept_request.
  erewrite ST_bind_ok
    by apply (read_exact_app [byte_of_Z kVersion; byte_of_Z kConnect; byte_of_Z 0; k]).
  cbn iota. rewrite (at_of_Z 0 _ kVersion), (at_of_Z 2 _ 0), (at_of_Z 1 _ kConnect) by done. simpl.
  change (at_ 3 _) with (Z_of_byte k). erewrite ST_bind_ok by apply Hh.
  erewrite ST_bind_ok by apply (read_exact_app (port_bytes port)). cbn iota.
  pose proof (u16_bytes_decode (byte_of_Z (Z.land (Z.shiftr port 8) 0xff))
    (byte_of_Z (Z.land port 0xff))) as [Hp Hrange].
  change (at_ 0 (port_bytes port)) with (Z_of_byte (byte_of_Z (Z.land (Z.shiftr port 8) 0xff))).
  change (at_ 1 (port_bytes port)) with (Z_of_byte (byte_of_Z (Z.land port 0xff))).
  set (port' := Z.lor _ _) in *. clearbody port'. assert (port' = port) as ->.
  { apply (be_encode_inj 2); [simpl; lia|simpl; lia|]. by rewrite <- !u16_bytes_be, Hp. }
  destruct (Z.eqb_spec port 0); [lia|]. unfold connect_destination.
  erewrite ST_bind_ok by done. rewrite Hres, Hcon. erewrite ST_bind_ok by done. done.
Qed.

(** *** Failures *)

(** What a failed handshake has written, and whether it asked the resolver. *)
Definition fails_cleanly (selected : list bytes) (io : SocksIo) (e : Error) (io' : SocksIo) : Prop :=
  resolutions io' = resolutions io /\
    (replies io' = replies io ++ selected \/
     exists c, c ∈ [0x01; 0x07; 0x08] /\ replies io' = replies io ++ selected ++ [failure_response c]) \/
  exists call c, resolutions io' = resolutions io ++ [call] /\ code e = connection_failed /\
    c ∈ [0x04; 0x05] /\ replies io' = replies io ++ selected ++ [failure_response c].

Lemma send_failure_fails {A} c k m io :
  write_results io = [] ->
  (_ ← send_failure c; fail_with k m : Action SocksIo A) io =
  (Err (mkError k (bs m)),
   mkSocksIo (unread io) (replies io ++ [failure_response c]) [] (resolutions io)).
Proof. intros Hw. unfold send_failure, mbind, ST_bind, write_exact. by rewrite Hw. Qed.

(** An action that fails cleanly, and one that has written and asked nothing when it
    succeeds. *)
Definition clean {A} (m : Action SocksIo A) : Prop := forall io e io',
  write_results io = [] -> m io = (Err e, io') -> fails_cleanly [] io e io'.
Definition quiet {A} (m : Action SocksIo A) : Prop := forall io a io', m io = (Ok a, io') ->
  (replies io', write_results io', resolutions io') = (replies io, write_results io, resolutions io).

Lemma clean_bind {A B} (m : Action SocksIo A) (f : A -> Action SocksIo B) :
  clean m -> quiet m -> (forall a, clean (f a)) -> clean (m ≫= f).
Proof.
  intros Hm Hq Hf io e io' Hw. unfold mbind, ST_bind.
  destruct (m io) as [[a|e1] io1] eqn:E; [|intros [= <- <-]; by apply Hm].
  specialize (Hq _ _ _ E). injection Hq as H1 H2 H3. intros Hk.
  assert (Hc : fails_cleanly [] io1 e io') by (apply (Hf a); congruence).
  unfold fails_cleanly in *. by rewrite H1, H3 in Hc.
Qed.

Lemma clean_read n : clean (read_exact n).
Proof. intros io e io' _. unfold read_exact. by case_match. Qed.
Lemma quiet_read n : quiet (read_exact n).
Proof. intros io a io'. unfold read_exact. case_match; by intros [= <- <-]. Qed.
Lemma clean_ret {A} (a : A) : clean (mret a).
Proof. intros io e io' _. done. Qed.
Lemma clean_fail {A} c m : clean (fail_with c m : Action SocksIo A).
Proof. intros io e io' _ [= <- <-]. left. rewrite app_nil_r. auto. Qed.
Lemma clean_send {A} c k m :
  c ∈ [0x01; 0x07; 0x08] -> clean (_ ← send_failure c; fail_with k m : Action SocksIo A).
Proof.
  intros Hc io e io' Hw. rewrite send_failure_fails by done. intros [= <- <-]. left. eauto.
Qed.

#[local] Hint Resolve clean_read quiet_read clean_ret clean_fail : core.

Ltac clean_step :=
  repeat first
    [ apply clean_bind; [by auto|by auto|]; intros
    | apply clean_send; set_solver
    | case_match
    | by auto ].

Lemma read_host_clean k : clean (read_host k).
Proof. unfold read_host. clean_step. Qed.

Lemma read_host_quiet k : quiet (read_host k).
Proof.
  intros io a io' Hr. unfold read_host in Hr. repeat case_match.
  1-3: apply ST_bind_inv in Hr as (x & io1 & Hx & Hr); apply quiet_read in Hx; rewrite <- Hx.
  - case_match; [by injection Hr as <- <-|done].
  - case_match; [by injection Hr as <- <-|done].
  - repeat case_match; try done. apply ST_bind_inv in Hr as (y & io2 & Hy & Hr).
    apply quiet_read in Hy. rewrite <- Hy. repeat case_match; try done. by injection Hr as <- <-.
  - by apply ST_bind_inv in Hr as (? & ? & _ & ?).
Qed.

Lemma connect_destination_clean host port : clean (connect_destination host port).
Proof.
  intros io e io' Hw. unfold connect_destination. erewrite ST_bind_ok by done.
  destruct (match async_resolve host (to_string port) with Ok found => _ | Err error => _ end)
    as [local|error].
  - unfold mbind, ST_bind, write_exact. simpl. by rewrite Hw.
  - rewrite send_failure_fails by done. intros [= <- <-]. right. simpl.
    eexists _, (if decide _ then 0x05 else 0x04). split_and!; [done|done| |done].
    case_decide; set_solver.
Qed.

#[local] Hint Resolve read_host_clean read_host_quiet connect_destination_clean : core.

Lemma accept_request_clean : clean accept_request.
Proof. unfold accept_request. clean_step. Qed.

End Handshake_lemmas.

(** ** Properties *)

Section Properties.
Context `{SocksNetwork}.

(** C33: the handshake succeeds exactly on CONNECT requests.  When the client's replies
    can be written, the handshake succeeds if and only if the client sent a greeting
    that offers the no-authentication method and then a CONNECT request for a valid
    target and a port other than 0, and the destination resolves and accepts the
    connection.  It has then answered with the method selection and the success reply,
    asked the resolver for exactly that target, and left everything after the request
    unread for the relay. *)
Theorem socks5_connect_exact io io' :
  write_results io = [] ->
  accept_socks5_connect io = (Ok tt, io') <->
  exists methods t port found local,
    unread io = connect_request methods t port ++ unread io' /\
    0 < Zlen methods < 256 /\ Byte.x00 ∈ methods /\ target_wf t /\ 0 < port < 2 ^ 16 /\
    async_resolve (target_host t) (to_string port) = Ok found /\ async_connect found = Ok local /\
    replies io' = replies io ++ [map byte_of_Z [kVersion; kNoAuthentication]; success_response local] /\
    write_results io' = [] /\
    resolutions io' = resolutions io ++ [(target_host t, to_string port)].
Proof.
  intros Hw. split.
  - unfold accept_socks5_connect. intros (x & io1 & Hr & Hk)%ST_bind_inv. destruct x as [x|]; [|done].
    apply read_exact_inv in Hr as [Hl ->]. apply bytes_of_length_2 in Hl as (a & b & ->). simpl in Hw.
    destruct (negb (at_ 0 [a; b] =? kVersion) || (at_ 1 [a; b] =? 0)) eqn:Hv; [done|].
    apply orb_false_iff in Hv as [Ha Hb]. apply negb_false_iff, Z.eqb_eq in Ha.
    apply Z.eqb_neq in Hb. apply at_byte in Ha; [|done]. simpl in Ha. subst a.
    change (at_ 1 [_; b]) with (Z_of_byte b) in *.
    apply ST_bind_inv in Hk as (x & io2 & Hr & Hk). destruct x as [methods|]; [|done].
    apply read_exact_inv in Hr as [Hl ->]. simpl in Hw.
    apply ST_bind_inv in Hk as (written & io3 & Hwr & Hk).
    destruct written; [|done]. apply write_exact_inv in Hwr as ->.
    destruct (bool_decide (byte_of_Z kNoAuthentication ∈ methods)) eqn:Hm; [|done].
    apply bool_decide_eq_true in Hm.
    apply accept_request_inv in Hk as (t & port & found & local & ? & ? & ? & ? & Hu & Hrep & Hres & Hs).
    simpl in *. exists methods, t, port, found, local. pose proof (Z_of_byte_range b).
    assert (Hlen : Zlen methods = Z_of_byte b) by (unfold Zlen; lia).
    split_and!; try (done || lia).
    + unfold connect_request. rewrite Hlen. simpl. rewrite byte_of_Z_of_byte, Hu. simpl.
      rewrite <- !app_assoc. simpl. by rewrite <- !app_assoc.
    + by rewrite Hrep, <- app_assoc.
    + by rewrite Hres, Hw.
  - intros (methods & t & port & found & local & Hu & Hl & Hm & Ht & Hp & Hres & Hcon & Hr & Hw' & Hs).
    destruct io as [u r w s], io' as [u' r' w' s']. simpl in *. subst.
    unfold accept_socks5_connect, connect_request. rewrite <- !app_assoc.
    erewrite ST_bind_ok by apply (read_exact_app (map byte_of_Z [kVersion; Zlen methods])).
    cbn iota. rewrite (at_of_Z 0 _ kVersion), (at_of_Z 1 _ (Zlen methods)) by (done || lia).
    destruct (Z.eqb_spec (Zlen methods) 0); [lia|]. simpl. unfold Zlen. rewrite Nat2Z.id.
    erewrite ST_bind_ok by apply read_exact_app. cbn iota zeta.
    rewrite bool_decide_true by done. erewrite ST_bind_ok by done. simpl.
    pose proof (accept_request_runs t port found local u'
      (r ++ [map byte_of_Z [kVersion; kNoAuthentication]]) s Ht Hp Hres Hcon) as Hrun.
    rewrite <- !app_assoc in Hrun. rewrite <- (app_assoc (target_bytes t)). exact Hrun.
Qed.

(** C34: a handshake that fails leaves the client with a well-formed answer.  When its
    replies can be written, a failed handshake has sent nothing, the refusal of all
    methods, the method selection alone (on malformed or truncated input), or the method
    selection and one ten-byte failure reply; it has asked the resolver for at most one
    target, and exactly then the error is a connection failure and the reply code 4
    or 5. *)
Theorem socks5_failure_replies io e io' :
  write_results io = [] -> accept_socks5_connect io = (Err e, io') ->
  replies io' = replies io \/
  replies io' = replies io ++ [map byte_of_Z [kVersion; kNoAcceptableMethod]] \/
  fails_cleanly [map byte_of_Z [kVersion; kNoAuthentication]] io e io'.
Proof.
  intros Hw. unfold accept_socks5_connect, mbind, ST_bind.
  destruct (read_exact 2 io) as [[x|] io1] eqn:E1; [|unfold read_exact in E1; by case_match].
  apply quiet_read in E1 as [= Hr1 Hw1 Hs1].
  destruct x as [x|]; [|intros [= <- <-]; by left].
  case_match; [intros [= <- <-]; by left|].
  destruct (read_exact _ io1) as [[y|] io2] eqn:E2; [|unfold read_exact in E2; by case_match].
  apply quiet_read in E2 as [= Hr2 Hw2 Hs2].
  destruct y as [methods|]; [|intros [= <- <-]; left; congruence].
  unfold write_exact. rewrite Hw2, Hw1, Hw.
  destruct (bool_decide _); simpl; [|intros [= <- <-]; right; left; simpl; congruence].
  intros Hk. right; right. apply accept_request_clean in Hk; [|done].
  unfold fails_cleanly in *. simpl in Hk. rewrite Hr2, Hr1, Hs2, Hs1 in Hk.
  setoid_rewrite app_nil_r in Hk. setoid_rewrite <- app_assoc in Hk. exact Hk.
Qed.

End Properties.

(** A network whose only host is a.b, with port 80 open, and the local endpoint
    10.0.0.1:513. *)
#[local] Instance sample_network : SocksNetwork := {|
  endpoints := bool;
  async_resolve host service :=
    if decide (host = bs "a.b") then Ok (bool_decide (service = bs "80")) else Err (other_error 1);
  async_connect (found : bool) :=
    if found then Ok (Some (local_v4 (map byte_of_Z [10; 0; 0; 1]) 513)) else Err connection_refused;
  v4_to_string _ := bs "0.0.0.0";
  v6_to_string _ := bs "::"
|}.

Definition sample_io (port : Z) : SocksIo :=
  mkSocksIo (connect_request (map byte_of_Z [2; 0]) (target_domain (bs "a.b")) port ++ bs "GET") [] [] [].

Lemma socks5_connect_exact_witness :
  unread (accept_socks5_connect (sample_io 80)).2 = bs "GET" /\
  accept_socks5_connect (sample_io 80) = (Ok tt, (accept_socks5_connect (sample_io 80)).2).
Proof.
  split; [by vm_compute|].
  apply (socks5_connect_exact (sample_io 80)); [done|].
  exists (map byte_of_Z [2; 0]), (target_domain (bs "a.b")), 80, true,
    (Some (local_v4 (map byte_of_Z [10; 0; 0; 1]) 513)).
  split_and!; try by vm_compute. all: vm_compute; set_solver.
Defined.

Lemma socks5_failure_replies_witness :
  let r := accept_socks5_connect (sample_io 81) in
  replies r.2 = [map byte_of_Z [5; 0]; failure_response 5] /\
  (replies r.2 = [] \/ replies r.2 = [map byte_of_Z [5; 0xff]] \/
   fails_cleanly [map byte_of_Z [5; 0]] (sample_io 81)
     (mkError connection_failed (bs "SOCKS5 destination connection failed")) r.2).
Proof.
  split; [by vm_compute|].
  apply (socks5_failure_replies (sample_io 81) _ (accept_socks5_connect (sample_io 81)).2); [done|].
  by vm_compute.
Defined.
