(* ===== verification/Json.v ===== *)
(** * JSON values and parsing limits

    The values of [nlohmann::json] as the IPC protocol (src/ipc/protocol.cpp), the
    control service and the declarative configuration use them, the events its parser
    reports to a callback, and the callback [ParseLimits] that bounds what is parsed.
    The library itself is not part of the program: its parser and printer are the
    parameter [JsonLibrary], and what the program relies on is [JsonLibraryLaws]. *)
From Stdlib Require Import SpecFloat.
From stdpp Require Import countable.
From S2P Require Import Prelude Common Utf8.

(** ** Values *)

Unset Elimination Schemes.

(** [JInt] is [number_integer] and [JUnsigned] is [number_unsigned]; the parser yields
    the latter for every integer that is not negative.  The fields of an object are in
    the order of its container: sorted in [nlohmann::json], in order of insertion in
    [nlohmann::ordered_json] and in a text. *)
Inductive Json : Set :=
| JNull
| JBool (value : bool)
| JInt (value : Z)
| JUnsigned (value : Z)
| JFloat (value : spec_float)
| JString (value : bytes)
| JArray (elements : list Json)
| JObject (fields : list (bytes * Json)).

Set Elimination Schemes.

(** Induction over the nested lists. *)
Lemma Json_ind (P : Json -> Prop)
    (Hnull : P JNull) (Hbool : forall b, P (JBool b)) (Hint : forall z, P (JInt z))
    (Hunsigned : forall z, P (JUnsigned z)) (Hfloat : forall f, P (JFloat f))
    (Hstring : forall s, P (JString s))
    (Harray : forall l, Forall P l -> P (JArray l))
    (Hobject : forall l, Forall (fun x => P x.2) l -> P (JObject l)) : forall j, P j.
Proof.
  fix IH 1. intros [ | | | | | |l|l]; [done|apply Hbool|apply Hint|apply Hunsigned|apply Hfloat|
    apply Hstring|apply Harray|apply Hobject].
  - induction l; constructor; [apply IH|done].
  - induction l; constructor; [apply IH|done].
Qed.

Definition is_object (j : Json) : bool := match j with JObject _ => true | _ => false end.
Definition is_array (j : Json) : bool := match j with JArray _ => true | _ => false end.
Definition is_string (j : Json) : bool := match j with JString _ => true | _ => false end.
Definition is_container (j : Json) : bool := is_array j || is_object j.

(** [std::isfinite]. *)
Definition is_finite (f : spec_float) : bool :=
  match f with S754_zero _ | S754_finite _ _ _ => true | S754_infinity _ | S754_nan => false end.

(** [value.find(field)] on an object; another value has no fields. *)
Fixpoint find_field (field : bytes) (fields : list (bytes * Json)) : option Json :=
  match fields with
  | [] => None
  | (k, v) :: fields => if decide (k = field) then Some v else find_field field fields
  end.
Definition json_find (field : bytes) (j : Json) : option Json :=
  match j with JObject fields => find_field field fields | _ => None end.

(** The keys [item.key()] of the loop over an object. *)
Definition json_keys (j : Json) : list bytes :=
  match j with JObject fields => map fst fields | _ => [] end.

(** The order of [std::map<std::string, ...>]. *)
Fixpoint bytes_ltb (l1 l2 : bytes) : bool :=
  match l1, l2 with
  | _, [] => false
  | [], _ :: _ => true
  | a :: l1, b :: l2 =>
      (Z_of_byte a <? Z_of_byte b) || ((Z_of_byte a =? Z_of_byte b) && bytes_ltb l1 l2)
  end.

(** [object[key] = value] for a new key of a sorted object; an old one keeps its
    value, as [std::map::emplace] does. *)
Fixpoint emplace_field {A} (key : bytes) (value : A) (fields : list (bytes * A)) : list (bytes * A) :=
  match fields with
  | [] => [(key, value)]
  | (k, v) :: rest =>
      if decide (k = key) then fields
      else if bytes_ltb key k then (key, value) :: fields
      else (k, v) :: emplace_field key value rest
  end.

Definition sort_fields {A} (fields : list (bytes * A)) : list (bytes * A) :=
  fold_left (fun sorted '(k, v) => emplace_field k v sorted) fields [].

(** [Json{{key, value}, ...}]. *)
Definition json_object (fields : list (string * Json)) : Json :=
  JObject (sort_fields (map (fun '(k, v) => (bs k, v)) fields)).

(** A text or an [ordered_json] read into a [nlohmann::json]: numbers that are not
    negative become unsigned, objects are sorted. *)
Fixpoint as_parsed (j : Json) : Json :=
  match j with
  | JInt z => if 0 <=? z then JUnsigned z else JInt z
  | JArray l => JArray (map as_parsed l)
  | JObject l => JObject (sort_fields (map (fun x => (x.1, as_parsed x.2)) l))
  | j => j
  end.

(** ** The parser's callback *)

(** [Json::parse_event_t] with the value that is passed along. *)
Inductive ParseEvent : Set :=
| object_start | object_end | array_start | array_end
| key_event (key : bytes)
| value_event (value : Json).

(** The events of a text, in order. *)
Fixpoint json_events (j : Json) : list ParseEvent :=
  match j with
  | JArray l => array_start :: concat (map json_events l) ++ [array_end]
  | JObject l =>
      object_start :: concat (map (fun x => key_event x.1 :: json_events x.2) l) ++ [object_end]
  | j => [value_event j]
  end.

Inductive ParseLimitFailure : Set := no_failure | duplicate_key | depth | nodes | string_length.
#[export] Instance ParseLimitFailure_eq_dec : EqDecision ParseLimitFailure.
Proof. solve_decision. Defined.

Record ParseContext : Set := mkParseContext { in_object : bool; context_keys : list bytes }.

(** [ParseLimits]; the last context is the head of the list. *)
Record ParseLimits : Set := mkParseLimits {
  limit_failure : ParseLimitFailure;
  node_count : Z;
  contexts : list ParseContext
}.

Definition ParseLimits_new : ParseLimits := mkParseLimits no_failure 0 [].

(** The constants of the two copies of the class, in protocol.cpp and
    declarative_config.cpp, and what they report for a key outside an object. *)
Record JsonLimits : Set := mkJsonLimits {
  max_depth : Z;
  max_nodes : Z;
  max_string : Z;
  misplaced_key : ParseLimitFailure
}.

Definition fail_limit (f : ParseLimitFailure) (s : ParseLimits) : ParseLimits :=
  mkParseLimits f (node_count s) (contexts s).

Definition is_object_start (e : ParseEvent) : bool :=
  match e with object_start => true | _ => false end.

(** [ParseLimits::accept]; what it returns is whether there is no failure. *)
Definition accept (limits : JsonLimits) (event : ParseEvent) (s : ParseLimits) : ParseLimits :=
  if bool_decide (limit_failure s <> no_failure) then s
  else
    let counted := mkParseLimits no_failure (node_count s + 1) (contexts s) in
    let too_many := max_nodes limits <? node_count s + 1 in
    match event with
    | object_start | array_start =>
        if max_depth limits <=? Zlen (contexts s) then fail_limit depth s
        else if too_many then fail_limit nodes counted
        else mkParseLimits no_failure (node_count s + 1)
               (mkParseContext (is_object_start event) [] :: contexts s)
    | object_end | array_end =>
        mkParseLimits no_failure (node_count s) (tail (contexts s))
    | key_event key =>
        if too_many then fail_limit nodes counted
        else if max_string limits <? Zlen key then fail_limit string_length counted
        else
          match contexts s with
          | mkParseContext true keys :: outer =>
              if bool_decide (key ∈ keys) then fail_limit duplicate_key counted
              else mkParseLimits no_failure (node_count s + 1)
                     (mkParseContext true (key :: keys) :: outer)
          | _ => fail_limit (misplaced_key limits) counted
          end
    | value_event value =>
        if too_many then fail_limit nodes counted
        else
          match value with
          | JString text =>
              if max_string limits <? Zlen text then fail_limit string_length counted else counted
          | _ => counted
          end
    end.

Definition accept_all (limits : JsonLimits) (events : list ParseEvent) (s : ParseLimits) :
    ParseLimits := fold_left (fun s e => accept limits e s) events s.
Arguments accept : simpl never.
Arguments accept_all : simpl never.

(** ** The library *)

Class JsonLibrary := {
  (** [Json::parse]: the value a text denotes, its fields in the order of the text and
      with duplicates; [None] when it throws. *)
  json_text : bytes -> option Json;
  (** [ordered_json::dump] with the strict error handler; [None] when it throws. *)
  json_dump : Json -> option bytes
}.

(** ** The reference: what a value contains *)

Fixpoint json_depth (j : Json) : Z :=
  match j with
  | JArray l => 1 + fold_right Z.max 0 (map json_depth l)
  | JObject l => 1 + fold_right Z.max 0 (map (fun x => json_depth x.2) l)
  | _ => 0
  end.

(** Every value is a node, and so is every key. *)
Fixpoint json_nodes (j : Json) : Z :=
  match j with
  | JArray l => 1 + fold_right Z.add 0 (map json_nodes l)
  | JObject l => 1 + fold_right Z.add 0 (map (fun x => 1 + json_nodes x.2) l)
  | _ => 1
  end.

(** [p] holds of every string and every key. *)
Fixpoint all_strings (p : bytes -> bool) (j : Json) : bool :=
  match j with
  | JString s => p s
  | JArray l => forallb (all_strings p) l
  | JObject l => forallb (fun x => p x.1 && all_strings p x.2) l
  | _ => true
  end.

Fixpoint all_floats (p : spec_float -> bool) (j : Json) : bool :=
  match j with
  | JFloat f => p f
  | JArray l => forallb (all_floats p) l
  | JObject l => forallb (fun x => all_floats p x.2) l
  | _ => true
  end.

Fixpoint distinct_keys (j : Json) : bool :=
  match j with
  | JArray l => forallb distinct_keys l
  | JObject l => bool_decide (NoDup (map fst l)) && forallb (fun x => distinct_keys x.2) l
  | _ => true
  end.

Definition fits_limits (limits : JsonLimits) (j : Json) : Prop :=
  json_depth j <= max_depth limits /\ json_nodes j <= max_nodes limits /\
  all_strings (fun s => Zlen s <=? max_string limits) j = true /\ distinct_keys j = true.

(** ** Lemmas *)

Lemma json_nodes_pos j : 1 <= json_nodes j.
Proof.
  induction j as [ | | | | | |l IH|l IH] using Json_ind; simpl; try lia.
  - assert (0 <= fold_right Z.add 0 (map json_nodes l)); [|lia].
    induction IH; simpl; lia.
  - assert (0 <= fold_right Z.add 0 (map (fun x => 1 + json_nodes x.2) l)); [|lia].
    induction IH; simpl; lia.
Qed.

Lemma json_depth_nonneg j : 0 <= json_depth j.
Proof.
  destruct j as [ | | | | | |l|l]; simpl; try lia.
  - assert (0 <= fold_right Z.max 0 (map json_depth l)) by (induction l; simpl; lia). lia.
  - assert (0 <= fold_right Z.max 0 (map (fun x => json_depth x.2) l)) by (induction l; simpl; lia). lia.
Qed.

Section Limits.
Context (limits : JsonLimits).

Lemma accept_all_app e1 e2 s :
  accept_all limits (e1 ++ e2) s = accept_all limits e2 (accept_all limits e1 s).
Proof. apply fold_left_app. Qed.

Lemma accept_all_cons e events s :
  accept_all limits (e :: events) s = accept_all limits events (accept limits e s).
Proof. done. Qed.

Lemma accept_failed e s : limit_failure s <> no_failure -> accept limits e s = s.
Proof. intros H. unfold accept. by rewrite bool_decide_true. Qed.

Lemma accept_all_failed events s :
  limit_failure s <> no_failure -> accept_all limits events s = s.
Proof.
  revert s. induction events as [|e events IH]; intros s H; [done|].
  by rewrite accept_all_cons, accept_failed, IH.
Qed.

(** The callback after a whole value was parsed. *)
Definition bump (n : Z) (s : ParseLimits) : ParseLimits :=
  mkParseLimits no_failure (node_count s + n) (contexts s).

Definition value_fits (s : ParseLimits) (j : Json) : Prop :=
  Zlen (contexts s) + json_depth j <= max_depth limits /\
  node_count s + json_nodes j <= max_nodes limits /\
  all_strings (fun t => Zlen t <=? max_string limits) j = true /\ distinct_keys j = true.

(** Either a value fits, and the callback counts it, or it does not, and the callback
    reports a failure. *)
Definition decides (fits : Prop) (events : list ParseEvent) (s s' : ParseLimits) : Prop :=
  fits /\ accept_all limits events s = s' \/
  ~ fits /\ limit_failure (accept_all limits events s) <> no_failure.

Definition open_state (s : ParseLimits) : Prop :=
  limit_failure s = no_failure /\ Zlen (contexts s) <= max_depth limits.

Definition judges (j : Json) : Prop := forall s,
  open_state s -> decides (value_fits s j) (json_events j) s (bump (json_nodes j) s).

Lemma judges_scalar j :
  is_container j = false -> json_events j = [value_event j] -> json_nodes j = 1 ->
  json_depth j = 0 -> distinct_keys j = true -> judges j.
Proof.
  intros Hc He Hn Hd Hk s [Hf Hl]. unfold decides. rewrite He, Hn. unfold value_fits.
  rewrite Hd, Hn, Hk. unfold accept_all. simpl. unfold accept. rewrite Hf.
  destruct (Z.ltb_spec (max_nodes limits) (node_count s + 1)).
  { right. split; [lia|]. by destruct j. }
  destruct j; try done; simpl;
    try (left; split; [split_and!; (done || lia)|by destruct s; simpl in *; subst]).
  destruct (Z.leb_spec (Zlen value) (max_string limits)) as [Hle|Hgt].
  - left. split; [split_and!; (done || lia)|]. destruct (Z.ltb_spec (max_string limits) (Zlen value)); [lia|done].
  - right. split; [naive_solver|]. destruct (Z.ltb_spec (max_string limits) (Zlen value)); [done|lia].
Qed.

Definition elements_fit (s : ParseLimits) (l : list Json) : Prop :=
  Zlen (contexts s) + fold_right Z.max 0 (map json_depth l) <= max_depth limits /\
  node_count s + fold_right Z.add 0 (map json_nodes l) <= max_nodes limits /\
  forallb (all_strings (fun t => Zlen t <=? max_string limits)) l = true /\
  forallb distinct_keys l = true.

Lemma sum_nodes_nonneg l : 0 <= fold_right Z.add 0 (map json_nodes l).
Proof. induction l as [|j l IH]; simpl; [lia|]. pose proof (json_nodes_pos j). lia. Qed.

Lemma judges_elements l s :
  Forall judges l -> open_state s -> node_count s <= max_nodes limits ->
  decides (elements_fit s l) (concat (map json_events l)) s
    (bump (fold_right Z.add 0 (map json_nodes l)) s).
Proof.
  intros Hl. revert s. induction Hl as [|j l Hj _ IH]; intros s Hs Hn.
  - left. unfold elements_fit. simpl. destruct Hs as [Hf ?]. split; [split_and!; (done || lia)|].
    unfold accept_all, bump. simpl. destruct s; simpl in *; subst. by rewrite Z.add_0_r.
  - unfold decides. simpl. rewrite accept_all_app. unfold elements_fit. simpl.
    pose proof (sum_nodes_nonneg l). pose proof (json_depth_nonneg j).
    destruct (Hj s Hs) as [[Hfit ->]|[Hno Hfail]].
    + destruct Hfit as (Hd & Hc & Hst & Hk). rewrite Hst, Hk. simpl.
      destruct (IH (bump (json_nodes j) s)) as [[Hfit ->]|[Hno Hfail]].
      * split; [done|apply Hs].
      * simpl. lia.
      * left. destruct Hfit as (Hd' & Hc' & Hst' & Hk'). simpl in *.
        split; [split_and!; (done || lia)|]. unfold bump. simpl. f_equal. lia.
      * right. split; [|done]. intros (? & ? & ? & ?). apply Hno. unfold elements_fit. simpl.
        split_and!; (done || lia).
    + right. rewrite accept_all_failed by done. split; [|done].
      intros (? & ? & [? _]%andb_prop & [? _]%andb_prop). apply Hno. unfold value_fits.
      split_and!; (done || lia).
Qed.

Definition fields_fit (s : ParseLimits) (keys : list bytes) (l : list (bytes * Json)) : Prop :=
  Zlen (contexts s) + fold_right Z.max 0 (map (fun x => json_depth x.2) l) <= max_depth limits /\
  node_count s + fold_right Z.add 0 (map (fun x => 1 + json_nodes x.2) l) <= max_nodes limits /\
  forallb (fun x => (Zlen x.1 <=? max_string limits) &&
                    all_strings (fun t => Zlen t <=? max_string limits) x.2) l = true /\
  (NoDup (map fst l) /\ forall k, k ∈ map fst l -> k ∉ keys) /\
  forallb (fun x => distinct_keys x.2) l = true.

Lemma sum_fields_nonneg (l : list (bytes * Json)) :
  0 <= fold_right Z.add 0 (map (fun x => 1 + json_nodes x.2) l).
Proof. induction l as [|[k j] l IH]; simpl; [lia|]. pose proof (json_nodes_pos j). lia. Qed.

(** The keys of an object, latest first. *)
Definition in_fields (keys : list bytes) (n : Z) (s : ParseLimits) : ParseLimits :=
  mkParseLimits no_failure n (mkParseContext true keys :: tail (contexts s)).

Lemma accept_key k keys s outer :
  limit_failure s = no_failure -> contexts s = mkParseContext true keys :: outer ->
  let ok := node_count s + 1 <= max_nodes limits /\ Zlen k <= max_string limits /\ k ∉ keys in
  ok /\ accept limits (key_event k) s = in_fields (k :: keys) (node_count s + 1) s \/
  ~ ok /\ limit_failure (accept limits (key_event k) s) <> no_failure.
Proof.
  intros Hf Hc. simpl. unfold accept, in_fields. rewrite Hf, Hc. simpl.
  destruct (Z.ltb_spec (max_nodes limits) (node_count s + 1)); [right; split; [lia|done]|].
  destruct (Z.ltb_spec (max_string limits) (Zlen k)); [right; split; [lia|done]|].
  case_bool_decide; [right|left]; (split; [|done]); [tauto|auto].
Qed.

Lemma judges_fields (l : list (bytes * Json)) keys s :
  Forall (fun x => judges x.2) l -> open_state s -> node_count s <= max_nodes limits ->
  head (contexts s) = Some (mkParseContext true keys) ->
  decides (fields_fit s keys l)
    (concat (map (fun x => key_event x.1 :: json_events x.2) l)) s
    (in_fields (reverse (map fst l) ++ keys)
       (node_count s + fold_right Z.add 0 (map (fun x => 1 + json_nodes x.2) l)) s).
Proof.
  intros Hl. revert keys s. induction Hl as [|[k j] l Hj _ IH]; intros keys s Hs Hn Hh.
  - left. unfold fields_fit. simpl. destruct Hs as [Hf ?].
    split; [split_and!; first [done|lia|constructor|set_solver]|].
    unfold accept_all, in_fields. destruct s as [f n [|c cs]]; [done|]. simpl in *. simplify_eq.
    by rewrite Z.add_0_r.
  - destruct (contexts s) as [|c outer] eqn:Hc; [done|]. simpl in Hh. injection Hh as ->.
    unfold decides. simpl. rewrite accept_all_cons, accept_all_app. unfold fields_fit. simpl.
    pose proof (sum_fields_nonneg l). pose proof (json_depth_nonneg j). pose proof (json_nodes_pos j).
    destruct (accept_key k keys s outer) as [[(Hk1 & Hk2 & Hk3) ->]|[Hno Hfail]];
      [apply Hs|done| |].
    2: { right. rewrite !accept_all_failed by (by rewrite ?accept_all_failed).
         split; [|done]. intros (? & ? & [[Hz _]%andb_prop _]%andb_prop & [_ Hnk] & _). apply Hno.
         apply Z.leb_le in Hz. split_and!; [lia|lia|]. apply Hnk. by left. }
    set (s1 := in_fields (k :: keys) (node_count s + 1) s).
    assert (Hs1 : open_state s1) by (destruct Hs as [? Hlen]; split; [done|];
      unfold s1, in_fields; rewrite Hc in *; simpl; rewrite Zlen_cons in *; done).
    simpl in Hj. destruct (Hj s1 Hs1) as [[Hfit ->]|[Hno Hfail]].
    + destruct Hfit as (Hd & Hcn & Hst & Hdk). rewrite Hst, Hdk. simpl in *.
      assert (Hlen : Zlen (contexts s1) = Zlen (contexts s)) by (unfold s1, in_fields; rewrite Hc; done).
      destruct (IH (k :: keys) (bump (json_nodes j) s1)) as [[Hfit ->]|[Hno Hfail]].
      * split; [done|apply Hs1].
      * simpl. lia.
      * done.
      * left. destruct Hfit as (Hd' & Hc' & Hst' & [Hnd Hfresh] & Hdk'). simpl in *.
        rewrite Hc in *. simpl in *. split.
        -- split_and!; [lia|lia| | | |done].
           ++ rewrite andb_true_r. apply andb_true_intro. split; [by apply Z.leb_le|done].
           ++ constructor; [|done]. intros Hin. apply (Hfresh _ Hin). by left.
           ++ intros k' [->|Hin]%elem_of_cons; [done|]. specialize (Hfresh _ Hin). set_solver.
        -- unfold in_fields. simpl. rewrite reverse_cons, <- app_assoc. simpl. f_equal. lia.
      * right. split; [|done].
        intros (Hd' & Hc' & [_ Hst']%andb_prop & [Hnd Hfresh] & Hdk').
        apply Hno. unfold fields_fit. simpl in *. rewrite Hc in *. simpl in *.
        apply NoDup_cons in Hnd as [Hnk Hnd].
        split_and!; [lia|lia|done|done| |done]. intros k' Hin. specialize (Hfresh k').
        set_solver.
    + right. rewrite accept_all_failed by done. split; [|done].
      intros (Hd' & Hc' & [[_ ?]%andb_prop _]%andb_prop & _ & [? _]%andb_prop). apply Hno.
      unfold value_fits, s1, in_fields. rewrite Hc in *. simpl. rewrite Zlen_cons in *.
      split_and!; (done || lia).
Qed.

Lemma judges_all j : judges j.
Proof.
  induction j as [ | | | | | |l IH|l IH] using Json_ind; [by apply judges_scalar..| |].
  - intros s [Hf Hl]. unfold decides. simpl.
    pose proof (sum_nodes_nonneg l).
    assert (0 <= fold_right Z.max 0 (map json_depth l)) by (clear; induction l; simpl; lia).
    rewrite accept_all_cons, accept_all_app.
    unfold value_fits. simpl.
    assert (Hstart : accept limits array_start s =
      if max_depth limits <=? Zlen (contexts s) then fail_limit depth s
      else if max_nodes limits <? node_count s + 1
        then fail_limit nodes (mkParseLimits no_failure (node_count s + 1) (contexts s))
      else mkParseLimits no_failure (node_count s + 1) (mkParseContext false [] :: contexts s))
      by (unfold accept; by rewrite Hf).
    rewrite Hstart. clear Hstart.
    destruct (Z.leb_spec (max_depth limits) (Zlen (contexts s))).
    { right. rewrite !accept_all_failed by (rewrite ?accept_all_failed; done). split; [lia|done]. }
    destruct (Z.ltb_spec (max_nodes limits) (node_count s + 1)).
    { right. rewrite !accept_all_failed by (rewrite ?accept_all_failed; done). split; [lia|done]. }
    set (s1 := mkParseLimits _ _ _).
    destruct (judges_elements l s1 IH) as [[Hfit ->]|[Hno Hfail]].
    + split; [done|]. simpl. rewrite Zlen_cons. lia.
    + simpl. lia.
    + left. destruct Hfit as (Hd & Hc & Hst & Hk). simpl in *. rewrite Zlen_cons in Hd.
      split; [split_and!; (done || lia)|]. unfold accept_all, bump. simpl. unfold accept. simpl.
      f_equal. lia.
    + right. rewrite (accept_all_failed [array_end]) by done. split; [|done].
      intros (Hd & Hc & Hst & Hk). apply Hno. unfold elements_fit. simpl. rewrite Zlen_cons.
      split_and!; (done || lia).
  - intros s [Hf Hl]. unfold decides. simpl.
    pose proof (sum_fields_nonneg l).
    assert (0 <= fold_right Z.max 0 (map (fun x => json_depth x.2) l)) by (clear; induction l; simpl; lia).
    rewrite accept_all_cons, accept_all_app.
    unfold value_fits. simpl.
    assert (Hstart : accept limits object_start s =
      if max_depth limits <=? Zlen (contexts s) then fail_limit depth s
      else if max_nodes limits <? node_count s + 1
        then fail_limit nodes (mkParseLimits no_failure (node_count s + 1) (contexts s))
      else mkParseLimits no_failure (node_count s + 1) (mkParseContext true [] :: contexts s))
      by (unfold accept; by rewrite Hf).
    rewrite Hstart. clear Hstart.
    destruct (Z.leb_spec (max_depth limits) (Zlen (contexts s))).
    { right. rewrite !accept_all_failed by (rewrite ?accept_all_failed; done). split; [lia|done]. }
    destruct (Z.ltb_spec (max_nodes limits) (node_count s + 1)).
    { right. rewrite !accept_all_failed by (rewrite ?accept_all_failed; done). split; [lia|done]. }
    set (s1 := mkParseLimits _ _ _).
    destruct (judges_fields l [] s1 IH) as [[Hfit ->]|[Hno Hfail]].
    + split; [done|]. simpl. rewrite Zlen_cons. lia.
    + simpl. lia.
    + done.
    + left. destruct Hfit as (Hd & Hc & Hst & [Hnd _] & Hk). simpl in *. rewrite Zlen_cons in Hd.
      rewrite Hst, Hk, bool_decide_true by done.
      split; [split_and!; (done || lia)|]. unfold accept_all, bump, in_fields. simpl. unfold accept.
      simpl. f_equal. lia.
    + right. rewrite (accept_all_failed [object_end]) by done. split; [|done].
      intros (Hd & Hc & Hst & [Hnd Hk]%andb_prop). apply Hno. apply bool_decide_eq_true in Hnd.
      unfold fields_fit. simpl. rewrite Zlen_cons. split_and!; first [done|lia|set_solver].
Qed.

End Limits.

(** C38: the streaming limits are exact.  Fed with the events of a text, the callback ends
    without a failure if and only if the value nests no deeper than the limit, has no
    more nodes (values and keys) than the limit, no string or key longer than the limit
    and no object with a repeated key. *)
Theorem parse_limits_exact (limits : JsonLimits) (j : Json) :
  0 <= max_depth limits ->
  limit_failure (accept_all limits (json_events j) ParseLimits_new) = no_failure <->
  fits_limits limits j.
Proof.
  intros Hd. destruct (judges_all limits j ParseLimits_new) as [[Hfit ->]|[Hno Hfail]].
  - by split.
  - split; [|done]. intros _. apply Hfit.
  - split; [done|]. intros Hfit. exfalso. by apply Hno.
Qed.

Definition small_limits : JsonLimits := mkJsonLimits 2 6 3 nodes.

Lemma parse_limits_exact_witness :
  let j := JObject [(bs "a", JArray [JString (bs "xyz"); JNull]); (bs "b", JNull)] in
  limit_failure (accept_all (mkJsonLimits 2 7 3 nodes) (json_events j) ParseLimits_new) = no_failure /\
  ~ fits_limits small_limits j.
Proof.
  split; [by vm_compute|].
  intros H. apply (parse_limits_exact small_limits) in H; [|done]. by vm_compute in H.
Defined.

(** ** What the program relies on of the library *)

Definition int_in_range (j : Json) : bool :=
  match j with
  | JInt z => (- 2 ^ 63 <=? z) && (z <? 2 ^ 63)
  | JUnsigned z => (0 <=? z) && (z <? 2 ^ 64)
  | _ => true
  end.

Fixpoint numbers_in_range (j : Json) : bool :=
  match j with
  | JArray l => forallb numbers_in_range l
  | JObject l => forallb (fun x => numbers_in_range x.2) l
  | j => int_in_range j
  end.

(** A value that can be printed: its strings are UTF-8 and its numbers finite. *)
Definition printable (j : Json) : bool :=
  all_strings ipc_is_valid_utf8 j && all_floats is_finite j && numbers_in_range j.

(** The value a printed value is read as, before objects are sorted. *)
Fixpoint as_text (j : Json) : Json :=
  match j with
  | JInt z => if 0 <=? z then JUnsigned z else JInt z
  | JArray l => JArray (map as_text l)
  | JObject l => JObject (map (fun x => (x.1, as_text x.2)) l)
  | j => j
  end.

(** A UTF-8 byte order mark. *)
Definition has_bom (p : bytes) : bool :=
  bool_decide (take 3 p = map byte_of_Z [0xef; 0xbb; 0xbf]).

Class JsonLibraryLaws `{JsonLibrary} : Prop := {
  dump_printable j : printable j = true -> is_Some (json_dump j);
  dump_text j p : printable j = true -> json_dump j = Some p -> json_text p = Some (as_text j);
  dump_shape j p : json_dump j = Some p -> ipc_is_valid_utf8 p = true /\ p <> [] /\ has_bom p = false
}.

Lemma Forall_map_eq {A B} (f g : A -> B) l : Forall (fun x => f x = g x) l -> map f l = map g l.
Proof. induction 1; simpl; congruence. Qed.

Lemma as_parsed_text j : as_parsed (as_text j) = as_parsed j.
Proof.
  induction j as [ | |z| | | |l IH|l IH] using Json_ind; simpl; try done.
  - destruct (Z.leb_spec 0 z); simpl; [done|]. destruct (Z.leb_spec 0 z); [lia|done].
  - f_equal. rewrite map_map. by apply Forall_map_eq.
  - do 2 f_equal. rewrite map_map. apply Forall_map_eq. induction IH as [|[k j] l Hj _ IHl]; simpl in *.
    + constructor.
    + constructor; [simpl; by rewrite Hj|done].
Qed.

(** *** Sorting the fields of an object *)

Lemma emplace_field_perm {A} key (value : A) l :
  key ∉ map fst l -> emplace_field key value l ≡ₚ (key, value) :: l.
Proof.
  induction l as [|[k v] l IH]; simpl; [done|]. intros Hk.
  rewrite decide_False by set_solver. case_match; [done|].
  rewrite IH by set_solver. constructor.
Qed.

Lemma sort_fields_acc {A} (l acc : list (bytes * A)) :
  NoDup (map fst (acc ++ l)) ->
  fold_left (fun sorted '(k, v) => emplace_field k v sorted) l acc ≡ₚ acc ++ l.
Proof.
  revert acc. induction l as [|[k v] l IH]; intros acc; simpl; [by rewrite app_nil_r|]. intros Hnd.
  assert (Hk : k ∉ map fst acc).
  { rewrite map_app in Hnd. simpl in Hnd. apply NoDup_app in Hnd as (_ & Hd & _).
    intros Hin. apply (Hd _ Hin). by left. }
  pose proof (emplace_field_perm k v acc Hk) as Hp. rewrite IH.
  - rewrite Hp. simpl. apply Permutation_middle.
  - assert (Hq : emplace_field k v acc ++ l ≡ₚ acc ++ (k, v) :: l)
      by (rewrite Hp; apply Permutation_middle).
    by rewrite (Permutation_map fst Hq).
Qed.

Lemma sort_fields_perm {A} (l : list (bytes * A)) : NoDup (map fst l) -> sort_fields l ≡ₚ l.
Proof. apply (sort_fields_acc l []). Qed.

Lemma find_field_elem k v l : NoDup (map fst l) -> find_field k l = Some v <-> (k, v) ∈ l.
Proof.
  induction l as [|[k' v'] l IH]; simpl; [intros _; split; [done|by intros ?%elem_of_nil]|].
  intros [Hk Hnd]%NoDup_cons. rewrite elem_of_cons. case_decide as Hd.
  - subst. split; [intros [= ->]; by left|]. intros [[= ->]|Hin]; [done|]. exfalso. apply Hk.
    apply list_elem_of_In. apply list_elem_of_In in Hin. by apply (in_map fst) in Hin.
  - rewrite IH by done. naive_solver.
Qed.

Lemma find_field_perm k l l' :
  NoDup (map fst l) -> l ≡ₚ l' -> find_field k l = find_field k l'.
Proof.
  intros Hnd Hp. apply option_eq. intros v.
  rewrite !find_field_elem; [by rewrite Hp|by rewrite <- Hp|done].
Qed.

Lemma foldr_max_perm (l l' : list Z) : l ≡ₚ l' -> fold_right Z.max 0 l = fold_right Z.max 0 l'.
Proof. induction 1; simpl; lia. Qed.
Lemma foldr_add_perm (l l' : list Z) : l ≡ₚ l' -> fold_right Z.add 0 l = fold_right Z.add 0 l'.
Proof. induction 1; simpl; lia. Qed.
Lemma forallb_perm {A} (f : A -> bool) l l' : l ≡ₚ l' -> forallb f l = forallb f l'.
Proof.
  induction 1; simpl; [done|congruence| |congruence].
  by rewrite !andb_assoc, (andb_comm (f y)).
Qed.

(** *** Reading a text keeps what the limits count *)

Definition same_size (j j' : Json) : Prop :=
  json_depth j' = json_depth j /\ json_nodes j' = json_nodes j /\
  (forall p, all_strings p j' = all_strings p j) /\ (forall p, all_floats p j' = all_floats p j).

Lemma same_size_fields l l' :
  Forall2 (fun x y : bytes * Json => y.1 = x.1 /\ same_size x.2 y.2) l l' ->
  same_size (JObject l) (JObject l').
Proof.
  intros Hl. unfold same_size. simpl.
  induction Hl as [|[k j] [k' j'] l l' [Hk (H1 & H2 & H3 & H4)] _ (I1 & I2 & I3 & I4)]; simpl in *;
    [done|]. subst. split_and!; [lia|lia| |]; intros p.
  - by rewrite H3, I3.
  - by rewrite H4, I4.
Qed.

Lemma same_size_elements l l' :
  Forall2 same_size l l' -> same_size (JArray l) (JArray l').
Proof.
  intros Hl. unfold same_size. simpl.
  induction Hl as [|j j' l l' (H1 & H2 & H3 & H4) _ (I1 & I2 & I3 & I4)]; simpl in *;
    [done|]. split_and!; [lia|lia| |]; intros p.
  - by rewrite H3, I3.
  - by rewrite H4, I4.
Qed.

Lemma same_size_perm l l' : l ≡ₚ l' -> same_size (JObject l) (JObject l').
Proof.
  intros Hp. unfold same_size. simpl. split_and!.
  - by rewrite (foldr_max_perm _ _ (Permutation_map (fun x => json_depth x.2) Hp)).
  - by rewrite (foldr_add_perm _ _ (Permutation_map (fun x => 1 + json_nodes x.2) Hp)).
  - intros p. symmetry. by apply forallb_perm.
  - intros p. symmetry. by apply forallb_perm.
Qed.

Lemma same_size_trans j1 j2 j3 : same_size j1 j2 -> same_size j2 j3 -> same_size j1 j3.
Proof.
  intros (H1 & H2 & H3 & H4) (K1 & K2 & K3 & K4). split_and!; [congruence..| |]; intros p.
  - by rewrite K3.
  - by rewrite K4.
Qed.

Lemma as_text_size j : same_size j (as_text j) /\ distinct_keys (as_text j) = distinct_keys j.
Proof.
  induction j as [ | |z| | | |l IH|l IH] using Json_ind; simpl; try done.
  - by destruct (0 <=? z).
  - split.
    + apply same_size_elements. induction IH as [|j l [? _] _ IHl]; constructor; done.
    + induction IH as [|j l [_ Hd] _ IHl]; simpl; congruence.
  - split.
    + apply same_size_fields. induction IH as [|[k j] l [? _] _ IHl]; constructor; done.
    + rewrite map_map. simpl. f_equal. induction IH as [|[k j] l [_ Hd] _ IHl]; simpl in *; congruence.
Qed.

Lemma as_parsed_size j : distinct_keys j = true -> same_size j (as_parsed j).
Proof.
  induction j as [ | |z| | | |l IH|l IH] using Json_ind; simpl; try done.
  - by destruct (0 <=? z).
  - intros Hd. apply same_size_elements. induction IH as [|j l Hj _ IHl]; simpl in *; constructor.
    + apply Hj. by apply andb_prop in Hd as [? _].
    + apply IHl. by apply andb_prop in Hd as [_ ?].
  - intros [Hnd%bool_decide_eq_true Hd]%andb_prop. eapply same_size_trans.
    2: { apply same_size_perm. symmetry. apply sort_fields_perm. by rewrite map_map. }
    apply same_size_fields. clear Hnd.
    induction IH as [|[k j] l Hj _ IHl]; simpl in *; constructor.
    + split; [done|]. apply Hj. by apply andb_prop in Hd as [? _].
    + apply IHl. by apply andb_prop in Hd as [_ ?].
Qed.

(** ** Decidable equality, and a library that satisfies the laws *)

Definition leaf : Set := Z + bytes.

Definition float_tree (f : spec_float) : gen_tree leaf :=
  match f with
  | S754_zero s => GenNode 4 [GenLeaf (inl (Z.b2z s))]
  | S754_infinity s => GenNode 5 [GenLeaf (inl (Z.b2z s))]
  | S754_nan => GenNode 6 []
  | S754_finite s m e =>
      GenNode 7 [GenLeaf (inl (Z.b2z s)); GenLeaf (inl (Z.pos m)); GenLeaf (inl e)]
  end.

Fixpoint json_tree (j : Json) : gen_tree leaf :=
  match j with
  | JNull => GenNode 0 []
  | JBool b => GenNode 1 [GenLeaf (inl (Z.b2z b))]
  | JInt z => GenNode 2 [GenLeaf (inl z)]
  | JUnsigned z => GenNode 3 [GenLeaf (inl z)]
  | JFloat f => float_tree f
  | JString s => GenLeaf (inr s)
  | JArray l => GenNode 8 (map json_tree l)
  | JObject l => GenNode 9 (map (fun x => GenNode 10 [GenLeaf (inr x.1); json_tree x.2]) l)
  end.

Definition bit (z : Z) : bool := negb (z =? 0).

Fixpoint tree_json (t : gen_tree leaf) : Json :=
  match t with
  | GenNode 0 [] => JNull
  | GenNode 1 [GenLeaf (inl b)] => JBool (bit b)
  | GenNode 2 [GenLeaf (inl z)] => JInt z
  | GenNode 3 [GenLeaf (inl z)] => JUnsigned z
  | GenNode 4 [GenLeaf (inl s)] => JFloat (S754_zero (bit s))
  | GenNode 5 [GenLeaf (inl s)] => JFloat (S754_infinity (bit s))
  | GenNode 6 [] => JFloat S754_nan
  | GenNode 7 [GenLeaf (inl s); GenLeaf (inl (Z.pos m)); GenLeaf (inl e)] =>
      JFloat (S754_finite (bit s) m e)
  | GenLeaf (inr s) => JString s
  | GenNode 8 l => JArray (map tree_json l)
  | GenNode 9 l =>
      JObject (map (fun t =>
        match t with
        | GenNode 10 [GenLeaf (inr k); v] => (k, tree_json v)
        | _ => ([], JNull)
        end) l)
  | _ => JNull
  end.

Lemma tree_json_tree j : tree_json (json_tree j) = j.
Proof.
  induction j as [ |[]| | |[[]|[]| |[]]| |l IH|l IH] using Json_ind; simpl; try done; f_equal;
    rewrite map_map.
  - induction IH; simpl; congruence.
  - induction IH as [|[k j] l Hj _ IHl]; simpl in *; congruence.
Qed.

#[export] Instance Json_eq_dec : EqDecision Json.
Proof.
  intros x y. destruct (decide (json_tree x = json_tree y)) as [H|H]; [left|right].
  - rewrite <- (tree_json_tree x), <- (tree_json_tree y). congruence.
  - congruence.
Defined.

#[export] Instance Json_countable : Countable Json :=
  inj_countable' json_tree tree_json tree_json_tree.

(** Numbers written with the digits 0 and 1. *)
Fixpoint positive_text (p : positive) : bytes :=
  match p with
  | xH => bs "."
  | xO p => byte_of_Z 48 :: positive_text p
  | xI p => byte_of_Z 49 :: positive_text p
  end.

Fixpoint text_positive (l : bytes) : option positive :=
  match l with
  | [] => None
  | b :: l =>
      if decide (b = byte_of_Z 48) then xO <$> text_positive l
      else if decide (b = byte_of_Z 49) then xI <$> text_positive l
      else Some xH
  end.

Lemma text_positive_text p : text_positive (positive_text p) = Some p.
Proof. induction p as [p IH|p IH|]; simpl; [by rewrite IH..|done]. Qed.

Definition sample_json : JsonLibrary := {|
  json_text p := n ← text_positive p; as_text <$> decode n;
  json_dump j := Some (positive_text (encode j))
|}.

Lemma sample_json_laws : @JsonLibraryLaws sample_json.
Proof.
  split.
  - intros j _. by eexists.
  - intros j p _ [= <-]. simpl. rewrite text_positive_text. simpl. by rewrite decode_encode.
  - intros j p [= <-]. generalize (encode j). intros n. split_and!.
    + unfold ipc_is_valid_utf8. induction n; simpl; try rewrite IHn; done.
    + by destruct n.
    + unfold has_bom. apply bool_decide_eq_false. destruct n as [[]|[]|]; done.
Qed.
