(* ===== verification/IpcProtocol.v ===== *)
(** * The IPC protocol and its dispatcher

    src/ipc/protocol.cpp: requests and responses as strict, bounded JSON documents, and
    src/ipc/dispatcher.cpp: the table of methods.  Exceptions other than those of the
    JSON library (memory exhaustion) are not modelled. *)
From Stdlib Require Import SpecFloat.
From S2P Require Import Prelude Common Ids Utf8 Json IpcFrame.

Definition kProtocolVersion : Z := 1.
Definition kMaxMethodBytes : Z := 128.
Definition kMaxErrorMessageBytes : Z := 4096.
Definition kMaxJsonDepth : Z := 64.
Definition kMaxJsonNodes : Z := 65536.
Definition kMaxJsonStringBytes : Z := 64 * 1024.

Definition ipc_limits : JsonLimits := mkJsonLimits kMaxJsonDepth kMaxJsonNodes kMaxJsonStringBytes nodes.

(** ** Messages *)

Record Request : Set := mkRequest {
  version : Z;
  request_id : Id;
  method : bytes;
  params : Json
}.

(** [Response]: its payload is a result or an error. *)
Record Response : Set := mkResponse { response_id : Id; payload : Json + Error }.

(** [Response::success]. *)
Definition Response_success (id : Id) (result : Json) : Response := mkResponse id (inl result).

(** [Response::failure]. *)
Definition Response_failure (id : Id) (error : Error) : Response :=
  let error :=
    if decide (code error = ok) then mkError internal_error (bs "request failed")
    else if (kMaxErrorMessageBytes <? Zlen (message error))
            || negb (ipc_is_valid_utf8 (message error)) then
      mkError (code error) (bs "request failed")
    else error in
  mkResponse id (inr error).

(** ** Validation *)

Definition is_request_field (field : bytes) : bool :=
  bool_decide (field = bs "version") || bool_decide (field = bs "request_id")
  || bool_decide (field = bs "method") || bool_decide (field = bs "params").

Definition is_response_base_field (field : bytes) : bool :=
  bool_decide (field = bs "version") || bool_decide (field = bs "request_id")
  || bool_decide (field = bs "ok").

(** [validate_version]. *)
Definition validate_version (value : Json) : Result unit :=
  match value with
  | JUnsigned z | JInt z =>
      if z =? kProtocolVersion then success
      else failure unsupported_version "unsupported IPC protocol version"
  | _ => failure invalid_argument "IPC version must be an integer"
  end.

(** [validate_request_id]. *)
Definition validate_request_id (id : Id) : Result unit :=
  if negb (bool_decide (kind id = request)) then
    failure invalid_argument "request_id must be a canonical request ID"
  else success.

Definition nesting_error : Error :=
  mkError resource_exhausted (bs "JSON nesting exceeds the IPC limit").
Definition node_count_error : Error :=
  mkError resource_exhausted (bs "JSON node count exceeds the IPC limit").
Definition string_error : Error :=
  mkError resource_exhausted (bs "JSON string exceeds the IPC limit").

(** The checks of a string and of a key. *)
Definition validate_string (text : bytes) (message : string) : Result unit :=
  if kMaxJsonStringBytes <? Zlen text then Err string_error
  else if negb (ipc_is_valid_utf8 text) then failure invalid_argument message
  else success.

(** The loops of [validate_json_tree_impl]; the reference to the node counter is the
    state.  A parsed document has no discarded or binary values. *)
Fixpoint validate_elements {A} (validate : A -> Action Z unit) (l : list A) : Action Z unit :=
  match l with
  | [] => mret tt
  | x :: l => _ ← validate x; validate_elements validate l
  end.

Fixpoint validate_json_tree_impl (value : Json) (depth : Z) : Action Z unit := fun nodes =>
  if is_container value && (kMaxJsonDepth <=? depth) then (Err nesting_error, nodes)
  else
    let nodes := nodes + 1 in
    if kMaxJsonNodes <? nodes then (Err node_count_error, nodes)
    else
      match value with
      | JString text => (validate_string text "IPC payload contains invalid UTF-8", nodes)
      | JFloat f =>
          if negb (is_finite f) then
            (failure invalid_argument "IPC payload contains a non-finite number", nodes)
          else (success, nodes)
      | JArray l =>
          validate_elements (fun element => validate_json_tree_impl element (depth + 1)) l nodes
      | JObject l =>
          validate_elements (fun item nodes =>
            let nodes := nodes + 1 in
            if kMaxJsonNodes <? nodes then (Err node_count_error, nodes)
            else
              match validate_string item.1 "IPC payload contains an invalid UTF-8 object key" with
              | Err e => (Err e, nodes)
              | Ok _ => validate_json_tree_impl item.2 (depth + 1) nodes
              end) l nodes
      | _ => (success, nodes)
      end.

(** [validate_json_tree]. *)
Definition validate_json_tree (value : Json) : Result unit := (validate_json_tree_impl value 0 0).1.

(** [parse_limit_error]. *)
Definition parse_limit_error (f : ParseLimitFailure) : Error :=
  match f with
  | duplicate_key => mkError invalid_argument (bs "IPC JSON contains a duplicate object key")
  | depth => nesting_error
  | nodes => node_count_error
  | string_length => string_error
  | no_failure => mkError invalid_argument (bs "IPC payload is not valid UTF-8 JSON")
  end.

(** [invalid_json_error]. *)
Definition invalid_json_error {A} : Result A :=
  failure invalid_argument "IPC payload is not valid UTF-8 JSON".

(** [validate_method_name]; [beginning] is [beginning_of_segment]. *)
Fixpoint method_loop (method : bytes) (beginning : bool) : Result unit :=
  match method with
  | [] => if beginning then failure invalid_argument "IPC method contains an empty segment" else success
  | c :: method =>
      let z := Z_of_byte c in
      if z =? 46 then
        if beginning then failure invalid_argument "IPC method contains an empty segment"
        else method_loop method true
      else
        let lowercase := (97 <=? z) && (z <=? 122) in
        let digit := (48 <=? z) && (z <=? 57) in
        if beginning then
          if negb lowercase then
            failure invalid_argument "IPC method segments must begin with a lowercase letter"
          else method_loop method false
        else if negb lowercase && negb digit && negb (z =? 95) && negb (z =? 45) then
          failure invalid_argument "IPC method contains an invalid character"
        else method_loop method false
  end.

Definition validate_method_name (method : bytes) : Result unit :=
  if decide (method = []) then failure invalid_argument "IPC method must not be empty"
  else if kMaxMethodBytes <? Zlen method then
    failure invalid_argument "IPC method exceeds the length limit"
  else method_loop method true.

(** ** Parsing and printing *)

Section Protocol.
Context `{JsonLibrary}.

(** [parse_document]. *)
Definition parse_document (payload : bytes) (max_message_size : Z) : Result Json :=
  if Ipc.effective_limit max_message_size <? Zlen payload then
    failure frame_too_large "IPC message exceeds the configured size limit"
  else if decide (payload = []) then
    failure invalid_argument "IPC JSON payload must not be empty"
  else if has_bom payload then
    failure invalid_argument "IPC JSON must not contain a UTF-8 BOM"
  else if negb (ipc_is_valid_utf8 payload) then invalid_json_error
  else
    match json_text payload with
    | None => invalid_json_error
    | Some text =>
        let limits := accept_all ipc_limits (json_events text) ParseLimits_new in
        if bool_decide (limit_failure limits <> no_failure) then
          Err (parse_limit_error (limit_failure limits))
        else
          let document := as_parsed text in
          _ ← validate_json_tree document; Ok document
    end.

(** [dump_document]. *)
Definition dump_document (document : Json) (max_message_size : Z) : Result bytes :=
  match json_dump document with
  | None => invalid_json_error
  | Some payload =>
      if Ipc.effective_limit max_message_size <? Zlen payload then
        failure frame_too_large "IPC message exceeds the configured size limit"
      else Ok payload
  end.

(** The [request_id] field of both messages. *)
Definition read_request_id (value : Json) : Result Id :=
  match value with
  | JString text =>
      match Id_parse_kind text request with
      | Ok id => Ok id
      | Err _ => failure invalid_argument "request_id must be a canonical request ID"
      end
  | _ => failure invalid_argument "request_id must be a string"
  end.

(** [parse_request]. *)
Definition parse_request (payload : bytes) (max_message_size : Z) : Result Request :=
  document ← parse_document payload max_message_size;
  if negb (is_object document) then failure invalid_argument "IPC request must be a JSON object"
  else if negb (forallb is_request_field (json_keys document)) then
    failure invalid_argument "IPC request contains an unknown top-level field"
  else
    match json_find (bs "version") document, json_find (bs "request_id") document,
          json_find (bs "method") document, json_find (bs "params") document with
    | Some version, Some request_id, Some method, Some params =>
        _ ← validate_version version;
        id ← read_request_id request_id;
        match method with
        | JString method =>
            _ ← validate_method_name method;
            if negb (is_object params) then
              failure invalid_argument "IPC params must be a JSON object"
            else Ok (mkRequest kProtocolVersion id method params)
        | _ => failure invalid_argument "IPC method must be a string"
        end
    | _, _, _, _ =>
        failure invalid_argument "IPC request is missing a required top-level field"
    end.

(** The document [serialize_request] prints. *)
Definition request_document (r : Request) : Json :=
  JObject [(bs "version", JUnsigned (version r)); (bs "request_id", JString (str (request_id r)));
           (bs "method", JString (method r)); (bs "params", params r)].

(** [serialize_request]. *)
Definition serialize_request (r : Request) (max_message_size : Z) : Result bytes :=
  if negb (version r =? kProtocolVersion) then
    failure unsupported_version "unsupported IPC protocol version"
  else
    _ ← validate_request_id (request_id r);
    _ ← validate_method_name (method r);
    if negb (is_object (params r)) then failure invalid_argument "IPC params must be a JSON object"
    else
      _ ← validate_json_tree (params r);
      dump_document (request_document r) max_message_size.

(** The [error] object of a response. *)
Definition read_error (id : Id) (value : option Json) : Result Response :=
  match value with
  | Some (JObject fields) =>
      if negb (forallb (fun k => bool_decide (k = bs "code") || bool_decide (k = bs "message"))
                 (map fst fields)) then
        failure invalid_argument "IPC error contains an unknown field"
      else
        match find_field (bs "code") fields, find_field (bs "message") fields with
        | Some (JString code), Some (JString message) =>
            match error_code_from_string code with
            | Some parsed_code =>
                if decide (parsed_code = ok) then
                  failure invalid_argument "IPC error code is invalid"
                else if kMaxErrorMessageBytes <? Zlen message then
                  failure invalid_argument "IPC error message exceeds the length limit"
                else Ok (Response_failure id (mkError parsed_code message))
            | None => failure invalid_argument "IPC error code is invalid"
            end
        | _, _ => failure invalid_argument "IPC error code and message must be strings"
        end
  | _ => failure invalid_argument "failed IPC response must contain an error object"
  end.

(** [parse_response]. *)
Definition parse_response (payload : bytes) (max_message_size : Z) : Result Response :=
  document ← parse_document payload max_message_size;
  if negb (is_object document) then failure invalid_argument "IPC response must be a JSON object"
  else
    match json_find (bs "version") document, json_find (bs "request_id") document,
          json_find (bs "ok") document with
    | Some version, Some request_id, Some succeeded =>
        _ ← validate_version version;
        id ← read_request_id request_id;
        match succeeded with
        | JBool succeeded =>
            if negb (forallb (fun k => is_response_base_field k
                 || bool_decide (k = if succeeded then bs "result" else bs "error"))
                 (json_keys document)) then
              failure invalid_argument "IPC response contains an unknown top-level field"
            else if succeeded then
              match json_find (bs "result") document with
              | None => failure invalid_argument "successful IPC response is missing result"
              | Some result =>
                  if negb (is_object result) then
                    failure invalid_argument "successful IPC response result must be an object"
                  else Ok (Response_success id result)
              end
            else read_error id (json_find (bs "error") document)
        | _ => failure invalid_argument "IPC response ok must be a boolean"
        end
    | _, _, _ =>
        failure invalid_argument "IPC response is missing a required top-level field"
    end.

(** The document [serialize_response] prints. *)
Definition response_document (r : Response) : Json :=
  JObject ([(bs "version", JUnsigned kProtocolVersion);
            (bs "request_id", JString (str (response_id r)));
            (bs "ok", JBool (match payload r with inl _ => true | inr _ => false end))] ++
           match payload r with
           | inl result => [(bs "result", result)]
           | inr error =>
               [(bs "error", JObject [(bs "code", JString (error_code_to_string (code error)));
                                      (bs "message", JString (message error))])]
           end).

(** [serialize_response]; [const Json validated_document = document] sorts the fields. *)
Definition serialize_response (r : Response) (max_message_size : Z) : Result bytes :=
  _ ← validate_request_id (response_id r);
  _ ← match payload r with
      | inl result =>
          if negb (is_object result) then
            failure invalid_argument "successful IPC response result must be an object"
          else validate_json_tree result
      | inr error =>
          if decide (code error = ok) then
            failure internal_error "IPC response has an invalid error payload"
          else success
      end;
  _ ← validate_json_tree (match response_document r with
                          | JObject fields => JObject (sort_fields fields)
                          | document => document
                          end);
  dump_document (response_document r) max_message_size.

End Protocol.

(** ** The dispatcher *)

(** What a handler does when it is called: it returns, or it throws. *)
Inductive HandlerResult : Set :=
| Returned (result : Result Json)
| HandlerThrew.

Section Dispatcher.
(** The handlers act on the daemon's state [S]. *)
Context {S : Type}.

(** A handler in execution: it has ended, or it goes on with an action on the shared state.
    Handlers run on several threads and without a lock of the dispatcher, so the actions of
    one come in between those of another; what a handler does under a lock of its own is one
    action. *)
#[warnings="-register-all"]
Inductive Execution : Type :=
| Ended (result : HandlerResult)
| Acting (action : S -> Execution * S).

Definition MethodHandler : Type := Request -> Execution.

(** A handler that is one action. *)
Definition atomically (handler : S -> HandlerResult * S) : Execution :=
  Acting (fun s => let (result, s) := handler s in (Ended result, s)).

(** An execution with no other in between. *)
Fixpoint run_alone (e : Execution) (s : S) : HandlerResult * S :=
  match e with
  | Ended result => (result, s)
  | Acting action => let (e, s) := action s in run_alone e s
  end.

(** [Dispatcher]: [handlers_]; [size_] follows it. *)
Record Dispatcher : Type := mkDispatcher { handlers_ : gmap bytes MethodHandler; size_ : Z }.

Definition Dispatcher_new : Dispatcher := mkDispatcher ∅ 0.

(** [register_handler]; an empty [std::function] is [None]. *)
Definition register_handler (method : bytes) (handler : option MethodHandler) :
    Action Dispatcher unit := fun d =>
  match validate_method_name method with
  | Err e => (Err e, d)
  | Ok _ =>
      match handler with
      | None => (failure invalid_argument "IPC method handler must not be empty", d)
      | Some handler =>
          match handlers_ d !! method with
          | Some _ => (failure already_exists "IPC method is already registered", d)
          | None =>
              let handlers := <[method := handler]> (handlers_ d) in
              (success, mkDispatcher handlers (Z.of_nat (size handlers)))
          end
      end
  end.

(** [unregister_handler]. *)
Definition unregister_handler (method : bytes) : Action Dispatcher unit := fun d =>
  match validate_method_name method with
  | Err e => (Err e, d)
  | Ok _ =>
      match handlers_ d !! method with
      | None => (failure not_found "IPC method is not registered", d)
      | Some _ =>
          let handlers := delete method (handlers_ d) in
          (success, mkDispatcher handlers (Z.of_nat (size handlers)))
      end
  end.

(** [dispatch] up to the call of the handler: the response to a request that reaches none,
    or the handler's execution. *)
Definition begin_dispatch (d : Dispatcher) (r : Request) : Response + Execution :=
  if negb (version r =? kProtocolVersion) then
    inl (Response_failure (request_id r)
           (mkError unsupported_version (bs "unsupported IPC protocol version")))
  else
    match validate_method_name (method r) with
    | Err e => inl (Response_failure (request_id r) e)
    | Ok _ =>
        if negb (is_object (params r)) then
          inl (Response_failure (request_id r)
                 (mkError invalid_argument (bs "IPC params must be a JSON object")))
        else
          match handlers_ d !! method r with
          | None =>
              inl (Response_failure (request_id r) (mkError not_found (bs "unknown IPC method")))
          | Some handler => inr (handler r)
          end
    end.

(** [dispatch] from the handler's result on. *)
Definition end_dispatch (r : Request) (result : HandlerResult) : Response :=
  match result with
  | HandlerThrew =>
      Response_failure (request_id r) (mkError internal_error (bs "IPC method handler failed"))
  | Returned (Err e) => Response_failure (request_id r) e
  | Returned (Ok result) =>
      if negb (is_object result) then
        Response_failure (request_id r)
          (mkError internal_error (bs "IPC method returned an invalid result"))
      else Response_success (request_id r) result
  end.

(** [dispatch], alone. *)
Definition dispatch (d : Dispatcher) (r : Request) (s : S) : Response * S :=
  match begin_dispatch d r with
  | inl response => (response, s)
  | inr e => let (result, s) := run_alone e s in (end_dispatch r result, s)
  end.
End Dispatcher.

(** ** What the validation accepts *)

Definition string_ok (text : bytes) : bool :=
  (Zlen text <=? kMaxJsonStringBytes) && ipc_is_valid_utf8 text.

(** The reference: a tree within the limits, of valid UTF-8 and finite numbers. *)
Definition tree_ok (depth nodes : Z) (j : Json) : Prop :=
  depth + json_depth j <= kMaxJsonDepth /\ nodes + json_nodes j <= kMaxJsonNodes /\
  all_strings string_ok j = true /\ all_floats is_finite j = true.

Lemma validate_string_ok text message :
  (string_ok text = true /\ validate_string text message = success) \/
  (string_ok text = false /\ exists e, validate_string text message = Err e).
Proof.
  unfold validate_string, string_ok.
  destruct (Z.ltb_spec kMaxJsonStringBytes (Zlen text)); destruct (Z.leb_spec (Zlen text) kMaxJsonStringBytes);
    try lia; [by right; eauto|]. simpl.
  destruct (ipc_is_valid_utf8 text); [by left|right]. by split; [|eexists].
Qed.

(** Either a tree is within the limits and is counted, or it is refused. *)
Definition settles (fits : Prop) (run : Result unit * Z) (total : Z) : Prop :=
  fits /\ run = (success, total) \/ ~ fits /\ is_ok run.1 = false.

Definition validates (j : Json) : Prop := forall depth nodes,
  0 <= depth <= kMaxJsonDepth -> nodes <= kMaxJsonNodes ->
  settles (tree_ok depth nodes j) (validate_json_tree_impl j depth nodes) (nodes + json_nodes j).

Lemma validates_elements l depth nodes :
  Forall validates l -> 0 <= depth <= kMaxJsonDepth -> nodes <= kMaxJsonNodes ->
  settles (depth + fold_right Z.max 0 (map json_depth l) <= kMaxJsonDepth /\
           nodes + fold_right Z.add 0 (map json_nodes l) <= kMaxJsonNodes /\
           forallb (all_strings string_ok) l = true /\ forallb (all_floats is_finite) l = true)
    (validate_elements (fun element => validate_json_tree_impl element depth) l nodes)
    (nodes + fold_right Z.add 0 (map json_nodes l)).
Proof.
  intros Hl Hd. revert nodes. induction Hl as [|j l Hj _ IH]; intros nodes Hn; simpl.
  - left. split; [split_and!; (done || lia)|]. by rewrite Z.add_0_r.
  - pose proof (sum_nodes_nonneg l) as Hs. pose proof (json_depth_nonneg j) as Hdj.
    unfold mbind, ST_bind. destruct (Hj depth nodes Hd Hn) as [[(H1 & H2 & H3 & H4) ->]|[Hno Hf]].
    + simpl. destruct (IH (nodes + json_nodes j)) as [[(I1 & I2 & I3 & I4) ->]|[Hno Hf]].
      * lia.
      * left. rewrite H3, H4, I3, I4. split; [split_and!; (done || lia)|]. f_equal. lia.
      * right. split; [|done]. rewrite H3, H4. simpl. intros (? & ? & ? & ?). apply Hno.
        split_and!; (done || lia).
    + right. split.
      * intros (? & ? & [? _]%andb_prop & [? _]%andb_prop). apply Hno.
        unfold tree_ok. split_and!; (done || lia).
      * destruct (validate_json_tree_impl j depth nodes) as [[]]; done.
Qed.

Definition validate_field (depth : Z) (item : bytes * Json) : Action Z unit := fun nodes =>
  let nodes := nodes + 1 in
  if kMaxJsonNodes <? nodes then (Err node_count_error, nodes)
  else
    match validate_string item.1 "IPC payload contains an invalid UTF-8 object key" with
    | Err e => (Err e, nodes)
    | Ok _ => validate_json_tree_impl item.2 depth nodes
    end.

Lemma validates_field k j depth nodes :
  validates j -> 0 <= depth <= kMaxJsonDepth -> nodes <= kMaxJsonNodes ->
  settles (depth + json_depth j <= kMaxJsonDepth /\ nodes + (1 + json_nodes j) <= kMaxJsonNodes /\
           string_ok k && all_strings string_ok j = true /\ all_floats is_finite j = true)
    (validate_field depth (k, j) nodes) (nodes + (1 + json_nodes j)).
Proof.
  intros Hj Hd Hn. unfold validate_field. pose proof (json_nodes_pos j).
  destruct (Z.ltb_spec kMaxJsonNodes (nodes + 1)); [right; split; [lia|done]|]. simpl fst.
  destruct (validate_string_ok k "IPC payload contains an invalid UTF-8 object key")
    as [[Hk ->]|[Hk [e ->]]]; rewrite Hk; [|right; split; [simpl; naive_solver|done]].
  simpl. destruct (Hj depth (nodes + 1)) as [[(H1 & H2 & H3 & H4) ->]|[Hno Hf]]; [done|lia| |].
  - left. split; [split_and!; (done || lia)|]. f_equal. lia.
  - right. split; [|done]. intros (? & ? & ? & ?). apply Hno. unfold tree_ok.
    split_and!; (done || lia).
Qed.

Lemma validates_fields (l : list (bytes * Json)) depth nodes :
  Forall (fun x => validates x.2) l -> 0 <= depth <= kMaxJsonDepth -> nodes <= kMaxJsonNodes ->
  settles (depth + fold_right Z.max 0 (map (fun x => json_depth x.2) l) <= kMaxJsonDepth /\
           nodes + fold_right Z.add 0 (map (fun x => 1 + json_nodes x.2) l) <= kMaxJsonNodes /\
           forallb (fun x => string_ok x.1 && all_strings string_ok x.2) l = true /\
           forallb (fun x => all_floats is_finite x.2) l = true)
    (validate_elements (validate_field depth) l nodes)
    (nodes + fold_right Z.add 0 (map (fun x => 1 + json_nodes x.2) l)).
Proof.
  intros Hl Hd. revert nodes. induction Hl as [|[k j] l Hj _ IH]; intros nodes Hn; cbn [validate_elements].
  - left. simpl. split; [split_and!; (done || lia)|]. by rewrite Z.add_0_r.
  - pose proof (sum_fields_nonneg l) as Hs. pose proof (json_depth_nonneg j) as Hdj.
    unfold mbind, ST_bind.
    destruct (validates_field k j depth nodes Hj Hd Hn) as [[(H1 & H2 & H3 & H4) ->]|[Hno Hf]].
    + simpl. destruct (IH (nodes + (1 + json_nodes j))) as [[(I1 & I2 & I3 & I4) ->]|[Hno Hf]].
      * lia.
      * left. rewrite H3, H4, I3, I4. split; [split_and!; (done || lia)|]. f_equal. lia.
      * right. split; [|done]. rewrite H3, H4. simpl. intros (? & ? & ? & ?). apply Hno.
        split_and!; (done || lia).
    + right. simpl. split.
      * intros (? & ? & [? _]%andb_prop & [? _]%andb_prop). apply Hno. split_and!; (done || lia).
      * destruct (validate_field depth (k, j) nodes) as [[]]; done.
Qed.

Lemma validates_all j : validates j.
Proof.
  induction j as [ | | | |f|text|l IH|l IH] using Json_ind; intros depth nodes Hd Hn;
    unfold tree_ok; cbn -[kMaxJsonDepth kMaxJsonNodes validate_elements Z.add].
  all: try (destruct (Z.ltb_spec kMaxJsonNodes (nodes + 1));
            [right; split; [lia|done]|left; split; [split_and!; (done || lia)|done]]).
  - destruct (Z.ltb_spec kMaxJsonNodes (nodes + 1)); [right; split; [lia|done]|].
    destruct (is_finite f); [left|right]; simpl; (split; [|done]); [split_and!; (done || lia)|].
    naive_solver.
  - destruct (Z.ltb_spec kMaxJsonNodes (nodes + 1)); [right; split; [lia|done]|].
    destruct (validate_string_ok text "IPC payload contains invalid UTF-8") as [[-> ->]|[-> [e ->]]];
      [left|right]; simpl; (split; [|done]); [split_and!; (done || lia)|naive_solver].
  - assert (0 <= fold_right Z.max 0 (map json_depth l)) by (clear; induction l; simpl; lia).
    pose proof (sum_nodes_nonneg l).
    destruct (Z.leb_spec kMaxJsonDepth depth); [right; split; [lia|done]|].
    destruct (Z.ltb_spec kMaxJsonNodes (nodes + 1)); [right; split; [lia|done]|].
    destruct (validates_elements l (depth + 1) (nodes + 1) IH) as [[(Q1 & Q2 & Q3 & Q4) ->]|[Hno Hf]];
      [lia|lia| |].
    + left. split; [split_and!; (done || lia)|]. f_equal. lia.
    + right. split; [|done]. intros (? & ? & ? & ?). apply Hno. split_and!; (done || lia).
  - assert (0 <= fold_right Z.max 0 (map (fun x => json_depth x.2) l)) by (clear; induction l; simpl; lia).
    pose proof (sum_fields_nonneg l).
    destruct (Z.leb_spec kMaxJsonDepth depth); [right; split; [lia|done]|].
    destruct (Z.ltb_spec kMaxJsonNodes (nodes + 1)); [right; split; [lia|done]|].
    destruct (validates_fields l (depth + 1) (nodes + 1) IH) as [[(Q1 & Q2 & Q3 & Q4) Hr]|[Hno Hf]];
      [lia|lia| |].
    + left. split; [split_and!; (done || lia)|]. etransitivity; [apply Hr|]. f_equal. lia.
    + right. split; [|done]. intros (? & ? & ? & ?). apply Hno. split_and!; (done || lia).
Qed.

Lemma validate_json_tree_iff j : validate_json_tree j = success <-> tree_ok 0 0 j.
Proof.
  unfold validate_json_tree. destruct (validates_all j 0 0) as [[Hfit ->]|[Hno Hf]];
    [done|done|done|].
  split; [|done]. intros Heq. by rewrite Heq in Hf.
Qed.

Lemma tree_ok_dec j : {tree_ok 0 0 j} + {~ tree_ok 0 0 j}.
Proof.
  destruct (validate_json_tree j) as [[]|e] eqn:Hv; [left|right]; rewrite <- validate_json_tree_iff, Hv; done.
Qed.

Lemma tree_ok_size j j' : same_size j j' -> tree_ok 0 0 j' <-> tree_ok 0 0 j.
Proof. intros (H1 & H2 & H3 & H4). unfold tree_ok. by rewrite H1, H2, H3, H4. Qed.

(** ** Texts of the protocol are ASCII *)

Definition is_ascii (l : bytes) : bool := forallb (fun b => Z_of_byte b <=? 0x7f) l.

Lemma ipc_utf8_ascii l : is_ascii l = true -> ipc_is_valid_utf8 l = true.
Proof.
  unfold ipc_is_valid_utf8. induction l as [|b l IH]; [done|]. simpl.
  intros [Hb Hl]%andb_prop. rewrite Hb. by apply IH.
Qed.

Lemma string_ok_ascii l : is_ascii l = true -> Zlen l <= 128 -> string_ok l = true.
Proof.
  intros Ha Hl. unfold string_ok. rewrite ipc_utf8_ascii by done. rewrite andb_true_r.
  apply Z.leb_le. unfold kMaxJsonStringBytes. lia.
Qed.

Lemma canonical_ascii k text : canonical k text -> is_ascii text = true.
Proof.
  intros (digits & -> & _ & Hd). unfold is_ascii. rewrite forallb_app.
  apply andb_true_intro. split; [by destruct k|]. apply forallb_forall. intros b Hin.
  apply (proj1 (forallb_forall _ _)) with (x := b) in Hd; [|done]. unfold is_lowercase_hex in Hd. lia.
Qed.

Lemma method_loop_ascii l beginning : method_loop l beginning = success -> is_ascii l = true.
Proof.
  revert beginning. induction l as [|c l IH]; intros beginning; simpl; [done|].
  pose proof (Z_of_byte_range c). intros Hm. apply andb_true_intro.
  destruct (Z.eqb_spec (Z_of_byte c) 46).
  { destruct beginning; [done|]. split; [lia|eauto]. }
  destruct beginning; (case_match eqn:Hc; [done|]); (split; [lia|eauto]).
Qed.

Lemma method_string_ok m : validate_method_name m = success -> string_ok m = true.
Proof.
  unfold validate_method_name. case_decide; [done|].
  destruct (Z.ltb_spec kMaxMethodBytes (Zlen m)); [done|]. intros Hm%method_loop_ascii.
  by apply string_ok_ascii.
Qed.

Lemma id_string_ok k text : canonical k text -> string_ok text = true.
Proof.
  intros Hc. apply string_ok_ascii; [by eapply canonical_ascii|].
  apply canonical_length in Hc. lia.
Qed.

(** ** Round trips *)

Lemma all_strings_weaken (p q : bytes -> bool) j :
  (forall s, p s = true -> q s = true) -> all_strings p j = true -> all_strings q j = true.
Proof.
  intros Hpq. induction j as [ | | | | |s|l IH|l IH] using Json_ind; simpl; try done; [apply Hpq| |].
  - induction IH as [|j l Hj _ IHl]; simpl; [done|]. intros [H1 H2]%andb_prop.
    by rewrite Hj, IHl.
  - induction IH as [|[k j] l Hj _ IHl]; simpl in *; [done|].
    intros [[H0 H1]%andb_prop H2]%andb_prop. by rewrite (Hpq k), Hj, IHl.
Qed.

Section RoundTrips.
Context `{JsonLibraryLaws}.

Lemma parse_document_ok p max_message_size document :
  parse_document p max_message_size = Ok document -> tree_ok 0 0 document.
Proof.
  unfold parse_document. repeat (case_match; try done). unfold mbind, outcome_bind.
  destruct (validate_json_tree _) as [[]|] eqn:Hv; [|done]. intros [= <-].
  by apply validate_json_tree_iff.
Qed.

Lemma parse_document_dump document p max_message_size :
  printable document = true -> distinct_keys document = true -> json_dump document = Some p ->
  Zlen p <= Ipc.effective_limit max_message_size ->
  (tree_ok 0 0 document -> parse_document p max_message_size = Ok (as_parsed document)) /\
  (~ tree_ok 0 0 document -> is_ok (parse_document p max_message_size) = false).
Proof.
  intros Hp Hk Hdump Hlen. pose proof (dump_text _ _ Hp Hdump) as Ht.
  pose proof (dump_shape _ _ Hdump) as (Hu & Hne & Hbom).
  pose proof (as_parsed_size document Hk) as Hsize.
  destruct (as_text_size document) as [(T1 & T2 & T3 & T4) T5].
  unfold parse_document. rewrite Ht, Hu, Hbom, decide_False by done. simpl.
  destruct (Z.ltb_spec (Ipc.effective_limit max_message_size) (Zlen p)); [lia|].
  rewrite as_parsed_text. split.
  - intros Hok. assert (Hfit : fits_limits ipc_limits (as_text document)).
    { destruct Hok as (K1 & K2 & K3 & _). unfold fits_limits. rewrite T1, T2, T3, T5.
      split_and!; [by simpl; lia|by simpl; lia| |done].
      eapply all_strings_weaken; [|exact K3]. intros s Hs. by apply andb_prop in Hs as [? _]. }
    destruct (judges_all ipc_limits (as_text document) ParseLimits_new) as [[_ ->]|[Hno _]];
      [by split| |by destruct Hno].
    rewrite bool_decide_false by (intros Hx; by apply Hx). unfold mbind, outcome_bind.
    by rewrite (proj2 (validate_json_tree_iff _)) by (by apply (tree_ok_size document)).
  - intros Hno. case_match; [done|]. unfold mbind, outcome_bind.
    destruct (validate_json_tree (as_parsed document)) as [[]|] eqn:Hv; [|done].
    apply validate_json_tree_iff, (tree_ok_size document) in Hv; done.
Qed.

Lemma all_strings_and p q j :
  all_strings (fun s => p s && q s) j = all_strings p j && all_strings q j.
Proof.
  induction j as [ | | | | |s|l IH|l IH] using Json_ind; simpl; try done.
  - induction IH as [|j l Hj _ IHl]; simpl; [done|]. rewrite Hj, IHl.
    by destruct (all_strings p j), (all_strings q j), (forallb (all_strings p) l).
  - induction IH as [|[k j] l Hj _ IHl]; simpl in *; [done|]. rewrite Hj, IHl.
    destruct (p k), (q k), (all_strings p j), (all_strings q j); simpl;
      by rewrite ?andb_false_r.
Qed.

Lemma tree_ok_printable d n j : tree_ok d n j -> numbers_in_range j = true -> printable j = true.
Proof.
  intros (_ & _ & Hs & Hf) Hn. unfold printable. rewrite Hf, Hn.
  unfold string_ok in Hs. rewrite all_strings_and in Hs. by apply andb_prop in Hs as [_ ->].
Qed.

Lemma dump_document_ok document max_message_size p :
  dump_document document max_message_size = Ok p ->
  json_dump document = Some p /\ Zlen p <= Ipc.effective_limit max_message_size.
Proof.
  unfold dump_document. destruct (json_dump document) as [q|]; [|done].
  destruct (Z.ltb_spec (Ipc.effective_limit max_message_size) (Zlen q)); [done|]. by intros [= <-].
Qed.

Lemma serialize_request_ok r max_message_size p :
  serialize_request r max_message_size = Ok p ->
  version r = kProtocolVersion /\ kind (request_id r) = request /\
  validate_method_name (method r) = success /\ is_object (params r) = true /\
  tree_ok 0 0 (params r) /\ json_dump (request_document r) = Some p /\
  Zlen p <= Ipc.effective_limit max_message_size.
Proof.
  unfold serialize_request, validate_request_id, mbind, outcome_bind.
  destruct (Z.eqb_spec (version r) kProtocolVersion); [|done]. simpl.
  case_bool_decide; [|done]. simpl.
  destruct (validate_method_name (method r)) as [[]|]; [|done].
  destruct (is_object (params r)); [|done]. simpl.
  destruct (validate_json_tree (params r)) as [[]|] eqn:Hv; [|done].
  intros Hd%dump_document_ok. apply validate_json_tree_iff in Hv. naive_solver.
Qed.

Lemma sort_request_fields {A} (a b c d : A) :
  sort_fields [(bs "version", a); (bs "request_id", b); (bs "method", c); (bs "params", d)] =
  [(bs "method", c); (bs "params", d); (bs "request_id", b); (bs "version", a)].
Proof. by vm_compute. Qed.

Lemma sort_response_fields {A} (a b c d : A) name :
  name = bs "result" \/ name = bs "error" ->
  sort_fields [(bs "version", a); (bs "request_id", b); (bs "ok", c); (name, d)] =
  if bool_decide (name = bs "result")
  then [(bs "ok", c); (bs "request_id", b); (name, d); (bs "version", a)]
  else [(name, d); (bs "ok", c); (bs "request_id", b); (bs "version", a)].
Proof. by intros [-> | ->]; vm_compute. Qed.

Lemma read_request_id_canonical text :
  canonical request text -> read_request_id (JString text) = Ok (mkId request text).
Proof.
  intros Hc. simpl. assert (Id_parse_kind text request = Ok (mkId request text)) as ->; [|done].
  by apply Id_parse_kind_ok.
Qed.

Lemma is_object_parsed j : is_object (as_parsed j) = is_object j.
Proof. destruct j as [ | |z| | | | |]; simpl; try done. by destruct (0 <=? z). Qed.

Lemma request_fields_found a b c d :
  let j := JObject [(bs "method", c); (bs "params", d); (bs "request_id", b); (bs "version", a)] in
  forallb is_request_field (json_keys j) = true /\
  json_find (bs "version") j = Some a /\ json_find (bs "request_id") j = Some b /\
  json_find (bs "method") j = Some c /\ json_find (bs "params") j = Some d.
Proof. by vm_compute. Qed.

Lemma parse_request_document r p max_message_size :
  parse_document p max_message_size = Ok (as_parsed (request_document r)) ->
  version r = kProtocolVersion -> canonical request (str (request_id r)) ->
  validate_method_name (method r) = success -> is_object (params r) = true ->
  parse_request p max_message_size =
    Ok (mkRequest kProtocolVersion (mkId request (str (request_id r))) (method r) (as_parsed (params r))).
Proof.
  intros Hp Hv Hc Hm Ho. unfold parse_request. rewrite Hp. unfold mbind, outcome_bind.
  unfold request_document. cbn [as_parsed map fst snd]. rewrite sort_request_fields, Hv.
  destruct (request_fields_found (JUnsigned kProtocolVersion) (JString (str (request_id r)))
    (JString (method r)) (as_parsed (params r))) as (Hk & -> & -> & -> & ->).
  cbn [is_object negb]. rewrite Hk. cbn [negb validate_version]. rewrite Z.eqb_refl.
  cbn [success]. rewrite read_request_id_canonical by done.
  unfold success in Hm. by rewrite Hm, is_object_parsed, Ho.
Qed.

Lemma request_document_ok r :
  canonical request (str (request_id r)) -> validate_method_name (method r) = success ->
  tree_ok 0 0 (params r) ->
  tree_ok 0 0 (request_document r) <->
  1 + json_depth (params r) <= kMaxJsonDepth /\ 8 + json_nodes (params r) <= kMaxJsonNodes.
Proof.
  intros Hc Hm (H1 & H2 & H3 & H4). unfold tree_ok. pose proof (json_depth_nonneg (params r)).
  assert (Hd : json_depth (request_document r) = 1 + json_depth (params r))
    by (cbn -[Z.add Z.max]; lia).
  assert (Hn : json_nodes (request_document r) = 8 + json_nodes (params r))
    by (cbn -[Z.add]; lia).
  assert (Hs : all_strings string_ok (request_document r) = true)
    by (simpl; by rewrite (id_string_ok _ _ Hc), (method_string_ok _ Hm), H3).
  assert (Hf : all_floats is_finite (request_document r) = true) by (simpl; by rewrite H4).
  rewrite Hd, Hn, Hs, Hf. intuition lia.
Qed.

(** What was serialized is read back exactly if the document is within the limits. *)
Lemma request_roundtrip r max_message_size p :
  canonical request (str (request_id r)) ->
  distinct_keys (params r) = true -> numbers_in_range (params r) = true ->
  serialize_request r max_message_size = Ok p ->
  (tree_ok 0 0 (request_document r) <->
     1 + json_depth (params r) <= kMaxJsonDepth /\ 8 + json_nodes (params r) <= kMaxJsonNodes) /\
  (tree_ok 0 0 (request_document r) -> parse_request p max_message_size =
     Ok (mkRequest (version r) (request_id r) (method r) (as_parsed (params r)))) /\
  (~ tree_ok 0 0 (request_document r) -> is_ok (parse_request p max_message_size) = false).
Proof.
  intros Hc Hk Hn Hs. apply serialize_request_ok in Hs as (Hv & Hkind & Hm & Ho & Ht & Hdump & Hlen).
  destruct (parse_document_dump (request_document r) p max_message_size) as [Hgood Hbad]; [| |done|done|].
  - unfold printable. pose proof (tree_ok_printable _ _ _ Ht Hn) as Hp. unfold printable in Hp.
    apply andb_prop in Hp as [[P1 P2]%andb_prop P3].
    simpl. rewrite P1, P2, P3, Hv. apply id_string_ok, andb_prop in Hc as [_ ->].
    by apply method_string_ok, andb_prop in Hm as [_ ->].
  - simpl. rewrite Hk. by vm_compute.
  - split_and!; [by apply request_document_ok|intros Hfit|intros Hno].
    + rewrite (parse_request_document r); [|by apply Hgood|done..].
      rewrite Hv. by destruct (request_id r) as [k t]; simpl in *; subst.
    + unfold parse_request, mbind, outcome_bind.
      specialize (Hbad Hno). by destruct (parse_document p max_message_size).
Qed.

(** C37: IPC requests survive the wire.  When a request (with the canonical identifier every
    request has, and parameters whose objects have distinct keys) is serialized, parsing
    the text with the same limit gives the same request back, its parameters as the JSON
    library reads them, exactly if the document around the parameters stays within the
    nesting and node limits, one level and eight nodes more than the parameters; otherwise
    the receiver refuses what the sender accepted. *)
Theorem ipc_request_roundtrip (r : Request) (max_message_size : Z) (p : bytes) :
  canonical request (str (request_id r)) ->
  distinct_keys (params r) = true -> numbers_in_range (params r) = true ->
  serialize_request r max_message_size = Ok p ->
  (1 + json_depth (params r) <= kMaxJsonDepth /\ 8 + json_nodes (params r) <= kMaxJsonNodes ->
   parse_request p max_message_size =
     Ok (mkRequest (version r) (request_id r) (method r) (as_parsed (params r)))) /\
  (kMaxJsonDepth <= json_depth (params r) \/ kMaxJsonNodes < 8 + json_nodes (params r) ->
   is_ok (parse_request p max_message_size) = false).
Proof.
  intros Hc Hk Hn Hs. destruct (request_roundtrip r max_message_size p Hc Hk Hn Hs) as (Hiff & Hgood & Hbad).
  split; intros Hfit; [by apply Hgood, Hiff|]. apply Hbad. rewrite Hiff. lia.
Qed.

Lemma response_fields_found a b c d succeeded :
  let name := if succeeded : bool then bs "result" else bs "error" in
  let j := JObject (sort_fields [(bs "version", a); (bs "request_id", b); (bs "ok", c); (name, d)]) in
  is_object j = true /\
  json_find (bs "version") j = Some a /\ json_find (bs "request_id") j = Some b /\
  json_find (bs "ok") j = Some c /\ json_find name j = Some d /\
  forallb (fun k => is_response_base_field k
     || bool_decide (k = if succeeded then bs "result" else bs "error")) (json_keys j) = true.
Proof. by destruct succeeded; vm_compute. Qed.

Lemma error_fields_found a b :
  let l := sort_fields [(bs "code", a); (bs "message", b)] in
  forallb (fun k => bool_decide (k = bs "code") || bool_decide (k = bs "message")) (map fst l) = true /\
  find_field (bs "code") l = Some a /\ find_field (bs "message") l = Some b.
Proof. by vm_compute. Qed.

(** An error [Response::failure] keeps. *)
Definition error_kept (e : Error) : Prop :=
  code e <> ok /\ Zlen (message e) <= kMaxErrorMessageBytes /\ ipc_is_valid_utf8 (message e) = true.

Lemma Response_failure_kept id e : error_kept e -> Response_failure id e = mkResponse id (inr e).
Proof.
  intros (Hc & Hl & Hu). unfold Response_failure. rewrite decide_False, Hu by done.
  destruct (Z.ltb_spec kMaxErrorMessageBytes (Zlen (message e))); [lia|done].
Qed.

Lemma Response_failure_sound id e :
  exists e', Response_failure id e = mkResponse id (inr e') /\ error_kept e' /\
             (code e <> ok -> code e' = code e) /\ (error_kept e -> e' = e).
Proof.
  unfold Response_failure, error_kept. case_decide as Hc; [by eexists; split_and!; [done..|naive_solver]|].
  destruct (Z.ltb_spec kMaxErrorMessageBytes (Zlen (message e))) as [Hl|Hl]; simpl.
  { eexists. split_and!; [done..|]. intros (? & ? & ?). lia. }
  destruct (ipc_is_valid_utf8 (message e)) eqn:Hu; simpl; eexists; split_and!; try done. naive_solver.
Qed.

Lemma read_error_document id e :
  error_kept e ->
  read_error id (Some (as_parsed
    (JObject [(bs "code", JString (error_code_to_string (code e))); (bs "message", JString (message e))]))) =
  Ok (Response_failure id e).
Proof.
  intros (Hc & Hl & Hu). cbn [as_parsed map fst snd read_error].
  destruct (error_fields_found (JString (error_code_to_string (code e))) (JString (message e)))
    as (Hk & -> & ->).
  rewrite Hk, error_code_from_to_string. cbn [negb]. rewrite decide_False by done.
  destruct (Z.ltb_spec kMaxErrorMessageBytes (Zlen (message e))); [lia|]. by destruct e.
Qed.

Definition payload_parsed (x : Json + Error) : Json + Error :=
  match x with inl result => inl (as_parsed result) | inr e => inr e end.

(** What [Response::success] and [Response::failure] build. *)
Definition response_built (r : Response) : Prop :=
  match payload r with
  | inl result => distinct_keys result = true /\ numbers_in_range result = true
  | inr e => error_kept e
  end.

Lemma parse_response_document r p max_message_size :
  parse_document p max_message_size = Ok (as_parsed (response_document r)) ->
  canonical request (str (response_id r)) -> response_built r ->
  (forall result, payload r = inl result -> is_object result = true) ->
  parse_response p max_message_size =
    Ok (mkResponse (mkId request (str (response_id r))) (payload_parsed (payload r))).
Proof.
  intros Hp Hc Hb Ho. unfold parse_response. rewrite Hp. unfold mbind, outcome_bind, response_document.
  unfold response_built in Hb.
  destruct (payload r) as [result|e]; cbn [app as_parsed map fst snd payload_parsed].
  - destruct (response_fields_found (JUnsigned kProtocolVersion) (JString (str (response_id r)))
      (JBool true) (as_parsed result) true) as (-> & -> & -> & -> & -> & ->).
    cbn [negb validate_version]. rewrite Z.eqb_refl. cbn [success].
    rewrite read_request_id_canonical by done. by rewrite is_object_parsed, Ho.
  - destruct (response_fields_found (JUnsigned kProtocolVersion) (JString (str (response_id r)))
      (JBool false) (as_parsed (JObject [(bs "code", JString (error_code_to_string (code e)));
        (bs "message", JString (message e))])) false) as (H1 & H2 & H3 & H4 & H5 & H6).
    cbn [as_parsed map fst snd] in *. rewrite H1, H2, H3, H4, H5, H6.
    cbn [negb validate_version]. rewrite Z.eqb_refl. cbn [success].
    rewrite read_request_id_canonical by done.
    etransitivity; [by apply (read_error_document _ e)|]. by rewrite Response_failure_kept.
Qed.

Lemma response_document_keys r :
  exists l, response_document r = JObject l /\ NoDup (map fst l).
Proof.
  unfold response_document. destruct (payload r) as [result|e]; eexists; (split; [done|]); cbn [app map fst];
    by apply (bool_decide_unpack _); vm_compute.
Qed.

Lemma serialize_response_ok r max_message_size p :
  serialize_response r max_message_size = Ok p ->
  kind (response_id r) = request /\ (forall result, payload r = inl result -> is_object result = true) /\
  tree_ok 0 0 (response_document r) /\ json_dump (response_document r) = Some p /\
  Zlen p <= Ipc.effective_limit max_message_size.
Proof.
  unfold serialize_response, validate_request_id, mbind, outcome_bind.
  destruct (response_document_keys r) as (l & -> & Hnd).
  case_bool_decide; [|done]. simpl.
  destruct (match payload r with inl _ => _ | inr _ => _ end) as [[]|] eqn:Hp; [|done].
  destruct (validate_json_tree (JObject (sort_fields l))) as [[]|] eqn:Hv; [|done].
  intros Hd%dump_document_ok. apply validate_json_tree_iff in Hv. split_and!; [done| | |naive_solver..].
  - intros result Hr. rewrite Hr in Hp. by destruct (is_object result).
  - eapply tree_ok_size; [|exact Hv]. apply same_size_perm. by apply sort_fields_perm.
Qed.

Lemma response_document_distinct r : response_built r -> distinct_keys (response_document r) = true.
Proof.
  unfold response_built, response_document. destruct (payload r) as [result|e]; simpl.
  - intros [-> _]. by vm_compute.
  - intros _. by vm_compute.
Qed.

(** Responses survive the wire: whatever [serialize_response] accepts of the responses the
    two constructors build, [parse_response] with the same limit reads back. *)
Lemma response_roundtrip (r : Response) (max_message_size : Z) (p : bytes) :
  canonical request (str (response_id r)) -> response_built r ->
  serialize_response r max_message_size = Ok p ->
  parse_response p max_message_size = Ok (mkResponse (response_id r) (payload_parsed (payload r))).
Proof.
  intros Hc Hb Hs. apply serialize_response_ok in Hs as (Hkind & Ho & Ht & Hdump & Hlen).
  assert (Hp : printable (response_document r) = true).
  { eapply tree_ok_printable; [done|]. unfold response_built, response_document in *.
    destruct (payload r); simpl; [|done]. by destruct Hb as [_ ->]. }
  destruct (parse_document_dump _ _ max_message_size Hp (response_document_distinct r Hb) Hdump Hlen)
    as [Hgood _].
  rewrite (parse_response_document r) by auto.
  by destruct (response_id r) as [k t]; simpl in *; subst.
Qed.

(** Whatever [parse_request] returns is what the handlers rely on. *)
Lemma parse_request_sound p max_message_size r :
  parse_request p max_message_size = Ok r ->
  version r = kProtocolVersion /\ canonical request (str (request_id r)) /\
  kind (request_id r) = request /\ validate_method_name (method r) = success /\
  is_object (params r) = true.
Proof.
  unfold parse_request, mbind, outcome_bind. destruct (parse_document p max_message_size) as [d|]; [|done].
  destruct (is_object d); [|done]. simpl. destruct (forallb _ _); [|done]. simpl.
  repeat case_match; try done. intros [= <-]. simpl.
  unfold read_request_id in *. repeat case_match; simplify_eq.
  match goal with H : Id_parse_kind _ _ = Ok _ |- _ => apply Id_parse_kind_ok in H as [-> Hc] end.
  split_and!; try done; [by destruct (validate_method_name _) as [[]|]|by destruct (is_object _)].
Qed.

(** The limit only bounds the size. *)
Lemma parse_document_limit p m m' document :
  parse_document p m = Ok document -> Zlen p <= Ipc.effective_limit m' -> parse_document p m' = Ok document.
Proof.
  unfold parse_document. destruct (Z.ltb_spec (Ipc.effective_limit m) (Zlen p)); [done|].
  destruct (Z.ltb_spec (Ipc.effective_limit m') (Zlen p)); [lia|done].
Qed.

Lemma parse_document_size p m document :
  parse_document p m = Ok document -> p <> [] /\ Zlen p <= Ipc.effective_limit m.
Proof.
  unfold parse_document. destruct (Z.ltb_spec (Ipc.effective_limit m) (Zlen p)); [done|].
  by case_decide.
Qed.

Lemma parse_request_limit p m m' r :
  parse_request p m = Ok r ->
  p <> [] /\ Zlen p <= Ipc.effective_limit m /\ (Zlen p <= Ipc.effective_limit m' -> parse_request p m' = Ok r).
Proof.
  unfold parse_request, mbind, outcome_bind. destruct (parse_document p m) as [d|] eqn:Hd; [|done].
  destruct (parse_document_size _ _ _ Hd). intros Hr. split_and!; try done. intros Hl.
  by rewrite (parse_document_limit _ _ m' _ Hd Hl).
Qed.

Lemma parse_response_limit p m m' r :
  parse_response p m = Ok r ->
  p <> [] /\ Zlen p <= Ipc.effective_limit m /\ (Zlen p <= Ipc.effective_limit m' -> parse_response p m' = Ok r).
Proof.
  unfold parse_response, mbind, outcome_bind. destruct (parse_document p m) as [d|] eqn:Hd; [|done].
  destruct (parse_document_size _ _ _ Hd). intros Hr. split_and!; try done. intros Hl.
  by rewrite (parse_document_limit _ _ m' _ Hd Hl).
Qed.
End RoundTrips.

(** ** Witnesses *)

Definition sample_request_id : Id := mkId request (bs "req_0123456789abcdef0123456789abcdef").

Definition sample_request (params : Json) : Request :=
  mkRequest 1 sample_request_id (bs "server.list") params.

(** An object that nests as deeply as parameters may. *)
Fixpoint nested (n : nat) : Json :=
  match n with O => JObject [] | S n => JObject [(bs "a", nested n)] end.

Lemma sample_request_canonical : canonical request (str sample_request_id).
Proof. by apply valid_id_canonical; vm_compute. Qed.

Lemma ipc_request_roundtrip_witness :
  let r := sample_request (JObject [(bs "port", JInt 80); (bs "id", JString (bs "x"))]) in
  let deep := sample_request (nested 63) in
  (exists p, @serialize_request sample_json r 65536 = Ok p /\
     @parse_request sample_json p 65536 =
       Ok (sample_request (JObject [(bs "id", JString (bs "x")); (bs "port", JUnsigned 80)]))) /\
  (exists p, @serialize_request sample_json deep 65536 = Ok p /\
     is_ok (@parse_request sample_json p 65536) = false).
Proof.
  split.
  - destruct (@serialize_request sample_json (sample_request (JObject [(bs "port", JInt 80);
      (bs "id", JString (bs "x"))])) 65536) as [p|e] eqn:Hs; [|by vm_compute in Hs].
    exists p. split; [done|].
    destruct (@ipc_request_roundtrip sample_json sample_json_laws
      (sample_request (JObject [(bs "port", JInt 80); (bs "id", JString (bs "x"))])) 65536 p
      sample_request_canonical eq_refl eq_refl Hs) as [-> _]; by vm_compute.
  - destruct (@serialize_request sample_json (sample_request (nested 63)) 65536) as [p|e] eqn:Hs;
      [|by vm_compute in Hs].
    exists p. split; [done|].
    apply (@ipc_request_roundtrip sample_json sample_json_laws (sample_request (nested 63)) 65536 p
      sample_request_canonical eq_refl eq_refl Hs). left. by vm_compute.
Defined.
