(* ===== verification/IpcServer.v ===== *)
(** * The local IPC server

    src/ipc/local_server.cpp: [BoundedDispatcherPool], [Session] and [ServerState].  A
    session reads one framed request, has it dispatched by a thread of the pool and writes
    one framed response.  Everything a session does runs on its strand; the server's
    registry is guarded by its mutex, and the tasks of the pool run on four threads.  So
    the server is a state machine: an event is the completion of an asynchronous
    operation, a step of a pool thread or a call from outside, and a step runs the code
    the event resumes.  The steps of a pool thread are the begin of a task, one action of
    the handler it calls, the end of the handler and the end of the task, so the handlers
    of up to four requests interleave.  The preparation of the socket (file system calls) is the argument
    of [start].  Exceptions (memory exhaustion) are not modelled. *)
From stdpp Require Import gmap.
From S2P Require Import Prelude Common Ids Codec Stream Io Json IpcFrame IpcProtocol.

Record LocalServerOptions : Set := mkLocalServerOptions {
  max_message_size : Z;
  max_connections : Z
}.

(** [Session]; its socket and timer are the flags of the operations it has started. *)
Record Session : Set := mkSession {
  decoder_ : Ipc.FrameDecoder;
  response_frame_ : bytes;
  deadline_active_ : bool;
  closed_ : bool;
  cancelled_ : bool;
  read_started : bool;
  write_started : bool
}.

Definition Session_new (options : LocalServerOptions) : Session :=
  mkSession (Ipc.FrameDecoder_new (max_message_size options)) [] false false false false false.

(** A session with its history: what its socket delivered and what it wrote. *)
Record Connection : Set := mkConnection {
  session : Session;
  received : bytes;
  sent : list bytes
}.

(** What waits on the executors: the latest accept operation and retry timer with the
    generation they were started in (the handlers of earlier ones return at once, their
    generation being over), responses posted to the strands, and closes posted
    by [Session::stop]. *)
Record Executor : Set := mkExecutor {
  accept_started : option Z;
  retry_started : option Z;
  posted : list (nat * Response);
  closing : list nat
}.

(** The error codes of an accept operation. *)
Inductive AcceptResult : Set := Accepted | AcceptAborted | AcceptFailed.

Section Server.
Context `{JsonLibrary} {World : Type}.
Context (options : LocalServerOptions) (dispatcher_ : @Dispatcher World).

(** A task of the pool: submitted, in the handler of its request, or past [dispatch]. *)
Inductive Task : Type :=
| Queued (r : Request)
| Running (r : Request) (e : @Execution World)
| Answered (x : Response).

(** [BoundedDispatcherPool]; [tasks] are the functions posted to the thread pool. *)
Record BoundedDispatcherPool : Type := mkBoundedDispatcherPool {
  pending_ : Z;
  accepting_ : bool;
  tasks : list (nat * Task)
}.

(** [ServerState], with the heap of sessions, the state the handlers act on, and the
    histories of the completed calls of [dispatch] and of the handlers' actions, each with
    the states before and after it. *)
Record ServerState : Type := mkServerState {
  running_ : bool;
  shutting_down_ : bool;
  generation_ : Z;
  sessions_ : gset nat;
  pool : BoundedDispatcherPool;
  executor : Executor;
  heap : gmap nat Connection;
  next_session : nat;
  world : World;
  calls : list (nat * (Request * Response));
  actions : list (nat * (World * World))
}.

Definition ServerState_new (w : World) : ServerState :=
  mkServerState false false 0 ∅ (mkBoundedDispatcherPool 0 true []) (mkExecutor None None [] []) ∅ 0 w [] [].

(** *** Updates of a field *)

Definition set_heap (h : gmap nat Connection) (s : ServerState) : ServerState :=
  mkServerState (running_ s) (shutting_down_ s) (generation_ s) (sessions_ s) (pool s) (executor s)
    h (next_session s) (world s) (calls s) (actions s).
Definition set_sessions (r : gset nat) (s : ServerState) : ServerState :=
  mkServerState (running_ s) (shutting_down_ s) (generation_ s) r (pool s) (executor s)
    (heap s) (next_session s) (world s) (calls s) (actions s).
Definition set_pool (p : BoundedDispatcherPool) (s : ServerState) : ServerState :=
  mkServerState (running_ s) (shutting_down_ s) (generation_ s) (sessions_ s) p (executor s)
    (heap s) (next_session s) (world s) (calls s) (actions s).
Definition set_executor (e : Executor) (s : ServerState) : ServerState :=
  mkServerState (running_ s) (shutting_down_ s) (generation_ s) (sessions_ s) (pool s) e
    (heap s) (next_session s) (world s) (calls s) (actions s).

(** [f] changes the session [id]. *)
Definition update_session (id : nat) (f : Session -> Session) (s : ServerState) : ServerState :=
  set_heap (alter (fun c => mkConnection (f (session c)) (received c) (sent c)) id (heap s)) s.

Definition read_flag (id : nat) (f : Session -> bool) (s : ServerState) : bool :=
  match heap s !! id with Some c => f (session c) | None => true end.

(** ** [BoundedDispatcherPool] *)

(** [submit]. *)
Definition submit (id : nat) (r : Request) (s : ServerState) : bool * ServerState :=
  let p := pool s in
  if negb (accepting_ p) || (max_connections options <=? pending_ p) then (false, s)
  else (true, set_pool (mkBoundedDispatcherPool (pending_ p + 1) (accepting_ p)
                          (tasks p ++ [(id, Queued r)])) s).

(** The end of the posted function: [release]; the task at [n] is gone. *)
Definition release (n : nat) (s : ServerState) : ServerState :=
  let p := pool s in
  set_pool (mkBoundedDispatcherPool (pending_ p - 1) (accepting_ p)
              (take n (tasks p) ++ drop (S n) (tasks p))) s.

(** ** [Session] *)

(** [cancel_deadline]. *)
Definition cancel_deadline (x : Session) : Session :=
  mkSession (decoder_ x) (response_frame_ x) false (closed_ x) (cancelled_ x) (read_started x)
    (write_started x).

(** [close]; [finished_] is [session_finished]. *)
Definition close (id : nat) (s : ServerState) : ServerState :=
  if read_flag id closed_ s then s
  else
    let s := update_session id (fun x =>
      cancel_deadline (mkSession (decoder_ x) (response_frame_ x) (deadline_active_ x) true true
        (read_started x) (write_started x))) s in
    set_sessions (sessions_ s ∖ {[ id ]}) s.

(** [read_more]. *)
Definition read_more (id : nat) (s : ServerState) : ServerState :=
  if read_flag id closed_ s then s
  else update_session id (fun x =>
    mkSession (decoder_ x) (response_frame_ x) true (closed_ x) (cancelled_ x) true (write_started x)) s.

(** [process_request]. *)
Definition process_request (id : nat) (payload : bytes) (s : ServerState) : ServerState :=
  if read_flag id closed_ s then s
  else if read_flag id cancelled_ s then close id s
  else
    match parse_request payload (max_message_size options) with
    | Err _ => close id s
    | Ok r => let (submitted, s) := submit id r s in if submitted then s else close id s
    end.

(** [on_read]; the first update is the end of the read operation. *)
Definition on_read (id : nat) (error : option IoError) (data : bytes) (s : ServerState) : ServerState :=
  let s := update_session id (fun x =>
    mkSession (decoder_ x) (response_frame_ x) (deadline_active_ x) (closed_ x) (cancelled_ x) false
      (write_started x)) s in
  if read_flag id closed_ s then s
  else if failed error then close id s
  else
    match heap s !! id with
    | None => s
    | Some c =>
        let c := mkConnection (session c) (received c ++ data) (sent c) in
        match Ipc.feed (decoder_ (session c)) data with
        | None => s
        | Some (decoded, d) =>
            let x := session c in
            let x := mkSession d (response_frame_ x) (deadline_active_ x) (closed_ x) (cancelled_ x)
                       (read_started x) (write_started x) in
            let s := set_heap (<[id := mkConnection x (received c) (sent c)]> (heap s)) s in
            match decoded with
            | Err _ => close id s
            | Ok [] => read_more id s
            | Ok [payload] =>
                if negb (Ipc.buffered_size d =? 0) then close id s else process_request id payload s
            | Ok _ => close id s
            end
        end
    end.

(** [on_dispatch], up to the start of the write. *)
Definition on_dispatch (id : nat) (response : Response) (s : ServerState) : ServerState :=
  if read_flag id closed_ s then s
  else if read_flag id cancelled_ s then close id s
  else
    match serialize_response response (max_message_size options) with
    | Err _ => close id s
    | Ok serialized =>
        match Ipc.encode_frame serialized (max_message_size options) with
        | Err _ => close id s
        | Ok frame =>
            set_heap (alter (fun c =>
              let x := session c in
              mkConnection
                (mkSession (decoder_ x) frame (deadline_active_ x) (closed_ x) (cancelled_ x)
                   (read_started x) true)
                (received c) (sent c ++ [frame])) id (heap s)) s
        end
    end.

(** [on_write]. *)
Definition on_write (id : nat) (error : option IoError) (s : ServerState) : ServerState :=
  let s := update_session id (fun x =>
    mkSession (decoder_ x) (response_frame_ x) (deadline_active_ x) (closed_ x) (cancelled_ x)
      (read_started x) false) s in
  if read_flag id closed_ s then s
  else if failed error then close id s
  else
    close id (update_session id (fun x =>
      let x := cancel_deadline x in
      mkSession (decoder_ x) [] (deadline_active_ x) (closed_ x) (cancelled_ x) (read_started x)
        (write_started x)) s).

(** The handler of the deadline, when it expires. *)
Definition on_deadline (id : nat) (s : ServerState) : ServerState :=
  if read_flag id deadline_active_ s then close id s else s.

(** The tasks that hold a thread of the pool. *)
Definition kDispatcherThreadCount : Z := 4.
Definition is_busy (t : Task) : bool := match t with Queued _ => false | _ => true end.
Definition busy_count (l : list (nat * Task)) : Z := Zlen (filter (fun x => is_busy x.2 = true) l).
Definition busy (p : BoundedDispatcherPool) : Z := busy_count (tasks p).

Definition set_task (n id : nat) (t : Task) (s : ServerState) : ServerState :=
  let p := pool s in
  set_pool (mkBoundedDispatcherPool (pending_ p) (accepting_ p) (<[n := (id, t)]> (tasks p))) s.

(** [dispatch] returns: the call is complete. *)
Definition answer (n id : nat) (r : Request) (x : Response) (s : ServerState) : ServerState :=
  let s := set_task n id (Answered x) s in
  mkServerState (running_ s) (shutting_down_ s) (generation_ s) (sessions_ s) (pool s) (executor s)
    (heap s) (next_session s) (world s) (calls s ++ [(id, (r, x))]) (actions s).

(** A free thread takes the task of [process_request], up to the call of the handler. *)
Definition run_task (n : nat) (s : ServerState) : ServerState :=
  match tasks (pool s) !! n with
  | Some (id, Queued r) =>
      if kDispatcherThreadCount <=? busy (pool s) then s
      else if read_flag id cancelled_ s then release n s
      else
        match begin_dispatch dispatcher_ r with
        | inl x => answer n id r x s
        | inr e => set_task n id (Running r e) s
        end
  | _ => s
  end.

(** The handler acts once, or returns. *)
Definition act_task (n : nat) (s : ServerState) : ServerState :=
  match tasks (pool s) !! n with
  | Some (id, Running r (Ended result)) => answer n id r (end_dispatch r result) s
  | Some (id, Running r (Acting action)) =>
      let (e, w) := action (world s) in
      let t := set_task n id (Running r e) s in
      mkServerState (running_ t) (shutting_down_ t) (generation_ t) (sessions_ t) (pool t) (executor t)
        (heap t) (next_session t) w (calls t) (actions t ++ [(id, (world s, w))])
  | _ => s
  end.

(** The rest of the task: [release] by the pool and the post of the response. *)
Definition finish_task (n : nat) (s : ServerState) : ServerState :=
  match tasks (pool s) !! n with
  | Some (id, Answered response) =>
      let s := release n s in
      if read_flag id cancelled_ s then s
      else
        let e := executor s in
        set_executor (mkExecutor (accept_started e) (retry_started e) (posted e ++ [(id, response)])
                        (closing e)) s
  | _ => s
  end.

(** ** [ServerState] *)

(** [begin_accept_locked]. *)
Definition begin_accept_locked (generation : Z) (s : ServerState) : ServerState :=
  let e := executor s in
  set_executor (mkExecutor (Some generation) (retry_started e) (posted e) (closing e)) s.

(** [schedule_accept_retry_locked]. *)
Definition schedule_accept_retry_locked (generation : Z) (s : ServerState) : ServerState :=
  let e := executor s in
  set_executor (mkExecutor (accept_started e) (Some generation) (posted e) (closing e)) s.

(** [start]; [valid], [path_lock] and [prepared] are the results of
    [validate_server_options], [acquire_socket_path_lock] and [prepare_acceptor]. *)
Definition start (valid path_lock prepared : Result unit) : Action ServerState unit := fun s =>
  match valid with
  | Err e => (Err e, s)
  | Ok _ =>
      if running_ s then (failure already_exists "IPC server is already running", s)
      else if shutting_down_ s then (failure ipc_error "IPC server is shutting down", s)
      else
        match path_lock, prepared with
        | Err e, _ => (Err e, s)
        | Ok _, Err e => (Err e, s)
        | Ok _, Ok _ =>
            let s := mkServerState true (shutting_down_ s) (generation_ s + 1) (sessions_ s) (pool s)
                       (executor s) (heap s) (next_session s) (world s) (calls s) (actions s) in
            (success, begin_accept_locked (generation_ s) s)
        end
  end.

(** [stop]: [Session::stop] of every session sets [cancelled_] and posts [close]. *)
Definition stop (s : ServerState) : ServerState :=
  let stopped := sessions_ s in
  let e := executor s in
  let cancel (id : nat) (c : Connection) :=
    let x := session c in
    if bool_decide (id ∈ stopped) then
      mkConnection (mkSession (decoder_ x) (response_frame_ x) (deadline_active_ x) (closed_ x) true
        (read_started x) (write_started x)) (received c) (sent c)
    else c in
  mkServerState false (shutting_down_ s) (generation_ s + 1) ∅ (pool s)
    (mkExecutor (accept_started e) (retry_started e) (posted e) (closing e ++ elements stopped))
    (map_imap (fun id c => Some (cancel id c)) (heap s)) (next_session s) (world s) (calls s) (actions s).

(** [shutdown], without the wait for the pool's threads. *)
Definition shutdown (s : ServerState) : ServerState :=
  let s := stop (mkServerState (running_ s) true (generation_ s) (sessions_ s) (pool s) (executor s)
                   (heap s) (next_session s) (world s) (calls s) (actions s)) in
  let p := pool s in set_pool (mkBoundedDispatcherPool (pending_ p) false (tasks p)) s.

(** [on_accept]; a new session is started by [read_more] on its strand. *)
Definition on_accept (generation : Z) (result : AcceptResult) (s : ServerState) : ServerState :=
  if negb (running_ s) || negb (generation =? generation_ s) then s
  else
    match result with
    | AcceptAborted => s
    | AcceptFailed => schedule_accept_retry_locked generation s
    | Accepted =>
        if Z.of_nat (size (sessions_ s)) <? max_connections options then
          let id := next_session s in
          let s := mkServerState (running_ s) (shutting_down_ s) (generation_ s)
                     (sessions_ s ∪ {[ id ]}) (pool s) (executor s)
                     (<[id := mkConnection (Session_new options) [] []]> (heap s)) (S id) (world s)
                     (calls s) (actions s) in
          read_more id (begin_accept_locked generation s)
        else begin_accept_locked generation s
    end.

(** The handler of the retry timer. *)
Definition on_retry (generation : Z) (expired : bool) (s : ServerState) : ServerState :=
  if negb expired then s
  else if running_ s && (generation_ s =? generation) then begin_accept_locked generation s
  else s.

(** ** The steps *)

Inductive Event : Set :=
| EvStart (valid path_lock prepared : Result unit)
| EvStop
| EvShutdown
| EvAccept (result : AcceptResult)
| EvRetry (expired : bool)
| EvRead (id : nat) (error : option IoError) (data : bytes)
| EvWrite (id : nat) (error : option IoError)
| EvDeadline (id : nat)
| EvRunTask (n : nat)
| EvActTask (n : nat)
| EvFinishTask (n : nat)
| EvPosted (n : nat)
| EvClose (n : nat).

(** An event of an operation that was not started changes nothing. *)
Definition step (ev : Event) (s : ServerState) : ServerState :=
  let e := executor s in
  match ev with
  | EvStart valid path_lock prepared => (start valid path_lock prepared s).2
  | EvStop => stop s
  | EvShutdown => shutdown s
  | EvAccept result =>
      match accept_started e with
      | Some generation =>
          on_accept generation result
            (set_executor (mkExecutor None (retry_started e) (posted e) (closing e)) s)
      | None => s
      end
  | EvRetry expired =>
      match retry_started e with
      | Some generation =>
          on_retry generation expired
            (set_executor (mkExecutor (accept_started e) None (posted e) (closing e)) s)
      | None => s
      end
  | EvRead id error data =>
      match heap s !! id with
      | Some c => if read_started (session c) then on_read id error data s else s
      | None => s
      end
  | EvWrite id error =>
      match heap s !! id with
      | Some c => if write_started (session c) then on_write id error s else s
      | None => s
      end
  | EvDeadline id => if bool_decide (is_Some (heap s !! id)) then on_deadline id s else s
  | EvRunTask n => run_task n s
  | EvActTask n => act_task n s
  | EvFinishTask n => finish_task n s
  | EvPosted n =>
      match posted e !! n with
      | Some (id, response) =>
          on_dispatch id response
            (set_executor (mkExecutor (accept_started e) (retry_started e)
                             (take n (posted e) ++ drop (S n) (posted e)) (closing e)) s)
      | None => s
      end
  | EvClose n =>
      match closing e !! n with
      | Some id =>
          close id
            (set_executor (mkExecutor (accept_started e) (retry_started e) (posted e)
                             (take n (closing e) ++ drop (S n) (closing e))) s)
      | None => s
      end
  end.

Definition run (events : list Event) (s : ServerState) : ServerState :=
  fold_left (fun s ev => step ev s) events s.

(** ** The history of a session *)

(** What a list says of the session [id]. *)
Definition entries {A} (id : nat) (l : list (nat * A)) : list A :=
  omap (fun x => if decide (x.1 = id) then Some x.2 else None) l.

Lemma entries_app {A} id (l1 l2 : list (nat * A)) : entries id (l1 ++ l2) = entries id l1 ++ entries id l2.
Proof. apply omap_app. Qed.
Lemma entries_same {A} id (x : A) : entries id [(id, x)] = [x].
Proof. unfold entries. simpl. by rewrite decide_True. Qed.
Lemma entries_other {A} id j (x : A) : j <> id -> entries j [(id, x)] = [].
Proof. intros Hj. unfold entries. simpl. by rewrite decide_False by congruence. Qed.

Lemma split_at {A} n (l : list A) x : l !! n = Some x -> l = take n l ++ [x] ++ drop (S n) l.
Proof. intros Hl. symmetry. by apply take_drop_middle. Qed.

Lemma entries_split {A} j n (l : list (nat * A)) id x :
  l !! n = Some (id, x) ->
  entries j l = entries j (take n l) ++ (if decide (j = id) then [x] else []) ++ entries j (drop (S n) l).
Proof.
  intros Hl. rewrite (split_at _ _ _ Hl) at 1. rewrite !entries_app. do 2 f_equal.
  case_decide; [subst; apply entries_same|by apply entries_other].
Qed.

(** A singleton list with an element taken out of it. *)
Lemma entries_taken {A} n (l : list (nat * A)) id x y :
  l !! n = Some (id, x) -> entries id l = [y] ->
  x = y /\ entries id (take n l ++ drop (S n) l) = [].
Proof.
  intros Hl He. rewrite (entries_split id _ _ _ _ Hl), decide_True in He by done.
  rewrite entries_app. destruct (entries id (take n l)) as [|a l1]; simpl in *; simplify_eq; [done|].
  by destruct l1.
Qed.

Lemma entries_taken_other {A} j n (l : list (nat * A)) id x :
  l !! n = Some (id, x) -> j <> id -> entries j (take n l ++ drop (S n) l) = entries j l.
Proof.
  intros Hl Hj. rewrite (entries_split j _ _ _ _ Hl), decide_False by done. by rewrite entries_app.
Qed.

Lemma entries_insert {A} j n (l : list (nat * A)) id x y :
  l !! n = Some (id, x) ->
  entries j (<[n := (id, y)]> l) =
    if decide (j = id) then entries j (take n l) ++ [y] ++ entries j (drop (S n) l) else entries j l.
Proof.
  intros Hl. rewrite insert_take_drop by (by eapply lookup_lt_Some).
  rewrite entries_app. change ((id, y) :: drop (S n) l) with ([(id, y)] ++ drop (S n) l).
  rewrite entries_app. case_decide.
  - subst. by rewrite entries_same.
  - rewrite entries_other by done. by rewrite (entries_split j _ _ _ _ Hl), decide_False.
Qed.

(** The client sent this request. *)
Definition asked (c : Connection) (r : Request) : Prop :=
  exists payload tail, received c = Ipc.frame_image payload ++ tail /\ Ipc.spare (max_message_size options) tail /\
    parse_request payload (max_message_size options) = Ok r.

Definition decoding (c : Connection) : Prop :=
  Ipc.awaiting (max_message_size options) (decoder_ (session c)) (received c).

(** [e] becomes [e'] by these actions, on the states it found. *)
Inductive acts (e : @Execution World) : list (World * World) -> @Execution World -> Prop :=
| acts_begun : acts e [] e
| acts_on l action w e' w' :
    acts e l (Acting action) -> action w = (e', w') -> acts e (l ++ [(w, w')]) e'.

(** An execution seen from its first action. *)
Lemma acts_inv e l e' :
  acts e l e' ->
  l = [] /\ e' = e \/
  exists action w e1 w1 l1, e = Acting action /\ l = (w, w1) :: l1 /\ action w = (e1, w1) /\ acts e1 l1 e'.
Proof.
  induction 1 as [|l action w e' w' _ IH Hact]; [by left|]. right.
  destruct IH as [[-> Heq]|(action1 & w1 & e1 & w1' & l1 & -> & -> & H1 & H2)].
  - subst e. exists action, w, e', w', []. split_and!; [done..|constructor].
  - exists action1, w1, e1, w1', (l1 ++ [(w, w')]). split_and!; try done. by eapply acts_on.
Qed.

(** The call of [dispatch] for [r] returned [x], its handler having done these actions. *)
Inductive served (r : Request) : list (World * World) -> Response -> Prop :=
| served_refused x : begin_dispatch dispatcher_ r = inl x -> served r [] x
| served_handled e l result :
    begin_dispatch dispatcher_ r = inr e -> acts e l (Ended result) -> served r l (end_dispatch r result).

(** A session that reads no more. *)
Definition has_asked (c : Connection) (r : Request) : Prop :=
  asked c r /\ sent c = [] /\ read_started (session c) = false.

(** How far a session is, by what the pool, the strands and the histories hold for it. *)
Inductive stage (c : Connection) :
  list Task -> list Response -> list (Request * Response) -> list (World * World) -> Prop :=
| stage_receiving :
    sent c = [] -> closed_ (session c) = true \/ decoding c -> stage c [] [] [] []
| stage_queued r : has_asked c r -> stage c [Queued r] [] [] []
| stage_dropped r : has_asked c r -> stage c [] [] [] []
| stage_running r e0 l e :
    has_asked c r -> begin_dispatch dispatcher_ r = inr e0 -> acts e0 l e ->
    stage c [Running r e] [] [] l
| stage_answered r l x : has_asked c r -> served r l x -> stage c [Answered x] [] [(r, x)] l
| stage_posted r l x : has_asked c r -> served r l x -> stage c [] [x] [(r, x)] l
| stage_ended r l x : has_asked c r -> served r l x -> stage c [] [] [(r, x)] l
| stage_replied r l x p frame :
    asked c r -> sent c = [frame] -> read_started (session c) = false -> served r l x ->
    serialize_response x (max_message_size options) = Ok p ->
    Ipc.encode_frame p (max_message_size options) = Ok frame -> stage c [] [] [(r, x)] l.

Definition stage_of (id : nat) (c : Connection) (s : ServerState) : Prop :=
  stage c (entries id (tasks (pool s))) (entries id (posted (executor s))) (entries id (calls s))
    (entries id (actions s)).

Definition unused (id : nat) (s : ServerState) : Prop :=
  entries id (tasks (pool s)) = [] /\ entries id (posted (executor s)) = [] /\
  entries id (calls s) = [] /\ entries id (actions s) = [].

Definition session_inv (id : nat) (s : ServerState) : Prop :=
  match heap s !! id with Some c => stage_of id c s | None => unused id s end.

Definition stages (s : ServerState) : Prop :=
  (forall id, session_inv id s) /\ (forall id, (next_session s <= id)%nat -> heap s !! id = None).

(** *** Frames *)

(** A step on behalf of [id]: nothing else moves. *)
Definition touches (id : nat) (s s' : ServerState) : Prop :=
  (forall j, j <> id ->
     heap s' !! j = heap s !! j /\ entries j (tasks (pool s')) = entries j (tasks (pool s)) /\
     entries j (posted (executor s')) = entries j (posted (executor s)) /\
     entries j (calls s') = entries j (calls s) /\ entries j (actions s') = entries j (actions s)) /\
  (next_session s <= next_session s')%nat /\ (heap s !! id = None -> heap s' !! id = None).

Lemma touches_refl id s : touches id s s.
Proof. split_and!; try done. Qed.

Lemma touches_trans id s1 s2 s3 : touches id s1 s2 -> touches id s2 s3 -> touches id s1 s3.
Proof.
  intros (F1 & N1 & H1) (F2 & N2 & H2). split_and!; [|lia|auto].
  intros j Hj. destruct (F2 j Hj) as (-> & -> & -> & -> & ->). apply (F1 j Hj).
Qed.

Lemma stages_touch id s s' : stages s -> touches id s s' -> session_inv id s' -> stages s'.
Proof.
  intros [Hs Hn] (Hf & Hle & Hd) Hid. split.
  - intros j. destruct (decide (j = id)) as [->|Hj]; [done|].
    unfold session_inv, stage_of, unused. destruct (Hf j Hj) as (-> & -> & -> & -> & ->). apply (Hs j).
  - intros j Hj. destruct (decide (j = id)) as [->|Hne]; [apply Hd, Hn; lia|].
    destruct (Hf j Hne) as (-> & _). apply Hn. lia.
Qed.

Lemma stage_mono c c' ts ps cs ls :
  received c' = received c -> sent c' = sent c ->
  (read_started (session c) = false -> read_started (session c') = false) ->
  (closed_ (session c) = true -> closed_ (session c') = true) ->
  closed_ (session c') = true \/ decoder_ (session c') = decoder_ (session c) ->
  stage c ts ps cs ls -> stage c' ts ps cs ls.
Proof.
  intros Hr Hs Hrd Hc Hd Hst.
  assert (Ha : forall r, asked c r -> asked c' r) by (intros r; unfold asked; by rewrite Hr).
  assert (Hh : forall r, has_asked c r -> has_asked c' r)
    by (intros r; unfold has_asked; rewrite Hs; naive_solver).
  destruct Hst as [? [?|Hdec]| | | | | | |]; [apply stage_receiving| |eapply stage_queued|
    eapply stage_dropped|eapply stage_running|eapply stage_answered|eapply stage_posted|eapply stage_ended|
    eapply stage_replied]; eauto; try (by rewrite Hs).
  apply stage_receiving; [by rewrite Hs|]. destruct Hd as [Hd|Hd]; [by left|right].
  unfold decoding in *. by rewrite Hd, Hr.
Qed.

(** A session changes in a way its history does not show. *)
Definition calm (f : Session -> Session) : Prop := forall x,
  (read_started x = false -> read_started (f x) = false) /\
  (closed_ x = true -> closed_ (f x) = true) /\
  (closed_ (f x) = true \/ decoder_ (f x) = decoder_ x).

Lemma update_session_touches id f s : touches id s (update_session id f s).
Proof.
  split_and!; [|done|].
  - intros j Hj. simpl. by rewrite lookup_alter_ne.
  - simpl. intros Hn. by rewrite lookup_alter_eq, Hn.
Qed.

Lemma update_session_inv id f s : calm f -> session_inv id s -> session_inv id (update_session id f s).
Proof.
  intros Hf. unfold session_inv. simpl. rewrite lookup_alter_eq.
  destruct (heap s !! id) as [c|]; simpl; [|done]. unfold stage_of. simpl.
  destruct (Hf (session c)) as (H1 & H2 & H3). by apply stage_mono.
Qed.

Lemma close_touches id s : touches id s (close id s).
Proof.
  unfold close. case_match; [apply touches_refl|].
  eapply touches_trans; [apply update_session_touches|]. done.
Qed.

Lemma close_inv id s : session_inv id s -> session_inv id (close id s).
Proof.
  unfold close. case_match; [done|]. intros Hs.
  apply (update_session_inv id (fun x => cancel_deadline
    (mkSession (decoder_ x) (response_frame_ x) (deadline_active_ x) true true
       (read_started x) (write_started x))) s); [|done].
  intros x. split_and!; try done. by left.
Qed.

Lemma close_heap id s c : heap s !! id = Some c -> exists x,
  heap (close id s) !! id = Some (mkConnection x (received c) (sent c)) /\ closed_ x = true.
Proof.
  unfold close, read_flag. intros Hc. rewrite Hc. destruct (closed_ (session c)) eqn:Hcl.
  - exists (session c). by destruct c.
  - eexists. simpl. rewrite lookup_alter_eq, Hc. simpl. by split.
Qed.

Lemma close_frame id s :
  pool (close id s) = pool s /\ executor (close id s) = executor s /\ calls (close id s) = calls s /\
  actions (close id s) = actions s.
Proof. unfold close. by case_match. Qed.

(** A session closed before its request is complete. *)
Lemma close_receiving id s c :
  heap s !! id = Some c -> sent c = [] -> unused id s -> session_inv id (close id s).
Proof.
  intros Hc Hs (U1 & U2 & U3 & U4). destruct (close_heap id s c Hc) as (x & Hx & Hcl).
  destruct (close_frame id s) as (Hp & He & Hca & Hac). unfold session_inv, stage_of.
  rewrite Hx, Hp, He, Hca, Hac, U1, U2, U3, U4. apply stage_receiving; [done|by left].
Qed.

(** *** Reading *)

Lemma reading_stage c ts ps cs ls :
  stage c ts ps cs ls -> read_started (session c) = true ->
  ts = [] /\ ps = [] /\ cs = [] /\ ls = [] /\ sent c = [] /\ (closed_ (session c) = true \/ decoding c).
Proof. destruct 1; intros Hr; first [done|unfold has_asked in *; naive_solver congruence]. Qed.

Lemma submit_touches id r s : touches id s (submit id r s).2.
Proof.
  unfold submit. case_match; [apply touches_refl|]. split_and!; try done.
  intros j Hj. simpl. by rewrite entries_app, entries_other, app_nil_r.
Qed.

Lemma process_request_touches id payload s : touches id s (process_request id payload s).
Proof.
  unfold process_request. repeat case_match; try apply touches_refl; try apply close_touches.
  - match goal with H : submit _ _ _ = _ |- _ => pose proof (submit_touches id a s) as Ht end.
    by match goal with H : submit _ _ _ = _ |- _ => rewrite H in Ht end.
  - eapply touches_trans; [|apply close_touches].
    match goal with H : submit _ _ _ = _ |- _ => pose proof (submit_touches id a s) as Ht end.
    by match goal with H : submit _ _ _ = _ |- _ => rewrite H in Ht end.
Qed.

Lemma process_request_inv id payload s c tail :
  heap s !! id = Some c -> sent c = [] -> unused id s -> read_started (session c) = false ->
  closed_ (session c) = false -> received c = Ipc.frame_image payload ++ tail -> Ipc.spare (max_message_size options) tail ->
  session_inv id (process_request id payload s).
Proof.
  intros Hc Hs Hu Hr Hcl Hrec Hsp. unfold process_request, read_flag. rewrite Hc, Hcl.
  destruct (cancelled_ (session c)); [by eapply close_receiving|].
  destruct (parse_request payload (max_message_size options)) as [r|] eqn:Hp; [|by eapply close_receiving].
  unfold submit. destruct (negb _ || _); [by eapply close_receiving|].
  destruct Hu as (U1 & U2 & U3 & U4). unfold session_inv, stage_of. simpl. rewrite Hc.
  rewrite entries_app, U1, U2, U3, U4, entries_same. apply stage_queued. split_and!; try done.
  by exists payload, tail.
Qed.

Lemma on_read_touches id error data s : touches id s (on_read id error data s).
Proof.
  unfold on_read. set (s1 := update_session id _ s).
  apply (touches_trans id s s1); [apply update_session_touches|]. case_match; [apply touches_refl|].
  case_match; [apply close_touches|]. destruct (heap s1 !! id) as [c|] eqn:Hc; [|apply touches_refl].
  simpl. destruct (Ipc.feed _ _) as [[decoded d]|]; [|apply touches_refl].
  set (s2 := set_heap _ s1).
  assert (H2 : touches id s1 s2).
  { split_and!; [|done|by rewrite Hc]. intros j Hj. simpl. by rewrite lookup_insert_ne. }
  eapply touches_trans; [exact H2|].
  destruct decoded as [[|payload [|]]|]; try apply close_touches.
  - unfold read_more. case_match; [apply touches_refl|apply update_session_touches].
  - case_match; [apply close_touches|apply process_request_touches].
Qed.

Lemma on_read_inv id error data s c :
  heap s !! id = Some c -> read_started (session c) = true -> session_inv id s ->
  session_inv id (on_read id error data s).
Proof.
  intros Hc Hr Hi. unfold on_read.
  set (f := fun x : Session => mkSession (decoder_ x) (response_frame_ x) (deadline_active_ x) (closed_ x)
    (cancelled_ x) false (write_started x)).
  assert (Hi1 : session_inv id (update_session id f s))
    by (apply update_session_inv; [|done]; intros x; split_and!; (done || by right)).
  assert (Hc1 : heap (update_session id f s) !! id = Some (mkConnection (f (session c)) (received c) (sent c)))
    by (simpl; by rewrite lookup_alter_eq, Hc).
  unfold session_inv in Hi. rewrite Hc in Hi. unfold stage_of in Hi.
  assert (Hu : unused id s /\ sent c = [] /\ (closed_ (session c) = true \/ decoding c)).
  { apply reading_stage in Hi; [|done]. unfold unused. naive_solver. }
  destruct Hu as (Hu & Hs & Hd).
  unfold read_flag. rewrite Hc1. simpl closed_.
  destruct (closed_ (session c)) eqn:Hcl; [done|]. destruct Hd as [|Hd]; [done|].
  destruct (failed error); [by eapply close_receiving|].
  destruct (Ipc.awaiting_feed _ _ _ data Hd) as (r & d & E & Hsp). simpl decoder_. rewrite E.
  set (c2 := mkConnection _ _ _). set (s2 := set_heap _ _).
  assert (Hc2 : heap s2 !! id = Some c2) by (simpl; apply lookup_insert_eq).
  destruct r as [[|payload [|]]|]; [| |by eapply close_receiving..].
  - destruct Hsp as (Hrec & Haw). unfold read_more, read_flag. rewrite Hc2. simpl closed_.
    unfold session_inv, stage_of, update_session. simpl.
    rewrite lookup_alter_eq, lookup_insert_eq. simpl.
    destruct Hu as (-> & -> & -> & ->). apply stage_receiving; [done|]. right.
    unfold decoding. simpl. simpl in Hrec. by rewrite Hrec.
  - destruct Hsp as (Hrec & Haw). destruct (Z.eqb_spec (Ipc.buffered_size d) 0); [|by eapply close_receiving].
    simpl. eapply (process_request_inv _ _ _ c2 (Ipc.pending d)); try done.
    + simpl in *. by rewrite Hrec, app_nil_r.
    + by apply Ipc.pending_spare.
Qed.

(** *** The other handlers *)

Lemma on_write_step id error s : touches id s (on_write id error s) /\
  (session_inv id s -> session_inv id (on_write id error s)).
Proof.
  unfold on_write. set (s1 := update_session id _ s).
  assert (H1 : touches id s s1) by apply update_session_touches.
  assert (I1 : session_inv id s -> session_inv id s1)
    by (apply update_session_inv; intros x; split_and!; (done || by right)).
  split.
  - eapply touches_trans; [exact H1|]. repeat case_match; [apply touches_refl|apply close_touches|].
    eapply touches_trans; [apply update_session_touches|apply close_touches].
  - intros Hi. specialize (I1 Hi). repeat case_match; [done|by apply close_inv|].
    apply close_inv, update_session_inv; [|done]. intros x; split_and!; (done || by right).
Qed.

Lemma on_dispatch_touches id x s : touches id s (on_dispatch id x s).
Proof.
  unfold on_dispatch. repeat case_match; try apply touches_refl; try apply close_touches.
  split_and!; [|done|].
  - intros j Hj. simpl. by rewrite lookup_alter_ne.
  - simpl. intros Hn. by rewrite lookup_alter_eq, Hn.
Qed.

(** The strand runs the response of a session whose call has been made. *)
Lemma on_dispatch_inv id x s c r :
  heap s !! id = Some c -> has_asked c r -> served r (entries id (actions s)) x ->
  entries id (tasks (pool s)) = [] -> entries id (posted (executor s)) = [] ->
  entries id (calls s) = [(r, x)] -> session_inv id (on_dispatch id x s).
Proof.
  intros Hc Ha Hsv Ht Hp Hca.
  assert (Hi : session_inv id s).
  { unfold session_inv, stage_of. rewrite Hc, Ht, Hp, Hca. by eapply stage_ended. }
  unfold on_dispatch. repeat case_match; try done; try (by apply close_inv).
  unfold session_inv, stage_of. simpl. rewrite lookup_alter_eq, Hc, Ht, Hp, Hca. simpl.
  destruct Ha as (? & Hs & ?). eapply stage_replied; try done. simpl. by rewrite Hs.
Qed.

(** What the stage of a session is when a response to it is posted. *)
Lemma posted_stage c ts ps cs ls x :
  stage c ts ps cs ls -> x ∈ ps ->
  exists r y, has_asked c r /\ served r ls y /\ ts = [] /\ ps = [y] /\ cs = [(r, y)].
Proof. destruct 1; intros Hin; try (by apply elem_of_nil in Hin). eauto 10. Qed.

Lemma posted_step n s id x :
  posted (executor s) !! n = Some (id, x) -> session_inv id s ->
  let e := executor s in
  let s1 := set_executor (mkExecutor (accept_started e) (retry_started e)
              (take n (posted e) ++ drop (S n) (posted e)) (closing e)) s in
  touches id s (on_dispatch id x s1) /\ session_inv id (on_dispatch id x s1).
Proof.
  intros Hn Hi e s1. split.
  - apply (touches_trans id s s1); [|apply on_dispatch_touches]. split_and!; [|done|done].
    intros j Hj. split_and!; try done. simpl. by eapply entries_taken_other.
  - assert (Hin : x ∈ entries id (posted (executor s))).
    { rewrite (entries_split id _ _ _ _ Hn), decide_True by done. set_solver. }
    unfold session_inv, stage_of, unused in Hi.
    destruct (heap s !! id) as [c|] eqn:Hc; [|destruct Hi as (_ & Hp & _); rewrite Hp in Hin; set_solver].
    destruct (posted_stage _ _ _ _ _ _ Hi Hin) as (r & y & Ha & Hsv & E1 & E2 & E3).
    destruct (entries_taken _ _ _ _ _ Hn E2) as [-> Hrest].
    by eapply (on_dispatch_inv id _ s1).
Qed.

Lemma release_entries n s j id x :
  tasks (pool s) !! n = Some (id, x) ->
  (j <> id -> entries j (tasks (pool (release n s))) = entries j (tasks (pool s))) /\
  (forall y, entries id (tasks (pool s)) = [y] -> x = y /\ entries id (tasks (pool (release n s))) = []).
Proof.
  intros Hn. split; [intros Hj; by eapply entries_taken_other|]. intros y Hy. by eapply entries_taken.
Qed.

(** What the stage of a session is when one of its tasks is in the pool. *)
Inductive task_stage (r : Request) (cs : list (Request * Response)) (ls : list (World * World)) :
  Task -> Prop :=
| task_queued : cs = [] -> ls = [] -> task_stage r cs ls (Queued r)
| task_running e0 e :
    cs = [] -> begin_dispatch dispatcher_ r = inr e0 -> acts e0 ls e -> task_stage r cs ls (Running r e)
| task_answered x : cs = [(r, x)] -> served r ls x -> task_stage r cs ls (Answered x).

Lemma stage_task c ts ps cs ls t :
  stage c ts ps cs ls -> t ∈ ts ->
  exists r, has_asked c r /\ ts = [t] /\ ps = [] /\ task_stage r cs ls t.
Proof.
  destruct 1 as [|r|r|r e0 l e|r l x|r l x|r l x|r l x p f]; intros Hin; try (by apply elem_of_nil in Hin);
    apply list_elem_of_singleton in Hin as ->; exists r; split_and!; try done; by econstructor.
Qed.

Lemma pool_task n s id t :
  tasks (pool s) !! n = Some (id, t) -> session_inv id s ->
  exists c r, heap s !! id = Some c /\ has_asked c r /\
    entries id (tasks (pool s)) = [t] /\ entries id (posted (executor s)) = [] /\
    task_stage r (entries id (calls s)) (entries id (actions s)) t.
Proof.
  intros Hn Hi.
  assert (Hin : t ∈ entries id (tasks (pool s))).
  { rewrite (entries_split id _ _ _ _ Hn), decide_True by done. set_solver. }
  unfold session_inv, stage_of, unused in Hi.
  destruct (heap s !! id) as [c|] eqn:Hc; [|destruct Hi as (Hp & _); rewrite Hp in Hin; set_solver].
  destruct (stage_task _ _ _ _ _ _ Hi Hin) as (r & ?). by exists c, r.
Qed.

(** The task at [n] is replaced. *)
Lemma set_task_entries n s id t t' :
  tasks (pool s) !! n = Some (id, t) -> entries id (tasks (pool s)) = [t] ->
  entries id (tasks (pool (set_task n id t' s))) = [t'] /\
  forall j, j <> id -> entries j (tasks (pool (set_task n id t' s))) = entries j (tasks (pool s)).
Proof.
  intros Hn Et. simpl. split.
  - rewrite (entries_insert id n _ id t), decide_True by done.
    destruct (entries_taken _ _ _ _ _ Hn Et) as [_ Hrest]. rewrite entries_app in Hrest.
    by apply app_eq_nil in Hrest as [-> ->].
  - intros j Hj. rewrite (entries_insert j n _ id t) by done. by rewrite decide_False.
Qed.

Lemma answer_step n s id t c r x :
  tasks (pool s) !! n = Some (id, t) -> entries id (tasks (pool s)) = [t] ->
  entries id (posted (executor s)) = [] -> entries id (calls s) = [] ->
  heap s !! id = Some c -> has_asked c r -> served r (entries id (actions s)) x ->
  touches id s (answer n id r x s) /\ session_inv id (answer n id r x s).
Proof.
  intros Hn Et Ep Ec Hc Ha Hsv. destruct (set_task_entries n s id t (Answered x) Hn Et) as [H1 H2]. split.
  - split_and!; try done. intros j Hj. split_and!; try done; [by apply H2|].
    simpl. by rewrite entries_app, entries_other, app_nil_r.
  - unfold session_inv, stage_of. simpl in *. rewrite Hc, H1, Ep, entries_app, Ec, entries_same.
    by eapply stage_answered.
Qed.

Lemma release_step n s id t c r :
  tasks (pool s) !! n = Some (id, t) -> heap s !! id = Some c -> has_asked c r ->
  entries id (tasks (pool s)) = [t] -> entries id (posted (executor s)) = [] ->
  task_stage r (entries id (calls s)) (entries id (actions s)) t ->
  (forall r e, t <> Running r e) ->
  touches id s (release n s) /\ session_inv id (release n s).
Proof.
  intros Hn Hc Ha Et Ep Hst Hnr. destruct (release_entries n s id id _ Hn) as [_ Hrel].
  destruct (Hrel _ Et) as [_ Hrest]. split.
  - split_and!; try done. intros j Hj. split_and!; try done. by apply (release_entries n s j id t).
  - unfold session_inv, stage_of. change (heap (release n s)) with (heap s).
    rewrite Hc, Hrest. simpl. rewrite Ep.
    destruct Hst as [-> ->|e0 e|x -> ?]; [by eapply stage_dropped|by destruct (Hnr r e)|by eapply stage_ended].
Qed.

Lemma run_task_step n s id t :
  tasks (pool s) !! n = Some (id, t) -> session_inv id s ->
  touches id s (run_task n s) /\ session_inv id (run_task n s).
Proof.
  intros Hn Hi. destruct (pool_task n s id t Hn Hi) as (c & r & Hc & Ha & Et & Ep & Hst).
  unfold run_task. rewrite Hn. destruct t as [r'|r' e|x]; try (by split; [apply touches_refl|]).
  case_match; [by split; [apply touches_refl|]|].
  destruct (read_flag id cancelled_ s); [by eapply release_step|].
  inversion Hst as [Ec El E| |]; subst r'.
  destruct (begin_dispatch dispatcher_ r) as [x|e] eqn:Hb.
  - eapply answer_step; try done. rewrite El. by apply served_refused.
  - destruct (set_task_entries n s id _ (Running r e) Hn Et) as [H1 H2]. split.
    + split_and!; try done. intros j Hj. split_and!; try done. by apply H2.
    + unfold session_inv, stage_of. simpl in *. rewrite Hc, H1, Ep, Ec, El.
      eapply stage_running; [done|done|constructor].
Qed.

Lemma act_task_step n s id t :
  tasks (pool s) !! n = Some (id, t) -> session_inv id s ->
  touches id s (act_task n s) /\ session_inv id (act_task n s).
Proof.
  intros Hn Hi. destruct (pool_task n s id t Hn Hi) as (c & r & Hc & Ha & Et & Ep & Hst).
  unfold act_task. rewrite Hn. destruct t as [r'|r' e|x]; try (by split; [apply touches_refl|]).
  inversion Hst as [|e0 e' Ec Hb Hacts E|]; subst r' e'. destruct e as [result|action].
  - eapply answer_step; try done. by eapply served_handled.
  - destruct (action (world s)) as [e w] eqn:Hact.
    destruct (set_task_entries n s id _ (Running r e) Hn Et) as [H1 H2]. split.
    + split_and!; try done. intros j Hj. split_and!; try done; [by apply H2|].
      simpl. by rewrite entries_app, entries_other, app_nil_r.
    + unfold session_inv, stage_of. simpl in *.
      rewrite Hc, H1, Ep, Ec, entries_app, entries_same. eapply stage_running; [done|done|].
      by eapply acts_on.
Qed.

Lemma finish_task_step n s id t :
  tasks (pool s) !! n = Some (id, t) -> session_inv id s ->
  touches id s (finish_task n s) /\ session_inv id (finish_task n s).
Proof.
  intros Hn Hi. destruct (pool_task n s id t Hn Hi) as (c & r & Hc & Ha & Et & Ep & Hst).
  unfold finish_task. rewrite Hn. destruct t as [r'|r' e|x]; try (by split; [apply touches_refl|]).
  destruct (read_flag id cancelled_ (release n s)); [by eapply release_step|].
  inversion Hst as [| |x' Ec Hsv E]; subst x'.
  destruct (release_entries n s id id _ Hn) as [_ Hrel]. destruct (Hrel _ Et) as [_ Hrest]. split.
  - split_and!; try done. intros j Hj. split_and!; try done.
    + by apply (release_entries n s j id (Answered x)).
    + simpl. by rewrite entries_app, entries_other, app_nil_r.
  - unfold session_inv, stage_of, set_executor. cbn [heap pool executor posted calls actions].
    change (heap (release n s)) with (heap s). change (executor (release n s)) with (executor s).
    change (calls (release n s)) with (calls s). change (actions (release n s)) with (actions s).
    rewrite Hc, Hrest, entries_app, Ep, entries_same, Ec. by eapply stage_posted.
Qed.

(** *** Every step *)

Lemma read_more_new id s :
  heap s !! id = Some (mkConnection (Session_new options) [] []) -> unused id s ->
  session_inv id (read_more id s).
Proof.
  intros Hc (U1 & U2 & U3 & U4). unfold read_more, read_flag. rewrite Hc. simpl.
  unfold session_inv, stage_of. simpl. rewrite lookup_alter_eq, Hc, U1, U2, U3, U4. simpl.
  apply stage_receiving; [done|]. right. apply Ipc.awaiting_new.
Qed.

Lemma stages_same s s' :
  stages s -> heap s' = heap s -> tasks (pool s') = tasks (pool s) -> posted (executor s') = posted (executor s) ->
  calls s' = calls s -> actions s' = actions s -> next_session s' = next_session s -> stages s'.
Proof.
  intros [Hs Hn] E1 E2 E3 E4 E5 E6. split.
  - intros id. unfold session_inv, stage_of, unused. rewrite E1, E2, E3, E4, E5. apply Hs.
  - intros id. rewrite E1, E6. apply Hn.
Qed.

Lemma on_accept_stages generation result s : stages s -> stages (on_accept generation result s).
Proof.
  intros Hst. unfold on_accept. repeat case_match; try done; try by apply (stages_same s).
  set (id := next_session s).
  assert (Hid : heap s !! id = None) by (by apply Hst).
  assert (Hu : unused id s).
  { pose proof (proj1 Hst id) as Hi. unfold session_inv in Hi. by rewrite Hid in Hi. }
  set (s1 := begin_accept_locked generation _).
  assert (Hc : heap s1 !! id = Some (mkConnection (Session_new options) [] [])) by apply lookup_insert_eq.
  split.
  - intros j. destruct (decide (j = id)) as [->|Hj]; [by apply read_more_new|].
    unfold read_more, read_flag. rewrite Hc. simpl. unfold session_inv, stage_of, unused. simpl.
    rewrite lookup_alter_ne, lookup_insert_ne by done. apply (proj1 Hst j).
  - intros j Hj. unfold read_more, read_flag in *. rewrite Hc in *. simpl in *.
    rewrite lookup_alter_ne, lookup_insert_ne by lia. apply Hst. lia.
Qed.

Lemma stop_stages s : stages s -> stages (stop s).
Proof.
  intros [Hs Hn]. split.
  - intros id. specialize (Hs id). unfold session_inv, stage_of, unused in *. simpl.
    rewrite map_lookup_imap. destruct (heap s !! id) as [c|]; simpl; [|done].
    case_bool_decide; [|done]. eapply stage_mono; [..|exact Hs]; try done. by right.
  - intros id Hid. simpl. by rewrite map_lookup_imap, Hn.
Qed.

Lemma start_stages valid path_lock prepared s : stages s -> stages (start valid path_lock prepared s).2.
Proof. intros Hs. unfold start. repeat case_match; simpl; first [done|by apply (stages_same s)]. Qed.

Lemma step_stages ev s : stages s -> stages (step ev s).
Proof.
  intros Hst. destruct ev as [valid path_lock prepared| | |result|expired|id error data|id error|id|n|n|n|n|n];
    unfold step.
  - by apply start_stages.
  - by apply stop_stages.
  - unfold shutdown. set (s1 := mkServerState (running_ s) true _ _ _ _ _ _ _ _ _).
    assert (Hs1 : stages s1) by (by apply (stages_same s)). apply stop_stages in Hs1.
    by apply (stages_same (stop s1)).
  - case_match; [|done]. apply on_accept_stages. by apply (stages_same s).
  - case_match; [|done]. unfold on_retry. repeat case_match; by apply (stages_same s).
  - destruct (heap s !! id) as [c|] eqn:Hc; [|done].
    destruct (read_started (session c)) eqn:Hr; [|done].
    apply (stages_touch id s); [done|apply on_read_touches|]. eapply on_read_inv; try done. apply Hst.
  - destruct (heap s !! id) as [c|]; [|done]. case_match; [|done]. destruct (on_write_step id error s) as [Ht Hi].
    apply (stages_touch id s); try done. apply Hi, Hst.
  - case_match; [|done]. unfold on_deadline. case_match; [|done].
    apply (stages_touch id s); [done|apply close_touches|]. apply close_inv, Hst.
  - destruct (tasks (pool s) !! n) as [[id t]|] eqn:Hn; [|unfold run_task; by rewrite Hn].
    destruct (run_task_step n s id t Hn) as [Ht Hi]; [apply Hst|]. by apply (stages_touch id s).
  - destruct (tasks (pool s) !! n) as [[id t]|] eqn:Hn; [|unfold act_task; by rewrite Hn].
    destruct (act_task_step n s id t Hn) as [Ht Hi]; [apply Hst|]. by apply (stages_touch id s).
  - destruct (tasks (pool s) !! n) as [[id t]|] eqn:Hn; [|unfold finish_task; by rewrite Hn].
    destruct (finish_task_step n s id t Hn) as [Ht Hi]; [apply Hst|]. by apply (stages_touch id s).
  - destruct (posted (executor s) !! n) as [[id x]|] eqn:Hn; [|done].
    destruct (posted_step n s id x Hn) as [Ht Hi]; [apply Hst|]. by apply (stages_touch id s).
  - destruct (closing (executor s) !! n) as [id|]; [|done]. set (s1 := set_executor _ s).
    assert (Hst1 : stages s1) by (by apply (stages_same s)).
    apply (stages_touch id s1); [done|apply close_touches|]. apply close_inv, Hst1.
Qed.

Lemma new_stages w : stages (ServerState_new w).
Proof.
  split; [|intros id _; apply lookup_empty]. intros id. unfold session_inv. simpl.
  by rewrite lookup_empty.
Qed.

Lemma run_inv (P : ServerState -> Prop) events s :
  (forall ev s, P s -> P (step ev s)) -> P s -> P (run events s).
Proof.
  intros Hstep. unfold run. revert s. induction events as [|ev events IH]; intros s Hs; simpl; [done|].
  by apply IH, Hstep.
Qed.

(** ** The handlers' actions, in order *)

(** The actions take the state the handlers act on from [w] to [w'], each from where the one
    before it left. *)
Inductive chained (w : World) : list (nat * (World * World)) -> World -> Prop :=
| chained_nil : chained w [] w
| chained_action l w1 id w2 : chained w l w1 -> chained w (l ++ [(id, (w1, w2))]) w2.

Definition no_action (s s' : ServerState) : Prop := actions s' = actions s /\ world s' = world s.

Lemma close_no_action id s s' : no_action s s' -> no_action s (close id s').
Proof. unfold close. by case_match. Qed.

Lemma process_request_no_action id payload s : no_action s (process_request id payload s).
Proof.
  unfold process_request, submit. destruct (read_flag id closed_ s); [done|].
  destruct (read_flag id cancelled_ s); [by apply close_no_action|].
  destruct (parse_request _ _); [|by apply close_no_action].
  destruct (negb _ || _); [by apply close_no_action|done].
Qed.

Lemma on_read_no_action id error data s : no_action s (on_read id error data s).
Proof.
  unfold on_read. set (s1 := update_session id _ s). case_match; [done|].
  case_match; [by apply close_no_action|]. destruct (heap s1 !! id); [|done]. simpl.
  destruct (Ipc.feed _ _) as [[decoded d]|]; [|done]. set (s2 := set_heap _ s1).
  destruct decoded as [[|payload [|]]|]; try by apply close_no_action.
  - unfold read_more. by case_match.
  - case_match; [by apply close_no_action|apply (process_request_no_action id payload s2)].
Qed.

Lemma step_chained ev s w :
  chained w (actions s) (world s) -> chained w (actions (step ev s)) (world (step ev s)).
Proof.
  intros Hl.
  assert (Hno : forall s', no_action s s' -> chained w (actions s') (world s')) by (intros s' [-> ->]; done).
  destruct ev as [valid path_lock prepared| | |result|expired|id error data|id error|id|n|n|n|n|n]; unfold step.
  - apply Hno. unfold start. by repeat case_match.
  - by apply Hno.
  - by apply Hno.
  - apply Hno. unfold on_accept, read_more. by repeat case_match.
  - apply Hno. unfold on_retry. by repeat case_match.
  - apply Hno. repeat case_match; try done. apply on_read_no_action.
  - apply Hno. unfold on_write. repeat case_match; try done; by apply close_no_action.
  - apply Hno. unfold on_deadline. repeat case_match; try done. by apply close_no_action.
  - apply Hno. unfold run_task. by repeat case_match.
  - unfold act_task. repeat case_match; try done. by constructor.
  - apply Hno. unfold finish_task. by repeat case_match.
  - apply Hno. unfold on_dispatch. repeat case_match; try done; by apply close_no_action.
  - apply Hno. case_match; [|done]. by apply close_no_action.
Qed.

(** ** The registry, the pool and the deadlines *)

Lemma busy_app l1 l2 : busy_count (l1 ++ l2) = busy_count l1 + busy_count l2.
Proof. unfold busy_count. by rewrite filter_app, Zlen_app. Qed.
Lemma busy_one x : busy_count [x] = Z.b2z (is_busy x.2).
Proof. unfold busy_count. rewrite filter_cons, filter_nil. by destruct (is_busy x.2). Qed.
Lemma busy_nonneg l : 0 <= busy_count l.
Proof. apply Zlen_nonneg. Qed.

(** The task at [n] among the others. *)
Lemma busy_at n l x :
  l !! n = Some x ->
  busy_count (take n l ++ drop (S n) l) = busy_count l - Z.b2z (is_busy x.2).
Proof.
  intros Hl. rewrite (split_at n l x Hl) at 3. rewrite !busy_app, busy_one. lia.
Qed.

Lemma busy_insert n l x y :
  l !! n = Some x -> busy_count (<[n := y]> l) = busy_count l - Z.b2z (is_busy x.2) + Z.b2z (is_busy y.2).
Proof.
  intros Hl. rewrite insert_take_drop by (by eapply lookup_lt_Some).
  rewrite <- (busy_at n l x Hl), busy_app. change (y :: drop (S n) l) with ([y] ++ drop (S n) l).
  rewrite !busy_app, busy_one. lia.
Qed.

Definition pool_ok (p : BoundedDispatcherPool) : Prop :=
  pending_ p = Zlen (tasks p) /\ pending_ p <= max_connections options /\
  busy p <= kDispatcherThreadCount.

Record server_ok (s : ServerState) : Prop := {
  ok_size : Z.of_nat (size (sessions_ s)) <= max_connections options;
  ok_registered id : id ∈ sessions_ s -> read_flag id closed_ s = false;
  ok_tracked id : read_flag id closed_ s = false -> id ∈ sessions_ s \/ id ∈ closing (executor s);
  ok_deadline id : read_flag id closed_ s = false -> read_flag id deadline_active_ s = true;
  ok_pool : pool_ok (pool s);
  ok_fresh id : (next_session s <= id)%nat -> heap s !! id = None
}.

(** Nothing the registry depends on has changed. *)
Definition same_flags (s s' : ServerState) : Prop :=
  (forall id, read_flag id closed_ s' = read_flag id closed_ s /\
              (read_flag id deadline_active_ s = true -> read_flag id deadline_active_ s' = true)) /\
  sessions_ s' = sessions_ s /\ closing (executor s') = closing (executor s) /\
  next_session s' = next_session s /\ (forall id, heap s !! id = None -> heap s' !! id = None).

Lemma server_ok_same s s' : server_ok s -> same_flags s s' -> pool_ok (pool s') -> server_ok s'.
Proof.
  intros [H1 H2 H3 H4 _ H7] (Hf & Hs & Hc & Hn & Hh) Hp. split; try done.
  - by rewrite Hs.
  - intros id. rewrite Hs. destruct (Hf id) as [-> _]. apply H2.
  - intros id. rewrite Hs, Hc. destruct (Hf id) as [-> _]. apply H3.
  - intros id. destruct (Hf id) as [-> Hd]. auto.
  - intros id. rewrite Hn. auto.
Qed.

Lemma server_ok_pool s : server_ok s -> pool_ok (pool s).
Proof. by intros []. Qed.

Lemma read_flag_update id f s j g :
  read_flag j g (update_session id f s) =
    if decide (j = id) then match heap s !! id with Some c => g (f (session c)) | None => true end
    else read_flag j g s.
Proof.
  unfold read_flag. simpl. case_decide as Hj.
  - subst. rewrite lookup_alter_eq. by destruct (heap s !! id).
  - by rewrite lookup_alter_ne.
Qed.

Lemma update_same_flags id f s :
  (forall x, closed_ (f x) = closed_ x /\ (deadline_active_ x = true -> deadline_active_ (f x) = true)) ->
  same_flags s (update_session id f s).
Proof.
  intros Hf. split_and!; try done.
  - intros j. rewrite !read_flag_update. case_decide; [subst|done]. unfold read_flag.
    destruct (heap s !! id) as [c|]; [apply Hf|done].
  - intros j Hj. simpl. destruct (decide (j = id)) as [->|].
    + by rewrite lookup_alter_eq, Hj.
    + by rewrite lookup_alter_ne.
Qed.

(** [close] takes a session off the registry. *)
Lemma close_flags id s j :
  read_flag j closed_ (close id s) = (if decide (j = id) then true else read_flag j closed_ s) /\
  (j <> id -> read_flag j deadline_active_ (close id s) = read_flag j deadline_active_ s).
Proof.
  unfold close. destruct (read_flag id closed_ s) eqn:Hc; [case_decide; [by subst|done]|].
  split.
  - change (read_flag j closed_ (set_sessions _ ?s1)) with (read_flag j closed_ s1).
    rewrite read_flag_update. case_decide; [|done]. by destruct (heap s !! id).
  - intros Hj. change (read_flag j deadline_active_ (set_sessions _ ?s1)) with (read_flag j deadline_active_ s1).
    by rewrite read_flag_update, decide_False.
Qed.

Lemma close_sessions id s : server_ok s -> sessions_ (close id s) = sessions_ s ∖ {[ id ]}.
Proof.
  intros Hok. unfold close. destruct (read_flag id closed_ s) eqn:Hc; [|done].
  assert (id ∉ sessions_ s); [|set_solver]. intros Hin%(ok_registered s Hok). congruence.
Qed.

Lemma close_ok id s : server_ok s -> server_ok (close id s).
Proof.
  intros Hok. pose proof (close_sessions id s Hok) as Hses. destruct (close_frame id s) as (Hp & He & _).
  split.
  - rewrite Hses. pose proof (ok_size s Hok).
    assert (size (sessions_ s ∖ {[id]}) <= size (sessions_ s))%nat by (apply subseteq_size; set_solver). lia.
  - intros j. rewrite Hses. destruct (close_flags id s j) as [-> _]. intros Hj.
    rewrite decide_False by set_solver. apply (ok_registered s Hok). set_solver.
  - intros j. rewrite Hses, He. destruct (close_flags id s j) as [-> _]. case_decide; [done|].
    intros Hc. destruct (ok_tracked s Hok j Hc); [left; set_solver|by right].
  - intros j. destruct (close_flags id s j) as [-> Hd]. case_decide; [done|].
    intros Hc. rewrite Hd by done. by apply (ok_deadline s Hok).
  - rewrite Hp. apply (ok_pool s Hok).
  - intros j Hj. destruct (close_touches id s) as (Hf & _ & Hd).
    assert (Hn : heap s !! j = None)
      by (apply (ok_fresh s Hok); unfold close in Hj; by case_match).
    destruct (decide (j = id)) as [->|Hne]; [auto|]. by destruct (Hf j Hne) as (-> & _).
Qed.

Lemma process_request_ok id payload s : server_ok s -> server_ok (process_request id payload s).
Proof.
  intros Hok. unfold process_request, submit. destruct (read_flag id closed_ s); [done|].
  destruct (read_flag id cancelled_ s); [by apply close_ok|].
  destruct (parse_request _ _) as [r|]; [|by apply close_ok].
  destruct (accepting_ (pool s)); simpl; [|by apply close_ok].
  destruct (Z.leb_spec (max_connections options) (pending_ (pool s))); [by apply close_ok|].
  apply (server_ok_same s); [done|by split_and!|]. destruct (ok_pool s Hok) as (H1 & H2 & H3).
  unfold pool_ok, busy in *. simpl. rewrite Zlen_app, busy_app, busy_one, H1 in *.
  split_and!; unfold Zlen in *; simpl in *; lia.
Qed.

Lemma on_read_ok id error data s : server_ok s -> server_ok (on_read id error data s).
Proof.
  intros Hok. unfold on_read. set (s1 := update_session id _ s).
  assert (Hok1 : server_ok s1).
  { apply (server_ok_same s); [done|by apply update_same_flags|by apply server_ok_pool in Hok]. }
  destruct (read_flag id closed_ s1) eqn:Hcl; [done|]. case_match; [by apply close_ok|].
  destruct (heap s1 !! id) as [c|] eqn:Hc; [|done]. simpl.
  destruct (Ipc.feed _ _) as [[decoded d]|]; [|done]. set (s2 := set_heap _ s1).
  assert (Hok2 : server_ok s2).
  { apply (server_ok_same s1); [done| |by apply server_ok_pool in Hok]. split_and!; try done.
    - intros j. unfold read_flag. simpl. destruct (decide (j = id)) as [->|].
      + rewrite lookup_insert_eq. simpl in Hc. rewrite Hc. done.
      + by rewrite lookup_insert_ne.
    - intros j Hj. simpl. rewrite lookup_insert_ne; [done|]. intros ->. congruence. }
  destruct decoded as [[|payload [|]]|]; try (by apply close_ok).
  - unfold read_more. case_match; [done|].
    by apply (server_ok_same s2); [|apply update_same_flags|apply server_ok_pool in Hok].
  - case_match; [by apply close_ok|by apply process_request_ok].
Qed.

Lemma on_write_ok id error s : server_ok s -> server_ok (on_write id error s).
Proof.
  intros Hok. unfold on_write. set (s1 := update_session id _ s).
  assert (Hok1 : server_ok s1).
  { apply (server_ok_same s); [done|by apply update_same_flags|by apply server_ok_pool in Hok]. }
  destruct (read_flag id closed_ s1) eqn:Hcl; [done|]. case_match; [by apply close_ok|].
  set (s2 := update_session id _ s1).
  assert (Hf2 : forall j, read_flag j closed_ s2 = read_flag j closed_ s1).
  { intros j. unfold s2. rewrite read_flag_update. case_decide; [subst|done]. unfold read_flag.
    by destruct (heap s1 !! id). }
  apply (server_ok_same (close id s1)); [by apply close_ok| |].
  - split_and!.
    + intros j. destruct (close_flags id s1 j) as [-> H1], (close_flags id s2 j) as [-> H2].
      rewrite Hf2. split; [done|]. destruct (decide (j = id)) as [->|Hj].
      * intros Hd. exfalso. unfold close in Hd. rewrite Hcl in Hd. unfold read_flag in Hd, Hcl.
        simpl in Hd, Hcl. rewrite lookup_alter_eq in Hcl. rewrite !lookup_alter_eq in Hd.
        by destruct (heap s !! id).
      * rewrite H1, H2 by done. unfold s2. by rewrite read_flag_update, decide_False.
    + unfold close. by rewrite Hf2, Hcl.
    + unfold close. by rewrite Hf2, Hcl.
    + unfold close. by rewrite Hf2, Hcl.
    + intros j. unfold close. rewrite Hf2, Hcl. simpl. destruct (decide (j = id)) as [->|Hj].
      * rewrite !lookup_alter_eq. by destruct (heap s !! id).
      * by rewrite !lookup_alter_ne.
  - destruct (close_frame id s2) as (-> & _). by apply server_ok_pool in Hok.
Qed.

Lemma server_ok_frame s s' :
  server_ok s -> heap s' = heap s -> sessions_ s' = sessions_ s ->
  closing (executor s') = closing (executor s) -> next_session s' = next_session s ->
  pool_ok (pool s') -> server_ok s'.
Proof.
  intros Hok Hh Hs Hc Hn Hp. apply (server_ok_same s); [done| |done].
  unfold same_flags, read_flag. by rewrite Hh.
Qed.

Lemma Zlen_taken {A} n (l : list A) x :
  l !! n = Some x -> Zlen (take n l ++ drop (S n) l) = Zlen l - 1.
Proof.
  intros Hl. rewrite (split_at n l x Hl) at 3. rewrite !Zlen_app. unfold Zlen. simpl. lia.
Qed.

Lemma release_pool_ok n s x :
  server_ok s -> tasks (pool s) !! n = Some x -> pool_ok (pool (release n s)).
Proof.
  intros Hok Hn. destruct (ok_pool s Hok) as (H1 & H2 & H3). unfold pool_ok, busy in *. simpl.
  rewrite (Zlen_taken n _ x), (busy_at n _ x) by done.
  split_and!; [lia|lia|]. destruct (is_busy x.2); simpl; lia.
Qed.

Lemma set_task_pool_ok n id t t' s :
  server_ok s -> tasks (pool s) !! n = Some (id, t) ->
  busy (pool s) < kDispatcherThreadCount \/ is_busy t = true -> pool_ok (pool (set_task n id t' s)).
Proof.
  intros Hok Hn Hb. destruct (ok_pool s Hok) as (H1 & H2 & H3). unfold pool_ok, busy in *. simpl.
  rewrite (busy_insert n _ (id, t)) by done. simpl. split_and!; [|done|].
  - unfold Zlen. by rewrite length_insert.
  - destruct Hb as [Hb|Hb]; [|rewrite Hb]; destruct (is_busy t'), (is_busy t); simpl; lia.
Qed.

Lemma on_accept_ok generation result s :
  server_ok s -> server_ok (on_accept generation result s).
Proof.
  intros Hok. pose proof (server_ok_pool s Hok) as Hpool. unfold on_accept.
  repeat case_match; try done; try by apply (server_ok_frame s).
  set (id := next_session s). set (s1 := begin_accept_locked generation _).
  assert (Hid : heap s !! id = None) by (by apply (ok_fresh s Hok)).
  assert (Hnew : id ∉ sessions_ s).
  { intros Hin%(ok_registered s Hok). unfold read_flag in Hin. by rewrite Hid in Hin. }
  assert (Hother : forall j g, j <> id -> read_flag j g s1 = read_flag j g s)
    by (intros j g Hj; unfold read_flag; simpl; by rewrite lookup_insert_ne).
  assert (Hc : heap s1 !! id = Some (mkConnection (Session_new options) [] [])) by apply lookup_insert_eq.
  unfold read_more. unfold read_flag at 1. rewrite Hc. simpl closed_.
  match goal with H : (_ <? _) = true |- _ => apply Z.ltb_lt in H end.
  split.
  - simpl. rewrite size_union by set_solver. rewrite size_singleton. lia.
  - intros j Hj. rewrite read_flag_update. case_decide; [by rewrite Hc|]. rewrite Hother by done.
    apply (ok_registered s Hok). simpl in Hj. set_solver.
  - intros j. rewrite read_flag_update. case_decide; [subst; left; simpl; set_solver|]. rewrite Hother by done.
    intros Hj%(ok_tracked s Hok). simpl. set_solver.
  - intros j. rewrite !read_flag_update. case_decide; [by rewrite Hc|]. rewrite !Hother by done.
    apply (ok_deadline s Hok).
  - apply Hpool.
  - intros j Hj. simpl in *. rewrite lookup_alter_ne, lookup_insert_ne by (unfold id; lia).
    apply (ok_fresh s Hok). lia.
Qed.

Lemma read_flag_stop id (g : Session -> bool) s :
  (forall x b, g (mkSession (decoder_ x) (response_frame_ x) (deadline_active_ x) (closed_ x) b
                    (read_started x) (write_started x)) = g x) ->
  read_flag id g (stop s) = read_flag id g s.
Proof.
  intros Hg. unfold read_flag. simpl. rewrite map_lookup_imap.
  destruct (heap s !! id) as [c|]; simpl; [|done]. case_bool_decide; simpl; [apply Hg|done].
Qed.

Lemma stop_ok s : 0 <= max_connections options -> server_ok s -> server_ok (stop s).
Proof.
  intros Hmax Hok. split.
  - change (sessions_ (stop s)) with (∅ : gset nat). rewrite size_empty. lia.
  - intros id Hid. simpl in Hid. set_solver.
  - intros id. rewrite read_flag_stop by done. intros Hc. right. simpl.
    destruct (ok_tracked s Hok id Hc); rewrite elem_of_app, elem_of_elements; tauto.
  - intros id. rewrite !read_flag_stop by done. apply (ok_deadline s Hok).
  - apply (ok_pool s Hok).
  - intros id Hid. simpl in *. by rewrite map_lookup_imap, (ok_fresh s Hok).
Qed.

Lemma on_dispatch_ok id x s : server_ok s -> server_ok (on_dispatch id x s).
Proof.
  intros Hok. unfold on_dispatch. repeat case_match; try done; try (by apply close_ok).
  apply (server_ok_same s); [done| |by apply server_ok_pool in Hok]. split_and!; try done.
  - intros j. unfold read_flag. simpl. destruct (decide (j = id)) as [->|].
    + rewrite lookup_alter_eq. by destruct (heap s !! id).
    + by rewrite lookup_alter_ne.
  - intros j Hj. simpl. destruct (decide (j = id)) as [->|].
    + by rewrite lookup_alter_eq, Hj.
    + by rewrite lookup_alter_ne.
Qed.

(** A posted close is executed. *)
Lemma closing_ok n id s :
  closing (executor s) !! n = Some id -> server_ok s ->
  let e := executor s in
  server_ok (close id (set_executor (mkExecutor (accept_started e) (retry_started e) (posted e)
                         (take n (closing e) ++ drop (S n) (closing e))) s)).
Proof.
  intros Hn Hok e. set (e1 := mkExecutor _ _ _ _).
  assert (close id (set_executor e1 s) = set_executor e1 (close id s)) as ->.
  { unfold close. change (read_flag id closed_ (set_executor e1 s)) with (read_flag id closed_ s).
    by case_match. }
  assert (Hex : executor (close id s) = e) by (by destruct (close_frame id s) as (_ & -> & _)).
  apply (close_ok id) in Hok as Hok1. split; try apply Hok1.
  intros j Hj. change (read_flag j closed_ (close id s) = false) in Hj.
  destruct (ok_tracked _ Hok1 j Hj) as [Hin|Hin]; [by left|right]. rewrite Hex in Hin.
  destruct (close_flags id s j) as [Hc _]. rewrite Hc in Hj. case_decide; [done|]. simpl.
  fold e in Hn. rewrite (split_at _ _ _ Hn) in Hin. set_solver.
Qed.

Lemma step_ok ev s : 0 <= max_connections options -> server_ok s -> server_ok (step ev s).
Proof.
  intros Hmax Hok. pose proof (server_ok_pool s Hok) as Hpool.
  destruct ev as [valid path_lock prepared| | |result|expired|id error data|id error|id|n|n|n|n|n]; unfold step.
  - unfold start. repeat case_match; simpl; first [done|by apply (server_ok_frame s)].
  - by apply stop_ok.
  - unfold shutdown. set (s1 := mkServerState (running_ s) true _ _ _ _ _ _ _ _ _).
    assert (Hs1 : server_ok s1) by (by apply (server_ok_frame s)).
    apply (stop_ok _ Hmax) in Hs1. by apply (server_ok_frame (stop s1)).
  - case_match; [|done]. apply on_accept_ok. by apply (server_ok_frame s).
  - case_match; [|done]. unfold on_retry. repeat case_match; by apply (server_ok_frame s).
  - repeat case_match; try done. by apply on_read_ok.
  - repeat case_match; try done. by apply on_write_ok.
  - case_match; [|done]. unfold on_deadline. case_match; [by apply close_ok|done].
  - unfold run_task. destruct (tasks (pool s) !! n) as [[id [r|r e|x]]|] eqn:Hn; try done.
    destruct (Z.leb_spec kDispatcherThreadCount (busy (pool s))); [done|].
    case_match; [by apply (server_ok_frame s); [..|by eapply release_pool_ok]|].
    case_match; (apply (server_ok_frame s); [done..|]; eapply (set_task_pool_ok n id); eauto).
  - unfold act_task. destruct (tasks (pool s) !! n) as [[id [r|r [result|action]|x]]|] eqn:Hn; try done.
    + apply (server_ok_frame s); [done..|]. eapply (set_task_pool_ok n id); eauto.
    + destruct (action (world s)) as [e w]. apply (server_ok_frame s); [done..|].
      eapply (set_task_pool_ok n id (Running r (Acting action)) (Running r e)); eauto.
  - unfold finish_task. destruct (tasks (pool s) !! n) as [[id [r|r e|x]]|] eqn:Hn; try done.
    case_match; (apply (server_ok_frame s); try done; by eapply release_pool_ok).
  - case_match; [|done]. case_match. apply on_dispatch_ok. by apply (server_ok_frame s).
  - destruct (closing (executor s) !! n) as [id|] eqn:Hn; [|done]. by apply closing_ok.
Qed.

Lemma new_ok w : 0 <= max_connections options -> server_ok (ServerState_new w).
Proof.
  intros Hmax. by split.
Qed.

Lemma served_id r l x : served r l x -> response_id x = request_id r.
Proof.
  assert (Hf : forall e, response_id (Response_failure (request_id r) e) = request_id r) by done.
  destruct 1 as [x Hb|e l result _ _].
  - unfold begin_dispatch in Hb. repeat case_match; by simplify_eq.
  - unfold end_dispatch. by repeat case_match.
Qed.

Lemma entries_elem {A} id (l : list (nat * A)) x : x ∈ entries id l <-> (id, x) ∈ l.
Proof.
  unfold entries. rewrite list_elem_of_omap. split.
  - intros ([j y] & Hin & Hx). simpl in Hx. case_decide; by simplify_eq.
  - intros Hin. exists (id, x). split; [done|]. simpl. by rewrite decide_True.
Qed.

(** What the history of a session says. *)
Definition exchange (id : nat) (c : Connection) (s : ServerState) : Prop :=
  (length (entries id (calls s)) <= 1)%nat /\ (length (sent c) <= 1)%nat /\
  (forall r x, (r, x) ∈ entries id (calls s) ->
     asked c r /\ response_id x = request_id r /\ served r (entries id (actions s)) x) /\
  (entries id (actions s) <> [] -> exists r e0 e,
     asked c r /\ begin_dispatch dispatcher_ r = inr e0 /\ acts e0 (entries id (actions s)) e) /\
  (forall frame, frame ∈ sent c -> exists r x p,
     entries id (calls s) = [(r, x)] /\
     serialize_response x (max_message_size options) = Ok p /\
     Ipc.encode_frame p (max_message_size options) = Ok frame).

(** The calls of a session, by its stage. *)
Lemma stage_calls c ts ps cs ls r x :
  stage c ts ps cs ls -> (r, x) ∈ cs -> cs = [(r, x)] /\ asked c r /\ served r ls x.
Proof.
  destruct 1 as [|r'|r'|r' e0 l e|r' l x'|r' l x'|r' l x'|r' l x' p f]; intros Hin;
    try (by apply elem_of_nil in Hin); apply list_elem_of_singleton in Hin as [= -> ->];
    unfold has_asked in *; naive_solver.
Qed.

Lemma served_acts r l x :
  served r l x -> l <> [] -> exists e0 e, begin_dispatch dispatcher_ r = inr e0 /\ acts e0 l e.
Proof. destruct 1; naive_solver. Qed.

Lemma stage_actions c ts ps cs ls :
  stage c ts ps cs ls -> ls <> [] ->
  exists r e0 e, asked c r /\ begin_dispatch dispatcher_ r = inr e0 /\ acts e0 ls e.
Proof.
  destruct 1 as [|r|r|r e0 l e (Ha & _)|r l x (Ha & _) Hs|r l x (Ha & _) Hs|r l x (Ha & _) Hs|r l x p f Ha ? ? Hs];
    intros Hl; try done; [by exists r, e0, e|..]; exists r;
    destruct (served_acts _ _ _ Hs Hl) as (e0 & e & ? & ?); by exists e0, e.
Qed.

Lemma exchange_of_stage id c s : stage_of id c s -> exchange id c s.
Proof.
  intros Hi. unfold stage_of in Hi. unfold exchange. split_and!.
  - destruct Hi; simpl; lia.
  - destruct Hi as [Hs|r (_ & Hs & _)|r (_ & Hs & _)|r e0 l e (_ & Hs & _)|r l x (_ & Hs & _)|
      r l x (_ & Hs & _)|r l x (_ & Hs & _)|r l x p frame ? Hs]; rewrite Hs; simpl; lia.
  - intros r x Hin. destruct (stage_calls _ _ _ _ _ _ _ Hi Hin) as (_ & ? & Hs).
    split_and!; [done|by eapply served_id|done].
  - by eapply stage_actions.
  - intros f. destruct Hi as [Hs|r (_ & Hs & _)|r (_ & Hs & _)|r e0 l e (_ & Hs & _)|r l x (_ & Hs & _)|
      r l x (_ & Hs & _)|r l x (_ & Hs & _)|r l x p frame ? Hs]; rewrite Hs;
      try (by intros ?%elem_of_nil). intros ->%list_elem_of_singleton. by exists r, x, p.
Qed.

Lemma run_chained w events :
  chained w (actions (run events (ServerState_new w))) (world (run events (ServerState_new w))).
Proof. apply (run_inv (fun s => chained w (actions s) (world s))); [intros; by apply step_chained|constructor]. Qed.

Lemma run_exchange w events id c :
  heap (run events (ServerState_new w)) !! id = Some c -> exchange id c (run events (ServerState_new w)).
Proof.
  intros Hc. apply exchange_of_stage.
  assert (Hi : session_inv id (run events (ServerState_new w)))
    by (apply (run_inv stages); [apply step_stages|apply new_stages]).
  unfold session_inv in Hi. by rewrite Hc in Hi.
Qed.

(** ** Theorems *)

(** C28: one request, one call, one response.  In every run of the server, a session makes at
    most one call of [dispatch] and writes at most one frame.  A call is made only for the
    request that the client's bytes are the frame of, followed by nothing or by a bare
    frame header (which the code means to refuse), and its response has the request's
    identifier; a written frame is the encoding of the response that call returned.  The
    handlers of different sessions interleave: the state they act on changes by their
    actions only, each action starting from where the one before it, of whichever session,
    left; and the actions of one session are, in order, those of one execution of the
    handler of its request, of the whole execution when the call has returned. *)
Theorem ipc_session_exchange (w : World) (events : list Event) :
  let s := run events (ServerState_new w) in
  chained w (actions s) (world s) /\
  forall id c, heap s !! id = Some c ->
    (length (entries id (calls s)) <= 1)%nat /\ (length (sent c) <= 1)%nat /\
    (forall r x, (r, x) ∈ entries id (calls s) ->
       asked c r /\ response_id x = request_id r /\ served r (entries id (actions s)) x) /\
    (entries id (actions s) <> [] -> exists r e0 e,
       asked c r /\ begin_dispatch dispatcher_ r = inr e0 /\ acts e0 (entries id (actions s)) e) /\
    (forall frame, frame ∈ sent c -> exists r x p,
       entries id (calls s) = [(r, x)] /\
       serialize_response x (max_message_size options) = Ok p /\
       Ipc.encode_frame p (max_message_size options) = Ok frame).
Proof. split; [apply run_chained|intros id c Hc; by apply run_exchange]. Qed.

(** C35: the server keeps to its limits.  In every run at most [max_connections] sessions are
    registered and at most [max_connections] tasks are pending, the counter of the pool
    being exact, and at most four tasks hold a thread; registered sessions are open, and an open session is registered or about
    to be closed by [stop]; and every open session has a deadline whose expiry closes it
    and takes it off the registry, so none can be held by its client for ever. *)
Theorem ipc_server_bounded (w : World) (events : list Event) :
  0 <= max_connections options ->
  let s := run events (ServerState_new w) in
  Z.of_nat (size (sessions_ s)) <= max_connections options /\
  pending_ (pool s) = Zlen (tasks (pool s)) /\ pending_ (pool s) <= max_connections options /\
  busy (pool s) <= kDispatcherThreadCount /\
  forall id c, heap s !! id = Some c ->
    (id ∈ sessions_ s -> closed_ (session c) = false) /\
    (closed_ (session c) = false ->
       (id ∈ sessions_ s \/ id ∈ closing (executor s)) /\
       let s' := step (EvDeadline id) s in
       read_flag id closed_ s' = true /\ id ∉ sessions_ s').
Proof.
  intros Hmax s.
  assert (Hok : server_ok s) by (apply (run_inv server_ok); [intros; by apply step_ok|by apply new_ok]).
  split_and!; [apply (ok_size s Hok)|apply (ok_pool s Hok)|apply (ok_pool s Hok)|apply (ok_pool s Hok)|].
  intros id c Hc.
  assert (Hflag : read_flag id closed_ s = closed_ (session c)) by (unfold read_flag; by rewrite Hc).
  split; [intros Hin; rewrite <- Hflag; by apply (ok_registered s Hok)|]. intros Hopen. rewrite <- Hflag in Hopen.
  split; [by apply (ok_tracked s Hok)|]. simpl. rewrite bool_decide_true by (by rewrite Hc).
  unfold on_deadline. rewrite (ok_deadline s Hok id Hopen).
  destruct (close_flags id s id) as [-> _]. rewrite decide_True by done. split; [done|].
  rewrite close_sessions by done. set_solver.
Qed.

End Server.

(** ** Witnesses *)

Definition sample_options : LocalServerOptions := mkLocalServerOptions 65536 2.

(** One method, which counts its calls: it reads the counter and then writes it. *)
Definition sample_handler : @MethodHandler Z := fun _ =>
  Acting (fun n => (Acting (fun _ =>
    (Ended (Returned (Ok (JObject [(bs "count", JUnsigned (n mod 2 ^ 64))]))), n + 1)), n)).
Definition sample_dispatcher : @Dispatcher Z :=
  (register_handler (bs "server.list") (Some sample_handler) Dispatcher_new).2.

(** The frame of a request. *)
Definition sample_frame : bytes :=
  match @serialize_request sample_json (sample_request (JObject [])) 65536 with
  | Ok p => Ipc.frame_image p
  | Err _ => []
  end.

(** Two sessions read a request each, the first in two pieces; their handlers both read the
    counter before either writes it. *)
Definition sample_events (tail : bytes) : list Event :=
  [EvStart success success success; EvAccept Accepted; EvAccept Accepted;
   EvRead 0 None (take 10 sample_frame); EvRead 0 None (drop 10 sample_frame ++ tail);
   EvRead 1 None sample_frame; EvRunTask 0; EvRunTask 1; EvActTask 0; EvActTask 1; EvActTask 1;
   EvActTask 0; EvActTask 0; EvActTask 1; EvFinishTask 0; EvFinishTask 0; EvPosted 0; EvPosted 0;
   EvWrite 0 None; EvWrite 1 None].

Definition sample_run (tail : bytes) : @ServerState Z :=
  @run sample_json Z sample_options sample_dispatcher (sample_events tail) (ServerState_new 7).

(** A client that sends a second header after its request is served all the same; and of the
    two calls one update of the counter is lost. *)
Lemma ipc_session_exchange_witness :
  let s := sample_run (u32_bytes 5) in
  world s = 8 /\ length (calls s) = 2%nat /\ chained 7 (actions s) (world s) /\
  exists c, heap s !! 0%nat = Some c /\ received c = sample_frame ++ u32_bytes 5 /\ length (sent c) = 1%nat /\
    entries 0 (actions s) = [(7, 7); (8, 8)] /\ (length (entries 0 (calls s)) <= 1)%nat.
Proof.
  unfold sample_run. destruct (@ipc_session_exchange sample_json Z sample_options sample_dispatcher 7 (sample_events (u32_bytes 5)))
    as [Hl Hc].
  split; [by vm_compute|]. split; [by vm_compute|]. split; [exact Hl|].
  set (s := run _ _ _ _) in *. destruct (heap s !! 0%nat) as [c|] eqn:E; [|by vm_compute in E].
  exists c. split; [done|]. pose proof (proj1 (Hc 0%nat c E)) as H1.
  vm_compute in E. injection E as <-. split; [by vm_compute|]. split; [done|].
  split; [by vm_compute|]. exact H1.
Defined.

Lemma ipc_server_bounded_witness :
  let s := @run sample_json Z sample_options sample_dispatcher
    [EvStart success success success; EvAccept Accepted; EvAccept Accepted; EvAccept Accepted]
    (ServerState_new 0) in
  size (sessions_ s) = 2%nat /\ Z.of_nat (size (sessions_ s)) <= 2 /\
  read_flag 0 closed_ (@step sample_json Z sample_options sample_dispatcher (EvDeadline 0) s) = true.
Proof.
  set (evs := [EvStart success success success; EvAccept Accepted; EvAccept Accepted; EvAccept Accepted]).
  destruct (@ipc_server_bounded sample_json Z sample_options sample_dispatcher 0 evs ltac:(done))
    as (H1 & _ & _ & _ & H2).
  split; [by vm_compute|]. split; [exact H1|].
  destruct (heap (@run sample_json Z sample_options sample_dispatcher evs (ServerState_new 0)) !! 0%nat)
    as [c|] eqn:E; [|by vm_compute in E].
  apply (H2 0%nat c E). vm_compute in E. by injection E as <-.
Defined.
