(* ===== verification/IpcPath.v ===== *)
(** * The path of the IPC socket

    The checks of the socket path and of the directories that lead to it:
    [validate_socket_path] and [validate_transport_limits] of src/ipc/local_internal.hpp,
    and [validate_directory_component], [validate_parent_directory] and
    [validate_server_options] of src/ipc/local_server.cpp.  What [lstat] and [strerror]
    return is a parameter.  The constants of the system are those of Linux. *)
From S2P Require Import Prelude Common Text IpcFrame.

Definition ch_slash : byte := Byte.x2f.

(** [sizeof(sockaddr_un::sun_path)]. *)
Definition kSunPathSize : Z := 108.
Definition kMaxLocalIpcTimeout : Z := 300000.
Definition kMaxConnections : Z := 4096.

(** ** The path itself *)

Definition bad_component (component : bytes) : bool :=
  bool_decide (component = []) || bool_decide (component = bs ".") || bool_decide (component = bs "..").

(** The loop of [validate_socket_path] on what follows [component_start]. *)
Fixpoint component_loop (fuel : nat) (rest : bytes) : option (Result unit) :=
  if decide (rest = []) then Some success
  else
    match fuel with
    | O => None
    | S fuel =>
        let component_end := find_char ch_slash rest in
        let component := match component_end with None => rest | Some n => take n rest end in
        if bad_component component then
          Some (failure invalid_argument
                  "IPC socket path must not contain empty, dot, or parent components")
        else
          match component_end with
          | None => Some success
          | Some n => component_loop fuel (drop (S n) rest)
          end
    end.

Definition validate_socket_path (path : bytes) : option (Result unit) :=
  match path with
  | [] => Some (failure invalid_argument "IPC socket path is empty")
  | first :: rest =>
      if negb (bool_decide (first = ch_slash)) then
        Some (failure invalid_argument "IPC socket path must be absolute")
      else if kSunPathSize <=? Zlen path then
        Some (failure invalid_argument "IPC socket path is too long")
      else if bool_decide (is_Some (find_char Byte.x00 path)) then
        Some (failure invalid_argument "IPC socket path contains NUL")
      else if (Zlen path =? 1) || bool_decide (last path = Some ch_slash) then
        Some (failure invalid_argument "IPC socket path has no filename")
      else component_loop (length rest) rest
  end.

(** [validate_transport_limits]; the timeout in milliseconds. *)
Definition validate_transport_limits (max_message_size timeout : Z) : Result unit :=
  if (max_message_size =? 0) || (Ipc.kDefaultMaxFrameSize <? max_message_size) then
    failure invalid_argument "IPC message limit must be between 1 byte and 1 MiB"
  else if (timeout <=? 0) || (kMaxLocalIpcTimeout <? timeout) then
    failure invalid_argument "IPC timeout must be between 1 millisecond and 5 minutes"
  else success.

(** ** The directories *)

(** The fields of [struct stat] that are looked at. *)
Record Stat : Set := mkStat { st_mode : Z; st_uid : Z }.

Definition S_ISDIR (mode : Z) : bool := Z.land mode 0xf000 =? 0x4000.
Definition S_IWGRP_IWOTH : Z := 0x12.
Definition S_ISVTX : Z := 0x200.

Section Directories.
(** [lstat]: the status or the error number; [strerror]; [geteuid()]. *)
Context (lstat : bytes -> Stat + Z) (strerror : Z -> bytes) (geteuid : Z).

(** [posix_error]. *)
Definition posix_error (error_number : Z) (operation : string) : Error :=
  let code :=
    if existsb (Z.eqb error_number) [13; 1; 40] then permission_denied   (* EACCES EPERM ELOOP *)
    else if existsb (Z.eqb error_number) [2; 20] then not_found          (* ENOENT ENOTDIR *)
    else if existsb (Z.eqb error_number) [98; 17] then already_exists    (* EADDRINUSE EEXIST *)
    else ipc_error in
  mkError code (bs operation ++ bs " failed: " ++ strerror error_number).

(** [parent_path]; the callers pass absolute paths. *)
Definition parent_path (path : bytes) : bytes :=
  match rfind_char ch_slash path with
  | Some O => take 1 path
  | Some slash => take slash path
  | None => path
  end.

(** [validate_directory_component]. *)
Definition validate_directory_component (path : bytes) (final_parent : bool) : Result unit :=
  match lstat path with
  | inr errno => Err (posix_error errno "IPC socket directory inspection")
  | inl status =>
      if negb (S_ISDIR (st_mode status)) then
        failure permission_denied "IPC socket path must contain only real directories"
      else if final_parent && negb (st_uid status =? geteuid) then
        failure permission_denied "IPC socket parent must be owned by the daemon user"
      else if negb final_parent && negb (st_uid status =? 0) && negb (st_uid status =? geteuid) then
        failure permission_denied "IPC socket ancestors must be owned by root or the daemon user"
      else
        let writable_by_others := negb (Z.land (st_mode status) S_IWGRP_IWOTH =? 0) in
        if writable_by_others && (final_parent || (Z.land (st_mode status) S_ISVTX =? 0)) then
          failure permission_denied
            "IPC socket directories must not expose an unprotected writable namespace"
        else success
  end.

(** The loop of [validate_parent_directory]. *)
Fixpoint directory_loop (fuel : nat) (current rest : bytes) : option (Result unit) :=
  if decide (rest = []) then Some success
  else
    match fuel with
    | O => None
    | S fuel =>
        let component_end := find_char ch_slash rest in
        let component := match component_end with None => rest | Some n => take n rest end in
        let current := current ++ ch_slash :: component in
        let final_parent := bool_decide (component_end = None) in
        match validate_directory_component current final_parent with
        | Err e => Some (Err e)
        | Ok _ =>
            match component_end with
            | None => Some success
            | Some n => directory_loop fuel current (drop (S n) rest)
            end
        end
    end.

Definition validate_parent_directory (path : bytes) : option (Result unit) :=
  let parent := parent_path path in
  let is_root := bool_decide (parent = [ch_slash]) in
  match validate_directory_component [ch_slash] is_root with
  | Err e => Some (Err e)
  | Ok _ =>
      if is_root then Some success else directory_loop (length parent) [] (drop 1 parent)
  end.

(** [LocalServerOptions], the fields that are validated. *)
Record ServerOptions : Set := mkServerOptions {
  socket_path : bytes;
  request_timeout : Z;
  options_max_message_size : Z;
  options_max_connections : Z;
  socket_mode : Z;
  owner_uid : option Z;
  group_gid : option Z
}.

(** [validate_server_options]; a [uid_t] and a [gid_t] have 32 bits. *)
Definition validate_server_options (o : ServerOptions) : option (Result unit) :=
  match validate_socket_path (socket_path o) with
  | Some (Ok _) =>
      match validate_transport_limits (options_max_message_size o) (request_timeout o) with
      | Err e => Some (Err e)
      | Ok _ =>
          if (options_max_connections o =? 0) || (kMaxConnections <? options_max_connections o) then
            Some (failure invalid_argument "IPC connection limit must be between 1 and 4096")
          else if negb (Z.ldiff (socket_mode o) 0x1ff =? 0) || negb (Z.land (socket_mode o) 0x7 =? 0) then
            Some (failure invalid_argument
                    "IPC socket mode must be a non-world-accessible permission mode")
          else if match owner_uid o with Some uid => 4294967295 <? uid | None => false end then
            Some (failure invalid_argument "IPC socket owner ID is out of range")
          else if match group_gid o with Some gid => 4294967295 <? gid | None => false end then
            Some (failure invalid_argument "IPC socket group ID is out of range")
          else if match owner_uid o with Some uid => negb (uid =? geteuid) | None => false end then
            Some (failure permission_denied "IPC socket owner must match the daemon's effective user ID")
          else validate_parent_directory (socket_path o)
      end
  | other => other
  end.
End Directories.

(** ** Paths as lists of components *)

(** The path of a list of components. *)
Definition join (components : list bytes) : bytes := concat (map (cons ch_slash) components).

(** A component with a name. *)
Definition proper (component : bytes) : Prop :=
  component <> [] /\ component <> bs "." /\ component <> bs ".." /\ ch_slash ∉ component.

Lemma bad_component_false c : bad_component c = false <-> c <> [] /\ c <> bs "." /\ c <> bs "..".
Proof. unfold bad_component. rewrite !orb_false_iff, !bool_decide_eq_false. tauto. Qed.

Lemma join_cons c cs : join (c :: cs) = ch_slash :: c ++ join cs.
Proof. done. Qed.

Lemma join_app cs ds : join (cs ++ ds) = join cs ++ join ds.
Proof. unfold join. by rewrite map_app, concat_app. Qed.

Definition plain (cs : list bytes) : Prop := Forall (fun c => ch_slash ∉ c) cs.

(** Every string is a component and the join of further ones. *)
Lemma split_components l : exists c cs, l = c ++ join cs /\ plain (c :: cs).
Proof.
  induction l as [|b l (c & cs & -> & Hp)]; [exists [], []; split; [done|by repeat constructor; set_solver]|].
  apply Forall_cons in Hp as [Hc Hcs]. destruct (decide (b = ch_slash)) as [->|Hb].
  - exists [], (c :: cs). split; [done|]. repeat constructor; [set_solver|done..].
  - exists (b :: c), cs. split; [done|]. constructor; [set_solver|done].
Qed.

(** The end of the first component. *)
Lemma find_slash_join c cs :
  ch_slash ∉ c ->
  find_char ch_slash (c ++ join cs) = match cs with [] => None | _ => Some (length c) end.
Proof.
  intros Hc. destruct cs as [|c2 cs].
  - rewrite app_nil_r. by apply find_char_None.
  - rewrite join_cons. by apply find_char_app.
Qed.

Lemma join_rest c cs : drop (S (length c)) (c ++ join cs) = match cs with [] => [] | d :: ds => d ++ join ds end.
Proof.
  destruct cs as [|d ds]; [by rewrite app_nil_r, drop_ge by lia|]. rewrite join_cons.
  replace (S (length c)) with (length c + 1)%nat by lia. by rewrite <- drop_drop, drop_app_length.
Qed.

Lemma join_nil_inv c cs : c ++ join cs = [] -> c = [] /\ cs = [].
Proof. destruct c, cs; [done|by intros [=]..]. Qed.

Lemma component_loop_spec fuel c cs :
  plain (c :: cs) -> last (c :: cs) <> Some [] -> (length (c ++ join cs) <= fuel)%nat ->
  exists r, component_loop fuel (c ++ join cs) = Some r /\
    (r = success <-> Forall (fun c => bad_component c = false) (c :: cs)).
Proof.
  revert c cs. induction fuel as [|fuel IH]; intros c cs Hp Hl Hf.
  { exfalso. destruct (join_nil_inv c cs) as [-> ->]; [|by apply Hl].
    by destruct (c ++ join cs); simpl in *; [|lia]. }
  cbn [component_loop]. apply Forall_cons in Hp as [Hc Hcs].
  destruct (decide (c ++ join cs = [])) as [Hn|Hn].
  { exfalso. apply join_nil_inv in Hn as [-> ->]. by apply Hl. }
  rewrite find_slash_join by done.
  assert (Hcomp : match (match cs with [] => None | _ => Some (length c) end) with
                  | None => c ++ join cs | Some n => take n (c ++ join cs) end = c).
  { destruct cs; [by rewrite app_nil_r|by rewrite take_app_length]. }
  rewrite Hcomp. destruct (bad_component c) eqn:Hb.
  { eexists. split; [done|]. split; [done|]. intros H. apply Forall_cons in H as [? _]. congruence. }
  destruct cs as [|d ds].
  { eexists. split; [done|]. split; [|done]. intros _. by repeat constructor. }
  rewrite join_rest. destruct (IH d ds) as (r & -> & Hr); [done|done| |].
  - rewrite join_cons, length_app in Hf. simpl in Hf. lia.
  - exists r. split; [done|]. rewrite Hr. rewrite (Forall_cons _ c). tauto.
Qed.

Lemma last_join ds f : ch_slash ∉ f -> last (join (ds ++ [f])) = Some ch_slash <-> f = [].
Proof.
  intros Hf. rewrite join_app. unfold join at 2. simpl. rewrite app_nil_r, last_app_cons.
  destruct f as [|b f]; [done|]. rewrite last_cons_cons. split; [|done].
  intros Hl%last_Some_elem_of. by destruct Hf.
Qed.

Lemma join_inj cs cs' : plain cs -> plain cs' -> join cs = join cs' -> cs = cs'.
Proof.
  revert cs'. induction cs as [|c cs IH]; intros [|c' cs'] Hp Hp' E; try done.
  apply Forall_cons in Hp as [Hc Hp], Hp' as [Hc' Hp']. rewrite !join_cons in E. injection E as E.
  pose proof (find_slash_join c cs Hc) as F. rewrite E, find_slash_join in F by done.
  assert (Hlen : length c = length c').
  { destruct cs as [|d ds], cs' as [|d' ds']; simplify_eq; [|done].
    unfold join in E. simpl in E. rewrite !app_nil_r in E. by subst. }
  apply app_inj_1 in E as [-> E]; [|done]. f_equal. by apply IH.
Qed.

Lemma proper_plain cs : Forall proper cs -> plain cs.
Proof. intros H. eapply Forall_impl; [exact H|]. by intros c (_ & _ & _ & ?). Qed.

Lemma proper_iff cs : plain cs -> Forall proper cs <-> Forall (fun c => bad_component c = false) cs.
Proof.
  intros Hp. unfold plain in Hp. rewrite !Forall_forall in *. unfold proper.
  split; intros H c Hc; specialize (H c Hc); specialize (Hp c Hc); [|apply bad_component_false in H; tauto].
  apply bad_component_false. tauto.
Qed.

(** [validate_socket_path] accepts the short absolute paths of named components. *)
Lemma validate_socket_path_iff path :
  exists r, validate_socket_path path = Some r /\
    (r = success <-> Zlen path < kSunPathSize /\ (Byte.x00 ∉ path) /\
       exists cs f, path = join (cs ++ [f]) /\ Forall proper (cs ++ [f])).
Proof.
  destruct path as [|b rest]; cbn [validate_socket_path].
  { eexists. split; [done|]. split; [done|]. intros (_ & _ & [|c cs] & f & Hp & _); done. }
  case_bool_decide as Hb; simpl negb; cbv iota.
  2: { eexists. split; [done|]. split; [done|]. intros (_ & _ & [|c cs] & f & Hp & _); by injection Hp. }
  destruct (Z.leb_spec kSunPathSize (Zlen (b :: rest))); [eexists; split; [done|]; split; [done|lia]|].
  case_bool_decide as Hz.
  { eexists. split; [done|]. split; [done|]. intros (_ & Hn & _). apply find_char_None in Hn.
    rewrite Hn in Hz. by destruct Hz. }
  assert (Hn : Byte.x00 ∉ b :: rest) by (apply find_char_None; by apply eq_None_not_Some).
  subst b. destruct (split_components rest) as (c & cs & -> & Hplain).
  rewrite <- join_cons in *.
  assert (Hiff : (exists cs' f', join (c :: cs) = join (cs' ++ [f']) /\ Forall proper (cs' ++ [f'])) <->
    Forall (fun c => bad_component c = false) (c :: cs)).
  { rewrite <- proper_iff by done. split.
    - intros (cs' & f' & E & Hpr). apply join_inj in E as ->; [done|done|by apply proper_plain].
    - intros Hpr. destruct (exists_last (l := c :: cs) ltac:(done)) as (ds & f & E).
      exists ds, f. by rewrite <- E. }
  destruct (exists_last (l := c :: cs) ltac:(done)) as (ds & f & Hsnoc).
  assert (Hf : ch_slash ∉ f).
  { unfold plain in Hplain. rewrite Hsnoc, Forall_app, Forall_singleton in Hplain. apply Hplain. }
  pose proof (last_join ds f Hf) as Hlast. rewrite <- Hsnoc in Hlast.
  destruct ((_ =? 1) || _) eqn:Hend.
  { eexists. split; [done|]. split; [done|]. intros (_ & _ & Hex). exfalso.
    rewrite Hiff, Hsnoc, Forall_app, Forall_singleton in Hex. destruct Hex as [_ Hbad].
    assert (Hfe : f = []); [|rewrite Hfe in Hbad; by vm_compute in Hbad].
    apply orb_prop in Hend as [Hone|Hl]; [|apply bool_decide_eq_true in Hl; by apply Hlast].
    apply Z.eqb_eq in Hone. rewrite Hsnoc, join_app in Hone. unfold join in Hone. simpl in Hone.
    rewrite Zlen_app, Zlen_cons, Zlen_app in Hone. unfold Zlen in Hone. destruct f; [done|]. simpl in Hone. lia. }
  apply orb_false_iff in Hend as [_ Hend]. apply bool_decide_eq_false in Hend.
  destruct (component_loop_spec (length (c ++ join cs)) c cs Hplain) as (r & -> & Hr); [|done|].
  { rewrite Hsnoc, last_snoc. intros [= ->]. by apply Hend, Hlast. }
  exists r. split; [done|]. rewrite Hr, <- Hiff. tauto.
Qed.

(** ** The directories of a path *)

Section Directories.
Context (lstat : bytes -> Stat + Z) (strerror : Z -> bytes) (geteuid : Z).

(** A real directory that others cannot change: the parent belongs to the daemon's user
    and to nobody else; an ancestor belongs to root or to that user, and if others may
    write to it, it is sticky. *)
Definition private_directory (path : bytes) (parent : bool) : Prop :=
  exists status, lstat path = inl status /\ S_ISDIR (st_mode status) = true /\
    let writable := Z.land (st_mode status) S_IWGRP_IWOTH <> 0 in
    if parent then st_uid status = geteuid /\ ~ writable
    else (st_uid status = 0 \/ st_uid status = geteuid) /\
         (writable -> Z.land (st_mode status) S_ISVTX <> 0).

(** The directory of the first components. *)
Definition directory (components : list bytes) : bytes :=
  match components with [] => [ch_slash] | _ => join components end.

Lemma validate_directory_iff path parent :
  validate_directory_component lstat strerror geteuid path parent = success <->
  private_directory path parent.
Proof.
  unfold validate_directory_component, private_directory.
  destruct (lstat path) as [st|]; [|split; [done|by intros (? & ? & _)]].
  split.
  - intros H. exists st. split; [done|]. destruct (S_ISDIR (st_mode st)); [|done]. split; [done|]. simpl in H.
    destruct parent; simpl in *; repeat case_match; try done; lia.
  - intros (st' & [= <-] & -> & H). simpl.
    destruct parent; simpl in *; repeat case_match; try done; lia.
Qed.

Lemma directory_loop_spec fuel current c cs :
  plain (c :: cs) -> Forall (fun c => c <> []) (c :: cs) -> (length (c ++ join cs) <= fuel)%nat ->
  exists r, directory_loop lstat strerror geteuid fuel current (c ++ join cs) = Some r /\
    (r = success <-> forall i, (1 <= i <= length (c :: cs))%nat ->
       private_directory (current ++ join (take i (c :: cs))) (bool_decide (i = length (c :: cs)))).
Proof.
  revert current c cs. induction fuel as [|fuel IH]; intros current c cs Hp Hne Hf;
    apply Forall_cons in Hp as [Hc Hp], Hne as [Hcne Hne].
  { exfalso. destruct c; [done|]. simpl in Hf. lia. }
  cbn [directory_loop].
  destruct (decide (c ++ join cs = [])) as [Hn|Hn]; [exfalso; by apply join_nil_inv in Hn as [-> _]|].
  rewrite find_slash_join by done.
  assert (Hcomp : match (match cs with [] => None | _ => Some (length c) end) with
                  | None => c ++ join cs | Some n => take n (c ++ join cs) end = c).
  { destruct cs; [by rewrite app_nil_r|by rewrite take_app_length]. }
  rewrite Hcomp. clear Hcomp.
  assert (Hfirst : current ++ join (take 1 (c :: cs)) = current ++ ch_slash :: c)
    by (unfold join; simpl; by rewrite app_nil_r).
  destruct cs as [|d ds].
  - rewrite bool_decide_true by done. simpl. rewrite <- Hfirst.
    pose proof (validate_directory_iff (current ++ join (take 1 [c])) true) as Hv.
    destruct (validate_directory_component _ _ _ _ _) as [[]|e].
    + exists success. split; [done|]. split; [|done]. intros _ i Hi. assert (i = 1%nat) as -> by lia. by apply Hv.
    + exists (Err e). split; [done|]. split; [done|]. intros Hall. apply Hv.
      specialize (Hall 1%nat). rewrite bool_decide_true in Hall by done. apply Hall. lia.
  - rewrite bool_decide_false by done. rewrite <- Hfirst.
    pose proof (validate_directory_iff (current ++ join (take 1 (c :: d :: ds))) false) as Hv.
    destruct (validate_directory_component _ _ _ _ _) as [[]|e].
    + rewrite join_rest, Hfirst. destruct (IH (current ++ ch_slash :: c) d ds) as (r & -> & Hr); [done|done| |].
      { rewrite join_cons, length_app in Hf. simpl in Hf. lia. }
      exists r. split; [done|]. rewrite Hr. split.
      * intros Hall [|[|i]] Hi; [lia| |].
        -- rewrite bool_decide_false by (simpl; lia). by apply Hv.
        -- specialize (Hall (S i)). simpl length in *. specialize (Hall ltac:(lia)).
           rewrite <- app_assoc in Hall. simpl in Hall.
           rewrite (bool_decide_ext (S (S i) = S (S (length ds))) (S i = S (length ds))) by lia.
           exact Hall.
      * intros Hall i Hi. specialize (Hall (S i)). simpl length in *. specialize (Hall ltac:(lia)).
        rewrite <- app_assoc. simpl. rewrite (bool_decide_ext (i = S (length ds)) (S i = S (S (length ds)))) by lia.
        by destruct i; [lia|].
    + exists (Err e). split; [done|]. split; [done|]. intros Hall. apply Hv.
      specialize (Hall 1%nat). rewrite bool_decide_false in Hall by (simpl; lia). apply Hall. simpl. lia.
Qed.

Lemma parent_path_join cs f : ch_slash ∉ f -> parent_path (join (cs ++ [f])) = directory cs.
Proof.
  intros Hf. unfold parent_path. rewrite join_app. unfold join at 2 4 6. simpl. rewrite app_nil_r.
  rewrite rfind_char_app by done. destruct cs as [|c cs]; [done|]. simpl directory.
  rewrite take_app_length. by destruct (length (join (c :: cs))) eqn:E; [by rewrite join_cons in E|].
Qed.

(** C36: the socket is reachable only through directories nobody else controls.  For every
    path [validate_socket_path] accepts, [validate_parent_directory] succeeds exactly when
    the root, every directory on the way and the parent of the socket are real
    directories, the ancestors owned by root or the daemon's user and not writable by
    others unless sticky, and the parent owned by the daemon's user and writable by nobody
    else. *)
Theorem socket_parent_private (path : bytes) :
  validate_socket_path path = Some success ->
  exists cs f r, path = join (cs ++ [f]) /\ Forall proper (cs ++ [f]) /\
    validate_parent_directory lstat strerror geteuid path = Some r /\
    (r = success <-> forall i, (i <= length cs)%nat ->
       private_directory (directory (take i cs)) (bool_decide (i = length cs))).
Proof.
  intros Hv. destruct (validate_socket_path_iff path) as (r0 & Hr & Hiff). rewrite Hv in Hr.
  injection Hr as <-. destruct (proj1 Hiff eq_refl) as (_ & _ & cs & f & -> & Hprop).
  pose proof (proper_plain _ Hprop) as Hplain. unfold plain in Hplain. rewrite Forall_app, Forall_singleton in Hplain.
  destruct Hplain as [Hpc Hpf]. exists cs, f. unfold validate_parent_directory.
  rewrite parent_path_join by done.
  pose proof (validate_directory_iff [ch_slash] (bool_decide (directory cs = [ch_slash]))) as Hroot.
  assert (Hz : bool_decide (directory cs = [ch_slash]) = bool_decide (0%nat = length cs)).
  { apply bool_decide_ext. destruct cs as [|c cs]; [done|]. simpl. split; [|done]. rewrite join_cons.
    intros [= ?%join_nil_inv]. apply Forall_app in Hprop as [Hprop _]. apply Forall_cons in Hprop as [[? _] _].
    naive_solver. }
  rewrite Hz in *.
  destruct (validate_directory_component lstat strerror geteuid [ch_slash] (bool_decide (0%nat = length cs)))
    as [[]|e].
  2: { exists (Err e). split_and!; try done. split; [done|]. intros Hall. apply Hroot.
       apply (Hall 0%nat). lia. }
  destruct cs as [|c cs].
  { exists success. split_and!; try done. split; [|done]. intros _ i Hi. assert (i = 0%nat) as -> by (simpl in Hi; lia).
    by apply Hroot. }
  rewrite bool_decide_false by done. cbn [directory]. rewrite join_cons.
  change (drop 1 (ch_slash :: c ++ join cs)) with (c ++ join cs).
  destruct (directory_loop_spec (length (ch_slash :: c ++ join cs)) [] c cs) as (r & -> & Hr).
  { done. }
  { apply Forall_app in Hprop as [Hprop _]. eapply Forall_impl; [exact Hprop|]. by intros x [? _]. }
  { simpl. lia. }
  exists r. split_and!; try done. rewrite Hr. split.
  - intros Hall [|i] Hi; [by apply Hroot|]. apply (Hall (S i)). lia.
  - intros Hall [|i] Hi; [lia|]. apply (Hall (S i)). lia.
Qed.
End Directories.

(** A file system whose root and /run belong to root, with a private /run/minitun. *)
Definition sample_lstat (path : bytes) : Stat + Z :=
  if decide (path = bs "/" \/ path = bs "/run") then inl (mkStat 0x41ed 0)
  else if decide (path = bs "/run/minitun") then inl (mkStat 0x41c0 1000)
  else inr 2.

Lemma socket_parent_private_witness :
  validate_socket_path (bs "/run/minitun/minitun.sock") = Some success /\
  exists cs f r, bs "/run/minitun/minitun.sock" = join (cs ++ [f]) /\ Forall proper (cs ++ [f]) /\
    validate_parent_directory sample_lstat (fun _ => []) 1000 (bs "/run/minitun/minitun.sock") = Some r /\
    (r = success <-> forall i, (i <= length cs)%nat ->
       private_directory sample_lstat 1000 (directory (take i cs)) (bool_decide (i = length cs))).
Proof.
  split; [by vm_compute|].
  apply (socket_parent_private sample_lstat (fun _ => []) 1000 (bs "/run/minitun/minitun.sock")).
  by vm_compute.
Defined.

Example sample_parent_private :
  validate_parent_directory sample_lstat (fun _ => []) 1000 (bs "/run/minitun/minitun.sock") = Some success.
Proof. by vm_compute. Qed.
