(* ===== verification/IpcClient.v ===== *)
(** * The local IPC client, and a call from end to end

    src/ipc/local_client.cpp: [ClientOperation], which connects, writes one framed request
    and reads one framed response, and [LocalClient::request].  The last part composes the
    client with the server of IpcServer.v over a reliable byte stream: what a caller gets
    is what the handler of its request returned. *)
From stdpp Require Import gmap.
From S2P Require Import Prelude Common Ids Codec Stream Json IpcFrame IpcProtocol IpcPath IpcServer.

(** The error codes [socket_error] tells apart. *)
Inductive SocketError : Set :=
| sock_eof | access_denied | no_permission | address_in_use
| sock_connection_refused | connection_aborted | sock_connection_reset | sock_broken_pipe
| not_connected | no_such_file | timed_out
| sock_no_descriptors | sock_no_buffer_space | sock_no_memory
| sock_other (value : Z).

#[export] Instance SocketError_eq_dec : EqDecision SocketError.
Proof. solve_decision. Defined.

Record LocalClientOptions : Set := mkLocalClientOptions {
  client_socket_path : bytes;
  connect_timeout : Z;
  client_request_timeout : Z;
  client_max_message_size : Z
}.

Inductive Phase : Set := idle | connecting | requesting | complete_phase.
#[export] Instance Phase_eq_dec : EqDecision Phase.
Proof. solve_decision. Defined.

(** [ClientOperation]; the flags are the asynchronous operations that are under way. *)
Record ClientOperation : Set := mkClientOperation {
  expected_request_id_ : Id;
  client_decoder : Ipc.FrameDecoder;
  outbound_ : bytes;
  result_ : option (Result Response);
  phase_ : Phase;
  connect_started : bool;
  client_write_started : bool;
  client_read_started : bool
}.

(** An operation with its history: what it wrote and what it read. *)
Record Client : Set := mkClient {
  operation : ClientOperation;
  written : bytes;
  client_received : bytes
}.

Section Client.
Context `{JsonLibrary}.
(** [error.message()]. *)
Context (describe : SocketError -> bytes) (options : LocalClientOptions).

(** [detail::socket_error], for an error code that is set. *)
Definition socket_error (error : SocketError) (operation : string) : Error :=
  let code :=
    match error with
    | access_denied | no_permission => permission_denied
    | address_in_use => already_exists
    | sock_connection_refused | connection_aborted | sock_connection_reset | sock_broken_pipe
    | not_connected | no_such_file => connection_failed
    | timed_out => connection_timeout
    | sock_no_descriptors | sock_no_buffer_space | sock_no_memory => resource_exhausted
    | sock_eof | sock_other _ => ipc_error
    end in
  mkError code (bs operation ++ bs " failed" ++ bs ": " ++ describe error).

Definition is_complete (o : ClientOperation) : bool := bool_decide (phase_ o = complete_phase).

(** [complete]. *)
Definition complete (result : Result Response) (o : ClientOperation) : ClientOperation :=
  if is_complete o then o
  else mkClientOperation (expected_request_id_ o) (client_decoder o) (outbound_ o) (Some result)
         complete_phase (connect_started o) (client_write_started o) (client_read_started o).

(** [run], up to [io_context_.run()]: the constructor and [arm_connect_deadline]. *)
Definition start_operation (expected : Id) (outbound : bytes) : Client :=
  mkClient (mkClientOperation expected (Ipc.FrameDecoder_new (client_max_message_size options)) outbound
              None connecting true false false) [] [].

(** The handler of [arm_connect_deadline], when the timer expires. *)
Definition on_connect_deadline (o : ClientOperation) : ClientOperation :=
  if bool_decide (phase_ o = connecting) then
    complete (failure connection_timeout "IPC socket connection timed out") o
  else o.

(** The handler of [arm_request_deadline], when the timer expires. *)
Definition on_request_deadline (o : ClientOperation) : ClientOperation :=
  if bool_decide (phase_ o = requesting) then
    complete (failure connection_timeout "IPC request timed out") o
  else o.

(** [on_connect]; the result says whether the write of [outbound_] is started. *)
Definition on_connect (error : option SocketError) (o : ClientOperation) : ClientOperation :=
  let o := mkClientOperation (expected_request_id_ o) (client_decoder o) (outbound_ o) (result_ o) (phase_ o)
             false (client_write_started o) (client_read_started o) in
  if is_complete o then o
  else
    match error with
    | Some e => complete (Err (socket_error e "IPC socket connection")) o
    | None => mkClientOperation (expected_request_id_ o) (client_decoder o) (outbound_ o) (result_ o)
                requesting (connect_started o) true (client_read_started o)
    end.

(** [read_response]. *)
Definition read_response (o : ClientOperation) : ClientOperation :=
  mkClientOperation (expected_request_id_ o) (client_decoder o) (outbound_ o) (result_ o) (phase_ o)
    (connect_started o) (client_write_started o) true.

(** [on_write]; [scrub_outbound] clears the request. *)
Definition client_on_write (error : option SocketError) (o : ClientOperation) : ClientOperation :=
  let o := mkClientOperation (expected_request_id_ o) (client_decoder o) (outbound_ o) (result_ o) (phase_ o)
             (connect_started o) false (client_read_started o) in
  if is_complete o then o
  else
    let o := mkClientOperation (expected_request_id_ o) (client_decoder o) [] (result_ o) (phase_ o)
               (connect_started o) (client_write_started o) (client_read_started o) in
    match error with
    | Some e => complete (Err (socket_error e "IPC request write")) o
    | None => read_response o
    end.

(** What [on_read] does with the payload of the response. *)
Definition read_payload (payload : bytes) (o : ClientOperation) : ClientOperation :=
  match parse_response payload (client_max_message_size options) with
  | Err e =>
      complete (Err (if decide (code e = invalid_argument) then
                       mkError protocol_error (bs "IPC peer returned a malformed response")
                     else e)) o
  | Ok response =>
      if negb (bool_decide (response_id response = expected_request_id_ o)) then
        complete (failure protocol_error "IPC response request_id does not match the request") o
      else complete (Ok response) o
  end.

(** [on_read]. *)
Definition client_on_read (error : option SocketError) (data : bytes) (o : ClientOperation) :
    ClientOperation :=
  let o := mkClientOperation (expected_request_id_ o) (client_decoder o) (outbound_ o) (result_ o) (phase_ o)
             (connect_started o) (client_write_started o) false in
  if is_complete o then o
  else
    match error with
    | Some sock_eof =>
        match Ipc.finish (client_decoder o) with
        | Err e => complete (Err e) o
        | Ok _ => complete (failure ipc_error "IPC peer closed before responding") o
        end
    | Some e => complete (Err (socket_error e "IPC response read")) o
    | None =>
        match Ipc.feed (client_decoder o) data with
        | None => o
        | Some (decoded, d) =>
            let o := mkClientOperation (expected_request_id_ o) d (outbound_ o) (result_ o) (phase_ o)
                       (connect_started o) (client_write_started o) (client_read_started o) in
            match decoded with
            | Err e => complete (Err e) o
            | Ok [] => read_response o
            | Ok [payload] =>
                if negb (Ipc.buffered_size d =? 0) then
                  complete (failure protocol_error "IPC peer sent an unexpected extra response") o
                else read_payload payload o
            | Ok _ => complete (failure protocol_error "IPC peer sent an unexpected extra response") o
            end
        end
    end.

Inductive ClientEvent : Set :=
| CConnected (error : option SocketError)
| CConnectDeadline
| CRequestDeadline
| CWrote (error : option SocketError)
| CRead (error : option SocketError) (data : bytes).

(** Events of operations that were not started change nothing.  A completed write has
    written all of [outbound_]. *)
Definition client_step (ev : ClientEvent) (c : Client) : Client :=
  let o := operation c in
  match ev with
  | CConnected error =>
      if connect_started o then mkClient (on_connect error o) (written c) (client_received c) else c
  | CConnectDeadline => mkClient (on_connect_deadline o) (written c) (client_received c)
  | CRequestDeadline => mkClient (on_request_deadline o) (written c) (client_received c)
  | CWrote error =>
      if client_write_started o then
        mkClient (client_on_write error o)
          (written c ++ match error with None => outbound_ o | Some _ => [] end) (client_received c)
      else c
  | CRead error data =>
      if client_read_started o then
        mkClient (client_on_read error data o) (written c)
          (client_received c ++ match error with None => data | Some _ => [] end)
      else c
  end.

Definition client_run (events : list ClientEvent) (c : Client) : Client :=
  fold_left (fun c ev => client_step ev c) events c.

(** [run] after the executor has no more work. *)
Definition operation_result (o : ClientOperation) : Result Response :=
  match result_ o with
  | Some r => r
  | None => failure internal_error "IPC client operation ended without a response"
  end.

(** [validate_options]. *)
Definition validate_options (o : LocalClientOptions) : option (Result unit) :=
  match validate_socket_path (client_socket_path o) with
  | Some (Ok _) =>
      Some (_ ← validate_transport_limits (client_max_message_size o) (connect_timeout o);
            validate_transport_limits (client_max_message_size o) (client_request_timeout o))
  | other => other
  end.

(** The first half of [LocalClient::request]: the operation it starts. *)
Definition prepare_request (r : Request) : option (Result Client) :=
  match validate_options options with
  | Some (Ok _) =>
      Some (payload ← serialize_request r (client_max_message_size options);
            frame ← Ipc.encode_frame payload (client_max_message_size options);
            Ok (start_operation (request_id r) frame))
  | Some (Err e) => Some (Err e)
  | None => None
  end.

(** [LocalClient::request], for the events its operation sees. *)
Definition local_request (r : Request) (events : list ClientEvent) : option (Result Response) :=
  match prepare_request r with
  | Some (Ok c) => Some (operation_result (operation (client_run events c)))
  | Some (Err e) => Some (Err e)
  | None => None
  end.

(** ** The invariant of an operation *)

(** What an accepted response is. *)
Definition answered (expected : Id) (outbound : bytes) (c : Client) (x : Response) : Prop :=
  written c = outbound /\ response_id x = expected /\
  exists payload tail, client_received c = Ipc.frame_image payload ++ tail /\
    Ipc.spare (client_max_message_size options) tail /\
    parse_response payload (client_max_message_size options) = Ok x.

(** The operation by phase; a completed one keeps its result. *)
Inductive client_stage (expected : Id) (outbound : bytes) (c : Client) : Prop :=
| client_connecting :
    phase_ (operation c) = connecting -> client_write_started (operation c) = false ->
    client_read_started (operation c) = false -> outbound_ (operation c) = outbound ->
    written c = [] -> client_received c = [] -> result_ (operation c) = None ->
    Ipc.awaiting (client_max_message_size options) (client_decoder (operation c)) [] ->
    client_stage expected outbound c
| client_writing :
    phase_ (operation c) = requesting -> client_write_started (operation c) = true ->
    connect_started (operation c) = false ->
    client_read_started (operation c) = false -> outbound_ (operation c) = outbound ->
    written c = [] -> client_received c = [] -> result_ (operation c) = None ->
    Ipc.awaiting (client_max_message_size options) (client_decoder (operation c)) [] ->
    client_stage expected outbound c
| client_reading :
    phase_ (operation c) = requesting -> client_write_started (operation c) = false ->
    connect_started (operation c) = false ->
    client_read_started (operation c) = true ->
    written c = outbound -> result_ (operation c) = None ->
    Ipc.awaiting (client_max_message_size options) (client_decoder (operation c)) (client_received c) ->
    client_stage expected outbound c
| client_failed e :
    phase_ (operation c) = complete_phase -> result_ (operation c) = Some (Err e) ->
    client_stage expected outbound c
| client_answered x :
    phase_ (operation c) = complete_phase -> client_write_started (operation c) = false ->
    client_read_started (operation c) = false -> result_ (operation c) = Some (Ok x) ->
    answered expected outbound c x -> client_stage expected outbound c.

Definition client_inv (expected : Id) (outbound : bytes) (c : Client) : Prop :=
  expected_request_id_ (operation c) = expected /\ client_stage expected outbound c.

Lemma complete_failed expected outbound e o w r :
  expected_request_id_ o = expected -> is_complete o = false ->
  client_inv expected outbound (mkClient (complete (Err e) o) w r).
Proof.
  intros He Hc. unfold complete. rewrite Hc. split; [done|]. by eapply client_failed.
Qed.

Lemma is_complete_iff o : is_complete o = true <-> phase_ o = complete_phase.
Proof. apply bool_decide_eq_true. Qed.

Lemma client_read_step expected outbound error data c :
  client_inv expected outbound c -> client_read_started (operation c) = true ->
  client_inv expected outbound (client_step (CRead error data) c).
Proof.
  intros [He Hs] Hr. unfold client_step. rewrite Hr. unfold client_on_read.
  set (o1 := mkClientOperation _ _ _ _ _ _ _ false).
  destruct Hs as [Hp ? Hr'|Hp ? ? Hr'|Hp Hw Hcn _ Hwr Hres Haw|e Hp Hres|x Hp ? Hr']; try congruence.
  2: { assert (is_complete o1 = true) as -> by (by apply is_complete_iff). split; [done|]. by eapply client_failed. }
  assert (Hnc : is_complete o1 = false) by (apply not_true_iff_false; rewrite is_complete_iff; simpl; congruence).
  rewrite Hnc. destruct error as [[]|]; try (by apply complete_failed).
  { destruct (Ipc.finish (client_decoder o1)); by apply complete_failed. }
  destruct (Ipc.awaiting_feed _ _ _ data Haw) as (r & d & E & Hsp). simpl client_decoder. rewrite E.
  set (o2 := mkClientOperation _ d _ _ _ _ _ _).
  assert (Hnc2 : is_complete o2 = false) by done.
  destruct r as [[|payload [|]]|]; try (by apply complete_failed).
  - destruct Hsp as [Hrec Haw']. split; [done|]. apply client_reading; try done. simpl in *. by rewrite Hrec.
  - destruct Hsp as [Hrec Haw']. destruct (Z.eqb_spec (Ipc.buffered_size d) 0); [|by apply complete_failed].
    simpl. unfold read_payload. destruct (parse_response payload _) as [x|] eqn:Hpr; [|by apply complete_failed].
    case_bool_decide as Hid; [|by apply complete_failed]. unfold complete. rewrite Hnc2. split; [done|].
    eapply client_answered; try done. split_and!; [done|by rewrite Hid|].
    exists payload, (Ipc.pending d). split_and!; [|by apply Ipc.pending_spare|done].
    simpl in *. by rewrite Hrec, app_nil_r.
Qed.

Lemma client_step_inv expected outbound ev c :
  client_inv expected outbound c -> client_inv expected outbound (client_step ev c).
Proof.
  intros Hi. pose proof Hi as [He Hs]. destruct ev as [error| | |error|error data]; unfold client_step.
  - destruct (connect_started (operation c)) eqn:Hc; [|done]. unfold on_connect.
    set (o1 := mkClientOperation _ _ _ _ _ false _ _).
    destruct Hs as [Hp|Hp ? ?|Hp ? ?|e Hp Hres|x Hp ? ? ? Ha]; try congruence.
    + assert (is_complete o1 = false) as -> by (apply not_true_iff_false; rewrite is_complete_iff; simpl; congruence).
      destruct error; [apply complete_failed; [done|]|split; [done|by apply client_writing]].
      apply not_true_iff_false; rewrite is_complete_iff; simpl; congruence.
    + assert (is_complete o1 = true) as -> by (by apply is_complete_iff). split; [done|]. by eapply client_failed.
    + assert (is_complete o1 = true) as -> by (by apply is_complete_iff). split; [done|]. by eapply client_answered.
  - unfold on_connect_deadline. case_bool_decide as Hp; [|by destruct c].
    apply complete_failed; [done|]. apply not_true_iff_false; rewrite is_complete_iff; congruence.
  - unfold on_request_deadline. case_bool_decide as Hp; [|by destruct c].
    apply complete_failed; [done|]. apply not_true_iff_false; rewrite is_complete_iff; congruence.
  - destruct (client_write_started (operation c)) eqn:Hc; [|done]. unfold client_on_write.
    set (o1 := mkClientOperation _ _ _ _ _ _ false _).
    destruct Hs as [Hp ?|Hp ? ? Hr Ho Hw Hrec|Hp ?|e Hp Hres|x Hp ?]; try congruence.
    + assert (Hnc : is_complete o1 = false) by (apply not_true_iff_false; rewrite is_complete_iff; simpl; congruence).
      rewrite Hnc. destruct error; [by apply complete_failed|]. split; [done|].
      apply client_reading; try done; simpl; [by rewrite Hw|by rewrite Hrec].
    + assert (is_complete o1 = true) as -> by (by apply is_complete_iff). split; [done|]. by eapply client_failed.
  - destruct (client_read_started (operation c)) eqn:Hc; [|done].
    pose proof (client_read_step expected outbound error data c Hi Hc) as Hk.
    unfold client_step in Hk. by rewrite Hc in Hk.
Qed.

Lemma client_run_inv expected outbound events c :
  client_inv expected outbound c -> client_inv expected outbound (client_run events c).
Proof.
  unfold client_run. revert c. induction events as [|ev events IH]; intros c Hc; simpl; [done|].
  by apply IH, client_step_inv.
Qed.

Lemma start_operation_inv expected outbound : client_inv expected outbound (start_operation expected outbound).
Proof. split; [done|]. apply client_connecting; try done. apply Ipc.awaiting_new. Qed.

Lemma client_ok expected outbound events x :
  let c := client_run events (start_operation expected outbound) in
  operation_result (operation c) = Ok x -> answered expected outbound c x.
Proof.
  intros c Hx. destruct (client_run_inv expected outbound events _ (start_operation_inv expected outbound)) as [_ Hs].
  fold c in Hs. unfold operation_result in Hx.
  destruct Hs as [? ? ? ? ? ? Hr|? ? ? ? ? ? ? Hr|? ? ? ? ? Hr|e ? Hr|y ? ? ? Hr Ha]; rewrite Hr in Hx;
    simplify_eq. done.
Qed.

End Client.

(** ** A call from end to end *)

Section EndToEnd.
Context `{JsonLibraryLaws} {World : Type} (dispatcher : @Dispatcher World).
Context (describe : SocketError -> bytes).
Context (client_options : LocalClientOptions) (server_options : LocalServerOptions).

(** The results of the handlers are JSON values of the library: distinct keys and machine
    integers. *)
Definition handlers_built : Prop := forall m h r l result,
  handlers_ dispatcher !! m = Some h -> acts (h r) l (Ended (Returned (Ok result))) ->
  distinct_keys result = true /\ numbers_in_range result = true.

Lemma served_built r l x : handlers_built -> served dispatcher r l x -> response_built x.
Proof.
  intros Hh.
  assert (Hfail : forall e, response_built (Response_failure (request_id r) e)).
  { intros e. destruct (Response_failure_sound (request_id r) e) as (e' & -> & Hk & _). exact Hk. }
  destruct 1 as [x Hb|e l result Hb Hacts]; unfold begin_dispatch in Hb.
  - repeat case_match; simplify_eq; apply Hfail.
  - case_match; [done|]. case_match; [|done]. case_match; [done|].
    destruct (handlers_ dispatcher !! method r) as [h|] eqn:Hl; [|done]. injection Hb as <-.
    unfold end_dispatch. destruct result as [[result|e]|]; [|apply Hfail..].
    case_match; [apply Hfail|]. by eapply Hh.
Qed.

Lemma prepare_request_ok r c0 :
  prepare_request client_options r = Some (Ok c0) -> exists p,
    serialize_request r (client_max_message_size client_options) = Ok p /\ p <> [] /\
    Zlen p <= Ipc.effective_limit (client_max_message_size client_options) /\
    c0 = start_operation client_options (request_id r) (Ipc.frame_image p).
Proof.
  unfold prepare_request, mbind, outcome_bind. destruct (validate_options client_options) as [[]|]; [|done..].
  destruct (serialize_request r _) as [p|] eqn:Hs; [|done].
  destruct (Ipc.encode_frame p _) as [frame|] eqn:Hf; [|done]. intros [= <-].
  apply Ipc.ipc_encode_frame_ok in Hf as (Hne & Hl & ->). by exists p.
Qed.

Lemma effective_max m m' (p : bytes) :
  Zlen p <= Ipc.effective_limit m -> Zlen p <= Ipc.effective_limit (Z.max m m').
Proof. unfold Ipc.effective_limit. lia. Qed.

(** The bytes of one frame that were all delivered. *)
Lemma delivered m m' (p q : bytes) tail :
  p <> [] -> q <> [] -> Zlen p <= Ipc.effective_limit m -> Zlen q <= Ipc.effective_limit m' ->
  (Ipc.frame_image p ++ tail) `prefix_of` Ipc.frame_image q -> p = q.
Proof.
  intros Hp Hq Hlp Hlq Hpre. apply (Ipc.frame_image_prefix (Z.max m m')) in Hpre as [? _]; try done.
  - by apply effective_max.
  - rewrite Z.max_comm. by apply effective_max.
Qed.

(** C27: an IPC call is a call.  When the client's operation ends with a response, over a
    connection that delivers a prefix of what each side wrote, the server has dispatched
    exactly the caller's request (its parameters as the JSON library reads them) on this
    connection and once, its handler has run to its end, its actions interleaved with
    those of the other sessions' handlers, and the response is what this execution
    returned, error codes and messages included. *)
Theorem ipc_call_exact (w : World) (server_events : list Event) (client_events : list ClientEvent)
    (r : Request) (c0 : Client) (id : nat) (conn : Connection) (y : Response) :
  canonical request (str (request_id r)) ->
  distinct_keys (params r) = true -> numbers_in_range (params r) = true -> handlers_built ->
  prepare_request client_options r = Some (Ok c0) ->
  let c := client_run describe client_options client_events c0 in
  let s := run server_options dispatcher server_events (ServerState_new w) in
  heap s !! id = Some conn ->
  received conn `prefix_of` written c -> client_received c `prefix_of` concat (sent conn) ->
  operation_result (operation c) = Ok y ->
  let r' := mkRequest (version r) (request_id r) (method r) (as_parsed (params r)) in
  chained w (actions s) (world s) /\
  exists x, entries id (calls s) = [(r', x)] /\ served dispatcher r' (entries id (actions s)) x /\
    y = mkResponse (request_id r) (payload_parsed (payload x)).
Proof.
  intros Hid Hk Hn Hh Hprep c s Hconn Hup Hdown Hy r'.
  destruct (prepare_request_ok r c0 Hprep) as (p & Hs & Hpne & Hpl & ->).
  pose proof (client_ok describe client_options _ _ client_events y Hy) as (Hw & Hyid & q & qt & Hq & _ & Hqr).
  fold c in Hw, Hq. rewrite Hw in Hup. rewrite Hq in Hdown.
  destruct (run_exchange server_options dispatcher w server_events id conn Hconn) as (Hc1 & Hs1 & Hcalls & _ & Hsent).
  fold s in Hc1, Hcalls, Hsent.
  (* the response frame *)
  destruct (sent conn) as [|frame [|]] eqn:Hse; [|clear Hs1|simpl in Hs1; lia].
  { exfalso. apply prefix_nil_inv, app_eq_nil in Hdown as [Hz _]. by apply app_eq_nil in Hz as [? _]. }
  simpl in Hdown. rewrite app_nil_r in Hdown.
  destruct (Hsent frame) as (r1 & x & px & Hent & Hser & Henc); [by left|].
  apply Ipc.ipc_encode_frame_ok in Henc as (Hxne & Hxl & ->).
  destruct (parse_response_limit _ _ (max_message_size server_options) _ Hqr) as (Hqne & Hql & Hqlim).
  assert (q = px) as -> by (by apply (delivered _ _ q px qt Hqne Hxne Hql Hxl)).
  (* the request *)
  destruct (Hcalls r1 x) as ((payload & tail & Hrec & _ & Hparse) & Hxid & Hserved); [rewrite Hent; by left|].
  rewrite Hrec in Hup.
  destruct (parse_request_limit _ _ (client_max_message_size client_options) _ Hparse) as (Hne & Hpl' & Hlim).
  assert (payload = p) as -> by (by apply (delivered _ _ payload p tail Hne Hpne Hpl' Hpl)).
  destruct (request_roundtrip r _ p Hid Hk Hn Hs) as (_ & Hgood & Hbad).
  rewrite (Hlim Hpl) in Hgood, Hbad.
  assert (r1 = r') as ->.
  { destruct (tree_ok_dec (request_document r)) as [Hok|Hno]; [|by specialize (Hbad Hno)].
    specialize (Hgood Hok). by injection Hgood. }
  split; [apply run_chained|]. exists x. split_and!; [done|done|].
  assert (Hbuilt : response_built x) by (by eapply served_built).
  assert (Hcx : canonical request (str (response_id x))) by (by rewrite Hxid).
  pose proof (response_roundtrip x _ px Hcx Hbuilt Hser) as Hrt.
  rewrite (Hqlim Hxl) in Hrt. injection Hrt as ->. by rewrite Hxid.
Qed.
End EndToEnd.

(** ** Witness *)

Definition sample_client_options : LocalClientOptions :=
  mkLocalClientOptions (bs "/run/minitun/minitun.sock") 2000 30000 65536.

Definition sample_response : bytes :=
  match heap (sample_run []) !! 0%nat with Some c => concat (sent c) | None => [] end.

Definition sample_client_events : list ClientEvent :=
  [CConnected None; CWrote None; CRead None (take 3 sample_response); CRead None (drop 3 sample_response);
   CRequestDeadline].

Lemma sample_handlers_built : handlers_built sample_dispatcher.
Proof.
  intros m h r l result Hl Hr. unfold sample_dispatcher, register_handler in Hl.
  change (validate_method_name (bs "server.list")) with success in Hl. simpl in Hl.
  rewrite lookup_empty in Hl. simpl in Hl. apply lookup_insert_Some in Hl as [[_ <-]|[_ Hl]];
    [|by rewrite lookup_empty in Hl].
  apply acts_inv in Hr as [[_ ?]|(a1 & w1 & e1 & w1' & l1 & [= <-] & _ & [= <- <-] & Hr)]; [done|].
  apply acts_inv in Hr as [[_ ?]|(a2 & w2 & e2 & w2' & l2 & [= <-] & _ & [= <- <-] & Hr)]; [done|].
  apply acts_inv in Hr as [[_ Hr]|(? & ? & ? & ? & ? & [=] & _)]. injection Hr as ->. split; [done|].
  cbn -[Z.pow]. pose proof (Z.mod_pos_bound w1 (2 ^ 64)). lia.
Qed.

Lemma ipc_call_exact_witness :
  let c := @client_run sample_json (fun _ => []) sample_client_options sample_client_events
    (start_operation sample_client_options sample_request_id sample_frame) in
  exists y x, operation_result (operation c) = Ok y /\
    entries 0 (calls (sample_run [])) = [(sample_request (JObject []), x)] /\
    served sample_dispatcher (sample_request (JObject [])) (entries 0 (actions (sample_run []))) x /\
    y = mkResponse sample_request_id (payload_parsed (payload x)).
Proof.
  unfold sample_run. set (c := client_run _ _ _ _).
  set (s := run _ _ _ _).
  destruct (operation_result (operation c)) as [y|] eqn:Hy; [|by vm_compute in Hy].
  destruct (heap s !! 0%nat) as [conn|] eqn:Hconn; [|by vm_compute in Hconn].
  exists y.
  destruct (@ipc_call_exact sample_json sample_json_laws Z sample_dispatcher (fun _ => [])
    sample_client_options sample_options 7 (sample_events []) sample_client_events
    (sample_request (JObject [])) (start_operation sample_client_options sample_request_id sample_frame)
    0%nat conn y) as (_ & x & H1 & H2 & H3).
  - apply sample_request_canonical.
  - done.
  - done.
  - apply sample_handlers_built.
  - by vm_compute.
  - exact Hconn.
  - vm_compute in Hconn. injection Hconn as <-. by apply (bool_decide_unpack _); vm_compute.
  - vm_compute in Hconn. injection Hconn as <-. by apply (bool_decide_unpack _); vm_compute.
  - exact Hy.
  - exists x. split_and!; [done|exact H1|exact H2|exact H3].
Defined.
