(* ===== verification/Credentials.v ===== *)
(** * Credentials (src/storage/credential_store.cpp, include/minitun/daemon/credential_keys.hpp)

    The interface [CredentialStore] with what its clients rely on, its SQLite
    implementation with statements that may fail at any point, the two slots the daemon
    manages for every credential of a server, and the clean-up of these slots.  A secret
    is a byte string; the erasure of memory by [SecureString] is not modelled. *)
From S2P Require Import Prelude Common Ids Text Endpoint Utf8 Models Rows Database.

Definition kMaxCredentialKeyBytes : Z := 256.
Definition kMaxCredentialSecretBytes : Z := 64 * 1024.

(** ** The interface *)

(** [class CredentialStore]. *)
Class CredentialStore (S : Type) := {
  credential_put : bytes -> bytes -> Action S unit;
  credential_get : bytes -> Action S bytes;
  credential_remove : bytes -> Action S unit
}.

(** [validate_key]. *)
Definition validate_key (key : bytes) : Result unit :=
  validate_text key 1 kMaxCredentialKeyBytes "credential key".

(** [validate_secret]. *)
Definition validate_secret (secret : bytes) : Result unit :=
  if bool_decide (secret = []) || (kMaxCredentialSecretBytes <? Zlen secret) then
    failure invalid_argument "credential secret is outside its byte-length limit"
  else if bool_decide (kNul ∈ secret) then
    failure invalid_argument "credential secret must not contain NUL bytes"
  else success.

(** The contents of a store: [visible] is what [get] sees, [durable] what the store
    contains after it is reopened.  The two differ while a transaction is open that could
    be neither committed nor rolled back. *)
Class CredentialContents (S : Type) := {
  visible : S -> gmap bytes bytes;
  durable : S -> gmap bytes bytes;
  reliable : S -> Prop
}.

(** Nothing has happened to [key], but perhaps the end of a transaction left open. *)
Definition undisturbed {S} `{CredentialContents S} (key : bytes) (s s' : S) : Prop :=
  durable s' !! key = durable s !! key /\
  (visible s' !! key = visible s !! key \/ visible s' !! key = durable s !! key).

(** What a store promises.  An operation touches its own key only; a successful [put] or
    [remove] is visible and durable; a [get] changes nothing.  While the store is
    [reliable], no operation on valid arguments fails but a [get] of an absent key. *)
Class CredentialStoreLaws (S : Type) `{CredentialStore S} `{CredentialContents S} : Prop := {
  put_other key secret s key' : key' <> key -> undisturbed key' s (credential_put key secret s).2;
  put_success key secret s : (credential_put key secret s).1 = success ->
    visible (credential_put key secret s).2 !! key = Some secret /\
    durable (credential_put key secret s).2 !! key = Some secret;
  get_same key s key' : undisturbed key' s (credential_get key s).2;
  get_success key s secret :
    (credential_get key s).1 = Ok secret -> visible s !! key = Some secret;
  remove_other key s key' : key' <> key -> undisturbed key' s (credential_remove key s).2;
  remove_success key s : (credential_remove key s).1 = success ->
    visible (credential_remove key s).2 !! key = None /\
    durable (credential_remove key s).2 !! key = None;
  reliable_settled s : reliable s -> visible s = durable s;
  put_reliable key secret s : reliable s ->
    validate_key key = success -> validate_secret secret = success ->
    (credential_put key secret s).1 = success /\ reliable (credential_put key secret s).2;
  get_reliable key s : reliable s -> validate_key key = success ->
    reliable (credential_get key s).2 /\
    match visible s !! key with
    | Some secret => (credential_get key s).1 = Ok secret
    | None => exists e, (credential_get key s).1 = Err e /\ code e = not_found
    end;
  remove_reliable key s : reliable s -> validate_key key = success ->
    (credential_remove key s).1 = success /\ reliable (credential_remove key s).2
}.

(** ** The SQLite store *)

Record CredentialRow : Set := mkCredentialRow { cc_secret : bytes; cc_updated_at : Z }.

(** [SqliteCredentialStore]: [cr_saved] are the rows a [ROLLBACK] returns to, absent in
    autocommit mode; [cr_clock] are the readings of the system clock to come. *)
Record SqliteCredentialStore : Type := mkSqliteCredentialStore {
  cr_rows : gmap bytes CredentialRow;
  cr_saved : option (gmap bytes CredentialRow);
  cr_faults : list (option Fault);
  cr_clock : nat -> Z
}.

Definition cr_committed (s : SqliteCredentialStore) : gmap bytes CredentialRow :=
  default (cr_rows s) (cr_saved s).

Definition cr_set (rows : gmap bytes CredentialRow) (saved : option (gmap bytes CredentialRow))
    (s : SqliteCredentialStore) : SqliteCredentialStore :=
  mkSqliteCredentialStore rows saved (cr_faults s) (cr_clock s).

(** The [CHECK] constraints of [kCreateCredentials]. *)
Definition check_credential (key : bytes) (row : CredentialRow) : bool :=
  check_length 1 256 key && check_length 1 65536 (cc_secret row) && (0 <=? cc_updated_at row).

Section Sqlite.
Context `{SqliteMessages}.

(** One statement, with the result code and the message of a constraint it violates. *)
Definition cr_run {A} (operation : string)
    (effect : SqliteCredentialStore -> outcome (Z * bytes) (A * SqliteCredentialStore)) :
  Action SqliteCredentialStore A := fun s =>
  let s' := mkSqliteCredentialStore (cr_rows s) (cr_saved s) (tail (cr_faults s)) (cr_clock s) in
  match default None (head (cr_faults s)) with
  | Some f =>
      (Err (sqlite_error (fault_result f) (fault_message f) (bs operation)),
       if fault_rolls_back f then cr_set (cr_committed s') None s' else s')
  | None =>
      match effect s' with
      | Ok (a, s'') => (Ok a, s'')
      | Err (result, text) => (Err (sqlite_error result text (bs operation)), s')
      end
  end.

(** [execute(handle_, "BEGIN IMMEDIATE", ...)]. *)
Definition cr_begin (operation : string) : Action SqliteCredentialStore unit :=
  cr_run operation (fun s =>
    match cr_saved s with
    | Some _ => Err (SQLITE_ERROR, nested_transaction_message)
    | None => Ok (tt, cr_set (cr_rows s) (Some (cr_rows s)) s)
    end).

(** [execute(handle_, "COMMIT", ...)] and [execute(handle_, "ROLLBACK", ...)]. *)
Definition cr_end (operation : string)
    (final : SqliteCredentialStore -> gmap bytes CredentialRow) :
  Action SqliteCredentialStore unit :=
  cr_run operation (fun s =>
    match cr_saved s with
    | None => Err (SQLITE_ERROR, no_transaction_message)
    | Some _ => Ok (tt, cr_set (final s) None s)
    end).

(** [rollback_with_error]. *)
Definition rollback_with_error {A} (error : Error) : Action SqliteCredentialStore A := fun s =>
  let (rolled_back, s) := cr_end "roll back credential transaction" cr_committed s in
  match rolled_back with
  | Err _ =>
      (failure database_error
         "credential operation failed and its transaction could not be rolled back", s)
  | Ok _ => (Err error, s)
  end.

(** [BEGIN IMMEDIATE], a statement, [COMMIT]; a failure after [BEGIN] rolls back. *)
Definition cr_transaction (begin_operation commit_operation : string)
    (statement : Action SqliteCredentialStore unit) : Action SqliteCredentialStore unit :=
  _ ← cr_begin begin_operation;
  stepped ← attempt statement;
  match stepped with
  | Err e => rollback_with_error e
  | Ok _ =>
      committed ← attempt (cr_end commit_operation cr_rows);
      match committed with
      | Err e => rollback_with_error e
      | Ok _ => mret tt
      end
  end.

(** [common::unix_milliseconds_now]. *)
Definition cr_now : Action SqliteCredentialStore Z := fun s =>
  (Ok (cr_clock s 0%nat),
   mkSqliteCredentialStore (cr_rows s) (cr_saved s) (cr_faults s) (fun n => cr_clock s (S n))).

(** [SqliteCredentialStore::put]. *)
Definition sqlite_put (key secret : bytes) : Action SqliteCredentialStore unit :=
  _ ← ST_lift (validate_key key);
  _ ← ST_lift (validate_secret secret);
  cr_transaction "begin credential update" "commit credential update" (
    now ← cr_now;
    cr_run "store credential" (fun s =>
      let row := mkCredentialRow secret now in
      if check_credential key row
      then Ok (tt, cr_set (<[key := row]> (cr_rows s)) (cr_saved s) s)
      else Err (SQLITE_CONSTRAINT_CHECK, constraint_message constraint_check))).

(** [SqliteCredentialStore::get]. *)
Definition sqlite_get (key : bytes) : Action SqliteCredentialStore bytes :=
  _ ← ST_lift (validate_key key);
  row ← cr_run "read credential" (fun s => Ok (cr_rows s !! key, s));
  match row with
  | None => fail_with not_found "credential was not found"
  | Some row =>
      if (Zlen (cc_secret row) <? 1) || (kMaxCredentialSecretBytes <? Zlen (cc_secret row)) then
        fail_with database_error "credential database contains an invalid secret"
      else mret (cc_secret row)
  end.

(** [SqliteCredentialStore::remove]. *)
Definition sqlite_remove (key : bytes) : Action SqliteCredentialStore unit :=
  _ ← ST_lift (validate_key key);
  cr_transaction "begin credential removal" "commit credential removal" (
    cr_run "remove credential" (fun s => Ok (tt, cr_set (delete key (cr_rows s)) (cr_saved s) s))).

#[export] Instance sqlite_credential_store : CredentialStore SqliteCredentialStore := {|
  credential_put := sqlite_put;
  credential_get := sqlite_get;
  credential_remove := sqlite_remove
|}.
End Sqlite.

(** ** The managed slots *)

Inductive ServerCredentialKind : Set :=
| psk | ca_certificate | client_certificate | client_private_key.
#[export] Instance ServerCredentialKind_eq_decision : EqDecision ServerCredentialKind.
Proof. solve_decision. Defined.

(** [managed_server_credential_keys]. *)
Definition managed_server_credential_keys (server_id : Id) (k : ServerCredentialKind) :
  bytes * bytes :=
  let primary := bs "server/" ++ str server_id
    ++ match k with
       | psk => []
       | ca_certificate => bs "/ca"
       | client_certificate => bs "/client-cert"
       | client_private_key => bs "/client-key"
       end in
  (primary, primary ++ bs "/next").

(** [credential_reference]. *)
Definition credential_reference (r : ServerRecord) (k : ServerCredentialKind) : option bytes :=
  match k with
  | psk => sr_credential_ref r
  | ca_certificate => sr_ca_credential_ref r
  | client_certificate => sr_client_certificate_ref r
  | client_private_key => sr_client_private_key_ref r
  end.

(** [next_server_credential_key]. *)
Definition next_server_credential_key (r : ServerRecord) (k : ServerCredentialKind) : bytes :=
  let keys := managed_server_credential_keys (sr_id r) k in
  if bool_decide (credential_reference r k = Some keys.1) then keys.2 else keys.1.

(** [next_credential_key]. *)
Definition next_credential_key (r : ServerRecord) : bytes := next_server_credential_key r psk.

(** [add_candidate]. *)
Definition add_candidate (candidates : list bytes) (key : bytes) : list bytes :=
  if bool_decide (key ∈ candidates) then candidates else candidates ++ [key].

Definition cleanup_candidates (server_id : Id) (k : ServerCredentialKind)
    (referenced_key : option bytes) : list bytes :=
  let keys := managed_server_credential_keys server_id k in
  let candidates := match referenced_key with Some key => add_candidate [] key | None => [] end in
  add_candidate (add_candidate candidates keys.1) keys.2.

Section Cleanup.
Context {S : Type} `{CredentialStore S}.

(** [if (... && !first_error.has_value()) first_error = e;] *)
Definition keep_first (first_error : option Error) (e : Error) : option Error :=
  match first_error with Some _ => first_error | None => Some e end.

(** The loop over the candidates. *)
Fixpoint cleanup_loop (retained_key : option bytes) (candidates : list bytes)
    (first_error : option Error) : Action S (option Error) :=
  match candidates with
  | [] => mret first_error
  | key :: candidates =>
      if bool_decide (retained_key = Some key) then cleanup_loop retained_key candidates first_error
      else
        existing ← attempt (credential_get key);
        match existing with
        | Err e =>
            cleanup_loop retained_key candidates
              (if bool_decide (code e = not_found) then first_error else keep_first first_error e)
        | Ok _ =>
            removed ← attempt (credential_remove key);
            cleanup_loop retained_key candidates
              (match removed with Err e => keep_first first_error e | Ok _ => first_error end)
        end
  end.

Definition first_failure (first_error : option Error) : Result unit :=
  match first_error with Some e => Err e | None => success end.

(** [cleanup_server_credential_kind]. *)
Definition cleanup_server_credential_kind (server_id : Id) (k : ServerCredentialKind)
    (referenced_key retained_key : option bytes) : Action S unit :=
  if negb (bool_decide (kind server_id = server)) then
    fail_with invalid_argument "credential cleanup requires a server ID"
  else
    first_error ← cleanup_loop retained_key (cleanup_candidates server_id k referenced_key) None;
    ST_lift (first_failure first_error).

(** [cleanup_server_credentials]. *)
Definition cleanup_server_credentials (server_id : Id) (referenced_key retained_key : option bytes) :
  Action S unit :=
  cleanup_server_credential_kind server_id psk referenced_key retained_key.

(** The loop of [cleanup_all_server_credentials]. *)
Fixpoint cleanup_kinds (r : ServerRecord) (kinds : list ServerCredentialKind)
    (first_error : option Error) : Action S (option Error) :=
  match kinds with
  | [] => mret first_error
  | k :: kinds =>
      removed ← attempt
        (cleanup_server_credential_kind (sr_id r) k (credential_reference r k) None);
      cleanup_kinds r kinds
        (match removed with Err e => keep_first first_error e | Ok _ => first_error end)
  end.

(** [cleanup_all_server_credentials]. *)
Definition cleanup_all_server_credentials (r : ServerRecord) : Action S unit :=
  first_error ← cleanup_kinds r [psk; ca_certificate; client_certificate; client_private_key] None;
  ST_lift (first_failure first_error).
End Cleanup.

(** ** The SQLite store keeps the promises *)

#[export] Instance sqlite_contents : CredentialContents SqliteCredentialStore := {|
  visible s := cc_secret <$> cr_rows s;
  durable s := cc_secret <$> cr_committed s;
  reliable s :=
    cr_saved s = None /\ Forall (eq None) (cr_faults s) /\ (forall n, 0 <= cr_clock s n) /\
    map_Forall (fun _ row => check_length 1 65536 (cc_secret row) = true) (cr_rows s)
|}.

(** [undisturbed] of the rows. *)
Definition rows_undisturbed (key : bytes) (s s' : SqliteCredentialStore) : Prop :=
  cr_committed s' !! key = cr_committed s !! key /\
  (cr_rows s' !! key = cr_rows s !! key \/ cr_rows s' !! key = cr_committed s !! key).

Lemma rows_undisturbed_spec key s s' : rows_undisturbed key s s' -> undisturbed key s s'.
Proof.
  unfold rows_undisturbed, undisturbed. simpl. rewrite !lookup_fmap. intros [-> [->| ->]]; auto.
Qed.

Lemma rows_undisturbed_refl key s : rows_undisturbed key s s.
Proof. by split; [|left]. Qed.

Lemma rows_undisturbed_trans key s1 s2 s3 :
  rows_undisturbed key s1 s2 -> rows_undisturbed key s2 s3 -> rows_undisturbed key s1 s3.
Proof. intros [H1 H2] [H3 H4]. split; [congruence|]. destruct H4 as [->| ->]; [|right]; auto. Qed.

(** Code that leaves [key] alone. *)
Definition spares {A} (key : bytes) (m : Action SqliteCredentialStore A) : Prop :=
  forall s, rows_undisturbed key s (m s).2.

Section SqliteLaws.
Context `{SqliteMessages}.

Lemma spares_bind {A B} key (m : Action SqliteCredentialStore A)
    (k : A -> Action SqliteCredentialStore B) :
  spares key m -> (forall a, spares key (k a)) -> spares key (m ≫= k).
Proof.
  intros Hm Hk s. unfold mbind, ST_bind. specialize (Hm s). destruct (m s) as [[a|e] s']; [|done].
  eapply rows_undisturbed_trans; [exact Hm|apply Hk].
Qed.

Lemma spares_attempt {A} key (m : Action SqliteCredentialStore A) :
  spares key m -> spares key (attempt m).
Proof. intros Hm s. unfold attempt. specialize (Hm s). by destruct (m s). Qed.

Lemma spares_lift {A} key (r : Result A) : spares key (ST_lift r).
Proof. intros s. apply rows_undisturbed_refl. Qed.

Lemma spares_run {A} key operation
    (effect : SqliteCredentialStore -> outcome (Z * bytes) (A * SqliteCredentialStore)) :
  (forall s a s', effect s = Ok (a, s') -> rows_undisturbed key s s') ->
  spares key (cr_run operation effect).
Proof.
  intros He s. unfold cr_run. set (s1 := mkSqliteCredentialStore _ _ _ _).
  assert (rows_undisturbed key s s1) as H1 by (by split; [|left]).
  destruct (default None (head (cr_faults s))) as [f|]; simpl.
  - destruct (fault_rolls_back f); [|done]. split; [done|]. by right.
  - destruct (effect s1) as [[a s2]|[]] eqn:E; [|done].
    eapply rows_undisturbed_trans; [exact H1|by eapply He].
Qed.

Lemma spares_end key operation final :
  (forall s, cr_saved s <> None -> final s !! key = cr_committed s !! key) ->
  spares key (cr_end operation final).
Proof.
  intros Hf. apply spares_run. intros s a s'. destruct (cr_saved s) as [rows|] eqn:E; [|done].
  intros [= _ <-]. assert (cr_saved s <> None) as Hs by congruence. specialize (Hf s Hs).
  split; simpl; [done|]. by right.
Qed.

Lemma spares_rollback {A} key e : spares key (rollback_with_error (A := A) e).
Proof.
  intros s. unfold rollback_with_error.
  pose proof (spares_end key "roll back credential transaction" cr_committed (fun _ _ => eq_refl) s)
    as Hs. destruct (cr_end _ _ s) as [[[]|] ?]; done.
Qed.

(** In a transaction whose statement spares [key] the row of [key] stays the saved one. *)
Lemma cr_transaction_spares key begin_operation commit_operation
    (statement : Action SqliteCredentialStore unit) :
  (forall s, cr_rows s !! key = cr_committed s !! key ->
     rows_undisturbed key s (statement s).2 /\
     cr_rows (statement s).2 !! key = cr_committed (statement s).2 !! key) ->
  spares key (cr_transaction begin_operation commit_operation statement).
Proof.
  intros Hst s. unfold cr_transaction, mbind, ST_bind.
  assert (forall s, rows_undisturbed key s (cr_begin begin_operation s).2 /\
            ((cr_begin begin_operation s).1 = success ->
             cr_rows (cr_begin begin_operation s).2 !! key =
             cr_committed (cr_begin begin_operation s).2 !! key)) as Hb.
  { clear s. intros s. split.
    - apply spares_run. intros s1 a s2. destruct (cr_saved s1) eqn:E1; [done|]. intros [= _ <-].
      unfold rows_undisturbed, cr_committed. simpl. rewrite E1. auto.
    - unfold cr_begin, cr_run. destruct (default None _); [done|]. simpl.
      destruct (cr_saved s); [done|]. done. }
  destruct (Hb s) as [Hb1 Hb2]. destruct (cr_begin begin_operation s) as [[[]|] s1]; [|done].
  simpl in Hb1, Hb2. specialize (Hst s1 (Hb2 eq_refl)).
  unfold attempt at 1. destruct (statement s1) as [[[]|e] s2]; destruct Hst as [Hst1 Hst2];
    simpl in Hst1, Hst2.
  - unfold attempt. assert (rows_undisturbed key s2 (cr_end commit_operation cr_rows s2).2) as Hc.
    { unfold cr_end, cr_run. destruct (default None _) as [f|]; simpl.
      - destruct (fault_rolls_back f); by split; [|auto].
      - destruct (cr_saved s2) eqn:E2; (split; simpl; [done|auto]). }
    destruct (cr_end commit_operation cr_rows s2) as [[[]|e] s3]; simpl in *.
    + eapply rows_undisturbed_trans; [exact Hb1|]. by eapply rows_undisturbed_trans.
    + eapply rows_undisturbed_trans; [exact Hb1|]. eapply rows_undisturbed_trans; [exact Hst1|].
      eapply rows_undisturbed_trans; [exact Hc|]. apply spares_rollback.
  - eapply rows_undisturbed_trans; [exact Hb1|]. eapply rows_undisturbed_trans; [exact Hst1|].
    apply spares_rollback.
Qed.

(** A statement of the transaction that leaves the row of [key'] alone. *)
Lemma write_spares {A} key' operation
    (effect : SqliteCredentialStore -> outcome (Z * bytes) (A * SqliteCredentialStore)) s :
  (forall s a s', effect s = Ok (a, s') ->
     cr_saved s' = cr_saved s /\ cr_rows s' !! key' = cr_rows s !! key') ->
  cr_rows s !! key' = cr_committed s !! key' ->
  rows_undisturbed key' s (cr_run operation effect s).2 /\
  cr_rows (cr_run operation effect s).2 !! key' = cr_committed (cr_run operation effect s).2 !! key'.
Proof.
  intros He Hr. assert (forall s a s', effect s = Ok (a, s') -> rows_undisturbed key' s s' /\
    (cr_rows s !! key' = cr_committed s !! key' -> cr_rows s' !! key' = cr_committed s' !! key')) as He'.
  { intros s1 a s2 E1. destruct (He _ _ _ E1) as (H1 & H2). unfold rows_undisturbed, cr_committed.
    rewrite H1. destruct (cr_saved s1); simpl; rewrite ?H2; auto. }
  split; [apply spares_run; intros; by eapply He'|].
  unfold cr_run. set (s1 := mkSqliteCredentialStore _ _ _ _).
  destruct (default None (head (cr_faults s))) as [f|]; simpl.
  - by destruct (fault_rolls_back f).
  - destruct (effect s1) as [[a s2]|[]] eqn:E; [|done]. simpl. by apply (proj2 (He' _ _ _ E)).
Qed.
Lemma sqlite_put_spares key secret key' : key' <> key -> spares key' (sqlite_put key secret).
Proof.
  intros Hk. apply spares_bind; [apply spares_lift|]. intros _.
  apply spares_bind; [apply spares_lift|]. intros _. apply cr_transaction_spares. intros s Hs.
  unfold mbind, ST_bind, cr_now. set (s1 := mkSqliteCredentialStore _ _ _ _).
  destruct (write_spares key' "store credential" (fun s' =>
    if check_credential key (mkCredentialRow secret (cr_clock s 0%nat))
    then Ok (tt, cr_set (<[key := mkCredentialRow secret (cr_clock s 0%nat)]> (cr_rows s'))
                   (cr_saved s') s')
    else Err (SQLITE_CONSTRAINT_CHECK, constraint_message constraint_check)) s1) as [H1 H2];
    [|done|by split].
  intros s2 a s3. destruct (check_credential _ _); [|done]. intros [= _ <-]. simpl.
  by rewrite lookup_insert_ne.
Qed.

Lemma sqlite_remove_spares key key' : key' <> key -> spares key' (sqlite_remove key).
Proof.
  intros Hk. apply spares_bind; [apply spares_lift|]. intros _. apply cr_transaction_spares.
  intros s Hs. apply write_spares; [|done]. intros s1 a s2 [= _ <-]. simpl.
  by rewrite lookup_delete_ne.
Qed.

Lemma sqlite_get_spares key key' : spares key' (sqlite_get key).
Proof.
  apply spares_bind; [apply spares_lift|]. intros _. apply spares_bind.
  - apply spares_run. intros s a s' [= _ <-]. apply rows_undisturbed_refl.
  - intros [row|]; [destruct (_ || _)|]; intros s; apply rows_undisturbed_refl.
Qed.

(** A transaction that succeeds began outside one, and committed what its statement
    did. *)
Lemma cr_transaction_success begin_operation commit_operation statement s s' :
  cr_transaction begin_operation commit_operation statement s = (success, s') ->
  exists s1 s2, cr_saved s1 <> None /\ cr_rows s1 = cr_rows s /\ cr_clock s1 = cr_clock s /\
    statement s1 = (success, s2) /\ cr_rows s' = cr_rows s2 /\ cr_saved s' = None.
Proof.
  unfold cr_transaction. intros ([] & s1 & H1 & H2)%ST_bind_inv.
  apply ST_bind_inv in H2 as (stepped & s2 & H2 & H3). unfold attempt in H2.
  destruct (statement s1) as [r s2'] eqn:Est. injection H2 as -> ->.
  assert (forall e s3, rollback_with_error e s2 <> (success, s3)) as Hroll.
  { intros e s3. unfold rollback_with_error. by destruct (cr_end _ _ s2) as [[[]|] ?]. }
  destruct stepped as [[]|e]; [|by apply Hroll in H3].
  apply ST_bind_inv in H3 as (committed & s3 & H3 & H4). unfold attempt in H3.
  destruct (cr_end _ _ s2) as [r s3'] eqn:Eend. injection H3 as -> ->.
  destruct committed as [[]|e].
  2: { unfold rollback_with_error in H4. by destruct (cr_end _ _ s3) as [[[]|] ?]. }
  injection H4 as <-. exists s1, s2. unfold cr_begin, cr_end, cr_run in *.
  destruct (default None (head (cr_faults s))); [done|]. simpl in H1.
  destruct (cr_saved s); [done|]. injection H1 as <-.
  destruct (default None (head (cr_faults s2))); [done|]. simpl in Eend.
  destruct (cr_saved s2) eqn:Es2; [|done]. by injection Eend as <-.
Qed.

Lemma sqlite_put_success key secret s s' :
  sqlite_put key secret s = (success, s') ->
  cr_saved s' = None /\ cc_secret <$> cr_rows s' !! key = Some secret.
Proof.
  unfold sqlite_put. intros ([] & s1 & H1 & H2)%ST_bind_inv.
  apply ST_bind_inv in H2 as ([] & s2 & H2 & H3).
  apply cr_transaction_success in H3 as (s3 & s4 & _ & _ & _ & H3 & Hr & Hs). split; [done|].
  rewrite Hr. apply ST_bind_inv in H3 as (now & s5 & H4 & H5).
  unfold cr_run in H5. destruct (default None (head (cr_faults s5))); [done|].
  destruct (check_credential _ _); [|done]. injection H5 as <-. simpl. by rewrite lookup_insert_eq.
Qed.

Lemma sqlite_remove_success key s s' :
  sqlite_remove key s = (success, s') -> cr_saved s' = None /\ cr_rows s' !! key = None.
Proof.
  unfold sqlite_remove. intros ([] & s1 & H1 & H2)%ST_bind_inv.
  apply cr_transaction_success in H2 as (s3 & s4 & _ & _ & _ & H3 & Hr & Hs). split; [done|].
  rewrite Hr. unfold cr_run in H3. destruct (default None (head (cr_faults s3))); [done|].
  injection H3 as <-. simpl. by rewrite lookup_delete_eq.
Qed.

(** The first statement of a store without faults does what it should. *)
Lemma cr_run_reliable {A} operation
    (effect : SqliteCredentialStore -> outcome (Z * bytes) (A * SqliteCredentialStore)) s :
  Forall (eq None) (cr_faults s) ->
  cr_run operation effect s =
  match effect (mkSqliteCredentialStore (cr_rows s) (cr_saved s) (tail (cr_faults s)) (cr_clock s)) with
  | Ok (a, s') => (Ok a, s')
  | Err (result, text) =>
      (Err (sqlite_error result text (bs operation)),
       mkSqliteCredentialStore (cr_rows s) (cr_saved s) (tail (cr_faults s)) (cr_clock s))
  end.
Proof. intros Hf. unfold cr_run. by destruct Hf as [|? ? <-]. Qed.

Lemma Forall_tail {A} (P : A -> Prop) l : Forall P l -> Forall P (tail l).
Proof. by intros []. Qed.

Lemma cr_transaction_reliable (begin_operation commit_operation : string)
    (write : gmap bytes CredentialRow -> gmap bytes CredentialRow)
    (statement : Action SqliteCredentialStore unit) s :
  reliable s ->
  (forall s1, cr_rows s1 = cr_rows s -> cr_clock s1 = cr_clock s -> Forall (eq None) (cr_faults s1) ->
     exists s2, statement s1 = (success, s2) /\ cr_rows s2 = write (cr_rows s1) /\
       cr_saved s2 = cr_saved s1 /\ Forall (eq None) (cr_faults s2) /\
       (forall n, 0 <= cr_clock s2 n)) ->
  map_Forall (fun _ row => check_length 1 65536 (cc_secret row) = true) (write (cr_rows s)) ->
  exists s', cr_transaction begin_operation commit_operation statement s = (success, s') /\
             reliable s'.
Proof.
  intros (Hs & Hf & Hc & Hr) Hst Hw. unfold cr_transaction, cr_begin, mbind, ST_bind.
  rewrite cr_run_reliable by done. cbn [cr_saved]. rewrite Hs. cbv beta iota.
  destruct (Hst (cr_set (cr_rows s) (Some (cr_rows s)) (mkSqliteCredentialStore (cr_rows s) None
    (tail (cr_faults s)) (cr_clock s)))) as (s2 & E2 & Hr2 & Hs2 & Hf2 & Hc2);
    [done..|by apply Forall_tail|].
  simpl in Hr2, Hs2 |- *. unfold attempt. rewrite E2. unfold cr_end, success. cbv iota beta. rewrite cr_run_reliable by done.
  simpl. rewrite Hs2. eexists. split; [reflexivity|]. simpl. rewrite Hr2.
  split_and!; try done. by apply Forall_tail.
Qed.
Lemma check_secret secret : validate_secret secret = success -> check_length 1 65536 secret = true.
Proof.
  unfold validate_secret, kMaxCredentialSecretBytes, check_length.
  case_bool_decide as Hn; [done|]. simpl. destruct (Z.ltb_spec (64 * 1024) (Zlen secret)); [done|].
  intros _. destruct secret as [|b secret]; [done|]. rewrite Zlen_cons in *.
  pose proof (Zlen_nonneg secret). apply andb_true_intro. split; apply Z.leb_le; lia.
Qed.

Lemma validate_key_length key : validate_key key = success -> check_length 1 256 key = true.
Proof.
  unfold validate_key, validate_text, kMaxCredentialKeyBytes, check_length.
  destruct (Z.ltb_spec (Zlen key) 1), (Z.ltb_spec 256 (Zlen key)); try done. intros _.
  apply andb_true_intro. split; apply Z.leb_le; lia.
Qed.

Lemma sqlite_put_reliable key secret s :
  reliable s -> validate_key key = success -> validate_secret secret = success ->
  exists s', sqlite_put key secret s = (success, s') /\ reliable s'.
Proof.
  intros Hs Hk Hv. pose proof Hs as (_ & _ & Hc & Hr). unfold sqlite_put.
  unfold mbind at 1 2, ST_bind at 1 2, ST_lift. rewrite Hk, Hv. unfold success at 1 2. cbv iota.
  set (row := mkCredentialRow secret (cr_clock s 0%nat)).
  apply (cr_transaction_reliable _ _ <[key := row]>); [done|..].
  - intros s1 Hr1 Hc1 Hf1. unfold mbind, ST_bind, cr_now.
    rewrite cr_run_reliable by done. rewrite Hc1. fold row. unfold check_credential. simpl.
    rewrite validate_key_length, check_secret by done. simpl.
    destruct (Z.leb_spec 0 (cr_clock s 0%nat)); [|specialize (Hc 0%nat); lia].
    eexists. split; [reflexivity|]. split_and!; simpl; try done; by apply Forall_tail.
  - apply map_Forall_insert_2; [|done]. by apply check_secret.
Qed.

Lemma sqlite_remove_reliable key s :
  reliable s -> validate_key key = success ->
  exists s', sqlite_remove key s = (success, s') /\ reliable s'.
Proof.
  intros Hs Hk. pose proof Hs as (_ & _ & Hc & Hr). unfold sqlite_remove.
  unfold mbind at 1, ST_bind at 1, ST_lift. rewrite Hk. unfold success at 1. cbv iota.
  apply (cr_transaction_reliable _ _ (delete key)); [done|..].
  - intros s1 Hr1 Hc1 Hf1. rewrite cr_run_reliable by done. eexists. split; [reflexivity|].
    split_and!; simpl; try done; [by apply Forall_tail|]. intros n. by rewrite Hc1.
  - by apply map_Forall_delete.
Qed.

Lemma sqlite_get_reliable key s :
  reliable s -> validate_key key = success ->
  reliable (sqlite_get key s).2 /\
  match visible s !! key with
  | Some secret => (sqlite_get key s).1 = Ok secret
  | None => exists e, (sqlite_get key s).1 = Err e /\ code e = not_found
  end.
Proof.
  intros (Hs & Hf & Hc & Hr) Hk. unfold sqlite_get, mbind, ST_bind, ST_lift. rewrite Hk.
  unfold success. cbv iota. rewrite cr_run_reliable by done. cbn [cr_rows]. simpl visible.
  rewrite lookup_fmap. destruct (cr_rows s !! key) as [row|] eqn:E; simpl.
  - pose proof (Hr key row E) as Hrow. unfold check_length in Hrow. unfold kMaxCredentialSecretBytes.
    apply andb_true_iff in Hrow as [H1%Z.leb_le H2%Z.leb_le].
    destruct (Z.ltb_spec (Zlen (cc_secret row)) 1), (Z.ltb_spec (64 * 1024) (Zlen (cc_secret row)));
      try lia. simpl. split; [|done]. split_and!; try done; by apply Forall_tail.
  - split; [|by eexists]. split_and!; try done; by apply Forall_tail.
Qed.

#[export] Instance sqlite_credential_store_laws : CredentialStoreLaws SqliteCredentialStore.
Proof.
  split; cbn [credential_put credential_get credential_remove sqlite_credential_store].
  - intros. by apply rows_undisturbed_spec, sqlite_put_spares.
  - intros key secret s E%pair_fst. apply sqlite_put_success in E as [Hs Hr].
    simpl. unfold cr_committed. rewrite Hs. simpl. by rewrite lookup_fmap, Hr.
  - intros. apply rows_undisturbed_spec, sqlite_get_spares.
  - intros key s secret E%pair_fst. unfold sqlite_get in E.
    apply ST_bind_inv in E as ([] & s1 & E1 & E2). injection E1 as _ <-.
    apply ST_bind_inv in E2 as (row & s2 & E2 & E3). unfold cr_run in E2.
    destruct (default None _); [done|]. injection E2 as <- <-. cbn [cr_rows] in E3.
    cbn [visible sqlite_contents]. rewrite lookup_fmap.
    destruct (cr_rows s !! key) as [row|]; [|done].
    destruct (_ || _); [done|]. by injection E3 as <- _.
  - intros. by apply rows_undisturbed_spec, sqlite_remove_spares.
  - intros key s E%pair_fst. apply sqlite_remove_success in E as [Hs Hr].
    simpl. unfold cr_committed. rewrite Hs. simpl. by rewrite lookup_fmap, Hr.
  - intros s (Hs & _). simpl. unfold cr_committed. by rewrite Hs.
  - intros key secret s Hs Hk Hv. by destruct (sqlite_put_reliable key secret s Hs Hk Hv) as (s' & -> & ?).
  - intros. by apply sqlite_get_reliable.
  - intros key s Hs Hk. by destruct (sqlite_remove_reliable key s Hs Hk) as (s' & -> & ?).
Qed.
End SqliteLaws.

(** ** Code that leaves a key alone *)

(** [key] is in the store, now and after it is reopened. *)
Definition held {S} `{CredentialContents S} (key : bytes) (s : S) : Prop :=
  is_Some (visible s !! key) /\ is_Some (durable s !! key).

Section Leaves.
Context {S : Type} `{CredentialStoreLaws S}.
Implicit Types (s : S) (key : bytes).

Definition leaves {A} key (m : Action S A) : Prop := forall s, undisturbed key s (m s).2.

Lemma undisturbed_refl key s : undisturbed key s s.
Proof. split; auto. Qed.

Lemma undisturbed_trans key s1 s2 s3 :
  undisturbed key s1 s2 -> undisturbed key s2 s3 -> undisturbed key s1 s3.
Proof. intros [H3 H4] [H5 H6]. split; [congruence|]. destruct H6 as [->| ->]; [|right]; auto. Qed.

Lemma undisturbed_held key s s' : undisturbed key s s' -> held key s -> held key s'.
Proof. intros [Hd [Hv|Hv]] [??]; split; rewrite ?Hd, ?Hv; done. Qed.

(** In a settled store nothing has happened to the key at all. *)
Lemma undisturbed_reliable key s s' :
  reliable s -> undisturbed key s s' -> visible s' !! key = visible s !! key.
Proof. intros Hs [_ [->| ->]]; [done|]. by rewrite (reliable_settled s Hs). Qed.

Lemma leaves_lift {A} key (r : Result A) : leaves key (ST_lift r).
Proof. intros s. apply undisturbed_refl. Qed.

Lemma leaves_bind {A B} key (m : Action S A) (k : A -> Action S B) :
  leaves key m -> (forall a, leaves key (k a)) -> leaves key (m ≫= k).
Proof.
  intros Hm Hk s. unfold mbind, ST_bind. specialize (Hm s). destruct (m s) as [[a|e] s']; [|done].
  eapply undisturbed_trans; [exact Hm|apply Hk].
Qed.

Lemma leaves_attempt {A} key (m : Action S A) : leaves key m -> leaves key (attempt m).
Proof. intros Hm s. unfold attempt. specialize (Hm s). by destruct (m s). Qed.

Lemma leaves_get key key' : leaves key' (credential_get key).
Proof. intros s. apply get_same. Qed.

Lemma leaves_put key key' secret : key' <> key -> leaves key' (credential_put key secret).
Proof. intros Hk s. by apply put_other. Qed.

Lemma leaves_remove key key' : key' <> key -> leaves key' (credential_remove key).
Proof. intros Hk s. by apply remove_other. Qed.

Lemma leaves_cleanup_loop key retained candidates first :
  retained = Some key \/ key ∉ candidates -> leaves key (cleanup_loop retained candidates first).
Proof.
  revert first. induction candidates as [|c candidates IH]; intros first Hk.
  { apply (leaves_lift key (Ok first)). }
  assert (retained = Some key \/ key ∉ candidates) as Hk'.
  { destruct Hk as [?|Hk]; [by left|right]. by intros ?%(list_elem_of_further _ c). }
  simpl. case_bool_decide as Hc; [by apply IH|].
  apply leaves_bind; [apply leaves_attempt, leaves_get|]. intros [?|e]; [|by apply IH].
  apply leaves_bind; [|intros; by apply IH]. apply leaves_attempt, leaves_remove. intros <-.
  destruct Hk as [?|Hk]; [done|]. apply Hk. by left.
Qed.

Lemma leaves_cleanup key server_id k referenced retained :
  retained = Some key \/ key ∉ cleanup_candidates server_id k referenced ->
  leaves key (cleanup_server_credential_kind server_id k referenced retained).
Proof.
  intros Hk. unfold cleanup_server_credential_kind. destruct (negb _).
  { apply (leaves_lift key (Err _)). }
  apply leaves_bind; [by apply leaves_cleanup_loop|intros; apply leaves_lift].
Qed.

Lemma leaves_cleanup_kinds key r kinds first :
  (forall k, key ∉ cleanup_candidates (sr_id r) k (credential_reference r k)) ->
  leaves key (cleanup_kinds r kinds first).
Proof.
  intros Hk. revert first. induction kinds as [|k kinds IH]; intros first.
  { apply (leaves_lift key (Ok first)). }
  apply leaves_bind; [|intros; apply IH]. apply leaves_attempt, leaves_cleanup. auto.
Qed.

(** A clean-up of a reliable store succeeds and empties every slot but the retained one. *)
Lemma cleanup_loop_reliable retained candidates s :
  reliable s -> Forall (fun key => validate_key key = success) candidates ->
  exists s', cleanup_loop retained candidates None s = (Ok None, s') /\ reliable s' /\
    forall key, key ∈ candidates -> retained <> Some key -> visible s' !! key = None.
Proof.
  revert s. induction candidates as [|c candidates IH]; intros s Hs Hk.
  { exists s. split_and!; [done..|]. by intros key ?%elem_of_nil. }
  apply Forall_cons in Hk as [Hc Hk]. simpl. case_bool_decide as Hr.
  { destruct (IH s Hs Hk) as (s' & E & Hs' & Hv). exists s'. split_and!; [done..|].
    intros key [->|?]%elem_of_cons ?; [done|by apply Hv]. }
  (* what happens to [c] stays so during the rest of the loop *)
  assert (forall s1, reliable s1 -> visible s1 !! c = None ->
    exists s', cleanup_loop retained candidates None s1 = (Ok None, s') /\ reliable s' /\
      forall key, key ∈ c :: candidates -> retained <> Some key -> visible s' !! key = None) as Hrest.
  { intros s1 Hs1 Hv1. destruct (IH s1 Hs1 Hk) as (s' & E & Hs' & Hv). exists s'.
    split_and!; [done..|]. intros key [->|?]%elem_of_cons Hne; [|by apply Hv].
    destruct (decide (c ∈ candidates)); [by apply Hv|].
    pose proof (leaves_cleanup_loop c retained candidates None (or_intror n) s1) as Hl.
    rewrite E in Hl. by rewrite (undisturbed_reliable c s1 s' Hs1 Hl). }
  destruct (get_reliable c s Hs Hc) as [Hs1 Hg]. unfold mbind, ST_bind, attempt.
  destruct (credential_get c s) as [got s1] eqn:Eg. simpl in Hs1, Hg.
  pose proof (get_same c s c) as Hsame. rewrite Eg in Hsame.
  destruct (visible s !! c) as [secret|] eqn:Ev.
  - subst got. destruct (remove_reliable c s1 Hs1 Hc) as [Hrm Hs2].
    pose proof (remove_success c s1 Hrm) as [Hv2 _].
    destruct (credential_remove c s1) as [removed s2]. simpl in Hrm, Hs2, Hv2. subst removed.
    by apply Hrest.
  - destruct Hg as (e & -> & He). rewrite bool_decide_true by done. apply Hrest; [done|].
    by rewrite (undisturbed_reliable c s s1 Hs Hsame).
Qed.
End Leaves.

(** ** The slots *)

(** [key] is one of the two slots of a kind. *)
Definition slot_of (server_id : Id) (k : ServerCredentialKind) (key : bytes) : Prop :=
  let keys := managed_server_credential_keys server_id k in key = keys.1 \/ key = keys.2.

Lemma canonical_server_length text : canonical server text -> length text = 36%nat.
Proof.
  intros (digits & -> & Hl & _). rewrite length_app. change (length (id_prefix server)) with 4%nat.
  unfold Zlen in Hl. lia.
Qed.

(** Slots of different servers or of different kinds are different. *)
Lemma slot_of_inj id1 id2 k1 k2 key :
  canonical server (str id1) -> canonical server (str id2) ->
  slot_of id1 k1 key -> slot_of id2 k2 key -> str id1 = str id2 /\ k1 = k2.
Proof.
  intros H1%canonical_server_length H2%canonical_server_length Hs1 Hs2.
  assert (forall tail1 tail2 : bytes, bs "server/" ++ str id1 ++ tail1 = key ->
            bs "server/" ++ str id2 ++ tail2 = key -> str id1 = str id2 /\ tail1 = tail2) as Hinj.
  { intros t1 t2 <- E%app_inv_head. apply app_inj_1 in E; [|congruence]. by destruct E. }
  unfold slot_of, managed_server_credential_keys in Hs1, Hs2. cbv zeta in Hs1, Hs2.
  cbn [fst snd] in Hs1, Hs2. rewrite <- !app_assoc in Hs1, Hs2.
  destruct Hs1 as [Hs1|Hs1], Hs2 as [Hs2|Hs2]; destruct (Hinj _ _ (eq_sym Hs1) (eq_sym Hs2)) as [Hid Ht];
    (split; [done|]); destruct k1, k2; first [done | exfalso; vm_compute in Ht; congruence].
Qed.

Lemma next_key_slot r k : slot_of (sr_id r) k (next_server_credential_key r k).
Proof. unfold next_server_credential_key, slot_of. case_bool_decide; auto. Qed.

(** The next slot is never the one in use. *)
Lemma next_key_fresh r k : credential_reference r k <> Some (next_server_credential_key r k).
Proof.
  unfold next_server_credential_key, managed_server_credential_keys. cbn [fst snd].
  case_bool_decide as E; [|done]. rewrite E. intros [= E']. apply (f_equal length) in E'.
  rewrite !length_app in E'. change (length (bs "/next")) with 5%nat in E'. lia.
Qed.

Lemma cleanup_candidates_slot server_id k referenced key :
  key ∈ cleanup_candidates server_id k referenced <-> referenced = Some key \/ slot_of server_id k key.
Proof.
  assert (forall l x, key ∈ add_candidate l x <-> key ∈ l \/ key = x) as Hadd.
  { intros l x. unfold add_candidate. case_bool_decide; [|set_solver]. split; [tauto|].
    intros [?| ->]; done. }
  unfold cleanup_candidates, slot_of. rewrite !Hadd. destruct referenced as [ref|].
  - rewrite Hadd, elem_of_nil. split; [intros [[[[]| ->]|]|]; auto|]. intros [[= ->]|[|]]; auto.
  - rewrite elem_of_nil. split; [intros [[[]|]|]; auto|]. intros [[=]|[|]]; auto.
Qed.

(** The keys of the slots are valid keys of the store. *)
Lemma slot_text_valid server_id k key field :
  canonical server (str server_id) -> slot_of server_id k key ->
  validate_text key 1 256 field = success.
Proof.
  intros (digits & Hid & Hl & Hx) Hs.
  assert (exists tail1, key = bs "server/srv_" ++ digits ++ tail1 /\
            forallb (fun b => (1 <=? Z_of_byte b) && (Z_of_byte b <=? 0x7f)) tail1 = true /\
            Zlen tail1 <= 20) as (t & -> & Ht & Htl).
  { unfold slot_of, managed_server_credential_keys in Hs. cbn [fst snd] in Hs. rewrite Hid in Hs.
    rewrite <- !app_assoc in Hs. destruct Hs as [->| ->]; eexists;
      (split; [reflexivity|]); destruct k; vm_compute; (split; [done|intros; congruence]). }
  assert (forallb (fun b => (1 <=? Z_of_byte b) && (Z_of_byte b <=? 0x7f))
            (bs "server/srv_" ++ digits ++ t) = true) as Ha.
  { rewrite !forallb_app, Ht, andb_true_r. apply andb_true_intro. split; [done|].
    apply forallb_forall. intros b Hb. rewrite forallb_forall in Hx. specialize (Hx b Hb).
    by destruct b. }
  unfold validate_text.
  rewrite !Zlen_app, Hl. change (Zlen (bs "server/srv_")) with 11.
  pose proof (Zlen_nonneg t). destruct (Z.ltb_spec (11 + (32 + Zlen t)) 1); [lia|].
  destruct (Z.ltb_spec 256 (11 + (32 + Zlen t))); [lia|]. simpl orb. cbv iota.
  rewrite forallb_forall in Ha. rewrite bool_decide_false.
  2: { intros Hn%list_elem_of_In. specialize (Ha _ Hn). done. }
  rewrite (proj2 (storage_is_valid_utf8_encodings _)); [done|].
  apply is_valid_utf8_encodings, is_valid_utf8_ascii.
  apply forallb_forall. intros b Hb. specialize (Ha b Hb). by apply andb_true_iff in Ha as [_ ?].
Qed.

Lemma slot_of_valid server_id k key :
  canonical server (str server_id) -> slot_of server_id k key -> validate_key key = success.
Proof. apply slot_text_valid. Qed.
