(* ===== verification/Control.v ===== *)
(** * The control service (src/daemon/control_service.cpp)

    The handlers of the IPC methods of the daemon: they validate their parameters, work
    on the state database in a transaction, move secrets between the slots of the
    credential store, tell the server manager about committed changes and answer with
    JSON.  A handler is code on [Control], which is the state database, the credential
    store, and what the handlers consume: clock readings, random bytes.  The handlers that
    touch credentials exclude each other by [credential_operation_mutex_], the others by
    the lock a [Transaction] holds; they are modelled as running one after the other.  The
    table of the methods and their dispatch are in ControlService.v. *)
From S2P Require Import Prelude Common Ids Text Endpoint Utf8 Models Rows Database Repository Json IpcProtocol Credentials.

(** ** Parameters *)

Definition contains (params : Json) (field : string) : bool :=
  match json_find (bs field) params with Some _ => true | None => false end.

(** [Json::size] of an object. *)
Definition params_size (params : Json) : Z := Zlen (json_keys params).

(** [validate_params]. *)
Definition validate_params (params : Json) (required optional : list string) : Result unit :=
  if negb (forallb (contains params) required) then
    failure invalid_argument "IPC params are missing a required field"
  else if negb (forallb (fun key => bool_decide (key ∈ bs <$> required)
                                    || bool_decide (key ∈ bs <$> optional)) (json_keys params)) then
    failure invalid_argument "IPC params contain an unknown field"
  else success.

(** [required_string]. *)
Definition required_string (params : Json) (field : string) : Result bytes :=
  match json_find (bs field) params with
  | Some (JString value) => Ok value
  | _ => failure invalid_argument "IPC parameter must be a string"
  end.

(** [optional_string]. *)
Definition optional_string (params : Json) (field : string) : Result (option bytes) :=
  match json_find (bs field) params with
  | None => Ok None
  | Some (JString value) => Ok (Some value)
  | Some _ => failure invalid_argument "IPC parameter must be a string"
  end.

(** [optional_nullable_string]: an omitted field, an explicit null, a text. *)
Definition optional_nullable_string (params : Json) (field : string) :
  Result (option (option bytes)) :=
  match json_find (bs field) params with
  | None => Ok None
  | Some JNull => Ok (Some None)
  | Some (JString value) => Ok (Some (Some value))
  | Some _ => failure invalid_argument "IPC parameter must be a string or null"
  end.

Definition port_range_error : Error :=
  mkError invalid_argument (bs "port must be between 1 and 65535").

(** [required_port]. *)
Definition required_port (params : Json) (field : string) : Result Z :=
  port ← match json_find (bs field) params with
         | Some (JUnsigned port) => Ok port
         | Some (JInt port) => if port <? 0 then Err port_range_error else Ok port
         | _ => failure invalid_argument "port parameter must be an integer"
         end;
  if (port <? 1) || (65535 <? port) then Err port_range_error else Ok port.

(** [optional_port]. *)
Definition optional_port (params : Json) (field : string) : Result (option Z) :=
  if negb (contains params field) then Ok None
  else port ← required_port params field; Ok (Some port).

(** [optional_bool]. *)
Definition optional_bool (params : Json) (field : string) : Result bool :=
  match json_find (bs field) params with
  | None => Ok false
  | Some (JBool value) => Ok value
  | Some _ => failure invalid_argument "IPC parameter must be a boolean"
  end.

(** ** Answers *)

Definition optional_json (value : option bytes) : Json :=
  match value with Some text => JString text | None => JNull end.
Definition optional_int_json (value : option Z) : Json :=
  match value with Some n => JInt n | None => JNull end.

Record TunnelServerContext : Set := mkTunnelServerContext {
  context_name : option bytes;
  context_actual_state : ServerActualState.t
}.

(** [pending_reason]. *)
Definition pending_reason (t : TunnelRecord) (context : option TunnelServerContext) :
  option bytes :=
  if negb (bool_decide (tr_actual_state t = TunnelActualState.pending)) then None
  else match context with
       | None => Some (bs "server_not_found")
       | Some context =>
           Some (match context_actual_state context with
                 | ServerActualState.not_authenticated => bs "server_not_authenticated"
                 | ServerActualState.disconnected => bs "server_disconnected"
                 | ServerActualState.connecting => bs "server_connecting"
                 | ServerActualState.tls_handshake => bs "server_tls_handshake"
                 | ServerActualState.authenticating => bs "server_authenticating"
                 | ServerActualState.online => bs "awaiting_remote_sync"
                 | ServerActualState.backoff => bs "server_backoff"
                 | ServerActualState.disabled => bs "server_disabled"
                 | ServerActualState.error => bs "server_error"
                 end)
       end.

(** [last_error_json]. *)
Definition last_error_json (error_code : option ErrorCode) (error_message : option bytes) : Json :=
  match error_code with
  | None => JNull
  | Some c => json_object [("code", JString (error_code_to_string c));
                           ("message", optional_json error_message)]%string
  end.

(** [server_json]. *)
Definition server_json (r : ServerRecord) (tunnel_count : Z) : Json :=
  json_object [
    ("id", JString (str (sr_id r)));
    ("name", optional_json (sr_name r));
    ("endpoint", JString (Endpoint_to_string (sr_endpoint r)));
    ("tls_server_name", optional_json (sr_tls_server_name r));
    ("credential_configured", JBool (bool_decide (is_Some (sr_credential_ref r))));
    ("ca_configured", JBool (bool_decide (is_Some (sr_ca_credential_ref r))));
    ("client_certificate_configured",
      JBool (bool_decide (is_Some (sr_client_certificate_ref r))
             && bool_decide (is_Some (sr_client_private_key_ref r))));
    ("remote_server_id", optional_json (sr_remote_server_id r));
    ("desired_state", JString (enum_to_string (sr_desired_state r)));
    ("actual_state", JString (enum_to_string (sr_actual_state r)));
    ("last_error", last_error_json (sr_last_error_code r) (sr_last_error_message r));
    ("reconnect_attempt", JUnsigned (sr_reconnect_attempt r));
    ("latency_ms", optional_int_json (sr_latency_ms r));
    ("tunnel_count", JUnsigned tunnel_count);
    ("config_revision", JUnsigned (sr_config_revision r));
    ("managed_by_config", JBool (sr_managed_by_config r));
    ("created_at", JInt (sr_created_at r));
    ("updated_at", JInt (sr_updated_at r))]%string.

(** [tunnel_json]. *)
Definition tunnel_json (t : TunnelRecord) (context : option TunnelServerContext) : Json :=
  json_object [
    ("id", JString (str (tr_id t)));
    ("name", optional_json (tr_name t));
    ("server_id", JString (str (tr_server_id t)));
    ("server_name", match context with None => JNull | Some x => optional_json (context_name x) end);
    ("server_actual_state",
      match context with
      | None => JNull
      | Some x => JString (enum_to_string (context_actual_state x))
      end);
    ("protocol", JString (enum_to_string (tr_protocol t)));
    ("proxy_protocol", JBool (tr_proxy_protocol t));
    ("local_endpoint", JString (Endpoint_to_string (tr_local_endpoint t)));
    ("remote_endpoint", JString (Endpoint_to_string (tr_remote_endpoint t)));
    ("desired_state", JString (enum_to_string (tr_desired_state t)));
    ("actual_state", JString (enum_to_string (tr_actual_state t)));
    ("pending_reason", optional_json (pending_reason t context));
    ("last_error", last_error_json (tr_last_error_code t) (tr_last_error_message t));
    ("created_at", JInt (tr_created_at t));
    ("updated_at", JInt (tr_updated_at t));
    ("last_synced_at", optional_int_json (tr_last_synced_at t));
    ("config_revision", JUnsigned (tr_config_revision t));
    ("managed_by_config", JBool (tr_managed_by_config t))]%string.

(** [tunnel_counts]. *)
Fixpoint tunnel_counts (l : list TunnelRecord) : gmap bytes Z :=
  match l with
  | [] => ∅
  | t :: l =>
      let counts := tunnel_counts l in
      if bool_decide (tr_desired_state t = TunnelDesiredState.removed) then counts
      else let id := str (tr_server_id t) in <[id := default 0 (counts !! id) + 1]> counts
  end.

Definition count_of (l : list TunnelRecord) (id : Id) : Z := default 0 (tunnel_counts l !! str id).

(** [next_revision]. *)
Definition next_revision (current : Z) : Result Z :=
  if 2 ^ 63 - 1 <=? current then
    failure resource_exhausted "configuration revision is exhausted"
  else Ok (current + 1).

(** ** The state of the service *)

(** What the service does not implement itself: [address::is_loopback] of
    [make_address(host)], the TLS library's check of a client context, and the callbacks it
    was constructed with; [None] is an empty callback, [Some None] one that throws.
    [checkpoint_incomplete]: a reader keeps SQLite from moving the whole log. *)
Class ControlEnvironment := {
  loopback_address : bytes -> bool;
  make_client_tls_context : bytes -> bytes -> bytes -> Result unit;
  runtime_metrics : option (option Json);
  reload_handler : option (Result unit);
  checkpoint_incomplete : bool
}.

(** [clock_] and [entropy_] are the readings of the system clock and of [RAND_bytes] to
    come; [notified] counts the calls of [notify_state_changed]. *)
Record Control (S : Type) : Type := mkControl {
  state_db : Database;
  credentials : S;
  clock_ : nat -> Z;
  entropy_ : nat -> option bytes;
  notified : nat
}.
Arguments mkControl {S} _ _ _ _ _.
Arguments state_db {S} _.
Arguments credentials {S} _.
Arguments clock_ {S} _ _.
Arguments entropy_ {S} _ _.
Arguments notified {S} _.

(** ** Assignments to fields of a record *)

Definition set_server_config (name : option bytes) (endpoint : Endpoint)
    (tls_server_name : option bytes) (r : ServerRecord) : ServerRecord :=
  mkServerRecord (sr_id r) name endpoint (sr_credential_ref r) (sr_remote_server_id r)
    (sr_desired_state r) (sr_actual_state r) (sr_last_error_code r) (sr_last_error_message r)
    (sr_reconnect_attempt r) (sr_latency_ms r) (sr_created_at r) (sr_updated_at r) tls_server_name
    (sr_ca_credential_ref r) (sr_client_certificate_ref r) (sr_client_private_key_ref r)
    (sr_config_revision r) (sr_managed_by_config r).

Definition set_server_refs (credential ca certificate private_key : option bytes)
    (r : ServerRecord) : ServerRecord :=
  mkServerRecord (sr_id r) (sr_name r) (sr_endpoint r) credential (sr_remote_server_id r)
    (sr_desired_state r) (sr_actual_state r) (sr_last_error_code r) (sr_last_error_message r)
    (sr_reconnect_attempt r) (sr_latency_ms r) (sr_created_at r) (sr_updated_at r)
    (sr_tls_server_name r) ca certificate private_key (sr_config_revision r)
    (sr_managed_by_config r).

Definition set_remote_server_id (remote_server_id : option bytes) (r : ServerRecord) :
  ServerRecord :=
  mkServerRecord (sr_id r) (sr_name r) (sr_endpoint r) (sr_credential_ref r) remote_server_id
    (sr_desired_state r) (sr_actual_state r) (sr_last_error_code r) (sr_last_error_message r)
    (sr_reconnect_attempt r) (sr_latency_ms r) (sr_created_at r) (sr_updated_at r)
    (sr_tls_server_name r) (sr_ca_credential_ref r) (sr_client_certificate_ref r)
    (sr_client_private_key_ref r) (sr_config_revision r) (sr_managed_by_config r).

(** [desired_state] and [actual_state]; the last error, the reconnection attempts and the
    latency are reset. *)
Definition set_server_states (desired : ServerDesiredState.t) (actual : ServerActualState.t)
    (r : ServerRecord) : ServerRecord :=
  mkServerRecord (sr_id r) (sr_name r) (sr_endpoint r) (sr_credential_ref r)
    (sr_remote_server_id r) desired actual None None 0 None (sr_created_at r) (sr_updated_at r)
    (sr_tls_server_name r) (sr_ca_credential_ref r) (sr_client_certificate_ref r)
    (sr_client_private_key_ref r) (sr_config_revision r) (sr_managed_by_config r).

Definition set_server_version (revision updated_at : Z) (r : ServerRecord) : ServerRecord :=
  mkServerRecord (sr_id r) (sr_name r) (sr_endpoint r) (sr_credential_ref r)
    (sr_remote_server_id r) (sr_desired_state r) (sr_actual_state r) (sr_last_error_code r)
    (sr_last_error_message r) (sr_reconnect_attempt r) (sr_latency_ms r) (sr_created_at r)
    updated_at (sr_tls_server_name r) (sr_ca_credential_ref r) (sr_client_certificate_ref r)
    (sr_client_private_key_ref r) revision (sr_managed_by_config r).

Definition set_tunnel_config (name : option bytes) (local remote : Endpoint)
    (protocol : TunnelProtocol.t) (proxy_protocol : bool) (t : TunnelRecord) : TunnelRecord :=
  mkTunnelRecord (tr_id t) name (tr_server_id t) protocol local remote (tr_desired_state t)
    (tr_actual_state t) (tr_last_error_code t) (tr_last_error_message t) (tr_created_at t)
    (tr_updated_at t) (tr_last_synced_at t) (tr_config_revision t) (tr_managed_by_config t)
    proxy_protocol.

(** [desired_state] and [actual_state]; the last error is reset. *)
Definition set_tunnel_states (desired : TunnelDesiredState.t) (actual : TunnelActualState.t)
    (revision updated_at : Z) (t : TunnelRecord) : TunnelRecord :=
  mkTunnelRecord (tr_id t) (tr_name t) (tr_server_id t) (tr_protocol t) (tr_local_endpoint t)
    (tr_remote_endpoint t) desired actual None None (tr_created_at t) updated_at
    (tr_last_synced_at t) revision (tr_managed_by_config t) (tr_proxy_protocol t).

Definition set_tunnel_pending (updated_at : Z) (t : TunnelRecord) : TunnelRecord :=
  mkTunnelRecord (tr_id t) (tr_name t) (tr_server_id t) (tr_protocol t) (tr_local_endpoint t)
    (tr_remote_endpoint t) (tr_desired_state t) TunnelActualState.pending (tr_last_error_code t)
    (tr_last_error_message t) (tr_created_at t) updated_at (tr_last_synced_at t)
    (tr_config_revision t) (tr_managed_by_config t) (tr_proxy_protocol t).

(** [validate_protocol_binding]. *)
Definition validate_protocol_binding `{ControlEnvironment} (protocol : TunnelProtocol.t)
    (remote_endpoint : Endpoint) : Result unit :=
  if negb (bool_decide (protocol = TunnelProtocol.socks5)) then success
  else if negb (loopback_address (host remote_endpoint)) then
    failure permission_denied "SOCKS5 tunnels must bind a loopback address"
  else success.

(** [validate_proxy_protocol_mode]. *)
Definition validate_proxy_protocol_mode (protocol : TunnelProtocol.t) (proxy_protocol : bool) :
  Result unit :=
  if proxy_protocol && negb (bool_decide (protocol = TunnelProtocol.tcp)) then
    failure invalid_argument "PROXY protocol headers are only supported by tcp tunnels"
  else success.

(** [parse_credential_material] of a field that is present. *)
Definition parse_credential_material (field : option bytes) (description : string) : Result bytes :=
  match field with
  | None => Ok []
  | Some value =>
      if bool_decide (value = []) || (kMaxCredentialSecretBytes <? Zlen value)
         || bool_decide (kNul ∈ value) then
        Err (mkError invalid_argument
               (bs description ++ bs " is outside its accepted byte-length"))
      else Ok value
  end.

Section Handlers.
Context `{AsioAddress} `{SqliteMessages} `{ControlEnvironment} {S : Type} `{CredentialStore S}.
Variable limits : StorageLimits.

Abbreviation Control := (Control S).
Implicit Types (c : Control) (p : Json).

(** ** Steps of a handler *)

Definition set_db (db : Database) c : Control :=
  mkControl db (credentials c) (clock_ c) (entropy_ c) (notified c).
Definition set_credentials (s : S) c : Control :=
  mkControl (state_db c) s (clock_ c) (entropy_ c) (notified c).

Definition on_db {A} (m : Action Database A) : Action Control A := fun c =>
  let (r, db) := m (state_db c) in (r, set_db db c).
Definition on_store {A} (m : Action S A) : Action Control A := fun c =>
  let (r, s) := m (credentials c) in (r, set_credentials s c).

(** [common::unix_milliseconds_now]. *)
Definition unix_milliseconds_now : Action Control Z := fun c =>
  (Ok (clock_ c 0%nat),
   mkControl (state_db c) (credentials c) (fun n => clock_ c (Datatypes.S n)) (entropy_ c)
     (notified c)).

(** [RAND_bytes] of [Id::generate]. *)
Definition random_bytes : Action Control (option bytes) := fun c =>
  (Ok (entropy_ c 0%nat),
   mkControl (state_db c) (credentials c) (clock_ c) (fun n => entropy_ c (Datatypes.S n))
     (notified c)).

Definition generate_id (k : IdKind) : Action Control Id :=
  random ← random_bytes;
  ST_lift (Id_generate random k).

(** [update_time]. *)
Definition update_time (previous : Z) : Action Control Z :=
  now ← unix_milliseconds_now;
  mret (Z.max previous now).

(** [notify_state_changed]. *)
Definition notify_state_changed : Action Control unit := fun c =>
  (success, mkControl (state_db c) (credentials c) (clock_ c) (entropy_ c)
              (Datatypes.S (notified c))).

Definition notify_if (changed : bool) : Action Control unit :=
  if changed then notify_state_changed else mret tt.

(** A [Transaction] held from [begin_transaction] to the end of the handler. *)
Definition scoped {A} (body : Action Control A) : Action Control A := fun c =>
  match begin_transaction (state_db c) with
  | (Err e, db) => (Err e, set_db db c)
  | (Ok _, db) =>
      let (r, c) := body (set_db db c) in (r, set_db (rollback_noexcept (state_db c)) c)
  end.

(** [StateRepository::checkpoint], [Database::checkpoint]. *)
Definition checkpoint : Action Database unit := fun db =>
  if poisoned_ db then
    (failure database_error "SQLite connection is unusable after a rollback failure", db)
  else if bool_decide (is_Some (transaction_ db)) then
    (failure invalid_argument "cannot checkpoint during an active SQLite transaction", db)
  else
    (_ ← run "checkpoint SQLite state database" (select (fun _ => tt));
     if checkpoint_incomplete
     then fail_with database_error "SQLite state checkpoint was incomplete" else mret tt) db.

(** [resolve_server]. *)
Definition resolve_server (identifier : bytes) : Action Control ServerRecord :=
  r ← on_db (match Id_parse_kind identifier server with
             | Ok id => ServerRepository.get_by_id id
             | Err _ => ServerRepository.get_by_name identifier
             end);
  if bool_decide (sr_desired_state r = ServerDesiredState.removed) then
    fail_with not_found "server was not found"
  else mret r.

(** The loop of [resolve_tunnel] over the tunnels with a name. *)
Fixpoint match_name (identifier : bytes) (l : list TunnelRecord) (found : option TunnelRecord) :
  Result (option TunnelRecord) :=
  match l with
  | [] => Ok found
  | t :: l =>
      if bool_decide (tr_desired_state t = TunnelDesiredState.removed)
         || negb (bool_decide (tr_name t = Some identifier)) then match_name identifier l found
      else match found with
           | Some _ => failure invalid_argument "tunnel name is ambiguous; use the tunnel ID"
           | None => match_name identifier l (Some t)
           end
  end.

(** [resolve_tunnel]. *)
Definition resolve_tunnel (identifier : bytes) : Action Control TunnelRecord :=
  match Id_parse_kind identifier tunnel with
  | Ok id =>
      t ← on_db (TunnelRepository.get_by_id id);
      if bool_decide (tr_desired_state t = TunnelDesiredState.removed) then
        fail_with not_found "tunnel was not found"
      else mret t
  | Err _ =>
      if bool_decide (identifier = []) || (kMaxNameBytes <? Zlen identifier) then
        fail_with invalid_argument "tunnel name is outside its byte-length limit"
      else
        l ← on_db (TunnelRepository.list_ (max_tunnels limits));
        found ← ST_lift (match_name identifier l None);
        match found with
        | None => fail_with not_found "tunnel was not found"
        | Some t => mret t
        end
  end.

Definition list_by_server (id : Id) : Action Control (list TunnelRecord) :=
  on_db (TunnelRepository.list_by_server (max_tunnels limits) id).

(** ** Handlers of the servers *)

(** [server_add]. *)
Definition server_add p : Action Control Json :=
  _ ← ST_lift (validate_params p ["endpoint"] ["name"])%string;
  endpoint_text_value ← ST_lift (required_string p "endpoint");
  name ← ST_lift (optional_string p "name");
  endpoint ← ST_lift (Endpoint_parse endpoint_text_value);
  id ← generate_id server;
  now ← unix_milliseconds_now;
  let r := {|
    sr_id := id; sr_name := name; sr_endpoint := endpoint; sr_credential_ref := None;
    sr_remote_server_id := None; sr_desired_state := ServerDesiredState.enabled;
    sr_actual_state := ServerActualState.not_authenticated; sr_last_error_code := None;
    sr_last_error_message := None; sr_reconnect_attempt := 0; sr_latency_ms := None;
    sr_created_at := now; sr_updated_at := now; sr_tls_server_name := None;
    sr_ca_credential_ref := None; sr_client_certificate_ref := None;
    sr_client_private_key_ref := None; sr_config_revision := 1; sr_managed_by_config := false |} in
  _ ← on_db (ServerRepository.create (max_servers limits) r);
  _ ← notify_state_changed;
  mret (json_object [("server", server_json r 0)]%string).

(** The parameters of [server_login]: the identifier and the PSK. *)
Definition login_params p : Result (bytes * bytes) :=
  _ ← (validate_params p ["identifier"] ["psk"; "token"])%string;
  let has_psk := contains p "psk" in
  let has_legacy_token := contains p "token" in
  if eqb has_psk has_legacy_token then
    failure invalid_argument "server login requires exactly one PSK field"
  else
  identifier ← required_string p "identifier";
  secret ← required_string p (if has_psk then "psk" else "token")%string;
  if bool_decide (secret = []) || (kMaxCredentialSecretBytes <? Zlen secret)
     || bool_decide (kNul ∈ secret) then
    failure invalid_argument "PSK is outside its accepted byte-length"
  else Ok (identifier, secret).

(** [server_login]. *)
Definition server_login p : Action Control Json :=
  '(identifier, secret) ← ST_lift (login_params p);
  scoped (
    r ← resolve_server identifier;
    let previous_key := sr_credential_ref r in
    let key := next_credential_key r in
    revision ← ST_lift (next_revision (sr_config_revision r));
    updated_at ← update_time (sr_updated_at r);
    let r :=
      set_server_version revision updated_at
        (set_server_states (sr_desired_state r)
           (if bool_decide (sr_desired_state r = ServerDesiredState.enabled)
            then ServerActualState.disconnected else ServerActualState.disabled)
           (set_server_refs (Some key) (sr_ca_credential_ref r) (sr_client_certificate_ref r)
              (sr_client_private_key_ref r) r)) in
    _ ← on_db (ServerRepository.update_in r);
    l ← list_by_server (sr_id r);
    _ ← on_store (credential_put key secret);
    committed ← attempt (on_db commit);
    match committed with
    | Err e =>
        _ ← attempt (on_store (credential_remove key));
        ST_fail e
    | Ok _ =>
        _ ← attempt (on_store (cleanup_server_credentials (sr_id r) previous_key (Some key)));
        _ ← notify_state_changed;
        mret (json_object [("server", server_json r (count_of l (sr_id r)))]%string)
    end).

(** [load_credential]. *)
Definition load_credential (reference : option bytes) (description : string) :
  Action Control bytes := fun c =>
  match reference with
  | None => (Ok [], c)
  | Some key =>
      match on_store (credential_get key) c with
      | (Err e, c) => (Err (mkError (code e) (bs description ++ bs " is unavailable")), c)
      | r => r
      end
  end.

(** The prospective material of one kind and whether it differs from the current one. *)
Definition prospective (field : option (option bytes)) (current : bytes) (description : string) :
  Result (bytes * bool) :=
  match field with
  | Some field =>
      parsed ← parse_credential_material field description;
      Ok (parsed, negb (bool_decide (parsed = current)))
  | None => Ok (current, false)
  end.

(** [~StagedCredentials] without [release]. *)
Fixpoint discard (keys : list bytes) c : Control :=
  match keys with
  | [] => c
  | key :: keys => discard keys (on_store (credential_remove key) c).2
  end.

(** Code that returns early destroys the [StagedCredentials]. *)
Definition discarding {A} (keys : list bytes) (m : Action Control A) : Action Control A := fun c =>
  match m c with
  | (Err e, c) => (Err e, discard keys c)
  | r => r
  end.

(** One kind of material is staged: its new reference and the keys staged so far. *)
Definition stage (previous : ServerRecord) (k : ServerCredentialKind) (changed : bool)
    (material : bytes) (keys : list bytes) : Action Control (option bytes * list bytes) :=
  if negb changed then mret (credential_reference previous k, keys)
  else if bool_decide (material = []) then mret (None, keys)
  else
    let key := next_server_credential_key previous k in
    _ ← discarding keys (on_store (credential_put key material));
    mret (Some key, keys ++ [key]).

(** [cleanup_kind]. *)
Definition cleanup_kind (previous r : ServerRecord) (k : ServerCredentialKind)
    (material_changed : bool) : Action Control unit :=
  if negb material_changed then mret tt
  else
    _ ← attempt (on_store (cleanup_server_credential_kind (sr_id r) k
           (credential_reference previous k) (credential_reference r k)));
    mret tt.

(** The assignments of [server_update]: the record and whether it changed. *)
Definition update_record (name : option (option bytes)) (endpoint : option Endpoint)
    (tls_server_name : option (option bytes)) (material_changed : bool) (r : ServerRecord) :
  ServerRecord * bool * bool :=
  let name_changed :=
    match name with Some name => negb (bool_decide (sr_name r = name)) | None => false end in
  let endpoint_changed :=
    match endpoint with
    | Some endpoint => negb (bool_decide (sr_endpoint r = endpoint)) | None => false end in
  let tls_changed :=
    match tls_server_name with
    | Some tls => negb (bool_decide (sr_tls_server_name r = tls)) | None => false end in
  let r :=
    set_server_config
      (if name_changed then default (sr_name r) name else sr_name r)
      (if endpoint_changed then default (sr_endpoint r) endpoint else sr_endpoint r)
      (if tls_changed then default (sr_tls_server_name r) tls_server_name
       else sr_tls_server_name r) r in
  (r, material_changed || name_changed || endpoint_changed || tls_changed,
   material_changed || endpoint_changed || tls_changed).

(** The actual state of a server whose connection is set up anew. *)
Definition restarted_state (r : ServerRecord) : ServerActualState.t :=
  if bool_decide (sr_desired_state r = ServerDesiredState.disabled) then ServerActualState.disabled
  else if bool_decide (is_Some (sr_credential_ref r)) then ServerActualState.disconnected
  else ServerActualState.not_authenticated.

(** [if (changed) { ... }] of [server_update]. *)
Definition store_update (changed transport_changed : bool) (r : ServerRecord) :
  Action Control ServerRecord :=
  if negb changed then mret r
  else
    revision ← ST_lift (next_revision (sr_config_revision r));
    updated_at ← update_time (sr_updated_at r);
    let r := set_server_version revision updated_at r in
    let r :=
      if transport_changed then
        set_remote_server_id None (set_server_states (sr_desired_state r) (restarted_state r) r)
      else r in
    _ ← on_db (ServerRepository.update_in r);
    mret r.

(** [server_update]. *)
Definition server_update p : Action Control Json :=
  _ ← ST_lift (validate_params p ["identifier"]
        ["name"; "endpoint"; "tls_server_name"; "ca_certificate"; "client_certificate";
         "client_private_key"])%string;
  if params_size p =? 1 then
    fail_with invalid_argument "server update requires at least one field"
  else
  identifier ← ST_lift (required_string p "identifier");
  name ← ST_lift (optional_nullable_string p "name");
  endpoint_text_value ← ST_lift (optional_string p "endpoint");
  tls_server_name ← ST_lift (optional_nullable_string p "tls_server_name");
  ca_field ← ST_lift (optional_nullable_string p "ca_certificate");
  certificate_field ← ST_lift (optional_nullable_string p "client_certificate");
  private_key_field ← ST_lift (optional_nullable_string p "client_private_key");
  endpoint ← ST_lift (match endpoint_text_value with
                      | Some text => parsed ← Endpoint_parse text; Ok (Some parsed)
                      | None => Ok None
                      end);
  scoped (
    previous ← resolve_server identifier;
    l ← list_by_server (sr_id previous);
    loaded_ca ← attempt (load_credential (sr_ca_credential_ref previous) "server CA");
    loaded_certificate ← attempt
      (load_credential (sr_client_certificate_ref previous) "client certificate");
    loaded_private_key ← attempt
      (load_credential (sr_client_private_key_ref previous) "client private key");
    current_ca ← ST_lift loaded_ca;
    current_certificate ← ST_lift loaded_certificate;
    current_private_key ← ST_lift loaded_private_key;
    '(ca, ca_changed) ← ST_lift (prospective ca_field current_ca "server CA");
    '(certificate, certificate_changed) ←
      ST_lift (prospective certificate_field current_certificate "client certificate");
    '(private_key, private_key_changed) ←
      ST_lift (prospective private_key_field current_private_key "client private key");
    if negb (eqb (bool_decide (certificate = [])) (bool_decide (private_key = []))) then
      fail_with invalid_argument "client certificate and private key must be configured together"
    else
    _ ← ST_lift (make_client_tls_context ca certificate private_key);
    '(ca_ref, keys) ← stage previous ca_certificate ca_changed ca [];
    '(certificate_ref, keys) ←
      stage previous client_certificate certificate_changed certificate keys;
    '(private_key_ref, keys) ←
      stage previous client_private_key private_key_changed private_key keys;
    '(r, changed) ← discarding keys (
      let '(r, changed, transport_changed) :=
        update_record name endpoint tls_server_name
          (ca_changed || certificate_changed || private_key_changed)
          (set_server_refs (sr_credential_ref previous) ca_ref certificate_ref private_key_ref
             previous) in
      r ← store_update changed transport_changed r;
      _ ← on_db commit;
      mret (r, changed));
    _ ← cleanup_kind previous r ca_certificate ca_changed;
    _ ← cleanup_kind previous r client_certificate certificate_changed;
    _ ← cleanup_kind previous r client_private_key private_key_changed;
    _ ← notify_if changed;
    mret (json_object [("server", server_json r (count_of l (sr_id r)));
                       ("changed", JBool changed)]%string)).

(** The loop of [server_enable] and of [server_disable] over the tunnels. *)
Fixpoint suspend_tunnels (l : list TunnelRecord) : Action Control (list TunnelRecord) :=
  match l with
  | [] => mret []
  | t :: l =>
      t ← (if bool_decide (tr_desired_state t = TunnelDesiredState.active) then
             updated_at ← update_time (tr_updated_at t);
             let t := set_tunnel_pending updated_at t in
             _ ← on_db (TunnelRepository.update_in t);
             mret t
           else mret t);
      l ← suspend_tunnels l;
      mret (t :: l)
  end.

(** The parameter of most handlers. *)
Definition identifier_param p : Result bytes :=
  _ ← validate_params p ["identifier"]%string [];
  required_string p "identifier".

(** [server_enable] and [server_disable]. *)
Definition switch_server (desired : ServerDesiredState.t)
    (actual : ServerRecord -> ServerActualState.t) p : Action Control Json :=
  identifier ← ST_lift (identifier_param p);
  scoped (
    r ← resolve_server identifier;
    l ← list_by_server (sr_id r);
    let changed := negb (bool_decide (sr_desired_state r = desired)) in
    '(r, l) ← (
      if negb changed then mret (r, l)
      else
        revision ← ST_lift (next_revision (sr_config_revision r));
        updated_at ← update_time (sr_updated_at r);
        let r := set_server_version revision updated_at (set_server_states desired (actual r) r) in
        _ ← on_db (ServerRepository.update_in r);
        l ← suspend_tunnels l;
        mret (r, l));
    _ ← on_db commit;
    _ ← notify_if changed;
    mret (json_object [("server", server_json r (count_of l (sr_id r)));
                       ("changed", JBool changed)]%string)).

Definition server_enable : Json -> Action Control Json :=
  switch_server ServerDesiredState.enabled (fun r =>
    if bool_decide (is_Some (sr_credential_ref r)) then ServerActualState.disconnected
    else ServerActualState.not_authenticated).

Definition server_disable : Json -> Action Control Json :=
  switch_server ServerDesiredState.disabled (fun _ => ServerActualState.disabled).

(** [server_logout]. *)
Definition server_logout p : Action Control Json :=
  identifier ← ST_lift (identifier_param p);
  scoped (
    r ← resolve_server identifier;
    l ← list_by_server (sr_id r);
    let psk_ref := sr_credential_ref r in
    let certificate_ref := sr_client_certificate_ref r in
    let private_key_ref := sr_client_private_key_ref r in
    let logged_out_state :=
      if bool_decide (sr_desired_state r = ServerDesiredState.disabled)
      then ServerActualState.disabled else ServerActualState.not_authenticated in
    let changed :=
      bool_decide (is_Some psk_ref) || bool_decide (is_Some certificate_ref)
      || bool_decide (is_Some private_key_ref)
      || negb (bool_decide (sr_actual_state r = logged_out_state)) in
    r ← (
      if negb changed then mret r
      else
        revision ← ST_lift (next_revision (sr_config_revision r));
        updated_at ← update_time (sr_updated_at r);
        let r :=
          set_server_version revision updated_at
            (set_server_states (sr_desired_state r) logged_out_state
               (set_remote_server_id None
                  (set_server_refs None (sr_ca_credential_ref r) None None r))) in
        _ ← on_db (ServerRepository.update_in r);
        mret r);
    _ ← on_db commit;
    _ ← attempt (on_store (cleanup_server_credentials (sr_id r) psk_ref None));
    _ ← attempt (on_store (cleanup_server_credential_kind (sr_id r) client_certificate
                             certificate_ref None));
    _ ← attempt (on_store (cleanup_server_credential_kind (sr_id r) client_private_key
                             private_key_ref None));
    _ ← notify_if changed;
    mret (json_object [("server", server_json r (count_of l (sr_id r)));
                       ("changed", JBool changed)]%string)).

Definition server_removed (r : ServerRecord) : bool :=
  bool_decide (sr_desired_state r = ServerDesiredState.removed).
Definition tunnel_removed (t : TunnelRecord) : bool :=
  bool_decide (tr_desired_state t = TunnelDesiredState.removed).

(** [servers().list()] and [tunnels().list()], both run before the first error returns. *)
Definition list_all : Action Control (list ServerRecord * list TunnelRecord) :=
  listed_servers ← attempt (on_db (ServerRepository.list_ (max_servers limits)));
  listed_tunnels ← attempt (on_db (TunnelRepository.list_ (max_tunnels limits)));
  servers ← ST_lift listed_servers;
  tunnels ← ST_lift listed_tunnels;
  mret (servers, tunnels).

(** [server_list]. *)
Definition server_list p : Action Control Json :=
  _ ← ST_lift (validate_params p [] []);
  scoped (
    '(servers, tunnels) ← list_all;
    _ ← on_db commit;
    mret (json_object [("servers", JArray
      (map (fun r => server_json r (count_of tunnels (sr_id r)))
         (List.filter (fun r => negb (server_removed r)) servers)))]%string)).

(** [server_inspect]. *)
Definition server_inspect p : Action Control Json :=
  identifier ← ST_lift (identifier_param p);
  scoped (
    r ← resolve_server identifier;
    l ← list_by_server (sr_id r);
    _ ← on_db commit;
    mret (json_object [("server", server_json r (count_of l (sr_id r)))]%string)).

(** [{"removed", Json{{"id", ...}, {"name", ...}}}]. *)
Definition removed_json (id : Id) (name : option bytes) : Json :=
  json_object [("removed", json_object [("id", JString (str id));
                                        ("name", optional_json name)])]%string.

(** [server_remove]. *)
Definition server_remove p : Action Control Json :=
  identifier ← ST_lift (identifier_param p);
  scoped (
    r ← resolve_server identifier;
    removed_at ← update_time (sr_updated_at r);
    _ ← on_db (ServerRepository.mark_removed_in (sr_id r) removed_at);
    _ ← on_db commit;
    _ ← attempt (on_db checkpoint);
    credentials_removed ← attempt (on_store (cleanup_all_server_credentials r));
    _ ← (match credentials_removed with
         | Err _ => mret tt
         | Ok _ =>
             erased ← attempt (on_db (ServerRepository.erase (sr_id r)));
             match erased with
             | Err e =>
                 if negb (bool_decide (code e = not_found)) then mret tt
                 else _ ← attempt (on_db checkpoint); mret tt
             | Ok _ => _ ← attempt (on_db checkpoint); mret tt
             end
         end);
    _ ← notify_state_changed;
    mret (removed_json (sr_id r) (sr_name r))).

(** ** Handlers of the tunnels *)

Definition server_context (r : ServerRecord) : TunnelServerContext :=
  mkTunnelServerContext (sr_name r) (sr_actual_state r).

(** [tunnel_add]. *)
Definition tunnel_add p : Action Control Json :=
  _ ← ST_lift (validate_params p ["server"; "remote_port"]
        ["local_host"; "local_port"; "remote_host"; "name"; "protocol"; "proxy_protocol"])%string;
  server_identifier ← ST_lift (required_string p "server");
  local_port ← ST_lift (optional_port p "local_port");
  remote_port ← ST_lift (required_port p "remote_port");
  local_host ← ST_lift (optional_string p "local_host");
  remote_host ← ST_lift (optional_string p "remote_host");
  name ← ST_lift (optional_string p "name");
  protocol_text ← ST_lift (optional_string p "protocol");
  proxy_protocol ← ST_lift (optional_bool p "proxy_protocol");
  protocol ← ST_lift (enum_from_string (E := TunnelProtocol.t) (default (bs "tcp") protocol_text));
  _ ← ST_lift (validate_proxy_protocol_mode protocol proxy_protocol);
  if negb (bool_decide (protocol = TunnelProtocol.socks5)) && bool_decide (local_port = None) then
    fail_with invalid_argument "local_port is required for tcp, udp, and p2p tunnels"
  else
  scoped (
    r ← resolve_server server_identifier;
    let bind_host :=
      default (if bool_decide (protocol = TunnelProtocol.socks5) then bs "127.0.0.1"
               else bs "0.0.0.0") remote_host in
    local_endpoint ← ST_lift (Endpoint_parse
      (endpoint_text (default (bs "127.0.0.1") local_host) (default 1 local_port)));
    remote_endpoint ← ST_lift (Endpoint_parse (endpoint_text bind_host remote_port));
    _ ← ST_lift (validate_protocol_binding protocol remote_endpoint);
    id ← generate_id tunnel;
    now ← unix_milliseconds_now;
    let unconfigured :=
      negb (bool_decide (sr_actual_state r = ServerActualState.online))
      && bool_decide (sr_credential_ref r = None) && bool_decide (sr_last_error_code r = None) in
    let t := {|
      tr_id := id; tr_name := name; tr_server_id := sr_id r; tr_protocol := protocol;
      tr_local_endpoint := local_endpoint; tr_remote_endpoint := remote_endpoint;
      tr_desired_state := TunnelDesiredState.active;
      tr_actual_state := TunnelActualState.pending;
      tr_last_error_code := if unconfigured then Some not_authenticated else sr_last_error_code r;
      tr_last_error_message :=
        if unconfigured then Some (bs "server credentials are not configured")
        else sr_last_error_message r;
      tr_created_at := now; tr_updated_at := now; tr_last_synced_at := None;
      tr_config_revision := 1; tr_managed_by_config := false;
      tr_proxy_protocol := proxy_protocol |} in
    _ ← on_db (TunnelRepository.create_in (max_tunnels limits) t);
    _ ← on_db commit;
    _ ← notify_state_changed;
    mret (json_object [("tunnel", tunnel_json t (Some (server_context r)))]%string)).

(** The answer of the handlers that change one tunnel. *)
Definition tunnel_changed_json (t : TunnelRecord) (r : ServerRecord) (changed : bool) : Json :=
  json_object [("tunnel", tunnel_json t (Some (server_context r))); ("changed", JBool changed)]%string.

(** [tunnel_update]. *)
Definition tunnel_update p : Action Control Json :=
  _ ← ST_lift (validate_params p ["identifier"]
        ["name"; "local_host"; "local_port"; "remote_host"; "remote_port"; "protocol";
         "proxy_protocol"])%string;
  if params_size p =? 1 then
    fail_with invalid_argument "tunnel update requires at least one field"
  else
  identifier ← ST_lift (required_string p "identifier");
  name ← ST_lift (optional_nullable_string p "name");
  local_host ← ST_lift (optional_string p "local_host");
  local_port ← ST_lift (optional_port p "local_port");
  remote_host ← ST_lift (optional_string p "remote_host");
  remote_port ← ST_lift (optional_port p "remote_port");
  protocol_text ← ST_lift (optional_string p "protocol");
  proxy_protocol ← ST_lift (optional_bool p "proxy_protocol");
  scoped (
    t ← resolve_tunnel identifier;
    r ← on_db (ServerRepository.get_by_id (tr_server_id t));
    let next_local_host := default (host (tr_local_endpoint t)) local_host in
    let next_local_port := default (port (tr_local_endpoint t)) local_port in
    let next_remote_port := default (port (tr_remote_endpoint t)) remote_port in
    let next_remote_host := default (host (tr_remote_endpoint t)) remote_host in
    next_protocol ← ST_lift (match protocol_text with
                             | Some text => enum_from_string (E := TunnelProtocol.t) text
                             | None => Ok (tr_protocol t)
                             end);
    if negb (bool_decide (next_protocol = TunnelProtocol.socks5))
       && bool_decide (tr_protocol t = TunnelProtocol.socks5) && bool_decide (local_port = None) then
      fail_with invalid_argument
        "local_port is required when changing a SOCKS5 tunnel to tcp, udp, or p2p"
    else
    let next_proxy_protocol :=
      if contains p "proxy_protocol" then proxy_protocol else tr_proxy_protocol t in
    _ ← ST_lift (validate_proxy_protocol_mode next_protocol next_proxy_protocol);
    next_local ← ST_lift (Endpoint_parse (endpoint_text next_local_host next_local_port));
    next_remote ← ST_lift (Endpoint_parse (endpoint_text next_remote_host next_remote_port));
    _ ← ST_lift (validate_protocol_binding next_protocol next_remote);
    let t' := set_tunnel_config (default (tr_name t) name) next_local next_remote next_protocol
                next_proxy_protocol t in
    let changed := negb (bool_decide (t' = t)) in
    t ← (
      if negb changed then mret t
      else
        revision ← ST_lift (next_revision (tr_config_revision t));
        updated_at ← update_time (tr_updated_at t);
        let t := set_tunnel_states (tr_desired_state t')
          (if bool_decide (tr_desired_state t' = TunnelDesiredState.active)
           then TunnelActualState.pending else TunnelActualState.disabled) revision updated_at t' in
        _ ← on_db (TunnelRepository.update_in t);
        mret t);
    _ ← on_db commit;
    _ ← notify_if changed;
    mret (tunnel_changed_json t r changed)).

(** [tunnel_enable] and [tunnel_disable]. *)
Definition switch_tunnel (desired : TunnelDesiredState.t) (actual : TunnelActualState.t) p :
  Action Control Json :=
  identifier ← ST_lift (identifier_param p);
  scoped (
    t ← resolve_tunnel identifier;
    r ← on_db (ServerRepository.get_by_id (tr_server_id t));
    let changed := negb (bool_decide (tr_desired_state t = desired)) in
    t ← (
      if negb changed then mret t
      else
        revision ← ST_lift (next_revision (tr_config_revision t));
        updated_at ← update_time (tr_updated_at t);
        let t := set_tunnel_states desired actual revision updated_at t in
        _ ← on_db (TunnelRepository.update_in t);
        mret t);
    _ ← on_db commit;
    _ ← notify_if changed;
    mret (tunnel_changed_json t r changed)).

Definition tunnel_enable : Json -> Action Control Json :=
  switch_tunnel TunnelDesiredState.active TunnelActualState.pending.
Definition tunnel_disable : Json -> Action Control Json :=
  switch_tunnel TunnelDesiredState.disabled TunnelActualState.disabled.

(** [tunnel_list]; the context of a tunnel is found by the id of its server. *)
Definition tunnel_list p : Action Control Json :=
  _ ← ST_lift (validate_params p [] ["server"])%string;
  server_identifier ← ST_lift (optional_string p "server");
  scoped (
    listed ← attempt (on_db (TunnelRepository.list_ (max_tunnels limits)));
    '(listed, selected) ← (
      match server_identifier with
      | None => mret (listed, None)
      | Some identifier =>
          r ← resolve_server identifier;
          listed ← attempt (list_by_server (sr_id r));
          mret (listed, Some r)
      end);
    tunnels ← ST_lift listed;
    contexts ← (
      match selected with
      | Some r => mret [r]
      | None =>
          servers ← on_db (ServerRepository.list_ (max_servers limits));
          mret (List.filter (fun r => negb (server_removed r)) servers)
      end);
    _ ← on_db commit;
    mret (json_object [("tunnels", JArray
      (map (fun t => tunnel_json t
              (server_context <$>
                 List.find (fun r => bool_decide (str (sr_id r) = str (tr_server_id t))) contexts))
         (List.filter (fun t => negb (tunnel_removed t)) tunnels)))]%string)).

(** [tunnel_inspect]. *)
Definition tunnel_inspect p : Action Control Json :=
  identifier ← ST_lift (identifier_param p);
  scoped (
    t ← resolve_tunnel identifier;
    r ← on_db (ServerRepository.get_by_id (tr_server_id t));
    _ ← on_db commit;
    mret (json_object [("tunnel", tunnel_json t (Some (server_context r)))]%string)).

(** [tunnel_remove]. *)
Definition tunnel_remove p : Action Control Json :=
  identifier ← ST_lift (identifier_param p);
  scoped (
    t ← resolve_tunnel identifier;
    removed_at ← update_time (tr_updated_at t);
    _ ← on_db (TunnelRepository.mark_removed_in (tr_id t) removed_at);
    _ ← on_db (TunnelRepository.erase_in (tr_id t));
    _ ← on_db commit;
    _ ← attempt (on_db checkpoint);
    _ ← notify_state_changed;
    mret (removed_json (tr_id t) (tr_name t))).

(** ** The daemon itself *)

(** [daemon_status]. *)
Definition daemon_status p : Action Control Json :=
  _ ← ST_lift (validate_params p [] []);
  mret (json_object [("state", JString (bs "running"));
                     ("ipc_version", JUnsigned kProtocolVersion)]%string).

(** [daemon_identity]. *)
Definition daemon_identity p : Action Control Json :=
  _ ← ST_lift (validate_params p [] []);
  random ← random_bytes;
  identity ← on_db (StateRepository.client_id random);
  mret (json_object [("client_id", JString (str identity))]%string).

(** [server_states] and [tunnel_states] of [status]: the states of the table, counted. *)
Definition state_counts {E : Set} `{EnumTable E} (states : list E) : list (bytes * Json) :=
  sort_fields (map (fun '(e, text) =>
    (text, JUnsigned (Zlen (List.filter (fun e' => bool_decide (e' = e)) states)))) entries).

(** [runtime[key] = value]. *)
Fixpoint set_field (key : bytes) (value : Json) (fields : list (bytes * Json)) :
  list (bytes * Json) :=
  match fields with
  | [] => [(key, value)]
  | (k, v) :: rest =>
      if decide (k = key) then (k, value) :: rest
      else if bytes_ltb key k then (key, value) :: fields
      else (k, v) :: set_field key value rest
  end.

Definition runtime_json : Json :=
  let zero := JUnsigned 0 in
  let runtime := sort_fields [
    (bs "sessions", json_object [("active", zero)]%string);
    (bs "workers", json_object [("idle", zero); ("active", zero)]%string);
    (bs "connections", json_object [("active", zero); ("pending", zero)]%string);
    (bs "reconnects", zero); (bs "quota_rejections", zero); (bs "errors", zero);
    (bs "throughput", json_object [("bytes_in", zero); ("bytes_out", zero)]%string)] in
  JObject (match runtime_metrics with
           | None => runtime
           | Some None => set_field (bs "provider_error") (JBool true) runtime
           | Some (Some (JObject supplied)) =>
               fold_left (fun fields '(k, v) => set_field k v fields) supplied runtime
           | Some (Some _) => runtime
           end).

(** [status]. *)
Definition status p : Action Control Json :=
  _ ← ST_lift (validate_params p [] []);
  scoped (
    '(servers, tunnels) ← list_all;
    _ ← on_db commit;
    let servers := sr_actual_state <$> List.filter (fun r => negb (server_removed r)) servers in
    let tunnels := tr_actual_state <$> List.filter (fun t => negb (tunnel_removed t)) tunnels in
    let online := List.filter (fun s => bool_decide (s = ServerActualState.online)) servers in
    let active := List.filter (fun s => bool_decide (s = TunnelActualState.active)) tunnels in
    mret (json_object [
      ("daemon", json_object [("state", JString (bs "running"));
                              ("ipc_version", JUnsigned kProtocolVersion)]);
      ("servers", json_object [("total", JUnsigned (Zlen servers));
                               ("online", JUnsigned (Zlen online));
                               ("states", JObject (state_counts servers))]);
      ("tunnels", json_object [("total", JUnsigned (Zlen tunnels));
                               ("active", JUnsigned (Zlen active));
                               ("states", JObject (state_counts tunnels))]);
      ("runtime", runtime_json)]%string)).

(** [metrics]. *)
Definition metrics p : Action Control Json :=
  _ ← ST_lift (validate_params p [] []);
  match runtime_metrics with
  | None => mret (JObject [])
  | Some None => fail_with internal_error "metrics provider failed"
  | Some (Some supplied) => mret (if is_object supplied then supplied else JObject [])
  end.

(** [reload]. *)
Definition reload p : Action Control Json :=
  _ ← ST_lift (validate_params p [] []);
  match reload_handler with
  | None => fail_with unsupported_version "reload is not supported by this daemon"
  | Some reloaded => _ ← ST_lift reloaded; mret (json_object [("reloaded", JBool true)]%string)
  end.
End Handlers.
