(* ===== verification/ControlRun.v ===== *)
(** * Running a handler of the control service

    The state a handler works on while it holds a transaction, what becomes of the
    database when it returns early or commits, and the rules by which the handlers of
    Control.v are verified for every failure of a statement, of the credential store and
    of the clock. *)
From stdpp Require Import sorting.
From S2P Require Import Prelude Common Ids Text Endpoint Utf8 Models Rows Database Repository StorageSpec StorageRun Storage Json IpcProtocol Credentials Control.

(** ** The database of a handler *)

(** In the transaction: [st0] is what the database contains, [st] what the handler sees. *)
Definition working (st0 st : State) (db : Database) : Prop :=
  tables db = encode st /\ saved db = Some (encode st0) /\ transaction_ db = Some None /\
  poisoned_ db = false.

(** After a failure: nothing but a rollback can happen to the transaction. *)
Definition doomed (st0 : State) (db : Database) : Prop :=
  committed db = encode st0 /\ poisoned_ db = false /\
  (transaction_ db = None /\ saved db = None \/ transaction_ db <> None /\
     (saved db = Some (encode st0) \/ saved db = None /\ tables db = encode st0)).

(** Between the requests: idle, or unusable after a failed rollback. *)
Definition at_rest (st : State) (db : Database) : Prop :=
  committed db = encode st /\ transaction_ db = None /\ (poisoned_ db = true \/ saved db = None).

Lemma at_rest_usable st db :
  at_rest st db -> poisoned_ db = false -> tables db = encode st /\ idle db.
Proof.
  intros (Hc & Hx & [Hp|Hs]) Hp'; [congruence|]. unfold committed in Hc. rewrite Hs in Hc. by split.
Qed.

Lemma idle_at_rest st db : tables db = encode st -> idle db -> at_rest st db.
Proof. intros Ht [Hs Hx]. unfold at_rest, committed. rewrite Hs. auto. Qed.

Lemma doomed_committed st0 db :
  saved db = Some (encode st0) \/ saved db = None /\ tables db = encode st0 ->
  committed db = encode st0.
Proof. unfold committed. by intros [->|[-> ?]]. Qed.

Section DatabaseSteps.
Context `{AsioAddressLaws} `{SqliteMessages}.

(** One operation of a repository in the transaction: its specified effect, or an error
    that dooms the transaction; without faults the error is the specified one. *)
Lemma working_step {A} (m : Action Database A) (spec : Result (A * State)) st0 st db :
  steady m -> outcome_of m (encode st) = encode_result spec -> working st0 st db ->
  match m db with
  | (Ok a, db') => exists st', spec = Ok (a, st') /\ working st0 st' db'
  | (Err e, db') => doomed st0 db' /\ (fault_free db -> spec = Err e)
  end /\ (fault_free db -> fault_free (m db).2).
Proof.
  intros Hm Ho (Ht & Hs & Hx & Hp). specialize (Hm db (calm (encode st))).
  unfold outcome_of in Ho. destruct (m db) as [[a|e] db'].
  - destruct Hm as [(Hk & c' & Ec & Hsim) Hff].
    { unfold sim, calm. simpl. split_and!; try done. by rewrite Hs. }
    split; [|done]. rewrite Ec in Ho. destruct spec as [[b st']|]; [|done]. simplify_eq/=.
    exists st'. split; [done|]. destruct Hk as (K1 & K2 & K3), Hsim as (K4 & _).
    split_and!; congruence.
  - destruct Hm as [[(Hu1 & Hu2 & Hu3) Hc] Hff].
    { unfold sim, calm. simpl. split_and!; try done. by rewrite Hs. }
    split; [|done]. rewrite Hs in Hu1.
    assert (saved db' = Some (encode st0) \/ saved db' = None /\ tables db' = encode st0) as Hd.
    { destruct Hu1 as [|[? [= ]]]; auto. }
    split; [split_and!|]; [by apply doomed_committed|congruence| |].
    + right. split; [|done]. destruct Hu3 as [->|[_ ->]]; congruence.
    + intros Hf. destruct (Hc Hf) as [E _]. destruct (m (calm (encode st))) as [[?|e'] ?]; [done|].
      simpl in E. simplify_eq. destruct spec as [[??]|]; simpl in Ho; congruence.
Qed.

(** The same for a query. *)
Lemma working_query {A} (m : Action Database A) (answer : Result A) st0 st db :
  steady m -> (m (calm (encode st))) = (answer, calm (encode st)) -> working st0 st db ->
  match m db with
  | (Ok a, db') => answer = Ok a /\ working st0 st db'
  | (Err e, db') => doomed st0 db' /\ (fault_free db -> answer = Err e)
  end /\ (fault_free db -> fault_free (m db).2).
Proof.
  intros Hm Ha Hw.
  pose proof (working_step m ((fun a => (a, st)) <$> answer) st0 st db Hm) as Hstep.
  destruct Hstep as [Hstep Hff]; [|done|].
  - unfold outcome_of. rewrite Ha. by destruct answer.
  - split; [|done]. destruct (m db) as [[a|e] db'].
    + destruct Hstep as (st' & E & Hw'). by destruct answer; simplify_eq/=.
    + destruct Hstep as [Hd He]. split; [done|]. intros Hf. specialize (He Hf).
      by destruct answer; simplify_eq/=.
Qed.

Lemma working_commit st0 st db :
  working st0 st db ->
  match commit db with
  | (Ok _, db') => at_rest st db' /\ idle db' /\ poisoned_ db' = false
  | (Err _, db') => doomed st0 db' /\ ~ fault_free db
  end /\ (fault_free db -> fault_free (commit db).2).
Proof.
  intros (Ht & Hs & Hx & Hp). destruct (commit_spec db (encode st0) Hs Hx Hp) as [Hc Hff].
  split; [|done]. destruct (commit db) as [[[]|e] db'].
  - destruct Hc as (Hc & Hi & Hp'). split; [|done]. destruct Hi as [Hs' Hx'].
    split_and!; [congruence|done|by right].
  - destruct Hc as (Hc & Hp' & Hd & Hf). done.
Qed.

Lemma doomed_rolled_back st0 db : doomed st0 db -> at_rest st0 (rollback_noexcept db).
Proof.
  intros (Hc & Hp & [[Hx Hs]|[Hx Hs]]).
  - unfold rollback_noexcept. rewrite Hx. split_and!; auto.
  - destruct (rollback_noexcept_spec db (encode st0) Hs Hx Hp) as (?&?&?&_). done.
Qed.

Lemma at_rest_rolled_back st db : at_rest st db -> rollback_noexcept db = db.
Proof. intros (_ & Hx & _). unfold rollback_noexcept. by rewrite Hx. Qed.

(** [begin_transaction] opens a transaction on the contents, or changes nothing. *)
Lemma begin_working st db :
  at_rest st db ->
  match begin_transaction db with
  | (Ok _, db') => working st st db' /\ poisoned_ db = false
  | (Err _, db') => at_rest st db' /\ (poisoned_ db = false -> ~ fault_free db)
  end /\ (fault_free db -> fault_free (begin_transaction db).2).
Proof.
  intros Hr. unfold begin_transaction. destruct (poisoned_ db) eqn:Hp; [done|].
  destruct (at_rest_usable st db Hr Hp) as [Ht [Hs Hx]]. rewrite Hx, bool_decide_false by (by intros [? [=]]).
  unfold execute_begin.
  destruct (pop_fault_spec db) as (f & db1 & -> & Ht1 & (Hs1 & Hx1 & Hp1) & Hff & _).
  destruct f as [f|]; simpl.
  - split; [|intros [? _]%Hff; done]. split; [|intros _ [? _]%Hff; done].
    unfold at_rest, after_fault, committed. destruct (fault_rolls_back f); simpl;
      rewrite ?Hs1, ?Hs, ?Ht1; simpl; rewrite ?Hx1; split_and!; auto; congruence.
  - split; [|intros [_ ?]%Hff; done]. unfold working, committed. simpl.
    rewrite Hs1, Hs. simpl. rewrite Ht1. split_and!; congruence.
Qed.
End DatabaseSteps.

(** ** Rules for the code of the handlers *)

Section Runs.
Context {T : Type}.
Implicit Types (c : T).

(** [m] run on [c] ends in [Q] when it returns a value and in [R] when it fails. *)
Definition runs {A} (m : Action T A) c (Q : A -> T -> Prop)
    (R : Error -> T -> Prop) : Prop :=
  match m c with (Ok a, c') => Q a c' | (Err e, c') => R e c' end.

Lemma runs_bind {A B} (m : Action T A) (k : A -> Action T B) c Q R :
  runs m c (fun a c' => runs (k a) c' Q R) R -> runs (m ≫= k) c Q R.
Proof. unfold runs, mbind, ST_bind. by destruct (m c) as [[a|e] c']. Qed.

Lemma runs_ret {A} (a : A) c (Q : A -> T -> Prop) R : Q a c -> runs (mret a) c Q R.
Proof. done. Qed.

Lemma runs_lift {A} (r : Result A) c (Q : A -> T -> Prop) (R : Error -> T -> Prop) :
  (forall a, r = Ok a -> Q a c) -> (forall e, r = Err e -> R e c) -> runs (ST_lift r) c Q R.
Proof. intros HQ HR. unfold runs, ST_lift. destruct r; auto. Qed.

Lemma runs_fail {A} ec m c (Q : A -> T -> Prop) (R : Error -> T -> Prop) :
  R (mkError ec (bs m)) c -> runs (fail_with ec m) c Q R.
Proof. done. Qed.

Lemma runs_attempt {A} (m : Action T A) c (Q : Result A -> T -> Prop) R :
  runs m c (fun a => Q (Ok a)) (fun e => Q (Err e)) -> runs (attempt m) c Q R.
Proof. unfold runs, attempt. by destruct (m c) as [[a|e] c']. Qed.

Lemma runs_mono {A} (m : Action T A) c (Q Q' : A -> T -> Prop)
    (R R' : Error -> T -> Prop) :
  runs m c Q R -> (forall a c', Q a c' -> Q' a c') -> (forall e c', R e c' -> R' e c') ->
  runs m c Q' R'.
Proof. unfold runs. destruct (m c) as [[a|e] c']; auto. Qed.
End Runs.

Lemma runs_on_store {S A} (m : Action S A) (c : Control S) (Q : A -> Control S -> Prop) R :
  (forall a s, m (credentials c) = (Ok a, s) -> Q a (set_credentials s c)) ->
  (forall e s, m (credentials c) = (Err e, s) -> R e (set_credentials s c)) ->
  runs (on_store m) c Q R.
Proof. intros HQ HR. unfold runs, on_store. destruct (m (credentials c)) as [[a|e] s]; auto. Qed.

(** ** References to credentials *)

Definition kept_server (st : State) (r : ServerRecord) : Prop :=
  st_servers st !! str (sr_id r) = Some r /\ sr_desired_state r <> ServerDesiredState.removed.

(** A server that is not removed refers to [key]. *)
Definition referenced (st : State) (key : bytes) : Prop :=
  exists r k, kept_server st r /\ credential_reference r k = Some key.

(** Every reference of a server is a slot of its own; unless the server is removed the slot
    is in the store, now and after the store is reopened. *)
Definition references_ok {S} `{CredentialContents S} (st : State) (s : S) : Prop :=
  forall r k key, st_servers st !! str (sr_id r) = Some r -> credential_reference r k = Some key ->
    slot_of (sr_id r) k key /\ (sr_desired_state r <> ServerDesiredState.removed -> held key s).

Section References.
Context `{AsioAddress} {S : Type} `{CredentialStoreLaws S}.
Implicit Types (s : S).

Lemma valid_server_id st id r :
  valid_state st -> st_servers st !! id = Some r ->
  canonical server (str (sr_id r)) /\ kind (sr_id r) = server /\ str (sr_id r) = id.
Proof.
  intros Hst Hm. destruct (valid_servers st Hst _ _ Hm) as [[(Hid & _) Hv] Hs].
  unfold validate_server_record in Hv. case_bool_decide as Hk; [|done].
  split_and!; [|done|done]. unfold Id_wf in Hid. by rewrite Hk in Hid.
Qed.

Lemma kept_server_id st r :
  valid_state st -> kept_server st r -> canonical server (str (sr_id r)) /\ kind (sr_id r) = server.
Proof. intros Hst [Hm _]. by destruct (valid_server_id st _ r Hst Hm) as (?&?&_). Qed.

Lemma references_kept st s r k key :
  references_ok st s -> kept_server st r -> credential_reference r k = Some key ->
  slot_of (sr_id r) k key /\ held key s.
Proof. intros Hok [Hm Hd] Href. destruct (Hok r k key Hm Href) as [? Hh]. auto. Qed.

(** Two kept servers that share a slot are one. *)
Lemma kept_slot_unique st s r1 r2 k1 k2 key :
  valid_state st -> references_ok st s -> kept_server st r1 -> kept_server st r2 ->
  slot_of (sr_id r1) k1 key -> credential_reference r2 k2 = Some key -> r1 = r2 /\ k1 = k2.
Proof.
  intros Hst Hok Hr1 Hr2 Hs1 Href. destruct (references_kept st s r2 k2 key Hok Hr2 Href) as [Hs2 _].
  destruct (slot_of_inj (sr_id r1) (sr_id r2) k1 k2 key) as [Hid Hk]; [by eapply kept_server_id..|done|done|].
  split; [|done]. destruct Hr1 as [M1 _], Hr2 as [M2 _]. rewrite Hid in M1. congruence.
Qed.

Lemma references_undisturbed st s s' :
  references_ok st s -> (forall key, referenced st key -> undisturbed key s s') ->
  references_ok st s'.
Proof.
  intros Hok Hun r k key Hm Href. destruct (Hok r k key Hm Href) as [Hs Hh]. split; [done|]. intros Hd.
  eapply undisturbed_held; [|by apply Hh]. apply Hun. by exists r, k.
Qed.

(** The slot a new secret is written to is not in use. *)
Lemma next_key_unreferenced st s r k :
  valid_state st -> references_ok st s -> kept_server st r ->
  ~ referenced st (next_server_credential_key r k).
Proof.
  intros Hst Hok Hr (r' & k' & Hr' & Href).
  destruct (kept_slot_unique st s r r' k k' _ Hst Hok Hr Hr' (next_key_slot r k) Href) as [-> ->].
  by apply next_key_fresh in Href.
Qed.

(** A clean-up of a kind spares what is referenced: what the server itself refers to
    is retained. *)
Lemma cleanup_spares st s id k old retained key :
  valid_state st -> references_ok st s -> canonical server (str id) ->
  (forall key', old = Some key' -> slot_of id k key') ->
  (forall r, kept_server st r -> str (sr_id r) = str id -> credential_reference r k = retained) ->
  referenced st key ->
  leaves key (cleanup_server_credential_kind (S := S) id k old retained).
Proof.
  intros Hst Hok Hid Hold Hret (r & k' & Hr & Href). apply leaves_cleanup.
  destruct (decide (key ∈ cleanup_candidates id k old)) as [Hin|]; [left|by right].
  assert (slot_of id k key) as Hslot.
  { apply cleanup_candidates_slot in Hin as [Ho|]; [by apply Hold|done]. }
  destruct (references_kept st s r k' key Hok Hr Href) as [Hs' _].
  destruct (slot_of_inj id (sr_id r) k k' key) as [He <-]; [done|by eapply kept_server_id|done..|].
  by rewrite <- (Hret r Hr (eq_sym He)).
Qed.

(** The references after an update of one server. *)
Lemma references_put st s r :
  references_ok st s ->
  (forall k key, credential_reference r k = Some key ->
     slot_of (sr_id r) k key /\ (sr_desired_state r <> ServerDesiredState.removed -> held key s)) ->
  references_ok (put_server r st) s.
Proof.
  intros Hok Hr r' k key Hm Href. simpl in Hm.
  apply lookup_insert_Some in Hm as [[_ <-]|[_ Hm]]; [by apply Hr|]. by apply (Hok r' k key).
Qed.

(** A record with the references of a kept one. *)
Lemma references_same st s r r' :
  references_ok st s -> kept_server st r -> sr_id r' = sr_id r ->
  (forall k, credential_reference r' k = credential_reference r k) ->
  references_ok (put_server r' st) s.
Proof.
  intros Hok Hr Hid Hrefs. apply references_put; [done|]. intros k key. rewrite Hrefs, Hid. intros Href.
  destruct (references_kept st s r k key Hok Hr Href). auto.
Qed.

(** The servers decide the references: a server of [st'] has the references of one of [st],
    that was not removed unless it is removed itself. *)
Lemma references_servers st st' s :
  (forall r, st_servers st' !! str (sr_id r) = Some r -> exists r0,
     st_servers st !! str (sr_id r0) = Some r0 /\ sr_id r0 = sr_id r /\
     (forall k, credential_reference r k = credential_reference r0 k) /\
     (sr_desired_state r <> ServerDesiredState.removed ->
      sr_desired_state r0 <> ServerDesiredState.removed)) ->
  references_ok st s -> references_ok st' s.
Proof.
  intros Hsub Hok r k key Hm. destruct (Hsub r Hm) as (r0 & Hm0 & Hid & Hrefs & Hd). rewrite Hrefs. intros Href.
  destruct (Hok r0 k key Hm0 Href) as [Hs Hh]. rewrite <- Hid. auto.
Qed.
End References.

(** ** A handler in its transaction *)

(** [RAND_bytes] fills the 16 bytes it was asked for. *)
Definition entropy_wf {S} (c : Control S) : Prop :=
  forall n l, entropy_ c n = Some l -> length l = 16%nat.

Section Work.
Context `{AsioAddressLaws} `{SqliteMessages} {S : Type} `{CredentialStoreLaws S}.

(** A run that starts with the contents [st0] and [n] notifications.  When [calm0] holds
    nothing outside the program fails during the run; [why] are the errors that are then
    possible. *)
Variables (st0 : State) (n : nat) (calm0 : Prop) (why : Error -> Prop).
Implicit Types (c : Control S).

Definition sane c : Prop :=
  entropy_wf c /\ (calm0 -> fault_free (state_db c) /\ reliable (credentials c)).

(** Before the transaction, and after it. *)
Definition ready (st : State) (k : nat) c : Prop :=
  at_rest st (state_db c) /\ valid_state st /\ references_ok st (credentials c) /\
  notified c = k /\ sane c /\ (calm0 -> poisoned_ (state_db c) = false).

(** In the transaction. *)
Definition at_work (st : State) c : Prop :=
  working st0 st (state_db c) /\ valid_state st /\ valid_state st0 /\
  references_ok st0 (credentials c) /\ notified c = n /\ sane c.

(** After a failure in the transaction. *)
Definition failed (e : Error) c : Prop :=
  doomed st0 (state_db c) /\ references_ok st0 (credentials c) /\ notified c = n /\
  entropy_wf c /\ (calm0 -> why e).

(** After a failure, when the handler has returned. *)
Definition refused (e : Error) c : Prop :=
  at_rest st0 (state_db c) /\ references_ok st0 (credentials c) /\ notified c = n /\
  entropy_wf c /\ (calm0 -> why e).

Lemma work_failed st c e : at_work st c -> (calm0 -> why e) -> failed e c.
Proof.
  intros ((Ht & Hs & Hx & Hp) & _ & _ & Hok & Hn & [He _]) Hw. split; [|done].
  split_and!; [by apply doomed_committed; left|done|]. right. split; [congruence|by left].
Qed.

(** An operation of a repository. *)
Lemma work_db {A} (m : Action Database A) (spec : Result (A * State)) st c
    (Q : A -> Control S -> Prop) :
  at_work st c -> steady m -> outcome_of m (encode st) = encode_result spec ->
  (forall a st', spec = Ok (a, st') -> valid_state st') ->
  (forall e, spec = Err e -> why e) ->
  (forall a st' c', spec = Ok (a, st') -> at_work st' c' -> credentials c' = credentials c -> Q a c') ->
  runs (on_db m) c Q failed.
Proof.
  intros (Hw & Hst & Hst0 & Hok & Hn & [Hen Hc]) Hm Ho Hv Hwhy HQ. unfold runs, on_db.
  destruct (working_step m spec st0 st _ Hm Ho Hw) as [Hstep Hff].
  destruct (m (state_db c)) as [[a|e] db'].
  - destruct Hstep as (st' & Hspec & Hw'). apply (HQ a st'); [done| |done].
    split_and!; try done; [by eapply Hv|]. split; [done|]. intros Hc0. destruct (Hc Hc0). split; auto.
  - destruct Hstep as [Hd He]. split_and!; try done. intros Hc0. apply Hwhy, He. by apply Hc.
Qed.

(** A query. *)
Lemma work_query {A} (m : Action Database A) (answer : Result A) st c
    (Q : A -> Control S -> Prop) :
  at_work st c -> steady m -> m (calm (encode st)) = (answer, calm (encode st)) ->
  (forall e, answer = Err e -> why e) ->
  (forall a c', answer = Ok a -> at_work st c' -> credentials c' = credentials c -> Q a c') ->
  runs (on_db m) c Q failed.
Proof.
  intros Hw Hm Ha Hwhy HQ. apply (work_db m ((fun a => (a, st)) <$> answer) st); try done.
  - unfold outcome_of. rewrite Ha. by destruct answer.
  - intros a st' E. destruct answer; [|done]. injection E as _ <-. apply Hw.
  - intros e E. apply Hwhy. destruct answer; simpl in E; congruence.
  - intros a st' c' E. destruct answer; [|done]. injection E as <- <-. by apply HQ.
Qed.

(** Parts of a handler that do not touch the two stores. *)
Lemma work_lift {A} (r : Result A) st c (Q : A -> Control S -> Prop) :
  at_work st c -> (forall e, r = Err e -> why e) -> (forall a, r = Ok a -> Q a c) ->
  runs (ST_lift r) c Q failed.
Proof. intros Hw Hwhy HQ. apply runs_lift; [done|]. intros e He. eapply work_failed; eauto. Qed.

Lemma work_fail {A} ec m st c (Q : A -> Control S -> Prop) :
  at_work st c -> why (mkError ec (bs m)) -> runs (fail_with ec m) c Q failed.
Proof. intros Hw Hwhy. eapply work_failed; eauto. Qed.

Lemma work_time previous st c (Q : Z -> Control S -> Prop) :
  at_work st c ->
  (forall t c', previous <= t -> at_work st c' -> credentials c' = credentials c -> Q t c') ->
  runs (update_time previous) c Q failed.
Proof.
  intros Hw HQ. unfold runs, update_time, unix_milliseconds_now, mbind, ST_bind. simpl.
  apply HQ; [lia|exact Hw|done].
Qed.

Lemma work_now st c (Q : Z -> Control S -> Prop) :
  at_work st c -> (forall t c', at_work st c' -> credentials c' = credentials c -> Q t c') ->
  runs unix_milliseconds_now c Q failed.
Proof. intros Hw HQ. unfold runs, unix_milliseconds_now. by apply HQ. Qed.

Lemma generate_id_wf k random i :
  (forall l, random = Some l -> length l = 16%nat) -> Id_generate random k = Ok i ->
  kind i = k /\ Id_wf i.
Proof.
  intros Hr. unfold Id_generate. destruct (decide _); [done|]. destruct random as [l|]; [|done].
  intros [= <-]. split; [done|]. exists (concat (hex_of_byte <$> l)). specialize (Hr l eq_refl).
  split_and!; [done| |apply hex_of_bytes_lowercase]. rewrite Zlen_hex_of_bytes. unfold Zlen. lia.
Qed.

Lemma work_generate k st c (Q : Id -> Control S -> Prop) :
  at_work st c ->
  (forall e, why e) ->
  (forall i c', kind i = k -> Id_wf i -> at_work st c' -> credentials c' = credentials c -> Q i c') ->
  runs (generate_id k) c Q failed.
Proof.
  intros Hw Hwhy HQ. apply runs_bind. unfold runs at 1, random_bytes.
  set (c' := mkControl _ _ _ _ _). assert (at_work st c') as Hw'.
  { destruct Hw as (? & ? & ? & ? & ? & [Hen ?]). split_and!; try done. split; [|done].
    intros m l. apply (Hen (Datatypes.S m)). }
  eapply work_lift; [exact Hw'|by auto|]. intros i Hi.
  apply generate_id_wf in Hi as [Hk Hi]; [by apply HQ|]. apply Hw.
Qed.

(** [commit]. *)
Lemma work_commit st c (Q : unit -> Control S -> Prop) :
  at_work st c ->
  (forall c', at_rest st (state_db c') -> idle (state_db c') -> poisoned_ (state_db c') = false ->
     credentials c' = credentials c -> notified c' = n -> sane c' -> Q tt c') ->
  runs (on_db commit) c Q (fun e c' => failed e c' /\ ~ calm0 /\ credentials c' = credentials c).
Proof.
  intros (Hw & Hst & Hst0 & Hok & Hn & [Hen Hc]) HQ. unfold runs, on_db.
  destruct (working_commit st0 st _ Hw) as [Hstep Hff].
  destruct (commit (state_db c)) as [[[]|e] db'].
  - destruct Hstep as (Hr & Hi & Hp). apply HQ; try done. split; [done|]. intros Hc0.
    destruct (Hc Hc0). split; auto.
  - destruct Hstep as [Hd Hf]. assert (~ calm0) as Hnc by (intros [? _]%Hc; done).
    split_and!; try done.
Qed.

(** The scope of the transaction. *)
Lemma scoped_runs {A} (body : Action (Control S) A) c (Q : A -> Control S -> Prop) :
  ready st0 n c ->
  (forall c1, at_work st0 c1 -> credentials c1 = credentials c ->
     runs body c1 (fun a c' => (exists st', at_rest st' (state_db c')) /\ Q a c') failed) ->
  runs (scoped body) c Q refused.
Proof.
  intros (Hr & Hst & Hok & Hn & [Hen Hc] & Hpc) Hbody. unfold runs, scoped.
  destruct (begin_working st0 (state_db c) Hr) as [Hb Hff].
  destruct (begin_transaction (state_db c)) as [[[]|e] db].
  - destruct Hb as [Hw _]. specialize (Hbody (set_db db c)). unfold runs in Hbody.
    assert (at_work st0 (set_db db c)) as Hw'.
    { split_and!; try done. split; [done|]. intros Hc0. destruct (Hc Hc0). split; [by apply Hff|done]. }
    specialize (Hbody Hw' eq_refl). destruct (body (set_db db c)) as [[a|e] c'].
    + destruct Hbody as [(st' & Hr') HQ]. rewrite (at_rest_rolled_back st' _ Hr').
      by destruct c'.
    + destruct Hbody as (Hd & Hok' & Hn' & He' & Hw''). split_and!; try done.
      by apply doomed_rolled_back.
  - destruct Hb as [Hr' Hf]. split_and!; try done. intros Hc0. exfalso. apply Hf; [by auto|].
    by apply Hc.
Qed.
End Work.

(** ** The secrets a failed request leaves behind *)

(** Nothing has happened to a secret a configured server of [st] refers to. *)
Definition secrets_kept {S} `{CredentialContents S} (st : State) (s s' : S) : Prop :=
  forall key, referenced st key -> undisturbed key s s'.

Section Silent.
Context `{SqliteMessages} {S : Type} `{CredentialStoreLaws S}.
Implicit Types (c : Control S) (s : S) (st : State).

(** Code that writes no credential; code that writes none unless it succeeds; code that
    does not fail. *)
Definition silent {A} (m : Action (Control S) A) : Prop :=
  forall c key, undisturbed key (credentials c) (credentials (m c).2).
Definition fails_cleanly {A} (m : Action (Control S) A) : Prop :=
  forall c, runs m c (fun _ _ => True) (fun _ c' => forall key, undisturbed key (credentials c) (credentials c')).
Definition unfailing {A} (m : Action (Control S) A) : Prop :=
  forall c, runs m c (fun _ _ => True) (fun _ _ => False).

Lemma secrets_kept_refl st s : secrets_kept st s s.
Proof. intros key _. apply undisturbed_refl. Qed.

Lemma secrets_kept_trans st s1 s2 s3 :
  secrets_kept st s1 s2 -> secrets_kept st s2 s3 -> secrets_kept st s1 s3.
Proof. intros H12 H23 key Hk. eapply undisturbed_trans; [by apply H12|by apply H23]. Qed.

Lemma silent_lift {A} (r : Result A) : silent (ST_lift r).
Proof. intros c key. apply undisturbed_refl. Qed.

Lemma silent_ret {A} (a : A) : silent (mret a).
Proof. intros c key. apply undisturbed_refl. Qed.

Lemma silent_fail {A} (e : Error) : silent (ST_fail (A := A) e).
Proof. intros c key. apply undisturbed_refl. Qed.

Lemma silent_fail_with {A} ec m : silent (fail_with (A := A) ec m).
Proof. intros c key. apply undisturbed_refl. Qed.

Lemma silent_bind {A B} (m : Action (Control S) A) (k : A -> Action (Control S) B) :
  silent m -> (forall a, silent (k a)) -> silent (m ≫= k).
Proof.
  intros Hm Hk c key. unfold mbind, ST_bind. specialize (Hm c key). destruct (m c) as [[a|e] c']; [|done].
  eapply undisturbed_trans; [exact Hm|apply Hk].
Qed.

Lemma silent_attempt {A} (m : Action (Control S) A) : silent m -> silent (attempt m).
Proof. intros Hm c key. unfold attempt. specialize (Hm c key). by destruct (m c). Qed.

Lemma silent_db {A} (m : Action Database A) : silent (on_db m).
Proof. intros c key. unfold on_db. destruct (m (state_db c)). apply undisturbed_refl. Qed.

Lemma silent_now : silent unix_milliseconds_now.
Proof. intros c key. apply undisturbed_refl. Qed.

Lemma silent_random : silent random_bytes.
Proof. intros c key. apply undisturbed_refl. Qed.

Lemma silent_scoped {A} (body : Action (Control S) A) : silent body -> silent (scoped body).
Proof.
  intros Hb c key. unfold scoped. destruct (begin_transaction _) as [[[]|e] db]; [|apply undisturbed_refl].
  specialize (Hb (set_db db c) key). by destruct (body (set_db db c)).
Qed.

Lemma cleanly_of_silent {A} (m : Action (Control S) A) : silent m -> fails_cleanly m.
Proof. intros Hm c. unfold runs. specialize (Hm c). by destruct (m c) as [[a|e] c']. Qed.

Lemma cleanly_unfailing {A} (m : Action (Control S) A) : unfailing m -> fails_cleanly m.
Proof. intros Hm c. unfold runs. specialize (Hm c). unfold runs in Hm. by destruct (m c) as [[a|e] c']. Qed.

Lemma cleanly_bind {A B} (m : Action (Control S) A) (k : A -> Action (Control S) B) :
  silent m -> (forall a, fails_cleanly (k a)) -> fails_cleanly (m ≫= k).
Proof.
  intros Hm Hk c. apply runs_bind. unfold runs at 1. specialize (Hm c).
  destruct (m c) as [[a|e] c']; [|done]. eapply runs_mono; [apply Hk|done|].
  intros e c2 Hu key. eapply undisturbed_trans; [apply Hm|apply Hu].
Qed.

Lemma cleanly_scoped {A} (body : Action (Control S) A) : fails_cleanly body -> fails_cleanly (scoped body).
Proof.
  intros Hb c. unfold runs, scoped. destruct (begin_transaction _) as [[[]|e] db].
  - specialize (Hb (set_db db c)). unfold runs in Hb. by destruct (body (set_db db c)) as [[a|e] c'].
  - intros key. apply undisturbed_refl.
Qed.

Lemma unfailing_attempt {A} (m : Action (Control S) A) : unfailing (attempt m).
Proof. intros c. unfold runs, attempt. by destruct (m c). Qed.

Lemma unfailing_ret {A} (a : A) : unfailing (mret a).
Proof. done. Qed.

Lemma unfailing_notify : unfailing notify_state_changed.
Proof. done. Qed.

Lemma unfailing_bind {A B} (m : Action (Control S) A) (k : A -> Action (Control S) B) :
  unfailing m -> (forall a, unfailing (k a)) -> unfailing (m ≫= k).
Proof. intros Hm Hk c. apply runs_bind. eapply runs_mono; [apply Hm|intros; apply Hk|done]. Qed.

Lemma runs_silent {A} (m : Action (Control S) A) c Q R :
  silent m -> runs m c Q R ->
  runs m c Q (fun e c' => R e c' /\ forall key, undisturbed key (credentials c) (credentials c')).
Proof. intros Hm Hr. unfold runs in *. specialize (Hm c). by destruct (m c) as [[a|e] c']. Qed.

(** A silent step of code whose failures keep the secrets. *)
Lemma kept_step {A B} (m : Action (Control S) A) (k : A -> Action (Control S) B) st s0 c Q Q' R :
  silent m -> runs m c Q R -> secrets_kept st s0 (credentials c) ->
  (forall a c', Q a c' -> secrets_kept st s0 (credentials c') ->
     runs (k a) c' Q' (fun _ c' => secrets_kept st s0 (credentials c'))) ->
  runs (m ≫= k) c Q' (fun _ c' => secrets_kept st s0 (credentials c')).
Proof.
  intros Hm Hr Hs Hk. apply runs_bind. unfold runs in Hr |- *. specialize (Hm c).
  assert (secrets_kept st s0 (credentials (m c).2)) as Hs'.
  { eapply secrets_kept_trans; [exact Hs|]. intros key _. apply Hm. }
  destruct (m c) as [[a|e] c']; [|done]. by apply Hk.
Qed.

(** A silent step of which nothing else matters. *)
Lemma kept_silent {A B} (m : Action (Control S) A) (k : A -> Action (Control S) B) st s0 c Q' :
  silent m -> secrets_kept st s0 (credentials c) ->
  (forall a c', secrets_kept st s0 (credentials c') ->
     runs (k a) c' Q' (fun _ c' => secrets_kept st s0 (credentials c'))) ->
  runs (m ≫= k) c Q' (fun _ c' => secrets_kept st s0 (credentials c')).
Proof.
  intros Hm Hs Hk. eapply (kept_step m k _ _ _ (fun _ _ => True) _ (fun _ _ => True)); [done| |done|].
  - unfold runs. by destruct (m c) as [[a|e] c'].
  - intros a c' _. apply Hk.
Qed.

(** Work on the store that leaves the secrets alone. *)
Lemma kept_store {A B} (m : Action S A) (k : A -> Action (Control S) B) st s0 c Q' :
  (forall key, referenced st key -> leaves key m) -> secrets_kept st s0 (credentials c) ->
  (forall a c', secrets_kept st s0 (credentials c') ->
     runs (k a) c' Q' (fun _ c' => secrets_kept st s0 (credentials c'))) ->
  runs (on_store m ≫= k) c Q' (fun _ c' => secrets_kept st s0 (credentials c')).
Proof.
  intros Hm Hs Hk. apply runs_bind. unfold runs at 1, on_store.
  assert (secrets_kept st s0 (m (credentials c)).2) as Hs'.
  { eapply secrets_kept_trans; [exact Hs|]. intros key Hr. by apply Hm. }
  destruct (m (credentials c)) as [[a|e] s]; [by apply Hk|done].
Qed.

Lemma kept_unfailing {A} (m : Action (Control S) A) st s0 c :
  unfailing m -> runs m c (fun _ _ => True) (fun _ c' => secrets_kept st s0 (credentials c')).
Proof. intros Hm. eapply runs_mono; [apply Hm|done|done]. Qed.
End Silent.

Create HintDb silent.
#[export] Hint Resolve silent_lift silent_ret silent_fail silent_fail_with silent_bind silent_attempt silent_db
  silent_now silent_random silent_scoped : silent.
#[export] Hint Resolve unfailing_attempt unfailing_ret unfailing_notify unfailing_bind : silent.

(** ** Finding servers and tunnels *)

Section Find.
Context `{AsioAddressLaws} `{SqliteMessages}.

(** [get_by_name] of the servers. *)
Definition find_server_by_name (name : bytes) (st : State) : Result ServerRecord :=
  _ ← validate_text name 1 kMaxNameBytes "server name";
  match filter (fun '(_, r) => sr_name r = Some name) (map_to_list (st_servers st)) with
  | [] => server_not_found
  | (_, r) :: _ => Ok r
  end.

Lemma named_rows (name : bytes) (m : gmap bytes ServerRecord) :
  filter (fun '(_, row) => sc_name row = Some name) (map_to_list (bind_server <$> m)) =
  prod_map id bind_server <$>
    filter (fun '(_, r) => sr_name r = Some name) (map_to_list m).
Proof.
  rewrite map_to_list_fmap. induction (map_to_list m) as [|[i r] l IH]; [done|].
  rewrite fmap_cons, !filter_cons. simpl. rewrite IH. by repeat case_decide.
Qed.

Lemma named_server (name : bytes) st i r rest :
  valid_state st ->
  filter (fun '(_, r) => sr_name r = Some name) (map_to_list (st_servers st)) = (i, r) :: rest ->
  st_servers st !! i = Some r /\ sr_name r = Some name /\ rest = [].
Proof.
  intros Hst E.
  assert (forall j r', (j, r') ∈ (i, r) :: rest -> st_servers st !! j = Some r' /\
            sr_name r' = Some name) as Hin.
  { intros j r'. rewrite <- E. rewrite list_elem_of_filter, elem_of_map_to_list. tauto. }
  destruct (Hin i r) as [Hm Hn]; [by left|]. split_and!; [done..|].
  destruct rest as [|[j r'] rest]; [done|]. exfalso.
  destruct (Hin j r') as [Hm' Hn']; [by right; left|].
  assert (i = j) as -> by (eapply (valid_names st Hst); [done..|congruence|congruence]).
  assert (NoDup ((j, r) :: (j, r') :: rest)) as Hnd.
  { rewrite <- E. apply NoDup_filter, NoDup_map_to_list. }
  assert (r' = r) by congruence. subst r'.
  apply NoDup_cons in Hnd as [Hx _]. apply Hx. by left.
Qed.

Lemma get_server_by_name_quiet st (name : bytes) s :
  valid_state st ->
  ServerRepository.get_by_name name (quiet (encode st) s) =
  (find_server_by_name name st, quiet (encode st) s).
Proof.
  intros Hst. unfold ServerRepository.get_by_name, find_server_by_name, usable, mbind, ST_bind, ST_lift.
  destruct (validate_text name 1 kMaxNameBytes "server name") as [[]|]; [|done].
  cbn [poisoned_]. rewrite run_quiet. unfold select. cbn [servers encode]. rewrite named_rows.
  unfold outcome_bind. destruct (filter _ (map_to_list (st_servers st))) as [|[i r] rest] eqn:E; [done|].
  destruct (named_server name st i r rest Hst E) as (Hm & _ & ->). cbn.
  destruct (valid_servers st Hst _ _ Hm) as [Hr <-]. by rewrite read_server_bind.
Qed.

Lemma find_server_by_name_lookup (name : bytes) st r :
  valid_state st -> find_server_by_name name st = Ok r ->
  st_servers st !! str (sr_id r) = Some r /\ sr_name r = Some name.
Proof.
  intros Hst. unfold find_server_by_name, mbind, outcome_bind.
  destruct (validate_text _ _ _ _); [|done].
  destruct (filter _ _) as [|[i r'] rest] eqn:E; [done|]. intros [= ->].
  destruct (named_server name st i r rest Hst E) as (Hm & Hn & _).
  by destruct (valid_servers st Hst _ _ Hm) as [_ ->].
Qed.

(** [resolve_server]. *)
Definition resolve_server_spec (identifier : bytes) (st : State) : Result ServerRecord :=
  r ← match Id_parse_kind identifier server with
      | Ok id => find_server id st
      | Err _ => find_server_by_name identifier st
      end;
  if bool_decide (sr_desired_state r = ServerDesiredState.removed) then
    failure not_found "server was not found"
  else Ok r.

Lemma resolve_server_kept (identifier : bytes) st r :
  valid_state st -> resolve_server_spec identifier st = Ok r -> kept_server st r.
Proof.
  intros Hst. unfold resolve_server_spec, mbind, outcome_bind.
  destruct (Id_parse_kind identifier server) as [id|].
  - destruct (find_server id st) as [r'|] eqn:E; [|done]. case_bool_decide; [done|]. intros [= ->].
    apply find_server_lookup in E. split; [|done].
    by destruct (valid_servers st Hst _ _ E) as [_ ->].
  - destruct (find_server_by_name identifier st) as [r'|] eqn:E; [|done].
    case_bool_decide; [done|]. intros [= ->]. apply find_server_by_name_lookup in E as [? _]; [|done].
    by split.
Qed.

(** A kept server is found by its id. *)
Lemma resolve_server_id st r :
  valid_state st -> kept_server st r -> resolve_server_spec (str (sr_id r)) st = Ok r.
Proof.
  intros Hst Hr. destruct (kept_server_id st r Hst Hr) as [Hc Hk]. destruct Hr as [Hm Hd].
  unfold resolve_server_spec.
  assert (Id_parse_kind (str (sr_id r)) server = Ok (mkId server (str (sr_id r)))) as ->.
  { by apply Id_parse_kind_ok. }
  unfold find_server. simpl. rewrite Hm. simpl. by rewrite bool_decide_false.
Qed.

(** The tunnels of a server, in the order of their creation. *)
Definition tunnels_of (id : bytes) (st : State) : list TunnelRecord :=
  (order_by_created tr_created_at
     (filter (fun '(_, t) => str (tr_server_id t) = id) (map_to_list (st_tunnels st)))).*2.

Definition list_by_server_spec (max : Z) (id : Id) (st : State) : Result (list TunnelRecord) :=
  if negb (bool_decide (kind id = server)) then
    failure invalid_argument "tunnel list requires a server ID"
  else if max <? Zlen (tunnels_of (str id) st) then Err TunnelRepository.tunnel_limit_error
  else Ok (tunnels_of (str id) st).

Lemma elem_of_tunnels_of (id : bytes) st t :
  valid_state st ->
  t ∈ tunnels_of id st <-> st_tunnels st !! str (tr_id t) = Some t /\ str (tr_server_id t) = id.
Proof.
  intros Hst. unfold tunnels_of. rewrite list_elem_of_fmap. split.
  - intros ([i t'] & -> & Hin). unfold order_by_created in Hin.
    rewrite merge_sort_Permutation, list_elem_of_filter, elem_of_map_to_list in Hin.
    destruct Hin as [Hs Hm]. simpl. by destruct (valid_tunnels st Hst _ _ Hm) as [_ ->].
  - intros [Hm Hs]. exists (str (tr_id t), t). split; [done|]. unfold order_by_created.
    by rewrite merge_sort_Permutation, list_elem_of_filter, elem_of_map_to_list.
Qed.

Lemma list_by_server_quiet st max id s x :
  valid_state st -> 0 <= max ->
  TunnelRepository.list_by_server max id (mkDatabase (encode st) s x false []) =
  (list_by_server_spec max id st, mkDatabase (encode st) s x false []).
Proof.
  intros Hst Hmax. unfold TunnelRepository.list_by_server, list_by_server_spec.
  destruct (negb _); [done|]. unfold usable, mbind, ST_bind. cbn [poisoned_].
  rewrite run_quiet. unfold select, ST_lift. cbn [tunnels encode].
  set (l := filter (fun '(_, t) => str (tr_server_id t) = str id) (map_to_list (st_tunnels st))).
  assert (filter (fun '(_, row) => tc_server_id row = str id)
            (map_to_list (bind_tunnel <$> st_tunnels st)) = prod_map Datatypes.id bind_tunnel <$> l) as ->.
  { subst l. rewrite map_to_list_fmap. induction (map_to_list (st_tunnels st)) as [|[i t] l IH]; [done|].
    rewrite fmap_cons, !filter_cons. simpl. rewrite IH. by repeat case_decide. }
  assert (order_by_created tc_created_at (prod_map Datatypes.id bind_tunnel <$> l) =
          prod_map Datatypes.id bind_tunnel <$> order_by_created tr_created_at l) as ->.
  { apply merge_sort_fmap. intros [i t] [j t']. unfold created_before. done. }
  rewrite (read_rows_bind bind_tunnel); [|intros i t Hi|done].
  - change (Zlen []) with 0. rewrite Z.add_0_l. unfold tunnels_of. fold l.
    unfold Zlen. rewrite length_fmap. by destruct (max <? _).
  - unfold order_by_created in Hi. rewrite merge_sort_Permutation in Hi. subst l.
    apply list_elem_of_filter in Hi as [_ Hi%elem_of_map_to_list].
    destruct (valid_tunnels st Hst _ _ Hi) as [Hr <-]. by apply read_tunnel_bind.
Qed.

Lemma steady_server_get_by_name name : steady (ServerRepository.get_by_name name).
Proof. unfold ServerRepository.get_by_name. steady. Qed.
Lemma steady_list_by_server max id : steady (TunnelRepository.list_by_server max id).
Proof. unfold TunnelRepository.list_by_server. steady. Qed.

(** [resolve_tunnel]. *)
Definition resolve_tunnel_spec (max : Z) (identifier : bytes) (st : State) : Result TunnelRecord :=
  match Id_parse_kind identifier tunnel with
  | Ok id =>
      t ← find_tunnel id st;
      if bool_decide (tr_desired_state t = TunnelDesiredState.removed) then
        failure not_found "tunnel was not found"
      else Ok t
  | Err _ =>
      if bool_decide (identifier = []) || (kMaxNameBytes <? Zlen identifier) then
        failure invalid_argument "tunnel name is outside its byte-length limit"
      else
        l ← (if max <? Z.of_nat (size (st_tunnels st)) then Err TunnelRepository.tunnel_limit_error
             else Ok (listed tr_created_at (st_tunnels st)));
        found ← match_name identifier l None;
        match found with
        | None => failure not_found "tunnel was not found"
        | Some t => Ok t
        end
  end.

Definition kept_tunnel (st : State) (t : TunnelRecord) : Prop :=
  st_tunnels st !! str (tr_id t) = Some t /\ tr_desired_state t <> TunnelDesiredState.removed.

Lemma match_name_found identifier l found t :
  match_name identifier l found = Ok (Some t) ->
  found = Some t \/ t ∈ l /\ tr_desired_state t <> TunnelDesiredState.removed.
Proof.
  revert found. induction l as [|t' l IH]; intros found; simpl; [intros [= ->]; by left|].
  destruct (_ || _) eqn:E.
  - intros [?|[??]]%IH; [by left|right]. split; [by right|done].
  - destruct found; [done|]. apply orb_false_iff in E as [E%bool_decide_eq_false _].
    intros [[= <-]|[??]]%IH; right; (split; [|done]); [by left|by right].
Qed.

Lemma resolve_tunnel_kept max identifier st t :
  valid_state st -> resolve_tunnel_spec max identifier st = Ok t -> kept_tunnel st t.
Proof.
  intros Hst. unfold resolve_tunnel_spec, mbind, outcome_bind.
  destruct (Id_parse_kind identifier tunnel) as [id|].
  - destruct (find_tunnel id st) as [t'|] eqn:E; [|done]. case_bool_decide; [done|]. intros [= ->].
    apply find_tunnel_lookup in E. split; [|done].
    by destruct (valid_tunnels st Hst _ _ E) as [_ ->].
  - destruct (_ || _); [done|]. destruct (max <? _); [done|].
    destruct (match_name _ _ _) as [[t'|]|] eqn:E; try done. intros [= ->].
    apply match_name_found in E as [|[Hin Hd]]; [done|]. split; [|done].
    unfold listed in Hin. apply list_elem_of_fmap in Hin as ([i t'] & -> & Hin).
    apply elem_of_order_by_created in Hin. simpl. by destruct (valid_tunnels st Hst _ _ Hin) as [_ ->].
Qed.
End Find.

Section Resolve.
Context `{AsioAddressLaws} `{SqliteMessages} {S : Type} `{CredentialStoreLaws S}.
Variables (st0 : State) (n : nat) (calm0 : Prop) (why : Error -> Prop) (limits : StorageLimits).
Hypothesis Hlimits : limits_wf limits.
Implicit Types (c : Control S).

Lemma work_resolve_server identifier st c Q :
  at_work st0 n calm0 st c ->
  (forall e, resolve_server_spec identifier st = Err e -> why e) ->
  (forall r c', resolve_server_spec identifier st = Ok r -> kept_server st r ->
     at_work st0 n calm0 st c' -> credentials c' = credentials c -> Q r c') ->
  runs (resolve_server identifier) c Q (failed st0 n calm0 why).
Proof.
  intros Hw Hwhy HQ. pose proof Hw as (_ & Hst & _). unfold resolve_server. apply runs_bind.
  unfold resolve_server_spec in Hwhy, HQ. destruct (Id_parse_kind identifier server) as [id|].
  - eapply (work_query _ _ _ _ _ (find_server id st)); [exact Hw|apply steady_server_get|
      by apply get_server_quiet|intros e E; apply Hwhy; by rewrite E|].
    intros r c' E Hw' Hc. rewrite E in Hwhy, HQ. simpl in Hwhy, HQ. case_bool_decide as Hd.
    { eapply work_fail; [exact Hw'|by apply Hwhy]. }
    apply HQ; try done. apply find_server_lookup in E. split; [|done].
    by destruct (valid_servers st Hst _ _ E) as [_ ->].
  - eapply (work_query _ _ _ _ _ (find_server_by_name identifier st));
      [exact Hw|apply steady_server_get_by_name|by apply get_server_by_name_quiet|
       intros e' E; apply Hwhy; by rewrite E|].
    intros r c' E Hw' Hc. rewrite E in Hwhy, HQ. simpl in Hwhy, HQ. case_bool_decide as Hd.
    { eapply work_fail; [exact Hw'|by apply Hwhy]. }
    apply HQ; try done. by apply find_server_by_name_lookup in E as [? _].
Qed.

Lemma work_list_by_server id st c Q :
  at_work st0 n calm0 st c ->
  (forall e, list_by_server_spec (max_tunnels limits) id st = Err e -> why e) ->
  (forall c', list_by_server_spec (max_tunnels limits) id st = Ok (tunnels_of (str id) st) ->
     at_work st0 n calm0 st c' -> credentials c' = credentials c -> Q (tunnels_of (str id) st) c') ->
  runs (list_by_server limits id) c Q (failed st0 n calm0 why).
Proof.
  intros Hw Hwhy HQ. pose proof Hw as (_ & Hst & _). unfold list_by_server.
  eapply (work_query _ _ _ _ _ (list_by_server_spec (max_tunnels limits) id st));
    [exact Hw|apply steady_list_by_server| |done|].
  - apply list_by_server_quiet; [done|]. destruct Hlimits. lia.
  - intros l c' E Hw' Hc. assert (l = tunnels_of (str id) st) as ->; [|by apply HQ].
    unfold list_by_server_spec in E. destruct (negb _); [done|]. by destruct (_ <? _); simplify_eq.
Qed.

Lemma work_resolve_tunnel identifier st c Q :
  at_work st0 n calm0 st c ->
  (forall e, resolve_tunnel_spec (max_tunnels limits) identifier st = Err e -> why e) ->
  (forall t c', resolve_tunnel_spec (max_tunnels limits) identifier st = Ok t -> kept_tunnel st t ->
     at_work st0 n calm0 st c' -> credentials c' = credentials c -> Q t c') ->
  runs (resolve_tunnel limits identifier) c Q (failed st0 n calm0 why).
Proof.
  intros Hw Hwhy HQ. pose proof Hw as (_ & Hst & _).
  assert (HQ' : forall t c', resolve_tunnel_spec (max_tunnels limits) identifier st = Ok t ->
    at_work st0 n calm0 st c' -> credentials c' = credentials c -> Q t c').
  { intros t c' E. apply HQ; [done|]. by eapply resolve_tunnel_kept. }
  clear HQ. unfold resolve_tunnel. unfold resolve_tunnel_spec in Hwhy, HQ'.
  destruct (Id_parse_kind identifier tunnel) as [id|].
  - apply runs_bind. eapply (work_query _ _ _ _ _ (find_tunnel id st));
      [exact Hw|apply steady_tunnel_get|by apply get_tunnel_quiet|
       intros e E; apply Hwhy; by rewrite E|].
    intros t c' E Hw' Hc. rewrite E in Hwhy, HQ'. simpl in Hwhy, HQ'. case_bool_decide as Hd.
    { eapply work_fail; [exact Hw'|by apply Hwhy]. }
    by apply HQ'.
  - destruct (_ || _). { eapply work_fail; [exact Hw|by apply Hwhy]. }
    apply runs_bind. eapply work_query; [exact Hw|apply steady_tunnel_list| |..].
    { apply list_tunnels_quiet; [done|]. destruct Hlimits. lia. }
    { intros e' E. apply Hwhy. by rewrite E. }
    intros l c' E Hw' Hc. rewrite E in Hwhy, HQ'. cbn [mbind outcome_bind] in Hwhy, HQ'.
    apply runs_bind. eapply work_lift; [exact Hw'|intros e' E'; apply Hwhy; by rewrite E'|].
    intros found E'. rewrite E' in Hwhy, HQ'. destruct found as [t|].
    + by apply HQ'.
    + eapply work_fail; [exact Hw'|by apply Hwhy].
Qed.

(** The server of a tunnel. *)
Lemma work_parent t st c Q :
  at_work st0 n calm0 st c -> kept_tunnel st t ->
  (forall r c', st_servers st !! str (tr_server_id t) = Some r ->
     at_work st0 n calm0 st c' -> credentials c' = credentials c -> Q r c') ->
  runs (on_db (ServerRepository.get_by_id (tr_server_id t))) c Q (failed st0 n calm0 why).
Proof.
  intros Hw [Ht _] HQ. pose proof Hw as (_ & Hst & _).
  destruct (valid_parents st Hst _ _ Ht) as [r Hr].
  assert (find_server (tr_server_id t) st = Ok r) as Hf.
  { destruct (valid_tunnels st Hst _ _ Ht) as [[_ Hv] _]. unfold find_server.
    rewrite Hr. case_bool_decide as Hk; [done|]. exfalso. unfold validate_tunnel_record in Hv.
    by rewrite (bool_decide_false _ Hk), orb_true_r in Hv. }
  eapply (work_query _ _ _ _ _ (find_server (tr_server_id t) st));
    [exact Hw|apply steady_server_get|by apply get_server_quiet|intros e; congruence|].
  intros r' c' E. apply HQ. congruence.
Qed.
End Resolve.
