(* ===== verification/ControlHandlers.v ===== *)
(** * The handlers of the control service keep the daemon's state consistent

    For every request, every failure of a statement of either database, every reading of
    the clock and every answer of the random generator: the committed state stays valid,
    every credential a server refers to stays in the store, a request that fails changes
    nothing, and no change of the configuration goes unnoticed. *)
From stdpp Require Import sorting.
From S2P Require Import Prelude Common Ids Text Endpoint Utf8 Models Rows Database Repository StorageSpec StorageRun Storage Json IpcProtocol Credentials Control ControlRun.

Section Handlers.
Context `{AsioAddressLaws} `{SqliteMessages} `{ControlEnvironment} {S : Type} `{CredentialStoreLaws S}.
Variable limits : StorageLimits.
Hypothesis Hlimits : limits_wf limits.
Implicit Types (c : Control S) (st : State) (n : nat).

(** ** What is to be shown *)

(** A request answered with a result: the state is consistent again, and unless the
    server manager has been notified the configuration is the same. *)
Definition accepted st n c : Prop :=
  exists st' k, ready False st' k c /\ (k = n \/ k = Datatypes.S n) /\
    (k = n -> st_servers st' = st_servers st /\ st_tunnels st' = st_tunnels st).

Definition sound_handler (handler : Json -> Action (Control S) Json) : Prop :=
  forall p st n c, ready False st n c ->
    runs (handler p) c (fun _ => accepted st n) (fun _ => ready False st n).

Abbreviation any := (fun _ : Error => True).
Abbreviation work st0 n := (at_work st0 n False).
Abbreviation fails st0 n := (failed st0 n False any).

Lemma refused_ready st n c e : valid_state st -> refused st n False any e c -> ready False st n c.
Proof. intros Hst (Hr & Hok & Hn & He & _). split_and!; try done. Qed.

Lemma ready_lift {A} (r : Result A) st n c (Q : A -> Control S -> Prop) :
  ready False st n c -> (forall a, r = Ok a -> Q a c) ->
  runs (ST_lift r) c Q (fun _ => ready False st n).
Proof. intros Hr HQ. by apply runs_lift. Qed.

(** The transaction of a handler. *)
Lemma sound_scoped {A} (body : Action (Control S) A) st n c :
  ready False st n c ->
  (forall c1, work st n st c1 -> runs body c1 (fun _ => accepted st n) (fails st n)) ->
  runs (scoped body) c (fun _ => accepted st n) (fun _ => ready False st n).
Proof.
  intros Hr Hb. pose proof Hr as (_ & Hst & _). eapply runs_mono.
  - apply (scoped_runs st n False any _ _ (fun _ => accepted st n)); [exact Hr|].
    intros c1 Hw _. eapply runs_mono; [by apply Hb| |done].
    intros a c' Ha. split; [|done]. destruct Ha as (st' & k & (Hr' & _) & _). by exists st'.
  - done.
  - intros e c' ?. by eapply refused_ready.
Qed.

Lemma accept_same st n c : ready False st n c -> accepted st n c.
Proof. intros Hr. exists st, n. auto. Qed.

Lemma accept_changed st st' n c : ready False st' (Datatypes.S n) c -> accepted st n c.
Proof. intros Hr. exists st', (Datatypes.S n). split_and!; [done|by right|lia]. Qed.

(** ** The end of a handler *)

Lemma sound_commit st0 st n c (Q : unit -> Control S -> Prop) :
  work st0 n st c -> references_ok st (credentials c) ->
  (forall c', ready False st n c' -> credentials c' = credentials c -> Q tt c') ->
  runs (on_db commit) c Q (fails st0 n).
Proof.
  intros Hw Hok HQ. eapply runs_mono; [apply (work_commit st0 n False any st c Q Hw)|done|by intros e c' [? _]].
  intros c' Hr Hi Hp Hc Hn Hs. apply HQ; [|done]. pose proof Hw as (_ & Hst & _).
  split_and!; try done. by rewrite Hc.
Qed.

Lemma sound_notify st n c (Q : unit -> Control S -> Prop) R :
  ready False st n c -> (forall c', ready False st (Datatypes.S n) c' -> Q tt c') ->
  runs notify_state_changed c Q R.
Proof.
  intros (Hr & Hst & Hok & Hn & Hs & Hp) HQ. unfold runs, notify_state_changed. apply HQ.
  split_and!; try done. simpl. congruence.
Qed.

(** The notification of a committed change, and the answer. *)
Lemma sound_answer {A} (changed : bool) (answer : A) st0 st n c R :
  ready False st n c ->
  (changed = false -> st_servers st = st_servers st0 /\ st_tunnels st = st_tunnels st0) ->
  runs (_ ← notify_if changed; mret answer) c (fun _ => accepted st0 n) R.
Proof.
  intros Hr Hsame. apply runs_bind. destruct changed; simpl.
  - apply (sound_notify st n); [done|]. intros c' Hr'. apply runs_ret. by apply (accept_changed _ st).
  - apply runs_ret, runs_ret. exists st, n. split_and!; [done|by left|]. by intros _; apply Hsame.
Qed.

(** Work on the credential store that spares what is referenced. *)
Lemma sound_store {A} (m : Action S A) st n c (Q : Result A -> Control S -> Prop) R :
  ready False st n c -> (forall key, referenced st key -> leaves key m) ->
  (forall r c', ready False st n c' -> Q r c') ->
  runs (attempt (on_store m)) c Q R.
Proof.
  intros (Hr & Hst & Hok & Hn & [He _] & Hp) Hl HQ.
  assert (forall s, (m (credentials c)).2 = s -> ready False st n (set_credentials s c)) as Hready.
  { intros s <-. split_and!; try done. simpl. apply (references_undisturbed st (credentials c)); [done|].
    intros key Hk. by apply Hl. }
  apply runs_attempt, runs_on_store; intros x s E; apply HQ, Hready; by rewrite E.
Qed.

Lemma checkpoint_rest st db : at_rest st db -> at_rest st (checkpoint db).2.
Proof.
  intros Hr. unfold checkpoint. destruct (poisoned_ db) eqn:Hp; [done|].
  destruct (bool_decide _); [done|]. destruct (at_rest_usable st db Hr Hp) as [Ht [Hs Hx]].
  unfold mbind, ST_bind, run.
  destruct (pop_fault_spec db) as (f & db1 & -> & Ht1 & (Hs1 & Hx1 & Hp1) & _). destruct f as [f|]; simpl.
  - unfold at_rest, after_fault, committed. destruct (fault_rolls_back f); simpl;
      rewrite ?Hs1, ?Hs, ?Ht1; simpl; split_and!; auto; congruence.
  - assert (at_rest st (mkDatabase (tables db1) (saved db1) (transaction_ db1) (poisoned_ db1)
      (faults db1))) as Hr1.
    { unfold at_rest, committed. simpl. rewrite Hs1, Hs. simpl. split_and!; [congruence..|by right]. }
    by destruct checkpoint_incomplete.
Qed.

Lemma sound_checkpoint st n c (Q : Result unit -> Control S -> Prop) R :
  ready False st n c -> (forall r c', ready False st n c' -> Q r c') ->
  runs (attempt (on_db checkpoint)) c Q R.
Proof.
  intros (Hr & Hst & Hok & Hn & [He _] & Hp) HQ. apply runs_attempt. unfold runs, on_db.
  pose proof (checkpoint_rest st (state_db c) Hr) as Hc.
  destruct (checkpoint (state_db c)) as [[a|e] db]; apply HQ; by split_and!.
Qed.

(** ** Queries *)

(** A handler that only reads answers from the contents and changes nothing. *)
Lemma sound_read {A} (answer : A) st n c :
  work st n st c ->
  runs (_ ← on_db commit; mret answer) c (fun _ => accepted st n) (fails st n).
Proof.
  intros Hw. pose proof Hw as (_ & _ & _ & Hok & _). apply runs_bind.
  apply (sound_commit st st n c); [done..|]. intros c' Hr _. apply runs_ret. by apply accept_same.
Qed.

Lemma sound_identifier p st n c (k : bytes -> Action (Control S) Json) :
  ready False st n c ->
  (forall identifier c1, work st n st c1 ->
     runs (k identifier) c1 (fun _ => accepted st n) (fails st n)) ->
  runs (identifier ← ST_lift (identifier_param p); scoped (k identifier)) c
    (fun _ => accepted st n) (fun _ => ready False st n).
Proof.
  intros Hr Hk. apply runs_bind, (ready_lift _ st n); [done|]. intros identifier _.
  apply sound_scoped; [done|]. auto.
Qed.

Lemma sound_resolve identifier st n c (k : ServerRecord -> Action (Control S) Json) :
  work st n st c ->
  (forall r c', kept_server st r -> work st n st c' ->
     runs (k r) c' (fun _ => accepted st n) (fails st n)) ->
  runs (r ← resolve_server identifier; k r) c (fun _ => accepted st n) (fails st n).
Proof.
  intros Hw Hk. apply runs_bind, (work_resolve_server _ _ _ _ _ st); [done..|]. intros; by apply Hk.
Qed.

Lemma sound_list id st n c (k : list TunnelRecord -> Action (Control S) Json) :
  work st n st c ->
  (forall c', work st n st c' ->
     runs (k (tunnels_of (str id) st)) c' (fun _ => accepted st n) (fails st n)) ->
  runs (l ← list_by_server limits id; k l) c (fun _ => accepted st n) (fails st n).
Proof.
  intros Hw Hk. apply runs_bind, (work_list_by_server _ _ _ _ _ Hlimits _ st); [done..|].
  intros; by apply Hk.
Qed.

Lemma sound_resolve_tunnel identifier st n c (k : TunnelRecord -> Action (Control S) Json) :
  work st n st c ->
  (forall t c', kept_tunnel st t -> work st n st c' ->
     runs (k t) c' (fun _ => accepted st n) (fails st n)) ->
  runs (t ← resolve_tunnel limits identifier; k t) c (fun _ => accepted st n) (fails st n).
Proof.
  intros Hw Hk. apply runs_bind, (work_resolve_tunnel _ _ _ _ _ Hlimits _ st); [done..|].
  intros; by apply Hk.
Qed.

Lemma sound_parent t st n c (k : ServerRecord -> Action (Control S) Json) :
  work st n st c -> kept_tunnel st t ->
  (forall r c', st_servers st !! str (tr_server_id t) = Some r -> work st n st c' ->
     runs (k r) c' (fun _ => accepted st n) (fails st n)) ->
  runs (r ← on_db (ServerRepository.get_by_id (tr_server_id t)); k r) c (fun _ => accepted st n)
    (fails st n).
Proof.
  intros Hw Ht Hk. apply runs_bind, (work_parent _ _ _ _ t st); [done..|]. auto.
Qed.

Lemma server_inspect_sound : sound_handler (server_inspect limits).
Proof.
  intros p st n c Hr. apply sound_identifier; [done|]. intros identifier c1 Hw.
  apply sound_resolve; [done|]. intros r c2 _ Hw2. apply sound_list; [done|]. intros c3 Hw3.
  by apply sound_read.
Qed.

Lemma tunnel_inspect_sound : sound_handler (tunnel_inspect limits).
Proof.
  intros p st n c Hr. apply sound_identifier; [done|]. intros identifier c1 Hw.
  apply sound_resolve_tunnel; [done|]. intros t c2 Ht Hw2. apply sound_parent; [done..|].
  intros r c3 _ Hw3. by apply sound_read.
Qed.

(** ** Handlers that go on after a failed query

    A query that fails may have ended the transaction; what is read afterwards is still
    what the database contains. *)

Definition reading {A} (m : Action Database A) : Prop := forall db,
  let db' := (m db).2 in
  transaction_ db' = transaction_ db /\ poisoned_ db' = poisoned_ db /\
  (tables db' = tables db /\ saved db' = saved db \/ tables db' = committed db /\ saved db' = None).

Lemma reading_run {A} operation (query : Tables -> A) : reading (run operation (select query)).
Proof.
  intros db db'. subst db'. unfold run, select.
  destruct (pop_fault_spec db) as (f & db1 & -> & Ht & (Hs & Hx & Hp) & _).
  destruct f as [f|]; simpl; [|auto]. unfold after_fault, committed.
  destruct (fault_rolls_back f); simpl; rewrite ?Hs, ?Ht; auto.
Qed.

Lemma reading_lift {A} (r : Result A) : reading (ST_lift r).
Proof. intros db. simpl. auto. Qed.

Lemma reading_bind {A B} (m : Action Database A) (k : A -> Action Database B) :
  reading m -> (forall a, reading (k a)) -> reading (m ≫= k).
Proof.
  intros Hm Hk db db'. subst db'. unfold mbind, ST_bind. specialize (Hm db). simpl in Hm.
  destruct (m db) as [[a|e] db1]; simpl in *; [|done]. specialize (Hk a db1). simpl in Hk.
  destruct Hm as (Hx & Hp & Hm), Hk as (Hx' & Hp' & Hk). unfold committed in *.
  split_and!; [congruence..|]. destruct Hm as [[Ht Hs]|[Ht Hs]], Hk as [[Ht' Hs']|[Ht' Hs']];
    rewrite ?Ht', ?Hs', ?Ht, ?Hs; simpl; auto.
Qed.

Lemma reading_usable {A} (m : Action Database A) : reading m -> reading (usable m).
Proof.
  intros Hm db. unfold usable. specialize (Hm db). simpl in Hm.
  destruct (poisoned_ db) eqn:E; [simpl; auto|]. done.
Qed.

Ltac reading :=
  repeat first [progress intros | apply reading_usable | apply reading_bind | apply reading_run
               | apply reading_lift | apply (reading_lift (Err _)) | apply (reading_lift (Ok _))
               | match goal with |- reading (match ?x with _ => _ end) => destruct x end].

Lemma reading_get_server id : reading (ServerRepository.get_by_id id).
Proof. unfold ServerRepository.get_by_id, fail_with. reading. Qed.
Lemma reading_get_server_by_name name : reading (ServerRepository.get_by_name name).
Proof. unfold ServerRepository.get_by_name, fail_with. reading. Qed.
Lemma reading_list_servers max : reading (ServerRepository.list_ max).
Proof. unfold ServerRepository.list_. reading. Qed.
Lemma reading_list_tunnels max : reading (TunnelRepository.list_ max).
Proof. unfold TunnelRepository.list_. reading. Qed.
Lemma reading_list_by_server max id : reading (TunnelRepository.list_by_server max id).
Proof. unfold TunnelRepository.list_by_server, fail_with. reading. Qed.

Definition looking st n c : Prop :=
  (tables (state_db c) = encode st /\
   (saved (state_db c) = Some (encode st) \/ saved (state_db c) = None) /\
   transaction_ (state_db c) = Some None /\ poisoned_ (state_db c) = false) /\
  valid_state st /\ references_ok st (credentials c) /\ notified c = n /\ entropy_wf c.

Lemma work_looking st n c : work st n st c -> looking st n c.
Proof. intros ((?&?&?&?) & ? & _ & ? & ? & [? _]). split_and!; auto. Qed.

Lemma looking_failed st n c e : looking st n c -> fails st n e c.
Proof.
  intros ((Ht & Hs & Hx & Hp) & Hst & Hok & Hn & He). split_and!; try done.
  assert (saved (state_db c) = Some (encode st) \/
          saved (state_db c) = None /\ tables (state_db c) = encode st) as Hd by tauto.
  split_and!; [by apply doomed_committed|done|]. right. split; [congruence|done].
Qed.

Lemma looking_db {A} (m : Action Database A) st n c (Q : A -> Control S -> Prop)
    (R : Error -> Control S -> Prop) :
  reading m -> looking st n c -> (forall a c', looking st n c' -> Q a c') ->
  (forall e c', looking st n c' -> R e c') -> runs (on_db m) c Q R.
Proof.
  intros Hm ((Ht & Hs & Hx & Hp) & Hst & Hok & Hn & He) HQ HR. unfold runs, on_db.
  specialize (Hm (state_db c)). simpl in Hm. destruct (m (state_db c)) as [r db].
  assert (looking st n (set_db db c)) as Hl.
  { destruct Hm as (Hx' & Hp' & Hm). simpl in *. split_and!; try done; simpl; try congruence.
    - destruct Hm as [[-> _]|[-> _]]; [done|]. unfold committed. by destruct Hs as [->| ->].
    - destruct Hm as [[_ ->]|[_ ->]]; auto. }
  destruct r; auto.
Qed.

Lemma looking_commit {A} (answer : A) st n c :
  looking st n c ->
  runs (_ ← on_db commit; mret answer) c (fun _ => accepted st n) (fails st n).
Proof.
  intros Hl. pose proof Hl as ((Ht & [Hs|Hs] & Hx & Hp) & Hst & Hok & Hn & He).
  { apply sound_read. by split_and!. }
  apply runs_bind. unfold runs, on_db. unfold commit. rewrite Hx.
  unfold execute_commit, execute_end.
  destruct (pop_fault_spec (state_db c)) as (f & db1 & -> & Ht1 & (Hs1 & Hx1 & Hp1) & _).
  (* outside a transaction COMMIT fails and the rollback ends the transaction *)
  assert (forall e db2, saved db2 = None -> tables db2 = encode st -> transaction_ db2 = Some None ->
    poisoned_ db2 = false ->
    let (r, db) := rollback_after e "; the failed commit could not be rolled back"
                     (mark_failed e db2) in
    exists e', r = Err e' /\ fails st n e' (set_db db c)) as Hroll.
  { intros e db2 H2s H2t H2x H2p. unfold rollback_after.
    pose proof (rollback_spec (mark_failed e db2) (encode st)) as Hr.
    destruct (rollback (mark_failed e db2)) as [r db]. destruct Hr as (Hc & Hp' & Hd & _).
    1-3: unfold mark_failed; rewrite H2x; simpl; auto.
    eexists. split; [done|]. by split_and!. }
  destruct f as [f|].
  - specialize (Hroll (sqlite_error (fault_result f) (fault_message f) (bs "commit SQLite transaction"))
      (after_fault f db1)). destruct (rollback_after _ _ _) as [r db]. destruct Hroll as (e & -> & Hf);
      [..|done]; unfold after_fault, committed; destruct (fault_rolls_back f); simpl;
      rewrite ?Hs1, ?Hs; simpl; congruence.
  - rewrite Hs1, Hs. cbv iota.
    specialize (Hroll (sqlite_error SQLITE_ERROR no_transaction_message
      (bs "commit SQLite transaction")) db1). destruct (rollback_after _ _ _) as [r db].
    destruct Hroll as (e & -> & Hf); [congruence..|done].
Qed.

Lemma looking_list_all {A} (answer : list ServerRecord -> list TunnelRecord -> A) st n c :
  looking st n c ->
  runs ('(l1, l2) ← list_all limits; _ ← on_db commit; mret (answer l1 l2)) c
    (fun _ => accepted st n) (fails st n).
Proof.
  intros Hl. unfold list_all. apply runs_bind, runs_bind, runs_attempt.
  assert (forall r1 c1, looking st n c1 ->
    runs (listed_tunnels ← attempt (on_db (TunnelRepository.list_ (max_tunnels limits)));
          servers ← ST_lift r1; tunnels ← ST_lift listed_tunnels; mret (servers, tunnels)) c1
      (fun x c' => runs (let '(l1, l2) := x in _ ← on_db commit; mret (answer l1 l2)) c'
         (fun _ => accepted st n) (fails st n)) (fails st n)) as Hrest.
  { intros r1 c1 Hl1. apply runs_bind, runs_attempt.
    apply (looking_db _ st n); [apply reading_list_tunnels|done|..]; intros r2 c2 Hl2;
      (apply runs_bind, runs_lift; [intros l1 _|intros e _; by apply looking_failed]);
      (apply runs_bind, runs_lift; [intros l2 _|intros e _; by apply looking_failed]);
      by apply runs_ret, looking_commit. }
  apply (looking_db _ st n); [apply reading_list_servers|done|..]; intros r1 c1 Hl1; by apply Hrest.
Qed.

Lemma server_list_sound : sound_handler (server_list limits).
Proof.
  intros p st n c Hr. apply runs_bind, (ready_lift _ st n); [done|]. intros _ _.
  apply sound_scoped; [done|]. intros c1 Hw.
  apply (looking_list_all (fun l1 l2 => json_object [("servers", JArray
      (map (fun r => server_json r (count_of l2 (sr_id r)))
         (List.filter (fun r => negb (server_removed r)) l1)))]%string)). by apply work_looking.
Qed.

Lemma status_sound : sound_handler (status limits).
Proof.
  intros p st n c Hr. apply runs_bind, (ready_lift _ st n); [done|]. intros _ _.
  apply sound_scoped; [done|]. intros c1 Hw. apply looking_list_all. by apply work_looking.
Qed.

Lemma looking_resolve identifier st n c (Q : ServerRecord -> Control S -> Prop) :
  looking st n c -> (forall r c', looking st n c' -> Q r c') ->
  runs (resolve_server identifier) c Q (fails st n).
Proof.
  intros Hl HQ. apply runs_bind. apply (looking_db _ st n); [|done| |intros; by apply looking_failed].
  - destruct (Id_parse_kind _ _); [apply reading_get_server|apply reading_get_server_by_name].
  - intros r c' Hl'. case_bool_decide; [by apply runs_fail, looking_failed|]. by apply runs_ret, HQ.
Qed.

Lemma tunnel_list_sound : sound_handler (tunnel_list limits).
Proof.
  intros p st n c Hr. apply runs_bind, (ready_lift _ st n); [done|]. intros _ _.
  apply runs_bind, (ready_lift _ st n); [done|]. intros server_identifier _.
  apply sound_scoped; [done|]. intros c1 Hw%work_looking. apply runs_bind, runs_attempt.
  (* what follows the two queries *)
  set (rest := fun (x : Result (list TunnelRecord) * option ServerRecord) => let '(listed, selected) := x in
    tunnels ← ST_lift listed;
    contexts ← (match selected with
      | Some r => mret [r]
      | None => servers ← on_db (ServerRepository.list_ (max_servers limits));
                mret (List.filter (fun r => negb (server_removed r)) servers)
      end);
    _ ← on_db commit;
    mret (json_object [("tunnels", JArray
      (map (fun t => tunnel_json t
              (server_context <$>
                 List.find (fun r => bool_decide (str (sr_id r) = str (tr_server_id t))) contexts))
         (List.filter (fun t => negb (tunnel_removed t)) tunnels)))]%string) : Action (Control S) Json).
  assert (forall x c2, looking st n c2 -> runs (rest x) c2 (fun _ => accepted st n) (fails st n)) as Hrest.
  { intros [listed selected] c2 Hl2. apply runs_bind, runs_lift; [intros l _|by intros; apply looking_failed].
    apply runs_bind. destruct selected as [r|]; [by apply runs_ret, looking_commit|].
    apply runs_bind, (looking_db _ st n); [apply reading_list_servers|done| |by intros; apply looking_failed].
    intros servers c3 Hl3. by apply runs_ret, looking_commit. }
  apply (looking_db _ st n); [apply reading_list_tunnels|done|..]; intros l c2 Hl2; apply runs_bind;
    (destruct server_identifier as [identifier|]; [|by apply runs_ret, Hrest]);
    (apply runs_bind, looking_resolve; [done|]; intros r c3 Hl3; apply runs_bind, runs_attempt);
    (apply (looking_db _ st n); [apply reading_list_by_server|done|..]; intros; by apply runs_ret, Hrest).
Qed.

(** ** Handlers without a transaction *)

Lemma daemon_status_sound : sound_handler daemon_status.
Proof.
  intros p st n c Hr. apply runs_bind, (ready_lift _ st n); [done|]. intros _ _.
  by apply runs_ret, accept_same.
Qed.

Lemma metrics_sound : sound_handler metrics.
Proof.
  intros p st n c Hr. apply runs_bind, (ready_lift _ st n); [done|]. intros _ _.
  destruct runtime_metrics as [[supplied|]|]; [by apply runs_ret, accept_same|by apply runs_fail|].
  by apply runs_ret, accept_same.
Qed.

Lemma reload_sound : sound_handler reload.
Proof.
  intros p st n c Hr. apply runs_bind, (ready_lift _ st n); [done|]. intros _ _.
  destruct reload_handler as [reloaded|]; [|by apply runs_fail].
  apply runs_bind, (ready_lift _ st n); [done|]. intros _ _. by apply runs_ret, accept_same.
Qed.

(** ** What the successful operations of the repositories do *)

Lemma create_tunnel_inv limit t st a st' :
  create_tunnel_spec limit t st = Ok (a, st') -> st' = put_tunnel t st.
Proof.
  unfold create_tunnel_spec. destruct (validate_tunnel_record t) as [[]|]; [|done]. simpl.
  destruct (_ <=? _); [done|]. destruct (bool_decide _); [done|].
  destruct (remote_taken t st); [done|]. by destruct (parent_missing t st); [done|intros [= _ <-]].
Qed.

Lemma update_tunnel_inv t st a st' :
  update_tunnel_spec t st = Ok (a, st') -> st' = put_tunnel t st.
Proof.
  unfold update_tunnel_spec. destruct (validate_tunnel_record t) as [[]|]; [|done]. simpl.
  destruct (find_tunnel _ _); [|done]. simpl. destruct (_ || _); [done|].
  destruct (remote_taken t st); [done|]. by destruct (parent_missing t st); [done|intros [= _ <-]].
Qed.

Lemma remove_tunnel_inv id now st a st' :
  remove_tunnel_spec id now st = Ok (a, st') -> st_servers st' = st_servers st.
Proof.
  unfold remove_tunnel_spec. destruct (_ || _); [done|]. destruct (find_tunnel _ _); [|done]. simpl.
  by destruct (_ <? _); [done|intros [= _ <-]].
Qed.

Lemma erase_tunnel_inv id st a st' :
  erase_tunnel_spec id st = Ok (a, st') -> st_servers st' = st_servers st.
Proof.
  unfold erase_tunnel_spec. destruct (negb _); [done|]. destruct (find_tunnel _ _); [|done]. simpl.
  by destruct (negb _); [done|intros [= _ <-]].
Qed.

Lemma create_server_inv limit r st a st' :
  create_server_spec limit r st = Ok (a, st') ->
  st' = put_server r st /\ validate_server_record r = success.
Proof.
  unfold create_server_spec. destruct (validate_server_record r) as [[]|]; [|done]. simpl.
  destruct (_ <=? _); [done|]. destruct (bool_decide _); [done|].
  by destruct (name_taken r st); [done|intros [= _ <-]].
Qed.

Lemma update_server_inv r st a st' :
  update_server_spec r st = Ok (a, st') -> st' = put_server r st.
Proof.
  unfold update_server_spec. destruct (validate_server_record r) as [[]|]; [|done]. simpl.
  destruct (find_server _ _); [|done]. simpl. destruct (_ || _); [done|].
  by destruct (name_taken r st); [done|intros [= _ <-]].
Qed.

(** A removed server is kept no more; nothing happens to the others. *)
Lemma remove_server_inv id now st a st' r :
  valid_state st -> remove_server_spec id now st = Ok (a, st') -> kept_server st' r ->
  kept_server st r /\ str (sr_id r) <> str id.
Proof.
  intros Hst. unfold remove_server_spec. destruct (_ || _); [done|].
  destruct (find_server id st) as [old|] eqn:Hf; [|done]. simpl. destruct (_ <? _); [done|].
  destruct (has_child _ st); [done|]. intros [= _ <-] [Hm Hd]. simpl in Hm.
  apply find_server_lookup in Hf. destruct (valid_servers st Hst _ _ Hf) as [_ Hid].
  apply lookup_insert_Some in Hm as [[_ <-]|[Hne Hm]]; [done|]. split; [done|]. simpl in Hne. congruence.
Qed.

(** Removing a server leaves the references of every record. *)
Lemma remove_server_references id now st a st' (s : S) :
  valid_state st -> remove_server_spec id now st = Ok (a, st') -> references_ok st s -> references_ok st' s.
Proof.
  intros Hst Hs. apply references_servers. revert Hs. unfold remove_server_spec. destruct (_ || _); [done|].
  destruct (find_server id st) as [old|] eqn:Hf; [|done]. simpl. destruct (_ <? _); [done|].
  destruct (has_child _ st); [done|]. intros [= _ <-] r Hm. simpl in Hm.
  apply find_server_lookup in Hf. destruct (valid_servers st Hst _ _ Hf) as [_ Hid].
  apply lookup_insert_Some in Hm as [[_ <-]|[_ Hm]]; [|by exists r].
  exists old. rewrite Hid. split_and!; [done|done|by intros []|done].
Qed.

Lemma erase_server_references id st a st' (s : S) :
  erase_server_spec id st = Ok (a, st') -> references_ok st s -> references_ok st' s.
Proof.
  intros Hs. apply references_servers. revert Hs. unfold erase_server_spec. destruct (negb _); [done|].
  destruct (find_server _ _); [|done]. simpl. destruct (_ || _); [done|]. destruct (has_child _ _); [done|].
  intros [= _ <-] r Hm. simpl in Hm. apply lookup_delete_Some in Hm as [_ Hm]. by exists r.
Qed.

Lemma erase_server_inv id st a st' r :
  erase_server_spec id st = Ok (a, st') -> kept_server st' r -> kept_server st r.
Proof.
  unfold erase_server_spec. destruct (negb _); [done|]. destruct (find_server _ _); [|done]. simpl.
  destruct (_ || _); [done|]. destruct (has_child _ _); [done|]. intros [= _ <-] [Hm Hd].
  simpl in Hm. by apply lookup_delete_Some in Hm as [_ Hm].
Qed.

(** ** Handlers of the tunnels *)

Lemma sound_update_tunnel st0 st n c t (Q : unit -> Control S -> Prop) :
  work st0 n st c -> tunnel_record_wf t ->
  (forall c', work st0 n (put_tunnel t st) c' -> credentials c' = credentials c -> Q tt c') ->
  runs (on_db (TunnelRepository.update_in t)) c Q (fails st0 n).
Proof.
  intros Hw Ht HQ. pose proof Hw as (_ & Hst & _).
  apply (work_db _ _ _ _ _ (update_tunnel_spec t st) st); [done|apply steady_tunnel_update|
    by apply update_tunnel_outcome|intros ? st' Hs; by eapply update_tunnel_valid|done|].
  intros [] st' c' Hs%update_tunnel_inv Hw' Hc. subst st'. by apply HQ.
Qed.

Lemma kept_tunnel_wf st t : valid_state st -> kept_tunnel st t -> tunnel_record_wf t.
Proof. intros Hst [Ht _]. by destruct (valid_tunnels st Hst _ _ Ht) as [[? _] _]. Qed.

Lemma next_revision_u64 current revision :
  is_u64 current -> next_revision current = Ok revision -> is_u64 revision /\ revision = current + 1.
Proof.
  unfold next_revision. destruct (Z.leb_spec (2 ^ 63 - 1) current); [done|]. intros Hu [= <-].
  split; [|done]. unfold is_u64 in *. lia.
Qed.

Lemma references_tunnels st st' (s : S) :
  st_servers st' = st_servers st -> references_ok st s -> references_ok st' s.
Proof. intros E. apply references_servers. intros r. rewrite E. intros Hm. by exists r. Qed.

Lemma endpoint_parsed_wf text e : Endpoint_parse text = Ok e -> Endpoint_wf e.
Proof. apply Endpoint_parse_print. Qed.

(** The end of the handlers that change one tunnel. *)
Lemma sound_tunnel_change (changed : bool) (update : Action (Control S) TunnelRecord)
    (answer : TunnelRecord -> Json) t st n c :
  work st n st c ->
  (changed = false -> update = mret t) ->
  (changed = true -> runs update c (fun t' c' => work st n (put_tunnel t' st) c') (fails st n)) ->
  runs (t ← update; _ ← on_db commit; _ ← notify_if changed; mret (answer t)) c
    (fun _ => accepted st n) (fails st n).
Proof.
  intros Hw Hsame Hup. apply runs_bind. pose proof Hw as (_ & _ & _ & Hok & _). destruct changed.
  - eapply runs_mono; [by apply Hup| |done]. intros t' c1 Hw1. apply runs_bind.
    apply (sound_commit st (put_tunnel t' st) n c1); [done| |].
    + apply (references_tunnels st); [done|]. by destruct Hw1 as (_ & _ & _ & ? & _).
    + intros c2 Hr _. by apply (sound_answer true _ st (put_tunnel t' st) n).
  - rewrite Hsame by done. apply runs_ret, runs_bind. apply (sound_commit st st n c); [done..|].
    intros c2 Hr _. by apply (sound_answer false _ st st n).
Qed.

Lemma switch_tunnel_sound desired actual : sound_handler (switch_tunnel limits desired actual).
Proof.
  intros p st n c Hr. apply sound_identifier; [done|]. intros identifier c1 Hw.
  apply sound_resolve_tunnel; [done|]. intros t c2 Ht Hw2. apply sound_parent; [done..|].
  intros r c3 _ Hw3. apply sound_tunnel_change with (t := t); [done|by intros ->|]. intros ->. simpl negb.
  cbv iota. pose proof Hw as (_ & Hst & _). pose proof (kept_tunnel_wf st t Hst Ht) as (Hw1 & Hw2' & Hw3' & Hw4 & Hw5).
  apply runs_bind, (work_lift _ _ _ _ _ st); [done..|]. intros revision Hrev.
  apply next_revision_u64 in Hrev as [Hrev _]; [|done].
  apply runs_bind, (work_time _ _ _ _ _ st); [done|]. intros updated_at c4 _ Hw4' _.
  apply runs_bind, (sound_update_tunnel st st n); [done|by split_and!|]. intros c5 Hw6 _.
  by apply runs_ret.
Qed.

Lemma tunnel_update_sound : sound_handler (tunnel_update limits).
Proof.
  intros p st n c Hr. apply runs_bind, (ready_lift _ st n); [done|]. intros _ _.
  destruct (_ =? _); [by apply runs_fail|].
  do 8 (apply runs_bind, (ready_lift _ st n); [done|]; intros ? _).
  apply sound_scoped; [done|]. intros c1 Hw. apply sound_resolve_tunnel; [done|].
  intros t c2 Ht Hw2. apply sound_parent; [done..|]. intros r c3 _ Hw3.
  apply runs_bind, (work_lift _ _ _ _ _ st); [done..|]. intros next_protocol _.
  destruct (_ && _); [by apply (work_fail _ _ _ _ _ _ st)|].
  apply runs_bind, (work_lift _ _ _ _ _ st); [done..|]. intros _ _.
  apply runs_bind, (work_lift _ _ _ _ _ st); [done..|]. intros next_local Hlocal%endpoint_parsed_wf.
  apply runs_bind, (work_lift _ _ _ _ _ st); [done..|]. intros next_remote Hremote%endpoint_parsed_wf.
  apply runs_bind, (work_lift _ _ _ _ _ st); [done..|]. intros _ _.
  apply sound_tunnel_change with (t := t); [done|by intros ->|]. intros ->. simpl negb. cbv iota.
  pose proof Hw as (_ & Hst & _). pose proof (kept_tunnel_wf st t Hst Ht) as (Hw1 & Hw2' & _ & _ & Hw5).
  apply runs_bind, (work_lift _ _ _ _ _ st); [done..|]. intros revision Hrev.
  apply next_revision_u64 in Hrev as [Hrev _]; [|done].
  apply runs_bind, (work_time _ _ _ _ _ st); [done|]. intros updated_at c4 _ Hw4' _.
  apply runs_bind, (sound_update_tunnel st st n); [done|by split_and!|]. intros c5 Hw6 _.
  by apply runs_ret.
Qed.

Lemma tunnel_add_sound : sound_handler (tunnel_add limits).
Proof.
  intros p st n c Hr. apply runs_bind, (ready_lift _ st n); [done|]. intros _ _.
  do 10 (apply runs_bind, (ready_lift _ st n); [done|]; intros ? _).
  destruct (_ && _); [by apply runs_fail|].
  apply sound_scoped; [done|]. intros c1 Hw. apply sound_resolve; [done|]. intros r c2 Hk Hw2.
  apply runs_bind, (work_lift _ _ _ _ _ st); [done..|]. intros local Hlocal%endpoint_parsed_wf.
  apply runs_bind, (work_lift _ _ _ _ _ st); [done..|]. intros remote Hremote%endpoint_parsed_wf.
  apply runs_bind, (work_lift _ _ _ _ _ st); [done..|]. intros _ _.
  apply runs_bind, (work_generate _ _ _ _ _ st); [done..|]. intros id c3 Hid Hidwf Hw3 _.
  apply runs_bind, (work_now _ _ _ _ st); [done|]. intros now c4 Hw4 _.
  cbv zeta. match goal with |- context [TunnelRepository.create_in _ ?t'] => set (t := t') end.
  pose proof Hw as (_ & Hst & _). assert (tunnel_record_wf t) as Hwf.
  { destruct Hk as [Hm _]. destruct (valid_servers st Hst _ _ Hm) as [[(? & _) _] _].
    split_and!; try done. }
  apply runs_bind, (work_db _ _ _ _ _ (create_tunnel_spec (max_tunnels limits) t st) st);
    [done|apply steady_tunnel_create|by apply create_tunnel_outcome|
     intros ? st' Hs; by eapply create_tunnel_valid|done|].
  intros [] st' c5 Hs Hw5 _. pose proof Hw5 as (_ & _ & _ & Hok & _). apply runs_bind.
  apply (sound_commit st st' n c5); [done| |].
  - apply (references_tunnels st); [|done]. by apply create_tunnel_inv in Hs as ->.
  - intros c6 Hr6 _. by apply (sound_answer true _ st st' n).
Qed.

Lemma tunnel_remove_sound : sound_handler (tunnel_remove limits).
Proof.
  intros p st n c Hr. apply sound_identifier; [done|]. intros identifier c1 Hw.
  apply sound_resolve_tunnel; [done|]. intros t c2 Ht Hw2. pose proof Hw2 as (_ & Hst & _).
  apply runs_bind, (work_time _ _ _ _ _ st); [done|]. intros removed_at c3 _ Hw3 _.
  apply runs_bind, (work_db _ _ _ _ _ (remove_tunnel_spec (tr_id t) removed_at st) st);
    [done|apply steady_tunnel_mark_removed|by apply remove_tunnel_outcome|
     intros ? st' Hs; by eapply remove_tunnel_valid|done|].
  intros [] st1 c4 Hs1 Hw4 _. pose proof Hw4 as (_ & Hst1 & _).
  apply runs_bind, (work_db _ _ _ _ _ (erase_tunnel_spec (tr_id t) st1) st1);
    [done|apply steady_tunnel_erase|by apply erase_tunnel_outcome|
     intros ? st' Hs; by eapply erase_tunnel_valid|done|].
  intros [] st2 c5 Hs2 Hw5 _. pose proof Hw5 as (_ & _ & _ & Hok & _).
  apply runs_bind, (sound_commit st st2 n c5); [done| |].
  - apply (references_tunnels st); [|done]. transitivity (st_servers st1).
    + by eapply erase_tunnel_inv.
    + by eapply remove_tunnel_inv.
  - intros c6 Hr6 _. apply runs_bind, (sound_checkpoint st2 n); [done|]. intros _ c7 Hr7.
    by apply (sound_answer true _ st st2 n).
Qed.
End Handlers.
