(* ===== verification/ControlServers.v ===== *)
(** * The handlers of the servers

    What [server_add], [server_login], [server_update], [server_enable], [server_disable],
    [server_logout] and [server_remove] do to the state and to the credential store, for
    every failure of either; and, when nothing outside the program fails, which requests
    they refuse. *)
From stdpp Require Import sorting.
From S2P Require Import Prelude Common Ids Text Endpoint Utf8 Models Rows Database Repository StorageSpec StorageRun Storage Json IpcProtocol Credentials Control ControlRun ControlHandlers.

Section Servers.
Context `{AsioAddressLaws} `{SqliteMessages} `{ControlEnvironment} {S : Type} `{CredentialStoreLaws S}.
Variable limits : StorageLimits.
Hypothesis Hlimits : limits_wf limits.
Implicit Types (c : Control S) (st : State) (n : nat) (r : ServerRecord)
  (why : Error -> Prop).

(** ** Rules *)

(** The state after a request that was refused: as before, and without outside failures
    the refusal is a specified one. *)
Definition refused_with (calm0 : Prop) why st n (e : Error) c : Prop :=
  ready False st n c /\ (calm0 -> why e).

Lemma ready_weaken calm0 st n c : ready calm0 st n c -> ready False st n c.
Proof. intros (? & ? & ? & ? & [? _] & _). by split_and!. Qed.

Lemma param_lift {A} (x : Result A) calm0 why st n c (Q : A -> Control S -> Prop) :
  ready calm0 st n c -> (forall e, x = Err e -> why e) -> (forall a, x = Ok a -> Q a c) ->
  runs (ST_lift x) c Q (refused_with calm0 why st n).
Proof.
  intros Hr Hwhy HQ. apply runs_lift; [done|]. intros e He. split; [by eapply ready_weaken|auto].
Qed.

Lemma scoped_with {A} (body : Action (Control S) A) calm0 why st n c (Q : A -> Control S -> Prop) :
  ready calm0 st n c ->
  (forall c1, at_work st n calm0 st c1 ->
     runs body c1 (fun a c' => (exists st' k, ready calm0 st' k c') /\ Q a c')
       (failed st n calm0 why)) ->
  runs (scoped body) c Q (refused_with calm0 why st n).
Proof.
  intros Hr Hb. pose proof Hr as (_ & Hst & _). eapply runs_mono.
  - apply (scoped_runs st n calm0 why _ _ Q); [exact Hr|].
    intros c1 Hw _. eapply runs_mono; [by apply Hb| |done].
    intros a c' [(st' & k & Hr' & _) HQ]. split; [by exists st'|done].
  - done.
  - intros e c' (? & ? & ? & ? & ?). by split; [split_and!|].
Qed.

Lemma commit_ready st0 st n calm0 why c (Q : unit -> Control S -> Prop) :
  at_work st0 n calm0 st c -> references_ok st (credentials c) ->
  (forall c', ready calm0 st n c' -> credentials c' = credentials c -> Q tt c') ->
  runs (on_db commit) c Q
    (fun e c' => failed st0 n calm0 why e c' /\ ~ calm0 /\ credentials c' = credentials c).
Proof.
  intros Hw Hok HQ. eapply runs_mono; [apply (work_commit st0 n calm0 why st c Q Hw)|done|done].
  intros c' Hr Hi Hp Hc Hn Hs. apply HQ; [|done]. pose proof Hw as (_ & Hst & _).
  split_and!; try done. by rewrite Hc.
Qed.

Lemma commit_runs st0 st n calm0 why c (Q : unit -> Control S -> Prop) :
  at_work st0 n calm0 st c -> references_ok st (credentials c) ->
  (forall c', ready calm0 st n c' -> credentials c' = credentials c -> Q tt c') ->
  runs (on_db commit) c Q (failed st0 n calm0 why).
Proof.
  intros Hw Hok HQ. eapply runs_mono; [by apply (commit_ready st0 st n calm0 why c Q)|done|].
  by intros e c' [? _].
Qed.

Lemma notify_ready st n calm0 c (Q : unit -> Control S -> Prop) R :
  ready calm0 st n c ->
  (forall c', ready calm0 st (Datatypes.S n) c' -> credentials c' = credentials c ->
     state_db c' = state_db c -> Q tt c') ->
  runs notify_state_changed c Q R.
Proof.
  intros (Hr & Hst & Hok & Hn & Hs & Hp) HQ. unfold runs, notify_state_changed. apply HQ; [|done..].
  split_and!; try done. simpl. congruence.
Qed.

Definition notifications (changed : bool) n : nat := if changed then Datatypes.S n else n.

Lemma notify_if_ready changed st n calm0 c (Q : unit -> Control S -> Prop) R :
  ready calm0 st n c ->
  (forall c', ready calm0 st (notifications changed n) c' -> credentials c' = credentials c ->
     Q tt c') ->
  runs (notify_if changed) c Q R.
Proof.
  intros Hr HQ. destruct changed; [|by apply runs_ret, HQ].
  apply (notify_ready st n calm0); [done|]. intros c' ? ? _. by apply HQ.
Qed.

(** Work on the credential store after the commit: what is referenced is spared, and a
    reliable store stays so. *)
Lemma store_ready {A} (m : Action S A) st n calm0 c (Q : Result A -> Control S -> Prop) R :
  ready calm0 st n c -> (forall key, referenced st key -> leaves key m) ->
  (calm0 -> forall s, reliable s -> reliable (m s).2) ->
  (forall x s, m (credentials c) = (x, s) -> ready calm0 st n (set_credentials s c) ->
     Q x (set_credentials s c)) ->
  runs (attempt (on_store m)) c Q R.
Proof.
  intros (Hr & Hst & Hok & Hn & [He Hc] & Hp) Hl Hrel HQ.
  assert (forall x s, m (credentials c) = (x, s) -> ready calm0 st n (set_credentials s c)) as Hready.
  { intros x s E. split_and!; try done.
    - apply (references_undisturbed st (credentials c)); [done|]. intros key Hk.
      specialize (Hl key Hk (credentials c)). by rewrite E in Hl.
    - split; [done|]. intros Hc0. destruct (Hc Hc0) as [? Hs%(Hrel Hc0)]. rewrite E in Hs. done. }
  apply runs_attempt, runs_on_store; intros x s E; apply HQ; by eauto.
Qed.

(** A write to the credential store during the transaction. *)
Lemma store_work (m : Action S unit) st0 st n calm0 why c (Q : unit -> Control S -> Prop) :
  at_work st0 n calm0 st c -> (forall key, referenced st0 key -> leaves key m) ->
  (calm0 -> forall s, reliable s -> (m s).1 = success /\ reliable (m s).2) ->
  (forall s, m (credentials c) = (success, s) -> at_work st0 n calm0 st (set_credentials s c) ->
     Q tt (set_credentials s c)) ->
  runs (on_store m) c Q (failed st0 n calm0 why).
Proof.
  intros (Hw & Hst & Hst0 & Hok & Hn & [He Hc]) Hl Hrel HQ.
  assert (forall x s, m (credentials c) = (x, s) -> references_ok st0 s) as Hok'.
  { intros x s E. apply (references_undisturbed st0 (credentials c)); [done|]. intros key Hk.
    specialize (Hl key Hk (credentials c)). by rewrite E in Hl. }
  apply runs_on_store.
  - intros [] s E. apply (HQ s E). split_and!; try done; [by eapply Hok'|]. split; [done|].
    intros Hc0. destruct (Hc Hc0) as [? [_ Hs]%(Hrel Hc0)]. rewrite E in Hs. done.
  - intros e s E. split_and!; try done.
    + destruct Hw as (Ht & Hs & Hx & Hp). split_and!; [by apply doomed_committed; left|done|].
      right. simpl. split; [congruence|by left].
    + by eapply Hok'.
    + intros Hc0. destruct (Hc Hc0) as [_ [Hs _]%(Hrel Hc0)]. by rewrite E in Hs.
Qed.

Lemma update_server_work st0 st n calm0 why c r (Q : unit -> Control S -> Prop) :
  at_work st0 n calm0 st c -> server_record_wf r ->
  (forall e, update_server_spec r st = Err e -> why e) ->
  (forall c', at_work st0 n calm0 (put_server r st) c' -> credentials c' = credentials c -> Q tt c') ->
  runs (on_db (ServerRepository.update_in r)) c Q (failed st0 n calm0 why).
Proof.
  intros Hw Hr Hwhy HQ. pose proof Hw as (_ & Hst & _).
  apply (work_db _ _ _ _ _ (update_server_spec r st) st); [done|apply steady_server_update|
    by apply update_server_outcome|intros ? st' Hs; by eapply update_server_valid|done|].
  intros [] st' c' Hs%update_server_inv Hw' Hc. subst st'. by apply HQ.
Qed.

(** An update of a kept server that keeps its name and does not go back is accepted. *)
Lemma update_server_accepted st r r' :
  valid_state st -> kept_server st r -> sr_id r' = sr_id r -> sr_name r' = sr_name r ->
  validate_server_record r' = success -> sr_created_at r' = sr_created_at r ->
  sr_updated_at r <= sr_updated_at r' -> sr_config_revision r <= sr_config_revision r' ->
  update_server_spec r' st = Ok (tt, put_server r' st).
Proof.
  intros Hst Hk Hid Hname Hv Hcr Hup Hrev. destruct (kept_server_id st r Hst Hk) as [_ Hkind].
  destruct Hk as [Hm _]. unfold update_server_spec. rewrite Hv. simpl. unfold find_server.
  rewrite Hid, Hkind, Hm. simpl. rewrite Hcr, Z.eqb_refl. simpl.
  destruct (Z.ltb_spec (sr_updated_at r') (sr_updated_at r)); [lia|].
  destruct (Z.ltb_spec (sr_config_revision r') (sr_config_revision r)); [lia|]. simpl.
  rewrite (name_taken_false r' r); [done|done|by rewrite Hid|done].
Qed.

Lemma kept_server_wf st r : valid_state st -> kept_server st r -> server_valid r.
Proof. intros Hst [Hm _]. by destruct (valid_servers st Hst _ _ Hm). Qed.

(** The assignments of the handlers keep a record valid. *)
Lemma set_states_valid desired actual r : server_valid r -> server_valid (set_server_states desired actual r).
Proof.
  intros [Hwf Hval]. split.
  { destruct Hwf as (? & ? & _ & ?). by split_and!. }
  apply validate_server_iff in Hval
    as (? & ? & ? & ? & ? & ? & ? & ? & ? & ? & ? & ? & ? & ? & ?).
  apply validate_server_iff. cbn. split_and!; try done; unfold kInt32Max; lia.
Qed.

Lemma set_version_valid revision updated_at r :
  server_valid r -> sr_updated_at r <= updated_at -> sr_config_revision r <= revision <= kInt64Max ->
  server_valid (set_server_version revision updated_at r).
Proof.
  intros [Hwf Hval] Hu Hrev. destruct Hwf as (? & ? & ? & Hr64). split.
  { split_and!; try done. cbn. unfold kInt64Max in *. unfold is_uint in *. lia. }
  apply validate_server_iff in Hval
    as (? & ? & ? & ? & ? & ? & ? & ? & ? & ? & ? & ? & ? & ? & ?).
  apply validate_server_iff. cbn. unfold is_uint in *. split_and!; try done; lia.
Qed.

(** ** Enabling and disabling *)

Definition is_active (t : TunnelRecord) : bool :=
  bool_decide (tr_desired_state t = TunnelDesiredState.active).

(** The tunnels in [p] wait for their server again; nothing else is different. *)
Definition suspended (p : TunnelRecord -> bool) st st' : Prop :=
  st_servers st' = st_servers st /\ st_identity st' = st_identity st /\
  forall id, match st_tunnels st !! id with
             | None => st_tunnels st' !! id = None
             | Some t => exists t', st_tunnels st' !! id = Some t' /\
                 if p t then exists u, tr_updated_at t <= u /\ t' = set_tunnel_pending u t else t' = t
             end.

Lemma suspended_ext (p q : TunnelRecord -> bool) st st' :
  (forall id t, st_tunnels st !! id = Some t -> p t = q t) -> suspended p st st' -> suspended q st st'.
Proof.
  intros Hpq (Hs & Hi & Hm). split_and!; try done. intros id. specialize (Hm id).
  destruct (st_tunnels st !! id) as [t|] eqn:E; [|done]. by rewrite <- (Hpq id t E).
Qed.

Lemma set_tunnel_pending_valid u t :
  tunnel_valid t -> tr_updated_at t <= u -> tunnel_valid (set_tunnel_pending u t).
Proof.
  intros Ht Hu. pose proof (tunnel_valid_inv t Ht) as (Hm & Hc & Hs).
  change (set_tunnel_pending u t) with
    (with_tunnel_runtime (tr_desired_state t) TunnelActualState.pending (tr_last_error_code t)
       (tr_last_error_message t) u (tr_last_synced_at t) t).
  apply tunnel_valid_runtime; try done; [lia|]. intros s ?%Hs. lia.
Qed.

Lemma update_tunnel_accepted st t u :
  valid_state st -> st_tunnels st !! str (tr_id t) = Some t -> tr_updated_at t <= u ->
  update_tunnel_spec (set_tunnel_pending u t) st = Ok (tt, put_tunnel (set_tunnel_pending u t) st).
Proof.
  intros Hst Hm Hu. destruct (valid_tunnels st Hst _ _ Hm) as [Hv _].
  pose proof (set_tunnel_pending_valid u t Hv Hu) as [_ Hv'].
  assert (find_tunnel (tr_id t) st = Ok t) as Hf.
  { unfold find_tunnel. rewrite Hm. destruct Hv as [_ Hv]. unfold validate_tunnel_record in Hv.
    by destruct (bool_decide (kind (tr_id t) = tunnel)). }
  unfold update_tunnel_spec. rewrite Hv'. cbn [mbind outcome_bind tr_id set_tunnel_pending].
  rewrite Hf. cbn [mbind outcome_bind tr_created_at tr_updated_at tr_config_revision set_tunnel_pending].
  rewrite Z.eqb_refl. destruct (Z.ltb_spec u (tr_updated_at t)); [lia|]. rewrite Z.ltb_irrefl. cbn [negb orb].
  rewrite (remote_taken_false _ t st) by done. by rewrite (parent_missing_false _ _ t st Hst Hm).
Qed.

Lemma suspend_runs (l : list TunnelRecord) st0 st n calm0 why c Q :
  at_work st0 n calm0 st c -> NoDup (str ∘ tr_id <$> l) ->
  Forall (fun t => st_tunnels st !! str (tr_id t) = Some t) l ->
  (forall l' st' c', at_work st0 n calm0 st' c' -> credentials c' = credentials c ->
     suspended (fun t => bool_decide (str (tr_id t) ∈ str ∘ tr_id <$> l) && is_active t) st st' ->
     Q l' c') ->
  runs (suspend_tunnels l) c Q (failed st0 n calm0 why).
Proof.
  revert st c Q. induction l as [|t l IH]; intros st c Q Hw Hnd Hl HQ.
  { apply runs_ret, (HQ [] st); [done..|]. split_and!; try done. intros id.
    destruct (st_tunnels st !! id) as [t|]; [by exists t|done]. }
  rewrite fmap_cons in Hnd. apply NoDup_cons in Hnd as [Hnt Hnd]. apply Forall_cons in Hl as [Ht Hl].
  (* the rest of the loop, once the tunnel has become [t'] *)
  assert (forall t' c1, tr_id t' = tr_id t -> at_work st0 n calm0 (put_tunnel t' st) c1 ->
    credentials c1 = credentials c ->
    (if is_active t then exists u, tr_updated_at t <= u /\ t' = set_tunnel_pending u t else t' = t) ->
    runs (l' ← suspend_tunnels l; mret (t' :: l')) c1 Q (failed st0 n calm0 why)) as Hrest.
  { intros t' c1 Hid Hw1 Hc1 Hrel. apply runs_bind, (IH (put_tunnel t' st)); [done..| |].
    - rewrite Forall_forall in Hl |- *. intros x Hx. simpl. rewrite lookup_insert_ne; [by apply Hl|].
      rewrite Hid. intros E. apply Hnt. apply list_elem_of_fmap. by exists x.
    - intros l' st' c2 Hw2 Hc2 (Hs & Hi & Hm). apply runs_ret, (HQ _ st'); [done|congruence|].
      split_and!; try done. intros id. specialize (Hm id). simpl in Hm.
      destruct (decide (id = str (tr_id t))) as [->|Hne].
      + rewrite Hid, lookup_insert_eq in Hm. rewrite Ht.
        destruct Hm as (t2 & Hm & Hrel2). exists t2. split; [done|].
        rewrite bool_decide_true by (by left). rewrite Hid, (bool_decide_false _ Hnt) in Hrel2.
        simpl in Hrel2 |- *. by subst t2.
      + rewrite Hid, lookup_insert_ne in Hm by done.
        destruct (st_tunnels st !! id) as [x|] eqn:Ex; [|done].
        pose proof Hw as (_ & Hst & _). destruct (valid_tunnels st Hst _ _ Ex) as [_ Hx].
        destruct Hm as (t2 & Hm & Hrel2). exists t2. split; [done|].
        rewrite (bool_decide_ext _ (str (tr_id x) ∈ str ∘ tr_id <$> l)); [done|].
        rewrite fmap_cons, elem_of_cons. split; [|by right]. intros [E|]; [|done]. simpl in E. congruence. }
  simpl. apply runs_bind. unfold is_active in Hrest. case_bool_decide as Ha.
  - apply runs_bind, (work_time _ _ _ _ _ st); [done|]. intros u c1 Hu Hw1 Hc1. cbv zeta.
    pose proof Hw1 as (_ & Hst & _). apply runs_bind.
    pose proof (update_tunnel_accepted st t u Hst Ht Hu) as Hok.
    destruct (valid_tunnels st Hst _ _ Ht) as [Hv _].
    apply (work_db _ _ _ _ _ (update_tunnel_spec (set_tunnel_pending u t) st) st);
      [done|apply steady_tunnel_update|apply update_tunnel_outcome; [done|]|
       intros ? st' Hs; eapply update_tunnel_valid; [done| |exact Hs]|rewrite Hok; by intros|].
    1-2: by apply set_tunnel_pending_valid.
    intros [] st' c2 Hs Hw2 Hc2. rewrite Hok in Hs. injection Hs as <-.
    apply runs_ret, Hrest; [done|done|congruence|]. by exists u.
  - apply runs_ret, Hrest; [done| |done|done].
    assert (put_tunnel t st = st) as ->; [|done].
    destruct st as [s1 s2 s3]. unfold put_tunnel. simpl in *. f_equal. by apply insert_id.
Qed.

Lemma NoDup_tunnels_of (id : bytes) st :
  valid_state st -> NoDup (str ∘ tr_id <$> tunnels_of id st).
Proof.
  intros Hst. unfold tunnels_of.
  set (l := filter (fun '(_, t) => str (tr_server_id t) = id) (map_to_list (st_tunnels st))).
  assert (Forall (fun x : bytes * TunnelRecord => str (tr_id x.2) = x.1) l) as Hkeys.
  { apply Forall_forall. intros [i t] Hi. subst l.
    apply list_elem_of_filter in Hi as [_ Hi%elem_of_map_to_list].
    simpl. by destruct (valid_tunnels st Hst _ _ Hi) as [_ ->]. }
  assert (order_by_created tr_created_at l ≡ₚ l) as Hp by apply merge_sort_Permutation.
  rewrite Hp. assert (str ∘ tr_id <$> l.*2 = l.*1) as ->.
  { clear Hp. induction Hkeys as [|[i t] l Hk _ IH]; [done|]. csimpl. simpl in Hk. by rewrite Hk, IH. }
  clear Hkeys Hp. subst l. pose proof (NoDup_fst_map_to_list (st_tunnels st)) as Hn.
  induction (map_to_list (st_tunnels st)) as [|[i t] l IH]; [apply NoDup_nil_2|].
  rewrite fmap_cons in Hn. apply NoDup_cons in Hn as [Hi Hn]. rewrite filter_cons.
  case_decide; [|by apply IH]. rewrite fmap_cons.
  apply NoDup_cons. split; [|by apply IH]. intros Hx. apply Hi.
  apply list_elem_of_fmap in Hx as (y & -> & Hy). apply list_elem_of_filter in Hy as [_ Hy].
  by apply list_elem_of_fmap_2.
Qed.

(** What [server_enable] and [server_disable] are asked for: the server and its next
    revision. *)
Definition switch_request (desired : ServerDesiredState.t) (p : Json) st : Result (ServerRecord * Z) :=
  identifier ← identifier_param p;
  r ← resolve_server_spec identifier st;
  _ ← list_by_server_spec (max_tunnels limits) (sr_id r) st;
  revision ← (if bool_decide (sr_desired_state r = desired) then Ok (sr_config_revision r)
              else next_revision (sr_config_revision r));
  Ok (r, revision).

(** The state afterwards. *)
Definition switched (desired : ServerDesiredState.t) (actual : ServerRecord -> ServerActualState.t)
    r (revision : Z) st st' : Prop :=
  if bool_decide (sr_desired_state r = desired) then st' = st
  else exists updated_at, sr_updated_at r <= updated_at /\
    suspended (fun t => bool_decide (str (tr_server_id t) = str (sr_id r)) && is_active t)
      (put_server (set_server_version revision updated_at (set_server_states desired (actual r) r)) st)
      st'.

Lemma next_revision_range current revision :
  next_revision current = Ok revision -> revision = current + 1 /\ current < kInt64Max.
Proof.
  unfold next_revision, kInt64Max. destruct (Z.leb_spec (2 ^ 63 - 1) current); [done|]. intros [= <-]. lia.
Qed.

Lemma tunnels_of_put r st (id : bytes) : tunnels_of id (put_server r st) = tunnels_of id st.
Proof. done. Qed.

Lemma references_suspended p st st' (s : S) :
  suspended p st st' -> references_ok st s -> references_ok st' s.
Proof. intros (E & _). by apply references_tunnels. Qed.

Lemma switch_server_runs desired actual p st n calm0 c :
  ready calm0 st n c ->
  runs (switch_server limits desired actual p) c
    (fun _ c' => exists r revision st', switch_request desired p st = Ok (r, revision) /\
       kept_server st r /\ switched desired actual r revision st st' /\
       ready calm0 st' (notifications (negb (bool_decide (sr_desired_state r = desired))) n) c')
    (refused_with calm0 (fun e => switch_request desired p st = Err e) st n).
Proof.
  intros Hr. unfold switch_server. apply runs_bind, param_lift; [done|..].
  { intros e E. unfold switch_request. by rewrite E. }
  intros identifier Eid. apply scoped_with; [done|]. intros c1 Hw. pose proof Hw as (_ & Hst & _).
  apply runs_bind, (work_resolve_server _ _ _ _ _ st); [done|..].
  { intros e E. unfold switch_request. rewrite Eid. cbn. by rewrite E. }
  intros r c2 Er Hk Hw2 _. apply runs_bind, (work_list_by_server _ _ _ _ _ Hlimits _ st); [done|..].
  { intros e E. unfold switch_request. rewrite Eid. cbn. rewrite Er. cbn. by rewrite E. }
  intros c3 El Hw3 _.
  assert (Ereq : switch_request desired p st =
    revision ← (if bool_decide (sr_desired_state r = desired) then Ok (sr_config_revision r)
                else next_revision (sr_config_revision r));
    Ok (r, revision)).
  { unfold switch_request. rewrite Eid. cbn. rewrite Er. cbn. by rewrite El. }
  pose proof Hw3 as (_ & _ & _ & Hok & _). unfold switched.
  case_bool_decide as Hd; cbn [negb] in *; cbv zeta; cbn [negb]; apply runs_bind.
  - apply runs_ret, runs_bind, (commit_runs st st); [done..|]. intros c4 Hr4 _.
    apply runs_bind, (notify_if_ready false st n calm0); [done|]. intros c5 Hr5 _. apply runs_ret.
    split; [by exists st, n|]. exists r, (sr_config_revision r), st.
    rewrite Ereq, (bool_decide_true _ Hd). by split_and!.
  - apply runs_bind, (work_lift _ _ _ _ _ st); [done|..].
    { intros e E. rewrite Ereq, E. done. }
    intros revision Erev. destruct (next_revision_range _ _ Erev) as [-> Hmax].
    apply runs_bind, (work_time _ _ _ _ _ st); [done|]. intros u c4 Hu Hw4 _. cbv zeta.
    set (r' := set_server_version _ u _).
    assert (server_valid r') as [Hwf Hv].
    { apply set_version_valid; [apply set_states_valid; by eapply kept_server_wf|done|cbn; lia]. }
    assert (update_server_spec r' st = Ok (tt, put_server r' st)) as Hup.
    { apply (update_server_accepted st r); try done. cbn. lia. }
    apply runs_bind, (update_server_work st st); [done|done|rewrite Hup; by intros|]. intros c5 Hw5 _.
    apply runs_bind, (suspend_runs _ st (put_server r' st)); [done|by apply NoDup_tunnels_of|..].
    { apply Forall_forall. intros t Ht. by apply (elem_of_tunnels_of _ st t Hst) in Ht as [? _]. }
    intros l' st' c6 Hw6 _ Hsus. apply runs_ret, runs_bind, (commit_runs st st'); [done|..].
    { eapply references_suspended; [exact Hsus|]. pose proof Hw6 as (_ & _ & _ & Hok6 & _).
      by apply (references_same st _ r r'); [..|intros []]. }
    intros c7 Hr7 _. apply runs_bind, (notify_if_ready true st' n calm0); [done|]. intros c8 Hr8 _.
    apply runs_ret. split; [by eexists _, _|]. exists r, (sr_config_revision r + 1), st'.
    rewrite Ereq, (bool_decide_false _ Hd), Erev. split_and!; try done. exists u. split; [done|].
    eapply suspended_ext; [|exact Hsus]. intros id t Hm. simpl in Hm. cbv beta. f_equal.
    apply bool_decide_ext.
    destruct (valid_tunnels st Hst _ _ Hm) as [_ Hid]. rewrite list_elem_of_fmap. split.
    + intros (t2 & E & Ht2). apply (elem_of_tunnels_of _ st t2 Hst) in Ht2 as [Hm2 Hs2]. simpl in E.
      assert (t2 = t) as -> by congruence. done.
    + intros Hs. exists t. split; [done|]. apply (elem_of_tunnels_of _ st t Hst). by rewrite Hid.
Qed.

(** ** Clean-up of credentials *)

(** References are valid texts of a record. *)
Lemma slot_reference_valid id k key field :
  canonical server (str id) -> slot_of id k key -> validate_reference (Some key) field = success.
Proof. apply slot_text_valid. Qed.

Lemma set_refs_valid r credential ca certificate private_key :
  server_valid r ->
  validate_reference credential "credential reference" = success ->
  validate_reference ca "CA credential reference" = success ->
  validate_reference certificate "client certificate reference" = success ->
  validate_reference private_key "client private-key reference" = success ->
  (is_Some certificate <-> is_Some private_key) ->
  server_valid (set_server_refs credential ca certificate private_key r).
Proof.
  intros [Hwf Hval] Hc Hca Hce Hpk Hpair. split; [done|].
  apply validate_server_iff in Hval
    as (? & ? & ? & ? & ? & ? & ? & ? & ? & ? & ? & ? & ? & ? & ?).
  apply validate_server_iff. cbn. split_and!; try done; lia.
Qed.

(** Every candidate is a slot of the server. *)
Definition own_reference (id : Id) (k : ServerCredentialKind) (reference : option bytes) : Prop :=
  forall key, reference = Some key -> slot_of id k key.

Lemma kept_own_reference st (s : S) r k :
  references_ok st s -> kept_server st r -> own_reference (sr_id r) k (credential_reference r k).
Proof. intros Hok Hr key Hk. by eapply references_kept. Qed.

Lemma candidates_valid id k old :
  canonical server (str id) -> own_reference id k old ->
  Forall (fun key => validate_key key = success) (cleanup_candidates id k old).
Proof.
  intros Hc Hold. apply Forall_forall. intros key Hin. apply (slot_of_valid id k); [done|].
  apply cleanup_candidates_slot in Hin as [E|]; [by apply Hold|done].
Qed.

(** A clean-up of a reliable store succeeds and leaves nothing but the retained slot. *)
Lemma cleanup_reliable id k old retained (s : S) :
  reliable s -> canonical server (str id) -> kind id = server -> own_reference id k old ->
  exists s', cleanup_server_credential_kind id k old retained s = (success, s') /\ reliable s' /\
    forall key, slot_of id k key -> retained <> Some key -> visible s' !! key = None.
Proof.
  intros Hs Hc Hk Hold. unfold cleanup_server_credential_kind. rewrite bool_decide_true by done.
  destruct (cleanup_loop_reliable retained (cleanup_candidates id k old) s Hs
    (candidates_valid id k old Hc Hold)) as (s' & E & Hs' & Hv).
  exists s'. unfold mbind, ST_bind. simpl. rewrite E. split_and!; [done..|].
  intros key Hslot. apply Hv. apply cleanup_candidates_slot. by right.
Qed.

(** A clean-up after the commit. *)
Lemma cleanup_ready id k old retained st n calm0 c (Q : Result unit -> Control S -> Prop) R :
  ready calm0 st n c -> canonical server (str id) -> kind id = server -> own_reference id k old ->
  (forall r, kept_server st r -> str (sr_id r) = str id -> credential_reference r k = retained) ->
  (forall x s, cleanup_server_credential_kind id k old retained (credentials c) = (x, s) ->
     ready calm0 st n (set_credentials s c) ->
     (calm0 -> forall key, slot_of id k key -> retained <> Some key -> visible s !! key = None) ->
     Q x (set_credentials s c)) ->
  runs (attempt (on_store (cleanup_server_credential_kind id k old retained))) c Q R.
Proof.
  intros Hr Hc Hk Hold Hret HQ. pose proof Hr as (_ & Hst & Hok & _ & [_ Hcalm] & _).
  apply (store_ready _ st n calm0); [done|..].
  - intros key Hkey. by apply (cleanup_spares st (credentials c) id k old retained key).
  - intros _ s Hs. by destruct (cleanup_reliable id k old retained s Hs Hc Hk Hold) as (s' & -> & ? & _).
  - intros x s E Hr'. apply (HQ x s E Hr'). intros Hc0. destruct (Hcalm Hc0) as [_ Hs].
    destruct (cleanup_reliable id k old retained _ Hs Hc Hk Hold) as (s' & E' & _ & Hv). rewrite E in E'. by injection E' as _ <-.
Qed.

(** ** Login *)

Definition login_request (p : Json) st : Result (ServerRecord * bytes * Z) :=
  '(identifier, secret) ← login_params p;
  r ← resolve_server_spec identifier st;
  revision ← next_revision (sr_config_revision r);
  _ ← list_by_server_spec (max_tunnels limits) (sr_id r) st;
  Ok (r, secret, revision).

(** The record after a login. *)
Definition logged_in (revision updated_at : Z) r : ServerRecord :=
  set_server_version revision updated_at
    (set_server_states (sr_desired_state r)
       (if bool_decide (sr_desired_state r = ServerDesiredState.enabled)
        then ServerActualState.disconnected else ServerActualState.disabled)
       (set_server_refs (Some (next_credential_key r)) (sr_ca_credential_ref r)
          (sr_client_certificate_ref r) (sr_client_private_key_ref r) r)).

Lemma login_secret_valid p identifier secret :
  login_params p = Ok (identifier, secret) -> validate_secret secret = success.
Proof.
  unfold login_params, mbind, outcome_bind. destruct (validate_params _ _ _); [|done].
  destruct (eqb _ _); [done|]. destruct (required_string p "identifier"); [|done].
  destruct (required_string p _) as [secret'|]; [|done]. unfold validate_secret.
  destruct (_ || _ || _) eqn:E; [done|]. intros [= _ ->].
  apply orb_false_iff in E as [-> ->]. done.
Qed.

Lemma logged_in_valid st r revision u :
  valid_state st -> kept_server st r ->
  sr_updated_at r <= u -> revision = sr_config_revision r + 1 -> sr_config_revision r < kInt64Max ->
  server_valid (logged_in revision u r).
Proof.
  intros Hst Hk Hu -> Hmax. pose proof (kept_server_wf st r Hst Hk) as Hv.
  destruct (kept_server_id st r Hst Hk) as [Hc _].
  apply set_version_valid; [|done|cbn; lia]. apply set_states_valid.
  pose proof Hv as [_ Hval]. apply validate_server_iff in Hval
    as (? & ? & ? & ? & ? & ? & ? & ? & ? & _).
  apply set_refs_valid; try done. apply (slot_reference_valid (sr_id r) psk); [done|apply next_key_slot].
Qed.

(** What a login that returns a result has done. *)
Definition login st n calm0 r (secret : bytes) (revision : Z) (c' : Control S) : Prop :=
  exists u, sr_updated_at r <= u /\
    ready calm0 (put_server (logged_in revision u r) st) (Datatypes.S n) c' /\
    visible (credentials c') !! next_credential_key r = Some secret /\
    durable (credentials c') !! next_credential_key r = Some secret /\
    (calm0 -> forall key, slot_of (sr_id r) psk key -> key <> next_credential_key r ->
       visible (credentials c') !! key = None).

(** The references of the new record are in the store once the secret is. *)
Lemma login_references st r revision u (s : S) :
  kept_server st r -> references_ok st s -> held (next_credential_key r) s ->
  references_ok (put_server (logged_in revision u r) st) s.
Proof.
  intros Hk Hok Hheld. apply references_put; [done|]. intros k key Href. destruct k.
  1: { injection Href as <-. split; [apply (next_key_slot r psk)|done]. }
  1: destruct (references_kept st s r ca_certificate key Hok Hk Href); auto.
  1: destruct (references_kept st s r client_certificate key Hok Hk Href); auto.
  destruct (references_kept st s r client_private_key key Hok Hk Href); auto.
Qed.

(** After the commit: the slot used before is emptied and the manager is notified. *)
Lemma login_end_runs st n calm0 r secret revision u count c R :
  ready calm0 (put_server (logged_in revision u r) st) n c ->
  canonical server (str (sr_id r)) -> kind (sr_id r) = server -> sr_updated_at r <= u ->
  own_reference (sr_id r) psk (sr_credential_ref r) ->
  visible (credentials c) !! next_credential_key r = Some secret ->
  durable (credentials c) !! next_credential_key r = Some secret ->
  runs (_ ← attempt (on_store (cleanup_server_credentials (sr_id r) (sr_credential_ref r)
                                 (Some (next_credential_key r))));
        _ ← notify_state_changed;
        mret (json_object [("server", server_json (logged_in revision u r) count)]%string)) c
    (fun _ => login st n calm0 r secret revision) R.
Proof.
  intros Hr Hcan Hkind Hu Hown Hvis Hdur. set (r' := logged_in revision u r) in *.
  set (key := next_credential_key r) in *. apply runs_bind.
  apply (cleanup_ready (sr_id r) psk (sr_credential_ref r) (Some key) (put_server r' st) n calm0);
    [done..| |].
  { intros x [Hx _] Hid. simpl in Hx. rewrite Hid in Hx. simpl in Hx.
    rewrite lookup_insert_eq in Hx. by injection Hx as <-. }
  intros x s' Ecl Hr1 Hgone. apply runs_bind, (notify_ready (put_server r' st) n calm0); [done|].
  intros c2 Hr2 Hc2 _. apply runs_ret. exists u. rewrite Hc2. simpl.
  (* the new slot is retained *)
  pose proof (leaves_cleanup key (sr_id r) psk (sr_credential_ref r) (Some key)
    (or_introl eq_refl) (credentials c)) as Hl. rewrite Ecl in Hl. destruct Hl as [Hld Hlv].
  simpl in Hld, Hlv. fold r'. fold key. split_and!; try done.
  - destruct Hlv as [->| ->]; done.
  - congruence.
  - intros Hc0 key' Hs' Hne. apply Hgone; [done..|]. congruence.
Qed.

(** After a failed commit: the new slot is emptied again. *)
Lemma login_undo_runs {A} st n calm0 why key e c (Q : A -> Control S -> Prop) :
  failed st n calm0 why e c -> ~ referenced st key ->
  runs (_ ← attempt (on_store (credential_remove key)); ST_fail e) c Q (failed st n calm0 why).
Proof.
  intros (Hd & Hok & Hn & He & Hrest) Hfresh. apply runs_bind, runs_attempt.
  assert (forall x s', credential_remove key (credentials c) = (x, s') ->
    failed st n calm0 why e (set_credentials s' c)) as Hend.
  { intros x s' E. split_and!; try done.
    apply (references_undisturbed st (credentials c)); [done|]. intros key' Hk'.
    assert (key' <> key) as Hne by (by intros ->).
    pose proof (remove_other key (credentials c) key' Hne) as Hu. by rewrite E in Hu. }
  apply runs_on_store; intros x s' E; by apply Hend in E.
Qed.

Lemma server_login_runs p st n calm0 c :
  ready calm0 st n c ->
  runs (server_login limits p) c
    (fun _ c' => exists r secret revision, login_request p st = Ok (r, secret, revision) /\
       kept_server st r /\ login st n calm0 r secret revision c')
    (refused_with calm0 (fun e => login_request p st = Err e) st n).
Proof.
  intros Hr. unfold server_login. apply runs_bind, param_lift; [done|..].
  { intros e E. unfold login_request. by rewrite E. }
  intros [identifier secret] Eps. pose proof (login_secret_valid _ _ _ Eps) as Hsecret.
  apply scoped_with; [done|]. intros c1 Hw. pose proof Hw as (_ & Hst & _).
  apply runs_bind, (work_resolve_server _ _ _ _ _ st); [done|..].
  { intros e E. unfold login_request. rewrite Eps. cbn. by rewrite E. }
  intros r c2 Er Hk Hw2 _. destruct (kept_server_id st r Hst Hk) as [Hcan Hkind]. cbv zeta.
  apply runs_bind, (work_lift _ _ _ _ _ st); [done|..].
  { intros e E. unfold login_request. rewrite Eps. cbn. rewrite Er. cbn. by rewrite E. }
  intros revision Erev. destruct (next_revision_range _ _ Erev) as [Hrev Hmax].
  apply runs_bind, (work_time _ _ _ _ _ st); [done|]. intros u c3 Hu Hw3 _. cbv zeta.
  fold (logged_in revision u r). set (r' := logged_in revision u r). set (key := next_credential_key r).
  assert (server_valid r') as [Hwf Hv] by (by eapply (logged_in_valid st)).
  assert (update_server_spec r' st = Ok (tt, put_server r' st)) as Hup.
  { apply (update_server_accepted st r); try done. cbn. lia. }
  apply runs_bind, (update_server_work st st); [done|done|rewrite Hup; by intros|]. intros c4 Hw4 _.
  assert (Ereq : login_request p st =
    _ ← list_by_server_spec (max_tunnels limits) (sr_id r') (put_server r' st); Ok (r, secret, revision)).
  { unfold login_request. rewrite Eps. cbn. rewrite Er. cbn. by rewrite Erev. }
  apply runs_bind, (work_list_by_server _ _ _ _ _ Hlimits _ (put_server r' st)); [done|..].
  { intros e E. by rewrite Ereq, E. }
  intros c5 El Hw5 _. rewrite El in Ereq. pose proof Hw5 as (_ & _ & _ & Hok5 & _).
  pose proof (next_key_unreferenced st _ r psk Hst Hok5 Hk) as Hfresh.
  apply runs_bind, (store_work _ st (put_server r' st)); [done|..].
  { intros key' Hk'. apply leaves_put. by intros ->. }
  { intros _ s Hs. apply put_reliable; [done| |done].
    apply (slot_of_valid (sr_id r) psk); [done|apply next_key_slot]. }
  intros s Hput Hw6. pose proof Hw6 as (_ & _ & _ & Hok6 & _). simpl in Hok6.
  destruct (put_success key secret (credentials c5)) as [Hvis Hdur]; [by rewrite Hput|].
  rewrite Hput in Hvis, Hdur. simpl in Hvis, Hdur. apply runs_bind, runs_attempt.
  eapply runs_mono; [apply (commit_ready st (put_server r' st) n calm0 (fun e => login_request p st = Err e) _
      (fun _ c' => ready calm0 (put_server r' st) n c' /\ credentials c' = s)); [done| |by intros]|..].
  { apply login_references; [done..|]. split; by eexists. }
  - intros [] c7 [Hr7 Hc7]. eapply runs_mono; [apply (login_end_runs st n calm0 r secret revision u);
      try done; try (by rewrite Hc7); by apply (kept_own_reference st (credentials c5) r psk)| |by intros].
    intros j c' Hl. split; [|by exists r, secret, revision]. destruct Hl as (? & _ & ? & _). by eexists _, _.
  - intros e c7 (Hf & _). by apply login_undo_runs.
Qed.

(** *** The secrets after a failed login *)

Lemma silent_resolve_server identifier : silent (S := S) (resolve_server identifier).
Proof.
  apply silent_bind; [by destruct (Id_parse_kind identifier server); apply silent_db|]. intros r.
  case_bool_decide; auto with silent.
Qed.

Lemma silent_update_time previous : silent (S := S) (update_time previous).
Proof. apply silent_bind; auto with silent. Qed.

Lemma kept_scoped {A} (body : Action (Control S) A) st s0 n calm0 c :
  ready calm0 st n c -> secrets_kept st s0 (credentials c) ->
  (forall c1, at_work st n calm0 st c1 -> credentials c1 = credentials c ->
     runs body c1 (fun _ _ => True) (fun _ c' => secrets_kept st s0 (credentials c'))) ->
  runs (scoped body) c (fun _ _ => True) (fun _ c' => secrets_kept st s0 (credentials c')).
Proof.
  intros (Hr & Hst & Hok & Hn & [Hen Hc] & Hpc) Hs Hbody. unfold runs, scoped.
  destruct (begin_working st (state_db c) Hr) as [Hb Hff].
  destruct (begin_transaction (state_db c)) as [[[]|e] db]; [|done]. destruct Hb as [Hw _].
  specialize (Hbody (set_db db c)). unfold runs in Hbody.
  assert (at_work st n calm0 st (set_db db c)) as Hw'.
  { split_and!; try done. split; [done|]. intros Hc0. destruct (Hc Hc0). split; [by apply Hff|done]. }
  specialize (Hbody Hw' eq_refl). by destruct (body (set_db db c)) as [[a|e] c'].
Qed.

(** A login that fails has written to the slot that is not in use, at most. *)
Lemma server_login_kept p st n calm0 c :
  ready calm0 st n c ->
  runs (server_login limits p) c (fun _ _ => True)
    (fun _ c' => secrets_kept st (credentials c) (credentials c')).
Proof.
  intros Hr. pose proof Hr as (_ & Hst & Hok & _). unfold server_login.
  apply runs_bind, runs_lift; [|by intros; apply secrets_kept_refl]. intros [identifier secret] _.
  apply (kept_scoped _ st _ n calm0); [done|apply secrets_kept_refl|]. intros c1 Hw Hc1.
  eapply kept_step; [apply silent_resolve_server|apply (work_resolve_server st n calm0 (fun _ => True) _ st c1
    (fun r _ => kept_server st r)); by intros|rewrite Hc1; apply secrets_kept_refl|].
  intros r c2 Hk Hs2. cbv zeta. set (key := next_credential_key r).
  pose proof (next_key_unreferenced st _ r psk Hst Hok Hk : ~ referenced st key) as Hfresh.
  assert (forall key', referenced st key' -> key' <> key) as Hother by (by intros key' ? ->).
  apply kept_silent; [apply silent_lift|done|]. intros revision c3 Hs3.
  apply kept_silent; [apply silent_update_time|done|]. intros u c4 Hs4.
  apply kept_silent; [apply silent_db|done|]. intros _ c5 Hs5.
  apply kept_silent; [apply silent_db|done|]. intros l c6 Hs6.
  apply kept_store; [intros key' Hk'; by apply leaves_put, Hother|done|]. intros _ c7 Hs7.
  apply kept_silent; [auto with silent|done|]. intros [[]|e] c8 Hs8.
  - apply kept_unfailing. auto 10 with silent.
  - apply runs_bind, runs_attempt. unfold runs at 1, on_store.
    pose proof (fun key' Hk' => leaves_remove key key' (Hother key' Hk') (credentials c8)) as Hl.
    destruct (credential_remove key (credentials c8)) as [[[]|e'] s']; cbn in Hl |- *;
      by eapply secrets_kept_trans.
Qed.

(** ** Operations with a transaction of their own *)

Lemma transaction_ready {A} (m action : Action Database A) (spec : Result (A * State)) st n calm0 c
    (Q : A -> Control S -> Prop) (R : Error -> Control S -> Prop) :
  ready calm0 st n c -> outcome_of m (encode st) = encode_result spec ->
  (idle (state_db c) -> poisoned_ (state_db c) = false ->
     settled (outcome_of m (tables (state_db c))) (state_db c) (action (state_db c)).1
       (action (state_db c)).2) ->
  (poisoned_ (state_db c) = true -> exists e, action (state_db c) = (Err e, state_db c)) ->
  (forall a st', spec = Ok (a, st') -> valid_state st' /\ references_ok st' (credentials c)) ->
  (forall a st' c', spec = Ok (a, st') -> ready calm0 st' n c' -> credentials c' = credentials c ->
     Q a c') ->
  (forall e c', (calm0 -> spec = Err e) -> (calm0 -> ready calm0 st n c') -> ready False st n c' ->
     credentials c' = credentials c -> R e c') ->
  runs (on_db action) c Q R.
Proof.
  intros Hr Ho Hset Hpois Hv HQ HR. pose proof Hr as (Hrest & Hst & Hok & Hn & [He Hc] & Hp).
  unfold runs, on_db. destruct (poisoned_ (state_db c)) eqn:Hpo.
  { destruct (Hpois eq_refl) as [e ->].
    apply HR; [intros ?%Hp; congruence|intros ?%Hp; congruence| |done]. by split_and!. }
  destruct (at_rest_usable st _ Hrest Hpo) as [Ht Hi]. specialize (Hset Hi eq_refl).
  rewrite Ht, Ho in Hset. destruct (action (state_db c)) as [[a|e] db']; simpl in Hset;
    destruct Hset as [Hset Hff].
  - destruct Hset as (Hs & Hi' & Hp'). destruct spec as [[b st']|]; [|done]. simpl in Hs.
    injection Hs as -> Ht'. destruct (Hv a st' eq_refl). apply (HQ a st'); [done| |done].
    split_and!; try done; [by apply idle_at_rest|]. split; [done|]. intros Hc0. destruct (Hc Hc0).
    split; [by apply Hff|done].
  - destruct Hset as (Hcm & Hx & Hd & Hspec). rewrite Ht in Hcm.
    assert (ready False st n (set_db db' c)) as Hrf by (by split_and!).
    apply HR; [..|done|done].
    + intros Hc0. destruct (Hc Hc0) as [Hf _]. destruct (Hspec Hf) as (Es & _ & _).
      destruct spec as [[??]|]; simpl in Es; congruence.
    + intros Hc0. destruct (Hc Hc0) as [Hf Hrel]. destruct (Hspec Hf) as (_ & Hp' & _).
      split_and!; try done. split; [done|]. intros _. split; [by apply Hff|done].
Qed.

Lemma committing_ready {A} (m : Action Database A) (spec : Result (A * State)) st n calm0 c
    (Q : A -> Control S -> Prop) (R : Error -> Control S -> Prop) :
  ready calm0 st n c -> steady m -> outcome_of m (encode st) = encode_result spec ->
  (forall a st', spec = Ok (a, st') -> valid_state st' /\ references_ok st' (credentials c)) ->
  (forall a st' c', spec = Ok (a, st') -> ready calm0 st' n c' -> credentials c' = credentials c ->
     Q a c') ->
  (forall e c', (calm0 -> spec = Err e) -> (calm0 -> ready calm0 st n c') -> ready False st n c' ->
     credentials c' = credentials c -> R e c') ->
  runs (on_db (with_transaction (and_commit m))) c Q R.
Proof.
  intros Hr Hm Ho. apply (transaction_ready m); [done..|by apply with_transaction_atomic|].
  intros Hp. unfold with_transaction, begin_transaction. rewrite Hp. by eexists.
Qed.

Lemma checkpoint_ready st n calm0 c (Q : Result unit -> Control S -> Prop) R :
  ready calm0 st n c ->
  (forall x c', ready calm0 st n c' -> credentials c' = credentials c -> Q x c') ->
  runs (attempt (on_db checkpoint)) c Q R.
Proof.
  intros (Hr & Hst & Hok & Hn & [He Hc] & Hp) HQ. apply runs_attempt. unfold runs, on_db.
  pose proof (checkpoint_rest st (state_db c) Hr) as Hcr.
  assert (fault_free (state_db c) -> fault_free (checkpoint (state_db c)).2) as Hff.
  { unfold checkpoint. destruct (poisoned_ _); [done|]. destruct (bool_decide _); [done|].
    unfold mbind, ST_bind, run.
    destruct (pop_fault_spec (state_db c)) as (f & db1 & -> & _ & _ & Hf & _). intros Hf0.
    destruct (Hf Hf0) as [-> Hf1]. simpl. by destruct checkpoint_incomplete. }
  assert (poisoned_ (checkpoint (state_db c)).2 = poisoned_ (state_db c)) as Hpo.
  { unfold checkpoint. destruct (poisoned_ _) eqn:E; [done|]. destruct (bool_decide _); [done|].
    unfold mbind, ST_bind, run.
    destruct (pop_fault_spec (state_db c)) as (f & db1 & -> & _ & (_ & _ & Hp1) & _).
    destruct f as [f|]; simpl.
    - unfold after_fault. destruct (fault_rolls_back f); simpl; congruence.
    - destruct checkpoint_incomplete; simpl; congruence. }
  assert (ready calm0 st n (set_db (checkpoint (state_db c)).2 c)) as Hready.
  { split_and!; try done; [|intros Hc0; simpl; rewrite Hpo; auto]. split; [done|].
    intros Hc0. destruct (Hc Hc0). split; simpl; auto. }
  destruct (checkpoint (state_db c)) as [[a|e] db]; by apply HQ.
Qed.

(** ** Adding a server, the identity of the daemon *)

Abbreviation any := (fun _ : Error => True).

Lemma server_add_sound : sound_handler (server_add limits).
Proof.
  intros p st n c Hr. apply runs_bind, (ready_lift _ st n); [done|]. intros _ _.
  apply runs_bind, (ready_lift _ st n); [done|]. intros text _.
  apply runs_bind, (ready_lift _ st n); [done|]. intros name _.
  apply runs_bind, (ready_lift _ st n); [done|]. intros endpoint Hend%endpoint_parsed_wf.
  (* the id and the time *)
  apply runs_bind. unfold generate_id. apply runs_bind. unfold runs at 1, random_bytes.
  set (c1 := mkControl _ _ _ _ _). assert (ready False st n c1) as Hr1.
  { destruct Hr as (? & ? & ? & ? & [Hen ?] & ?). split_and!; try done. split; [|done].
    intros m l. apply (Hen (Datatypes.S m)). }
  apply (ready_lift _ st n); [done|]. intros id Hid.
  apply generate_id_wf in Hid as [Hkind Hidwf]; [|intros l; by apply Hr].
  apply runs_bind. unfold runs at 1, unix_milliseconds_now. set (c2 := mkControl _ _ _ _ _).
  assert (ready False st n c2) as Hr2 by exact Hr1. cbv zeta.
  match goal with |- context [ServerRepository.create _ ?r'] => set (r := r') end.
  pose proof Hr2 as (_ & Hst & Hok & _).
  assert (server_record_wf r) as Hwf by (by split_and!).
  apply runs_bind. unfold ServerRepository.create.
  apply (committing_ready _ (create_server_spec (max_servers limits) r st) st n False);
    [done|apply steady_server_create|by apply create_server_outcome|..].
  - intros [] st' Hs. split; [by eapply create_server_valid|].
    apply create_server_inv in Hs as [-> _]. apply references_put; [done|]. by intros [].
  - intros [] st' c3 _ Hr3 _. apply runs_bind, (sound_notify st' n); [done|]. intros c4 Hr4.
    apply runs_ret. by apply (accept_changed _ st').
  - done.
Qed.

Lemma client_id_inv random st i st' :
  client_id_spec random st = Ok (i, st') ->
  st_servers st' = st_servers st /\ st_tunnels st' = st_tunnels st.
Proof.
  unfold client_id_spec. destruct (st_identity st); [by intros [= _ <-]|].
  destruct (Id_generate random client); [|done]. by intros [= _ <-].
Qed.

Lemma daemon_identity_sound : sound_handler (S := S) daemon_identity.
Proof.
  intros p st n c Hr. apply runs_bind, (ready_lift _ st n); [done|]. intros _ _.
  apply runs_bind. unfold runs at 1, random_bytes. set (random := entropy_ c 0%nat).
  set (c1 := mkControl _ _ _ _ _). assert (ready False st n c1) as Hr1.
  { destruct Hr as (? & ? & ? & ? & [Hen ?] & ?). split_and!; try done. split; [|done].
    intros m l. apply (Hen (Datatypes.S m)). }
  pose proof Hr1 as (_ & Hst & Hok & _).
  assert (forall l, random = Some l -> length l = 16%nat) as Hlen by (intros l; apply Hr).
  apply runs_bind, (transaction_ready (client_id_body random) _ (client_id_spec random st) st n False);
    [done|by apply client_id_outcome|..].
  - intros Hi Hp. apply (with_transaction_failing (client_id_body random)); try done.
    apply steady_client_id.
  - intros Hp. unfold StateRepository.client_id, with_transaction, begin_transaction. rewrite Hp.
    by eexists.
  - intros i st' Hs. split; [by eapply client_id_valid|].
    apply client_id_inv in Hs as [E _]. by apply (references_tunnels st).
  - intros i st' c2 Hs Hr2 _. apply runs_ret. exists st', n. split_and!; [done|by left|].
    intros _. by eapply client_id_inv.
  - done.
Qed.
End Servers.
