(* ===== verification/ControlSagas.v ===== *)
(** * Logging out, removing and reconfiguring a server

    The handlers that go on working on the credential store after their transaction has
    been committed: [server_logout], [server_remove] and [server_update]. *)
From stdpp Require Import sorting.
From S2P Require Import Prelude Common Ids Text Endpoint Utf8 Models Rows Database Repository StorageSpec StorageRun Storage Json IpcProtocol Credentials Control ControlRun ControlHandlers ControlServers.

Section Sagas.
Context `{AsioAddressLaws} `{SqliteMessages} `{ControlEnvironment} {S : Type} `{CredentialStoreLaws S}.
Variable limits : StorageLimits.
Hypothesis Hlimits : limits_wf limits.
Implicit Types (c : Control S) (st : State) (n : nat) (r : ServerRecord).

(** No slot of these kinds is in the store. *)
Definition cleaned (id : Id) (ks : list ServerCredentialKind) (s : S) : Prop :=
  forall k key, k ∈ ks -> slot_of id k key -> visible s !! key = None.

(** Slots of one kind are no candidates of another. *)
Lemma other_kind_candidates id k k' old key :
  canonical server (str id) -> own_reference id k old -> slot_of id k' key -> k' <> k ->
  key ∉ cleanup_candidates id k old.
Proof.
  intros Hc Hold Hs Hne Hin. apply Hne.
  assert (slot_of id k key) as Hs'.
  { apply cleanup_candidates_slot in Hin as [E|]; [by apply Hold|done]. }
  by destruct (slot_of_inj id id k' k key Hc Hc Hs Hs').
Qed.

Lemma cleaned_cleanup id k ks old (s : S) x s' :
  reliable s -> canonical server (str id) -> kind id = server -> own_reference id k old ->
  cleanup_server_credential_kind id k old None s = (x, s') -> cleaned id ks s ->
  cleaned id (k :: ks) s'.
Proof.
  intros Hs Hc Hk Hold E Hcl.
  destruct (cleanup_reliable id k old None s Hs Hc Hk Hold) as (s2 & E2 & _ & Hv).
  rewrite E in E2. injection E2 as -> <-. intros k' key Hin Hslot.
  destruct (decide (k' = k)) as [->|Hne]; [by apply Hv|].
  assert (k' ∈ ks) as Hin' by (by apply elem_of_cons in Hin as [|]).
  pose proof (leaves_cleanup key id k old None
    (or_intror (other_kind_candidates id k k' old key Hc Hold Hslot Hne)) s) as Hl.
  rewrite E in Hl. simpl in Hl. rewrite (undisturbed_reliable key s s' Hs Hl). by apply (Hcl k').
Qed.

(** A clean-up that retains nothing, after the commit. *)
Lemma cleanup_next id k ks old st n calm0 c (Q : Result unit -> Control S -> Prop) R :
  ready calm0 st n c -> canonical server (str id) -> kind id = server -> own_reference id k old ->
  (forall r, kept_server st r -> str (sr_id r) = str id -> credential_reference r k = None) ->
  (calm0 -> cleaned id ks (credentials c)) ->
  (forall x c', ready calm0 st n c' -> (calm0 -> cleaned id (k :: ks) (credentials c')) -> Q x c') ->
  runs (attempt (on_store (cleanup_server_credential_kind id k old None))) c Q R.
Proof.
  intros Hr Hc Hk Hold Hret Hcl HQ. apply (cleanup_ready _ _ _ _ st n calm0); [done..|].
  intros x s E Hr' _. apply HQ; [done|]. intros Hc0.
  pose proof Hr as (_ & _ & _ & _ & [_ Hcalm] & _). destruct (Hcalm Hc0) as [_ Hs].
  eapply cleaned_cleanup; eauto.
Qed.

(** ** Logout *)

Definition logged_out_state r : ServerActualState.t :=
  if bool_decide (sr_desired_state r = ServerDesiredState.disabled)
  then ServerActualState.disabled else ServerActualState.not_authenticated.

Definition logout_changes r : bool :=
  bool_decide (is_Some (sr_credential_ref r)) || bool_decide (is_Some (sr_client_certificate_ref r))
  || bool_decide (is_Some (sr_client_private_key_ref r))
  || negb (bool_decide (sr_actual_state r = logged_out_state r)).

Definition logout_request (p : Json) st : Result (ServerRecord * Z) :=
  identifier ← identifier_param p;
  r ← resolve_server_spec identifier st;
  _ ← list_by_server_spec (max_tunnels limits) (sr_id r) st;
  revision ← (if logout_changes r then next_revision (sr_config_revision r)
              else Ok (sr_config_revision r));
  Ok (r, revision).

(** The record after a logout. *)
Definition logged_out (revision updated_at : Z) r : ServerRecord :=
  set_server_version revision updated_at
    (set_server_states (sr_desired_state r) (logged_out_state r)
       (set_remote_server_id None (set_server_refs None (sr_ca_credential_ref r) None None r))).

Lemma set_remote_none_valid r : server_valid r -> server_valid (set_remote_server_id None r).
Proof.
  intros [Hwf Hval]. split; [done|]. apply validate_server_iff in Hval
    as (? & ? & ? & ? & ? & ? & ? & ? & ? & ? & ? & ? & ? & ? & ?).
  apply validate_server_iff. cbn. split_and!; try done; lia.
Qed.

Lemma logged_out_valid st r u :
  valid_state st -> kept_server st r -> sr_updated_at r <= u -> sr_config_revision r < kInt64Max ->
  server_valid (logged_out (sr_config_revision r + 1) u r).
Proof.
  intros Hst Hk Hu Hmax. pose proof (kept_server_wf st r Hst Hk) as Hv.
  apply set_version_valid; [|done|cbn; lia]. apply set_states_valid, set_remote_none_valid.
  pose proof Hv as [_ Hval]. apply validate_server_iff in Hval as (? & ? & ? & ? & ? & ? & _).
  by apply set_refs_valid.
Qed.

(** The rest of the handler: three clean-ups and the notification. *)
Lemma logout_cleanup (answer : Json) changed r st st' n calm0 c R :
  ready calm0 st' n c -> references_ok st (credentials c) -> valid_state st -> kept_server st r ->
  (forall r2, kept_server st' r2 -> str (sr_id r2) = str (sr_id r) ->
     sr_credential_ref r2 = None /\ sr_client_certificate_ref r2 = None /\
     sr_client_private_key_ref r2 = None) ->
  runs (_ ← attempt (on_store (cleanup_server_credentials (sr_id r) (sr_credential_ref r) None));
        _ ← attempt (on_store (cleanup_server_credential_kind (sr_id r) client_certificate
                                 (sr_client_certificate_ref r) None));
        _ ← attempt (on_store (cleanup_server_credential_kind (sr_id r) client_private_key
                                 (sr_client_private_key_ref r) None));
        _ ← notify_if changed; mret answer) c
    (fun _ c' => ready calm0 st' (notifications changed n) c' /\
       (calm0 -> cleaned (sr_id r) [client_private_key; client_certificate; psk] (credentials c'))) R.
Proof.
  intros Hr Hok Hst Hk Hnone. destruct (kept_server_id st r Hst Hk) as [Hcan Hkind].
  assert (forall k, own_reference (sr_id r) k (credential_reference r k)) as Hown.
  { intros k. by apply (kept_own_reference st (credentials c)). }
  unfold cleanup_server_credentials.
  apply runs_bind, (cleanup_next _ _ [] _ st' n calm0); [done|done|done|apply (Hown psk)| | |].
  { intros r2 Hr2 E. by destruct (Hnone r2 Hr2 E) as (? & _). }
  { intros _ k key Hin. by apply elem_of_nil in Hin. }
  intros _ c1 Hr1 Hc1. apply runs_bind, (cleanup_next _ _ [psk] _ st' n calm0);
    [done|done|done|apply (Hown client_certificate)| |done|].
  { intros r2 Hr2 E. by destruct (Hnone r2 Hr2 E) as (_ & ? & _). }
  intros _ c2 Hr2 Hc2. apply runs_bind, (cleanup_next _ _ [client_certificate; psk] _ st' n calm0);
    [done|done|done|apply (Hown client_private_key)| |done|].
  { intros r2 Hr2' E. by destruct (Hnone r2 Hr2' E) as (_ & _ & ?). }
  intros _ c3 Hr3 Hc3. apply runs_bind, (notify_if_ready changed st' n calm0); [done|].
  intros c4 Hr4 Hc4. apply runs_ret. by rewrite Hc4.
Qed.

Lemma unchanged_logout r :
  logout_changes r = false ->
  sr_credential_ref r = None /\ sr_client_certificate_ref r = None /\ sr_client_private_key_ref r = None.
Proof.
  unfold logout_changes. rewrite !orb_false_iff. intros [[[E1 E2] E3] _].
  apply bool_decide_eq_false in E1, E2, E3. by rewrite <- !eq_None_not_Some in *.
Qed.

Lemma server_logout_runs p st n calm0 c :
  ready calm0 st n c ->
  runs (server_logout limits p) c
    (fun _ c' => exists r revision st', logout_request p st = Ok (r, revision) /\ kept_server st r /\
       (if logout_changes r then exists u, sr_updated_at r <= u /\
          st' = put_server (logged_out revision u r) st else st' = st) /\
       ready calm0 st' (notifications (logout_changes r) n) c' /\
       (calm0 -> cleaned (sr_id r) [client_private_key; client_certificate; psk] (credentials c')))
    (refused_with calm0 (fun e => logout_request p st = Err e) st n).
Proof.
  intros Hr. unfold server_logout. apply runs_bind, param_lift; [done|..].
  { intros e E. unfold logout_request. by rewrite E. }
  intros identifier Eid. apply scoped_with; [done|]. intros c1 Hw. pose proof Hw as (_ & Hst & _).
  apply runs_bind, (work_resolve_server _ _ _ _ _ st); [done|..].
  { intros e E. unfold logout_request. rewrite Eid. cbn. by rewrite E. }
  intros r c2 Er Hk Hw2 _. apply runs_bind, (work_list_by_server _ _ _ _ _ Hlimits _ st); [done|..].
  { intros e E. unfold logout_request. rewrite Eid. cbn. rewrite Er. cbn. by rewrite E. }
  intros c3 El Hw3 _. cbv zeta. fold (logged_out_state r). fold (logout_changes r).
  assert (Ereq : logout_request p st =
    revision ← (if logout_changes r then next_revision (sr_config_revision r)
                else Ok (sr_config_revision r)); Ok (r, revision)).
  { unfold logout_request. rewrite Eid. cbn. rewrite Er. cbn. by rewrite El. }
  pose proof Hw3 as (_ & _ & _ & Hok & _).
  destruct (logout_changes r) eqn:Hch; cbn [negb]; apply runs_bind.
  - apply runs_bind, (work_lift _ _ _ _ _ st); [done|..].
    { intros e E. by rewrite Ereq, E. }
    intros revision Erev. destruct (next_revision_range _ _ Erev) as [-> Hmax].
    apply runs_bind, (work_time _ _ _ _ _ st); [done|]. intros u c4 Hu Hw4 _.
    fold (logged_out (sr_config_revision r + 1) u r).
    set (r' := logged_out (sr_config_revision r + 1) u r).
    assert (server_valid r') as [Hwf Hv] by (by eapply logged_out_valid).
    assert (update_server_spec r' st = Ok (tt, put_server r' st)) as Hup.
    { apply (update_server_accepted st r); try done. cbn. lia. }
    apply runs_bind, (update_server_work st st); [done|done|rewrite Hup; by intros|]. intros c5 Hw5 _.
    pose proof Hw5 as (_ & _ & _ & Hok5 & _).
    apply runs_ret, runs_bind, (commit_runs st (put_server r' st)); [done| |].
    { apply references_put; [done|]. intros [] key; [done| |done|done].
      intros Href. destruct (references_kept _ _ r ca_certificate key Hok5 Hk Href). auto. }
    intros c6 Hr6 Hc6. eapply runs_mono;
      [apply (logout_cleanup _ true r st (put_server r' st) n calm0 c6 (fun _ _ => False));
         [done|by rewrite Hc6|done|done|]| |done].
    + intros r2 [Hm _] E. simpl in Hm. rewrite E in Hm. simpl in Hm. rewrite lookup_insert_eq in Hm.
      by injection Hm as <-.
    + intros _ c' [Hr' Hcl]. split; [by eexists _, _|].
      exists r, (sr_config_revision r + 1), (put_server r' st). rewrite Ereq, Erev, Hch.
      split_and!; try done. by exists u.
  - apply runs_ret, runs_bind, (commit_runs st st); [done..|]. intros c4 Hr4 Hc4.
    pose proof (unchanged_logout r Hch) as Hnone.
    eapply runs_mono; [apply (logout_cleanup _ false r st st n calm0 c4 (fun _ _ => False));
      [done|by rewrite Hc4|done|done|]| |done].
    + intros r2 [Hm _] E. destruct Hk as [Hm' _]. rewrite E in Hm.
      assert (r2 = r) as -> by congruence. done.
    + intros _ c' [Hr' Hcl]. split; [by eexists _, _|].
      exists r, (sr_config_revision r), st. rewrite Ereq, Hch. by split_and!.
Qed.

(** ** Removal *)

Lemma cleanup_kinds_reliable r kinds ks (s : S) :
  reliable s -> canonical server (str (sr_id r)) -> kind (sr_id r) = server ->
  (forall k, own_reference (sr_id r) k (credential_reference r k)) -> cleaned (sr_id r) ks s ->
  exists s', cleanup_kinds r kinds None s = (Ok None, s') /\ reliable s' /\
    cleaned (sr_id r) (rev kinds ++ ks) s'.
Proof.
  intros Hs Hc Hk Hown. revert ks s Hs. induction kinds as [|k kinds IH]; intros ks s Hs Hcl.
  { by exists s. }
  destruct (cleanup_reliable (sr_id r) k (credential_reference r k) None s Hs Hc Hk (Hown k))
    as (s1 & E1 & Hs1 & _).
  pose proof (cleaned_cleanup _ _ _ _ _ _ _ Hs Hc Hk (Hown k) E1 Hcl) as Hcl1.
  destruct (IH (k :: ks) s1 Hs1 Hcl1) as (s2 & E2 & Hs2 & Hcl2). exists s2.
  simpl. unfold mbind, ST_bind, attempt. rewrite E1. split_and!; [done..|].
  by rewrite <- app_assoc.
Qed.

Definition all_kinds : list ServerCredentialKind :=
  [client_private_key; client_certificate; ca_certificate; psk].

Lemma cleanup_all_reliable r (s : S) :
  reliable s -> canonical server (str (sr_id r)) -> kind (sr_id r) = server ->
  (forall k, own_reference (sr_id r) k (credential_reference r k)) ->
  exists s', cleanup_all_server_credentials r s = (success, s') /\ reliable s' /\
    cleaned (sr_id r) all_kinds s'.
Proof.
  intros Hs Hc Hk Hown.
  destruct (cleanup_kinds_reliable r [psk; ca_certificate; client_certificate; client_private_key] [] s
    Hs Hc Hk Hown) as (s' & E & Hs' & Hcl).
  { intros k key Hin. by apply elem_of_nil in Hin. }
  exists s'. unfold cleanup_all_server_credentials, mbind, ST_bind. rewrite E. done.
Qed.

(** A removed server can be erased at once: its tunnels are tombstones. *)
Lemma remove_then_erase id now st st1 :
  valid_state st -> remove_server_spec id now st = Ok (tt, st1) ->
  exists st2, erase_server_spec id st1 = Ok (tt, st2) /\
    st_servers st2 = delete (str id) (st_servers st) /\
    (forall i t, st_tunnels st2 !! i = Some t <->
       st_tunnels st !! i = Some t /\ str (tr_server_id t) <> str id).
Proof.
  intros Hst. unfold remove_server_spec. destruct (negb _ || _) eqn:Hg; [done|].
  apply orb_false_iff in Hg as [Hkind _].
  destruct (find_server id st) as [old|] eqn:Hf; [|done]. simpl. destruct (_ <? _); [done|].
  destruct (has_child _ st); [done|]. intros [= <-].
  apply find_server_lookup in Hf. destruct (valid_servers st Hst _ _ Hf) as [_ Hid].
  set (r1 := with_server_runtime _ _ _ _). set (f := fun t => if live_child (str id) t then bury now t else t).
  set (st1 := put_server r1 (map_tunnels f st)).
  assert (st_servers st1 !! str id = Some r1) as Hm1.
  { simpl. unfold r1. simpl. rewrite Hid. by rewrite lookup_insert_eq. }
  assert (has_child (live_child (str id)) st1 = false) as Hch.
  { apply not_true_is_false. intros (i & t & Hm & Hl)%(existsb_map_to_list (fun _ t => live_child (str id) t)).
    simpl in Hm. rewrite lookup_fmap in Hm. destruct (st_tunnels st !! i) as [t0|]; [|done].
    injection Hm as <-. unfold f in Hl. destruct (live_child (str id) t0) eqn:E; [|congruence].
    unfold live_child in Hl. apply andb_true_iff in Hl as [_ Hl]. done. }
  eexists. unfold erase_server_spec. rewrite Hkind. unfold find_server. rewrite Hkind, Hm1. simpl.
  rewrite Hch. split_and!; [done|..].
  - simpl. rewrite Hid. by rewrite delete_insert_eq.
  - intros i t. simpl. rewrite map_lookup_filter_Some, lookup_fmap. unfold f.
    destruct (st_tunnels st !! i) as [t0|]; simpl; [|by split; [intros [[=] _]|intros [[=] _]]].
    destruct (live_child (str id) t0) eqn:E; [|done].
    unfold live_child in E. apply andb_true_iff in E as [E%bool_decide_eq_true _].
    split; intros [[= <-] Hne]; done.
Qed.

Lemma removed_not_kept id now st st1 st' r :
  valid_state st -> remove_server_spec id now st = Ok (tt, st1) ->
  st' = st1 \/ erase_server_spec id st1 = Ok (tt, st') -> str (sr_id r) = str id -> ~ kept_server st' r.
Proof.
  intros Hst Hrem Hor Hid [Hm Hk].
  destruct Hor as [->|E]; [|destruct (remove_then_erase _ _ _ _ Hst Hrem) as (st2 & E2 & Hs & _)].
  - revert Hrem. unfold remove_server_spec. destruct (negb _ || _); [done|].
    destruct (find_server id st) as [old|] eqn:Hf; [|done]. simpl. destruct (_ <? _); [done|].
    destruct (has_child _ st); [done|]. intros [= <-]. simpl in Hm.
    apply find_server_lookup in Hf. destruct (valid_servers st Hst _ _ Hf) as [_ Hold].
    rewrite Hid, <- Hold, lookup_insert_eq in Hm. by injection Hm as <-.
  - rewrite E2 in E. injection E as <-. by rewrite Hs, Hid, lookup_delete_eq in Hm.
Qed.

Definition remove_refusal (p : Json) st (e : Error) : Prop :=
  match identifier ← identifier_param p; resolve_server_spec identifier st with
  | Err e' => e = e'
  | Ok r => exists t, sr_updated_at r <= t /\ remove_server_spec (sr_id r) t st = Err e
  end.

(** What a removal that returns a result has done: the server is removed, and it is erased
    unless something outside the program failed. *)
Definition removal st n calm0 r (c' : Control S) : Prop :=
  exists removed_at st1 st', remove_server_spec (sr_id r) removed_at st = Ok (tt, st1) /\
    (st' = st1 \/ erase_server_spec (sr_id r) st1 = Ok (tt, st')) /\
    ready calm0 st' (Datatypes.S n) c' /\
    (calm0 -> erase_server_spec (sr_id r) st1 = Ok (tt, st') /\
       cleaned (sr_id r) all_kinds (credentials c')).

(** The end of the handler, after the clean-up of the credentials returned [x]. *)
Lemma remove_end_runs r removed_at st st1 n calm0 x c R :
  valid_state st -> remove_server_spec (sr_id r) removed_at st = Ok (tt, st1) -> kind (sr_id r) = server ->
  ready calm0 st1 n c -> (calm0 -> x = success /\ cleaned (sr_id r) all_kinds (credentials c)) ->
  runs (_ ← (match x with
             | Err _ => mret tt
             | Ok _ =>
                 erased ← attempt (on_db (ServerRepository.erase (sr_id r)));
                 match erased with
                 | Err e =>
                     if negb (bool_decide (code e = not_found)) then mret tt
                     else _ ← attempt (on_db checkpoint); mret tt
                 | Ok _ => _ ← attempt (on_db checkpoint); mret tt
                 end
             end);
        _ ← notify_state_changed; mret (removed_json (sr_id r) (sr_name r))) c
    (fun _ => removal st n calm0 r) R.
Proof.
  intros Hst Hrem Hkind Hr Hcalm.
  assert (forall st' c1, (st' = st1 \/ erase_server_spec (sr_id r) st1 = Ok (tt, st')) ->
    ready calm0 st' n c1 -> credentials c1 = credentials c ->
    (calm0 -> erase_server_spec (sr_id r) st1 = Ok (tt, st')) ->
    runs (_ ← notify_state_changed; mret (removed_json (sr_id r) (sr_name r))) c1
      (fun _ => removal st n calm0 r) R) as Hend.
  { intros st' c1 Hst' Hr1 Hc1 Hcalm1. apply runs_bind, (notify_ready st' n calm0); [done|].
    intros c2 Hr2 Hc2 _. apply runs_ret. exists removed_at, st1, st'. split_and!; try done.
    intros Hc0. rewrite Hc2, Hc1. split; [auto|]. by apply Hcalm. }
  apply runs_bind. destruct x as [[]|e].
  2: { apply runs_ret, (Hend st1); [by left|done|done|]. intros Hc0. by destruct (Hcalm Hc0). }
  pose proof Hr as (_ & Hst1 & Hok1 & _). apply runs_bind, runs_attempt. unfold ServerRepository.erase.
  apply (committing_ready _ (erase_server_spec (sr_id r) st1) st1 n calm0);
    [done|apply steady_server_erase|by apply erase_server_outcome|..].
  - intros [] st2 Hs2. split; [by eapply erase_server_valid|]. by eapply erase_server_references.
  - intros [] st2 c1 Hs2 Hr1 Hc1. apply runs_bind, (checkpoint_ready st2 n calm0); [done|].
    intros _ c2 Hr2 Hc2. apply runs_ret, (Hend st2); [by right|done|by rewrite Hc2, Hc1|done].
  - intros e c1 Herr Hr1 Hr1' Hc1. assert (~ calm0) as Hnc.
    { intros Hc0. destruct (remove_then_erase (sr_id r) removed_at st st1 Hst Hrem) as (st2 & E2 & _).
      rewrite (Herr Hc0) in E2. done. }
    assert (ready calm0 st1 n c1) as Hr1c.
    { destruct Hr1' as (? & ? & ? & ? & [? _] & _). by split_and!. }
    case_bool_decide; cbn [negb].
    + apply runs_bind, (checkpoint_ready st1 n calm0); [done|]. intros _ c2 Hr2 Hc2.
      apply runs_ret, (Hend st1); [by left|done|by rewrite Hc2, Hc1|done].
    + apply runs_ret, (Hend st1); [by left|done|done|done].
Qed.

(** A removal that fails has not touched the credential store. *)
Lemma server_remove_cleanly p : fails_cleanly (S := S) (server_remove p).
Proof.
  apply cleanly_bind; [auto with silent|]. intros identifier. apply cleanly_scoped.
  apply cleanly_bind; [apply silent_resolve_server|]. intros r.
  apply cleanly_bind; [apply silent_update_time|]. intros removed_at.
  do 2 (apply cleanly_bind; [auto with silent|]; intros _).
  apply cleanly_unfailing. repeat (apply unfailing_bind; [auto with silent|]; intros []);
    repeat case_match; auto 10 with silent.
Qed.

Lemma server_remove_runs p st n calm0 c :
  ready calm0 st n c ->
  runs (server_remove p) c
    (fun _ c' => exists r, (identifier ← identifier_param p; resolve_server_spec identifier st) = Ok r /\
       removal st n calm0 r c')
    (refused_with calm0 (remove_refusal p st) st n).
Proof.
  intros Hr. unfold server_remove. apply runs_bind, param_lift; [done|..].
  { intros e E. unfold remove_refusal. by rewrite E. }
  intros identifier Eid. apply scoped_with; [done|]. intros c1 Hw. pose proof Hw as (_ & Hst & _).
  apply runs_bind, (work_resolve_server _ _ _ _ _ st); [done|..].
  { intros e E. unfold remove_refusal. rewrite Eid. cbn. by rewrite E. }
  intros r c2 Er Hk Hw2 _. destruct (kept_server_id st r Hst Hk) as [Hcan Hkind].
  assert ((identifier ← identifier_param p; resolve_server_spec identifier st) = Ok r) as Ereq.
  { by rewrite Eid. }
  apply runs_bind, (work_time _ _ _ _ _ st); [done|]. intros removed_at c3 Hu Hw3 _.
  apply runs_bind, (work_db _ _ _ _ _ (remove_server_spec (sr_id r) removed_at st) st);
    [done|apply steady_server_mark_removed|by apply remove_server_outcome|
     intros ? st' Hs; by eapply remove_server_valid|..].
  { intros e E. unfold remove_refusal. rewrite Ereq. by exists removed_at. }
  intros [] st1 c4 Hs1 Hw4 _. pose proof Hw4 as (_ & Hst1 & _ & Hok & _).
  assert (forall k, own_reference (sr_id r) k (credential_reference r k)) as Hown.
  { intros k. by apply (kept_own_reference st (credentials c4)). }
  assert (forall r2, kept_server st1 r2 -> kept_server st r2 /\ str (sr_id r2) <> str (sr_id r)) as Hkept.
  { intros r2. by eapply remove_server_inv. }
  apply runs_bind, (commit_runs st st1); [done| |].
  { exact (remove_server_references _ _ st _ st1 _ Hst Hs1 Hok). }
  intros c5 Hr5 Hc5. apply runs_bind, (checkpoint_ready st1 n calm0); [done|]. intros _ c6 Hr6 Hc6.
  apply runs_bind, (store_ready _ st1 n calm0); [done|..].
  { intros key (r2 & k2 & Hr2 & Href2). destruct (Hkept r2 Hr2) as [Hr2' Hne].
    apply leaves_bind; [|intros; apply leaves_lift]. apply leaves_cleanup_kinds. intros k Hin. apply Hne.
    assert (slot_of (sr_id r) k key) as Hslot.
    { apply cleanup_candidates_slot in Hin as [E|]; [by apply Hown|done]. }
    by destruct (kept_slot_unique st (credentials c4) r r2 k k2 key Hst Hok Hk Hr2' Hslot Href2) as [-> _]. }
  { intros _ s Hs. by destruct (cleanup_all_reliable r s Hs Hcan Hkind Hown) as (s' & -> & ? & _). }
  intros x s Ex Hr7. eapply runs_mono; [eapply (remove_end_runs r removed_at st st1 n calm0 x _ (failed st n calm0 (remove_refusal p st))); try done| |done].
  - intros Hc0. pose proof Hr6 as (_ & _ & _ & _ & [_ Hrel] & _). destruct (Hrel Hc0) as [_ Hs].
    destruct (cleanup_all_reliable r _ Hs Hcan Hkind Hown) as (s' & E & _ & Hcl).
    rewrite Ex in E. by injection E as -> <-.
  - intros j c' Hrem. split; [|by exists r]. destruct Hrem as (? & ? & ? & ? & ? & ? & _). by eexists _, _.
Qed.

(** ** Reconfiguration *)

Abbreviation any := (fun _ : Error => True).
Abbreviation work st0 n := (at_work st0 n False).
Abbreviation fails st0 n := (failed st0 n False any).

(** Reading a credential changes nothing. *)
Lemma load_runs reference description st n c (Q : Result bytes -> Control S -> Prop) R :
  work st n st c -> (forall x c', work st n st c' -> Q x c') ->
  runs (attempt (load_credential reference description)) c Q R.
Proof.
  intros Hw HQ. apply runs_attempt. unfold runs, load_credential.
  destruct reference as [key|]; [|by apply HQ]. unfold on_store.
  destruct (credential_get key (credentials c)) as [[secret|e] s] eqn:E; apply HQ;
    destruct Hw as (Hwk & Hst & Hst0 & Hok & Hn & [He _]); (split_and!; try done);
    apply (references_undisturbed st (credentials c)); try done; intros key' _;
    pose proof (get_same key (credentials c) key') as Hu; by rewrite E in Hu.
Qed.

(** The keys staged so far are not in use. *)
Definition unused_keys st (keys : list bytes) : Prop := Forall (fun key => ~ referenced st key) keys.

Lemma discard_failed keys st n e c :
  fails st n e c -> unused_keys st keys -> fails st n e (discard keys c).
Proof.
  intros Hf Hk. revert c Hf. induction Hk as [|key keys Hkey _ IH]; intros c Hf; [done|]. simpl.
  apply IH. destruct Hf as (Hd & Hok & Hn & He & _). unfold on_store.
  destruct (credential_remove key (credentials c)) as [x s] eqn:E. split_and!; try done. simpl.
  apply (references_undisturbed st (credentials c)); [done|]. intros key' Hk'.
  assert (key' <> key) as Hne by (by intros ->).
  pose proof (remove_other key (credentials c) key' Hne) as Hu. by rewrite E in Hu.
Qed.

Lemma discarding_runs {A} (m : Action (Control S) A) keys st n c (Q : A -> Control S -> Prop) :
  unused_keys st keys -> runs m c Q (fails st n) -> runs (discarding keys m) c Q (fails st n).
Proof.
  intros Hk Hm. unfold runs, discarding in *. destruct (m c) as [[a|e] c']; [done|].
  by apply discard_failed.
Qed.

(** A reference of a kind to a slot that is in the store. *)
Definition good_reference r (k : ServerCredentialKind) (reference : option bytes) (s : S) : Prop :=
  forall key, reference = Some key -> slot_of (sr_id r) k key /\ held key s.

Lemma stage_runs previous k changed material keys st n c
    (Q : option bytes * list bytes -> Control S -> Prop) :
  work st n st c -> kept_server st previous -> unused_keys st keys ->
  (forall reference keys' c', work st n st c' -> unused_keys st keys' ->
     good_reference previous k reference (credentials c') ->
     (changed = false -> reference = credential_reference previous k) ->
     (forall k' reference', k' <> k -> good_reference previous k' reference' (credentials c) ->
        good_reference previous k' reference' (credentials c')) ->
     Q (reference, keys') c') ->
  runs (stage previous k changed material keys) c Q (fails st n).
Proof.
  intros Hw Hk Hkeys HQ. pose proof Hw as (Hwk & Hst & Hst0 & Hok & Hn & [He _]). unfold stage.
  destruct changed; cbn [negb].
  2: { apply runs_ret, HQ; try done. intros key Href. by eapply references_kept. }
  case_bool_decide; [by apply runs_ret, HQ|]. cbv zeta. set (key := next_server_credential_key previous k).
  pose proof (next_key_unreferenced st _ previous k Hst Hok Hk) as Hfresh. fold key in Hfresh.
  apply runs_bind, discarding_runs; [done|]. apply (store_work _ st st); [done|..].
  { intros key' Hk'. apply leaves_put. by intros ->. }
  { done. }
  intros s Hput Hw'. destruct (put_success key material (credentials c)) as [Hvis Hdur]; [by rewrite Hput|].
  rewrite Hput in Hvis, Hdur. simpl in Hvis, Hdur. apply runs_ret, HQ; [done|..].
  - apply Forall_app. split; [done|]. by apply Forall_singleton.
  - intros key' [= <-]. split; [apply next_key_slot|]. split; by eexists.
  - done.
  - intros k' reference' Hne Hgood key' Hkey'. destruct (Hgood key' Hkey') as [Hslot Hheld].
    split; [done|]. eapply undisturbed_held; [|exact Hheld]. simpl.
    destruct (kept_server_id st previous Hst Hk) as [Hcan _].
    assert (key' <> key) as Hnk.
    { intros ->. apply Hne.
      by destruct (slot_of_inj _ _ k' k key Hcan Hcan Hslot (next_key_slot previous k)). }
    pose proof (put_other key material (credentials c) key' Hnk) as Hu. by rewrite Hput in Hu.
Qed.

(** The update of the record, the revision and the state, up to the commit. *)
Lemma store_update_runs changed transport r st n c (Q : ServerRecord -> Control S -> Prop) :
  work st n st c -> server_record_wf r ->
  (changed = false -> Q r c) ->
  (forall r' c', changed = true -> work st n (put_server r' st) c' -> credentials c' = credentials c ->
     sr_id r' = sr_id r -> sr_desired_state r' = sr_desired_state r ->
     (forall k, credential_reference r' k = credential_reference r k) -> Q r' c') ->
  runs (store_update changed transport r) c Q (fails st n).
Proof.
  intros Hw (Hid & Hend & Hra & Hrev) Hsame HQ. unfold store_update.
  destruct changed; cbn [negb]; [|by apply runs_ret, Hsame].
  apply runs_bind, (work_lift _ _ _ _ _ st); [done..|]. intros revision Erev.
  apply next_revision_u64 in Erev as [Hrev' _]; [|done].
  apply runs_bind, (work_time _ _ _ _ _ st); [done|]. intros u c1 _ Hw1 Hc1. cbv zeta.
  destruct transport; apply runs_bind, (update_server_work st st); try done;
    intros c2 Hw2 Hc2; apply runs_ret, HQ; try done; try congruence; by intros [].
Qed.

Lemma cleanup_kind_runs previous r k changed st st' n c (Q : unit -> Control S -> Prop) R :
  ready False st' n c -> valid_state st -> kept_server st previous -> sr_id r = sr_id previous ->
  own_reference (sr_id previous) k (credential_reference previous k) ->
  (changed = true -> forall r2, kept_server st' r2 -> str (sr_id r2) = str (sr_id r) -> r2 = r) ->
  (forall c', ready False st' n c' -> Q tt c') ->
  runs (cleanup_kind previous r k changed) c Q R.
Proof.
  intros Hr Hst Hk Hid Hown Hsame HQ. unfold cleanup_kind. destruct changed; cbn [negb]; [|by apply runs_ret, HQ].
  destruct (kept_server_id st previous Hst Hk) as [Hcan Hkind]. rewrite <- Hid in Hcan, Hkind, Hown.
  apply runs_bind, (cleanup_ready _ _ _ _ st' n False); [done..| |].
  - intros r2 Hr2 E. by rewrite (Hsame eq_refl r2 Hr2 E).
  - intros x s _ Hr' _. by apply runs_ret, HQ.
Qed.

Lemma update_record_spec name endpoint tls material r r' changed transport :
  update_record name endpoint tls material r = (r', changed, transport) ->
  sr_id r' = sr_id r /\ sr_reconnect_attempt r' = sr_reconnect_attempt r /\
  sr_config_revision r' = sr_config_revision r /\
  (sr_endpoint r' = sr_endpoint r \/ endpoint = Some (sr_endpoint r')) /\
  (forall k, credential_reference r' k = credential_reference r k) /\
  (changed = false -> material = false).
Proof.
  unfold update_record. intros [= <- <- _]. split_and!; try done.
  - destruct endpoint as [e|]; [|by left]. simpl. by destruct (negb _); [right|left].
  - destruct material; [|done]. simpl. by intros ?.
Qed.

(** The end of an update, after the commit: [st'] is the state and [r'] the record of it. *)
Lemma update_end_sound st st' n c previous r' changed ca_changed certificate_changed
    private_key_changed count :
  ready False st' n c -> valid_state st -> kept_server st previous ->
  (forall k, own_reference (sr_id previous) k (credential_reference previous k)) ->
  sr_id r' = sr_id previous ->
  (changed = false -> ca_changed || certificate_changed || private_key_changed = false) ->
  (changed = true -> forall r2, kept_server st' r2 -> str (sr_id r2) = str (sr_id r') -> r2 = r') ->
  (changed = false -> st' = st) ->
  runs (_ ← cleanup_kind previous r' ca_certificate ca_changed;
        _ ← cleanup_kind previous r' client_certificate certificate_changed;
        _ ← cleanup_kind previous r' client_private_key private_key_changed;
        _ ← notify_if changed;
        mret (json_object [("server", server_json r' count); ("changed", JBool changed)]%string)) c
    (fun _ => accepted st n) (fails st n).
Proof.
  intros Hr Hst Hk Hown Hid Hmat Huniq Hsame.
  assert (ca_changed || certificate_changed || private_key_changed = true ->
    forall r2, kept_server st' r2 -> str (sr_id r2) = str (sr_id r') -> r2 = r') as Huniq'.
  { intros E. apply Huniq. destruct changed; [done|]. by rewrite Hmat in E. }
  apply runs_bind, (cleanup_kind_runs _ _ _ _ st st' n); [done..|by intros ->; apply Huniq'|].
  intros c1 Hr1. apply runs_bind, (cleanup_kind_runs _ _ _ _ st st' n);
    [done..|by intros ->; apply Huniq'; rewrite orb_true_r|].
  intros c2 Hr2. apply runs_bind, (cleanup_kind_runs _ _ _ _ st st' n);
    [done..|by intros ->; apply Huniq'; rewrite !orb_true_r|].
  intros c3 Hr3. apply (sound_answer changed _ st st' n); [done|]. intros E. by rewrite (Hsame E).
Qed.

Lemma server_update_sound : sound_handler (server_update limits).
Proof.
  intros p st n c Hr. apply runs_bind, (ready_lift _ st n); [done|]. intros _ _.
  destruct (_ =? _); [by apply runs_fail|].
  apply runs_bind, (ready_lift _ st n); [done|]. intros identifier _.
  apply runs_bind, (ready_lift _ st n); [done|]. intros name _.
  apply runs_bind, (ready_lift _ st n); [done|]. intros endpoint_text _.
  apply runs_bind, (ready_lift _ st n); [done|]. intros tls _.
  do 3 (apply runs_bind, (ready_lift _ st n); [done|]; intros ? _).
  apply runs_bind, (ready_lift _ st n); [done|]. intros endpoint Hep.
  assert (forall e, endpoint = Some e -> Endpoint_wf e) as Hwfe.
  { intros e ->. destruct endpoint_text as [text|]; [|done]. unfold mbind, outcome_bind in Hep.
    destruct (Endpoint_parse text) eqn:E; [|done]. injection Hep as ->. by eapply endpoint_parsed_wf. }
  apply sound_scoped; [done|]. intros c1 Hw. pose proof Hw as (_ & Hst & _).
  apply sound_resolve; [done|]. intros previous c2 Hk Hw2. apply sound_list; [done..|]. intros c3 Hw3.
  apply runs_bind, (load_runs _ _ st n); [done|]. intros x1 c4 Hw4.
  apply runs_bind, (load_runs _ _ st n); [done|]. intros x2 c5 Hw5.
  apply runs_bind, (load_runs _ _ st n); [done|]. intros x3 c6 Hw6.
  do 3 (apply runs_bind, (work_lift _ _ _ _ _ st); [done..|]; intros ? _).
  apply runs_bind, (work_lift _ _ _ _ _ st); [done..|]. intros [ca ca_changed] _.
  apply runs_bind, (work_lift _ _ _ _ _ st); [done..|]. intros [certificate certificate_changed] _.
  apply runs_bind, (work_lift _ _ _ _ _ st); [done..|]. intros [private_key private_key_changed] _.
  destruct (negb _); [by apply (work_fail _ _ _ _ _ _ st)|].
  apply runs_bind, (work_lift _ _ _ _ _ st); [done..|]. intros _ _.
  apply runs_bind, (stage_runs _ _ _ _ _ st n); [done|done|by constructor|].
  intros ref1 keys1 c7 Hw7 Hkeys1 Hgood1 Hsame1 _.
  apply runs_bind, (stage_runs _ _ _ _ _ st n); [done..|]. intros ref2 keys2 c8 Hw8 Hkeys2 Hgood2 Hsame2 Hkeep2.
  apply runs_bind, (stage_runs _ _ _ _ _ st n); [done..|]. intros ref3 keys3 c9 Hw9 Hkeys3 Hgood3 Hsame3 Hkeep3.
  apply Hkeep2 in Hgood1; [|done]. apply Hkeep3 in Hgood1; [|done]. apply Hkeep3 in Hgood2; [|done].
  pose proof Hw9 as (_ & _ & _ & Hok9 & _).
  assert (forall k, own_reference (sr_id previous) k (credential_reference previous k)) as Hown.
  { intros k. by apply (kept_own_reference st (credentials c9)). }
  set (r0 := set_server_refs _ _ _ _ previous).
  destruct (update_record name endpoint tls _ r0) as [[r changed] transport] eqn:Eup.
  apply update_record_spec in Eup as (Hid & Hra & Hrev & Hend & Hrefs & Hmat).
  pose proof (kept_server_wf st previous Hst Hk) as [(Hwf1 & Hwf2 & Hwf3 & Hwf4) _].
  assert (server_record_wf r) as Hwf.
  { split_and!; [by rewrite Hid| |by rewrite Hra|by rewrite Hrev].
    destruct Hend as [->|He]; [done|]. by apply Hwfe. }
  apply runs_bind, discarding_runs; [done|].
  apply runs_bind, (store_update_runs _ _ _ st n); [done..| |].
  - intros ->. apply runs_bind, (commit_runs st st); [done..|]. intros c10 Hr10 _. apply runs_ret.
    by apply (update_end_sound st st); [..|by rewrite Hid|].
  - intros r' c10 -> Hw10 Hc10 Hid' Hd' Hrefs'. apply runs_bind, (commit_runs st (put_server r' st)); [done|..].
    { rewrite Hc10. apply references_put; [done|]. intros k key. rewrite Hrefs', Hrefs, Hid', Hid.
      intros Href. assert (slot_of (sr_id previous) k key /\ held key (credentials c9)) as [? ?]; [|auto].
      destruct k; [by apply (references_kept st)|by apply Hgood1|by apply Hgood2|by apply Hgood3]. }
    intros c11 Hr11 _. apply runs_ret. apply (update_end_sound st (put_server r' st)); [done..|by rewrite Hid', Hid|done| |done].
    intros _ r2 [Hm _] E. simpl in Hm. rewrite E, lookup_insert_eq in Hm. by injection Hm as <-.
Qed.
End Sagas.
