(* ===== verification/ConfigFile.v ===== *)
(** * The files of the declarative configuration

    How src/daemon/declarative_config.cpp reads its inputs: the operations on
    [std::filesystem::path] it uses, [read_file] over the system calls, and [parse_json]
    with the limits of the parser.  What [open], [fstat] and [read] do is a parameter; the
    constants of the system are those of Linux. *)
From S2P Require Import Prelude Common Text Rows Credentials Json IpcPath.

Definition kMaximumPathBytes : Z := 4096.
Definition kMaximumConfigBytes : Z := 4 * 1024 * 1024.
Definition kMaximumJsonDepth : Z := 12.
Definition kMaximumJsonNodes : Z := 100000.
Definition kMaximumJsonStringBytes : Z := 64 * 1024.

(** ** Paths *)

(** The file names of a path, without the empty ones between adjacent separators. *)
Fixpoint path_names (path current : bytes) : list bytes :=
  match path with
  | [] => if decide (current = []) then [] else [current]
  | b :: path =>
      if bool_decide (b = ch_slash)
      then if decide (current = []) then path_names path [] else current :: path_names path []
      else path_names path (current ++ [b])
  end.

Definition is_absolute (path : bytes) : bool := bool_decide (head path = Some ch_slash).

(** The names of the normal form, the last one first, and whether a separator follows them. *)
Fixpoint normal_names (absolute : bool) (names stack : list bytes) (separator : bool) :
  list bytes * bool :=
  match names with
  | [] => (stack, separator)
  | name :: names =>
      if bool_decide (name = bs ".") then normal_names absolute names stack true
      else if bool_decide (name = bs "..") then
        match stack with
        | top :: rest =>
            if bool_decide (top = bs "..") then normal_names absolute names (name :: stack) false
            else normal_names absolute names rest true
        | [] => if absolute then normal_names absolute names [] true
                else normal_names absolute names [name] false
        end
      else normal_names absolute names (name :: stack) false
  end.

Fixpoint join_names (names : list bytes) : bytes :=
  match names with
  | [] => []
  | [name] => name
  | name :: names => name ++ ch_slash :: join_names names
  end.

(** [path::lexically_normal]. *)
Definition lexically_normal (path : bytes) : bytes :=
  if decide (path = []) then []
  else
    let absolute := is_absolute path in
    let (stack, separator) := normal_names absolute (path_names path []) [] false in
    let trailing := separator || bool_decide (last path = Some ch_slash) in
    match stack with
    | [] => if absolute then [ch_slash] else bs "."
    | top :: _ =>
        (if absolute then [ch_slash] else []) ++ join_names (reverse stack)
        ++ (if trailing && negb (bool_decide (top = bs "..")) then [ch_slash] else [])
    end.

Fixpoint drop_slashes (reversed : bytes) : bytes :=
  match reversed with
  | b :: rest => if bool_decide (b = ch_slash) then drop_slashes rest else reversed
  | [] => []
  end.

Fixpoint drop_name (reversed : bytes) : bytes :=
  match reversed with
  | b :: rest => if bool_decide (b = ch_slash) then reversed else drop_name rest
  | [] => []
  end.

(** [path::parent_path]; of several leading separators one is kept. *)
Definition parent_path (path : bytes) : bytes :=
  if decide (path_names path [] = []) then path
  else
    let parent := drop_slashes (drop_name (reverse path)) in
    match parent with
    | [] => if is_absolute path then [ch_slash] else []
    | _ => reverse parent
    end.

(** [operator/] with a relative path on the right. *)
Definition path_append (base relative : bytes) : bytes :=
  if bool_decide (base = []) || bool_decide (last base = Some ch_slash) then base ++ relative
  else base ++ ch_slash :: relative.

Example normal_samples :
  map (fun s => lexically_normal (bs s))
    ["a/./b/.."; "a/.///b/../"; "a/.."; "/.."; "./"; "../a/.."; "//x/y"; "x/../../y"]%string =
  map bs ["a/"; "a/"; "."; "/"; "."; ".."; "/x/y"; "../y"]%string.
Proof. reflexivity. Qed.

Example parent_samples :
  map (fun s => parent_path (bs s)) ["/a/b"; "a"; "/a"; "a/"; "/"; "a//b"]%string =
  map bs ["/a"; ""; "/"; "a"; "/"; "a"]%string.
Proof. reflexivity. Qed.

(** ** Reading a file *)

Inductive FileKind : Set := config_file | public_credential | private_credential.
#[export] Instance FileKind_eq_decision : EqDecision FileKind.
Proof. solve_decision. Defined.

(** The fields of [struct stat] that are looked at. *)
Record FileStatus : Set := mkFileStatus {
  fs_mode : Z;
  fs_nlink : Z;
  fs_size : Z;
  fs_uid : Z
}.

(** What a call of [read] returns. *)
Inductive ReadResult : Set := read_bytes (data : bytes) | read_interrupted | read_failed.

(** A successful [open]: what [fstat] returns, and what the calls of [read] do in turn; a
    call after the last one is at the end of the file. *)
Record OpenedFile : Set := mkOpenedFile {
  of_status : option FileStatus;
  of_reads : list ReadResult
}.

(** [open], with the error number of a failure, and [geteuid]. *)
Class FileSystem := {
  open_file : bytes -> OpenedFile + Z;
  effective_user : Z
}.

Definition kEacces : Z := 13.
Definition S_ISREG (mode : Z) : bool := Z.land mode 0xf000 =? 0x8000.

(** The loop over [read]: [None] when the file ends early or cannot be read. *)
Fixpoint read_all (reads : list ReadResult) (size : Z) (data : bytes) : option bytes :=
  if Zlen data =? size then Some data
  else
    match reads with
    | [] | read_failed :: _ => None
    | read_interrupted :: reads => read_all reads size data
    | read_bytes chunk :: reads =>
        match take (Z.to_nat (size - Zlen data)) chunk with
        | [] => None
        | chunk => read_all reads size (data ++ chunk)
        end
    end.

(** [read_file]. *)
Definition read_file `{FileSystem} (path : bytes) (k : FileKind) : Result bytes :=
  if bool_decide (path = []) || (kMaximumPathBytes <? Zlen path) || bool_decide (kNul ∈ path) then
    failure invalid_argument "configuration file path is invalid"
  else
    match open_file path with
    | inr error =>
        failure (if error =? kEacces then permission_denied else invalid_argument)
          "configuration input file cannot be opened"
    | inl file =>
        match of_status file with
        | None => failure permission_denied "configuration input must be one non-empty regular file"
        | Some status =>
            if negb (S_ISREG (fs_mode status)) || negb (fs_nlink status =? 1) || (fs_size status <=? 0)
            then failure permission_denied "configuration input must be one non-empty regular file"
            else if (if bool_decide (k = config_file) then kMaximumConfigBytes
                     else kMaxCredentialSecretBytes) <? fs_size status then
              failure resource_exhausted "configuration input file exceeds its limit"
            else if negb (fs_uid status =? effective_user)
                    || negb (Z.land (fs_mode status)
                               (if bool_decide (k = private_credential) then 0x3f else 0x12) =? 0) then
              failure permission_denied
                (if bool_decide (k = private_credential)
                 then "private credential file must be owned by the daemon user and inaccessible to others"
                 else "configuration input must be owned by the daemon user and not writable by others")
            else
              match read_all (of_reads file) (fs_size status) [] with
              | None =>
                  failure invalid_argument "configuration input file could not be read completely"
              | Some data =>
                  if bool_decide (kNul ∈ data) then
                    failure invalid_argument "configuration input contains a NUL byte"
                  else Ok data
              end
        end
    end.

(** ** Parsing *)

Definition config_limits : JsonLimits :=
  mkJsonLimits kMaximumJsonDepth kMaximumJsonNodes kMaximumJsonStringBytes duplicate_key.

(** [parse_json]. *)
Definition parse_json `{JsonLibrary} (data : bytes) : Result Json :=
  if has_bom data then
    failure invalid_argument "declarative configuration must not contain a UTF-8 BOM"
  else
    match json_text data with
    | None => failure invalid_argument "declarative configuration is not strict JSON"
    | Some text =>
        let limits := accept_all config_limits (json_events text) ParseLimits_new in
        match limit_failure limits with
        | no_failure => Ok (as_parsed text)
        | duplicate_key =>
            failure invalid_argument "declarative configuration contains a duplicate key"
        | _ => failure resource_exhausted "declarative configuration exceeds a parsing limit"
        end
    end.

(** ** What a file that is read satisfies *)

Lemma read_all_length reads size data result :
  read_all reads size data = Some result -> Zlen result = size.
Proof.
  revert data. induction reads as [|[chunk| |] reads IH]; intros data; simpl;
    (destruct (Z.eqb_spec (Zlen data) size); [intros [= <-]; done|]); try done; [|by apply IH].
  destruct (take _ chunk); [done|]. apply IH.
Qed.

(** A file that is accepted is not empty, within the limit of its kind, without NUL bytes,
    and no other user can have written it. *)
Lemma read_file_inv `{FileSystem} path k data :
  read_file path k = Ok data ->
  0 < Zlen data /\
  Zlen data <= (if bool_decide (k = config_file) then kMaximumConfigBytes
                else kMaxCredentialSecretBytes) /\
  (kNul ∉ data) /\
  exists file status, open_file path = inl file /\ of_status file = Some status /\
    fs_uid status = effective_user /\ Z.land (fs_mode status) 0x12 = 0 /\
    (k = private_credential -> Z.land (fs_mode status) 0x3f = 0).
Proof.
  unfold read_file. destruct (_ || _ || _); [done|].
  destruct (open_file path) as [file|error] eqn:Ef; [|done].
  destruct (of_status file) as [status|] eqn:Es; [|done].
  destruct (negb (S_ISREG _) || _ || _) eqn:E1; [done|]. destruct (_ <? _) eqn:E2; [done|].
  destruct (negb (_ =? effective_user) || _) eqn:E3; [done|]. destruct (read_all _ _ _) as [d|] eqn:Er; [|done].
  destruct (bool_decide_reflect (kNul ∈ d)) as [|Hnul]; [done|]. intros [= <-]. apply read_all_length in Er.
  rewrite !orb_false_iff in E1, E3. destruct E1 as [_ E1], E3 as [E3 E4].
  apply Z.leb_gt in E1. apply Z.ltb_ge in E2. apply negb_false_iff, Z.eqb_eq in E3, E4.
  split; [lia|]. split; [lia|]. split; [done|]. exists file, status. split_and!; try done.
  - case_bool_decide; [|done]. change 0x12 with (Z.land 0x3f 0x12). by rewrite Z.land_assoc, E4, Z.land_0_l.
  - intros ->. done.
Qed.
