(* ===== verification/Config.v ===== *)
(** * The declarative configuration

    [DeclarativeConfig] of src/daemon/declarative_config.cpp: a document with servers and
    tunnels is compared with the stored records, which gives a plan of mutations
    ([prepare_plan]); [plan] reports it, [apply] carries it out in one transaction with the
    new credentials staged before and the old ones cleaned up after, [export_config] writes
    the stored records as such a document.  The methods of the control service that call
    them are at the end. *)
From stdpp Require Import sorting.
From S2P Require Import Prelude Common Ids Text Endpoint Models Rows Database Repository Json IpcProtocol Credentials Control ConfigFile.

(** ** Fields of an entry *)

Module Fields.
Definition field_error (field : string) (text : string) : Error :=
  mkError invalid_argument (bs field ++ bs text).

(** [exact_fields]. *)
Definition exact_fields (value : Json) (allowed : list string) : bool :=
  is_object value && forallb (fun key => bool_decide (key ∈ map bs allowed)) (json_keys value).

(** [nullable_string]. *)
Definition nullable_string (entry : Json) (field : string) : Result (option bytes) :=
  match json_find (bs field) entry with
  | None | Some JNull => Ok None
  | Some (JString text) =>
      if bool_decide (text = []) || (kMaximumJsonStringBytes <? Zlen text)
         || bool_decide (kNul ∈ text) then Err (field_error field " is invalid")
      else Ok (Some text)
  | Some _ => Err (field_error field " must be a string or null")
  end.

(** [required_string]. *)
Definition required_string (entry : Json) (field : string) : Result bytes :=
  value ← nullable_string entry field;
  match value with Some text => Ok text | None => Err (field_error field " is required") end.

(** [optional_enabled] and [optional_proxy_protocol]. *)
Definition optional_flag (entry : Json) (field : string) (default_value : bool) : Result bool :=
  match json_find (bs field) entry with
  | None => Ok default_value
  | Some (JBool b) => Ok b
  | Some _ => Err (field_error field " must be a boolean")
  end.

(** [required_port]. *)
Definition required_port (entry : Json) (field : string) : Result Z :=
  match json_find (bs field) entry with
  | Some (JUnsigned port) =>
      if (port =? 0) || (65535 <? port) then Err (field_error field " must be between 1 and 65535")
      else Ok port
  | _ => Err (field_error field " must be an unsigned integer")
  end.

(** [optional_port]. *)
Definition optional_port (entry : Json) (field : string) : Result (option Z) :=
  match json_find (bs field) entry with
  | None | Some JNull => Ok None
  | Some _ => port ← required_port entry field; Ok (Some port)
  end.
End Fields.

(** ** The plan *)

Inductive MutationKind : Set :=
| mutation_none | mutation_create | mutation_update | mutation_disable | mutation_remove.
#[export] Instance MutationKind_eq_decision : EqDecision MutationKind.
Proof. solve_decision. Defined.

(** [mutation_text]. *)
Definition mutation_text (m : MutationKind) : bytes :=
  match m with
  | mutation_none => bs "none"
  | mutation_create => bs "create"
  | mutation_update => bs "update"
  | mutation_disable => bs "disable"
  | mutation_remove => bs "delete"
  end.

Record CredentialMaterial : Set := mkCredentialMaterial {
  cm_kind : ServerCredentialKind;
  cm_previous : option bytes;
  cm_value : bytes;
  cm_changed : bool
}.

Record PreparedServer : Set := mkPreparedServer {
  ps_original : option ServerRecord;
  ps_desired : ServerRecord;
  ps_action_id : option bytes;
  ps_credentials : list CredentialMaterial;
  ps_mutation : MutationKind;
  ps_changes : list bytes;
  ps_transport_changed : bool;
  ps_state_changed : bool
}.

Record PreparedTunnel : Set := mkPreparedTunnel {
  pt_original : option TunnelRecord;
  pt_desired : TunnelRecord;
  pt_action_id : option bytes;
  pt_mutation : MutationKind;
  pt_changes : list bytes;
  pt_endpoint_changed : bool;
  pt_state_changed : bool
}.

Record PreparedPlan : Set := mkPreparedPlan {
  pp_servers : list PreparedServer;
  pp_tunnels : list PreparedTunnel;
  pp_actions : list Json
}.

(** [credential_path_field]. *)
Definition credential_path_field (k : ServerCredentialKind) : string :=
  match k with
  | psk => "psk_file"
  | ca_certificate => "ca_file"
  | client_certificate => "client_cert_file"
  | client_private_key => "client_key_file"
  end.

(** [credential_file_kind]. *)
Definition credential_file_kind (k : ServerCredentialKind) : FileKind :=
  match k with
  | psk | client_private_key => private_credential
  | ca_certificate | client_certificate => public_credential
  end.

(** The calls of [add_change]: the fields that changed. *)
Definition add_changes (l : list (bool * string)) : list bytes :=
  flat_map (fun x : bool * string => if x.1 then [bs x.2] else []) l.

Definition bytes_le (l1 l2 : bytes) : Prop := bytes_ltb l2 l1 = false.
#[export] Instance bytes_le_dec : RelDecision bytes_le.
Proof. unfold bytes_le. solve_decision. Defined.

(** [action_json]. *)
Definition action_json (m : MutationKind) (resource : string) (id name : option bytes)
    (changes : list bytes) : Json :=
  json_object [("action", JString (mutation_text m)); ("resource", JString (bs resource));
               ("id", optional_json id); ("name", optional_json name);
               ("changes", JArray (map JString (merge_sort bytes_le changes)))]%string.

(** ** Entries *)

Record ServerEntry : Set := mkServerEntry {
  se_id : option Id;
  se_name : option bytes;
  se_endpoint : Endpoint;
  se_tls_server_name : option bytes;
  se_enabled : bool
}.

Record TunnelEntry : Set := mkTunnelEntry {
  te_id_text : option bytes;
  te_name : option bytes;
  te_server : bytes;
  te_protocol : TunnelProtocol.t;
  te_local_host : option bytes;
  te_local_port : option Z;
  te_remote_host : option bytes;
  te_remote_port : Z;
  te_enabled : bool;
  te_proxy_protocol : bool
}.

Definition parse_entry_id (text : option bytes) (k : IdKind) : Result (option Id) :=
  match text with
  | None => Ok None
  | Some text => id ← Id_parse_kind text k; Ok (Some id)
  end.

(** The first part of the loop over the servers. *)
Definition read_server_entry `{AsioAddress} (entry : Json) : Result ServerEntry :=
  if negb (Fields.exact_fields entry
             ["id"; "name"; "endpoint"; "tls_server_name"; "enabled"; "psk_file"; "ca_file";
              "client_cert_file"; "client_key_file"; "credentials"])%string then
    failure invalid_argument "a declarative server contains an unknown field"
  else
  id_text ← Fields.nullable_string entry "id";
  name ← Fields.nullable_string entry "name";
  endpoint_value ← Fields.required_string entry "endpoint";
  tls_server_name ← Fields.nullable_string entry "tls_server_name";
  enabled ← Fields.optional_flag entry "enabled" true;
  if bool_decide (id_text = None) && bool_decide (name = None) then
    failure invalid_argument "each declarative server requires an id or name"
  else
  endpoint ← Endpoint_parse endpoint_value;
  id ← parse_entry_id id_text server;
  Ok (mkServerEntry id name endpoint tls_server_name enabled).

(** The first part of the loop over the tunnels, up to the look-up of the server. *)
Definition read_tunnel_entry (entry : Json) : Result TunnelEntry :=
  if negb (Fields.exact_fields entry
             ["id"; "name"; "server"; "protocol"; "local_host"; "local_port"; "remote_host";
              "remote_port"; "enabled"; "proxy_protocol"])%string then
    failure invalid_argument "a declarative tunnel contains an unknown field"
  else
  id_text ← Fields.nullable_string entry "id";
  name ← Fields.nullable_string entry "name";
  server_reference ← Fields.required_string entry "server";
  protocol_text ← Fields.nullable_string entry "protocol";
  local_host ← Fields.nullable_string entry "local_host";
  local_port ← Fields.optional_port entry "local_port";
  remote_host ← Fields.nullable_string entry "remote_host";
  remote_port ← Fields.required_port entry "remote_port";
  enabled ← Fields.optional_flag entry "enabled" true;
  proxy_protocol ← Fields.optional_flag entry "proxy_protocol" false;
  protocol ← enum_from_string (E := TunnelProtocol.t) (default (bs "tcp") protocol_text);
  if negb (bool_decide (protocol = TunnelProtocol.socks5)) && bool_decide (local_port = None) then
    failure invalid_argument "local_port is required for tcp, udp, and p2p tunnels"
  else if proxy_protocol && negb (bool_decide (protocol = TunnelProtocol.tcp)) then
    failure invalid_argument "proxy_protocol is only supported by tcp tunnels"
  else if bool_decide (id_text = None) && bool_decide (name = None) then
    failure invalid_argument "each declarative tunnel requires an id or name"
  else Ok (mkTunnelEntry id_text name server_reference protocol local_host local_port remote_host
             remote_port enabled proxy_protocol).

(** The identifiers and names the entries so far have taken. *)
Record Taken : Set := mkTaken {
  taken_ids : gset bytes;
  taken_names : gset bytes;
  matched_ids : gset bytes
}.

Definition Taken_new : Taken := mkTaken ∅ ∅ ∅.

(** The three [emplace]s; [None] when one of them finds its value. *)
Definition take_entry (id : Id) (name : option bytes) (matched : option Id) (s : Taken) :
  option Taken :=
  if bool_decide (str id ∈ taken_ids s)
     || match name with Some n => bool_decide (n ∈ taken_names s) | None => false end
     || match matched with Some m => bool_decide (str m ∈ matched_ids s) | None => false end then None
  else
    Some (mkTaken ({[str id]} ∪ taken_ids s)
            (match name with Some n => {[n]} ∪ taken_names s | None => taken_names s end)
            (match matched with Some m => {[str m]} ∪ matched_ids s | None => matched_ids s end)).

(** [std::find_if] over the stored servers. *)
Definition match_server (servers : list ServerRecord) (e : ServerEntry) : option ServerRecord :=
  match se_id e with
  | Some id => find (fun r => bool_decide (sr_id r = id)) servers
  | None => find (fun r => bool_decide (sr_name r = se_name e)) servers
  end.

Definition desired_state_of (enabled : bool) : ServerDesiredState.t :=
  if enabled then ServerDesiredState.enabled else ServerDesiredState.disabled.

(** The record of an entry: the stored one, or a new one, with the fields of the entry. *)
Definition desired_server (matched : option ServerRecord) (id : Id) (now : Z) (e : ServerEntry) :
  ServerRecord :=
  let r :=
    match matched with
    | Some r => r
    | None => {|
        sr_id := id; sr_name := None; sr_endpoint := se_endpoint e; sr_credential_ref := None;
        sr_remote_server_id := None; sr_desired_state := ServerDesiredState.enabled;
        sr_actual_state := ServerActualState.not_authenticated; sr_last_error_code := None;
        sr_last_error_message := None; sr_reconnect_attempt := 0; sr_latency_ms := None;
        sr_created_at := now; sr_updated_at := now; sr_tls_server_name := None;
        sr_ca_credential_ref := None; sr_client_certificate_ref := None;
        sr_client_private_key_ref := None; sr_config_revision := 1;
        sr_managed_by_config := false |}
    end in
  mkServerRecord (sr_id r) (se_name e) (se_endpoint e) (sr_credential_ref r)
    (sr_remote_server_id r) (desired_state_of (se_enabled e)) (sr_actual_state r)
    (sr_last_error_code r) (sr_last_error_message r) (sr_reconnect_attempt r) (sr_latency_ms r)
    (sr_created_at r) (sr_updated_at r) (se_tls_server_name e) (sr_ca_credential_ref r)
    (sr_client_certificate_ref r) (sr_client_private_key_ref r) (sr_config_revision r) true.

(** The material of the kind at [index]. *)
Definition final_value (credentials : list CredentialMaterial) (index : nat) : bytes :=
  default [] (cm_value <$> credentials !! index).

(** [marker_value]. *)
Definition marker_value (markers : Json) (field : string) (expected : bool) : bool :=
  match json_find (bs field) markers with
  | None => true
  | Some (JBool b) => eqb b expected
  | Some _ => false
  end.

Definition is_set (value : bytes) : bool := negb (bool_decide (value = [])).

(** [validate_credential_markers]. *)
Definition validate_credential_markers (entry : Json) (credentials : list CredentialMaterial) :
  Result unit :=
  match json_find (bs "credentials") entry with
  | None => success
  | Some markers =>
      if negb (Fields.exact_fields markers ["psk"; "ca"; "client_certificate"])%string then
        failure invalid_argument "credentials markers contain an unknown field"
      else if negb (marker_value markers "psk" (is_set (final_value credentials 0)))
              || negb (marker_value markers "ca" (is_set (final_value credentials 1)))
              || negb (marker_value markers "client_certificate"
                         (is_set (final_value credentials 2) && is_set (final_value credentials 3)))
      then failure invalid_argument "credential availability marker does not match resulting state"
      else success
  end.

(** The state of a server whose transport is to be set up anew. *)
Definition initial_server_state (desired : ServerDesiredState.t) (has_credential : bool) :
  ServerActualState.t :=
  if bool_decide (desired = ServerDesiredState.disabled) then ServerActualState.disabled
  else if has_credential then ServerActualState.disconnected else ServerActualState.not_authenticated.

Definition set_actual_state (actual : ServerActualState.t) (r : ServerRecord) : ServerRecord :=
  mkServerRecord (sr_id r) (sr_name r) (sr_endpoint r) (sr_credential_ref r)
    (sr_remote_server_id r) (sr_desired_state r) actual (sr_last_error_code r)
    (sr_last_error_message r) (sr_reconnect_attempt r) (sr_latency_ms r) (sr_created_at r)
    (sr_updated_at r) (sr_tls_server_name r) (sr_ca_credential_ref r)
    (sr_client_certificate_ref r) (sr_client_private_key_ref r) (sr_config_revision r)
    (sr_managed_by_config r).

(** The last part of the loop over the servers: what changes, and the mutation. *)
Definition classify_server (matched : option ServerRecord) (desired : ServerRecord)
    (action_id : option bytes) (credentials : list CredentialMaterial) : PreparedServer :=
  let material_changed := existsb cm_changed credentials in
  let material_changes :=
    add_changes (map (fun m => (cm_changed m, credential_path_field (cm_kind m))) credentials) in
  match matched with
  | None =>
      let actual := initial_server_state (sr_desired_state desired) (is_set (final_value credentials 0)) in
      mkPreparedServer None (set_actual_state actual desired) action_id credentials mutation_create
        material_changes material_changed false
  | Some r =>
      let name_changed := negb (bool_decide (sr_name r = sr_name desired)) in
      let endpoint_changed := negb (bool_decide (sr_endpoint r = sr_endpoint desired)) in
      let tls_changed := negb (bool_decide (sr_tls_server_name r = sr_tls_server_name desired)) in
      let state_changed := negb (bool_decide (sr_desired_state r = sr_desired_state desired)) in
      let changes := material_changes ++
        add_changes [(name_changed, "name"); (endpoint_changed, "endpoint");
                     (tls_changed, "tls_server_name"); (negb (sr_managed_by_config r), "ownership");
                     (state_changed, "enabled")]%string in
      let m :=
        if bool_decide (changes = []) then mutation_none
        else if bool_decide (sr_desired_state desired = ServerDesiredState.disabled)
                && negb (bool_decide (sr_desired_state r = ServerDesiredState.disabled))
        then mutation_disable else mutation_update in
      mkPreparedServer (Some r) desired action_id credentials m changes
        (material_changed || endpoint_changed || tls_changed) state_changed
  end.

(** [prepared.servers] at the identifier or the name a tunnel refers to. *)
Definition find_parent (servers : list PreparedServer) (reference : bytes) : option PreparedServer :=
  match Id_parse_kind reference server with
  | Ok id => find (fun s => bool_decide (str (sr_id (ps_desired s)) = str id)) servers
  | Err _ => find (fun s => bool_decide (sr_name (ps_desired s) = Some reference)) servers
  end.

(** The stored tunnel an entry means; an error when its name is ambiguous. *)
Definition match_tunnel (tunnels : list TunnelRecord) (id : option Id) (name : option bytes) :
  Result (option TunnelRecord) :=
  match id with
  | Some id => Ok (find (fun t => bool_decide (tr_id t = id)) tunnels)
  | None =>
      let has_name := fun t => bool_decide (tr_name t = name) in
      if 1 <? Zlen (List.filter has_name tunnels) then
        failure invalid_argument "a declarative tunnel name matches multiple existing tunnels"
      else Ok (find has_name tunnels)
  end.

Definition desired_tunnel_state_of (enabled : bool) : TunnelDesiredState.t :=
  if enabled then TunnelDesiredState.active else TunnelDesiredState.disabled.

Definition initial_tunnel_state (desired : TunnelDesiredState.t) : TunnelActualState.t :=
  if bool_decide (desired = TunnelDesiredState.active) then TunnelActualState.pending
  else TunnelActualState.disabled.

Definition desired_tunnel (matched : option TunnelRecord) (id server_id : Id) (now : Z)
    (local remote : Endpoint) (e : TunnelEntry) : TunnelRecord :=
  let t :=
    match matched with
    | Some t => t
    | None => {|
        tr_id := id; tr_name := None; tr_server_id := server_id; tr_protocol := te_protocol e;
        tr_local_endpoint := local; tr_remote_endpoint := remote;
        tr_desired_state := TunnelDesiredState.active;
        tr_actual_state := TunnelActualState.pending; tr_last_error_code := None;
        tr_last_error_message := None; tr_created_at := now; tr_updated_at := now;
        tr_last_synced_at := None; tr_config_revision := 1; tr_managed_by_config := false;
        tr_proxy_protocol := false |}
    end in
  mkTunnelRecord (tr_id t) (te_name e) (tr_server_id t) (te_protocol e) local remote
    (desired_tunnel_state_of (te_enabled e)) (tr_actual_state t) (tr_last_error_code t)
    (tr_last_error_message t) (tr_created_at t) (tr_updated_at t) (tr_last_synced_at t)
    (tr_config_revision t) true (te_proxy_protocol e).

Definition set_tunnel_actual (actual : TunnelActualState.t) (t : TunnelRecord) : TunnelRecord :=
  mkTunnelRecord (tr_id t) (tr_name t) (tr_server_id t) (tr_protocol t) (tr_local_endpoint t)
    (tr_remote_endpoint t) (tr_desired_state t) actual (tr_last_error_code t)
    (tr_last_error_message t) (tr_created_at t) (tr_updated_at t) (tr_last_synced_at t)
    (tr_config_revision t) (tr_managed_by_config t) (tr_proxy_protocol t).

Definition classify_tunnel (matched : option TunnelRecord) (desired : TunnelRecord)
    (action_id : option bytes) : PreparedTunnel :=
  match matched with
  | None =>
      mkPreparedTunnel None (set_tunnel_actual (initial_tunnel_state (tr_desired_state desired)) desired)
        action_id mutation_create [] false false
  | Some t =>
      let protocol_changed := negb (bool_decide (tr_protocol t = tr_protocol desired)) in
      let local_changed := negb (bool_decide (tr_local_endpoint t = tr_local_endpoint desired)) in
      let remote_changed := negb (bool_decide (tr_remote_endpoint t = tr_remote_endpoint desired)) in
      let state_changed := negb (bool_decide (tr_desired_state t = tr_desired_state desired)) in
      let changes := add_changes
        [(negb (bool_decide (tr_name t = tr_name desired)), "name"); (protocol_changed, "protocol");
         (negb (bool_decide (tr_proxy_protocol t = tr_proxy_protocol desired)), "proxy_protocol");
         (local_changed, "local_endpoint"); (remote_changed, "remote_port");
         (negb (tr_managed_by_config t), "ownership"); (state_changed, "enabled")]%string in
      let m :=
        if bool_decide (changes = []) then mutation_none
        else if bool_decide (tr_desired_state desired = TunnelDesiredState.disabled)
                && negb (bool_decide (tr_desired_state t = TunnelDesiredState.disabled))
        then mutation_disable else mutation_update in
      mkPreparedTunnel (Some t) desired action_id m changes
        (local_changed || remote_changed || protocol_changed) state_changed
  end.

(** ** Pruning *)

Definition pruned_tunnel (t : TunnelRecord) : PreparedTunnel :=
  mkPreparedTunnel (Some t) t (Some (str (tr_id t))) mutation_remove [bs "resource"] false false.

Definition pruned_server (r : ServerRecord) : PreparedServer :=
  mkPreparedServer (Some r) r (Some (str (sr_id r)))
    (replicate 4 (mkCredentialMaterial psk None [] false)) mutation_remove [bs "resource"] false false.

Definition prune_tunnels (tunnels : list TunnelRecord) (matched : gset bytes) : list PreparedTunnel :=
  map pruned_tunnel
    (List.filter (fun t => tr_managed_by_config t && negb (bool_decide (str (tr_id t) ∈ matched))) tunnels).

Fixpoint prune_servers (servers : list ServerRecord) (tunnels : list TunnelRecord)
    (matched : gset bytes) : Result (list PreparedServer) :=
  match servers with
  | [] => Ok []
  | r :: servers =>
      if negb (sr_managed_by_config r) || bool_decide (str (sr_id r) ∈ matched)
      then prune_servers servers tunnels matched
      else if existsb (fun t => bool_decide (tr_server_id t = sr_id r)
                                && negb (tr_managed_by_config t)) tunnels then
        failure invalid_argument "prune would cascade into an imperatively managed tunnel"
      else rest ← prune_servers servers tunnels matched; Ok (pruned_server r :: rest)
  end.

(** ** Actions *)

Definition string_field (field : string) (j : Json) : option bytes :=
  match json_find (bs field) j with Some (JString text) => Some text | _ => None end.

(** The key the actions are sorted by. *)
Definition action_key (j : Json) : list bytes :=
  [default [] (string_field "resource" j);
   default [] (match string_field "id" j with Some id => Some id | None => string_field "name" j end);
   default [] (string_field "action" j)].

Fixpoint keys_ltb (l1 l2 : list bytes) : bool :=
  match l1, l2 with
  | k1 :: l1, k2 :: l2 => bytes_ltb k1 k2 || (negb (bytes_ltb k2 k1) && keys_ltb l1 l2)
  | _, _ => false
  end.

Definition action_le (j1 j2 : Json) : Prop := keys_ltb (action_key j2) (action_key j1) = false.
#[export] Instance action_le_dec : RelDecision action_le.
Proof. unfold action_le. solve_decision. Defined.

Definition server_actions (l : list PreparedServer) : list Json :=
  map (fun s => action_json (ps_mutation s) "server" (ps_action_id s) (sr_name (ps_desired s))
                  (ps_changes s))
    (List.filter (fun s => negb (bool_decide (ps_mutation s = mutation_none))) l).

Definition tunnel_actions (l : list PreparedTunnel) : list Json :=
  map (fun t => action_json (pt_mutation t) "tunnel" (pt_action_id t) (tr_name (pt_desired t))
                  (pt_changes t))
    (List.filter (fun t => negb (bool_decide (pt_mutation t = mutation_none))) l).

(** ** Preparation *)

Section Config.
Context `{AsioAddress} `{SqliteMessages} `{ControlEnvironment} `{FileSystem} `{JsonLibrary}.
Context {S : Type} `{CredentialStore S}.
Variable limits : StorageLimits.
Abbreviation Control := (Control S).

(** [load_current_material]. *)
Definition load_current_material (reference : option bytes) : Action Control bytes := fun c =>
  match reference with
  | None => (Ok [], c)
  | Some key =>
      match on_store (credential_get key) c with
      | (Err e, c) => (Err (mkError (code e) (bs "a referenced credential is unavailable")), c)
      | r => r
      end
  end.

(** The line endings at the end of a PSK file are dropped. *)
Fixpoint drop_line_endings (reversed : bytes) : bytes :=
  match reversed with
  | b :: rest => if bool_decide (b = Byte.x0a) || bool_decide (b = Byte.x0d)
                 then drop_line_endings rest else reversed
  | [] => []
  end.

Definition normalise_material (k : ServerCredentialKind) (data : bytes) : Result bytes :=
  if negb (bool_decide (k = psk)) then Ok data
  else
    let data := reverse (drop_line_endings (reverse data)) in
    if bool_decide (data = []) then
      failure invalid_argument "psk_file contains an empty secret after line-ending normalization"
    else Ok data.

(** [prepare_credential]. *)
Definition prepare_credential (entry : Json) (base_directory : bytes) (current : ServerRecord)
    (k : ServerCredentialKind) : Action Control CredentialMaterial :=
  let previous := credential_reference current k in
  current_value ← load_current_material previous;
  match json_find (bs (credential_path_field k)) entry with
  | None => mret (mkCredentialMaterial k previous current_value false)
  | Some JNull => mret (mkCredentialMaterial k previous [] (is_set current_value))
  | Some (JString text) =>
      let path := if is_absolute text then text else path_append base_directory text in
      data ← ST_lift (read_file (lexically_normal path) (credential_file_kind k));
      value ← ST_lift (normalise_material k data);
      mret (mkCredentialMaterial k previous value (negb (bool_decide (value = current_value))))
  | Some _ =>
      ST_fail (Fields.field_error (credential_path_field k) " must be a file path or null")
  end.

Fixpoint prepare_credentials (entry : Json) (base_directory : bytes) (current : ServerRecord)
    (kinds : list ServerCredentialKind) : Action Control (list CredentialMaterial) :=
  match kinds with
  | [] => mret []
  | k :: kinds =>
      material ← prepare_credential entry base_directory current k;
      rest ← prepare_credentials entry base_directory current kinds;
      mret (material :: rest)
  end.

(** The identifier of an entry: the specified one, the matched one or a new one. *)
Definition entry_id (specified matched : option Id) (k : IdKind) : Action Control Id :=
  match specified, matched with
  | Some id, _ | None, Some id => mret id
  | None, None => generate_id k
  end.

(** One pass of the loop over the servers. *)
Definition prepare_server (base_directory : bytes) (servers : list ServerRecord) (s : Taken)
    (entry : Json) : Action Control (Taken * PreparedServer) :=
  e ← ST_lift (read_server_entry entry);
  let matched := match_server servers e in
  id ← entry_id (se_id e) (sr_id <$> matched) server;
  match take_entry id (se_name e) (sr_id <$> matched) s with
  | None => fail_with already_exists "declarative servers contain a duplicate id or name"
  | Some s =>
      now ← unix_milliseconds_now;
      let desired := desired_server matched id now e in
      let action_id :=
        if bool_decide (is_Some (se_id e)) || bool_decide (is_Some matched) then Some (str id)
        else None in
      credentials ← prepare_credentials entry base_directory (default desired matched)
                      [psk; ca_certificate; client_certificate; client_private_key];
      if negb (eqb (is_set (final_value credentials 2)) (is_set (final_value credentials 3))) then
        fail_with invalid_argument "client_cert_file and client_key_file must resolve together"
      else
      _ ← ST_lift (make_client_tls_context (final_value credentials 1) (final_value credentials 2)
                     (final_value credentials 3));
      _ ← ST_lift (validate_credential_markers entry credentials);
      mret (s, classify_server matched desired action_id credentials)
  end.

Fixpoint prepare_servers (base_directory : bytes) (servers : list ServerRecord) (s : Taken)
    (entries : list Json) : Action Control (Taken * list PreparedServer) :=
  match entries with
  | [] => mret (s, [])
  | entry :: entries =>
      '(s, item) ← prepare_server base_directory servers s entry;
      '(s, rest) ← prepare_servers base_directory servers s entries;
      mret (s, item :: rest)
  end.

(** One pass of the loop over the tunnels. *)
Definition prepare_tunnel (prepared : list PreparedServer) (tunnels : list TunnelRecord) (s : Taken)
    (entry : Json) : Action Control (Taken * PreparedTunnel) :=
  e ← ST_lift (read_tunnel_entry entry);
  match find_parent prepared (te_server e) with
  | None =>
      fail_with not_found "a declarative tunnel references a server absent from the configuration"
  | Some parent =>
      let server_id := sr_id (ps_desired parent) in
      specified ← ST_lift (parse_entry_id (te_id_text e) tunnel);
      matched ← ST_lift (match_tunnel tunnels specified (te_name e));
      id ← entry_id specified (tr_id <$> matched) tunnel;
      match take_entry id (te_name e) (tr_id <$> matched) s with
      | None => fail_with already_exists "declarative tunnels contain a duplicate id or name"
      | Some s =>
          if match matched with
             | Some t => negb (bool_decide (tr_server_id t = server_id)) | None => false
             end then
            fail_with invalid_argument "a tunnel's server ownership and stable id cannot be changed"
          else
          let bind_host :=
            default (if bool_decide (te_protocol e = TunnelProtocol.socks5) then bs "127.0.0.1"
                     else bs "0.0.0.0") (te_remote_host e) in
          local ← ST_lift (Endpoint_parse
            (endpoint_text (default (bs "127.0.0.1") (te_local_host e)) (default 1 (te_local_port e))));
          remote ← ST_lift (Endpoint_parse (endpoint_text bind_host (te_remote_port e)));
          _ ← ST_lift (validate_protocol_binding (te_protocol e) remote);
          now ← unix_milliseconds_now;
          let desired := desired_tunnel matched id server_id now local remote e in
          let action_id :=
            if bool_decide (is_Some specified) || bool_decide (is_Some matched) then Some (str id)
            else None in
          mret (s, classify_tunnel matched desired action_id)
      end
  end.

Fixpoint prepare_tunnels (prepared : list PreparedServer) (tunnels : list TunnelRecord) (s : Taken)
    (entries : list Json) : Action Control (Taken * list PreparedTunnel) :=
  match entries with
  | [] => mret (s, [])
  | entry :: entries =>
      '(s, item) ← prepare_tunnel prepared tunnels s entry;
      '(s, rest) ← prepare_tunnels prepared tunnels s entries;
      mret (s, item :: rest)
  end.

(** The members [servers] and [tunnels] of a document of the accepted format. *)
Definition document_entries (document : Json) : Result (list Json * list Json) :=
  match Fields.exact_fields document ["format_version"; "servers"; "tunnels"]%string,
        json_find (bs "format_version") document, json_find (bs "servers") document,
        json_find (bs "tunnels") document with
  | true, Some (JUnsigned 1), Some (JArray servers), Some (JArray tunnels) => Ok (servers, tunnels)
  | _, _, _, _ =>
      failure invalid_argument "declarative configuration must use strict format_version 1"
  end.

Definition base_directory_of (path : bytes) : bytes :=
  if decide (parent_path path = []) then bs "." else parent_path path.

(** [prepare_plan]. *)
Definition prepare_plan (config_path : bytes) (prune : bool) : Action Control PreparedPlan :=
  if bool_decide (config_path = []) || (kMaximumPathBytes <? Zlen config_path)
     || bool_decide (kNul ∈ config_path) then
    fail_with invalid_argument "declarative configuration path is invalid"
  else
  data ← ST_lift (read_file (lexically_normal config_path) config_file);
  document ← ST_lift (parse_json data);
  '(server_entries, tunnel_entries) ← ST_lift (document_entries document);
  '(servers, tunnels) ← list_all limits;
  let servers := List.filter (fun r => negb (server_removed r)) servers in
  let tunnels := List.filter (fun t => negb (tunnel_removed t)) tunnels in
  '(seen_servers, prepared_servers) ←
    prepare_servers (base_directory_of config_path) servers Taken_new server_entries;
  '(seen_tunnels, prepared_tunnels) ←
    prepare_tunnels prepared_servers tunnels Taken_new tunnel_entries;
  '(prepared_servers, prepared_tunnels) ← (
    if prune then
      let prepared_tunnels := prepared_tunnels ++ prune_tunnels tunnels (matched_ids seen_tunnels) in
      pruned ← ST_lift (prune_servers servers tunnels (matched_ids seen_servers));
      mret (prepared_servers ++ pruned, prepared_tunnels)
    else mret (prepared_servers, prepared_tunnels));
  mret (mkPreparedPlan prepared_servers prepared_tunnels
          (merge_sort action_le (server_actions prepared_servers ++ tunnel_actions prepared_tunnels))).

(** ** Application *)

(** [set_credential_reference]. *)
Definition set_credential_reference (k : ServerCredentialKind) (reference : option bytes)
    (r : ServerRecord) : ServerRecord :=
  match k with
  | psk => set_server_refs reference (sr_ca_credential_ref r) (sr_client_certificate_ref r)
             (sr_client_private_key_ref r) r
  | ca_certificate => set_server_refs (sr_credential_ref r) reference (sr_client_certificate_ref r)
                        (sr_client_private_key_ref r) r
  | client_certificate => set_server_refs (sr_credential_ref r) (sr_ca_credential_ref r) reference
                            (sr_client_private_key_ref r) r
  | client_private_key => set_server_refs (sr_credential_ref r) (sr_ca_credential_ref r)
                            (sr_client_certificate_ref r) reference r
  end.

(** Resources without a mutation, or to be removed. *)
Definition skipped (m : MutationKind) : bool :=
  bool_decide (m = mutation_none) || bool_decide (m = mutation_remove).

Definition set_desired (r : ServerRecord) (s : PreparedServer) : PreparedServer :=
  mkPreparedServer (ps_original s) r (ps_action_id s) (ps_credentials s) (ps_mutation s)
    (ps_changes s) (ps_transport_changed s) (ps_state_changed s).

(** The inner loop of the staging: [StagedCredentialSet::put] of every new material; an
    early return destroys the set, which removes the keys staged so far. *)
Fixpoint stage_materials (l : list CredentialMaterial) (r : ServerRecord) (keys : list bytes) :
  Action Control (ServerRecord * list bytes) :=
  match l with
  | [] => mret (r, keys)
  | m :: l =>
      if negb (cm_changed m) then stage_materials l r keys
      else if bool_decide (cm_value m = [])
      then stage_materials l (set_credential_reference (cm_kind m) None r) keys
      else
        let key := next_server_credential_key r (cm_kind m) in
        _ ← discarding keys (on_store (credential_put key (cm_value m)));
        stage_materials l (set_credential_reference (cm_kind m) (Some key) r) (keys ++ [key])
  end.

Fixpoint stage_servers (l : list PreparedServer) (keys : list bytes) :
  Action Control (list PreparedServer * list bytes) :=
  match l with
  | [] => mret ([], keys)
  | s :: l =>
      '(s, keys) ← (
        if skipped (ps_mutation s) then mret (s, keys)
        else
          '(r, keys) ← stage_materials (ps_credentials s) (ps_desired s) keys;
          mret (set_desired r s, keys));
      '(rest, keys) ← stage_servers l keys;
      mret (s :: rest, keys)
  end.

(** The configuration of [desired] in the record that is stored now. *)
Definition adopt_server (desired live : ServerRecord) : ServerRecord :=
  mkServerRecord (sr_id live) (sr_name desired) (sr_endpoint desired) (sr_credential_ref desired)
    (sr_remote_server_id live) (sr_desired_state desired) (sr_actual_state live)
    (sr_last_error_code live) (sr_last_error_message live) (sr_reconnect_attempt live)
    (sr_latency_ms live) (sr_created_at live) (sr_updated_at live) (sr_tls_server_name desired)
    (sr_ca_credential_ref desired) (sr_client_certificate_ref desired)
    (sr_client_private_key_ref desired) (sr_config_revision live) true.

Definition restart_server (r : ServerRecord) : ServerRecord :=
  set_server_states (sr_desired_state r)
    (initial_server_state (sr_desired_state r) (bool_decide (is_Some (sr_credential_ref r))))
    (set_remote_server_id None r).

(** One pass of the loop that creates and updates servers. *)
Definition apply_server (s : PreparedServer) : Action Control PreparedServer :=
  if skipped (ps_mutation s) then mret s
  else
    match ps_original s with
    | None =>
        _ ← on_db (ServerRepository.create_in (max_servers limits) (ps_desired s)); mret s
    | Some original =>
        live ← attempt (on_db (ServerRepository.get_by_id (sr_id (ps_desired s))));
        match live with
        | Err _ =>
            fail_with database_error
              "server configuration changed while declarative apply was preparing"
        | Ok live =>
            if negb (sr_config_revision live =? sr_config_revision original) || server_removed live
            then fail_with database_error
                   "server configuration changed while declarative apply was preparing"
            else
            let r := adopt_server (ps_desired s) live in
            revision ← ST_lift (next_revision (sr_config_revision r));
            let r := if ps_transport_changed s || ps_state_changed s then restart_server r else r in
            updated_at ← update_time (sr_updated_at r);
            let r := set_server_version revision updated_at r in
            _ ← on_db (ServerRepository.update_in r);
            mret (set_desired r s)
        end
    end.

Fixpoint apply_servers (l : list PreparedServer) : Action Control (list PreparedServer) :=
  match l with
  | [] => mret []
  | s :: l => s ← apply_server s; rest ← apply_servers l; mret (s :: rest)
  end.

Definition adopt_tunnel (desired live : TunnelRecord) : TunnelRecord :=
  mkTunnelRecord (tr_id live) (tr_name desired) (tr_server_id live) (tr_protocol desired)
    (tr_local_endpoint desired) (tr_remote_endpoint desired) (tr_desired_state desired)
    (tr_actual_state live) (tr_last_error_code live) (tr_last_error_message live)
    (tr_created_at live) (tr_updated_at live) (tr_last_synced_at live) (tr_config_revision live)
    true (tr_proxy_protocol desired).

Definition set_tunnel_version (revision updated_at : Z) (t : TunnelRecord) : TunnelRecord :=
  mkTunnelRecord (tr_id t) (tr_name t) (tr_server_id t) (tr_protocol t) (tr_local_endpoint t)
    (tr_remote_endpoint t) (tr_desired_state t) (tr_actual_state t) (tr_last_error_code t)
    (tr_last_error_message t) (tr_created_at t) updated_at (tr_last_synced_at t) revision
    (tr_managed_by_config t) (tr_proxy_protocol t).

(** One pass of the loop that creates and updates tunnels. *)
Definition apply_tunnel (x : PreparedTunnel) : Action Control unit :=
  if skipped (pt_mutation x) then mret tt
  else
    match pt_original x with
    | None => on_db (TunnelRepository.create_in (max_tunnels limits) (pt_desired x))
    | Some original =>
        live ← attempt (on_db (TunnelRepository.get_by_id (tr_id (pt_desired x))));
        match live with
        | Err _ =>
            fail_with database_error
              "tunnel configuration changed while declarative apply was preparing"
        | Ok live =>
            if negb (tr_config_revision live =? tr_config_revision original) || tunnel_removed live
            then fail_with database_error
                   "tunnel configuration changed while declarative apply was preparing"
            else
            let t := adopt_tunnel (pt_desired x) live in
            revision ← ST_lift (next_revision (tr_config_revision t));
            updated_at ← update_time (tr_updated_at t);
            let t :=
              if pt_endpoint_changed x || pt_state_changed x
              then set_tunnel_states (tr_desired_state t) (initial_tunnel_state (tr_desired_state t))
                     revision updated_at t
              else set_tunnel_version revision updated_at t in
            on_db (TunnelRepository.update_in t)
        end
    end.

(** One pass of the loops that remove tunnels and servers. *)
Definition remove_pruned_tunnel (x : PreparedTunnel) : Action Control unit :=
  if negb (bool_decide (pt_mutation x = mutation_remove)) then mret tt
  else
    live ← attempt (on_db (TunnelRepository.get_by_id (tr_id (pt_desired x))));
    match live, pt_original x with
    | Ok live, Some original =>
        if negb (tr_config_revision live =? tr_config_revision original) then
          fail_with database_error
            "tunnel configuration changed while declarative prune was preparing"
        else
          removed_at ← update_time (tr_updated_at live);
          on_db (TunnelRepository.mark_removed_in (tr_id live) removed_at)
    | _, _ =>
        fail_with database_error "tunnel configuration changed while declarative prune was preparing"
    end.

Definition remove_pruned_server (s : PreparedServer) : Action Control unit :=
  if negb (bool_decide (ps_mutation s = mutation_remove)) then mret tt
  else
    live ← attempt (on_db (ServerRepository.get_by_id (sr_id (ps_desired s))));
    match live, ps_original s with
    | Ok live, Some original =>
        if negb (sr_config_revision live =? sr_config_revision original) then
          fail_with database_error
            "server configuration changed while declarative prune was preparing"
        else
          removed_at ← update_time (sr_updated_at live);
          on_db (ServerRepository.mark_removed_in (sr_id live) removed_at)
    | _, _ =>
        fail_with database_error "server configuration changed while declarative prune was preparing"
    end.

Fixpoint for_each {A} (f : A -> Action Control unit) (l : list A) : Action Control unit :=
  match l with
  | [] => mret tt
  | x :: l => _ ← f x; for_each f l
  end.

(** The transaction. *)
Definition apply_prepared (servers : list PreparedServer) (tunnels : list PreparedTunnel) :
  Action Control (list PreparedServer) :=
  servers ← apply_servers servers;
  _ ← for_each apply_tunnel tunnels;
  _ ← for_each remove_pruned_tunnel tunnels;
  _ ← for_each remove_pruned_server servers;
  _ ← on_db commit;
  mret servers.

(** The clean-up after the commit. *)
Definition cleanup_material (r : ServerRecord) (m : CredentialMaterial) : Action Control unit :=
  if negb (cm_changed m) then mret tt
  else
    _ ← attempt (on_store (cleanup_server_credential_kind (sr_id r) (cm_kind m) (cm_previous m)
                             (credential_reference r (cm_kind m))));
    mret tt.

Definition cleanup_prepared (s : PreparedServer) : Action Control unit :=
  if skipped (ps_mutation s) then mret tt
  else for_each (cleanup_material (ps_desired s)) (ps_credentials s).

Definition plan_json (actions : list Json) (prune : bool) : Json :=
  json_object [("actions", JArray actions); ("changed", JUnsigned (Zlen actions));
               ("prune", JBool prune)]%string.

(** [DeclarativeConfig::plan]. *)
Definition plan (path : bytes) (prune : bool) : Action Control Json :=
  prepared ← prepare_plan path prune;
  mret (plan_json (pp_actions prepared) prune).

(** [DeclarativeConfig::apply]. *)
Definition apply_config (path : bytes) (prune : bool) : Action Control Json :=
  prepared ← prepare_plan path prune;
  if bool_decide (pp_actions prepared = []) then mret (plan_json [] prune)
  else
    '(servers, keys) ← stage_servers (pp_servers prepared) [];
    servers ← discarding keys (scoped (apply_prepared servers (pp_tunnels prepared)));
    _ ← for_each cleanup_prepared servers;
    mret (plan_json (pp_actions prepared) prune).

(** ** Export *)

Definition exported_server (r : ServerRecord) : Json :=
  json_object [
    ("id", JString (str (sr_id r))); ("name", optional_json (sr_name r));
    ("endpoint", JString (Endpoint_to_string (sr_endpoint r)));
    ("tls_server_name", optional_json (sr_tls_server_name r));
    ("enabled", JBool (bool_decide (sr_desired_state r = ServerDesiredState.enabled)));
    ("credentials", json_object [
       ("psk", JBool (bool_decide (is_Some (sr_credential_ref r))));
       ("ca", JBool (bool_decide (is_Some (sr_ca_credential_ref r))));
       ("client_certificate", JBool (bool_decide (is_Some (sr_client_certificate_ref r))
                                     && bool_decide (is_Some (sr_client_private_key_ref r))))])]%string.

Definition exported_tunnel (t : TunnelRecord) : Json :=
  json_object [
    ("id", JString (str (tr_id t))); ("name", optional_json (tr_name t));
    ("server", JString (str (tr_server_id t))); ("protocol", JString (enum_to_string (tr_protocol t)));
    ("proxy_protocol", JBool (tr_proxy_protocol t));
    ("local_host", JString (host (tr_local_endpoint t)));
    ("local_port", if bool_decide (tr_protocol t = TunnelProtocol.socks5) then JNull
                   else JUnsigned (port (tr_local_endpoint t)));
    ("remote_host", JString (host (tr_remote_endpoint t)));
    ("remote_port", JUnsigned (port (tr_remote_endpoint t)));
    ("enabled", JBool (bool_decide (tr_desired_state t = TunnelDesiredState.active)))]%string.

Definition server_id_le (r1 r2 : ServerRecord) : Prop := bytes_le (str (sr_id r1)) (str (sr_id r2)).
Definition tunnel_id_le (t1 t2 : TunnelRecord) : Prop := bytes_le (str (tr_id t1)) (str (tr_id t2)).
#[export] Instance server_id_le_dec : RelDecision server_id_le := fun _ _ => bytes_le_dec _ _.
#[export] Instance tunnel_id_le_dec : RelDecision tunnel_id_le := fun _ _ => bytes_le_dec _ _.

Definition exported_document (servers : list ServerRecord) (tunnels : list TunnelRecord) : Json :=
  json_object [
    ("format_version", JUnsigned 1);
    ("servers", JArray (map exported_server
       (List.filter (fun r => negb (server_removed r)) (merge_sort server_id_le servers))));
    ("tunnels", JArray (map exported_tunnel
       (List.filter (fun t => negb (tunnel_removed t)) (merge_sort tunnel_id_le tunnels))))]%string.

(** [DeclarativeConfig::export_config]. *)
Definition export_config : Action Control Json :=
  scoped (
    '(servers, tunnels) ← list_all limits;
    _ ← on_db commit;
    mret (exported_document servers tunnels)).

(** ** The methods of the control service *)

(** [config_export]. *)
Definition config_export (p : Json) : Action Control Json :=
  _ ← ST_lift (validate_params p [] []);
  export_config.

Definition config_params (p : Json) : Result (bytes * bool) :=
  _ ← validate_params p ["path"]%string ["prune"]%string;
  path ← required_string p "path";
  prune ← optional_bool p "prune";
  Ok (path, prune).

(** [config_plan]. *)
Definition config_plan (p : Json) : Action Control Json :=
  '(path, prune) ← ST_lift (config_params p);
  plan path prune.

(** [config_apply]. *)
Definition config_apply (p : Json) : Action Control Json :=
  '(path, prune) ← ST_lift (config_params p);
  applied ← apply_config path prune;
  _ ← notify_if (match json_find (bs "changed") applied with
                 | Some (JUnsigned n) => negb (n =? 0)
                 | _ => false
                 end);
  mret applied.
End Config.
