(* ===== verification/ConfigRun.v ===== *)
(** * What a declarative configuration does to the two stores

    The preparation of a plan changes nothing; the staging puts the new credentials into
    slots no stored record refers to; the transaction makes the stored records conform to
    the entries of the document.  From this follows that the methods of the configuration
    keep the invariant of the control service. *)
From stdpp Require Import sorting.
From S2P Require Import Prelude Common Ids Text Endpoint Models Rows Database Repository StorageSpec StorageRun Storage Json IpcProtocol Credentials Control ControlRun ControlHandlers ControlServers ControlSagas ConfigFile Config.

(** ** Queries outside a transaction *)

Section Queries.
Context `{AsioAddressLaws} `{SqliteMessages} {S : Type} `{CredentialStoreLaws S}.
Implicit Types (c : Control S) (st : State) (n : nat).

Definition needs_connection {A} (m : Action Database A) : Prop := forall db a db',
  m db = (Ok a, db') -> poisoned_ db = false.

Lemma needs_usable {A} (m : Action Database A) : needs_connection (usable m).
Proof. intros db a db'. unfold usable. by destruct (poisoned_ db). Qed.

Lemma reading_rest {A} (m : Action Database A) st db : reading m -> at_rest st db -> at_rest st (m db).2.
Proof.
  intros Hm (Hc & Hx & Hps). destruct (Hm db) as (Hx' & Hp' & Ht). unfold at_rest.
  rewrite Hx', Hp'. unfold committed in *. destruct Ht as [[Ht Hs]|[Ht Hs]]; rewrite Hs, ?Ht; auto.
Qed.

(** The answer of a query on a usable connection is the one without failures. *)
Lemma query_answer {A} (m : Action Database A) (answer : Result A) st db a db' :
  steady m -> needs_connection m ->
  m (mkDatabase (encode st) None None false []) = (answer, mkDatabase (encode st) None None false []) ->
  at_rest st db -> m db = (Ok a, db') -> answer = Ok a.
Proof.
  intros Hm Hn Ha Hr E. pose proof (Hn _ _ _ E) as Hp.
  destruct (at_rest_usable st db Hr Hp) as [Ht [Hs Hx]].
  destruct (Hm db (mkDatabase (encode st) None None false [])) as [Hm' _].
  { by split_and!. }
  rewrite E in Hm'. destruct Hm' as [_ (c' & Ec & _)]. rewrite Ha in Ec. by injection Ec as -> _.
Qed.

Lemma ready_query {A} (m : Action Database A) (answer : Result A) st n c
    (Q : Result A -> Control S -> Prop) R :
  ready False st n c -> reading m -> steady m -> needs_connection m ->
  m (mkDatabase (encode st) None None false []) = (answer, mkDatabase (encode st) None None false []) ->
  (forall x db, (forall a, x = Ok a -> answer = Ok a) -> ready False st n (set_db db c) ->
     Q x (set_db db c)) ->
  runs (attempt (on_db m)) c Q R.
Proof.
  intros (Hr & Hst & Hok & Hn & Hs & _) Hread Hm Hneed Ha HQ. apply runs_attempt. unfold runs, on_db.
  pose proof (reading_rest m st _ Hread Hr) as Hr'. destruct (m (state_db c)) as [x db] eqn:E.
  assert (ready False st n (set_db db c)) as Hready.
  { destruct Hs as [He _]. split_and!; try done. }
  destruct x as [a|e]; apply HQ; try done. intros a' [= <-]. exact (query_answer m answer st _ _ _ Hm Hneed Ha Hr E).
Qed.

(** The records that are not removed. *)
Definition kept_servers st : list ServerRecord :=
  List.filter (fun r => negb (server_removed r)) (listed sr_created_at (st_servers st)).
Definition kept_tunnels st : list TunnelRecord :=
  List.filter (fun t => negb (tunnel_removed t)) (listed tr_created_at (st_tunnels st)).

Lemma elem_of_listed {Rec} (created : Rec -> Z) (m : gmap bytes Rec) r :
  r ∈ listed created m <-> exists i, m !! i = Some r.
Proof.
  unfold listed. rewrite list_elem_of_fmap. split.
  - intros ([i r'] & -> & Hin%elem_of_order_by_created). by exists i.
  - intros [i Hm]. exists (i, r). by rewrite elem_of_order_by_created.
Qed.

Lemma elem_of_kept_servers st r : valid_state st -> r ∈ kept_servers st <-> kept_server st r.
Proof.
  intros Hst. unfold kept_servers, kept_server. rewrite list_elem_of_In, filter_In, <- list_elem_of_In.
  rewrite elem_of_listed. unfold server_removed. rewrite negb_true_iff, bool_decide_eq_false. split.
  - intros [[i Hm] Hd]. destruct (valid_servers st Hst _ _ Hm) as [_ <-]. done.
  - intros [Hm Hd]. split; [by eexists|done].
Qed.

Lemma elem_of_kept_tunnels st t : valid_state st -> t ∈ kept_tunnels st <-> kept_tunnel st t.
Proof.
  intros Hst. unfold kept_tunnels, kept_tunnel. rewrite list_elem_of_In, filter_In, <- list_elem_of_In.
  rewrite elem_of_listed. unfold tunnel_removed. rewrite negb_true_iff, bool_decide_eq_false. split.
  - intros [[i Hm] Hd]. destruct (valid_tunnels st Hst _ _ Hm) as [_ <-]. done.
  - intros [Hm Hd]. split; [by eexists|done].
Qed.

Lemma list_all_runs limits st n c (Q : list ServerRecord * list TunnelRecord -> Control S -> Prop) :
  limits_wf limits -> ready False st n c ->
  (forall db, ready False st n (set_db db c) ->
     Q (listed sr_created_at (st_servers st), listed tr_created_at (st_tunnels st)) (set_db db c)) ->
  runs (list_all limits) c Q (fun _ c' => exists db, c' = set_db db c /\ ready False st n c').
Proof.
  intros [Hmax1 Hmax2] Hr HQ. pose proof Hr as (_ & Hst & _). unfold list_all. apply runs_bind.
  eapply (ready_query _ _ st n);
    [done|apply reading_list_servers|apply steady_server_list|apply needs_usable|
     apply list_servers_quiet; [done|lia]|].
  intros x1 db1 Hx1 Hr1. apply runs_bind. eapply (ready_query _ _ st n);
    [done|apply reading_list_tunnels|apply steady_tunnel_list|apply needs_usable|
     apply list_tunnels_quiet; [done|lia]|].
  intros x2 db2 Hx2 Hr2. apply runs_bind, runs_lift; [intros l1 ->|by exists db2].
  apply runs_bind, runs_lift; [intros l2 ->|by exists db2]. apply runs_ret.
  specialize (Hx1 l1 eq_refl). specialize (Hx2 l2 eq_refl).
  destruct (_ <? _) in Hx1; [done|]. destruct (_ <? _) in Hx2; [done|].
  injection Hx1 as <-. injection Hx2 as <-. by apply (HQ db2).
Qed.
End Queries.

(** ** The preparation *)

(** A record has the configuration of an entry. *)
Definition server_conforms (e : ServerEntry) (r : ServerRecord) : Prop :=
  (forall id, se_id e = Some id -> sr_id r = id) /\ sr_name r = se_name e /\
  sr_endpoint r = se_endpoint e /\ sr_tls_server_name r = se_tls_server_name e /\
  sr_desired_state r = desired_state_of (se_enabled e) /\ sr_managed_by_config r = true.

(** Two records have the same configuration. *)
Definition same_config (r1 r2 : ServerRecord) : Prop :=
  sr_id r1 = sr_id r2 /\ sr_name r1 = sr_name r2 /\ sr_endpoint r1 = sr_endpoint r2 /\
  sr_tls_server_name r1 = sr_tls_server_name r2 /\ sr_desired_state r1 = sr_desired_state r2 /\
  sr_managed_by_config r1 = sr_managed_by_config r2.

Lemma conforms_same e r1 r2 : same_config r1 r2 -> server_conforms e r2 -> server_conforms e r1.
Proof.
  intros (E1 & E2 & E3 & E4 & E5 & E6) (H1 & H2 & H3 & H4 & H5 & H6).
  split; [intros id Hid; rewrite E1; by apply H1|]. split_and!; congruence.
Qed.

Definition credential_kinds : list ServerCredentialKind :=
  [psk; ca_certificate; client_certificate; client_private_key].

(** The materials of a record, one of each kind. *)
Definition materials_of (r : ServerRecord) (l : list CredentialMaterial) : Prop :=
  cm_kind <$> l = credential_kinds /\
  Forall (fun m => cm_previous m = credential_reference r (cm_kind m)) l.

(** The secret behind a reference, now and after the store is reopened; a reference that is
    not set stands for the empty one. *)
Definition refers {S} `{CredentialContents S} (reference : option bytes) (value : bytes) (s : S) : Prop :=
  match reference with
  | None => value = []
  | Some key => visible s !! key = Some value /\ durable s !! key = Some value
  end.

(** What the preparation finds for a server entry. *)
Record server_prepared (st : State) `{AsioAddress} (e : ServerEntry) (s : PreparedServer) : Prop := {
  prepared_conforms : server_conforms e (ps_desired s);
  prepared_wf : server_record_wf (ps_desired s) /\ kind (sr_id (ps_desired s)) = server;
  prepared_original :
    match ps_original s with
    | Some r =>
        kept_server st r /\ sr_id (ps_desired s) = sr_id r /\
        (forall k, credential_reference (ps_desired s) k = credential_reference r k) /\
        (ps_mutation s = mutation_none -> same_config r (ps_desired s))
    | None =>
        (forall r, kept_server st r -> str (sr_id r) <> str (sr_id (ps_desired s))) /\
        (forall k, credential_reference (ps_desired s) k = None) /\ ps_mutation s = mutation_create
    end;
  prepared_materials : materials_of (ps_desired s) (ps_credentials s);
  prepared_kept : ps_mutation s <> mutation_remove
}.

Lemma find_spec {A} (f : A -> bool) (l : list A) :
  match find f l with
  | Some x => x ∈ l /\ f x = true
  | None => forall x, x ∈ l -> f x = false
  end.
Proof.
  destruct (find f l) as [x|] eqn:E.
  - apply find_some in E as [Hin Hf]. by rewrite list_elem_of_In.
  - intros x Hx. apply (find_none f l E). by rewrite <- list_elem_of_In.
Qed.

Lemma add_changes_nil l : add_changes l = [] -> Forall (fun x => x.1 = false) l.
Proof. induction l as [|[[] f] l IH]; simpl; [done|done|]. constructor; [done|by apply IH]. Qed.

#[local] Arguments add_changes : simpl never.

Lemma NoDup_listed {Rec} (created : Rec -> Z) (id : Rec -> bytes) (m : gmap bytes Rec) :
  (forall i r, m !! i = Some r -> id r = i) -> NoDup (id <$> listed created m).
Proof.
  intros Hid. unfold listed.
  assert (order_by_created created (map_to_list m) ≡ₚ map_to_list m) as -> by apply merge_sort_Permutation.
  assert (id <$> (map_to_list m).*2 = (map_to_list m).*1) as ->; [|apply NoDup_fst_map_to_list].
  assert (Forall (fun x : bytes * Rec => id x.2 = x.1) (map_to_list m)) as Hall.
  { apply Forall_forall. intros [i r] Hi%elem_of_map_to_list. by apply Hid. }
  induction Hall as [|[i r] l Hk _ IH]; [done|]. csimpl. simpl in Hk. by rewrite Hk, IH.
Qed.

Lemma NoDup_fmap_filter {A B} (f : A -> B) (p : A -> bool) (l : list A) :
  NoDup (f <$> l) -> NoDup (f <$> List.filter p l).
Proof.
  induction l as [|x l IH]; [done|]. rewrite fmap_cons. intros [Hx Hn]%NoDup_cons. simpl.
  destruct (p x); [|by apply IH]. rewrite fmap_cons. apply NoDup_cons. split; [|by apply IH].
  intros (y & Ey & Hy)%list_elem_of_fmap. apply Hx. rewrite Ey. apply list_elem_of_fmap_2.
  rewrite list_elem_of_In in Hy |- *. by apply filter_In in Hy as [? _].
Qed.

Lemma Forall2_elem_r {A B} (P : A -> B -> Prop) l k y :
  Forall2 P l k -> y ∈ k -> exists x, x ∈ l /\ P x y.
Proof.
  intros Hl [i Hi]%list_elem_of_lookup. destruct (Forall2_lookup_r _ _ _ _ _ Hl Hi) as (x & Hx & HP).
  exists x. split; [|done]. by eapply list_elem_of_lookup_2.
Qed.

Lemma Forall2_elem_l {A B} (P : A -> B -> Prop) l k x :
  Forall2 P l k -> x ∈ l -> exists y, y ∈ k /\ P x y.
Proof.
  intros Hl [i Hi]%list_elem_of_lookup. destruct (Forall2_lookup_l _ _ _ _ _ Hl Hi) as (y & Hy & HP).
  exists y. split; [|done]. by eapply list_elem_of_lookup_2.
Qed.

Lemma elem_of_List_filter {A} (p : A -> bool) (l : list A) x :
  x ∈ List.filter p l <-> x ∈ l /\ p x = true.
Proof. by rewrite !list_elem_of_In, filter_In. Qed.

Lemma action_json_none (l1 : list PreparedServer) (l2 : list PreparedTunnel) :
  merge_sort action_le (server_actions l1 ++ tunnel_actions l2) = [] ->
  Forall (fun s => ps_mutation s = mutation_none) l1 /\ Forall (fun t => pt_mutation t = mutation_none) l2.
Proof.
  intros E. assert (server_actions l1 ++ tunnel_actions l2 ≡ₚ []) as Hp.
  { rewrite <- E. symmetry. apply merge_sort_Permutation. }
  apply Permutation_nil_r in Hp. apply app_eq_nil in Hp as [E1 E2].
  unfold server_actions, tunnel_actions in *. apply map_eq_nil in E1, E2. split.
  - apply Forall_forall. intros s Hs. destruct (decide (ps_mutation s = mutation_none)) as [|Hne]; [done|].
    exfalso. apply (not_elem_of_nil s). rewrite <- E1. apply elem_of_List_filter. split; [done|].
    by rewrite bool_decide_false.
  - apply Forall_forall. intros t Ht. destruct (decide (pt_mutation t = mutation_none)) as [|Hne]; [done|].
    exfalso. apply (not_elem_of_nil t). rewrite <- E2. apply elem_of_List_filter. split; [done|].
    by rewrite bool_decide_false.
Qed.

(** The identifiers of the prepared records. *)
Definition server_ids (l : list PreparedServer) : list bytes := (fun s => str (sr_id (ps_desired s))) <$> l.
Definition tunnel_ids (l : list PreparedTunnel) : list bytes := (fun t => str (tr_id (pt_desired t))) <$> l.

Lemma take_entry_inv id name matched tk tk' :
  take_entry id name matched tk = Some tk' ->
  (str id ∉ taken_ids tk) /\ taken_ids tk' = {[str id]} ∪ taken_ids tk /\
  (forall i, i ∈ matched_ids tk' <-> i ∈ matched_ids tk \/ exists m, matched = Some m /\ i = str m).
Proof.
  unfold take_entry. destruct (_ || _) eqn:E; [done|]. intros [= <-]. simpl.
  rewrite !orb_false_iff in E. destruct E as [[E _] _]. apply bool_decide_eq_false in E.
  split; [done|]. split; [done|]. intros i. destruct matched as [m|].
  - rewrite elem_of_union, elem_of_singleton. split; [|intros [|(? & [= <-] & ->)]; auto].
    intros [->|]; [right; by exists m|by left].
  - split; [by left|]. by intros [|(? & [=] & _)].
Qed.

(** A tunnel has the configuration of an entry. *)
Definition tunnel_conforms `{AsioAddress} (e : TunnelEntry) (t : TunnelRecord) : Prop :=
  (forall text, te_id_text e = Some text -> str (tr_id t) = text) /\ tr_name t = te_name e /\
  tr_protocol t = te_protocol e /\ tr_proxy_protocol t = te_proxy_protocol e /\
  Endpoint_parse (endpoint_text (default (bs "127.0.0.1") (te_local_host e))
                    (default 1 (te_local_port e))) = Ok (tr_local_endpoint t) /\
  Endpoint_parse (endpoint_text (default (if bool_decide (te_protocol e = TunnelProtocol.socks5)
                                          then bs "127.0.0.1" else bs "0.0.0.0") (te_remote_host e))
                    (te_remote_port e)) = Ok (tr_remote_endpoint t) /\
  tr_desired_state t = desired_tunnel_state_of (te_enabled e) /\ tr_managed_by_config t = true.

Definition same_tunnel_config (t1 t2 : TunnelRecord) : Prop :=
  tr_id t1 = tr_id t2 /\ tr_server_id t1 = tr_server_id t2 /\ tr_name t1 = tr_name t2 /\
  tr_protocol t1 = tr_protocol t2 /\ tr_proxy_protocol t1 = tr_proxy_protocol t2 /\
  tr_local_endpoint t1 = tr_local_endpoint t2 /\ tr_remote_endpoint t1 = tr_remote_endpoint t2 /\
  tr_desired_state t1 = tr_desired_state t2 /\ tr_managed_by_config t1 = tr_managed_by_config t2.

Lemma tunnel_conforms_same `{AsioAddress} e t1 t2 :
  same_tunnel_config t1 t2 -> tunnel_conforms e t2 -> tunnel_conforms e t1.
Proof.
  intros (E1 & _ & E2 & E3 & E4 & E5 & E6 & E7 & E8) (H1 & H2 & H3 & H4 & H5 & H6 & H7 & H8).
  split; [intros text Ht; rewrite E1; by apply H1|]. split_and!; congruence.
Qed.

(** The record a tunnel entry names as its server. *)
Definition names_server (reference : bytes) (r : ServerRecord) : Prop :=
  str (sr_id r) = reference \/ sr_name r = Some reference.

(** What the preparation finds for a tunnel entry. *)
Record tunnel_prepared (st : State) (parents : list PreparedServer) `{AsioAddress} (e : TunnelEntry)
    (x : PreparedTunnel) : Prop := {
  tunnel_prepared_conforms : tunnel_conforms e (pt_desired x);
  tunnel_prepared_parent : exists s, s ∈ parents /\ tr_server_id (pt_desired x) = sr_id (ps_desired s) /\
    names_server (te_server e) (ps_desired s);
  tunnel_prepared_wf : tunnel_record_wf (pt_desired x) /\ kind (tr_id (pt_desired x)) = tunnel;
  tunnel_prepared_original :
    match pt_original x with
    | Some t =>
        kept_tunnel st t /\ tr_id (pt_desired x) = tr_id t /\ tr_server_id (pt_desired x) = tr_server_id t /\
        (pt_mutation x = mutation_none -> same_tunnel_config t (pt_desired x))
    | None => pt_mutation x = mutation_create
    end;
  tunnel_prepared_kept : pt_mutation x <> mutation_remove
}.

Section Prepare.
Context `{AsioAddressLaws} `{SqliteMessages} `{ControlEnvironment} `{FileSystem} `{JsonLibrary}.
Context {S : Type} `{CredentialStoreLaws S}.
Variable limits : StorageLimits.
Hypothesis Hlimits : limits_wf limits.
Implicit Types (c : Control S) (st : State) (n : nat) (r : ServerRecord).

(** The credential store the application starts from. *)
Variable s0 : S.

(** No identifier the random source is going to give is that of a configured server. *)
Definition unclashing st c : Prop := forall m i,
  Id_generate (entropy_ c m) server = Ok i -> forall r, kept_server st r -> str (sr_id r) <> str i.

Definition preparing st n c : Prop :=
  ready False st n c /\ unclashing st c /\ forall key, undisturbed key s0 (credentials c).

(** Where the material of a record comes from: the file the entry names for its kind, the
    absence of a secret, or the store. *)
Definition material_read (entry : Json) (base : bytes) r (m : CredentialMaterial) : Prop :=
  exists current, refers (credential_reference r (cm_kind m)) current s0 /\
  match json_find (bs (credential_path_field (cm_kind m))) entry with
  | None => cm_value m = current /\ cm_changed m = false
  | Some JNull => cm_value m = [] /\ cm_changed m = is_set current
  | Some (JString text) =>
      exists data,
        read_file (lexically_normal (if is_absolute text then text else path_append base text))
          (credential_file_kind (cm_kind m)) = Ok data /\
        normalise_material (cm_kind m) data = Ok (cm_value m) /\
        cm_changed m = negb (bool_decide (cm_value m = current))
  | Some _ => False
  end.

(** The materials of a prepared server; a server without a mutation has no new ones. *)
Definition server_read (entry : Json) (base : bytes) (x : PreparedServer) : Prop :=
  visible s0 = durable s0 ->
  Forall (material_read entry base (ps_desired x)) (ps_credentials x) /\
  (ps_mutation x = mutation_none -> Forall (fun m => cm_changed m = false) (ps_credentials x)).

Lemma material_unchanged entry base r m :
  material_read entry base r m -> cm_changed m = false ->
  refers (credential_reference r (cm_kind m)) (cm_value m) s0.
Proof.
  intros (current & Hc & Hm) E. destruct (json_find _ entry) as [[| | | | |text| |]|]; try done.
  - destruct Hm as [-> Hs]. rewrite E in Hs. unfold is_set in Hs. symmetry in Hs.
    apply negb_false_iff, bool_decide_eq_true in Hs. by subst current.
  - destruct Hm as (_ & _ & _ & Hs). rewrite E in Hs. symmetry in Hs.
    apply negb_false_iff, bool_decide_eq_true in Hs. by subst current.
  - by destruct Hm as [-> _].
Qed.

Lemma preparing_lift {A} (x : Result A) st n c (Q : A -> Control S -> Prop) :
  preparing st n c -> (forall a, x = Ok a -> Q a c) ->
  runs (ST_lift x) c Q (fun _ => preparing st n).
Proof. intros Hp HQ. apply runs_lift; [done|]. by intros. Qed.

Lemma preparing_time st n c (Q : Z -> Control S -> Prop) R :
  preparing st n c -> (forall t c', preparing st n c' -> Q t c') -> runs unix_milliseconds_now c Q R.
Proof. intros Hp HQ. unfold runs, unix_milliseconds_now. by apply HQ. Qed.

Lemma preparing_generate k st n c (Q : Id -> Control S -> Prop) :
  preparing st n c ->
  (forall i c', kind i = k -> Id_wf i ->
     (k = server -> forall r, kept_server st r -> str (sr_id r) <> str i) -> preparing st n c' -> Q i c') ->
  runs (generate_id k) c Q (fun _ => preparing st n).
Proof.
  intros (Hr & Hu & Hs) HQ. unfold generate_id. apply runs_bind. unfold runs at 1, random_bytes.
  set (c1 := mkControl _ _ _ _ _). assert (preparing st n c1) as Hp1.
  { split; [|split; [intros m; apply (Hu (Datatypes.S m))|done]].
    destruct Hr as (? & ? & ? & ? & [Hen ?] & ?). split_and!; try done.
    split; [|done]. intros m l. apply (Hen (Datatypes.S m)). }
  apply preparing_lift; [done|]. intros i Hi. pose proof Hi as Hg.
  apply generate_id_wf in Hi as [Hkind Hidwf]; [|intros l; by apply Hr].
  apply HQ; try done. intros ->. by apply (Hu 0%nat).
Qed.

Lemma load_material_runs reference st n c (Q : bytes -> Control S -> Prop) :
  preparing st n c ->
  (forall v c', preparing st n c' -> (visible s0 = durable s0 -> refers reference v s0) -> Q v c') ->
  runs (load_current_material reference) c Q (fun _ => preparing st n).
Proof.
  intros (Hr & Hu & Hs0) HQ. unfold runs, load_current_material.
  destruct reference as [key|]; [|by apply HQ]. unfold on_store.
  assert (forall x s, credential_get key (credentials c) = (x, s) ->
    preparing st n (set_credentials s c)) as Hp.
  { intros x s E. assert (forall key', undisturbed key' (credentials c) s) as Hs.
    { intros key'. pose proof (get_same key (credentials c) key') as Hs. by rewrite E in Hs. }
    split; [|split; [done|intros key'; eapply undisturbed_trans; [apply Hs0|apply Hs]]].
    destruct Hr as (? & ? & Hok & ? & [He _] & _). split_and!; try done.
    apply (references_undisturbed st (credentials c)); [done|]. intros key' _. apply Hs. }
  destruct (credential_get key (credentials c)) as [[secret|e] s] eqn:E; [|by apply (Hp (Err e))].
  apply HQ; [by apply (Hp (Ok secret))|]. intros Hsettled. simpl. rewrite <- Hsettled.
  pose proof (get_success key (credentials c) secret) as Hv. rewrite E in Hv. specialize (Hv eq_refl).
  destruct (Hs0 key) as [_ [Hk|Hk]]; rewrite Hv, ?Hsettled in Hk; rewrite Hsettled; by rewrite <- Hk.
Qed.

Lemma prepare_credential_runs entry base r k st n c (Q : CredentialMaterial -> Control S -> Prop) :
  preparing st n c ->
  (forall m c', preparing st n c' -> cm_kind m = k -> cm_previous m = credential_reference r k ->
     (visible s0 = durable s0 -> material_read entry base r m) -> Q m c') ->
  runs (prepare_credential entry base r k) c Q (fun _ => preparing st n).
Proof.
  intros Hp HQ. unfold prepare_credential. apply runs_bind, load_material_runs; [done|].
  intros v c1 Hp1 Hv. destruct (json_find _ entry) as [[| | | | |text| |]|] eqn:Ej;
    try (by apply runs_lift);
    try (apply runs_ret, HQ; [done..|]; intros Hs; exists v; split; [by apply Hv|cbn [cm_kind cm_value cm_changed]; by rewrite Ej]).
  apply runs_bind, preparing_lift; [done|]. intros data Hdata.
  apply runs_bind, preparing_lift; [done|]. intros value Hvalue. apply runs_ret, HQ; [done..|].
  intros Hs. exists v. split; [by apply Hv|]. cbn [cm_kind cm_value cm_changed]. rewrite Ej. by exists data.
Qed.

Lemma prepare_credentials_runs entry base r kinds st n c
    (Q : list CredentialMaterial -> Control S -> Prop) :
  preparing st n c ->
  (forall l c', preparing st n c' -> cm_kind <$> l = kinds ->
     Forall (fun m => cm_previous m = credential_reference r (cm_kind m)) l ->
     (visible s0 = durable s0 -> Forall (material_read entry base r) l) -> Q l c') ->
  runs (prepare_credentials entry base r kinds) c Q (fun _ => preparing st n).
Proof.
  revert c Q. induction kinds as [|k kinds IH]; intros c Q Hp HQ; simpl; [by apply runs_ret, HQ|].
  apply runs_bind, prepare_credential_runs; [done|]. intros m c1 Hp1 Hk Hprev Hm.
  apply runs_bind, IH; [done|]. intros l c2 Hp2 Hks Hprevs Hl. apply runs_ret, HQ; [done|..].
  - by rewrite fmap_cons, Hk, Hks.
  - constructor; [by rewrite Hk|done].
  - intros Hs. constructor; auto.
Qed.

(** *** A server *)

Lemma match_server_spec st e :
  valid_state st ->
  match match_server (kept_servers st) e with
  | Some r => kept_server st r /\ (forall id, se_id e = Some id -> sr_id r = id)
  | None => forall id, se_id e = Some id -> forall r, kept_server st r -> sr_id r <> id
  end.
Proof.
  intros Hst. unfold match_server. destruct (se_id e) as [id|].
  - pose proof (find_spec (fun r => bool_decide (sr_id r = id)) (kept_servers st)) as Hf.
    destruct (find _ _) as [r|].
    + rewrite elem_of_kept_servers, bool_decide_eq_true in Hf by done. destruct Hf as [? <-].
      split; [done|]. congruence.
    + intros id' [= <-] r Hr. apply elem_of_kept_servers, Hf in Hr; [|done].
      by apply bool_decide_eq_false in Hr.
  - pose proof (find_spec (fun r => bool_decide (sr_name r = se_name e)) (kept_servers st)) as Hf.
    destruct (find _ _) as [r|]; [|done]. rewrite elem_of_kept_servers in Hf by done. split; [apply Hf|done].
Qed.

Lemma parse_entry_id_inv text k id : parse_entry_id text k = Ok (Some id) -> kind id = k /\ Id_wf id.
Proof.
  unfold parse_entry_id. destruct text as [text|]; [|done]. unfold mbind, outcome_bind.
  destruct (Id_parse_kind text k) as [i|] eqn:E; [|done]. intros [= <-].
  by apply Id_parse_kind_ok in E as [-> Hc].
Qed.

Lemma read_server_entry_inv entry e :
  read_server_entry entry = Ok e ->
  Endpoint_wf (se_endpoint e) /\ (forall id, se_id e = Some id -> kind id = server /\ Id_wf id).
Proof.
  unfold read_server_entry. destruct (negb _); [done|]. unfold mbind, outcome_bind.
  destruct (Fields.nullable_string entry "id") as [text|]; [|done].
  destruct (Fields.nullable_string entry "name"); [|done].
  destruct (Fields.required_string _ _); [|done].
  destruct (Fields.nullable_string entry _); [|done]. destruct (Fields.optional_flag _ _ _); [|done].
  destruct (_ && _); [done|]. destruct (Endpoint_parse _) as [ep|] eqn:Ee; [|done].
  destruct (parse_entry_id text server) as [id|] eqn:Ei; [|done]. intros [= <-]. simpl.
  split; [by eapply endpoint_parsed_wf|]. intros i ->. by eapply parse_entry_id_inv.
Qed.

Lemma classify_prepared st e matched id now action_id l :
  valid_state st -> kind id = server -> Id_wf id -> Endpoint_wf (se_endpoint e) ->
  (forall i, se_id e = Some i -> id = i) ->
  match matched with
  | Some r => kept_server st r /\ id = sr_id r
  | None => forall r, kept_server st r -> str (sr_id r) <> str id
  end ->
  let desired := desired_server matched id now e in
  materials_of (default desired matched) l ->
  server_prepared st e (classify_server matched desired action_id l).
Proof.
  intros Hst Hkind Hid Hep Hspec Hm desired Hl. destruct matched as [r|].
  - destruct Hm as [Hk ->]. pose proof (kept_server_wf st r Hst Hk) as [(_ & _ & Hra & Hrev) _].
    split; simpl; [by split_and!| | |done|].
    + split; [by split_and!|done].
    + split; [done|]. split; [done|]. split; [by intros []|].
      case_bool_decide as E; [|by destruct (_ && _)]. intros _.
      apply app_eq_nil in E as [_ E]. apply add_changes_nil in E.
      rewrite !Forall_cons in E. cbn [fst] in E. rewrite !negb_false_iff, !bool_decide_eq_true in E.
      destruct E as (E1 & E2 & E3 & E4 & E5 & _). by split_and!.
    + case_bool_decide; [done|]. by destruct (_ && _).
  - split; simpl; [by split_and!| | |done|done].
    + split; [|done]. split_and!; try done; unfold is_u32, is_u64, is_uint; lia.
    + split; [done|]. split; [by intros []|done].
Qed.

Lemma no_changes (l : list CredentialMaterial) :
  add_changes (map (fun m => (cm_changed m, credential_path_field (cm_kind m))) l) = [] ->
  Forall (fun m => cm_changed m = false) l.
Proof. intros Hl%add_changes_nil. by rewrite Forall_map in Hl. Qed.

Lemma classify_read entry base matched id now e action_id l :
  let desired := desired_server matched id now e in
  (visible s0 = durable s0 -> Forall (material_read entry base (default desired matched)) l) ->
  server_read entry base (classify_server matched desired action_id l).
Proof.
  intros desired Hl Hs. specialize (Hl Hs). destruct matched as [r|]; simpl.
  - split.
    + eapply Forall_impl; [exact Hl|]. intros m Hm. unfold material_read.
      assert (credential_reference desired (cm_kind m) = credential_reference r (cm_kind m)) as ->; [|done].
      by destruct (cm_kind m).
    + case_bool_decide as E; [|by destruct (_ && _)]. intros _. apply app_eq_nil in E as [E _].
      by apply no_changes.
  - split; [|done]. eapply Forall_impl; [exact Hl|]. intros m Hm. unfold material_read.
    match goal with |- context [credential_reference ?d (cm_kind m)] =>
      assert (credential_reference d (cm_kind m) = credential_reference desired (cm_kind m)) as -> end; [|done].
    by destruct (cm_kind m).
Qed.

Lemma prepare_server_runs base st n c tk entry (Q : Taken * PreparedServer -> Control S -> Prop) :
  preparing st n c ->
  (forall tk' s e c', preparing st n c' -> read_server_entry entry = Ok e -> server_prepared st e s ->
     server_read entry base s ->
     take_entry (sr_id (ps_desired s)) (se_name e) (sr_id <$> ps_original s) tk = Some tk' ->
     Q (tk', s) c') ->
  runs (prepare_server base (kept_servers st) tk entry) c Q (fun _ => preparing st n).
Proof.
  intros Hp HQ. pose proof Hp as [(_ & Hst & _) _]. unfold prepare_server.
  apply runs_bind, preparing_lift; [done|]. intros e He. cbv zeta.
  destruct (read_server_entry_inv _ _ He) as [Hep Hids].
  pose proof (match_server_spec st e Hst) as Hmatch.
  set (matched := match_server (kept_servers st) e) in *.
  apply runs_bind, (runs_mono _ _ (fun id c' => preparing st n c' /\ kind id = server /\ Id_wf id /\
    (forall i, se_id e = Some i -> id = i) /\
    match matched with
    | Some r => kept_server st r /\ id = sr_id r
    | None => forall r, kept_server st r -> str (sr_id r) <> str id
    end) _ (fun _ => preparing st n)); [| |done].
  { unfold entry_id. destruct (se_id e) as [i|].
    - apply runs_ret. destruct (Hids i eq_refl) as [Hki Hwi]. split; [done|]. split; [done|].
      split; [done|]. split; [by intros ? [= <-]|]. destruct matched as [r|].
      + destruct Hmatch as [Hk Hi]. by rewrite (Hi i eq_refl).
      + intros r Hk E. apply (Hmatch i eq_refl r Hk). destruct (kept_server_id st r Hst Hk) as [_ Hkr].
        destruct (sr_id r), i. simpl in *. congruence.
    - destruct matched as [r|]; simpl.
      + destruct Hmatch as [Hk _]. destruct (kept_server_wf st r Hst Hk) as [(Hw & _) _].
        destruct (kept_server_id st r Hst Hk) as [_ Hkr]. apply runs_ret. by split_and!.
      + apply preparing_generate; [done|]. intros i c' Hi Hwi Hclash Hp'. split_and!; try done.
        by apply Hclash. }
  intros id c1 (Hp1 & Hkind & Hidwf & Hspec & Hm).
  destruct (take_entry _ _ _ tk) as [tk'|] eqn:Etk; [|by apply runs_fail].
  apply runs_bind, (preparing_time st n); [done|]. intros now c2 Hp2. cbv zeta.
  apply runs_bind, prepare_credentials_runs; [done|]. intros l c3 Hp3 Hks Hprevs Hread.
  destruct (negb _); [by apply runs_fail|].
  apply runs_bind, preparing_lift; [done|]. intros _ _.
  apply runs_bind, preparing_lift; [done|]. intros _ _. apply runs_ret.
  apply (HQ _ _ e); [done|done|apply classify_prepared; try done; by split|by apply classify_read|].
  rewrite <- Etk. by destruct matched as [r|]; simpl; [destruct Hm as [_ ->]|].
Qed.

Lemma prepare_servers_runs base st n c tk entries
    (Q : Taken * list PreparedServer -> Control S -> Prop) :
  preparing st n c ->
  (forall tk' l c', preparing st n c' ->
     Forall2 (fun entry s => exists e, read_server_entry entry = Ok e /\ server_prepared st e s) entries l ->
     Forall2 (fun entry => server_read entry base) entries l -> NoDup (server_ids l) -> Forall (fun i => i ∉ taken_ids tk) (server_ids l) ->
     (forall i, i ∈ matched_ids tk' <->
        i ∈ matched_ids tk \/ exists s r, s ∈ l /\ ps_original s = Some r /\ i = str (sr_id r)) ->
     Q (tk', l) c') ->
  runs (prepare_servers base (kept_servers st) tk entries) c Q (fun _ => preparing st n).
Proof.
  revert tk c Q. induction entries as [|entry entries IH]; intros tk c Q Hp HQ; simpl.
  { apply runs_ret, HQ; [done|by constructor|by constructor|by constructor|by constructor|].
    intros i. split; [by left|]. intros [|(s & r & Hin%elem_of_nil & _)]; done. }
  apply runs_bind, prepare_server_runs; [done|]. intros tk1 s e c1 Hp1 He Hs Hread Htk.
  apply take_entry_inv in Htk as (Hfree & Hids & Hmatched).
  apply runs_bind, IH; [done|]. intros tk2 l c2 Hp2 Hl Hreads Hnd Htaken Hm2. apply runs_ret, HQ; [done|..].
  - constructor; [by exists e|done].
  - by constructor.
  - constructor; [|done]. intros Hin. rewrite Forall_forall in Htaken. apply Htaken in Hin.
    rewrite Hids in Hin. set_solver.
  - constructor; [done|]. eapply Forall_impl; [exact Htaken|]. intros i. rewrite Hids. set_solver.
  - intros i. rewrite Hm2, Hmatched. split.
    + intros [[?|(m & Em & ->)]|(s' & r & Hin & Er & ->)]; [by left| |].
      * right. destruct (ps_original s) as [r|] eqn:Er; [|done]. injection Em as <-. exists s, r.
        split; [by left|done].
      * right. exists s', r. split; [by right|done].
    + intros [?|(s' & r & [->|Hin]%elem_of_cons & Er & ->)]; [by left; left| |].
      * left. right. exists (sr_id r). by rewrite Er.
      * right. by exists s', r.
Qed.

(** *** A tunnel *)

Lemma match_tunnel_spec st id name found :
  valid_state st -> match_tunnel (kept_tunnels st) id name = Ok found ->
  match found with
  | Some t => kept_tunnel st t /\ (forall i, id = Some i -> tr_id t = i)
  | None => True
  end.
Proof.
  intros Hst. unfold match_tunnel. destruct id as [i|].
  - intros [= <-]. pose proof (find_spec (fun t => bool_decide (tr_id t = i)) (kept_tunnels st)) as Hf.
    destruct (find _ _) as [t|]; [|done]. rewrite elem_of_kept_tunnels, bool_decide_eq_true in Hf by done.
    destruct Hf as [? <-]. split; [done|]. by intros ? [= <-].
  - destruct (_ <? _); [done|]. intros [= <-].
    pose proof (find_spec (fun t => bool_decide (tr_name t = name)) (kept_tunnels st)) as Hf.
    destruct (find _ _) as [t|]; [|done]. rewrite elem_of_kept_tunnels in Hf by done.
    split; [apply Hf|done].
Qed.

Lemma find_parent_spec l reference s :
  find_parent l reference = Some s -> s ∈ l /\ names_server reference (ps_desired s).
Proof.
  unfold find_parent. destruct (Id_parse_kind reference server) as [id|] eqn:E; intros Hf.
  - apply Id_parse_kind_ok in E as [-> _].
    pose proof (find_spec (fun s => bool_decide (str (sr_id (ps_desired s)) = str (mkId server reference))) l) as Hs.
    rewrite Hf, bool_decide_eq_true in Hs. destruct Hs as [Hin Hs]. split; [done|by left].
  - pose proof (find_spec (fun s => bool_decide (sr_name (ps_desired s) = Some reference)) l) as Hs.
    rewrite Hf, bool_decide_eq_true in Hs. destruct Hs as [Hin Hs]. split; [done|by right].
Qed.

Lemma classify_tunnel_prepared st parents e matched id server_id now local remote action_id s :
  valid_state st -> kind id = tunnel -> Id_wf id -> Id_wf server_id -> Endpoint_wf local ->
  Endpoint_wf remote -> (forall text, te_id_text e = Some text -> str id = text) ->
  match matched with
  | Some t => kept_tunnel st t /\ id = tr_id t /\ tr_server_id t = server_id
  | None => True
  end ->
  s ∈ parents -> server_id = sr_id (ps_desired s) -> names_server (te_server e) (ps_desired s) ->
  Endpoint_parse (endpoint_text (default (bs "127.0.0.1") (te_local_host e))
                    (default 1 (te_local_port e))) = Ok local ->
  Endpoint_parse (endpoint_text (default (if bool_decide (te_protocol e = TunnelProtocol.socks5)
                                          then bs "127.0.0.1" else bs "0.0.0.0") (te_remote_host e))
                    (te_remote_port e)) = Ok remote ->
  tunnel_prepared st parents e
    (classify_tunnel matched (desired_tunnel matched id server_id now local remote e) action_id).
Proof.
  intros Hst Hkind Hid Hsid Hlocal Hremote Htext Hm Hin Hserver Hname El Er. destruct matched as [t|].
  - destruct Hm as (Hk & -> & Hs). pose proof (kept_tunnel_wf st t Hst Hk) as (_ & _ & _ & _ & Hrev).
    split; simpl; [by split_and!|exists s; split; [done|]; split; [congruence|done]|..].
    + split; [|done]. split_and!; try done. simpl. by rewrite Hs.
    + split; [done|]. split; [done|]. split; [done|].
      destruct (bool_decide (add_changes _ = [])) eqn:E; [|by destruct (_ && _)].
      intros _. apply bool_decide_eq_true, add_changes_nil in E.
      rewrite !Forall_cons in E. cbn [fst] in E. rewrite !negb_false_iff, !bool_decide_eq_true in E.
      destruct E as (E1 & E2 & E3 & E4 & E5 & E6 & E7 & _). by split_and!.
    + destruct (bool_decide (add_changes _ = [])); [done|]. by destruct (_ && _).
  - split; simpl; [by split_and!|by exists s| |done|done].
    split; [|done]. split_and!; try done; unfold is_u64, is_uint; lia.
Qed.

Lemma prepare_tunnel_runs parents st n c tk entry (Q : Taken * PreparedTunnel -> Control S -> Prop) :
  preparing st n c -> Forall (fun s => Id_wf (sr_id (ps_desired s))) parents ->
  (forall tk' x e c', preparing st n c' -> read_tunnel_entry entry = Ok e ->
     tunnel_prepared st parents e x ->
     take_entry (tr_id (pt_desired x)) (te_name e) (tr_id <$> pt_original x) tk = Some tk' ->
     Q (tk', x) c') ->
  runs (prepare_tunnel parents (kept_tunnels st) tk entry) c Q (fun _ => preparing st n).
Proof.
  intros Hp Hparents HQ. pose proof Hp as [(_ & Hst & _) _]. unfold prepare_tunnel.
  apply runs_bind, preparing_lift; [done|]. intros e He.
  destruct (find_parent parents (te_server e)) as [s|] eqn:Es; [|by apply runs_fail]. cbv zeta.
  apply find_parent_spec in Es as [Hs Hname]. rewrite Forall_forall in Hparents.
  apply runs_bind, preparing_lift; [done|]. intros specified Hspec.
  assert (forall i, specified = Some i -> kind i = tunnel /\ Id_wf i) as Hids.
  { intros i ->. by eapply parse_entry_id_inv. }
  assert (forall text, te_id_text e = Some text -> exists i, specified = Some i /\ str i = text) as Htext.
  { intros text E. rewrite E in Hspec. unfold parse_entry_id, mbind, outcome_bind in Hspec.
    destruct (Id_parse_kind text tunnel) as [i|] eqn:Ei; [|done]. injection Hspec as <-.
    apply Id_parse_kind_ok in Ei as [-> _]. by eexists. }
  apply runs_bind, preparing_lift; [done|]. intros matched Hm%match_tunnel_spec; [|done].
  apply runs_bind, (runs_mono _ _ (fun id c' => preparing st n c' /\ kind id = tunnel /\ Id_wf id /\
    (forall i, specified = Some i -> id = i) /\ (forall t, matched = Some t -> id = tr_id t)) _
    (fun _ => preparing st n)); [| |done].
  { unfold entry_id. destruct specified as [i|].
    - destruct (Hids i eq_refl). apply runs_ret. split_and!; try done; [by intros ? [= <-]|].
      intros t ->. destruct Hm as [_ Hi]. by rewrite (Hi i eq_refl).
    - destruct matched as [t|]; simpl.
      + destruct Hm as [[Hm Hd] _]. destruct (valid_tunnels st Hst _ _ Hm) as [[(Hw & _) Hv] _].
        apply runs_ret. split_and!; try done; [|by intros ? [= <-]].
        apply validate_tunnel_iff in Hv. apply Hv.
      + apply preparing_generate; [done|]. intros i c' Hi Hwi _ Hp'. by split_and!. }
  intros id c1 (Hp1 & Hkind & Hidwf & Hsp & Hmt).
  destruct (take_entry _ _ _ tk) as [tk'|] eqn:Etk; [|by apply runs_fail].
  destruct (match matched with Some t => negb _ | None => false end) eqn:Eown; [by apply runs_fail|].
  apply runs_bind, preparing_lift; [done|]. intros local El.
  apply runs_bind, preparing_lift; [done|]. intros remote Er.
  apply runs_bind, preparing_lift; [done|]. intros _ _.
  apply runs_bind, (preparing_time st n); [done|]. intros now c2 Hp2. cbv zeta. apply runs_ret.
  apply (HQ _ _ e); [done|done|eapply (classify_tunnel_prepared _ _ _ _ _ _ _ _ _ _ s); try done|].
  - by apply Hparents.
  - by eapply endpoint_parsed_wf.
  - by eapply endpoint_parsed_wf.
  - intros text (i & Ei & <-)%Htext. by rewrite (Hsp i Ei).
  - destruct matched as [t|]; [|done]. destruct Hm as [Hk _]. split; [done|]. split; [by apply Hmt|].
    apply negb_false_iff, bool_decide_eq_true in Eown. done.
  - rewrite <- Etk. destruct matched as [t|]; simpl; [by rewrite (Hmt t eq_refl)|done].
Qed.

Lemma prepare_tunnels_runs parents st n c tk entries
    (Q : Taken * list PreparedTunnel -> Control S -> Prop) :
  preparing st n c -> Forall (fun s => Id_wf (sr_id (ps_desired s))) parents ->
  (forall tk' l c', preparing st n c' ->
     Forall2 (fun entry x => exists e, read_tunnel_entry entry = Ok e /\ tunnel_prepared st parents e x)
       entries l ->
     NoDup (tunnel_ids l) -> Forall (fun i => i ∉ taken_ids tk) (tunnel_ids l) ->
     (forall i, i ∈ matched_ids tk' <->
        i ∈ matched_ids tk \/ exists x t, x ∈ l /\ pt_original x = Some t /\ i = str (tr_id t)) ->
     Q (tk', l) c') ->
  runs (prepare_tunnels parents (kept_tunnels st) tk entries) c Q (fun _ => preparing st n).
Proof.
  intros Hp Hparents. revert tk c Q Hp.
  induction entries as [|entry entries IH]; intros tk c Q Hp HQ; simpl.
  { apply runs_ret, HQ; [done|by constructor|by constructor|by constructor|]. intros i. split; [by left|].
    intros [|(x & t & Hin%elem_of_nil & _)]; done. }
  apply runs_bind, prepare_tunnel_runs; [done..|]. intros tk1 x e c1 Hp1 He Hx Htk.
  apply take_entry_inv in Htk as (Hfree & Hids & Hmatched).
  apply runs_bind, IH; [done|]. intros tk2 l c2 Hp2 Hl Hnd Htaken Hm2. apply runs_ret, HQ; [done|..].
  - constructor; [by exists e|done].
  - constructor; [|done]. intros Hin. rewrite Forall_forall in Htaken. apply Htaken in Hin.
    rewrite Hids in Hin. set_solver.
  - constructor; [done|]. eapply Forall_impl; [exact Htaken|]. intros i. rewrite Hids. set_solver.
  - intros i. rewrite Hm2, Hmatched. split.
    + intros [[?|(m & Em & ->)]|(x' & t & Hin & Et & ->)]; [by left| |].
      * right. destruct (pt_original x) as [t|] eqn:Et; [|done]. injection Em as <-. exists x, t.
        split; [by left|done].
      * right. exists x', t. split; [by right|done].
    + intros [?|(x' & t & [->|Hin]%elem_of_cons & Et & ->)]; [by left; left| |].
      * left. right. exists (tr_id t). by rewrite Et.
      * right. by exists x', t.
Qed.

(** *** Pruning *)

Lemma prune_servers_spec servers tunnels matched l :
  prune_servers servers tunnels matched = Ok l ->
  let gone := List.filter (fun r => sr_managed_by_config r
                                    && negb (bool_decide (str (sr_id r) ∈ matched))) servers in
  l = map pruned_server gone /\
  Forall (fun r => forall t, t ∈ tunnels -> tr_server_id t = sr_id r -> tr_managed_by_config t = true) gone.
Proof.
  revert l. induction servers as [|r servers IH]; intros l; simpl; [by intros [= <-]|].
  rewrite <- (negb_involutive (bool_decide (str (sr_id r) ∈ matched))) at 1. rewrite <- negb_andb.
  destruct (sr_managed_by_config r && _); simpl; [|apply IH].
  destruct (existsb _ tunnels) eqn:E; [done|]. unfold mbind, outcome_bind.
  destruct (prune_servers servers tunnels matched) as [rest|]; [|done]. intros [= <-].
  destruct (IH rest eq_refl) as [-> Hall]. split; [done|]. constructor; [|done].
  intros t Ht Es. rewrite <- not_true_iff_false, existsb_exists in E.
  destruct (tr_managed_by_config t) eqn:Em; [done|]. exfalso. apply E. exists t.
  rewrite <- list_elem_of_In, bool_decide_true, Em by done. done.
Qed.

(** The plan of a document: what the entries [es] and [et] became, followed by the
    records to be pruned. *)
Record planned st (prune : bool) (es et : list Json) (l : list PreparedServer)
    (lt : list PreparedTunnel) (gone : list ServerRecord) (gone_tunnels : list TunnelRecord)
    (p : PreparedPlan) : Prop := {
  planned_servers : pp_servers p = l ++ map pruned_server gone;
  planned_tunnels : pp_tunnels p = lt ++ map pruned_tunnel gone_tunnels;
  planned_server_entries :
    Forall2 (fun entry s => exists e, read_server_entry entry = Ok e /\ server_prepared st e s) es l;
  planned_tunnel_entries :
    Forall2 (fun entry x => exists e, read_tunnel_entry entry = Ok e /\ tunnel_prepared st l e x) et lt;
  planned_server_ids : NoDup (server_ids (pp_servers p));
  planned_tunnel_ids : NoDup (tunnel_ids lt);
  planned_tunnels_apart : forall x t, x ∈ lt -> t ∈ gone_tunnels -> pt_original x <> Some t;
  planned_gone : Forall (fun r => kept_server st r /\ sr_managed_by_config r = true) gone;
  planned_gone_tunnels :
    Forall (fun t => kept_tunnel st t /\ tr_managed_by_config t = true) gone_tunnels;
  planned_no_prune : prune = false -> gone = [] /\ gone_tunnels = [];
  planned_prune : prune = true -> forall r, kept_server st r -> sr_managed_by_config r = true ->
    r ∈ gone \/ exists s, s ∈ l /\ ps_original s = Some r;
  planned_prune_tunnels : prune = true -> forall t, kept_tunnel st t -> tr_managed_by_config t = true ->
    t ∈ gone_tunnels \/ exists x, x ∈ lt /\ pt_original x = Some t;
  planned_children : forall r t, r ∈ gone -> kept_tunnel st t -> tr_server_id t = sr_id r ->
    t ∈ gone_tunnels;
  planned_actions : pp_actions p = [] ->
    Forall (fun s => ps_mutation s = mutation_none) (pp_servers p) /\
    Forall (fun x => pt_mutation x = mutation_none) (pp_tunnels p)
}.

Lemma kept_server_inj st r1 r2 :
  kept_server st r1 -> kept_server st r2 -> str (sr_id r1) = str (sr_id r2) -> r1 = r2.
Proof. intros [Hm1 _] [Hm2 _] E. rewrite E in Hm1. congruence. Qed.

Lemma kept_tunnel_inj st t1 t2 :
  kept_tunnel st t1 -> kept_tunnel st t2 -> str (tr_id t1) = str (tr_id t2) -> t1 = t2.
Proof. intros [Hm1 _] [Hm2 _] E. rewrite E in Hm1. congruence. Qed.

(** A configured server with the identifier of a prepared one is the one it was matched with. *)
Lemma prepared_is_original st e s r :
  server_prepared st e s -> kept_server st r -> str (sr_id r) = str (sr_id (ps_desired s)) ->
  ps_original s = Some r.
Proof.
  intros [_ _ Ho _ _] Hk E. destruct (ps_original s) as [r'|].
  - destruct Ho as (Hk' & Hid & _). f_equal. apply (kept_server_inj st); try done. congruence.
  - by destruct Ho as [Hfresh _]; apply Hfresh in Hk.
Qed.

Lemma NoDup_kept_servers st : valid_state st -> NoDup ((fun r => str (sr_id r)) <$> kept_servers st).
Proof. intros Hst. apply NoDup_fmap_filter, NoDup_listed. intros i r Hm. by apply (valid_servers st Hst). Qed.

Lemma NoDup_kept_tunnels st : valid_state st -> NoDup ((fun t => str (tr_id t)) <$> kept_tunnels st).
Proof. intros Hst. apply NoDup_fmap_filter, NoDup_listed. intros i t Hm. by apply (valid_tunnels st Hst). Qed.

(** The prepared servers and those to be pruned have different identifiers. *)
Lemma planned_ids_distinct st (es : list Json) (l : list PreparedServer) (matched : gset bytes) :
  valid_state st ->
  Forall2 (fun entry s => exists e, read_server_entry entry = Ok e /\ server_prepared st e s) es l ->
  NoDup (server_ids l) ->
  (forall i, i ∈ matched <-> exists s r, s ∈ l /\ ps_original s = Some r /\ i = str (sr_id r)) ->
  NoDup (server_ids (l ++ map pruned_server (List.filter (fun r => sr_managed_by_config r
    && negb (bool_decide (str (sr_id r) ∈ matched))) (kept_servers st)))).
Proof.
  intros Hst Hl Hnd Hmatched. unfold server_ids. rewrite fmap_app. apply NoDup_app. split; [done|]. split.
  - intros i (s & -> & Hs)%list_elem_of_fmap Hi. apply list_elem_of_fmap in Hi as (x & E & Hx).
    apply list_elem_of_fmap in Hx as (r & -> & Hr). simpl in E. apply elem_of_List_filter in Hr as [Hr Hm].
    apply elem_of_kept_servers in Hr; [|done]. apply andb_true_iff in Hm as [_ Hm].
    apply negb_true_iff, bool_decide_eq_false in Hm. apply Hm, Hmatched. exists s, r. split_and!; try done.
    destruct (Forall2_elem_r _ _ _ _ Hl Hs) as (entry & _ & e & _ & Hprep).
    by apply (prepared_is_original st e).
  - set (gone := List.filter _ _). assert ((fun s => str (sr_id (ps_desired s))) <$> map pruned_server gone
      = (fun r => str (sr_id r)) <$> gone) as ->.
    { unfold fmap. by induction gone as [|r gone IH]; simpl; [|f_equal]. }
    by apply NoDup_fmap_filter, NoDup_kept_servers.
Qed.

Lemma planned_unpruned st es et l lt :
  Forall2 (fun entry s => exists e, read_server_entry entry = Ok e /\ server_prepared st e s) es l ->
  Forall2 (fun entry x => exists e, read_tunnel_entry entry = Ok e /\ tunnel_prepared st l e x) et lt ->
  NoDup (server_ids l) -> NoDup (tunnel_ids lt) ->
  planned st false es et l lt [] []
    (mkPreparedPlan l lt (merge_sort action_le (server_actions l ++ tunnel_actions lt))).
Proof.
  intros Hl Hlt Hnd Hndt. split; simpl; try done; try (by rewrite app_nil_r); try set_solver.
  apply action_json_none.
Qed.

Lemma planned_pruned st (es et : list Json) (l : list PreparedServer) (lt : list PreparedTunnel) (matched matched_tunnels : gset bytes)
    (pruned : list PreparedServer) :
  valid_state st ->
  Forall2 (fun entry s => exists e, read_server_entry entry = Ok e /\ server_prepared st e s) es l ->
  Forall2 (fun entry x => exists e, read_tunnel_entry entry = Ok e /\ tunnel_prepared st l e x) et lt ->
  NoDup (server_ids l) -> NoDup (tunnel_ids lt) ->
  (forall i, i ∈ matched <-> exists s r, s ∈ l /\ ps_original s = Some r /\ i = str (sr_id r)) ->
  (forall i, i ∈ matched_tunnels <-> exists x t, x ∈ lt /\ pt_original x = Some t /\ i = str (tr_id t)) ->
  prune_servers (kept_servers st) (kept_tunnels st) matched = Ok pruned ->
  let tunnels := lt ++ prune_tunnels (kept_tunnels st) matched_tunnels in
  planned st true es et l lt
    (List.filter (fun r => sr_managed_by_config r && negb (bool_decide (str (sr_id r) ∈ matched)))
       (kept_servers st))
    (List.filter (fun t => tr_managed_by_config t && negb (bool_decide (str (tr_id t) ∈ matched_tunnels)))
       (kept_tunnels st))
    (mkPreparedPlan (l ++ pruned) tunnels
       (merge_sort action_le (server_actions (l ++ pruned) ++ tunnel_actions tunnels))).
Proof.
  intros Hst Hl Hlt Hnd Hndt Hm Hmt [-> Hchildren]%prune_servers_spec tunnels.
  split; simpl; try done.
  - by eapply planned_ids_distinct.
  - intros x t Hx [_ Ht]%elem_of_List_filter E. apply andb_true_iff in Ht as [_ Ht].
    apply negb_true_iff, bool_decide_eq_false in Ht. apply Ht, Hmt. by exists x, t.
  - apply Forall_forall. intros r [Hr [Hmr _]%andb_true_iff]%elem_of_List_filter.
    by apply elem_of_kept_servers in Hr.
  - apply Forall_forall. intros t [Ht [Hmt' _]%andb_true_iff]%elem_of_List_filter.
    by apply elem_of_kept_tunnels in Ht.
  - intros _ r Hk Hmr. destruct (decide (str (sr_id r) ∈ matched)) as [(s & r' & Hs & Hr' & E)%Hm|Hin].
    + right. exists s. split; [done|]. rewrite Hr'.
      destruct (Forall2_elem_r _ _ _ _ Hl Hs) as (? & _ & e & _ & [_ _ Ho _ _]). rewrite Hr' in Ho.
      destruct Ho as [Hk' _]. f_equal. by apply (kept_server_inj st).
    + left. apply elem_of_List_filter. rewrite elem_of_kept_servers, Hmr, bool_decide_false by done. done.
  - intros _ t Hk Hmt'. destruct (decide (str (tr_id t) ∈ matched_tunnels)) as [(x & t' & Hx & Ht' & E)%Hmt|Hin].
    + right. exists x. split; [done|]. rewrite Ht'.
      destruct (Forall2_elem_r _ _ _ _ Hlt Hx) as (? & _ & e & _ & [_ _ _ Ho _]). rewrite Ht' in Ho.
      destruct Ho as [Hk' _]. f_equal. by apply (kept_tunnel_inj st).
    + left. apply elem_of_List_filter. rewrite elem_of_kept_tunnels, Hmt', bool_decide_false by done. done.
  - intros r t Hr Hk Es. pose proof Hr as Hr0. rewrite Forall_forall in Hchildren.
    apply elem_of_List_filter in Hr as [Hr [Hmr Hin]%andb_true_iff].
    apply elem_of_kept_servers in Hr; [|done]. apply negb_true_iff, bool_decide_eq_false in Hin.
    apply elem_of_List_filter. rewrite elem_of_kept_tunnels by done. split; [done|].
    rewrite (Hchildren r Hr0 t) by (by rewrite ?elem_of_kept_tunnels). simpl.
    apply negb_true_iff, bool_decide_eq_false. intros (x & t' & Hx & Ht' & E)%Hmt.
    destruct (Forall2_elem_r _ _ _ _ Hlt Hx) as (? & _ & e & _ & [_ Hparent _ Ho _]). rewrite Ht' in Ho.
    destruct Ho as (Hk' & _ & Es' & _). assert (t' = t) as -> by (by apply (kept_tunnel_inj st)).
    destruct Hparent as (s & Hs & Esid & _).
    destruct (Forall2_elem_r _ _ _ _ Hl Hs) as (? & _ & e' & _ & Hprep). apply Hin, Hm.
    exists s, r. split; [done|]. split; [|done]. apply (prepared_is_original st e'); try done. congruence.
  - apply action_json_none.
Qed.

Lemma prepare_plan_runs path prune st n c (Q : PreparedPlan -> Control S -> Prop) :
  preparing st n c ->
  (forall data document es et l lt gone gone_tunnels p c', preparing st n c' ->
     read_file (lexically_normal path) config_file = Ok data -> parse_json data = Ok document ->
     document_entries document = Ok (es, et) -> planned st prune es et l lt gone gone_tunnels p ->
     Forall2 (fun entry => server_read entry (base_directory_of path)) es l -> Q p c') ->
  runs (prepare_plan limits path prune) c Q (fun _ => preparing st n).
Proof.
  intros Hp HQ. unfold prepare_plan. destruct (_ || _ || _); [by apply runs_fail|].
  apply runs_bind, preparing_lift; [done|]. intros data Hdata.
  apply runs_bind, preparing_lift; [done|]. intros document Hdoc.
  apply runs_bind, preparing_lift; [done|]. intros [es et] Hentries. pose proof Hp as [Hr Hu].
  apply runs_bind. eapply runs_mono; [apply (list_all_runs limits st n c (fun x c' => x =
    (listed sr_created_at (st_servers st), listed tr_created_at (st_tunnels st)) /\ preparing st n c'));
    [done|done|]| |].
  { intros db Hdb. split; [done|]. split; [done|exact Hu]. }
  2: { intros e c' (db & -> & Hr'). split; [done|exact Hu]. }
  intros [servers tunnels] c1 [[= -> ->] Hp1]. cbv zeta. fold (kept_servers st). fold (kept_tunnels st).
  pose proof Hp1 as [(_ & Hst & _) _].
  apply runs_bind, prepare_servers_runs; [done|]. intros tk l c2 Hp2 Hl Hread Hnd _ Hmatched.
  apply runs_bind, prepare_tunnels_runs; [done|..].
  { apply Forall_forall. intros s Hs. destruct (Forall2_elem_r _ _ _ _ Hl Hs) as (? & _ & e & _ & Hprep).
    by destruct Hprep as [_ [(Hid & _) _] _ _ _]. }
  intros tk' lt c3 Hp3 Hlt Hndt _ Hmatched'.
  assert (forall i, i ∈ matched_ids tk <->
    exists s r, s ∈ l /\ ps_original s = Some r /\ i = str (sr_id r)) as Hm.
  { intros i. rewrite Hmatched. simpl. set_solver. }
  assert (forall i, i ∈ matched_ids tk' <->
    exists x t, x ∈ lt /\ pt_original x = Some t /\ i = str (tr_id t)) as Hm'.
  { intros i. rewrite Hmatched'. simpl. set_solver. }
  apply runs_bind. destruct prune.
  - apply runs_bind, preparing_lift; [done|]. intros pruned Hpruned. apply runs_ret, runs_ret.
    eapply HQ; [done..| |exact Hread]. by eapply planned_pruned.
  - apply runs_ret, runs_ret. eapply HQ; [done..| |exact Hread]. by eapply planned_unpruned.
Qed.
End Prepare.
