(* ===== verification/ConfigApply.v ===== *)
(** * The application of a declarative configuration

    The staging of the credentials, the transaction and the clean-up of [apply_config],
    and what a successful application leaves in the stores. *)
From stdpp Require Import sorting.
From S2P Require Import Prelude Common Ids Text Endpoint Models Rows Database Repository StorageSpec StorageRun Storage Json IpcProtocol Credentials Control ControlRun ControlHandlers ControlServers ControlSagas ConfigFile Config ConfigRun.

(** ** Staging *)

(** Every reference of the record is to a slot of the server that is in the store. *)
Definition well_referenced {S} `{CredentialContents S} (r : ServerRecord) (s : S) : Prop :=
  forall k key, credential_reference r k = Some key -> slot_of (sr_id r) k key /\ held key s.

(** Nothing has happened to the slots of servers other than those in [ids]. *)
Definition other_slots {S} `{CredentialContents S} (ids : list bytes) (s s' : S) : Prop :=
  forall id k key, canonical server (str id) -> str id ∉ ids -> slot_of id k key -> undisturbed key s s'.

(** The unchanged materials of a list are those the record [r] refers to; all of them are. *)
Definition unchanged_stored {S} `{CredentialContents S} (r : ServerRecord) (l : list CredentialMaterial)
    (s : S) : Prop :=
  Forall (fun m => cm_changed m = false -> refers (credential_reference r (cm_kind m)) (cm_value m) s) l.
Definition materials_stored {S} `{CredentialContents S} (r : ServerRecord) (l : list CredentialMaterial)
    (s : S) : Prop :=
  Forall (fun m => refers (credential_reference r (cm_kind m)) (cm_value m) s) l.

(** A prepared server whose materials can be staged. *)
Record stageable (st : State) (s : PreparedServer) : Prop := {
  stageable_id : canonical server (str (sr_id (ps_desired s)));
  stageable_kinds : NoDup (cm_kind <$> ps_credentials s);
  stageable_fresh k : ~ referenced st (next_server_credential_key (ps_desired s) k);
  stageable_references k key : credential_reference (ps_desired s) k = Some key ->
    slot_of (sr_id (ps_desired s)) k key /\ referenced st key
}.

(** A prepared server after the staging: only the references have changed. *)
Definition staged (s s' : PreparedServer) : Prop :=
  s' = s \/ exists a b c d, s' = set_desired (set_server_refs a b c d (ps_desired s)) s.

Lemma set_reference_refs k reference r :
  exists a b c d, set_credential_reference k reference r = set_server_refs a b c d r.
Proof. destruct k; by eexists _, _, _, _. Qed.

Lemma credential_reference_set k k' reference r :
  credential_reference (set_credential_reference k reference r) k' =
  if decide (k = k') then reference else credential_reference r k'.
Proof. by destruct k, k'. Qed.

Lemma next_key_set k k' reference r :
  k <> k' ->
  next_server_credential_key (set_credential_reference k reference r) k' = next_server_credential_key r k'.
Proof. by destruct k, k'. Qed.

Lemma sr_id_set k reference r : sr_id (set_credential_reference k reference r) = sr_id r.
Proof. by destruct k. Qed.

Lemma other_slots_refl {S} `{CredentialStoreLaws S} ids (s : S) : other_slots ids s s.
Proof. intros id k key _ _ _. apply undisturbed_refl. Qed.

Lemma refers_undisturbed {S} `{CredentialStoreLaws S} reference value (s s' : S) :
  (forall key, reference = Some key -> undisturbed key s s') -> refers reference value s ->
  refers reference value s'.
Proof.
  destruct reference as [key|]; [|done]. intros Hu [Hv Hd]. destruct (Hu key eq_refl) as [Ed [Ev|Ev]];
    simpl; rewrite Ed, Ev; auto.
Qed.

Lemma other_slots_trans {S} `{CredentialStoreLaws S} ids1 ids2 ids (s1 s2 s3 : S) :
  other_slots ids1 s1 s2 -> other_slots ids2 s2 s3 ->
  (forall i, i ∈ ids1 \/ i ∈ ids2 -> i ∈ ids) -> other_slots ids s1 s3.
Proof.
  intros H12 H23 Hids id k key Hc Hn Hs. eapply undisturbed_trans.
  - eapply H12; [done|intros Hi; apply Hn; auto|done].
  - eapply H23; [done|intros Hi; apply Hn; auto|done].
Qed.

Section Staging.
Context `{AsioAddressLaws} `{SqliteMessages} {S : Type} `{CredentialStoreLaws S}.
Implicit Types (c : Control S) (st : State) (n : nat) (r : ServerRecord).

(** The credential store the application starts from. *)
Variable s0 : S.

(** Between the preparation and the commit: the invariant holds, and no secret that is
    referred to has been touched. *)
Definition sparing st n c : Prop := ready False st n c /\ secrets_kept st s0 (credentials c).

Lemma sparing_store st n c s :
  sparing st n c -> secrets_kept st (credentials c) s -> sparing st n (set_credentials s c).
Proof.
  intros [(Hd & Hst & Hok & Hn & [He _] & _) Hs] Hs'. split; [|by eapply secrets_kept_trans].
  split_and!; try done. by apply (references_undisturbed st (credentials c)).
Qed.

Lemma discard_sparing keys st n c :
  sparing st n c -> unused_keys st keys -> sparing st n (discard keys c).
Proof.
  revert c. induction keys as [|key keys IH]; intros c Hr Hk; simpl; [done|].
  apply Forall_cons in Hk as [Hk Hks]. apply IH; [|done]. unfold on_store.
  destruct (credential_remove key (credentials c)) as [x s] eqn:E. apply sparing_store; [done|].
  intros key' Hk'. assert (key' <> key) as Hne by (by intros ->).
  pose proof (remove_other key (credentials c) key' Hne) as Hu. by rewrite E in Hu.
Qed.

Lemma put_runs key value keys st n c (Q : unit -> Control S -> Prop) :
  sparing st n c -> unused_keys st keys -> ~ referenced st key ->
  (forall c', sparing st n c' -> refers (Some key) value (credentials c') ->
     (forall key', key' <> key -> undisturbed key' (credentials c) (credentials c')) -> Q tt c') ->
  runs (discarding keys (on_store (credential_put key value))) c Q (fun _ => sparing st n).
Proof.
  intros Hr Hk Hfresh HQ. unfold runs, discarding, on_store.
  destruct (credential_put key value (credentials c)) as [x s] eqn:E.
  assert (forall key', key' <> key -> undisturbed key' (credentials c) s) as Hother.
  { intros key' Hne. pose proof (put_other key value (credentials c) key' Hne) as Hu. by rewrite E in Hu. }
  assert (sparing st n (set_credentials s c)) as Hr'.
  { apply sparing_store; [done|]. intros key' Hk'. apply Hother. by intros ->. }
  destruct x as [[]|e]; [|by apply discard_sparing]. apply HQ; [done| |done]. simpl.
  destruct (put_success key value (credentials c)) as [Hv Hd]; [by rewrite E|]. by rewrite E in Hv, Hd.
Qed.

(** What the staging of a material does to the materials of other kinds. *)
Lemma refers_other_kind r k k' reference key value (s s' : S) :
  canonical server (str (sr_id r)) -> well_referenced r s -> k' <> k -> slot_of (sr_id r) k key ->
  (forall key', key' <> key -> undisturbed key' s s') ->
  refers (credential_reference r k') value s ->
  refers (credential_reference (set_credential_reference k reference r) k') value s'.
Proof.
  intros Hcan Hgood Hne Hslot Hother. rewrite credential_reference_set, decide_False by done.
  apply refers_undisturbed. intros key' Hkey'. apply Hother. intros ->.
  destruct (Hgood k' key Hkey') as [Hs _]. by destruct (slot_of_inj _ _ _ _ _ Hcan Hcan Hs Hslot).
Qed.

(** What is known of the record [r'] that the staging of [l] makes of [r]. *)
Record materials_staged (l : list CredentialMaterial) r r' (s s' : S) : Prop := {
  staged_refs : exists a b d e, r' = set_server_refs a b d e r;
  staged_referenced : well_referenced r' s';
  staged_slots : other_slots [str (sr_id r)] s s';
  staged_other k value : k ∉ cm_kind <$> l ->
    refers (credential_reference r k) value s -> refers (credential_reference r' k) value s';
  staged_values : unchanged_stored r l s -> materials_stored r' l s'
}.

Lemma materials_staged_nil r (s : S) : well_referenced r s -> materials_staged [] r r s s.
Proof.
  intros Hw. split; try done; [|apply other_slots_refl|by constructor]. exists (sr_credential_ref r),
    (sr_ca_credential_ref r), (sr_client_certificate_ref r), (sr_client_private_key_ref r). by destruct r.
Qed.

(** A first material that has not changed. *)
Lemma materials_staged_skip m l r r' (s s' : S) :
  cm_changed m = false -> cm_kind m ∉ cm_kind <$> l ->
  materials_staged l r r' s s' -> materials_staged (m :: l) r r' s s'.
Proof.
  intros Hm Hnew [Hr Hw Hs Ho Hl]. split; try done.
  - intros k value. rewrite fmap_cons, not_elem_of_cons. intros [_ Hk]. by apply Ho.
  - intros Hu. apply Forall_cons in Hu as [Hv Hu]. constructor; [|by apply Hl]. by apply Ho, Hv.
Qed.

(** A first material that was written, or dropped. *)
Lemma materials_staged_cons m l reference r r' (s s1 s' : S) :
  cm_changed m = true -> cm_kind m ∉ cm_kind <$> l ->
  let r1 := set_credential_reference (cm_kind m) reference r in
  other_slots [str (sr_id r)] s s1 -> refers reference (cm_value m) s1 ->
  (forall k value, k <> cm_kind m -> refers (credential_reference r k) value s ->
     refers (credential_reference r1 k) value s1) ->
  materials_staged l r1 r' s1 s' -> materials_staged (m :: l) r r' s s'.
Proof.
  intros Hm Hnew r1 Hslots Hv Hother [(a & b & d & e & Er) Hw Hs Hrest Hl].
  assert (sr_id r1 = sr_id r) as Hid by apply sr_id_set. rewrite Hid in Hs.
  assert (refers (credential_reference r' (cm_kind m)) (cm_value m) s') as Hhead.
  { apply Hrest; [done|]. unfold r1. by rewrite credential_reference_set, decide_True. }
  split; [|done|..].
  - rewrite Er. unfold r1. destruct (set_reference_refs (cm_kind m) reference r) as (? & ? & ? & ? & ->).
    by eexists _, _, _, _.
  - eapply other_slots_trans; [exact Hslots|exact Hs|]. set_solver.
  - intros k value. rewrite fmap_cons, not_elem_of_cons. intros [Hne Hk] Hr. apply Hrest; [done|]. by apply Hother.
  - intros Hu. apply Forall_cons in Hu as [_ Hu]. constructor; [done|]. apply Hl.
    apply Forall_forall. intros m' Hm' Hc. unfold unchanged_stored in Hu. rewrite Forall_forall in Hu.
    apply Hother; [|by apply Hu]. intros E. apply Hnew. rewrite <- E. by apply list_elem_of_fmap_2.
Qed.

Lemma stage_materials_runs (l : list CredentialMaterial) r keys st n c (Q : ServerRecord * list bytes -> Control S -> Prop) :
  sparing st n c -> unused_keys st keys -> canonical server (str (sr_id r)) ->
  NoDup (cm_kind <$> l) -> well_referenced r (credentials c) ->
  (forall k, k ∈ cm_kind <$> l -> ~ referenced st (next_server_credential_key r k)) ->
  (forall r' keys' c', sparing st n c' -> unused_keys st keys' ->
     materials_staged l r r' (credentials c) (credentials c') -> Q (r', keys') c') ->
  runs (stage_materials l r keys) c Q (fun _ => sparing st n).
Proof.
  revert r keys c Q. induction l as [|m l IH]; intros r keys c Q Hr Hk Hcan Hnd Hgood Hfresh HQ; simpl.
  { apply runs_ret, HQ; [done|done|]. by apply materials_staged_nil. }
  rewrite fmap_cons in Hnd, Hfresh. apply NoDup_cons in Hnd as [Hm Hnd].
  destruct (cm_changed m) eqn:Hchanged; cbn [negb].
  2: { apply IH; try done; [intros k Hin; apply Hfresh; by right|]. intros r' keys' c' Hr' Hk' Hst.
       apply HQ; [done|done|]. by apply materials_staged_skip. }
  assert (Hstep : forall reference keys' c', sparing st n c' -> unused_keys st keys' ->
    let r1 := set_credential_reference (cm_kind m) reference r in
    well_referenced r1 (credentials c') -> other_slots [str (sr_id r)] (credentials c) (credentials c') ->
    refers reference (cm_value m) (credentials c') ->
    (forall k value, k <> cm_kind m -> refers (credential_reference r k) value (credentials c) ->
       refers (credential_reference r1 k) value (credentials c')) ->
    runs (stage_materials l r1 keys') c' Q (fun _ => sparing st n)).
  { intros reference keys' c' Hr' Hk' r1 Hgood' Hslots Hv Hother. apply IH; try done.
    - unfold r1. by rewrite sr_id_set.
    - intros k Hin. unfold r1. rewrite next_key_set; [|by intros <-]. apply Hfresh. by right.
    - intros r' keys2 c2 Hr2 Hk2 Hst2. apply HQ; [done|done|].
      by apply (materials_staged_cons m l reference r r' _ (credentials c')). }
  case_bool_decide as Hempty.
  { apply Hstep; [done|done| |apply other_slots_refl|done|].
    - intros k key. rewrite credential_reference_set, sr_id_set. case_decide; [done|apply Hgood].
    - intros k value Hne. by rewrite credential_reference_set, decide_False. }
  cbv zeta. set (key := next_server_credential_key r (cm_kind m)).
  assert (slot_of (sr_id r) (cm_kind m) key) as Hslot by apply next_key_slot.
  assert (~ referenced st key) as Hkey by (apply Hfresh; by left).
  apply runs_bind, (put_runs _ _ _ st n); [done..|]. intros c1 Hr1 Hheld Hothers. apply Hstep; [done|..].
  - apply Forall_app. split; [done|]. by apply Forall_singleton.
  - intros k key'. rewrite credential_reference_set, sr_id_set. case_decide as Hd.
    + intros [= <-]. rewrite <- Hd. split; [done|]. destruct Hheld as [Hv Hdu]. by split; eexists.
    + intros Href. destruct (Hgood k key' Href) as [Hs Hh]. split; [done|]. eapply undisturbed_held; [|exact Hh].
      apply Hothers. intros ->. destruct (slot_of_inj _ _ _ _ _ Hcan Hcan Hs Hslot) as [_ E]. by apply Hd.
  - intros id k key' Hc Hn Hs. apply Hothers. intros ->.
    destruct (slot_of_inj _ _ _ _ _ Hc Hcan Hs Hslot) as [E _]. rewrite E in Hn. set_solver.
  - done.
  - intros k value Hne. by apply (refers_other_kind r (cm_kind m) k (Some key) key).
Qed.

Lemma well_referenced_kept r ids (s s' : S) :
  canonical server (str (sr_id r)) -> str (sr_id r) ∉ ids -> other_slots ids s s' ->
  well_referenced r s -> well_referenced r s'.
Proof.
  intros Hc Hn Ho Hw k key Hk. destruct (Hw k key Hk) as [Hs Hh]. split; [done|].
  eapply undisturbed_held; [by eapply Ho|done].
Qed.

Lemma prepared_stageable st (s : S) e x :
  valid_state st -> references_ok st s -> server_prepared st e x -> stageable st x.
Proof.
  intros Hst Hok [_ [(Hid & _) Hkind] Ho [Hks Hprev] _].
  assert (canonical server (str (sr_id (ps_desired x)))) as Hcan by (by rewrite <- Hkind).
  split; [done|rewrite Hks; by repeat constructor; set_solver|..].
  - intros k. destruct (ps_original x) as [r|].
    + destruct Ho as (Hk & Hrid & Hrefs & _).
      assert (next_server_credential_key (ps_desired x) k = next_server_credential_key r k) as ->.
      { unfold next_server_credential_key. by rewrite Hrid, Hrefs. }
      by apply (next_key_unreferenced st s).
    + destruct Ho as (Hfresh & _). intros (r & k' & Hk & Href).
      destruct (references_kept st s r k' _ Hok Hk Href) as [Hslot _]. apply (Hfresh r Hk).
      destruct (kept_server_id st r Hst Hk) as [Hc _].
      by destruct (slot_of_inj _ _ _ _ _ Hc Hcan Hslot (next_key_slot (ps_desired x) k)).
  - intros k key Hkey. destruct (ps_original x) as [r|].
    + destruct Ho as (Hk & Hrid & Hrefs & _). rewrite Hrefs in Hkey. rewrite Hrid.
      split; [by eapply references_kept|by exists r, k].
    + destruct Ho as (_ & Hnone & _). by rewrite Hnone in Hkey.
Qed.

(** A server before and after the staging, when the store is [s]. *)
Definition staged_server (s : S) (x x' : PreparedServer) : Prop :=
  staged x x' /\ (skipped (ps_mutation x) = true -> x' = x) /\
  (skipped (ps_mutation x) = false -> well_referenced (ps_desired x') s).

(** The materials of the servers that are to be changed. *)
Definition values_ready (s : S) (x : PreparedServer) : Prop :=
  skipped (ps_mutation x) = false -> unchanged_stored (ps_desired x) (ps_credentials x) s.
Definition values_staged (s : S) (x x' : PreparedServer) : Prop :=
  skipped (ps_mutation x) = false -> materials_stored (ps_desired x') (ps_credentials x) s.

Lemma staged_id x x' : staged x x' -> sr_id (ps_desired x') = sr_id (ps_desired x).
Proof. by intros [->|(? & ? & ? & ? & ->)]. Qed.

(** The references of a server that is still to be staged are in use. *)
Lemma values_ready_kept st (s s' : S) x :
  (skipped (ps_mutation x) = false -> stageable st x) -> secrets_kept st s s' ->
  values_ready s x -> values_ready s' x.
Proof.
  intros Hx Hs Hv Hm. eapply Forall_impl; [exact (Hv Hm)|]. intros m Hr Hc. specialize (Hr Hc).
  eapply refers_undisturbed; [|exact Hr]. intros key Hkey. apply Hs.
  by apply (stageable_references st x (Hx Hm)) in Hkey as [_ ?].
Qed.

(** The references of a staged server are slots of its own. *)
Lemma values_staged_kept ids (s s' : S) x x' :
  staged_server s x x' -> canonical server (str (sr_id (ps_desired x))) ->
  str (sr_id (ps_desired x)) ∉ ids -> other_slots ids s s' -> values_staged s x x' -> values_staged s' x x'.
Proof.
  intros (Hs & _ & Hw) Hcan Hn Ho Hv Hm. eapply Forall_impl; [exact (Hv Hm)|]. intros m.
  apply refers_undisturbed. intros key Hkey. destruct (Hw Hm _ _ Hkey) as [Hslot _].
  rewrite (staged_id _ _ Hs) in Hslot. by eapply Ho.
Qed.

Lemma stage_servers_runs l keys st n c (Q : list PreparedServer * list bytes -> Control S -> Prop) :
  sparing st n c -> unused_keys st keys ->
  Forall (fun x => skipped (ps_mutation x) = false -> stageable st x) l -> NoDup (server_ids l) ->
  (forall l' keys' c', sparing st n c' -> unused_keys st keys' ->
     Forall2 (staged_server (credentials c')) l l' ->
     other_slots (server_ids l) (credentials c) (credentials c') ->
     (Forall (values_ready s0) l -> Forall2 (values_staged (credentials c')) l l') ->
     Q (l', keys') c') ->
  runs (stage_servers l keys) c Q (fun _ => sparing st n).
Proof.
  revert keys c Q. induction l as [|x l IH]; intros keys c Q Hr Hk Hall Hnd HQ; simpl.
  { apply runs_ret, HQ; [done|done|done|apply other_slots_refl|done]. }
  apply Forall_cons in Hall as [Hx Hall]. apply NoDup_cons in Hnd as [Hn Hnd].
  assert (Hrest : forall x' keys' c', sparing st n c' -> unused_keys st keys' ->
    staged_server (credentials c') x x' ->
    other_slots [str (sr_id (ps_desired x))] (credentials c) (credentials c') ->
    (values_ready s0 x -> values_staged (credentials c') x x') ->
    runs ('(rest, keys2) ← stage_servers l keys'; mret (x' :: rest, keys2)) c' Q (fun _ => sparing st n)).
  { intros x' keys' c' Hr' Hk' Hst Ho Hv. pose proof Hst as (Hs & Hsk & Hw). apply runs_bind, IH; [done..|].
    intros l' keys2 c2 Hr2 Hk2 Hl2 Ho2 Hv2. apply runs_ret, HQ; [done|done|..].
    - constructor; [|done]. split; [done|]. split; [done|]. intros Hm. eapply well_referenced_kept; [..|exact Ho2|by apply Hw].
      + rewrite (staged_id _ _ Hs). by apply Hx.
      + by rewrite (staged_id _ _ Hs).
    - eapply other_slots_trans; [exact Ho|exact Ho2|]. unfold server_ids. rewrite fmap_cons. set_solver.
    - intros [Hvx Hvl]%Forall_cons. constructor.
      + intros Hm. by apply (values_staged_kept (server_ids l) (credentials c')); auto; apply Hx.
      + by apply Hv2. }
  apply runs_bind. destruct (skipped (ps_mutation x)) eqn:Hskip.
  - apply runs_ret, Hrest; [done|done| |apply other_slots_refl|].
    + split; [by left|]. split; [done|by rewrite Hskip].
    + intros _. unfold values_staged. by rewrite Hskip.
  - apply runs_bind. destruct (Hx eq_refl) as [Hcan Hkinds Hfresh Hrefs].
    apply (stage_materials_runs _ _ _ st n); [done..| | |].
    + intros k key Hkey. destruct (Hrefs k key Hkey) as [Hslot (r & k' & Hkr & Href)].
      split; [done|]. destruct Hr as [(_ & _ & Hok & _) _]. by eapply references_kept.
    + done.
    + intros r' keys' c' Hr' Hk' [(a & b & d & e & ->) Hw Ho _ Hv]. apply runs_ret, Hrest; [done|done| |done|..].
      * split; [right; by eexists _, _, _, _|]. by split; [rewrite Hskip|].
      * intros Hvx _. apply Hv. destruct Hr as [_ Hs0]. by apply (values_ready_kept st s0 _ x).
Qed.
End Staging.

(** ** The transaction *)

(** The prepared servers, and tunnels, that are created or updated. *)
Definition mutated_servers (l : list PreparedServer) : list PreparedServer :=
  List.filter (fun s => negb (skipped (ps_mutation s))) l.
Definition mutated_tunnels (l : list PreparedTunnel) : list PreparedTunnel :=
  List.filter (fun x => negb (skipped (pt_mutation x))) l.

(** The server [x] has become [x'] in the state [st]. *)
Definition server_applied (st : State) (x x' : PreparedServer) : Prop :=
  if skipped (ps_mutation x) then x' = x
  else exists r, x' = set_desired r x /\ kept_server st r /\ same_config r (ps_desired x) /\
    (forall k, credential_reference r k = credential_reference (ps_desired x) k).

(** The tunnel [x] is in the state [st]. *)
Definition tunnel_applied (st : State) (x : PreparedTunnel) : Prop :=
  skipped (pt_mutation x) = false ->
  exists t, kept_tunnel st t /\ same_tunnel_config t (pt_desired x).

(** The two states have the same configured records, but for those with an identifier in [ids]. *)
Definition same_servers (ids : list bytes) (st st' : State) : Prop :=
  forall r, str (sr_id r) ∉ ids -> kept_server st r <-> kept_server st' r.
Definition same_tunnels (ids : list bytes) (st st' : State) : Prop :=
  forall t, str (tr_id t) ∉ ids -> kept_tunnel st t <-> kept_tunnel st' t.

Lemma same_servers_trans ids1 ids2 ids st1 st2 st3 :
  same_servers ids1 st1 st2 -> same_servers ids2 st2 st3 ->
  (forall i, i ∈ ids1 \/ i ∈ ids2 -> i ∈ ids) -> same_servers ids st1 st3.
Proof. intros H12 H23 Hids r Hr. rewrite (H12 r), (H23 r); [done|..]; intros Hi; apply Hr; auto. Qed.

Lemma same_tunnels_trans ids1 ids2 ids st1 st2 st3 :
  same_tunnels ids1 st1 st2 -> same_tunnels ids2 st2 st3 ->
  (forall i, i ∈ ids1 \/ i ∈ ids2 -> i ∈ ids) -> same_tunnels ids st1 st3.
Proof. intros H12 H23 Hids r Hr. rewrite (H12 r), (H23 r); [done|..]; intros Hi; apply Hr; auto. Qed.

Lemma same_servers_put r st : same_servers [str (sr_id r)] st (put_server r st).
Proof.
  intros r' Hr. unfold kept_server. simpl. rewrite lookup_insert_ne; [done|]. intros E.
  apply Hr. rewrite E. by left.
Qed.

Lemma same_tunnels_put t st : same_tunnels [str (tr_id t)] st (put_tunnel t st).
Proof.
  intros t' Ht. unfold kept_tunnel. simpl. rewrite lookup_insert_ne; [done|]. intros E.
  apply Ht. rewrite E. by left.
Qed.

Lemma kept_put_server r st : sr_desired_state r <> ServerDesiredState.removed -> kept_server (put_server r st) r.
Proof. intros Hd. split; [|done]. simpl. by rewrite lookup_insert_eq. Qed.

Lemma kept_put_tunnel t st : tr_desired_state t <> TunnelDesiredState.removed -> kept_tunnel (put_tunnel t st) t.
Proof. intros Hd. split; [|done]. simpl. by rewrite lookup_insert_eq. Qed.

Lemma server_applied_kept ids st st' x x' :
  server_applied st x x' -> same_servers ids st st' -> str (sr_id (ps_desired x)) ∉ ids ->
  server_applied st' x x'.
Proof.
  unfold server_applied. destruct (skipped _); [done|]. intros (r & -> & Hk & Hc & Hr) Hs Hn.
  exists r. split_and!; try done; [|apply Hc..]. apply Hs; [|done]. by destruct Hc as [-> _].
Qed.

Lemma tunnel_applied_kept ids st st' x :
  tunnel_applied st x -> same_tunnels ids st st' -> str (tr_id (pt_desired x)) ∉ ids ->
  tunnel_applied st' x.
Proof.
  intros Ha Hs Hn Hx. destruct (Ha Hx) as (t & Hk & Hc). exists t. split; [|done].
  apply Hs; [|done]. by destruct Hc as [-> _].
Qed.

Lemma mutated_cons x l :
  mutated_servers (x :: l) = if skipped (ps_mutation x) then mutated_servers l else x :: mutated_servers l.
Proof. unfold mutated_servers. simpl. by destruct (skipped _). Qed.

Lemma mutated_tunnels_cons x l :
  mutated_tunnels (x :: l) = if skipped (pt_mutation x) then mutated_tunnels l else x :: mutated_tunnels l.
Proof. unfold mutated_tunnels. simpl. by destruct (skipped _). Qed.

Lemma server_ids_mutated l i : i ∈ server_ids (mutated_servers l) -> i ∈ server_ids l.
Proof.
  unfold server_ids. rewrite !list_elem_of_fmap. intros (x & -> & [Hx _]%elem_of_List_filter). by exists x.
Qed.

Lemma tunnel_ids_mutated l i : i ∈ tunnel_ids (mutated_tunnels l) -> i ∈ tunnel_ids l.
Proof.
  unfold tunnel_ids. rewrite !list_elem_of_fmap. intros (x & -> & [Hx _]%elem_of_List_filter). by exists x.
Qed.

Section Transaction.
Context `{AsioAddressLaws} `{SqliteMessages} {S : Type} `{CredentialStoreLaws S}.
Variable limits : StorageLimits.
Implicit Types (c : Control S) (st : State) (n : nat) (r : ServerRecord).
Abbreviation any := (fun _ : Error => True).
Abbreviation fails st0 n := (failed st0 n False any).

(** In the transaction that started at [st0], with the contents [st], whose references are
    in order as well. *)
Definition applying st0 n st c : Prop := at_work st0 n False st c /\ references_ok st (credentials c).

Lemma fails_any st n e e' c : fails st n e c -> fails st n e' c.
Proof. intros (? & ? & ? & ? & ?). by split_and!. Qed.

(** The record that is stored now, or an error of the caller's. *)
Lemma live_server_runs {A} id st0 st n c (k : Result ServerRecord -> Action (Control S) A)
    (Q : A -> Control S -> Prop) :
  applying st0 n st c ->
  (forall e c', fails st0 n e c' -> runs (k (Err e)) c' Q (fails st0 n)) ->
  (forall r c', applying st0 n st c' -> credentials c' = credentials c ->
     st_servers st !! str id = Some r -> sr_id r = id -> runs (k (Ok r)) c' Q (fails st0 n)) ->
  runs (live ← attempt (on_db (ServerRepository.get_by_id id)); k live) c Q (fails st0 n).
Proof.
  intros [Hw Hok] Herr HQ. pose proof Hw as (_ & Hst & _). apply runs_bind, runs_attempt.
  eapply runs_mono; [eapply (work_query _ _ _ any _ (find_server id st) st c
    (fun r c' => at_work st0 n False st c' /\ credentials c' = credentials c /\ find_server id st = Ok r));
    [done|apply steady_server_get|by apply get_server_quiet|done|by intros]|..].
  - intros r c' (Hw' & Hc & Hf). pose proof (find_server_lookup _ _ _ Hf) as Hm.
    destruct (valid_server_id st _ r Hst Hm) as (_ & Hkr & Hid).
    unfold find_server in Hf. destruct (bool_decide_reflect (kind id = server)) as [Hk|]; [|done].
    apply HQ; [by split; [|rewrite Hc]|done|done|]. destruct (sr_id r), id. simpl in *. congruence.
  - intros e c' Hf. by apply (Herr e).
Qed.

Lemma live_tunnel_runs {A} id st0 st n c (k : Result TunnelRecord -> Action (Control S) A)
    (Q : A -> Control S -> Prop) :
  applying st0 n st c ->
  (forall e c', fails st0 n e c' -> runs (k (Err e)) c' Q (fails st0 n)) ->
  (forall t c', applying st0 n st c' -> credentials c' = credentials c ->
     st_tunnels st !! str id = Some t -> tr_id t = id -> runs (k (Ok t)) c' Q (fails st0 n)) ->
  runs (live ← attempt (on_db (TunnelRepository.get_by_id id)); k live) c Q (fails st0 n).
Proof.
  intros [Hw Hok] Herr HQ. pose proof Hw as (_ & Hst & _). apply runs_bind, runs_attempt.
  eapply runs_mono; [eapply (work_query _ _ _ any _ (find_tunnel id st) st c
    (fun t c' => at_work st0 n False st c' /\ credentials c' = credentials c /\ find_tunnel id st = Ok t));
    [done|apply steady_tunnel_get|by apply get_tunnel_quiet|done|by intros]|..].
  - intros t c' (Hw' & Hc & Hf). pose proof (find_tunnel_lookup _ _ _ Hf) as Hm.
    destruct (valid_tunnels st Hst _ _ Hm) as [[_ Hv] Hid]. apply validate_tunnel_iff in Hv as [Hkt _].
    unfold find_tunnel in Hf. destruct (bool_decide_reflect (kind id = tunnel)) as [Hk|]; [|done].
    apply HQ; [by split; [|rewrite Hc]|done|done|]. destruct (tr_id t), id. simpl in *. congruence.
  - intros e c' Hf. by apply (Herr e).
Qed.

Lemma applying_put st0 st n r c :
  at_work st0 n False (put_server r st) c -> references_ok st (credentials c) ->
  well_referenced r (credentials c) -> applying st0 n (put_server r st) c.
Proof.
  intros Hw Hok Hr. split; [done|]. apply references_put; [done|]. intros k key Href.
  destruct (Hr k key Href). auto.
Qed.

(** What the transaction relies on for a server. *)
Record appliable (s : S) (x : PreparedServer) : Prop := {
  appliable_wf : server_record_wf (ps_desired x);
  appliable_managed : sr_managed_by_config (ps_desired x) = true;
  appliable_desired : sr_desired_state (ps_desired x) <> ServerDesiredState.removed;
  appliable_references : well_referenced (ps_desired x) s
}.

Lemma apply_server_runs x st0 st n c (Q : PreparedServer -> Control S -> Prop) :
  applying st0 n st c -> (skipped (ps_mutation x) = false -> appliable (credentials c) x) ->
  (forall x' st' c', applying st0 n st' c' -> credentials c' = credentials c ->
     server_applied st' x x' -> same_servers (server_ids (mutated_servers [x])) st st' ->
     st_tunnels st' = st_tunnels st -> Q x' c') ->
  runs (apply_server limits x) c Q (fails st0 n).
Proof.
  intros Ha Hx HQ. unfold apply_server. unfold server_applied in HQ. rewrite mutated_cons in HQ.
  destruct (skipped (ps_mutation x)); [by apply runs_ret, (HQ _ st)|].
  destruct (Hx eq_refl) as [Hwf Hman Hdes Hgood]. destruct (ps_original x) as [original|].
  - apply (live_server_runs _ st0 st n); [done|by intros; apply runs_fail, (fails_any _ _ e)|].
    intros live c1 [Hw1 Hok1] Hc1 Hm Hid.
    destruct (_ || _); [by apply (work_fail _ _ _ _ _ _ st)|]. cbv zeta.
    apply runs_bind, (work_lift _ _ _ _ _ st); [done..|]. intros revision Erev.
    pose proof Hw1 as (_ & Hst & _). destruct (valid_servers st Hst _ _ Hm) as [[(_ & _ & Hra & Hrv) _] _].
    apply next_revision_u64 in Erev as [Hrev' _]; [|done].
    apply runs_bind, (work_time _ _ _ _ _ st); [done|]. intros u c2 _ Hw2 Hc2.
    destruct Hwf as (Hidwf & Hep & _).
    set (r1 := if _ || _ then _ else _). assert (sr_id r1 = sr_id (ps_desired x) /\
      sr_name r1 = sr_name (ps_desired x) /\ sr_endpoint r1 = sr_endpoint (ps_desired x) /\
      sr_tls_server_name r1 = sr_tls_server_name (ps_desired x) /\
      sr_desired_state r1 = sr_desired_state (ps_desired x) /\ sr_managed_by_config r1 = true /\
      is_u32 (sr_reconnect_attempt r1) /\
      (forall k, credential_reference r1 k = credential_reference (ps_desired x) k))
      as (F1 & F2 & F3 & F4 & F5 & F6 & F7 & F8).
    { subst r1. destruct (_ || _); split_and!; try done; by intros []. }
    clearbody r1. set (r2 := set_server_version revision u r1).
    assert (server_record_wf r2) as Hwf2.
    { split_and!; cbn; [by rewrite F1|by rewrite F3|done|done]. }
    apply runs_bind, (update_server_work st0 st); [done..|]. intros c3 Hw3 Hc3. apply runs_ret.
    assert (credentials c3 = credentials c) as Hc by congruence.
    apply (HQ _ (put_server r2 st)); [| done| |cbn; rewrite <- F1; apply (same_servers_put r2)|done].
    + apply applying_put; rewrite ?Hc; [done|by rewrite <- Hc1|]. intros k key Hkey.
      assert (credential_reference r2 k = credential_reference r1 k) as E by (by destruct k).
      rewrite E, F8 in Hkey. cbn. rewrite F1. by apply Hgood.
    + exists r2. split; [done|]. split; [by apply kept_put_server; cbn; rewrite F5|].
      split; [split_and!; cbn; congruence|]. intros k. rewrite <- F8. by destruct k.
  - destruct Ha as [Hw Hok]. pose proof Hw as (_ & Hst & _). apply runs_bind,
      (work_db _ _ _ _ _ (create_server_spec (max_servers limits) (ps_desired x) st) st);
      [done|apply steady_server_create|by apply create_server_outcome|
       intros ? st' Hs; by eapply create_server_valid|done|].
    intros [] st' c1 Hs Hw1 Hc1. apply create_server_inv in Hs as [-> _]. apply runs_ret.
    apply (HQ _ (put_server (ps_desired x) st)); [|done| |apply same_servers_put|done].
    + by apply applying_put; rewrite ?Hc1.
    + exists (ps_desired x). split; [by destruct x|]. split; [by apply kept_put_server|].
      by split_and!.
Qed.

Lemma apply_servers_runs (l : list PreparedServer) st0 st n c (Q : list PreparedServer -> Control S -> Prop) :
  applying st0 n st c -> NoDup (server_ids l) ->
  Forall (fun x => skipped (ps_mutation x) = false -> appliable (credentials c) x) l ->
  (forall l' st' c', applying st0 n st' c' -> credentials c' = credentials c ->
     Forall2 (server_applied st') l l' -> same_servers (server_ids (mutated_servers l)) st st' ->
     st_tunnels st' = st_tunnels st -> Q l' c') ->
  runs (apply_servers limits l) c Q (fails st0 n).
Proof.
  revert st c Q. induction l as [|x l IH]; intros st c Q Ha Hnd Hall HQ; simpl.
  { apply runs_ret, (HQ [] st); try done. }
  apply Forall_cons in Hall as [Hx Hall]. apply NoDup_cons in Hnd as [Hn Hnd].
  apply runs_bind, (apply_server_runs x st0 st n); [done..|].
  intros x' st1 c1 Ha1 Hc1 Hx1 Hs1 Ht1. apply runs_bind, (IH st1); [done|done| |].
  { eapply Forall_impl; [exact Hall|]. intros y Hy. by rewrite Hc1. }
  intros l' st2 c2 Ha2 Hc2 Hl2 Hs2 Ht2. apply runs_ret, (HQ _ st2); [done|congruence| | |congruence].
  - constructor; [|done]. eapply server_applied_kept; [done|exact Hs2|]. by intros Hi%server_ids_mutated.
  - eapply same_servers_trans; [exact Hs1|exact Hs2|]. intros i. rewrite !mutated_cons. unfold server_ids.
    destruct (skipped _); simpl; set_solver.
Qed.

(** *** The tunnels *)

(** What the transaction relies on for a tunnel. *)
Record tunnel_appliable st (x : PreparedTunnel) : Prop := {
  tunnel_appliable_wf : tunnel_record_wf (pt_desired x);
  tunnel_appliable_managed : tr_managed_by_config (pt_desired x) = true;
  tunnel_appliable_desired : tr_desired_state (pt_desired x) <> TunnelDesiredState.removed;
  tunnel_appliable_original t : pt_original x = Some t ->
    kept_tunnel st t /\ tr_id (pt_desired x) = tr_id t /\ tr_server_id (pt_desired x) = tr_server_id t
}.

Lemma applying_tunnels st0 st st' n c c' :
  applying st0 n st c -> at_work st0 n False st' c' -> credentials c' = credentials c ->
  st_servers st' = st_servers st -> applying st0 n st' c'.
Proof. intros [_ Hok] Hw Hc Hs. split; [done|]. rewrite Hc. by apply (references_tunnels st). Qed.

Lemma create_tunnel_fresh limit t st a st' :
  create_tunnel_spec limit t st = Ok (a, st') -> st_tunnels st !! str (tr_id t) = None.
Proof.
  unfold create_tunnel_spec. destruct (validate_tunnel_record t) as [[]|]; [|done]. simpl.
  destruct (_ <=? _); [done|]. case_bool_decide as E; [done|]. intros _. by apply eq_None_not_Some.
Qed.

Lemma apply_tunnel_runs x st0 st n c (Q : unit -> Control S -> Prop) :
  applying st0 n st c -> (skipped (pt_mutation x) = false -> tunnel_appliable st x) ->
  (forall st' c', applying st0 n st' c' -> credentials c' = credentials c -> tunnel_applied st' x ->
     (skipped (pt_mutation x) = false -> pt_original x = None ->
        forall t, kept_tunnel st t -> str (tr_id t) <> str (tr_id (pt_desired x))) ->
     same_tunnels (tunnel_ids (mutated_tunnels [x])) st st' -> st_servers st' = st_servers st -> Q tt c') ->
  runs (apply_tunnel limits x) c Q (fails st0 n).
Proof.
  intros Ha Hx HQ. unfold apply_tunnel. unfold tunnel_applied in HQ. rewrite mutated_tunnels_cons in HQ.
  destruct (skipped (pt_mutation x)); [by apply runs_ret, (HQ st)|].
  destruct (Hx eq_refl) as [Hwf Hman Hdes Horig]. destruct (pt_original x) as [original|].
  - destruct (Horig original eq_refl) as ([Hlook _] & Hoid & Hosid).
    apply (live_tunnel_runs _ st0 st n); [done|by intros; apply runs_fail, (fails_any _ _ e)|].
    intros live c1 Ha1 Hc1 Hm Hid. pose proof Ha1 as [Hw1 Hok1].
    assert (live = original) as -> by (rewrite Hoid in Hm; congruence). clear Hlook.
    destruct (_ || _); [by apply (work_fail _ _ _ _ _ _ st)|]. cbv zeta.
    apply runs_bind, (work_lift _ _ _ _ _ st); [done..|]. intros revision Erev.
    pose proof Hw1 as (_ & Hst & _). destruct (valid_tunnels st Hst _ _ Hm) as [[(_ & _ & _ & _ & Hrv) _] _].
    apply next_revision_u64 in Erev as [Hrev' _]; [|done].
    apply runs_bind, (work_time _ _ _ _ _ st); [done|]. intros u c2 _ Hw2 Hc2.
    destruct Hwf as (Hidwf & Hsid & Hlo & Hre & _).
    set (t1 := if _ || _ then _ else _). assert (same_tunnel_config t1 (pt_desired x) /\
      is_u64 (tr_config_revision t1)) as [Hsame Hrv1].
    { subst t1. destruct (_ || _); split; try done; split_and!; cbn; congruence. }
    clearbody t1. pose proof Hsame as (F1 & F2 & F3 & F4 & F5 & F6 & F7 & F8 & F9).
    apply (sound_update_tunnel st0 st); [done|split_and!; congruence|]. intros c3 Hw3 Hc3.
    apply (HQ (put_tunnel t1 st)); [|congruence| |done| |done].
    + apply (applying_tunnels st0 st _ n c1); try done. congruence.
    + intros _. exists t1. split; [|done]. apply kept_put_tunnel. by rewrite F8.
    + cbn. rewrite <- F1. apply (same_tunnels_put t1).
  - destruct Ha as [Hw Hok]. pose proof Hw as (_ & Hst & _). apply
      (work_db _ _ _ _ _ (create_tunnel_spec (max_tunnels limits) (pt_desired x) st) st);
      [done|apply steady_tunnel_create|by apply create_tunnel_outcome|
       intros ? st' Hs; by eapply create_tunnel_valid|done|].
    intros [] st' c1 Hs Hw1 Hc1. pose proof (create_tunnel_fresh _ _ _ _ _ Hs) as Hfresh.
    apply create_tunnel_inv in Hs as ->.
    apply (HQ (put_tunnel (pt_desired x) st)); [|done| | |apply same_tunnels_put|done].
    + by apply (applying_tunnels st0 st _ n c).
    + intros _. exists (pt_desired x). split; [by apply kept_put_tunnel|]. by split_and!.
    + intros _ _ t [Ht _] E. rewrite E in Ht. congruence.
Qed.

Lemma apply_tunnels_runs (l : list PreparedTunnel) st0 st n c (Q : unit -> Control S -> Prop) :
  applying st0 n st c -> NoDup (tunnel_ids l) ->
  Forall (fun x => skipped (pt_mutation x) = false -> tunnel_appliable st x) l ->
  (forall st' c', applying st0 n st' c' -> credentials c' = credentials c -> Forall (tunnel_applied st') l ->
     Forall (fun x => skipped (pt_mutation x) = false -> pt_original x = None ->
        forall t, kept_tunnel st t -> str (tr_id t) <> str (tr_id (pt_desired x))) l ->
     same_tunnels (tunnel_ids (mutated_tunnels l)) st st' -> st_servers st' = st_servers st -> Q tt c') ->
  runs (for_each (apply_tunnel limits) l) c Q (fails st0 n).
Proof.
  revert st c Q. induction l as [|x l IH]; intros st c Q Ha Hnd Hall HQ; simpl.
  { apply runs_ret, (HQ st); try done. }
  apply Forall_cons in Hall as [Hx Hall]. apply NoDup_cons in Hnd as [Hn Hnd].
  apply runs_bind, (apply_tunnel_runs x st0 st n); [done..|].
  intros st1 c1 Ha1 Hc1 Hx1 Hf1 Ht1 Hs1.
  assert (forall y, y ∈ l -> str (tr_id (pt_desired y)) ∉ tunnel_ids (mutated_tunnels [x])) as Hother.
  { intros y Hy Hi%tunnel_ids_mutated. apply list_elem_of_singleton in Hi. apply Hn. rewrite <- Hi.
    apply list_elem_of_fmap. by exists y. }
  apply (IH st1); [done|done| |].
  { rewrite Forall_forall in Hall |- *. intros y Hy Hmut. destruct (Hall y Hy Hmut) as [G1 G2 G3 G4].
    split; [done..|]. intros t Ht. destruct (G4 t Ht) as (Hk & Hid & Hsid). split; [|done].
    apply Ht1; [|done]. rewrite <- Hid. by apply Hother. }
  intros st2 c2 Ha2 Hc2 Hl2 Hf2 Ht2 Hs2. apply (HQ st2); [done|congruence| | | |congruence].
  - constructor; [|done]. eapply tunnel_applied_kept; [done|exact Ht2|]. by intros Hi%tunnel_ids_mutated.
  - constructor; [done|]. rewrite Forall_forall in Hf2 |- *. intros y Hy Hmut Ho t Hk E.
    apply (Hf2 y Hy Hmut Ho t); [|done]. apply Ht1; [|done]. rewrite E. by apply Hother.
  - eapply same_tunnels_trans; [exact Ht1|exact Ht2|]. intros i. rewrite !mutated_tunnels_cons.
    unfold tunnel_ids. destruct (skipped _); simpl; set_solver.
Qed.

(** *** Removals *)

(** No configured record of [st] has an identifier of [ids]. *)
Definition no_tunnels (ids : list bytes) st : Prop := forall t, kept_tunnel st t -> str (tr_id t) ∉ ids.
Definition no_servers (ids : list bytes) st : Prop := forall r, kept_server st r -> str (sr_id r) ∉ ids.

Lemma remove_tunnel_effect id now st a st' :
  valid_state st -> remove_tunnel_spec id now st = Ok (a, st') ->
  same_tunnels [str id] st st' /\ no_tunnels [str id] st'.
Proof.
  intros Hst. unfold remove_tunnel_spec. destruct (_ || _); [done|].
  destruct (find_tunnel id st) as [old|] eqn:Hf; [|done]. simpl. destruct (_ <? _); [done|].
  intros [= _ <-]. apply find_tunnel_lookup in Hf. destruct (valid_tunnels st Hst _ _ Hf) as [_ Hid].
  rewrite <- Hid. split; [apply (same_tunnels_put (bury now old))|]. intros t [Hm Hd] Hi.
  apply list_elem_of_singleton in Hi. rewrite Hi in Hm. simpl in Hm. rewrite lookup_insert_eq in Hm.
  injection Hm as <-. by apply Hd.
Qed.

Lemma remove_server_effect id now st a st' :
  valid_state st -> remove_server_spec id now st = Ok (a, st') ->
  (forall t, kept_tunnel st t -> str (tr_server_id t) <> str id) ->
  same_servers [str id] st st' /\ no_servers [str id] st' /\ same_tunnels [] st st'.
Proof.
  intros Hst Hs Hchildren. assert (no_servers [str id] st') as Hno.
  { intros r Hr Hi%list_elem_of_singleton. by destruct (remove_server_inv id now st a st' r Hst Hs Hr). }
  unfold remove_server_spec in Hs. destruct (_ || _); [done|].
  destruct (find_server id st) as [old|] eqn:Hf; [|done]. simpl in Hs. destruct (_ <? _); [done|].
  destruct (has_child _ st); [done|]. injection Hs as _ <-. apply find_server_lookup in Hf.
  destruct (valid_servers st Hst _ _ Hf) as [_ Hid]. split_and!; [|done|].
  - rewrite <- Hid. intros r Hr. unfold kept_server. simpl. rewrite lookup_insert_ne; [done|].
    intros E. apply Hr. rewrite <- E. by left.
  - intros t _. unfold kept_tunnel. simpl. rewrite lookup_fmap_Some. split.
    + intros Hk. split; [|apply Hk]. exists t. split; [|apply Hk]. unfold live_child.
      by rewrite bool_decide_false by (by apply Hchildren).
    + intros [(t0 & E & Hm) Hd]. destruct (live_child (str id) t0); [by subst t|by subst t].
Qed.

Lemma remove_tunnel_runs t st0 st n c (Q : unit -> Control S -> Prop) :
  applying st0 n st c ->
  (forall st' c', applying st0 n st' c' -> credentials c' = credentials c ->
     same_tunnels [str (tr_id t)] st st' -> no_tunnels [str (tr_id t)] st' ->
     st_servers st' = st_servers st -> Q tt c') ->
  runs (remove_pruned_tunnel (pruned_tunnel t)) c Q (fails st0 n).
Proof.
  intros Ha HQ. unfold remove_pruned_tunnel. cbn.
  apply (live_tunnel_runs _ st0 st n); [done|by intros; apply runs_fail, (fails_any _ _ e)|].
  intros live c1 Ha1 Hc1 Hm Hid. pose proof Ha1 as [Hw1 Hok1].
  destruct (negb _); [by apply (work_fail _ _ _ _ _ _ st)|]. pose proof Hw1 as (_ & Hst & _).
  apply runs_bind, (work_time _ _ _ _ _ st); [done|]. intros u c2 _ Hw2 Hc2. rewrite Hid.
  apply (work_db _ _ _ _ _ (remove_tunnel_spec (tr_id t) u st) st);
    [done|apply steady_tunnel_mark_removed|by apply remove_tunnel_outcome|
     intros ? st' Hs; by eapply remove_tunnel_valid|done|].
  intros [] st' c3 Hs Hw3 Hc3. pose proof (remove_tunnel_inv _ _ _ _ _ Hs) as Hsame.
  apply remove_tunnel_effect in Hs as [Hs1 Hs2]; [|done]. apply (HQ st'); try done; [|congruence].
  apply (applying_tunnels st0 st _ n c1); try done. congruence.
Qed.

Lemma remove_tunnels_runs (l : list TunnelRecord) st0 st n c (Q : unit -> Control S -> Prop) :
  applying st0 n st c ->
  (forall st' c', applying st0 n st' c' -> credentials c' = credentials c ->
     same_tunnels ((fun t => str (tr_id t)) <$> l) st st' -> no_tunnels ((fun t => str (tr_id t)) <$> l) st' ->
     st_servers st' = st_servers st -> Q tt c') ->
  runs (for_each remove_pruned_tunnel (map pruned_tunnel l)) c Q (fails st0 n).
Proof.
  revert st c Q. induction l as [|t l IH]; intros st c Q Ha HQ; simpl.
  { apply runs_ret, (HQ st); try done. intros t _. apply not_elem_of_nil. }
  apply runs_bind, (remove_tunnel_runs t st0 st n); [done|].
  intros st1 c1 Ha1 Hc1 Hs1 Hn1 Hv1. apply (IH st1); [done|].
  intros st2 c2 Ha2 Hc2 Hs2 Hn2 Hv2. apply (HQ st2); [done|congruence|..|congruence].
  - eapply same_tunnels_trans; [exact Hs1|exact Hs2|]. rewrite fmap_cons. set_solver.
  - intros t' Hk. rewrite fmap_cons, not_elem_of_cons. pose proof (Hn2 t' Hk) as Hn.
    split; [|done]. intros E. apply (Hn1 t'); [by apply Hs2|]. rewrite E. by left.
Qed.

Lemma remove_server_runs r st0 st n c (Q : unit -> Control S -> Prop) :
  applying st0 n st c -> (forall t, kept_tunnel st t -> str (tr_server_id t) <> str (sr_id r)) ->
  (forall st' c', applying st0 n st' c' -> credentials c' = credentials c ->
     same_servers [str (sr_id r)] st st' -> no_servers [str (sr_id r)] st' -> same_tunnels [] st st' ->
     Q tt c') ->
  runs (remove_pruned_server (pruned_server r)) c Q (fails st0 n).
Proof.
  intros Ha Hchildren HQ. unfold remove_pruned_server. cbn.
  apply (live_server_runs _ st0 st n); [done|by intros; apply runs_fail, (fails_any _ _ e)|].
  intros live c1 Ha1 Hc1 Hm Hid. pose proof Ha1 as [Hw1 Hok1].
  destruct (negb _); [by apply (work_fail _ _ _ _ _ _ st)|]. pose proof Hw1 as (_ & Hst & _).
  apply runs_bind, (work_time _ _ _ _ _ st); [done|]. intros u c2 _ Hw2 Hc2. rewrite Hid.
  apply (work_db _ _ _ _ _ (remove_server_spec (sr_id r) u st) st);
    [done|apply steady_server_mark_removed|by apply remove_server_outcome|
     intros ? st' Hs; by eapply remove_server_valid|done|].
  intros [] st' c3 Hs Hw3 Hc3. assert (references_ok st' (credentials c3)) as Hok3.
  { rewrite Hc3, Hc2. by eapply remove_server_references. }
  apply remove_server_effect in Hs as (Hs1 & Hs2 & Hs3); [|done..]. apply (HQ st'); try done. congruence.
Qed.

Lemma remove_servers_runs (l : list ServerRecord) st0 st n c (Q : unit -> Control S -> Prop) :
  applying st0 n st c ->
  (forall t, kept_tunnel st t -> str (tr_server_id t) ∉ (fun r => str (sr_id r)) <$> l) ->
  (forall st' c', applying st0 n st' c' -> credentials c' = credentials c ->
     same_servers ((fun r => str (sr_id r)) <$> l) st st' -> no_servers ((fun r => str (sr_id r)) <$> l) st' ->
     same_tunnels [] st st' -> Q tt c') ->
  runs (for_each remove_pruned_server (map pruned_server l)) c Q (fails st0 n).
Proof.
  revert st c Q. induction l as [|r l IH]; intros st c Q Ha Hch HQ; simpl.
  { apply runs_ret, (HQ st); try done. intros t _. apply not_elem_of_nil. }
  apply runs_bind, (remove_server_runs r st0 st n); [done|..].
  { intros t Hk E. apply (Hch t Hk). rewrite E. by left. }
  intros st1 c1 Ha1 Hc1 Hs1 Hn1 Ht1. apply (IH st1); [done|..].
  { intros t Hk Hi. apply (Hch t); [|by right]. apply Ht1; [apply not_elem_of_nil|done]. }
  intros st2 c2 Ha2 Hc2 Hs2 Hn2 Ht2. apply (HQ st2); [done|congruence|..].
  - eapply same_servers_trans; [exact Hs1|exact Hs2|]. rewrite fmap_cons. set_solver.
  - intros t' Hk. rewrite fmap_cons, not_elem_of_cons. pose proof (Hn2 t' Hk) as Hn.
    split; [|done]. intros E. apply (Hn1 t'); [by apply Hs2|]. rewrite E. by left.
  - eapply same_tunnels_trans; [exact Ht1|exact Ht2|]. set_solver.
Qed.

(** *** Passes without an effect *)

Lemma for_each_app_idle {A} (f : A -> Action (Control S) unit) (l1 l2 : list A) c :
  Forall (fun x => f x = mret tt) l2 -> for_each f (l1 ++ l2) c = for_each f l1 c.
Proof.
  intros Hl2. revert c. induction l1 as [|x l1 IH]; intros c; simpl.
  - revert c. induction Hl2 as [|x l2 Hx _ IH]; intros c; simpl; [done|]. rewrite Hx. apply IH.
  - unfold mbind, ST_bind. by destruct (f x c) as [[]].
Qed.

Lemma for_each_idle_app {A} (f : A -> Action (Control S) unit) (l1 l2 : list A) c :
  Forall (fun x => f x = mret tt) l1 -> for_each f (l1 ++ l2) c = for_each f l2 c.
Proof. intros Hl1. revert c. induction Hl1 as [|x l1 Hx _ IH]; intros c; simpl; [done|]. rewrite Hx. apply IH. Qed.
End Transaction.
