(* ===== verification/ConfigService.v ===== *)
(** * What the configuration methods promise

    A successful application leaves a state in which every entry of the document has a
    configured record that conforms to it, in which, with pruning, the configuration manages
    nothing else, and in which no record changes that the document does not speak about.  A
    plan, an export and a failed application change nothing.  In every case the invariant of
    the control service holds again. *)
From stdpp Require Import sorting.
From S2P Require Import Prelude Common Ids Text Endpoint Models Rows Database Repository StorageSpec StorageRun Storage Json IpcProtocol Credentials Control ControlRun ControlHandlers ControlServers ControlSagas ConfigFile Config ConfigRun ConfigApply.

(** ** The specification *)

(** A configured server of the state conforms to the entry. *)
Definition server_configured `{AsioAddress} (st : State) (entry : Json) (r : ServerRecord) : Prop :=
  kept_server st r /\ exists e, read_server_entry entry = Ok e /\ server_conforms e r.

(** A configured tunnel conforms to the entry, and belongs to a server the entry names. *)
Definition tunnel_configured `{AsioAddress} (st : State) (entry : Json) (t : TunnelRecord) : Prop :=
  kept_tunnel st t /\ exists e, read_tunnel_entry entry = Ok e /\ tunnel_conforms e t /\
  exists r, kept_server st r /\ tr_server_id t = sr_id r /\ names_server (te_server e) r.

(** The state [st'] is [st] after the application of the entries [es] and [et]. *)
Record configured `{AsioAddress} (st : State) (prune : bool) (es et : list Json) (st' : State) : Prop := {
  configured_servers : Forall (fun entry => exists r, server_configured st' entry r) es;
  configured_tunnels : Forall (fun entry => exists t, tunnel_configured st' entry t) et;
  configured_pruned r : prune = true -> kept_server st' r -> sr_managed_by_config r = true ->
    exists entry, entry ∈ es /\ server_configured st' entry r;
  configured_pruned_tunnels t : prune = true -> kept_tunnel st' t -> tr_managed_by_config t = true ->
    exists entry, entry ∈ et /\ tunnel_configured st' entry t;
  configured_untouched r : kept_server st r -> prune && sr_managed_by_config r = false ->
    kept_server st' r \/ exists entry r', entry ∈ es /\ server_configured st' entry r' /\ sr_id r' = sr_id r;
  configured_untouched_tunnels t : kept_tunnel st t -> prune && tr_managed_by_config t = false ->
    kept_tunnel st' t \/ exists entry t', entry ∈ et /\ tunnel_configured st' entry t' /\ tr_id t' = tr_id t
}.

(** The credential of a kind that a server has after the application, where [s] is the store
    before it and [s'] the one after it: what the file named by the entry holds; none, when
    the entry says [null]; otherwise the one the server had, and none for a new server. *)
Definition credential_configured `{FileSystem} {S} `{CredentialContents S} (base : bytes) (st : State)
    (s s' : S) (entry : Json) (r : ServerRecord) (k : ServerCredentialKind) : Prop :=
  match json_find (bs (credential_path_field k)) entry with
  | Some (JString text) =>
      exists data value,
        read_file (lexically_normal (if is_absolute text then text else path_append base text))
          (credential_file_kind k) = Ok data /\
        normalise_material k data = Ok value /\ refers (credential_reference r k) value s'
  | Some _ => refers (credential_reference r k) [] s'
  | None =>
      exists value, refers (credential_reference r k) value s' /\
        ((exists r0, kept_server st r0 /\ sr_id r0 = sr_id r /\ refers (credential_reference r0 k) value s) \/
         value = [] /\ forall r0, kept_server st r0 -> str (sr_id r0) <> str (sr_id r))
  end.

Definition secrets_configured `{AsioAddress} `{FileSystem} {S} `{CredentialContents S} (base : bytes)
    (st : State) (es : list Json) (s : S) (st' : State) (s' : S) : Prop :=
  Forall (fun entry => exists r, server_configured st' entry r /\
                         forall k, credential_configured base st s s' entry r k) es.

Definition record_ids (l : list ServerRecord) : list bytes := (fun r => str (sr_id r)) <$> l.
Definition tunnel_record_ids (l : list TunnelRecord) : list bytes := (fun t => str (tr_id t)) <$> l.

Section Outcome.
Context `{AsioAddressLaws}.
Variables (st : State) (prune : bool) (es et : list Json) (l : list PreparedServer)
  (lt : list PreparedTunnel) (gone : list ServerRecord) (gone_tunnels : list TunnelRecord)
  (p : PreparedPlan).
Hypothesis Hst : valid_state st.
Hypothesis Hp : planned st prune es et l lt gone gone_tunnels p.

(** What the application of the plan leads to. *)
Record plan_applied (st' : State) : Prop := {
  applied_servers x : x ∈ l -> exists r, kept_server st' r /\ same_config r (ps_desired x);
  applied_tunnels x : x ∈ lt -> exists t, kept_tunnel st' t /\ same_tunnel_config t (pt_desired x);
  applied_same : same_servers (server_ids l ++ record_ids gone) st st';
  applied_same_tunnels : same_tunnels (tunnel_ids lt ++ tunnel_record_ids gone_tunnels) st st';
  applied_gone : no_servers (record_ids gone) st';
  applied_gone_tunnels : no_tunnels (tunnel_record_ids gone_tunnels) st';
  applied_matched x t : x ∈ lt -> kept_tunnel st t -> str (tr_id t) = str (tr_id (pt_desired x)) ->
    pt_original x = Some t
}.

Variable st' : State.
Hypothesis Happlied : plan_applied st'.

Lemma server_entry_configured x r :
  x ∈ l -> kept_server st' r -> str (sr_id r) = str (sr_id (ps_desired x)) ->
  exists entry, entry ∈ es /\ server_configured st' entry r.
Proof.
  intros Hx Hk Hid. destruct (applied_servers st' Happlied x Hx) as (r' & Hk' & Hsame).
  destruct (Forall2_elem_r _ _ _ _ (planned_server_entries _ _ _ _ _ _ _ _ _ Hp) Hx)
    as (entry & Hin & e & He & Hprep). exists entry. split; [done|]. split; [done|]. exists e. split; [done|].
  assert (r = r') as ->; [|by eapply conforms_same, prepared_conforms].
  apply (kept_server_inj st'); [done..|]. rewrite Hid. by destruct Hsame as [-> _].
Qed.

Lemma tunnel_entry_configured x t :
  x ∈ lt -> kept_tunnel st' t -> str (tr_id t) = str (tr_id (pt_desired x)) ->
  exists entry, entry ∈ et /\ tunnel_configured st' entry t.
Proof.
  intros Hx Hk Hid. destruct (applied_tunnels st' Happlied x Hx) as (t' & Hk' & Hsame).
  destruct (Forall2_elem_r _ _ _ _ (planned_tunnel_entries _ _ _ _ _ _ _ _ _ Hp) Hx)
    as (entry & Hin & e & He & [Hconf (s & Hs & Hsid & Hname) _ _ _]). exists entry. split; [done|].
  assert (t = t') as ->.
  { apply (kept_tunnel_inj st'); [done..|]. rewrite Hid. by destruct Hsame as [-> _]. }
  split; [done|]. exists e. split; [done|]. split; [by eapply tunnel_conforms_same|].
  destruct (applied_servers st' Happlied s Hs) as (r & Hkr & Hr). exists r. split; [done|].
  destruct Hr as (Ei & En & _). destruct Hsame as (_ & Es & _). split; [congruence|].
  unfold names_server. by rewrite Ei, En.
Qed.

Lemma in_server_ids x : x ∈ l -> str (sr_id (ps_desired x)) ∈ server_ids l.
Proof. intros Hx. apply list_elem_of_fmap. by exists x. Qed.

Lemma in_tunnel_ids x : x ∈ lt -> str (tr_id (pt_desired x)) ∈ tunnel_ids lt.
Proof. intros Hx. apply list_elem_of_fmap. by exists x. Qed.

Lemma server_original_in x r : x ∈ l -> ps_original x = Some r -> str (sr_id r) ∈ server_ids l.
Proof.
  intros Hx Ho. destruct (Forall2_elem_r _ _ _ _ (planned_server_entries _ _ _ _ _ _ _ _ _ Hp) Hx)
    as (entry & Hin & e & He & Hprep). pose proof (prepared_original _ _ _ Hprep) as Hor.
  rewrite Ho in Hor. destruct Hor as (_ & <- & _). by apply in_server_ids.
Qed.

Lemma tunnel_original_in x t : x ∈ lt -> pt_original x = Some t -> str (tr_id t) ∈ tunnel_ids lt.
Proof.
  intros Hx Ho. destruct (Forall2_elem_r _ _ _ _ (planned_tunnel_entries _ _ _ _ _ _ _ _ _ Hp) Hx)
    as (entry & Hin & e & He & Hprep). pose proof (tunnel_prepared_original _ _ _ _ Hprep) as Hor.
  rewrite Ho in Hor. destruct Hor as (_ & <- & _). by apply in_tunnel_ids.
Qed.

Lemma gone_in r : kept_server st r -> str (sr_id r) ∈ record_ids gone -> r ∈ gone.
Proof.
  intros Hk (r' & E & Hin)%list_elem_of_fmap. pose proof (planned_gone _ _ _ _ _ _ _ _ _ Hp) as Hg.
  rewrite Forall_forall in Hg. destruct (Hg r' Hin) as [Hk' _].
  by assert (r = r') as -> by (by apply (kept_server_inj st)).
Qed.

Lemma gone_tunnel_in t : kept_tunnel st t -> str (tr_id t) ∈ tunnel_record_ids gone_tunnels -> t ∈ gone_tunnels.
Proof.
  intros Hk (t' & E & Hin)%list_elem_of_fmap. pose proof (planned_gone_tunnels _ _ _ _ _ _ _ _ _ Hp) as Hg.
  rewrite Forall_forall in Hg. destruct (Hg t' Hin) as [Hk' _].
  by assert (t = t') as -> by (by apply (kept_tunnel_inj st)).
Qed.

Lemma pruned_exact r :
  prune = true -> kept_server st' r -> sr_managed_by_config r = true -> str (sr_id r) ∈ server_ids l.
Proof.
  intros Hprune Hk Hm. destruct (decide (str (sr_id r) ∈ server_ids l)) as [|Hn]; [done|exfalso].
  pose proof (applied_gone st' Happlied r Hk) as Hg.
  apply (applied_same st' Happlied) in Hk; [|by rewrite elem_of_app; intros [|]].
  destruct (planned_prune _ _ _ _ _ _ _ _ _ Hp Hprune r Hk Hm) as [Hin|(x & Hx & Ho)].
  - apply Hg, list_elem_of_fmap. by exists r.
  - by apply Hn, (server_original_in x).
Qed.

Lemma pruned_tunnel_exact t :
  prune = true -> kept_tunnel st' t -> tr_managed_by_config t = true -> str (tr_id t) ∈ tunnel_ids lt.
Proof.
  intros Hprune Hk Hm. destruct (decide (str (tr_id t) ∈ tunnel_ids lt)) as [|Hn]; [done|exfalso].
  pose proof (applied_gone_tunnels st' Happlied t Hk) as Hg.
  apply (applied_same_tunnels st' Happlied) in Hk; [|by rewrite elem_of_app; intros [|]].
  destruct (planned_prune_tunnels _ _ _ _ _ _ _ _ _ Hp Hprune t Hk Hm) as [Hin|(x & Hx & Ho)].
  - apply Hg, list_elem_of_fmap. by exists t.
  - by apply Hn, (tunnel_original_in x).
Qed.

Lemma untouched_server r :
  kept_server st r -> prune && sr_managed_by_config r = false -> str (sr_id r) ∉ server_ids l ->
  kept_server st' r.
Proof.
  intros Hk Hm Hn. apply (applied_same st' Happlied); [|done]. rewrite elem_of_app. intros [|Hi]; [done|].
  apply gone_in in Hi; [|done]. destruct prune eqn:Eprune; simpl in Hm.
  - pose proof (planned_gone _ _ _ _ _ _ _ _ _ Hp) as Hg. rewrite Forall_forall in Hg.
    destruct (Hg r Hi). congruence.
  - destruct (planned_no_prune _ _ _ _ _ _ _ _ _ Hp eq_refl) as [-> _]. by apply elem_of_nil in Hi.
Qed.

Lemma untouched_tunnel t :
  kept_tunnel st t -> prune && tr_managed_by_config t = false -> str (tr_id t) ∉ tunnel_ids lt ->
  kept_tunnel st' t.
Proof.
  intros Hk Hm Hn. apply (applied_same_tunnels st' Happlied); [|done]. rewrite elem_of_app. intros [|Hi]; [done|].
  apply gone_tunnel_in in Hi; [|done]. destruct prune eqn:Eprune; simpl in Hm.
  - pose proof (planned_gone_tunnels _ _ _ _ _ _ _ _ _ Hp) as Hg. rewrite Forall_forall in Hg.
    destruct (Hg t Hi). congruence.
  - destruct (planned_no_prune _ _ _ _ _ _ _ _ _ Hp eq_refl) as [_ ->]. by apply elem_of_nil in Hi.
Qed.

Lemma plan_configured : configured st prune es et st'.
Proof.
  pose proof (planned_server_entries _ _ _ _ _ _ _ _ _ Hp) as Hl.
  pose proof (planned_tunnel_entries _ _ _ _ _ _ _ _ _ Hp) as Hlt. split.
  - apply Forall_forall. intros entry Hin.
    destruct (Forall2_elem_l _ _ _ _ Hl Hin) as (x & Hx & e & He & Hprep).
    destruct (applied_servers st' Happlied x Hx) as (r & Hk & Hsame). exists r. split; [done|].
    exists e. split; [done|]. by eapply conforms_same, prepared_conforms.
  - apply Forall_forall. intros entry Hin.
    destruct (Forall2_elem_l _ _ _ _ Hlt Hin) as (x & Hx & e & He & [Hconf (s & Hs & Hsid & Hname) _ _ _]).
    destruct (applied_tunnels st' Happlied x Hx) as (t & Hk & Hsame). exists t. split; [done|].
    exists e. split; [done|]. split; [by eapply tunnel_conforms_same|].
    destruct (applied_servers st' Happlied s Hs) as (r & Hkr & (Ei & En & _)). exists r. split; [done|].
    destruct Hsame as (_ & Es & _). split; [congruence|]. unfold names_server. by rewrite Ei, En.
  - intros r Hprune Hk Hm. pose proof (pruned_exact r Hprune Hk Hm) as (x & Hid & Hx)%list_elem_of_fmap.
    by apply (server_entry_configured x).
  - intros t Hprune Hk Hm. pose proof (pruned_tunnel_exact t Hprune Hk Hm) as (x & Hid & Hx)%list_elem_of_fmap.
    by apply (tunnel_entry_configured x).
  - intros r Hk Hm. destruct (decide (str (sr_id r) ∈ server_ids l)) as [(x & Hid & Hx)%list_elem_of_fmap|Hn];
      [right|by left; apply untouched_server].
    destruct (applied_servers st' Happlied x Hx) as (r' & Hk' & Hsame). pose proof Hsame as (Ei & _).
    destruct (server_entry_configured x r' Hx Hk') as (entry & Hin & Hc); [by rewrite Ei|].
    exists entry, r'. split; [done|]. split; [done|].
    destruct (Forall2_elem_r _ _ _ _ Hl Hx) as (? & _ & e & _ & Hprep).
    pose proof (prepared_is_original st e x r Hprep Hk Hid) as Ho.
    pose proof (prepared_original _ _ _ Hprep) as Hor. rewrite Ho in Hor. destruct Hor as (_ & E & _). congruence.
  - intros t Hk Hm. destruct (decide (str (tr_id t) ∈ tunnel_ids lt)) as [(x & Hid & Hx)%list_elem_of_fmap|Hn];
      [right|by left; apply untouched_tunnel].
    destruct (applied_tunnels st' Happlied x Hx) as (t' & Hk' & Hsame). pose proof Hsame as (Ei & _).
    destruct (tunnel_entry_configured x t' Hx Hk') as (entry & Hin & Hc); [by rewrite Ei|].
    exists entry, t'. split; [done|]. split; [done|].
    destruct (Forall2_elem_r _ _ _ _ Hlt Hx) as (? & _ & e & _ & Hprep).
    pose proof (applied_matched st' Happlied x t Hx Hk Hid) as Ho.
    pose proof (tunnel_prepared_original _ _ _ _ Hprep) as Hor. rewrite Ho in Hor. destruct Hor as (_ & E & _). congruence.
Qed.
End Outcome.

(** ** The transaction *)

Lemma staged_facts `{AsioAddress} x x' :
  staged x x' ->
  same_config (ps_desired x') (ps_desired x) /\ ps_mutation x' = ps_mutation x /\
  ps_credentials x' = ps_credentials x /\
  (server_record_wf (ps_desired x) -> server_record_wf (ps_desired x')).
Proof. intros [->|(? & ? & ? & ? & ->)]; by split_and!. Qed.

Lemma same_config_trans r1 r2 r3 : same_config r1 r2 -> same_config r2 r3 -> same_config r1 r3.
Proof. intros (?&?&?&?&?&?) (?&?&?&?&?&?). split_and!; congruence. Qed.

Lemma NoDup_fmap_apart {A} (f : A -> bytes) (q : A -> bool) (k : list A) x :
  NoDup (f <$> k) -> x ∈ k -> q x = false -> f x ∉ f <$> List.filter q k.
Proof.
  intros Hn Hx Hq (y & E & [Hy Hqy]%elem_of_List_filter)%list_elem_of_fmap.
  apply list_elem_of_lookup in Hx as [i Hi], Hy as [j Hj].
  assert (i = j) as ->.
  { eapply NoDup_lookup; [exact Hn|by rewrite list_lookup_fmap, Hi|by rewrite list_lookup_fmap, Hj, E]. }
  congruence.
Qed.

Lemma skipped_server_apart (k : list PreparedServer) x :
  NoDup (server_ids k) -> x ∈ k -> skipped (ps_mutation x) = true ->
  str (sr_id (ps_desired x)) ∉ server_ids (mutated_servers k).
Proof.
  intros Hn Hx Hs. apply (NoDup_fmap_apart (fun s => str (sr_id (ps_desired s)))); [done..|]. by rewrite Hs.
Qed.

Lemma skipped_tunnel_apart (k : list PreparedTunnel) x :
  NoDup (tunnel_ids k) -> x ∈ k -> skipped (pt_mutation x) = true ->
  str (tr_id (pt_desired x)) ∉ tunnel_ids (mutated_tunnels k).
Proof.
  intros Hn Hx Hs. apply (NoDup_fmap_apart (fun s => str (tr_id (pt_desired s)))); [done..|]. by rewrite Hs.
Qed.

Lemma desired_state_kept enabled : desired_state_of enabled <> ServerDesiredState.removed.
Proof. by destruct enabled. Qed.

Lemma desired_tunnel_state_kept enabled : desired_tunnel_state_of enabled <> TunnelDesiredState.removed.
Proof. by destruct enabled. Qed.

(** A server after the transaction whose replaced credentials can be removed. *)
Definition cleanable (st : State) (x : PreparedServer) : Prop :=
  skipped (ps_mutation x) = false ->
  kept_server st (ps_desired x) /\
  Forall (fun m => own_reference (sr_id (ps_desired x)) (cm_kind m) (cm_previous m)) (ps_credentials x).

Section Apply.
Context `{AsioAddressLaws} `{SqliteMessages} {S : Type} `{CredentialStoreLaws S}.
Variable limits : StorageLimits.
Variables (st : State) (n : nat) (prune : bool) (es et : list Json) (l : list PreparedServer)
  (lt : list PreparedTunnel) (gone : list ServerRecord) (gone_tunnels : list TunnelRecord)
  (p : PreparedPlan).
Hypothesis Hst : valid_state st.
Hypothesis Hp : planned st prune es et l lt gone gone_tunnels p.
Implicit Types (c : Control S) (s : S).
Abbreviation any := (fun _ : Error => True).
Abbreviation fails st0 n := (failed st0 n False any).

Lemma server_of_plan x : x ∈ l -> exists e, server_prepared st e x.
Proof.
  intros Hx. destruct (Forall2_elem_r _ _ _ _ (planned_server_entries _ _ _ _ _ _ _ _ _ Hp) Hx)
    as (_ & _ & e & _ & He). by exists e.
Qed.

Lemma tunnel_of_plan x : x ∈ lt -> exists e, tunnel_prepared st l e x.
Proof.
  intros Hx. destruct (Forall2_elem_r _ _ _ _ (planned_tunnel_entries _ _ _ _ _ _ _ _ _ Hp) Hx)
    as (_ & _ & e & _ & He). by exists e.
Qed.

Lemma plan_ids : NoDup (server_ids l ++ record_ids gone).
Proof.
  pose proof (planned_server_ids _ _ _ _ _ _ _ _ _ Hp) as Hn.
  rewrite (planned_servers _ _ _ _ _ _ _ _ _ Hp) in Hn. unfold server_ids in *. rewrite fmap_app in Hn.
  assert ((fun x => str (sr_id (ps_desired x))) <$> map pruned_server gone = record_ids gone) as E;
    [|by rewrite E in Hn]. clear. unfold record_ids, fmap. by induction gone; simpl; [|f_equal].
Qed.

Lemma appliable_staged s x x' :
  x ∈ l -> staged_server s x x' -> skipped (ps_mutation x') = false -> appliable s x'.
Proof.
  intros Hx (Hs & _ & Hw). destruct (staged_facts x x' Hs) as ((_ & _ & _ & _ & Ed & Em) & E & _ & Hwf).
  rewrite E. intros Hm. destruct (server_of_plan x Hx) as [e [(_ & _ & _ & _ & Hd & Hmg) [Hwfx _] _ _ _]].
  split; [by apply Hwf|congruence| |by apply Hw]. rewrite Ed, Hd. apply desired_state_kept.
Qed.

Lemma tunnel_appliable_prepared st1 x :
  x ∈ lt -> st_tunnels st1 = st_tunnels st -> tunnel_appliable st1 x.
Proof.
  intros Hx Ht. destruct (tunnel_of_plan x Hx) as [e [Hc _ [Hwf _] Ho _]].
  destruct Hc as (_ & _ & _ & _ & _ & _ & Hd & Hm). split; [done|done| |].
  - rewrite Hd. apply desired_tunnel_state_kept.
  - intros t E. rewrite E in Ho. destruct Ho as (Hk & Hid & Hsid & _). split; [|done].
    unfold kept_tunnel. by rewrite Ht.
Qed.

(** The server of the plan [x] is in the state, whether it had to be changed or not. *)
Lemma applied_in_state x x' x'' s st1 :
  x ∈ l -> staged_server s x x' -> server_applied st1 x' x'' ->
  same_servers (server_ids (mutated_servers l)) st st1 ->
  exists r, kept_server st1 r /\ same_config r (ps_desired x) /\
    (forall k, credential_reference r k = credential_reference (ps_desired x') k).
Proof.
  intros Hx (Hs & Hsk & _) Ha Hsame. destruct (staged_facts x x' Hs) as (Hc & E & _).
  unfold server_applied in Ha. rewrite E in Ha. destruct (skipped (ps_mutation x)) eqn:Em.
  - destruct (server_of_plan x Hx) as [e [_ _ Ho _ Hk]].
    assert (ps_mutation x = mutation_none) as Hnone.
    { unfold skipped in Em. apply orb_true_iff in Em as [Em|Em]; by apply bool_decide_eq_true in Em. }
    destruct (ps_original x) as [r|]; [|by destruct Ho as (_ & _ & ?); congruence].
    destruct Ho as (Hkr & Hid & Hrefs & Hcfg). exists r. rewrite (Hsk eq_refl).
    split; [|split; [by apply Hcfg|by intros k; rewrite Hrefs]].
    apply Hsame; [|done]. rewrite <- Hid. apply skipped_server_apart; try done.
    pose proof plan_ids as Hn. by apply NoDup_app in Hn as (? & _).
  - destruct Ha as (r & _ & Hkr & Hcfg & Hrefs). exists r. split; [done|]. split; [|done].
    by eapply same_config_trans.
Qed.

Lemma applied_tunnel_in_state x st1 st2 :
  x ∈ lt -> tunnel_applied st2 x -> st_tunnels st1 = st_tunnels st ->
  same_tunnels (tunnel_ids (mutated_tunnels lt)) st1 st2 ->
  exists t, kept_tunnel st2 t /\ same_tunnel_config t (pt_desired x).
Proof.
  intros Hx Ha Ht Hsame. destruct (skipped (pt_mutation x)) eqn:Em; [|by apply Ha].
  destruct (tunnel_of_plan x Hx) as [e [_ _ _ Ho Hk]].
  assert (pt_mutation x = mutation_none) as Hnone.
  { unfold skipped in Em. apply orb_true_iff in Em as [Em|Em]; by apply bool_decide_eq_true in Em. }
  destruct (pt_original x) as [t|]; [|congruence].
  destruct Ho as (Hkt & Hid & _ & Hcfg). exists t. split; [|by apply Hcfg].
  apply Hsame; [|unfold kept_tunnel; by rewrite Ht]. rewrite <- Hid.
  apply skipped_tunnel_apart; try done. apply (planned_tunnel_ids _ _ _ _ _ _ _ _ _ Hp).
Qed.

(** A configured tunnel with the identifier of a prepared one is the one it was matched with. *)
Lemma matched_tunnel x t st1 :
  x ∈ lt -> st_tunnels st1 = st_tunnels st ->
  (skipped (pt_mutation x) = false -> pt_original x = None ->
     forall t, kept_tunnel st1 t -> str (tr_id t) <> str (tr_id (pt_desired x))) ->
  kept_tunnel st t -> str (tr_id t) = str (tr_id (pt_desired x)) -> pt_original x = Some t.
Proof.
  intros Hx Ht Hfresh Hk Hid. destruct (tunnel_of_plan x Hx) as [e [_ _ _ Ho _]].
  destruct (pt_original x) as [t'|].
  - destruct Ho as (Hk' & E & _). f_equal. apply (kept_tunnel_inj st); [done..|]. congruence.
  - exfalso. apply (Hfresh (ltac:(by rewrite Ho)) eq_refl t); [|done]. unfold kept_tunnel. by rewrite Ht.
Qed.

(** No prepared tunnel is pruned. *)
Lemma tunnels_apart x st1 :
  x ∈ lt -> st_tunnels st1 = st_tunnels st ->
  (skipped (pt_mutation x) = false -> pt_original x = None ->
     forall t, kept_tunnel st1 t -> str (tr_id t) <> str (tr_id (pt_desired x))) ->
  str (tr_id (pt_desired x)) ∉ tunnel_record_ids gone_tunnels.
Proof.
  intros Hx Ht Hfresh (t & Hid & Hin)%list_elem_of_fmap.
  pose proof (planned_gone_tunnels _ _ _ _ _ _ _ _ _ Hp) as Hg. rewrite Forall_forall in Hg.
  destruct (Hg t Hin) as [Hk _]. apply (planned_tunnels_apart _ _ _ _ _ _ _ _ _ Hp x t Hx Hin).
  by apply (matched_tunnel x t st1).
Qed.

(** No configured tunnel belongs to a server that is going to be pruned. *)
Lemma children_gone st3 :
  valid_state st3 ->
  (forall x, x ∈ lt -> exists t, kept_tunnel st3 t /\ same_tunnel_config t (pt_desired x)) ->
  same_tunnels (tunnel_ids lt ++ tunnel_record_ids gone_tunnels) st st3 ->
  no_tunnels (tunnel_record_ids gone_tunnels) st3 ->
  forall t, kept_tunnel st3 t -> str (tr_server_id t) ∉ record_ids gone.
Proof.
  intros Hst3 Hin Hsame Hno t Hk Hs. pose proof plan_ids as Hn.
  destruct (decide (str (tr_id t) ∈ tunnel_ids lt)) as [(x & Hid & Hx)%list_elem_of_fmap|Hnt].
  - destruct (Hin x Hx) as (t' & Hk' & Hc). assert (t = t') as ->.
    { apply (kept_tunnel_inj st3); [done..|]. rewrite Hid. by destruct Hc as [-> _]. }
    destruct (tunnel_of_plan x Hx) as [e [_ (y & Hy & Hsid & _) _ _ _]]. destruct Hc as (_ & Ec & _).
    rewrite Ec, Hsid in Hs. apply NoDup_app in Hn as (_ & Hapart & _).
    apply (Hapart (str (sr_id (ps_desired y)))); [|done]. apply list_elem_of_fmap. by exists y.
  - pose proof (Hno t Hk) as Hg. apply (Hsame t) in Hk; [|by rewrite elem_of_app; intros [|]].
    apply list_elem_of_fmap in Hs as (r & E & Hr).
    apply Hg, list_elem_of_fmap. exists t. split; [done|].
    apply (planned_children _ _ _ _ _ _ _ _ _ Hp r t Hr Hk).
    pose proof (planned_gone _ _ _ _ _ _ _ _ _ Hp) as Hgs. rewrite Forall_forall in Hgs.
    destruct (Hgs r Hr) as [Hkr _]. destruct (kept_server_id st r Hst Hkr) as [_ Hkind].
    destruct Hk as [Hm _]. destruct (valid_tunnels st Hst _ _ Hm) as [[_ Hv] _].
    apply validate_tunnel_iff in Hv as (_ & Hks & _).
    destruct (tr_server_id t), (sr_id r). simpl in *. congruence.
Qed.

Lemma cleanable_applied x x' x'' s st1 (s1 : S) :
  x ∈ l -> references_ok st s1 -> staged_server s x x' -> server_applied st1 x' x'' -> cleanable st1 x''.
Proof.
  intros Hx Hok (Hs & _) Ha Hm. destruct (staged_facts x x' Hs) as ((Eid & _) & E & Ec & _).
  unfold server_applied in Ha. destruct (skipped (ps_mutation x')) eqn:Em; [subst x''; congruence|].
  destruct Ha as (r & -> & Hk & (Eid' & _) & _). split; [done|]. simpl. rewrite Ec, Eid', Eid.
  destruct (server_of_plan x Hx) as [e Hprep]. pose proof (prepared_stageable st s1 e x Hst Hok Hprep) as Hstage.
  destruct (prepared_materials _ _ _ Hprep) as [_ Hprev]. eapply Forall_impl; [exact Hprev|].
  intros m Em' key Hkey. rewrite Em' in Hkey. by apply (stageable_references _ _ Hstage).
Qed.

Lemma pruned_applied st1 (k : list ServerRecord) l' :
  Forall2 (server_applied st1) (map pruned_server k) l' -> l' = map pruned_server k.
Proof.
  revert l'. induction k as [|r k IH]; intros l' Hl; simpl in Hl.
  - by apply Forall2_nil_inv_l in Hl.
  - apply Forall2_cons_inv_l in Hl as (x' & l2 & Hx & Hl & ->). apply IH in Hl as ->. by rewrite Hx.
Qed.

Lemma pruned_staged s (k : list ServerRecord) l' :
  Forall2 (staged_server s) (map pruned_server k) l' -> l' = map pruned_server k.
Proof.
  revert l'. induction k as [|r k IH]; intros l' Hl; simpl in Hl.
  - by apply Forall2_nil_inv_l in Hl.
  - apply Forall2_cons_inv_l in Hl as (x' & l2 & (_ & Hx & _) & Hl & ->). apply IH in Hl as ->.
    by rewrite (Hx eq_refl).
Qed.

Lemma staged_ids s (l' : list PreparedServer) : Forall2 (staged_server s) l l' -> server_ids l' = server_ids l.
Proof.
  clear. unfold server_ids. induction 1 as [|x x' k k' [Hs _] _ IH]; [done|]. rewrite !fmap_cons, IH. f_equal.
  by rewrite (staged_id _ _ Hs).
Qed.

Lemma staged_mutated_ids s (l' : list PreparedServer) :
  Forall2 (staged_server s) l l' -> server_ids (mutated_servers l') = server_ids (mutated_servers l).
Proof.
  clear -H. unfold server_ids. induction 1 as [|x x' k k' [Hs _] _ IH]; [done|]. rewrite !mutated_cons.
  destruct (staged_facts x x' Hs) as (_ & -> & _). destruct (skipped _); [done|].
  rewrite !fmap_cons, IH. f_equal. by rewrite (staged_id _ _ Hs).
Qed.

Lemma mutated_pruned l' : mutated_servers (l' ++ map pruned_server gone) = mutated_servers l'.
Proof.
  clear. unfold mutated_servers. rewrite List.filter_app.
  assert (List.filter (fun x => negb (skipped (ps_mutation x))) (map pruned_server gone) = []) as ->;
    [by induction gone|apply app_nil_r].
Qed.

Lemma server_ids_pruned l' : server_ids (l' ++ map pruned_server gone) = server_ids l' ++ record_ids gone.
Proof.
  clear. unfold server_ids, record_ids. rewrite fmap_app. f_equal. unfold fmap. by induction gone; simpl; [|f_equal].
Qed.

Lemma staged_applied s st1 (l' l'' : list PreparedServer) x :
  Forall2 (staged_server s) l l' -> Forall2 (server_applied st1) l' l'' -> x ∈ l ->
  exists x' x'', staged_server s x x' /\ server_applied st1 x' x''.
Proof.
  intros Hl Hl' Hx. destruct (Forall2_elem_l _ _ _ _ Hl Hx) as (x' & Hx' & Hs).
  destruct (Forall2_elem_l _ _ _ _ Hl' Hx') as (x'' & _ & Ha). by exists x', x''.
Qed.

Lemma not_removed_applied s st1 (l' l'' : list PreparedServer) :
  Forall2 (staged_server s) l l' -> Forall2 (server_applied st1) l' l'' ->
  Forall (fun x => remove_pruned_server (S:=S) x = mret tt) l''.
Proof.
  intros Hl Hl'. apply Forall_forall. intros x'' Hx''.
  destruct (Forall2_elem_r _ _ _ _ Hl' Hx'') as (x' & Hx' & Ha).
  destruct (Forall2_elem_r _ _ _ _ Hl Hx') as (x & Hx & [Hs _]).
  destruct (server_of_plan x Hx) as [e [_ _ _ _ Hk]]. destruct (staged_facts x x' Hs) as (_ & E & _).
  assert (ps_mutation x'' = ps_mutation x) as E'.
  { unfold server_applied in Ha. destruct (skipped _); [by subst|]. by destruct Ha as (? & -> & _). }
  unfold remove_pruned_server. by rewrite E', bool_decide_false.
Qed.

(** The tunnels after they have been created, updated and removed. *)
Lemma tunnels_settled st1 st2 st3 :
  st_tunnels st1 = st_tunnels st ->
  (forall x, x ∈ lt -> tunnel_applied st2 x) ->
  (forall x, x ∈ lt -> str (tr_id (pt_desired x)) ∉ tunnel_record_ids gone_tunnels) ->
  same_tunnels (tunnel_ids (mutated_tunnels lt)) st1 st2 ->
  same_tunnels (tunnel_record_ids gone_tunnels) st2 st3 ->
  (forall x, x ∈ lt -> exists t, kept_tunnel st3 t /\ same_tunnel_config t (pt_desired x)) /\
  same_tunnels (tunnel_ids lt ++ tunnel_record_ids gone_tunnels) st st3.
Proof.
  intros Ht1 Htun2 Happart Hsame2 Hsame3. split.
  - intros x Hx. destruct (applied_tunnel_in_state x st1 st2) as (t & Hkt & Hct); [by auto..|].
    exists t. split; [|done]. apply Hsame3; [|done]. destruct Hct as [-> _]. by apply Happart.
  - assert (same_tunnels [] st st1) as H01 by (intros t _; unfold kept_tunnel; by rewrite Ht1).
    eapply same_tunnels_trans; [exact H01| |by intros i [Hi%elem_of_nil|Hi]].
    apply (same_tunnels_trans _ _ (tunnel_ids lt ++ tunnel_record_ids gone_tunnels) _ _ _ Hsame2 Hsame3).
    intros i [Hi%tunnel_ids_mutated|Hi]; apply elem_of_app; auto.
Qed.

(** The state after the last removal. *)
Lemma plan_settled st1 st3 st4 :
  (forall x, x ∈ l -> exists r, kept_server st1 r /\ same_config r (ps_desired x)) ->
  same_servers (server_ids (mutated_servers l)) st st1 ->
  (forall x, x ∈ lt -> exists t, kept_tunnel st3 t /\ same_tunnel_config t (pt_desired x)) ->
  same_tunnels (tunnel_ids lt ++ tunnel_record_ids gone_tunnels) st st3 ->
  no_tunnels (tunnel_record_ids gone_tunnels) st3 ->
  (forall x t, x ∈ lt -> kept_tunnel st t -> str (tr_id t) = str (tr_id (pt_desired x)) ->
     pt_original x = Some t) ->
  same_servers (record_ids gone) st1 st4 -> no_servers (record_ids gone) st4 -> same_tunnels [] st3 st4 ->
  plan_applied st l lt gone gone_tunnels st4.
Proof.
  intros Hservers Hsame1 Htunnels Htsame Hno3 Hmatched Hsame4 Hno4 Ht4. pose proof plan_ids as Hids. split.
  - intros x Hx. destruct (Hservers x Hx) as (r & Hkr & Hc). exists r. split; [|done].
    apply Hsame4; [|done]. destruct Hc as [-> _]. apply NoDup_app in Hids as (_ & Happ & _).
    apply Happ, list_elem_of_fmap. by exists x.
  - intros x Hx. destruct (Htunnels x Hx) as (t & Hkt & Hc). exists t. split; [|done].
    apply Ht4; [apply not_elem_of_nil|done].
  - eapply same_servers_trans; [exact Hsame1|exact Hsame4|].
    intros i [Hi%server_ids_mutated|Hi]; apply elem_of_app; auto.
  - eapply same_tunnels_trans; [exact Htsame|exact Ht4|]. intros i [|Hi]; [done|by apply elem_of_nil in Hi].
  - exact Hno4.
  - intros t Hk. apply Hno3. apply Ht4; [apply not_elem_of_nil|done].
  - exact Hmatched.
Qed.

Lemma settled_cleanable s (s1 : S) (l' l'' : list PreparedServer) st1 st4 :
  references_ok st s1 -> Forall2 (staged_server s) l l' -> Forall2 (server_applied st1) l' l'' ->
  same_servers (record_ids gone) st1 st4 -> Forall (cleanable st4) (l'' ++ map pruned_server gone).
Proof.
  intros Hok Hl Hl'' Hsame. apply Forall_app. split; apply Forall_forall.
  - intros x'' Hx''. destruct (Forall2_elem_r _ _ _ _ Hl'' Hx'') as (x' & Hx' & Ha).
    destruct (Forall2_elem_r _ _ _ _ Hl Hx') as (x & Hx & Hs).
    apply (cleanable_applied x x' x'' s _ s1); [done..|].
    eapply server_applied_kept; [exact Ha|exact Hsame|]. destruct Hs as [Hs _]. rewrite (staged_id _ _ Hs).
    pose proof plan_ids as Hids. apply NoDup_app in Hids as (_ & Happ & _). apply Happ, list_elem_of_fmap. by exists x.
  - by intros x' (r & -> & _)%list_elem_of_fmap.
Qed.

(** The record of a server of the plan at the end of the transaction. *)
Definition server_settled st' (x x' : PreparedServer) : Prop :=
  exists r, kept_server st' r /\ same_config r (ps_desired x) /\
    (forall k, credential_reference r k = credential_reference (ps_desired x') k).

Lemma servers_settled s (l' l'' : list PreparedServer) st1 st4 :
  Forall2 (staged_server s) l l' -> Forall2 (server_applied st1) l' l'' ->
  same_servers (server_ids (mutated_servers l)) st st1 -> same_servers (record_ids gone) st1 st4 ->
  Forall2 (server_settled st4) l l'.
Proof.
  intros Hl Hl'' Hsame1 Hsame4. pose proof plan_ids as Hids. apply NoDup_app in Hids as (_ & Happ & _).
  apply Forall2_same_length_lookup_2; [by eapply Forall2_length|]. intros i x x' Hx Hx'.
  pose proof (Forall2_lookup_lr _ _ _ _ _ _ Hl Hx Hx') as Hs.
  destruct (Forall2_lookup_l _ _ _ _ _ Hl'' Hx') as (x'' & _ & Ha).
  apply list_elem_of_lookup_2 in Hx.
  destruct (applied_in_state x x' x'' s st1) as (r & Hk & Hc & Hrefs); [done..|]. exists r. split; [|done].
  apply Hsame4; [|done]. destruct Hc as [-> _]. apply Happ, list_elem_of_fmap. by exists x.
Qed.

Lemma apply_prepared_runs (l' : list PreparedServer) c (Q : list PreparedServer -> Control S -> Prop) :
  at_work st n False st c -> Forall2 (staged_server (credentials c)) l l' ->
  (forall l'' st' c', ready False st' n c' -> credentials c' = credentials c ->
     plan_applied st l lt gone gone_tunnels st' -> Forall (cleanable st') l'' ->
     Forall2 (server_settled st') l l' -> Q l'' c') ->
  runs (apply_prepared limits (l' ++ map pruned_server gone) (lt ++ map pruned_tunnel gone_tunnels)) c
    Q (fails st n).
Proof.
  intros Hw Hl HQ. pose proof Hw as (_ & _ & _ & Hok & _). pose proof plan_ids as Hids.
  unfold apply_prepared. apply runs_bind, (apply_servers_runs limits _ st st n); [done|..].
  { by rewrite server_ids_pruned, (staged_ids _ _ Hl). }
  { apply Forall_app. split; apply Forall_forall.
    - intros x' Hx' Hm. destruct (Forall2_elem_r _ _ _ _ Hl Hx') as (x & Hx & Hs). by apply (appliable_staged _ x).
    - by intros x' (r & -> & _)%list_elem_of_fmap. }
  intros k st1 c1 Ha1 Hc1 Hk Hsame1 Ht1. rewrite mutated_pruned, (staged_mutated_ids _ _ Hl) in Hsame1.
  apply Forall2_app_inv_l in Hk as (l'' & k2 & Hl'' & Hk2 & ->). apply pruned_applied in Hk2 as ->.
  apply runs_bind. unfold runs at 1. rewrite for_each_app_idle by
    (by apply Forall_forall; intros ? (? & -> & _)%list_elem_of_fmap).
  apply (apply_tunnels_runs limits lt st st1 n); [done|apply (planned_tunnel_ids _ _ _ _ _ _ _ _ _ Hp)|..].
  { apply Forall_forall. intros x Hx _. by apply tunnel_appliable_prepared. }
  intros st2 c2 Ha2 Hc2 Htun2 Hfresh Hsame2 Hs2. rewrite Forall_forall in Htun2, Hfresh.
  apply runs_bind. unfold runs at 1. rewrite for_each_idle_app.
  2: { apply Forall_forall. intros x Hx. destruct (tunnel_of_plan x Hx) as [e [_ _ _ _ Hkept]].
       unfold remove_pruned_tunnel. by rewrite bool_decide_false. }
  apply (remove_tunnels_runs gone_tunnels st st2 n); [done|]. intros st3 c3 Ha3 Hc3 Hsame3 Hno3 Hs3.
  destruct (tunnels_settled st1 st2 st3) as [Htunnels Htsame]; [done|done| |done|done|].
  { intros x Hx. by apply (tunnels_apart x st1); auto. }
  pose proof Ha3 as [(_ & Hst3 & _) _].
  apply runs_bind. unfold runs at 1. rewrite for_each_idle_app by (by eapply not_removed_applied).
  apply (remove_servers_runs gone st st3 n); [done|by apply children_gone|].
  intros st4 c4 [Hw4 Hok4] Hc4 Hsame4 Hno4 Ht4.
  apply runs_bind, (sound_commit st st4 n); [done..|]. intros c5 Hr5 Hc5. apply runs_ret.
  assert (same_servers (record_ids gone) st1 st4) as H14.
  { intros r Hr. rewrite <- (Hsame4 r Hr). unfold kept_server. by rewrite Hs3, Hs2. }
  apply (HQ _ st4); [done|congruence| |by apply (settled_cleanable (credentials c) (credentials c) l' l'' st1)|
    by apply (servers_settled (credentials c) l' l'' st1)].
  apply (plan_settled st1 st3); try done.
  - intros x Hx. destruct (staged_applied _ _ _ _ x Hl Hl'' Hx) as (x' & x'' & Hs & Ha).
    destruct (applied_in_state x x' x'' (credentials c) st1) as (r & ? & ? & _); [done..|]. by exists r.
  - intros x t Hx Hk Hid. apply (matched_tunnel x t st1); auto.
Qed.

(** ** The clean-up *)

Lemma cleanup_materials_runs (r : ServerRecord) (k : list CredentialMaterial) st' c (Q : unit -> Control S -> Prop) R :
  ready False st' n c -> kept_server st' r ->
  Forall (fun m => own_reference (sr_id r) (cm_kind m) (cm_previous m)) k ->
  (forall c', ready False st' n c' -> secrets_kept st' (credentials c) (credentials c') -> Q tt c') ->
  runs (for_each (cleanup_material r) k) c Q R.
Proof.
  intros Hr Hk Hall HQ. pose proof Hr as (_ & Hst' & _). destruct (kept_server_id st' r Hst' Hk) as [Hcan Hkind].
  revert c Hr HQ. induction Hall as [|m k Hm _ IH]; intros c Hr HQ; simpl.
  { apply runs_ret, HQ; [done|apply secrets_kept_refl]. }
  apply runs_bind. unfold cleanup_material. destruct (cm_changed m); cbn [negb]; [|by apply runs_ret, IH].
  assert (forall r2, kept_server st' r2 -> str (sr_id r2) = str (sr_id r) ->
    credential_reference r2 (cm_kind m) = credential_reference r (cm_kind m)) as Hret.
  { intros r2 Hr2 E. by assert (r2 = r) as -> by (by apply (kept_server_inj st')). }
  apply runs_bind, (cleanup_ready _ _ _ _ st' n False); [done..|].
  intros x s' E Hr' _. apply runs_ret, IH; [done|]. intros c' Hr2 Hs2. apply HQ; [done|].
  eapply secrets_kept_trans; [|exact Hs2]. intros key Hkey. pose proof Hr as (_ & _ & Hok & _).
  pose proof (cleanup_spares st' (credentials c) (sr_id r) (cm_kind m) (cm_previous m) _ key Hst' Hok Hcan
    Hm Hret Hkey (credentials c)) as Hl. by rewrite E in Hl.
Qed.

Lemma cleanup_servers_runs (k : list PreparedServer) st' c (Q : unit -> Control S -> Prop) R :
  ready False st' n c -> Forall (cleanable st') k ->
  (forall c', ready False st' n c' -> secrets_kept st' (credentials c) (credentials c') -> Q tt c') ->
  runs (for_each cleanup_prepared k) c Q R.
Proof.
  intros Hr Hall HQ. revert c Hr HQ. induction Hall as [|x k Hx _ IH]; intros c Hr HQ; simpl.
  { apply runs_ret, HQ; [done|apply secrets_kept_refl]. }
  apply runs_bind. unfold cleanup_prepared. unfold cleanable in Hx.
  destruct (skipped _); [by apply runs_ret, IH|]. destruct (Hx eq_refl) as [Hk Hm].
  apply (cleanup_materials_runs _ _ st'); [done..|]. intros c1 Hr1 Hs1. apply IH; [done|].
  intros c2 Hr2 Hs2. apply HQ; [done|]. by eapply secrets_kept_trans.
Qed.
End Apply.

(** ** The methods *)

Section Methods.
Context `{AsioAddressLaws} `{SqliteMessages} `{ControlEnvironment} `{FileSystem} `{JsonLibrary}.
Context {S : Type} `{CredentialStoreLaws S}.
Variable limits : StorageLimits.
Hypothesis Hlimits : limits_wf limits.
Implicit Types (c : Control S) (st : State) (n : nat).
Abbreviation any := (fun _ : Error => True).

(** The entries of the document in the file. *)
Definition config_document (path : bytes) (es et : list Json) : Prop :=
  exists data document, read_file (lexically_normal path) config_file = Ok data /\
    parse_json data = Ok document /\ document_entries document = Ok (es, et).

(** A plan without actions has been applied already. *)
Lemma settled_plan st prune es et l lt gone gone_tunnels p :
  valid_state st -> planned st prune es et l lt gone gone_tunnels p -> pp_actions p = [] ->
  plan_applied st l lt gone gone_tunnels st.
Proof.
  intros Hst Hp [Hnone Hnonet]%(planned_actions _ _ _ _ _ _ _ _ _ Hp).
  rewrite (planned_servers _ _ _ _ _ _ _ _ _ Hp) in Hnone.
  rewrite (planned_tunnels _ _ _ _ _ _ _ _ _ Hp) in Hnonet.
  apply Forall_app in Hnone as [Hnone Hgone], Hnonet as [Hnonet Hgonet].
  destruct gone; [|by apply Forall_cons in Hgone as [[=] _]].
  destruct gone_tunnels; [|by apply Forall_cons in Hgonet as [[=] _]].
  rewrite Forall_forall in Hnone. rewrite Forall_forall in Hnonet. split; try done.
  - intros x Hx. destruct (server_of_plan _ _ _ _ _ _ _ _ _ Hp x Hx) as [e [_ _ Ho _ _]].
    destruct (ps_original x) as [r|]; [|by destruct Ho as (_ & _ & ?); specialize (Hnone x Hx); congruence].
    exists r. destruct Ho as (Hk & _ & _ & Hc). split; [done|]. by apply Hc, Hnone.
  - intros x Hx. destruct (tunnel_of_plan _ _ _ _ _ _ _ _ _ Hp x Hx) as [e [_ _ _ Ho _]].
    destruct (pt_original x) as [t|]; [|specialize (Hnonet x Hx); congruence].
    exists t. destruct Ho as (Hk & _ & _ & Hc). split; [done|]. by apply Hc, Hnonet.
  - intros r _. apply not_elem_of_nil.
  - intros t _. apply not_elem_of_nil.
  - intros x t Hx Hk Hid. destruct (tunnel_of_plan _ _ _ _ _ _ _ _ _ Hp x Hx) as [e [_ _ _ Ho _]].
    destruct (pt_original x) as [t'|]; [|specialize (Hnonet x Hx); congruence].
    destruct Ho as (Hk' & E & _). f_equal. apply (kept_tunnel_inj st); try done. congruence.
Qed.

Lemma runs_discarding {A} (m : Action (Control S) A) keys s0 st n c (Q : A -> Control S -> Prop) :
  unused_keys st keys -> runs m c Q (fun _ => sparing s0 st n) ->
  runs (discarding keys m) c Q (fun _ => sparing s0 st n).
Proof.
  intros Hk Hm. unfold runs, discarding in *. destruct (m c) as [[a|e] c']; [done|]. by apply discard_sparing.
Qed.

(** The transaction writes no credential. *)
Lemma silent_for_each {A} (f : A -> Action (Control S) unit) (l : list A) :
  (forall x, silent (f x)) -> silent (for_each f l).
Proof. intros Hf. induction l; simpl; auto with silent. Qed.

Lemma silent_apply_server x : silent (S := S) (apply_server limits x).
Proof.
  unfold apply_server. destruct (skipped _); [auto with silent|]. destruct (ps_original x); [|auto with silent].
  apply silent_bind; [auto with silent|]. intros [live|e]; [|auto with silent]. destruct (_ || _); [auto with silent|].
  cbv zeta. apply silent_bind; [auto with silent|]. intros revision.
  apply silent_bind; [apply silent_update_time|]. auto with silent.
Qed.

Lemma silent_apply_servers l : silent (S := S) (apply_servers limits l).
Proof. induction l; simpl; [auto with silent|]. apply silent_bind; [apply silent_apply_server|]. auto with silent. Qed.

Lemma silent_apply_tunnel x : silent (S := S) (apply_tunnel limits x).
Proof.
  unfold apply_tunnel. destruct (skipped _); [auto with silent|]. destruct (pt_original x); [|auto with silent].
  apply silent_bind; [auto with silent|]. intros [live|e]; [|auto with silent]. destruct (_ || _); [auto with silent|].
  cbv zeta. apply silent_bind; [auto with silent|]. intros revision.
  apply silent_bind; [apply silent_update_time|]. auto with silent.
Qed.

Lemma silent_remove_pruned_tunnel x : silent (S := S) (remove_pruned_tunnel x).
Proof.
  unfold remove_pruned_tunnel. destruct (negb _); [auto with silent|]. apply silent_bind; [auto with silent|].
  intros [live|e]; [|auto with silent]. destruct (pt_original x); [|auto with silent].
  destruct (negb _); [auto with silent|]. apply silent_bind; [apply silent_update_time|]. auto with silent.
Qed.

Lemma silent_remove_pruned_server x : silent (S := S) (remove_pruned_server x).
Proof.
  unfold remove_pruned_server. destruct (negb _); [auto with silent|]. apply silent_bind; [auto with silent|].
  intros [live|e]; [|auto with silent]. destruct (ps_original x); [|auto with silent].
  destruct (negb _); [auto with silent|]. apply silent_bind; [apply silent_update_time|]. auto with silent.
Qed.

Lemma silent_apply_prepared servers tunnels : silent (S := S) (apply_prepared limits servers tunnels).
Proof.
  apply silent_bind; [apply silent_apply_servers|]. intros k.
  apply silent_bind; [apply silent_for_each, silent_apply_tunnel|]. intros _.
  apply silent_bind; [apply silent_for_each, silent_remove_pruned_tunnel|]. intros _.
  apply silent_bind; [apply silent_for_each, silent_remove_pruned_server|]. auto with silent.
Qed.

(** The preparation, whose failure changes nothing. *)
Lemma prepared_runs path prune s0 st n c (Q : PreparedPlan -> Control S -> Prop) :
  preparing s0 st n c ->
  (forall es et l lt gone gone_tunnels p c', sparing s0 st n c' -> config_document path es et ->
     planned st prune es et l lt gone gone_tunnels p ->
     Forall2 (fun entry => server_read s0 entry (base_directory_of path)) es l -> Q p c') ->
  runs (prepare_plan limits path prune) c Q (fun _ => sparing s0 st n).
Proof.
  intros Hprep HQ. assert (forall c', preparing s0 st n c' -> sparing s0 st n c') as Hsp.
  { intros c' (Hr & _ & Hs). split; [done|]. by intros key _. }
  apply (runs_mono _ _ Q _ (fun _ => preparing s0 st n)); [|done|by intros e c' ?; apply Hsp].
  apply prepare_plan_runs; [done|done|].
  intros data document es et l lt gone gone_tunnels p c' Hp' Hdata Hdoc Hent Hp Hread.
  eapply HQ; [by apply Hsp| |exact Hp|done]. by exists data, document.
Qed.

(** *** The credentials of the entries *)

Section Secrets.
Variables (s0 : S) (st : State) (base : bytes).
Hypothesis Hsettled : visible s0 = durable s0.

Lemma prepared_unchanged entry x :
  server_read s0 entry base x -> unchanged_stored (ps_desired x) (ps_credentials x) s0.
Proof.
  intros Hr. destruct (Hr Hsettled) as [Hm _]. eapply Forall_impl; [exact Hm|]. intros m Hread.
  by apply (material_unchanged s0 entry base).
Qed.

(** After the staging, and after a plan without actions, the record has its materials. *)
Lemma staged_materials entry e x x' (r : ServerRecord) (s : S) :
  server_prepared st e x -> server_read s0 entry base x -> secrets_kept st s0 s ->
  staged_server s x x' -> values_staged s x x' ->
  (forall k, credential_reference r k = credential_reference (ps_desired x') k) ->
  materials_stored r (ps_credentials x) s.
Proof.
  intros [_ _ Ho _ Hkept] Hread Hs (_ & Hsk & _) Hv Hrefs. destruct (skipped (ps_mutation x)) eqn:Em.
  - assert (ps_mutation x = mutation_none) as Hnone.
    { unfold skipped in Em. apply orb_true_iff in Em as [Em|Em]; by apply bool_decide_eq_true in Em. }
    destruct (ps_original x) as [r0|]; [|by destruct Ho as (_ & _ & ?); congruence].
    destruct Ho as (Hk & _ & Href & _). rewrite (Hsk eq_refl) in Hrefs.
    pose proof (prepared_unchanged _ _ Hread) as Hu. destruct (Hread Hsettled) as [_ Hch].
    specialize (Hch Hnone). unfold unchanged_stored, materials_stored in *. rewrite Forall_forall in Hu, Hch |- *.
    intros m Hm. rewrite Hrefs. eapply refers_undisturbed; [|by apply Hu, Hch]. intros key Hkey. apply Hs.
    exists r0, (cm_kind m). by rewrite <- Href.
  - eapply Forall_impl; [exact (Hv Em)|]. intros m. by rewrite Hrefs.
Qed.

(** A kept record keeps its materials. *)
Lemma materials_kept st' r l (s s' : S) :
  kept_server st' r -> secrets_kept st' s s' -> materials_stored r l s -> materials_stored r l s'.
Proof.
  intros Hk Hs Hl. eapply Forall_impl; [exact Hl|]. intros m. apply refers_undisturbed. intros key Hkey.
  apply Hs. by exists r, (cm_kind m).
Qed.

Lemma entry_configured entry e x r (s' : S) :
  server_prepared st e x -> server_read s0 entry base x -> same_config r (ps_desired x) ->
  materials_stored r (ps_credentials x) s' -> forall k, credential_configured base st s0 s' entry r k.
Proof.
  intros [_ _ Ho [Hks _] _] Hread (Eid & _) Hstored k. destruct (Hread Hsettled) as [Hm _].
  assert (k ∈ cm_kind <$> ps_credentials x) as (m & -> & Hin)%list_elem_of_fmap.
  { rewrite Hks. unfold credential_kinds. destruct k; set_solver. }
  unfold materials_stored in Hstored. rewrite Forall_forall in Hm, Hstored. specialize (Hstored m Hin).
  destruct (Hm m Hin) as (current & Hcur & Hval). unfold credential_configured.
  destruct (json_find _ entry) as [[| | | | |text| |]|]; try done.
  - by destruct Hval as [<- _].
  - destruct Hval as (data & Hdata & Hnorm & _). by exists data, (cm_value m).
  - destruct Hval as [<- _]. exists (cm_value m). split; [done|]. destruct (ps_original x) as [r0|].
    + left. exists r0. destruct Ho as (Hk & Hid & Hrefs & _). split; [done|]. split; [congruence|].
      by rewrite <- Hrefs.
    + right. destruct Ho as (Hfresh & Hnone & _). rewrite Hnone in Hcur. split; [done|]. by rewrite Eid.
Qed.
End Secrets.

(** Every entry has its record and its credentials. *)
Lemma plan_secrets path prune s0 st es et l lt gone gone_tunnels p l' st' (s s' : S) :
  planned st prune es et l lt gone gone_tunnels p ->
  Forall2 (fun entry => server_read s0 entry (base_directory_of path)) es l ->
  visible s0 = durable s0 -> secrets_kept st s0 s -> Forall2 (staged_server s) l l' ->
  (Forall (values_ready s0) l -> Forall2 (values_staged s) l l') ->
  Forall2 (server_settled st') l l' -> secrets_kept st' s s' ->
  secrets_configured (base_directory_of path) st es s0 st' s'.
Proof.
  intros Hp Hread Hset Hs Hl' Hv Hsettled Hs'. pose proof (planned_server_entries _ _ _ _ _ _ _ _ _ Hp) as Hes.
  assert (Forall2 (values_staged s) l l') as Hvs.
  { apply Hv, Forall_forall. intros x Hx _. destruct (Forall2_elem_r _ _ _ _ Hread Hx) as (entry & _ & Hr).
    by apply (prepared_unchanged s0 (base_directory_of path) Hset entry). }
  apply Forall_forall. intros entry [i Hi]%list_elem_of_lookup.
  destruct (Forall2_lookup_l _ _ _ _ _ Hes Hi) as (x & Hx & e & He & Hprep).
  pose proof (Forall2_lookup_lr _ _ _ _ _ _ Hread Hi Hx) as Hrx.
  destruct (Forall2_lookup_l _ _ _ _ _ Hl' Hx) as (x' & Hx' & Hst).
  destruct (Forall2_lookup_lr _ _ _ _ _ _ Hsettled Hx Hx') as (r & Hk & Hc & Hrefs). exists r. split.
  { split; [done|]. exists e. split; [done|]. by eapply conforms_same, prepared_conforms. }
  apply (entry_configured s0 st (base_directory_of path) Hset entry e x); [done..|]. apply (materials_kept st' r _ s); [done..|].
  apply (staged_materials s0 st (base_directory_of path) Hset entry e x x'); try done.
  exact (Forall2_lookup_lr _ _ _ _ _ _ Hvs Hx Hx').
Qed.

(** A plan without actions is its own result. *)
Lemma settled_servers prune st es et l lt gone gone_tunnels p (s : S) :
  planned st prune es et l lt gone gone_tunnels p -> pp_actions p = [] ->
  Forall2 (staged_server s) l l /\ Forall2 (values_staged s) l l /\ Forall2 (server_settled st) l l.
Proof.
  intros Hp [Hnone _]%(planned_actions _ _ _ _ _ _ _ _ _ Hp).
  rewrite (planned_servers _ _ _ _ _ _ _ _ _ Hp) in Hnone. apply Forall_app in Hnone as [Hnone _].
  rewrite Forall_forall in Hnone. rewrite !Forall2_same_length_lookup.
  split_and!; try done; intros i x y Hx Hy; assert (y = x) as -> by congruence;
    pose proof (list_elem_of_lookup_2 _ _ _ Hx) as Hin; pose proof (Hnone x Hin) as Hm.
  - split; [by left|]. split; [done|]. by rewrite Hm.
  - unfold values_staged. by rewrite Hm.
  - destruct (server_of_plan _ _ _ _ _ _ _ _ _ Hp x Hin) as [e [_ _ Ho _ _]].
    destruct (ps_original x) as [r|]; [|by destruct Ho as (_ & _ & ?); congruence].
    destruct Ho as (Hk & _ & Hrefs & Hc). exists r. split; [done|]. split; [by apply Hc|]. intros k. by rewrite Hrefs.
Qed.

(** What an application leaves behind. *)
Definition applied_document path prune s0 st n (reply : Json) c : Prop :=
  exists es et st' actions, config_document path es et /\
    configured st prune es et st' /\ ready False st' n c /\ reply = plan_json actions prune /\
    (actions = [] -> st' = st) /\
    (visible s0 = durable s0 ->
     secrets_configured (base_directory_of path) st es s0 st' (credentials c)).

(** The staging and what follows, for a plan with actions. *)
Lemma apply_config_runs path prune st n c :
  preparing (credentials c) st n c ->
  runs (apply_config limits path prune) c (applied_document path prune (credentials c) st n)
    (fun _ => sparing (credentials c) st n).
Proof.
  set (s0 := credentials c). intros Hprep. pose proof Hprep as [(_ & Hst & _) _]. unfold apply_config.
  apply runs_bind, (prepared_runs _ _ s0 st n); [done|].
  intros es et l lt gone gone_tunnels p c1 Hr1 Hcd Hp Hread.
  case_bool_decide as Hact.
  { apply runs_ret. exists es, et, st, []. split_and!; try done; [|by destruct Hr1|].
    - apply (plan_configured st prune es et l lt gone gone_tunnels p Hp).
      by apply (settled_plan st prune es et l lt gone gone_tunnels p).
    - intros Hset. destruct (settled_servers prune st es et l lt gone gone_tunnels p (credentials c1) Hp Hact)
        as (Hs1 & Hs2 & Hs3). destruct Hr1 as [_ Hk1].
      eapply (plan_secrets _ _ s0 st es et l); try done. apply secrets_kept_refl. }
  assert (Forall (fun x => skipped (ps_mutation x) = false -> stageable st x) (pp_servers p)) as Hstage.
  { rewrite (planned_servers _ _ _ _ _ _ _ _ _ Hp). apply Forall_app. split; apply Forall_forall.
    - intros x Hx _. destruct (server_of_plan _ _ _ _ _ _ _ _ _ Hp x Hx) as [e He].
      destruct Hr1 as [(_ & _ & Hok1 & _) _]. by apply (prepared_stageable st (credentials c1) e).
    - by intros x (r & -> & _)%list_elem_of_fmap. }
  apply runs_bind, (stage_servers_runs s0 _ _ st n);
    [done|by apply Forall_nil|done|apply (planned_server_ids _ _ _ _ _ _ _ _ _ Hp)|].
  intros k keys c2 Hr2 Hkeys Hk _ Hv. rewrite (planned_servers _ _ _ _ _ _ _ _ _ Hp) in Hk, Hv.
  apply Forall2_app_inv_l in Hk as (l' & k2 & Hl' & Hk2 & ->).
  apply pruned_staged in Hk2 as ->.
  assert (Forall (values_ready s0) l -> Forall2 (values_staged (credentials c2)) l l') as Hvl.
  { intros Hl. destruct (Forall2_app_inv _ _ _ _ _ (Forall2_length _ _ _ Hl') (Hv ltac:(apply Forall_app;
      split; [done|]; by apply Forall_forall; intros x (r & -> & _)%list_elem_of_fmap))). done. }
  apply runs_bind, runs_discarding; [done|].
  eapply runs_mono; [apply runs_silent; [apply silent_scoped, silent_apply_prepared|];
    apply (scoped_runs st n False any _ c2 (fun k c' => exists st',
    ready False st' n c' /\ credentials c' = credentials c2 /\ plan_applied st l lt gone gone_tunnels st' /\
    Forall (cleanable st') k /\ Forall2 (server_settled st') l l'));
    [by destruct Hr2|]| |].
  { intros c3 Hw3 Hc3. rewrite (planned_tunnels _ _ _ _ _ _ _ _ _ Hp).
    eapply (apply_prepared_runs limits st n prune es et l lt gone gone_tunnels p Hst Hp); [done|by rewrite Hc3|].
    intros l'' st' c4 Hr4 Hc4 Hap Hcl Hset. split; [exists st'; by destruct Hr4|]. exists st'. split_and!; try done. congruence. }
  2: { intros e c' [Href Hu]. split; [by eapply refused_ready|]. destruct Hr2 as [_ Hk2].
       eapply secrets_kept_trans; [exact Hk2|]. by intros key _. }
  intros k c3 (st' & Hr3 & Hc3 & Hap & Hcl & Hset). apply runs_bind, (cleanup_servers_runs n k st'); [done..|].
  intros c4 Hr4 Hs4. apply runs_ret. exists es, et, st', (pp_actions p). split_and!; try done.
  - by apply (plan_configured st prune es et l lt gone gone_tunnels p Hp).
  - intros Hsettled. rewrite Hc3 in Hs4. destruct Hr2 as [_ Hk2].
    by eapply (plan_secrets _ _ s0 st es et l).
Qed.

(** *** The handlers *)

Definition sound_method (handler : Json -> Action (Control S) Json) : Prop :=
  forall p st n c, ready False st n c -> unclashing st c ->
    runs (handler p) c (fun _ => accepted st n) (fun _ => ready False st n).

Lemma sound_handler_method handler : sound_handler (S := S) handler -> sound_method handler.
Proof. intros Hs p st n c Hr _. by apply Hs. Qed.

(** What an application of the configuration [p] has done. *)
Definition config_applied (p : Json) (s0 : S) st n c : Prop :=
  exists path prune es et st' k, config_params p = Ok (path, prune) /\ config_document path es et /\
    configured st prune es et st' /\ ready False st' k c /\ (k = n /\ st' = st \/ k = Datatypes.S n) /\
    (visible s0 = durable s0 ->
     secrets_configured (base_directory_of path) st es s0 st' (credentials c)).

Lemma config_apply_runs p st n c :
  ready False st n c -> unclashing st c ->
  runs (config_apply limits p) c (fun _ => config_applied p (credentials c) st n)
    (fun _ => sparing (credentials c) st n).
Proof.
  intros Hr Hu. unfold config_apply. apply runs_bind, runs_lift.
  2: { intros e _. split; [done|apply secrets_kept_refl]. }
  intros [path prune] Epar. apply runs_bind. eapply runs_mono; [apply (apply_config_runs path prune st n)| |done].
  { split_and!; try done. intros key. apply undisturbed_refl. }
  intros reply c1 (es & et & st' & actions & Hcd & Hconf & Hr1 & -> & Hsame & Hsec). apply runs_bind.
  assert (json_find (bs "changed") (plan_json actions prune) = Some (JUnsigned (Zlen actions))) as -> by done.
  destruct actions as [|a actions].
  - apply runs_ret, runs_ret. exists path, prune, es, et, st', n. split_and!; try done. left. auto.
  - assert (negb (Zlen (a :: actions) =? 0) = true) as ->.
    { apply negb_true_iff, Z.eqb_neq. unfold Zlen. simpl. lia. }
    apply (notify_ready st' n False); [done|]. intros c2 Hr2 Hc2 _. apply runs_ret.
    exists path, prune, es, et, st', (Datatypes.S n). split_and!; try done; [by right|by rewrite Hc2].
Qed.

Lemma config_apply_sound : sound_method (config_apply limits).
Proof.
  intros p st n c Hr Hu. eapply runs_mono; [by apply config_apply_runs| |by intros e c' [? _]].
  intros _ c' (path & prune & es & et & st' & k & _ & _ & _ & Hr' & [[-> ->]| ->] & _);
    [by apply accept_same|by eapply accept_changed].
Qed.

Lemma config_plan_sound : sound_method (config_plan limits).
Proof.
  intros p st n c Hr Hu. unfold config_plan. apply runs_bind, (ready_lift _ st n); [done|].
  intros [path prune] _. unfold plan. apply runs_bind.
  eapply runs_mono; [apply (prepared_runs _ _ (credentials c) st n _ (fun _ => ready False st n))|..].
  - split_and!; try done. intros key. apply undisturbed_refl.
  - by intros es et l lt gone gone_tunnels q c' [? _] _ _ _.
  - intros q c' Hr'. by apply runs_ret, accept_same.
  - by intros e c' [? _].
Qed.

Lemma config_export_sound : sound_handler (S := S) (config_export limits).
Proof.
  intros p st n c Hr. unfold config_export. apply runs_bind, (ready_lift _ st n); [done|]. intros _ _.
  unfold export_config. apply sound_scoped; [done|]. intros c1 Hw.
  apply (looking_list_all limits exported_document). by apply work_looking.
Qed.
End Methods.
