(* ===== verification/ControlService.v ===== *)
(** * The control service as a whole

    The dispatcher of the daemon with the handlers of the control service, what a
    sequence of requests does to the state database and to the credential store, and what
    the most important requests do exactly. *)
From stdpp Require Import sorting.
From S2P Require Import Prelude Common Ids Text Endpoint Utf8 Models Rows Database Repository StorageSpec StorageRun Storage Json IpcProtocol Credentials Control ControlRun ControlHandlers ControlServers ControlSagas ConfigFile Config ConfigRun ConfigApply ConfigService.

(** ** The registration of the handlers *)

Section Registration.
Context `{AsioAddress} `{SqliteMessages} `{ControlEnvironment} `{FileSystem} `{JsonLibrary}.
Context {S : Type} `{CredentialStore S}.
Variable limits : StorageLimits.

(** The handlers modelled here, by the names they are registered under; the others of
    [register_handlers] are the diagnostics and backups of the two databases. *)
Definition handlers : list (string * (Json -> Action (Control S) Json)) := [
  ("daemon.status", daemon_status); ("daemon.identity", daemon_identity);
  ("server.add", server_add limits); ("server.login", server_login limits);
  ("server.update", server_update limits); ("server.enable", server_enable limits);
  ("server.disable", server_disable limits); ("server.logout", server_logout limits);
  ("server.list", server_list limits); ("server.inspect", server_inspect limits);
  ("server.remove", server_remove); ("tun.add", tunnel_add limits);
  ("tun.update", tunnel_update limits); ("tun.enable", tunnel_enable limits);
  ("tun.disable", tunnel_disable limits); ("tun.list", tunnel_list limits);
  ("tun.inspect", tunnel_inspect limits); ("tun.remove", tunnel_remove limits);
  ("config.export", config_export limits); ("config.plan", config_plan limits);
  ("config.apply", config_apply limits); ("status", status limits); ("metrics", metrics);
  ("reload", reload)]%string.

(** A handler as the dispatcher calls it, taken as one action on the control state. *)
Definition as_method (handler : Json -> Action (Control S) Json) : MethodHandler (S := Control S) :=
  fun request => atomically (fun c =>
    let (r, c) := handler (params request) c in (Returned r, c)).

(** The loop of [register_handlers]: a failed registration unregisters the methods
    registered before, the last one first. *)
Fixpoint register_loop (l : list (string * (Json -> Action (Control S) Json)))
    (registered : list bytes) : Action (Dispatcher (S := Control S)) unit :=
  match l with
  | [] => mret tt
  | (name, handler) :: l => fun d =>
      match register_handler (bs name) (Some (as_method handler)) d with
      | (Err e, d) =>
          (Err e, fold_left (fun d name => (unregister_handler name d).2) registered d)
      | (Ok _, d) => register_loop l (bs name :: registered) d
      end
  end.

Definition register_handlers : Action (Dispatcher (S := Control S)) unit :=
  register_loop handlers [].
End Registration.

(** ** Every handler is sound *)

Section Service.
Context `{AsioAddressLaws} `{SqliteMessages} `{ControlEnvironment} `{FileSystem} `{JsonLibrary}.
Context {S : Type} `{CredentialStoreLaws S}.
Variable limits : StorageLimits.
Hypothesis Hlimits : limits_wf limits.
Implicit Types (c : Control S) (st : State) (n : nat).

Lemma accepted_notified changed st st' n c :
  ready False st' (notifications changed n) c ->
  (changed = false -> st_servers st' = st_servers st /\ st_tunnels st' = st_tunnels st) ->
  accepted st n c.
Proof.
  intros Hr Hs. exists st', (notifications changed n). destruct changed; simpl in *.
  - split_and!; [done|by right|lia].
  - split_and!; [done|by left|]. by intros _; apply Hs.
Qed.

Lemma switch_server_sound desired actual : sound_handler (switch_server (S := S) limits desired actual).
Proof.
  intros p st n c Hr. eapply runs_mono; [by apply switch_server_runs| |by intros e c' [? _]].
  intros _ c' (r & revision & st' & _ & _ & Hs & Hr'). eapply accepted_notified; [exact Hr'|].
  intros E. unfold switched in Hs. case_bool_decide; [by subst|done].
Qed.

Lemma server_login_sound : sound_handler (server_login (S := S) limits).
Proof.
  intros p st n c Hr. eapply runs_mono; [by apply server_login_runs| |by intros e c' [? _]].
  intros _ c' (r & secret & revision & _ & _ & u & _ & Hr' & _).
  by apply (accepted_notified true _ _ _ _ Hr').
Qed.

Lemma server_logout_sound : sound_handler (server_logout (S := S) limits).
Proof.
  intros p st n c Hr. eapply runs_mono; [by apply server_logout_runs| |by intros e c' [? _]].
  intros _ c' (r & revision & st' & _ & _ & Hs & Hr' & _). eapply accepted_notified; [exact Hr'|].
  intros E. rewrite E in Hs. by subst.
Qed.

Lemma server_remove_sound : sound_handler (server_remove (S := S)).
Proof.
  intros p st n c Hr. eapply runs_mono; [by apply server_remove_runs| |by intros e c' [? _]].
  intros _ c' (r & _ & removed_at & st1 & st' & _ & _ & Hr' & _).
  by apply (accepted_notified true _ _ _ _ Hr').
Qed.

Lemma handlers_sound : Forall (fun x => sound_method (S := S) x.2) (handlers limits).
Proof.
  unfold handlers, server_enable, server_disable, tunnel_enable, tunnel_disable.
  repeat (apply Forall_cons; split; cbn [snd]); [..|by apply Forall_nil];
    first [by apply config_plan_sound | by apply config_apply_sound
          | apply sound_handler_method; first [apply daemon_status_sound | apply daemon_identity_sound | by apply server_add_sound
          | by apply server_login_sound | by apply server_update_sound | by apply switch_server_sound
          | by apply server_logout_sound | by apply server_list_sound | by apply server_inspect_sound
          | apply server_remove_sound | by apply tunnel_add_sound | by apply tunnel_update_sound
          | by apply switch_tunnel_sound | by apply tunnel_list_sound | by apply tunnel_inspect_sound
          | by apply tunnel_remove_sound | by apply config_export_sound | by apply status_sound
          | apply metrics_sound | apply reload_sound]].
Qed.

(** ** Every answer is an object *)

Definition answers (m : Action (Control S) Json) : Prop := forall c,
  match (m c).1 with Ok j => is_object j = true | Err _ => True end.

Lemma answers_bind {A} (m : Action (Control S) A) (k : A -> Action (Control S) Json) :
  (forall a, answers (k a)) -> answers (m ≫= k).
Proof.
  intros Hk c. unfold mbind, ST_bind. destruct (m c) as [[a|e] c']; [apply Hk|done].
Qed.

Lemma answers_scoped (m : Action (Control S) Json) : answers m -> answers (scoped m).
Proof.
  intros Hm c. unfold scoped. destruct (begin_transaction (state_db c)) as [[[]|e] db]; [|done].
  specialize (Hm (set_db db c)). by destruct (m (set_db db c)) as [[j|e] c'].
Qed.

Lemma answers_fail ec m : answers (fail_with ec m).
Proof. done. Qed.

Lemma answers_object fields : answers (mret (json_object fields)).
Proof. done. Qed.

Ltac answers :=
  repeat first [progress intros | progress cbv zeta | apply answers_object | apply answers_fail
               | apply answers_scoped | apply answers_bind
               | match goal with |- answers (match ?x with _ => _ end) => destruct x end].

Lemma answers_apply_config path prune : answers (apply_config limits path prune).
Proof.
  unfold apply_config. apply answers_bind. intros prepared. case_bool_decide; [done|]. answers.
Qed.

Lemma answers_config_apply p : answers (config_apply limits p).
Proof.
  unfold config_apply. apply answers_bind. intros [path prune] c. unfold mbind, ST_bind.
  pose proof (answers_apply_config path prune c) as Ha.
  destruct (apply_config limits path prune c) as [[j|e] c']; [|done]. simpl in Ha |- *.
  by destruct (match json_find _ j with Some (JUnsigned _) => _ | _ => _ end).
Qed.

Lemma handlers_answer : Forall (fun x => forall p, answers (x.2 p)) (handlers (S := S) limits).
Proof.
  repeat (apply Forall_cons; split; cbn [snd]); [..|by apply Forall_nil]; intros p;
    try apply answers_config_apply;
    unfold daemon_status, daemon_identity, server_add, server_login, server_update, server_enable,
      server_disable, switch_server, server_logout, server_list, server_inspect, server_remove,
      removed_json, tunnel_add, tunnel_update, tunnel_enable, tunnel_disable, switch_tunnel,
      tunnel_changed_json, tunnel_list, tunnel_inspect, tunnel_remove, config_export, export_config,
      config_plan, plan, status, metrics, reload; answers.
  all: intros c; try done. by destruct (is_object j) eqn:E.
Qed.

(** ** Registration *)

Lemma register_loop_spec (l : list (string * (Json -> Action (Control S) Json))) registered d :
  Forall (fun x => validate_method_name (bs x.1) = success) l -> NoDup (bs ∘ fst <$> l) ->
  Forall (fun x => handlers_ d !! bs x.1 = None) l ->
  exists d', register_loop l registered d = (success, d') /\
    forall m h, handlers_ d' !! m = Some h <->
      handlers_ d !! m = Some h \/
      exists name handler, (name, handler) ∈ l /\ m = bs name /\ h = as_method handler.
Proof.
  revert registered d. induction l as [|[name handler] l IH]; intros registered d Hv Hnd Hf.
  { exists d. split; [done|]. intros m h. split; [by left|]. intros [|(?&?&?%elem_of_nil&_)]; done. }
  apply Forall_cons in Hv as [Hv Hvs], Hf as [Hf Hfs]. rewrite fmap_cons in Hnd.
  apply NoDup_cons in Hnd as [Hn Hnd]. simpl in Hv, Hf. simpl. unfold register_handler. rewrite Hv, Hf.
  unfold success at 1. cbv iota. set (d1 := mkDispatcher _ _).
  destruct (IH (bs name :: registered) d1 Hvs Hnd) as (d' & E & Hd').
  { rewrite Forall_forall in Hfs |- *. intros x Hx. simpl. rewrite lookup_insert_ne; [by apply Hfs|].
    intros E. apply Hn, list_elem_of_fmap. by exists x. }
  exists d'. split; [done|]. intros m h. rewrite Hd'. simpl. rewrite lookup_insert_Some. split.
  - intros [[[<- <-]|[_ ?]]|(name' & handler' & Hin & -> & ->)]; [right|by left|right].
    + exists name, handler. split; [by left|done].
    + exists name', handler'. split; [by right|done].
  - intros [Hm|(name' & handler' & [[= -> ->]|Hin]%elem_of_cons & -> & ->)].
    + left. right. split; [|done]. intros <-. congruence.
    + left. by left.
    + right. by exists name', handler'.
Qed.

Definition service : Dispatcher (S := Control S) := (register_handlers limits Dispatcher_new).2.

(** The registration succeeds, and the dispatcher has these methods and no others. *)
Lemma service_methods :
  (register_handlers (S := S) limits Dispatcher_new).1 = success /\
  forall m h, handlers_ service !! m = Some h <->
    exists name handler, (name, handler) ∈ handlers limits /\ m = bs name /\ h = as_method handler.
Proof.
  unfold service, register_handlers.
  destruct (register_loop_spec (handlers limits) [] Dispatcher_new) as (d & -> & Hd).
  - repeat (apply Forall_cons; split; [vm_compute; reflexivity|]). by apply Forall_nil.
  - apply (bool_decide_unpack _). vm_compute. exact I.
  - apply Forall_true. intros x. apply lookup_empty.
  - split; [done|]. intros m h. rewrite Hd. simpl. rewrite lookup_empty. split; [by intros [[=]|]|by right].
Qed.

(** ** A request *)

Lemma service_dispatch (request : Request) st n c :
  ready False st n c -> unclashing st c ->
  match payload (dispatch service request c).1 with
  | inr _ => ready False st n (dispatch service request c).2
  | inl _ => accepted st n (dispatch service request c).2
  end.
Proof.
  intros Hr Hu. unfold dispatch, begin_dispatch. destruct (negb _); [done|].
  destruct (validate_method_name (method request)); [|done]. destruct (negb _); [done|].
  destruct (handlers_ service !! method request) as [h|] eqn:Eh; [|done].
  apply (proj2 service_methods) in Eh as (name & handler & Hin & _ & ->).
  pose proof handlers_sound as Hs. rewrite Forall_forall in Hs. specialize (Hs _ Hin).
  pose proof handlers_answer as Ha. rewrite Forall_forall in Ha. specialize (Ha _ Hin).
  simpl in Hs, Ha. specialize (Hs (params request) st n c Hr Hu). specialize (Ha (params request) c).
  unfold runs in Hs. cbn [as_method atomically run_alone]. destruct (handler (params request) c) as [[j|e] c'].
  - simpl in Ha. cbn [run_alone end_dispatch]. by rewrite Ha.
  - done.
Qed.
End Service.

(** ** A daemon with one server, logged in, and one tunnel *)

#[local] Existing Instance sample_asio.
#[local] Existing Instance sample_asio_laws.
#[local] Existing Instance sample_messages.

Definition sample_environment : ControlEnvironment := {|
  loopback_address := fun host => bool_decide (host = bs "127.0.0.1");
  make_client_tls_context := fun _ _ _ => success;
  runtime_metrics := None; reload_handler := Some success; checkpoint_incomplete := false |}.
#[local] Existing Instance sample_environment.

Definition sample_slot : bytes := (managed_server_credential_keys (sr_id sample_server) psk).1.

Definition sample_control_server : ServerRecord :=
  set_server_refs (Some sample_slot) None None None sample_server.

Definition sample_control_state : State :=
  put_tunnel sample_tunnel (put_server sample_control_server (mkState ∅ ∅ None)).

Definition sample_control : Control SqliteCredentialStore :=
  mkControl (mkDatabase (encode sample_control_state) None None false [])
    (mkSqliteCredentialStore {[sample_slot := mkCredentialRow (bs "first") 1]} None []
       (fun n => 3000 + Z.of_nat n))
    (fun n => 3000 + Z.of_nat n)
    (fun n => if (n <? 2)%nat then Some (replicate 16 Byte.x01) else None) 0.

Definition sample_params (fields : list (string * string)) : Json :=
  JObject (map (fun x => (bs x.1, JString (bs x.2))) fields).

Lemma sample_control_valid : valid_state sample_control_state.
Proof.
  apply put_tunnel_valid; [apply put_server_valid|..]; try (vm_compute; reflexivity).
  - split; try done; by intros ?.
  - apply set_refs_valid; try (vm_compute; reflexivity); [apply sample_server_valid|].
    split; by intros [? [=]].
  - apply sample_tunnel_valid.
Qed.

Lemma sample_control_references : references_ok sample_control_state (credentials sample_control).
Proof.
  intros r k key Hm Hk. simpl in Hm. apply lookup_singleton_Some in Hm as [_ <-].
  destruct k; try done. injection Hk as <-. split; [by left|]. intros _.
  split; exists (bs "first"); vm_compute; reflexivity.
Qed.

Lemma sample_control_at_rest : at_rest sample_control_state (state_db sample_control).
Proof. split_and!; [done..|by right]. Qed.

Lemma sample_control_entropy : entropy_wf sample_control.
Proof. intros n l. simpl. by destruct (n <? 2)%nat; [intros [= <-]|]. Qed.

(** ** Theorems *)

(** The two stores fit together: the database holds a valid state, at rest, and every
    credential a server refers to is in the credential store. *)
Definition consistent `{AsioAddress} {S} `{CredentialContents S} (c : Control S) : Prop :=
  exists st, at_rest st (state_db c) /\ valid_state st /\ references_ok st (credentials c).

(** Nothing outside the program fails: no statement, no operation of the credential
    store; the connection is usable. *)
Definition undisturbed_run {S} `{CredentialContents S} (c : Control S) : Prop :=
  fault_free (state_db c) /\ poisoned_ (state_db c) = false /\ reliable (credentials c).

Lemma consistent_ready `{AsioAddress} {S} `{CredentialContents S} (c : Control S) st :
  at_rest st (state_db c) -> valid_state st -> references_ok st (credentials c) -> entropy_wf c ->
  ready (undisturbed_run c) st (notified c) c.
Proof.
  intros Hr Hst Hok He. split_and!; try done; [|by intros (_ & ? & _)].
  split; [done|]. by intros (? & _ & ?).
Qed.

(** What surrounds the daemon when it answers a request: the TLS material that is accepted,
    the reload handler, the metrics, and the files a configuration is read from. *)
Record Surroundings : Type := mkSurroundings {
  environment : ControlEnvironment;
  files : FileSystem
}.

(** The daemon answers a request. *)
Definition serve `{AsioAddress} `{SqliteMessages} `{JsonLibrary} {S} `{CredentialStore S} limits
    (c : Control S) (x : Surroundings * Request) : Control S :=
  let environment := environment x.1 in let files := files x.1 in (dispatch (service limits) x.2 c).2.

(** A request keeps the two stores fitting together, whatever fails meanwhile. *)
Lemma serve_kept `{AsioAddressLaws} `{SqliteMessages} `{JsonLibrary} {S} `{CredentialStoreLaws S}
    limits (c : Control S) (x : Surroundings * Request) :
  limits_wf limits -> entropy_wf c -> consistent c ->
  (forall st, at_rest st (state_db c) -> unclashing st c) ->
  consistent (serve limits c x) /\ entropy_wf (serve limits c x).
Proof.
  intros Hl He (st & Hr & Hst & Hok) Hu. destruct x as [env req].
  assert (ready False st (notified c) c) as Hready.
  { eapply ready_weaken. by apply consistent_ready. }
  pose proof (service_dispatch (H2 := environment env) (H3 := files env) limits Hl req st _ c Hready
    (Hu st Hr)) as Hd.
  unfold serve; cbn [fst snd].
  destruct (payload _); [destruct Hd as (st' & k & Hd & _)|];
    destruct Hd as (Hr' & Hst' & Hok' & _ & [He' _] & _); (split; [by eexists|done]).
Qed.

(** C21: a request that is answered with an error leaves the committed state as it was and
    notifies nobody; one that is answered with a result notifies the server manager at
    most once, and it does so whenever the servers or the tunnels have changed. *)
Theorem request_effect `{AsioAddressLaws} `{SqliteMessages} `{ControlEnvironment} `{FileSystem}
    `{JsonLibrary} {S} `{CredentialStoreLaws S} limits request st (c : Control S) :
  limits_wf limits -> entropy_wf c -> at_rest st (state_db c) -> valid_state st ->
  references_ok st (credentials c) -> unclashing st c ->
  let (response, c') := dispatch (service limits) request c in
  match payload response with
  | inr _ => committed (state_db c') = committed (state_db c) /\ notified c' = notified c
  | inl _ =>
      exists st', committed (state_db c') = encode st' /\
        (notified c' = Datatypes.S (notified c) \/
         notified c' = notified c /\ st_servers st' = st_servers st /\ st_tunnels st' = st_tunnels st)
  end.
Proof.
  intros Hl He Hr Hst Hok Hu. assert (ready False st (notified c) c) as Hready.
  { eapply ready_weaken. by apply consistent_ready. }
  pose proof (service_dispatch limits Hl request st _ c Hready Hu) as Hd.
  destruct (dispatch _ _ c) as [response c']. simpl in Hd. destruct (payload response).
  - destruct Hd as (st' & k & ((Hc & _) & _ & _ & Hn & _) & Hk & Hsame). exists st'. split; [done|].
    destruct Hk as [->| ->]; [right|by left]. split; [done|]. by apply Hsame.
  - destruct Hd as ((Hc & _) & _ & _ & Hn & _). split; [|done]. destruct Hr as [-> _]. done.
Qed.

(** C22: the application of a declarative configuration.  When it is answered with a result,
    the file holds a document, and the committed state is the previous one with the
    document applied: every server entry has a configured record that conforms to it, every
    tunnel entry one that conforms to it and belongs to a server the entry names; with
    pruning nothing else is managed by the configuration; a record the document does not
    name is not touched, unless it is managed by the configuration and pruned.  The server
    manager has been notified, or nothing has changed.  The configured record of an entry
    refers to the credentials the entry asks for: the contents of the files it names, none
    where it says null, and otherwise those the server had before; this for a credential
    store without a transaction left open at the start.  When the application is answered
    with an error the committed state is the previous one and nothing has happened to a
    secret a configured server refers to.  The identifiers drawn for new servers are assumed
    not to be those of configured ones. *)
Theorem config_apply_exact `{AsioAddressLaws} `{SqliteMessages} `{ControlEnvironment} `{FileSystem}
    `{JsonLibrary} {S} `{CredentialStoreLaws S} limits p st (c : Control S) :
  limits_wf limits -> entropy_wf c -> at_rest st (state_db c) -> valid_state st ->
  references_ok st (credentials c) -> unclashing st c ->
  match config_apply limits p c with
  | (Ok _, c') =>
      exists path prune es et st', config_params p = Ok (path, prune) /\ config_document path es et /\
        committed (state_db c') = encode st' /\ valid_state st' /\ references_ok st' (credentials c') /\
        configured st prune es et st' /\
        (visible (credentials c) = durable (credentials c) ->
         secrets_configured (base_directory_of path) st es (credentials c) st' (credentials c')) /\
        (notified c' = Datatypes.S (notified c) \/ notified c' = notified c /\ st' = st)
  | (Err e, c') =>
      consistent c' /\ committed (state_db c') = encode st /\ references_ok st (credentials c') /\
      secrets_kept st (credentials c) (credentials c') /\ notified c' = notified c
  end.
Proof.
  intros Hl He Hr Hst Hok Hu. assert (ready False st (notified c) c) as Hready.
  { eapply ready_weaken. by apply consistent_ready. }
  pose proof (config_apply_runs limits Hl p st _ c Hready Hu) as Hrun. unfold runs in Hrun.
  destruct (config_apply limits p c) as [[j|e] c'].
  - destruct Hrun as (path & prune & es & et & st' & k & Epar & Hcd & Hconf & Hr' & Hk & Hsec).
    destruct Hr' as ((Hc & _) & Hst' & Hok' & Hn & _). exists path, prune, es, et, st'.
    split_and!; try done; try apply Hconf. destruct Hk as [[-> ->]| ->]; [by right|by left].
  - destruct Hrun as [(Hr' & _ & Hok' & Hn & _) Hkept]. split; [by exists st|]. by destruct Hr' as [Hc _].
Qed.

(** C19: a login that returns a result has committed a new revision of the server whose
    record refers to the slot that was not in use, and this slot holds the submitted
    secret, also after the store is reopened.  One that fails leaves the committed state and
    the notifications as they were, and nothing has happened to a secret a configured server
    refers to; it may leave something in the slot that is not in use.  When nothing outside
    the program fails, a login fails for the specified reasons only and the slot used before
    is empty afterwards. *)
Theorem server_login_exact `{AsioAddressLaws} `{SqliteMessages} `{ControlEnvironment} {S}
    `{CredentialStoreLaws S} limits p st (c : Control S) :
  limits_wf limits -> entropy_wf c -> at_rest st (state_db c) -> valid_state st ->
  references_ok st (credentials c) ->
  match server_login limits p c with
  | (Ok _, c') =>
      exists r secret revision updated_at,
        login_request limits p st = Ok (r, secret, revision) /\ revision = sr_config_revision r + 1 /\
        sr_updated_at r <= updated_at /\
        committed (state_db c') = encode (put_server (logged_in revision updated_at r) st) /\
        sr_credential_ref r <> Some (next_credential_key r) /\
        visible (credentials c') !! next_credential_key r = Some secret /\
        durable (credentials c') !! next_credential_key r = Some secret /\
        (undisturbed_run c -> forall key, slot_of (sr_id r) psk key -> key <> next_credential_key r ->
           visible (credentials c') !! key = None)
  | (Err e, c') =>
      committed (state_db c') = encode st /\ notified c' = notified c /\
      references_ok st (credentials c') /\ secrets_kept st (credentials c) (credentials c') /\
      (undisturbed_run c -> login_request limits p st = Err e)
  end.
Proof.
  intros Hl He Hr Hst Hok.
  pose proof (server_login_runs limits Hl p st _ _ c (consistent_ready c st Hr Hst Hok He)) as Hrun.
  pose proof (server_login_kept limits p st _ _ c (consistent_ready c st Hr Hst Hok He)) as Hkept.
  unfold runs in Hrun, Hkept. destruct (server_login limits p c) as [[j|e] c'].
  - destruct Hrun as (r & secret & revision & Ereq & Hk & u & Hu & ((Hc & _) & _) & Hv & Hd & Hg).
    exists r, secret, revision, u. split_and!; try done; [|apply (next_key_fresh r psk)].
    unfold login_request, mbind, outcome_bind in Ereq. destruct (login_params p) as [[??]|]; [|done].
    destruct (resolve_server_spec _ st) as [r0|]; [|done].
    destruct (next_revision (sr_config_revision r0)) as [rev|] eqn:Erev; [|done].
    destruct (list_by_server_spec _ _ st); [|done]. injection Ereq as -> -> ->.
    by apply next_revision_range in Erev as [? _].
  - destruct Hrun as [((Hc & _) & _ & Hok' & Hn & _) Hwhy]. done.
Qed.

(** enabling or disabling a server that is not in the requested state commits one new
    revision of it and puts every active tunnel of it, and no other tunnel, on pending;
    a server already in that state is left alone and nobody is notified.  A request that
    fails changes nothing, and when nothing outside the program fails it fails for the
    specified reasons only. *)
Theorem server_switch_exact `{AsioAddressLaws} `{SqliteMessages} {S} `{CredentialStoreLaws S}
    limits desired actual p st (c : Control S) :
  limits_wf limits -> entropy_wf c -> at_rest st (state_db c) -> valid_state st ->
  references_ok st (credentials c) ->
  match switch_server limits desired actual p c with
  | (Ok _, c') =>
      exists r revision st', switch_request limits desired p st = Ok (r, revision) /\
        committed (state_db c') = encode st' /\ valid_state st' /\
        switched desired actual r revision st st' /\
        notified c' = (notified c + if decide (sr_desired_state r = desired) then 0 else 1)%nat
  | (Err e, c') =>
      committed (state_db c') = encode st /\ notified c' = notified c /\
      (undisturbed_run c -> switch_request limits desired p st = Err e)
  end.
Proof.
  intros Hl He Hr Hst Hok.
  pose proof (switch_server_runs limits Hl desired actual p st _ _ c
                (consistent_ready c st Hr Hst Hok He)) as Hrun.
  unfold runs in Hrun. destruct (switch_server limits desired actual p c) as [[j|e] c'].
  - destruct Hrun as (r & revision & st' & Ereq & _ & Hs & ((Hc & _) & Hst' & _ & Hn & _)).
    exists r, revision, st'. split_and!; try done. rewrite Hn.
    by case_bool_decide; destruct (decide _); simpl; try lia.
  - destruct Hrun as [((Hc & _) & _ & _ & Hn & _) Hwhy]. done.
Qed.

(** C20: a removal that is answered with a result has committed a state in which no
    configured server has the identifier; when nothing outside the program fails, the
    server's record and every tunnel of it are gone, every other record is what it was,
    and the credential store holds no slot of the server.  A removal that fails leaves the
    committed state and the notifications as they were and no key of the credential store
    has been written or removed. *)
Theorem server_remove_exact `{AsioAddressLaws} `{SqliteMessages} `{ControlEnvironment} {S}
    `{CredentialStoreLaws S} p st (c : Control S) :
  entropy_wf c -> at_rest st (state_db c) -> valid_state st -> references_ok st (credentials c) ->
  match server_remove p c with
  | (Ok _, c') =>
      exists r st', (identifier ← identifier_param p; resolve_server_spec identifier st) = Ok r /\
        committed (state_db c') = encode st' /\ notified c' = (notified c + 1)%nat /\
        (forall r', str (sr_id r') = str (sr_id r) -> ~ kept_server st' r') /\
        (undisturbed_run c ->
           st_servers st' = delete (str (sr_id r)) (st_servers st) /\
           (forall id t, st_tunnels st' !! id = Some t <->
              st_tunnels st !! id = Some t /\ str (tr_server_id t) <> str (sr_id r)) /\
           forall kind key, slot_of (sr_id r) kind key -> visible (credentials c') !! key = None)
  | (Err e, c') =>
      committed (state_db c') = encode st /\ notified c' = notified c /\
      (forall key, undisturbed key (credentials c) (credentials c')) /\
      (undisturbed_run c -> remove_refusal p st e)
  end.
Proof.
  intros He Hr Hst Hok.
  pose proof (server_remove_runs p st _ _ c (consistent_ready c st Hr Hst Hok He)) as Hrun.
  pose proof (server_remove_cleanly p c) as Hquiet.
  unfold runs in Hrun, Hquiet. destruct (server_remove p c) as [[j|e] c'].
  - destruct Hrun as (r & Ereq & at_ & st1 & st' & Hrem & Her & ((Hc & _) & Hst' & _ & Hn & _) & Hcalm).
    destruct (remove_then_erase _ _ _ _ Hst Hrem) as (st2 & E2 & Hs2 & Ht2).
    exists r, st'. split; [done|split; [done|split; [by rewrite Hn; lia|split]]].
    + intros r1. by apply (removed_not_kept (sr_id r) at_ st st1).
    + intros Hcalm0. destruct (Hcalm Hcalm0) as [E Hclean]. rewrite E2 in E. injection E as <-.
      split; [done|split; [done|]]. intros k key. apply Hclean. destruct k; set_solver.
  - destruct Hrun as [((Hc & _) & _ & _ & Hn & _) Hwhy]. done.
Qed.

(** ** Witnesses *)

#[local] Existing Instance sample_json.

(** A document with the server there is, at another port, a new one and a tunnel of it. *)
Definition sample_document : Json :=
  json_object [
    ("format_version", JUnsigned 1);
    ("servers", JArray [
       sample_params [("endpoint", "edge.example:8443"); ("name", "edge")];
       sample_params [("endpoint", "backup.example:443"); ("name", "backup")]]);
    ("tunnels", JArray [
       json_object [("name", JString (bs "db")); ("server", JString (bs "backup"));
                    ("protocol", JString (bs "tcp")); ("local_port", JUnsigned 5432);
                    ("remote_port", JUnsigned 15432)]])]%string.

Definition sample_config_text : bytes := default [] (json_dump sample_document).

(** Every file holds the text. *)
Definition files_with (text : bytes) : FileSystem := {|
  open_file := fun _ => inl (mkOpenedFile (Some (mkFileStatus 0x8180 1 (Zlen text) 1000))
                               [read_bytes text]);
  effective_user := 1000 |}.

Definition sample_files : FileSystem := files_with sample_config_text.
#[local] Existing Instance sample_files.

Lemma sample_config_read :
  read_file (lexically_normal (bs "/etc/minitun.json")) config_file = Ok sample_config_text.
Proof. vm_compute. reflexivity. Qed.

Lemma sample_config_parsed : parse_json sample_config_text = Ok sample_document.
Proof. vm_compute. reflexivity. Qed.

Definition sample_surroundings : Surroundings := mkSurroundings sample_environment sample_files.

Definition sample_requests : list (Surroundings * Request) :=
  [(sample_surroundings, mkRequest 1 sample_request_id (bs "config.apply")
      (sample_params [("path", "/etc/minitun.json")]));
   (sample_surroundings, mkRequest 1 sample_request_id (bs "server.remove")
      (sample_params [("identifier", "edge")]))]%string.

(** The identifier the random source gives is not in the table of servers. *)
Lemma unclashing_tables {S} (c : Control S) st :
  at_rest st (state_db c) ->
  (forall m i, Id_generate (entropy_ c m) server = Ok i -> Database.servers (committed (state_db c)) !! str i = None) ->
  unclashing st c.
Proof.
  intros (Hc & _) Hnone m i Hi r [Hm _] E. specialize (Hnone m i Hi). rewrite Hc in Hnone. simpl in Hnone.
  rewrite lookup_fmap, <- E, Hm in Hnone. done.
Qed.
Lemma sample_unclashing st : at_rest st (state_db sample_control) -> unclashing st sample_control.
Proof.
  intros Hr. apply unclashing_tables; [done|]. intros [|[|m]] i; simpl; intros Hi; [..|done];
    injection Hi as <-; vm_compute; reflexivity.
Qed.

Lemma sample_control_undisturbed : undisturbed_run sample_control.
Proof.
  split; [by apply Forall_nil|]. split; [done|]. split; [done|]. split; [by apply Forall_nil|].
  split; [simpl; lia|]. intros key row Hrow. simpl in Hrow.
  apply lookup_singleton_Some in Hrow as [_ <-]. by vm_compute.
Qed.

Lemma request_effect_witness :
  let login := mkRequest 1 sample_request_id (bs "server.login")
                 (sample_params [("identifier", "edge"); ("psk", "second")]%string) in
  exists st', committed (state_db (dispatch (service default_storage_limits) login sample_control).2)
              = encode st'.
Proof.
  intros login. pose proof (request_effect default_storage_limits login sample_control_state
    sample_control default_limits_wf sample_control_entropy sample_control_at_rest
    sample_control_valid sample_control_references (sample_unclashing _ sample_control_at_rest)) as W.
  destruct (dispatch _ _ _) as [response c'] eqn:E. cbn [snd]. destruct (payload response) eqn:Er.
  - destruct W as (st' & Hc & _). by exists st'.
  - apply (f_equal fst) in E. cbn [fst] in E. rewrite <- E in Er. vm_compute in Er. discriminate Er.
Defined.

Lemma config_apply_exact_witness :
  let c' := (config_apply default_storage_limits
               (sample_params [("path", "/etc/minitun.json")]%string) sample_control).2 in
  exists st' t r, committed (state_db c') = encode st' /\ valid_state st' /\
    kept_tunnel st' t /\ tr_name t = Some (bs "db") /\ port (tr_local_endpoint t) = 5432 /\
    kept_server st' r /\ tr_server_id t = sr_id r /\ names_server (bs "backup") r.
Proof.
  pose proof (config_apply_exact default_storage_limits
    (sample_params [("path", "/etc/minitun.json")]%string) sample_control_state
    sample_control default_limits_wf sample_control_entropy sample_control_at_rest
    sample_control_valid sample_control_references (sample_unclashing _ sample_control_at_rest)) as W.
  destruct (config_apply _ _ _) as [[j|e] c'] eqn:E.
  - destruct W as (path & prune & es & et & st' & Epar & (data & document & Hdata & Hdoc & Hent) & Hc & Hv & _ & Hconf & _).
    assert (path = bs "/etc/minitun.json") as ->.
    { vm_compute in Epar. by injection Epar as <- _. }
    rewrite sample_config_read in Hdata. injection Hdata as <-.
    rewrite sample_config_parsed in Hdoc. injection Hdoc as <-. injection Hent as _ <-.
    pose proof (configured_tunnels _ _ _ _ _ Hconf) as Ht. apply Forall_cons in Ht as [(t & Hkt & e & He & Ht & r & Hkr & Hr & Hname) _].
    exists st', t, r. vm_compute in He. injection He as <-. destruct Ht as (_ & Hn & _ & _ & Hlocal & _).
    split; [exact Hc|]. split; [exact Hv|]. split; [exact Hkt|]. split; [exact Hn|].
    split; [revert Hlocal; generalize (tr_local_endpoint t); intros ep Hlocal; vm_compute in Hlocal;
      by injection Hlocal as <-|].
    split; [exact Hkr|]. split; [exact Hr|exact Hname].
  - apply (f_equal fst) in E. vm_compute in E. discriminate E.
Defined.

Lemma server_login_exact_witness :
  let c' := (server_login default_storage_limits
               (sample_params [("identifier", "edge"); ("psk", "second")]%string) sample_control).2 in
  visible (credentials c') !! (managed_server_credential_keys (sr_id sample_server) psk).2
    = Some (bs "second") /\
  visible (credentials c') !! sample_slot = None.
Proof.
  pose proof (server_login_exact default_storage_limits
    (sample_params [("identifier", "edge"); ("psk", "second")]%string) sample_control_state
    sample_control default_limits_wf sample_control_entropy sample_control_at_rest
    sample_control_valid sample_control_references) as W.
  destruct (server_login _ _ _) as [[j|e] c'].
  - destruct W as (r & secret & revision & u & Ereq & _ & _ & _ & _ & Hv & _ & Hold).
    assert (r = sample_control_server /\ secret = bs "second") as [-> ->].
    { vm_compute in Ereq. injection Ereq as Er Es _. by rewrite <- Er, <- Es. }
    split; [exact Hv|]. apply Hold; [apply sample_control_undisturbed|by left|].
    vm_compute. discriminate.
  - destruct W as (_ & _ & _ & _ & W). specialize (W sample_control_undisturbed). vm_compute in W. discriminate W.
Defined.

Lemma server_switch_exact_witness :
  let c' := (switch_server default_storage_limits ServerDesiredState.disabled
               (fun _ => ServerActualState.disabled)
               (sample_params [("identifier", "edge")]%string) sample_control).2 in
  notified c' = 1%nat.
Proof.
  pose proof (server_switch_exact default_storage_limits ServerDesiredState.disabled
    (fun _ => ServerActualState.disabled) (sample_params [("identifier", "edge")]%string)
    sample_control_state sample_control default_limits_wf sample_control_entropy
    sample_control_at_rest sample_control_valid sample_control_references) as W.
  destruct (switch_server _ _ _ _ _) as [[j|e] c'].
  - destruct W as (r & revision & st' & Ereq & _ & _ & _ & Hn).
    assert (r = sample_control_server) as ->.
    { vm_compute in Ereq. injection Ereq as Er _. by rewrite <- Er. }
    exact Hn.
  - destruct W as (_ & _ & W). specialize (W sample_control_undisturbed). vm_compute in W. discriminate W.
Defined.

Lemma server_remove_exact_witness :
  let c' := (server_remove (sample_params [("identifier", "edge")]%string) sample_control).2 in
  visible (credentials c') !! sample_slot = None /\ notified c' = 1%nat.
Proof.
  pose proof (server_remove_exact (sample_params [("identifier", "edge")]%string)
    sample_control_state sample_control sample_control_entropy
    sample_control_at_rest sample_control_valid sample_control_references) as W.
  destruct (server_remove _ _) as [[j|e] c'] eqn:E.
  - destruct W as (r & st' & Ereq & _ & Hn & _ & Hcalm).
    assert (r = sample_control_server) as ->.
    { vm_compute in Ereq. injection Ereq as Er. by rewrite <- Er. }
    destruct (Hcalm sample_control_undisturbed) as (_ & _ & Hslots).
    split; [by apply (Hslots psk); left|exact Hn].
  - apply (f_equal fst) in E. vm_compute in E. discriminate E.
Defined.

(** The removal time takes the server's own update time into account and not those of its
    tunnels: after the clock has been set back, a server whose tunnel was updated later
    cannot be removed until the clock has caught up. *)
Lemma server_remove_refused_after_clock_step :
  let c := mkControl (state_db sample_control) (credentials sample_control)
             (fun _ => 2100) (entropy_ sample_control) 0 in
  (server_remove (sample_params [("identifier", "edge")]%string) c).1 =
  failure invalid_argument "server removal time precedes a child tunnel update".
Proof. vm_compute. reflexivity. Qed.

(** The servers of [sample_document] with their names exchanged. *)
Definition exchanged_document : Json :=
  json_object [
    ("format_version", JUnsigned 1);
    ("servers", JArray [
       sample_params [("endpoint", "edge.example:8443"); ("id", "srv_00000000000000000000000000000001");
                      ("name", "backup")];
       sample_params [("endpoint", "backup.example:443"); ("id", "srv_01010101010101010101010101010101");
                      ("name", "edge")]]);
    ("tunnels", JArray [])]%string.

(** The plan for a document that exchanges the names of two servers is accepted, but its
    application fails: the servers are updated one after the other, and the name the first
    one is to have still belongs to the second. *)
Lemma exchanged_names_refused :
  let p := sample_params [("path", "/etc/minitun.json")]%string in
  let c := (config_apply default_storage_limits p sample_control).2 in
  let files := files_with (default [] (json_dump exchanged_document)) in
  is_ok (config_plan default_storage_limits p c).1 = true /\
  (config_apply default_storage_limits p c).1 =
    failure already_exists "update server record: constraint failed".
Proof. by vm_compute. Qed.
