(* ===== verification/ServerManager.v ===== *)
(** * The server manager (src/daemon/server_manager.cpp)

    [ServerManager::Impl] keeps one [ServerSession] for every enabled server with a
    credential: a reconciliation pass compares the sessions with the records of the state
    database, starts, supersedes and notifies sessions, and erases what has been removed.
    The sessions run on their own strands; what they do to the shared stores is modelled
    here as operations of a session: the begin and the end of an attempt, the persistence of
    the server's state, and the calls of the tunnel reconciler with the generation of the
    current attempt.

    A session is an object of a store, because a superseded one goes on existing until its
    coroutine has ended.  Logging and metrics are left out. *)
From stdpp Require Import sorting.
From S2P Require Import Prelude Common Ids Text Endpoint Models Rows Database Repository StorageSpec StorageRun Storage Reconciler Json IpcProtocol Credentials Control.

(** ** Sessions *)

Module TerminalState.
Inductive t : Set := running | authentication_failed | stopped.
#[global] Instance t_eq_decision : EqDecision t.
Proof. solve_decision. Defined.
End TerminalState.

Module AttemptKind.
Inductive t : Set := disconnected | authentication_failed | stopped.
#[global] Instance t_eq_decision : EqDecision t.
Proof. solve_decision. Defined.
End AttemptKind.

(** The fields of [ServerSession] the manager and the shared stores see. *)
Record ServerSession : Set := mkServerSession {
  server_ : ServerRecord;
  config_revision_ : Z;
  terminal_state_ : TerminalState.t;
  persistence_allowed_ : bool;
  attempt_generation_ : Z;
  stop_requested : bool;
  reconcile_requested_ : bool
}.

Definition ServerSession_new (record : ServerRecord) : ServerSession :=
  mkServerSession record (sr_config_revision record) TerminalState.running true 0 false false.

(** [matches]. *)
Definition matches (s : ServerSession) (record : ServerRecord) : bool :=
  bool_decide (sr_endpoint (server_ s) = sr_endpoint record)
  && bool_decide (sr_credential_ref (server_ s) = sr_credential_ref record)
  && bool_decide (sr_tls_server_name (server_ s) = sr_tls_server_name record)
  && bool_decide (sr_ca_credential_ref (server_ s) = sr_ca_credential_ref record)
  && bool_decide (sr_client_certificate_ref (server_ s) = sr_client_certificate_ref record)
  && bool_decide (sr_client_private_key_ref (server_ s) = sr_client_private_key_ref record).

(** [refresh_config_revision]. *)
Definition refresh_config_revision (revision : Z) (s : ServerSession) : ServerSession :=
  mkServerSession (server_ s) revision (terminal_state_ s) (persistence_allowed_ s)
    (attempt_generation_ s) (stop_requested s) (reconcile_requested_ s).

(** [terminal_state_.store]. *)
Definition set_terminal_state (t : TerminalState.t) (s : ServerSession) : ServerSession :=
  mkServerSession (server_ s) (config_revision_ s) t (persistence_allowed_ s)
    (attempt_generation_ s) (stop_requested s) (reconcile_requested_ s).

Definition set_attempt_generation (g : Z) (s : ServerSession) : ServerSession :=
  mkServerSession (server_ s) (config_revision_ s) (terminal_state_ s) (persistence_allowed_ s) g
    (stop_requested s) (reconcile_requested_ s).

(** [stop]: [begin_stop] is dispatched to the strand of the session. *)
Definition session_stop (s : ServerSession) : ServerSession :=
  mkServerSession (server_ s) (config_revision_ s) (terminal_state_ s) (persistence_allowed_ s)
    (attempt_generation_ s) true (reconcile_requested_ s).

(** The part of [supersede] that follows the invalidation of the generation. *)
Definition forbid_persistence (s : ServerSession) : ServerSession :=
  mkServerSession (server_ s) (config_revision_ s) (terminal_state_ s) false
    (attempt_generation_ s) true (reconcile_requested_ s).

(** [notify_changed]; a session that is stopping ignores it. *)
Definition session_notify (s : ServerSession) : ServerSession :=
  mkServerSession (server_ s) (config_revision_ s) (terminal_state_ s) (persistence_allowed_ s)
    (attempt_generation_ s) (stop_requested s) (negb (stop_requested s) || reconcile_requested_ s).

(** ** The manager *)

(** [make_client_tls_context] with a path of the default CA, and the order in which the
    table of sessions is walked. *)
Class ManagerEnvironment := {
  session_tls_context : bytes -> bytes -> bytes -> bytes -> Result unit;
  walk_sessions : gmap bytes nat -> list (bytes * nat)
}.

(** [mg_control] has the stores the manager shares with the control service, and
    [mg_generations] is the table of the [TunnelReconciler]; [mg_timer] tells whether the
    timer of the reconciliation is armed. *)
Record Manager (S : Type) : Type := mkManager {
  mg_control : Control S;
  mg_generations : gmap bytes Z;
  mg_objects : gmap nat ServerSession;
  mg_next : nat;
  sessions_ : gmap bytes nat;
  session_count_ : Z;
  running_ : bool;
  mg_timer : bool
}.
Arguments mkManager {S} _ _ _ _ _ _ _ _.
Arguments mg_control {S} _.
Arguments mg_generations {S} _.
Arguments mg_objects {S} _.
Arguments mg_next {S} _.
Arguments sessions_ {S} _.
Arguments session_count_ {S} _.
Arguments running_ {S} _.
Arguments mg_timer {S} _.

Definition Manager_new {S} (c : Control S) : Manager S := mkManager c ∅ ∅ 0 ∅ 0 false false.

Section Manager.
Context `{AsioAddress} `{SqliteMessages} `{ManagerEnvironment} {S : Type} `{CredentialStore S}.
Variable limits : StorageLimits.
Variable ca_certificate_path : bytes.
Abbreviation Manager := (Manager S).

(** Work on the shared stores. *)
Definition on_control {A} (m : Action (Control S) A) : Action Manager A := fun g =>
  let (r, c) := m (mg_control g) in
  (r, mkManager c (mg_generations g) (mg_objects g) (mg_next g) (sessions_ g) (session_count_ g)
        (running_ g) (mg_timer g)).

(** A call of the tunnel reconciler, which works on the state database; it is given the
    reading of the clock. *)
Definition with_reconciler {A} (m : Action Reconciler A) : Action Manager A := fun g =>
  let (r, t) := m (mkReconciler (mg_generations g) (state_db (mg_control g))) in
  (r, mkManager (set_db (repository_ t) (mg_control g)) (generations_ t) (mg_objects g)
        (mg_next g) (sessions_ g) (session_count_ g) (running_ g) (mg_timer g)).

Definition on_reconciler {A} (m : Z -> Action Reconciler A) : Action Manager A :=
  now ← on_control unix_milliseconds_now;
  with_reconciler (m now).

Definition on_session (i : nat) (f : ServerSession -> ServerSession) : Action Manager unit := fun g =>
  (success, mkManager (mg_control g) (mg_generations g) (alter f i (mg_objects g)) (mg_next g)
              (sessions_ g) (session_count_ g) (running_ g) (mg_timer g)).

Definition set_sessions (l : gmap bytes nat) : Action Manager unit := fun g =>
  (success, mkManager (mg_control g) (mg_generations g) (mg_objects g) (mg_next g) l
              (session_count_ g) (running_ g) (mg_timer g)).

Definition count_sessions : Action Manager unit := fun g =>
  (success, mkManager (mg_control g) (mg_generations g) (mg_objects g) (mg_next g) (sessions_ g)
              (Z.of_nat (size (sessions_ g))) (running_ g) (mg_timer g)).

(** [std::make_shared<ServerSession>], [sessions_.emplace] and [start]. *)
Definition start_session (id : bytes) (record : ServerRecord) : Action Manager unit := fun g =>
  (success, mkManager (mg_control g) (mg_generations g)
              (<[mg_next g := ServerSession_new record]> (mg_objects g)) (Datatypes.S (mg_next g))
              (<[id := mg_next g]> (sessions_ g)) (session_count_ g) (running_ g) (mg_timer g)).

(** [schedule_reconcile]. *)
Definition schedule_reconcile : Action Manager unit := fun g =>
  (success, mkManager (mg_control g) (mg_generations g) (mg_objects g) (mg_next g) (sessions_ g)
              (session_count_ g) (running_ g) (running_ g || mg_timer g)).

(** [ServerSession::supersede]; a failed invalidation is logged. *)
Definition supersede (i : nat) : Action Manager unit :=
  object ← ST_get (fun g => mg_objects g !! i);
  match object with
  | None => mret tt
  | Some s =>
      _ ← attempt (on_reconciler (invalidate (sr_id (server_ s)) None));
      on_session i forbid_persistence
  end.

(** [existing->second->supersede(); sessions_.erase(existing)], when there is a session. *)
Definition drop_session (id : bytes) : Action Manager unit :=
  existing ← ST_get (fun g => sessions_ g !! id);
  match existing with
  | None => mret tt
  | Some i =>
      _ ← supersede i;
      sessions ← ST_get sessions_;
      set_sessions (delete id sessions)
  end.

(** A credential that is referred to, or none. *)
Definition load_material (reference : option bytes) (what : string) : Action Manager bytes :=
  match reference with
  | None => mret []
  | Some key =>
      loaded ← attempt (on_control (on_store (credential_get key)));
      match loaded with
      | Ok value => mret value
      | Err _ => fail_with tls_error what
      end
  end.

(** [make_tls_context]. *)
Definition make_tls_context (record : ServerRecord) : Action Manager unit :=
  ca ← load_material (sr_ca_credential_ref record) "configured server CA is unavailable";
  certificate ← load_material (sr_client_certificate_ref record)
                  "configured client certificate is unavailable";
  private_key ← load_material (sr_client_private_key_ref record)
                  "configured client private key is unavailable";
  ST_lift (session_tls_context (if bool_decide (ca = []) then ca_certificate_path else []) ca
             certificate private_key).

Fixpoint erase_removed (l : list TunnelRecord) : Action Manager unit :=
  match l with
  | [] => mret tt
  | t :: l =>
      _ ← (if bool_decide (tr_desired_state t = TunnelDesiredState.removed)
           then attempt (on_control (on_db (TunnelRepository.erase (tr_id t))))
           else mret success);
      erase_removed l
  end.

(** [purge_removed_tunnels]. *)
Definition purge_removed_tunnels (record : ServerRecord) : Action Manager unit :=
  listed ← attempt (on_control (list_by_server limits (sr_id record)));
  match listed with
  | Err _ => mret tt
  | Ok l => erase_removed l
  end.

(** [purge_removed_server]. *)
Definition purge_removed_server (record : ServerRecord) : Action Manager bool :=
  removed ← attempt (on_control (on_store (cleanup_all_server_credentials record)));
  match removed with
  | Err _ => mret false
  | Ok _ =>
      erased ← attempt (on_control (on_db (ServerRepository.erase (sr_id record))));
      match erased with
      | Err e => mret (bool_decide (code e = not_found))
      | Ok _ => mret true
      end
  end.

(** A session is made for an enabled server with a credential. *)
Definition replace_session (record : ServerRecord) (configuration_changed : bool) : Action Manager unit :=
  let id := str (sr_id record) in
  _ ← drop_session id;
  if configuration_changed
     || negb (bool_decide (sr_actual_state record = ServerActualState.not_authenticated)) then
    tls ← attempt (make_tls_context record);
    match tls with
    | Err _ => mret tt
    | Ok _ => start_session id record
    end
  else mret tt.

(** The body of the loop over the records; the result tells whether the identifier is
    inserted into [retained]. *)
Definition reconcile_record (notify_sessions : bool) (record : ServerRecord) : Action Manager bool :=
  let id := str (sr_id record) in
  if bool_decide (sr_desired_state record = ServerDesiredState.removed) then
    _ ← drop_session id;
    _ ← purge_removed_server record;
    mret false
  else
    _ ← purge_removed_tunnels record;
    if negb (bool_decide (sr_desired_state record = ServerDesiredState.enabled))
       || bool_decide (sr_credential_ref record = None) then
      _ ← drop_session id; mret false
    else
      existing ← ST_get (fun g => i ← sessions_ g !! id; s ← mg_objects g !! i; Some (i, s));
      _ ← match existing with
          | None => replace_session record false
          | Some (i, s) =>
              let configuration_changed := negb (matches s record) in
              let restart_authentication :=
                bool_decide (terminal_state_ s = TerminalState.authentication_failed)
                && bool_decide (sr_actual_state record = ServerActualState.disconnected) in
              _ ← (if configuration_changed then mret tt
                   else on_session i (refresh_config_revision (sr_config_revision record)));
              if configuration_changed || restart_authentication
              then replace_session record configuration_changed
              else if notify_sessions then on_session i session_notify
              else mret tt
          end;
      mret true.

Fixpoint reconcile_records (notify_sessions : bool) (l : list ServerRecord) (retained : gset bytes) :
  Action Manager (gset bytes) :=
  match l with
  | [] => mret retained
  | record :: l =>
      kept ← reconcile_record notify_sessions record;
      reconcile_records notify_sessions l
        (if kept : bool then {[str (sr_id record)]} ∪ retained else retained)
  end.

(** The loop over the sessions that are not retained. *)
Fixpoint drop_unretained (retained : gset bytes) (l : list (bytes * nat)) : Action Manager unit :=
  match l with
  | [] => mret tt
  | (id, _) :: l =>
      _ ← (if bool_decide (id ∈ retained) then mret tt else drop_session id);
      drop_unretained retained l
  end.

(** [reconcile]. *)
Definition reconcile (notify_sessions : bool) : Action Manager unit :=
  running ← ST_get running_;
  if negb running then mret tt
  else
    records ← attempt (on_control (on_db (ServerRepository.list_ (max_servers limits))));
    match records with
    | Err _ => schedule_reconcile
    | Ok records =>
        retained ← reconcile_records notify_sessions records ∅;
        sessions ← ST_get sessions_;
        _ ← drop_unretained retained (walk_sessions sessions);
        _ ← count_sessions;
        schedule_reconcile
    end.

Definition set_running (running timer : bool) : Action Manager unit := fun g =>
  (success, mkManager (mg_control g) (mg_generations g) (mg_objects g) (mg_next g) (sessions_ g)
              (session_count_ g) running timer).

(** [start]. *)
Definition manager_start : Action Manager unit :=
  running ← ST_get running_;
  timer ← ST_get mg_timer;
  if running : bool then fail_with already_exists "server manager is already running"
  else _ ← set_running true timer; reconcile false.

Fixpoint stop_all (l : list (bytes * nat)) : Action Manager unit :=
  match l with
  | [] => mret tt
  | (_, i) :: l => _ ← on_session i session_stop; stop_all l
  end.

(** [stop]. *)
Definition manager_stop : Action Manager unit :=
  running ← ST_get running_;
  if negb running then mret tt
  else
    _ ← set_running false false;
    sessions ← ST_get sessions_;
    _ ← set_sessions ∅;
    _ ← count_sessions;
    stop_all (walk_sessions sessions).

(** [notify_changed]. *)
Definition notify_changed : Action Manager unit :=
  running ← ST_get running_;
  if running : bool then reconcile true else mret tt.

Fixpoint supersede_all (l : list (bytes * nat)) : Action Manager unit :=
  match l with
  | [] => mret tt
  | (_, i) :: l => _ ← supersede i; supersede_all l
  end.

(** [reload]. *)
Definition manager_reload : Action Manager unit :=
  running ← ST_get running_;
  if negb running then mret tt
  else
    sessions ← ST_get sessions_;
    _ ← supersede_all (walk_sessions sessions);
    _ ← set_sessions ∅;
    _ ← count_sessions;
    reconcile true.

(** The timer of the reconciliation expires. *)
Definition reconcile_timer_expired : Action Manager unit :=
  armed ← ST_get mg_timer;
  running ← ST_get running_;
  if armed && running then _ ← set_running running false; reconcile false else mret tt.

(** ** What a session does to the shared stores *)

(** The fields [persist_state] writes. *)
Definition persisted_server (state : ServerActualState.t) (error : option Error) (attempt : Z)
    (latency_ms : option Z) (remote_server_id : bytes) (updated_at : Z) (r : ServerRecord) : ServerRecord :=
  mkServerRecord (sr_id r) (sr_name r) (sr_endpoint r) (sr_credential_ref r)
    (if bool_decide (remote_server_id = []) then sr_remote_server_id r else Some remote_server_id)
    (sr_desired_state r) state (code <$> error) (message <$> error) attempt latency_ms
    (sr_created_at r) updated_at (sr_tls_server_name r) (sr_ca_credential_ref r)
    (sr_client_certificate_ref r) (sr_client_private_key_ref r) (sr_config_revision r)
    (sr_managed_by_config r).

(** The transaction of [persist_state]. *)
Definition persist_in_transaction (s : ServerSession) (state : ServerActualState.t)
    (error : option Error) (attempt : Z) (latency_ms : option Z) (remote_server_id : bytes) :
  Action (Control S) unit :=
  current ← Prelude.attempt (on_db (ServerRepository.get_by_id (sr_id (server_ s))));
  match current with
  | Err e => _ ← Prelude.attempt (on_db rollback); ST_lift (Err e)
  | Ok r =>
      if negb (bool_decide (sr_desired_state r = ServerDesiredState.enabled))
         || negb (sr_config_revision r =? config_revision_ s) then
        _ ← Prelude.attempt (on_db rollback); mret tt
      else
        updated_at ← update_time (sr_updated_at r);
        updated ← Prelude.attempt (on_db (ServerRepository.update_in
          (persisted_server state error attempt latency_ms remote_server_id updated_at r)));
        match updated with
        | Err e => _ ← Prelude.attempt (on_db rollback); ST_lift (Err e)
        | Ok _ => on_db commit
        end
  end.

(** [persist_state]. *)
Definition persist_state (i : nat) (state : ServerActualState.t) (error : option Error)
    (attempt : Z) (latency_ms : option Z) (remote_server_id : bytes) : Action Manager unit :=
  object ← ST_get (fun g => mg_objects g !! i);
  match object with
  | None => mret tt
  | Some s =>
      if negb (persistence_allowed_ s) then mret tt
      else on_control (scoped (persist_in_transaction s state error attempt latency_ms remote_server_id))
  end.

(** The begin of an attempt in [run]. *)
Definition begin_attempt (i : nat) : Action Manager unit :=
  object ← ST_get (fun g => mg_objects g !! i);
  match object with
  | None => mret tt
  | Some s =>
      generation ← attempt (on_reconciler (begin_generation (sr_id (server_ s))));
      match generation with
      | Err _ => on_session i (set_terminal_state TerminalState.stopped)
      | Ok generation =>
          on_session i (fun s => set_terminal_state TerminalState.running (set_attempt_generation generation s))
      end
  end.

(** What [run] does with the result of an attempt: [stopping] is [stopping_].  The state
    that is then persisted goes through [persist_state]. *)
Definition finished_attempt (stopping : bool) (kind : AttemptKind.t) (s : ServerSession) : ServerSession :=
  let s := set_attempt_generation 0 s in
  if stopping || bool_decide (kind = AttemptKind.stopped) then set_terminal_state TerminalState.stopped s
  else if bool_decide (kind = AttemptKind.authentication_failed)
  then set_terminal_state TerminalState.authentication_failed s
  else s.

Definition finish_attempt (i : nat) (stopping : bool) (kind : AttemptKind.t) : Action Manager unit :=
  on_session i (finished_attempt stopping kind).

(** [run] ends: after a wait that was cut short, or with an exception. *)
Definition run_ended (i : nat) : Action Manager unit :=
  on_session i (set_terminal_state TerminalState.stopped).

(** [persist_tunnel_state]. *)
Definition persist_tunnel_state (i : nat) (tunnel_id : Id) (expected_revision : Z)
    (state : TunnelActualState.t) (error : option Error) (synchronized : bool) : Action Manager unit :=
  object ← ST_get (fun g => mg_objects g !! i);
  match object with
  | None => mret tt
  | Some s =>
      _ ← on_reconciler (transition (sr_id (server_ s)) tunnel_id (attempt_generation_ s)
                           expected_revision state error synchronized);
      mret tt
  end.

(** [mark_tunnels_pending]. *)
Definition mark_tunnels_pending (i : nat) (error : option Error) : Action Manager unit :=
  object ← ST_get (fun g => mg_objects g !! i);
  match object with
  | None => mret tt
  | Some s => on_reconciler (end_generation (sr_id (server_ s)) (attempt_generation_ s) error)
  end.

(** [erase_tunnel]. *)
Definition session_erase_tunnel (tunnel_id : Id) : Action Manager unit :=
  on_control (on_db (TunnelRepository.erase tunnel_id)).
End Manager.
