(* ===== verification/ManagerRun.v ===== *)
(** * The stores under the server manager

    What the server manager and its sessions do to the state database and the credential
    store, as rules for the model of [ServerManager]: a reconciliation pass leaves what is
    configured as it is, a session writes runtime fields only. *)
From stdpp Require Import sorting.
From S2P Require Import Prelude Common Ids Text Endpoint Models Rows Database Repository StorageSpec StorageRun Storage Reconciler Json IpcProtocol Credentials Control ControlRun ControlHandlers ControlServers ControlSagas ConfigFile Config ConfigRun ServerManager.

(** ** What is configured *)

(** The tunnel with another runtime state. *)
Definition same_tunnel (t t' : TunnelRecord) : Prop :=
  exists a ec em u s, t' = with_tunnel_runtime (tr_desired_state t) a ec em u s t.

(** The configuration is upheld: the servers that are not removed are the same, up to their
    runtime state so are the tunnels, and only removed tunnels are gone. *)
Definition upheld (st st' : State) : Prop :=
  (forall r, kept_server st' r <-> kept_server st r) /\
  (forall i t', st_tunnels st' !! i = Some t' ->
     exists t, st_tunnels st !! i = Some t /\ same_tunnel t t') /\
  (forall i t, st_tunnels st !! i = Some t -> tr_desired_state t <> TunnelDesiredState.removed ->
     is_Some (st_tunnels st' !! i)) /\
  st_identity st' = st_identity st.

Lemma same_tunnel_refl t : same_tunnel t t.
Proof.
  exists (tr_actual_state t), (tr_last_error_code t), (tr_last_error_message t), (tr_updated_at t),
    (tr_last_synced_at t). by destruct t.
Qed.

Lemma same_tunnel_trans t1 t2 t3 : same_tunnel t1 t2 -> same_tunnel t2 t3 -> same_tunnel t1 t3.
Proof. intros (?&?&?&?&?&->) (?&?&?&?&?&->). by eexists _, _, _, _, _. Qed.

Lemma same_tunnel_desired t t' : same_tunnel t t' -> tr_desired_state t' = tr_desired_state t.
Proof. by intros (?&?&?&?&?&->). Qed.

#[global] Instance upheld_preorder : PreOrder upheld.
Proof.
  split.
  - intros st. split_and!; [done| |by eauto|done]. intros i t Hm. exists t. split; [done|apply same_tunnel_refl].
  - intros st1 st2 st3 (Hk & Ht & He & Hi) (Hk' & Ht' & He' & Hi'). split_and!; [| | |congruence].
    + intros r. by rewrite Hk', Hk.
    + intros i t3 (t2 & Hm2 & H23)%Ht'. destruct (Ht _ _ Hm2) as (t1 & Hm1 & H12). exists t1.
      split; [done|by eapply same_tunnel_trans].
    + intros i t Hm Hd. destruct (He i t Hm Hd) as [t2 Hm2]. apply (He' i t2 Hm2).
      destruct (Ht _ _ Hm2) as (t1 & Hm1 & ->%same_tunnel_desired). congruence.
Qed.

Lemma upheld_pending id e now st a st' :
  mark_active_pending_spec id e now st = Ok (a, st') -> upheld st st'.
Proof.
  unfold mark_active_pending_spec. intros [= _ <-]. split_and!; try done; simpl.
  - intros i t'. rewrite lookup_fmap. destruct (st_tunnels st !! i) as [t|]; [|done].
    intros [= <-]. exists t. split; [done|]. destruct (active_of _ t); [|apply same_tunnel_refl].
    by eexists _, _, _, _, _.
  - intros i t Hm _. rewrite lookup_fmap, Hm. by eexists.
Qed.

Lemma upheld_erase_tunnel id st a st' : erase_tunnel_spec id st = Ok (a, st') -> upheld st st'.
Proof.
  unfold erase_tunnel_spec. destruct (negb _); [done|]. destruct (find_tunnel id st) as [old|] eqn:Hf; [|done].
  simpl. destruct (tombstone old) eqn:Htomb; [|done]. intros [= _ <-]. split_and!; try done; simpl.
  - intros i t [_ Hm]%lookup_delete_Some. exists t. split; [done|apply same_tunnel_refl].
  - intros i t Hm Hd. apply find_tunnel_lookup in Hf. destruct (decide (str id = i)) as [<-|Hne].
    + assert (t = old) as -> by congruence. by apply andb_true_iff in Htomb as [?%bool_decide_eq_true _].
    + rewrite lookup_delete_ne by done. by eexists.
Qed.

Lemma upheld_erase_server `{AsioAddress} id st a st' :
  valid_state st -> erase_server_spec id st = Ok (a, st') -> upheld st st'.
Proof.
  intros Hst. unfold erase_server_spec. destruct (negb _); [done|].
  destruct (find_server id st) as [old|] eqn:Hf; [|done]. simpl.
  destruct (_ || _) eqn:Hold; [done|]. destruct (has_child _ st) eqn:Hch; [done|]. intros [= _ <-].
  apply orb_false_iff in Hold as [Hold%negb_false_iff%bool_decide_eq_true _].
  apply find_server_lookup in Hf. split_and!; try done; simpl.
  - intros r. unfold kept_server. simpl. split; [by intros [[_ ?]%lookup_delete_Some ?]|].
    intros [Hm Hd]. split; [|done]. rewrite lookup_delete_ne; [done|]. intros E. rewrite <- E in Hm. congruence.
  - intros i t Hm%map_lookup_filter_Some. exists t. split; [by destruct Hm|apply same_tunnel_refl].
  - intros i t Hm Hd. exists t. apply map_lookup_filter_Some. split; [done|]. intros E.
    pose proof (existsb_map_to_list_false (fun _ r => live_child (str id) r) _ i t Hch Hm) as Hl.
    unfold live_child in Hl. rewrite bool_decide_true in Hl by done. simpl in Hl.
    apply negb_false_iff, andb_true_iff in Hl as [?%bool_decide_eq_true _]. done.
Qed.

(** ** Rules for the shared stores *)

Section Stores.
Context `{AsioAddressLaws} `{SqliteMessages} {S : Type} `{CredentialStoreLaws S}.
Variables (n : nat) (calm0 : Prop).
Implicit Types (c : Control S).

Lemma ready_join st c :
  (calm0 -> ready calm0 st n c) -> ready False st n c -> ready calm0 st n c.
Proof.
  intros Hc (Hr & Hst & Hok & Hn & [He _] & _). split_and!; try done.
  - split; [done|]. intros Hc0. by destruct (Hc Hc0) as (_ & _ & _ & _ & [_ Hs] & _); apply Hs.
  - intros Hc0. by destruct (Hc Hc0) as (_ & _ & _ & _ & _ & Hp); apply Hp.
Qed.

(** An operation of a repository with a transaction of its own. *)
Lemma committed_ready {A} (m : Action Database A) (spec : Result (A * State)) st c
    (Q : A -> Control S -> Prop) (R : Error -> Control S -> Prop) :
  ready calm0 st n c -> steady m -> outcome_of m (encode st) = encode_result spec ->
  (forall a st', spec = Ok (a, st') -> valid_state st' /\ references_ok st' (credentials c)) ->
  (forall a st' c', spec = Ok (a, st') -> ready calm0 st' n c' -> credentials c' = credentials c ->
     Q a c') ->
  (forall e c', (calm0 -> spec = Err e) -> ready calm0 st n c' -> credentials c' = credentials c ->
     R e c') ->
  runs (on_db (with_transaction (and_commit m))) c Q R.
Proof.
  intros Hr Hm Ho Hv HQ HR. eapply committing_ready; try done.
  intros e c' Hs Hc Hf Hcr. apply HR; [done| |done]. by apply ready_join.
Qed.

Lemma pending_cases id e now db :
  TunnelRepository.mark_active_pending_by_server id e now db =
  match pending_arguments id e now with
  | Ok _ => with_transaction (and_commit (pending_body id e now)) db
  | Err e' => (Err e', db)
  end.
Proof.
  unfold TunnelRepository.mark_active_pending_by_server, pending_arguments, mbind, ST_bind, ST_lift.
  destruct (_ || _); [done|]. destruct e as [e|]; [|done]. destruct (negb _); [done|].
  by destruct (validate_text _ _ _ _).
Qed.

(** [mark_active_pending_by_server]. *)
Lemma pending_ready id e now st c (Q : Z -> Control S -> Prop) (R : Error -> Control S -> Prop) :
  ready calm0 st n c ->
  (forall a st' c', mark_active_pending_spec id e now st = Ok (a, st') -> ready calm0 st' n c' ->
     credentials c' = credentials c -> Q a c') ->
  (forall e' c', ready calm0 st n c' -> credentials c' = credentials c -> R e' c') ->
  runs (on_db (TunnelRepository.mark_active_pending_by_server id e now)) c Q R.
Proof.
  intros Hr HQ HR. pose proof Hr as (_ & Hst & Hok & _). unfold runs, on_db. rewrite pending_cases.
  destruct (pending_arguments id e now) as [[]|e'] eqn:Ha; [|by destruct c; apply HR].
  apply (committed_ready _ (mark_active_pending_spec id e now st) st); try done.
  - unfold pending_body. steady.
  - apply pending_outcome; [done|]. by eapply pending_arguments_error.
  - intros a st' Hs. split; [by eapply pending_valid|]. apply (references_tunnels st); [|done].
    unfold mark_active_pending_spec in Hs. by injection Hs as _ <-.
  - intros e' c' _. apply HR.
Qed.

(** The two erasures. *)
Lemma erase_tunnel_ready id st c (Q : unit -> Control S -> Prop) (R : Error -> Control S -> Prop) :
  ready calm0 st n c ->
  (forall st' c', erase_tunnel_spec id st = Ok (tt, st') -> ready calm0 st' n c' ->
     credentials c' = credentials c -> Q tt c') ->
  (forall e c', (calm0 -> erase_tunnel_spec id st = Err e) -> ready calm0 st n c' ->
     credentials c' = credentials c -> R e c') ->
  runs (on_db (TunnelRepository.erase id)) c Q R.
Proof.
  intros Hr HQ HR. pose proof Hr as (_ & Hst & Hok & _). unfold TunnelRepository.erase.
  apply (committed_ready _ (erase_tunnel_spec id st) st); try done.
  - apply steady_tunnel_erase.
  - by apply erase_tunnel_outcome.
  - intros [] st' Hs. split; [by eapply erase_tunnel_valid|]. apply (references_tunnels st); [|done].
    revert Hs. unfold erase_tunnel_spec. destruct (negb _); [done|]. destruct (find_tunnel _ _); [|done].
    simpl. by destruct (negb _); [|intros [= <-]].
  - intros [] st' c'. apply HQ.
Qed.

Lemma erase_server_ready id st c (Q : unit -> Control S -> Prop) (R : Error -> Control S -> Prop) :
  ready calm0 st n c ->
  (forall st' c', erase_server_spec id st = Ok (tt, st') -> ready calm0 st' n c' ->
     credentials c' = credentials c -> Q tt c') ->
  (forall e c', (calm0 -> erase_server_spec id st = Err e) -> ready calm0 st n c' ->
     credentials c' = credentials c -> R e c') ->
  runs (on_db (ServerRepository.erase id)) c Q R.
Proof.
  intros Hr HQ HR. pose proof Hr as (_ & Hst & Hok & _). unfold ServerRepository.erase.
  apply (committed_ready _ (erase_server_spec id st) st); try done.
  - apply steady_server_erase.
  - by apply erase_server_outcome.
  - intros [] st' Hs. split; [by eapply erase_server_valid|by eapply erase_server_references].
  - intros [] st' c'. apply HQ.
Qed.

(** A query outside a transaction. *)
Lemma calm_query {A} (m : Action Database A) (answer : Result A) st c
    (Q : Result A -> Control S -> Prop) R :
  ready calm0 st n c -> reading m -> steady m -> needs_connection m ->
  m (mkDatabase (encode st) None None false []) = (answer, mkDatabase (encode st) None None false []) ->
  (forall x db, (forall a, x = Ok a -> answer = Ok a) -> (calm0 -> x = answer) ->
     ready calm0 st n (set_db db c) -> Q x (set_db db c)) ->
  runs (attempt (on_db m)) c Q R.
Proof.
  intros (Hr & Hst & Hok & Hn & [He Hc] & Hp) Hread Hm Hneed Ha HQ. apply runs_attempt. unfold runs, on_db.
  pose proof (reading_rest m st _ Hread Hr) as Hr'. destruct (Hread (state_db c)) as (_ & Hp' & _).
  assert (calm0 -> sim (state_db c) (mkDatabase (encode st) None None false [])) as Hsim.
  { intros Hc0. destruct (at_rest_usable st _ Hr (Hp Hc0)) as [Ht [Hs Hx]]. split_and!; try done. by auto. }
  assert (calm0 -> (m (state_db c)).1 = answer /\ fault_free (m (state_db c)).2) as Hcalm.
  { intros Hc0. destruct (Hc Hc0) as [Hf _]. destruct (Hm _ _ (Hsim Hc0)) as [Hm' Hff].
    split; [|by apply Hff]. destruct (m (state_db c)) as [[a|e] db'].
    - destruct Hm' as [_ (c' & Ec & _)]. rewrite Ha in Ec. by injection Ec as ->.
    - destruct Hm' as [_ Hm']. destruct (Hm' Hf) as [E _]. by rewrite Ha in E. }
  destruct (m (state_db c)) as [x db] eqn:E. simpl in *.
  assert (ready calm0 st n (set_db db c)) as Hready.
  { split_and!; try done; [|intros ?; simpl; rewrite Hp'; by apply Hp]. split; [done|]. intros Hc0.
    split; [by apply Hcalm|by apply Hc]. }
  assert (forall a, x = Ok a -> answer = Ok a) as Hx.
  { intros a ->. exact (query_answer m answer st _ _ _ Hm Hneed Ha Hr E). }
  assert (calm0 -> x = answer) as Hxa by (intros Hc0; by apply Hcalm).
  destruct x as [a|e]; by apply HQ.
Qed.
End Stores.

(** ** The stores during a pass *)

Section Inside.
Context `{AsioAddressLaws} `{SqliteMessages} {S : Type} `{CredentialStoreLaws S}.
Variables (limits : StorageLimits) (Hlimits : limits_wf limits).
Variables (st0 : State) (n : nat) (calm0 : Prop).
Implicit Types (c : Control S).

(** The stores fit together and what is configured is what it was. *)
Definition inside c : Prop := exists st, ready calm0 st n c /\ upheld st0 st.

Definition keeps {A} (m : Action (Control S) A) : Prop := forall c, inside c ->
  runs m c (fun _ => inside) (fun _ => inside).

Lemma keeps_pending id e now :
  keeps (on_db (TunnelRepository.mark_active_pending_by_server id e now)).
Proof.
  intros c (st & Hr & Hu). apply (pending_ready n calm0 id e now st); [done| |].
  - intros a st' c' Hs Hr' _. exists st'. split; [done|]. etrans; [exact Hu|]. by eapply upheld_pending.
  - intros e' c' Hr' _. by exists st.
Qed.

Lemma keeps_erase_tunnel id : keeps (on_db (TunnelRepository.erase id)).
Proof.
  intros c (st & Hr & Hu). apply (erase_tunnel_ready n calm0 id st); [done| |].
  - intros st' c' Hs Hr' _. exists st'. split; [done|]. etrans; [exact Hu|]. by eapply upheld_erase_tunnel.
  - intros e' c' _ Hr' _. by exists st.
Qed.

Lemma keeps_erase_server id : keeps (on_db (ServerRepository.erase id)).
Proof.
  intros c (st & Hr & Hu). pose proof Hr as (_ & Hst & _). apply (erase_server_ready n calm0 id st); [done| |].
  - intros st' c' Hs Hr' _. exists st'. split; [done|]. etrans; [exact Hu|]. by eapply upheld_erase_server.
  - intros e' c' _ Hr' _. by exists st.
Qed.

Lemma keeps_time : keeps (unix_milliseconds_now).
Proof. intros c (st & Hr & Hu). exists st. done. Qed.

Lemma needs_list_by_server max id : needs_connection (TunnelRepository.list_by_server max id).
Proof.
  intros db a db'. unfold TunnelRepository.list_by_server. destruct (negb _); [done|]. apply needs_usable.
Qed.

Lemma keeps_list_by_server id : keeps (attempt (list_by_server limits id)).
Proof.
  intros c (st & Hr & Hu). pose proof Hr as (_ & Hst & _). unfold list_by_server.
  eapply (calm_query n calm0 _ (list_by_server_spec (max_tunnels limits) id st) st);
    [done|apply reading_list_by_server|apply steady_list_by_server|apply needs_list_by_server|..].
  - apply list_by_server_quiet; [done|]. destruct Hlimits. lia.
  - intros x db _ _ Hr'. by exists st.
Qed.

(** The clean-up of a removed server spares what is referred to. *)
Lemma removed_cleanup_spares st r (s : S) key :
  valid_state st -> references_ok st s -> canonical server (str (sr_id r)) ->
  (forall r', kept_server st r' -> str (sr_id r') <> str (sr_id r)) ->
  (forall k, own_reference (sr_id r) k (credential_reference r k)) ->
  referenced st key -> leaves key (cleanup_all_server_credentials (S := S) r).
Proof.
  intros Hst Hok Hcan Hgone Hown (r2 & k2 & Hr2 & Href2).
  apply leaves_bind; [|intros; apply leaves_lift]. apply leaves_cleanup_kinds. intros k Hin.
  apply (Hgone r2 Hr2).
  assert (slot_of (sr_id r) k key) as Hslot.
  { apply cleanup_candidates_slot in Hin as [E|]; [by apply Hown|done]. }
  destruct (references_kept st s r2 k2 key Hok Hr2 Href2) as [Hs2 _].
  by destruct (slot_of_inj (sr_id r) (sr_id r2) k k2 key) as [-> _];
    [|eapply kept_server_id|..].
Qed.

(** A removed record of the database, also after it is erased. *)
Definition buried (r : ServerRecord) : Prop :=
  canonical server (str (sr_id r)) /\ kind (sr_id r) = server /\
  (forall r', kept_server st0 r' -> str (sr_id r') <> str (sr_id r)) /\
  forall k, own_reference (sr_id r) k (credential_reference r k).

Lemma keeps_cleanup r : buried r -> keeps (attempt (on_store (cleanup_all_server_credentials r))).
Proof.
  intros (Hcan & Hkind & Hgone & Hown) c (st & Hr & Hu). pose proof Hr as (_ & Hst & Hok & _).
  apply (store_ready _ st n calm0); [done|..].
  - intros key. apply (removed_cleanup_spares st r (credentials c)); try done. intros r' Hr'.
    by apply Hgone, Hu.
  - intros _ s Hs. by destruct (cleanup_all_reliable r s Hs Hcan Hkind Hown) as (s' & -> & ? & _).
  - intros x s _ Hr'. by exists st.
Qed.

(** Reading a credential that is referred to. *)
Lemma keeps_get r k key c (Q : Result bytes -> Control S -> Prop) R :
  inside c -> kept_server st0 r -> credential_reference r k = Some key ->
  (forall x c', inside c' -> (calm0 -> exists secret, x = Ok secret) -> Q x c') ->
  runs (attempt (on_store (credential_get key))) c Q R.
Proof.
  intros (st & Hr & Hu) Hk Href HQ. pose proof Hr as (_ & Hst & Hok & _ & [_ Hc] & _).
  apply Hu in Hk. destruct (references_kept st _ r k key Hok Hk Href) as [Hslot Hheld].
  assert (validate_key key = success) as Hvk.
  { eapply slot_of_valid; [by eapply kept_server_id|done]. }
  apply (store_ready _ st n calm0); [done|intros; apply leaves_get|..].
  - intros _ s Hs. by apply get_reliable.
  - intros x s E Hr'. apply HQ; [by exists st|]. intros Hc0. destruct (Hc Hc0) as [_ Hrel].
    destruct (get_reliable key _ Hrel Hvk) as [_ Hg]. rewrite E in Hg. destruct Hheld as [[v Hv] _].
    rewrite Hv in Hg. by exists v.
Qed.
End Inside.

(** ** What a session writes *)

Section SessionWrites.
Context `{AsioAddressLaws} `{SqliteMessages} {S : Type} `{CredentialStoreLaws S}.
Implicit Types (c : Control S).
Abbreviation any := (fun _ : Error => True).

Lemma transition_cases id sid revision state e now synchronized db :
  TunnelRepository.update_runtime_state_if_revision id sid revision state e now synchronized db =
  match transition_arguments id sid revision state e now with
  | Ok _ => with_transaction (and_commit (transition_body id sid revision state e now synchronized)) db
  | Err e' => (Err e', db)
  end.
Proof.
  unfold TunnelRepository.update_runtime_state_if_revision, transition_arguments.
  rewrite state_not_removing. destruct (_ || _); [done|].
  destruct e as [e|]; [|done]. by destruct (_ || _).
Qed.

Lemma upheld_transition id sid revision state e now synchronized st a st' :
  valid_state st -> update_runtime_spec id sid revision state e now synchronized st = Ok (a, st') ->
  upheld st st' /\ st_servers st' = st_servers st.
Proof.
  intros Hst. unfold update_runtime_spec. destruct (st_tunnels st !! str id) as [t|] eqn:Hm; [|by intros [= _ <-]].
  destruct (transition_applies _ _ _ t); intros [= _ <-]; [|done].
  destruct (valid_tunnels st Hst _ _ Hm) as [_ Hid]. split; [|done]. split_and!; try done; simpl.
  - intros i t' [[<- <-]|[_ Hm']]%lookup_insert_Some.
    + exists t. rewrite Hid. split; [done|]. by eexists _, _, _, _, _.
    + exists t'. split; [done|apply same_tunnel_refl].
  - intros i t' Hm' _. destruct (decide (i = str (tr_id t))) as [->|Hne];
      [rewrite lookup_insert_eq|rewrite lookup_insert_ne by done]; by eexists.
Qed.

Lemma keeps_transition st0 n calm0 id sid revision state e now synchronized :
  op_wf (UpdateRuntimeState id sid revision state e now synchronized) ->
  keeps (S := S) st0 n calm0
    (on_db (TunnelRepository.update_runtime_state_if_revision id sid revision state e now synchronized)).
Proof.
  intros [Hrev He] c (st & Hr & Hu). pose proof Hr as (_ & Hst & Hok & _). unfold runs, on_db.
  rewrite transition_cases. destruct (transition_arguments _ _ _ _ _ _) as [[]|e'] eqn:Ha; [|by exists st].
  assert (validate_error_fields (code <$> e) (message <$> e) = success) as Hef.
  { by eapply transition_arguments_error. }
  apply (committed_ready n calm0 _ (update_runtime_spec id sid revision state e now synchronized st) st); try done.
  - unfold transition_body. steady.
  - by apply transition_outcome.
  - intros a st' Hs. split; [by eapply transition_valid|]. apply (references_tunnels st); [|done].
    by eapply upheld_transition.
  - intros a st' c' Hs Hr' _. exists st'. split; [done|]. etrans; [exact Hu|]. by eapply upheld_transition.
  - intros e' c' _ Hr' _. by exists st.
Qed.

(** *** The state of the server *)

Lemma doomed_rollback st0 db : doomed st0 db -> doomed st0 (rollback db).2.
Proof.
  intros (Hc & Hp & [[Hx Hs]|[Hx Hs]]).
  - unfold rollback. rewrite Hx. split_and!; auto.
  - pose proof (rollback_spec db (encode st0) Hs Hx Hp) as Hr. destruct (rollback db) as [r db'].
    by destruct Hr as (?&?&?&_).
Qed.

(** The owner of the transaction rolls it back; [W] holds when nothing outside the program
    fails. *)
Lemma attempt_rollback st0 n calm0 (W : Prop) e c (Q : Result unit -> Control S -> Prop) R :
  failed st0 n calm0 (fun _ => W) e c -> (forall x c', failed st0 n calm0 (fun _ => W) e c' -> Q x c') ->
  runs (attempt (on_db rollback)) c Q R.
Proof.
  intros (Hd & Hok & Hn & He & HW) HQ. apply runs_attempt. unfold runs, on_db.
  pose proof (doomed_rollback st0 _ Hd) as Hd'.
  destruct (rollback (state_db c)) as [[[]|e'] db]; apply HQ; by split_and!.
Qed.

Lemma give_up_runs st0 n calm0 (W : Prop) (P : State -> Prop) e c :
  failed st0 n calm0 (fun _ => W) e c -> forall x : Result unit,
  runs (_ ← attempt (on_db rollback); ST_lift x) c
    (fun _ c' => (exists st', P st' /\ ready calm0 st' n c') \/ exists e, failed st0 n calm0 (fun _ => W) e c')
    (fun _ c' => exists e, failed st0 n calm0 (fun _ => W) e c').
Proof.
  intros Hf x. apply runs_bind, (attempt_rollback st0 n calm0 W e); [done|]. intros _ c2 Hf2.
  apply runs_lift; [right; by exists e|by exists e].
Qed.

(** The scope of a transaction that commits, or is rolled back before it returns. *)
Lemma scoped_settled {A} (body : Action (Control S) A) st0 n calm0 (W : Prop) c (P : State -> Prop) :
  ready calm0 st0 n c ->
  (forall c1, at_work st0 n calm0 st0 c1 ->
     runs body c1
       (fun _ c' => (exists st', P st' /\ ready calm0 st' n c') \/
                    exists e, failed st0 n calm0 (fun _ => W) e c')
       (fun _ c' => exists e, failed st0 n calm0 (fun _ => W) e c')) ->
  runs (scoped body) c
    (fun _ c' => exists st', (P st' \/ st' = st0 /\ (calm0 -> W)) /\ ready False st' n c')
    (fun _ c' => ready False st0 n c' /\ (calm0 -> W)).
Proof.
  intros Hr Hbody. pose proof Hr as (Hrest & Hst & Hok & Hn & [He Hcalm] & Hp). unfold runs, scoped.
  destruct (begin_working st0 (state_db c) Hrest) as [Hb Hff].
  assert (forall e c', failed st0 n calm0 (fun _ => W) e c' ->
    ready False st0 n (set_db (rollback_noexcept (state_db c')) c') /\ (calm0 -> W)) as Hfailed.
  { intros e c' (Hd & Hok' & Hn' & He' & HW). apply doomed_rolled_back in Hd. by split; [split_and!|]. }
  destruct (begin_transaction (state_db c)) as [[[]|e] db].
  - destruct Hb as [Hw _]. specialize (Hbody (set_db db c)). unfold runs in Hbody.
    assert (at_work st0 n calm0 st0 (set_db db c)) as Hw'.
    { split_and!; try done. split; [done|]. intros Hc0. destruct (Hcalm Hc0). split; [by apply Hff|done]. }
    specialize (Hbody Hw'). destruct (body (set_db db c)) as [[a|e] c'].
    + destruct Hbody as [(st' & HP & Hr')|[e Hf]].
      * exists st'. split; [by left|]. pose proof Hr' as (Hrest' & _).
        rewrite (at_rest_rolled_back st' _ Hrest'). apply (ready_weaken calm0). by destruct c'.
      * destruct (Hfailed _ _ Hf). exists st0. split; [by right|done].
    + destruct Hbody as [e' Hf]. by eapply Hfailed.
  - destruct Hb as [Hr' Hf]. split; [by split_and!|]. intros Hc0. exfalso. apply Hf; [by auto|]. by apply Hcalm.
Qed.

(** What [persist_state] may write: the runtime fields of an enabled server that still has
    the revision the session was started or refreshed with. *)
Definition persisted st (s : ServerSession) state error attempt latency_ms remote_server_id st' : Prop :=
  exists r updated_at, kept_server st r /\ str (sr_id r) = str (sr_id (server_ s)) /\
    sr_desired_state r = ServerDesiredState.enabled /\ sr_config_revision r = config_revision_ s /\
    sr_updated_at r <= updated_at /\
    st' = put_server (persisted_server state error attempt latency_ms remote_server_id updated_at r) st.

(** Why it may write nothing: there is no such server, or the record is outside the limits
    of the storage. *)
Definition unpersistable st (s : ServerSession) state error attempt latency_ms remote_server_id : Prop :=
  kind (sr_id (server_ s)) = server -> forall r, kept_server st r -> str (sr_id r) = str (sr_id (server_ s)) ->
    sr_desired_state r = ServerDesiredState.enabled -> sr_config_revision r = config_revision_ s ->
    exists updated_at, sr_updated_at r <= updated_at /\
      validate_server_record
        (persisted_server state error attempt latency_ms remote_server_id updated_at r) <> success.

Lemma persist_runs s state error tries latency_ms remote_server_id st n calm0 c :
  ready calm0 st n c -> is_u32 tries ->
  runs (scoped (persist_in_transaction s state error tries latency_ms remote_server_id)) c
    (fun _ c' => exists st', (persisted st s state error tries latency_ms remote_server_id st' \/
         st' = st /\ (calm0 -> unpersistable st s state error tries latency_ms remote_server_id)) /\
       ready False st' n c')
    (fun _ c' => ready False st n c' /\
       (calm0 -> unpersistable st s state error tries latency_ms remote_server_id)).
Proof.
  intros Hr Htries. set (W := unpersistable _ _ _ _ _ _ _). set (P := persisted _ _ _ _ _ _ _).
  apply scoped_settled; [done|]. intros c1 Hw. unfold persist_in_transaction.
  pose proof Hw as (_ & Hst & _ & Hok & _). set (why := fun _ : Error => W).
  pose proof (give_up_runs st n calm0 W P) as Hback.
  apply runs_bind, runs_attempt. eapply runs_mono;
    [eapply (work_query st n calm0 why _ (find_server (sr_id (server_ s)) st) st c1
       (fun r c' => find_server (sr_id (server_ s)) st = Ok r /\ at_work st n calm0 st c'));
       [done|apply steady_server_get|by apply get_server_quiet| |by intros]|..].
  { intros e E Hkind r [Hm _] Hid. unfold find_server in E. rewrite bool_decide_true in E by done.
    cbn [negb] in E. rewrite <- Hid, Hm in E. done. }
  2: { intros e c2 Hf. by apply (Hback e c2 Hf (Err e)). }
  intros r c2 [Hfind Hw2]. apply find_server_lookup in Hfind.
  destruct (valid_servers st Hst _ _ Hfind) as [[Hwf _] Hid].
  assert (forall r2, kept_server st r2 -> str (sr_id r2) = str (sr_id (server_ s)) -> r2 = r) as Hsame.
  { intros r2 [Hm _] E. rewrite E in Hm. congruence. }
  destruct (_ || _) eqn:Hguard.
  { refine (Hback (mkError ok []) c2 _ success). eapply work_failed; [done|]. intros _ _ r2 Hk2 E Hen Hrev.
    pose proof (Hsame r2 Hk2 E); subst r2. rewrite bool_decide_true in Hguard by done. cbn in Hguard.
    apply Z.eqb_eq in Hrev. rewrite Hrev in Hguard. done. }
  apply orb_false_iff in Hguard as [Hen%negb_false_iff%bool_decide_eq_true Hrev%negb_false_iff%Z.eqb_eq].
  assert (kept_server st r) as Hk by (split; [by rewrite Hid|by rewrite Hen]).
  apply runs_bind. eapply runs_mono; [apply (work_time st n calm0 why (sr_updated_at r) st c2
    (fun u c' => sr_updated_at r <= u /\ at_work st n calm0 st c')); [done|by intros]| |by eauto].
  intros u c3 [Hu Hw3]. set (r' := persisted_server _ _ _ _ _ _ _).
  apply runs_bind, runs_attempt. eapply runs_mono; [apply (update_server_work st st n calm0 why c3 r'
    (fun _ c' => at_work st n calm0 (put_server r' st) c')); [done| | |by intros]|..].
  { destruct Hwf as (? & ? & _ & ?). by split_and!. }
  { intros e E _ r2 Hk2 E2 _ _. rewrite (Hsame r2 Hk2 E2). exists u. split; [done|]. intros Hv.
    rewrite (update_server_accepted st r r') in E; done. }
  2: { intros e c4 Hf. by apply (Hback e c4 Hf (Err e)). }
  intros [] c4 Hw4. eapply runs_mono; [apply (commit_runs st (put_server r' st) n calm0 why c4
    (fun _ => ready calm0 (put_server r' st) n)); [done| |by intros]| |by eauto].
  { apply (references_same st _ r r'); [by destruct Hw4 as (_ & _ & _ & ? & _)|done|done|by intros []]. }
  intros [] c5 Hr5. left. exists (put_server r' st). split; [|done]. by exists r, u.
Qed.
End SessionWrites.
