(* ===== verification/ManagerPass.v ===== *)
(** * A reconciliation pass of the server manager

    The table of sessions under [reconcile]: which session a server has after a pass, that
    the sessions that leave the table are superseded, and that the stores are kept. *)
From stdpp Require Import sorting.
From S2P Require Import Prelude Common Ids Text Endpoint Models Rows Database Repository StorageSpec StorageRun Storage Reconciler Json IpcProtocol Credentials Control ControlRun ControlHandlers ControlServers ControlSagas ConfigFile Config ConfigRun ServerManager ManagerRun.

(** ** The table of sessions *)

Section Table.
Context {S : Type}.
Implicit Types (g : Manager S).

(** The session of a server. *)
Definition session_of g (id : bytes) : option ServerSession :=
  i ← sessions_ g !! id; mg_objects g !! i.

(** A session that has been superseded: it is asked to stop and writes no server state. *)
Definition superseded g (i : nat) : Prop :=
  exists s, mg_objects g !! i = Some s /\ persistence_allowed_ s = false /\ stop_requested s = true.

(** The table is well formed: an entry is a session of the server it is for, that may
    write and has not been asked to stop; every other session has been asked to stop. *)
Definition table_wf g : Prop :=
  (forall id i, sessions_ g !! id = Some i -> exists s, mg_objects g !! i = Some s /\
     str (sr_id (server_ s)) = id /\ persistence_allowed_ s = true /\ stop_requested s = false) /\
  (forall i s, mg_objects g !! i = Some s ->
     (i < mg_next g)%nat /\ (stop_requested s = true \/ sessions_ g !! str (sr_id (server_ s)) = Some i)).

(** Sessions that leave the table are superseded, and stay so. *)
Definition evolves g g' : Prop :=
  (forall id i, sessions_ g !! id = Some i -> sessions_ g' !! id = Some i \/ superseded g' i) /\
  (forall i, superseded g i -> superseded g' i).

#[global] Instance evolves_preorder : PreOrder evolves.
Proof.
  split; [split; eauto|]. intros g1 g2 g3 [Hs1 Hp1] [Hs2 Hp2]. split; [|by auto].
  intros id i [Hi| ?]%Hs1; [by apply Hs2|by auto].
Qed.

Lemma table_inj g id1 id2 i :
  table_wf g -> sessions_ g !! id1 = Some i -> sessions_ g !! id2 = Some i -> id1 = id2.
Proof.
  intros [Hw _] H1 H2. destruct (Hw _ _ H1) as (s1 & E1 & <- & _), (Hw _ _ H2) as (s2 & E2 & <- & _). congruence.
Qed.

(** The table with the objects [objects], the next name [next] and the entries [entries]. *)
Definition with_table (objects : gmap nat ServerSession) (next : nat) (entries : gmap bytes nat)
    (c : Control S) (generations : gmap bytes Z) g : Manager S :=
  mkManager c generations objects next entries (session_count_ g) (running_ g) (mg_timer g).

(** *** An entry is dropped *)

Definition dropped (id : bytes) g : gmap nat ServerSession :=
  match sessions_ g !! id with
  | Some i => alter forbid_persistence i (mg_objects g)
  | None => mg_objects g
  end.

Definition without (id : bytes) g (c : Control S) (gens : gmap bytes Z) : Manager S :=
  with_table (dropped id g) (mg_next g) (delete id (sessions_ g)) c gens g.

Lemma dropped_other id g i :
  sessions_ g !! id <> Some i -> dropped id g !! i = mg_objects g !! i.
Proof.
  unfold dropped. destruct (sessions_ g !! id) as [j|]; [|done]. intros Hne.
  rewrite lookup_alter_ne; [done|congruence].
Qed.

Lemma dropped_entry id g i :
  sessions_ g !! id = Some i -> dropped id g !! i = forbid_persistence <$> mg_objects g !! i.
Proof. unfold dropped. intros ->. apply lookup_alter_eq. Qed.

Lemma drop_wf id g c gens : table_wf g -> table_wf (without id g c gens).
Proof.
  intros Hw. pose proof Hw as [Hw1 Hw2]. split; simpl.
  - intros id' i [Hne Hi]%lookup_delete_Some. rewrite dropped_other; [by apply Hw1|].
    intros Hi'. by destruct Hne; eapply table_inj.
  - intros i s. destruct (decide (sessions_ g !! id = Some i)) as [E|E].
    + rewrite dropped_entry by done. intros (s0 & Hs0 & ->)%fmap_Some. destruct (Hw2 _ _ Hs0). by auto.
    + rewrite dropped_other by done. intros Hs. destruct (Hw2 _ _ Hs) as [? [?|Hi]]; [by auto|].
      split; [done|]. right. rewrite lookup_delete_ne; [done|]. intros E'. by rewrite <- E' in Hi.
Qed.

Lemma drop_evolves id g c gens : table_wf g -> evolves g (without id g c gens).
Proof.
  intros Hw. pose proof Hw as [Hw1 Hw2]. split; unfold superseded; simpl.
  - intros id' i Hi. destruct (decide (id' = id)) as [->|Hne].
    + right. rewrite dropped_entry by done. destruct (Hw1 _ _ Hi) as (s & -> & _). simpl. eauto.
    + left. by rewrite lookup_delete_ne.
  - intros i (s & Hs & Hp & Hst). rewrite dropped_other; [by eauto|]. intros Hi.
    destruct (Hw1 _ _ Hi) as (s' & Hs' & _ & ? & _). congruence.
Qed.

Lemma drop_session_of id g c gens id' :
  table_wf g ->
  session_of (without id g c gens) id' = if decide (id' = id) then None else session_of g id'.
Proof.
  intros Hw. unfold session_of. simpl. destruct (decide (id' = id)) as [->|Hne].
  - by rewrite lookup_delete_eq.
  - rewrite lookup_delete_ne by done. destruct (sessions_ g !! id') as [i|] eqn:Hi; [|done]. simpl.
    apply dropped_other. intros Hi'. by destruct Hne; eapply table_inj.
Qed.

(** *** An entry is added *)

Definition started (id : bytes) (record : ServerRecord) g (c : Control S) (gens : gmap bytes Z) : Manager S :=
  with_table (<[mg_next g := ServerSession_new record]> (mg_objects g)) (Datatypes.S (mg_next g))
    (<[id := mg_next g]> (sessions_ g)) c gens g.

Lemma start_wf record g c gens :
  table_wf g -> sessions_ g !! str (sr_id record) = None ->
  table_wf (started (str (sr_id record)) record g c gens).
Proof.
  intros [Hw1 Hw2] Hno. split; simpl.
  - intros id i [[<- <-]|[Hne Hi]]%lookup_insert_Some.
    + exists (ServerSession_new record). by rewrite lookup_insert_eq.
    + destruct (Hw1 _ _ Hi) as (s & Hs & Hrest). exists s. split; [|done]. rewrite lookup_insert_ne; [done|].
      intros <-. destruct (Hw2 _ _ Hs). lia.
  - intros i s [[<- <-]|[Hne Hs]]%lookup_insert_Some.
    + split; [lia|]. right. simpl. by rewrite lookup_insert_eq.
    + destruct (Hw2 _ _ Hs) as [? [?|Hi]]; [split; [lia|by left]|]. split; [lia|]. right.
      rewrite lookup_insert_ne; [done|]. intros E. congruence.
Qed.

Lemma start_evolves record g c gens :
  table_wf g -> sessions_ g !! str (sr_id record) = None ->
  evolves g (started (str (sr_id record)) record g c gens).
Proof.
  intros [Hw1 Hw2] Hno. split; unfold superseded; simpl.
  - intros id i Hi. left. rewrite lookup_insert_ne; [done|]. congruence.
  - intros i (s & Hs & Hrest). exists s. split; [|done]. rewrite lookup_insert_ne; [done|].
    intros <-. destruct (Hw2 _ _ Hs). lia.
Qed.

Lemma start_session_of record g c gens id' :
  table_wf g ->
  session_of (started (str (sr_id record)) record g c gens) id' =
  if decide (id' = str (sr_id record)) then Some (ServerSession_new record) else session_of g id'.
Proof.
  intros [Hw1 Hw2]. unfold session_of. simpl. destruct (decide _) as [->|Hne].
  - rewrite lookup_insert_eq. simpl. by rewrite lookup_insert_eq.
  - rewrite lookup_insert_ne by done. destruct (sessions_ g !! id') as [i|] eqn:Hi; [|done]. simpl.
    rewrite lookup_insert_ne; [done|]. intros <-. destruct (Hw1 _ _ Hi) as (s & Hs & _).
    destruct (Hw2 _ _ Hs). lia.
Qed.

(** *** The session of an entry is changed *)

Definition keeps_flags (f : ServerSession -> ServerSession) : Prop := forall s,
  server_ (f s) = server_ s /\ persistence_allowed_ (f s) = persistence_allowed_ s /\
  stop_requested (f s) = stop_requested s.

Definition changed (i : nat) (f : ServerSession -> ServerSession) g (c : Control S)
    (gens : gmap bytes Z) : Manager S :=
  with_table (alter f i (mg_objects g)) (mg_next g) (sessions_ g) c gens g.

Lemma change_objects i f (m : gmap nat ServerSession) j s :
  alter f i m !! j = Some s -> exists s0, m !! j = Some s0 /\ (s = s0 \/ s = f s0).
Proof.
  destruct (decide (j = i)) as [->|Hne].
  - rewrite lookup_alter_eq. intros (s0 & Hs & ->)%fmap_Some. eauto.
  - rewrite lookup_alter_ne by done. eauto.
Qed.

Lemma change_lookup i f (m : gmap nat ServerSession) j s0 :
  m !! j = Some s0 -> exists s, alter f i m !! j = Some s /\ (s = s0 \/ s = f s0).
Proof.
  destruct (decide (j = i)) as [->|Hne].
  - rewrite lookup_alter_eq. intros ->. simpl. eauto.
  - rewrite lookup_alter_ne by done. eauto.
Qed.

Lemma change_wf i f g c gens : keeps_flags f -> table_wf g -> table_wf (changed i f g c gens).
Proof.
  intros Hf [Hw1 Hw2]. split; simpl.
  - intros id j Hj. destruct (Hw1 _ _ Hj) as (s0 & Hs0 & Hrest).
    destruct (change_lookup i f _ j s0 Hs0) as (s & Hs & [->| ->]); eexists; (split; [exact Hs|]); [done|].
    by destruct (Hf s0) as (-> & -> & ->).
  - intros j s Hs. destruct (change_objects i f _ j s Hs) as (s0 & Hs0 & [->| ->]); [by apply Hw2|].
    destruct (Hf s0) as (-> & _ & ->). by apply Hw2.
Qed.

Lemma change_evolves i f g c gens : keeps_flags f -> evolves g (changed i f g c gens).
Proof.
  intros Hf. split; [by auto|]. intros j (s0 & Hs0 & Hp & Hst).
  destruct (change_lookup i f _ j s0 Hs0) as (s & Hs & [->| ->]); eexists; (split; [exact Hs|]); [done|].
  by destruct (Hf s0) as (_ & -> & ->).
Qed.

Lemma change_session_of id i f g c gens id' :
  table_wf g -> sessions_ g !! id = Some i ->
  session_of (changed i f g c gens) id' =
  if decide (id' = id) then f <$> session_of g id' else session_of g id'.
Proof.
  intros Hw Hi. unfold session_of. simpl. destruct (decide _) as [->|Hne].
  - rewrite Hi. simpl. apply lookup_alter_eq.
  - destruct (sessions_ g !! id') as [j|] eqn:Hj; [|done]. simpl. apply lookup_alter_ne.
    intros <-. by destruct Hne; eapply table_inj.
Qed.
End Table.

(** ** Calls of the tunnel reconciler *)

Section Calls.
Context `{AsioAddressLaws} `{SqliteMessages} {S : Type} `{CredentialStoreLaws S}.
Variables (st0 : State) (n : nat) (calm0 : Prop).
Implicit Types (c : Control S) (g : Manager S).
Abbreviation inside := (inside st0 n calm0).

(** A call that leaves the stores inside. *)
Definition reconciles {A} (m : Action Reconciler A) : Prop := forall r c,
  inside (set_db (repository_ r) c) -> inside (set_db (repository_ (m r).2) c).

Lemma keeps_state {A} (m : Action Database A) db c :
  keeps st0 n calm0 (on_db (S := S) m) -> inside (set_db db c) -> inside (set_db (m db).2 c).
Proof.
  intros Hm Hin. specialize (Hm _ Hin). unfold runs, on_db in Hm. simpl in Hm.
  by destruct (m db) as [[a|e] db'].
Qed.

Lemma reconciles_pending id e now :
  reconciles (on_repository (TunnelRepository.mark_active_pending_by_server id e now)).
Proof.
  intros r c Hin. rewrite on_repository_database. apply keeps_state; [apply keeps_pending|done].
Qed.

Lemma reconciles_bind {A B} (m : Action Reconciler A) (k : A -> Action Reconciler B) :
  reconciles m -> (forall a, reconciles (k a)) -> reconciles (m ≫= k).
Proof.
  intros Hm Hk r c Hin. specialize (Hm r c Hin). unfold mbind, ST_bind.
  destruct (m r) as [[a|e] r']; [by apply Hk|done].
Qed.

Lemma reconciles_same {A} (m : Action Reconciler A) :
  (forall r, repository_ (m r).2 = repository_ r) -> reconciles m.
Proof. intros Hm r c. by rewrite Hm. Qed.

Lemma reconciles_next id : reconciles (next_generation id).
Proof. apply reconciles_same. intros r. unfold next_generation. by destruct (next_generation_locked _ _). Qed.

Lemma reconciles_invalidate id e now : reconciles (invalidate id e now).
Proof.
  unfold invalidate. destruct (negb _); [by apply reconciles_same|].
  apply reconciles_bind; [apply reconciles_next|]. intros _.
  apply reconciles_bind; [apply reconciles_pending|]. by intros _; apply reconciles_same.
Qed.

Lemma reconciles_begin id now : reconciles (begin_generation id now).
Proof.
  unfold begin_generation. destruct (negb _); [by apply reconciles_same|].
  apply reconciles_bind; [apply reconciles_next|]. intros generation.
  apply reconciles_bind; [apply reconciles_pending|]. by intros _; apply reconciles_same.
Qed.

Lemma reconciles_end id generation e now : reconciles (end_generation id generation e now).
Proof.
  unfold end_generation. destruct (_ || _); [by apply reconciles_same|].
  apply reconciles_bind; [by apply reconciles_same|]. intros [|]; [|by apply reconciles_same].
  apply reconciles_bind; [apply reconciles_pending|]. by intros _; apply reconciles_same.
Qed.

(** *** The rules for the manager *)

Lemma on_control_runs {A} (m : Action (Control S) A) g (Q : A -> Manager S -> Prop)
    (R : Error -> Manager S -> Prop) :
  runs m (mg_control g)
    (fun a c => Q a (with_table (mg_objects g) (mg_next g) (sessions_ g) c (mg_generations g) g))
    (fun e c => R e (with_table (mg_objects g) (mg_next g) (sessions_ g) c (mg_generations g) g)) ->
  runs (on_control m) g Q R.
Proof. unfold runs, on_control. by destruct (m (mg_control g)) as [[a|e] c]. Qed.

Lemma on_control_attempt {A} (m : Action (Control S) A) g (Q : Result A -> Manager S -> Prop)
    (R : Error -> Manager S -> Prop) :
  runs (attempt m) (mg_control g)
    (fun a c => Q a (with_table (mg_objects g) (mg_next g) (sessions_ g) c (mg_generations g) g))
    (fun e c => True) ->
  runs (attempt (on_control m)) g Q R.
Proof. unfold runs, attempt, on_control. by destruct (m (mg_control g)) as [[a|e] c]. Qed.

Lemma on_reconciler_runs {A} (m : Z -> Action Reconciler A) g (Q : Result A -> Manager S -> Prop)
    (R : Error -> Manager S -> Prop) :
  (forall now, reconciles (m now)) -> inside (mg_control g) ->
  (forall x c gens, inside c ->
     Q x (with_table (mg_objects g) (mg_next g) (sessions_ g) c gens g)) ->
  runs (attempt (on_reconciler m)) g Q R.
Proof.
  intros Hm Hin HQ. apply runs_attempt, runs_bind. unfold runs at 1, on_control, unix_milliseconds_now.
  cbn [fst snd]. set (now := clock_ _ _). unfold runs, with_reconciler. cbn [mg_control mg_generations state_db].
  set (c1 := mkControl _ _ _ _ _). set (r := mkReconciler _ _).
  assert (inside (set_db (repository_ r) c1)) as Hin1.
  { destruct Hin as (st & Hr & Hu). exists st. split; [|done]. done. }
  specialize (Hm now r c1 Hin1). destruct (m now r) as [[a|e] r']; by apply HQ.
Qed.

Lemma supersede_runs i s g (Q : unit -> Manager S -> Prop) R :
  inside (mg_control g) -> mg_objects g !! i = Some s ->
  (forall c gens, inside c -> Q tt (changed i forbid_persistence g c gens)) ->
  runs (supersede i) g Q R.
Proof.
  intros Hin Hi HQ. unfold supersede. apply runs_bind. unfold runs at 1, ST_get. rewrite Hi.
  apply runs_bind, on_reconciler_runs; [intros; apply reconciles_invalidate|done|]. intros x c gens Hc.
  apply (HQ c gens Hc).
Qed.

Lemma drop_session_runs id g (Q : unit -> Manager S -> Prop) R :
  inside (mg_control g) -> table_wf g ->
  (forall c gens, inside c -> Q tt (without id g c gens)) ->
  runs (drop_session id) g Q R.
Proof.
  intros Hin [Hw _] HQ. unfold drop_session. apply runs_bind. unfold runs at 1, ST_get.
  destruct (sessions_ g !! id) as [i|] eqn:Hi.
  - destruct (Hw _ _ Hi) as (s & Hs & _). apply runs_bind, (supersede_runs i s); [done..|]. intros c gens Hc.
    specialize (HQ c gens Hc). unfold without, dropped in HQ. by rewrite Hi in HQ.
  - apply runs_ret. specialize (HQ (mg_control g) (mg_generations g) Hin). unfold without, dropped in HQ.
    rewrite Hi, delete_id in HQ by done. by destruct g.
Qed.
End Calls.

(** ** One record *)

(** A server that is to have a session. *)
Definition due (r : ServerRecord) : bool :=
  bool_decide (sr_desired_state r = ServerDesiredState.enabled)
  && negb (bool_decide (sr_credential_ref r = None)).

(** The session waits for another authentication. *)
Definition restarts (s : ServerSession) (r : ServerRecord) : bool :=
  bool_decide (terminal_state_ s = TerminalState.authentication_failed)
  && bool_decide (sr_actual_state r = ServerActualState.disconnected).

Section Record.
Variable (calm0 : Prop).

(** The session of a server that gets a new one: a server that is not authenticated gets
    none unless its configuration has changed, and the material of the TLS context may be
    missing or refused. *)
Definition renewed (configuration_changed : bool) (r : ServerRecord) (v' : option ServerSession) : Prop :=
  if configuration_changed
     || negb (bool_decide (sr_actual_state r = ServerActualState.not_authenticated))
  then v' = Some (ServerSession_new r) \/ v' = None /\ ~ calm0
  else v' = None.

(** The session of a server after a pass that found the record [r]. *)
Definition session_after (notify_sessions : bool) (r : ServerRecord) (v v' : option ServerSession) : Prop :=
  if due r then
    match v with
    | Some s =>
        if negb (matches s r) then renewed true r v'
        else if restarts s r then renewed false r v'
        else v' = Some ((if notify_sessions then session_notify else id)
                          (refresh_config_revision (sr_config_revision r) s))
    | None => renewed false r v'
    end
  else v' = None.
End Record.

Section Pass.
Context `{AsioAddressLaws} `{SqliteMessages} `{ManagerEnvironment} {S : Type} `{CredentialStoreLaws S}.
Variables (limits : StorageLimits) (Hlimits : limits_wf limits) (ca_certificate_path : bytes).
Variables (st0 : State) (n : nat) (calm0 : Prop).
Hypothesis Htls : calm0 -> forall path ca certificate private_key,
  session_tls_context path ca certificate private_key = success.
Implicit Types (c : Control S) (g : Manager S) (r : ServerRecord).
Abbreviation inside := (inside st0 n calm0).
Abbreviation never := (fun _ _ => False).

(** A step of the pass. *)
Definition advances g g' : Prop :=
  inside (mg_control g') /\ table_wf g' /\ evolves g g' /\
  running_ g' = running_ g /\ mg_timer g' = mg_timer g.

(** A step that is about one server. *)
Definition concerns (id : bytes) g g' : Prop :=
  advances g g' /\ forall id', id' <> id -> session_of g' id' = session_of g id'.

Lemma advances_trans g1 g2 g3 : advances g1 g2 -> advances g2 g3 -> advances g1 g3.
Proof.
  intros (_ & _ & He & Hr & Ht) (Hin & Hw & He' & Hr' & Ht').
  refine (conj Hin (conj Hw (conj _ (conj _ _)))); [by etrans|congruence|congruence].
Qed.

Lemma concerns_trans id g1 g2 g3 : concerns id g1 g2 -> concerns id g2 g3 -> concerns id g1 g3.
Proof.
  intros [Ha Ho] [Ha' Ho']. split; [by eapply advances_trans|]. intros id' Hne. by rewrite Ho', Ho.
Qed.

Lemma concerns_stores id g c gens :
  table_wf g -> inside c -> concerns id g (with_table (mg_objects g) (mg_next g) (sessions_ g) c gens g).
Proof.
  intros Hw Hin. split; [|done]. refine (conj Hin (conj Hw (conj _ (conj eq_refl eq_refl)))).
  split; [by left|done].
Qed.

Lemma concerns_refl id g : table_wf g -> inside (mg_control g) -> concerns id g g.
Proof. intros Hw Hin. split; [|done]. by refine (conj Hin (conj Hw (conj _ (conj eq_refl eq_refl)))). Qed.

Lemma concerns_drop id g c gens : table_wf g -> inside c -> concerns id g (without id g c gens).
Proof.
  intros Hw Hin. split.
  { refine (conj Hin (conj _ (conj _ (conj eq_refl eq_refl)))); [by apply drop_wf|by apply drop_evolves]. }
  intros id' Hne. rewrite drop_session_of by done. by destruct (decide _).
Qed.

Lemma concerns_change id i f g c gens :
  table_wf g -> inside c -> sessions_ g !! id = Some i -> keeps_flags f ->
  concerns id g (changed i f g c gens).
Proof.
  intros Hw Hin Hi Hf. split.
  { refine (conj Hin (conj _ (conj _ (conj eq_refl eq_refl)))); [by apply change_wf|by apply change_evolves]. }
  intros id' Hne. rewrite (change_session_of id) by done. by destruct (decide _).
Qed.

Lemma concerns_start r g c gens :
  table_wf g -> inside c -> sessions_ g !! str (sr_id r) = None ->
  concerns (str (sr_id r)) g (started (str (sr_id r)) r g c gens).
Proof.
  intros Hw Hin Hi. split.
  { refine (conj Hin (conj _ (conj _ (conj eq_refl eq_refl)))); [by apply start_wf|by apply start_evolves]. }
  intros id' Hne. rewrite start_session_of by done. by destruct (decide _).
Qed.

Lemma refresh_flags revision : keeps_flags (refresh_config_revision revision).
Proof. by intros s. Qed.

Lemma notify_flags : keeps_flags session_notify.
Proof. by intros s. Qed.

(** *** The credentials of the TLS context *)

Lemma session_material_runs r k what g (Q : bytes -> Manager S -> Prop) (R : Error -> Manager S -> Prop) :
  inside (mg_control g) -> kept_server st0 r ->
  (forall value c, inside c -> Q value (with_table (mg_objects g) (mg_next g) (sessions_ g) c (mg_generations g) g)) ->
  (forall e c, inside c -> ~ calm0 ->
     R e (with_table (mg_objects g) (mg_next g) (sessions_ g) c (mg_generations g) g)) ->
  runs (load_material (credential_reference r k) what) g Q R.
Proof.
  intros Hin Hk HQ HR. unfold load_material. destruct (credential_reference r k) as [key|] eqn:Href.
  - apply runs_bind, on_control_attempt, (keeps_get st0 n calm0 r k key); [done..|]. intros x c Hc Hx.
    destruct x as [value|e]; [by apply HQ|]. apply HR; [done|]. intros [? [=]]%Hx.
  - apply runs_ret. specialize (HQ [] (mg_control g) Hin). by destruct g.
Qed.

Lemma make_tls_context_runs r g (Q : Result unit -> Manager S -> Prop) R :
  inside (mg_control g) -> kept_server st0 r ->
  (forall x c, inside c -> (calm0 -> x = success) ->
     Q x (with_table (mg_objects g) (mg_next g) (sessions_ g) c (mg_generations g) g)) ->
  runs (attempt (make_tls_context ca_certificate_path r)) g Q R.
Proof.
  intros Hin Hk HQ. apply runs_attempt.
  assert (forall e c, inside c -> ~ calm0 ->
    Q (Err e) (with_table (mg_objects g) (mg_next g) (sessions_ g) c (mg_generations g) g)) as HR.
  { intros e c Hc Hnc. apply HQ; [done|]. intros ?%Hnc. done. }
  apply runs_bind, (session_material_runs r ca_certificate); [done..| |exact HR]. intros ca c1 Hc1.
  apply runs_bind, (session_material_runs r client_certificate); [done..| |exact HR]. intros certificate c2 Hc2.
  apply runs_bind, (session_material_runs r client_private_key); [done..| |exact HR]. intros private_key c3 Hc3.
  apply runs_lift; intros x E; apply HQ; try done; intros Hc0; rewrite Htls in E by done; congruence.
Qed.

(** *** Sessions are replaced *)

Lemma replace_session_runs r configuration_changed g (Q : unit -> Manager S -> Prop) R :
  inside (mg_control g) -> table_wf g -> kept_server st0 r ->
  (forall g', concerns (str (sr_id r)) g g' ->
     renewed calm0 configuration_changed r (session_of g' (str (sr_id r))) -> Q tt g') ->
  runs (replace_session ca_certificate_path r configuration_changed) g Q R.
Proof.
  intros Hin Hw Hk HQ. unfold replace_session, renewed in *.
  apply runs_bind, (drop_session_runs st0 n calm0); [done..|]. intros c gens Hc.
  set (g1 := without _ _ _ _). assert (concerns (str (sr_id r)) g g1) as Ht1 by (by apply concerns_drop).
  pose proof Ht1 as [(_ & Hw1 & _) _].
  assert (session_of g1 (str (sr_id r)) = None) as Hn1.
  { unfold g1. rewrite drop_session_of by done. by destruct (decide _). }
  destruct (_ || _); [|by apply runs_ret, HQ].
  apply runs_bind, make_tls_context_runs; [done..|]. intros x c2 Hc2 Hx.
  set (g2 := with_table _ _ _ _ _ g1).
  assert (concerns (str (sr_id r)) g g2) as Ht2.
  { eapply concerns_trans; [exact Ht1|by apply concerns_stores]. }
  destruct x as [[]|e].
  - apply (HQ (started (str (sr_id r)) r g2 c2 (mg_generations g2))).
    + eapply concerns_trans; [exact Ht2|]. pose proof Ht2 as [(_ & Hw2 & _) _]. apply concerns_start; [done..|].
      simpl. apply lookup_delete_eq.
    + left. rewrite start_session_of by (by destruct Ht2 as [(_ & ? & _) _]). by destruct (decide _).
  - apply runs_ret, HQ; [done|]. right. split; [done|]. intros Hc0. by specialize (Hx Hc0).
Qed.

(** *** What is removed is erased *)

Lemma erase_removed_runs l g (Q : unit -> Manager S -> Prop) R :
  inside (mg_control g) ->
  (forall c, inside c -> Q tt (with_table (mg_objects g) (mg_next g) (sessions_ g) c (mg_generations g) g)) ->
  runs (erase_removed l) g Q R.
Proof.
  revert g. induction l as [|t l IH]; intros g Hin HQ; simpl.
  { apply runs_ret. specialize (HQ (mg_control g) Hin). by destruct g. }
  apply runs_bind. case_bool_decide; [|by apply runs_ret, IH].
  apply on_control_attempt, runs_attempt. eapply runs_mono; [by apply (keeps_erase_tunnel st0)|..];
    intros x c Hc; apply IH; done.
Qed.

Lemma purge_removed_tunnels_runs r g (Q : unit -> Manager S -> Prop) R :
  inside (mg_control g) ->
  (forall c, inside c -> Q tt (with_table (mg_objects g) (mg_next g) (sessions_ g) c (mg_generations g) g)) ->
  runs (purge_removed_tunnels limits r) g Q R.
Proof.
  intros Hin HQ. apply runs_bind, on_control_attempt.
  eapply runs_mono; [by apply (keeps_list_by_server limits Hlimits st0 n calm0)|..]; [|done].
  intros [l|e] c Hc; [|by apply HQ]. by apply erase_removed_runs.
Qed.

Lemma purge_removed_server_runs r g (Q : bool -> Manager S -> Prop) R :
  inside (mg_control g) -> buried st0 r ->
  (forall b c, inside c -> Q b (with_table (mg_objects g) (mg_next g) (sessions_ g) c (mg_generations g) g)) ->
  runs (purge_removed_server r) g Q R.
Proof.
  intros Hin Hb HQ. apply runs_bind, on_control_attempt.
  eapply runs_mono; [by apply (keeps_cleanup st0 n calm0 r Hb)|..]; [|done].
  intros [[]|e] c Hc; [|by apply HQ]. apply runs_bind, on_control_attempt, runs_attempt.
  eapply runs_mono; [by apply (keeps_erase_server st0)|..]; intros x c' Hc'; by apply HQ.
Qed.

(** *** The body of the loop *)

(** The records a pass is given. *)
Definition listed_record r : Prop :=
  (sr_desired_state r = ServerDesiredState.removed -> buried st0 r) /\
  (sr_desired_state r <> ServerDesiredState.removed -> kept_server st0 r).

(** The session of a server that is due, when the table has one or not. *)
Lemma retain_session_runs notify_sessions r g (Q : unit -> Manager S -> Prop) R :
  inside (mg_control g) -> table_wf g -> kept_server st0 r -> due r = true ->
  (forall g', concerns (str (sr_id r)) g g' ->
     session_after calm0 notify_sessions r (session_of g (str (sr_id r))) (session_of g' (str (sr_id r))) ->
     Q tt g') ->
  runs (match (i ← sessions_ g !! str (sr_id r); s ← mg_objects g !! i; Some (i, s)) with
        | None => replace_session ca_certificate_path r false
        | Some (i, s) =>
            let configuration_changed := negb (matches s r) in
            let restart_authentication :=
              bool_decide (terminal_state_ s = TerminalState.authentication_failed)
              && bool_decide (sr_actual_state r = ServerActualState.disconnected) in
            _ ← (if configuration_changed then mret tt
                 else on_session i (refresh_config_revision (sr_config_revision r)));
            if configuration_changed || restart_authentication
            then replace_session ca_certificate_path r configuration_changed
            else if notify_sessions then on_session i session_notify
            else mret tt
        end) g Q R.
Proof.
  intros Hin Hw Hk Hdue HQ. unfold session_after in HQ. rewrite Hdue in HQ.
  set (id := str (sr_id r)) in *. 
  change (session_of g id) with (i ← sessions_ g !! id; mg_objects g !! i) in HQ.
  destruct (sessions_ g !! id) as [i|] eqn:Hi; [|apply replace_session_runs; [done..|exact HQ]]. simpl in *.
  destruct (mg_objects g !! i) as [s|] eqn:Hs; [|apply replace_session_runs; [done..|exact HQ]]. simpl.
  destruct (matches s r) eqn:Hm; simpl in *.
  2: { apply runs_bind, runs_ret. apply replace_session_runs; [done..|exact HQ]. }
  apply runs_bind.
  set (g1 := changed i (refresh_config_revision (sr_config_revision r)) g (mg_control g) (mg_generations g)).
  change (runs (fun g => on_session i (refresh_config_revision (sr_config_revision r)) g) g
    (fun _ g1 => runs (if restarts s r then replace_session ca_certificate_path r false
                       else if notify_sessions then on_session i session_notify else mret tt) g1 Q R) R).
  assert (concerns id g g1) as Ht1 by (apply concerns_change; [done..|apply refresh_flags]).
  assert (session_of g1 id = Some (refresh_config_revision (sr_config_revision r) s)) as Hv1.
  { unfold g1. rewrite (change_session_of id) by done. destruct (decide _); [|done].
    unfold session_of. by rewrite Hi; simpl; rewrite Hs. }
  change (runs (if restarts s r then replace_session ca_certificate_path r false
                else if notify_sessions then on_session i session_notify else mret tt) g1 Q R).
  pose proof Ht1 as [(Hin1 & Hw1 & _) _]. destruct (restarts s r).
  - apply replace_session_runs; [done..|]. intros g' Ht' Hv'. apply HQ; [by eapply concerns_trans|done].
  - destruct notify_sessions; [|by apply runs_ret, HQ].
    set (g2 := changed i session_notify g1 (mg_control g1) (mg_generations g1)). apply (HQ g2).
    + eapply concerns_trans; [exact Ht1|]. apply concerns_change; [done..|apply notify_flags].
    + unfold g2. rewrite (change_session_of id) by done. destruct (decide _); [|done]. by rewrite Hv1.
Qed.

Lemma reconcile_record_runs notify_sessions r g (Q : bool -> Manager S -> Prop) R :
  inside (mg_control g) -> table_wf g -> listed_record r ->
  (forall g', concerns (str (sr_id r)) g g' ->
     session_after calm0 notify_sessions r (session_of g (str (sr_id r))) (session_of g' (str (sr_id r))) ->
     Q (due r) g') ->
  runs (reconcile_record limits ca_certificate_path notify_sessions r) g Q R.
Proof.
  intros Hin Hw [Hb Hk] HQ. unfold reconcile_record. cbv zeta. set (id := str (sr_id r)) in *.
  assert (forall g1 c gens, due r = false -> concerns id g g1 -> inside c ->
            session_of (without id g1 c gens) id = None /\ concerns id g (without id g1 c gens)) as Hdrop.
  { intros g1 c gens Hd Ht1 Hc. pose proof Ht1 as [(_ & Hw1 & _) _]. split.
    - rewrite drop_session_of by done. by destruct (decide _).
    - eapply concerns_trans; [exact Ht1|]. by apply concerns_drop. }
  unfold session_after in HQ. destruct (due r) eqn:Hdue.
  - unfold due in Hdue. apply andb_true_iff in Hdue as [He%bool_decide_eq_true Hc%negb_true_iff].
    assert (sr_desired_state r <> ServerDesiredState.removed) as Hd by (by rewrite He).
    rewrite (bool_decide_false (_ = ServerDesiredState.removed)) by done.
    apply runs_bind, purge_removed_tunnels_runs; [done|]. intros c Hc1. rewrite Hc.
    rewrite (bool_decide_true (_ = ServerDesiredState.enabled)) by done. cbn [negb orb].
    set (g1 := with_table _ _ _ _ _ _). assert (concerns id g g1) as Ht1 by (by apply concerns_stores).
    apply runs_bind. unfold runs at 1, ST_get. apply runs_bind, retain_session_runs; try done.
    { by apply Hk. }
    { unfold due. by rewrite bool_decide_true, Hc. }
    intros g' Ht' Hv'. apply runs_ret. apply HQ; [exact (concerns_trans _ _ _ _ Ht1 Ht')|].
    unfold session_after, due in Hv'. rewrite bool_decide_true, Hc in Hv' by done. exact Hv'.
  - case_bool_decide as Hd.
    + apply runs_bind, (drop_session_runs st0 n calm0); [done..|]. intros c gens Hc.
      destruct (Hdrop g c gens eq_refl) as [Hv1 Ht1]; [by apply concerns_refl|done|].
      apply runs_bind, purge_removed_server_runs; [done|by apply Hb|]. intros b c2 Hc2. apply runs_ret, HQ.
      * eapply concerns_trans; [exact Ht1|]. apply concerns_stores; [by destruct Ht1 as [(_ & ? & _) _]|done].
      * exact Hv1.
    + apply runs_bind, purge_removed_tunnels_runs; [done|]. intros c Hc.
      set (g1 := with_table _ _ _ _ _ _). assert (concerns id g g1) as Ht1 by (by apply concerns_stores).
      unfold due in Hdue. rewrite <- negb_orb, negb_involutive in Hdue || idtac.
      replace (negb (bool_decide (sr_desired_state r = ServerDesiredState.enabled))
         || bool_decide (sr_credential_ref r = None)) with true.
      2: { destruct (bool_decide _), (bool_decide (sr_credential_ref r = None)); done. }
      apply runs_bind, (drop_session_runs st0 n calm0); [done..|]. intros c2 gens Hc2. apply runs_ret.
      destruct (Hdrop g1 c2 gens eq_refl Ht1 Hc2). by apply HQ.
Qed.

(** *** The loops *)

Abbreviation ids l := ((fun r => str (sr_id r)) <$> l).

Lemma reconcile_records_runs (notify_sessions : bool) (l : list ServerRecord) (retained : gset bytes) g (Q : gset bytes -> Manager S -> Prop) R :
  inside (mg_control g) -> table_wf g -> Forall listed_record l -> NoDup (ids l) ->
  (forall (kept : gset bytes) g', advances g g' ->
     (forall id, id ∈ kept <-> id ∈ retained \/ exists r, r ∈ l /\ due r = true /\ id = str (sr_id r)) ->
     (forall r, r ∈ l -> session_after calm0 notify_sessions r (session_of g (str (sr_id r)))
                           (session_of g' (str (sr_id r)))) ->
     (forall id : bytes, id ∉ ids l -> session_of g' id = session_of g id) -> Q kept g') ->
  runs (reconcile_records limits ca_certificate_path notify_sessions l retained) g Q R.
Proof.
  revert retained g. induction l as [|r l IH]; intros retained g Hin Hw Hl Hnd HQ; simpl.
  { apply runs_ret, HQ; [by destruct (concerns_refl [] g Hw Hin)| |set_solver|done].
    intros id. split; [by left|]. intros [?|(? & ?%not_elem_of_nil & _)]; done. }
  apply Forall_cons in Hl as [Hr Hl]. apply NoDup_cons in Hnd as [Hni Hnd].
  apply runs_bind, reconcile_record_runs; [done..|]. intros g1 [Ha1 Ho1] Hv1.
  pose proof Ha1 as (Hin1 & Hw1 & _). apply IH; [done..|]. intros kept g' Ha' Hkept Hv' Ho'. apply HQ.
  - by eapply advances_trans.
  - intros id. rewrite Hkept. destruct (due r) eqn:Hd.
    + rewrite elem_of_union, elem_of_singleton. split.
      * intros [[->|?]|(r' & ? & ?)]; [right; exists r|by left|right; exists r']; split_and!; try done; set_solver.
      * intros [?|(r' & [->|?]%elem_of_cons & ? & ->)]; [by left; right|by left; left|right; eauto].
    + split.
      * intros [?|(r' & ? & ?)]; [by left|right; exists r']; split; [set_solver|done].
      * intros [?|(r' & [->|?]%elem_of_cons & ? & ->)]; [by left|congruence|right; eauto].
  - intros r' [->|Hr']%elem_of_cons.
    + by rewrite (Ho' (str (sr_id r)) Hni).
    + specialize (Hv' r' Hr'). rewrite Ho1 in Hv'; [done|]. intros E. apply Hni. rewrite <- E.
      by apply (list_elem_of_fmap_2 (fun r => str (sr_id r))).
  - intros id Hid. rewrite fmap_cons, not_elem_of_cons in Hid. destruct Hid. by rewrite Ho', Ho1.
Qed.

Lemma unretained_cons (retained : gset bytes) (id id' : bytes) (l : list bytes) :
  (id ∈ retained -> id' ∈ l /\ id' ∉ retained <-> id' ∈ id :: l /\ id' ∉ retained) /\
  (id ∉ retained -> id' ∈ id :: l /\ id' ∉ retained <-> id' = id \/ id' ∈ l /\ id' ∉ retained).
Proof. set_solver. Qed.

Lemma drop_unretained_runs (retained : gset bytes) (l : list (bytes * nat)) g (Q : unit -> Manager S -> Prop) R :
  inside (mg_control g) -> table_wf g ->
  (forall g', advances g g' ->
     (forall id, session_of g' id =
        if decide (id ∈ l.*1 /\ id ∉ retained) then None else session_of g id) -> Q tt g') ->
  runs (drop_unretained retained l) g Q R.
Proof.
  revert g. induction l as [|[id i] l IH]; intros g Hin Hw HQ; simpl.
  { apply runs_ret, HQ; [by destruct (concerns_refl [] g Hw Hin)|]. intros id.
    destruct (decide _) as [[?%not_elem_of_nil _]|]; done. }
  apply runs_bind. case_bool_decide as Hret.
  - apply runs_ret, IH; [done..|]. intros g' Ha Hv. apply HQ; [done|]. intros id'. rewrite Hv. simpl.
    pose proof (unretained_cons retained id id' (l.*1)) as [Hiff _]. specialize (Hiff Hret).
    by repeat destruct (decide _); tauto.
  - apply (drop_session_runs st0 n calm0); [done..|]. intros c gens Hc. set (g1 := without id g c gens).
    destruct (concerns_drop id g c gens Hw Hc) as [Ha1 _]. fold g1 in Ha1. pose proof Ha1 as (_ & Hw1 & _).
    apply IH; [done..|]. intros g' Ha Hv. apply HQ; [by eapply advances_trans|]. intros id'. rewrite Hv.
    unfold g1. rewrite drop_session_of by done. simpl.
    pose proof (unretained_cons retained id id' (l.*1)) as [_ Hiff]. specialize (Hiff Hret).
    by repeat destruct (decide _); tauto.
Qed.

(** ** The pass *)

(** The session of a server after a pass. *)
Definition session_passed (notify_sessions : bool) g g' (id : bytes) : Prop :=
  match st_servers st0 !! id with
  | Some r => session_after calm0 notify_sessions r (session_of g id) (session_of g' id)
  | None => session_of g' id = None
  end.

Hypothesis Hwalk : forall m, walk_sessions m ≡ₚ map_to_list m.

Lemma listed_records (s : S) :
  valid_state st0 -> references_ok st0 s -> Forall listed_record (listed sr_created_at (st_servers st0)).
Proof.
  intros Hst Hok. apply Forall_forall. intros r [i Hm]%elem_of_listed.
  destruct (valid_server_id st0 i r Hst Hm) as (Hcan & Hkind & <-). split; [|by split]. intros Hd.
  split_and!; [done|done| |].
  - intros r' [Hm' Hd'] E. rewrite E in Hm'. congruence.
  - intros k key Href. by destruct (Hok r k key Hm Href).
Qed.

Lemma listed_nodup : valid_state st0 -> NoDup (ids (listed sr_created_at (st_servers st0))).
Proof.
  intros Hst. assert (ids (listed sr_created_at (st_servers st0)) =
    (order_by_created sr_created_at (map_to_list (st_servers st0))).*1) as ->.
  { unfold listed. rewrite <- list_fmap_compose. apply list_fmap_ext. intros j [i r] Hj. simpl.
    apply list_elem_of_lookup_2, elem_of_order_by_created in Hj.
    by destruct (valid_server_id st0 i r Hst Hj) as (_ & _ & ->). }
  unfold order_by_created. rewrite merge_sort_Permutation. apply NoDup_fst_map_to_list.
Qed.

Lemma session_of_none g id : table_wf g -> session_of g id = None <-> sessions_ g !! id = None.
Proof.
  intros [Hw _]. unfold session_of. destruct (sessions_ g !! id) as [i|] eqn:Hi; [|done]. simpl.
  destruct (Hw _ _ Hi) as (s & -> & _). done.
Qed.

Lemma walked_ids g id : id ∈ (walk_sessions (sessions_ g)).*1 <-> is_Some (sessions_ g !! id).
Proof.
  rewrite Hwalk, list_elem_of_fmap. split.
  - intros ([j i] & -> & Hin%elem_of_map_to_list). by eexists.
  - intros [i Hi]. exists (id, i). by rewrite elem_of_map_to_list.
Qed.

Lemma passed_ids (notify_sessions : bool) g g1 g2 (kept : gset bytes) :
  valid_state st0 -> table_wf g1 ->
  let l := listed sr_created_at (st_servers st0) in
  (forall id, id ∈ kept <-> id ∈ (∅ : gset bytes) \/ exists r, r ∈ l /\ due r = true /\ id = str (sr_id r)) ->
  (forall r, r ∈ l -> session_after calm0 notify_sessions r (session_of g (str (sr_id r)))
                        (session_of g1 (str (sr_id r)))) ->
  (forall id, id ∉ ids l -> session_of g1 id = session_of g id) ->
  (forall id, session_of g2 id =
     if decide (id ∈ (walk_sessions (sessions_ g1)).*1 /\ id ∉ kept) then None else session_of g1 id) ->
  forall id, session_passed notify_sessions g g2 id.
Proof.
  intros Hst Hw1 l Hkept Hv1 Ho1 Hv2 id. unfold session_passed. rewrite Hv2.
  assert (forall r, r ∈ l -> due r = true -> str (sr_id r) ∈ kept) as Hin.
  { intros r Hr Hd. apply Hkept. right. by exists r. }
  destruct (st_servers st0 !! id) as [r|] eqn:Hm.
  - assert (r ∈ l) as Hr by (apply elem_of_listed; by exists id).
    destruct (valid_server_id st0 id r Hst Hm) as (_ & _ & <-). specialize (Hv1 r Hr).
    destruct (decide _) as [[_ Hnot]|]; [|done]. unfold session_after in *.
    destruct (due r) eqn:Hd; [by destruct Hnot; apply Hin|done].
  - assert (id ∉ kept) as Hnk.
    { rewrite Hkept. intros [?%not_elem_of_empty|(r & [i Hi]%elem_of_listed & _ & ->)]; [done|].
      destruct (valid_server_id st0 i r Hst Hi) as (_ & _ & E). congruence. }
    destruct (decide _) as [|Hn]; [done|]. apply session_of_none; [done|].
    destruct (sessions_ g1 !! id) eqn:E; [|done]. destruct Hn. split; [|done]. apply walked_ids. by eexists.
Qed.

Lemma reconcile_runs (notify_sessions : bool) g :
  ready calm0 st0 n (mg_control g) -> table_wf g -> running_ g = true ->
  runs (reconcile limits ca_certificate_path notify_sessions) g
    (fun _ g' => inside (mg_control g') /\ table_wf g' /\ evolves g g' /\ running_ g' = true /\
       mg_timer g' = true /\
       ((sessions_ g' = sessions_ g /\ mg_objects g' = mg_objects g /\
         (calm0 -> max_servers limits < Z.of_nat (size (st_servers st0)))) \/
        forall id, session_passed notify_sessions g g' id)) never.
Proof.
  intros Hr Hw Hrun. pose proof Hr as (_ & Hst & Hok & _). unfold reconcile.
  apply runs_bind. unfold runs at 1, ST_get. rewrite Hrun. cbn [negb].
  apply runs_bind, on_control_attempt. eapply (calm_query n calm0);
    [exact Hr|apply reading_list_servers|apply steady_server_list|apply needs_usable|
     apply list_servers_quiet; [done|destruct Hlimits; lia]|].
  intros x db Hx Hcalm Hr1. set (g1 := with_table _ _ _ _ _ _).
  assert (inside (mg_control g1)) as Hin1 by (by exists st0).
  assert (table_wf g1) as Hw1 by exact Hw.
  destruct x as [l|e].
  2: { refine (conj Hin1 (conj Hw1 (conj _ (conj Hrun (conj _ _))))); [split; [by left|done]|simpl; by rewrite Hrun|].
       left. split_and!; [done..|]. intros Hc0. specialize (Hcalm Hc0).
       destruct (Z.ltb_spec (max_servers limits) (Z.of_nat (size (st_servers st0)))); [done|discriminate Hcalm]. }
  specialize (Hx l eq_refl). destruct (_ <? _); [discriminate Hx|]. injection Hx as <-.
  apply runs_bind, reconcile_records_runs; [done|done|by eapply listed_records|by apply listed_nodup|].
  intros kept g2 Ha2 Hkept Hv2 Ho2. pose proof Ha2 as (Hin2 & Hw2 & _). apply runs_bind. unfold runs at 1, ST_get.
  apply runs_bind, drop_unretained_runs; [done..|]. intros g3 Ha3 Hv3.
  destruct (advances_trans _ _ _ Ha2 Ha3) as (Hin3 & Hw3 & He3 & Hrun3 & _).
  refine (conj Hin3 (conj Hw3 (conj _ (conj _ (conj _ _))))).
  { exact He3. }
  { exact (eq_trans Hrun3 Hrun). }
  { simpl. rewrite Hrun3. change (running_ g || mg_timer g3 = true). by rewrite Hrun. }
  right. intros id. exact (passed_ids notify_sessions g1 g2 g3 kept Hst Hw2 Hkept Hv2 Ho2 Hv3 id).
Qed.
End Pass.
