(* ===== verification/Daemon.v ===== *)
(** * The daemon

    The control service, the server manager and the sessions work on the same stores.  The
    events of the daemon are the requests it answers, the calls and the timer of the server
    manager, and what the sessions write; each is taken as a whole.  The theorems are about
    every sequence of them, and about single passes and writes. *)
From stdpp Require Import sorting.
From S2P Require Import Prelude Common Ids Text Endpoint Models Rows Database Repository StorageSpec StorageRun Storage Reconciler Json IpcProtocol Credentials Control ControlRun ControlHandlers ControlServers ControlSagas ConfigFile Config ConfigRun ConfigApply ConfigService ControlService ServerManager ManagerRun ManagerPass.

(** ** Events *)

(** A call of the manager's operations, or of a session's. *)
Inductive DaemonEvent : Type :=
| Served (surroundings : Surroundings) (req : Request)
| Started (environment : ManagerEnvironment)
| Stopped (environment : ManagerEnvironment)
| Notified (environment : ManagerEnvironment)
| Reloaded (environment : ManagerEnvironment)
| TimerExpired (environment : ManagerEnvironment)
| AttemptBegan (session : nat)
| AttemptEnded (session : nat) (error : option Error)
| AttemptFinished (session : nat) (stopping : bool) (kind : AttemptKind.t)
| RunEnded (session : nat)
| StatePersisted (session : nat) (state : ServerActualState.t) (error : option Error)
    (attempt : Z) (latency_ms : option Z) (remote_server_id : bytes)
| TunnelPersisted (session : nat) (tunnel_id : Id) (revision : Z) (state : TunnelActualState.t)
    (error : option Error) (synchronized : bool)
| TunnelErased (tunnel_id : Id).

Section Events.
Context `{AsioAddress} `{SqliteMessages} `{JsonLibrary} {S : Type} `{CredentialStore S}.
Variables (limits : StorageLimits) (ca_certificate_path : bytes).

(** The daemon after an event, whatever the operation returns. *)
Definition handle (g : Manager S) (e : DaemonEvent) : Manager S :=
  match e with
  | Served surroundings req =>
      (on_control (fun c => (success, serve limits c (surroundings, req))) g).2
  | Started environment => (manager_start limits ca_certificate_path g).2
  | Stopped environment => (manager_stop g).2
  | Notified environment => (notify_changed limits ca_certificate_path g).2
  | Reloaded environment => (manager_reload limits ca_certificate_path g).2
  | TimerExpired environment => (reconcile_timer_expired limits ca_certificate_path g).2
  | AttemptBegan i => (begin_attempt i g).2
  | AttemptEnded i error => (mark_tunnels_pending i error g).2
  | AttemptFinished i stopping kind => (finish_attempt i stopping kind g).2
  | RunEnded i => (run_ended i g).2
  | StatePersisted i state error attempt latency_ms remote_server_id =>
      (persist_state i state error attempt latency_ms remote_server_id g).2
  | TunnelPersisted i tunnel_id revision state error synchronized =>
      (persist_tunnel_state i tunnel_id revision state error synchronized g).2
  | TunnelErased tunnel_id => (session_erase_tunnel tunnel_id g).2
  end.
End Events.

(** The table of sessions is walked in some order; the arguments of the sessions are values
    of their types, and the messages of tunnel states, which are literals of the code, are
    texts. *)
Definition event_wf (e : DaemonEvent) : Prop :=
  match e with
  | Started environment | Stopped environment | Notified environment | Reloaded environment
  | TimerExpired environment => forall m, walk_sessions m ≡ₚ map_to_list m
  | StatePersisted _ _ _ attempt _ _ => is_u32 attempt
  | TunnelPersisted _ _ revision _ error _ =>
      is_u64 revision /\
      forall e, error = Some e ->
        validate_text (message e) 0 kMaxErrorMessageBytes "last_error_message" = success
  | _ => True
  end.

(** ** Every session of the table is stopped *)

Section StopAll.
Context {S : Type}.
Implicit Types (g : Manager S) (f : ServerSession -> ServerSession).

Definition alter_all f (l : list nat) (m : gmap nat ServerSession) : gmap nat ServerSession :=
  fold_left (fun m i => alter f i m) l m.

(** [f] asks a session to stop. *)
Definition stops f : Prop := forall s, stop_requested (f s) = true /\
  (persistence_allowed_ s = false -> persistence_allowed_ (f s) = false).

Lemma stops_stop : stops session_stop.
Proof. by intros s. Qed.

Lemma stops_forbid : stops forbid_persistence.
Proof. by intros s. Qed.

Lemma alter_all_lookup f l m j s :
  stops f -> alter_all f l m !! j = Some s ->
  exists s0, m !! j = Some s0 /\ (stop_requested s = true \/ s = s0 /\ j ∉ l).
Proof.
  intros Hf. revert m. induction l as [|i l IH]; intros m Hs; simpl in Hs.
  { exists s. split; [done|]. right. split; [done|]. apply not_elem_of_nil. }
  destruct (IH _ Hs) as (s1 & Hs1 & Hor). destruct (decide (j = i)) as [->|Hne].
  - rewrite lookup_alter_eq in Hs1. apply fmap_Some in Hs1 as (s0 & Hs0 & ->). exists s0. split; [done|].
    left. destruct Hor as [|[-> _]]; [done|apply Hf].
  - rewrite lookup_alter_ne in Hs1 by done. exists s1. split; [done|].
    destruct Hor as [|[-> Hj]]; [by left|right]. by rewrite not_elem_of_cons.
Qed.

Lemma alter_all_superseded f l (m : gmap nat ServerSession) j s0 :
  stops f -> m !! j = Some s0 -> persistence_allowed_ s0 = false -> stop_requested s0 = true ->
  exists s, alter_all f l m !! j = Some s /\ persistence_allowed_ s = false /\ stop_requested s = true.
Proof.
  intros Hf. revert m s0. induction l as [|i l IH]; intros m s0 Hm Hp Hst; simpl; [by exists s0|].
  destruct (change_lookup i f m j s0 Hm) as (s & Hs & [->| ->]); [by eapply IH|].
  apply (IH _ (f s0)); [done|by apply Hf|by apply Hf].
Qed.

(** The table is emptied after every session of it was asked to stop. *)
Lemma emptied_wf f (l : list (bytes * nat)) g c gens count running timer :
  stops f -> table_wf g -> l ≡ₚ map_to_list (sessions_ g) ->
  table_wf (mkManager (S := S) c gens (alter_all f l.*2 (mg_objects g)) (mg_next g) ∅ count running timer).
Proof.
  intros Hf [Hw1 Hw2] Hl. split; simpl; [done|]. intros j s Hs.
  destruct (alter_all_lookup f _ _ j s Hf Hs) as (s0 & Hs0 & Hor). destruct (Hw2 _ _ Hs0) as [Hlt Hcase].
  split; [done|left]. destruct Hor as [|[-> Hj]]; [done|]. destruct Hcase as [|Hi]; [done|]. destruct Hj.
  rewrite Hl. apply list_elem_of_fmap. eexists (_, j). split; [done|]. by apply elem_of_map_to_list.
Qed.

Lemma stop_all_result (l : list (bytes * nat)) g :
  stop_all l g = (success, with_table (alter_all session_stop l.*2 (mg_objects g)) (mg_next g) (sessions_ g)
                             (mg_control g) (mg_generations g) g).
Proof.
  revert g. induction l as [|[id i] l IH]; intros g; simpl; [by destruct g|].
  unfold mbind, ST_bind, on_session. by rewrite IH.
Qed.
End StopAll.

(** ** The events keep the stores and the table *)

Section Keep.
Context `{AsioAddressLaws} `{SqliteMessages} {S : Type} `{CredentialStoreLaws S}.
Variables (limits : StorageLimits) (Hlimits : limits_wf limits) (ca_certificate_path : bytes).
Implicit Types (c : Control S) (g : Manager S).

(** The stores fit together, and the table of sessions is well formed. *)
Definition daemon_wf g : Prop :=
  consistent (mg_control g) /\ entropy_wf (mg_control g) /\ table_wf g.

Lemma ready_consistent st n c : ready False st n c -> consistent c /\ entropy_wf c.
Proof. intros (Hr & Hst & Hok & _ & [He _] & _). split; [by exists st|done]. Qed.

Lemma consistent_stands c :
  consistent c -> entropy_wf c -> exists st, ready False st (notified c) c.
Proof.
  intros (st & Hr & Hst & Hok) He. exists st. eapply ready_weaken. by apply consistent_ready.
Qed.

(** After an event: what was superseded is superseded. *)
Definition kept_daemon g g' : Prop := daemon_wf g' /\ forall i, superseded g i -> superseded g' i.

Lemma inside_consistent st0 n c : inside st0 n False c -> consistent c /\ entropy_wf c.
Proof. intros (st & Hr & _). by eapply ready_consistent. Qed.

(** Changes of the stores only. *)
Lemma stores_kept g c gens :
  table_wf g -> consistent c -> entropy_wf c ->
  kept_daemon g (with_table (mg_objects g) (mg_next g) (sessions_ g) c gens g).
Proof. intros Hw Hc He. split; [by refine (conj Hc (conj He _))|done]. Qed.

(** A pass, also of a manager that is not running. *)
Lemma reconcile_kept `{ManagerEnvironment} (notify_sessions : bool) g :
  (forall m, walk_sessions m ≡ₚ map_to_list m) -> daemon_wf g ->
  kept_daemon g (reconcile limits ca_certificate_path notify_sessions g).2.
Proof.
  intros Hwalk (Hc & He & Hw). destruct (consistent_stands _ Hc He) as [st Hr].
  destruct (running_ g) eqn:Hrun.
  - pose proof (reconcile_runs limits Hlimits ca_certificate_path st _ False (fun f => match f with end)
      Hwalk notify_sessions g Hr Hw Hrun) as Hrec. unfold runs in Hrec.
    destruct (reconcile _ _ _ g) as [[[]|e] g']; [|done]. destruct Hrec as (Hin & Hw' & [_ Hsup] & _).
    destruct (inside_consistent _ _ _ Hin). by split; [refine (conj _ (conj _ Hw'))|].
  - unfold reconcile, mbind, ST_bind, ST_get. rewrite Hrun. by split; [refine (conj _ (conj _ Hw))|].
Qed.

Lemma on_reconciler_kept {A} (m : Z -> Action Reconciler A) g :
  (forall st0 n now, reconciles (S := S) st0 n False (m now)) -> daemon_wf g ->
  exists c gens, consistent c /\ entropy_wf c /\
    (on_reconciler m g).2 = with_table (mg_objects g) (mg_next g) (sessions_ g) c gens g.
Proof.
  intros Hm (Hc & He & Hw). destruct (consistent_stands _ Hc He) as [st Hr].
  assert (inside st (notified (mg_control g)) False (mg_control g)) as Hin by (by exists st).
  pose proof (on_reconciler_runs st _ False m g
    (fun _ g' => exists c gens, consistent c /\ entropy_wf c /\
       g' = with_table (mg_objects g) (mg_next g) (sessions_ g) c gens g) (fun _ _ => False)
    (Hm st _) Hin) as Hrun.
  unfold runs, attempt in Hrun. destruct (on_reconciler m g) as [x g']. apply Hrun.
  intros _ c gens Hc'. exists c, gens. destruct (inside_consistent _ _ _ Hc'). by split_and!.
Qed.

Lemma supersede_all_runs (l : list (bytes * nat)) st0 n g (Q : unit -> Manager S -> Prop) R :
  inside st0 n False (mg_control g) -> (forall i, i ∈ l.*2 -> is_Some (mg_objects g !! i)) ->
  (forall c gens, inside st0 n False c ->
     Q tt (with_table (alter_all forbid_persistence l.*2 (mg_objects g)) (mg_next g) (sessions_ g) c gens g)) ->
  runs (supersede_all l) g Q R.
Proof.
  revert g. induction l as [|[id i] l IH]; intros g Hin Hl HQ; simpl.
  { apply runs_ret. specialize (HQ (mg_control g) (mg_generations g) Hin). by destruct g. }
  destruct (Hl i) as [s Hs]; [by left|]. apply runs_bind, (supersede_runs st0 n False i s); [done..|].
  intros c gens Hc. apply IH; [done| |intros c' gens' Hc'; by apply HQ]. intros j Hj. simpl.
  destruct (Hl j) as [s' Hs']; [by right|]. destruct (change_lookup i forbid_persistence _ j s' Hs') as (s2 & -> & _).
  by eexists.
Qed.

Lemma stop_kept `{ManagerEnvironment} g :
  (forall m, walk_sessions m ≡ₚ map_to_list m) -> daemon_wf g -> kept_daemon g (manager_stop g).2.
Proof.
  intros Hwalk Hd. pose proof Hd as (Hc & He & Hw). unfold manager_stop, mbind, ST_bind, ST_get.
  destruct (running_ g); cbn [negb]; [|by split]. cbn. rewrite stop_all_result. cbn. split.
  - refine (conj Hc (conj He _)). by apply emptied_wf; [apply stops_stop| |].
  - intros j (s0 & Hs0 & Hp & Hst). by apply (alter_all_superseded _ _ _ _ s0); [apply stops_stop|..].
Qed.

Lemma reload_kept `{ManagerEnvironment} g :
  (forall m, walk_sessions m ≡ₚ map_to_list m) -> daemon_wf g ->
  kept_daemon g (manager_reload limits ca_certificate_path g).2.
Proof.
  intros Hwalk Hd. pose proof Hd as (Hc & He & Hw). destruct (consistent_stands _ Hc He) as [st Hr].
  assert (inside st (notified (mg_control g)) False (mg_control g)) as Hin by (by exists st).
  unfold manager_reload, mbind, ST_bind, ST_get. destruct (running_ g); cbn [negb]; [|by split].
  set (l := walk_sessions (sessions_ g)).
  assert (forall i, i ∈ l.*2 -> is_Some (mg_objects g !! i)) as Hl.
  { intros i. subst l. rewrite Hwalk, list_elem_of_fmap. intros ([id j] & -> & Hi%elem_of_map_to_list).
    destruct Hw as [Hw _]. destruct (Hw _ _ Hi) as (s & Hs & _). by eexists. }
  pose proof (supersede_all_runs l st _ g (fun _ g' => exists c gens, inside st (notified (mg_control g)) False c /\
       g' = with_table (alter_all forbid_persistence l.*2 (mg_objects g)) (mg_next g) (sessions_ g) c gens g)
    (fun _ _ => False) Hin Hl) as Hrun.
  unfold runs in Hrun. destruct (supersede_all l g) as [[[]|e] g1]; [|exfalso; by apply Hrun; eauto].
  destruct Hrun as (c & gens & Hc1 & ->); [by eauto|]. cbn.
  set (g2 := mkManager _ _ _ _ _ _ _ _). destruct (inside_consistent _ _ _ Hc1) as [Hc2 He2].
  destruct (reconcile_kept true g2 Hwalk) as [Hd' Hsup'].
  { refine (conj Hc2 (conj He2 _)). by apply emptied_wf; [apply stops_forbid| |apply Hwalk]. }
  split; [done|]. intros j (s0 & Hs0 & Hp & Hst). apply Hsup'.
  by apply (alter_all_superseded _ _ _ _ s0); [apply stops_forbid|..].
Qed.

(** *** Every event *)

Lemma begin_kept i g : daemon_wf g -> kept_daemon g (begin_attempt i g).2.
Proof.
  intros Hd. pose proof Hd as (Hc & He & Hw). unfold begin_attempt, mbind, ST_bind, ST_get.
  destruct (mg_objects g !! i) as [s|]; [|by split].
  destruct (on_reconciler_kept (begin_generation (sr_id (server_ s))) g) as (c & gens & Hc1 & He1 & E);
    [intros; apply reconciles_begin|done|].
  unfold attempt. destruct (on_reconciler _ g) as [x g1]. simpl in E. subst g1. destruct x as [generation|e]; simpl;
    (split; [refine (conj Hc1 (conj He1 _)); by apply (change_wf i _ g c gens)
            |by apply (change_evolves i _ g c gens)]).
Qed.

Lemma session_kept i f g : keeps_flags f -> daemon_wf g -> kept_daemon g (on_session i f g).2.
Proof.
  intros Hf (Hc & He & Hw).
  split; [refine (conj Hc (conj He _)); by apply (change_wf i f g (mg_control g) (mg_generations g))|].
  by apply (change_evolves i f g (mg_control g) (mg_generations g)).
Qed.

Lemma call_kept {A} (m : Z -> Action Reconciler A) g :
  (forall st0 n now, reconciles (S := S) st0 n False (m now)) -> daemon_wf g ->
  kept_daemon g (on_reconciler m g).2.
Proof.
  intros Hm Hd. destruct (on_reconciler_kept m g Hm Hd) as (c & gens & Hc & He & ->).
  apply stores_kept; [by destruct Hd as (_ & _ & ?)|done..].
Qed.

Lemma persist_state_kept i state error tries latency_ms remote_server_id g :
  is_u32 tries -> daemon_wf g ->
  kept_daemon g (persist_state i state error tries latency_ms remote_server_id g).2.
Proof.
  intros Htries Hd. pose proof Hd as (Hc & He & Hw). unfold persist_state, mbind, ST_bind, ST_get.
  destruct (mg_objects g !! i) as [s|]; [|by split]. destruct (negb _); [by split|].
  destruct (consistent_stands _ Hc He) as [st Hr].
  pose proof (persist_runs s state error tries latency_ms remote_server_id st _ _ _ Hr Htries) as Hrun.
  unfold runs in Hrun. unfold on_control. destruct (scoped _ (mg_control g)) as [[[]|e] c'].
  - destruct Hrun as (st' & _ & Hr'). destruct (ready_consistent _ _ _ Hr'). by apply stores_kept.
  - destruct Hrun as [Hr' _]. destruct (ready_consistent _ _ _ Hr'). by apply stores_kept.
Qed.

Lemma reconciles_transition st0 n calm0 sid tid generation revision state error synchronized now :
  op_wf (UpdateRuntimeState tid sid revision state error now synchronized) ->
  reconciles (S := S) st0 n calm0 (transition sid tid generation revision state error synchronized now).
Proof.
  intros Hwf. unfold transition. destruct (_ || _); [by apply reconciles_same|].
  apply reconciles_bind; [by apply reconciles_same|]. intros [|]; [|by apply reconciles_same].
  intros r c Hin. cbn [negb]. rewrite on_repository_database. apply keeps_state; [|done]. by apply keeps_transition.
Qed.

Lemma persist_tunnel_kept i tid revision state error synchronized g :
  event_wf (TunnelPersisted i tid revision state error synchronized) -> daemon_wf g ->
  kept_daemon g (persist_tunnel_state i tid revision state error synchronized g).2.
Proof.
  intros Hwf Hd. unfold persist_tunnel_state, mbind, ST_bind, ST_get.
  destruct (mg_objects g !! i) as [s|]; [|by split].
  pose proof (call_kept (transition (sr_id (server_ s)) tid (attempt_generation_ s) revision state error synchronized)
    g (fun st0 n now => reconciles_transition _ _ _ _ _ _ _ _ _ _ _ Hwf) Hd) as Hk.
  by destruct (on_reconciler _ g) as [[b|e] g'].
Qed.

Lemma ended_kept i error g : daemon_wf g -> kept_daemon g (mark_tunnels_pending i error g).2.
Proof.
  intros Hd. unfold mark_tunnels_pending, mbind, ST_bind, ST_get.
  destruct (mg_objects g !! i) as [s|]; [|by split]. apply call_kept; [|done]. intros. apply reconciles_end.
Qed.

Lemma erase_kept tid g : daemon_wf g -> kept_daemon g (session_erase_tunnel tid g).2.
Proof.
  intros (Hc & He & Hw). destruct (consistent_stands _ Hc He) as [st Hr].
  assert (inside st (notified (mg_control g)) False (mg_control g)) as Hin by (by exists st).
  pose proof (keeps_erase_tunnel st _ False tid _ Hin) as Hrun. unfold runs in Hrun.
  unfold session_erase_tunnel, on_control. destruct (on_db _ (mg_control g)) as [[[]|e] c'];
    destruct (inside_consistent _ _ _ Hrun); by apply stores_kept.
Qed.

Lemma manager_kept `{ManagerEnvironment} (timer notify_sessions : bool) g :
  (forall m, walk_sessions m ≡ₚ map_to_list m) -> daemon_wf g ->
  kept_daemon g (reconcile limits ca_certificate_path notify_sessions (set_running true timer g).2).2.
Proof. intros Hwalk Hd. exact (reconcile_kept notify_sessions (set_running true timer g).2 Hwalk Hd). Qed.
End Keep.

(** ** Histories *)

Section Histories.
Context `{AsioAddressLaws} `{SqliteMessages} `{JsonLibrary} {S : Type} `{CredentialStoreLaws S}.
Variables (limits : StorageLimits) (Hlimits : limits_wf limits) (ca_certificate_path : bytes).
Implicit Types (g : Manager S).
Abbreviation handle := (handle limits ca_certificate_path).

Lemma handle_kept g e :
  event_wf e -> daemon_wf g ->
  (forall st, at_rest st (state_db (mg_control g)) -> unclashing st (mg_control g)) ->
  kept_daemon g (handle g e).
Proof.
  intros Hwf Hd Hu. pose proof Hd as (Hc & He & Hw).
  destruct e as [env req|env|env|env|env|env|i|i error|i stopping kind|i|i state error tries latency remote|
                 i tid revision state error synchronized|tid]; cbn [Daemon.handle event_wf] in *.
  - destruct (serve_kept limits (mg_control g) (env, req)) as [Hc' He']; [done..|]. by apply stores_kept.
  - unfold manager_start, mbind, ST_bind, ST_get. destruct (running_ g); [by split|].
    by apply manager_kept.
  - by apply stop_kept.
  - unfold notify_changed, mbind, ST_bind, ST_get. destruct (running_ g); [|by split]. by apply reconcile_kept.
  - by apply reload_kept.
  - unfold reconcile_timer_expired, mbind, ST_bind, ST_get. destruct (mg_timer g); [|by split].
    destruct (running_ g); [|by split]. by apply manager_kept.
  - by apply begin_kept.
  - by apply ended_kept.
  - apply session_kept; [|done]. intros s. unfold finished_attempt. destruct (_ || _); [done|].
    by case_bool_decide.
  - by apply session_kept.
  - by apply persist_state_kept.
  - by apply persist_tunnel_kept.
  - by apply erase_kept.
Qed.

(** The identifiers the random source gives are never those of configured servers. *)
Definition never_clashing (events : list DaemonEvent) g : Prop :=
  forall k st, let c := mg_control (fold_left handle (take k events) g) in
    at_rest st (state_db c) -> unclashing st c.

Lemma history_kept events g :
  Forall event_wf events -> daemon_wf g -> never_clashing events g ->
  kept_daemon g (fold_left handle events g).
Proof.
  revert g. induction events as [|e events IH]; intros g Hwf Hd Hu; simpl; [by split|].
  apply Forall_cons in Hwf as [He Hwf].
  destruct (handle_kept g e He Hd (Hu 0%nat)) as [Hd1 Hs1].
  destruct (IH (handle g e) Hwf Hd1 (fun k => Hu (Datatypes.S k))) as [Hd2 Hs2].
  split; [done|]. intros i Hi. by apply Hs2, Hs1.
Qed.
End Histories.

(** ** Theorems *)

(** C16: a daemon that starts from stores that fit together and a well-formed table of
    sessions.  In whatever order it answers requests, starts, stops, reloads and reconciles
    its sessions and lets them write (each request, pass and write taken as a whole), and
    whatever statements, credential operations, TLS checks, file operations and callbacks
    fail meanwhile: the state database holds a valid state, and every credential a configured
    server refers to is a slot of that server and is in the credential store, also after the
    store is reopened.  A session that has not been asked to stop is the one its server has in
    the table of sessions, so that no server has two such sessions.  A session that was
    superseded before the history never again writes the state of its server: its calls of
    [persist_state] change nothing.  (What it may still try to write about tunnels is guarded
    by the generations of the reconciler, not by the session.)  The hypotheses: the
    identifiers drawn for servers are never those of configured ones ([never_clashing]); the
    table is walked in some order of all its entries, counters are in the range of their
    types, and the messages of tunnel states are valid texts ([event_wf]). *)
Theorem daemon_consistent `{AsioAddressLaws} `{SqliteMessages} `{JsonLibrary} {S} `{CredentialStoreLaws S}
    limits ca_certificate_path (events : list DaemonEvent) (g : Manager S) :
  limits_wf limits -> Forall event_wf events -> daemon_wf g ->
  never_clashing limits ca_certificate_path events g ->
  let g' := fold_left (handle limits ca_certificate_path) events g in
  consistent (mg_control g') /\
  (forall i s, mg_objects g' !! i = Some s -> stop_requested s = false ->
     sessions_ g' !! str (sr_id (server_ s)) = Some i) /\
  (forall i j s1 s2, mg_objects g' !! i = Some s1 -> mg_objects g' !! j = Some s2 ->
     stop_requested s1 = false -> stop_requested s2 = false ->
     sr_id (server_ s1) = sr_id (server_ s2) -> i = j) /\
  (forall i state error attempt latency_ms remote_server_id, superseded g i ->
     persist_state i state error attempt latency_ms remote_server_id g' = (success, g')).
Proof.
  intros Hl Hwf Hd Hu g'.
  destruct (history_kept limits Hl ca_certificate_path events g Hwf Hd Hu) as [(Hc & _ & _ & Hw) Hsup].
  fold g' in Hc, Hw, Hsup.
  assert (forall i s, mg_objects g' !! i = Some s -> stop_requested s = false ->
            sessions_ g' !! str (sr_id (server_ s)) = Some i) as Hone.
  { intros i s Hs Hst. destruct (Hw _ _ Hs) as [_ [?|?]]; [congruence|done]. }
  split; [done|]. split; [done|]. split.
  - intros i j s1 s2 H1' H2' Hs1 Hs2 E.
    apply Hone in H1'; [|done]. apply Hone in H2'; [|done]. rewrite E in H1'. congruence.
  - intros i state error tries latency_ms remote_server_id Hi. destruct (Hsup i Hi) as (s & Es & Hp & _).
    unfold persist_state, mbind, ST_bind, ST_get. by rewrite Es, Hp.
Qed.

(** Nothing outside the program fails during a pass: no statement, no operation of the
    credential store, no making of a TLS context. *)
Definition undisturbed_pass `{ManagerEnvironment} {S} `{CredentialContents S} (g : Manager S) : Prop :=
  undisturbed_run (mg_control g) /\
  forall path ca certificate private_key, session_tls_context path ca certificate private_key = success.

(** C17: a reconciliation pass.  It leaves the configuration as it is, erases removed records
    only, and arms the timer.  Unless the records cannot be listed, afterwards a server has
    a session exactly as its record asks for: none when it is removed, unknown, not enabled
    or without a credential; the session it had, with the revision of the record, when that
    session matches the record and does not wait for another authentication; otherwise a
    new one, which a server that is not authenticated gets only after a change of its
    configuration, and which fails to start only when a credential cannot be read or the
    TLS context cannot be made.  Sessions that leave the table are superseded. *)
Theorem manager_reconcile_exact `{AsioAddressLaws} `{SqliteMessages} `{ManagerEnvironment} {S}
    `{CredentialStoreLaws S} limits ca_certificate_path (notify_sessions : bool) st (g : Manager S) :
  limits_wf limits -> (forall m, walk_sessions m ≡ₚ map_to_list m) ->
  entropy_wf (mg_control g) -> at_rest st (state_db (mg_control g)) -> valid_state st ->
  references_ok st (credentials (mg_control g)) -> table_wf g -> running_ g = true ->
  let g' := (reconcile limits ca_certificate_path notify_sessions g).2 in
  exists st', committed (state_db (mg_control g')) = encode st' /\ valid_state st' /\
    references_ok st' (credentials (mg_control g')) /\ upheld st st' /\
    notified (mg_control g') = notified (mg_control g) /\ table_wf g' /\ mg_timer g' = true /\
    (forall id i, sessions_ g !! id = Some i -> sessions_ g' !! id = Some i \/ superseded g' i) /\
    ((sessions_ g' = sessions_ g /\ mg_objects g' = mg_objects g /\
      (undisturbed_pass g -> max_servers limits < Z.of_nat (size (st_servers st)))) \/
     forall id, session_passed st (undisturbed_pass g) notify_sessions g g' id).
Proof.
  intros Hl Hwalk He Hr Hst Hok Hw Hrun g'. set (undisturbed := undisturbed_pass g).
  assert (ready undisturbed st (notified (mg_control g)) (mg_control g)) as Hready.
  { pose proof (consistent_ready _ st Hr Hst Hok He) as (_ & _ & _ & _ & [_ Hs] & Hp).
    split_and!; try done; [split; [done|by intros [? _]; apply Hs]|by intros [? _]; apply Hp]. }
  pose proof (reconcile_runs limits Hl ca_certificate_path st _ undisturbed (fun H => proj2 H) Hwalk
    notify_sessions g Hready Hw Hrun) as Hrec. unfold runs in Hrec. subst g'.
  destruct (reconcile _ _ _ g) as [[[]|e] g']; [|done]. simpl.
  destruct Hrec as ((st' & ((Hc & _) & Hst' & Hok' & Hn & _) & Hup) & Hw' & [Hev _] & _ & Htimer & Hpass).
  exists st'. repeat (split; [done|]). done.
Qed.

(** The session [s], with the name [i], may write the state of its server. *)
Definition may_write {S} (g : Manager S) (i : nat) (s : ServerSession) : Prop :=
  mg_objects g !! i = Some s /\ persistence_allowed_ s = true.

(** C18: a session writes the state of its server only while it may, and only the runtime
    fields of the server's record, which must be enabled and have the revision the session
    was started or refreshed with; everything else stays as it is.  When nothing outside the
    program fails and the session may write, it does so unless there is no such record or
    the new one would be outside the limits of the storage. *)
Theorem session_persist_exact `{AsioAddressLaws} `{SqliteMessages} {S} `{CredentialStoreLaws S}
    i state error attempt latency_ms remote_server_id st (g : Manager S) :
  is_u32 attempt -> entropy_wf (mg_control g) -> at_rest st (state_db (mg_control g)) -> valid_state st ->
  references_ok st (credentials (mg_control g)) ->
  let g' := (persist_state i state error attempt latency_ms remote_server_id g).2 in
  mg_objects g' = mg_objects g /\ sessions_ g' = sessions_ g /\
  mg_generations g' = mg_generations g /\ notified (mg_control g') = notified (mg_control g) /\
  exists st', committed (state_db (mg_control g')) = encode st' /\ valid_state st' /\
    references_ok st' (credentials (mg_control g')) /\
    ((exists s, may_write g i s /\ persisted st s state error attempt latency_ms remote_server_id st') \/
     st' = st /\
     forall s, undisturbed_run (mg_control g) -> may_write g i s ->
       unpersistable st s state error attempt latency_ms remote_server_id).
Proof.
  intros Hatt He Hr Hst Hok g'. pose proof (consistent_ready _ st Hr Hst Hok He) as Hready.
  subst g'. unfold persist_state, mbind, ST_bind, ST_get. pose proof Hr as [Hc0 _].
  destruct (mg_objects g !! i) as [s|] eqn:Hs; 
    [|repeat (split; [done|]); exists st; repeat (split; [done|]); right; split; [done|]; intros s' _ [E _]; congruence].
  destruct (persistence_allowed_ s) eqn:Hp; cbn [negb].
  2: { repeat (split; [done|]). exists st. repeat (split; [done|]). right. split; [done|].
       intros s' _ [E ?]. congruence. }
  pose proof (persist_runs s state error attempt latency_ms remote_server_id st _ _ _ Hready Hatt) as Hrun.
  unfold runs in Hrun. unfold on_control. destruct (scoped _ (mg_control g)) as [[[]|e] c']; simpl.
  - destruct Hrun as (st' & Hor & (Hc & _) & Hst' & Hok' & Hn & _). repeat (split; [done|]).
    exists st'. repeat (split; [done|]). destruct Hor as [|[-> HW]]; [left; by exists s|right].
    split; [done|]. intros s' Hu [E _]. assert (s' = s) as -> by congruence. by apply HW.
  - destruct Hrun as [((Hc & _) & _ & Hok' & Hn & _) HW]. repeat (split; [done|]).
    exists st. repeat (split; [done|]). right. split; [done|]. intros s' Hu [E _]. assert (s' = s) as -> by congruence. by apply HW.
Qed.

(** ** Witnesses *)

#[local] Existing Instance sample_asio.
#[local] Existing Instance sample_asio_laws.
#[local] Existing Instance sample_messages.
#[local] Existing Instance sample_json.

Definition sample_manager_environment : ManagerEnvironment := {|
  session_tls_context := fun _ _ _ _ => success;
  walk_sessions := map_to_list |}.
#[local] Existing Instance sample_manager_environment.

(** A running manager whose session of the server was started for another endpoint. *)
Definition sample_moved_server : ServerRecord :=
  let r := sample_control_server in
  mkServerRecord (sr_id r) (sr_name r) (mkEndpoint (bs "old.example") 443 domain_name)
    (sr_credential_ref r) (sr_remote_server_id r) (sr_desired_state r) (sr_actual_state r)
    (sr_last_error_code r) (sr_last_error_message r) (sr_reconnect_attempt r) (sr_latency_ms r)
    (sr_created_at r) (sr_updated_at r) (sr_tls_server_name r) (sr_ca_credential_ref r)
    (sr_client_certificate_ref r) (sr_client_private_key_ref r) (sr_config_revision r)
    (sr_managed_by_config r).

Definition sample_manager : Manager SqliteCredentialStore :=
  mkManager sample_control ∅ {[0%nat := ServerSession_new sample_moved_server]} 1
    {[str (sr_id sample_control_server) := 0%nat]} 1 true false.

Lemma sample_manager_table : table_wf sample_manager.
Proof.
  split; simpl.
  - intros id i [<- <-]%lookup_singleton_Some. eexists. by rewrite lookup_singleton_eq.
  - intros i s [<- <-]%lookup_singleton_Some. split; [lia|]. right. by rewrite lookup_singleton_eq.
Qed.

Lemma sample_manager_wf : daemon_wf sample_manager.
Proof.
  split; [|split; [apply sample_control_entropy|apply sample_manager_table]].
  exists sample_control_state. split; [apply sample_control_at_rest|].
  split; [apply sample_control_valid|apply sample_control_references].
Qed.

Lemma sample_walk (m : gmap bytes nat) : walk_sessions m ≡ₚ map_to_list m.
Proof. done. Qed.

(** The daemon after a pass: the session for the other endpoint is superseded. *)
Definition sample_passed : Manager SqliteCredentialStore :=
  (reconcile default_storage_limits [] true sample_manager).2.

(** A configuration is applied, the manager reconciles, the new session of the server begins
    an attempt and connects, the superseded one tries to write, and the daemon stops. *)
Definition sample_events : list DaemonEvent :=
  [Served sample_surroundings (mkRequest 1 sample_request_id (bs "config.apply")
     (sample_params [("path", "/etc/minitun.json")]%string));
   Notified sample_manager_environment; AttemptBegan 1;
   StatePersisted 1 ServerActualState.connecting None 0 None [];
   StatePersisted 0 ServerActualState.error None 0 None [];
   Reloaded sample_manager_environment; Stopped sample_manager_environment].

Lemma sample_events_wf : Forall event_wf sample_events.
Proof. repeat (apply Forall_cons; split; [done || exact sample_walk|]). by apply Forall_nil. Qed.

(** Only the first event draws identifiers. *)
Lemma sample_events_entropy k : (0 < k)%nat ->
  entropy_ (mg_control (fold_left (handle default_storage_limits []) (take k sample_events) sample_passed)) =
  fun _ => None.
Proof.
  destruct k as [|[|[|[|[|[|[|k]]]]]]]; intros Hk; try lia;
    rewrite ?(take_ge sample_events) by (simpl; lia); vm_compute; reflexivity.
Qed.

Lemma sample_passed_entropy :
  entropy_ (mg_control sample_passed) = entropy_ sample_control /\
  Database.servers (committed (state_db (mg_control sample_passed)))
    !! bs "srv_01010101010101010101010101010101" = None.
Proof. split; vm_compute; reflexivity. Qed.

Lemma sample_never_clashing : never_clashing default_storage_limits [] sample_events sample_passed.
Proof.
  intros k st c Hr. apply unclashing_tables; [exact Hr|]. destruct k as [|k].
  - destruct sample_passed_entropy as [He Hs]. change (entropy_ c) with (entropy_ (mg_control sample_passed)).
    rewrite He. intros [|[|m]] i; simpl; intros Hi; [..|discriminate Hi]; injection Hi as <-; exact Hs.
  - assert (entropy_ c = fun _ => None) as -> by (apply sample_events_entropy; lia). intros m i [=].
Qed.

Lemma daemon_consistent_witness :
  let g' := fold_left (handle default_storage_limits []) sample_events sample_passed in
  consistent (mg_control g') /\
  persist_state 0 ServerActualState.error None 0 None [] g' = (success, g').
Proof.
  destruct (daemon_consistent default_storage_limits [] sample_events sample_passed)
    as (Hc & _ & _ & Hs).
  - apply default_limits_wf.
  - apply sample_events_wf.
  - unfold sample_passed. exact (proj1 (reconcile_kept default_storage_limits default_limits_wf [] true
      sample_manager sample_walk sample_manager_wf)).
  - apply sample_never_clashing.
  - split; [exact Hc|]. apply Hs. eexists. vm_compute. repeat (split; [reflexivity|]). reflexivity.
Defined.

Lemma manager_reconcile_exact_witness :
  let g' := (reconcile default_storage_limits [] true sample_manager).2 in
  session_of g' (str (sr_id sample_control_server)) = Some (ServerSession_new sample_control_server) /\
  superseded g' 0%nat.
Proof.
  destruct (manager_reconcile_exact default_storage_limits [] true sample_control_state sample_manager)
    as (st' & _ & _ & _ & _ & _ & _ & _ & Hsup & Hpass);
    [apply default_limits_wf|apply sample_walk|apply sample_control_entropy|apply sample_control_at_rest|
     apply sample_control_valid|apply sample_control_references|apply sample_manager_table|reflexivity|].
  assert (undisturbed_run (mg_control sample_manager) /\
    (forall path ca certificate private_key, session_tls_context path ca certificate private_key = success)) as Hcalm.
  { split; [apply sample_control_undisturbed|by intros]. }
  split.
  - destruct Hpass as [(_ & _ & Hmax)|Hpass].
    + specialize (Hmax Hcalm). vm_compute in Hmax. discriminate Hmax.
    + specialize (Hpass (str (sr_id sample_control_server))). destruct Hpass as [E|[_ Hn]]; [exact E|].
      destruct Hn. exact Hcalm.
  - destruct (Hsup (str (sr_id sample_control_server)) 0%nat) as [E|E]; [reflexivity| |exact E].
    vm_compute in E. discriminate E.
Defined.

(** The session of the server the sample database holds. *)
Definition sample_current_manager : Manager SqliteCredentialStore :=
  mkManager sample_control ∅ {[0%nat := ServerSession_new sample_control_server]} 1
    {[str (sr_id sample_control_server) := 0%nat]} 1 true false.

Lemma session_persist_exact_witness :
  let g' := (persist_state 0 ServerActualState.connecting None 0 None [] sample_current_manager).2 in
  exists updated_at, committed (state_db (mg_control g')) =
    encode (put_server (persisted_server ServerActualState.connecting None 0 None [] updated_at
                          sample_control_server) sample_control_state).
Proof.
  destruct (session_persist_exact 0 ServerActualState.connecting None 0 None [] sample_control_state
    sample_current_manager) as (_ & _ & _ & _ & st' & Hc & _ & _ & Hor);
    [done|apply sample_control_entropy|apply sample_control_at_rest|apply sample_control_valid|
     apply sample_control_references|].
  cbv zeta. rewrite Hc. destruct Hor as [(s & [E _] & r & u & [Hm _] & _ & _ & _ & _ & ->)|[_ Hno]].
  - exists u. simpl in Hm. apply lookup_singleton_Some in Hm as [_ <-]. reflexivity.
  - destruct (Hno (ServerSession_new sample_control_server) sample_control_undisturbed (conj eq_refl eq_refl) eq_refl
      sample_control_server) as (u & Hu & Hv); try reflexivity.
    { split; [reflexivity|discriminate]. }
    destruct Hv. clear Hc Hno. apply validate_server_iff. change (2000 <= u) in Hu.
    do 8 (split; [vm_compute; reflexivity|]). split; [by split; intros [? [=]]|].
    split; [discriminate|]. split; [discriminate|]. split; [reflexivity|]. split; [discriminate|].
    split; [by intros ? [=]|]. change (0 <= 1000 <= u). lia.
Defined.
