(* ===== verification/PolicyFile.v ===== *)
(** * The file of client policies

    How src/server/client_policy.cpp turns a file into a snapshot: [read_secure_file] over
    the system calls, [parse_policy_json] with the limits of the parser, the checks of one
    client's entry and [build_snapshot] over all of them.  What [open], [fstat] and [read]
    do, Asio's parser of addresses and the JSON library are parameters. *)
From stdpp Require Import sorting.
From S2P Require Import Prelude Common Ids Text PortRange Rows Json IpcPath ConfigFile ClientPolicy.

Definition kMaxPathBytes : Z := 4096.
Definition kMaxPolicyBytes : Z := 1024 * 1024.
Definition kMaxPskBytes : Z := 64 * 1024.
Definition kMaxJsonDepth : Z := 8.
Definition kMaxJsonNodes : Z := 20000.
Definition kMaxJsonStringBytes : Z := 4096.
Definition kSha256HexBytes : Z := 64.

(** ** Reading *)

(** [FileKind]. *)
Inductive SecureFileKind : Set := policy_file | secret_file.
#[export] Instance SecureFileKind_eq_decision : EqDecision SecureFileKind.
Proof. solve_decision. Defined.

Definition described (k : SecureFileKind) (text : string) : Error :=
  mkError invalid_argument
    ((if decide (k = secret_file) then bs "client PSK" else bs "client policy") ++ bs text).

(** [read_secure_file]. *)
Definition read_secure_file `{FileSystem} (path : bytes) (k : SecureFileKind) : Result bytes :=
  let secret := bool_decide (k = secret_file) in
  let limit := if secret then kMaxPskBytes else kMaxPolicyBytes in
  if bool_decide (path = []) || (kMaxPathBytes <? Zlen path) || bool_decide (kNul ∈ path) then
    Err (described k " path is invalid")
  else
    match open_file path with
    | inr error =>
        Err (mkError (if error =? kEacces then permission_denied else invalid_argument)
               (message (described k " file cannot be opened")))
    | inl file =>
        match of_status file with
        | None =>
            Err (mkError permission_denied
                   (message (described k " file must be one regular, non-linked file")))
        | Some status =>
            if negb (S_ISREG (fs_mode status)) || negb (fs_nlink status =? 1) then
              Err (mkError permission_denied
                     (message (described k " file must be one regular, non-linked file")))
            else if negb (fs_uid status =? effective_user)
                    || negb (Z.land (fs_mode status) (if secret then 0x3f else 0x12) =? 0) then
              failure permission_denied
                (if secret
                 then "client PSK file must be owned by the server user and inaccessible to others"
                 else "client policy file must be owned by the server user and not writable by others")
            else if (fs_size status <=? 0) || (limit <? fs_size status) then
              Err (described k " file size is invalid")
            else
              match read_all (of_reads file) (fs_size status) [] with
              | None => Err (described k " file could not be read completely")
              | Some data => Ok data
              end
        end
    end.

(** ** Parsing *)

Definition policy_limits : JsonLimits :=
  mkJsonLimits kMaxJsonDepth kMaxJsonNodes kMaxJsonStringBytes duplicate_key.

(** [parse_policy_json]. *)
Definition parse_policy_json `{JsonLibrary} (data : bytes) : Result Json :=
  if has_bom data then
    failure invalid_argument "client policy JSON must not contain a UTF-8 BOM"
  else
    match json_text data with
    | None => failure invalid_argument "client policy file is not strict JSON"
    | Some text =>
        match limit_failure (accept_all policy_limits (json_events text) ParseLimits_new) with
        | no_failure => Ok (as_parsed text)
        | duplicate_key => failure invalid_argument "client policy JSON contains a duplicate key"
        | _ => failure resource_exhausted "client policy JSON exceeds a parsing limit"
        end
    end.

(** ** Parts of an entry *)

(** [object.contains(field)]. *)
Definition has_field (field : string) (j : Json) : bool :=
  bool_decide (is_Some (json_find (bs field) j)).

(** [has_exact_fields]. *)
Definition has_exact_fields (object : Json) (allowed : list string) : bool :=
  is_object object && forallb (fun key => bool_decide (key ∈ map bs allowed)) (json_keys object).

Definition name_error (name : string) (text : string) : Error :=
  mkError invalid_argument (bs name ++ bs text).

(** [parse_limit]. *)
Definition parse_limit (value : option Json) (maximum : Z) (name : string) : Result Z :=
  match value with
  | Some (JUnsigned number) =>
      if (number =? 0) || (maximum <? number) || (2 ^ 64 - 1 <? number) then
        Err (name_error name " is outside the server limit")
      else Ok number
  | _ => Err (name_error name " must be an unsigned integer")
  end.

(** The loop of [parse_cidr_prefix]. *)
Fixpoint cidr_digits (text : bytes) (value : Z) : Result Z :=
  match text with
  | [] => Ok value
  | c :: text =>
      if is_ascii_digit c then cidr_digits text (value * 10 + digit_value c)
      else failure invalid_argument "CIDR prefix is invalid"
  end.

(** [parse_cidr_prefix]. *)
Definition parse_cidr_prefix (text : bytes) : Result Z :=
  if bool_decide (text = []) || (3 <? Zlen text) then
    failure invalid_argument "CIDR prefix is invalid"
  else cidr_digits text 0.

(** [is_lower_hex]; the same characters as in an identifier. *)
Definition is_lower_hex (value : bytes) : bool := forallb is_lowercase_hex value.

Definition san_prefixes : list bytes := map bs ["DNS:"; "URI:"; "EMAIL:"; "IP:"]%string.

Definition san_valid (value : bytes) : bool :=
  (Zlen value <=? 1024)
  && existsb (fun p => starts_with value p && (Zlen p <? Zlen value)) san_prefixes
  && negb (bool_decide (kNul ∈ value)).

(** [parse_certificate_binding]. *)
Definition parse_certificate_binding (entry : Json) : Result ClientCertificateBinding :=
  match json_find (bs "certificate_sha256") entry, json_find (bs "certificate_san") entry with
  | Some _, Some _ =>
      failure invalid_argument
        "a client policy may bind either a certificate fingerprint or SAN, not both"
  | Some (JString fingerprint), None =>
      if negb (Zlen fingerprint =? kSha256HexBytes) || negb (is_lower_hex fingerprint) then
        failure invalid_argument
          "certificate_sha256 must contain 64 lowercase hexadecimal characters"
      else Ok (mkCertificateBinding sha256 fingerprint)
  | Some _, None =>
      failure invalid_argument "certificate_sha256 must be a lowercase hexadecimal string"
  | None, Some (JString name) =>
      if san_valid name then Ok (mkCertificateBinding san name)
      else failure invalid_argument
             "certificate_san must use a non-empty DNS:, URI:, EMAIL:, or IP: value"
  | None, Some _ => failure invalid_argument "certificate_san must be a string"
  | None, None => Ok (mkCertificateBinding none [])
  end.

(** The loop of [load_psk] that drops line ends. *)
Fixpoint drop_line_ends (reversed : bytes) : bytes :=
  match reversed with
  | b :: rest =>
      if bool_decide (b = Byte.x0a) || bool_decide (b = Byte.x0d) then drop_line_ends rest
      else reversed
  | [] => []
  end.

Definition trim_line_ends (data : bytes) : bytes := reverse (drop_line_ends (reverse data)).

(** The path [load_psk] reads. *)
Definition psk_path (config_directory configured_path : bytes) : bytes :=
  lexically_normal
    (if is_absolute configured_path then configured_path
     else path_append config_directory configured_path).

(** [load_psk]. *)
Definition load_psk `{FileSystem} (config_directory configured_path : bytes) : Result bytes :=
  if bool_decide (configured_path = []) || (kMaxPathBytes <? Zlen configured_path)
     || bool_decide (kNul ∈ configured_path) then
    failure invalid_argument "psk_file path is invalid"
  else
    data ← read_secure_file (psk_path config_directory configured_path) secret_file;
    let secret := trim_line_ends data in
    if bool_decide (secret = []) then
      failure invalid_argument "client PSK file contains an empty secret"
    else Ok secret.

(** [ClientPolicyLimits]. *)
Record ClientPolicyLimits : Set := mkClientPolicyLimits {
  max_clients : Z;
  max_tunnels_per_client : Z;
  max_connections_per_client : Z;
  max_idle_workers_per_client : Z
}.

(** [asio::ip::make_address]; [None] when it reports an error. *)
Class AddressParser := { make_address : bytes -> option ip_address }.

(** An IPv4 address is a 32-bit number, an IPv6 address has 16 bytes. *)
Class AddressParserLaws `{AddressParser} : Prop := {
  make_address_wf text a : make_address text = Some a -> address_wf a
}.

(** The loop over [allowed_ports]. *)
Fixpoint parse_ranges (values : list Json) : Result (list PortRange) :=
  match values with
  | [] => Ok []
  | JString text :: values =>
      match PortRange_parse text with
      | Err _ =>
          failure invalid_argument "client policy contains an invalid allowed port range"
      | Ok range => ranges ← parse_ranges values; Ok (range :: ranges)
      end
  | _ :: _ => failure invalid_argument "allowed_ports entries must be strings"
  end.

Definition starts_before (l r : PortRange) : Prop := start l <= start r.
#[export] Instance starts_before_dec l r : Decision (starts_before l r).
Proof. unfold starts_before. apply _. Defined.

(** The loop over adjacent ranges. *)
Fixpoint ranges_disjoint (ranges : list PortRange) : bool :=
  match ranges with
  | r1 :: ((r2 :: _) as rest) => (end_ r1 <? start r2) && ranges_disjoint rest
  | _ => true
  end.

(** The ranges of an entry, sorted by their start.  [std::sort] may order ranges with the
    same start either way; they overlap and are refused in any order. *)
Definition parse_allowed_ports (values : list Json) : Result (list PortRange) :=
  if bool_decide (values = []) || (256 <? Zlen values) then
    failure invalid_argument "allowed_ports must contain between 1 and 256 ranges"
  else
    ranges ← parse_ranges values;
    let ranges := merge_sort starts_before ranges in
    if ranges_disjoint ranges then Ok ranges
    else failure invalid_argument "client policy allowed port ranges overlap or repeat".

Section Entries.
Context `{FileSystem} `{AddressParser} `{PolicyDigest}.

(** One round of the loop over [allowed_source_cidrs]. *)
Definition parse_cidr (text : bytes) : Result SourceCidr :=
  match find_char ch_slash text with
  | None => failure invalid_argument "allowed_source_cidrs entries must use CIDR notation"
  | Some slash =>
      if (slash =? 0)%nat || (length text <=? slash + 1)%nat then
        failure invalid_argument "allowed_source_cidrs entries must use CIDR notation"
      else
        match make_address (take slash text), parse_cidr_prefix (drop (slash + 1) text) with
        | Some address, Ok bits =>
            if (if is_v4 address then 32 else 128) <? bits then
              failure invalid_argument "allowed_source_cidrs contains an invalid network or prefix"
            else Ok (mkSourceCidr address bits)
        | _, _ =>
            failure invalid_argument "allowed_source_cidrs contains an invalid network or prefix"
        end
  end.

Fixpoint parse_cidrs (values : list Json) : Result (list SourceCidr) :=
  match values with
  | [] => Ok []
  | JString text :: values =>
      cidr ← parse_cidr text;
      cidrs ← parse_cidrs values;
      Ok (cidr :: cidrs)
  | _ :: _ => failure invalid_argument "allowed_source_cidrs entries must be strings"
  end.

Definition parse_source_cidrs (value : option Json) : Result (list SourceCidr) :=
  match value with
  | None => Ok []
  | Some (JArray values) =>
      if bool_decide (values = []) || (64 <? Zlen values) then
        failure invalid_argument "allowed_source_cidrs must be an array of 1..64 CIDR strings"
      else parse_cidrs values
  | Some _ =>
      failure invalid_argument "allowed_source_cidrs must be an array of 1..64 CIDR strings"
  end.

Definition parse_rate (value : option Json) : Result Z :=
  match value with
  | None => Ok 0
  | Some (JUnsigned rate) =>
      if 1000000 <? rate then
        failure invalid_argument "connections_per_minute must be an unsigned integer up to 1000000"
      else Ok rate
  | Some _ =>
      failure invalid_argument "connections_per_minute must be an unsigned integer up to 1000000"
  end.

(** The secret that was rotated out, with the end of its grace. *)
Definition parse_previous (config_directory : bytes) (entry : Json) :
    Result (option (bytes * Z)) :=
  match json_find (bs "previous_psk_file") entry,
        json_find (bs "previous_psk_expires_at") entry with
  | None, None => Ok None
  | Some (JString path), Some (JUnsigned expiry) =>
      if (expiry =? 0) || (2 ^ 63 - 1 <? expiry) then
        failure invalid_argument "previous_psk_expires_at is outside the valid unix time range"
      else
        secret ← load_psk config_directory path;
        Ok (Some (secret, expiry))
  | Some _, Some _ =>
      failure invalid_argument
        "previous_psk_file must be a string and previous_psk_expires_at an unsigned unix timestamp"
  | _, _ =>
      failure invalid_argument
        "previous_psk_file and previous_psk_expires_at must be configured together"
  end.

Definition client_fields : list string :=
  ["client_id"; "enabled"; "psk_file"; "allowed_ports"; "max_tunnels"; "max_connections";
   "max_idle_workers"; "certificate_sha256"; "certificate_san"; "allowed_source_cidrs";
   "connections_per_minute"; "previous_psk_file"; "previous_psk_expires_at"]%string.

(** [policy.revision_fingerprint = ...; policy.session_fingerprint = ...]. *)
Definition with_fingerprints (p : ClientPolicy) (revision session : bytes) : ClientPolicy :=
  mkClientPolicy (pol_client_id p) (pol_enabled p) (psk p) (previous_psk p)
    (previous_psk_valid_until p) (allowed_ports p) (max_tunnels p) (max_connections p)
    (max_idle_workers p) (certificate p) (allowed_source_cidrs p) (connections_per_minute p)
    revision session.

Definition entry_error {A} : Result A :=
  failure invalid_argument
    "each client policy must contain exactly typed identity, PSK, ACL, and quotas".

(** One round of the loop of [build_snapshot], up to the insertion. *)
Definition build_policy (config_directory : bytes) (limits : ClientPolicyLimits) (entry : Json) :
    Result ClientPolicy :=
  if negb (has_exact_fields entry client_fields) || negb (has_field "max_tunnels" entry)
     || negb (has_field "max_connections" entry) || negb (has_field "max_idle_workers" entry) then
    entry_error
  else
    match json_find (bs "client_id") entry, json_find (bs "enabled") entry,
          json_find (bs "psk_file") entry, json_find (bs "allowed_ports") entry with
    | Some (JString id), Some (JBool enabled), Some (JString psk_file), Some (JArray ports) =>
        match Id_parse_kind id client with
        | Err _ => failure invalid_argument "client policy contains an invalid client_id"
        | Ok parsed =>
            secret ← load_psk config_directory psk_file;
            previous ← parse_previous config_directory entry;
            ranges ← parse_allowed_ports ports;
            tunnels ← parse_limit (json_find (bs "max_tunnels") entry)
                        (max_tunnels_per_client limits) "max_tunnels";
            connections ← parse_limit (json_find (bs "max_connections") entry)
                            (max_connections_per_client limits) "max_connections";
            idle ← parse_limit (json_find (bs "max_idle_workers") entry)
                     (max_idle_workers_per_client limits) "max_idle_workers";
            binding ← parse_certificate_binding entry;
            cidrs ← parse_source_cidrs (json_find (bs "allowed_source_cidrs") entry);
            rate ← parse_rate (json_find (bs "connections_per_minute") entry);
            let policy :=
              mkClientPolicy (str parsed) enabled (Some secret) (fst <$> previous)
                (snd <$> previous) ranges tunnels connections idle binding cidrs rate [] [] in
            revision ← policy_fingerprint policy true;
            session ← policy_fingerprint (with_fingerprints policy revision []) false;
            Ok (with_fingerprints policy revision session)
        end
    | _, _, _, _ => entry_error
    end.

(** The loop of [build_snapshot]. *)
Fixpoint build_policies (config_directory : bytes) (limits : ClientPolicyLimits)
    (entries : list Json) (policies : gmap bytes ClientPolicy) : Result ClientPolicySnapshot :=
  match entries with
  | [] => Ok policies
  | entry :: entries =>
      policy ← build_policy config_directory limits entry;
      match policies !! pol_client_id policy with
      | Some _ => failure already_exists "client policy contains a duplicate client_id"
      | None =>
          build_policies config_directory limits entries (<[pol_client_id policy := policy]> policies)
      end
  end.

Definition limits_valid (limits : ClientPolicyLimits) : bool :=
  negb ((max_clients limits =? 0) || (100000 <? max_clients limits)
        || (max_tunnels_per_client limits =? 0) || (4096 <? max_tunnels_per_client limits)
        || (max_connections_per_client limits =? 0) || (100000 <? max_connections_per_client limits)
        || (max_idle_workers_per_client limits =? 0)
        || (4096 <? max_idle_workers_per_client limits)).

(** [build_snapshot]. *)
Definition build_snapshot (document : Json) (config_directory : bytes)
    (limits : ClientPolicyLimits) : Result ClientPolicySnapshot :=
  if negb (limits_valid limits) then
    failure invalid_argument "client policy server limits are invalid"
  else if negb (has_exact_fields document ["format_version"; "clients"]%string)
          || negb (Zlen (json_keys document) =? 2) then
    failure invalid_argument "client policy requires only format_version 1 and a clients array"
  else
    match json_find (bs "format_version") document, json_find (bs "clients") document with
    | Some (JUnsigned version), Some (JArray clients) =>
        if negb (version =? 1) then
          failure invalid_argument "client policy requires only format_version 1 and a clients array"
        else if bool_decide (clients = []) || (max_clients limits <? Zlen clients) then
          failure invalid_argument "client policy client count is outside the limit"
        else build_policies config_directory limits clients ∅
    | _, _ =>
        failure invalid_argument "client policy requires only format_version 1 and a clients array"
    end.

(** [load_snapshot]. *)
Definition load_snapshot `{JsonLibrary} (config_path : bytes) (limits : ClientPolicyLimits) :
    Result ClientPolicySnapshot :=
  data ← read_secure_file config_path policy_file;
  document ← parse_policy_json data;
  build_snapshot document (parent_path config_path) limits.
End Entries.

(** ** What an accepted entry satisfies *)

Lemma bind_Ok {A B} (m : Result A) (f : A -> Result B) b :
  (m ≫= f) = Ok b <-> exists a, m = Ok a /\ f a = Ok b.
Proof.
  destruct m as [a|e]; simpl; split; [by exists a|by intros (? & [= <-] & ?)|done|by intros (? & ? & _)].
Qed.

(** A secret in memory: no line end is left at its end. *)
Definition secret_wf (secret : bytes) : Prop :=
  secret <> [] /\ Zlen secret <= kMaxPskBytes /\
  last secret <> Some Byte.x0a /\ last secret <> Some Byte.x0d.

Definition certificate_wf (c : ClientCertificateBinding) : Prop :=
  match cert_kind c with
  | none => cert_value c = []
  | sha256 => Zlen (cert_value c) = 64 /\ is_lower_hex (cert_value c) = true
  | san => san_valid (cert_value c) = true
  end.

(** Ranges in ascending order without a common port. *)
Definition apart (l r : PortRange) : Prop := end_ l < start r.

Record policy_wf (limits : ClientPolicyLimits) (p : ClientPolicy) : Prop := {
  pw_id : canonical client (pol_client_id p);
  pw_secret : exists secret, psk p = Some secret /\ secret_wf secret;
  pw_previous :
    previous_psk p = None /\ previous_psk_valid_until p = None \/
    exists secret expiry, previous_psk p = Some secret /\
      previous_psk_valid_until p = Some expiry /\ secret_wf secret /\ 0 < expiry < 2 ^ 63;
  pw_ports : 1 <= Zlen (allowed_ports p) <= 256 /\ Forall PortRange_wf (allowed_ports p) /\
    StronglySorted apart (allowed_ports p);
  pw_limits : 1 <= max_tunnels p <= max_tunnels_per_client limits /\
    1 <= max_connections p <= max_connections_per_client limits /\
    1 <= max_idle_workers p <= max_idle_workers_per_client limits;
  pw_certificate : certificate_wf (certificate p);
  pw_sources : Zlen (allowed_source_cidrs p) <= 64 /\ Forall cidr_wf (allowed_source_cidrs p);
  pw_rate : 0 <= connections_per_minute p <= 1000000
}.

Lemma read_secure_file_inv `{FileSystem} path k data :
  read_secure_file path k = Ok data ->
  0 < Zlen data <= (if decide (k = secret_file) then kMaxPskBytes else kMaxPolicyBytes) /\
  exists file status, open_file path = inl file /\ of_status file = Some status /\
    S_ISREG (fs_mode status) = true /\ fs_nlink status = 1 /\ fs_uid status = effective_user /\
    Z.land (fs_mode status) (if decide (k = secret_file) then 0x3f else 0x12) = 0 /\
    read_all (of_reads file) (fs_size status) [] = Some data.
Proof.
  unfold read_secure_file. destruct (_ || _ || _); [done|].
  destruct (open_file path) as [file|error] eqn:Ef; [|done].
  destruct (of_status file) as [status|] eqn:Es; [|done].
  destruct (negb (S_ISREG _) || _) eqn:E1; [done|].
  destruct (negb (_ =? effective_user) || _) eqn:E2; [done|].
  destruct (_ || (_ <? _)) eqn:E3; [done|].
  destruct (read_all _ _ _) as [d|] eqn:Er; [|done]. intros [= <-].
  pose proof (read_all_length _ _ _ _ Er) as Hl.
  rewrite !orb_false_iff, ?negb_false_iff in E1, E2, E3. destruct E1, E2, E3.
  repeat match goal with
  | E : negb _ = false |- _ => apply negb_false_iff in E
  | E : (_ =? _) = true |- _ => apply Z.eqb_eq in E
  | E : (_ <=? _) = false |- _ => apply Z.leb_gt in E
  | E : (_ <? _) = false |- _ => apply Z.ltb_ge in E
  end.
  destruct k; simpl in *; (split; [lia|]); exists file, status; split_and!; done.
Qed.

Lemma drop_line_ends_suffix l : exists ends, l = ends ++ drop_line_ends l.
Proof.
  induction l as [|b l (ends & IH)]; simpl; [by exists []|].
  case_match; [|by exists []]. exists (b :: ends). simpl. by rewrite <- IH.
Qed.

Lemma drop_line_ends_head l b :
  head (drop_line_ends l) = Some b -> b <> Byte.x0a /\ b <> Byte.x0d.
Proof.
  induction l as [|c l IH]; simpl; [done|]. case_match eqn:E; [done|]. simpl. intros [= <-].
  apply orb_false_iff in E as [?%bool_decide_eq_false ?%bool_decide_eq_false]. done.
Qed.

Lemma load_psk_inv `{FileSystem} directory path secret :
  load_psk directory path = Ok secret ->
  secret_wf secret /\ exists data,
    read_secure_file (psk_path directory path) secret_file = Ok data /\ secret = trim_line_ends data.
Proof.
  unfold load_psk. destruct (_ || _ || _); [done|]. intros (data & Hr & Hd)%bind_Ok.
  cbv zeta in Hd. case_bool_decide as Hne; [done|]. injection Hd as <-. split; [|by exists data].
  destruct (read_secure_file_inv _ _ _ Hr) as [[_ Hl] _]. simpl in Hl.
  unfold trim_line_ends in *. destruct (drop_line_ends_suffix (reverse data)) as [ends Hs].
  split_and!; [done| | |].
  - apply (f_equal length) in Hs. rewrite length_reverse, length_app in Hs. unfold Zlen in *.
    rewrite length_reverse. lia.
  - rewrite last_reverse. intros Hh%drop_line_ends_head. naive_solver.
  - rewrite last_reverse. intros Hh%drop_line_ends_head. naive_solver.
Qed.

Lemma parse_ranges_wf values ranges :
  parse_ranges values = Ok ranges -> Forall PortRange_wf ranges /\ length ranges = length values.
Proof.
  revert ranges. induction values as [|[ | | | | |text| |] values IH]; intros ranges; simpl; try done.
  - by intros [= <-].
  - destruct (PortRange_parse text) as [range|] eqn:E; [|done].
    intros (rest & Hr & [= <-])%bind_Ok. destruct (IH _ Hr). apply PortRange_parse_wf in E.
    split; [by constructor|]. simpl. congruence.
Qed.

Lemma ranges_disjoint_apart ranges :
  Forall PortRange_wf ranges -> ranges_disjoint ranges = true -> StronglySorted apart ranges.
Proof.
  induction 1 as [|r ranges Hr Hf IH]; [constructor|]. intros Hd.
  assert (Hd' : ranges_disjoint ranges = true).
  { destruct ranges; [done|]. by apply andb_prop in Hd as [_ ?]. }
  specialize (IH Hd'). constructor; [done|]. destruct ranges as [|r2 ranges]; [constructor|].
  apply andb_prop in Hd as [Hlt%Z.ltb_lt _]. constructor; [done|].
  apply StronglySorted_inv in IH as [_ IH]. apply Forall_cons in Hf as [[H2 _] _].
  eapply Forall_impl; [exact IH|]. unfold apart. intros x Hx. lia.
Qed.

Lemma parse_allowed_ports_wf values ranges :
  parse_allowed_ports values = Ok ranges ->
  1 <= Zlen ranges <= 256 /\ Forall PortRange_wf ranges /\ StronglySorted apart ranges.
Proof.
  unfold parse_allowed_ports. destruct (bool_decide_reflect (values = [])); [done|].
  destruct (Z.ltb_spec 256 (Zlen values)); [done|]. simpl.
  intros (parsed & Hp & Hd)%bind_Ok. cbv zeta in Hd. case_match eqn:E; [|done].
  injection Hd as <-. destruct (parse_ranges_wf _ _ Hp) as [Hf Hl].
  pose proof (merge_sort_Permutation starts_before parsed) as Hperm.
  assert (Hf' : Forall PortRange_wf (merge_sort starts_before parsed)) by (by rewrite Hperm).
  split_and!; [| |done|by apply ranges_disjoint_apart].
  - unfold Zlen. rewrite Hperm, Hl. destruct values; [done|]. simpl. lia.
  - unfold Zlen in *. rewrite Hperm, Hl. lia.
Qed.

(** The order [std::sort] gives ranges with the same start does not matter: if one sorted
    arrangement is accepted, it is the only one. *)
Lemma sorted_ranges_unique l1 l2 :
  l1 ≡ₚ l2 -> Forall PortRange_wf l1 -> ranges_disjoint l1 = true -> Sorted starts_before l2 -> l1 = l2.
Proof.
  intros Hp Hw Hd Hs.
  assert (H1 : StronglySorted starts_before l1).
  { apply ranges_disjoint_apart in Hd; [|done]. clear Hp.
    induction Hd as [|r l _ IH Hf]; [constructor|]. apply Forall_cons in Hw as [Hr Hw].
    constructor; [by apply IH|]. eapply Forall_impl; [exact Hf|]. unfold apart, starts_before.
    intros x Hx. destruct Hr. lia. }
  apply ranges_disjoint_apart in Hd; [|done].
  assert (Ht : Transitive starts_before) by (unfold starts_before; intros ???; lia).
  apply Sorted_StronglySorted in Hs; [|done].
  revert l2 Hp Hs. induction l1 as [|r l1 IH]; intros l2 Hp Hs;
    [by apply Permutation_nil_l in Hp|].
  destruct l2 as [|r2 l2]; [by apply Permutation_nil_r in Hp|].
  apply Forall_cons in Hw as [Hr Hw]. apply StronglySorted_inv in Hd as [Hd Hd1].
  apply StronglySorted_inv in H1 as [H1 _]. apply StronglySorted_inv in Hs as [Hs Hs1].
  assert (r = r2) as <-.
  { assert (Hin : r2 ∈ r :: l1) by (rewrite Hp; by left). apply elem_of_cons in Hin as [->|Hin]; [done|].
    assert (Hin2 : r ∈ r2 :: l2) by (rewrite <- Hp; by left). apply elem_of_cons in Hin2 as [->|Hin2]; [done|].
    rewrite Forall_forall in Hd1, Hs1. specialize (Hd1 _ Hin). specialize (Hs1 _ Hin2).
    unfold apart, starts_before in *. destruct Hr. lia. }
  f_equal. apply IH; try done. by apply Permutation_cons_inv in Hp.
Qed.

(** A number a document contains is a 64-bit one. *)
Lemma find_field_numbers k fields v :
  forallb (fun x : bytes * Json => numbers_in_range x.2) fields = true ->
  find_field k fields = Some v -> numbers_in_range v = true.
Proof.
  induction fields as [|[k' v'] fields IH]; simpl; [done|]. intros [Hv Hf]%andb_prop.
  case_decide; [by intros [= <-]|]. by apply IH.
Qed.

Lemma json_find_numbers k j v :
  numbers_in_range j = true -> json_find k j = Some v -> numbers_in_range v = true.
Proof. destruct j; simpl; try done. apply find_field_numbers. Qed.

Lemma json_find_unsigned k j z :
  numbers_in_range j = true -> json_find k j = Some (JUnsigned z) -> 0 <= z < 2 ^ 64.
Proof.
  intros Hj Hf. pose proof (json_find_numbers _ _ _ Hj Hf) as Hz. simpl in Hz.
  apply andb_prop in Hz as [?%Z.leb_le ?%Z.ltb_lt]. lia.
Qed.

Lemma parse_limit_inv entry k maximum name number :
  numbers_in_range entry = true ->
  parse_limit (json_find k entry) maximum name = Ok number -> 1 <= number <= maximum.
Proof.
  intros Hn. unfold parse_limit. destruct (json_find k entry) as [v|] eqn:E; [|done].
  destruct v as [ | | |z| | | |]; try done. apply json_find_unsigned in E; [|done].
  destruct (Z.eqb_spec z 0); [done|]. destruct (Z.ltb_spec maximum z); [done|].
  destruct (_ <? z); [done|]. intros [= <-]. lia.
Qed.

Lemma cidr_digits_nonneg text value bits :
  0 <= value -> cidr_digits text value = Ok bits -> 0 <= bits.
Proof.
  revert value. induction text as [|c text IH]; intros value Hv; simpl; [by intros [= <-]|].
  destruct (is_ascii_digit c) eqn:E; [|done]. apply IH. unfold digit_value.
  unfold is_ascii_digit in E. apply andb_prop in E as [E%Z.leb_le _]. lia.
Qed.

Lemma parse_certificate_binding_wf entry c :
  parse_certificate_binding entry = Ok c -> certificate_wf c.
Proof.
  unfold parse_certificate_binding, certificate_wf.
  destruct (json_find _ entry) as [[]|], (json_find _ entry) as [[]|]; try done;
    try (by intros [= <-]).
  - destruct (Z.eqb_spec (Zlen value) kSha256HexBytes); [|done].
    destruct (is_lower_hex value) eqn:E; [|done]. by intros [= <-].
  - destruct (san_valid value) eqn:E; [|done]. by intros [= <-].
Qed.

Section Soundness.
Context `{FileSystem} `{AddressParserLaws} `{PolicyDigest}.

Lemma parse_cidr_wf text c : parse_cidr text = Ok c -> cidr_wf c.
Proof.
  unfold parse_cidr. destruct (find_char _ text) as [slash|]; [|done]. case_match; [done|].
  destruct (make_address _) as [a|] eqn:Ea; [|done].
  destruct (parse_cidr_prefix _) as [bits|] eqn:Ep; [|done].
  destruct (Z.ltb_spec (if is_v4 a then 32 else 128) bits); [done|]. intros [= <-].
  apply make_address_wf in Ea. split; [done|]. simpl.
  assert (0 <= bits).
  { clear H3. revert Ep. unfold parse_cidr_prefix. destruct (_ || _); [done|]. by apply cidr_digits_nonneg. }
  destruct a; simpl in *; lia.
Qed.

Lemma parse_source_cidrs_wf value cidrs :
  parse_source_cidrs value = Ok cidrs -> Zlen cidrs <= 64 /\ Forall cidr_wf cidrs.
Proof.
  unfold parse_source_cidrs. destruct value as [[ | | | | | |values|]|]; try done.
  2: { intros [= <-]. split; [done|constructor]. }
  case_match eqn:E; [done|]. apply orb_false_iff in E as [_ E%Z.ltb_ge]. intros Hp.
  assert (Hl : length cidrs = length values /\ Forall cidr_wf cidrs).
  { clear E. revert cidrs Hp. induction values as [|[ | | | | |text| |] values IH]; intros cidrs; simpl;
      try done; [by intros [= <-]|].
    intros (c & Hc%parse_cidr_wf & (rest & Hr & [= <-])%bind_Ok)%bind_Ok.
    destruct (IH _ Hr). simpl. split; [congruence|by constructor]. }
  destruct Hl as [Hl ?]. split; [|done]. unfold Zlen in *. lia.
Qed.

Lemma parse_previous_wf directory entry previous :
  numbers_in_range entry = true -> parse_previous directory entry = Ok previous ->
  match previous with
  | None => True
  | Some (secret, expiry) => secret_wf secret /\ 0 < expiry < 2 ^ 63
  end.
Proof.
  intros Hn. unfold parse_previous.
  destruct (json_find (bs "previous_psk_file") entry) as [f|] eqn:Ef,
    (json_find (bs "previous_psk_expires_at") entry) as [x|] eqn:Ex; try done;
    try (by destruct f; try destruct x).
  2: by intros [= <-].
  destruct f as [ | | | | |path| |]; try done. destruct x as [ | | |expiry| | | |]; try done.
  apply json_find_unsigned in Ex; [|done]. destruct (Z.eqb_spec expiry 0); [done|].
  destruct (Z.ltb_spec (2 ^ 63 - 1) expiry); [done|].
  intros (secret & [Hs _]%load_psk_inv & [= <-])%bind_Ok. split; [done|lia].
Qed.

Lemma fingerprint_ignores p revision session include_secrets :
  policy_fingerprint (with_fingerprints p revision session) include_secrets =
  policy_fingerprint p include_secrets.
Proof. done. Qed.

(** An accepted entry gives a well-formed policy that carries its own fingerprints. *)
Lemma build_policy_wf directory limits entry p :
  numbers_in_range entry = true -> build_policy directory limits entry = Ok p ->
  policy_wf limits p /\
  policy_fingerprint p true = Ok (revision_fingerprint p) /\
  policy_fingerprint p false = Ok (session_fingerprint p) /\
  json_find (bs "client_id") entry = Some (JString (pol_client_id p)).
Proof.
  intros Hn. unfold build_policy. case_match; [done|].
  destruct (json_find (bs "client_id") entry) as [[ | | | | |id| |]|]; try done.
  destruct (json_find (bs "enabled") entry) as [[ |enabled| | | | | |]|]; try done.
  destruct (json_find (bs "psk_file") entry) as [[ | | | | |psk_file| |]|]; try done.
  destruct (json_find (bs "allowed_ports") entry) as [[ | | | | | |ports|]|]; try done.
  destruct (Id_parse_kind id client) as [parsed|] eqn:Eid; [|done].
  intros (secret & [Hs _]%load_psk_inv & Hrest)%bind_Ok.
  apply bind_Ok in Hrest as (previous & Hp%parse_previous_wf & Hrest); [|done].
  apply bind_Ok in Hrest as (ranges & Hr%parse_allowed_ports_wf & Hrest).
  apply bind_Ok in Hrest as (tunnels & Ht%parse_limit_inv & Hrest); [|done].
  apply bind_Ok in Hrest as (connections & Hc%parse_limit_inv & Hrest); [|done].
  apply bind_Ok in Hrest as (idle & Hi%parse_limit_inv & Hrest); [|done].
  apply bind_Ok in Hrest as (binding & Hb%parse_certificate_binding_wf & Hrest).
  apply bind_Ok in Hrest as (cidrs & Hcs%parse_source_cidrs_wf & Hrest).
  apply bind_Ok in Hrest as (rate & Hrate & Hrest). cbv zeta in Hrest.
  apply bind_Ok in Hrest as (revision & Hrev & (session & Hses & [= <-])%bind_Ok).
  apply Id_parse_kind_ok in Eid as [-> Hid].
  split; [|by rewrite !fingerprint_ignores in *].
  split; simpl; try done.
  - by exists secret.
  - destruct previous as [[k t]|]; [right; by exists k, t|by left].
  - clear Hrev Hses. unfold parse_rate in Hrate.
    destruct (json_find (bs "connections_per_minute") entry) as [v|] eqn:Ev.
    2: { injection Hrate as <-. lia. }
    destruct v as [ | | |z| | | |]; try done. apply json_find_unsigned in Ev; [|done].
    destruct (Z.ltb_spec 1000000 z); [done|]. injection Hrate as <-. lia.
Qed.

(** The loop accepts a list of entries exactly when it accepts every one and no two have
    the same identifier. *)
Lemma build_policies_exact directory limits entries acc s :
  build_policies directory limits entries acc = Ok s <->
  exists policies, Forall2 (fun e p => build_policy directory limits e = Ok p) entries policies /\
    NoDup (pol_client_id <$> policies) /\
    (forall p, p ∈ policies -> acc !! pol_client_id p = None) /\
    s = foldl (fun (m : gmap bytes ClientPolicy) p => <[pol_client_id p := p]> m) acc policies.
Proof.
  unfold ClientPolicySnapshot in *. revert acc. induction entries as [|e entries IH]; intros acc; simpl.
  - split.
    + intros [= <-]. exists []. split_and!; [constructor|constructor| |done]. by intros p ?%elem_of_nil.
    + intros (policies & Hf & _ & _ & ->). by apply Forall2_nil_inv_l in Hf as ->.
  - rewrite bind_Ok. split.
    + intros (p & Hp & Hrest). case_match eqn:Ea; [done|].
      apply IH in Hrest as (policies & Hf & Hnd & Hfresh & ->). exists (p :: policies).
      assert (Hnp : pol_client_id p ∉ pol_client_id <$> policies).
      { intros (q & Eq & Hq)%list_elem_of_fmap. specialize (Hfresh _ Hq).
        by rewrite <- Eq, lookup_insert_eq in Hfresh. }
      split_and!; [by constructor|by constructor| |done].
      intros q [->|Hq]%elem_of_cons; [done|]. specialize (Hfresh _ Hq).
      destruct (decide (pol_client_id p = pol_client_id q)) as [Eq|Hne]; [congruence|].
      by rewrite lookup_insert_ne in Hfresh.
    + intros (policies & Hf & Hnd & Hfresh & ->). apply Forall2_cons_inv_l in Hf as (p & rest & Hp & Hf & ->).
      exists p. split; [done|]. rewrite Hfresh by (by left). apply IH. exists rest.
      apply NoDup_cons in Hnd as [Hnp Hnd]. split_and!; [done|done| |done].
      intros q Hq. destruct (decide (pol_client_id p = pol_client_id q)) as [Eq|Hne].
      * exfalso. apply Hnp. apply list_elem_of_fmap. by exists q.
      * rewrite lookup_insert_ne by done. apply Hfresh. by right.
Qed.

Lemma foldl_policies_lookup (policies : list ClientPolicy) (acc : gmap bytes ClientPolicy) :
  NoDup (pol_client_id <$> policies) -> (forall p, p ∈ policies -> acc !! pol_client_id p = None) ->
  (forall id p, foldl (fun (m : gmap bytes ClientPolicy) p => <[pol_client_id p := p]> m) acc policies !! id = Some p <->
     acc !! id = Some p \/ p ∈ policies /\ pol_client_id p = id) /\
  size (foldl (fun (m : gmap bytes ClientPolicy) p => <[pol_client_id p := p]> m) acc policies) = (size acc + length policies)%nat.
Proof.
  unfold ClientPolicySnapshot in *. revert acc. induction policies as [|q policies IH]; intros acc Hnd Hfresh; simpl.
  - split; [|lia]. intros id p. rewrite elem_of_nil. naive_solver.
  - apply NoDup_cons in Hnd as [Hq Hnd]. destruct (IH (<[pol_client_id q := q]> acc)) as [Hl Hs]; [done| |].
    { intros p Hp. rewrite lookup_insert_ne; [apply Hfresh; by right|]. intros E. apply Hq.
      apply list_elem_of_fmap. by exists p. }
    split.
    + intros id p. rewrite Hl, elem_of_cons. destruct (decide (pol_client_id q = id)) as [<-|Hne].
      * rewrite lookup_insert_eq, (Hfresh q) by (by left).
        split; [intros [[= <-]|[Hp Ep]]; [naive_solver|naive_solver]|].
        intros [?|[[->|Hp] Ep]]; [done|by left|]. exfalso. apply Hq. rewrite <- Ep.
        apply list_elem_of_fmap. by exists p.
      * rewrite lookup_insert_ne by done. naive_solver.
    + rewrite Hs, map_size_insert_None by (apply Hfresh; by left). lia.
Qed.

(** What a snapshot contains: every entry is accepted, and the policies are those of the
    entries and nothing else. *)
Definition snapshot_of (directory : bytes) (limits : ClientPolicyLimits) (entries : list Json)
    (s : ClientPolicySnapshot) : Prop :=
  size s = length entries /\
  Forall (fun e => exists p, build_policy directory limits e = Ok p) entries /\
  forall id p, s !! id = Some p <->
    pol_client_id p = id /\ exists e, e ∈ entries /\ build_policy directory limits e = Ok p.

Lemma build_snapshot_inv document directory limits s :
  build_snapshot document directory limits = Ok s ->
  limits_valid limits = true /\
  exists entries, json_find (bs "clients") document = Some (JArray entries) /\
    1 <= Zlen entries <= max_clients limits /\ snapshot_of directory limits entries s.
Proof.
  unfold build_snapshot. destruct (limits_valid limits); [|done]. simpl.
  destruct (_ || _); [done|].
  destruct (json_find (bs "format_version") document) as [[ | | |version| | | |]|]; try done.
  destruct (json_find (bs "clients") document) as [[ | | | | | |clients|]|]; try done.
  destruct (negb (version =? 1)); [done|]. destruct (bool_decide_reflect (clients = [])); [done|].
  destruct (Z.ltb_spec (max_clients limits) (Zlen clients)); [done|]. simpl.
  intros (policies & Hf & Hnd & Hfresh & ->)%build_policies_exact. split; [done|].
  unfold snapshot_of, ClientPolicySnapshot in *.
  exists clients. split; [done|]. split; [destruct clients; [done|]; rewrite Zlen_cons in *; unfold Zlen in *; lia|].
  destruct (foldl_policies_lookup policies ∅ Hnd Hfresh) as [Hl Hs]. split.
  - rewrite Hs, (Forall2_length _ _ _ Hf), map_size_empty. lia.
  - split; [clear -Hf; induction Hf; constructor; eauto|].
    intros id p. rewrite Hl, lookup_empty. split.
    + intros [?|[Hp Ep]]; [done|]. split; [done|].
      apply list_elem_of_lookup in Hp as [i Hi]. destruct (Forall2_lookup_r _ _ _ _ _ Hf Hi) as (e & He & Hb).
      exists e. split; [by eapply list_elem_of_lookup_2|done].
    + intros [Ep (e & He & Hb)]. right. split; [|done].
      apply list_elem_of_lookup in He as [i Hi]. destruct (Forall2_lookup_l _ _ _ _ _ Hf Hi) as (q & Hq & Hb').
      assert (p = q) as -> by congruence. by eapply list_elem_of_lookup_2.
Qed.
End Soundness.

(** ** The numbers of a document *)

(** The parser yields [uint64_t] for numbers that are not negative and [int64_t] for others;
    larger ones are floats, and a float out of range is an error. *)
Class JsonNumberLaws `{JsonLibrary} : Prop := {
  text_numbers data j : json_text data = Some j -> numbers_in_range j = true;
  text_floats data j : json_text data = Some j -> all_floats is_finite j = true
}.

Lemma emplace_field_numbers key value (fields : list (bytes * Json)) :
  numbers_in_range value = true -> forallb (fun x => numbers_in_range x.2) fields = true ->
  forallb (fun x => numbers_in_range x.2) (emplace_field key value fields) = true.
Proof.
  intros Hv. induction fields as [|[k v] fields IH]; simpl; [by rewrite Hv|].
  intros [Hk Hf]%andb_prop. case_decide; [simpl; by rewrite Hk, Hf|].
  case_match; simpl; [by rewrite Hv, Hk, Hf|]. by rewrite Hk, IH.
Qed.

Lemma sort_fields_numbers (fields : list (bytes * Json)) :
  forallb (fun x => numbers_in_range x.2) fields = true ->
  forallb (fun x => numbers_in_range x.2) (sort_fields fields) = true.
Proof.
  unfold sort_fields. assert (Hacc : forallb (fun x : bytes * Json => numbers_in_range x.2) [] = true) by done.
  revert Hacc. generalize (@nil (bytes * Json)).
  induction fields as [|[k v] fields IH]; intros acc Hacc; simpl; [done|].
  intros [Hv Hf]%andb_prop. apply IH; [|done]. by apply emplace_field_numbers.
Qed.

Lemma as_parsed_numbers j : numbers_in_range j = true -> numbers_in_range (as_parsed j) = true.
Proof.
  induction j as [ | |z| | | |l IH|l IH] using Json_ind; simpl; try done.
  - intros [Hl Hh]%andb_prop. apply Z.leb_le in Hl. apply Z.ltb_lt in Hh.
    destruct (Z.leb_spec 0 z); simpl; apply andb_true_intro; split;
      (apply Z.leb_le || apply Z.ltb_lt); lia.
  - induction IH as [|j l Hj _ IHl]; simpl; [done|]. intros [? ?]%andb_prop. by rewrite Hj, IHl.
  - intros Hl. apply sort_fields_numbers. revert Hl.
    induction IH as [|[k j] l Hj _ IHl]; simpl in *; [done|]. intros [? ?]%andb_prop. by rewrite Hj, IHl.
Qed.

Lemma parse_policy_json_numbers `{JsonNumberLaws} data document :
  parse_policy_json data = Ok document -> numbers_in_range document = true.
Proof.
  unfold parse_policy_json. destruct (has_bom data); [done|].
  destruct (json_text data) as [text|] eqn:E; [|done]. case_match; try done. intros [= <-].
  apply as_parsed_numbers. by eapply text_numbers.
Qed.

Lemma array_numbers l e : numbers_in_range (JArray l) = true -> e ∈ l -> numbers_in_range e = true.
Proof. simpl. rewrite forallb_forall. intros Hl He%list_elem_of_In. by apply Hl. Qed.

(** Every policy of a snapshot built from a document is well formed. *)
Definition snapshot_wf `{PolicyDigest} (limits : ClientPolicyLimits) (s : ClientPolicySnapshot) : Prop :=
  1 <= Z.of_nat (size s) <= max_clients limits /\
  forall id p, s !! id = Some p ->
    pol_client_id p = id /\ policy_wf limits p /\
    policy_fingerprint p true = Ok (revision_fingerprint p) /\
    policy_fingerprint p false = Ok (session_fingerprint p).

Lemma build_snapshot_wf `{FileSystem} `{AddressParserLaws} `{PolicyDigest} document directory limits s :
  numbers_in_range document = true -> build_snapshot document directory limits = Ok s ->
  snapshot_wf limits s.
Proof.
  intros Hn (_ & entries & Hc & Hl & Hsize & _ & Hs)%build_snapshot_inv.
  pose proof (json_find_numbers _ _ _ Hn Hc) as Hentries. split.
  - rewrite Hsize. done.
  - intros id p [Hid (e & He & Hb)]%Hs. apply build_policy_wf in Hb as (? & ? & ? & _); [done|].
    by eapply array_numbers.
Qed.

(** ** The claim *)

(** C25: A snapshot that is loaded contains exactly the policies of the entries of the file:
    one for each entry, under its identifier.  Every policy is well formed: a canonical
    client identifier, a secret that is not empty and has no line end at its end, a rotated
    secret only together with the end of its grace, between 1 and 256 port ranges in order
    and without a common port, quotas between 1 and the limits of the server, networks whose
    prefix fits their family, and the fingerprints of its own fields.  The file belongs to
    the server's user and nobody else can write it. *)
Theorem policy_snapshot_exact `{FileSystem} `{AddressParserLaws} `{PolicyDigest} `{JsonNumberLaws}
    config_path limits s :
  load_snapshot config_path limits = Ok s ->
  snapshot_wf limits s /\
  exists data document entries,
    read_secure_file config_path policy_file = Ok data /\
    parse_policy_json data = Ok document /\
    json_find (bs "clients") document = Some (JArray entries) /\
    snapshot_of (parent_path config_path) limits entries s /\
    exists file status, open_file config_path = inl file /\ of_status file = Some status /\
      fs_uid status = effective_user /\ Z.land (fs_mode status) 0x12 = 0.
Proof.
  unfold load_snapshot. intros (data & Hr & (document & Hp & Hb)%bind_Ok)%bind_Ok.
  pose proof (parse_policy_json_numbers _ _ Hp) as Hn. split; [by eapply build_snapshot_wf|].
  apply build_snapshot_inv in Hb as (_ & entries & Hc & _ & Hs).
  destruct (read_secure_file_inv _ _ _ Hr) as [_ (file & status & Hf & Hst & _ & _ & Hu & Hm & _)].
  exists data, document, entries. split_and!; try done. by exists file, status.
Qed.

(** ** An example *)

(** A JSON library whose texts are those of [sample_json] with numbers in range. *)
Definition policy_json : JsonLibrary := {|
  json_text p :=
    n ← text_positive p; j ← decode n;
    if numbers_in_range j && all_floats is_finite j then Some (as_text j) else None;
  json_dump j := Some (positive_text (encode j))
|}.

Lemma as_text_numbers j : numbers_in_range j = true -> numbers_in_range (as_text j) = true.
Proof.
  induction j as [ | |z| | | |l IH|l IH] using Json_ind; simpl; try done.
  - intros [Hl Hh]%andb_prop. apply Z.leb_le in Hl. apply Z.ltb_lt in Hh.
    destruct (Z.leb_spec 0 z); simpl; apply andb_true_intro; split;
      (apply Z.leb_le || apply Z.ltb_lt); lia.
  - induction IH as [|j l Hj _ IHl]; simpl; [done|]. intros [? ?]%andb_prop. by rewrite Hj, IHl.
  - induction IH as [|[k j] l Hj _ IHl]; simpl in *; [done|]. intros [? ?]%andb_prop. by rewrite Hj, IHl.
Qed.

Lemma policy_json_numbers : @JsonNumberLaws policy_json.
Proof.
  split; intros data j; cbn [json_text policy_json]; destruct (text_positive data) as [n|]; try done;
    cbn [mbind option_bind]; destruct (decode n) as [k|]; try done; cbn [mbind option_bind];
    destruct (numbers_in_range k) eqn:Ek; try done; simpl; destruct (all_floats is_finite k) eqn:Ef;
    try done; intros [= <-].
  - by apply as_text_numbers.
  - destruct (as_text_size k) as [(_ & _ & _ & ->) _]. done.
Qed.

Definition sample_client : bytes := bs "client_" ++ repeat "a"%byte 32.

Definition sample_entry (client_id psk_file : bytes) : Json :=
  JObject (sort_fields
    [(bs "client_id", JString client_id); (bs "enabled", JBool true); (bs "psk_file", JString psk_file);
     (bs "allowed_ports", JArray [JString (bs "7000-7999"); JString (bs "443")]);
     (bs "max_tunnels", JUnsigned 4); (bs "max_connections", JUnsigned 100);
     (bs "max_idle_workers", JUnsigned 2)]).

Definition sample_document : Json :=
  JObject [(bs "clients", JArray [sample_entry sample_client (sample_client ++ bs ".psk")]);
           (bs "format_version", JUnsigned 1)].

Definition sample_text : bytes := positive_text (encode sample_document).

Definition sample_limits : ClientPolicyLimits := mkClientPolicyLimits 1000 128 10000 32.

(** Two files, read in two pieces. *)
Definition sample_system : FileSystem := {|
  open_file path :=
    let found :=
      if decide (path = bs "/p/clients.json") then Some sample_text
      else if decide (path = bs "/p/" ++ sample_client ++ bs ".psk")
      then Some (bs "secret" ++ [Byte.x0d; Byte.x0a]) else None in
    match found with
    | Some data =>
        inl (mkOpenedFile (Some (mkFileStatus 0x8180 1 (Zlen data) 7))
               [read_bytes (take 3 data); read_interrupted; read_bytes (drop 3 data)])
    | None => inr 2
    end;
  effective_user := 7
|}.

Definition no_addresses : AddressParser := {| make_address _ := None |}.
Lemma no_addresses_laws : @AddressParserLaws no_addresses.
Proof. by split. Qed.

(** A digest of the end of the input. *)
Definition tail_digest : PolicyDigest := {|
  address_to_string _ := [];
  sha256_digest l := Some (take 32 (reverse l ++ repeat Byte.x00 32))
|}.

Definition ok_or {A} (default : A) (r : Result A) : A := match r with Ok a => a | Err _ => default end.

Lemma ok_or_eq {A} (default : A) (r : Result A) : is_ok r = true -> r = Ok (ok_or default r).
Proof. by destruct r. Qed.

Definition sample_snapshot : ClientPolicySnapshot :=
  ok_or ∅ (@load_snapshot sample_system no_addresses tail_digest policy_json
             (bs "/p/clients.json") sample_limits).

Lemma policy_snapshot_exact_witness :
  @load_snapshot sample_system no_addresses tail_digest policy_json (bs "/p/clients.json")
    sample_limits = Ok sample_snapshot /\
  (psk <$> sample_snapshot !! sample_client) = Some (Some (bs "secret")) /\
  (allowed_ports <$> sample_snapshot !! sample_client) =
    Some [mkPortRange 443 443; mkPortRange 7000 7999] /\
  @snapshot_wf tail_digest sample_limits sample_snapshot.
Proof.
  assert (E : @load_snapshot sample_system no_addresses tail_digest policy_json (bs "/p/clients.json")
    sample_limits = Ok sample_snapshot) by (apply ok_or_eq; by vm_compute).
  split; [exact E|]. split; [by vm_compute|]. split; [by vm_compute|].
  apply (@policy_snapshot_exact sample_system no_addresses no_addresses_laws tail_digest policy_json
    policy_json_numbers (bs "/p/clients.json") sample_limits sample_snapshot E).
Defined.
