(* ===== verification/PolicyStore.v ===== *)
(** * The store of client policies

    [ClientPolicyStore] of src/server/client_policy.cpp and the part of
    [Server::Impl::apply_policy_update] (src/server/server.cpp) that uses it.  The disk is a
    map from directory entries to files, with the states it has passed through; the outcomes
    of the system calls and the order in which hash maps are walked are arguments.  The
    mutex of [AtomicSnapshot] makes loads and stores atomic. *)
From S2P Require Import Prelude Common Ids Text PortRange Rows KeyedMap Json IpcPath ConfigFile ClientPolicy PolicyFile.

(** ** The disk *)

(** A file: what [fstat] reports of it, its data, and whether they have reached the disk. *)
Record Node : Set := mkNode {
  node_mode : Z;
  node_nlink : Z;
  node_uid : Z;
  node_data : bytes;
  node_synced : bool
}.

Definition Files : Set := gmap bytes Node.

Record Disk : Set := mkDisk { files : Files; trail : list Files }.

Definition S_IFREG : Z := 0x8000.

Definition node_status (n : Node) : FileStatus :=
  mkFileStatus (node_mode n) (node_nlink n) (Zlen (node_data n)) (node_uid n).

(** How a call of [open] and what follows it go, from the path and what is there. *)
Definition Opening : Set := bytes -> option Node -> OpenedFile + Z.

Class PolicySystem := {
  (** The directory entry a path names, however it is spelt. *)
  locate : bytes -> bytes;
  (** [geteuid]. *)
  server_user : Z;
  (** The mode [stat] finds behind an entry that is not a regular file. *)
  stat_through : Files -> bytes -> option Z
}.

(** The file system a reader sees. *)
Definition disk_system `{PolicySystem} (opens : Opening) (d : Disk) : FileSystem := {|
  open_file path := opens path (files d !! locate path);
  effective_user := server_user
|}.

(** What a call of [write] does. *)
Inductive WriteResult : Set := wrote (count : Z) | write_interrupted | write_failed.

(** The outcomes of the calls that replace a file: the name [mkstemp] finds, and what the
    others do; a [write] after the last one listed writes everything. *)
Record WriteFaults : Set := mkWriteFaults {
  temporary_name : option bytes;
  fchmod_ok : bool;
  fchown_ok : bool;
  writes : list WriteResult;
  fsync_ok : bool;
  rename_ok : bool;
  unlink_ok : bool
}.

(** The disk changes, and the earlier state is remembered. *)
Definition change (f : Files -> Files) : Action Disk unit := fun d =>
  (Ok tt, mkDisk (f (files d)) (files d :: trail d)).

Definition upd_node (name : bytes) (f : Node -> Node) (fs : Files) : Files :=
  (alter f name fs : gmap bytes Node).

Definition append_data (chunk : bytes) (n : Node) : Node :=
  mkNode (node_mode n) (node_nlink n) (node_uid n) (node_data n ++ chunk) false.
Definition set_mode (mode : Z) (n : Node) : Node :=
  mkNode (Z.lor S_IFREG mode) (node_nlink n) (node_uid n) (node_data n) (node_synced n).
Definition set_synced (n : Node) : Node :=
  mkNode (node_mode n) (node_nlink n) (node_uid n) (node_data n) true.

(** [unlink] and [rename]. *)
Definition unlink_file (name : bytes) (fs : Files) : Files := (delete name fs : gmap bytes Node).
Definition rename_file (name target : bytes) (fs : Files) : Files :=
  match fs !! name with
  | Some n => (<[target := n]> (delete name fs) : gmap bytes Node)
  | None => fs
  end.

(** The loop over [write]; [false] when it fails. *)
Fixpoint write_loop (name : bytes) (script : list WriteResult) (rest : bytes) : Action Disk bool :=
  if decide (rest = []) then mret true
  else
    match script with
    | [] => _ ← change (upd_node name (append_data rest)); mret true
    | write_failed :: _ => mret false
    | write_interrupted :: script => write_loop name script rest
    | wrote count :: script =>
        if count <=? 0 then mret false
        else
          let n := Z.to_nat count in
          _ ← change (upd_node name (append_data (take n rest)));
          write_loop name script (drop n rest)
    end.

Section Writing.
Context `{PolicySystem}.

(** [stat(path)] and [S_ISREG]: the permission bits of the file that is replaced. *)
Definition preserved_mode (path : bytes) (fs : Files) : Z :=
  let found :=
    match fs !! locate path with
    | Some n => if S_ISREG (node_mode n) then Some (node_mode n) else stat_through fs path
    | None => None
    end in
  match found with
  | Some mode => if S_ISREG mode then Z.land mode 0x1ff else 0x180
  | None => 0x180
  end.

(** What [write_secure_file_atomic] and [write_secret_file_atomic] share: a temporary file
    is created, given its mode, written, synchronised and renamed; after a failure it is
    unlinked, and when that fails, which is not noticed, it stays. *)
Definition install_file (path content : bytes) (mode : Files -> Z) (with_owner : bool)
    (mode_message write_message replace_message : string) (f : WriteFaults) : Action Disk unit :=
  match temporary_name f with
  | None => fail_with permission_denied "policy directory is not writable"
  | Some temporary =>
      let name := locate temporary in
      let abandon {A} (c : ErrorCode) (message : string) : Action Disk A :=
        _ ← (if unlink_ok f then change (unlink_file name) else mret tt); fail_with c message in
      _ ← change (fun fs => (<[name := mkNode (Z.lor S_IFREG 0x180) 1 server_user [] false]> fs
                             : gmap bytes Node));
      wanted ← ST_get (fun d => mode (files d));
      if negb (fchmod_ok f) then abandon permission_denied mode_message
      else
        _ ← change (upd_node name (set_mode wanted));
        if with_owner && negb (fchown_ok f) then abandon permission_denied mode_message
        else
          written ← write_loop name (writes f) content;
          if negb written then abandon internal_error write_message
          else if negb (fsync_ok f) then abandon internal_error replace_message
          else
            _ ← change (upd_node name set_synced);
            if negb (rename_ok f) then abandon internal_error replace_message
            else change (rename_file name (locate path))
  end.

(** [write_secure_file_atomic]; the synchronisation of the directory may fail unnoticed. *)
Definition write_secure_file_atomic (path data : bytes) (f : WriteFaults) : Action Disk unit :=
  if decide (data = []) then fail_with invalid_argument "refusing to write an empty policy file"
  else
    install_file path data (preserved_mode path) true "policy file ownership cannot be preserved"
      "policy file write failed" "policy file replacement failed" f.
End Writing.

(** ** The store *)

Record ClientPolicyStore : Set := mkClientPolicyStore {
  config_path : bytes;
  store_limits : ClientPolicyLimits;
  snapshot : ClientPolicySnapshot;
  document_text : bytes
}.

(** The store and the disk it writes to. *)
Record PolicyState : Set := mkPolicyState { ps_disk : Disk; ps_store : ClientPolicyStore }.

(** [AtomicSnapshot::store]. *)
Definition store_snapshot (s : ClientPolicySnapshot) (text : bytes) (st : PolicyState) : PolicyState :=
  mkPolicyState (ps_disk st)
    (mkClientPolicyStore (config_path (ps_store st)) (store_limits (ps_store st)) s text).

(** An operation on the disk. *)
Definition on_disk {A} (m : Action Disk A) : Action PolicyState A := fun st =>
  let (r, d) := m (ps_disk st) in (r, mkPolicyState d (ps_store st)).

(** [ClientPolicyStore::document]. *)
Definition store_document (st : ClientPolicyStore) : Result bytes :=
  if decide (document_text st = []) then
    failure invalid_argument "client policy document is unavailable"
  else Ok (document_text st).

(** [ClientPolicyStore::find]. *)
Definition store_find (client_id : bytes) (st : ClientPolicyStore) : option ClientPolicy :=
  snapshot_find client_id (snapshot st).

(** [ClientPolicySnapshot::size] and [has_certificate_bindings]; the order of the walk does
    not matter. *)
Definition snapshot_size (s : ClientPolicySnapshot) : Z := Z.of_nat (size s).

#[export] Instance ClientCertificateBindingKind_eq_decision : EqDecision ClientCertificateBindingKind.
Proof. solve_decision. Defined.

Definition has_certificate_bindings (s : ClientPolicySnapshot) : bool :=
  existsb (fun '(_, p) => negb (bool_decide (cert_kind (certificate p) = none)))
    (map_to_list (s : gmap bytes ClientPolicy)).

Section Store.
Context `{PolicySystem} `{JsonLibrary} `{AddressParser} `{PolicyDigest}.
(** The order in which a hash map is walked. *)
Context (order : ClientPolicySnapshot -> list (bytes * ClientPolicy)).

(** [ClientPolicyStore::open]; the file is read a second time for its text. *)
Definition store_open (path : bytes) (limits : ClientPolicyLimits) (first second : FileSystem) :
    Result ClientPolicyStore :=
  loaded ← @load_snapshot first _ _ _ path limits;
  data ← @read_secure_file second path policy_file;
  Ok (mkClientPolicyStore path limits loaded data).

(** [ClientPolicyStore::reload]; it reads the file twice, too. *)
Definition store_reload (validator : option (ClientPolicySnapshot -> Result unit))
    (first second : Disk -> FileSystem) : Action PolicyState (list bytes) := fun st =>
  let store := ps_store st in
  match
    replacement ← @load_snapshot (first (ps_disk st)) _ _ _ (config_path store) (store_limits store);
    _ ← match validator with Some check => check replacement | None => success end;
    data ← @read_secure_file (second (ps_disk st)) (config_path store) policy_file;
    Ok (replacement, data)
  with
  | Err e => (Err e, st)
  | Ok (replacement, data) =>
      (Ok (compute_changed (order (snapshot store)) (order replacement) (Some (snapshot store))
             replacement),
       store_snapshot replacement data st)
  end.

(** [ClientPolicyStore::replace] up to the write. *)
Definition validate_replacement (text : bytes) (validator : option (ClientPolicySnapshot -> Result unit))
    (system : FileSystem) (store : ClientPolicyStore) : Result ClientPolicySnapshot :=
  if bool_decide (text = []) || (kMaxPolicyBytes <? Zlen text) then
    failure invalid_argument "client policy document size is invalid"
  else
    document ← parse_policy_json text;
    replacement ← @build_snapshot system _ _ document (parent_path (config_path store))
                    (store_limits store);
    _ ← match validator with Some check => check replacement | None => success end;
    Ok replacement.

(** [ClientPolicyStore::replace]. *)
Definition store_replace (text : bytes) (validator : option (ClientPolicySnapshot -> Result unit))
    (opens : Opening) (f : WriteFaults) : Action PolicyState (list bytes) := fun st =>
  let store := ps_store st in
  match validate_replacement text validator (disk_system opens (ps_disk st)) store with
  | Err e => (Err e, st)
  | Ok replacement =>
      let (written, st) := on_disk (write_secure_file_atomic (config_path store) text f) st in
      match written with
      | Err e => (Err e, st)
      | Ok _ =>
          (Ok (compute_changed (order (snapshot store)) (order replacement) (Some (snapshot store))
                 replacement),
           store_snapshot replacement text st)
      end
  end.
End Store.

(** ** Replacing a file *)

(** Every state of the disk after [d], up to [d'], satisfies [P]. *)
Definition passes (P : Files -> Prop) (d d' : Disk) : Prop :=
  exists states, files d' :: trail d' = states ++ files d :: trail d /\ Forall P states.

Lemma passes_refl P d : passes P d d.
Proof. exists []. by split. Qed.

Lemma passes_trans P d1 d2 d3 : passes P d1 d2 -> passes P d2 d3 -> passes P d1 d3.
Proof.
  intros (l1 & E1 & H1) (l2 & E2 & H2). exists (l2 ++ l1).
  split; [by rewrite E2, E1, <- app_assoc|by apply Forall_app].
Qed.

Lemma passes_impl (P Q : Files -> Prop) d d' :
  (forall fs, P fs -> Q fs) -> passes P d d' -> passes Q d d'.
Proof. intros HPQ (l & E & Hl). exists l. split; [done|]. by eapply Forall_impl. Qed.

Lemma change_passes (P : Files -> Prop) f d :
  P (f (files d)) -> passes P d (mkDisk (f (files d)) (files d :: trail d)).
Proof. intros HP. exists [f (files d)]. by repeat constructor. Qed.

(** The temporary file while it is written. *)
Definition holding (name : bytes) (n : Node) (base fs : Files) : Prop :=
  fs = (<[name := n]> base : gmap bytes Node).

Lemma upd_holding name n base fs g :
  holding name n base fs -> holding name (g n) base (upd_node name g fs).
Proof.
  unfold holding, upd_node. intros ->. unfold Files in *. by rewrite alter_insert_eq.
Qed.

Lemma write_loop_exact name script mode uid base data rest d b d' :
  holding name (mkNode mode 1 uid data false) base (files d) ->
  write_loop name script rest d = (b, d') ->
  passes (fun fs => exists n, holding name n base fs) d d' /\
  (exists n, holding name n base (files d')) /\
  (b = Ok false \/ b = Ok true /\ holding name (mkNode mode 1 uid (data ++ rest) false) base (files d')).
Proof.
  revert data rest d. induction script as [|[count| |] script IH]; intros data rest d Hh; simpl;
    case_decide as Hr; try (intros [= <- <-]; split_and!; [apply passes_refl|by eexists|];
      first [by left|right; subst; by rewrite app_nil_r]).
  - intros [= <- <-]. apply (upd_holding _ _ _ _ (append_data rest)) in Hh.
    split_and!; [apply change_passes; by eexists|by eexists|by right].
  - destruct (Z.leb_spec count 0).
    + intros [= <- <-]. split_and!; [apply passes_refl|by eexists|by left].
    + intros Hw. pose proof (upd_holding _ _ _ _ (append_data (take (Z.to_nat count) rest)) Hh) as Hh'.
      apply IH with (data := data ++ take (Z.to_nat count) rest) in Hw as (Hp & He & Hb); [|exact Hh'].
      rewrite <- app_assoc, take_drop in Hb. split_and!; [|done|done].
      eapply passes_trans; [|exact Hp].
      apply (change_passes _ (upd_node name (append_data (take (Z.to_nat count) rest)))). by eexists.
  - by apply IH.
Qed.

(** A state while the file at [target] is replaced by [n] through the entry [name]. *)
Definition replacing (name target : bytes) (n : Node) (base fs : Files) : Prop :=
  forall loc, loc <> name ->
    fs !! loc = base !! loc \/ loc = target /\ fs !! loc = Some n.

Lemma holding_replacing name target n m base fs :
  holding name m base fs -> replacing name target n base fs.
Proof.
  intros -> loc Hne. left. unfold Files in *. by rewrite lookup_insert_ne.
Qed.

Lemma unlink_holding name n base fs :
  base !! name = None -> holding name n base fs -> unlink_file name fs = base.
Proof.
  intros Hb ->. unfold unlink_file, Files in *. rewrite delete_insert_eq. by apply delete_id.
Qed.

(** The files are as before, but for the temporary one when it could not be unlinked. *)
Definition abandoned (unlinked : bool) (name : option bytes) (fs fs' : Files) : Prop :=
  (unlinked = true -> fs' = fs) /\ forall loc, Some loc <> name -> fs' !! loc = fs !! loc.

(** What [install_file] leaves: nothing but perhaps the temporary file when it fails, the new
    file when it succeeds; no state in between shows anything else at the target, and no
    other file is touched. *)
Definition installs (unlinked : bool) (name target : bytes) (n : Node) (d : Disk) (r : Result unit)
    (d' : Disk) : Prop :=
  passes (replacing name target n (files d)) d d' /\
  match r with
  | Ok _ => files d' = (<[target := n]> (files d) : gmap bytes Node)
  | Err _ => abandoned unlinked (Some name) (files d) (files d')
  end.

Lemma abandoned_same unlinked name fs : abandoned unlinked name fs fs.
Proof. by split. Qed.

(** On the way to the new file [n]: the temporary file is [k]. *)
Definition installing (name target : bytes) (n : Node) (d : Disk) (k : Node) (d1 : Disk) : Prop :=
  holding name k (files d) (files d1) /\ passes (replacing name target n (files d)) d d1.

Lemma installing_change name target n d k d1 g :
  installing name target n d k d1 ->
  installing name target n d (g k) (mkDisk (upd_node name g (files d1)) (files d1 :: trail d1)).
Proof.
  intros [Hh Hp]. apply (upd_holding _ _ _ _ g) in Hh. split; [exact Hh|].
  eapply passes_trans; [exact Hp|]. apply (change_passes _ (upd_node name g)).
  by eapply holding_replacing.
Qed.

Lemma installing_write name target n d mode uid script content d1 b d2 :
  installing name target n d (mkNode mode 1 uid [] false) d1 ->
  write_loop name script content d1 = (b, d2) ->
  exists k, installing name target n d k d2 /\
    (b = Ok false \/ b = Ok true /\ k = mkNode mode 1 uid content false).
Proof.
  intros [Hh Hp] Hw. destruct (write_loop_exact _ _ _ _ _ _ _ _ _ _ Hh Hw) as (Hpw & [k Hk] & Hb).
  assert (Hp2 : passes (replacing name target n (files d)) d d2).
  { eapply passes_trans; [exact Hp|]. eapply passes_impl; [|exact Hpw].
    intros fs [m Hm]. by eapply holding_replacing. }
  destruct Hb as [->|[-> Hf]]; [exists k|eexists]; (split; [by split|]); [by left|by right].
Qed.

Lemma installing_abandon (unlinked : bool) name target n d k d1 c m r d2 :
  files d !! name = None -> installing name target n d k d1 ->
  (_ ← (if unlinked then change (unlink_file name) else mret tt); fail_with (A := unit) c m) d1 = (r, d2) ->
  installs unlinked name target n d r d2.
Proof.
  intros Hnone [Hk Hp]. destruct unlinked; intros [= <- <-].
  - pose proof (unlink_holding _ _ _ _ Hnone Hk) as E. split; [|cbn [files]; rewrite E; apply abandoned_same].
    eapply passes_trans; [exact Hp|]. apply (change_passes _ (unlink_file name)). rewrite E. intros loc _. by left.
  - split; [done|]. split; [done|]. intros loc Hne. rewrite Hk. unfold Files in *.
    rewrite lookup_insert_ne; [done|congruence].
Qed.

Lemma installing_rename unlinked name target n d d1 r d2 :
  files d !! name = None -> installing name target n d n d1 ->
  change (rename_file name target) d1 = (r, d2) -> installs unlinked name target n d r d2.
Proof.
  intros Hnone [Hk Hp] [= <- <-].
  assert (E : rename_file name target (files d1) = (<[target := n]> (files d) : gmap bytes Node)).
  { unfold rename_file. rewrite Hk. unfold Files in *.
    rewrite lookup_insert_eq, delete_insert_eq, delete_id by done. done. }
  split; [|exact E]. eapply passes_trans; [exact Hp|]. apply (change_passes _ (rename_file name target)).
  rewrite E. intros loc _. unfold Files in *.
  destruct (decide (loc = target)) as [->|Hl]; [right; by rewrite lookup_insert_eq|].
  left. by rewrite lookup_insert_ne.
Qed.

Section Installing.
Context `{PolicySystem}.

Definition fresh_node : Node := mkNode (Z.lor S_IFREG 0x180) 1 server_user [] false.

Lemma install_file_exact path content mode with_owner m1 m2 m3 f d r d' :
  install_file path content mode with_owner m1 m2 m3 f d = (r, d') ->
  match temporary_name f with
  | None => exists e, r = Err e /\ d' = d
  | Some temporary =>
      let name := locate temporary in
      files d !! name = None ->
      installs (unlink_ok f) name (locate path)
        (mkNode (Z.lor S_IFREG (mode (<[name := fresh_node]> (files d) : gmap bytes Node))) 1
           server_user content true) d r d'
  end.
Proof.
  unfold install_file. destruct (temporary_name f) as [temporary|]; [|intros [= <- <-]; by eexists].
  cbv zeta. set (name := locate temporary). set (target := locate path).
  set (wanted := mode _). set (n := mkNode _ _ _ _ true). intros Hrun Hnone. revert Hrun.
  rewrite (ST_bind_ok _ _ d tt (mkDisk (<[name := fresh_node]> (files d) : gmap bytes Node) (files d :: trail d)))
    by done. set (d1 := mkDisk _ _).
  assert (H1 : installing name target n d fresh_node d1).
  { split; [done|]. apply (change_passes _ (fun fs => (<[name := fresh_node]> fs : gmap bytes Node))).
    by eapply holding_replacing. }
  rewrite (ST_bind_ok _ _ d1 wanted d1) by done. clearbody d1.
  destruct (negb (fchmod_ok f)); [by eapply installing_abandon|].
  rewrite (ST_bind_ok _ _ d1 tt (mkDisk (upd_node name (set_mode wanted) (files d1)) (files d1 :: trail d1)))
    by done.
  apply (installing_change _ _ _ _ _ _ (set_mode wanted)) in H1 as H2. set (d2 := mkDisk _ _) in H2 |- *.
  clearbody d2.
  destruct (with_owner && _); [by eapply installing_abandon|].
  destruct (write_loop name (writes f) content d2) as [b d3] eqn:Hw.
  destruct (installing_write _ _ _ _ _ _ _ _ _ _ _ H2 Hw) as (k & H3 & Hb).
  destruct Hb as [->|[-> ->]]; rewrite (ST_bind_ok _ _ d2 _ _ Hw); [by eapply installing_abandon|].
  clear Hw. lazy beta. change (negb true) with false. lazy iota.
  destruct (negb (fsync_ok f)); [by eapply installing_abandon|].
  rewrite (ST_bind_ok _ _ d3 tt (mkDisk (upd_node name set_synced (files d3)) (files d3 :: trail d3))) by done.
  apply (installing_change _ _ _ _ _ _ set_synced) in H3 as H4. set (d4 := mkDisk _ _) in H4 |- *.
  destruct (negb (rename_ok f)); [by eapply installing_abandon|]. by eapply installing_rename.
Qed.
End Installing.

(** ** Secrets of a document *)

Definition string_field (field : string) (j : Json) : list bytes :=
  match json_find (bs field) j with Some (JString text) => [text] | _ => [] end.

(** The files of secrets a document refers to. *)
Definition entry_secrets (directory : bytes) (entry : Json) : list bytes :=
  psk_path directory <$> string_field "psk_file" entry ++ string_field "previous_psk_file" entry.

Definition document_secrets (directory : bytes) (document : Json) : list bytes :=
  match json_find (bs "clients") document with
  | Some (JArray entries) => mjoin (entry_secrets directory <$> entries)
  | _ => []
  end.

Section Agreement.
Context (fs1 fs2 : FileSystem).
Hypothesis same_user : @effective_user fs1 = @effective_user fs2.

Lemma read_secure_file_agrees path k :
  @open_file fs1 path = @open_file fs2 path ->
  @read_secure_file fs1 path k = @read_secure_file fs2 path k.
Proof. intros E. unfold read_secure_file. by rewrite E, same_user. Qed.

Lemma load_psk_agrees directory path :
  @open_file fs1 (psk_path directory path) = @open_file fs2 (psk_path directory path) ->
  @load_psk fs1 directory path = @load_psk fs2 directory path.
Proof. intros E. unfold load_psk. by rewrite (read_secure_file_agrees _ _ E). Qed.

Context `{AddressParser} `{PolicyDigest}.

Lemma build_policy_agrees directory limits entry :
  (forall path, path ∈ entry_secrets directory entry -> @open_file fs1 path = @open_file fs2 path) ->
  @build_policy fs1 _ _ directory limits entry = @build_policy fs2 _ _ directory limits entry.
Proof.
  intros Hs.
  assert (E1 : forall path, json_find (bs "psk_file") entry = Some (JString path) ->
    @load_psk fs1 directory path = @load_psk fs2 directory path).
  { intros path E. apply load_psk_agrees, Hs. unfold entry_secrets, string_field. rewrite E.
    apply list_elem_of_here. }
  assert (E2 : @parse_previous fs1 directory entry = @parse_previous fs2 directory entry).
  { unfold parse_previous. destruct (json_find (bs "previous_psk_file") entry) as [[ | | | | |path| |]|] eqn:Ep;
      try reflexivity. rewrite load_psk_agrees; [reflexivity|]. apply Hs. unfold entry_secrets, string_field.
    rewrite Ep, fmap_app. apply elem_of_app. right. apply list_elem_of_here. }
  unfold build_policy. rewrite E2. clear E2 Hs.
  destruct (json_find (bs "psk_file") entry) as [[ | | | | |psk_file| |]|]; try reflexivity.
  by rewrite (E1 psk_file eq_refl).
Qed.

Lemma build_snapshot_agrees document directory limits :
  (forall path, path ∈ document_secrets directory document -> @open_file fs1 path = @open_file fs2 path) ->
  @build_snapshot fs1 _ _ document directory limits = @build_snapshot fs2 _ _ document directory limits.
Proof.
  unfold document_secrets, build_snapshot. intros Hs.
  destruct (json_find (bs "clients") document) as [clients|]; [|reflexivity].
  destruct clients as [ | | | | | |entries|];
    [reflexivity|reflexivity|reflexivity|reflexivity|reflexivity|reflexivity| |reflexivity].
  assert (E : forall acc, @build_policies fs1 _ _ directory limits entries acc =
    @build_policies fs2 _ _ directory limits entries acc); [|rewrite E; reflexivity].
  induction entries as [|e entries IH]; intros acc; simpl; [done|].
  rewrite build_policy_agrees by (intros path Hp; apply Hs; simpl; apply elem_of_app; by left).
  destruct (build_policy directory limits e) as [p|]; simpl; [|done].
  destruct (acc !! pol_client_id p); [done|]. apply IH. intros path Hp. apply Hs. simpl.
  apply elem_of_app. by right.
Qed.
End Agreement.

(** ** What a replacement does *)

(** The new file of a replacement. *)
Definition replaced_node (text : bytes) (n : Node) `{PolicySystem} : Prop :=
  node_data n = text /\ node_synced n = true /\ node_uid n = server_user /\ node_nlink n = 1.

Section StoreSpec.
Context `{PolicySystem} `{JsonLibrary} `{AddressParser} `{PolicyDigest}.
Context (order : ClientPolicySnapshot -> list (bytes * ClientPolicy)).

Lemma store_replace_inv text validator opens f st r st' :
  store_replace order text validator opens f st = (r, st') ->
  (exists e, r = Err e /\ st' = st) \/
  exists s written d',
    validate_replacement text validator (disk_system opens (ps_disk st)) (ps_store st) = Ok s /\
    write_secure_file_atomic (config_path (ps_store st)) text f (ps_disk st) = (written, d') /\
    match written with
    | Err e => r = Err e /\ st' = mkPolicyState d' (ps_store st)
    | Ok _ =>
        r = Ok (compute_changed (order (snapshot (ps_store st))) (order s)
                  (Some (snapshot (ps_store st))) s) /\
        st' = mkPolicyState d' (mkClientPolicyStore (config_path (ps_store st))
                (store_limits (ps_store st)) s text)
    end.
Proof.
  unfold store_replace. destruct (validate_replacement _ _ _ _) as [s|e] eqn:Ev;
    [|intros [= <- <-]; left; by eexists].
  unfold on_disk. destruct (write_secure_file_atomic _ _ _ _) as [written d'] eqn:Ew.
  intros Hr. right. exists s, written, d'. split_and!; [done|done|].
  destruct written as [[]|e]; by injection Hr as <- <-.
Qed.

Lemma validate_replacement_inv text validator system store s :
  validate_replacement text validator system store = Ok s ->
  1 <= Zlen text <= kMaxPolicyBytes /\
  exists document, parse_policy_json text = Ok document /\
    @build_snapshot system _ _ document (parent_path (config_path store)) (store_limits store) = Ok s /\
    match validator with Some check => check s | None => success end = success.
Proof.
  unfold validate_replacement. destruct (bool_decide_reflect (text = [])); [done|].
  destruct (Z.ltb_spec kMaxPolicyBytes (Zlen text)); [done|]. simpl.
  intros (document & Hd & (s' & Hb & ([] & Hv & [= <-])%bind_Ok)%bind_Ok)%bind_Ok.
  split; [|by exists document]. destruct text; [done|]. rewrite Zlen_cons in *. unfold Zlen in *. lia.
Qed.

(** What the write of the policy file does. *)
Lemma write_secure_file_exact path text f d r d' :
  (forall temporary, temporary_name f = Some temporary -> files d !! locate temporary = None) ->
  write_secure_file_atomic path text f d = (r, d') ->
  exists n, replaced_node text n /\
    passes (fun fs => forall loc, Some loc <> locate <$> temporary_name f ->
      fs !! loc = files d !! loc \/ loc = locate path /\ fs !! loc = Some n) d d' /\
    match r with
    | Err _ => abandoned (unlink_ok f) (locate <$> temporary_name f) (files d) (files d')
    | Ok _ => files d' = (<[locate path := n]> (files d) : gmap bytes Node) /\
        exists temporary, temporary_name f = Some temporary /\
          node_mode n = Z.lor S_IFREG (preserved_mode path
            (<[locate temporary := fresh_node]> (files d) : gmap bytes Node))
    end.
Proof.
  intros Hfresh. unfold write_secure_file_atomic. case_decide as Ht.
  { intros [= <- <-]. exists (mkNode 0 1 server_user text true). split_and!; [done|apply passes_refl|done]. }
  intros Hi%install_file_exact. destruct (temporary_name f) as [temporary|].
  - specialize (Hi (Hfresh _ eq_refl)). destruct Hi as [Hp Hr].
    match type of Hp with passes (replacing _ _ ?n _) _ _ => exists n end.
    split_and!; [done|eapply passes_impl; [|exact Hp]|].
    + intros fs Hfs loc Hne. apply Hfs. naive_solver.
    + destruct r; [|done]. split; [done|]. by exists temporary.
  - destruct Hi as (e & -> & ->). exists (mkNode 0 1 server_user text true).
    split_and!; [done|apply passes_refl|done].
Qed.
End StoreSpec.

(** C24: Replacing the policies is atomic.  The document is validated in memory; when anything
    fails, the policies in effect, their text and every file are as before, but for the
    temporary file, which stays when it cannot be unlinked.  When it succeeds, the policies
    are those built from the document, its text is kept and is what the file contains, and
    the clients reported are exactly those whose revision fingerprint changed.  (Two policies
    of a client may differ and have the same fingerprint: [fingerprint_fields_run_together].)
    At every moment in between, whatever the system calls do, the entry of the policy file
    holds either the old file or the complete new one, already on the disk, and no other
    file but the temporary one is touched. *)
Theorem policy_replace_atomic `{PolicySystem} `{JsonLibrary} `{AddressParser} `{PolicyDigest} order
    text validator opens f st r st' :
  (forall m, iterates (order m) m) ->
  (forall temporary, temporary_name f = Some temporary ->
     files (ps_disk st) !! locate temporary = None) ->
  store_replace order text validator opens f st = (r, st') ->
  let store := ps_store st in
  let target := locate (config_path store) in
  exists n, replaced_node text n /\
  passes (fun fs => forall loc, Some loc <> locate <$> temporary_name f ->
    fs !! loc = files (ps_disk st) !! loc \/ loc = target /\ fs !! loc = Some n)
    (ps_disk st) (ps_disk st') /\
  match r with
  | Err _ =>
      ps_store st' = store /\
      abandoned (unlink_ok f) (locate <$> temporary_name f) (files (ps_disk st)) (files (ps_disk st'))
  | Ok changed =>
      files (ps_disk st') = (<[target := n]> (files (ps_disk st)) : gmap bytes Node) /\
      exists s, validate_replacement text validator (disk_system opens (ps_disk st)) store = Ok s /\
        ps_store st' = mkClientPolicyStore (config_path store) (store_limits store) s text /\
        store_document (ps_store st') = Ok text /\
        forall c, c ∈ changed <->
          revision_fingerprint <$> store_find c store <>
          revision_fingerprint <$> store_find c (ps_store st')
  end.
Proof.
  intros Horder Hfresh Hr. cbv zeta.
  destruct (store_replace_inv _ _ _ _ _ _ _ _ Hr) as [(e & -> & ->)|(s & written & d' & Hv & Hw & Hres)].
  { exists (mkNode 0 1 server_user text true). split_and!; [done|apply passes_refl|done..]. }
  destruct (write_secure_file_exact _ _ _ _ _ _ Hfresh Hw) as (n & Hn & Hp & Hf). exists n.
  destruct written as [[]|e]; destruct Hres as [-> ->]; [|by split_and!].
  destruct Hf as [Hf _]. split_and!; [done|done|done|]. exists s. split_and!; [done|done| |].
  - destruct (validate_replacement_inv _ _ _ _ _ Hv) as [Hl _]. unfold store_document. simpl.
    rewrite decide_False; [done|]. intros ->. done.
  - intros c. unfold store_find. simpl.
    destruct (compute_changed_exact (order (snapshot (ps_store st))) (order s)
      (Some (snapshot (ps_store st))) s) as [_ Hc]; [apply Horder|apply Horder|]. apply Hc.
Qed.

(** ** Reading back what was written *)

(** A regular file of the server's user that its owner may read can be opened and read
    completely, in whatever pieces. *)
Definition opens_own_files `{PolicySystem} (opens : Opening) : Prop := forall path n,
  S_ISREG (node_mode n) = true -> node_uid n = server_user -> Z.testbit (node_mode n) 8 = true ->
  exists reads, opens path (Some n) = inl (mkOpenedFile (Some (node_status n)) reads) /\
    read_all reads (Zlen (node_data n)) [] = Some (node_data n).

(** A path the reader does not refuse. *)
Definition path_wf (path : bytes) : Prop :=
  path <> [] /\ Zlen path <= kMaxPathBytes /\ (kNul ∉ path).

Lemma read_own_file `{PolicySystem} opens d path k n :
  opens_own_files opens -> path_wf path -> files d !! locate path = Some n ->
  S_ISREG (node_mode n) = true -> node_uid n = server_user -> node_nlink n = 1 ->
  Z.testbit (node_mode n) 8 = true ->
  Z.land (node_mode n) (if decide (k = secret_file) then 0x3f else 0x12) = 0 ->
  0 < Zlen (node_data n) <= (if decide (k = secret_file) then kMaxPskBytes else kMaxPolicyBytes) ->
  @read_secure_file (disk_system opens d) path k = Ok (node_data n).
Proof.
  intros Hopens (Hp1 & Hp2 & Hp3) Hn Hreg Huid Hlink Hbit Hmode Hsize. unfold read_secure_file.
  rewrite (bool_decide_false (path = [])), (bool_decide_false (kNul ∈ path)) by done.
  destruct (Z.ltb_spec kMaxPathBytes (Zlen path)); [lia|]. simpl. rewrite Hn.
  destruct (Hopens path n Hreg Huid Hbit) as (reads & -> & Hreads). simpl.
  rewrite Hreg, Hlink, Huid, !Z.eqb_refl. simpl.
  assert (Ek : bool_decide (k = secret_file) = if decide (k = secret_file) then true else false)
    by (by destruct k).
  rewrite Ek. destruct (decide (k = secret_file)); rewrite Hmode; simpl;
    (destruct (Z.leb_spec (Zlen (node_data n)) 0); [lia|]);
    match goal with |- context [?m <? Zlen _] => destruct (Z.ltb_spec m (Zlen (node_data n))); [lia|] end;
    simpl; rewrite Hreads; reflexivity.
Qed.

(** The permissions a replacement keeps. *)
Lemma preserved_permissions `{PolicySystem} path (fs : Files) n :
  fs !! locate path = Some n -> S_ISREG (node_mode n) = true ->
  let mode := Z.lor S_IFREG (preserved_mode path fs) in
  S_ISREG mode = true /\ Z.testbit mode 8 = Z.testbit (node_mode n) 8 /\
  Z.land mode 0x12 = Z.land (node_mode n) 0x12.
Proof.
  intros Hn Hreg. unfold preserved_mode. rewrite Hn, Hreg. rewrite Hreg. cbv zeta.
  set (m := node_mode n). unfold S_ISREG.
  rewrite !Z.land_lor_distr_l, <- !Z.land_assoc.
  change (Z.land 0x1ff 0xf000) with 0. change (Z.land 0x1ff 0x12) with 0x12.
  change (Z.land S_IFREG 0x12) with 0. rewrite Z.land_0_r. split_and!; [done| |done].
  rewrite Z.lor_spec, Z.land_spec. change (Z.testbit S_IFREG 8) with false.
  change (Z.testbit 0x1ff 8) with true. by rewrite andb_true_r.
Qed.

Lemma compute_changed_same order (s : ClientPolicySnapshot) :
  (forall m, iterates (order m) m) -> compute_changed (order s) (order s) (Some s) s = [].
Proof.
  intros Horder. destruct (compute_changed_exact (order s) (order s) (Some s) s) as [_ Hc];
    [apply Horder|apply Horder|]. apply elem_of_nil_inv. intros c Hin. by apply Hc in Hin.
Qed.

(** C26: What a replacement writes is what a reload reads: after a successful replacement a
    reload reports no changed client and leaves the store as it is.  The old policy file had
    to be one the reader accepts, its permissions are kept, and no secret of the document is
    in the policy file itself. *)
Theorem policy_reload_roundtrip `{PolicySystem} `{JsonLibrary} `{AddressParser} `{PolicyDigest} order
    text validator opens f st changed st' n :
  (forall m, iterates (order m) m) -> opens_own_files opens ->
  path_wf (config_path (ps_store st)) ->
  files (ps_disk st) !! locate (config_path (ps_store st)) = Some n ->
  S_ISREG (node_mode n) = true -> Z.land (node_mode n) 0x12 = 0 ->
  Z.testbit (node_mode n) 8 = true ->
  (forall temporary, temporary_name f = Some temporary ->
     files (ps_disk st) !! locate temporary = None) ->
  (forall document secret, parse_policy_json text = Ok document ->
     secret ∈ document_secrets (parent_path (config_path (ps_store st))) document ->
     locate secret <> locate (config_path (ps_store st))) ->
  store_replace order text validator opens f st = (Ok changed, st') ->
  store_reload order validator (disk_system opens) (disk_system opens) st' = (Ok [], st').
Proof.
  intros Horder Hopens Hpath Hn Hreg Hmode Hbit Hfresh Hsecrets Hr.
  destruct (store_replace_inv _ _ _ _ _ _ _ _ Hr) as [(e & [=] & _)|(s & written & d' & Hv & Hw & Hres)].
  destruct (write_secure_file_exact _ _ _ _ _ _ Hfresh Hw) as (n' & (Hdata & _ & Huid & Hlink) & _ & Hf).
  destruct written as [[]|e]; destruct Hres as [Hc Hst]; [|done].
  destruct Hf as [Hf (temporary & Et & Hm)].
  destruct (validate_replacement_inv _ _ _ _ _ Hv) as [Hsize (document & Hd & Hb & Hok)].
  set (path := config_path (ps_store st)) in *.
  assert (Hn2 : (<[locate temporary := fresh_node]> (files (ps_disk st)) : gmap bytes Node) !! locate path = Some n).
  { unfold Files. rewrite lookup_insert_ne; [done|]. intros E. rewrite <- E, (Hfresh _ Et) in Hn. done. }
  destruct (preserved_permissions path _ n Hn2 Hreg) as (P1 & P2 & P3). rewrite <- Hm in P1, P2, P3.
  assert (Hread : @read_secure_file (disk_system opens d') path policy_file = Ok text).
  { rewrite <- Hdata. apply read_own_file; try done.
    - rewrite Hf. unfold Files. by rewrite lookup_insert_eq.
    - by rewrite P2.
    - rewrite decide_False by done. by rewrite P3.
    - rewrite decide_False by done. rewrite Hdata. lia. }
  assert (Hother : forall loc, loc <> locate path -> files d' !! loc = files (ps_disk st) !! loc).
  { intros loc Hne. rewrite Hf. unfold Files. by rewrite lookup_insert_ne. }
  assert (Hload : @load_snapshot (disk_system opens d') _ _ _ path (store_limits (ps_store st)) = Ok s).
  { unfold load_snapshot. rewrite Hread. simpl. rewrite Hd. simpl. rewrite <- Hb.
    apply build_snapshot_agrees; [done|]. intros secret Hin. cbn [open_file disk_system].
    rewrite Hother; [done|]. by apply (Hsecrets document). }
  subst st'. unfold store_reload. cbn [ps_store ps_disk config_path store_limits snapshot].
  rewrite Hload. cbn [mbind outcome_bind]. rewrite Hok. cbn [mbind outcome_bind success].
  fold path. rewrite Hread. cbn [mbind outcome_bind].
  by rewrite compute_changed_same.
Qed.

(** A reload checks one text and keeps another: it reads the file a second time for the text
    it keeps, and does not look at what it reads.  If the file is written in between, the
    document that is kept is not the one the policies were built from, or no document. *)
Theorem reload_keeps_unchecked_text `{JsonLibrary} `{AddressParser} `{PolicyDigest} order
    (first second : FileSystem) d path limits s text s' unchecked :
  @load_snapshot first _ _ _ path limits = Ok s' ->
  @read_secure_file second path policy_file = Ok unchecked ->
  ps_store (store_reload order None (fun _ => first) (fun _ => second)
              (mkPolicyState d (mkClientPolicyStore path limits s text))).2 =
  mkClientPolicyStore path limits s' unchecked.
Proof. intros Hs Ht. unfold store_reload. simpl. rewrite Hs. simpl. by rewrite Ht. Qed.

(** ** An example *)

(** Every path is its own entry; the server runs as user 7. *)
Definition plain_system : PolicySystem := {|
  locate path := path;
  server_user := 7;
  stat_through _ _ := None
|}.

Definition plain_opening : Opening := fun _ entry =>
  match entry with
  | Some n => inl (mkOpenedFile (Some (node_status n)) [read_interrupted; read_bytes (node_data n)])
  | None => inr 2
  end.

Lemma read_whole data : read_all [read_interrupted; read_bytes data] (Zlen data) [] = Some data.
Proof.
  destruct data as [|b data]; [done|]. set (l := b :: data).
  assert (Hl : (Zlen (@nil byte) =? Zlen l) = false) by (apply Z.eqb_neq; unfold l, Zlen; simpl; lia).
  cbn [read_all]. rewrite !Hl. change (Zlen (@nil byte)) with 0.
  replace (Z.to_nat (Zlen l - 0)) with (length l) by (unfold Zlen; lia).
  rewrite firstn_all. unfold l at 1. cbn [app]. by rewrite Z.eqb_refl.
Qed.

Lemma plain_opens : @opens_own_files plain_system plain_opening.
Proof. intros path n _ _ _. eexists. split; [done|]. apply read_whole. Qed.

Definition own_file (data : bytes) : Node := mkNode 0x8180 1 7 data true.

Definition sample_path : bytes := bs "/p/clients.json".

Definition sample_disk : Disk :=
  mkDisk (<[sample_path := own_file sample_text]>
           (<[bs "/p/" ++ sample_client ++ bs ".psk" := own_file (bs "secret")]> ∅)) [].

(** The outcome of a write in three pieces. *)
Definition sample_writes (name : string) : WriteFaults :=
  mkWriteFaults (Some (bs name)) true true [wrote 5; write_interrupted; wrote 7] true true true.

Definition sample_order (s : ClientPolicySnapshot) : list (bytes * ClientPolicy) :=
  map_to_list (s : gmap bytes ClientPolicy).

Lemma sample_order_iterates s : iterates (sample_order s) s.
Proof. unfold iterates, sample_order. reflexivity. Qed.

Definition sample_store : ClientPolicyStore :=
  mkClientPolicyStore sample_path sample_limits sample_snapshot sample_text.

(** A document that turns the client off. *)
Definition changed_document : Json :=
  JObject [(bs "clients", JArray [match sample_entry sample_client (sample_client ++ bs ".psk") with
             | JObject fields => JObject (map (fun x => if decide (x.1 = bs "enabled")
                                   then (x.1, JBool false) else x) fields)
             | j => j end]);
           (bs "format_version", JUnsigned 1)].

Definition changed_text : bytes := positive_text (encode changed_document).

Abbreviation sample_replace := (@store_replace plain_system policy_json no_addresses tail_digest
  sample_order changed_text None plain_opening (sample_writes "/p/.tmp")
  (mkPolicyState sample_disk sample_store)).

Lemma policy_replace_atomic_witness :
  sample_replace.1 = Ok [sample_client] /\
  exists n, @replaced_node changed_text n plain_system /\
    files (ps_disk sample_replace.2) !! sample_path = Some n /\
    document_text (ps_store sample_replace.2) = changed_text.
Proof.
  assert (E : sample_replace.1 = Ok [sample_client]) by (by vm_compute).
  split; [exact E|]. apply pair_fst in E.
  destruct (@policy_replace_atomic plain_system policy_json no_addresses tail_digest sample_order
    changed_text None plain_opening (sample_writes "/p/.tmp") (mkPolicyState sample_disk sample_store)
    (Ok [sample_client]) sample_replace.2) as (n & Hn & _ & Hf & s & _ & Hs & _);
    [apply sample_order_iterates| |exact E|].
  { intros temporary [= <-]. by vm_compute. }
  exists n. split; [exact Hn|]. split; [|by rewrite Hs]. rewrite Hf. cbn [locate plain_system ps_store config_path sample_store].
  unfold Files. apply lookup_insert_eq.
Defined.

Lemma policy_reload_roundtrip_witness :
  @store_reload policy_json no_addresses tail_digest sample_order None
    (@disk_system plain_system plain_opening) (@disk_system plain_system plain_opening)
    sample_replace.2 = (Ok [], sample_replace.2).
Proof.
  apply (@policy_reload_roundtrip plain_system policy_json no_addresses tail_digest sample_order
    changed_text None plain_opening (sample_writes "/p/.tmp") (mkPolicyState sample_disk sample_store)
    [sample_client] sample_replace.2 (own_file sample_text)).
  - apply sample_order_iterates.
  - apply plain_opens.
  - split; [done|]. split; [by vm_compute|]. apply (bool_decide_unpack _). by vm_compute.
  - by vm_compute.
  - done.
  - done.
  - done.
  - intros temporary [= <-]. by vm_compute.
  - intros document secret Hd Hin. vm_compute in Hd. injection Hd as <-.
    assert (Hs : Forall (fun path => path <> sample_path)
      (document_secrets (bs "/p") changed_document)) by (repeat constructor; by vm_compute).
    rewrite Forall_forall in Hs. apply Hs. exact Hin.
  - apply pair_fst. by vm_compute.
Defined.
