(* ===== verification/PolicyManagement.v ===== *)
(** * The management of client policies

    The handler of the admin interface (src/server/policy_management.cpp) and how the server
    takes a change over: [apply_policy_update], the task it posts on the control strand and
    [request_reload_stop] (src/server/server.cpp).  A request edits a copy of the document
    in effect and hands it to the store; secrets are files of their own.  What the system
    calls and the random source do during one request is the argument [Outside]. *)
From S2P Require Import Prelude Common ServerWorkerPool TunnelRegistry ControlStrand Ids Text PortRange Rows KeyedMap Json IpcPath ConfigFile ClientPolicy PolicyFile PolicyStore Utf8.

Definition kMaximumPskBytes : Z := 64 * 1024.
Definition kMaximumGraceSeconds : Z := 86400.
Definition kMinimumGraceSeconds : Z := 1.

(** ** Taking a change over *)

(** [PolicyChangeCriteria]. *)
Record PolicyChangeCriteria : Set := mkPolicyChangeCriteria {
  api_driven : bool;
  old_revision : bytes;
  old_session : bytes;
  new_session : bytes
}.

(** What [apply_policy_update] posts on the control strand. *)
Record PolicyUpdate : Set := mkPolicyUpdate {
  update_changed : list bytes;
  update_criteria : gmap bytes PolicyChangeCriteria;
  update_api_driven : bool
}.

(** The server as the management handler sees it. *)
Record AdminState : Set := mkAdminState {
  as_policies : PolicyState;
  as_running : bool;
  policy_reloads_total : Z;
  policy_reload_failures_total : Z;
  as_posted : list PolicyUpdate
}.

(** What the environment does during one request: the TLS context that is built first, the
    calls of [open] and the writes of a secret and of the policy file, the second reading of
    a reload, the random source and the clock. *)
Record Outside : Type := mkOutside {
  tls_context : Result unit;
  opens : Opening;
  opens_again : Opening;
  secret_faults : WriteFaults;
  policy_faults : WriteFaults;
  random_bytes : option bytes;
  unix_seconds_now : Z
}.

(** The criteria of one client. *)
Definition change_criteria (api : bool) (previous current : ClientPolicyStore) (client_id : bytes) :
    PolicyChangeCriteria :=
  mkPolicyChangeCriteria api
    (match store_find client_id previous with Some p => revision_fingerprint p | None => [] end)
    (match store_find client_id previous with Some p => session_fingerprint p | None => [] end)
    (match store_find client_id current with Some p => session_fingerprint p | None => [] end).

(** The client's listeners and idle workers are torn down: every file-driven change, and a
    change over the interface that is not a mere rotation. *)
Definition session_affecting (u : PolicyUpdate) (client_id : bytes) : bool :=
  if update_api_driven u then
    match update_criteria u !! client_id with
    | Some c => negb (bool_decide (new_session c = old_session c))
    | None => false
    end
  else true.

(** [worker_pool_.remove_client] and [tunnel_registry_.remove_client]. *)
Definition tear_down_client (walk : Walk) (client_id : bytes) (s : Server) : list Effect * Server :=
  let (calls, wp) :=
    ServerWorkerPool.remove_client (worker_order walk (entries_ (worker_pool_ s))) client_id
      (worker_pool_ s) in
  let s := with_workers wp s in
  let (events, tr) :=
    TunnelRegistry.remove_client (listener_order walk (listeners_ (tunnel_registry_ s))) client_id
      (tunnel_registry_ s) in
  (pool_effects calls ++ listener_effects events, with_tunnels tr s).

(** The loop over the changed clients in the posted task. *)
Fixpoint tear_down_changed (walk : Walk) (u : PolicyUpdate) (clients : list bytes) (s : Server) :
    list Effect * Server :=
  match clients with
  | [] => ([], s)
  | client_id :: clients =>
      let (effects, s) :=
        if session_affecting u client_id then tear_down_client walk client_id s else ([], s) in
      let (more, s) := tear_down_changed walk u clients s in
      (effects ++ more, s)
  end.

(** The posted task; the sessions are asked with [request_reload_stop] afterwards. *)
Definition take_over (walk : Walk) (u : PolicyUpdate) (s : Server) : list Effect * Server :=
  let (effects, s) := tear_down_changed walk u (update_changed u) s in
  (effects, refresh_resource_gauges s).

(** A session as [request_reload_stop] sees it: its client, the policy it authenticated
    with and whether it is a worker with an assigned connection. *)
Record ReloadedSession : Set := mkReloadedSession {
  rs_client_id : bytes;
  policy_owner : option ClientPolicy;
  worker_assigned : bool
}.

Inductive ReloadAction : Set := keep_session | drain_session | stop_session.

(** [request_reload_stop], on the session's own strand. *)
Definition request_reload_stop (affected : list bytes) (criteria : gmap bytes PolicyChangeCriteria)
    (s : ReloadedSession) : ReloadAction :=
  if negb (bool_decide (rs_client_id s ∈ affected)) then keep_session
  else
    match criteria !! rs_client_id s with
    | None => keep_session
    | Some c =>
        let survives :=
          match policy_owner s with
          | None => false
          | Some p =>
              if api_driven c then
                bool_decide (new_session c = old_session c)
                || negb (bool_decide (session_fingerprint p = old_session c))
              else negb (bool_decide (revision_fingerprint p = old_revision c))
          end in
        if survives then keep_session
        else if worker_assigned s then drain_session
        else stop_session
    end.

Definition count_failure (s : AdminState) : AdminState :=
  mkAdminState (as_policies s) (as_running s) (policy_reloads_total s)
    (policy_reload_failures_total s + 1) (as_posted s).

Definition with_policies (p : PolicyState) (s : AdminState) : AdminState :=
  mkAdminState p (as_running s) (policy_reloads_total s) (policy_reload_failures_total s)
    (as_posted s).

Section Update.
Context `{PolicySystem} `{JsonLibrary} `{AddressParser} `{PolicyDigest}.
Context (order : ClientPolicySnapshot -> list (bytes * ClientPolicy)).
(** [options_.client_ca_path.empty()]. *)
Context (no_client_ca : bool).

(** The validator of [apply_policy_update]. *)
Definition certificate_validator (s : ClientPolicySnapshot) : Result unit :=
  if has_certificate_bindings s && no_client_ca then
    failure invalid_argument "client-ca is required when a client policy binds a certificate"
  else success.

(** [Server::Impl::apply_policy_update]. *)
Definition apply_policy_update (o : Outside) (replacement : option bytes) :
    Action AdminState (list bytes) := fun s =>
  match tls_context o with
  | Err e => (Err e, count_failure s)
  | Ok _ =>
      let previous := ps_store (as_policies s) in
      let (changed, policies) :=
        match replacement with
        | Some text =>
            store_replace order text (Some certificate_validator) (opens o) (policy_faults o)
              (as_policies s)
        | None =>
            store_reload order (Some certificate_validator) (disk_system (opens o))
              (disk_system (opens_again o)) (as_policies s)
        end in
      let s := with_policies policies s in
      match changed with
      | Err e => (Err e, count_failure s)
      | Ok changed =>
          if negb (as_running s) then
            (failure connection_failed "TLS server is not running", count_failure s)
          else
            let api := bool_decide (is_Some replacement) in
            let criteria :=
              list_to_map ((fun c => (c, change_criteria api previous (ps_store policies) c)) <$> changed) in
            (Ok changed,
             mkAdminState policies (as_running s) (policy_reloads_total s + 1)
               (policy_reload_failures_total s) (as_posted s ++ [mkPolicyUpdate changed criteria api]))
      end
  end.

(** [policy_config_directory]. *)
Definition policy_config_directory (s : AdminState) : bytes :=
  let parent := parent_path (config_path (ps_store (as_policies s))) in
  if decide (parent = []) then bs "." else parent.
End Update.

(** ** Documents *)

(** A request fails with an error or because the JSON library throws. *)
Inductive HandlerFailure : Set := Refused (e : Error) | Thrown.

Definition Handler (A : Type) : Type := ST HandlerFailure AdminState A.

Definition refuse {A} (c : ErrorCode) (m : string) : Handler A :=
  ST_fail (Refused (mkError c (bs m))).

(** A call that returns a [Result]. *)
Definition call {A} (m : Action AdminState A) : Handler A := fun s =>
  let (r, s) := m s in (match r with Ok a => Ok a | Err e => Err (Refused e) end, s).

(** [value.at(...)] and conversions that throw. *)
Definition or_throw {A} (x : option A) : Handler A :=
  match x with Some a => mret a | None => ST_fail Thrown end.

(** The value of a text that may repeat keys: the last value of a key counts. *)
Fixpoint json_value (j : Json) : Json :=
  match j with
  | JInt z => if 0 <=? z then JUnsigned z else JInt z
  | JArray l => JArray (map json_value l)
  | JObject l => JObject (sort_fields (reverse (map (fun x => (x.1, json_value x.2)) l)))
  | j => j
  end.

(** [object[key] = value] on the fields of a sorted object. *)
Fixpoint assign_field (key : bytes) (value : Json) (fields : list (bytes * Json)) :
    list (bytes * Json) :=
  match fields with
  | [] => [(key, value)]
  | (k, v) :: rest =>
      if decide (k = key) then (key, value) :: rest
      else if bytes_ltb key k then (key, value) :: fields
      else (k, v) :: assign_field key value rest
  end.

(** [object.erase(key)]. *)
Definition erase_field (key : bytes) (fields : list (bytes * Json)) : list (bytes * Json) :=
  List.filter (fun x => negb (bool_decide (x.1 = key))) fields.

(** [value.size()] and the elements of [for (auto& entry : value)]. *)
Definition json_items (j : Json) : list Json :=
  match j with
  | JNull => []
  | JArray l => l
  | JObject fields => map snd fields
  | j => [j]
  end.

(** The test of [find_client] and [delete_client]. *)
Definition names_client (client_id : bytes) (entry : Json) : bool :=
  match json_find (bs "client_id") entry with
  | Some (JString id) => bool_decide (id = client_id)
  | _ => false
  end.

(** [find_client]: the position and the fields of the entry. *)
Fixpoint find_entry (client_id : bytes) (entries : list Json) : option (nat * list (bytes * Json)) :=
  match entries with
  | [] => None
  | entry :: entries =>
      if names_client client_id entry then
        match entry with JObject fields => Some (0%nat, fields) | _ => None end
      else prod_map S id <$> find_entry client_id entries
  end.

Definition find_client (document : Json) (client_id : bytes) : option (nat * list (bytes * Json)) :=
  match json_find (bs "clients") document with
  | Some (JArray entries) => find_entry client_id entries
  | _ => None
  end.

(** The document with another value for [clients]. *)
Definition with_clients (clients : Json) (document : Json) : Json :=
  match document with
  | JObject fields => JObject (assign_field (bs "clients") clients fields)
  | j => j
  end.

(** [entry.value("connections_per_minute", 0U)]: numbers and booleans are converted. *)
Definition rate_value (float_value : SpecFloat.spec_float -> Z) (entry : Json) : option Json :=
  match json_find (bs "connections_per_minute") entry with
  | None => Some (JUnsigned 0)
  | Some (JUnsigned z) | Some (JInt z) => Some (JUnsigned (z mod 2 ^ 32))
  | Some (JBool b) => Some (JUnsigned (Z.b2z b))
  | Some (JFloat x) => Some (JUnsigned (float_value x))
  | Some _ => None
  end.

(** [client_summary]; [None] when it throws. *)
Definition client_summary (float_value : SpecFloat.spec_float -> Z) (entry : Json) : option Json :=
  let required := ["client_id"; "enabled"; "psk_file"; "allowed_ports"; "max_tunnels";
                   "max_connections"; "max_idle_workers"]%string in
  let optional := ["certificate_sha256"; "certificate_san"; "allowed_source_cidrs";
                   "previous_psk_expires_at"]%string in
  copied ← mapM (fun field => value ← json_find (bs field) entry; Some (bs field, value)) required;
  rate ← rate_value float_value entry;
  let summary :=
    sort_fields (copied ++ [(bs "connections_per_minute", rate);
                            (bs "rotation_active", JBool (has_field "previous_psk_file" entry))]) in
  Some (JObject (foldl (fun fields field =>
    match json_find (bs field) entry with
    | Some value => assign_field (bs field) value fields
    | None => fields
    end) summary optional)).

(** ** Requests *)

Record ManagementRequest : Set := mkManagementRequest {
  rq_method : bytes;
  rq_path : bytes;
  rq_body : bytes
}.

Record ManagementResponse : Set := mkManagementResponse {
  rp_status : Z;
  rp_reason : bytes;
  rp_content_type : bytes;
  rp_body : bytes
}.

(** The loop of [split_path] on what follows the slash before [cursor]. *)
Fixpoint split_segments (fuel : nat) (rest : bytes) : option (list bytes) :=
  match fuel with
  | O => None
  | S fuel =>
      match find_char ch_slash rest with
      | None => if decide (rest = []) then None else Some [rest]
      | Some n =>
          if decide (n = 0%nat) then None
          else segments ← split_segments fuel (drop (S n) rest); Some (take n rest :: segments)
      end
  end.

(** [split_path]. *)
Definition split_path (path : bytes) : Result (list bytes) :=
  match path with
  | first :: rest =>
      if decide (first = ch_slash) then
        match split_segments (length path) rest with
        | Some segments => Ok segments
        | None => failure invalid_argument "management path is invalid"
        end
      else failure invalid_argument "management path is invalid"
  | [] => failure invalid_argument "management path is invalid"
  end.

Example split_path_samples :
  map split_path (map bs ["/v1/clients"; "/v1//x"; "/v1/"; "/"; "v1"; "/a/b/c"]%string) =
  [Ok [bs "v1"; bs "clients"]; failure invalid_argument "management path is invalid";
   failure invalid_argument "management path is invalid";
   failure invalid_argument "management path is invalid";
   failure invalid_argument "management path is invalid"; Ok [bs "a"; bs "b"; bs "c"]].
Proof. reflexivity. Qed.

(** [validate_client_id]. *)
Definition validate_client_id (value : bytes) : Result unit :=
  match Id_parse_kind value client with
  | Ok _ => success
  | Err _ => failure invalid_argument "client_id is invalid"
  end.

(** [parse_request_body]. *)
Definition parse_request_body `{JsonLibrary} (body : bytes) : Result Json :=
  if decide (body = []) then failure invalid_argument "request body is required"
  else if kMaximumPskBytes * 4 <? Zlen body then
    failure resource_exhausted "request body exceeds the management limit"
  else
    match json_text body with
    | None => failure invalid_argument "request body is not strict JSON"
    | Some text =>
        if is_object text then Ok (json_value text)
        else failure invalid_argument "request body must be a JSON object"
    end.

Definition upsert_fields : list string :=
  ["client_id"; "enabled"; "psk"; "allowed_ports"; "max_tunnels"; "max_connections";
   "max_idle_workers"; "certificate_sha256"; "certificate_san"; "allowed_source_cidrs";
   "connections_per_minute"]%string.

(** A check of a field that is present. *)
Definition check_field (body : Json) (field : string) (check : Json -> Result unit) : Result unit :=
  match json_find (bs field) body with None => success | Some value => check value end.

Fixpoint check_fields (body : Json) (fields : list string) (check : string -> Json -> Result unit) :
    Result unit :=
  match fields with
  | [] => success
  | field :: fields =>
      _ ← check_field body field (check field);
      check_fields body fields check
  end.

(** [validate_upsert_body]. *)
Definition validate_upsert_body (body : Json) (path_id : bytes) : Result unit :=
  if negb (forallb (fun key => bool_decide (key ∈ map bs upsert_fields)) (json_keys body)) then
    failure invalid_argument "client policy body contains an unknown field"
  else
    _ ← check_field body "client_id" (fun value =>
      match value with
      | JString id =>
          if decide (id = path_id) then success
          else failure invalid_argument "client_id must match the request path"
      | _ => failure invalid_argument "client_id must match the request path"
      end);
    _ ← check_field body "enabled" (fun value =>
      match value with
      | JBool _ => success
      | _ => failure invalid_argument "enabled must be a boolean"
      end);
    _ ← check_field body "psk" (fun value =>
      match value with
      | JString text =>
          if bool_decide (text = []) || (kMaximumPskBytes <? Zlen text) || bool_decide (kNul ∈ text)
          then failure invalid_argument "psk must be a bounded string" else success
      | _ => failure invalid_argument "psk must be a bounded string"
      end);
    _ ← check_fields body ["allowed_ports"; "allowed_source_cidrs"]%string (fun field value =>
      match value with
      | JArray [] => Err (name_error field " must be a non-empty array")
      | JArray entries =>
          if forallb is_string entries then success
          else Err (name_error field " entries must be strings")
      | _ => Err (name_error field " must be a non-empty array")
      end);
    _ ← check_fields body ["max_tunnels"; "max_connections"; "max_idle_workers";
                           "connections_per_minute"]%string (fun field value =>
      match value with
      | JUnsigned z =>
          if 2 ^ 64 - 1 <? z then Err (name_error field " must be an unsigned integer") else success
      | _ => Err (name_error field " must be an unsigned integer")
      end);
    if has_field "certificate_sha256" body && has_field "certificate_san" body then
      failure invalid_argument "certificate_sha256 and certificate_san are mutually exclusive"
    else
      check_fields body ["certificate_sha256"; "certificate_san"]%string (fun field value =>
        if is_string value then success else Err (name_error field " must be a string")).

(** [psk_file_for]. *)
Definition psk_file_for (client_id : bytes) (suffix : string) : bytes := client_id ++ bs suffix.

(** [generate_psk]. *)
Definition generate_psk (random : option bytes) : Result bytes :=
  match random with
  | None => failure internal_error "secure random PSK generation failed"
  | Some random => Ok (mjoin (hex_of_byte <$> random))
  end.

(** [write_secret_file_atomic]. *)
Definition write_secret_file_atomic `{PolicySystem} (directory filename secret : bytes)
    (f : WriteFaults) : Action Disk unit :=
  if bool_decide (secret = []) || (kMaximumPskBytes <? Zlen secret) || bool_decide (kNul ∈ secret) then
    fail_with invalid_argument "PSK content is invalid"
  else if bool_decide (filename = []) || bool_decide (ch_slash ∈ filename)
          || bool_decide (kNul ∈ filename) then
    fail_with invalid_argument "PSK file name is invalid"
  else
    install_file (directory ++ ch_slash :: filename) (secret ++ [Byte.x0a]) (fun _ => 0x180) false
      "PSK file mode cannot be applied" "PSK file write failed" "PSK file replacement failed" f.

(** An operation on the disk of the server. *)
Definition on_server_disk {A} (m : Action Disk A) : Action AdminState A := fun s =>
  let (r, policies) := on_disk m (as_policies s) in (r, with_policies policies s).

(** ** The handler *)

(** [document.dump(2)]: the same text as [json_dump] up to white space. *)
Class IndentedDump := { json_dump_indented : Json -> option bytes }.

Class IndentedDumpLaws `{JsonLibrary} `{IndentedDump} : Prop := {
  indented_text j p : printable j = true -> json_dump_indented j = Some p -> json_text p = Some (as_text j);
  (** The strict error handler throws at a string that is not UTF-8. *)
  indented_strings j p : json_dump_indented j = Some p -> all_strings ipc_is_valid_utf8 j = true
}.

Section Handler.
Context `{PolicySystem} `{JsonLibrary} `{IndentedDump} `{AddressParser} `{PolicyDigest}.
Context (order : ClientPolicySnapshot -> list (bytes * ClientPolicy)) (no_client_ca : bool).
Context (float_value : SpecFloat.spec_float -> Z).
(** [server_id()] and [options_.rotation_grace_seconds]. *)
Context (server_id : bytes) (default_grace : Z).
Context (o : Outside).

(** [load_document]; minitun_server_main.cpp sets every binding. *)
Definition load_document : Handler Json :=
  text ← call (fun s => (store_document (ps_store (as_policies s)), s));
  match json_text text with
  | Some value => mret (json_value value)
  | None => refuse invalid_argument "policy document is not valid JSON"
  end.

(** [persist_document]. *)
Definition persist_document (document : Json) : Handler unit :=
  match json_dump_indented document with
  | None => refuse invalid_argument "policy document cannot be serialized"
  | Some text =>
      _ ← call (apply_policy_update order no_client_ca o (Some text));
      mret tt
  end.

(** [response_json]. *)
Definition response_json (body : Json) : Handler ManagementResponse :=
  match json_dump body with
  | None => refuse internal_error "management response cannot be serialized"
  | Some text => mret (mkManagementResponse 200 (bs "OK") (bs "application/json") text)
  end.

Definition endpoint_not_found {A} : Handler A := refuse not_found "management endpoint not found".

(** [handle_health]. *)
Definition handle_health (r : ManagementRequest) : Handler ManagementResponse :=
  if negb (bool_decide (rq_method r = bs "GET")) then endpoint_not_found
  else response_json (json_object [("status", JString (bs "ok")); ("server_id", JString server_id)]%string).

(** [handle_reload]. *)
Definition handle_reload (r : ManagementRequest) : Handler ManagementResponse :=
  if negb (bool_decide (rq_method r = bs "POST")) then endpoint_not_found
  else if negb (bool_decide (rq_body r = [])) then
    refuse invalid_argument "reload takes no request body"
  else
    changed ← call (apply_policy_update order no_client_ca o None);
    response_json (json_object [("changed"%string, JArray (JString <$> changed))]).

(** [list_clients]. *)
Definition list_clients : Handler ManagementResponse :=
  document ← load_document;
  clients ← or_throw (json_find (bs "clients") document);
  summaries ← or_throw (mapM (client_summary float_value) (json_items clients));
  response_json (json_object [("clients"%string, JArray summaries)]).

(** [get_client]. *)
Definition get_client (client_id : bytes) : Handler ManagementResponse :=
  document ← load_document;
  match find_client document client_id with
  | None => refuse not_found "client policy not found"
  | Some (_, fields) =>
      summary ← or_throw (client_summary float_value (JObject fields));
      response_json (json_object [("client"%string, summary)])
  end.

(** The writing of a secret, [on_server_disk] for short. *)
Definition write_secret (directory filename secret : bytes) : Handler unit :=
  call (on_server_disk (write_secret_file_atomic directory filename secret (secret_faults o))).

Definition required_on_create : list string :=
  ["allowed_ports"; "max_tunnels"; "max_connections"; "max_idle_workers"]%string.

(** [copy_field]. *)
Definition copy_field (body : Json) (fields : list (bytes * Json)) (field : string) :
    list (bytes * Json) :=
  match json_find (bs field) body with
  | Some value => assign_field (bs field) value fields
  | None => fields
  end.

(** The entry [upsert_client] leaves; [None] when [entry.value("enabled", true)] throws. *)
Definition upserted_fields (client_id : bytes) (body : Json) (create : bool)
    (fields : list (bytes * Json)) : option (list (bytes * Json)) :=
  let fields := assign_field (bs "client_id") (JString client_id) fields in
  let fields :=
    if has_field "psk" body || create
    then assign_field (bs "psk_file") (JString (psk_file_for client_id ".psk")) fields else fields in
  fallback ←
    (if create then Some true
     else match find_field (bs "enabled") fields with
          | None => Some true
          | Some (JBool b) => Some b
          | Some _ => None
          end);
  enabled ← match json_find (bs "enabled") body with
            | None => Some fallback
            | Some (JBool b) => Some b
            | Some _ => None
            end;
  let fields := assign_field (bs "enabled") (JBool enabled) fields in
  let fields :=
    foldl (copy_field body) fields
      ["allowed_ports"; "max_tunnels"; "max_connections"; "max_idle_workers";
       "connections_per_minute"; "allowed_source_cidrs"]%string in
  Some
    (if has_field "certificate_sha256" body || has_field "certificate_san" body then
       foldl (copy_field body)
         (erase_field (bs "certificate_san") (erase_field (bs "certificate_sha256") fields))
         ["certificate_sha256"; "certificate_san"]%string
     else fields).

(** The secret of [upsert_client]: a secret in the body is written, a new client without
    one gets a random secret, which is returned. *)
Definition upsert_secret (directory client_id : bytes) (body : Json) (create : bool) :
    Handler (option bytes) :=
  match json_find (bs "psk") body with
  | Some (JString secret) =>
      _ ← write_secret directory (psk_file_for client_id ".psk") secret;
      mret None
  | Some _ => ST_fail Thrown
  | None =>
      if create then
        generated ← call (ST_lift (generate_psk (random_bytes o)));
        _ ← write_secret directory (psk_file_for client_id ".psk") generated;
        mret (Some generated)
      else mret None
  end.

(** The end of [upsert_client]: the document with the entry is persisted and answered. *)
Definition persist_upsert (clients document : Json) (edit : list Json -> list Json)
    (fields : list (bytes * Json)) (generated : option bytes) : Handler ManagementResponse :=
  _ ← persist_document (with_clients (JArray (edit (json_items clients))) document);
  summary ← or_throw (client_summary float_value (JObject fields));
  response_json (JObject (match generated with
    | Some secret => assign_field (bs "psk") (JString secret) [(bs "client", summary)]
    | None => [(bs "client", summary)]
    end)).

(** [upsert_client]. *)
Definition upsert_client (client_id body_text : bytes) : Handler ManagementResponse :=
  body ← call (ST_lift (parse_request_body body_text));
  _ ← call (ST_lift (validate_upsert_body body client_id));
  document ← load_document;
  clients ← or_throw (json_find (bs "clients") document);
  if 100000 <=? Zlen (json_items clients) then
    refuse resource_exhausted "client policy limit reached"
  else
    directory ← ST_get policy_config_directory;
    if decide (directory = []) then refuse internal_error "policy directory is unavailable"
    else
      let existing := find_client document client_id in
      let create := bool_decide (existing = None) in
      match (if create then List.find (fun field => negb (has_field field body)) required_on_create
             else None) with
      | Some field =>
          ST_fail (Refused (name_error field " is required when creating a client policy"))
      | None =>
          generated ← upsert_secret directory client_id body create;
          match existing with
          | Some (index, fields) =>
              let fields :=
                if has_field "psk" body then
                  erase_field (bs "previous_psk_expires_at") (erase_field (bs "previous_psk_file") fields)
                else fields in
              fields ← or_throw (upserted_fields client_id body create fields);
              persist_upsert clients document (fun l => <[index := JObject fields]> l) fields generated
          | None =>
              match clients with
              | JArray _ | JNull =>
                  fields ← or_throw (upserted_fields client_id body create []);
                  persist_upsert clients document (fun l => l ++ [JObject fields]) fields generated
              | _ => ST_fail Thrown
              end
          end
      end.

(** The search of [delete_client]; [clients.at(index)] throws when it is not an array. *)
Definition delete_index (client_id : bytes) (clients : Json) : Handler (option nat) :=
  match clients with
  | JArray entries => mret (fst <$> list_find (fun e => names_client client_id e = true) entries)
  | _ => if decide (json_items clients = []) then mret None else ST_fail Thrown
  end.

(** [delete_client]. *)
Definition delete_client (client_id : bytes) : Handler ManagementResponse :=
  document ← load_document;
  clients ← or_throw (json_find (bs "clients") document);
  found ← delete_index client_id clients;
  match found with
  | None => refuse not_found "client policy not found"
  | Some index =>
      _ ← persist_document
            (with_clients (JArray (delete index (json_items clients))) document);
      response_json (json_object [("removed"%string, JString client_id)])
  end.

(** The grace of [rotate_psk]. *)
Definition rotation_grace (body_text : bytes) : Result Z :=
  grace ←
    (if decide (body_text = []) then Ok default_grace
     else
       body ← parse_request_body body_text;
       match json_find (bs "grace_seconds") body with
       | Some value =>
           if negb (Zlen (json_keys body) =? 1) then
             failure invalid_argument "rotation body accepts only grace_seconds"
           else
             match value with
             | JUnsigned z =>
                 if 2 ^ 63 - 1 <? z then failure invalid_argument "grace_seconds is invalid" else Ok z
             | _ => failure invalid_argument "grace_seconds is invalid"
             end
       | None => failure invalid_argument "rotation body accepts only grace_seconds"
       end);
  if (grace <? kMinimumGraceSeconds) || (kMaximumGraceSeconds <? grace) then
    failure invalid_argument "grace_seconds must be between 1 and 86400"
  else Ok grace.

(** The file the new secret of a rotation is written to. *)
Definition rotation_target (client_id current_file : bytes) : bytes :=
  if decide (current_file = psk_file_for client_id ".psk") then psk_file_for client_id ".psk.previous"
  else psk_file_for client_id ".psk".

(** The entry after a rotation. *)
Definition rotated_fields (current_file target : bytes) (expires_at : Z)
    (fields : list (bytes * Json)) : list (bytes * Json) :=
  assign_field (bs "psk_file") (JString target)
    (assign_field (bs "previous_psk_expires_at") (JInt expires_at)
       (assign_field (bs "previous_psk_file") (JString current_file) fields)).

(** [rotate_psk]. *)
Definition rotate_psk (client_id body_text : bytes) : Handler ManagementResponse :=
  grace ← call (ST_lift (rotation_grace body_text));
  document ← load_document;
  match find_client document client_id with
  | None => refuse not_found "client policy not found"
  | Some (index, fields) =>
      match find_field (bs "psk_file") fields with
      | Some (JString current_file) =>
          if decide (current_file = []) then
            refuse invalid_argument "client policy has no PSK file"
          else
            directory ← ST_get policy_config_directory;
            if decide (directory = []) then refuse internal_error "policy directory is unavailable"
            else
              generated ← call (ST_lift (generate_psk (random_bytes o)));
              let target := rotation_target client_id current_file in
              _ ← write_secret directory target generated;
              let expires_at := unix_seconds_now o + grace in
              clients ← or_throw (json_find (bs "clients") document);
              _ ← persist_document
                    (with_clients (JArray (<[index := JObject
                       (rotated_fields current_file target expires_at fields)]> (json_items clients)))
                       document);
              response_json (json_object [("psk", JString generated);
                                          ("previous_psk_expires_at", JInt expires_at)]%string)
      | _ => refuse invalid_argument "client policy has no PSK file"
      end
  end.

(** [handle_clients]. *)
Definition handle_clients (r : ManagementRequest) (segments : list bytes) : Handler ManagementResponse :=
  match drop 2 segments with
  | [] => if decide (rq_method r = bs "GET") then list_clients else endpoint_not_found
  | client_id :: rest =>
      if 1 <? Zlen rest then endpoint_not_found
      else
        _ ← call (ST_lift (validate_client_id client_id));
        match rest with
        | action :: _ =>
            if negb (bool_decide (action = bs "rotate-psk")) || negb (bool_decide (rq_method r = bs "POST"))
            then endpoint_not_found
            else rotate_psk client_id (rq_body r)
        | [] =>
            if decide (rq_method r = bs "GET") then get_client client_id
            else if decide (rq_method r = bs "PUT") then upsert_client client_id (rq_body r)
            else if decide (rq_method r = bs "DELETE") then delete_client client_id
            else endpoint_not_found
        end
  end.

(** [Handler::operator()]. *)
Definition handle (r : ManagementRequest) : Handler ManagementResponse :=
  segments ← call (ST_lift (split_path (rq_path r)));
  match segments with
  | version :: area :: rest =>
      if negb (bool_decide (version = bs "v1")) then endpoint_not_found
      else if bool_decide (rest = []) && bool_decide (area = bs "health") then handle_health r
      else if bool_decide (rest = []) && bool_decide (area = bs "reload") then handle_reload r
      else if bool_decide (area = bs "clients") then handle_clients r segments
      else endpoint_not_found
  | _ => endpoint_not_found
  end.
End Handler.

(** [make_policy_management_handler]: the grace of the options is checked once. *)
Definition make_policy_management_handler (rotation_grace_seconds : Z) : Result Z :=
  if (rotation_grace_seconds <? kMinimumGraceSeconds) || (kMaximumGraceSeconds <? rotation_grace_seconds)
  then failure invalid_argument "rotation grace window is invalid"
  else Ok rotation_grace_seconds.
