(* ===== verification/PolicyEdit.v ===== *)
(** * Editing a document

    What the edits of src/server/policy_management.cpp do to a parsed document, and that the
    text an edited document is written as is parsed as that document again: objects of
    [nlohmann::json] are sorted by key, and a value that was parsed is not changed by being
    printed and parsed. *)
From stdpp Require Import sorting.
From S2P Require Import Prelude Common Text Utf8 Json ClientPolicy PolicyFile PolicyStore PolicyManagement.

(** ** The order of the keys *)

Lemma bytes_ltb_compare l1 l2 : bytes_ltb l1 l2 = true <-> bytes_compare l1 l2 = Lt.
Proof.
  revert l2. induction l1 as [|a l1 IH]; intros [|b l2]; simpl; try done.
  destruct (Z.compare_spec (Z_of_byte a) (Z_of_byte b)) as [E|E|E].
  - rewrite E, Z.ltb_irrefl, Z.eqb_refl. simpl. apply IH.
  - destruct (Z.ltb_spec (Z_of_byte a) (Z_of_byte b)); [done|lia].
  - destruct (Z.ltb_spec (Z_of_byte a) (Z_of_byte b)); [lia|].
    destruct (Z.eqb_spec (Z_of_byte a) (Z_of_byte b)); [lia|done].
Qed.

Lemma bytes_ltb_trans l1 l2 l3 :
  bytes_ltb l1 l2 = true -> bytes_ltb l2 l3 = true -> bytes_ltb l1 l3 = true.
Proof. rewrite !bytes_ltb_compare. apply bytes_compare_lt_trans. Qed.

Lemma bytes_ltb_irrefl l : bytes_ltb l l = false.
Proof. induction l as [|a l IH]; simpl; [done|]. by rewrite Z.ltb_irrefl, IH, andb_false_r. Qed.

Lemma bytes_ltb_total l1 l2 : l1 <> l2 -> bytes_ltb l1 l2 = false -> bytes_ltb l2 l1 = true.
Proof.
  intros Hne Hlt. rewrite bytes_ltb_compare. destruct (bytes_compare l1 l2) eqn:E.
  - by apply bytes_compare_eq in E.
  - apply bytes_ltb_compare in E. congruence.
  - by apply bytes_compare_gt.
Qed.

(** The fields of an object of [nlohmann::json]. *)
Definition field_lt {A} (x y : bytes * A) : Prop := bytes_ltb x.1 y.1 = true.
Abbreviation fields_sorted := (StronglySorted field_lt).

Lemma emplace_field_elem {A} key (value : A) l x :
  x ∈ emplace_field key value l -> x = (key, value) \/ x ∈ l.
Proof.
  induction l as [|[k v] l IH]; simpl; [by rewrite list_elem_of_singleton; left|].
  case_decide; [by right|]. case_match; rewrite !elem_of_cons; naive_solver.
Qed.

Lemma emplace_field_sorted {A} key (value : A) l :
  fields_sorted l -> fields_sorted (emplace_field key value l).
Proof.
  induction 1 as [|[k v] l Hs IH Hf]; simpl; [by repeat constructor|].
  case_decide as Hk; [by constructor|]. case_match eqn:E.
  - constructor; [by constructor|]. constructor; [done|]. eapply Forall_impl; [exact Hf|].
    intros y Hy. by eapply bytes_ltb_trans.
  - constructor; [done|]. apply Forall_forall. intros y [->|Hy]%emplace_field_elem.
    + apply (bytes_ltb_total key k); [congruence|exact E].
    + rewrite Forall_forall in Hf. by apply Hf.
Qed.

Lemma sort_fields_sorted {A} (l : list (bytes * A)) : fields_sorted (sort_fields l).
Proof.
  unfold sort_fields. assert (H : fields_sorted (@nil (bytes * A))) by constructor. revert H.
  generalize (@nil (bytes * A)). induction l as [|[k v] l IH]; intros acc Ha; simpl; [done|].
  by apply IH, emplace_field_sorted.
Qed.

Lemma emplace_field_last {A} key (value : A) l :
  Forall (fun x => bytes_ltb x.1 key = true) l -> emplace_field key value l = l ++ [(key, value)].
Proof.
  induction 1 as [|[k v] l Hk _ IH]; simpl; [done|]. simpl in Hk.
  rewrite decide_False by (intros ->; by rewrite bytes_ltb_irrefl in Hk).
  destruct (bytes_ltb key k) eqn:E; [|by rewrite IH].
  pose proof (bytes_ltb_trans _ _ _ Hk E) as Hx. by rewrite bytes_ltb_irrefl in Hx.
Qed.

(** Sorting a sorted object changes nothing. *)
Lemma sort_sorted_fields {A} (l : list (bytes * A)) : fields_sorted l -> sort_fields l = l.
Proof.
  intros Hs. unfold sort_fields.
  assert (H : forall acc, fields_sorted (acc ++ l) ->
    fold_left (fun sorted '(k, v) => emplace_field k v sorted) l acc = acc ++ l); [|by apply (H [])].
  clear Hs. induction l as [|[k v] l IH]; intros acc Hacc; simpl; [by rewrite app_nil_r|].
  rewrite emplace_field_last.
  - rewrite IH; [by rewrite <- app_assoc|]. by rewrite <- app_assoc.
  - clear IH. induction acc as [|y acc IH]; [constructor|].
    apply StronglySorted_inv in Hacc as [Hacc Hy]. constructor; [|by apply IH].
    rewrite Forall_forall in Hy. apply (Hy (k, v)). apply elem_of_app. right. apply list_elem_of_here.
Qed.

Lemma fields_sorted_NoDup {A} (l : list (bytes * A)) : fields_sorted l -> NoDup (map fst l).
Proof.
  induction 1 as [|[k v] l _ IH Hf]; simpl; constructor; [|done].
  intros Hin. apply list_elem_of_In, in_map_iff in Hin as ([k' v'] & E & Hin). simpl in E. subst k'.
  apply list_elem_of_In in Hin. rewrite Forall_forall in Hf. specialize (Hf _ Hin).
  unfold field_lt in Hf. simpl in Hf. by rewrite bytes_ltb_irrefl in Hf.
Qed.

Lemma fields_sorted_unique {A} (l l' : list (bytes * A)) :
  fields_sorted l -> fields_sorted l' -> l ≡ₚ l' -> l = l'.
Proof.
  intros H1 H2 Hp. assert (AntiSymm eq (field_lt (A := A))).
  { intros x y Hx Hy. pose proof (bytes_ltb_trans _ _ _ Hx Hy) as Hz. by rewrite bytes_ltb_irrefl in Hz. }
  by apply (StronglySorted_unique field_lt).
Qed.

(** ** Values that were parsed *)

Definition parsed_field (x : bytes * Json) : bytes * Json := (x.1, as_parsed x.2).

Lemma map_parsed_sorted (l : list (bytes * Json)) :
  fields_sorted l -> fields_sorted (map parsed_field l).
Proof.
  induction 1 as [|x l _ IH Hf]; simpl; constructor; [done|].
  apply List.Forall_map. eapply Forall_impl; [exact Hf|]. done.
Qed.

(** The fields of a parsed object: sorted, with values that parsing leaves alone. *)
Definition parsed_fields (l : list (bytes * Json)) : Prop :=
  fields_sorted l /\ Forall (fun x => as_parsed x.2 = x.2) l.

Lemma map_parsed_id l : Forall (fun x : bytes * Json => as_parsed x.2 = x.2) l -> map parsed_field l = l.
Proof. induction 1 as [|[k v] l Hv _ IH]; simpl in *; [done|]. unfold parsed_field at 1. simpl. congruence. Qed.

Lemma emplace_field_Forall {A} (P : bytes * A -> Prop) key value l :
  P (key, value) -> Forall P l -> Forall P (emplace_field key value l).
Proof.
  intros Hk Hl. apply Forall_forall. intros x [->|Hx]%emplace_field_elem; [done|].
  rewrite Forall_forall in Hl. by apply Hl.
Qed.

Lemma sort_fields_Forall {A} (P : bytes * A -> Prop) l : Forall P l -> Forall P (sort_fields l).
Proof.
  unfold sort_fields. assert (Ha : Forall P []) by constructor. revert Ha. generalize (@nil (bytes * A)).
  induction l as [|[k v] l IH]; intros acc Ha; simpl; [done|]. intros [Hk Hl]%Forall_cons.
  apply IH; [|done]. by apply emplace_field_Forall.
Qed.

Lemma as_parsed_object l :
  Forall (fun x : bytes * Json => as_parsed (as_parsed x.2) = as_parsed x.2) l ->
  parsed_fields (sort_fields (map parsed_field l)).
Proof.
  intros Hl. split; [apply sort_fields_sorted|]. apply sort_fields_Forall.
  induction Hl as [|[k v] l Hv _ IH]; simpl; constructor; done.
Qed.

(** Parsing twice is parsing once. *)
Lemma as_parsed_idemp j : as_parsed (as_parsed j) = as_parsed j.
Proof.
  induction j as [ | |z| | | |l IH|l IH] using Json_ind; simpl; try done.
  - destruct (Z.leb_spec 0 z); simpl; [done|]. destruct (Z.leb_spec 0 z); [lia|done].
  - f_equal. rewrite map_map. by apply Forall_map_eq.
  - f_equal. destruct (as_parsed_object l IH) as [Hs Hf].
    change (map (fun x => (x.1, as_parsed x.2))) with (map parsed_field) in *.
    rewrite (map_parsed_id _ Hf). by apply sort_sorted_fields.
Qed.

Lemma as_parsed_fields l : as_parsed (JObject l) = JObject l -> parsed_fields l.
Proof.
  intros E. destruct (as_parsed_object l) as [Hs Hf].
  { apply Forall_forall. intros x _. apply as_parsed_idemp. }
  simpl in E. injection E as E. rewrite <- E. by split.
Qed.

Lemma parsed_fields_object l : parsed_fields l -> as_parsed (JObject l) = JObject l.
Proof.
  intros [Hs Hf]. simpl. change (map (fun x => (x.1, as_parsed x.2))) with (map parsed_field).
  by rewrite (map_parsed_id _ Hf), sort_sorted_fields.
Qed.

Lemma parsed_array l : as_parsed (JArray l) = JArray l -> Forall (fun e => as_parsed e = e) l.
Proof.
  simpl. intros [= E]. induction l as [|e l IH]; constructor; simpl in E; [congruence|].
  apply IH. congruence.
Qed.

Lemma find_field_parsed k l v : parsed_fields l -> find_field k l = Some v -> as_parsed v = v.
Proof.
  intros [Hs Hf] Hv. apply find_field_elem in Hv; [|by apply fields_sorted_NoDup].
  rewrite Forall_forall in Hf. by apply (Hf (k, v)).
Qed.

(** Without repeated keys it does not matter which value of a key counts. *)
Lemma json_value_parsed j : distinct_keys j = true -> json_value j = as_parsed j.
Proof.
  induction j as [ | |z| | | |l IH|l IH] using Json_ind; simpl; try done.
  - intros Hd. f_equal. induction IH as [|j l Hj _ IHl]; simpl in *; [done|].
    apply andb_prop in Hd as [? ?]. by rewrite Hj, IHl.
  - intros [Hnd%bool_decide_eq_true Hd]%andb_prop.
    assert (E : map (fun x => (x.1, json_value x.2)) l = map parsed_field l).
    { clear Hnd. induction IH as [|[k j] l Hj _ IHl]; simpl in *; [done|].
      apply andb_prop in Hd as [? ?]. unfold parsed_field at 1. simpl. by rewrite Hj, IHl. }
    rewrite E. change (map (fun x => (x.1, as_parsed x.2)) l) with (map parsed_field l). f_equal.
    assert (Hnd' : NoDup (map fst (map parsed_field l))) by (by rewrite map_map).
    apply fields_sorted_unique; [apply sort_fields_sorted..|].
    rewrite !sort_fields_perm; [apply reverse_Permutation|done|].
    by rewrite reverse_Permutation.
Qed.

(** ** Edits *)

Lemma find_assign_eq k v l : find_field k (assign_field k v l) = Some v.
Proof.
  induction l as [|[k' v'] l IH]; simpl; [by rewrite decide_True|].
  case_decide; simpl; [by rewrite decide_True|]. case_match; simpl; [by rewrite decide_True|].
  by rewrite decide_False.
Qed.

Lemma find_assign_ne k k' v l : k' <> k -> find_field k' (assign_field k v l) = find_field k' l.
Proof.
  intros Hne. induction l as [|[k2 v2] l IH]; simpl; [by rewrite decide_False by congruence|].
  case_decide as Hk; simpl.
  - subst. rewrite !decide_False by congruence. done.
  - case_match; simpl; [by rewrite decide_False by congruence|]. case_decide; [done|]. apply IH.
Qed.

Lemma assign_field_elem k v l x : x ∈ assign_field k v l -> x = (k, v) \/ x ∈ l.
Proof.
  induction l as [|[k' v'] l IH]; simpl; [by rewrite list_elem_of_singleton; left|].
  case_decide; [|case_match]; rewrite !elem_of_cons; naive_solver.
Qed.

Lemma assign_field_sorted k v l : fields_sorted l -> fields_sorted (assign_field k v l).
Proof.
  induction 1 as [|[k' v'] l Hs IH Hf]; simpl; [by repeat constructor|].
  case_decide as Hk; [subst; by constructor|]. case_match eqn:E.
  - constructor; [by constructor|]. constructor; [done|]. eapply Forall_impl; [exact Hf|].
    intros y Hy. by eapply bytes_ltb_trans.
  - constructor; [done|]. apply Forall_forall. intros y [->|Hy]%assign_field_elem.
    + apply (bytes_ltb_total k k'); [congruence|exact E].
    + rewrite Forall_forall in Hf. by apply Hf.
Qed.

Lemma map_assign k v l :
  map parsed_field (assign_field k v l) = assign_field k (as_parsed v) (map parsed_field l).
Proof.
  induction l as [|[k' v'] l IH]; simpl; [done|]. case_decide; [done|]. case_match; [done|].
  simpl. by rewrite IH.
Qed.

(** An object that was assigned to is parsed again field by field. *)
Lemma as_parsed_assigned l :
  fields_sorted l -> as_parsed (JObject l) = JObject (map parsed_field l).
Proof.
  intros Hs. simpl. f_equal. apply sort_sorted_fields. by apply map_parsed_sorted.
Qed.

Lemma find_map_parsed k l : find_field k (map parsed_field l) = as_parsed <$> find_field k l.
Proof. induction l as [|[k' v'] l IH]; simpl; [done|]. by case_decide. Qed.
