(* ===== verification/PolicyRotation.v ===== *)
(** * The rotation of a secret, end to end

    What [rotate_psk] of src/server/policy_management.cpp does to the disk, the document, the
    policies in effect and the sessions, through the JSON library, the parser of the policy
    file and the update of the server. *)
From S2P Require Import Prelude Common ControlStrand Ids Text PortRange Rows KeyedMap Utf8 Json IpcPath ConfigFile ClientPolicy PolicyFile PolicyStore PolicyManagement PolicyEdit.

(** ** What an entry determines *)

(** The two policies give the same access: they differ in secrets only. *)
Definition same_access (p p' : ClientPolicy) : Prop :=
  pol_client_id p' = pol_client_id p /\ pol_enabled p' = pol_enabled p /\
  allowed_ports p' = allowed_ports p /\ max_tunnels p' = max_tunnels p /\
  max_connections p' = max_connections p /\ max_idle_workers p' = max_idle_workers p /\
  certificate p' = certificate p /\ allowed_source_cidrs p' = allowed_source_cidrs p /\
  connections_per_minute p' = connections_per_minute p /\
  session_fingerprint p' = session_fingerprint p.

Section Entries.
Context `{AddressParser} `{PolicyDigest}.

(** What an accepted entry says, field by field. *)
Record entry_of `{FileSystem} (directory : bytes) (limits : ClientPolicyLimits) (entry : Json)
    (p : ClientPolicy) : Prop := {
  eo_id : json_find (bs "client_id") entry = Some (JString (pol_client_id p));
  eo_enabled : json_find (bs "enabled") entry = Some (JBool (pol_enabled p));
  eo_secret : exists path secret, json_find (bs "psk_file") entry = Some (JString path) /\
    load_psk directory path = Ok secret /\ psk p = Some secret;
  eo_previous : exists previous, parse_previous directory entry = Ok previous /\
    previous_psk p = fst <$> previous /\ previous_psk_valid_until p = snd <$> previous;
  eo_ports : exists ports, json_find (bs "allowed_ports") entry = Some (JArray ports) /\
    parse_allowed_ports ports = Ok (allowed_ports p);
  eo_tunnels : parse_limit (json_find (bs "max_tunnels") entry) (max_tunnels_per_client limits)
    "max_tunnels" = Ok (max_tunnels p);
  eo_connections : parse_limit (json_find (bs "max_connections") entry)
    (max_connections_per_client limits) "max_connections" = Ok (max_connections p);
  eo_idle : parse_limit (json_find (bs "max_idle_workers") entry)
    (max_idle_workers_per_client limits) "max_idle_workers" = Ok (max_idle_workers p);
  eo_certificate : parse_certificate_binding entry = Ok (certificate p);
  eo_cidrs : parse_source_cidrs (json_find (bs "allowed_source_cidrs") entry) =
    Ok (allowed_source_cidrs p);
  eo_rate : parse_rate (json_find (bs "connections_per_minute") entry) =
    Ok (connections_per_minute p);
  eo_session : policy_fingerprint p false = Ok (session_fingerprint p)
}.

Lemma build_policy_entry `{FileSystem} directory limits entry p :
  build_policy directory limits entry = Ok p -> entry_of directory limits entry p.
Proof.
  unfold build_policy. destruct (_ || _ || _ || _); [done|].
  destruct (json_find (bs "client_id") entry) as [[ | | | | |id| |]|] eqn:Eid; try done.
  destruct (json_find (bs "enabled") entry) as [[ |enabled| | | | | |]|] eqn:Een; try done.
  destruct (json_find (bs "psk_file") entry) as [[ | | | | |psk_file| |]|] eqn:Epsk; try done.
  destruct (json_find (bs "allowed_ports") entry) as [[ | | | | | |ports|]|] eqn:Eports; try done.
  destruct (Id_parse_kind id client) as [parsed|] eqn:Ep; [|done].
  intros (secret & Hs & Hrest)%bind_Ok.
  apply bind_Ok in Hrest as (previous & Hp & Hrest). apply bind_Ok in Hrest as (ranges & Hr & Hrest).
  apply bind_Ok in Hrest as (tunnels & Ht & Hrest). apply bind_Ok in Hrest as (connections & Hc & Hrest).
  apply bind_Ok in Hrest as (idle & Hi & Hrest). apply bind_Ok in Hrest as (binding & Hb & Hrest).
  apply bind_Ok in Hrest as (cidrs & Hcs & Hrest). apply bind_Ok in Hrest as (rate & Hrate & Hrest).
  cbv zeta in Hrest. apply bind_Ok in Hrest as (revision & Hrev & (session & Hses & [= <-])%bind_Ok).
  apply Id_parse_kind_ok in Ep as [-> _]. rewrite fingerprint_ignores in Hses.
  split; cbn [with_fingerprints pol_client_id pol_enabled psk previous_psk previous_psk_valid_until
    allowed_ports max_tunnels max_connections max_idle_workers certificate allowed_source_cidrs
    connections_per_minute session_fingerprint str];
    first [assumption|by exists psk_file, secret|by exists previous|by exists ports|
      by rewrite fingerprint_ignores].
Qed.

Definition secret_fields : list bytes :=
  map bs ["psk_file"; "previous_psk_file"; "previous_psk_expires_at"]%string.

(** Entries that differ in the fields of the secrets give the same access. *)
Lemma same_entry_access fs1 fs2 directory limits e e' p p' :
  @entry_of fs1 directory limits e p -> @entry_of fs2 directory limits e' p' ->
  (forall k, k ∉ secret_fields -> json_find k e' = json_find k e) -> same_access p p'.
Proof.
  intros [i1 e1 _ _ (ports1 & P1 & Q1) t1 c1 d1 b1 s1 r1 f1]
    [i2 e2 _ _ (ports2 & P2 & Q2) t2 c2 d2 b2 s2 r2 f2] Hk.
  assert (Hb : parse_certificate_binding e' = parse_certificate_binding e).
  { unfold parse_certificate_binding. by rewrite !Hk by (apply (bool_decide_unpack _); by vm_compute). }
  rewrite Hk in i2, e2, P2, t2, c2, d2, s2, r2 by (apply (bool_decide_unpack _); by vm_compute).
  assert (Ei : pol_client_id p' = pol_client_id p) by congruence.
  assert (Ee : pol_enabled p' = pol_enabled p) by congruence.
  assert (Ep : allowed_ports p' = allowed_ports p) by congruence.
  assert (Et : max_tunnels p' = max_tunnels p) by congruence.
  assert (Ec : max_connections p' = max_connections p) by congruence.
  assert (Ed : max_idle_workers p' = max_idle_workers p) by congruence.
  assert (Eb : certificate p' = certificate p) by congruence.
  assert (Es : allowed_source_cidrs p' = allowed_source_cidrs p) by congruence.
  assert (Er : connections_per_minute p' = connections_per_minute p) by congruence.
  assert (Ef : policy_fingerprint p' false = policy_fingerprint p false)
    by (unfold policy_fingerprint, fingerprint_input; by rewrite Ei, Ee, Ep, Et, Ec, Ed, Eb, Es, Er).
  refine (conj Ei (conj Ee (conj Ep (conj Et (conj Ec (conj Ed (conj Eb (conj Es (conj Er _))))))))). congruence.
Qed.
End Entries.

(** ** Secrets on the disk *)

(** What an [open] reports and its reads deliver is what is there. *)
Definition opens_what_is_there (opens : Opening) : Prop := forall path entry file status data,
  opens path entry = inl file -> of_status file = Some status ->
  read_all (of_reads file) (fs_size status) [] = Some data ->
  exists n, entry = Some n /\ data = node_data n.

Lemma read_what_is_there `{PolicySystem} opens d path k data :
  opens_what_is_there opens -> @read_secure_file (disk_system opens d) path k = Ok data ->
  exists n, files d !! locate path = Some n /\ data = node_data n.
Proof.
  intros Hopens (_ & file & status & Ho & Hs & _ & _ & _ & _ & Hr)%read_secure_file_inv.
  simpl in Ho. by eapply Hopens.
Qed.

Lemma lowercase_hex_no_end b : is_lowercase_hex b = true -> b <> Byte.x0a /\ b <> Byte.x0d.
Proof. by destruct b. Qed.

(** A generated secret is read back without the line end it was written with. *)
Lemma trim_generated secret :
  forallb is_lowercase_hex secret = true -> trim_line_ends (secret ++ [Byte.x0a]) = secret.
Proof.
  intros Hhex. unfold trim_line_ends. rewrite reverse_app. simpl.
  assert (E : drop_line_ends (reverse secret) = reverse secret); [|by rewrite E, reverse_involutive].
  destruct (reverse secret) as [|b rest] eqn:Er; [done|]. simpl.
  assert (Hb : is_lowercase_hex b = true).
  { rewrite forallb_forall in Hhex. apply Hhex, list_elem_of_In. rewrite <- (reverse_involutive secret), Er.
    apply elem_of_reverse. apply list_elem_of_here. }
  apply lowercase_hex_no_end in Hb as [H1 H2]. by rewrite !bool_decide_false.
Qed.

Lemma generated_lowercase random : forallb is_lowercase_hex (mjoin (hex_of_byte <$> random)) = true.
Proof.
  induction random as [|b random IH]; [done|]. change (mjoin (hex_of_byte <$> b :: random)) with
    (hex_of_byte b ++ mjoin (hex_of_byte <$> random)). by rewrite forallb_app, hex_of_byte_lowercase.
Qed.

(** The file of a secret. *)
Definition secret_node `{PolicySystem} (secret : bytes) : Node :=
  mkNode (Z.lor S_IFREG 0x180) 1 server_user (secret ++ [Byte.x0a]) true.

Section Writing.
Context `{PolicySystem}.

Definition with_files (d : Disk) (s : AdminState) : AdminState :=
  with_policies (mkPolicyState d (ps_store (as_policies s))) s.

Lemma write_secret_inv o directory filename secret s r s' :
  (forall temporary, temporary_name (secret_faults o) = Some temporary ->
     files (ps_disk (as_policies s)) !! locate temporary = None) ->
  write_secret o directory filename secret s = (r, s') ->
  exists d', s' = with_files d' s /\
    passes (fun fs => forall loc, Some loc <> locate <$> temporary_name (secret_faults o) ->
      fs !! loc = files (ps_disk (as_policies s)) !! loc \/
      loc = locate (directory ++ ch_slash :: filename) /\ fs !! loc = Some (secret_node secret))
      (ps_disk (as_policies s)) d' /\
    match r with
    | Ok _ => files d' = (<[locate (directory ++ ch_slash :: filename) := secret_node secret]>
                            (files (ps_disk (as_policies s))) : gmap bytes Node)
    | Err _ => abandoned (unlink_ok (secret_faults o)) (locate <$> temporary_name (secret_faults o))
                 (files (ps_disk (as_policies s))) (files d')
    end.
Proof.
  intros Hfresh. unfold write_secret, call, on_server_disk, on_disk.
  destruct (write_secret_file_atomic _ _ _ _ _) as [r0 d'] eqn:Ew. intros [= <- <-]. exists d'.
  split; [done|]. unfold write_secret_file_atomic in Ew.
  destruct (_ || _ || _); [injection Ew as <- <-; split; [apply passes_refl|done]|].
  destruct (_ || _ || _); [injection Ew as <- <-; split; [apply passes_refl|done]|].
  apply install_file_exact in Ew. destruct (temporary_name (secret_faults o)) as [temporary|].
  - specialize (Ew (Hfresh _ eq_refl)) as [Hp Hr]. split; [|by destruct r0].
    eapply passes_impl; [|exact Hp]. intros fs Hfs loc Hne. apply Hfs. naive_solver.
  - destruct Ew as (e & -> & ->). split; [apply passes_refl|done].
Qed.
End Writing.

(** ** What a successful rotation went through *)

Lemma call_inv {A} (m : Action AdminState A) s a s' : call m s = (Ok a, s') -> m s = (Ok a, s').
Proof. unfold call. destruct (m s) as [[x|e] s1]; by intros [= <- <-]. Qed.

Lemma or_throw_inv {A} (x : option A) s a s' : or_throw x s = (Ok a, s') -> x = Some a /\ s' = s.
Proof. unfold or_throw. destruct x; by intros [= <- <-]. Qed.

Lemma find_entry_inv client_id entries index fields :
  find_entry client_id entries = Some (index, fields) ->
  entries !! index = Some (JObject fields) /\ names_client client_id (JObject fields) = true.
Proof.
  revert index. induction entries as [|e entries IH]; intros index; simpl; [done|].
  destruct (names_client client_id e) eqn:En.
  - destruct e; try done. by intros [= <- <-].
  - destruct (find_entry client_id entries) as [[i fs]|]; [|done]. intros [= <- <-]. by apply IH.
Qed.

Lemma find_client_inv document client_id index fields :
  find_client document client_id = Some (index, fields) ->
  exists entries, json_find (bs "clients") document = Some (JArray entries) /\
    entries !! index = Some (JObject fields) /\
    find_field (bs "client_id") fields = Some (JString client_id).
Proof.
  unfold find_client. destruct (json_find _ document) as [[ | | | | | |entries|]|]; try done.
  intros [Hi Hn]%find_entry_inv. exists entries. split_and!; [done|done|].
  unfold names_client in Hn. simpl in Hn. destruct (find_field _ fields) as [[ | | | | |id| |]|]; try done.
  apply bool_decide_eq_true in Hn. by subst.
Qed.

Section Rotation.
Context `{PolicySystem} `{JsonLibrary} `{IndentedDump} `{AddressParser} `{PolicyDigest}.
Context (order : ClientPolicySnapshot -> list (bytes * ClientPolicy)) (no_client_ca : bool).
Context (default_grace : Z) (o : Outside).

Lemma load_document_inv s document s' :
  load_document s = (Ok document, s') ->
  s' = s /\ exists text, json_text (document_text (ps_store (as_policies s))) = Some text /\
    document = json_value text.
Proof.
  unfold load_document. intros (text & s1 & Hc%call_inv & Hrest)%ST_bind_inv.
  injection Hc as Hd <-. unfold store_document in Hd. case_decide; [done|]. injection Hd as <-.
  destruct (json_text _) as [value|]; [|done]. injection Hrest as <- <-. split; [done|]. by exists value.
Qed.

Lemma persist_document_inv document s a s' :
  persist_document order no_client_ca o document s = (Ok a, s') ->
  exists text changed, json_dump_indented document = Some text /\
    apply_policy_update order no_client_ca o (Some text) s = (Ok changed, s').
Proof.
  unfold persist_document. destruct (json_dump_indented document) as [text|]; [|done].
  intros (changed & s1 & Hc%call_inv & [= _ <-])%ST_bind_inv. by exists text, changed.
Qed.

Lemma rotation_grace_range body grace :
  rotation_grace default_grace body = Ok grace -> 1 <= grace <= 86400.
Proof.
  unfold rotation_grace, kMinimumGraceSeconds, kMaximumGraceSeconds. intros (g & _ & Hg)%bind_Ok.
  destruct (Z.ltb_spec g 1), (Z.ltb_spec 86400 g); try done. injection Hg as <-. lia.
Qed.

(** The document a rotation writes. *)
Definition rotated_document (client_id current_file : bytes) (expires_at : Z) (index : nat)
    (fields : list (bytes * Json)) (entries : list Json) (document : Json) : Json :=
  with_clients (JArray (<[index := JObject (rotated_fields current_file
    (rotation_target client_id current_file) expires_at fields)]> entries)) document.

Lemma rotate_psk_inv client_id body s response s' :
  rotate_psk order no_client_ca default_grace o client_id body s = (Ok response, s') ->
  exists grace text index fields entries current_file random s1 new_text changed,
    rotation_grace default_grace body = Ok grace /\
    json_text (document_text (ps_store (as_policies s))) = Some text /\
    json_find (bs "clients") (json_value text) = Some (JArray entries) /\
    find_client (json_value text) client_id = Some (index, fields) /\
    find_field (bs "psk_file") fields = Some (JString current_file) /\
    random_bytes o = Some random /\
    write_secret o (policy_config_directory s) (rotation_target client_id current_file)
      (mjoin (hex_of_byte <$> random)) s = (Ok tt, s1) /\
    json_dump_indented (rotated_document client_id current_file (unix_seconds_now o + grace) index
      fields entries (json_value text)) = Some new_text /\
    apply_policy_update order no_client_ca o (Some new_text) s1 = (Ok changed, s').
Proof.
  unfold rotate_psk. intros (grace & s0 & Hg%call_inv & Hrest)%ST_bind_inv. injection Hg as Hg <-.
  apply ST_bind_inv in Hrest as (document & s0 & (-> & text & Ht & ->)%load_document_inv & Hrest).
  destruct (find_client (json_value text) client_id) as [[index fields]|] eqn:Ef; [|done].
  destruct (find_field (bs "psk_file") fields) as [[ | | | | |current_file| |]|] eqn:Ec; try done.
  case_decide; [done|]. apply ST_bind_inv in Hrest as (directory & s0 & [= <- <-] & Hrest).
  case_decide; [done|].
  apply ST_bind_inv in Hrest as (generated & s0 & Hgen%call_inv & Hrest). injection Hgen as Hgen <-.
  destruct (random_bytes o) as [random|] eqn:Er; [|done]. simpl in Hgen. injection Hgen as <-.
  cbv zeta in Hrest. apply ST_bind_inv in Hrest as ([] & s1 & Hw & Hrest).
  apply ST_bind_inv in Hrest as (clients & s0 & [Hclients ->]%or_throw_inv & Hrest).
  apply ST_bind_inv in Hrest as ([] & s2 & (new_text & changed & Hd & Ha)%persist_document_inv & Hrest).
  destruct (find_client_inv _ _ _ _ Ef) as (entries & He & _).
  assert (clients = JArray entries) as -> by congruence.
  assert (s2 = s') as ->. { unfold response_json in Hrest. case_match; [|done]. by injection Hrest. }
  by exists grace, text, index, fields, entries, current_file, random, s1, new_text, changed.
Qed.

Lemma apply_update_inv text s changed s' :
  apply_policy_update order no_client_ca o (Some text) s = (Ok changed, s') ->
  store_replace order text (Some (certificate_validator no_client_ca)) (opens o) (policy_faults o)
    (as_policies s) = (Ok changed, as_policies s') /\
  as_posted s' = as_posted s ++ [mkPolicyUpdate changed
    (list_to_map ((fun c => (c, change_criteria true (ps_store (as_policies s))
       (ps_store (as_policies s')) c)) <$> changed)) true].
Proof.
  unfold apply_policy_update. destruct (tls_context o); [|done].
  destruct (store_replace _ _ _ _ _ _) as [[c|e] policies] eqn:Er; [|done].
  cbn [as_running with_policies]. destruct (as_running s); simpl; [|done]. intros [= <- <-]. by split.
Qed.
End Rotation.

(** ** The document after a rotation *)

Lemma parse_policy_json_inv `{JsonLibrary} data document :
  parse_policy_json data = Ok document ->
  exists text, json_text data = Some text /\ document = as_parsed text /\ distinct_keys text = true.
Proof.
  unfold parse_policy_json. destruct (has_bom data); [done|].
  destruct (json_text data) as [text|]; [|done].
  destruct (judges_all policy_limits text ParseLimits_new) as [[Hfit ->]|[_ Hfail]]; [done| |].
  - intros [= <-]. exists text. destruct Hfit as (_ & _ & _ & Hk). done.
  - case_match; done.
Qed.

Lemma assign_field_forallb (f : Json -> bool) k v l :
  f v = true -> forallb (fun x : bytes * Json => f x.2) l = true ->
  forallb (fun x => f x.2) (assign_field k v l) = true.
Proof.
  rewrite !forallb_forall. intros Hv Hl x Hx%list_elem_of_In.
  apply assign_field_elem in Hx as [->|Hx]; [done|]. apply Hl. by apply list_elem_of_In.
Qed.

Lemma insert_forallb (f : Json -> bool) i v l :
  f v = true -> forallb f l = true -> forallb f (<[i := v]> l) = true.
Proof.
  intros Hv. revert i. induction l as [|x l IH]; intros [|i]; simpl; try done;
    intros [Hx Hl]%andb_prop; [by rewrite Hv|by rewrite Hx, IH].
Qed.

(** A test on values that goes through arrays and objects is kept by a rotation. *)
Lemma rotated_test (f : Json -> bool) client_id current_file expires_at index fields entries document :
  (forall l, f (JArray l) = forallb f l) ->
  (forall l, f (JObject l) = forallb (fun x => f x.2) l) ->
  (forall s, f (JString s) = true) -> f (JInt expires_at) = true ->
  f document = true -> json_find (bs "clients") document = Some (JArray entries) ->
  entries !! index = Some (JObject fields) ->
  f (rotated_document client_id current_file expires_at index fields entries document) = true.
Proof.
  intros Ha Ho Hs Hi Hd Hc He. destruct document as [ | | | | | | |top]; try done.
  unfold rotated_document, with_clients. rewrite Ho in *.
  assert (Hentries : forallb f entries = true).
  { rewrite <- Ha. rewrite forallb_forall in Hd. simpl in Hc. clear -Hd Hc.
    induction top as [|[k v] top IH]; simpl in *; [done|]. case_decide; [|naive_solver].
    injection Hc as ->. apply (Hd (k, JArray entries)). by left. }
  apply assign_field_forallb; [|done]. rewrite Ha. apply insert_forallb; [|done]. rewrite Ho.
  unfold rotated_fields. do 3 (apply assign_field_forallb; [done|]).
  rewrite <- Ho. rewrite forallb_forall in Hentries. apply Hentries, list_elem_of_In.
  by eapply list_elem_of_lookup_2.
Qed.

(** The entry of the client as it is parsed again. *)
Definition rotated_entry (client_id current_file : bytes) (expires_at : Z)
    (fields : list (bytes * Json)) : Json :=
  JObject (map parsed_field (rotated_fields current_file (rotation_target client_id current_file)
             expires_at fields)).

Lemma parsed_entry entries index fields :
  as_parsed (JArray entries) = JArray entries -> entries !! index = Some (JObject fields) ->
  parsed_fields fields.
Proof.
  intros He%parsed_array Hi. rewrite Forall_forall in He. apply as_parsed_fields, He.
  by eapply list_elem_of_lookup_2.
Qed.

Lemma rotated_entry_find client_id current_file expires_at fields :
  parsed_fields fields -> 0 <= expires_at ->
  let e := rotated_entry client_id current_file expires_at fields in
  json_find (bs "psk_file") e = Some (JString (rotation_target client_id current_file)) /\
  json_find (bs "previous_psk_file") e = Some (JString current_file) /\
  json_find (bs "previous_psk_expires_at") e = Some (JUnsigned expires_at) /\
  forall k, k ∉ secret_fields -> json_find k e = find_field k fields.
Proof.
  intros Hp Hx. cbn [rotated_entry json_find]. unfold rotated_entry. cbn [json_find].
  rewrite !find_map_parsed. unfold rotated_fields. split_and!.
  - by rewrite find_assign_eq.
  - rewrite !find_assign_ne, find_assign_eq by (apply (bool_decide_unpack _); by vm_compute). done.
  - rewrite find_assign_ne, find_assign_eq by (apply (bool_decide_unpack _); by vm_compute). simpl.
    destruct (Z.leb_spec 0 expires_at); [done|lia].
  - intros k Hk. rewrite find_map_parsed. unfold secret_fields in Hk. simpl in Hk.
    rewrite !not_elem_of_cons in Hk. destruct Hk as (K1 & K2 & K3 & _).
    rewrite !find_assign_ne by done. destruct (find_field k fields) as [v|] eqn:E; [|done].
    simpl. by rewrite (find_field_parsed _ _ _ Hp E).
Qed.

Lemma rotated_document_find client_id current_file expires_at index fields entries document :
  as_parsed document = document -> json_find (bs "clients") document = Some (JArray entries) ->
  entries !! index = Some (JObject fields) ->
  json_find (bs "clients") (as_parsed (rotated_document client_id current_file expires_at index
    fields entries document)) =
  Some (JArray (<[index := rotated_entry client_id current_file expires_at fields]> entries)).
Proof.
  intros Hd Hc Hi. destruct document as [ | | | | | | |top]; try done. apply as_parsed_fields in Hd.
  simpl in Hc. pose proof (find_field_parsed _ _ _ Hd Hc) as Hentries.
  pose proof (parsed_entry _ _ _ Hentries Hi) as Hfields. unfold rotated_document, with_clients.
  rewrite as_parsed_assigned by (apply assign_field_sorted, Hd). cbn [json_find].
  rewrite find_map_parsed, find_assign_eq. cbn [fmap option_fmap option_map as_parsed]. do 2 f_equal.
  match goal with |- map as_parsed ?l = _ => change (map as_parsed l) with (as_parsed <$> l) end. rewrite list_fmap_insert. f_equal.
  - rewrite as_parsed_assigned; [done|]. unfold rotated_fields. do 3 apply assign_field_sorted. apply Hfields.
  - apply parsed_array in Hentries. clear -Hentries. induction Hentries as [|x l Hx _ IH]; [done|]. rewrite fmap_cons, IH. by rewrite Hx.
Qed.

(** ** The policies after a rotation *)

(** The policies in effect are those of the kept document and of the secrets on the disk; a
    replacement and a reload establish this. *)
Definition in_sync `{PolicySystem} `{JsonLibrary} `{AddressParser} `{PolicyDigest} (opens : Opening)
    (st : PolicyState) (document : Json) : Prop :=
  parse_policy_json (document_text (ps_store st)) = Ok document /\
  @build_snapshot (disk_system opens (ps_disk st)) _ _ document
    (parent_path (config_path (ps_store st))) (store_limits (ps_store st)) = Ok (snapshot (ps_store st)).

Section Snapshots.
Context `{AddressParser} `{PolicyDigest} (fs1 fs2 : FileSystem) (directory : bytes)
  (limits : ClientPolicyLimits).
Hypothesis same_user : @effective_user fs1 = @effective_user fs2.

(** A snapshot has a policy for each of its entries. *)
Lemma snapshot_entry (system : FileSystem) entries s index e client_id :
  @snapshot_of system _ _ directory limits entries s -> entries !! index = Some e ->
  json_find (bs "client_id") e = Some (JString client_id) ->
  exists p, s !! client_id = Some p /\ entry_of directory limits e p.
Proof.
  intros (_ & Hok & Hs) He Hid. rewrite Forall_forall in Hok.
  assert (Hin : e ∈ entries) by (by eapply list_elem_of_lookup_2). destruct (Hok _ Hin) as [p Hp].
  pose proof (build_policy_entry _ _ _ _ Hp) as Hentry. exists p. split; [|done].
  apply Hs. split; [|by exists e]. pose proof (eo_id _ _ _ _ Hentry). congruence.
Qed.

(** Replacing the entry of one client leaves the policies of the others, if the files of
    their secrets are the same. *)
Lemma snapshot_others entries s s' index e e' client_id other :
  @snapshot_of fs1 _ _ directory limits entries s ->
  @snapshot_of fs2 _ _ directory limits (<[index := e']> entries) s' ->
  entries !! index = Some e ->
  json_find (bs "client_id") e = Some (JString client_id) ->
  json_find (bs "client_id") e' = Some (JString client_id) ->
  (forall entry path, entry ∈ entries -> names_client client_id entry = false ->
     path ∈ entry_secrets directory entry -> @open_file fs1 path = @open_file fs2 path) ->
  other <> client_id -> s' !! other = s !! other.
Proof.
  intros (_ & _ & H1) (_ & _ & H2) He Hid Hid' Hagree Hne. apply option_eq. intros p.
  rewrite H1, H2.
  assert (Hnot : forall (system : FileSystem) x, pol_client_id p = other ->
    json_find (bs "client_id") x = Some (JString client_id) ->
    @build_policy system _ _ directory limits x <> Ok p).
  { intros system x Ep Ex Hb%build_policy_entry. pose proof (eo_id _ _ _ _ Hb). congruence. }
  assert (Hsame : forall x, x ∈ entries -> pol_client_id p = other ->
    @build_policy fs1 _ _ directory limits x = Ok p <-> @build_policy fs2 _ _ directory limits x = Ok p).
  { intros x Hx Ep. destruct (names_client client_id x) eqn:En.
    - assert (Ex : json_find (bs "client_id") x = Some (JString client_id)).
      { unfold names_client in En. case_match; [|done]. case_match; try done.
        apply bool_decide_eq_true in En. by subst. }
      split; intros Hb; by eapply Hnot in Hb.
    - rewrite (build_policy_agrees fs1 fs2 same_user); [done|]. intros path. by apply Hagree. }
  split; intros [Ep (x & Hx & Hb)]; (split; [done|]).
  - apply list_elem_of_lookup in Hx as [i Hi]. destruct (decide (i = index)) as [->|Hi'].
    + rewrite list_lookup_insert_eq in Hi by (by eapply lookup_lt_Some). injection Hi as <-.
      by eapply Hnot in Hb.
    + rewrite list_lookup_insert_ne in Hi by done. exists x. assert (Hin : x ∈ entries) by
        (by eapply list_elem_of_lookup_2). split; [done|]. by apply Hsame.
  - apply list_elem_of_lookup in Hx as [i Hi]. assert (Hin : x ∈ entries) by
      (by eapply list_elem_of_lookup_2). destruct (decide (i = index)) as [->|Hi'].
    + assert (x = e) as -> by congruence. by eapply Hnot in Hb.
    + exists x. split; [|by apply Hsame]. apply (list_elem_of_lookup_2 _ i).
      by rewrite list_lookup_insert_ne.
Qed.
End Snapshots.

Section Exact.
Context `{PolicySystem} `{JsonLibrary} `{IndentedDump} `{AddressParser} `{PolicyDigest}.
Context `{!JsonNumberLaws} `{!IndentedDumpLaws}.
Context (order : ClientPolicySnapshot -> list (bytes * ClientPolicy)) (no_client_ca : bool).
Context (default_grace : Z) (o : Outside).

(** The text of the edited document is parsed as the edited document. *)
Lemma rotated_parse client_id current_file expires_at index fields entries text new_text document2 :
  json_text text = Some document2 -> distinct_keys document2 = true ->
  json_find (bs "clients") (as_parsed document2) = Some (JArray entries) ->
  entries !! index = Some (JObject fields) -> 0 <= expires_at < 2 ^ 63 ->
  json_dump_indented (rotated_document client_id current_file expires_at index fields entries
    (as_parsed document2)) = Some new_text ->
  forall parsed, parse_policy_json new_text = Ok parsed ->
  json_find (bs "clients") parsed =
  Some (JArray (<[index := rotated_entry client_id current_file expires_at fields]> entries)).
Proof.
  intros Ht Hk Hc Hi Hx Hd parsed (value & Hv & -> & _)%parse_policy_json_inv.
  assert (Hp : printable (rotated_document client_id current_file expires_at index fields entries
    (as_parsed document2)) = true).
  { unfold printable. rewrite (indented_strings _ _ Hd). apply andb_true_intro. split.
    - apply rotated_test; try done. destruct (as_parsed_size _ Hk) as (_ & _ & _ & ->). by eapply text_floats.
    - apply rotated_test; try done; [|by eapply as_parsed_numbers, text_numbers].
      simpl. apply andb_true_intro. split; [apply Z.leb_le|apply Z.ltb_lt]; lia. }
  rewrite (indented_text _ _ Hp Hd) in Hv. injection Hv as <-. rewrite as_parsed_text.
  apply rotated_document_find; [apply as_parsed_idemp|done|done].
Qed.

(** The secrets of the new entry: the generated one, and what is now in the file the old
    entry refers to, which the generated one may have overwritten. *)
Lemma rotated_secrets opens d d' directory limits client_id current_file expires_at fields secret p p' :
  opens_what_is_there opens -> parsed_fields fields -> 0 <= expires_at ->
  forallb is_lowercase_hex secret = true ->
  find_field (bs "psk_file") fields = Some (JString current_file) ->
  let target := locate (psk_path directory (rotation_target client_id current_file)) in
  files d' = (<[target := secret_node secret]> (files d) : gmap bytes Node) ->
  @entry_of _ _ (disk_system opens d) directory limits (JObject fields) p ->
  @entry_of _ _ (disk_system opens d') directory limits
    (rotated_entry client_id current_file expires_at fields) p' ->
  psk p' = Some secret /\
  previous_psk p' = (if decide (locate (psk_path directory current_file) = target)
                     then Some secret else psk p) /\
  previous_psk_valid_until p' = Some expires_at /\ is_Some (psk p).
Proof.
  intros Hopens Hp Hx Hhex Hc target Hfiles He He'.
  destruct (rotated_entry_find client_id current_file expires_at fields Hp Hx) as (F1 & F2 & F3 & _).
  destruct (eo_secret _ _ _ _ He) as (path & k & E1 & Hk & ->). simpl in E1.
  assert (path = current_file) as -> by congruence.
  destruct (eo_secret _ _ _ _ He') as (path' & k' & E2 & Hk' & ->).
  assert (path' = rotation_target client_id current_file) as -> by congruence.
  assert (Hload : forall path' k2, locate (psk_path directory path') = target ->
    @load_psk (disk_system opens d') directory path' = Ok k2 -> k2 = secret).
  { intros path' k2 Etarget [_ (data & Hr & ->)]%load_psk_inv.
    destruct (read_what_is_there _ _ _ _ _ Hopens Hr) as (n & Hn & ->).
    rewrite Hfiles, Etarget in Hn. unfold Files in Hn. rewrite lookup_insert_eq in Hn.
    injection Hn as <-. cbn [secret_node node_data]. by rewrite trim_generated. }
  split; [|split; [|split; [|by eexists]]].
  - f_equal. by eapply Hload.
  - destruct (eo_previous _ _ _ _ He') as (previous & Hprev & -> & _). unfold parse_previous in Hprev.
    rewrite F2, F3 in Hprev. destruct (_ || _); [done|]. apply bind_Ok in Hprev as (k2 & Hk2 & [= <-]).
    simpl. case_decide as Hsame; [f_equal; by eapply Hload|].
    rewrite (load_psk_agrees (disk_system opens d) (disk_system opens d')) in Hk; [|done|].
    + rewrite Hk2 in Hk. by injection Hk as ->.
    + simpl. rewrite Hfiles. unfold Files. by rewrite lookup_insert_ne.
  - destruct (eo_previous _ _ _ _ He') as (previous & Hprev & _ & ->). unfold parse_previous in Hprev.
    rewrite F2, F3 in Hprev. destruct (_ || _); [done|]. by apply bind_Ok in Hprev as (k2 & Hk2 & [= <-]).
Qed.

(** A change that leaves the session fingerprint disturbs no session of the client. *)
Lemma rotation_keeps_sessions previous current changed client_id p p' :
  store_find client_id previous = Some p -> store_find client_id current = Some p' ->
  session_fingerprint p' = session_fingerprint p -> (forall c, c ∈ changed -> c = client_id) ->
  let u := mkPolicyUpdate changed
    (list_to_map ((fun c => (c, change_criteria true previous current c)) <$> changed)) true in
  (forall walk server, take_over walk u server = ([], refresh_resource_gauges server)) /\
  forall session, rs_client_id session = client_id -> is_Some (policy_owner session) ->
    request_reload_stop (update_changed u) (update_criteria u) session = keep_session.
Proof.
  intros Hp Hp' Hsame Honly u.
  assert (Hc : forall c, update_criteria u !! client_id = Some c ->
    api_driven c = true /\ new_session c = old_session c).
  { intros c Hc. simpl in Hc. apply elem_of_list_to_map_2, list_elem_of_fmap in Hc as (x & [= <- ->] & _).
    unfold change_criteria. by rewrite Hp, Hp'. }
  assert (Hkeep : session_affecting u client_id = false).
  { unfold session_affecting. simpl update_api_driven. cbv iota.
    destruct (update_criteria u !! client_id) as [c|] eqn:E; [|done]. destruct (Hc _ eq_refl) as [_ ->].
    by rewrite bool_decide_true. }
  split.
  - intros walk server. unfold take_over. change (update_changed u) with changed.
    assert (E : tear_down_changed walk u changed server = ([], server)); [|by rewrite E].
    clear -Honly Hkeep. clearbody u. induction changed as [|c l IH]; simpl; [done|].
    rewrite (Honly c), Hkeep by (by left). rewrite IH; [done|]. intros x Hx. apply Honly. by right.
  - intros session Hid [q Hq]. unfold request_reload_stop. rewrite Hid. case_match; [done|].
    destruct (update_criteria u !! client_id) as [c|] eqn:E; [|done]. destruct (Hc _ eq_refl) as [-> ->].
    rewrite Hq, bool_decide_true by done. done.
Qed.
End Exact.

(** ** The claims *)

(** The places of the secrets of a client: both spellings of a name, for writing and for
    reading, name the same file; [mkstemp] finds a name that is free. *)
Record rotation_places `{PolicySystem} (o : Outside) (client_id : bytes) (s : AdminState) : Prop := {
  rp_names suffix : suffix ∈ [".psk"; ".psk.previous"]%string ->
    locate (policy_config_directory s ++ ch_slash :: psk_file_for client_id suffix) =
    locate (psk_path (parent_path (config_path (ps_store (as_policies s)))) (psk_file_for client_id suffix));
  rp_fresh temporary : temporary_name (secret_faults o) = Some temporary ->
    files (ps_disk (as_policies s)) !! locate temporary = None
}.

(** No other client has a secret in one of the client's two files. *)
Definition own_secrets `{PolicySystem} (client_id : bytes) (s : AdminState) (document : Json) : Prop :=
  let directory := parent_path (config_path (ps_store (as_policies s))) in
  forall entries entry path suffix, json_find (bs "clients") document = Some (JArray entries) ->
    entry ∈ entries -> names_client client_id entry = false -> path ∈ entry_secrets directory entry ->
    suffix ∈ [".psk"; ".psk.previous"]%string ->
    locate path <> locate (psk_path directory (psk_file_for client_id suffix)).

Lemma rotation_target_suffix client_id current_file :
  exists suffix, suffix ∈ [".psk"; ".psk.previous"]%string /\
    rotation_target client_id current_file = psk_file_for client_id suffix.
Proof. unfold rotation_target. case_decide; eexists; (split; [|done]); set_solver. Qed.

(** What a successful rotation has done to the disk, the document and the policies. *)
Lemma rotation_effect `{PolicySystem} `{JsonLibrary} `{IndentedDump} `{AddressParser} `{PolicyDigest}
    `{!JsonNumberLaws} `{!IndentedDumpLaws} order no_client_ca default_grace o client_id body
    s document response s' :
  0 <= unix_seconds_now o < 2 ^ 62 -> in_sync (opens o) (as_policies s) document ->
  rotation_places o client_id s ->
  rotate_psk order no_client_ca default_grace o client_id body s = (Ok response, s') ->
  let store := ps_store (as_policies s) in
  let directory := parent_path (config_path store) in
  exists random grace index fields entries current_file d changed,
    random_bytes o = Some random /\ rotation_grace default_grace body = Ok grace /\
    find_client document client_id = Some (index, fields) /\
    json_find (bs "clients") document = Some (JArray entries) /\
    as_parsed (JArray entries) = JArray entries /\
    find_field (bs "psk_file") fields = Some (JString current_file) /\
    files d = (<[locate (psk_path directory (rotation_target client_id current_file)) :=
                 secret_node (mjoin (hex_of_byte <$> random))]> (files (ps_disk (as_policies s)))
               : gmap bytes Node) /\
    @snapshot_of (disk_system (opens o) (ps_disk (as_policies s))) _ _ directory (store_limits store)
      entries (snapshot store) /\
    @snapshot_of (disk_system (opens o) d) _ _ directory (store_limits store)
      (<[index := rotated_entry client_id current_file (unix_seconds_now o + grace) fields]> entries)
      (snapshot (ps_store (as_policies s'))) /\
    changed = compute_changed (order (snapshot store)) (order (snapshot (ps_store (as_policies s'))))
      (Some (snapshot store)) (snapshot (ps_store (as_policies s'))) /\
    as_posted s' = as_posted s ++ [mkPolicyUpdate changed
      (list_to_map ((fun c => (c, change_criteria true store (ps_store (as_policies s')) c)) <$> changed))
      true].
Proof.
  intros Hnow [Hdoc Hsnap] [Hnames Hfresh] Hrot.
  apply rotate_psk_inv in Hrot as (grace & text & index & fields & entries & current_file & random & s1 &
    new_text & changed & Hg & Ht & Hc & Hf & Hcur & Hr & Hw & Hdump & Happly).
  pose proof (rotation_grace_range _ _ _ Hg) as Hrange.
  apply parse_policy_json_inv in Hdoc as (text' & Ht' & -> & Hk). rewrite Ht in Ht'. injection Ht' as <-.
  rewrite (json_value_parsed _ Hk) in *.
  destruct (find_client_inv _ _ _ _ Hf) as (entries' & He & Hi & _). rewrite Hc in He. injection He as <-.
  destruct (write_secret_inv _ _ _ _ _ _ _ Hfresh Hw) as (d & -> & _ & Hfiles). clear Hw.
  destruct (rotation_target_suffix client_id current_file) as (suffix & Hsuffix & Etarget).
  rewrite Etarget, (Hnames suffix Hsuffix), <- Etarget in Hfiles.
  apply apply_update_inv in Happly as [Hrep Hposted].
  apply store_replace_inv in Hrep as [(e & [=] & _)|(snap' & written & d2 & Hv & _ & Hres)].
  destruct written as [[]|e]; destruct Hres as [Hres Hst]; [injection Hres as Hres|done].
  apply validate_replacement_inv in Hv as [_ (parsed & Hparsed & Hb & _)].
  cbn [with_files with_policies as_policies ps_disk ps_store] in *.
  assert (Hc' : json_find (bs "clients") parsed = Some (JArray (<[index := rotated_entry client_id
    current_file (unix_seconds_now o + grace) fields]> entries)))
    by (eapply rotated_parse; [exact Ht|exact Hk|exact Hc|exact Hi|lia|exact Hdump|exact Hparsed]).
  apply build_snapshot_inv in Hsnap as (_ & l & Hl & _ & Hsnap). rewrite Hc in Hl. injection Hl as <-.
  apply build_snapshot_inv in Hb as (_ & l & Hl & _ & Hb). rewrite Hc' in Hl. injection Hl as <-.
  exists random, grace, index, fields, entries, current_file, d, changed.
  do 3 (split; [done|]). split; [done|]. split; [|split; [done|split; [done|split; [done|]]]].
  - pose proof (as_parsed_idemp text) as Hid. destruct (as_parsed text) as [ | | | | | | |top]; try done.
    apply as_parsed_fields in Hid. by eapply find_field_parsed.
  - rewrite Hst in Hposted |- *. split; [done|]. by split.
Qed.

(** The outgoing secret of a client is in the very file the new one is written to, under
    another spelling than the one the code compares with. *)
Definition overwrites `{PolicySystem} (client_id : bytes) (s : AdminState) (document : Json) : bool :=
  let directory := parent_path (config_path (ps_store (as_policies s))) in
  match find_client document client_id with
  | Some (_, fields) =>
      match find_field (bs "psk_file") fields with
      | Some (JString current_file) =>
          bool_decide (locate (psk_path directory current_file) =
                       locate (psk_path directory (rotation_target client_id current_file)))
      | _ => false
      end
  | None => false
  end.

(** C23: A rotation that succeeds is exact.  The client's new policy has the generated secret,
    and the outgoing one as its predecessor, which is accepted up to, and not from, the end
    of the grace; but when the outgoing secret is in the file the new one is written to
    ([overwrites]), the predecessor is the generated secret itself and the outgoing one is
    lost.  The client's access rights are as before, and the policies of the other clients
    are as they were.  The task that is posted tears no listener and no idle worker down, and
    every session the client has authenticated is kept.  The hypotheses: the policies in
    effect are those of the kept document and of the secrets on the disk, as a replacement or
    a reload leaves them ([in_sync]); no other client has a secret in one of the client's two
    files ([own_secrets]); a file that is opened and read delivers what is in it; the clock is
    a time before 2^62 seconds. *)
Theorem psk_rotation_exact `{PolicySystem} `{JsonLibrary} `{IndentedDump} `{AddressParser} `{PolicyDigest}
    `{!JsonNumberLaws} `{!IndentedDumpLaws} order no_client_ca default_grace o client_id body
    s document response s' :
  (forall m, iterates (order m) m) -> opens_what_is_there (opens o) ->
  0 <= unix_seconds_now o < 2 ^ 62 -> in_sync (opens o) (as_policies s) document ->
  rotation_places o client_id s -> own_secrets client_id s document ->
  rotate_psk order no_client_ca default_grace o client_id body s = (Ok response, s') ->
  exists random grace p p' secret,
    random_bytes o = Some random /\ rotation_grace default_grace body = Ok grace /\
    1 <= grace <= 86400 /\
    store_find client_id (ps_store (as_policies s)) = Some p /\ psk p = Some secret /\
    store_find client_id (ps_store (as_policies s')) = Some p' /\
    psk p' = Some (mjoin (hex_of_byte <$> random)) /\ same_access p p' /\
    (forall now, rotation_psk p' now =
       if unix_seconds_now o + grace <=? now then None
       else Some (if overwrites client_id s document then mjoin (hex_of_byte <$> random) else secret)) /\
    (forall other, other <> client_id ->
       store_find other (ps_store (as_policies s')) = store_find other (ps_store (as_policies s))) /\
    exists u, as_posted s' = as_posted s ++ [u] /\
      (forall walk server, take_over walk u server = ([], refresh_resource_gauges server)) /\
      forall session, rs_client_id session = client_id -> is_Some (policy_owner session) ->
        request_reload_stop (update_changed u) (update_criteria u) session = keep_session.
Proof.
  intros Horder Hopens Hnow Hsync Hplaces Hown Hrot.
  destruct (rotation_effect _ _ _ _ _ _ _ _ _ _ Hnow Hsync Hplaces Hrot) as (random & grace & index & fields &
    entries & current_file & d & changed & Hr & Hg & Hf & Hc & He & Hcur & Hfiles & Hsnap & Hsnap' & Hchanged & Hposted).
  set (store := ps_store (as_policies s)) in *. set (store' := ps_store (as_policies s')) in *.
  pose proof (rotation_grace_range _ _ _ Hg) as Hrange.
  assert (Hx : 0 <= unix_seconds_now o + grace) by lia.
  destruct (find_client_inv _ _ _ _ Hf) as (l & Hl & Hi & Hid). rewrite Hc in Hl. injection Hl as <-.
  pose proof (parsed_entry _ _ _ He Hi) as Hpf.
  destruct (rotated_entry_find client_id current_file _ fields Hpf Hx) as (_ & _ & _ & Hothers).
  set (e' := rotated_entry _ _ _ _) in *.
  assert (Hid' : json_find (bs "client_id") e' = Some (JString client_id)).
  { rewrite Hothers; [done|]. apply (bool_decide_unpack _). by vm_compute. }
  destruct (snapshot_entry _ _ _ _ _ _ _ _ Hsnap Hi Hid) as (p & Hp & Hentry).
  assert (Hi' : <[index := e']> entries !! index = Some e')
    by (apply list_lookup_insert_eq; by eapply lookup_lt_Some).
  destruct (snapshot_entry _ _ _ _ _ _ _ _ Hsnap' Hi' Hid') as (p' & Hp' & Hentry').
  destruct (rotated_secrets _ _ _ _ _ _ _ _ _ _ _ _ Hopens Hpf Hx (generated_lowercase random)
    Hcur Hfiles Hentry Hentry') as (K1 & K2 & K3 & [secret Ks]).
  assert (Hsame : same_access p p') by (eapply same_entry_access; [exact Hentry|exact Hentry'|exact Hothers]).
  assert (Hrest : forall other, other <> client_id -> store_find other store' = store_find other store).
  { intros other Hne. eapply snapshot_others; [|exact Hsnap|exact Hsnap'|exact Hi|exact Hid|exact Hid'| |exact Hne];
      [done|]. intros entry path Hin Hnot Hpath. simpl.
    destruct (rotation_target_suffix client_id current_file) as (suffix & Hsuffix & Etarget).
    rewrite Hfiles, Etarget. unfold Files. rewrite lookup_insert_ne; [done|]. intros E. by eapply Hown. }
  exists random, grace, p, p', secret. do 8 (split; [done|]). split; [|split].
  - intros now. unfold rotation_psk, overwrites. rewrite K2, K3, Ks, Hf, Hcur. fold store.
    destruct (decide _) as [E|E]; [by rewrite bool_decide_true|by rewrite bool_decide_false].
  - exact Hrest.
  - eexists. split; [exact Hposted|].
    apply (rotation_keeps_sessions _ _ _ _ p p'); [done|done|apply Hsame|].
    intros c Hc'. destruct (decide (c = client_id)) as [|Hne]; [done|]. exfalso. rewrite Hchanged in Hc'.
    apply compute_changed_exact in Hc'; [|apply Horder|apply Horder]. apply Hc'. simpl.
    change (revision_fingerprint <$> store_find c store = revision_fingerprint <$> store_find c store').
    by rewrite Hrest.
Qed.

(** ** An example *)

Definition plain_indented : IndentedDump := {|
  json_dump_indented j :=
    if all_strings ipc_is_valid_utf8 j then Some (positive_text (encode j)) else None
|}.

Lemma plain_indented_laws : @IndentedDumpLaws policy_json plain_indented.
Proof.
  split; intros j p; simpl.
  - unfold printable. destruct (all_strings _ j); [|done]. simpl.
    destruct (all_floats is_finite j) eqn:Ef; [|done]. simpl. intros Hn [= <-].
    rewrite text_positive_text. cbn [mbind option_bind]. rewrite decode_encode. cbn [mbind option_bind].
    by rewrite Hn, Ef.
  - by destruct (all_strings _ j).
Qed.

Lemma plain_opens_what_is_there : opens_what_is_there plain_opening.
Proof.
  intros path [n|] file status data; [|done]. intros [= <-] [= <-] Hr. exists n. split; [done|].
  cbn [of_reads node_status fs_size] in Hr. rewrite read_whole in Hr. congruence.
Qed.

Definition sample_outside : Outside :=
  mkOutside success plain_opening plain_opening (sample_writes "/p/.s") (sample_writes "/p/.p")
    (Some (repeat Byte.x5a 32)) 1000.

(** The server with one client whose secret is configured as [psk_file]. *)
Definition server_with (psk_file : bytes) : AdminState :=
  let document := JObject [(bs "clients", JArray [sample_entry sample_client psk_file]);
                           (bs "format_version", JUnsigned 1)] in
  let text := positive_text (encode document) in
  let disk := mkDisk (<[sample_path := own_file text]>
                       (<[bs "/p/" ++ sample_client ++ bs ".psk" := own_file (bs "secret")]> ∅)) [] in
  let snap := ok_or ∅ (@build_snapshot (@disk_system plain_system plain_opening disk) no_addresses
                         tail_digest document (bs "/p") sample_limits) in
  mkAdminState (mkPolicyState disk (mkClientPolicyStore sample_path sample_limits snap text)) true 0 0 [].

Abbreviation sample_rotation psk_file := (@rotate_psk plain_system policy_json plain_indented no_addresses
  tail_digest sample_order true 600 sample_outside sample_client [] (server_with psk_file)).

Definition canonical_file : bytes := sample_client ++ bs ".psk".

Definition ok_response (r : outcome HandlerFailure ManagementResponse) : ManagementResponse :=
  match r with Ok a => a | Err _ => mkManagementResponse 0 [] [] [] end.

Lemma sample_in_sync :
  @in_sync plain_system policy_json no_addresses tail_digest plain_opening
    (as_policies (server_with canonical_file)) sample_document.
Proof. split; [by vm_compute|]. apply ok_or_eq. by vm_compute. Qed.

Lemma sample_places :
  @rotation_places plain_system sample_outside sample_client (server_with canonical_file).
Proof.
  split.
  - intros suffix Hs. apply elem_of_cons in Hs as [->|Hs]; [by vm_compute|].
    apply list_elem_of_singleton in Hs as ->. by vm_compute.
  - intros temporary [= <-]. by vm_compute.
Qed.

Lemma sample_own : @own_secrets plain_system sample_client (server_with canonical_file) sample_document.
Proof.
  unfold own_secrets. cbv zeta. intros entries entry path suffix He Hin Hn. vm_compute in He. injection He as <-.
  apply list_elem_of_singleton in Hin as ->. by vm_compute in Hn.
Qed.

Lemma psk_rotation_exact_witness :
  exists p' secret,
    store_find sample_client (ps_store (as_policies (sample_rotation canonical_file).2)) = Some p' /\
    secret = bs "secret" /\
    rotation_psk p' 1599 = Some secret /\ rotation_psk p' 1600 = None.
Proof.
  destruct (@psk_rotation_exact plain_system policy_json plain_indented no_addresses tail_digest
    policy_json_numbers plain_indented_laws sample_order true 600 sample_outside sample_client []
    (server_with canonical_file) sample_document (ok_response (sample_rotation canonical_file).1)
    (sample_rotation canonical_file).2)
    as (random & grace & p & p' & secret & _ & Hg & _ & Hp & Hs & Hp' & _ & _ & Hrot & _).
  - apply sample_order_iterates.
  - apply plain_opens_what_is_there.
  - by vm_compute.
  - apply sample_in_sync.
  - apply sample_places.
  - apply sample_own.
  - apply pair_fst. by vm_compute.
  - exists p', secret. split; [exact Hp'|]. vm_compute in Hg. injection Hg as <-.
    assert (E : psk <$> store_find sample_client (ps_store (as_policies (server_with canonical_file))) =
      Some (Some (bs "secret"))) by (by vm_compute).
    rewrite Hp in E. simpl in E. split; [congruence|]. clear -Hrot. split; [exact (Hrot 1599)|exact (Hrot 1600)].
Defined.

(** The rotation compares the spelling of the configured file with the canonical name.  If
    the secret in use is in the canonical file under another spelling, the generated secret
    overwrites it: the policy then has the new secret as its own predecessor, and the
    outgoing secret is refused at once although the grace has just begun. *)
Theorem rotation_overwrites_outgoing_secret :
  let s := server_with (bs "./" ++ canonical_file) in
  let s' := (sample_rotation (bs "./" ++ canonical_file)).2 in
  is_ok (sample_rotation (bs "./" ++ canonical_file)).1 = true /\
  psk <$> store_find sample_client (ps_store (as_policies s)) = Some (Some (bs "secret")) /\
  exists p', store_find sample_client (ps_store (as_policies s')) = Some p' /\
    rotation_psk p' 1000 = psk p' /\ psk p' <> Some (bs "secret").
Proof.
  split; [by vm_compute|]. split; [by vm_compute|]. eexists.
  split; [vm_compute; reflexivity|]. split; [by vm_compute|by vm_compute].
Qed.

(** A refused change of a client still changes its secret: the file is written before the
    document is validated.  Here the quota exceeds the server's limit; the request is
    answered with an error and the policies are as before, but the next reload takes the
    secret of the refused request. *)
Definition refused_body : bytes :=
  positive_text (encode (JObject [(bs "max_tunnels", JUnsigned 4000); (bs "psk", JString (bs "other"))])).

Definition refused_upsert : AdminState :=
  (@upsert_client plain_system policy_json plain_indented no_addresses tail_digest sample_order true
     (fun _ => 0) sample_outside sample_client refused_body (server_with canonical_file)).2.

Theorem refused_upsert_changes_secret :
  (@upsert_client plain_system policy_json plain_indented no_addresses tail_digest sample_order true
     (fun _ => 0) sample_outside sample_client refused_body (server_with canonical_file)).1 =
    Err (Refused (name_error "max_tunnels" " is outside the server limit")) /\
  psk <$> store_find sample_client (ps_store (as_policies refused_upsert)) = Some (Some (bs "secret")) /\
  psk <$> store_find sample_client (ps_store (as_policies
    (@apply_policy_update plain_system policy_json no_addresses tail_digest sample_order true
       sample_outside None refused_upsert).2)) = Some (Some (bs "other")).
Proof. split; [by vm_compute|]. split; by vm_compute. Qed.
